(* ===== verification/_CoqProject ===== *)
-Q . S2P
Prelude.v
Lopt.v
LoptSpec.v
LoptLossless.v
KVBlocks.v
QueueSpec.v
Request.v
BlockHash.v
KVCacheMetrics.v
BlockPool.v
BlockPoolSpec.v
KVInvariant.v
KVCacheInterface.v
SingleTypeManagers.v
KVMemory.v
ManagerSpec.v
Coordinator.v
CoordinatorSpec.v
KVCacheManager.v
KVCacheManagerSpec.v
KVMemorySpec.v
KVGroups.v
CacheHits.v
LookupSound.v
KVService.v
KVServiceImpl.v
OrderedDict.v
EncoderCache.v
EncoderCacheSpec.v
HeapQueue.v
RequestQueue.v
RequestQueueSpec.v
SchedulerState.v
SchedulerEncoder.v
Schedule.v
SchedulerInvariant.v
ScheduleFrame.v
ScheduleRunning.v
ScheduleWaiting.v
ScheduleSpec.v
SchedulerUpdate.v
EngineInvariant.v
EngineCalls.v
UpdateSpec.v
Engine.v
EngineOutputs.v
EngineCore.v
EngineCoreSpec.v
PyFloat.v
Offload.v
OffloadSpec.v
LruSpec.v
Arc.v
ArcSpec.v
OffloadJobs.v
OffloadConnector.v
OffloadConnectorSpec.v
OffloadWorker.v
OffloadWorkerSpec.v
OffloadTransfer.v
OffloadTransferSpec.v
OffloadStreams.v
OffloadSetup.v
OffloadSetupSpec.v
Ngram.v
NgramSpec.v
Detokenizer.v
DetokenizerSpec.v
Logprobs.v
LogprobsSpec.v
RequestOutputs.v
OutputProcessor.v
OutputProcessorSpec.v
OutputInvariant.v
OutputHistory.v
OutputStreams.v
Frontend.v
FrontendSpec.v
InprocClient.v
AsyncSpec.v
