(* ===== verification/Prelude.v ===== *)
(** * LoPT and the scheduling core of vLLM: a verification library

    This library models the program logic of four parts of the repository as
    pure functions and state-passing programs, and proves what makes them
    correct:

    - the lossless parallel tokenizer LoPT (vllm/tokenizers/lopt_utils.py,
      vllm/tokenizers/lopt_wrapper.py, benchmarks/csrc/match_merge.cpp);
    - the core of the v1 engine: requests, the KV cache (block pool, prefix
      cache, per-attention managers, memory planning), the encoder cache, the
      waiting queues, the scheduler, the n-gram drafter and the loop of the
      engine (vllm/v1/core/, vllm/v1/engine/core.py, vllm/v1/request.py,
      vllm/v1/kv_cache_interface.py, vllm/v1/spec_decode/ngram_proposer.py);
    - the offloading of KV blocks to the memory of the CPU (vllm/v1/kv_offload/,
      vllm/distributed/kv_transfer/kv_connector/v1/offloading_connector.py);
    - the output side and the front ends of the engine: detokenization, log
      probabilities, outputs, the output processor, [LLMEngine] and [AsyncLLM]
      (vllm/v1/engine/detokenizer.py, logprobs.py, output_processor.py,
      parallel_sampling.py, llm_engine.py, async_llm.py; vllm/outputs.py,
      vllm/logprobs.py).

    ** How the parts interact

    A request enters the engine ([EngineCore.core_add_request]), which adds it to
    the scheduler ([SchedulerUpdate.sched_add_request]), and
    waits in a queue ([RequestQueue]).  Each step ([Schedule.schedule]) takes
    running requests first and then waiting ones, asks the KV cache manager for
    slots ([KVCacheManager.allocate_slots]) and the encoder cache for room, and
    returns the tokens to compute; [SchedulerUpdate.update_from_output] takes
    the sampled tokens back, stops requests and frees their blocks.  The KV
    cache manager calls a coordinator ([Coordinator]), which calls one manager
    per group of layers ([SingleTypeManagers]), all on one block pool
    ([BlockPool]), whose free blocks are an intrusive doubly linked list
    ([KVBlocks]) and whose prefix cache is keyed by the chained hashes of
    [BlockHash].

    The offloading connector is called by the scheduler and by the worker.  Its
    scheduler side ([OffloadConnector]) asks a manager of offloaded blocks
    ([Offload.OffloadingManager]; the policies [Offload.lru_manager] and
    [Arc.arc_manager], on the backend [Offload.CPUBackend]) which blocks there
    are and where, and plans loads and stores; its worker side
    ([OffloadWorker]) submits them as jobs to the handlers ([OffloadTransfer]),
    which copy pages between the two memories on CUDA streams.

    An application adds requests to a front end ([Frontend.LLMEngine],
    [Frontend.AsyncLLM]), which registers them, or the children of parallel
    samples, with the output processor
    ([OutputProcessor.op_add_request]) and sends them to the engine core
    through a client ([Frontend.EngineClient]).  The outputs of the core go
    through [OutputProcessor.process_outputs]: each updates the detokenizer
    ([Detokenizer.inc_update]) and the log probabilities
    ([Logprobs.lp_update_from_output]) of its request, and what is due is
    returned or put into a collector ([RequestOutputs.collector_put]), where a
    consumer reads it.  Requests that end with a stop string, and those that
    are aborted, are then aborted in the core.

    ** Conventions

    Integers are unbounded, as in Python; in the C++ extension of LoPT ([Cpp])
    lengths and arguments have the width of the code's types, and in the n-gram
    tables and the ids of transfers likewise.  Effects are the monad
    [M S A := S → res A * S] of this file: a state that survives an exception,
    and a result that is a value or a Python exception.  A call on an
    attribute of an object is a [zoom].  Objects that are shared and mutated
    (blocks, requests, queues) live in explicit stores and are referred to by
    locations, so aliasing is that of the code.  Records are updated with
    functions [set_<field>].  Loops that are not structural have fuel;
    [OutOfFuel] is no Python exception, and theorems show that it does not
    occur: the fuel is the number of blocks or tokens left, the length of the
    list, or the number of freeable entries, as the comment at the definition
    says.

    Code outside the repository is a parameter: the hash function, numpy
    (interface [NdArray]) and the tokenizer of Hugging Face, the order in which
    Python iterates over a set, the clock and the random generator, the
    connectors, the grammar backend and the event publisher.

    ** The files

    - [Prelude]: exceptions, the monad, Python's slices, indices and ranges,
      tactics ([split_if], [record_set], [step] automation), generic lemmas.

    Lossless parallel tokenization:
    - [Lopt]: chunking, token starts, matching and merging in Python and C++,
      the wrapper with its fallbacks.
    - [LoptSpec]: chunks cover the text, [match_] finds the longest run, the two
      merges agree (within the widths of the C++ types).
    - [LoptLossless]: for every local tokenizer the parallel tokenization is
      the serial one.

    KV cache:
    - [KVBlocks] and [QueueSpec]: blocks and the free queue
      (kv_cache_utils.py, [FreeKVCacheBlockQueue]); it refines a list.
    - [Request], [BlockHash]: requests (request.py, sched/utils.py) and block
      hashes (kv_cache_utils.py, lines 30-135 and 400-600).
    - [KVCacheMetrics], [BlockPool], [BlockPoolSpec]: the pool with its prefix
      cache, events and metrics; histories of calls.
    - [KVInvariant]: the joint invariant of pool and block tables.
    - [KVCacheInterface], [SingleTypeManagers], [ManagerSpec]: specifications
      of layers and their managers; the steps of a request of a sliding-window
      layer within the pages reserved for it.
    - [Coordinator], [CoordinatorSpec], [KVCacheManager], [KVCacheManagerSpec]:
      the loops over the groups, the interface of the scheduler; the states that
      the calls of the scheduler reach ([kv_reach]: no cross attention, sinks or
      encoder-only groups, external tokens with a single group only),
      allocation and freeing.
    - [CacheHits], [LookupSound]: the lookup of the longest cached prefix, and
      the soundness of the lookups of all types of layers.
    - [KVMemory], [KVMemorySpec], [KVGroups]: memory planning
      (kv_cache_utils.py, lines 600-1566).

    Scheduler:
    - [OrderedDict], [EncoderCache], [EncoderCacheSpec]: insertion-ordered
      dictionaries and the encoder cache.
    - [HeapQueue], [RequestQueue], [RequestQueueSpec]: Python's heapq, the two
      queues and their common contract.
    - [SchedulerState], [SchedulerEncoder], [Schedule], [SchedulerUpdate]: the
      scheduler's state and a step of it.
    - [KVService], [KVServiceImpl]: what the KV cache manager promises to the
      scheduler, as a type class, and the instance for the manager of
      [KVCacheManager] (no prefix caching, or one group of layers).
    - [SchedulerInvariant], [ScheduleFrame], [ScheduleRunning],
      [ScheduleWaiting], [ScheduleSpec]: a step raises nothing, keeps the
      invariant and its budgets; proved against [KVService], for text requests
      without connectors.
    - [EngineInvariant], [EngineCalls], [UpdateSpec], [Engine]: the scheduler
      between its calls, with any number of steps in flight; all sequences of
      additions, aborts, schedulings and results, for the synchronous scheduler
      of text requests whose prompt and minimum of output tokens fit the model.
    - [EngineOutputs]: what outputs say of each request, as a
      change of a map from requests to tokens, and that the scheduler's outputs
      say what happened.
    - [EngineCore], [EngineCoreSpec]: the loop of the engine (engine/core.py)
      with and without the batch queue, over an executor.
    - [Ngram], [NgramSpec]: the n-gram drafter.

    Offloading:
    - [PyFloat]: Python's numbers, for the target size of the
      adaptive policy: IEEE doubles by the Standard Library's [SpecFloat].
    - [Offload], [OffloadSpec]: backends, the interface of managers and the LRU
      policy (backend.py, backends/cpu.py, abstract.py, lru_manager.py); the
      promises of a backend and of a policy as type classes ([BackendLaws],
      [PolicyLaws]), and what the loops of the policies do.
    - [LruSpec], [Arc], [ArcSpec]: the instances of [PolicyLaws] for the two
      policies (arc_manager.py).
    - [OffloadJobs]: loads and stores in any order, for every policy.
    - [OffloadConnector], [OffloadConnectorSpec]: the scheduler side of the
      connector, over any policy.
    - [OffloadWorker], [OffloadWorkerSpec]: the worker side, over any handlers
      (worker/worker.py and [OffloadingConnectorWorker]).
    - [OffloadTransfer], [OffloadTransferSpec], [OffloadStreams]: the handlers
      (worker/cpu_gpu.py), the pages that they copy, and their histories on
      a device with streams and events, as a step relation.
    - [OffloadSetup], [OffloadSetupSpec]: the construction (spec.py, cpu.py,
      factory.py, the tensors of cpu_gpu.py).

    Output side and front ends:
    - [Detokenizer], [DetokenizerSpec]: fast and slow incremental
      detokenization (detokenizer.py, detokenizer_utils.py), over tokenizers and
      decode streams as parameters; stop strings, and what is released when.
      [TotalDecoder] is what a decoder promises to the rest.
    - [Logprobs], [LogprobsSpec]: the two containers of log probabilities, with
      slices of any step, and their processor.
    - [RequestOutputs]: outputs and their merging,
      parents of parallel samples, collectors.
    - [OutputProcessor]: request states and the processor, on stores of parents
      and collectors.
    - [OutputProcessorSpec]: what a request puts out at a step.
    - [OutputInvariant]: the invariant, kept by processing and aborting.
    - [OutputHistory], [OutputStreams]: additions, and worlds of a processor,
      collectors and consumers; all histories.
    - [Frontend], [FrontendSpec]: [LLMEngine] and [AsyncLLM] (cut at its awaits)
      over [EngineClient]; [EngineClientLaws] is the contract of a client, under
      which [LLMEngine] and the core agree.
    - [InprocClient]: the engine core in the process of the engine
      as a client (core_client.py), which keeps the contract; so the engine is
      right from the call to the scheduler and back.
    - [AsyncSpec]: [AsyncLLM] and a core in another process as a step relation
      over the messages between them.

    ** What the theorems show

    - State invariants over all histories: free and used blocks add up,
      reference counts are the numbers of uses, an uncached block belongs to
      one request ([kv_blocks_accounted]); lookups are sound and complete
      ([history_lookup_exact]); encoder slots are accounted
      ([encoder_cache_accounted]).
    - Text generation with the synchronous scheduler ([sc_async] is false),
      without speculative decoding, LoRA, connectors, pooling and multi-modal
      inputs, which the definitions handle and these theorems leave out: safety
      of a whole scheduling step, over all components it calls
      ([schedule_safe]), of every sequence of calls of the scheduler
      ([engine_never_raises]) and of the engine's loop
      ([engine_core_never_fails]); and an answered request leaves at last
      ([answered_requests_end]), if its prompt and its minimum of output tokens
      fit the model.
    - The composition of all, in the same setting: results reach requests and clients exactly
      ([update_outputs_exact]), and an engine with its core in its process serves
      its requests, token by token ([engine_serves_requests]).
    - Safety of offloading: no block of a transfer in flight is evicted
      ([offload_history_safe]), what is announced can be loaded
      ([connector_load_accepted]), and what was stored is loaded back
      ([connector_store_copies], under the LRU policy; [stored_blocks_load_back]);
      the LRU policy evicts the oldest idle blocks and no more
      ([lru_store_evicts_oldest]); jobs end in order
      and are reported exactly ([transfers_in_order], [worker_reports_exact]).
    - The output side: streams are delivered exactly ([streams_exact]), the
      processor's books are right in every history ([processor_bookkeeping]),
      and its requests are those of the engine core, in one process over any
      client ([llm_engine_agrees]) and over messages ([async_requests_agree]); the
      search for stop strings misses nothing ([stop_check_is_search]) and flat
      log probabilities are a list, but for the slices that the theorem names
      ([flat_logprobs_refine_list]).  The histories are for sampling requests
      with a working detokenizer and without log probabilities, parallel samples
      that are not final only, and aborts by external ids, of one id or of
      distinct live ids.
    - Functional behaviour on all branches: [allocate_slots_correct],
      [free_releases_request], [full_lookup_is_longest],
      [can_allocate_reserves], [match_finds_longest_run], [unified_page_size].
    - Refinement and equivalence: [queue_refines_list],
      [request_queue_refines_abstract], [lopt_lossless],
      [incremental_hashing_is_scratch], [propose_is_brute_force].
    - Bounds and termination: [sliding_window_pages_suffice],
      [estimated_length_is_largest], [worker_configs_fit], [chunks_cover],
      [cpu_tensors_fit_budget].
    - Behaviour the code's comments exclude: concrete runs that end in a wrong
      state or an exception ([external_allocation_steals_hit],
      [memory_check_admits_unservable], [incremental_hash_forgets_image],
      [connector_arc_store_raises], [hnd_layout_refused], [min_tokens_never_end],
      [lookahead_exceeds_pages], [shared_layers_exceed_budget] and others).

    ** Not modelled

    Tensor computation and kernels, model definitions, network servers, process
    and device management: calls of libraries with little logic of their own.
    Within the modelled files: logging, values that pass through unread (routed
    experts, trace headers, LoRA requests, performance statistics), the
    construction of objects from the configuration, the tensor branches of
    LoPT's helpers, the sockets and threads around the engine's loop, the input
    processor of the front ends.  A completion in cumulative mode holds the
    tokens of its moment, where the code shares the list of the request.  The
    connectors of the scheduler are plugins: the scheduler is modelled over
    their interface, and of them the offloading connector alone.  CUDA is
    modelled by the documented behaviour of streams and events, and a transfer
    copies all its pages in one step of the device. *)

From stdpp Require Export base gmap sets list strings fin_maps.
From Stdlib Require Export ZArith Lia.

Open Scope Z_scope.

(** * Exceptions and the state-and-exception monad *)

(** The Python exceptions the modelled code raises.  [OutOfFuel] is no Python
    exception: it marks a loop whose fuel ran out, and theorems show that it
    never happens where a loop is modelled with fuel. *)
Inductive exc :=
  | ValueError | AssertionError | RuntimeError | KeyError | IndexError
  | AttributeError | NotImplementedError | OverflowError | ZeroDivisionError
  | TypeError
  | StopIteration
  | Exception_                    (** [Exception] itself *)
  | EngineDeadError | EngineGenerateError
  | OutOfFuel.

#[export] Instance exc_eq_dec : EqDecision exc.
Proof. solve_decision. Defined.

Inductive res (A : Type) :=
  | Ok (a : A)
  | Raise (e : exc).
Arguments Ok {A} a.
Arguments Raise {A} e.

(** A computation over a state [S].  The state at the moment of an exception
    is kept, as Python keeps the mutations made before it. *)
Definition M (S A : Type) : Type := S → res A * S.

Definition ret {S A} (a : A) : M S A := λ s, (Ok a, s).
Definition raise {S A} (e : exc) : M S A := λ s, (Raise e, s).
Definition bind {S A B} (m : M S A) (k : A → M S B) : M S B :=
  λ s, match m s with
       | (Ok a, s') => k a s'
       | (Raise e, s') => (Raise e, s')
       end.
Definition get {S} : M S S := λ s, (Ok s, s).
Definition gets {S A} (f : S → A) : M S A := λ s, (Ok (f s), s).
Definition modify {S} (f : S → S) : M S unit := λ s, (Ok tt, f s).
Definition assert_ {S} (b : bool) : M S unit :=
  if b then ret tt else raise AssertionError.
(** Dereference of an optional value ([None] has no such attribute). *)
Definition of_option {S A} (e : exc) (o : option A) : M S A :=
  match o with Some a => ret a | None => raise e end.
Definition of_res {S A} (r : res A) : M S A := λ s, (r, s).

Declare Scope py_scope.
Delimit Scope py_scope with py.
Notation "'let*' x ':=' m 'in' k" := (bind m (λ x, k))
  (at level 10, x pattern, m at level 100, k at level 200)
  : py_scope.
Notation "m ';;;' k" := (bind m (λ _, k))
  (at level 199, k at level 200, right associativity) : py_scope.
Open Scope py_scope.

(** Sequencing of results without a state. *)
Definition rbind {A B} (r : res A) (k : A → res B) : res B :=
  match r with Ok a => k a | Raise e => Raise e end.
Notation "'letr' x ':=' m 'in' k" := (rbind m (λ x, k))
  (at level 10, x pattern, m at level 100, k at level 200)
  : py_scope.

Lemma rbind_ok {A B} (r : res A) (k : A → res B) a : r = Ok a → rbind r k = k a.
Proof. by intros ->. Qed.
Lemma rbind_ok_inv {A B} (r : res A) (k : A → res B) b :
  rbind r k = Ok b → ∃ a, r = Ok a ∧ k a = Ok b.
Proof. destruct r; naive_solver. Qed.

(** The values of a list of results, or the first exception. *)
Fixpoint collect {A} (rs : list (res A)) : res (list A) :=
  match rs with
  | [] => Ok []
  | Raise e :: _ => Raise e
  | Ok a :: rs => match collect rs with Ok l => Ok (a :: l) | Raise e => Raise e end
  end.

Lemma collect_total {A} (rs : list (res A)) :
  (∀ r, r ∈ rs → ∃ a, r = Ok a) →
  ∃ l, collect rs = Ok l ∧ length l = length rs ∧ ∀ i a, l !! i = Some a → rs !! i = Some (Ok a).
Proof.
  induction rs as [|r rs IH]; intros Hr; simpl; [by exists []|].
  destruct (Hr r) as [a ->]; [by left|].
  destruct IH as (l & -> & Hlen & Hl); [intros; apply Hr; by right|].
  exists (a :: l). split; [done|]. split; [simpl; lia|]. intros [|i] x; simpl; [congruence|apply Hl].
Qed.

(** [for x in xs: body x] *)
Fixpoint for_ {S A} (xs : list A) (body : A → M S unit) : M S unit :=
  match xs with
  | [] => ret tt
  | x :: xs => body x ;;; for_ xs body
  end.

(** [\[body x for x in xs\]] *)
Fixpoint mapM {S A B} (body : A → M S B) (xs : list A) : M S (list B) :=
  match xs with
  | [] => ret []
  | x :: xs =>
      let* y := body x in
      let* ys := mapM body xs in
      ret (y :: ys)
  end.

(** Run a computation on a component of the state. *)
Definition zoom {S T A} (proj : S → T) (put : T → S → S) (m : M T A) : M S A :=
  λ s, let '(r, t) := m (proj s) in (r, put t s).

Section monad_laws.
Context {S A B : Type}.
Implicit Types (m : M S A) (k : A → M S B) (s : S).

Lemma bind_ok m k s a s' : m s = (Ok a, s') → bind m k s = k a s'.
Proof. intros H. unfold bind. by rewrite H. Qed.

Lemma bind_raise m k s e s' :
  m s = (Raise e, s') → bind m k s = (Raise e, s').
Proof. intros H. unfold bind. by rewrite H. Qed.

Lemma bind_ok_inv m k s b s' :
  bind m k s = (Ok b, s') → ∃ a s1, m s = (Ok a, s1) ∧ k a s1 = (Ok b, s').
Proof. unfold bind. destruct (m s) as [[a|e] s1]; naive_solver. Qed.

Lemma bind_ret_l (a : A) k s : bind (ret a) k s = k a s.
Proof. done. Qed.
Lemma bind_gets (f : S → A) k s : bind (gets f) k s = k (f s) s.
Proof. done. Qed.
Lemma bind_of_res (a : A) k s : bind (of_res (Ok a)) k s = k a s.
Proof. done. Qed.
Lemma bind_modify (f : S → S) (k : unit → M S B) s :
  bind (modify f) k s = k tt (f s).
Proof. done. Qed.
Lemma bind_assert_true (b : bool) (k : unit → M S B) s :
  b = true → bind (assert_ b) k s = k tt s.
Proof. by intros ->. Qed.
Lemma bind_assoc {C} m k (h : B → M S C) s :
  bind (bind m k) h s = bind m (λ a, bind (k a) h) s.
Proof. unfold bind. by destruct (m s) as [[a|e] s1]. Qed.
End monad_laws.

(** A loop that reads the state only. *)
Lemma mapM_read {S A B} (P : A → B → Prop) (body : A → M S B) xs s :
  (∀ x, x ∈ xs → ∃ y, body x s = (Ok y, s) ∧ P x y) →
  ∃ ys, mapM body xs s = (Ok ys, s) ∧ Forall2 P xs ys.
Proof.
  induction xs as [|x xs IH]; intros Hb; simpl; [by exists []|].
  destruct (Hb x ltac:(by left)) as (y & Hy & HP). rewrite (bind_ok _ _ _ _ _ Hy).
  destruct IH as (ys & Hys & HPs); [intros z Hz; apply Hb; by right|].
  rewrite (bind_ok _ _ _ _ _ Hys). exists (y :: ys). split; [done|by constructor].
Qed.

Lemma for_app {S A} (xs ys : list A) (body : A → M S unit) s :
  for_ (xs ++ ys) body s = (for_ xs body ;;; for_ ys body) s.
Proof.
  revert s. induction xs as [|x xs IH]; intros s; [done|]. simpl.
  unfold bind at 1 3. unfold bind. destruct (body x s) as [[[]|e] s1]; [|done].
  apply IH.
Qed.

(** An invariant that every iteration keeps, and that makes every iteration
    succeed, makes the whole loop succeed. *)
Lemma for_inv {S A} (I : list A → S → Prop) (body : A → M S unit) xs s :
  I xs s →
  (∀ x rest s1, I (x :: rest) s1 →
     ∃ s2, body x s1 = (Ok tt, s2) ∧ I rest s2) →
  ∃ s', for_ xs body s = (Ok tt, s') ∧ I [] s'.
Proof.
  intros HI Hstep. revert s HI. induction xs as [|x xs IH]; intros s HI; [by exists s|].
  destruct (Hstep x xs s HI) as (s2 & Hb & HI2).
  destruct (IH s2 HI2) as (s' & Hf & HI'). exists s'. split; [|done].
  simpl. by rewrite (bind_ok _ _ _ _ _ Hb).
Qed.

(** * Python integers and sequences *)

(** [cdiv(a, b) = -(a // -b)] (vllm/utils/math_utils.py). *)
Definition cdiv (a b : Z) : Z := - (a / - b).

Lemma cdiv_spec a b : 0 < b → (cdiv a b - 1) * b < a ≤ cdiv a b * b.
Proof.
  intros Hb. unfold cdiv.
  pose proof (Z.div_mod a (- b) ltac:(lia)) as Hd.
  pose proof (Z.mod_neg_bound a (- b) ltac:(lia)) as Hm.
  nia.
Qed.

Lemma cdiv_le_iff a b k : 0 < b → cdiv a b ≤ k ↔ a ≤ k * b.
Proof. intros Hb. pose proof (cdiv_spec a b Hb). nia. Qed.

Lemma cdiv_lt_iff a b k : 0 < b → k < cdiv a b ↔ k * b < a.
Proof. intros Hb. pose proof (cdiv_le_iff a b k Hb). lia. Qed.

(** Length as a Python integer. *)
Definition len {A} (l : list A) : Z := Z.of_nat (length l).

Lemma len_nonneg {A} (l : list A) : 0 ≤ len l.
Proof. unfold len. lia. Qed.
Lemma len_app {A} (l k : list A) : len (l ++ k) = len l + len k.
Proof. unfold len. rewrite length_app. lia. Qed.
Lemma len_cons {A} (x : A) l : len (x :: l) = 1 + len l.
Proof. unfold len. simpl. lia. Qed.

Lemma elem_of_drop_list {A} n (l : list A) a : a ∈ drop n l → a ∈ l.
Proof. intros Ha. rewrite <- (take_drop n l). apply elem_of_app. by right. Qed.

Lemma lookup_map {A B} (f : A → B) (l : list A) i : map f l !! i = f <$> l !! i.
Proof. exact (list_lookup_fmap f l i). Qed.

Lemma filter_all {A} (P : A → Prop) `{∀ x, Decision (P x)} (l : list A) :
  (∀ a, a ∈ l → P a) → filter P l = l.
Proof.
  induction l as [|x l IH]; intros Hl; [done|].
  rewrite filter_cons_True by (apply Hl; by left). rewrite IH; [done|]. intros a Ha.
  apply Hl. by right.
Qed.

Lemma filter_none {A} (P : A → Prop) `{∀ x, Decision (P x)} l :
  (∀ x, x ∈ l → ¬ P x) → filter P l = [].
Proof.
  induction l as [|x l IH]; intros Hl; [done|]. rewrite filter_cons_False by (apply Hl; by left).
  apply IH. intros y Hy. apply Hl. by right.
Qed.
Lemma filter_ext_in {A} (P Q : A → Prop) `{∀ x, Decision (P x)} `{∀ x, Decision (Q x)}
    (l : list A) :
  (∀ a, a ∈ l → P a ↔ Q a) → filter P l = filter Q l.
Proof.
  induction l as [|x l IH]; intros Hl; [done|].
  assert (Hx : P x ↔ Q x) by (apply Hl; by left).
  assert (Ht : filter P l = filter Q l) by (apply IH; intros a Ha; apply Hl; by right).
  destruct (decide (P x)).
  - rewrite !filter_cons_True by tauto. by rewrite Ht.
  - rewrite !filter_cons_False by tauto. done.
Qed.

(** The number of occurrences. *)
Definition occ {A} `{EqDecision A} (a : A) (l : list A) : Z := len (filter (λ b, b = a) l).

Lemma occ_cons {A} `{EqDecision A} (a x : A) l :
  occ a (x :: l) = (if decide (a = x) then 1 else 0) + occ a l.
Proof.
  unfold occ. destruct (decide (a = x)) as [->|].
  - rewrite filter_cons_True, len_cons by done. done.
  - rewrite filter_cons_False by done. lia.
Qed.
Lemma occ_app {A} `{EqDecision A} (a : A) l1 l2 : occ a (l1 ++ l2) = occ a l1 + occ a l2.
Proof. unfold occ. rewrite filter_app, len_app. done. Qed.
Lemma occ_perm {A} `{EqDecision A} (a : A) l1 l2 : l1 ≡ₚ l2 → occ a l1 = occ a l2.
Proof. intros Hp. unfold occ, len. by rewrite Hp. Qed.
Lemma occ_nonneg {A} `{EqDecision A} (a : A) l : 0 ≤ occ a l.
Proof. apply len_nonneg. Qed.
Lemma occ_pos {A} `{EqDecision A} (a : A) l : 0 < occ a l ↔ a ∈ l.
Proof.
  induction l as [|x l IH]; [unfold occ, len; simpl; split; [lia|set_solver]|].
  rewrite occ_cons, elem_of_cons. pose proof (occ_nonneg a l).
  destruct (decide (a = x)); [split; [tauto|lia]|]. rewrite Z.add_0_l, IH. tauto.
Qed.
Lemma occ_absent {A} `{EqDecision A} (a : A) l : a ∉ l → occ a l = 0.
Proof. intros Ha. pose proof (occ_nonneg a l). rewrite <- occ_pos in Ha. lia. Qed.
Lemma occ_nodup {A} `{EqDecision A} (a : A) l : NoDup l → occ a l ≤ 1.
Proof.
  induction 1 as [|x l Hx _ IH]; [unfold occ, len; simpl; lia|]. rewrite occ_cons.
  destruct (decide (a = x)) as [->|]; [rewrite occ_absent by done|]; lia.
Qed.

Lemma nodup_occ {A} `{EqDecision A} (l : list A) : (∀ a, occ a l ≤ 1) → NoDup l.
Proof.
  induction l as [|x l IH]; intros Ho; [constructor|]. apply NoDup_cons. split.
  - intros Hx%occ_pos. specialize (Ho x). rewrite occ_cons, decide_True in Ho by done. lia.
  - apply IH. intros a. specialize (Ho a). rewrite occ_cons in Ho.
    destruct (decide (a = x)); lia.
Qed.

(** ** Machine integers *)

(** The value a 32-bit signed integer keeps of [z] ([ctypes.c_int32],
    [np.int32]). *)
Definition int32 (z : Z) : Z := (z + 2 ^ 31) mod 2 ^ 32 - 2 ^ 31.

Lemma int32_small z : - 2 ^ 31 ≤ z < 2 ^ 31 → int32 z = z.
Proof. intros Hz. unfold int32. rewrite Z.mod_small; lia. Qed.
Lemma int32_range z : - 2 ^ 31 ≤ int32 z < 2 ^ 31.
Proof. unfold int32. pose proof (Z.mod_pos_bound (z + 2 ^ 31) (2 ^ 32) ltac:(lia)). lia. Qed.

(** ** Slices, indices and ranges *)

(** A slice bound: negative bounds count from the end, and bounds are clamped
    to the sequence. *)
Definition py_bound {A} (l : list A) (i : Z) : nat :=
  Z.to_nat (Z.min (len l) (if decide (i < 0) then Z.max 0 (i + len l) else i)).

(** [l\[a:b\]], [l\[a:\]] and [l\[:b\]]. *)
Definition py_slice {A} (l : list A) (a b : Z) : list A :=
  drop (py_bound l a) (take (py_bound l b) l).
Definition py_from {A} (l : list A) (a : Z) : list A := drop (py_bound l a) l.
Definition py_upto {A} (l : list A) (b : Z) : list A := take (py_bound l b) l.

(** [l\[i\]]: a negative index counts from the end, out of range raises. *)
Definition py_index {A} (l : list A) (i : Z) : option A :=
  let j := if decide (i < 0) then i + len l else i in
  if decide (0 ≤ j) then l !! Z.to_nat j else None.

(** [range(a, b)] and [range(a, b, -1)]. *)
Definition py_range (a b : Z) : list Z :=
  map (λ i : nat, a + Z.of_nat i) (seq 0 (Z.to_nat (b - a))).
Definition py_range_down (a b : Z) : list Z :=
  map (λ i : nat, a - Z.of_nat i) (seq 0 (Z.to_nat (a - b))).

Lemma py_range_in a b j : j ∈ py_range a b ↔ a ≤ j < b.
Proof.
  unfold py_range. rewrite list_elem_of_fmap. split.
  - intros (i & -> & Hi%elem_of_seq). lia.
  - intros Hj. exists (Z.to_nat (j - a)). split; [lia|]. apply elem_of_seq. lia.
Qed.
Lemma py_range_nodup a b : NoDup (py_range a b).
Proof. unfold py_range. apply NoDup_fmap_2; [intros i j Hij; lia|]. apply NoDup_seq. Qed.
Lemma py_range_drop a n s : 0 ≤ s → drop (Z.to_nat s) (py_range a n) = py_range (a + s) n.
Proof.
  intros Hs. unfold py_range. rewrite skipn_map, drop_seq. apply list_eq. intros i. rewrite !lookup_map.
  destruct (decide (i < Z.to_nat (n - (a + s)))%nat).
  - rewrite !lookup_seq_lt by lia. simpl. f_equal. lia.
  - rewrite !lookup_seq_ge by lia. done.
Qed.
Lemma py_range_take a n e : take (Z.to_nat e) (py_range a n) = py_range a (Z.min n (a + Z.max 0 e)).
Proof. unfold py_range. rewrite firstn_map, take_seq. do 2 f_equal. lia. Qed.

Lemma py_bound_nonneg {A} (l : list A) i :
  0 ≤ i → py_bound l i = Z.to_nat (Z.min (len l) i).
Proof. intros. unfold py_bound. rewrite decide_False by lia. done. Qed.

Lemma py_from_nonneg {A} (l : list A) a :
  0 ≤ a → py_from l a = drop (Z.to_nat a) l.
Proof.
  intros Ha. unfold py_from. rewrite py_bound_nonneg by done. unfold len.
  destruct (decide (a ≤ Z.of_nat (length l))).
  - by rewrite Z.min_r by lia.
  - rewrite Z.min_l by lia. rewrite !drop_ge; [done|lia|lia].
Qed.

Lemma py_upto_nonneg {A} (l : list A) b :
  0 ≤ b → py_upto l b = take (Z.to_nat b) l.
Proof.
  intros Hb. unfold py_upto. rewrite py_bound_nonneg by done. unfold len.
  destruct (decide (b ≤ Z.of_nat (length l))).
  - by rewrite Z.min_r by lia.
  - rewrite Z.min_l by lia. rewrite !take_ge; [done|lia|lia].
Qed.

Lemma py_index_nonneg {A} (l : list A) i :
  0 ≤ i → py_index l i = l !! Z.to_nat i.
Proof.
  intros. unfold py_index. rewrite (decide_False (P := i < 0)) by lia.
  by rewrite decide_True by lia.
Qed.

Lemma py_slice_nonneg {A} (l : list A) a b :
  0 ≤ a → 0 ≤ b → py_slice l a b = drop (Z.to_nat a) (take (Z.to_nat b) l).
Proof.
  intros Ha Hb. unfold py_slice. fold (py_upto l b).
  rewrite py_upto_nonneg by done. rewrite py_bound_nonneg by done.
  unfold len. destruct (decide (a ≤ Z.of_nat (length l))).
  - by rewrite Z.min_r by lia.
  - rewrite Z.min_l by lia.
    rewrite (drop_ge _ (Z.to_nat _)), (drop_ge _ (Z.to_nat a));
      [done|rewrite length_take; lia|rewrite length_take; lia].
Qed.

(** Python [bytes]: a list of integers in [0, 255]. *)
Abbreviation bytes := (list Z).

(** * Automation *)

Create HintDb vllm.
#[export] Hint Resolve len_nonneg occ_nonneg : vllm.

(** Step through a monadic computation whose next action is pure. *)
Ltac mstep :=
  repeat first
    [ rewrite bind_ret_l | rewrite bind_gets | rewrite bind_modify
    | rewrite bind_assert_true by (done || lia || (apply bool_decide_eq_true_2; lia)) ].

(** Record update.  Given the eta-expansion [eta := λ r, mk (f1 r) ... (fn r)]
    of a record, [record_set eta f v] is the function that replaces the field
    [f] by [v] and keeps the others. *)
Ltac record_set eta proj v :=
  let body := eval cbv beta delta [eta] in eta in
  let t := eval pattern proj in body in
  lazymatch t with
  | ?g proj => let u := eval cbv beta in (g (fun _ => v)) in exact u
  end.

(** * Total-correctness triples *)

(** From every state satisfying [P] the computation returns (it raises
    nothing) and its result and final state satisfy [Q]. *)
Definition triple {S A} (P : S → Prop) (m : M S A) (Q : A → S → Prop) : Prop :=
  ∀ s, P s → ∃ a s', m s = (Ok a, s') ∧ Q a s'.

Section triples.
Context {S A B : Type}.
Implicit Types (P : S → Prop).

Lemma triple_ret P (a : A) (Q : A → S → Prop) :
  (∀ s, P s → Q a s) → triple P (ret a) Q.
Proof. intros H s Hs. exists a, s. auto. Qed.

Lemma triple_bind P (m : M S A) (k : A → M S B) R Q :
  triple P m R → (∀ a, triple (R a) (k a) Q) → triple P (bind m k) Q.
Proof.
  intros Hm Hk s Hs. destruct (Hm s Hs) as (a & s1 & Hr & Ha).
  destruct (Hk a s1 Ha) as (b & s2 & Hr2 & Hb). exists b, s2.
  by rewrite (bind_ok _ _ _ _ _ Hr).
Qed.

Lemma triple_conseq P P' (m : M S A) (Q Q' : A → S → Prop) :
  triple P' m Q' → (∀ s, P s → P' s) → (∀ a s, Q' a s → Q a s) → triple P m Q.
Proof.
  intros Hm HP HQ s Hs. destruct (Hm s (HP s Hs)) as (a & s1 & Hr & Ha).
  exists a, s1. auto.
Qed.

Lemma triple_pure (φ : Prop) P (m : M S A) Q :
  (φ → triple P m Q) → triple (λ s, φ ∧ P s) m Q.
Proof. intros H s [Hφ Hs]. by apply H. Qed.

Lemma triple_ex {X} (P : X → S → Prop) (m : M S A) Q :
  (∀ x, triple (P x) m Q) → triple (λ s, ∃ x, P x s) m Q.
Proof. intros H s [x Hs]. by apply (H x). Qed.

Lemma triple_gets P (f : S → A) : triple P (gets f) (λ a s, a = f s ∧ P s).
Proof. intros s Hs. by exists (f s), s. Qed.

Lemma triple_modify P (f : S → S) (Q : unit → S → Prop) :
  (∀ s, P s → Q tt (f s)) → triple P (modify f) Q.
Proof. intros H s Hs. exists tt, (f s). auto. Qed.

Lemma triple_assert P b : b = true → triple P (assert_ b) (λ _, P).
Proof. intros -> s Hs. by exists tt, s. Qed.

(** A read whose value the precondition determines. *)
Lemma triple_gets_val {T} P (f : S → T) v (k : T → M S B) Q :
  (∀ s, P s → f s = v) → triple P (k v) Q → triple P (bind (gets f) k) Q.
Proof. intros Hf Hk s Hs. rewrite bind_gets, (Hf s Hs). by apply Hk. Qed.

Lemma triple_bind_unit P R (m : M S unit) (k : unit → M S B) Q :
  triple P m (λ _, R) → triple R (k tt) Q → triple P (bind m k) Q.
Proof.
  intros Hm Hk s Hs. destruct (Hm s Hs) as ([] & s1 & Hr & Ha).
  destruct (Hk s1 Ha) as (b & s2 & Hr2 & Hb). exists b, s2.
  by rewrite (bind_ok _ _ _ _ _ Hr).
Qed.

Lemma triple_ret_bind {T} P (a : T) (k : T → M S B) Q :
  triple P (k a) Q → triple P (bind (ret a) k) Q.
Proof. done. Qed.

Lemma triple_ok_bind {T} P (r : res T) (a : T) (k : T → M S B) Q :
  r = Ok a → triple P (k a) Q → triple P (bind (of_res r) k) Q.
Proof. by intros ->. Qed.

Lemma triple_some_bind {T} P (e : exc) (o : option T) (a : T) (k : T → M S B) Q :
  o = Some a → triple P (k a) Q → triple P (bind (of_option e o) k) Q.
Proof. by intros ->. Qed.

(** A read whose value does not matter. *)
Lemma triple_gets_any {T} P (f : S → T) (k : T → M S B) Q :
  (∀ v, triple P (k v) Q) → triple P (bind (gets f) k) Q.
Proof. intros Hk s Hs. rewrite bind_gets. by apply Hk. Qed.

Lemma triple_if P (b : bool) (m1 m2 : M S A) Q :
  (b = true → triple P m1 Q) → (b = false → triple P m2 Q) →
  triple P (if b then m1 else m2) Q.
Proof. destruct b; auto. Qed.

Lemma triple_for {X} (I : list X → S → Prop) (body : X → M S unit) xs :
  (∀ x rest, triple (I (x :: rest)) (body x) (λ _, I rest)) →
  triple (I xs) (for_ xs body) (λ _, I []).
Proof.
  intros Hb s Hs. destruct (for_inv I body xs s Hs) as (s' & Hr & HI).
  - intros x rest s1 H1. destruct (Hb x rest s1 H1) as ([] & s2 & ? & ?). eauto.
  - by exists tt, s'.
Qed.
End triples.

(** Case split on the condition of the first [if decide P] of the goal. *)
Tactic Notation "split_if" "as" ident(H) :=
  match goal with
  | |- context [if decide ?P then _ else _] => destruct (decide P) as [H|H]
  end.
