(* ===== verification/Lopt.v ===== *)
(** The lossless parallel tokenizer (vllm/tokenizers/lopt_utils.py,
    vllm/tokenizers/lopt_wrapper.py and the C++ extension
    benchmarks/csrc/match_merge.cpp).

    A text is the list of its code points.  numpy is the interface [NdArray]:
    its operations on an abstract type of arrays, with their documented
    meaning on the nested list [np_tolist] returns.  The Hugging Face tokenizer
    is the parameter [hf], a function of the arguments of the call. *)

From S2P Require Import Prelude.

Set Warnings "-register-all".

Abbreviation text := (list Z).

(** ** Nested lists and arrays *)

Inductive nested :=
  | Num (z : Z)
  | Arr (l : list nested).

Definition nums (l : list Z) : nested := Arr (map Num l).

(** The elements in row-major order. *)
Fixpoint leaves (n : nested) : list Z :=
  match n with
  | Num z => [z]
  | Arr l => concat (map leaves l)
  end.

(** [l\[::2\]] *)
Fixpoint evens {A} (l : list A) : list A :=
  match l with
  | [] => []
  | [x] => [x]
  | x :: _ :: l => x :: evens l
  end.

Class NdArray (A : Type) := {
  np_tolist : A → nested;
  np_flatten : A → A;
  np_every_other : A → A;
  np_newaxis : A → A;
  np_int64 : A → list Z;
  np_array : list Z → A;
  np_tolist_flatten x : np_tolist (np_flatten x) = nums (leaves (np_tolist x));
  np_tolist_every_other x l :
    np_tolist x = nums l → np_tolist (np_every_other x) = nums (evens l);
  np_tolist_newaxis x : np_tolist (np_newaxis x) = Arr [np_tolist x];
  np_int64_spec x l : np_tolist x = nums l → np_int64 x = l;
  np_tolist_array l : np_tolist (np_array l) = nums l
}.

(** [isinstance(x, List)] for a member of a nested list. *)
Definition is_list (n : nested) : bool := match n with Arr _ => true | Num _ => false end.

(** [while isinstance(item\[0\], List)] *)
Fixpoint get_ndim (n : nested) : res Z :=
  match n with
  | Num _ => Raise ValueError
  | Arr [] => Raise IndexError
  | Arr (Num _ :: _) => Ok 1
  | Arr (x :: _) => letr d := get_ndim x in Ok (d + 1)
  end.

(** The [for _ in range(ndim)] loop. *)
Fixpoint size_loop (ndim : nat) (n : nested) : res (list Z) :=
  match ndim with
  | O => Ok []
  | S k => match n with
           | Arr (x :: l) => letr s := size_loop k x in Ok (len (x :: l) :: s)
           | Arr [] => Raise IndexError
           | Num _ => Raise TypeError
           end
  end.
Definition get_size (n : nested) : res (list Z) :=
  letr d := get_ndim n in size_loop (Z.to_nat d) n.

Fixpoint slicing (dim start stop : Z) (n : nested) : res nested :=
  letr ndim := get_ndim n in
  let dim := if decide (dim < 0) then ndim + dim else dim in
  if negb (bool_decide (dim < ndim)) then Raise AssertionError else
  match n with
  | Num _ => Raise ValueError
  | Arr l =>
      if decide (dim = 0) then Ok (Arr (py_slice l start stop))
      else letr l := collect (map (slicing (dim - 1) start stop) l) in Ok (Arr l)
  end.

(** [concat(x, y, dim)]: the reduction concatenates two at a time. *)
Fixpoint concat2 (dim : Z) (x y : nested) : res nested :=
  letr ndim := get_ndim x in
  let dim := if decide (dim < 0) then ndim + dim else dim in
  if negb (bool_decide (dim < ndim)) then Raise AssertionError else
  match x, y with
  | Arr l, Arr k =>
      if decide (dim = 0) then Ok (Arr (l ++ k))
      else letr l := collect (zip_with (concat2 (dim - 1)) l k) in Ok (Arr l)
  | _, _ => Raise TypeError
  end.

(** The [while all(isinstance(i, Sequence) for i in item)] loop. *)
Fixpoint flatten_loop (fuel : nat) (l : list nested) : res (list nested) :=
  if forallb is_list l then
    match fuel with
    | O => Raise OutOfFuel
    | S fuel =>
        flatten_loop fuel (concat (map (λ x, match x with Arr k => k | Num _ => [] end) l))
    end
  else if existsb is_list l then Raise AssertionError else Ok l.
Definition flatten_list (fuel : nat) (n : nested) : res nested :=
  match n with
  | Arr l => letr l := flatten_loop fuel l in Ok (Arr l)
  | Num _ => Raise ValueError
  end.

Definition reverse_list (n : nested) : res nested :=
  match n with Arr l => Ok (Arr (reverse l)) | Num _ => Raise ValueError end.

Fixpoint add_scalar (scalar : Z) (n : nested) : nested :=
  match n with
  | Num z => Num (z + scalar)
  | Arr l => Arr (map (add_scalar scalar) l)
  end.

Fixpoint wrap (k : nat) (n : nested) : nested :=
  match k with O => n | S k => wrap k (Arr [n]) end.
(** [while get_ndim(item) < ndim: item = \[item\]], from a list of dimension 1. *)
Definition arange_like (n : nested) (start stop : Z) : res nested :=
  letr ndim := get_ndim n in
  if decide (start < stop) then Ok (wrap (Z.to_nat (ndim - 1)) (nums (py_range start stop)))
  else Raise IndexError.

(** ** Chunks *)

(** A string: the [while len(sentence) - chunk_size > 100] loop. *)
Fixpoint chunks_str (fuel : nat) (sentence : text) (chunk_size overlap_length : Z)
    : res (list text) :=
  if decide (100 < len sentence - chunk_size) then
    match fuel with
    | O => Raise OutOfFuel
    | S fuel =>
        letr rest := chunks_str fuel (py_from sentence chunk_size) chunk_size overlap_length in
        Ok (py_upto sentence (overlap_length + chunk_size) :: rest)
    end
  else Ok [sentence].

(** [len(s\[chunk_size:\]) > 100] *)
Definition has_more (chunk_size : Z) (s : text) : bool :=
  bool_decide (100 < len (py_from s chunk_size)).

(** A sequence of strings: the [while any(sentence)] loop. *)
Fixpoint chunks_seq (fuel : nat) (sentence : list text) (chunk_size overlap_length : Z)
    : res (list (list text)) :=
  if existsb (λ s : text, negb (bool_decide (s = []))) sentence then
    match fuel with
    | O => Raise OutOfFuel
    | S fuel =>
        letr rest := chunks_seq fuel
                       (map (λ s, if has_more chunk_size s then py_from s chunk_size else [])
                          sentence)
                       chunk_size overlap_length in
        Ok (map (λ s, if has_more chunk_size s then py_upto s (overlap_length + chunk_size)
                      else s) sentence :: rest)
    end
  else Ok [].

(** A positive chunk size shortens the text, so its length is fuel enough. *)
Definition chunks (sentence : text) (chunk_size overlap_length : Z) : res (list text) :=
  chunks_str (length sentence) sentence chunk_size overlap_length.

Fixpoint pairs {A} (chunks : list A) : list (A * A) :=
  match chunks with
  | x :: (y :: _) as rest => (x, y) :: pairs rest
  | _ => []
  end.

(** ** Merging in Python *)

(** [\[matches\[i : i + 2\] for i in range(0, len(matches), 2)\]], the pairs read
    as [x\[1\]\[0\]] and [x\[1\]\[1\]]. *)
Fixpoint pair_up (matches : list Z) : list (Z * Z) :=
  match matches with
  | l :: r :: rest => (l, r) :: pair_up rest
  | _ => []
  end.

(** [get_size(x)\[-1\]] *)
Definition last_size (n : nested) : res Z :=
  letr s := get_size n in
  match last s with Some k => Ok k | None => Raise IndexError end.

Definition merge_slice (merge_dim : Z) (x : nested * (Z * Z)) : res nested :=
  letr size := last_size x.1 in
  slicing merge_dim (size - x.2.1) (size - x.2.2) x.1.

(** [reduce(lambda x, y: concat(x, y, dim), result)] *)
Fixpoint reduce_concat (merge_dim : Z) (acc : nested) (l : list nested) : res nested :=
  match l with
  | [] => Ok acc
  | x :: l => letr acc := concat2 merge_dim acc x in reduce_concat merge_dim acc l
  end.

Definition merge_py (shards : list nested) (matches : list Z) (merge_dim : Z) : res nested :=
  if negb (bool_decide (len shards * 2 = len matches)) then Raise AssertionError else
  letr result := collect (map (merge_slice merge_dim) (zip shards (pair_up matches))) in
  match result with
  | [] => Raise TypeError
  | x :: l => reduce_concat merge_dim x l
  end.

(** ** The C++ extension *)

Module Cpp.

(** The signed integer of [w] bits that a value becomes when it is narrowed: an
    overflow wraps around.  (Where the code computes the value in that type an
    overflow is undefined in C++.) *)
Definition signed (w z : Z) : Z := (z + 2 ^ (w - 1)) mod 2 ^ w - 2 ^ (w - 1).
Abbreviation int := (signed 32).
Abbreviation int64 := (signed 64).
(** Python integers that the binding accepts for an [int]. *)
Definition fits (w z : Z) : Prop := - 2 ^ (w - 1) ≤ z < 2 ^ (w - 1).
#[export] Instance fits_dec w z : Decision (fits w z).
Proof. unfold fits. apply _. Defined.

(** The local variables of [match]; [i0s] is [i0 + 1]. *)
Record match_state := mkMatch {
  match_a : nat;
  match_b : nat;
  match_size : Z;
  i0s : nat;
  current : Z
}.

(** [while (i0 >= 0 && a(i0) > b(i1) + chunk_size) { i0--; current = 0; }] *)
Fixpoint skip_above (a : list Z) (bound : Z) (i0s : nat) (current : Z) : nat * Z :=
  match i0s with
  | O => (O, current)
  | S i0 =>
      match a !! i0 with
      | Some x => if decide (bound < x) then skip_above a bound i0 0 else (S i0, current)
      | None => (S i0, current)
      end
  end.

(** One iteration of the [for] loop, for the index [i1] and [bi = b(i1)], which
    are added to [chunk_size] as [int64_t].  The counter [current] and the
    indices stay within [int], since [i0] and [i1] only decrease. *)
Definition match_step (a : list Z) (chunk_size : Z) (i1 : nat) (bi : Z) (s : match_state)
    : match_state :=
  let bound := int64 (bi + chunk_size) in
  let '(i0s, current) := skip_above a bound (i0s s) (current s) in
  match i0s with
  | S i0 =>
      if decide (a !! i0 = Some bound) then
        if decide (match_size s < current) then mkMatch i0 i1 current i0 (current + 1)
        else mkMatch (match_a s) (match_b s) (match_size s) i0 (current + 1)
      else mkMatch (match_a s) (match_b s) (match_size s) i0s 0
  | O => mkMatch (match_a s) (match_b s) (match_size s) i0s 0
  end.

(** The [for] loop over [i1s - 1, ..., 0]. *)
Fixpoint match_loop (a b : list Z) (chunk_size : Z) (i1s : nat) (s : match_state)
    : match_state :=
  match i1s with
  | O => s
  | S i1 =>
      match b !! i1 with
      | Some bi => match_loop a b chunk_size i1 (match_step a chunk_size i1 bi s)
      | None => s
      end
  end.

Definition match_ (chunks0 chunks1 : list Z) (chunk_size mismatch_thres : Z) : res (Z * Z) :=
  if decide (fits 32 chunk_size ∧ fits 32 mismatch_thres) then
    let len0 := int (len chunks0) in
    let len1 := int (len chunks1) in
    let s := match_loop chunks0 chunks1 chunk_size (Z.to_nat (int (len1 - 1) + 1))
               (mkMatch 0 0 0 (Z.to_nat (int (len0 - 1) + 1)) 0) in
    Ok (if decide (match_size s ≤ mismatch_thres) then (-1, -1)
        else (int (len0 - (Z.of_nat (match_a s) + match_size s - 1)),
              int (len1 - (Z.of_nat (match_b s) + match_size s - 1))))
  else Raise TypeError.

(** The loop [for (int j = start; j < end; j++) result.push_back(buf(j))].
    [buf] is unchecked: an index outside the array is undefined behaviour,
    represented by an exception. *)
Definition copy_range (buf : list Z) (start stop : Z) : res (list Z) :=
  collect (map (λ j, match (if decide (j < 0) then None else buf !! Z.to_nat j) with
                     | Some x => Ok x
                     | None => Raise IndexError
                     end) (py_range start stop)).

(** An item of a [py::list], whose index is converted to [size_t]. *)
Definition item {B} (l : list B) (i : Z) : res B :=
  match (if decide (i < 0) then None else l !! Z.to_nat i) with
  | Some x => Ok x
  | None => Raise IndexError
  end.
(** [.cast<int>()] *)
Definition cast_int (z : Z) : res Z := if decide (fits 32 z) then Ok z else Raise RuntimeError.

(** [n] iterations of the loop from [i] on. *)
Fixpoint merge_loop (chunks : list (list Z)) (matches : list Z) (i : Z) (n : nat) : res (list Z) :=
  match n with
  | O => Ok []
  | S n =>
      letr buf := item chunks i in
      letr x := item matches (int (i * 2)) in
      letr l := cast_int x in
      letr x := item matches (int (int (i * 2) + 1)) in
      letr r := cast_int x in
      letr part := copy_range buf (int (len buf - l)) (int (len buf - r)) in
      letr rest := merge_loop chunks matches (i + 1) n in
      Ok (part ++ rest)
  end.

Definition merge (chunks : list (list Z)) (matches : list Z) : res (list Z) :=
  if decide (len matches = len chunks * 2) then merge_loop chunks matches 0 (Z.to_nat (int (len chunks)))
  else Raise RuntimeError.
End Cpp.

(** ** The wrapper *)

Record LoptParallelTokenizer := mkLopt {
  model_path : string;
  pool_size : Z;
  chunk_size : Z;
  overlap : Z
}.

(** The arguments of a call of the Hugging Face tokenizer:
    [tokenizer(text, text_pair=None, add_special_tokens=True,
    return_offsets_mapping=False)].  The wrapper passes a bool as [text_pair]. *)
Record hf_call := mkCall {
  hf_text : text;
  hf_text_pair : option bool;
  hf_add_special_tokens : bool;
  hf_return_offsets_mapping : bool
}.
Definition hf_default (t : text) : hf_call := mkCall t None true false.

Definition dict_get {B} (d : list (string * B)) (k : string) : res B :=
  match list_find (λ x, x.1 = k) d with
  | Some (_, (_, v)) => Ok v
  | None => Raise KeyError
  end.

Section wrapper.
Context {A : Type} `{NdArray A}.
(** The tokenizer with [return_tensors="np"], and without. *)
Context (hf_np : hf_call → res (list (string * A))).
Context (hf : hf_call → res (list (string * nested))).
(** [AutoTokenizer.from_pretrained] *)
Context (from_pretrained : string → res unit).

Inductive value :=
  | VArray (x : A)
  | VList (n : nested).
Abbreviation BatchEncoding := (list (string * value)).

(** [overlap = int(chunk_size * overlap_ratio)] for the ratio 0.125, the
    default that every caller uses. *)
Definition LoptParallelTokenizer_init (path : string) (pool chunk : Z)
    : res LoptParallelTokenizer :=
  letr _ := from_pretrained path in
  Ok (mkLopt path pool chunk (Z.quot chunk 8)).

Definition _tokenize_chunk (t : text) : res (list (string * A)) :=
  hf_np (mkCall t None false true).

Definition _cpp_match_wrapper (tokens_a tokens_b : A) (chunk_size : Z) : res (Z * Z) :=
  letr r := Cpp.match_ (np_int64 tokens_a) (np_int64 tokens_b) chunk_size 2 in
  if decide (r.1 < 0) then Raise RuntimeError else Ok r.

(** The [try] block. *)
Definition find_matches (tokens_shards : list A) (chunk_size : Z) : res (list Z) :=
  letr matches := collect (map (λ x, _cpp_match_wrapper x.1 x.2 chunk_size)
                             (pairs tokens_shards)) in
  match tokens_shards, matches with
  | x :: _, _ :: _ =>
      Ok ([len (np_int64 x)] ++ concat (map (λ m, [m.1; m.2]) matches) ++ [0])
  | [], _ => Raise IndexError
  | _, [] => Raise TypeError
  end.

(** [merged\[key\]] *)
Definition merge_key (shards : list (list (string * A))) (matches : list Z) (key : string)
    : res (string * value) :=
  letr parts := collect (map (λ shard, letr x := dict_get shard key in
                                       Ok (np_int64 (np_flatten x))) shards) in
  letr m := Cpp.merge parts matches in
  Ok (key, VList (np_tolist (np_newaxis (np_array m)))).

Definition without_offsets (d : list (string * A)) : list (string * A) :=
  filter (λ x, x.1 ≠ "offset_mapping") d.

Definition _parallel_encode (self : LoptParallelTokenizer) (t : text) : res BatchEncoding :=
  letr text_chunks := chunks t (chunk_size self) (overlap self) in
  letr shards := collect (map _tokenize_chunk text_chunks) in
  match shards with
  | [] => Raise IndexError
  | [shard] => Ok (map (λ x, (x.1, VArray (np_newaxis x.2))) (without_offsets shard))
  | shard0 :: _ =>
      letr tokens_shards :=
        collect (map (λ shard, letr x := dict_get shard "offset_mapping" in
                               Ok (np_every_other (np_flatten x))) shards) in
      match find_matches tokens_shards (chunk_size self) with
      | Raise RuntimeError =>
          letr r := hf_np (hf_default t) in Ok (map (λ x, (x.1, VArray x.2)) r)
      | Raise e => Raise e
      | Ok matches =>
          collect (map (λ x, merge_key shards matches x.1) (without_offsets shard0))
      end
  end.

(** [__call__]: the second positional parameter of the tokenizer is
    [text_pair]. *)
Definition call (self : LoptParallelTokenizer) (t : text) (add_special_tokens : bool)
    : res BatchEncoding :=
  if decide (len t < chunk_size self * 2) then
    letr r := hf (mkCall t (Some add_special_tokens) true false) in
    Ok (map (λ x, (x.1, VList x.2)) r)
  else _parallel_encode self t.

Definition input_ids (e : BatchEncoding) : res value :=
  match dict_get e "input_ids" with Ok v => Ok v | Raise _ => Raise AttributeError end.
Definition encode (self : LoptParallelTokenizer) (t : text) (add_special_tokens : bool)
    : res value :=
  letr e := call self t add_special_tokens in input_ids e.

(** The factory: [None] when disabled, unavailable or not constructible. *)
Definition maybe_get_lopt_tokenizer (lopt_available : bool) (path : string)
    (enable_lopt : bool) (lopt_pool_size lopt_chunk_size : Z)
    : option LoptParallelTokenizer :=
  if negb enable_lopt then None
  else if negb lopt_available then None
  else match LoptParallelTokenizer_init path lopt_pool_size lopt_chunk_size with
       | Ok l => Some l
       | Raise _ => None
       end.

(** The prompt that [OpenAIServingCompletion.create_completion] renders: the
    token ids with LoPT, otherwise ([None]) the text itself. *)
Definition completion_prompt (enable_lopt : bool) (lopt : option LoptParallelTokenizer)
    (prompt : text) : res (option value) :=
  if enable_lopt then
    match lopt with
    | None => Raise TypeError
    | Some l => letr e := call l prompt false in
                letr v := input_ids e in Ok (Some v)
    end
  else Ok None.
End wrapper.
Arguments VArray {A} x.
Arguments VList {A} n.
