(* ===== verification/LoptSpec.v ===== *)
(** The lossless parallel tokenizer: chunks cover the text, [match] finds the
    longest run of common token starts, and [merge] in Python and C++ agree, all
    within the widths of the C++ types. *)

From S2P Require Import Prelude.
From S2P Require Import Lopt.

(** * Chunks *)

Lemma len_drop {A} n (l : list A) : len (drop n l) = Z.max 0 (len l - Z.of_nat n).
Proof. unfold len. rewrite length_drop. lia. Qed.
Lemma len_take {A} n (l : list A) : len (take n l) = Z.min (Z.of_nat n) (len l).
Proof. unfold len. rewrite length_take. lia. Qed.

Lemma map_take {A B} (f : A → B) n (l : list A) : map f (take n l) = take n (map f l).
Proof. exact (fmap_take f n l). Qed.
Lemma map_drop {A B} (f : A → B) n (l : list A) : map f (drop n l) = drop n (map f l).
Proof. exact (fmap_drop f n l). Qed.

(** Induction over the chunks of a text. *)
Lemma chunks_str_ind (P : text → list text → Prop) cs ov :
  0 < cs → 0 ≤ ov →
  (∀ s, len s - cs ≤ 100 → P s [s]) →
  (∀ s rest, 100 < len s - cs → P (drop (Z.to_nat cs) s) rest →
    P s (take (Z.to_nat (ov + cs)) s :: rest)) →
  ∀ fuel s, (length s ≤ fuel)%nat → ∃ l, chunks_str fuel s cs ov = Ok l ∧ P s l.
Proof.
  intros Hcs Hov Hlast Hmore. induction fuel as [|fuel IH]; intros s Hs; simpl.
  - rewrite decide_False by (unfold len; lia). eexists. split; [done|]. apply Hlast. unfold len. lia.
  - destruct (decide (100 < len s - cs)) as [Hlt|Hge].
    + rewrite py_from_nonneg, py_upto_nonneg by lia.
      destruct (IH (drop (Z.to_nat cs) s)) as (l & -> & Hl).
      { rewrite length_drop. unfold len in Hlt. lia. }
      eexists. split; [done|]. by apply Hmore.
    + eexists. split; [done|]. apply Hlast. lia.
Qed.

(** The chunks of [s]: windows of [chunk_size + overlap] characters, one every
    [chunk_size] characters, and the rest of the text. *)
Definition windows (cs ov : Z) (n : nat) (s : text) : list text :=
  map (λ i : nat, take (Z.to_nat (ov + cs)) (drop (i * Z.to_nat cs) s)) (seq 0 n)
    ++ [drop (n * Z.to_nat cs) s].

(** Chunking a text always terminates; the chunks are windows of
    [chunk_size + overlap] characters, one every [chunk_size] characters, then
    the rest of the text, which is longer than 100 characters unless it is the
    whole text; so every two neighbours share at least [min(overlap, 101)]
    characters, and without their overlaps the chunks are the text. *)
Theorem chunks_cover s cs ov :
  0 < cs → 0 ≤ ov →
  ∃ n, chunks s cs ov = Ok (windows cs ov n s) ∧
    (∀ i : nat, (i < n)%nat → Z.of_nat i * cs + cs + 100 < len s) ∧
    len (drop (n * Z.to_nat cs) s) ≤ cs + 100 ∧
    concat (map (take (Z.to_nat cs)) (take n (windows cs ov n s)))
      ++ drop (n * Z.to_nat cs) s = s.
Proof.
  intros Hcs Hov. unfold chunks.
  destruct (chunks_str_ind (λ s l, ∃ n, l = windows cs ov n s ∧
    (∀ i : nat, (i < n)%nat → Z.of_nat i * cs + cs + 100 < len s) ∧
    len (drop (n * Z.to_nat cs) s) ≤ cs + 100 ∧
    concat (map (take (Z.to_nat cs)) (take n (windows cs ov n s)))
      ++ drop (n * Z.to_nat cs) s = s) cs ov Hcs Hov) with (fuel := length s) (s := s)
    as (l & -> & n & -> & H); [| |done|by exists n].
  - intros t Ht. exists 0%nat. cbn [windows map seq app]. rewrite Nat.mul_0_l, drop_0.
    repeat split; [by intros i Hi; lia|lia].
  - intros t rest Ht (n & -> & Hi & Hl & Hc). exists (S n). split_and!.
    + unfold windows. cbn [seq map app]. rewrite Nat.mul_0_l, drop_0. f_equal.
      rewrite <- seq_shift, map_map. rewrite drop_drop. f_equal.
      apply map_ext. intros i. rewrite drop_drop. do 2 f_equal.
    + intros [|i] Hlt; [lia|]. specialize (Hi i ltac:(lia)). rewrite len_drop in Hi. lia.
    + rewrite drop_drop in Hl. exact Hl.
    + unfold windows in *. cbn [seq map app take concat]. rewrite Nat.mul_0_l, drop_0.
      rewrite take_take, Nat.min_l by lia. rewrite drop_drop in Hc.
      etransitivity; [|apply (take_drop (Z.to_nat cs))]. rewrite <- app_assoc. f_equal.
      rewrite <- Hc. rewrite <- seq_shift, map_map. do 5 f_equal.
      apply map_ext. intros i. rewrite drop_drop. do 2 f_equal.
Qed.

Lemma chunks_cover_witness :
  ∃ n, chunks (replicate 400 7) 128 16 = Ok (windows 128 16 n (replicate 400 7)) ∧
    (∀ i : nat, (i < n)%nat → Z.of_nat i * 128 + 128 + 100 < 400) ∧
    len (drop (n * 128) (replicate 400 7)) ≤ 128 + 100 ∧
    concat (map (take 128) (take n (windows 128 16 n (replicate 400 7))))
      ++ drop (n * 128) (replicate 400 7) = replicate 400 7.
Proof. apply (chunks_cover (replicate 400 7) 128 16); lia. Defined.

(** * Matching *)

Definition increasing (l : list Z) : Prop :=
  ∀ i j x y, (i < j)%nat → l !! i = Some x → l !! j = Some y → x < y.

Section matching.
Context (a b : list Z) (cs : Z).

(** Position [i] of [a] and position [j] of [b] are the same character. *)
Definition same_start (i j : nat) : Prop :=
  ∃ y, b !! j = Some y ∧ a !! i = Some (y + cs).
(** [n] consecutive tokens start at the same characters. *)
Definition run (i j n : nat) : Prop :=
  ∀ k, (k < n)%nat → same_start (i + k) (j + k).

Lemma run_cons i j n : same_start i j → run (S i) (S j) n → run i j (S n).
Proof.
  intros H0 Hr [|k] Hk; [by rewrite !Nat.add_0_r|].
  rewrite <- !Nat.add_succ_comm. apply Hr. lia.
Qed.
Lemma run_tail i j n : run i j (S n) → run (S i) (S j) n.
Proof. intros Hr k Hk. rewrite !Nat.add_succ_comm. apply Hr. lia. Qed.
Lemma run_head i j n : run i j (S n) → same_start i j.
Proof. intros Hr. specialize (Hr 0%nat). rewrite !Nat.add_0_r in Hr. apply Hr. lia. Qed.

(** Adding [cs] does not overflow. *)
Context (Hsum : ∀ j y, b !! j = Some y → Cpp.fits 64 (y + cs)).

Lemma signed_fits w z : 0 < w → Cpp.fits w z → Cpp.signed w z = z.
Proof.
  unfold Cpp.fits, Cpp.signed. intros Hw Hz. replace (2 ^ w) with (2 * 2 ^ (w - 1)).
  - rewrite Z.mod_small; lia.
  - rewrite <- Z.pow_succ_r by lia. f_equal. lia.
Qed.
Lemma int_small z : - 2 ^ 31 ≤ z < 2 ^ 31 → Cpp.int z = z.
Proof. intros Hz. by apply signed_fits. Qed.

Lemma skip_above_spec bound i0s cur :
  ∃ i0s' cur', Cpp.skip_above a bound i0s cur = (i0s', cur') ∧ (i0s' ≤ i0s)%nat ∧
    (i0s' = i0s ∧ cur' = cur ∨ (i0s' < i0s)%nat ∧ cur' = 0) ∧
    (∀ i x, (i0s' ≤ i < i0s)%nat → a !! i = Some x → bound < x) ∧
    (∀ i x, i0s' = S i → a !! i = Some x → x ≤ bound).
Proof.
  revert cur. induction i0s as [|i0 IH]; intros cur; simpl.
  { exists 0%nat, cur. repeat split; [lia|by left|intros; lia|intros; lia]. }
  destruct (a !! i0) as [x|] eqn:Hx; [destruct (decide (bound < x))|].
  - destruct (IH 0) as (i & c & -> & Hle & Hc & Hgt & Hat). exists i, c.
    split_and!; [done|lia|right; lia| |done].
    intros k y Hk Hy. destruct (decide (k = i0)) as [->|]; [congruence|]. apply (Hgt k); [lia|done].
  - exists (S i0), cur. split_and!; [done|lia|by left|intros; lia|]. intros k y [= <-] Hy.
    assert (y = x) as -> by congruence. lia.
  - exists (S i0), cur. split_and!; [done|lia|by left|intros; lia|]. intros k y [= <-] Hy. congruence.
Qed.

(** Before the iteration for the index [i1s - 1]. *)
Record match_sound (i1s : nat) (s : Cpp.match_state) : Prop := {
  ms_i0s : (Cpp.i0s s ≤ length a)%nat;
  ms_size : 0 ≤ Cpp.match_size s;
  ms_cur : 0 ≤ Cpp.current s;
  ms_run : run (Cpp.i0s s) i1s (Z.to_nat (Cpp.current s));
  ms_best : 0 < Cpp.match_size s →
    run (Cpp.match_a s) (Cpp.match_b s) (S (Z.to_nat (Cpp.match_size s)))
}.
Record match_complete (i1s : nat) (s : Cpp.match_state) : Prop := {
  mc_before : ∀ i j, (j < i1s)%nat → same_start i j → (i < Cpp.i0s s)%nat;
  mc_after : ∀ i j, (i1s ≤ j)%nat → same_start i j → (Cpp.i0s s ≤ i)%nat;
  mc_current : ∀ n, run (Cpp.i0s s) i1s n → Z.of_nat n ≤ Cpp.current s;
  mc_best : ∀ i j n, (i1s ≤ j)%nat → run i j n → Z.of_nat n - 1 ≤ Cpp.match_size s
}.

Lemma match_step_sound i1 bi s :
  b !! i1 = Some bi → match_sound (S i1) s → match_sound i1 (Cpp.match_step a cs i1 bi s).
Proof.
  intros Hb [Hi Hs Hc Hr Hbest]. unfold Cpp.match_step. rewrite (signed_fits 64) by eauto with lia.
  destruct (skip_above_spec (bi + cs) (Cpp.i0s s) (Cpp.current s))
    as (i0s & cur & -> & Hle & Hcur & _ & _).
  assert (Hr' : run i0s (S i1) (Z.to_nat cur)).
  { destruct Hcur as [[-> ->]|[_ ->]]; [done|intros k Hk; lia]. }
  assert (0 ≤ cur) by lia.
  assert (Hnil : run i0s i1 (Z.to_nat 0)) by (intros k Hk; lia).
  destruct i0s as [|i0]; [constructor; simpl; (done || lia)|].
  destruct (decide _) as [Heq|]; [|constructor; simpl; (done || lia)].
  assert (Hnew : run i0 i1 (S (Z.to_nat cur))).
  { apply run_cons; [by exists bi|done]. }
  assert (Hnew' : run i0 i1 (Z.to_nat (cur + 1))).
  { by replace (Z.to_nat (cur + 1)) with (S (Z.to_nat cur)) by lia. }
  destruct (decide _); constructor; simpl; (done || lia).
Qed.

(** The step for an index [i1] that starts at no common character ... *)
Lemma complete_unmatched i1 s st :
  match_sound (S i1) s → match_complete (S i1) s →
  (Cpp.i0s st ≤ Cpp.i0s s)%nat → Cpp.current st = 0 → Cpp.match_size st = Cpp.match_size s →
  (∀ i j, (j ≤ i1)%nat → same_start i j → (i < Cpp.i0s st)%nat) →
  (∀ i, ¬ same_start i i1) → match_complete i1 st.
Proof.
  intros Hs [_ Haft _ Hbest] Hle Hc Hm Hlow Hno. constructor; rewrite ?Hc, ?Hm.
  - intros i j Hj. apply Hlow. lia.
  - intros i j Hj Hss. destruct (decide (j = i1)) as [->|]; [by apply Hno in Hss|].
    pose proof (Haft i j ltac:(lia) Hss). lia.
  - intros [|n] Hn; [lia|]. by apply run_head, Hno in Hn.
  - intros i j [|n] Hj Hn; [pose proof (ms_size _ _ Hs); lia|].
    destruct (decide (j = i1)) as [->|]; [by apply run_head, Hno in Hn|].
    apply (Hbest i j); [lia|done].
Qed.

(** ... and for one that starts where the token [i0] of [a] starts. *)
Lemma complete_matched i1 i0 s st :
  match_sound (S i1) s → match_complete (S i1) s → (S i0 ≤ Cpp.i0s s)%nat →
  (∀ i, same_start i i1 → i = i0) →
  (∀ i j, (j < i1)%nat → same_start i j → (i < i0)%nat) →
  (∀ n, run (S i0) (S i1) n → Z.of_nat n + 1 ≤ Cpp.current st) →
  Cpp.i0s st = i0 → Cpp.match_size s ≤ Cpp.match_size st →
  Cpp.current st - 1 ≤ Cpp.match_size st → match_complete i1 st.
Proof.
  intros Hs [_ Haft _ Hbest] Hle Huniq Hlow Hrun Hi Hm Hc.
  assert (Hlen : ∀ i n, run i i1 (S n) → Z.of_nat (S n) ≤ Cpp.current st).
  { intros i n Hn. pose proof (Huniq i (run_head _ _ _ Hn)) as ->.
    apply run_tail, Hrun in Hn. lia. }
  constructor; rewrite ?Hi.
  - exact Hlow.
  - intros i j Hj Hss. destruct (decide (j = i1)) as [->|]; [by rewrite (Huniq i Hss)|].
    pose proof (Haft i j ltac:(lia) Hss). lia.
  - intros [|n] Hn; [|by eapply Hlen].
    pose proof (Hrun 0%nat ltac:(intros k Hk; lia)). lia.
  - intros i j [|n] Hj Hn; [pose proof (ms_size _ _ Hs); lia|].
    destruct (decide (j = i1)) as [->|]; [apply Hlen in Hn; lia|].
    pose proof (Hbest i j (S n) ltac:(lia) Hn). lia.
Qed.

Lemma match_step_complete i1 bi s :
  increasing a → increasing b →
  b !! i1 = Some bi → match_sound (S i1) s → match_complete (S i1) s →
  match_complete i1 (Cpp.match_step a cs i1 bi s).
Proof.
  intros Hia Hib Hb Hs Hc. unfold Cpp.match_step. rewrite (signed_fits 64) by eauto with lia.
  destruct (skip_above_spec (bi + cs) (Cpp.i0s s) (Cpp.current s))
    as (i0s & cur & -> & Hle & Hcur & Hgt & Hat).
  assert (Hlow : ∀ i j, (j ≤ i1)%nat → same_start i j → (i < i0s)%nat).
  { intros i j Hj Hss. pose proof (mc_before _ _ Hc i j ltac:(lia) Hss).
    destruct (decide (i < i0s)%nat); [done|]. destruct Hss as (y & Hy & Hx).
    pose proof (Hgt i _ ltac:(lia) Hx).
    destruct (decide (j = i1)) as [->|]; [assert (y = bi) by congruence; lia|].
    pose proof (Hib j i1 y bi ltac:(lia) Hy Hb). lia. }
  assert (Hno : (∀ i0, i0s = S i0 → a !! i0 ≠ Some (bi + cs)) → ∀ i, ¬ same_start i i1).
  { intros Hne i Hss. pose proof (Hlow i i1 ltac:(lia) Hss) as Hi. destruct Hss as (y & Hy & Hv).
    assert (y = bi) as -> by congruence. destruct i0s as [|i0]; [lia|].
    destruct (decide (i = i0)) as [->|]; [by apply (Hne i0)|].
    destruct (lookup_lt_is_Some_2 a i0) as [x Hx]; [pose proof (ms_i0s _ _ Hs); lia|].
    pose proof (Hia i i0 _ _ ltac:(lia) Hv Hx). pose proof (Hat i0 x eq_refl Hx). lia. }
  destruct i0s as [|i0].
  { apply (complete_unmatched i1 s); try done. by apply Hno. }
  destruct (decide (a !! i0 = Some (bi + cs))) as [Heq|Hne].
  2:{ apply (complete_unmatched i1 s); try done. apply Hno. by intros ? [= <-]. }
  assert (Huniq : ∀ i, same_start i i1 → i = i0).
  { intros i Hss. pose proof (Hlow i i1 ltac:(lia) Hss). destruct Hss as (y & Hy & Hi).
    assert (y = bi) as -> by congruence. destruct (decide (i = i0)); [done|].
    pose proof (Hia i i0 _ _ ltac:(lia) Hi Heq). lia. }
  assert (Hbelow : ∀ i j, (j < i1)%nat → same_start i j → (i < i0)%nat).
  { intros i j Hj Hss. pose proof (Hlow i j ltac:(lia) Hss). destruct Hss as (y & Hy & Hi).
    destruct (decide (i = i0)) as [->|]; [|lia]. pose proof (Hib j i1 y bi Hj Hy Hb).
    rewrite Heq in Hi. injection Hi. lia. }
  assert (Hrun : ∀ n, run (S i0) (S i1) n → Z.of_nat n ≤ cur).
  { intros n Hn. destruct Hcur as [[Hi ->]|[Hi ->]]; [rewrite Hi in Hn; by apply (mc_current _ _ Hc)|].
    destruct n as [|n]; [lia|]. apply run_head in Hn.
    pose proof (mc_after _ _ Hc (S i0) (S i1) ltac:(lia) Hn). lia. }
  destruct (decide _); apply (complete_matched i1 i0 s); simpl; try (done || lia);
    intros ? ?%Hrun; lia.
Qed.

Lemma match_loop_ok n s :
  (n ≤ length b)%nat → match_sound n s →
  match_sound 0 (Cpp.match_loop a b cs n s) ∧
  (increasing a → increasing b → match_complete n s →
   match_complete 0 (Cpp.match_loop a b cs n s)).
Proof.
  revert s. induction n as [|n IH]; intros s Hn Hs; [done|]. simpl.
  destruct (lookup_lt_is_Some_2 b n ltac:(lia)) as [bi Hbi]. rewrite Hbi.
  pose proof (match_step_sound n bi s Hbi Hs) as Hs'.
  destruct (IH _ ltac:(lia) Hs') as [H1 H2]. split; [done|]. intros Ha Hb Hc. apply H2; try done.
  by apply match_step_complete.
Qed.

Lemma match_init_ok :
  let s := Cpp.mkMatch 0 0 0 (length a) 0 in
  match_sound (length b) s ∧ match_complete (length b) s.
Proof.
  assert (Hno : ∀ i j, same_start i j → (i < length a)%nat ∧ (j < length b)%nat).
  { intros i j (y & Hy%lookup_lt_Some & Hx%lookup_lt_Some). done. }
  split; constructor; simpl; try (done || lia).
  - intros k Hk. lia.
  - intros i j _ Hss%Hno. lia.
  - intros i j Hj Hss%Hno. lia.
  - intros [|n] Hn; [lia|]. apply run_head, Hno in Hn. lia.
  - intros i j [|n] Hj Hn; [lia|]. apply run_head, Hno in Hn. lia.
Qed.
Lemma match_spec thr :
  increasing a → increasing b → 0 ≤ thr < 2 ^ 31 → Cpp.fits 32 cs → len a < 2 ^ 31 → len b < 2 ^ 31 →
  (Cpp.match_ a b cs thr = Ok (-1, -1) ∧ ∀ i j n, run i j n → Z.of_nat n ≤ thr + 1) ∨
  (∃ i j n, Cpp.match_ a b cs thr =
      Ok (len a - (Z.of_nat i + Z.of_nat n - 2), len b - (Z.of_nat j + Z.of_nat n - 2)) ∧
    run i j n ∧ thr + 2 ≤ Z.of_nat n ∧ ∀ i' j' n', run i' j' n' → (n' ≤ n)%nat).
Proof using Hsum.
  intros Ha Hb Hthr Hcs Hla Hlb. unfold Cpp.match_. destruct match_init_ok as [Hs Hc].
  destruct (match_loop_ok (length b) _ ltac:(done) Hs) as [H1 H2].
  specialize (H2 Ha Hb Hc). pose proof (len_nonneg a). pose proof (len_nonneg b).
  rewrite decide_True by (split; [done|split; lia]). rewrite !(int_small (len _)) by lia.
  rewrite !(int_small (len _ - 1)) by lia. rewrite !Z.sub_add.
  assert (Hnat : ∀ l : list Z, Z.to_nat (len l) = length l) by (intros l; apply Nat2Z.id). rewrite !Hnat.
  set (s := Cpp.match_loop _ _ _ _ _) in *.
  assert (Hbest : ∀ i j n, run i j n → Z.of_nat n - 1 ≤ Cpp.match_size s).
  { intros i j n. apply (mc_best _ _ H2). lia. }
  destruct (decide (Cpp.match_size s ≤ thr)) as [Hle|Hgt]; [left|right].
  - split; [done|]. intros i j n Hn%Hbest. lia.
  - assert (Hrun : run (Cpp.match_a s) (Cpp.match_b s) (S (Z.to_nat (Cpp.match_size s)))) by (apply (ms_best _ _ H1); lia).
    destruct (Hrun (Z.to_nat (Cpp.match_size s)) ltac:(lia)) as (y & Hy%lookup_lt_Some & Hx%lookup_lt_Some).
    exists (Cpp.match_a s), (Cpp.match_b s), (S (Z.to_nat (Cpp.match_size s))).
    split; [rewrite !int_small by (unfold len in *; lia); do 2 f_equal; lia|]. split; [done|]. split; [lia|].
    intros i j n Hn%Hbest. lia.
Qed.
End matching.

(** C28. The C++ [match] finds the longest run of consecutive tokens that start
    at the same characters in both chunks, for arrays of less than 2^31 tokens
    whose starts do not leave [int64_t] when [chunk_size] is added: it fails
    exactly when no run is longer than [mismatch_thres + 1] tokens, and
    otherwise returns the distances from the ends of the last but one token of
    a longest run.  Arguments that are no C++ [int] are refused with
    [TypeError]. *)
Theorem match_finds_longest_run a b cs thr :
  increasing a → increasing b → 0 ≤ thr → len a < 2 ^ 31 → len b < 2 ^ 31 →
  (∀ y, y ∈ b → Cpp.fits 64 (y + cs)) →
  if decide (Cpp.fits 32 cs ∧ Cpp.fits 32 thr) then
    (Cpp.match_ a b cs thr = Ok (-1, -1) ∧ ∀ i j n, run a b cs i j n → Z.of_nat n ≤ thr + 1) ∨
    (∃ i j n, Cpp.match_ a b cs thr =
        Ok (len a - (Z.of_nat i + Z.of_nat n - 2), len b - (Z.of_nat j + Z.of_nat n - 2)) ∧
      run a b cs i j n ∧ thr + 2 ≤ Z.of_nat n ∧
      ∀ i' j' n', run a b cs i' j' n' → (n' ≤ n)%nat)
  else Cpp.match_ a b cs thr = Raise TypeError.
Proof.
  intros Ha Hb Hthr Hla Hlb Hsum. case_decide as Hfit; [|unfold Cpp.match_; by rewrite decide_False].
  destruct Hfit as [Hcs [_ Hthr']]. apply match_spec; try done.
  intros j y Hy. by apply Hsum, list_elem_of_lookup_2 with j.
Qed.

Lemma increasing_of (l : list Z) :
  forallb (λ i, match l !! i, l !! S i with
                | Some x, Some y => bool_decide (x < y)
                | _, _ => true
                end) (seq 0 (length l)) = true → increasing l.
Proof.
  intros H. rewrite forallb_forall in H.
  assert (Hstep : ∀ i x y, l !! i = Some x → l !! S i = Some y → x < y).
  { intros i x y Hx Hy. specialize (H i). rewrite Hx, Hy in H.
    refine (bool_decide_eq_true_1 _ (H _)). apply in_seq. apply lookup_lt_Some in Hx. lia. }
  intros i j x y Hij. revert x y. induction Hij as [|j Hj IH]; intros x y Hx Hy; [eauto|].
  destruct (lookup_lt_is_Some_2 l j) as [z Hz]; [apply lookup_lt_Some in Hy; lia|].
  pose proof (IH x z Hx Hz). pose proof (Hstep _ _ _ Hz Hy). lia.
Qed.

Lemma match_finds_longest_run_witness :
  let a := [0; 3; 5; 8; 9; 12; 15] in let b := [0; 1; 4; 7; 9] in
  (Cpp.match_ a b 8 2 = Ok (-1, -1) ∧ ∀ i j n, run a b 8 i j n → Z.of_nat n ≤ 2 + 1) ∨
  (∃ i j n, Cpp.match_ a b 8 2 =
      Ok (len a - (Z.of_nat i + Z.of_nat n - 2), len b - (Z.of_nat j + Z.of_nat n - 2)) ∧
    run a b 8 i j n ∧ 2 + 2 ≤ Z.of_nat n ∧
    ∀ i' j' n', run a b 8 i' j' n' → (n' ≤ n)%nat).
Proof.
  apply (match_finds_longest_run [0; 3; 5; 8; 9; 12; 15] [0; 1; 4; 7; 9] 8 2); try done; try by apply increasing_of.
  apply Forall_forall. by repeat constructor.
Defined.

(** * Merging *)

Lemma collect_map_ok {A B} (f : A → res B) (l : list A) (k : list B) :
  Forall2 (λ a b, f a = Ok b) l k → collect (map f l) = Ok k.
Proof. induction 1 as [|a b l k Hab _ IH]; simpl; [done|]. by rewrite Hab, IH. Qed.

(** The tokens of a shard that [merge] keeps for the indices [l] and [r]. *)
Definition kept_part {A} (buf : list A) (l r : Z) : list A :=
  drop (Z.to_nat (len buf - l)) (take (Z.to_nat (len buf - r)) buf).

Lemma copy_range_ok buf l r :
  0 ≤ r → r ≤ l → l ≤ len buf →
  Cpp.copy_range buf (len buf - l) (len buf - r) = Ok (kept_part buf l r).
Proof.
  intros Hr Hl Hlen. unfold Cpp.copy_range, kept_part. apply collect_map_ok.
  apply Forall2_same_length_lookup_2.
  - unfold py_range. rewrite length_map, length_seq, length_drop, length_take. unfold len in *. lia.
  - intros i j x Hj Hx. unfold py_range in Hj. rewrite lookup_map in Hj.
    destruct (seq 0 _ !! i) as [k|] eqn:Hk; [|done]. simplify_eq/=.
    apply lookup_seq in Hk as [-> Hk]. rewrite decide_False by lia.
    rewrite lookup_drop in Hx. apply lookup_take_Some in Hx as [Hx _].
    replace (Z.to_nat _) with (Z.to_nat (len buf - l) + i)%nat by lia. by rewrite Hx.
Qed.

Inductive merge_ok : list (list Z) → list Z → Prop :=
  | merge_ok_nil : merge_ok [] []
  | merge_ok_cons buf l r chunks matches :
      0 ≤ r → r < l → l ≤ len buf → merge_ok chunks matches →
      merge_ok (buf :: chunks) (l :: r :: matches).

Lemma merge_ok_len chunks matches :
  merge_ok chunks matches → len matches = len chunks * 2.
Proof. induction 1; rewrite ?len_cons in *; [done|lia]. Qed.

(** The parts that are kept. *)
Fixpoint kept_parts {A} (chunks : list (list A)) (matches : list Z) : list (list A) :=
  match chunks, matches with
  | buf :: chunks, l :: r :: matches => kept_part buf l r :: kept_parts chunks matches
  | _, _ => []
  end.

Lemma item_nat {B} (l : list B) i x : l !! i = Some x → Cpp.item l (Z.of_nat i) = Ok x.
Proof. intros Hx. unfold Cpp.item. rewrite decide_False by lia. by rewrite Nat2Z.id, Hx. Qed.

(** The loop at the [i]-th chunk, with lengths that are C++ ints. *)
Lemma merge_loop_ok all indices i chunks matches :
  merge_ok chunks matches → drop i all = chunks → drop (2 * i) indices = matches →
  len all < 2 ^ 30 → Forall (λ buf, len buf < 2 ^ 31) all →
  Cpp.merge_loop all indices (Z.of_nat i) (length chunks) = Ok (concat (kept_parts chunks matches)).
Proof.
  intros Hm. revert i. induction Hm as [|buf l r chunks matches Hr Hl Hlen _ IH]; intros i Ha Hi Hn Hbufs; [done|].
  assert (Hbuf : all !! i = Some buf) by (rewrite <- (Nat.add_0_r i), <- lookup_drop, Ha; done).
  assert (H0 : indices !! (2 * i)%nat = Some l) by (rewrite <- (Nat.add_0_r (2 * i)), <- lookup_drop, Hi; done).
  assert (H1 : indices !! (2 * i + 1)%nat = Some r) by (rewrite <- lookup_drop, Hi; done).
  pose proof (lookup_lt_Some _ _ _ Hbuf). assert (len buf < 2 ^ 31) by (by eapply Forall_lookup_1 in Hbufs).
  cbn [length Cpp.merge_loop kept_parts concat]. rewrite (item_nat all i buf Hbuf). cbn [rbind].
  rewrite (int_small (Z.of_nat i * 2)) by (unfold len in *; lia). rewrite (int_small (Z.of_nat i * 2 + 1)) by (unfold len in *; lia).
  replace (Z.of_nat i * 2) with (Z.of_nat (2 * i)) by lia. rewrite (item_nat _ _ _ H0). cbn [rbind].
  replace (Z.of_nat (2 * i) + 1) with (Z.of_nat (2 * i + 1)) by lia. rewrite (item_nat _ _ _ H1).
  unfold Cpp.cast_int. rewrite (decide_True (P := Cpp.fits 32 l)) by (unfold Cpp.fits; lia).
  cbn [rbind]. rewrite (decide_True (P := Cpp.fits 32 r)) by (unfold Cpp.fits; lia). cbn [rbind].
  rewrite !int_small by lia. rewrite copy_range_ok by lia. cbn [rbind].
  replace (Z.of_nat i + 1) with (Z.of_nat (S i)) by lia. rewrite IH; [done| | |done|done].
  - replace (S i) with (i + 1)%nat by lia. by rewrite <- drop_drop, Ha.
  - replace (2 * S i)%nat with (2 * i + 2)%nat by lia. by rewrite <- drop_drop, Hi.
Qed.

Lemma merge_run chunks matches :
  merge_ok chunks matches → len chunks < 2 ^ 30 → Forall (λ buf, len buf < 2 ^ 31) chunks →
  Cpp.merge chunks matches = Ok (concat (kept_parts chunks matches)).
Proof.
  intros Hm Hn Hbufs. unfold Cpp.merge. rewrite decide_True by (by apply merge_ok_len).
  pose proof (len_nonneg chunks). rewrite int_small by lia. unfold len. rewrite Nat2Z.id.
  by apply (merge_loop_ok _ _ 0).
Qed.

Lemma get_ndim_nums l : l ≠ [] → get_ndim (nums l) = Ok 1.
Proof. by destruct l. Qed.

Lemma merge_slice_ok buf l r :
  0 ≤ r → r < l → l ≤ len buf →
  merge_slice (-1) (nums buf, (l, r)) = Ok (nums (kept_part buf l r)).
Proof.
  intros Hr Hl Hlen. assert (buf ≠ []) by (intros ->; unfold len in Hlen; simpl in Hlen; lia).
  unfold merge_slice, last_size, get_size. cbn [fst snd]. rewrite get_ndim_nums by done. simpl.
  destruct buf as [|x buf]; [done|]. cbn [nums map rbind last].
  assert (Hb : len (Num x :: map Num buf) = len (x :: buf)).
  { unfold len. simpl. by rewrite length_map. }
  rewrite Hb. cbn [slicing get_ndim rbind]. simpl.
  change (Num x :: map Num buf) with (map Num (x :: buf)).
  rewrite py_slice_nonneg by lia. unfold kept_part, nums.
  by rewrite map_drop, map_take.
Qed.

Lemma reduce_concat_ok (acc : list Z) (parts : list (list Z)) :
  acc ≠ [] → reduce_concat (-1) (nums acc) (map nums parts) = Ok (nums (acc ++ concat parts)).
Proof.
  revert acc. induction parts as [|p parts IH]; intros acc Ha; simpl.
  { by rewrite app_nil_r. }
  destruct acc as [|x acc]; [done|]. cbn [concat2 nums map get_ndim rbind]. simpl.
  change (Arr _) with (Arr (map Num (x :: acc) ++ map Num p)). rewrite <- map_app.
  change (Arr (map Num ((x :: acc) ++ p))) with (nums ((x :: acc) ++ p)).
  rewrite IH by done. by rewrite <- app_assoc.
Qed.

Lemma kept_part_nonempty {A} (buf : list A) l r :
  0 ≤ r → r < l → l ≤ len buf → kept_part buf l r ≠ [].
Proof.
  intros Hr Hl Hlen Hk. apply (f_equal length) in Hk. unfold kept_part in Hk.
  rewrite length_drop, length_take in Hk. unfold len in *. simpl in Hk. lia.
Qed.

(** Python's [merge] (lists of token ids, the default dimension) and the
    C++ one it was replaced by compute the same tokens whenever the indices
    select a non-empty range of every shard. *)
Theorem merge_py_is_cpp chunks matches :
  merge_ok chunks matches → chunks ≠ [] → len chunks < 2 ^ 30 → Forall (λ buf, len buf < 2 ^ 31) chunks →
  ∃ l, Cpp.merge chunks matches = Ok l ∧
    l = concat (kept_parts chunks matches) ∧
    merge_py (map nums chunks) matches (-1) = Ok (nums l).
Proof.
  intros Hm Hne Hn Hbufs. exists (concat (kept_parts chunks matches)).
  pose proof (merge_ok_len _ _ Hm) as Hlen. split; [by apply merge_run|]. clear Hn Hbufs.
  split; [done|]. unfold merge_py.
  assert (len (map nums chunks) = len chunks) as -> by (unfold len; by rewrite length_map).
  rewrite bool_decide_eq_true_2 by lia. simpl.
  assert (Hparts : collect (map (merge_slice (-1)) (zip (map nums chunks) (pair_up matches)))
    = Ok (map nums (kept_parts chunks matches))).
  { clear Hlen Hne. apply collect_map_ok.
    induction Hm as [|buf l r chunks matches Hr Hl Hlen _ IH]; simpl; [constructor|].
    constructor; [by apply merge_slice_ok|done]. }
  rewrite Hparts. destruct Hm as [|buf l r chunks matches Hr Hl Hb Hm]; [done|]. simpl.
  apply reduce_concat_ok. by apply kept_part_nonempty.
Qed.

Lemma merge_py_is_cpp_witness :
  ∃ l, Cpp.merge [[1; 2; 3; 4]; [3; 4; 5]] [4; 1; 2; 0] = Ok l ∧
    l = concat (kept_parts [[1; 2; 3; 4]; [3; 4; 5]] [4; 1; 2; 0]) ∧
    merge_py (map nums [[1; 2; 3; 4]; [3; 4; 5]]) [4; 1; 2; 0] (-1) = Ok (nums l).
Proof. apply merge_py_is_cpp; [repeat constructor; vm_compute; congruence|done|done|by repeat constructor]. Defined.

(** * Batches of texts *)

Lemma chunks_str_mono f f' s cs ov l :
  chunks_str f s cs ov = Ok l → (f ≤ f')%nat → chunks_str f' s cs ov = Ok l.
Proof.
  revert f' s l. induction f as [|f IH]; intros f' s l Hl Hf.
  - destruct f'; cbn [chunks_str] in *; by destruct (decide _).
  - destruct f' as [|f']; [lia|]. cbn [chunks_str] in *. destruct (decide _); [|done].
    apply rbind_ok_inv in Hl as (rest & Hr & Hl). rewrite (IH f' _ rest Hr) by lia. done.
Qed.

Lemma chunks_more s cs ov rest :
  0 < cs → 100 < len s - cs → chunks (drop (Z.to_nat cs) s) cs ov = Ok rest →
  chunks s cs ov = Ok (py_upto s (ov + cs) :: rest).
Proof.
  intros Hcs Hlt Hr. unfold chunks in *. destruct s as [|x s]; [unfold len in Hlt; simpl in Hlt; lia|].
  cbn [length chunks_str]. rewrite decide_True by done. rewrite py_from_nonneg by lia.
  rewrite (chunks_str_mono _ (length s) _ _ _ rest Hr); [done|].
  rewrite length_drop. simpl. lia.
Qed.
Lemma chunks_last s cs ov : ¬ 100 < len s - cs → chunks s cs ov = Ok [s].
Proof. intros H. unfold chunks. destruct (length s); cbn [chunks_str]; by rewrite decide_False. Qed.

(** Row [k] of the batched chunks holds chunk [k] of each text, or the empty
    string when that text has no such chunk. *)
Definition is_column (l : list (list text)) (i : nat) (chunks_i : list text) : Prop :=
  (length chunks_i ≤ length l)%nat ∧
  ∀ k row, l !! k = Some row → row !! i = Some (default [] (chunks_i !! k)).

Lemma chunks_seq_ok fuel sentences cs ov :
  0 < cs → (∀ s, s ∈ sentences → (length s ≤ fuel)%nat) →
  ∃ l, chunks_seq fuel sentences cs ov = Ok l ∧
    ∀ i s, sentences !! i = Some s →
      (s = [] ∧ is_column l i []) ∨
      (s ≠ [] ∧ ∃ c, chunks s cs ov = Ok c ∧ is_column l i c).
Proof.
  intros Hcs. revert sentences. induction fuel as [|fuel IH]; intros sentences Hlen;
    cbn [chunks_seq]; destruct (existsb _ sentences) eqn:Hex.
  1: { apply existsb_exists in Hex as (s & Hs & Hne). apply list_elem_of_In, Hlen in Hs.
       by destruct s; [|simpl in Hs; lia]. }
  1, 3: exists []; split; [done|]; intros i s Hi; left; 
    (split; [|by split; [simpl; lia|by intros k row Hk]]);
    apply not_true_iff_false in Hex; destruct s; [done|]; destruct Hex;
    apply existsb_exists; eexists; split; [by eapply list_elem_of_In, list_elem_of_lookup_2|done].
  assert (Hmore : ∀ s, has_more cs s = bool_decide (100 < len s - cs)).
  { intros s. unfold has_more. apply bool_decide_ext. rewrite py_from_nonneg, len_drop by lia. lia. }
  destruct (IH (map (λ s, if has_more cs s then py_from s cs else []) sentences)) as (l & Hl & Hcol).
  { intros s Hs. apply list_elem_of_fmap in Hs as (t & -> & Ht). pose proof (Hlen t Ht).
    rewrite Hmore. case_bool_decide as Hm; [|simpl; lia]. rewrite py_from_nonneg, length_drop by lia.
    unfold len in Hm. lia. }
  rewrite Hl. eexists. split; [done|]. intros i s Hi.
  specialize (Hcol i). rewrite lookup_map, Hi in Hcol. specialize (Hcol _ eq_refl). rewrite Hmore in Hcol.
  assert (Hrow : ∀ c, is_column l i c →
    is_column (map (λ s, if has_more cs s then py_upto s (ov + cs) else s) sentences :: l) i
      ((if bool_decide (100 < len s - cs) then py_upto s (ov + cs) else s) :: c)).
  { intros c [Hc Hr]. split; [simpl; lia|]. intros [|k] row Hk; [|by apply Hr].
    injection Hk as <-. rewrite lookup_map, Hi. cbn [fmap option_fmap option_map]. by rewrite Hmore. }
  case_bool_decide as Hm.
  - right. split; [intros ->; unfold len in Hm; simpl in Hm; lia|].
    rewrite py_from_nonneg in Hcol by lia. destruct Hcol as [[Hnil _]|(_ & c & Hc & Hcol)].
    { apply (f_equal len) in Hnil. rewrite len_drop in Hnil. unfold len in *. simpl in Hnil. lia. }
    exists (py_upto s (ov + cs) :: c). split; [by apply chunks_more|]. by apply Hrow.
  - destruct Hcol as [[_ Hcol]|[? _]]; [|done]. apply Hrow in Hcol.
    destruct s as [|x s]; [left|right].
    + split; [done|]. destruct Hcol as [_ Hr]. split; [simpl; lia|].
      intros k row Hk. rewrite (Hr k row Hk). by destruct k.
    + split; [done|]. exists [x :: s]. split; [by apply chunks_last|done].
Qed.

(** Chunking a batch is chunking each of its texts: it terminates, and the
    [i]-th column of its rows lists the chunks of the [i]-th text, padded with
    empty strings. *)
Theorem chunks_batch sentences cs ov :
  0 < cs →
  ∃ fuel l, chunks_seq fuel sentences cs ov = Ok l ∧
    ∀ i s, sentences !! i = Some s → s ≠ [] →
      ∃ c, chunks s cs ov = Ok c ∧ is_column l i c.
Proof.
  intros Hcs. exists (foldr (λ s n, length s + n)%nat 0%nat sentences).
  destruct (chunks_seq_ok (foldr (λ s n, length s + n)%nat 0%nat sentences) sentences cs ov Hcs)
    as (l & Hl & Hcol).
  - intros s Hs. clear Hcs. induction sentences as [|t sentences IH]; [by apply not_elem_of_nil in Hs|].
    simpl. apply elem_of_cons in Hs as [->|Hs]; [lia|]. specialize (IH Hs). lia.
  - exists l. split; [done|]. intros i s Hi Hne. by destruct (Hcol i s Hi) as [[]|[]].
Qed.

Lemma chunks_batch_witness :
  ∃ fuel l, chunks_seq fuel [replicate 300 1; []; replicate 120 2] 100 10 = Ok l ∧
    ∀ i s, [replicate 300 1; []; replicate 120 2] !! i = Some s → s ≠ [] →
      ∃ c, chunks s 100 10 = Ok c ∧ is_column l i c.
Proof. apply chunks_batch. lia. Defined.

(** [flatten] of nested lists never returns on an empty list: [all] of
    nothing is true, so the loop flattens the empty list for ever. *)
Theorem flatten_empty_diverges fuel (rows : list nested) :
  (∀ x, x ∈ rows → x = Arr []) → flatten_list fuel (Arr rows) = Raise OutOfFuel.
Proof.
  intros Hrows. simpl. assert (flatten_loop fuel rows = Raise OutOfFuel) as ->; [|done].
  revert rows Hrows. induction fuel as [|fuel IH]; intros rows Hrows; cbn [flatten_loop].
  all: assert (forallb is_list rows = true) as -> by
    (apply forallb_forall; intros x Hx; by rewrite (Hrows x) by (by apply list_elem_of_In)).
  - done.
  - apply IH. intros x Hx. apply list_elem_of_In, in_concat in Hx as (l & Hl & Hx).
    apply in_map_iff in Hl as (y & <- & Hy). by rewrite (Hrows y) in Hx by (by apply list_elem_of_In).
Qed.

Lemma flatten_empty_diverges_witness : flatten_list 1000 (Arr [Arr []; Arr []]) = Raise OutOfFuel.
Proof. apply flatten_empty_diverges. intros x Hx. set_solver. Defined.
