(* ===== verification/LoptLossless.v ===== *)
(** The parallel tokenization is the serial one, for a tokenizer that is local:
    [vt] is the text of a token, [tok] the tokenization of a text without
    special tokens. *)

From S2P Require Import Prelude.
From S2P Require Import Lopt.
From S2P Require Import LoptSpec.

Lemma drop_take_sub {A} (l : list A) n m : drop n (take m l) = take (m - n) (drop n l).
Proof.
  destruct (decide (n ≤ m)%nat).
  - rewrite take_drop_commute. do 2 f_equal. lia.
  - rewrite drop_ge by (rewrite length_take; lia). by replace (m - n)%nat with 0%nat by lia.
Qed.

(** * Local tokenizers *)

Section tokenizer.
Context (vt : Z → text) (tok : text → list Z).

Definition known (x : Z) : Prop := ∃ t, x ∈ tok t.
(** [y] may follow [x]. *)
Definition adjacent (x y : Z) : Prop :=
  ∃ t i, tok t !! i = Some x ∧ tok t !! S i = Some y.
Definition coherent (l : list Z) : Prop :=
  (∀ x, x ∈ l → known x) ∧
  ∀ i x y, l !! i = Some x → l !! S i = Some y → adjacent x y.

(** A tokenizer that segments the text into non-empty tokens, identified by
    their texts, and for which being a tokenization is a local property: a
    sequence of tokens whose neighbours occur as neighbours in tokenizations is
    the tokenization of its text (as for byte-pair encoding, where a sequence
    is canonical when each pair of neighbours is). *)
Record local_tokenizer : Prop := {
  lt_text t : concat (map vt (tok t)) = t;
  lt_nonempty x : known x → vt x ≠ [];
  lt_inj x y : known x → known y → vt x = vt y → x = y;
  lt_local l : coherent l → tok (concat (map vt l)) = l
}.

Definition text_of (l : list Z) : text := concat (map vt l).
(** Where the [i]-th token of [l] starts. *)
Definition start (l : list Z) (i : nat) : nat := length (text_of (take i l)).
Fixpoint starts_from (p : Z) (l : list Z) : list Z :=
  match l with [] => [] | x :: l => p :: starts_from (p + len (vt x)) l end.
(** The offset mapping of the tokens. *)
Fixpoint spans_from (p : Z) (l : list Z) : list nested :=
  match l with
  | [] => []
  | x :: l => nums [p; p + len (vt x)] :: spans_from (p + len (vt x)) l
  end.

Lemma text_of_app l k : text_of (l ++ k) = text_of l ++ text_of k.
Proof. unfold text_of. by rewrite map_app, concat_app. Qed.

Lemma evens_spans p l : evens (leaves (Arr [Arr (spans_from p l)])) = starts_from p l.
Proof.
  cbn [leaves map concat]. rewrite app_nil_r. revert p.
  induction l as [|x l IH]; intros p; [done|]. cbn [spans_from map concat leaves nums app evens].
  simpl. f_equal. apply IH.
Qed.

Lemma starts_from_lookup p l i :
  starts_from p l !! i = if decide (i < length l)%nat then Some (p + Z.of_nat (start l i)) else None.
Proof.
  revert p i. induction l as [|x l IH]; intros p i; [by destruct i|].
  destruct i as [|i]; simpl; [f_equal; unfold start; simpl; lia|]. rewrite IH.
  destruct (decide (i < length l)%nat); [rewrite decide_True by lia|by rewrite decide_False by lia].
  f_equal. unfold start. cbn [take]. unfold text_of, len. cbn [map concat].
  rewrite length_app. lia.
Qed.

Lemma start_S l i x : l !! i = Some x → start l (S i) = (start l i + length (vt x))%nat.
Proof.
  intros Hx. unfold start. rewrite (take_S_r _ _ _ Hx), text_of_app, length_app.
  unfold text_of. simpl. rewrite app_nil_r. done.
Qed.

Lemma start_split l p i :
  (p ≤ i)%nat → start l i = (start l p + start (drop p l) (i - p))%nat.
Proof.
  intros Hp. unfold start. replace i with (p + (i - p))%nat at 1 by lia.
  by rewrite <- take_take_drop, text_of_app, length_app.
Qed.

Lemma text_take s l i : text_of l = s → text_of (take i l) = take (start l i) s.
Proof.
  intros <-. rewrite <- (take_drop i l) at 3. rewrite text_of_app. unfold start.
  by rewrite take_app_length.
Qed.
Lemma text_drop s l i : text_of l = s → text_of (drop i l) = drop (start l i) s.
Proof.
  intros <-. rewrite <- (take_drop i l) at 3. rewrite text_of_app. unfold start.
  by rewrite drop_app_length.
Qed.
Lemma start_total s l : text_of l = s → start l (length l) = length s.
Proof. intros <-. unfold start. by rewrite firstn_all. Qed.

Lemma text_token s l i x :
  text_of l = s → l !! i = Some x →
  vt x = take (start l (S i) - start l i) (drop (start l i) s).
Proof.
  intros Hl Hx. rewrite <- (text_drop s l i Hl), (drop_S _ _ _ Hx). unfold text_of. simpl.
  rewrite (start_S _ _ _ Hx), Nat.add_sub_swap, Nat.sub_diag by lia. simpl.
  by rewrite take_app_length.
Qed.

Context (Hlocal : local_tokenizer).

Lemma tok_text t : text_of (tok t) = t.
Proof. apply lt_text, Hlocal. Qed.
Lemma tok_known t x : x ∈ tok t → known x.
Proof. by exists t. Qed.

Lemma start_lt t i j : (i < j)%nat → (j ≤ length (tok t))%nat → (start (tok t) i < start (tok t) j)%nat.
Proof.
  intros Hij Hj. induction Hij as [|j Hij IH].
  - destruct (lookup_lt_is_Some_2 (tok t) i ltac:(lia)) as [x Hx]. rewrite (start_S _ _ _ Hx).
    assert (vt x ≠ []) by (eapply lt_nonempty, tok_known; [done|by eapply list_elem_of_lookup_2]).
    destruct (vt x); [done|simpl; lia].
  - destruct (lookup_lt_is_Some_2 (tok t) j ltac:(lia)) as [x Hx]. rewrite (start_S _ _ _ Hx).
    specialize (IH ltac:(lia)). lia.
Qed.

Lemma start_inv t i j :
  (start (tok t) i < start (tok t) j)%nat → (i ≤ length (tok t))%nat → (i < j)%nat.
Proof.
  intros Hs Hi. destruct (decide (i < j)%nat); [done|].
  destruct (decide (i = j)) as [->|]; [lia|].
  pose proof (start_lt t j i ltac:(lia) Hi). lia.
Qed.

Lemma starts_increasing t : increasing (starts_from 0 (tok t)).
Proof.
  intros i j x y Hij Hx Hy. rewrite starts_from_lookup in Hx, Hy.
  destruct (decide (i < _)%nat); [|done]. destruct (decide (j < _)%nat); [|done]. simplify_eq.
  pose proof (start_lt t i j Hij ltac:(lia)). lia.
Qed.

Lemma start_ge t i : (i ≤ length (tok t))%nat → (i ≤ start (tok t) i)%nat.
Proof.
  induction i as [|i IH]; intros Hi; [lia|]. pose proof (start_lt t i (S i) ltac:(lia) Hi). specialize (IH ltac:(lia)). lia.
Qed.
Lemma tok_short t : (length (tok t) ≤ length t)%nat.
Proof. rewrite <- (start_total t (tok t) (tok_text t)). by apply start_ge. Qed.
Lemma start_short t i : (i ≤ length (tok t))%nat → (start (tok t) i ≤ length t)%nat.
Proof.
  intros Hi. rewrite <- (start_total t (tok t) (tok_text t)). destruct (decide (i = length (tok t))) as [->|]; [done|].
  pose proof (start_lt t i (length (tok t)) ltac:(lia) ltac:(lia)). lia.
Qed.

(** ** Coherent sequences *)

Lemma coherent_tok t : coherent (tok t).
Proof. split; [apply tok_known|]. intros i x y Hx Hy. by exists t, i. Qed.

Lemma coherent_sub l n m : coherent l → coherent (drop n (take m l)).
Proof.
  intros [Hk Ha]. split.
  - intros x Hx%elem_of_drop_list. apply Hk. eapply elem_of_take in Hx as (i & Hi & _).
    by eapply list_elem_of_lookup_2.
  - intros i x y. rewrite !lookup_drop, !lookup_take_Some.
    intros [Hx _] [Hy _]. eapply Ha; [done|]. by rewrite <- Nat.add_succ_r.
Qed.

Lemma coherent_app l k :
  coherent l → coherent k →
  (∀ x y, last l = Some x → head k = Some y → adjacent x y) → coherent (l ++ k).
Proof.
  intros [Hl Hla] [Hk Hka] Hj. split.
  { intros x [Hx|Hx]%elem_of_app; auto. }
  intros i x y Hx Hy. rewrite lookup_app in Hx, Hy.
  destruct (l !! i) as [x'|] eqn:Hi.
  - simplify_eq. destruct (l !! S i) as [y'|] eqn:Hi'; [simplify_eq; eauto|].
    apply lookup_ge_None in Hi'. pose proof (lookup_lt_Some _ _ _ Hi).
    replace (S i - length l)%nat with 0%nat in Hy by lia.
    apply Hj; [|by rewrite head_lookup]. rewrite last_lookup. by replace (pred (length l)) with i by lia.
  - apply lookup_ge_None in Hi. rewrite (lookup_ge_None_2 l (S i)) in Hy by lia.
    eapply Hka; [done|]. by replace (S (i - length l)) with (S i - length l)%nat by lia.
Qed.

(** ** Joining the tokens of consecutive chunks *)

Context (cs ov : nat) (Hcs : (0 < cs)%nat) (Hov : (ov ≤ cs)%nat).

(** The chunks of a text. *)
Inductive chunked : text → list text → Prop :=
  | chunked_last s : s ≠ [] → chunked s [s]
  | chunked_more s rest :
      (cs < length s)%nat → chunked (drop cs s) rest →
      chunked s (take (ov + cs) s :: rest).

(** The indices [(ra, rb)] cut two neighbours at a token that both have. *)
Definition joint (T : list Z * list Z) (m : Z * Z) : Prop :=
  ∃ i j, m = (len T.1 - Z.of_nat i, len T.2 - Z.of_nat j) ∧
    (S i < length T.1)%nat ∧ (S j < length T.2)%nat ∧
    start T.1 i = (start T.2 j + cs)%nat ∧ start T.1 (S i) = (start T.2 (S j) + cs)%nat.

Definition flat (ms : list (Z * Z)) : list Z := concat (map (λ m, [m.1; m.2]) ms).

Lemma chunked_head s l : chunked s l → ∃ c rest, l = c :: rest ∧
  (c = s ∨ c = take (ov + cs) s) ∧ c ≠ [].
Proof.
  destruct 1 as [s Hs|s rest Hs _]; [by exists s, []; auto|].
  exists (take (ov + cs) s), rest. split_and!; [done|by right|].
  intros Hn. apply (f_equal length) in Hn. rewrite length_take in Hn. simpl in Hn. lia.
Qed.

(** Chunks are no longer than the text, and they are few. *)
Lemma chunked_bounds s l : chunked s l →
  Forall (λ c, (length c ≤ length s)%nat) l ∧ ((length l - 1) * cs ≤ length s)%nat.
Proof.
  induction 1 as [s _|s rest Hs _ [IH Hn]]; [split; [by constructor|simpl; lia]|].
  rewrite length_drop in *. split.
  - constructor; [rewrite length_take; lia|]. eapply Forall_impl; [exact IH|]. intros c Hc. cbv beta in *. lia.
  - cbn [length]. destruct rest; simpl in *; lia.
Qed.

(** A piece of a chunk is a piece of the text. *)
Lemma piece_eq (c s : text) k a b :
  (c = drop k s ∨ c = take (ov + cs) (drop k s)) → (b ≤ length c)%nat →
  take (b - a) (drop a c) = take (b - a) (drop (k + a) s).
Proof.
  intros [->| ->] Hb; [by rewrite drop_drop|].
  rewrite length_take in Hb. rewrite <- (drop_drop s a k).
  rewrite drop_take_sub, take_take. f_equal. lia.
Qed.

(** At a joint both chunks have the same token. *)
Lemma joint_same_token s c0 c1 i j x y :
  c0 = take (ov + cs) s → (c1 = drop cs s ∨ c1 = take (ov + cs) (drop cs s)) →
  start (tok c0) i = (start (tok c1) j + cs)%nat →
  start (tok c0) (S i) = (start (tok c1) (S j) + cs)%nat →
  tok c0 !! i = Some x → tok c1 !! j = Some y → x = y.
Proof.
  intros H0 H1 Hs Hs' Hx Hy.
  assert (Hbound : ∀ c k z, tok c !! k = Some z → (start (tok c) (S k) ≤ length c)%nat).
  { intros c k z Hk%lookup_lt_Some. rewrite <- (start_total c (tok c) (tok_text c)).
    destruct (decide (S k = length (tok c))) as [<-|]; [done|].
    apply Nat.lt_le_incl, start_lt; lia. }
  apply (lt_inj Hlocal); [by eapply tok_known, list_elem_of_lookup_2..|].
  rewrite (text_token c0 (tok c0) i x (tok_text _) Hx).
  rewrite (text_token c1 (tok c1) j y (tok_text _) Hy).
  rewrite (piece_eq c1 s cs) by (by eauto). rewrite (piece_eq c0 s 0) by (by eauto).
  simpl. rewrite Hs, Hs'. f_equal; [lia|]. f_equal. lia.
Qed.

Lemma take_drop_segment {A} (s : list A) a b :
  (a ≤ b)%nat → take (b - a) (drop a s) ++ drop b s = drop a s.
Proof.
  intros Hab. replace b with (a + (b - a))%nat at 2 by lia. rewrite <- drop_drop.
  apply take_drop.
Qed.

(** The parts of the first two chunks, with the rest of the merge after it. *)
Lemma join_parts s c0 c1 p i j L :
  c0 = take (ov + cs) s → (c1 = drop cs s ∨ c1 = take (ov + cs) (drop cs s)) →
  (p < i)%nat → (S i < length (tok c0))%nat → (j < length (tok c1))%nat →
  start (tok c0) i = (start (tok c1) j + cs)%nat →
  start (tok c0) (S i) = (start (tok c1) (S j) + cs)%nat →
  coherent L → head L = tok c1 !! j → text_of L = drop (start (tok c1) j) (drop cs s) →
  let L' := drop p (take i (tok c0)) ++ L in
  coherent L' ∧ head L' = tok c0 !! p ∧ text_of L' = drop (start (tok c0) p) s.
Proof.
  intros H0 H1 Hpi Hi Hj Hs Hs' Hco Hhd Htx L'.
  destruct (lookup_lt_is_Some_2 (tok c0) i ltac:(lia)) as [x Hx].
  destruct (lookup_lt_is_Some_2 (tok c1) j Hj) as [y Hy].
  pose proof (joint_same_token s c0 c1 i j x y H0 H1 Hs Hs' Hx Hy) as ->.
  assert (Hlen : length (drop p (take i (tok c0))) = (i - p)%nat).
  { rewrite length_drop, length_take. lia. }
  split_and!.
  - apply coherent_app; [apply coherent_sub, coherent_tok|done|].
    intros u v Hu Hv. rewrite Hhd, Hy in Hv. injection Hv as <-.
    rewrite last_lookup, Hlen, lookup_drop, lookup_take_Some in Hu. destruct Hu as [Hu _].
    exists c0, (i - 1)%nat. replace (p + pred (i - p))%nat with (i - 1)%nat in Hu by lia.
    split; [done|]. by replace (S (i - 1)) with i by lia.
  - unfold L'. rewrite head_lookup, lookup_app_l by lia.
    rewrite lookup_drop, lookup_take_lt by lia. by rewrite Nat.add_0_r.
  - unfold L'. rewrite text_of_app, Htx, drop_drop.
    rewrite (Nat.add_comm cs), <- Hs.
    assert (Hp : (start (tok c0) p < start (tok c0) i)%nat) by (apply start_lt; lia).
    rewrite drop_take_sub. 
    assert (Htd : text_of (drop p (tok c0)) = drop (start (tok c0) p) c0)
      by (apply text_drop, tok_text).
    rewrite (text_take _ (drop p (tok c0)) (i - p) Htd).
    assert (Hst : start (drop p (tok c0)) (i - p) = (start (tok c0) i - start (tok c0) p)%nat).
    { rewrite (start_split (tok c0) p i) by lia. lia. }
    rewrite Hst, (piece_eq c0 s 0) by
      (eauto; rewrite <- (start_total c0 (tok c0) (tok_text _)); apply Nat.lt_le_incl, start_lt; lia).
    apply take_drop_segment. lia.
Qed.

(** The merge from token [p] of the first chunk on. *)
Lemma merge_tail s l ms c0 rest p :
  chunked s l → l = c0 :: rest → Forall2 joint (pairs (map tok l)) ms →
  (p < length (tok c0))%nat → (start (tok c0) p < cs)%nat →
  let matches := (len (tok c0) - Z.of_nat p) :: flat ms ++ [0] in
  let L := concat (kept_parts (map tok l) matches) in
  merge_ok (map tok l) matches ∧ coherent L ∧ head L = tok c0 !! p ∧
  text_of L = drop (start (tok c0) p) s.
Proof.
  intros Hch. revert c0 rest ms p. induction Hch as [s Hs|s l Hlt Hch IH];
    intros c0 rest ms p Hl Hms Hp Hst matches L.
  - injection Hl as <- <-. apply Forall2_nil_inv_l in Hms as ->.
    assert (HL : L = drop p (take (length (tok s)) (tok s))).
    { subst L matches. cbn. rewrite app_nil_r. unfold kept_part, len.
      by rewrite Z.sub_0_r, Nat2Z.id, Z.sub_sub_distr, Z.sub_diag, Z.add_0_l, Nat2Z.id. }
    rewrite HL. split_and!.
    + subst matches. repeat constructor; unfold len; lia.
    + apply coherent_sub, coherent_tok.
    + by rewrite head_lookup, lookup_drop, Nat.add_0_r, lookup_take_lt by lia.
    + rewrite firstn_all. apply text_drop, tok_text.
  - injection Hl as <- <-. destruct (chunked_head _ _ Hch) as (c1 & rest1 & -> & Hc1 & _).
    set (c0 := take (ov + cs) s) in *. cbn [map pairs] in Hms.
    apply Forall2_cons_inv_l in Hms as (m & ms' & (i & j & -> & Hi & Hj & Hs1 & Hs2) & Hms & ->).
    cbn [fst snd] in *.
    assert (Hi' : (start (tok c0) i < ov + cs)%nat).
    { eapply Nat.lt_le_trans; [apply (start_lt c0 i (length (tok c0))); lia|].
      rewrite (start_total c0 _ (tok_text c0)). unfold c0. rewrite length_take. lia. }
    destruct (IH c1 rest1 ms' j eq_refl Hms ltac:(lia) ltac:(lia)) as (Hok & Hco & Hhd & Htx).
    assert (Hpi : (p < i)%nat) by (apply (start_inv c0); lia).
    assert (HL : L = drop p (take i (tok c0)) ++ concat (kept_parts (map tok (c1 :: rest1))
                   ((len (tok c1) - Z.of_nat j) :: flat ms' ++ [0]))).
    { subst L matches. cbn [map kept_parts flat concat fst snd app]. f_equal.
      unfold kept_part. rewrite !Z.sub_sub_distr, !Z.sub_diag, !Z.add_0_l, !Nat2Z.id. done. }
    rewrite HL. split.
    { subst matches. unfold flat. cbn [map concat fst snd app]. constructor; [unfold len; lia..|].
      exact Hok. }
    destruct (join_parts s c0 c1 p i j _ eq_refl Hc1 Hpi Hi ltac:(lia) Hs1 Hs2 Hco Hhd Htx)
      as (H1 & H2 & H3). done.
Qed.

(** The merge of all chunks is the tokenization of the text. *)
Lemma merge_all s l ms c0 rest :
  chunked s l → l = c0 :: rest → Forall2 joint (pairs (map tok l)) ms →
  let matches := len (tok c0) :: flat ms ++ [0] in
  merge_ok (map tok l) matches ∧ concat (kept_parts (map tok l) matches) = tok s.
Proof.
  intros Hch Hl Hms. destruct (chunked_head _ _ Hch) as (c & r & Hl' & _ & Hne).
  rewrite Hl in Hl'. injection Hl' as <- <-.
  assert (Hlen : (0 < length (tok c0))%nat).
  { destruct (tok c0) eqn:Ht; [|simpl; lia]. pose proof (tok_text c0) as Hx.
    rewrite Ht in Hx. by subst c0. }
  destruct (merge_tail s l ms c0 rest 0 Hch Hl Hms Hlen ltac:(unfold start; simpl; lia))
    as (Hok & Hco & _ & Htx).
  rewrite Z.sub_0_r in *. split; [done|].
  rewrite <- (lt_local Hlocal _ Hco). unfold text_of in Htx. rewrite Htx. done.
Qed.
End tokenizer.

(** * The wrapper *)

Section wrapper.
Context {A : Type} `{NdArray A}.
Context (hf_np : hf_call → res (list (string * A))).
Context (hf : hf_call → res (list (string * nested))).
Context (vt : Z → text) (tok : text → list Z) (keys : list string).

(** What the wrapper relies on: for one text, without special tokens and with
    offsets, the tokenizer returns arrays with a batch axis of length one: the
    token ids, the character spans of the tokens, and as many elements as
    tokens under each other key. *)
Record hf_documented : Prop := {
  hf_local : local_tokenizer vt tok;
  hf_returns t : ∃ d, hf_np (mkCall t None false true) = Ok d ∧ map fst d = keys ∧
    (∃ x, dict_get d "input_ids" = Ok x ∧ np_tolist x = Arr [nums (tok t)]) ∧
    (∃ x, dict_get d "offset_mapping" = Ok x ∧
       np_tolist x = Arr [Arr (spans_from vt 0 (tok t))]) ∧
    (∀ k x, k ≠ "offset_mapping" → dict_get d k = Ok x →
       length (leaves (np_tolist x)) = length (tok t))
}.

Lemma dict_get_in {B} (d : list (string * B)) k :
  k ∈ map fst d → ∃ v, dict_get d k = Ok v.
Proof.
  intros Hk. unfold dict_get. destruct (list_find _ d) as [[i [k' v]]|] eqn:Hf; [by exists v|].
  apply list_find_None in Hf. rewrite Forall_forall in Hf.
  apply list_elem_of_fmap in Hk as ([k' v] & -> & Hin). by apply Hf in Hin.
Qed.

Lemma dict_get_Some {B} (d : list (string * B)) k v :
  dict_get d k = Ok v → k ∈ map fst d.
Proof.
  unfold dict_get. destruct (list_find _ d) as [[i [k' w]]|] eqn:Hf; [|done]. intros [= ->].
  apply list_find_Some in Hf as (Hi & <- & _). apply list_elem_of_fmap. exists (k', v).
  split; [done|]. by eapply list_elem_of_lookup_2.
Qed.

(** A dictionary computed key by key. *)
Lemma dict_get_collect {B C} (f : string * B → res (string * C)) (g : string → C)
    (d : list (string * B)) k :
  (∀ x, x ∈ d → f x = Ok (x.1, g x.1)) → k ∈ map fst d →
  ∃ e, collect (map f d) = Ok e ∧ dict_get e k = Ok (g k).
Proof.
  intros Hf Hk. exists (map (λ x, (x.1, g x.1)) d). split.
  { apply collect_map_ok. clear Hk. induction d as [|x d IH]; simpl; constructor.
    - apply Hf. by left.
    - apply IH. intros y Hy. apply Hf. by right. }
  clear Hf. unfold dict_get. induction d as [|[k' v] d IH]; [by apply not_elem_of_nil in Hk|].
  simpl. destruct (decide (k' = k)) as [->|Hne]; [done|].
  apply elem_of_cons in Hk as [->|Hk]; [done|]. specialize (IH Hk).
  destruct (list_find _ (map _ d)) as [[i [k'' w]]|]; simpl in *; [done|done].
Qed.

Lemma merge_ok_ext (c c' : list (list Z)) ms :
  Forall2 (λ x y, length x = length y) c c' → merge_ok c ms → merge_ok c' ms.
Proof.
  intros Hf. revert ms. induction Hf as [|x y c c' Hxy _ IH]; intros ms Hm.
  - inversion Hm. constructor.
  - inversion Hm; subst. constructor; [done|done|unfold len in *; lia|by apply IH].
Qed.

Lemma pairs_map {B C} (f : B → C) (l : list B) :
  pairs (map f l) = map (λ x, (f x.1, f x.2)) (pairs l).
Proof. induction l as [|x [|y l] IH]; [done|done|]. simpl in *. by rewrite IH. Qed.

Context (Hdoc : hf_documented).

Lemma starts_int64 t x :
  np_tolist x = Arr [Arr (spans_from vt 0 (tok t))] →
  np_int64 (np_every_other (np_flatten x)) = starts_from vt 0 (tok t).
Proof.
  intros Hx. apply np_int64_spec. rewrite <- evens_spans, <- Hx.
  apply np_tolist_every_other, np_tolist_flatten.
Qed.
Lemma flat_int64 x : np_int64 (np_flatten x) = leaves (np_tolist x).
Proof. apply np_int64_spec, np_tolist_flatten. Qed.

(** What the workers return for the chunks, and what is matched. *)
Definition shard_of (c : text) (d : list (string * A)) : Prop :=
  hf_np (mkCall c None false true) = Ok d.

Lemma shards_exist (l : list text) :
  ∃ shards, collect (map (_tokenize_chunk hf_np) l) = Ok shards ∧ Forall2 shard_of l shards.
Proof.
  induction l as [|c l (shards & Hc & Hf)]; [by exists []|].
  destruct (hf_returns Hdoc c) as (d & Hd & _). exists (d :: shards). split; [|by constructor].
  simpl. unfold _tokenize_chunk at 1. by rewrite Hd, Hc.
Qed.

Lemma starts_exist l shards :
  Forall2 shard_of l shards →
  ∃ arrays, collect (map (λ shard, letr x := dict_get shard "offset_mapping" in
      Ok (np_every_other (np_flatten x))) shards) = Ok arrays ∧
    map np_int64 arrays = map (λ c, starts_from vt 0 (tok c)) l.
Proof.
  induction 1 as [|c d l shards Hd _ (arrays & Hc & Hm)]; [by exists []|].
  destruct (hf_returns Hdoc c) as (d' & Hd' & _ & _ & (x & Hx & Htl) & _).
  assert (d' = d) as -> by (unfold shard_of in Hd; congruence).
  exists (np_every_other (np_flatten x) :: arrays). split; simpl; [by rewrite Hx, Hc|].
  by rewrite Hm, (starts_int64 c x Htl).
Qed.

Lemma len_starts p l : len (starts_from vt p l) = len l.
Proof. revert p. induction l as [|x l IH]; intros p; [done|]. simpl. by rewrite !len_cons, IH. Qed.

(** No four consecutive tokens of the two chunks start at the same characters. *)
Definition no_common_run (c c' : text) (cs : Z) : Prop :=
  ∀ i j, ¬ run (starts_from vt 0 (tok c)) (starts_from vt 0 (tok c')) cs i j 4.

Lemma cpp_match_ok x y c c' (cs : Z) :
  0 ≤ cs < 2 ^ 31 → len c < 2 ^ 31 → len c' < 2 ^ 31 →
  np_int64 x = starts_from vt 0 (tok c) → np_int64 y = starts_from vt 0 (tok c') →
  (∃ m, _cpp_match_wrapper x y cs = Ok m ∧ joint vt (Z.to_nat cs) (tok c, tok c') m) ∨
  (_cpp_match_wrapper x y cs = Raise RuntimeError ∧ no_common_run c c' cs).
Proof.
  intros Hcs Hc Hc' Hx Hy. unfold _cpp_match_wrapper. rewrite Hx, Hy.
  pose proof (hf_local Hdoc) as Hloc. unfold len in Hc, Hc'.
  pose proof (tok_short _ _ Hloc c). pose proof (tok_short _ _ Hloc c').
  destruct (match_spec (starts_from vt 0 (tok c)) (starts_from vt 0 (tok c')) cs) with (thr := 2)
    as [[-> Hno]|(i & j & n & -> & Hrun & Hn & _)];
    [|by apply starts_increasing|by apply starts_increasing|done|unfold Cpp.fits; lia|rewrite len_starts; unfold len; lia..| |].
  - intros j v Hv. rewrite starts_from_lookup in Hv. destruct (decide (j < _)%nat) as [Hj|]; [|done]. injection Hv as <-.
    pose proof (start_short _ _ Hloc c' j ltac:(lia)). unfold Cpp.fits. lia.
  - right. split; [done|]. intros i j Hr%Hno. lia.
  - left. rewrite !len_starts. cbn [fst rbind].
    assert (Hat : ∀ k, (k < n)%nat → (i + k < length (tok c))%nat ∧ (j + k < length (tok c'))%nat ∧
      start vt (tok c) (i + k) = (start vt (tok c') (j + k) + Z.to_nat cs)%nat).
    { intros k Hk. destruct (Hrun k Hk) as (v & Hv & Hw).
      rewrite starts_from_lookup in Hv, Hw.
      destruct (decide (j + k < _)%nat) as [Hj|]; [|done].
      destruct (decide (i + k < _)%nat) as [Hi|]; [|done]. simplify_eq.
      split_and!; [exact Hi|exact Hj|lia]. }
    destruct (Hat (n - 2)%nat ltac:(lia)) as (_ & _ & Hs1).
    destruct (Hat (n - 1)%nat ltac:(lia)) as (Hi & Hj & Hs2).
    rewrite decide_False by (unfold len; lia). eexists. split; [done|].
    exists (i + (n - 2))%nat, (j + (n - 2))%nat. cbn [fst snd].
    replace (S (i + (n - 2))) with (i + (n - 1))%nat by lia.
    replace (S (j + (n - 2))) with (j + (n - 1))%nat by lia.
    split_and!; [f_equal; lia|lia|lia|exact Hs1|exact Hs2].
Qed.

Lemma all_matches_ok (l : list text) (arrays : list A) (cs : Z) :
  0 ≤ cs < 2 ^ 31 → Forall (λ c, len c < 2 ^ 31) l → map np_int64 arrays = map (λ c, starts_from vt 0 (tok c)) l →
  (∃ ms, collect (map (λ x, _cpp_match_wrapper x.1 x.2 cs) (pairs arrays)) = Ok ms ∧
     Forall2 (joint vt (Z.to_nat cs)) (pairs (map tok l)) ms) ∨
  (collect (map (λ x, _cpp_match_wrapper x.1 x.2 cs) (pairs arrays)) = Raise RuntimeError ∧
     ∃ c c', (c, c') ∈ pairs l ∧ no_common_run c c' cs).
Proof.
  intros Hcs Hlen. revert arrays. induction Hlen as [|c [|c' l] Hc Hl IH]; intros arrays Hm.
  - destruct arrays; [|done]. left. exists []. split; [done|constructor].
  - destruct arrays as [|x [|]]; [done| |done]. left. exists []. split; [done|constructor].
  - destruct arrays as [|x [|y arrays]]; [done|done|]. injection Hm as Hx Hy Hm.
    assert (Hm' : map np_int64 (y :: arrays) = map (λ c, starts_from vt 0 (tok c)) (c' :: l))
      by (simpl; congruence).
    change (pairs (x :: y :: arrays)) with ((x, y) :: pairs (y :: arrays)).
    change (pairs (c :: c' :: l)) with ((c, c') :: pairs (c' :: l)).
    change (pairs (map tok (c :: c' :: l))) with ((tok c, tok c') :: pairs (map tok (c' :: l))).
    rewrite map_cons. cbn [collect fst snd].
    destruct (cpp_match_ok x y c c' cs Hcs Hc (Forall_inv Hl) Hx Hy) as [(m & -> & Hj)|[-> Hno]].
    + destruct (IH (y :: arrays) Hm') as [(ms & -> & Hf)|[-> (d & d' & Hd & Hno)]].
      * left. exists (m :: ms). split; [done|]. by constructor.
      * right. split; [done|]. exists d, d'. split; [by right|done].
    + right. split; [done|]. exists c, c'. split; [by left|done].
Qed.

(** The merged arrays under every key. *)
Lemma merged_keys (l : list text) (shards : list (list (string * A))) (ms : list Z) (k : string) :
  Forall2 shard_of l shards → merge_ok (map tok l) ms → len l < 2 ^ 30 → Forall (λ c, len c < 2 ^ 31) l →
  k ∈ keys → k ≠ "offset_mapping" →
  ∃ parts, merge_key shards ms k = Ok (k, VList (Arr [nums (concat (kept_parts parts ms))])) ∧
    (k = "input_ids" → parts = map tok l).
Proof.
  intros Hsh Hms Hnum Hlens' Hk Hne.
  assert (∃ parts, collect (map (λ shard, letr x := dict_get shard k in
      Ok (np_int64 (np_flatten x))) shards) = Ok parts ∧
      Forall2 (λ x y, length x = length y) (map tok l) parts ∧
      (k = "input_ids" → parts = map tok l)) as (parts & Hp & Hlen & Hids).
  { clear Hms Hnum Hlens'. induction Hsh as [|c d l shards Hd _ (parts & Hp & Hlen & Hids)].
    { exists []. split_and!; [done|constructor|done]. }
    destruct (hf_returns Hdoc c) as (d' & Hd' & Hkeys & (xi & Hxi & Hti) & _ & Hlens).
    assert (d' = d) as -> by (unfold shard_of in Hd; congruence).
    destruct (dict_get_in d k) as [x Hx]; [by rewrite Hkeys|].
    exists (leaves (np_tolist x) :: parts). split_and!.
    - simpl. by rewrite Hx; simpl; rewrite flat_int64, Hp.
    - constructor; [by rewrite (Hlens k x)|done].
    - intros ->. rewrite Hids by done. simpl. f_equal. assert (x = xi) as -> by congruence.
      rewrite Hti. simpl. rewrite app_nil_r. clear. induction (tok c); simpl; [done|by f_equal]. }
  exists parts. split; [|done]. unfold merge_key. rewrite Hp. cbn [rbind].
  assert (Hok : merge_ok parts ms) by (by eapply merge_ok_ext).
  rewrite merge_run; [cbn [rbind]|done|unfold len in *; apply Forall2_length in Hlen; rewrite length_map in Hlen; lia|].
  2:{ apply Forall_lookup_2. intros i part Hi. destruct (Forall2_lookup_r _ _ _ _ _ Hlen Hi) as (x & Hx & Hxl).
      rewrite lookup_map in Hx. apply fmap_Some in Hx as (c & Hc & ->). eapply Forall_lookup_1 in Hlens'; [|exact Hc].
      pose proof (tok_short _ _ (hf_local Hdoc) c). unfold len in *. lia. }
   by rewrite np_tolist_newaxis, np_tolist_array.
Qed.

Lemma chunks_chunked (cs ov : Z) s :
  0 < cs → 0 ≤ ov → s ≠ [] →
  ∃ l, chunks s cs ov = Ok l ∧ chunked (Z.to_nat cs) (Z.to_nat ov) s l.
Proof.
  intros Hcs Hov Hs. unfold chunks.
  destruct (chunks_str_ind (λ s l, s ≠ [] → chunked (Z.to_nat cs) (Z.to_nat ov) s l) cs ov Hcs Hov)
    with (fuel := length s) (s := s) as (l & Hl & Hch); [| |done|exists l; auto].
  - intros t _ Ht. by constructor.
  - intros t rest Ht IH _. rewrite Z2Nat.inj_add by lia. constructor; [unfold len in Ht; lia|].
    apply IH. intros Hn. apply (f_equal length) in Hn. rewrite length_drop in Hn.
    unfold len in Ht. simpl in Hn. lia.
Qed.

Lemma keys_of c d : shard_of c d → map fst d = keys.
Proof.
  intros Hd. destruct (hf_returns Hdoc c) as (d' & Hd' & Hk & _).
  by assert (d' = d) as -> by (unfold shard_of in Hd; congruence).
Qed.

Lemma ids_in_keys : "input_ids" ∈ keys.
Proof.
  destruct (hf_returns Hdoc []) as (d & _ & <- & (x & Hx & _) & _). by eapply dict_get_Some.
Qed.

(** The encoding of a text of at least two chunks. *)
Lemma parallel_encode_ok self t l c0 c1 rest :
  100 < chunk_size self < 2 ^ 31 → 0 ≤ overlap self ≤ chunk_size self → len t < 2 ^ 31 →
  chunks t (chunk_size self) (overlap self) = Ok l → l = c0 :: c1 :: rest → t ≠ [] →
  (∃ e, _parallel_encode hf_np self t = Ok e ∧
     dict_get e "input_ids" = Ok (VList (Arr [nums (tok t)]))) ∨
  (_parallel_encode hf_np self t =
     (letr r := hf_np (hf_default t) in Ok (map (λ x, (x.1, VArray x.2)) r)) ∧
   ∃ c c', (c, c') ∈ pairs l ∧ no_common_run c c' (chunk_size self)).
Proof.
  intros Hcs Hov Hlen Hl Hl2 Ht. unfold _parallel_encode. rewrite Hl. cbn [rbind].
  destruct (chunks_chunked (chunk_size self) (overlap self) t ltac:(lia) ltac:(lia) Ht)
    as (l' & Hl' & Hch).
  assert (l' = l) as -> by congruence. destruct (chunked_bounds (Z.to_nat (chunk_size self)) (Z.to_nat (overlap self)) ltac:(lia) ltac:(lia) t l Hch) as [Hsz Hnum].
  assert (Hshort : Forall (λ c, len c < 2 ^ 31) l).
  { eapply Forall_impl; [exact Hsz|]. intros c Hc. unfold len in *. lia. }
  assert (Hfew : len l < 2 ^ 30) by (unfold len in *; nia).
  destruct (shards_exist l) as (shards & -> & Hsh). cbn [rbind].
  rewrite Hl2 in Hsh. inversion Hsh as [|? d0 ? sh1 Hd0 Hsh1]; subst.
  inversion Hsh1 as [|? d1 ? sh2 Hd1 Hsh2]; subst.
  destruct (starts_exist _ _ Hsh) as (arrays & -> & Hm). cbn [rbind].
  unfold find_matches.
  destruct (all_matches_ok (c0 :: c1 :: rest) arrays (chunk_size self) ltac:(lia) Hshort Hm)
    as [(ms & -> & Hms)|[-> Hno]]; cbn [rbind]; [left|right; by split].
  destruct arrays as [|x [|y arrays]]; [done|done|]. injection Hm as Hx Hy Hm.
  destruct ms as [|m ms]; [by apply Forall2_nil_inv_r in Hms|]. rewrite Hx, len_starts.
  change ([len (tok c0)] ++ _ ++ [0]) with (len (tok c0) :: flat (m :: ms) ++ [0]).
  destruct (merge_all vt tok (hf_local Hdoc) (Z.to_nat (chunk_size self))
    (Z.to_nat (overlap self)) ltac:(lia) ltac:(lia) t _ (m :: ms) c0 (c1 :: rest) Hch eq_refl Hms)
    as [Hok Heq].
  set (matches := len (tok c0) :: flat (m :: ms) ++ [0]) in *.
  assert (Hkey : ∀ k, k ∈ keys → k ≠ "offset_mapping" → ∃ parts, 
    merge_key (d0 :: d1 :: sh2) matches k =
      Ok (k, VList (Arr [nums (concat (kept_parts parts matches))])) ∧
    (k = "input_ids" → parts = map tok (c0 :: c1 :: rest))).
  { intros k Hk Hne. by apply merged_keys. }
  destruct (dict_get_collect (λ x, merge_key (d0 :: d1 :: sh2) matches x.1)
    (λ k, match merge_key (d0 :: d1 :: sh2) matches k with
          | Ok kv => kv.2 | Raise _ => VList (Arr []) end)
    (without_offsets d0) "input_ids") as (e & -> & He).
  - intros [k v] Hkv. apply list_elem_of_filter in Hkv as [Hne Hin]. cbn [fst] in *.
    destruct (Hkey k) as (parts & -> & _); [|done|done].
    rewrite <- (keys_of c0 d0 Hd0). apply list_elem_of_fmap. by exists (k, v).
  - pose proof ids_in_keys as Hin. rewrite <- (keys_of c0 d0 Hd0) in Hin.
    apply list_elem_of_fmap in Hin as ([k v] & Hk & Hin). simpl in Hk. subst k.
    apply list_elem_of_fmap. exists ("input_ids", v). split; [done|].
    by apply list_elem_of_filter.
  - exists e. split; [done|]. rewrite He.
    destruct (Hkey "input_ids" ids_in_keys ltac:(done)) as (parts & -> & Hp). simpl.
    by rewrite Hp, Heq.
Qed.
End wrapper.

(** C15. Lossless: for every local tokenizer, a long text encoded in parallel
    gets, under "input_ids", exactly the token ids of the serial tokenization
    of the whole text (as one row of a batch) — unless two neighbouring chunks
    have no four consecutive tokens in common, and then the call is the one of
    the serial tokenizer.  The text has less than 2^31 characters, so that the
    C++ ints of the extension hold all counts. *)
Theorem lopt_lossless {A} `{NdArray A} hf_np hf vt tok keys self t flag :
  hf_documented hf_np vt tok keys →
  100 < chunk_size self → 0 ≤ overlap self ≤ chunk_size self →
  chunk_size self * 2 ≤ len t → len t < 2 ^ 31 →
  (∃ e, call hf_np hf self t flag = Ok e ∧
     dict_get e "input_ids" = Ok (VList (Arr [nums (tok t)]))) ∨
  (call hf_np hf self t flag =
     (letr r := hf_np (hf_default t) in Ok (map (λ x, (x.1, VArray x.2)) r)) ∧
   ∃ l c c', chunks t (chunk_size self) (overlap self) = Ok l ∧
     (c, c') ∈ pairs l ∧ no_common_run vt tok c c' (chunk_size self)).
Proof.
  intros Hdoc Hcs Hov Hlen Hint. unfold call. rewrite decide_False by lia.
  assert (Hne : t ≠ []) by (intros ->; unfold len in Hlen; simpl in Hlen; lia).
  destruct (chunks_chunked (chunk_size self) (overlap self) t ltac:(lia) ltac:(lia) Hne)
    as (l & Hl & Hch).
  assert (∃ c0 c1 rest, l = c0 :: c1 :: rest) as (c0 & c1 & rest & Heq).
  { unfold chunks in Hl. destruct t as [|x t]; [done|]. cbn [length chunks_str] in Hl.
    rewrite decide_True in Hl by lia.
    destruct (chunks_str _ (py_from _ _) _ _) as [l'|] eqn:Hl'; [|done]. injection Hl as <-.
    destruct l' as [|c1 l'']; [|by eexists _, _, _].
    destruct (length t); cbn [chunks_str] in Hl'; destruct (decide _); try done.
    by destruct (chunks_str _ _ _ _). }
  destruct (parallel_encode_ok hf_np vt tok keys Hdoc self t l c0 c1 rest
    ltac:(lia) Hov Hint Hl Heq Hne) as [Hok|[Hf (c & c' & Hc)]]; [by left|right].
  split; [exact Hf|]. by exists l, c, c'.
Qed.

(** ** An instance *)

#[export, refine] Instance nested_array : NdArray nested := {|
  np_tolist x := x;
  np_flatten x := nums (leaves x);
  np_every_other x := match x with Arr l => Arr (evens l) | Num z => Num z end;
  np_newaxis x := Arr [x];
  np_int64 x := leaves x;
  np_array := nums
|}.
Proof.
  - done.
  - intros x l ->. simpl. f_equal.
    assert (Hn : ∀ n (l : list Z), (length l ≤ n)%nat → evens (map Num l) = map Num (evens l)).
    { induction n as [|n IH]; intros k Hk; [by destruct k; simpl in *; [|lia]|].
      destruct k as [|x1 [|x2 k]]; [done..|]. simpl. f_equal. apply IH. simpl in Hk. lia. }
    unfold nums. f_equal. by apply (Hn (length l)).
  - done.
  - intros x l ->. simpl. induction l; [done|]. simpl. by f_equal.
  - done.
Defined.

(** Characters, with "ab" as one token. *)
Definition ab_text (x : Z) : text := if decide (x = 1) then [97; 98] else [x / 2].
Fixpoint ab_tok (t : text) : list Z :=
  match t with
  | a :: rest =>
      match rest with
      | b :: rest' =>
          if decide (a = 97 ∧ b = 98) then 1 :: ab_tok rest' else 2 * a :: ab_tok rest
      | [] => [2 * a]
      end
  | [] => []
  end.

(** Induction over the tokens of a text. *)
Lemma ab_tok_ind (P : text → list Z → Prop) :
  P [] [] →
  (∀ t l, P t l → P (97 :: 98 :: t) (1 :: l)) →
  (∀ a t l, (a = 97 → head t ≠ Some 98) → l = ab_tok t → P t l → P (a :: t) (2 * a :: l)) →
  ∀ t, P t (ab_tok t).
Proof.
  intros H0 H1 H2 t. remember (length t) as n eqn:Hn. assert (Hle : (length t ≤ n)%nat) by lia.
  clear Hn. revert t Hle. induction n as [|n IH]; intros [|a [|b t]] Hle; simpl in Hle;
    try done; try lia.
  - simpl. by apply (H2 a []).
  - cbn [ab_tok]. destruct (decide (a = 97 ∧ b = 98)) as [[-> ->]|Hne].
    + apply H1, IH. lia.
    + apply H2; [|done|apply IH; simpl; lia]. intros ->. simpl. intros [= ->]. by apply Hne.
Qed.

Lemma ab_char_text (a : Z) : ab_text (2 * a) = [a].
Proof. unfold ab_text. rewrite decide_False by lia. rewrite Z.mul_comm, Z.div_mul; [done|lia]. Qed.

Lemma ab_known x : known ab_tok x → x = 1 ∨ ∃ a, x = 2 * a.
Proof.
  intros [t Ht]. revert Ht. pattern t, (ab_tok t). apply ab_tok_ind.
  - by intros ?%not_elem_of_nil.
  - intros s l IH [->|?]%elem_of_cons; auto.
  - intros a s l _ _ IH [->|?]%elem_of_cons; eauto.
Qed.

Lemma ab_adjacent x y : adjacent ab_tok x y → ¬ (x = 2 * 97 ∧ y = 2 * 98).
Proof.
  intros (t & i & Hx & Hy) [-> ->]. revert i Hx Hy. pattern t, (ab_tok t). apply ab_tok_ind.
  - done.
  - intros s l IH [|i] Hx Hy; [done|eauto].
  - intros a s l Ha -> IH [|i] Hx Hy; [|eauto]. simpl in Hx, Hy. injection Hx as Hx.
    assert (a = 97) as -> by lia. apply Ha; [done|].
    destruct s as [|b [|c s]]; [done| |]; cbn [ab_tok] in Hy.
    + injection Hy as Hy. simpl. f_equal. lia.
    + destruct (decide _); [done|]. injection Hy as Hy. simpl. f_equal. lia.
Qed.

Lemma ab_local : local_tokenizer ab_text ab_tok.
Proof.
  constructor.
  - intros t. pattern t, (ab_tok t). apply ab_tok_ind; [done| |].
    + intros s l IH. simpl. by rewrite IH.
    + intros a s l _ _ IH. cbn [map concat]. by rewrite ab_char_text, IH.
  - intros x [->|[a ->]]%ab_known; [done|by rewrite ab_char_text].
  - intros x y [->|[a ->]]%ab_known [->|[b ->]]%ab_known; rewrite ?ab_char_text; [done|done|done|].
    by intros [= ->].
  - intros l. induction l as [|x l IH]; intros [Hk Ha]; [done|].
    assert (Htl : ab_tok (concat (map ab_text l)) = l).
    { apply IH. split; [intros y Hy; apply Hk; by right|]. intros i y z Hy Hz. by apply (Ha (S i)). }
    cbn [map concat]. destruct (ab_known x) as [->|[a ->]]; [apply Hk; by left| |].
    + simpl. by rewrite Htl.
    + rewrite ab_char_text. cbn [app ab_tok].
      destruct l as [|y l]; [done|]. cbn [map concat] in *.
      pose proof (ab_adjacent _ _ (Ha 0%nat _ _ eq_refl eq_refl)) as Hadj.
      destruct (ab_known y) as [->|[b ->]]; [apply Hk; right; by left| |].
      * change (ab_text 1) with [97; 98] in *. cbn [app] in *. rewrite decide_False by lia.
        by rewrite Htl.
      * rewrite ab_char_text in *. cbn [app] in *. rewrite decide_False; [by rewrite Htl|].
        intros [-> ->]. by apply Hadj.
Qed.

Definition ab_np (c : hf_call) : res (list (string * nested)) :=
  let ids := ab_tok (hf_text c) in
  Ok [("input_ids", Arr [nums ids]);
      ("attention_mask", Arr [nums (map (λ _, 1) ids)]);
      ("offset_mapping", Arr [Arr (spans_from ab_text 0 ids)])].

Lemma leaves_nums l : leaves (nums l) = l.
Proof. simpl. induction l as [|x l IH]; [done|]. simpl. by f_equal. Qed.

Lemma ab_documented :
  hf_documented ab_np ab_text ab_tok ["input_ids"; "attention_mask"; "offset_mapping"].
Proof.
  constructor; [exact ab_local|]. intros t. eexists. split; [done|]. split; [done|].
  split; [by eexists|]. split; [by eexists|]. intros k x Hne.
  unfold dict_get. cbn [list_find fst].
  destruct (decide ("input_ids" = k)); [intros [= <-]|].
  { cbn [np_tolist nested_array leaves map concat]. by rewrite app_nil_r, leaves_nums. }
  cbn. destruct (decide ("attention_mask" = k)); [intros [= <-]|].
  { cbn [np_tolist nested_array leaves map concat]. rewrite app_nil_r, leaves_nums. apply length_map. }
  cbn. by destruct (decide ("offset_mapping" = k)).
Qed.

Definition ab_prompt : text := concat (replicate 100 [97; 98; 99]).

Lemma lopt_lossless_witness :
  (∃ e, call ab_np ab_np (mkLopt "model" 8 128 16) ab_prompt false = Ok e ∧
     dict_get e "input_ids" = Ok (VList (Arr [nums (ab_tok ab_prompt)]))) ∨
  (call ab_np ab_np (mkLopt "model" 8 128 16) ab_prompt false =
     (letr r := ab_np (hf_default ab_prompt) in Ok (map (λ x, (x.1, VArray x.2)) r)) ∧
   ∃ l c c', chunks ab_prompt 128 16 = Ok l ∧
     (c, c') ∈ pairs l ∧ no_common_run ab_text ab_tok c c' 128).
Proof.
  apply (lopt_lossless ab_np ab_np ab_text ab_tok
    ["input_ids"; "attention_mask"; "offset_mapping"] (mkLopt "model" 8 128 16)).
  - exact ab_documented.
  - reflexivity.
  - simpl. lia.
  - vm_compute. congruence.
  - reflexivity.
Defined.

(** The same tokenizer as Hugging Face calls it: a leading special token when
    [add_special_tokens] is set, and a [ValueError] for a [text_pair] that is no
    text. *)
Definition ab_ids (c : hf_call) : list Z :=
  (if hf_add_special_tokens c then [3] else []) ++ ab_tok (hf_text c).
Definition ab_hf_np (c : hf_call) : res (list (string * nested)) :=
  match hf_text_pair c with
  | Some _ => Raise ValueError
  | None => Ok [("input_ids", Arr [nums (ab_ids c)]);
                ("offset_mapping", Arr [Arr (spans_from ab_text 0 (ab_tok (hf_text c)))])]
  end.
Definition ab_hf (c : hf_call) : res (list (string * nested)) :=
  match hf_text_pair c with
  | Some _ => Raise ValueError
  | None => Ok [("input_ids", nums (ab_ids c))]
  end.

(** [add_special_tokens] is lost on both paths: for a short text it is
    passed as [text_pair], so that the tokenizer refuses the call, and a long
    text gets no special tokens even when they are asked for, where the serial
    tokenizer puts them. *)
Theorem special_tokens_flag_lost :
  let self := mkLopt "model" 8 128 16 in
  (∀ flag, encode ab_hf_np ab_hf self [97; 98; 99] flag = Raise ValueError) ∧
  encode ab_hf_np ab_hf self ab_prompt true = Ok (VList (Arr [nums (ab_tok ab_prompt)])) ∧
  ab_hf (mkCall ab_prompt None true false) = Ok [("input_ids", nums (3 :: ab_tok ab_prompt))].
Proof. split; [by intros []|]. split; vm_compute; reflexivity. Qed.

(** When LoPT is enabled but the extension is missing, the factory says it
    falls back to standard tokenization and returns [None]; the completion
    endpoint then calls [None], and every prompt is refused. *)
Theorem lopt_unavailable_refuses_prompts {A} `{NdArray A} hf_np hf from_pretrained
    path pool cs prompt :
  completion_prompt hf_np hf true
    (maybe_get_lopt_tokenizer from_pretrained false path true pool cs) prompt = Raise TypeError.
Proof. done. Qed.
