(* ===== verification/KVBlocks.v ===== *)
(** KV-cache blocks and the free-block queue
    (vllm/v1/core/kv_cache_utils.py: [KVCacheBlock], [FreeKVCacheBlockQueue]).

    Blocks are mutable Python objects that point at each other, so they live
    in an explicit object store: a location stands for an object identity, and
    the attributes of the object are the record stored there.  The queue is
    the intrusive doubly linked list of the code, its two sentinels included.
    [is_queue s l] is the abstraction: the store [s] holds the free list
    [l].  Every operation is shown to implement the matching operation on the
    list [l], in constant or linear work, without changing any other data of
    the blocks. *)

From S2P Require Import Prelude.

(** An object identity. *)
Abbreviation loc := nat.

Record KVCacheBlock := mkBlock {
  block_id : Z;
  ref_cnt : Z;
  _block_hash : option bytes;
  prev_free_block : option loc;
  next_free_block : option loc;
  is_null : bool
}.

(** [KVCacheBlock(block_id=i)]: the dataclass defaults. *)
Definition new_block (i : Z) : KVCacheBlock := mkBlock i 0 None None None false.

Definition set_ref_cnt (v : Z) (b : KVCacheBlock) : KVCacheBlock :=
  mkBlock (block_id b) v (_block_hash b) (prev_free_block b) (next_free_block b)
    (is_null b).
Definition set_hash (v : option bytes) (b : KVCacheBlock) : KVCacheBlock :=
  mkBlock (block_id b) (ref_cnt b) v (prev_free_block b) (next_free_block b)
    (is_null b).
Definition set_prev (v : option loc) (b : KVCacheBlock) : KVCacheBlock :=
  mkBlock (block_id b) (ref_cnt b) (_block_hash b) v (next_free_block b)
    (is_null b).
Definition set_next (v : option loc) (b : KVCacheBlock) : KVCacheBlock :=
  mkBlock (block_id b) (ref_cnt b) (_block_hash b) (prev_free_block b) v
    (is_null b).
Definition set_is_null (v : bool) (b : KVCacheBlock) : KVCacheBlock :=
  mkBlock (block_id b) (ref_cnt b) (_block_hash b) (prev_free_block b)
    (next_free_block b) v.
(** [b.prev_free_block = b.next_free_block = None] *)
Definition unlink (b : KVCacheBlock) : KVCacheBlock := set_prev None (set_next None b).

Record FreeKVCacheBlockQueue := mkQueue {
  num_free_blocks : Z;
  fake_free_list_head : loc;
  fake_free_list_tail : loc
}.

(** The object store, with the next unused location, and the queue object. *)
Record store := mkStore {
  heap : gmap loc KVCacheBlock;
  next_loc : loc;
  queue : FreeKVCacheBlockQueue
}.

Definition empty_store : store := mkStore ∅ 0%nat (mkQueue 0 0%nat 0%nat).

Definition set_heap (h : gmap loc KVCacheBlock) (s : store) : store :=
  mkStore h (next_loc s) (queue s).
Definition set_num_free_blocks (n : Z) (s : store) : store :=
  mkStore (heap s) (next_loc s)
    (mkQueue n (fake_free_list_head (queue s)) (fake_free_list_tail (queue s))).

(** Read an object, update one in place, create one. *)
Definition rd (l : loc) : M store KVCacheBlock :=
  λ s, match heap s !! l with
       | Some b => (Ok b, s)
       | None => (Raise AttributeError, s)
       end.
Definition upd (l : loc) (f : KVCacheBlock → KVCacheBlock) : M store unit :=
  modify (λ s, set_heap (alter f l (heap s)) s).
Definition alloc (b : KVCacheBlock) : M store loc :=
  λ s, (Ok (next_loc s),
        mkStore (<[next_loc s := b]> (heap s)) (S (next_loc s)) (queue s)).
Definition add_num_free (d : Z) : M store unit :=
  modify (λ s, set_num_free_blocks (num_free_blocks (queue s) + d) s).

(** The [block_hash] property's setter and [reset_hash]. *)
Definition set_block_hash (l : loc) (h : bytes) : M store unit :=
  let* b := rd l in
  assert_ (bool_decide (_block_hash b = None)) ;;;
  upd l (set_hash (Some h)).
Definition reset_hash (l : loc) : M store unit := upd l (set_hash None).

Module FreeQueue.

(** [__init__]'s first loop: links between consecutive blocks. *)
Fixpoint link_consecutive (prev : option loc) (blocks : list loc) : M store unit :=
  match blocks with
  | [] => ret tt
  | b :: rest =>
      (match prev with
       | Some p => upd b (set_prev (Some p))
       | None => ret tt
       end) ;;;
      (match rest with
       | n :: _ => upd b (set_next (Some n))
       | [] => ret tt
       end) ;;;
      link_consecutive (Some b) rest
  end.

(** ... and the links of the sentinels, which are objects of id -1. *)
Definition link_sentinels (head tail : loc) (blocks : list loc) : M store unit :=
  match blocks, last blocks with
  | first :: _, Some final =>
      upd head (set_next (Some first)) ;;;
      upd first (set_prev (Some head)) ;;;
      upd tail (set_prev (Some final)) ;;;
      upd final (set_next (Some tail))
  | _, _ =>
      upd head (set_next (Some tail)) ;;;
      upd tail (set_prev (Some head))
  end.

Definition init (blocks : list loc) : M store unit :=
  link_consecutive None blocks ;;;
  let* head := alloc (new_block (-1)) in
  let* tail := alloc (new_block (-1)) in
  modify (λ s, mkStore (heap s) (next_loc s) (mkQueue (len blocks) head tail)) ;;;
  link_sentinels head tail blocks.

Definition popleft_empty : M store loc :=
  let* q := gets queue in
  assert_ (bool_decide (num_free_blocks q = 0)) ;;;
  raise ValueError.

Definition popleft : M store loc :=
  let* q := gets queue in
  let head := fake_free_list_head q in
  let* h := rd head in
  match next_free_block h with
  | None => popleft_empty
  | Some first_block =>
      if decide (first_block = fake_free_list_tail q) then popleft_empty else
      let* fb := rd first_block in
      match next_free_block fb with
      | None => raise RuntimeError
      | Some second =>
          upd head (set_next (Some second)) ;;;
          upd second (set_prev (Some head)) ;;;
          upd first_block unlink ;;;
          add_num_free (-1) ;;;
          ret first_block
      end
  end.

(** The loop of [popleft_n]: it returns the popped blocks and [curr_block]. *)
Fixpoint popleft_loop (n : nat) (curr_block : option loc)
    : M store (list loc * option loc) :=
  match n with
  | O => ret ([], curr_block)
  | S n =>
      match curr_block with
      | None => raise AssertionError
      | Some c =>
          let* b := rd c in
          upd c unlink ;;;
          let* r := popleft_loop n (next_free_block b) in
          ret (c :: fst r, snd r)
      end
  end.

Definition popleft_n (n : Z) : M store (list loc) :=
  if decide (n = 0) then ret [] else
  let* q := gets queue in
  assert_ (bool_decide (n ≤ num_free_blocks q)) ;;;
  add_num_free (- n) ;;;
  let* h := rd (fake_free_list_head q) in
  let* r := popleft_loop (Z.to_nat n) (next_free_block h) in
  (match snd r with
   | Some curr =>
       upd (fake_free_list_head q) (set_next (Some curr)) ;;;
       upd curr (set_prev (Some (fake_free_list_head q)))
   | None => ret tt
   end) ;;;
  ret (fst r).

Definition remove (block : loc) : M store unit :=
  let* b := rd block in
  match prev_free_block b, next_free_block b with
  | Some p, Some n =>
      upd p (set_next (Some n)) ;;;
      upd n (set_prev (Some p)) ;;;
      upd block unlink ;;;
      add_num_free (-1)
  | _, _ => raise RuntimeError
  end.

Definition append (block : loc) : M store unit :=
  let* q := gets queue in
  let tail := fake_free_list_tail q in
  let* t := rd tail in
  match prev_free_block t with
  | None => raise RuntimeError
  | Some last_block =>
      upd last_block (set_next (Some block)) ;;;
      upd block (set_prev (Some last_block)) ;;;
      upd block (set_next (Some tail)) ;;;
      upd tail (set_prev (Some block)) ;;;
      add_num_free 1
  end.

(** The loop of [append_n]: it returns the final [last_block]. *)
Fixpoint append_loop (last_block : loc) (blocks : list loc) : M store loc :=
  match blocks with
  | [] => ret last_block
  | b :: rest =>
      upd b (set_prev (Some last_block)) ;;;
      upd last_block (set_next (Some b)) ;;;
      append_loop b rest
  end.

Definition append_n (blocks : list loc) : M store unit :=
  if decide (len blocks = 0) then ret tt else
  let* q := gets queue in
  let tail := fake_free_list_tail q in
  let* t := rd tail in
  match prev_free_block t with
  | None => raise AssertionError
  | Some last_block =>
      let* final := append_loop last_block blocks in
      upd final (set_next (Some tail)) ;;;
      upd tail (set_prev (Some final)) ;;;
      add_num_free (len blocks)
  end.

(** The [while curr_block.next_free_block is not None] loop. *)
Fixpoint walk (fuel : nat) (curr : loc) : M store (list loc) :=
  match fuel with
  | O => raise OutOfFuel
  | S fuel =>
      let* b := rd curr in
      match next_free_block b with
      | None => ret []
      | Some n => let* r := walk fuel n in ret (curr :: r)
      end
  end.

Definition get_all_free_blocks : M store (list loc) :=
  let* q := gets queue in
  let* h := rd (fake_free_list_head q) in
  match next_free_block h with
  | None => raise RuntimeError
  | Some first => λ s, walk (size (heap s)) first s
  end.

End FreeQueue.

(** * Links of a heap *)

Definition nxt (h : gmap loc KVCacheBlock) (a : loc) : option loc :=
  h !! a ≫= next_free_block.
Definition prv (h : gmap loc KVCacheBlock) (a : loc) : option loc :=
  h !! a ≫= prev_free_block.

(** The data of the blocks without the links. *)
Definition strip (h : gmap loc KVCacheBlock) : gmap loc KVCacheBlock := unlink <$> h.

(** [path] is a doubly linked path of [h]. *)
Fixpoint linked (h : gmap loc KVCacheBlock) (path : list loc) : Prop :=
  match path with
  | a :: ((b :: _) as rest) =>
      nxt h a = Some b ∧ prv h b = Some a ∧ linked h rest
  | _ => True
  end.

Arguments linked _ !path / : simpl nomatch.

(** The queue's list with its sentinels. *)
Definition path_of (s : store) (l : list loc) : list loc :=
  fake_free_list_head (queue s) :: l ++ [fake_free_list_tail (queue s)].

Record is_queue (s : store) (l : list loc) : Prop := {
  iq_nodup : NoDup (path_of s l);
  iq_linked : linked (heap s) (path_of s l);
  iq_dom : ∀ a, a ∈ path_of s l → is_Some (heap s !! a);
  iq_end : nxt (heap s) (fake_free_list_tail (queue s)) = None;
  iq_num : num_free_blocks (queue s) = len l;
  (** blocks outside the queue have no links *)
  iq_off : ∀ a, a ∉ path_of s l → nxt (heap s) a = None ∧ prv (heap s) a = None
}.

(** [s'] is [s] up to the links of the blocks and the counter. *)
Record same_data (s s' : store) : Prop := {
  sd_strip : strip (heap s') = strip (heap s);
  sd_next_loc : next_loc s' = next_loc s;
  sd_head : fake_free_list_head (queue s') = fake_free_list_head (queue s);
  sd_tail : fake_free_list_tail (queue s') = fake_free_list_tail (queue s)
}.

#[export] Instance same_data_preorder : PreOrder same_data.
Proof.
  split; [done|]. intros s1 s2 s3 [] []. split; congruence.
Qed.

Section links.
Implicit Types (h : gmap loc KVCacheBlock) (a b : loc).

Lemma nxt_set_next_eq h a v : is_Some (h !! a) → nxt (alter (set_next v) a h) a = v.
Proof. intros [x Hx]. unfold nxt. by rewrite lookup_alter_eq, Hx. Qed.
Lemma nxt_set_next_ne h a b v : a ≠ b → nxt (alter (set_next v) b h) a = nxt h a.
Proof. intros. unfold nxt. by rewrite lookup_alter_ne. Qed.
Lemma nxt_set_prev h a b v : nxt (alter (set_prev v) b h) a = nxt h a.
Proof.
  unfold nxt. destruct (decide (a = b)) as [->|]; [|by rewrite lookup_alter_ne].
  rewrite lookup_alter_eq. by destruct (h !! b).
Qed.
Lemma prv_set_prev_eq h a v : is_Some (h !! a) → prv (alter (set_prev v) a h) a = v.
Proof. intros [x Hx]. unfold prv. by rewrite lookup_alter_eq, Hx. Qed.
Lemma prv_set_prev_ne h a b v : a ≠ b → prv (alter (set_prev v) b h) a = prv h a.
Proof. intros. unfold prv. by rewrite lookup_alter_ne. Qed.
Lemma prv_set_next h a b v : prv (alter (set_next v) b h) a = prv h a.
Proof.
  unfold prv. destruct (decide (a = b)) as [->|]; [|by rewrite lookup_alter_ne].
  rewrite lookup_alter_eq. by destruct (h !! b).
Qed.
Lemma nxt_unlink_eq h a : nxt (alter unlink a h) a = None.
Proof. unfold nxt. rewrite lookup_alter_eq. by destruct (h !! a). Qed.
Lemma prv_unlink_eq h a : prv (alter unlink a h) a = None.
Proof. unfold prv. rewrite lookup_alter_eq. by destruct (h !! a). Qed.
Lemma nxt_unlink_ne h a b : a ≠ b → nxt (alter unlink b h) a = nxt h a.
Proof. intros. unfold nxt. by rewrite lookup_alter_ne. Qed.
Lemma prv_unlink_ne h a b : a ≠ b → prv (alter unlink b h) a = prv h a.
Proof. intros. unfold prv. by rewrite lookup_alter_ne. Qed.
Lemma dom_alter_iff f h a b : is_Some (alter f b h !! a) ↔ is_Some (h !! a).
Proof. by rewrite lookup_alter_is_Some. Qed.

Lemma strip_alter_link f h a :
  (∀ x, unlink (f x) = unlink x) → strip (alter f a h) = strip h.
Proof.
  intros Hf. apply map_eq. intros i. unfold strip. rewrite !lookup_fmap.
  destruct (decide (i = a)) as [->|]; [|by rewrite lookup_alter_ne].
  rewrite lookup_alter_eq. destruct (h !! a); simpl; [by rewrite Hf|done].
Qed.
Lemma strip_lookup_is_Some h h' a :
  strip h = strip h' → is_Some (h !! a) ↔ is_Some (h' !! a).
Proof.
  intros Heq. assert (Hs : strip h !! a = strip h' !! a) by by rewrite Heq.
  unfold strip in Hs. rewrite !lookup_fmap in Hs.
  destruct (h !! a), (h' !! a); simpl in Hs; split; intros [? ?]; naive_solver.
Qed.

Lemma linked_app h p1 a p2 :
  linked h (p1 ++ a :: p2) ↔ linked h (p1 ++ [a]) ∧ linked h (a :: p2).
Proof.
  induction p1 as [|x [|y p1] IH]; simpl in *; [naive_solver| |].
  - naive_solver.
  - rewrite IH. naive_solver.
Qed.

Lemma linked_agree_suffix h h' a p :
  (∀ x, x ∈ a :: p → nxt h' x = nxt h x) →
  (∀ x, x ∈ p → prv h' x = prv h x) →
  linked h (a :: p) → linked h' (a :: p).
Proof.
  revert a. induction p as [|b p IH]; intros a Hn Hp; simpl; [done|].
  intros (H1 & H2 & H3). rewrite Hn, Hp by set_solver. split_and!; [done..|].
  apply IH; [set_solver..|done].
Qed.

Lemma linked_agree_prefix h h' p b :
  (∀ x, x ∈ p → nxt h' x = nxt h x) →
  (∀ x, x ∈ p ++ [b] → x ≠ hd b p → prv h' x = prv h x) →
  NoDup (p ++ [b]) →
  linked h (p ++ [b]) → linked h' (p ++ [b]).
Proof.
  induction p as [|a p IH]; intros Hn Hp Hnd; [done|].
  destruct p as [|c p]; simpl in *.
  - intros (H1 & H2 & _). apply NoDup_cons in Hnd as [Hnd _].
    rewrite Hn, Hp by set_solver. done.
  - intros (H1 & H2 & H3). apply NoDup_cons in Hnd as [Hnd Hnd'].
    rewrite Hn by set_solver. rewrite Hp by set_solver.
    split_and!; [done..|]. apply IH; [set_solver| |done|done].
    intros x Hx Hne. apply Hp; [set_solver|set_solver].
Qed.

(** Replace the part of a path between [a] and [b]. *)
Lemma linked_splice h h' p1 a mid mid' b p2 :
  NoDup (p1 ++ a :: mid ++ b :: p2) →
  linked h (p1 ++ a :: mid ++ b :: p2) →
  linked h' (a :: mid' ++ [b]) →
  (∀ x, x ∈ p1 ∨ x ∈ b :: p2 → nxt h' x = nxt h x) →
  (∀ x, x ∈ p1 ++ [a] ∨ x ∈ p2 → prv h' x = prv h x) →
  linked h' (p1 ++ a :: mid' ++ b :: p2).
Proof.
  intros Hnd Hl Hmid Hn Hp.
  apply linked_app in Hl as [Hl1 Hl2].
  change (a :: mid ++ b :: p2) with ((a :: mid) ++ b :: p2) in Hl2.
  apply linked_app in Hl2 as [_ Hl3].
  apply linked_app. split.
  - apply (linked_agree_prefix h); [naive_solver|naive_solver| |done].
    rewrite cons_middle, app_assoc in Hnd. by apply NoDup_app in Hnd as [? _].
  - change (a :: mid' ++ b :: p2) with ((a :: mid') ++ b :: p2).
    apply linked_app. split; [done|].
    apply (linked_agree_suffix h); [set_solver|set_solver|done].
Qed.
End links.

(** * The queue operations against the list *)

Section queue_specs.
Implicit Types (s : store) (l : list loc) (h : gmap loc KVCacheBlock).

Lemma rd_ok s a b : heap s !! a = Some b → rd a s = (Ok b, s).
Proof. intros H. unfold rd. by rewrite H. Qed.
Lemma bind_rd {A} s a b (k : KVCacheBlock → M store A) :
  heap s !! a = Some b → bind (rd a) k s = k b s.
Proof. intros H. apply bind_ok. by apply rd_ok. Qed.
Lemma bind_upd {A} s a f (k : unit → M store A) :
  bind (upd a f) k s = k tt (set_heap (alter f a (heap s)) s).
Proof. done. Qed.

Lemma nxt_Some h a v :
  nxt h a = Some v ↔ ∃ b, h !! a = Some b ∧ next_free_block b = Some v.
Proof. unfold nxt. rewrite bind_Some. naive_solver. Qed.
Lemma prv_Some h a v :
  prv h a = Some v ↔ ∃ b, h !! a = Some b ∧ prev_free_block b = Some v.
Proof. unfold prv. rewrite bind_Some. naive_solver. Qed.

(** Replace the part [mid] of the queue by [mid']: the one fact behind
    [popleft], [popleft_n], [remove], [append] and [append_n]. *)
Lemma is_queue_splice s s' l1 mid mid' l2 p1 a b p2 :
  is_queue s (l1 ++ mid ++ l2) →
  fake_free_list_head (queue s) :: l1 = p1 ++ [a] →
  l2 ++ [fake_free_list_tail (queue s)] = b :: p2 →
  same_data s s' →
  num_free_blocks (queue s') = len (l1 ++ mid' ++ l2) →
  NoDup (path_of s (l1 ++ mid' ++ l2)) →
  (∀ x, x ∈ mid' → is_Some (heap s !! x)) →
  linked (heap s') (a :: mid' ++ [b]) →
  (∀ x, x ≠ a → x ∉ mid → x ∉ mid' → nxt (heap s') x = nxt (heap s) x) →
  (∀ x, x ≠ b → x ∉ mid → x ∉ mid' → prv (heap s') x = prv (heap s) x) →
  (∀ x, x ∈ mid → x ∉ mid' → nxt (heap s') x = None ∧ prv (heap s') x = None) →
  is_queue s' (l1 ++ mid' ++ l2).
Proof.
  intros Hq H1 H2 Hsd Hnum Hnd Hdom Hl Hn Hp Hoff.
  assert (Hpath : ∀ m, path_of s (l1 ++ m ++ l2) = p1 ++ a :: m ++ b :: p2).
  { intros m. unfold path_of. rewrite <- !app_assoc, H2.
    rewrite app_comm_cons, H1, <- app_assoc. done. }
  assert (Hpath' : ∀ m, path_of s' m = path_of s m).
  { intros m. unfold path_of. by rewrite (sd_head _ _ Hsd), (sd_tail _ _ Hsd). }
  pose proof (iq_nodup _ _ Hq) as Hnd0. rewrite Hpath in Hnd0, Hnd.
  assert (Htl : fake_free_list_tail (queue s) ∈ b :: p2) by (rewrite <- H2; set_solver).
  apply NoDup_app in Hnd0 as (Hnd1 & Hnd2 & Hnd3).
  apply NoDup_cons in Hnd3 as [Ha Hnd3]. apply NoDup_app in Hnd3 as (_ & Hnd4 & Hnd5).
  pose proof Hnd as Hnd'.
  apply NoDup_app in Hnd' as (_ & Hnd2' & Hnd3').
  apply NoDup_cons in Hnd3' as [Ha' Hnd3']. apply NoDup_app in Hnd3' as (_ & Hnd4' & _).
  apply NoDup_cons in Hnd5 as [Hb Hnd5].
  split; rewrite ?Hpath', ?Hpath.
  - done.
  - apply (linked_splice (heap s) _ _ _ mid); [|by rewrite <- Hpath; apply Hq|done| |].
    + rewrite <- Hpath. apply Hq.
    + intros x [Hx|Hx]; apply Hn; set_solver.
    + intros x [Hx|Hx]; apply Hp; set_solver.
  - intros x Hx. apply (strip_lookup_is_Some _ _ _ (sd_strip _ _ Hsd)).
    destruct (decide (x ∈ mid')) as [Hm|Hm]; [by apply Hdom|].
    apply (iq_dom _ _ Hq). rewrite Hpath. set_solver.
  - rewrite (sd_tail _ _ Hsd), Hn; [apply Hq|set_solver..].
  - done.
  - intros x Hx. destruct (decide (x ∈ mid)); [by apply Hoff; set_solver|].
    rewrite Hn, Hp by set_solver. apply Hq. rewrite Hpath. set_solver.
Qed.

Lemma path_nodup_parts s l :
  NoDup (path_of s l) ↔
  (NoDup l ∧ (fake_free_list_head (queue s) ∉ l) ∧
   (fake_free_list_tail (queue s) ∉ l) ∧ fake_free_list_head (queue s) ≠ fake_free_list_tail (queue s)).
Proof.
  unfold path_of. rewrite NoDup_cons, NoDup_app.
  pose proof (NoDup_singleton (fake_free_list_tail (queue s))). set_solver.
Qed.
End queue_specs.

(** Compute the links of an explicitly updated heap. *)
Ltac solve_links :=
  cbn [heap set_heap];
  repeat first
    [ rewrite nxt_set_prev | rewrite prv_set_next
    | rewrite nxt_set_next_eq by (rewrite ?dom_alter_iff; eauto; fail)
    | rewrite prv_set_prev_eq by (rewrite ?dom_alter_iff; eauto; fail)
    | rewrite nxt_set_next_ne by (first [done | congruence | set_solver])
    | rewrite prv_set_prev_ne by (first [done | congruence | set_solver])
    | rewrite nxt_unlink_eq | rewrite prv_unlink_eq
    | rewrite nxt_unlink_ne by (first [done | congruence | set_solver])
    | rewrite prv_unlink_ne by (first [done | congruence | set_solver]) ].

Ltac solve_same_data :=
  split; simpl; [repeat rewrite strip_alter_link by (intros []; done); done | done..].

Section queue_ops.
Implicit Types (s : store) (l : list loc) (h : gmap loc KVCacheBlock).
Import FreeQueue.

Lemma is_queue_first s l :
  is_queue s l →
  ∃ b, heap s !! fake_free_list_head (queue s) = Some b ∧
    next_free_block b = Some (hd (fake_free_list_tail (queue s)) l).
Proof.
  intros Hq. apply nxt_Some. pose proof (iq_linked _ _ Hq) as Hl.
  unfold path_of in Hl. destruct l as [|x l]; simpl in *; tauto.
Qed.

Lemma is_queue_last s l :
  is_queue s l →
  ∃ b, heap s !! fake_free_list_tail (queue s) = Some b ∧
    prev_free_block b = Some (default (fake_free_list_head (queue s)) (last l)).
Proof.
  intros Hq. apply prv_Some. pose proof (iq_linked _ _ Hq) as Hl.
  unfold path_of in Hl. destruct l as [|x l _] using rev_ind; [simpl in *; tauto|].
  rewrite last_snoc.
  rewrite !app_comm_cons, <- app_assoc in Hl. apply linked_app in Hl as [_ Hl].
  simpl in Hl. tauto.
Qed.

(** The neighbours of the members of the queue. *)
Lemma is_queue_mid s l1 x l2 :
  is_queue s (l1 ++ x :: l2) →
  ∃ b, heap s !! x = Some b ∧
    prev_free_block b = Some (default (fake_free_list_head (queue s)) (last l1)) ∧
    next_free_block b = Some (hd (fake_free_list_tail (queue s)) l2).
Proof.
  intros Hq. pose proof (iq_linked _ _ Hq) as Hl. unfold path_of in Hl.
  rewrite <- app_assoc, app_comm_cons in Hl.
  apply linked_app in Hl as [Hl1 Hl2].
  assert (Hn : nxt (heap s) x = Some (hd (fake_free_list_tail (queue s)) l2))
    by (destruct l2; simpl in *; tauto).
  assert (Hp : prv (heap s) x = Some (default (fake_free_list_head (queue s)) (last l1))).
  { destruct l1 as [|y l1 _] using rev_ind; [simpl in *; tauto|].
    rewrite last_snoc. rewrite !app_comm_cons, <- app_assoc in Hl1.
    apply linked_app in Hl1 as [_ Hl1]. simpl in Hl1. tauto. }
  apply nxt_Some in Hn as (b & Hb & ?). apply prv_Some in Hp as (b' & Hb' & ?).
  naive_solver.
Qed.

Lemma popleft_empty_spec s : is_queue s [] → popleft s = (Raise ValueError, s).
Proof.
  intros Hq. destruct (is_queue_first _ _ Hq) as (b & Hb & Hn). simpl in Hn.
  unfold popleft. rewrite bind_gets, (bind_rd _ _ _ _ Hb), Hn, decide_True by done.
  unfold popleft_empty. rewrite bind_gets, bind_assert_true; [done|].
  apply bool_decide_eq_true_2. apply (iq_num _ _ Hq).
Qed.

Lemma popleft_spec s x l :
  is_queue s (x :: l) →
  ∃ s', popleft s = (Ok x, s') ∧ is_queue s' l ∧ same_data s s'.
Proof.
  intros Hq. destruct (is_queue_first _ _ Hq) as (b & Hb & Hn). simpl in Hn.
  destruct (is_queue_mid s [] x l Hq) as (c & Hc & _ & Hcn).
  pose proof (iq_nodup _ _ Hq) as Hnd. apply path_nodup_parts in Hnd as (Hnd & Hh & Ht & Hht).
  apply NoDup_cons in Hnd as [Hx Hnd].
  assert (is_Some (heap s !! hd (fake_free_list_tail (queue s)) l)) as [d Hd].
  { apply (iq_dom _ _ Hq). destruct l; unfold path_of; set_solver. }
  assert (Hhd : fake_free_list_head (queue s) ≠ hd (fake_free_list_tail (queue s)) l)
    by (destruct l; set_solver).
  assert (Hxd : x ≠ hd (fake_free_list_tail (queue s)) l) by (destruct l; set_solver).
  unfold popleft. rewrite bind_gets, (bind_rd _ _ _ _ Hb), Hn.
  rewrite decide_False by set_solver.
  rewrite (bind_rd _ _ _ _ Hc), Hcn, !bind_upd.
  eexists. split; [reflexivity|]. match goal with |- is_queue ?s' _ ∧ _ => set (s1 := s') end.
  assert (Hsd : same_data s s1) by (subst s1; solve_same_data).
  split; [|done].
  apply (is_queue_splice s s1 [] [x] [] l []
           (fake_free_list_head (queue s)) (hd (fake_free_list_tail (queue s)) l)
           (tail (l ++ [fake_free_list_tail (queue s)]))); subst s1; simpl.
  - done.
  - done.
  - by destruct l.
  - done.
  - rewrite (iq_num _ _ Hq), len_cons. lia.
  - apply path_nodup_parts. set_solver.
  - set_solver.
  - split_and!; [solve_links; done..|done].
  - intros y ?? _. by solve_links.
  - intros y ?? _. by solve_links.
  - intros y ->%list_elem_of_singleton _. by solve_links.
Qed.

Lemma remove_spec s l1 x l2 :
  is_queue s (l1 ++ x :: l2) →
  ∃ s', remove x s = (Ok tt, s') ∧ is_queue s' (l1 ++ l2) ∧ same_data s s'.
Proof.
  intros Hq. destruct (is_queue_mid _ _ _ _ Hq) as (c & Hc & Hcp & Hcn).
  pose proof (iq_nodup _ _ Hq) as Hnd. apply path_nodup_parts in Hnd as (Hnd & Hh & Ht & Hht).
  set (p := default (fake_free_list_head (queue s)) (last l1)) in *.
  set (n := hd (fake_free_list_tail (queue s)) l2) in *.
  assert (Hp : ∃ p1, fake_free_list_head (queue s) :: l1 = p1 ++ [p]).
  { subst p. destruct l1 as [|y l1 _] using rev_ind; [by exists []|].
    exists (fake_free_list_head (queue s) :: l1). by rewrite last_snoc. }
  destruct Hp as [p1 Hp1].
  assert (Hn : l2 ++ [fake_free_list_tail (queue s)] =
               n :: tail (l2 ++ [fake_free_list_tail (queue s)])) by (by destruct l2).
  assert (Hpin : p ∈ fake_free_list_head (queue s) :: l1) by (rewrite Hp1; set_solver).
  assert (Hnin : n ∈ l2 ++ [fake_free_list_tail (queue s)]) by (rewrite Hn; set_solver).
  assert (is_Some (heap s !! p)) by (apply (iq_dom _ _ Hq); unfold path_of; set_solver).
  assert (is_Some (heap s !! n)) by (apply (iq_dom _ _ Hq); unfold path_of; set_solver).
  apply NoDup_app in Hnd as (Hnd1 & Hdis & Hnd2). apply NoDup_cons in Hnd2 as [Hx Hnd2].
  clearbody p n.
  assert (p ≠ x) by set_solver +Hpin Hh Hdis.
  assert (n ≠ x) by set_solver +Hnin Ht Hx.
  assert (p ≠ n) by set_solver +Hpin Hnin Hh Ht Hht Hdis.
  unfold remove. rewrite (bind_rd _ _ _ _ Hc), Hcp, Hcn, !bind_upd.
  eexists. split; [reflexivity|]. match goal with |- is_queue ?s' _ ∧ _ => set (s1 := s') end.
  assert (Hsd : same_data s s1) by (subst s1; solve_same_data).
  split; [|done].
  apply (is_queue_splice s s1 l1 [x] [] l2 p1 p n
           (tail (l2 ++ [fake_free_list_tail (queue s)]))); subst s1; simpl; try done.
  - rewrite (iq_num _ _ Hq), !len_app, len_cons. lia.
  - apply path_nodup_parts. split_and!; [|set_solver..].
    apply NoDup_app. split_and!; [done| |done]. intros y Hy1 Hy2.
    apply (Hdis y); [done|by right].
  - set_solver.
  - split_and!; [by solve_links..|done].
  - intros y ?? _. by solve_links.
  - intros y ?? _. by solve_links.
  - intros y ->%list_elem_of_singleton _. by solve_links.
Qed.

Lemma remove_error_spec s l x b :
  is_queue s l → heap s !! x = Some b → x ∉ path_of s l →
  remove x s = (Raise RuntimeError, s).
Proof.
  intros Hq Hb Hx. destruct (iq_off _ _ Hq _ Hx) as [_ Hp].
  unfold prv in Hp. rewrite Hb in Hp. simpl in Hp.
  unfold remove. by rewrite (bind_rd _ _ _ _ Hb), Hp.
Qed.

(** The last element of the queue, as a split of the path. *)
Lemma path_last s l :
  ∃ p1, fake_free_list_head (queue s) :: l =
    p1 ++ [default (fake_free_list_head (queue s)) (last l)].
Proof.
  destruct l as [|y l _] using rev_ind; [by exists []|].
  exists (fake_free_list_head (queue s) :: l). by rewrite last_snoc.
Qed.

Lemma last_in_path s l :
  default (fake_free_list_head (queue s)) (last l) ∈ fake_free_list_head (queue s) :: l.
Proof. destruct (path_last s l) as [p1 ->]. set_solver. Qed.

(** The loop of [append_n]: it chains [xs] after [p]. *)
Lemma append_loop_spec xs : ∀ p s,
  NoDup (p :: xs) → (∀ x, x ∈ p :: xs → is_Some (heap s !! x)) →
  ∃ h', append_loop p xs s = (Ok (default p (last xs)), set_heap h' s) ∧
    linked h' (p :: xs) ∧ strip h' = strip (heap s) ∧
    (∀ x, x ∉ p :: xs → nxt h' x = nxt (heap s) x) ∧
    (∀ x, x ∉ xs → prv h' x = prv (heap s) x).
Proof.
  induction xs as [|b xs IH]; intros p s Hnd Hdom.
  { exists (heap s). split_and!; try done. by destruct s. }
  apply NoDup_cons in Hnd as [Hp Hnd]. pose proof Hnd as Hnd'.
  apply NoDup_cons in Hnd' as [Hb Hnd'].
  assert (is_Some (heap s !! p)) by (apply Hdom; set_solver).
  assert (is_Some (heap s !! b)) by (apply Hdom; set_solver).
  assert (p ≠ b) by set_solver.
  simpl append_loop. rewrite !bind_upd. simpl set_heap.
  set (s1 := set_heap _ (set_heap _ s)).
  destruct (IH b s1 Hnd) as (h' & Hrun & Hl & Hs & Hn & Hpr).
  { intros x Hx. subst s1. simpl. rewrite !dom_alter_iff. apply Hdom. set_solver. }
  exists h'. split_and!.
  - rewrite Hrun. f_equal. f_equal. rewrite last_cons. by destruct (last xs).
  - simpl. split_and!; [| |done].
    + rewrite Hn by set_solver. subst s1; simpl. by solve_links.
    + rewrite Hpr by done. subst s1; simpl. by solve_links.
  - rewrite Hs. subst s1; simpl. by rewrite !strip_alter_link by (intros []; done).
  - intros x Hx. rewrite Hn by set_solver. subst s1; simpl. by solve_links.
  - intros x Hx. rewrite Hpr by set_solver. subst s1; simpl. by solve_links.
Qed.

Lemma append_n_spec s l xs :
  is_queue s l → NoDup xs → (∀ x, x ∈ xs → x ∉ path_of s l) →
  (∀ x, x ∈ xs → is_Some (heap s !! x)) →
  ∃ s', append_n xs s = (Ok tt, s') ∧ is_queue s' (l ++ xs) ∧ same_data s s'.
Proof.
  intros Hq Hnd Hdis Hdom.
  destruct xs as [|x0 xs0] eqn:Hxs; [exists s; by rewrite app_nil_r|].
  rewrite <- Hxs in *.
  destruct (is_queue_last _ _ Hq) as (b & Hb & Hbp).
  set (tl := fake_free_list_tail (queue s)) in *.
  set (p := default (fake_free_list_head (queue s)) (last l)) in *.
  assert (Hpin : p ∈ fake_free_list_head (queue s) :: l) by apply last_in_path.
  pose proof (iq_nodup _ _ Hq) as Hnd0.
  apply path_nodup_parts in Hnd0 as (Hndl & Hh & Ht & Hht).
  assert (Hptl : p ≠ tl).
  { intros Heq. rewrite Heq in Hpin. apply elem_of_cons in Hpin as [?|?]; [|done].
    by apply Hht. }
  assert (Htlxs : tl ∉ xs) by (intros Hin; apply (Hdis _ Hin); unfold path_of; set_solver).
  assert (Hpxs : p ∉ xs) by (intros Hin; apply (Hdis _ Hin); unfold path_of; set_solver).
  destruct (append_loop_spec xs p s) as (h' & Hrun & Hl & Hs & Hn & Hp).
  { apply NoDup_cons. done. }
  { intros x [->|Hx]%elem_of_cons; [|by apply Hdom].
    apply (iq_dom _ _ Hq). unfold path_of. set_solver. }
  set (f := default p (last xs)) in *.
  assert (Hf : f ∈ xs /\ ∃ m, p :: xs = m ++ [f]).
  { subst f. rewrite Hxs. destruct xs0 as [|y xs1 _] using rev_ind.
    - simpl. split; [set_solver|]. by exists [p].
    - rewrite app_comm_cons, last_snoc. simpl. split; [set_solver|].
      by exists (p :: x0 :: xs1). }
  destruct Hf as [Hfin [m Hm]].
  assert (Hfs : is_Some (h' !! f)).
  { rewrite (strip_lookup_is_Some _ _ _ Hs). by apply Hdom. }
  assert (Hts : is_Some (h' !! tl)).
  { rewrite (strip_lookup_is_Some _ _ _ Hs). eauto. }
  assert (f ≠ tl) by (intros Heq; rewrite Heq in Hfin; done). clearbody f.
  unfold append_n. rewrite decide_False by (rewrite Hxs, len_cons; pose proof (len_nonneg xs0); lia).
  rewrite bind_gets, (bind_rd _ _ _ _ Hb), Hbp.
  rewrite (bind_ok _ _ _ _ _ Hrun), !bind_upd.
  eexists. split; [reflexivity|]. match goal with |- is_queue ?s' _ ∧ _ => set (s1 := s') end.
  assert (Hsd : same_data s s1).
  { subst s1. split; simpl; [|done..]. by rewrite !strip_alter_link by (intros []; done). }
  split; [|done]. destruct (path_last s l) as [p1 Hp1].
  pose proof (is_queue_splice s s1 l [] xs [] p1 p tl []) as Hsp.
  rewrite !app_nil_r in Hsp. apply Hsp; subst s1; simpl; try done.
  - rewrite (iq_num _ _ Hq), !len_app. done.
  - apply path_nodup_parts. unfold path_of in Hdis.
    split_and!; [|set_solver +Hdis Hh|set_solver +Ht Htlxs|done].
    apply NoDup_app. split_and!; [done| |done]. intros y Hy1 Hy2.
    apply (Hdis y); set_solver +Hy1 Hy2.
  - rewrite app_comm_cons, Hm, <- app_assoc. simpl.
    apply linked_app. split.
    + rewrite <- Hm. rewrite Hm in Hl |- *.
      apply (linked_agree_prefix h'); [| | |done].
      * intros x Hx. assert (x ≠ f).
        { assert (Hnd' : NoDup (m ++ [f])) by (rewrite <- Hm; by apply NoDup_cons).
          apply NoDup_app in Hnd' as (_ & Hd & _). set_solver +Hd Hx. }
        by solve_links.
      * intros x Hx _. assert (x ≠ tl)
          by (rewrite <- Hm in Hx; set_solver +Hx Hptl Htlxs).
        by solve_links.
      * rewrite <- Hm. by apply NoDup_cons.
    + simpl. split_and!; [by solve_links..|done].
  - intros y Hy _ Hy'. assert (y ≠ f) by (intros ->; done).
    solve_links. apply Hn. set_solver +Hy Hy'.
  - intros y Hy _ Hy'. solve_links. by apply Hp.
  - set_solver +.
Qed.


Lemma append_spec s l x :
  is_queue s l → x ∉ path_of s l → is_Some (heap s !! x) →
  ∃ s', append x s = (Ok tt, s') ∧ is_queue s' (l ++ [x]) ∧ same_data s s'.
Proof.
  intros Hq Hx Hdom. destruct (is_queue_last _ _ Hq) as (b & Hb & Hbp).
  destruct (path_last s l) as [p1 Hp1]. pose proof (last_in_path s l) as Hpin.
  pose proof (iq_nodup _ _ Hq) as Hnd.
  apply path_nodup_parts in Hnd as (Hnd & Hh & Ht & Hht).
  set (tl := fake_free_list_tail (queue s)) in *.
  set (p := default (fake_free_list_head (queue s)) (last l)) in *. clearbody p.
  assert (Hx' : (x ∉ fake_free_list_head (queue s) :: l) ∧ x ≠ tl)
    by (unfold path_of in Hx; set_solver +Hx).
  destruct Hx' as [Hx1 Hx2].
  assert (x ≠ p) by (intros ->; done).
  assert (p ≠ tl) by set_solver +Hpin Hh Ht Hht.
  assert (is_Some (heap s !! p)) by (apply (iq_dom _ _ Hq); unfold path_of; set_solver +Hpin).
  assert (is_Some (heap s !! tl)) by eauto.
  unfold append. rewrite bind_gets, (bind_rd _ _ _ _ Hb), Hbp, !bind_upd.
  eexists. split; [reflexivity|]. match goal with |- is_queue ?s' _ ∧ _ => set (s1 := s') end.
  assert (Hsd : same_data s s1) by (subst s1; solve_same_data).
  split; [|done].
  pose proof (is_queue_splice s s1 l [] [x] [] p1 p tl []) as Hsp.
  rewrite !app_nil_r in Hsp. apply Hsp; subst s1; simpl; try done.
  - rewrite (iq_num _ _ Hq), !len_app. done.
  - apply path_nodup_parts. split_and!; [|set_solver +Hh Hx1|set_solver +Ht Hx2|done].
    apply NoDup_app. split_and!; [done|set_solver +Hx1|apply NoDup_singleton].
  - by intros ? ->%list_elem_of_singleton.
  - split_and!; [by solve_links..|done].
  - intros y ? _ ?. by solve_links.
  - intros y ? _ ?. by solve_links.
  - set_solver +.
Qed.

(** The blocks [xs] unlinked one after the other. *)
Definition unlink_all (xs : list loc) h := foldl (λ h x, alter unlink x h) h xs.

Lemma unlink_all_spec xs : ∀ h,
  strip (unlink_all xs h) = strip h ∧
  (∀ x, x ∈ xs → nxt (unlink_all xs h) x = None ∧ prv (unlink_all xs h) x = None) ∧
  (∀ x, x ∉ xs → nxt (unlink_all xs h) x = nxt h x ∧ prv (unlink_all xs h) x = prv h x).
Proof.
  induction xs as [|y xs IH]; intros h; simpl; [set_solver +|].
  destruct (IH (alter unlink y h)) as (Hs & Hin & Hout). split_and!.
  - rewrite Hs. by apply strip_alter_link; intros [].
  - intros x Hx. destruct (decide (x ∈ xs)) as [|Hnx]; [by apply Hin|].
    destruct (Hout x Hnx) as [-> ->]. assert (x = y) as -> by set_solver +Hx Hnx.
    by solve_links.
  - intros x Hx. destruct (Hout x) as [-> ->]; [set_solver +Hx|].
    assert (x ≠ y) by set_solver +Hx. by solve_links.
Qed.

Lemma popleft_loop_spec xs : ∀ s y,
  NoDup (xs ++ [y]) → linked (heap s) (xs ++ [y]) →
  (∀ x, x ∈ xs → is_Some (heap s !! x)) →
  popleft_loop (length xs) (Some (hd y xs)) s =
    (Ok (xs, Some y), set_heap (unlink_all xs (heap s)) s).
Proof.
  induction xs as [|x xs IH]; intros s y Hnd Hl Hdom; [by destruct s|].
  simpl in Hnd. apply NoDup_cons in Hnd as [Hx Hnd].
  assert (Hn : nxt (heap s) x = Some (hd y xs)) by (destruct xs; simpl in *; tauto).
  apply nxt_Some in Hn as (b & Hb & Hbn).
  simpl. rewrite (bind_rd _ _ _ _ Hb), bind_upd, Hbn.
  erewrite bind_ok; [|apply IH; [done| |]]; [done| |].
  + simpl. assert (Hl' : linked (heap s) (xs ++ [y])) by (destruct xs; simpl in *; tauto).
    destruct (xs ++ [y]) as [|z zs] eqn:Hz; [done|].
    apply (linked_agree_suffix (heap s)); [| |done].
    * intros w Hw. apply nxt_unlink_ne. set_solver +Hx Hw.
    * intros w Hw. apply prv_unlink_ne. set_solver +Hx Hw.
  + simpl. intros w Hw. rewrite dom_alter_iff. apply Hdom. set_solver +Hw.
Qed.

Lemma popleft_n_spec s xs l :
  is_queue s (xs ++ l) →
  ∃ s', popleft_n (len xs) s = (Ok xs, s') ∧ is_queue s' l ∧ same_data s s'.
Proof.
  intros Hq. unfold popleft_n.
  destruct (decide (len xs = 0)) as [Hz|Hz].
  { assert (xs = []) as -> by (destruct xs; [done|unfold len in Hz; simpl in Hz; lia]).
    by exists s. }
  rewrite bind_gets, bind_assert_true
    by (apply bool_decide_eq_true_2; rewrite (iq_num _ _ Hq), len_app;
        pose proof (len_nonneg l); lia).
  destruct (is_queue_first _ _ Hq) as (b & Hb & Hn).
  unfold add_num_free. rewrite bind_modify.
  set (s0 := set_num_free_blocks _ s).
  rewrite (bind_rd s0 _ b _ Hb), Hn.
  set (hd0 := fake_free_list_head (queue s)) in *.
  set (y := hd (fake_free_list_tail (queue s)) l).
  assert (Hfst : hd (fake_free_list_tail (queue s)) (xs ++ l) = hd y xs).
  { destruct xs; done. }
  assert (Hy : l ++ [fake_free_list_tail (queue s)] =
               y :: tail (l ++ [fake_free_list_tail (queue s)])) by by destruct l.
  pose proof (iq_nodup _ _ Hq) as Hnd. pose proof (iq_linked _ _ Hq) as Hl.
  unfold path_of in Hnd, Hl. fold hd0 in Hnd, Hl. rewrite <- app_assoc, Hy in Hnd, Hl.
  apply (linked_app _ (hd0 :: xs)) in Hl as [Hl1 _].
  assert (Hndp := Hnd). apply NoDup_cons in Hnd as [Hh Hnd].
  rewrite cons_middle, app_assoc in Hnd. apply NoDup_app in Hnd as (Hnd & Hdis & Hnd2).
  assert (Hl2 : linked (heap s) (xs ++ [y])) by (destruct xs; simpl in *; tauto).
  assert (Hyl : y ∈ l ++ [fake_free_list_tail (queue s)]) by (rewrite Hy; set_solver +).
  clearbody y.
  rewrite Hfst. replace (Z.to_nat (len xs)) with (length xs) by (unfold len; lia).
  erewrite bind_ok; [|apply popleft_loop_spec; [done..|]];
    [|intros x Hx; apply (iq_dom _ _ Hq); unfold path_of; set_solver +Hx].
  eexists. split; [reflexivity|]. match goal with |- is_queue ?s' _ ∧ _ => set (s1 := s') end.
  destruct (unlink_all_spec xs (heap s)) as (Hs & Hin & Hout).
  assert (Hsd : same_data s s1).
  { subst s1. split; simpl; [|done..]. by rewrite !strip_alter_link by (intros []; done). }
  split; [|done].
  assert (Hyx : y ∉ xs) by (apply NoDup_app in Hnd; set_solver +Hnd).
  assert ((hd0 ∉ xs) ∧ hd0 ≠ y) as [Hhx Hhy] by set_solver +Hh.
  assert (is_Some (unlink_all xs (heap s) !! hd0)).
  { rewrite (strip_lookup_is_Some _ _ _ Hs). eauto. }
  assert (is_Some (unlink_all xs (heap s) !! y)).
  { rewrite (strip_lookup_is_Some _ _ _ Hs). apply (iq_dom _ _ Hq). unfold path_of.
    set_solver +Hyl. }
  apply (is_queue_splice s s1 [] xs [] l [] hd0 y
           (tail (l ++ [fake_free_list_tail (queue s)]))); subst s1; simpl; try done.
  - rewrite (iq_num _ _ Hq), len_app. lia.
  - pose proof (iq_nodup _ _ Hq) as Hnd3. apply path_nodup_parts in Hnd3.
    apply path_nodup_parts. rewrite NoDup_app in Hnd3. set_solver +Hnd3.
  - set_solver +.
  - split_and!; [by solve_links..|done].
  - intros z ?? _. solve_links. by apply Hout.
  - intros z ?? _. solve_links. by apply Hout.
  - intros z Hz' _. assert (z ≠ hd0) by (intros ->; done). assert (z ≠ y) by (intros ->; done).
    solve_links. by apply Hin.
Qed.

Lemma popleft_n_error_spec s l n :
  is_queue s l → len l < n → popleft_n n s = (Raise AssertionError, s).
Proof.
  intros Hq Hn. unfold popleft_n. pose proof (len_nonneg l).
  rewrite decide_False by lia. rewrite bind_gets, (iq_num _ _ Hq).
  rewrite bool_decide_eq_false_2 by lia. done.
Qed.

Lemma path_length_le_heap s l : is_queue s l → (length l + 2 ≤ size (heap s))%nat.
Proof.
  intros Hq. pose proof (iq_nodup _ _ Hq) as Hnd.
  assert (length (path_of s l) = (length l + 2)%nat) as <-.
  { unfold path_of. simpl. rewrite length_app. simpl. lia. }
  rewrite <- (size_list_to_set (C := gset loc) _ Hnd), <- (size_dom (D := gset loc)).
  apply subseteq_size. intros x Hx. apply elem_of_list_to_set in Hx.
  apply elem_of_dom. by apply (iq_dom _ _ Hq).
Qed.

Lemma walk_spec l : ∀ fuel s t,
  (length l < fuel)%nat → linked (heap s) (l ++ [t]) → is_Some (heap s !! t) →
  nxt (heap s) t = None →
  walk fuel (hd t l) s = (Ok l, s).
Proof.
  induction l as [|x l IH]; intros fuel s t Hf Hl [b Hb] Hn;
    (destruct fuel as [|fuel]; [simpl in Hf; lia|]); cbn [walk hd].
  - rewrite (bind_rd _ _ _ _ Hb). unfold nxt in Hn. rewrite Hb in Hn. simpl in Hn.
    by rewrite Hn.
  - assert (Hx : nxt (heap s) x = Some (hd t l) ∧ linked (heap s) (l ++ [t]))
      by (destruct l; simpl in *; tauto).
    destruct Hx as [(c & Hc & Hcn)%nxt_Some Hl'].
    rewrite (bind_rd _ _ _ _ Hc), Hcn.
    by rewrite (bind_ok _ _ _ _ _ (IH fuel s t ltac:(simpl in *; lia) Hl' ltac:(eauto) Hn)).
Qed.

Lemma get_all_free_blocks_spec s l :
  is_queue s l → get_all_free_blocks s = (Ok l, s).
Proof.
  intros Hq. unfold get_all_free_blocks. destruct (is_queue_first _ _ Hq) as (b & Hb & Hn).
  rewrite bind_gets, (bind_rd _ _ _ _ Hb), Hn.
  pose proof (path_length_le_heap _ _ Hq). pose proof (iq_linked _ _ Hq) as Hl.
  apply walk_spec; [lia| | |apply Hq].
  - unfold path_of in Hl. destruct l; simpl in *; tauto.
  - apply (iq_dom _ _ Hq). unfold path_of. set_solver +.
Qed.

Lemma link_consecutive_spec blocks : ∀ prev s,
  NoDup blocks → (∀ a, a ∈ blocks → is_Some (heap s !! a)) →
  ∃ h', link_consecutive prev blocks s = (Ok tt, set_heap h' s) ∧
    linked h' blocks ∧ strip h' = strip (heap s) ∧
    (∀ x, x ∉ blocks → nxt h' x = nxt (heap s) x ∧ prv h' x = prv (heap s) x) ∧
    (∀ x, last blocks = Some x → nxt h' x = nxt (heap s) x) ∧
    (∀ x p, head blocks = Some x → prev = Some p → prv h' x = Some p).
Proof.
  induction blocks as [|b rest IH]; intros prev s Hnd Hdom.
  { exists (heap s). split_and!; try done. by destruct s. }
  apply NoDup_cons in Hnd as [Hb Hnd].
  assert (is_Some (heap s !! b)) by (apply Hdom; set_solver +).
  simpl link_consecutive.
  set (h1 := match prev with Some p => alter (set_prev (Some p)) b (heap s)
                           | None => heap s end).
  set (h2 := match rest with n :: _ => alter (set_next (Some n)) b h1 | [] => h1 end).
  assert (Hs1 : strip h1 = strip (heap s))
    by (subst h1; destruct prev; [apply strip_alter_link; by intros []|done]).
  assert (Hs2 : strip h2 = strip (heap s))
    by (subst h2; destruct rest; [done|]; rewrite strip_alter_link by (intros []; done); done).
  destruct (IH (Some b) (set_heap h2 s) Hnd) as (h' & Hrun & Hl & Hs & Hout & Hlast & Hhd).
  { intros a Ha. simpl. rewrite (strip_lookup_is_Some _ _ _ Hs2). apply Hdom. set_solver +Ha. }
  assert (is_Some (h1 !! b)) by (by rewrite (strip_lookup_is_Some _ _ _ Hs1)).
  destruct (Hout b Hb) as [Hnb Hpb]. simpl in Hnb, Hpb, Hout, Hlast.
  exists h'. split_and!.
  - assert (Hst : ∀ k : M store unit,
      ((match prev with Some p => upd b (set_prev (Some p)) | None => ret tt end) ;;;
       (match rest with n :: _ => upd b (set_next (Some n)) | [] => ret tt end) ;;; k) s
      = k (set_heap h2 s)).
    { intros k. subst h2 h1. destruct prev, rest; destruct s; reflexivity. }
    rewrite Hst. exact Hrun.
  - destruct rest as [|n rest]; [done|]. simpl. split_and!; [|by apply Hhd|done].
    rewrite Hnb. subst h2. by solve_links.
  - by rewrite Hs.
  - intros x Hx. destruct (Hout x) as [-> ->]; [set_solver +Hx|].
    assert (x ≠ b) by set_solver +Hx.
    subst h2 h1. destruct rest, prev; by solve_links.
  - intros x Hx. destruct rest as [|n rest]; simpl in Hx.
    + injection Hx as <-. rewrite Hnb. subst h2 h1. destruct prev; by solve_links.
    + rewrite Hlast by done. assert (x ≠ b).
      { assert (Hin : x ∈ n :: rest) by (by apply last_Some_elem_of).
        set_solver +Hin Hb. }
      subst h2 h1. destruct prev; by solve_links.
  - intros x p [= <-] ->. rewrite Hpb. subst h2 h1. destruct rest; by solve_links.
Qed.

Lemma filter_absent (l : list loc) x : x ∉ l → filter (λ a, a ≠ x) l = l.
Proof. intros Hx. apply filter_all. intros a Ha ->. done. Qed.

Lemma filter_remove (l1 l2 : list loc) x :
  NoDup (l1 ++ x :: l2) → filter (λ a, a ≠ x) (l1 ++ x :: l2) = l1 ++ l2.
Proof.
  intros Hnd. apply NoDup_app in Hnd as (_ & Hd & [Hx _]%NoDup_cons).
  rewrite filter_app, filter_cons_False by tauto. rewrite !filter_absent; [done|done|].
  intros Hin. apply (Hd _ Hin). set_solver +.
Qed.

(** All locations in use are below the allocation pointer. *)
Definition wf_locs s : Prop := ∀ a, is_Some (heap s !! a) → (a < next_loc s)%nat.


Lemma link_sentinels_spec s blocks :
  NoDup (path_of s blocks) → (∀ a, a ∈ path_of s blocks → is_Some (heap s !! a)) →
  num_free_blocks (queue s) = len blocks → linked (heap s) blocks →
  (∀ a, a ∉ blocks → nxt (heap s) a = None ∧ prv (heap s) a = None) →
  ∃ s', link_sentinels (fake_free_list_head (queue s)) (fake_free_list_tail (queue s))
          blocks s = (Ok tt, s') ∧ is_queue s' blocks ∧ same_data s s'.
Proof.
  intros Hnd Hdom Hnum Hl Hoff. pose proof Hnd as Hnd0.
  apply path_nodup_parts in Hnd as (Hnd & Hh & Ht & Hht).
  set (h := fake_free_list_head (queue s)) in *.
  set (t := fake_free_list_tail (queue s)) in *.
  assert (is_Some (heap s !! h)) by (apply Hdom; unfold path_of; set_solver +).
  assert (is_Some (heap s !! t)) by (apply Hdom; unfold path_of; set_solver +).
  assert (Hmk : ∀ s', same_data s s' → num_free_blocks (queue s') = len blocks →
    linked (heap s') (path_of s blocks) → nxt (heap s') t = None →
    (∀ a, a ∉ path_of s blocks → nxt (heap s') a = nxt (heap s) a ∧
                                   prv (heap s') a = prv (heap s) a) →
    is_queue s' blocks).
  { intros s' Hsd Hnum' Hl' Ht' Hoff'.
    assert (Hp : path_of s' blocks = path_of s blocks).
    { unfold path_of. by rewrite (sd_head _ _ Hsd), (sd_tail _ _ Hsd). }
    split; rewrite ?Hp; try done.
    - intros a Ha. rewrite (strip_lookup_is_Some _ _ _ (sd_strip _ _ Hsd)). by apply Hdom.
    - by rewrite (sd_tail _ _ Hsd).
    - intros a Ha. destruct (Hoff' a Ha) as [-> ->]. apply Hoff.
      unfold path_of in Ha. set_solver +Ha. }
  unfold link_sentinels.
  destruct blocks as [|f rest] eqn:Hbl.
  { simpl. eexists. split; [reflexivity|]. split; [|solve_same_data].
    apply Hmk; [solve_same_data|done| |by solve_links; apply Hoff|].
    - unfold path_of. simpl. split_and!; [by solve_links..|done].
    - intros a Ha. unfold path_of in Ha. assert (a ≠ h) by set_solver +Ha.
      assert (a ≠ t) by set_solver +Ha. by solve_links. }
  rewrite <- Hbl in *.
  destruct (last blocks) as [x|] eqn:Hlast; [|by rewrite last_None in Hlast; congruence].
  apply last_Some in Hlast as [m Hm].
  assert (Hfin : f ∈ blocks) by (rewrite Hbl; set_solver +).
  assert (Hxin : x ∈ blocks) by (rewrite Hm; set_solver +).
  assert (is_Some (heap s !! f)) by (apply Hdom; unfold path_of; set_solver +Hfin).
  assert (is_Some (heap s !! x)) by (apply Hdom; unfold path_of; set_solver +Hxin).
  assert (h ≠ f ∧ h ≠ x ∧ t ≠ f ∧ t ≠ x) as (? & ? & ? & ?)
    by (split_and!; intros ->; done).
  eexists. split; [reflexivity|]. split; [|solve_same_data].
  apply Hmk; [solve_same_data|done| |by solve_links; apply Hoff|].
  - simpl. unfold path_of. fold h t. rewrite Hm, <- app_assoc. simpl.
    rewrite app_comm_cons. apply linked_app. split; [|by simpl; split_and!; solve_links].
    rewrite <- app_comm_cons, <- Hm. rewrite Hbl at 1. simpl.
    split_and!; [by solve_links..|]. rewrite <- Hbl. rewrite Hm in Hl |- *.
    apply (linked_agree_prefix (heap s)); [| | |done]; rewrite <- ?Hm.
    + intros y Hy. assert (y ≠ x).
      { rewrite Hm in Hnd. apply NoDup_app in Hnd as (_ & Hd & _). set_solver +Hd Hy. }
      assert (y ≠ h) by (intros ->; apply Hh; rewrite Hm; set_solver +Hy). by solve_links.
    + intros y Hy Hyf. assert (y ≠ f).
      { intros ->. apply Hyf. destruct m; simpl in Hm |- *; congruence. }
      assert (y ≠ t) by (intros ->; done). by solve_links.
    + done.
  - simpl. intros a Ha. unfold path_of in Ha. fold h t in Ha.
    assert (a ≠ h) by set_solver +Ha. assert (a ≠ t) by set_solver +Ha.
    assert (a ≠ f) by (intros ->; set_solver +Ha Hfin).
    assert (a ≠ x) by (intros ->; set_solver +Ha Hxin). by solve_links.
Qed.

Lemma nxt_prv_insert_new h a b i :
  nxt (<[a := new_block i]> h) b = (if decide (b = a) then None else nxt h b) ∧
  prv (<[a := new_block i]> h) b = (if decide (b = a) then None else prv h b).
Proof.
  unfold nxt, prv. destruct (decide (b = a)) as [->|].
  - by rewrite lookup_insert_eq.
  - by rewrite lookup_insert_ne.
Qed.

Lemma init_spec s blocks :
  NoDup blocks → (∀ a, a ∈ blocks → is_Some (heap s !! a)) → wf_locs s →
  (∀ a, nxt (heap s) a = None ∧ prv (heap s) a = None) →
  ∃ s', init blocks s = (Ok tt, s') ∧ is_queue s' blocks ∧
    fake_free_list_head (queue s') = next_loc s ∧
    fake_free_list_tail (queue s') = S (next_loc s) ∧
    next_loc s' = S (S (next_loc s)) ∧
    strip (heap s') =
      <[S (next_loc s) := new_block (-1)]> (<[next_loc s := new_block (-1)]> (strip (heap s))).
Proof.
  intros Hnd Hdom Hwf Hno.
  destruct (link_consecutive_spec blocks None s Hnd Hdom)
    as (h' & Hrun & Hl & Hs & Hout & Hlast & _).
  set (n := next_loc s) in *.
  set (h2 := <[S n := new_block (-1)]> (<[n := new_block (-1)]> h')).
  set (s2 := mkStore h2 (S (S n)) (mkQueue (len blocks) n (S n))).
  assert (Hlt : ∀ a, a ∈ blocks → (a < n)%nat) by (intros a Ha; by apply Hwf, Hdom).
  assert (Hnp : ∀ a, a ∈ blocks → nxt h2 a = nxt h' a ∧ prv h2 a = prv h' a).
  { intros a Ha%Hlt. subst h2.
    rewrite !(proj1 (nxt_prv_insert_new _ _ _ _)), !(proj2 (nxt_prv_insert_new _ _ _ _)).
    by rewrite !decide_False by lia. }
  destruct (link_sentinels_spec s2 blocks) as (s' & Hrun' & Hq & Hsd).
  - apply path_nodup_parts. simpl. split_and!; [done|intros ?%Hlt; lia..|lia].
  - unfold path_of. simpl. intros a Ha. unfold h2. rewrite !lookup_insert_is_Some'.
    apply elem_of_cons in Ha as [->|[Ha| ->%list_elem_of_singleton]%elem_of_app]; [auto| |auto].
    do 2 right. rewrite (strip_lookup_is_Some _ _ _ Hs). by apply Hdom.
  - done.
  - simpl. destruct blocks as [|x bs]; [done|]. apply (linked_agree_suffix h'); [| |done].
    + intros y Hy. by apply Hnp.
    + intros y Hy. apply Hnp. set_solver +Hy.
  - simpl. intros a Ha. subst h2.
    rewrite !(proj1 (nxt_prv_insert_new _ _ _ _)), !(proj2 (nxt_prv_insert_new _ _ _ _)).
    destruct (decide (a = S n)), (decide (a = n)); [done..|].
    destruct (Hout a Ha) as [-> ->]. apply Hno.
  - exists s'. split.
    + unfold init. by rewrite (bind_ok _ _ _ _ _ Hrun).
    + split; [done|]. rewrite (sd_head _ _ Hsd), (sd_tail _ _ Hsd), (sd_next_loc _ _ Hsd),
        (sd_strip _ _ Hsd). simpl. split_and!; [done..|].
      unfold h2, strip. rewrite !fmap_insert. fold (strip h'). by rewrite Hs.
Qed.
End queue_ops.
