(* ===== verification/QueueSpec.v ===== *)
(** The free block queue refines a list: whatever sequence of queue operations
    a client runs, the doubly linked list with its in-place updates returns
    the results, and raises the exceptions, of the same operations on a plain
    list. *)

From S2P Require Import Prelude.
From S2P Require Import KVBlocks.

Inductive queue_op :=
  | QPopleft
  | QPopleftN (n : Z)
  | QRemove (b : loc)
  | QAppend (b : loc)
  | QAppendN (bs : list loc)
  | QGetAll.

(** The code's operation. *)
Definition run_op (o : queue_op) : M store (list loc) :=
  match o with
  | QPopleft => let* b := FreeQueue.popleft in ret [b]
  | QPopleftN n => FreeQueue.popleft_n n
  | QRemove b => FreeQueue.remove b ;;; ret []
  | QAppend b => FreeQueue.append b ;;; ret []
  | QAppendN bs => FreeQueue.append_n bs ;;; ret []
  | QGetAll => FreeQueue.get_all_free_blocks
  end.

(** The operation on a list. *)
Definition spec_op (o : queue_op) : M (list loc) (list loc) := λ l,
  match o with
  | QPopleft => match l with [] => (Raise ValueError, []) | b :: l => (Ok [b], l) end
  | QPopleftN n =>
      if decide (n ≤ len l) then (Ok (take (Z.to_nat n) l), drop (Z.to_nat n) l)
      else (Raise AssertionError, l)
  | QRemove b =>
      if decide (b ∈ l) then (Ok [], filter (λ a, a ≠ b) l) else (Raise RuntimeError, l)
  | QAppend b => (Ok [], l ++ [b])
  | QAppendN bs => (Ok [], l ++ bs)
  | QGetAll => (Ok l, l)
  end.

(** A client runs operations one after another and sees every result; an
    exception does not stop it. *)
Fixpoint observe {S} (run : queue_op → M S (list loc)) (ops : list queue_op) (s : S)
    : list (res (list loc)) * S :=
  match ops with
  | [] => ([], s)
  | o :: ops =>
      let '(r, s1) := run o s in
      let '(rs, s2) := observe run ops s1 in (r :: rs, s2)
  end.

Section refinement.
Context (universe : list loc).

(** What the callers guarantee: they use blocks of the pool only, pop a
    non-negative number of blocks, and append blocks that are not in the
    queue, each once. *)
Definition op_ok (o : queue_op) (l : list loc) : Prop :=
  match o with
  | QPopleftN n => 0 ≤ n
  | QRemove b => b ∈ universe
  | QAppend b => b ∈ universe ∧ b ∉ l
  | QAppendN bs => NoDup bs ∧ ∀ b, b ∈ bs → b ∈ universe ∧ b ∉ l
  | _ => True
  end.

Fixpoint ops_ok (ops : list queue_op) (l : list loc) : Prop :=
  match ops with
  | [] => True
  | o :: ops => op_ok o l ∧ ops_ok ops (spec_op o l).2
  end.

(** The simulation relation. *)
Record queue_rep (s : store) (l : list loc) : Prop := {
  qr_queue : is_queue s l;
  qr_dom : ∀ b, b ∈ universe → is_Some (heap s !! b);
  qr_head : fake_free_list_head (queue s) ∉ universe;
  qr_tail : fake_free_list_tail (queue s) ∉ universe
}.

Lemma queue_rep_same s s' l l' :
  queue_rep s l → same_data s s' → is_queue s' l' → queue_rep s' l'.
Proof.
  intros [Hq Hd Hh Ht] Hsd Hq'. split; [done| | |].
  - intros b Hb. apply (strip_lookup_is_Some _ (heap s)); [apply Hsd|auto].
  - by rewrite (sd_head _ _ Hsd).
  - by rewrite (sd_tail _ _ Hsd).
Qed.

Lemma queue_rep_off s l b : queue_rep s l → b ∈ universe → b ∉ l → b ∉ path_of s l.
Proof.
  intros [_ _ Hh Ht] Hb Hl. unfold path_of.
  intros [->|[?| ->%list_elem_of_singleton]%elem_of_app]%elem_of_cons; done.
Qed.

Lemma run_op_refines s l o :
  queue_rep s l → op_ok o l →
  ∃ s', run_op o s = ((spec_op o l).1, s') ∧ queue_rep s' (spec_op o l).2.
Proof.
  intros Hr Ho. pose proof (qr_queue _ _ Hr) as Hq.
  assert (Hdone : ∀ (m : M store unit) l', (∃ s', m s = (Ok tt, s') ∧ is_queue s' l' ∧ same_data s s') →
    ∃ s', (m ;;; ret []) s = (Ok ([] : list loc), s') ∧ queue_rep s' l').
  { intros m l' (s' & Hm & Hq' & Hsd). exists s'. rewrite (bind_ok _ _ _ _ _ Hm).
    split; [done|by eapply queue_rep_same]. }
  destruct o as [|n|b|b|bs|]; simpl in *.
  - destruct l as [|b l].
    + exists s. by rewrite (bind_raise _ _ _ _ _ (popleft_empty_spec _ Hq)).
    + destruct (popleft_spec _ _ _ Hq) as (s' & Hp & Hq' & Hsd). exists s'.
      rewrite (bind_ok _ _ _ _ _ Hp). split; [done|by eapply queue_rep_same].
  - split_if as Hn; simpl; [|exists s; split; [apply (popleft_n_error_spec s l); [done|lia]|done]].
    rewrite <- (take_drop (Z.to_nat n) l) in Hq.
    destruct (popleft_n_spec _ _ _ Hq) as (s' & Hp & Hq' & Hsd). exists s'.
    replace (len (take (Z.to_nat n) l)) with n in Hp by (unfold len in *; rewrite length_take; lia).
    split; [done|by eapply queue_rep_same].
  - split_if as Hb; simpl.
    + apply Hdone. apply list_elem_of_split in Hb as (l1 & l2 & ->).
      pose proof (iq_nodup _ _ Hq) as Hnd. apply path_nodup_parts in Hnd as (Hnd & _).
      rewrite filter_remove by done. by apply remove_spec.
    + destruct (qr_dom _ _ Hr b Ho) as [x Hx]. exists s.
      rewrite (bind_raise _ _ s RuntimeError s); [done|].
      eapply remove_error_spec; [done..|by apply queue_rep_off].
  - destruct Ho as [Hb Hl].
    apply Hdone, append_spec; [done|by apply queue_rep_off|by apply (qr_dom _ _ Hr)].
  - apply Hdone, append_n_spec; [done|apply Ho| |].
    + intros b Hb. destruct (proj2 Ho b Hb). by apply queue_rep_off.
    + intros b Hb. by apply (qr_dom _ _ Hr), Ho.
  - exists s. by rewrite (get_all_free_blocks_spec _ _ Hq).
Qed.

Lemma observe_refines ops : ∀ s l,
  queue_rep s l → ops_ok ops l →
  ∃ s', observe run_op ops s = ((observe spec_op ops l).1, s') ∧
        queue_rep s' (observe spec_op ops l).2.
Proof.
  induction ops as [|o ops IH]; intros s l Hr Ho; simpl; [by exists s|].
  destruct Ho as [Ho Hops]. destruct (run_op_refines s l o Hr Ho) as (s1 & Hrun & Hr1).
  rewrite Hrun. destruct (spec_op o l) as [r l1]. simpl in *.
  destruct (IH s1 l1 Hr1 Hops) as (s2 & Hobs & Hr2). rewrite Hobs.
  destruct (observe spec_op ops l1) as [rs l2]. by exists s2.
Qed.
End refinement.

(** C25. The queue refines a list.  Built from any distinct blocks and driven by
    any sequence of operations that appends only absent blocks, the linked
    queue gives exactly the results and exceptions of the list operations:
    [popleft] raises [ValueError] on an empty queue, [popleft_n] an
    [AssertionError] when it is too short and [remove] a [RuntimeError] for a
    block that is not queued, and afterwards walking the links from the head
    sentinel yields the list and [num_free_blocks] its length. *)
Theorem queue_refines_list s blocks ops :
  NoDup blocks → (∀ a, a ∈ blocks → is_Some (heap s !! a)) → wf_locs s →
  (∀ a, nxt (heap s) a = None ∧ prv (heap s) a = None) → ops_ok blocks ops blocks →
  ∃ s0 s', FreeQueue.init blocks s = (Ok tt, s0) ∧
    observe run_op ops s0 = ((observe spec_op ops blocks).1, s') ∧
    FreeQueue.get_all_free_blocks s' = (Ok (observe spec_op ops blocks).2, s') ∧
    num_free_blocks (queue s') = len (observe spec_op ops blocks).2.
Proof.
  intros Hnd Hdom Hwf Hno Hops.
  destruct (init_spec s blocks Hnd Hdom Hwf Hno) as (s0 & Hinit & Hq & Hh & Ht & _ & Hstrip).
  assert (Hr : queue_rep blocks s0 blocks).
  { split; [done| | |].
    - intros b Hb. destruct (Hdom b Hb) as [x Hx].
      assert (is_Some (strip (heap s0) !! b)) as [y Hy].
      { rewrite Hstrip, !lookup_insert_is_Some'. right. right. unfold strip.
        rewrite lookup_fmap, Hx. eauto. }
      unfold strip in Hy. rewrite lookup_fmap, fmap_Some in Hy. naive_solver.
    - rewrite Hh. intros Hb%Hdom%Hwf. lia.
    - rewrite Ht. intros Hb%Hdom%Hwf. lia. }
  destruct (observe_refines blocks ops s0 blocks Hr Hops) as (s' & Hobs & Hr').
  exists s0, s'. pose proof (qr_queue _ _ _ Hr') as Hq'.
  split; [done|]. split; [done|]. split; [by apply get_all_free_blocks_spec|apply Hq'].
Qed.

(** Three blocks without links. *)
Definition example_store : store :=
  mkStore (list_to_map [(0%nat, new_block 0); (1%nat, new_block 1); (2%nat, new_block 2)])
    3%nat (mkQueue 0 0%nat 0%nat).
Definition example_ops : list queue_op :=
  [QRemove 1%nat; QRemove 1%nat; QPopleftN 3; QAppend 1%nat; QPopleft; QAppendN [0%nat]; QGetAll].

Lemma example_store_lookup a x :
  heap example_store !! a = Some x →
  (a < 3)%nat ∧ next_free_block x = None ∧ prev_free_block x = None.
Proof.
  unfold example_store. cbn [heap]. intros Ha%elem_of_list_to_map_2.
  repeat (apply elem_of_cons in Ha as [[= -> ->]|Ha]; [split; [lia|done]|]).
  by apply not_elem_of_nil in Ha.
Qed.

Lemma queue_refines_list_witness :
  ∃ s0 s', FreeQueue.init [0%nat; 1%nat; 2%nat] example_store = (Ok tt, s0) ∧
    observe run_op example_ops s0 =
      ([Ok []; Raise RuntimeError; Raise AssertionError; Ok []; Ok [0%nat]; Ok [];
        Ok [2%nat; 1%nat; 0%nat]], s').
Proof.
  destruct (queue_refines_list example_store [0%nat; 1%nat; 2%nat] example_ops)
    as (s0 & s' & H1 & H2 & _).
  - repeat constructor; set_solver.
  - intros a Ha. repeat (apply elem_of_cons in Ha as [->|Ha]; [vm_compute; eauto|]).
    by apply not_elem_of_nil in Ha.
  - intros a [x Ha]. by apply example_store_lookup in Ha as [? _].
  - intros a. unfold nxt, prv. destruct (heap example_store !! a) as [x|] eqn:Ha; [|done].
    by apply example_store_lookup in Ha as (_ & ? & ?).
  - repeat split; simpl; try set_solver; [lia|repeat constructor; set_solver].
  - exists s0, s'. split; [done|]. rewrite H2. vm_compute. reflexivity.
Defined.
