(* ===== verification/Request.v ===== *)
(** Requests (vllm/v1/request.py) and the stop check of the scheduler
    (vllm/v1/core/sched/utils.py).

    A [Request] is the record of the attributes the core engine reads or
    writes.  Times are integers in some unit: they are only compared.  The
    bound method [get_hash_new_full_blocks] is represented by the flag
    [has_block_hasher]; the hasher itself (one per engine) is an argument of
    the operations that call it. *)

From S2P Require Import Prelude.

Inductive RequestStatus :=
  | WAITING | WAITING_FOR_FSM | WAITING_FOR_REMOTE_KVS | RUNNING | PREEMPTED
  | FINISHED_STOPPED | FINISHED_LENGTH_CAPPED | FINISHED_ABORTED
  | FINISHED_IGNORED | FINISHED_ERROR.

#[export] Instance RequestStatus_eq_dec : EqDecision RequestStatus.
Proof. solve_decision. Defined.

(** [enum.IntEnum] with [enum.auto()]: values from 1 in order. *)
Definition RequestStatus_value (s : RequestStatus) : Z :=
  match s with
  | WAITING => 1 | WAITING_FOR_FSM => 2 | WAITING_FOR_REMOTE_KVS => 3
  | RUNNING => 4 | PREEMPTED => 5 | FINISHED_STOPPED => 6
  | FINISHED_LENGTH_CAPPED => 7 | FINISHED_ABORTED => 8 | FINISHED_IGNORED => 9
  | FINISHED_ERROR => 10
  end.

Inductive FinishReason := STOP | LENGTH | ABORT | ERROR.

#[export] Instance FinishReason_eq_dec : EqDecision FinishReason.
Proof. solve_decision. Defined.

Definition status_is_finished (s : RequestStatus) : bool :=
  RequestStatus_value PREEMPTED <? RequestStatus_value s.

(** [_FINISHED_REASON_MAP.get(status)] *)
Definition status_finished_reason (s : RequestStatus) : option FinishReason :=
  match s with
  | FINISHED_STOPPED => Some STOP
  | FINISHED_LENGTH_CAPPED => Some LENGTH
  | FINISHED_ABORTED => Some ABORT
  | FINISHED_IGNORED => Some LENGTH
  | FINISHED_ERROR => Some ERROR
  | _ => None
  end.

(** vllm/multimodal/inputs.py: the mask [is_embed] is a list of booleans. *)
Record PlaceholderRange := mkPlaceholder {
  offset : Z;
  mm_length : Z;
  is_embed : option (list bool)
}.

Record MultiModalFeatureSpec := mkFeature {
  identifier : string;
  mm_position : PlaceholderRange
}.

Definition embeds_cumsum (p : PlaceholderRange) : option (list Z) :=
  (λ m, snd (foldl (λ '(acc, out) (b : bool),
                      let acc := acc + (if b then 1 else 0) in (acc, out ++ [acc]))
               (0, []) m)) <$> is_embed p.

Definition get_num_embeds (p : PlaceholderRange) : res Z :=
  match embeds_cumsum p with
  | None => Ok (mm_length p)
  | Some c => match py_index c (-1) with Some v => Ok v | None => Raise IndexError end
  end.

Definition get_embeds_indices_in_range (p : PlaceholderRange) (start_idx end_idx : Z)
    : res (Z * Z) :=
  match embeds_cumsum p with
  | None => Ok (start_idx, end_idx)
  | Some c =>
      match (if decide (0 < start_idx) then py_index c (start_idx - 1) else Some 0),
            py_index c (end_idx - 1) with
      | Some a, Some b => Ok (a, b)
      | _, _ => Raise IndexError
      end
  end.

(** The sampling and pooling parameters the core reads.  [structured_outputs]
    says whether [StructuredOutputRequest.from_sampling_params] gives an
    object (some constraint is set). *)
Record SamplingParams := mkSampling {
  max_tokens_param : option Z;
  min_tokens : Z;
  ignore_eos : bool;
  stop_token_ids : option (list Z);
  structured_outputs : bool;
  sp_skip_reading_prefix_cache : option bool
}.

Record PoolingParams := mkPooling {
  pp_skip_reading_prefix_cache : option bool
}.

Record LoRARequest := mkLora {
  lora_name : string;
  lora_int_id : Z
}.

Inductive EngineCoreEventType := QUEUED | SCHEDULED | PREEMPTED_EVENT.

Record Request := mkRequest {
  request_id : string;
  obj_id : Z;                              (** [id(self)] *)
  client_index : Z;
  priority : Z;
  arrival_time : Z;
  sampling_params : option SamplingParams;
  pooling_params : option PoolingParams;
  eos_token_id : option Z;
  lora_request : option LoRARequest;
  use_structured_output : bool;            (** [structured_output_request is not None] *)
  status : RequestStatus;
  events : list (EngineCoreEventType * Z);
  stop_reason : option Z;
  max_tokens : Z;
  prompt_embeds : option (list bytes);     (** the rows of the tensor *)
  num_prompt_tokens : Z;
  _output_token_ids : list Z;
  _all_token_ids : list Z;
  num_output_placeholders : Z;
  discard_latest_async_tokens : bool;
  spec_token_ids : list Z;
  num_computed_tokens : Z;
  cache_salt : option string;
  mm_features : list MultiModalFeatureSpec;
  num_cached_tokens : Z;
  num_preemptions : Z;
  num_external_computed_tokens : Z;
  block_hashes : list bytes;
  has_block_hasher : bool;
  skip_reading_prefix_cache : bool
}.

(** ** Properties *)

Definition num_tokens (r : Request) : Z := len (_all_token_ids r).
Definition num_tokens_with_spec (r : Request) : Z :=
  len (_all_token_ids r) + len (spec_token_ids r).
Definition num_output_tokens (r : Request) : Z := len (_output_token_ids r).
Definition num_encoder_inputs (r : Request) : Z := len (mm_features r).
Definition has_encoder_inputs (r : Request) : bool := 0 <? num_encoder_inputs r.
Definition is_finished (r : Request) : bool := status_is_finished (status r).
Definition get_finished_reason (r : Request) : option FinishReason :=
  status_finished_reason (status r).

Definition get_num_encoder_embeds (r : Request) (input_id : Z) : res Z :=
  if decide (input_id < len (mm_features r)) then
    match py_index (mm_features r) input_id with
    | Some f => get_num_embeds (mm_position f)
    | None => Raise IndexError
    end
  else Raise AssertionError.

Definition get_skip_reading_prefix_cache
    (sp : option SamplingParams) (pp : option PoolingParams) : bool :=
  match sp ≫= sp_skip_reading_prefix_cache with
  | Some b => b
  | None => match pp ≫= pp_skip_reading_prefix_cache with
            | Some b => b
            | None => false
            end
  end.

(** ** Attribute updates *)

Definition Request_eta (r : Request) : Request :=
  mkRequest
    (request_id r) (obj_id r) (client_index r) (priority r) (arrival_time r)
    (sampling_params r) (pooling_params r) (eos_token_id r) (lora_request r)
    (use_structured_output r) (status r) (events r) (stop_reason r) (max_tokens r)
    (prompt_embeds r) (num_prompt_tokens r) (_output_token_ids r) (_all_token_ids r)
    (num_output_placeholders r) (discard_latest_async_tokens r) (spec_token_ids r)
    (num_computed_tokens r) (cache_salt r) (mm_features r) (num_cached_tokens r)
    (num_preemptions r) (num_external_computed_tokens r) (block_hashes r)
    (has_block_hasher r) (skip_reading_prefix_cache r).

Definition set_output_token_ids (v : list Z) : Request → Request :=
  ltac:(record_set Request_eta _output_token_ids v).
Definition set_all_token_ids (v : list Z) : Request → Request :=
  ltac:(record_set Request_eta _all_token_ids v).
Definition set_block_hashes (v : list bytes) : Request → Request :=
  ltac:(record_set Request_eta block_hashes v).
Definition set_status (v : RequestStatus) : Request → Request :=
  ltac:(record_set Request_eta status v).
Definition set_stop_reason (v : option Z) : Request → Request :=
  ltac:(record_set Request_eta stop_reason v).
Definition set_events (v : list (EngineCoreEventType * Z)) : Request → Request :=
  ltac:(record_set Request_eta events v).
Definition set_spec_token_ids (v : list Z) : Request → Request :=
  ltac:(record_set Request_eta spec_token_ids v).
Definition set_num_computed_tokens (v : Z) : Request → Request :=
  ltac:(record_set Request_eta num_computed_tokens v).
Definition set_num_cached_tokens (v : Z) : Request → Request :=
  ltac:(record_set Request_eta num_cached_tokens v).
Definition set_num_preemptions (v : Z) : Request → Request :=
  ltac:(record_set Request_eta num_preemptions v).
Definition set_num_output_placeholders (v : Z) : Request → Request :=
  ltac:(record_set Request_eta num_output_placeholders v).
Definition set_discard_latest_async_tokens (v : bool) : Request → Request :=
  ltac:(record_set Request_eta discard_latest_async_tokens v).
Definition set_num_external_computed_tokens (v : Z) : Request → Request :=
  ltac:(record_set Request_eta num_external_computed_tokens v).

(** ** Construction *)

(** [length_from_prompt_token_ids_or_embeds] (vllm/utils/__init__.py) *)
Definition length_from_prompt_token_ids_or_embeds
    (prompt_token_ids : option (list Z)) (prompt_embeds : option (list bytes)) : res Z :=
  match prompt_token_ids, prompt_embeds with
  | None, None => Raise ValueError
  | None, Some e => Ok (len e)
  | Some t, None => Ok (len t)
  | Some t, Some e => if decide (len e ≠ len t) then Raise ValueError else Ok (len t)
  end.

(** [StructuredOutputRequest.from_sampling_params(sp) is not None] *)
Definition uses_structured_output (sp : option SamplingParams) : bool :=
  match sp with Some p => structured_outputs p | None => false end.

(** The [max_tokens] and initial [status] of [__init__]. *)
Definition init_max_tokens_status
    (sp : option SamplingParams) (pp : option PoolingParams) : res (Z * RequestStatus) :=
  match pp, sp with
  | Some _, _ => Ok (1, WAITING)
  | None, Some p =>
      match max_tokens_param p with
      | None => Raise AssertionError
      | Some m => Ok (m, if structured_outputs p then WAITING_FOR_FSM else WAITING)
      end
  | None, None => Raise ValueError
  end.

Definition Request_init (id : string) (obj client : Z)
    (prompt_token_ids : option (list Z)) (sp : option SamplingParams)
    (pp : option PoolingParams) (eos : option Z) (arrival : Z)
    (embeds : option (list bytes)) (mm : list MultiModalFeatureSpec)
    (lora : option LoRARequest) (salt : option string) (prio : Z)
    (block_hasher : option (Request → res (list bytes))) : res Request :=
  match init_max_tokens_status sp pp with
  | Raise e => Raise e
  | Ok (max_toks, st) =>
      match length_from_prompt_token_ids_or_embeds prompt_token_ids embeds with
      | Raise e => Raise e
      | Ok n =>
          let all := match prompt_token_ids with
                     | Some t => t
                     | None => replicate (Z.to_nat n) 0
                     end in
          let r := mkRequest id obj client prio arrival sp pp eos lora
            (uses_structured_output sp) st [] None max_toks embeds n [] all 0 false []
            0 salt mm (-1) 0 0 [] (bool_decide (is_Some block_hasher)) false in
          let skip := get_skip_reading_prefix_cache sp pp in
          let finish r := ltac:(record_set Request_eta skip_reading_prefix_cache skip) r in
          match block_hasher with
          | None => Ok (finish r)
          | Some h =>
              match h r with
              | Raise e => Raise e
              | Ok hs => Ok (finish (set_block_hashes hs r))
              end
          end
      end
  end.

(** [append_output_token_ids]; an [int] argument is a one-element list. *)
Definition append_output_token_ids (hasher : Request → res (list bytes))
    (token_ids : list Z) (r : Request) : res Request :=
  let r := set_all_token_ids (_all_token_ids r ++ token_ids)
             (set_output_token_ids (_output_token_ids r ++ token_ids) r) in
  if has_block_hasher r then
    match hasher r with
    | Ok hs => Ok (set_block_hashes (block_hashes r ++ hs) r)
    | Raise e => Raise e
    end
  else Ok r.

Definition record_event (t : EngineCoreEventType) (timestamp : Z) (r : Request) : Request :=
  set_events (events r ++ [(t, timestamp)]) r.
Definition take_events (r : Request)
    : option (list (EngineCoreEventType * Z)) * Request :=
  match events r with
  | [] => (None, r)
  | _ => (Some (events r), set_events [] r)
  end.

(** Python compares strings by code points. *)
Fixpoint string_ltb (a b : string) : bool :=
  match a, b with
  | _, EmptyString => false
  | EmptyString, String _ _ => true
  | String x a, String y b =>
      let m := Ascii.nat_of_ascii x in
      let n := Ascii.nat_of_ascii y in
      if Nat.eqb m n then string_ltb a b else Nat.ltb m n
  end.

(** [__lt__] *)
Definition Request_lt (a b : Request) : bool :=
  if decide (priority a ≠ priority b) then priority a <? priority b
  else if decide (arrival_time a ≠ arrival_time b) then arrival_time a <? arrival_time b
  else if decide (request_id a ≠ request_id b) then string_ltb (request_id a) (request_id b)
  else obj_id a <? obj_id b.

(** ** vllm/v1/core/sched/utils.py *)

(** [remove_all(lst, items_to_remove)]: the set is given by its elements.
    The one-element fast path removes the first occurrence only. *)
Fixpoint list_remove_first `{EqDecision A} (x : A) (l : list A) : list A :=
  match l with
  | [] => []
  | y :: l => if decide (y = x) then l else y :: list_remove_first x l
  end.

Lemma list_remove_first_nodup `{EqDecision A} (x : A) (l : list A) : NoDup l → list_remove_first x l = filter (λ y, y ≠ x) l.
Proof.
  induction l as [|y l IH]; intros Hnd; [done|]. apply NoDup_cons in Hnd as [Hy Hnd]. cbn [list_remove_first].
  destruct (decide (y = x)) as [->|Hne].
  - rewrite filter_cons_False by naive_solver. symmetry. apply filter_all. intros z Hz ->. done.
  - rewrite filter_cons_True by done. by rewrite IH.
Qed.

Definition remove_all `{Countable A} (lst : list A) (items_to_remove : gset A) : list A :=
  match elements items_to_remove with
  | [] => lst
  | [item] => list_remove_first item lst
  | _ => filter (λ item, item ∉ items_to_remove) lst
  end.

(** [check_stop]: the updated request and whether it stops. *)
Definition check_stop (max_model_len : Z) (r : Request) : res (bool * Request) :=
  match pooling_params r, sampling_params r with
  | Some _, _ => Raise AssertionError
  | None, None => Raise AssertionError
  | None, Some sp =>
      if decide (num_output_tokens r < min_tokens sp) then Ok (false, r) else
      match py_index (_output_token_ids r) (-1) with
      | None => Raise IndexError
      | Some last_token_id =>
          if negb (ignore_eos sp) && bool_decide (eos_token_id r = Some last_token_id)
          then Ok (true, set_status FINISHED_STOPPED r)
          else if bool_decide (last_token_id ∈ default [] (stop_token_ids sp))
          then Ok (true, set_stop_reason (Some last_token_id)
                           (set_status FINISHED_STOPPED r))
          else if bool_decide (max_model_len ≤ num_tokens r)
                  || bool_decide (max_tokens r ≤ num_output_tokens r)
          then Ok (true, set_status FINISHED_LENGTH_CAPPED r)
          else Ok (false, r)
      end
  end.
