(* ===== verification/BlockHash.v ===== *)
(** Block hashing for prefix caching (vllm/v1/core/kv_cache_utils.py): the
    packing of a block hash with its group id, the extra keys of a block
    (multi-modal inputs, LoRA, cache salt, prompt embeddings), the chained
    block hashes of a request, and the conversion between hash granularities.

    The hash function (sha256 or xxhash of a CBOR or pickle encoding) and the
    random seed [NONE_HASH] are parameters.  The loops run with fuel;
    [request_block_hasher_total] shows that the fuel is enough for every
    positive block size. *)

From S2P Require Import Prelude.
From S2P Require Import Request.

(** ** Packing *)

(** [n.to_bytes(k, "big", signed=False)] and [int.from_bytes(b, "big")]. *)
Fixpoint be_bytes (k : nat) (n : Z) : bytes :=
  match k with
  | O => []
  | S k => be_bytes k (Z.shiftr n 8) ++ [Z.land n 255]
  end.
Definition int_to_bytes (k : nat) (n : Z) : res bytes :=
  if decide (0 ≤ n < 2 ^ (8 * Z.of_nat k)) then Ok (be_bytes k n) else Raise OverflowError.
Definition int_from_bytes (b : bytes) : Z :=
  foldl (λ acc x, Z.lor (Z.shiftl acc 8) x) 0 b.

Definition make_block_hash_with_group_id (block_hash : bytes) (group_id : Z) : res bytes :=
  match int_to_bytes 4 group_id with
  | Ok g => Ok (block_hash ++ g)
  | Raise e => Raise e
  end.

(** [key\[:-4\]] and [key\[-4:\]] *)
Definition get_block_hash (key : bytes) : bytes := py_upto key (-4).
Definition get_group_id (key : bytes) : Z := int_from_bytes (py_from key (-4)).

Inductive ExternalBlockHash :=
  | EBytes (b : bytes)
  | EInt (n : Z).

Definition maybe_convert_block_hash (use_int_block_hashes : bool) (hash_bytes : bytes)
    : ExternalBlockHash :=
  if use_int_block_hashes
  then EInt (Z.land (int_from_bytes hash_bytes) (Z.shiftl 1 64 - 1))
  else EBytes hash_bytes.

(** ** Extra keys *)

Inductive ExtraKey :=
  | KStr (s : string)
  | KBytes (b : bytes).

Definition need_extra_keys (r : Request) : bool :=
  bool_decide (mm_features r ≠ []) || bool_decide (is_Some (lora_request r))
  || bool_decide (is_Some (cache_salt r)).

(** The loop of [_gen_mm_extra_hash_keys] over the features from index
    [curr_mm_idx] on. *)
Fixpoint gen_mm_loop (start_token_idx end_token_idx : Z)
    (features : list MultiModalFeatureSpec) (curr_mm_idx : Z) : list ExtraKey * Z :=
  match features with
  | [] => ([], curr_mm_idx)
  | f :: rest =>
      let off := offset (mm_position f) in
      let length := mm_length (mm_position f) in
      if decide (off < end_token_idx) then
        if decide (off + length < start_token_idx) then
          gen_mm_loop start_token_idx end_token_idx rest (curr_mm_idx + 1)
        else if decide (off + length ≤ end_token_idx) then
          let '(ks, i) := gen_mm_loop start_token_idx end_token_idx rest (curr_mm_idx + 1) in
          (KStr (identifier f) :: ks, i)
        else ([KStr (identifier f)], curr_mm_idx)
      else ([], curr_mm_idx)
  end.

Definition _gen_mm_extra_hash_keys (r : Request)
    (start_token_idx end_token_idx start_mm_idx : Z) : res (list ExtraKey * Z) :=
  let features := mm_features r in
  match last features with
  | None => Ok ([], start_mm_idx)
  | Some lf =>
      let last_pos := mm_position lf in
      if decide (offset last_pos + mm_length last_pos < start_token_idx)
      then Ok ([], start_mm_idx)
      else if decide (start_mm_idx < 0) then
        if decide (- start_mm_idx ≤ len features) then
          let start := len features + start_mm_idx in
          Ok (gen_mm_loop start_token_idx end_token_idx
                (drop (Z.to_nat start) features) start)
        else Raise AssertionError
      else Ok (gen_mm_loop start_token_idx end_token_idx
                 (drop (Z.to_nat start_mm_idx) features) start_mm_idx)
  end.

Definition _gen_lora_extra_hash_keys (r : Request) : list ExtraKey :=
  match lora_request r with
  | None => []
  | Some l => [KStr (lora_name l)]
  end.

(** [tensor_data(rows).tobytes()]: the bytes of the rows, one after the other. *)
Definition _gen_prompt_embeds_extra_hash_keys (r : Request)
    (start_token_idx end_token_idx : Z) : list ExtraKey :=
  match prompt_embeds r with
  | None => []
  | Some rows => [KBytes (concat (py_slice rows start_token_idx end_token_idx))]
  end.

(** [if (start_token_idx == 0 and request.cache_salt)]: an empty salt counts as
    no salt. *)
Definition cache_salt_keys (r : Request) (start_token_idx : Z) : list ExtraKey :=
  match cache_salt r with
  | Some salt =>
      if decide (start_token_idx = 0 ∧ salt ≠ EmptyString) then [KStr salt] else []
  | None => []
  end.

Definition generate_block_hash_extra_keys (r : Request)
    (start_token_idx end_token_idx start_mm_idx : Z)
    : res (option (list ExtraKey) * Z) :=
  match _gen_mm_extra_hash_keys r start_token_idx end_token_idx start_mm_idx with
  | Raise e => Raise e
  | Ok (mm_extra_keys, new_start_mm_idx) =>
      let extra_keys :=
        _gen_lora_extra_hash_keys r ++ mm_extra_keys
        ++ cache_salt_keys r start_token_idx
        ++ _gen_prompt_embeds_extra_hash_keys r start_token_idx end_token_idx in
      match extra_keys with
      | [] => Ok (None, new_start_mm_idx)
      | _ => Ok (Some extra_keys, new_start_mm_idx)
      end
  end.

(** ** Block hashes of a request *)

Section hasher.
Context (hash_function : bytes * list Z * option (list ExtraKey) → bytes).
Context (NONE_HASH : bytes).

(** [if not parent_block_hash]: [None] and empty bytes are both false. *)
Definition hash_block_tokens (parent_block_hash : option bytes)
    (curr_block_token_ids : list Z) (extra_keys : option (list ExtraKey)) : bytes :=
  let parent := match parent_block_hash with
                | None | Some [] => NONE_HASH
                | Some h => h
                end in
  hash_function (parent, curr_block_token_ids, extra_keys).

(** The [while True] loop of [request_block_hasher]. *)
Fixpoint hasher_loop (fuel : nat) (block_size : Z) (r : Request)
    (start_token_idx curr_mm_idx : Z) (prev_block_hash_value : option bytes)
    : res (list bytes) :=
  match fuel with
  | O => Raise OutOfFuel
  | S fuel =>
      let end_token_idx := start_token_idx + block_size in
      if decide (num_tokens r < end_token_idx) then Ok [] else
      match generate_block_hash_extra_keys r start_token_idx end_token_idx curr_mm_idx with
      | Raise e => Raise e
      | Ok (extra_keys, curr_mm_idx) =>
          let block_tokens := py_slice (_all_token_ids r) start_token_idx end_token_idx in
          let block_hash := hash_block_tokens prev_block_hash_value block_tokens extra_keys in
          match hasher_loop fuel block_size r (start_token_idx + block_size) curr_mm_idx
                  (Some block_hash) with
          | Ok hs => Ok (block_hash :: hs)
          | Raise e => Raise e
          end
      end
  end.

Definition request_block_hasher (block_size : Z) (r : Request) : res (list bytes) :=
  let start_token_idx := len (block_hashes r) * block_size in
  if decide (num_tokens r < start_token_idx + block_size) then Ok [] else
  let curr_mm_idx := if decide (0 < start_token_idx) then -1 else 0 in
  hasher_loop (S (Z.to_nat (num_tokens r))) block_size r start_token_idx curr_mm_idx
    (last (block_hashes r)).
End hasher.

(** ** [BlockHashListWithBlockSize] *)

Record BlockHashListWithBlockSize := mkHashList {
  hl_block_hashes : list bytes;
  scale_factor : Z
}.

Definition BlockHashListWithBlockSize_init (hashes : list bytes)
    (hash_block_size target_block_size : Z) : res BlockHashListWithBlockSize :=
  if decide (target_block_size mod hash_block_size = 0)
  then Ok (mkHashList hashes (target_block_size / hash_block_size))
  else Raise AssertionError.

Definition hash_list_len (l : BlockHashListWithBlockSize) : Z :=
  len (hl_block_hashes l) / scale_factor l.

(** [_get_value_at]: the concatenation of the hashes from [base] to [end]. *)
Definition _get_value_at (l : BlockHashListWithBlockSize) (idx : Z) : res bytes :=
  let base := idx * scale_factor l in
  match py_index (hl_block_hashes l) base with
  | None => Raise IndexError
  | Some h =>
      foldl (λ acc i,
               match acc, py_index (hl_block_hashes l) i with
               | Ok a, Some b => Ok (a ++ b)
               | Ok _, None => Raise IndexError
               | Raise e, _ => Raise e
               end)
        (Ok h) (py_range (base + 1) (base + scale_factor l))
  end.

(** [__iter__]: the values it yields, in order. *)
Definition hash_list_iter (l : BlockHashListWithBlockSize) : list (res bytes) :=
  map (_get_value_at l) (py_range 0 (hash_list_len l)).

(** ** [BlockHashList]: plain or converted *)

Inductive BlockHashList :=
  | HPlain (l : list bytes)
  | HScaled (l : BlockHashListWithBlockSize).

(** [block_hashes\[i\]] *)
Definition hashes_index (l : BlockHashList) (i : Z) : res bytes :=
  match l with
  | HPlain l => match py_index l i with Some h => Ok h | None => Raise IndexError end
  | HScaled l => _get_value_at l i
  end.

(** [block_hashes\[i:\]] for [0 <= i]; a converted list evaluates
    [slice.indices] against its own length. *)
Definition hashes_from (l : BlockHashList) (i : Z) : res (list bytes) :=
  match l with
  | HPlain l => Ok (py_from l i)
  | HScaled l =>
      collect (map (_get_value_at l) (py_range (Z.min i (hash_list_len l)) (hash_list_len l)))
  end.

(** * Packing round trip *)

Lemma length_be_bytes k : ∀ n, length (be_bytes k n) = k.
Proof. induction k; intros n; simpl; [done|]. rewrite length_app, IHk. simpl. lia. Qed.

Lemma int_from_bytes_snoc l x :
  int_from_bytes (l ++ [x]) = Z.lor (Z.shiftl (int_from_bytes l) 8) x.
Proof. unfold int_from_bytes. by rewrite foldl_app. Qed.

Lemma join_low_byte n : Z.lor (Z.shiftl (Z.shiftr n 8) 8) (Z.land n 255) = n.
Proof.
  change 255 with (Z.ones 8). apply Z.bits_inj'. intros i Hi.
  rewrite Z.lor_spec, Z.land_spec. destruct (Z.lt_ge_cases i 8).
  - rewrite Z.shiftl_spec_low, Z.ones_spec_low by lia. by rewrite andb_true_r.
  - rewrite Z.shiftl_spec, Z.shiftr_spec, Z.ones_spec_high by lia.
    rewrite andb_false_r, orb_false_r. f_equal. lia.
Qed.

Lemma int_from_be_bytes k : ∀ n,
  0 ≤ n < 2 ^ (8 * Z.of_nat k) → int_from_bytes (be_bytes k n) = n.
Proof.
  induction k as [|k IH]; intros n Hn.
  - simpl in *. unfold int_from_bytes. simpl. lia.
  - cbn [be_bytes]. rewrite int_from_bytes_snoc, IH; [apply join_low_byte|].
    rewrite Z.shiftr_div_pow2 by lia. split; [apply Z.div_pos; lia|].
    apply Z.div_lt_upper_bound; [lia|]. rewrite <- Z.pow_add_r by lia.
    replace (8 + 8 * Z.of_nat k) with (8 * Z.of_nat (S k)) by lia. lia.
Qed.

Lemma py_bound_neg_suffix (h g : bytes) k :
  0 < k → len g = k → py_bound (h ++ g) (- k) = length h.
Proof.
  intros Hk Hg. unfold py_bound. rewrite decide_True by lia.
  rewrite len_app. unfold len in *. lia.
Qed.

(** * The chained hashes *)

(** ** Views of the hashes at a coarser block size *)

Lemma make_key_ok h g :
  0 ≤ g < 2 ^ 32 → make_block_hash_with_group_id h g = Ok (h ++ be_bytes 4 g).
Proof.
  intros Hg. unfold make_block_hash_with_group_id, int_to_bytes. by rewrite decide_True by lia.
Qed.

Definition view_len (l : BlockHashList) : Z :=
  match l with HPlain l => len l | HScaled l => hash_list_len l end.
Definition view_ok (l : BlockHashList) : Prop :=
  match l with HPlain _ => True | HScaled l => 0 < scale_factor l end.

Lemma py_index_lt {A} (l : list A) i : 0 ≤ i < len l → is_Some (py_index l i).
Proof.
  intros Hi. rewrite py_index_nonneg by lia. apply lookup_lt_is_Some. unfold len in Hi. lia.
Qed.

Lemma get_value_at_total l idx :
  0 < scale_factor l → 0 ≤ idx < hash_list_len l → ∃ h, _get_value_at l idx = Ok h.
Proof.
  intros Hs Hi. unfold _get_value_at, hash_list_len in *.
  assert (Hb : (idx + 1) * scale_factor l ≤ len (hl_block_hashes l)).
  { pose proof (Z.mul_div_le (len (hl_block_hashes l)) (scale_factor l) Hs). nia. }
  destruct (py_index_lt (hl_block_hashes l) (idx * scale_factor l)) as [h Hh]; [nia|].
  rewrite Hh. clear Hh.
  assert (Hr : ∀ i, i ∈ py_range (idx * scale_factor l + 1) (idx * scale_factor l + scale_factor l) →
    is_Some (py_index (hl_block_hashes l) i)).
  { intros i Hir%py_range_in. apply py_index_lt. nia. }
  revert h. induction (py_range _ _) as [|i rest IH]; intros h; simpl; [eauto|].
  destruct (Hr i) as [b Hb']; [by left|]. rewrite Hb'. apply IH. intros j Hj. apply Hr. by right.
Qed.

Lemma hashes_index_ok l i :
  view_ok l → 0 ≤ i < view_len l → ∃ h, hashes_index l i = Ok h.
Proof.
  intros Hv Hi. destruct l as [l|l]; simpl in *; [|by apply get_value_at_total].
  destruct (py_index_lt l i Hi) as [h ->]. eauto.
Qed.

(** [block_hashes\[i:\]] gives the hashes at [i], [i + 1], ... *)
Lemma hashes_from_ok l i :
  view_ok l → 0 ≤ i →
  ∃ hs, hashes_from l i = Ok hs ∧ len hs = Z.max 0 (view_len l - i) ∧
    ∀ j h, hs !! j = Some h → hashes_index l (i + Z.of_nat j) = Ok h.
Proof.
  intros Hv Hi. destruct l as [l|l]; simpl in *.
  - exists (py_from l i). rewrite py_from_nonneg by done. split; [done|].
    split; [unfold len; rewrite length_drop; lia|]. intros j h. rewrite lookup_drop.
    intros Hj. rewrite py_index_nonneg by lia.
    replace (Z.to_nat (i + Z.of_nat j)) with (Z.to_nat i + j)%nat by lia. by rewrite Hj.
  - destruct (collect_total
      (map (_get_value_at l) (py_range (Z.min i (hash_list_len l)) (hash_list_len l))))
      as (hs & Hc & Hlen & Hget).
    { intros r (j & -> & Hj%py_range_in)%list_elem_of_fmap. apply get_value_at_total; [done|].
      lia. }
    exists hs. split; [done|]. rewrite length_map in Hlen.
    assert (Hl : length hs = Z.to_nat (hash_list_len l - Z.min i (hash_list_len l))).
    { rewrite Hlen. unfold py_range. by rewrite length_map, length_seq. }
    split; [unfold len; lia|]. intros j h Hj. pose proof (lookup_lt_Some _ _ _ Hj).
    apply Hget in Hj. rewrite lookup_map in Hj. unfold py_range in Hj.
    rewrite lookup_map, lookup_seq_lt in Hj by lia. simpl in Hj.
    injection Hj as <-. f_equal. lia.
Qed.

Section chain.
Context (hash_function : bytes * list Z * option (list ExtraKey) → bytes).
Context (NONE_HASH : bytes).
Let block_hash := hash_block_tokens hash_function NONE_HASH.
Let hasher := request_block_hasher hash_function NONE_HASH.

(** The reference: the hashes of a list of blocks (tokens and extra keys),
    each computed from its predecessor. *)
Fixpoint chain (prev : option bytes) (bs : list (list Z * option (list ExtraKey)))
    : list bytes :=
  match bs with
  | [] => []
  | (t, e) :: bs => let h := block_hash prev t e in h :: chain (Some h) bs
  end.

Lemma length_chain bs : ∀ prev, length (chain prev bs) = length bs.
Proof. induction bs as [|[t e] bs IH]; intros; simpl; [done|]. by rewrite IH. Qed.

Lemma last_cons_Some {A} (x : A) l : last (x :: l) = Some (default x (last l)).
Proof. rewrite last_cons. by destruct (last l). Qed.

Lemma chain_app bs1 bs2 : ∀ prev,
  chain prev (bs1 ++ bs2) =
  chain prev bs1 ++ chain (match last (chain prev bs1) with Some h => Some h | None => prev end) bs2.
Proof.
  induction bs1 as [|[t e] bs1 IH]; intros prev; simpl; [done|].
  rewrite IH. f_equal. rewrite last_cons_Some.
  by destruct (last (chain (Some (block_hash prev t e)) bs1)).
Qed.

Lemma chain_take bs : ∀ prev n, take n (chain prev bs) = chain prev (take n bs).
Proof.
  induction bs as [|[t e] bs IH]; intros prev [|n]; simpl; [done..|]. by rewrite IH.
Qed.

(** The tokens of block [i]. *)
Definition block_tokens (bs : Z) (r : Request) (i : nat) : list Z :=
  py_slice (_all_token_ids r) (Z.of_nat i * bs) (Z.of_nat i * bs + bs).

(** [hs] are the chained hashes of the first blocks of [r], for some extra
    keys. *)
Definition is_chain (bs : Z) (r : Request) (hs : list bytes) : Prop :=
  ∃ tes, hs = chain None tes ∧
    ∀ i te, tes !! i = Some te →
      te.1 = block_tokens bs r i ∧ (Z.of_nat i + 1) * bs ≤ num_tokens r.

Lemma hasher_loop_chain bs r (Hbs : 0 < bs) : ∀ fuel i mm prev hs,
  hasher_loop hash_function NONE_HASH fuel bs r (Z.of_nat i * bs) mm prev = Ok hs →
  ∃ tes, hs = chain prev tes ∧
    (∀ j te, tes !! j = Some te →
      te.1 = block_tokens bs r (i + j) ∧ (Z.of_nat (i + j) + 1) * bs ≤ num_tokens r) ∧
    num_tokens r < (Z.of_nat (i + length tes) + 1) * bs.
Proof.
  induction fuel as [|fuel IH]; intros i mm prev hs; [done|]. cbn [hasher_loop].
  destruct (decide _) as [Hend|Hend].
  { intros [= <-]. exists []. split_and!; [done..|]. simpl. rewrite Nat.add_0_r. lia. }
  destruct (generate_block_hash_extra_keys _ _ _ _) as [[ek mm']|]; [|done].
  replace (Z.of_nat i * bs + bs) with (Z.of_nat (S i) * bs) by lia.
  match goal with |- context [hasher_loop _ _ fuel bs r _ mm' (Some ?h)] =>
    destruct (hasher_loop hash_function NONE_HASH fuel bs r (Z.of_nat (S i) * bs) mm' (Some h))
      as [hs'|] eqn:Hr; [|done] end.
  intros [= <-]. destruct (IH _ _ _ _ Hr) as (tes & -> & Htes & Hlast).
  exists ((block_tokens bs r i, ek) :: tes). split_and!.
  - simpl. unfold block_tokens. by replace (Z.of_nat i * bs + bs) with (Z.of_nat (S i) * bs) by lia.
  - intros [|j] te Hj; simpl in Hj.
    + injection Hj as <-. rewrite Nat.add_0_r. split; [done|lia].
    + destruct (Htes j te Hj) as [-> Hb].
      replace (i + S j)%nat with (S i + j)%nat by lia. done.
  - simpl length. replace (i + S (length tes))%nat with (S i + length tes)%nat by lia. done.
Qed.

(** Appending tokens keeps the blocks that were complete. *)
Lemma block_tokens_append bs r r' i :
  0 < bs → (_all_token_ids r) `prefix_of` (_all_token_ids r') →
  (Z.of_nat i + 1) * bs ≤ num_tokens r →
  block_tokens bs r' i = block_tokens bs r i.
Proof.
  intros Hbs [k Hk] Hi. unfold block_tokens. rewrite !py_slice_nonneg by lia.
  rewrite Hk. rewrite take_app_le; [done|]. unfold num_tokens, len in Hi. lia.
Qed.

Lemma is_chain_mono bs r r' hs :
  0 < bs → (_all_token_ids r) `prefix_of` (_all_token_ids r') →
  is_chain bs r hs → is_chain bs r' hs.
Proof.
  intros Hbs Hp (tes & -> & Htes). exists tes. split; [done|].
  intros i te Hi. destruct (Htes i te Hi) as [-> Hb]. split.
  - symmetry. by apply block_tokens_append.
  - destruct Hp as [k Hk]. unfold num_tokens. rewrite Hk, len_app.
    unfold num_tokens in Hb. pose proof (len_nonneg k). lia.
Qed.

(** The hasher extends a chain to all the full blocks. *)
Lemma request_block_hasher_chain bs r hs :
  0 < bs → is_chain bs r (block_hashes r) → hasher bs r = Ok hs →
  is_chain bs r (block_hashes r ++ hs) ∧
  num_tokens r < (len (block_hashes r ++ hs) + 1) * bs.
Proof.
  intros Hbs (tes & Heq & Htes) Hh. unfold hasher, request_block_hasher in Hh.
  assert (Hlen : length tes = length (block_hashes r)).
  { by rewrite Heq, length_chain. }
  case_decide as Hd.
  { injection Hh as <-. rewrite app_nil_r. split; [by exists tes|].
    unfold len in *. lia. }
  unfold len in Hh at 1. apply hasher_loop_chain in Hh as (tes' & -> & Htes' & Hl); [|done].
  split.
  - exists (tes ++ tes'). split.
    + rewrite chain_app. rewrite <- Heq. f_equal. by destruct (last (block_hashes r)).
    + intros i te Hi. apply lookup_app_Some in Hi as [Hi|[Hi1 Hi2]]; [by apply Htes|].
      apply Htes' in Hi2. rewrite <- Hlen in Hi2.
      by replace (length tes + (i - length tes))%nat with i in Hi2 by lia.
  - rewrite len_app. unfold len. rewrite length_chain. lia.
Qed.

(** Every hash of a chain is made from its block and its predecessor. *)
Lemma chain_lookup bs : ∀ prev i te,
  bs !! i = Some te →
  chain prev bs !! i =
    Some (block_hash (match i with O => prev | S j => chain prev bs !! j end) te.1 te.2).
Proof.
  induction bs as [|[t e] bs IH]; intros prev i te Hi; [done|].
  destruct i as [|i]; simpl in Hi; [by injection Hi as <-|].
  cbn [chain]. rewrite lookup_cons. cbn [lookup]. rewrite (IH _ i te Hi). by destruct i.
Qed.

Section collision_free.
(** The hash function has no collisions, and neither the seed nor the
    empty string is one of its values. *)
Context (hash_inj : ∀ x y, hash_function x = hash_function y → x = y).
Context (hash_seed : ∀ x, hash_function x ≠ NONE_HASH).
Context (hash_nonempty : ∀ x, hash_function x ≠ []).

Lemma block_hash_nonempty p t e : block_hash p t e ≠ [].
Proof. apply hash_nonempty. Qed.

Lemma chain_inj bs1 bs2 : ∀ i j h,
  chain None bs1 !! i = Some h → chain None bs2 !! j = Some h →
  i = j ∧ take (S i) bs1 = take (S j) bs2.
Proof.
  assert (Hdef : ∀ bs i h, chain None bs !! i = Some h → ∃ te, bs !! i = Some te).
  { intros bs i h Hi. apply lookup_lt_is_Some. apply lookup_lt_Some in Hi.
    by rewrite length_chain in Hi. }
  assert (Hval : ∀ bs i h, chain None bs !! i = Some h → ∃ x, h = hash_function x).
  { intros bs i h Hi. destruct (Hdef _ _ _ Hi) as [te Hte].
    rewrite (chain_lookup _ _ _ _ Hte) in Hi. injection Hi as <-.
    unfold block_hash, hash_block_tokens. eauto. }
  induction i as [|i IH]; intros j h Hi Hj;
    destruct (Hdef _ _ _ Hi) as [[t1 e1] Ht1]; destruct (Hdef _ _ _ Hj) as [[t2 e2] Ht2];
    rewrite (chain_lookup _ _ _ _ Ht1) in Hi; rewrite (chain_lookup _ _ _ _ Ht2) in Hj;
    destruct j as [|j].
  - injection Hi as <-. injection Hj as Heq. simpl in Heq.
    apply hash_inj in Heq as [= -> ->]. split; [done|].
    by rewrite (take_S_r _ _ _ Ht1), (take_S_r _ _ _ Ht2).
  - exfalso. injection Hi as <-. injection Hj as Heq. simpl in Heq.
    assert (is_Some (chain None bs2 !! j)) as [h' Hh'].
    { apply lookup_lt_is_Some. rewrite length_chain. apply lookup_lt_Some in Ht2. lia. }
    rewrite Hh' in Heq. destruct (Hval _ _ _ Hh') as [x ->].
    apply hash_inj in Heq. injection Heq as Heq _ _.
    destruct (hash_function x) eqn:Hx; [by apply hash_nonempty in Hx|].
    apply (hash_seed x). congruence.
  - exfalso. injection Hi as <-. injection Hj as Heq. simpl in Heq.
    assert (is_Some (chain None bs1 !! i)) as [h' Hh'].
    { apply lookup_lt_is_Some. rewrite length_chain. apply lookup_lt_Some in Ht1. lia. }
    rewrite Hh' in Heq. destruct (Hval _ _ _ Hh') as [x ->].
    apply hash_inj in Heq. injection Heq as Heq _ _.
    destruct (hash_function x) eqn:Hx; [by apply hash_nonempty in Hx|].
    apply (hash_seed x). congruence.
  - assert (is_Some (chain None bs1 !! i)) as [h1 Hh1].
    { apply lookup_lt_is_Some. rewrite length_chain. apply lookup_lt_Some in Ht1. lia. }
    assert (is_Some (chain None bs2 !! j)) as [h2 Hh2].
    { apply lookup_lt_is_Some. rewrite length_chain. apply lookup_lt_Some in Ht2. lia. }
    injection Hi as <-. injection Hj as Heq. simpl in Heq. rewrite Hh1, Hh2 in Heq.
    apply hash_inj in Heq. injection Heq as Heq -> ->.
    assert (h1 = h2) as <-.
    { destruct (Hval _ _ _ Hh1) as [x Hx]. destruct (Hval _ _ _ Hh2) as [y Hy].
      destruct h1; [symmetry in Hx; by apply hash_nonempty in Hx|].
      destruct h2; [symmetry in Hy; by apply hash_nonempty in Hy|]. congruence. }
    destruct (IH j h1 Hh1 Hh2) as [-> Htk]. split; [done|].
    rewrite (take_S_r _ _ _ Ht1), (take_S_r _ _ _ Ht2). by f_equal.
Qed.
End collision_free.
End chain.

(** * Totality *)

Section total.
Context (hash_function : bytes * list Z * option (list ExtraKey) → bytes).
Context (NONE_HASH : bytes).

Lemma gen_mm_loop_nonneg s e fs : ∀ i, 0 ≤ i → 0 ≤ (gen_mm_loop s e fs i).2.
Proof.
  induction fs as [|f fs IH]; intros i Hi; simpl; [done|].
  repeat case_decide; simpl; try done; [apply IH; lia|].
  specialize (IH (i + 1) ltac:(lia)). by destruct (gen_mm_loop s e fs (i + 1)).
Qed.

Lemma generate_extra_keys_total r s e i :
  -1 ≤ i → ∃ ks j, generate_block_hash_extra_keys r s e i = Ok (ks, j) ∧ -1 ≤ j.
Proof.
  intros Hi. unfold generate_block_hash_extra_keys.
  assert (Hmm : ∃ ks j, _gen_mm_extra_hash_keys r s e i = Ok (ks, j) ∧ -1 ≤ j).
  { unfold _gen_mm_extra_hash_keys. destruct (last (mm_features r)) as [lf|] eqn:Hl; [|by eauto].
    case_decide; [by eauto|].
    assert (1 ≤ len (mm_features r)).
    { destruct (mm_features r); [done|]. rewrite len_cons. pose proof (len_nonneg l). lia. }
    case_decide; [rewrite decide_True by lia|];
      match goal with |- context [gen_mm_loop s e ?fs ?k] =>
        pose proof (gen_mm_loop_nonneg s e fs k ltac:(lia)) as Hk;
        destruct (gen_mm_loop s e fs k) end; simpl in Hk; eexists _, _; split; [done|lia|done|lia]. }
  destruct Hmm as (ks & j & -> & Hj).
  match goal with |- context [match ?l with [] => _ | _ => _ end] => destruct l end; eauto.
Qed.

Lemma hasher_loop_total bs r : 0 < bs → ∀ fuel start mm prev,
  0 ≤ start → -1 ≤ mm → num_tokens r - start < Z.of_nat fuel → (0 < fuel)%nat →
  ∃ hs, hasher_loop hash_function NONE_HASH fuel bs r start mm prev = Ok hs.
Proof.
  intros Hbs. induction fuel as [|fuel IH]; intros start mm prev Hs Hmm Hf Hf0; [lia|].
  cbn [hasher_loop]. case_decide as Hd; [by eauto|].
  destruct (generate_extra_keys_total r start (start + bs) mm Hmm) as (ks & j & -> & Hj).
  match goal with |- context [hasher_loop _ _ fuel _ _ _ j (Some ?h)] =>
    destruct (IH (start + bs) j (Some h)) as [hs ->]; [lia|done|lia|lia|] end.
  by eauto.
Qed.

Lemma request_block_hasher_ok bs r :
  0 < bs → ∃ hs, request_block_hasher hash_function NONE_HASH bs r = Ok hs.
Proof.
  intros Hbs. unfold request_block_hasher. case_decide; [by eauto|].
  pose proof (len_nonneg (block_hashes r)).
  apply hasher_loop_total; [done|nia|case_decide; lia|nia|lia].
Qed.
End total.

(** * Requests without multi-modal inputs *)

Section no_mm.
Context (hash_function : bytes * list Z * option (list ExtraKey) → bytes).
Context (NONE_HASH : bytes).
Context (bs : Z) (Hbs : 0 < bs).

(** The extra keys of block [i] of a request without multi-modal inputs. *)
Definition static_keys (r : Request) (i : nat) : option (list ExtraKey) :=
  let start := Z.of_nat i * bs in
  match _gen_lora_extra_hash_keys r ++ cache_salt_keys r start
        ++ _gen_prompt_embeds_extra_hash_keys r start (start + bs) with
  | [] => None
  | ks => Some ks
  end.

(** The full blocks of a request, each with its keys. *)
Definition full_blocks (r : Request) : list (list Z * option (list ExtraKey)) :=
  map (λ i, (block_tokens bs r i, static_keys r i)) (seq 0 (Z.to_nat (num_tokens r / bs))).

(** The hashes of a request computed from scratch. *)
Definition scratch_hashes (r : Request) : list bytes :=
  chain hash_function NONE_HASH None (full_blocks r).

Lemma generate_no_mm r i mm :
  mm_features r = [] →
  generate_block_hash_extra_keys r (Z.of_nat i * bs) (Z.of_nat i * bs + bs) mm =
    Ok (static_keys r i, mm).
Proof.
  intros Hmm. unfold generate_block_hash_extra_keys, _gen_mm_extra_hash_keys, static_keys.
  rewrite Hmm. simpl.
  match goal with |- context [match ?l with [] => _ | _ => _ end] => destruct l end; done.
Qed.

Lemma hasher_loop_no_mm r mm : mm_features r = [] → ∀ n fuel i prev,
  (Z.of_nat (i + n)) * bs ≤ num_tokens r < (Z.of_nat (i + n) + 1) * bs → (n < fuel)%nat →
  hasher_loop hash_function NONE_HASH fuel bs r (Z.of_nat i * bs) mm prev =
    Ok (chain hash_function NONE_HASH prev
          (map (λ i, (block_tokens bs r i, static_keys r i)) (seq i n))).
Proof.
  intros Hmm. induction n as [|n IH]; intros fuel i prev Hn Hf;
    (destruct fuel as [|fuel]; [lia|]); cbn [hasher_loop].
  - rewrite decide_True by (rewrite Nat.add_0_r in Hn; lia). done.
  - rewrite decide_False by lia. rewrite generate_no_mm by done.
    replace (Z.of_nat i * bs + bs) with (Z.of_nat (S i) * bs) by lia.
    rewrite IH; [|replace (S i + n)%nat with (i + S n)%nat by lia; done|lia].
    assert (Hbt : py_slice (_all_token_ids r) (Z.of_nat i * bs) (Z.of_nat (S i) * bs)
                  = block_tokens bs r i) by (unfold block_tokens; f_equal; lia).
    by rewrite Hbt.
Qed.

(** Whatever blocks are hashed already, the hasher gives the others. *)
Lemma request_block_hasher_no_mm r k :
  mm_features r = [] → Z.of_nat k * bs ≤ num_tokens r →
  block_hashes r = chain hash_function NONE_HASH None (take k (full_blocks r)) →
  ∃ hs, request_block_hasher hash_function NONE_HASH bs r = Ok hs ∧
    block_hashes r ++ hs = scratch_hashes r.
Proof.
  intros Hmm Hk Hbh.
  pose proof (Z.div_mod (num_tokens r) bs ltac:(lia)) as Hdm.
  pose proof (Z.mod_pos_bound (num_tokens r) bs ltac:(lia)) as Hmb.
  set (q := num_tokens r / bs) in *.
  assert (Hq : Z.of_nat k ≤ q) by nia.
  assert (Hlen : length (full_blocks r) = Z.to_nat q)
    by (unfold full_blocks; by rewrite length_map, length_seq).
  assert (Hlb : len (block_hashes r) = Z.of_nat k).
  { rewrite Hbh. unfold len. rewrite length_chain, length_take, Hlen. lia. }
  unfold request_block_hasher. rewrite Hlb.
  assert (Hsplit : scratch_hashes r = block_hashes r ++
    chain hash_function NONE_HASH (last (block_hashes r)) (drop k (full_blocks r))).
  { unfold scratch_hashes. rewrite <- (take_drop k (full_blocks r)) at 1.
    rewrite chain_app, <- Hbh. f_equal. by destruct (last (block_hashes r)). }
  case_decide as Hd.
  - exists []. split; [done|]. rewrite Hsplit. f_equal.
    rewrite drop_ge; [done|]. rewrite Hlen. nia.
  - pose proof (hasher_loop_no_mm r (if decide (0 < Z.of_nat k * bs) then -1 else 0) Hmm
      (Z.to_nat q - k) (S (Z.to_nat (num_tokens r))) k (last (block_hashes r))) as Hl.
    rewrite Hl; [|nia|nia].
    eexists. split; [done|]. rewrite Hsplit. do 2 f_equal.
    unfold full_blocks. rewrite skipn_map, skipn_seq. done.
Qed.

(** Full blocks of an extended request. *)
Lemma full_blocks_append r r' :
  _all_token_ids r `prefix_of` _all_token_ids r' →
  lora_request r' = lora_request r → cache_salt r' = cache_salt r →
  prompt_embeds r' = prompt_embeds r →
  full_blocks r = take (Z.to_nat (num_tokens r / bs)) (full_blocks r').
Proof.
  intros Hp Hl Hc Hpe. unfold full_blocks. rewrite firstn_map, take_seq.
  assert (num_tokens r ≤ num_tokens r').
  { destruct Hp as [k Hk]. unfold num_tokens. rewrite Hk, len_app.
    pose proof (len_nonneg k). lia. }
  pose proof (Z.div_le_mono (num_tokens r) (num_tokens r') bs ltac:(lia) ltac:(lia)).
  rewrite Nat.min_l by lia. apply map_ext_in. intros i Hi%in_seq.
  pose proof (Z.div_mod (num_tokens r) bs ltac:(lia)).
  pose proof (Z.mod_pos_bound (num_tokens r) bs ltac:(lia)).
  f_equal.
  - symmetry. apply block_tokens_append; [done|done|nia].
  - unfold static_keys, _gen_lora_extra_hash_keys, cache_salt_keys,
      _gen_prompt_embeds_extra_hash_keys. by rewrite Hl, Hc, Hpe.
Qed.
End no_mm.

(** * Requests hashed along their life *)

Lemma take_drop_blocks bs r1 r2 n :
  0 < bs → Z.of_nat n * bs ≤ num_tokens r1 → Z.of_nat n * bs ≤ num_tokens r2 →
  (∀ i, (i < n)%nat → block_tokens bs r1 i = block_tokens bs r2 i) →
  take (Z.to_nat (Z.of_nat n * bs)) (_all_token_ids r1) =
  take (Z.to_nat (Z.of_nat n * bs)) (_all_token_ids r2).
Proof.
  intros Hbs. induction n as [|n IH]; intros H1 H2 Heq; [by rewrite !take_0|].
  assert (Hb : ∀ l : list Z, take (Z.to_nat (Z.of_nat (S n) * bs)) l =
    take (Z.to_nat (Z.of_nat n * bs)) l ++ py_slice l (Z.of_nat n * bs) (Z.of_nat n * bs + bs)).
  { intros l. rewrite py_slice_nonneg by lia.
    replace (Z.of_nat (S n) * bs) with (Z.of_nat n * bs + bs) by lia.
    rewrite <- (take_drop (Z.to_nat (Z.of_nat n * bs)) (take (Z.to_nat (Z.of_nat n * bs + bs)) l)) at 1.
    rewrite take_take. by rewrite Nat.min_l by lia. }
  rewrite !Hb. f_equal; [apply IH; [lia|lia|]; intros; apply Heq; lia|].
  apply (Heq n). lia.
Qed.

Section lifecycle.
Context (hash_function : bytes * list Z * option (list ExtraKey) → bytes).
Context (NONE_HASH : bytes).
Context (bs : Z) (Hbs : 0 < bs).
Let hasher := request_block_hasher hash_function NONE_HASH bs.

(** The requests an engine with prefix caching handles: created with the
    block hasher, extended with output tokens, and otherwise updated without
    touching the tokens, the hashes or what the hashes depend on. *)
Inductive hashed : Request → Prop :=
  | hashed_init id obj client prompt sp pp eos arrival embeds mm lora salt prio r :
      Request_init id obj client prompt sp pp eos arrival embeds mm lora salt prio
        (Some hasher) = Ok r →
      hashed r
  | hashed_append toks r r' :
      hashed r → append_output_token_ids hasher toks r = Ok r' → hashed r'
  | hashed_update r r' :
      hashed r →
      _all_token_ids r' = _all_token_ids r → block_hashes r' = block_hashes r →
      has_block_hasher r' = has_block_hasher r → mm_features r' = mm_features r →
      lora_request r' = lora_request r → cache_salt r' = cache_salt r →
      prompt_embeds r' = prompt_embeds r → hashed r'.

Record hash_inv (r : Request) : Prop := {
  hi_hasher : has_block_hasher r = true;
  hi_chain : is_chain hash_function NONE_HASH bs r (block_hashes r);
  hi_full : num_tokens r < (len (block_hashes r) + 1) * bs;
  hi_scratch : mm_features r = [] →
    block_hashes r = scratch_hashes hash_function NONE_HASH bs r
}.

(** One call of the hasher on a request whose first blocks are hashed. *)
Lemma hash_inv_extend r hs :
  has_block_hasher r = true → is_chain hash_function NONE_HASH bs r (block_hashes r) →
  (mm_features r = [] → ∃ k, Z.of_nat k * bs ≤ num_tokens r ∧
     block_hashes r = chain hash_function NONE_HASH None (take k (full_blocks bs r))) →
  hasher r = Ok hs →
  ∀ r', _all_token_ids r' = _all_token_ids r → block_hashes r' = block_hashes r ++ hs →
    has_block_hasher r' = true → mm_features r' = mm_features r →
    lora_request r' = lora_request r → cache_salt r' = cache_salt r →
    prompt_embeds r' = prompt_embeds r → hash_inv r'.
Proof.
  intros Hh Hc Hs Hrun r' Htok Hbh Hh' Hmm Hl Hsalt Hpe.
  destruct (request_block_hasher_chain _ _ _ _ _ Hbs Hc Hrun) as [Hc' Hf].
  assert (Hn : num_tokens r' = num_tokens r) by (unfold num_tokens; by rewrite Htok).
  split; [done| | |].
  - rewrite Hbh. eapply is_chain_mono; [done| |done]. by rewrite Htok.
  - by rewrite Hbh, Hn.
  - rewrite Hmm, Hbh. intros Hmm0. destruct (Hs Hmm0) as (k & Hk & Hbk).
    destruct (request_block_hasher_no_mm hash_function NONE_HASH bs Hbs r k Hmm0 Hk Hbk)
      as (hs' & Hrun' & Heq).
    unfold hasher in Hrun. rewrite Hrun in Hrun'. injection Hrun' as <-. rewrite Heq.
    unfold scratch_hashes. rewrite (full_blocks_append bs Hbs r' r); [|by rewrite Htok|done..].
    rewrite take_ge; [done|]. unfold full_blocks. rewrite length_map, length_seq, Hn. lia.
Qed.

Lemma hashed_inv r : hashed r → hash_inv r.
Proof.
  induction 1 as [id obj client prompt sp pp eos arrival embeds mm lora salt prio r Hr
                 |toks r r' _ IH Hr|r r' _ IH Ht Hb Hh Hmm Hl Hs Hp].
  - unfold Request_init in Hr. destruct (init_max_tokens_status sp pp) as [[m st]|]; [|done].
    destruct (length_from_prompt_token_ids_or_embeds prompt embeds) as [n|]; [|done].
    match type of Hr with match ?h ?r0 with _ => _ end = _ => set (r1 := r0) in * end.
    destruct (hasher r1) as [hs|] eqn:Hrun; [|done]. injection Hr as <-.
    apply (hash_inv_extend r1 hs); try done; [by exists []|].
    intros _. exists 0%nat. split; [|done]. pose proof (len_nonneg (_all_token_ids r1)).
    unfold num_tokens. lia.
  - unfold append_output_token_ids in Hr. simpl in Hr. rewrite (hi_hasher _ IH) in Hr.
    match type of Hr with match hasher ?r0 with _ => _ end = _ => set (r1 := r0) in * end.
    destruct (hasher r1) as [hs|] eqn:Hrun; [|done]. injection Hr as <-.
    assert (Hpre : _all_token_ids r `prefix_of` _all_token_ids r1) by (by exists toks).
    assert (Hb1 : has_block_hasher r1 = true) by apply IH.
    apply (hash_inv_extend r1 hs); try done.
    + eapply is_chain_mono; [done|exact Hpre|apply IH].
    + intros Hmm. exists (Z.to_nat (num_tokens r / bs)).
      assert (num_tokens r ≤ num_tokens r1).
      { unfold num_tokens. simpl. rewrite len_app. pose proof (len_nonneg toks). lia. }
      pose proof (Z.div_mod (num_tokens r) bs ltac:(lia)).
      pose proof (Z.mod_pos_bound (num_tokens r) bs ltac:(lia)).
      assert (0 ≤ num_tokens r) by apply len_nonneg.
      split; [nia|]. rewrite <- (full_blocks_append bs Hbs r r1 Hpre) by done.
      change (block_hashes r1) with (block_hashes r). apply (hi_scratch _ IH). done.
  - assert (Hn : num_tokens r' = num_tokens r) by (unfold num_tokens; by rewrite Ht).
    split.
    + rewrite Hh. apply IH.
    + rewrite Hb. eapply is_chain_mono; [done| |apply IH]. by rewrite Ht.
    + rewrite Hn, Hb. apply IH.
    + rewrite Hmm, Hb. intros Hmm0. rewrite (hi_scratch _ IH Hmm0).
      unfold scratch_hashes. rewrite (full_blocks_append bs Hbs r r'); [|by rewrite Ht|done..].
      rewrite take_ge; [done|]. unfold full_blocks. rewrite length_map, length_seq, Hn. lia.
Qed.

(** C26. Prefix-cache keys identify prefixes: with a collision-free hash
    function, if block [i] of one request and block [j] of another have the
    same hash (at any time of their lives, multi-modal or not), then
    [i = j] and the two requests have the same tokens up to the end of that
    block. *)
Theorem block_hash_identifies_prefix
    (hash_inj : ∀ x y, hash_function x = hash_function y → x = y)
    (hash_seed : ∀ x, hash_function x ≠ NONE_HASH)
    (hash_nonempty : ∀ x, hash_function x ≠ []) r1 r2 i j h :
  hashed r1 → hashed r2 →
  block_hashes r1 !! i = Some h → block_hashes r2 !! j = Some h →
  i = j ∧ take (Z.to_nat ((Z.of_nat i + 1) * bs)) (_all_token_ids r1) =
          take (Z.to_nat ((Z.of_nat i + 1) * bs)) (_all_token_ids r2).
Proof.
  intros [_ (tes1 & E1 & H1) _ _]%hashed_inv [_ (tes2 & E2 & H2) _ _]%hashed_inv Hi Hj.
  rewrite E1 in Hi. rewrite E2 in Hj.
  destruct (chain_inj _ _ hash_inj hash_seed hash_nonempty _ _ _ _ _ Hi Hj) as [-> Htk].
  split; [done|].
  assert (Hte : ∀ k, (k < S j)%nat → ∃ te, tes1 !! k = Some te ∧ tes2 !! k = Some te).
  { intros k Hk. apply lookup_lt_Some in Hi. rewrite length_chain in Hi.
    destruct (lookup_lt_is_Some_2 tes1 k ltac:(lia)) as [te Hte]. exists te. split; [done|].
    rewrite <- (lookup_take_lt tes2 (S j)) by lia. rewrite <- Htk.
    by rewrite lookup_take_lt by lia. }
  replace (Z.of_nat j + 1) with (Z.of_nat (S j)) by lia.
  destruct (Hte j ltac:(lia)) as (te & T1 & T2).
  apply take_drop_blocks; [done|..].
  - destruct (H1 _ _ T1). lia.
  - destruct (H2 _ _ T2). lia.
  - intros k Hk. destruct (Hte k Hk) as (te' & T1' & T2').
    destruct (H1 _ _ T1') as [<- _]. by destruct (H2 _ _ T2') as [<- _].
Qed.

(** C27. Incremental hashing is hashing from scratch: for a request without
    multi-modal inputs, at any time of its life, [block_hashes] is the list
    of hashes of all its full blocks as computed in one go, however its
    tokens arrived. *)
Theorem incremental_hashing_is_scratch r :
  hashed r → mm_features r = [] →
  block_hashes r = scratch_hashes hash_function NONE_HASH bs r ∧
  len (block_hashes r) = num_tokens r / bs.
Proof.
  intros [_ _ _ Hs]%hashed_inv Hmm. rewrite Hs by done. split; [done|].
  unfold scratch_hashes, len. rewrite length_chain. unfold full_blocks.
  rewrite length_map, length_seq. apply Z2Nat.id, Z.div_pos; [apply len_nonneg|done].
Qed.
End lifecycle.

(** The hasher returns for every request and every positive block size:
    its loop never runs out of fuel and no branch raises. *)
Theorem request_block_hasher_total hash_function NONE_HASH bs r (Hbs : 0 < bs) :
  ∃ hs, request_block_hasher hash_function NONE_HASH bs r = Ok hs.
Proof. by apply request_block_hasher_ok. Qed.

(** Packing a block hash with its group id can be undone: both components
    are recovered for every group id that fits in 4 bytes, and any other group
    id raises [OverflowError]. *)
Theorem block_hash_group_id_roundtrip (h : bytes) (g : Z) :
  match make_block_hash_with_group_id h g with
  | Ok key => 0 ≤ g < 2 ^ 32 ∧ get_block_hash key = h ∧ get_group_id key = g
  | Raise e => e = OverflowError ∧ ¬ (0 ≤ g < 2 ^ 32)
  end.
Proof.
  unfold make_block_hash_with_group_id, int_to_bytes.
  change (8 * Z.of_nat 4) with 32. case_decide as Hg; [|done].
  assert (Hlen : len (be_bytes 4 g) = 4) by (unfold len; by rewrite length_be_bytes).
  split; [done|]. unfold get_block_hash, get_group_id, py_upto, py_from.
  pose proof (py_bound_neg_suffix h (be_bytes 4 g) 4 ltac:(lia) Hlen) as Hb.
  change (- (4)) with (-4) in Hb. rewrite Hb.
  rewrite take_app_length, drop_app_length. split; [done|].
  by apply int_from_be_bytes.
Qed.

(** ** Multi-modal requests *)

(** A concrete collision-free hash function: it encodes its argument. *)
#[export] Instance ExtraKey_eq_dec : EqDecision ExtraKey.
Proof. solve_decision. Defined.
#[export] Instance ExtraKey_countable : Countable ExtraKey.
Proof.
  refine (inj_countable' (λ k, match k with KStr s => inl s | KBytes b => inr b end)
            (λ k, match k with inl s => KStr s | inr b => KBytes b end) _).
  by intros [].
Defined.

Definition encode_hash (x : bytes * list Z * option (list ExtraKey)) : bytes :=
  let '(p, t, e) := x in 1 :: len p :: p ++ len t :: t ++ [Zpos (encode e)].
Definition example_seed : bytes := [0].

Lemma encode_hash_inj x y : encode_hash x = encode_hash y → x = y.
Proof.
  destruct x as [[p t] e], y as [[p' t'] e']. simpl. intros [= Hp Heq].
  unfold len in *. apply app_inj_1 in Heq as [-> [= Ht Heq]]; [|lia].
  apply app_inj_1 in Heq as [-> [= He]]; [|lia]. apply (inj encode) in He. by subst.
Qed.
Lemma encode_hash_seed x : encode_hash x ≠ example_seed.
Proof. by destruct x as [[? ?] ?]. Qed.
Lemma encode_hash_nonempty x : encode_hash x ≠ [].
Proof. by destruct x as [[? ?] ?]. Qed.

Definition example_params : SamplingParams := mkSampling (Some 8) 0 false None false None.
(** Two placeholders of two tokens each in the second block of four tokens. *)
Definition two_images (first : string) : list MultiModalFeatureSpec :=
  [mkFeature first (mkPlaceholder 4 1 None);
   mkFeature "second" (mkPlaceholder 6 1 None)].
Definition image_request (H : bytes * list Z * option (list ExtraKey) → bytes)
    (seed : bytes) (first : string) (prompt : list Z) : res Request :=
  Request_init "r" 0 0 (Some prompt) (Some example_params) None None 0 None
    (two_images first) None None 0 (Some (request_block_hasher H seed 4)).

(** The shortcut [curr_mm_idx = -1] drops multi-modal keys: a request whose
    prompt ends inside a block that holds two images gets, once generated
    tokens complete that block, a hash that does not depend on the first
    image.  Two such requests that differ in that image have equal block
    hashes, for every hash function; hashed from scratch, with a
    collision-free function, their hashes differ. *)
Theorem incremental_hash_forgets_image H seed :
  (∃ ra rb ra' rb',
     image_request H seed "cat" [1; 2; 3; 4; 9; 5; 9] = Ok ra ∧
     image_request H seed "dog" [1; 2; 3; 4; 9; 5; 9] = Ok rb ∧
     append_output_token_ids (request_block_hasher H seed 4) [7] ra = Ok ra' ∧
     append_output_token_ids (request_block_hasher H seed 4) [7] rb = Ok rb' ∧
     mm_features ra' ≠ mm_features rb' ∧
     length (block_hashes ra') = 2%nat ∧ block_hashes ra' = block_hashes rb') ∧
  ((∀ x y, H x = H y → x = y) →
   ∀ ra rb,
     image_request H seed "cat" [1; 2; 3; 4; 9; 5; 9; 7] = Ok ra →
     image_request H seed "dog" [1; 2; 3; 4; 9; 5; 9; 7] = Ok rb →
     block_hashes ra ≠ block_hashes rb).
Proof.
  split.
  - eexists _, _, _, _. do 4 (split; [vm_compute; reflexivity|]).
    split; [discriminate|]. split; reflexivity.
  - intros Hinj ra rb Ha Hb. vm_compute in Ha, Hb. injection Ha as <-. injection Hb as <-.
    simpl. intros Heq. injection Heq as Heq. apply Hinj in Heq. discriminate.
Qed.

Definition example_request (prompt : list Z) : res Request :=
  Request_init "r" 0 0 (Some prompt) (Some example_params) None None 0 None
    [] None None 0 (Some (request_block_hasher encode_hash example_seed 2)).

Lemma example_hashed prompt r :
  example_request prompt = Ok r → hashed encode_hash example_seed 2 r.
Proof. apply hashed_init. Qed.

Lemma block_hash_identifies_prefix_witness :
  ∃ r1 r2 h,
    example_request [5; 6; 7; 8] = Ok r1 ∧ example_request [5; 6; 9] = Ok r2 ∧
    block_hashes r1 !! 0%nat = Some h ∧ block_hashes r2 !! 0%nat = Some h ∧
    take 2 (_all_token_ids r1) = take 2 (_all_token_ids r2).
Proof.
  eexists _, _, _. do 2 (split; [vm_compute; reflexivity|]).
  do 2 (split; [reflexivity|]).
  refine (proj2 (block_hash_identifies_prefix encode_hash example_seed 2 _
    encode_hash_inj encode_hash_seed encode_hash_nonempty _ _ 0 0 _ _ _ _ _)).
  - reflexivity.
  - apply (example_hashed [5; 6; 7; 8]). reflexivity.
  - apply (example_hashed [5; 6; 9]). reflexivity.
  - reflexivity.
  - reflexivity.
Defined.

Lemma incremental_hashing_is_scratch_witness :
  ∃ r r', example_request [5; 6; 7] = Ok r ∧
    append_output_token_ids (request_block_hasher encode_hash example_seed 2) [8] r = Ok r' ∧
    block_hashes r' = scratch_hashes encode_hash example_seed 2 r'.
Proof.
  eexists _, _. do 2 (split; [vm_compute; reflexivity|]).
  refine (proj1 (incremental_hashing_is_scratch encode_hash example_seed 2 _ _ _ _)).
  - reflexivity.
  - apply (hashed_append _ _ _ [8] _ _ (example_hashed [5; 6; 7] _ eq_refl) eq_refl).
  - reflexivity.
Defined.

Lemma request_block_hasher_total_witness :
  ∃ r, example_request [5; 6; 7] = Ok r ∧
    ∃ hs, request_block_hasher encode_hash example_seed 2 r = Ok hs.
Proof.
  eexists. split; [vm_compute; reflexivity|]. apply request_block_hasher_total. reflexivity.
Defined.
