(* ===== verification/KVCacheMetrics.v ===== *)
(** Residency metrics of KV-cache blocks (vllm/v1/core/kv_cache_metrics.py).

    The collector reads the clock and the random generator.  Both are inputs
    of the model: [clock] holds the coming values of [time.monotonic_ns()] and
    [draws] the coming outcomes of [random.random() < sample_rate]; when a
    stream is used up its last value (no sampling) repeats.  Durations are
    kept in nanoseconds; the code divides them by 1e9. *)

From S2P Require Import Prelude.

Record BlockMetricsState := mkMetricsState {
  birth_time_ns : Z;
  last_access_ns : Z;
  access_history : list Z      (** [deque(maxlen=4)] *)
}.

Record KVCacheEvictionEvent := mkEvictionEvent {
  lifetime_ns : Z;
  idle_ns : Z;
  reuse_gaps_ns : list Z
}.

Record KVCacheMetricsCollector := mkCollector {
  block_metrics : gmap Z BlockMetricsState;
  _eviction_events : list KVCacheEvictionEvent;
  clock : list Z;
  draws : list bool
}.

Definition KVCacheMetricsCollector_init (clk : list Z) (drw : list bool)
    : KVCacheMetricsCollector := mkCollector ∅ [] clk drw.

(** [time.monotonic_ns()] *)
Definition now_ns (c : KVCacheMetricsCollector) : Z * KVCacheMetricsCollector :=
  match clock c with
  | [] => (0, c)
  | [t] => (t, c)
  | t :: rest => (t, mkCollector (block_metrics c) (_eviction_events c) rest (draws c))
  end.

Definition should_sample_block (c : KVCacheMetricsCollector)
    : bool * KVCacheMetricsCollector :=
  match draws c with
  | [] => (false, c)
  | b :: rest => (b, mkCollector (block_metrics c) (_eviction_events c) (clock c) rest)
  end.

Definition set_block_metrics (m : gmap Z BlockMetricsState) (c : KVCacheMetricsCollector)
    : KVCacheMetricsCollector :=
  mkCollector m (_eviction_events c) (clock c) (draws c).

(** [deque(maxlen=4).append] *)
Definition history_append (h : list Z) (t : Z) : list Z :=
  let h := h ++ [t] in drop (length h - 4) h.

Definition record_access (t : Z) (m : BlockMetricsState) : BlockMetricsState :=
  mkMetricsState (birth_time_ns m) t (history_append (access_history m) t).

(** [get_reuse_gaps_seconds], in nanoseconds *)
Fixpoint gaps (h : list Z) : list Z :=
  match h with
  | a :: ((b :: _) as rest) => (b - a) :: gaps rest
  | _ => []
  end.
Definition get_reuse_gaps (m : BlockMetricsState) : list Z :=
  if decide (len (access_history m) < 2) then [] else gaps (access_history m).

Definition on_block_allocated (id : Z) (c : KVCacheMetricsCollector)
    : KVCacheMetricsCollector :=
  let '(sample, c) := should_sample_block c in
  if sample : bool then
    let '(t, c) := now_ns c in
    set_block_metrics (<[id := mkMetricsState t t []]> (block_metrics c)) c
  else c.

Definition on_block_accessed (id : Z) (c : KVCacheMetricsCollector)
    : KVCacheMetricsCollector :=
  match block_metrics c !! id with
  | None => c
  | Some m =>
      let '(t, c) := now_ns c in
      set_block_metrics (<[id := record_access t m]> (block_metrics c)) c
  end.

Definition on_block_evicted (id : Z) (c : KVCacheMetricsCollector)
    : KVCacheMetricsCollector :=
  match block_metrics c !! id with
  | None => c
  | Some m =>
      let c := set_block_metrics (delete id (block_metrics c)) c in
      let '(t1, c) := now_ns c in
      let '(t2, c) := now_ns c in
      mkCollector (block_metrics c)
        (_eviction_events c ++
           [mkEvictionEvent (t1 - birth_time_ns m) (t2 - last_access_ns m) (get_reuse_gaps m)])
        (clock c) (draws c)
  end.

Definition reset (c : KVCacheMetricsCollector) : KVCacheMetricsCollector :=
  mkCollector ∅ [] (clock c) (draws c).

Definition drain_events (c : KVCacheMetricsCollector)
    : list KVCacheEvictionEvent * KVCacheMetricsCollector :=
  (_eviction_events c, mkCollector (block_metrics c) [] (clock c) (draws c)).
