(* ===== verification/BlockPool.v ===== *)
(** The block pool (vllm/v1/core/block_pool.py): reference-counted KV-cache
    blocks, the free queue in eviction order, and the prefix-cache map from
    block hashes to blocks.

    The pool holds the object store of [KVBlocks] (its blocks and its free
    queue), so a block shared by several requests is one location whose
    mutations all of them see.  [pool_wf p free] is the invariant: the free
    queue is the list [free] of the blocks with reference count 0, and the
    prefix-cache map is exactly the inverse of the hashes stored in the
    blocks. *)

From S2P Require Import Prelude.
From S2P Require Import KVBlocks.
From S2P Require Import Request.
From S2P Require Import BlockHash.
From S2P Require Import KVCacheMetrics.

(** ** Events (vllm/distributed/kv_events.py) *)

Record BlockStored := mkBlockStored {
  bs_block_hashes : list ExternalBlockHash;
  bs_parent_block_hash : option ExternalBlockHash;
  bs_token_ids : list Z;
  bs_block_size : Z;
  bs_lora_id : option Z;
  bs_medium : string;
  bs_lora_name : option string
}.

Inductive KVCacheEvent :=
  | EvBlockStored (e : BlockStored)
  | EvBlockRemoved (block_hashes : list ExternalBlockHash) (medium : string)
  | EvAllBlocksCleared.

Definition MEDIUM_GPU : string := "GPU".

(** ** [BlockHashToBlockMap] *)

(** [KVCacheBlock | dict\[int, KVCacheBlock\]]; the dict keeps its insertion
    order. *)
Inductive CachedBlocks :=
  | One (b : loc)
  | Many (d : list (Z * loc)).

Abbreviation BlockHashToBlockMap := (gmap bytes CachedBlocks).

(** [d\[k\] = v] and [d.pop(k, None)] on an insertion-ordered dict. *)
Fixpoint dict_set (k : Z) (v : loc) (d : list (Z * loc)) : list (Z * loc) :=
  match d with
  | [] => [(k, v)]
  | (k', v') :: d => if decide (k' = k) then (k, v) :: d else (k', v') :: dict_set k v d
  end.
Fixpoint dict_pop (k : Z) (d : list (Z * loc)) : option loc * list (Z * loc) :=
  match d with
  | [] => (None, [])
  | (k', v') :: d =>
      if decide (k' = k) then (Some v', d)
      else let '(r, d) := dict_pop k d in (r, (k', v') :: d)
  end.

(** ** The pool *)

Record BlockPool := mkPool {
  mem : store;
  num_gpu_blocks : Z;
  enable_caching : bool;
  hash_block_size : Z;
  blocks : list loc;
  cached_block_hash_to_block : BlockHashToBlockMap;
  null_block : loc;
  enable_kv_cache_events : bool;
  kv_event_queue : list KVCacheEvent;
  metrics_collector : option KVCacheMetricsCollector;
  use_int_block_hashes : bool      (** VLLM_KV_EVENTS_USE_INT_BLOCK_HASHES *)
}.

Definition BlockPool_eta (p : BlockPool) : BlockPool :=
  mkPool (mem p) (num_gpu_blocks p) (enable_caching p) (hash_block_size p) (blocks p)
    (cached_block_hash_to_block p) (null_block p) (enable_kv_cache_events p)
    (kv_event_queue p) (metrics_collector p) (use_int_block_hashes p).
Definition set_mem (v : store) : BlockPool → BlockPool :=
  ltac:(record_set BlockPool_eta mem v).
Definition set_cache (v : BlockHashToBlockMap) : BlockPool → BlockPool :=
  ltac:(record_set BlockPool_eta cached_block_hash_to_block v).
Definition set_null_block (v : loc) : BlockPool → BlockPool :=
  ltac:(record_set BlockPool_eta null_block v).
Definition set_kv_event_queue (v : list KVCacheEvent) : BlockPool → BlockPool :=
  ltac:(record_set BlockPool_eta kv_event_queue v).
Definition set_metrics (v : option KVCacheMetricsCollector) : BlockPool → BlockPool :=
  ltac:(record_set BlockPool_eta metrics_collector v).

(** Access to the object store from the pool. *)
Definition on_mem {A} (m : M store A) : M BlockPool A := zoom mem set_mem m.
Definition block (l : loc) : M BlockPool KVCacheBlock := on_mem (rd l).
Definition update_block (l : loc) (f : KVCacheBlock → KVCacheBlock) : M BlockPool unit :=
  on_mem (upd l f).
Definition modify_cache (f : BlockHashToBlockMap → BlockHashToBlockMap) : M BlockPool unit :=
  modify (λ p, set_cache (f (cached_block_hash_to_block p)) p).
Definition push_event (e : KVCacheEvent) : M BlockPool unit :=
  modify (λ p, set_kv_event_queue (kv_event_queue p ++ [e]) p).
(** [if self.metrics_collector: self.metrics_collector.f(block)] *)
Definition metrics (f : Z → KVCacheMetricsCollector → KVCacheMetricsCollector) (l : loc)
    : M BlockPool unit :=
  let* b := block l in
  modify (λ p, set_metrics (f (block_id b) <$> metrics_collector p) p).

Module BlockHashToBlock.

Definition get_one_block (key : bytes) : M BlockPool (option loc) :=
  let* cache := gets cached_block_hash_to_block in
  match cache !! key with
  | None => ret None
  | Some (One b) => ret (Some b)
  | Some (Many ((_, b) :: _)) => ret (Some b)
  | Some (Many []) => raise StopIteration
  end.

Definition insert (key : bytes) (b : loc) : M BlockPool unit :=
  let* cache := gets cached_block_hash_to_block in
  match cache !! key with
  | None => modify_cache <[key := One b]>
  | Some (One b0) =>
      let* o := block b0 in
      let* n := block b in
      modify_cache <[key := Many (dict_set (block_id n) b [(block_id o, b0)])]>
  | Some (Many d) =>
      let* n := block b in
      modify_cache <[key := Many (dict_set (block_id n) b d)]>
  end.

Definition pop (key : bytes) (id : Z) : M BlockPool (option loc) :=
  let* cache := gets cached_block_hash_to_block in
  match cache !! key with
  | None => ret None
  | Some (One b0) =>
      modify_cache (delete key) ;;;
      let* o := block b0 in
      if decide (block_id o = id) then ret (Some b0)
      else modify_cache <[key := One b0]> ;;; ret None
  | Some (Many d) =>
      modify_cache (delete key) ;;;
      let '(r, d) := dict_pop id d in
      (if decide (0 < len d) then modify_cache <[key := Many d]> else ret tt) ;;;
      ret r
  end.

End BlockHashToBlock.

(** [__init__]: one object per block, the queue over all of them, and the
    first one taken as the null block. *)
Definition alloc_blocks (n : nat) : M store (list loc) :=
  mapM (λ i, alloc (new_block (Z.of_nat i))) (seq 0 n).

Definition BlockPool_init (n : Z) (caching : bool) (hash_size : Z) (events int_hashes : bool)
    (mc : option KVCacheMetricsCollector) : res BlockPool :=
  if decide (0 < n) then
    let m : M store (list loc * loc) :=
      let* bs := alloc_blocks (Z.to_nat n) in
      FreeQueue.init bs ;;;
      let* null := FreeQueue.popleft in
      upd null (set_is_null true) ;;;
      ret (bs, null) in
    match m empty_store with
    | (Ok (bs, null), s) => Ok (mkPool s n caching hash_size bs ∅ null events [] mc int_hashes)
    | (Raise e, _) => Raise e
    end
  else Raise AssertionError.

Definition get_num_free_blocks (p : BlockPool) : Z := num_free_blocks (queue (mem p)).

(** Lift a result without effect. *)
Definition group_key (block_hash : bytes) (group_id : Z) : M BlockPool bytes :=
  of_res (make_block_hash_with_group_id block_hash group_id).

Fixpoint get_cached_block (block_hash : bytes) (kv_cache_group_ids : list Z)
    : M BlockPool (option (list loc)) :=
  match kv_cache_group_ids with
  | [] => ret (Some [])
  | group_id :: rest =>
      let* key := group_key block_hash group_id in
      let* b := BlockHashToBlock.get_one_block key in
      match b with
      | None => ret None
      | Some b =>
          let* r := get_cached_block block_hash rest in
          ret (cons b <$> r)
      end
  end.

(** The loop of [cache_full_blocks] over [new_full_blocks]; it returns the
    hashes for the event. *)
Fixpoint cache_loop (new_full_blocks : list loc) (new_block_hashes : list bytes) (i : Z)
    (group_id : Z) : M BlockPool (list ExternalBlockHash) :=
  match new_full_blocks with
  | [] => ret []
  | blk :: rest =>
      let* b := block blk in
      if is_null b then cache_loop rest new_block_hashes (i + 1) group_id else
      assert_ (bool_decide (_block_hash b = None)) ;;;
      let* block_hash := of_option IndexError (py_index new_block_hashes i) in
      let* key := group_key block_hash group_id in
      on_mem (set_block_hash blk key) ;;;
      BlockHashToBlock.insert key blk ;;;
      let* int_hashes := gets use_int_block_hashes in
      let* r := cache_loop rest new_block_hashes (i + 1) group_id in
      ret (maybe_convert_block_hash int_hashes block_hash :: r)
  end.

Definition cache_full_blocks (request : Request) (blks : list loc)
    (num_cached_blocks num_full_blocks block_size kv_cache_group_id : Z)
    : M BlockPool unit :=
  if decide (num_full_blocks ≤ num_cached_blocks) then ret tt else
  let new_full_blocks := py_slice blks num_cached_blocks num_full_blocks in
  assert_ (bool_decide (num_full_blocks ≤ len (block_hashes request))) ;;;
  let* hash_size := gets hash_block_size in
  let* hashes :=
    (if decide (block_size = hash_size) then ret (HPlain (block_hashes request))
     else
       assert_ (bool_decide (block_size mod hash_size = 0)) ;;;
       let* l := of_res (BlockHashListWithBlockSize_init (block_hashes request)
                           hash_size block_size) in
       ret (HScaled l)) in
  let* new_block_hashes := of_res (hashes_from hashes num_cached_blocks) in
  let* new_hashes := cache_loop new_full_blocks new_block_hashes 0 kv_cache_group_id in
  let* events := gets enable_kv_cache_events in
  if events : bool then
    let* int_hashes := gets use_int_block_hashes in
    let* parent :=
      (if decide (num_cached_blocks = 0) then ret None
       else let* h := of_res (hashes_index hashes (num_cached_blocks - 1)) in
            ret (Some (maybe_convert_block_hash int_hashes h))) in
    push_event (EvBlockStored (mkBlockStored new_hashes parent
      (py_slice (_all_token_ids request) (num_cached_blocks * block_size)
         (num_full_blocks * block_size))
      block_size (lora_int_id <$> lora_request request) MEDIUM_GPU
      (lora_name <$> lora_request request)))
  else ret tt.

Definition _maybe_evict_cached_block (blk : loc) : M BlockPool bool :=
  metrics on_block_evicted blk ;;;
  let* b := block blk in
  match _block_hash b with
  | None => ret false
  | Some block_hash =>
      let* popped := BlockHashToBlock.pop block_hash (block_id b) in
      match popped with
      | None => ret false
      | Some _ =>
          on_mem (reset_hash blk) ;;;
          let* events := gets enable_kv_cache_events in
          let* int_hashes := gets use_int_block_hashes in
          (if events : bool then
             push_event (EvBlockRemoved
               [maybe_convert_block_hash int_hashes (get_block_hash block_hash)] MEDIUM_GPU)
           else ret tt) ;;;
          ret true
      end
  end.

Definition get_new_blocks (num_blocks : Z) : M BlockPool (list loc) :=
  let* p := get in
  if decide (get_num_free_blocks p < num_blocks) then raise ValueError else
  let* r := on_mem (FreeQueue.popleft_n num_blocks) in
  for_ r (λ blk,
    (if enable_caching p then (_maybe_evict_cached_block blk ;;; ret tt) else ret tt) ;;;
    let* b := block blk in
    assert_ (bool_decide (ref_cnt b = 0)) ;;;
    update_block blk (λ b, set_ref_cnt (ref_cnt b + 1) b) ;;;
    metrics on_block_allocated blk) ;;;
  ret r.

Definition touch (blks : list loc) : M BlockPool unit :=
  for_ blks (λ blk,
    let* b := block blk in
    (if bool_decide (ref_cnt b = 0) && negb (is_null b)
     then on_mem (FreeQueue.remove blk) else ret tt) ;;;
    update_block blk (λ b, set_ref_cnt (ref_cnt b + 1) b) ;;;
    metrics on_block_accessed blk).

(** The blocks of [blks] with reference count 0 that are not the null block. *)
Fixpoint free_candidates (blks : list loc) : M BlockPool (list loc) :=
  match blks with
  | [] => ret []
  | blk :: rest =>
      let* b := block blk in
      let* r := free_candidates rest in
      ret (if bool_decide (ref_cnt b = 0) && negb (is_null b) then blk :: r else r)
  end.

Definition free_blocks (ordered_blocks : list loc) : M BlockPool unit :=
  for_ ordered_blocks (λ blk, update_block blk (λ b, set_ref_cnt (ref_cnt b - 1) b)) ;;;
  let* r := free_candidates ordered_blocks in
  on_mem (FreeQueue.append_n r).

(** The set of block ids is given by a list, its iteration order. *)
Definition evict_blocks (block_ids : list Z) : M BlockPool unit :=
  for_ block_ids (λ id,
    let* bs := gets blocks in
    assert_ (bool_decide (id < len bs)) ;;;
    let* blk := of_option IndexError (py_index bs id) in
    _maybe_evict_cached_block blk ;;; ret tt).

Definition reset_prefix_cache : M BlockPool bool :=
  let* p := get in
  let num_used_blocks := num_gpu_blocks p - get_num_free_blocks p in
  if decide (num_used_blocks ≠ 1) then ret false else
  modify_cache (λ _, ∅) ;;;
  for_ (blocks p) (λ blk, on_mem (reset_hash blk)) ;;;
  modify (λ p, set_metrics (reset <$> metrics_collector p) p) ;;;
  (if enable_kv_cache_events p then push_event EvAllBlocksCleared else ret tt) ;;;
  ret true.

(** [get_usage] as an exact fraction (numerator, denominator). *)
Definition get_usage (p : BlockPool) : Z * Z :=
  let total_gpu_blocks := num_gpu_blocks p - 1 in
  if decide (total_gpu_blocks = 0) then (0, 1)
  else (total_gpu_blocks - get_num_free_blocks p, total_gpu_blocks).

Definition take_kv_events : M BlockPool (list KVCacheEvent) :=
  let* p := get in
  if enable_kv_cache_events p then
    modify (set_kv_event_queue []) ;;; ret (kv_event_queue p)
  else ret [].

(** * The prefix-cache map as the inverse of the block hashes *)

Abbreviation data_map := (gmap loc KVCacheBlock).

Definition hash_of (D : data_map) (a : loc) : option bytes := D !! a ≫= _block_hash.
Definition ref_of (D : data_map) (a : loc) : Z := default 0 (ref_cnt <$> D !! a).

(** The blocks the map gives for a key, in insertion order. *)
Definition cache_lookup (C : BlockHashToBlockMap) (k : bytes) : list loc :=
  match C !! k with
  | None => []
  | Some (One b) => [b]
  | Some (Many d) => map snd d
  end.

Definition cached_wf (c : CachedBlocks) : Prop :=
  match c with
  | One _ => True
  | Many d => d ≠ [] ∧ NoDup (map snd d) ∧ ∀ i b, (i, b) ∈ d → i = Z.of_nat b
  end.

Record cache_ok (D : data_map) (C : BlockHashToBlockMap) : Prop := {
  co_wf : ∀ k c, C !! k = Some c → cached_wf c;
  co_inv : ∀ k b, b ∈ cache_lookup C k ↔ hash_of D b = Some k
}.

Section dict.
Implicit Types d : list (Z * loc).

Lemma dict_set_wf d b :
  NoDup (map snd d) → (∀ i a, (i, a) ∈ d → i = Z.of_nat a) →
  NoDup (map snd (dict_set (Z.of_nat b) b d)) ∧
  (∀ i a, (i, a) ∈ dict_set (Z.of_nat b) b d → i = Z.of_nat a) ∧
  (∀ a, a ∈ map snd (dict_set (Z.of_nat b) b d) ↔ a = b ∨ a ∈ map snd d).
Proof.
  induction d as [|[i a] d IH]; intros Hnd Hid; simpl.
  { split; [apply NoDup_singleton|]. split; set_solver. }
  apply NoDup_cons in Hnd as [Ha Hnd].
  assert (i = Z.of_nat a) as -> by (apply Hid; set_solver +).
  assert (Hid' : ∀ i a, (i, a) ∈ d → i = Z.of_nat a) by (intros; apply Hid; by right).
  case_decide as Heq.
  - assert (a = b) as -> by lia. simpl. split; [by apply NoDup_cons|].
    split; [|set_solver +]. intros j c [[= -> ->]|Hin]%elem_of_cons; [done|by apply Hid'].
  - destruct (IH Hnd Hid') as (H1 & H2 & H3). simpl. split.
    + apply NoDup_cons. split; [|done]. rewrite H3. intros [->|]; [lia|done].
    + split; [|set_solver +H3]. intros j c [[= -> ->]|Hin]%elem_of_cons; [done|by apply H2].
Qed.

Lemma dict_pop_spec d b r d' :
  NoDup (map snd d) → (∀ i a, (i, a) ∈ d → i = Z.of_nat a) →
  dict_pop (Z.of_nat b) d = (r, d') →
  r = (if decide (b ∈ map snd d) then Some b else None) ∧
  NoDup (map snd d') ∧ (∀ i a, (i, a) ∈ d' → i = Z.of_nat a) ∧
  (∀ a, a ∈ map snd d' ↔ a ∈ map snd d ∧ a ≠ b).
Proof.
  revert r d'. induction d as [|[i a] d IH]; intros r d' Hnd Hid; simpl.
  { intros [= <- <-]. simpl. set_solver. }
  apply NoDup_cons in Hnd as [Ha Hnd].
  assert (i = Z.of_nat a) as -> by (apply Hid; set_solver +).
  assert (Hid' : ∀ i a, (i, a) ∈ d → i = Z.of_nat a) by (intros; apply Hid; by right).
  destruct (decide (Z.of_nat a = Z.of_nat b)) as [Heq|Heq].
  - intros [= <- <-]. assert (a = b) as -> by lia.
    rewrite decide_True by set_solver +. split_and!; [done..|].
    intros c. simpl in Ha. split; [|set_solver +]. intros Hc. split; [set_solver +Hc|].
    by intros ->.
  - destruct (dict_pop (Z.of_nat b) d) as [r1 d1] eqn:Hp. intros [= <- <-].
    destruct (IH r1 d1 Hnd Hid' eq_refl) as (-> & H1 & H2 & H3). assert (a ≠ b) by lia.
    split_and!.
    + destruct (decide (b ∈ map snd d)) as [Hb|Hb].
      * rewrite decide_True by (right; done). done.
      * rewrite decide_False by (rewrite elem_of_cons; intros [|]; congruence). done.
    + simpl. apply NoDup_cons. split; [|done]. rewrite H3. tauto.
    + intros j c [[= -> ->]|Hin]%elem_of_cons; [done|by apply H2].
    + intros c. simpl. rewrite !elem_of_cons, H3. naive_solver.
Qed.
End dict.

(** ** Abstract insertion and removal *)

Implicit Types (C : BlockHashToBlockMap) (k : bytes) (D : data_map).

Definition cache_insert (C : BlockHashToBlockMap) (k : bytes) (b : loc) : BlockHashToBlockMap :=
  match C !! k with
  | None => <[k := One b]> C
  | Some (One b0) => <[k := Many (dict_set (Z.of_nat b) b [(Z.of_nat b0, b0)])]> C
  | Some (Many d) => <[k := Many (dict_set (Z.of_nat b) b d)]> C
  end.

Definition cache_pop (C : BlockHashToBlockMap) (k : bytes) (b : loc) : BlockHashToBlockMap :=
  match C !! k with
  | None => C
  | Some (One b0) => if decide (b0 = b) then delete k C else C
  | Some (Many d) =>
      let d' := (dict_pop (Z.of_nat b) d).2 in
      if decide (0 < len d') then <[k := Many d']> (delete k C) else delete k C
  end.

Lemma cache_lookup_insert C k k' c :
  cache_lookup (<[k := c]> C) k' =
    if decide (k' = k) then match c with One b => [b] | Many d => map snd d end
    else cache_lookup C k'.
Proof.
  unfold cache_lookup. case_decide as Hk; [subst; by rewrite lookup_insert_eq|].
  by rewrite lookup_insert_ne by done.
Qed.

Lemma cache_lookup_delete C k k' :
  cache_lookup (delete k C) k' = if decide (k' = k) then [] else cache_lookup C k'.
Proof.
  unfold cache_lookup. case_decide as Hk; [subst; by rewrite lookup_delete_eq|].
  by rewrite lookup_delete_ne by done.
Qed.

Lemma cached_wf_insert C k c :
  (∀ k c, C !! k = Some c → cached_wf c) → cached_wf c →
  ∀ k' c', <[k := c]> C !! k' = Some c' → cached_wf c'.
Proof.
  intros Hwf Hc k' c'. rewrite lookup_insert_Some. intros [[-> <-]|[_ Hl]]; [done|].
  by eapply Hwf.
Qed.

Lemma cache_insert_spec C k b :
  (∀ k c, C !! k = Some c → cached_wf c) →
  (∀ k' c, cache_insert C k b !! k' = Some c → cached_wf c) ∧
  (∀ k' a, a ∈ cache_lookup (cache_insert C k b) k' ↔
           (k' = k ∧ a = b) ∨ a ∈ cache_lookup C k').
Proof.
  intros Hwf. unfold cache_insert.
  assert (Hk : ∀ d, (match C !! k with Some (One b0) => d = [(Z.of_nat b0, b0)]
                                     | Some (Many d0) => d = d0 | None => False end) →
    NoDup (map snd d) ∧ (∀ i a, (i, a) ∈ d → i = Z.of_nat a) ∧ map snd d = cache_lookup C k).
  { intros d Hd. unfold cache_lookup. destruct (C !! k) as [[b0|d0]|] eqn:HC; [subst|subst|done].
    - split_and!; [apply NoDup_singleton| |done]. intros ?? Hin. set_solver +Hin.
    - destruct (Hwf _ _ HC) as (_ & ? & ?). done. }
  assert (Hmany : ∀ d, NoDup (map snd d) ∧ (∀ i a, (i, a) ∈ d → i = Z.of_nat a) ∧
                       map snd d = cache_lookup C k →
    (∀ k' c, <[k := Many (dict_set (Z.of_nat b) b d)]> C !! k' = Some c → cached_wf c) ∧
    (∀ k' a, a ∈ cache_lookup (<[k := Many (dict_set (Z.of_nat b) b d)]> C) k' ↔
           (k' = k ∧ a = b) ∨ a ∈ cache_lookup C k')).
  { intros d (Hnd & Hid & Heq). destruct (dict_set_wf d b Hnd Hid) as (H1 & H2 & H3). split.
    - apply cached_wf_insert; [done|]. split_and!; [|done..].
      intros Hnil. specialize (H3 b). rewrite Hnil in H3. simpl in H3. set_solver +H3.
    - intros k' a. rewrite cache_lookup_insert. case_decide as Hkk; [subst k'|naive_solver].
      rewrite H3, Heq. naive_solver. }
  destruct (C !! k) as [[b0|d]|] eqn:HC.
  - apply Hmany, Hk. done.
  - apply Hmany, Hk. done.
  - split; [by apply cached_wf_insert|]. intros k' a. rewrite cache_lookup_insert.
    case_decide as Hkk; [subst k'|naive_solver].
    unfold cache_lookup. rewrite HC. set_solver +.
Qed.

Lemma cache_pop_spec C k b :
  (∀ k c, C !! k = Some c → cached_wf c) →
  (∀ k' c, cache_pop C k b !! k' = Some c → cached_wf c) ∧
  (∀ k' a, a ∈ cache_lookup (cache_pop C k b) k' ↔
           a ∈ cache_lookup C k' ∧ ¬ (k' = k ∧ a = b)).
Proof.
  intros Hwf. unfold cache_pop.
  assert (Hdel : ∀ k' c, delete k C !! k' = Some c → cached_wf c)
    by (intros k' c [_ Hl]%lookup_delete_Some; by eapply Hwf).
  destruct (C !! k) as [[b0|d]|] eqn:HC.
  - case_decide as Hb; [subst b0|]; (split; [done|]); intros k' a.
    + rewrite cache_lookup_delete. case_decide as Hk; [subst k'|naive_solver].
      unfold cache_lookup. rewrite HC. set_solver +.
    + split; [|naive_solver]. intros Ha. split; [done|]. intros [-> ->].
      unfold cache_lookup in Ha. rewrite HC in Ha. set_solver +Ha Hb.
  - destruct (Hwf _ _ HC) as (_ & Hnd & Hid).
    destruct (dict_pop (Z.of_nat b) d) as [r d'] eqn:Hp.
    destruct (dict_pop_spec d b r d' Hnd Hid Hp) as (_ & H1 & H2 & H3).
    assert (Hl : cache_lookup C k = map snd d) by (unfold cache_lookup; by rewrite HC).
    simpl. case_decide as Hlen.
    + split.
      * apply cached_wf_insert; [done|]. split_and!; [by intros ->|done..].
      * intros k' a. rewrite cache_lookup_insert, cache_lookup_delete.
        case_decide as Hk; [subst k'|naive_solver]. rewrite H3, Hl. naive_solver.
    + split; [done|]. intros k' a. rewrite cache_lookup_delete.
      case_decide as Hk; [subst k'|naive_solver]. rewrite Hl.
      destruct d' as [|x d']; [|rewrite len_cons in Hlen; pose proof (len_nonneg d'); lia].
      specialize (H3 a). simpl in H3. set_solver +H3.
  - split; [done|]. intros k' a. split; [|naive_solver]. intros Ha. split; [done|].
    intros [-> ->]. unfold cache_lookup in Ha. rewrite HC in Ha. set_solver +Ha.
Qed.

(** Setting and clearing a hash in the data and in the map together. *)
Lemma hash_of_alter f D a b :
  hash_of (alter f a D) b =
    if decide (b = a) then (D !! a ≫= λ x, _block_hash (f x)) else hash_of D b.
Proof.
  unfold hash_of. case_decide as Hb; [subst; rewrite lookup_alter_eq; by destruct (D !! a)|].
  by rewrite lookup_alter_ne by done.
Qed.

Lemma cache_ok_set D C k b x :
  cache_ok D C → D !! b = Some x → _block_hash x = None →
  cache_ok (alter (set_hash (Some k)) b D) (cache_insert C k b).
Proof.
  intros [Hwf Hinv] Hb Hx. destruct (cache_insert_spec C k b Hwf) as [H1 H2].
  split; [done|]. intros k' a. rewrite H2, Hinv, hash_of_alter, Hb.
  case_decide as Ha; simpl; [subst a|naive_solver].
  unfold hash_of. rewrite Hb. simpl. rewrite Hx. naive_solver.
Qed.

Lemma cache_ok_reset D C k b x :
  cache_ok D C → D !! b = Some x → _block_hash x = Some k →
  cache_ok (alter (set_hash None) b D) (cache_pop C k b).
Proof.
  intros [Hwf Hinv] Hb Hx. destruct (cache_pop_spec C k b Hwf) as [H1 H2].
  split; [done|]. intros k' a. rewrite H2, Hinv, hash_of_alter, Hb.
  case_decide as Ha; simpl; [subst a|naive_solver].
  unfold hash_of. rewrite Hb. simpl. rewrite Hx. naive_solver.
Qed.

Lemma cache_ok_same_hash D D' C :
  (∀ a, hash_of D' a = hash_of D a) → cache_ok D C → cache_ok D' C.
Proof. intros Hh [? Hinv]. split; [done|]. intros k b. by rewrite Hh. Qed.

(** * Views of a pool *)

(** The block data without the links. *)
Definition data (p : BlockPool) : data_map := strip (heap (mem p)).

(** The part of the data no operation changes. *)
Definition ids (D : data_map) : gmap loc (Z * bool) := (λ x, (block_id x, is_null x)) <$> D.

(** The attributes of the pool that are fixed after construction. *)
Record same_static (p p' : BlockPool) : Prop := {
  ss_num : num_gpu_blocks p' = num_gpu_blocks p;
  ss_caching : enable_caching p' = enable_caching p;
  ss_hash_size : hash_block_size p' = hash_block_size p;
  ss_blocks : blocks p' = blocks p;
  ss_null : null_block p' = null_block p;
  ss_events : enable_kv_cache_events p' = enable_kv_cache_events p;
  ss_int : use_int_block_hashes p' = use_int_block_hashes p;
  ss_head : fake_free_list_head (queue (mem p')) = fake_free_list_head (queue (mem p));
  ss_tail : fake_free_list_tail (queue (mem p')) = fake_free_list_tail (queue (mem p))
}.

#[export] Instance same_static_preorder : PreOrder same_static.
Proof. split; [done|]. intros p1 p2 p3 [] []. split; congruence. Qed.

(** [p] has the static part of [p0], the free list [free], the data [D] and
    the prefix-cache map [C]. *)
Record Rep (p0 : BlockPool) (free : list loc) (D : data_map) (C : BlockHashToBlockMap)
    (p : BlockPool) : Prop := {
  rep_static : same_static p0 p;
  rep_queue : is_queue (mem p) free;
  rep_data : data p = D;
  rep_cache : cached_block_hash_to_block p = C
}.

(** An update of the data of a block that does not touch its links. *)
Record data_fn (f : KVCacheBlock → KVCacheBlock) : Prop := {
  df_unlink : ∀ x, unlink (f x) = f (unlink x);
  df_prev : ∀ x, prev_free_block (f x) = prev_free_block x;
  df_next : ∀ x, next_free_block (f x) = next_free_block x
}.

Lemma data_fn_ref g : data_fn (λ b, set_ref_cnt (g (ref_cnt b)) b).
Proof. by split; intros []. Qed.
Lemma data_fn_hash v : data_fn (set_hash v).
Proof. by split; intros []. Qed.
Lemma data_fn_null v : data_fn (set_is_null v).
Proof. by split; intros []. Qed.
#[export] Hint Resolve data_fn_ref data_fn_hash data_fn_null : vllm.

Lemma is_queue_data_fn f a s l :
  data_fn f → is_queue s l → is_queue (set_heap (alter f a (heap s)) s) l.
Proof.
  intros Hf Hq.
  assert (Hn : ∀ b, nxt (alter f a (heap s)) b = nxt (heap s) b ∧
                    prv (alter f a (heap s)) b = prv (heap s) b).
  { intros b. unfold nxt, prv. destruct (decide (b = a)) as [->|].
    - rewrite lookup_alter_eq. destruct (heap s !! a); simpl; [|done].
      by rewrite (df_next _ Hf), (df_prev _ Hf).
    - by rewrite lookup_alter_ne. }
  split.
  - apply (iq_nodup _ _ Hq).
  - eapply linked_agree_suffix; [| |apply (iq_linked _ _ Hq)]; intros; apply Hn.
  - simpl. intros b Hb. rewrite dom_alter_iff. by apply (iq_dom _ _ Hq).
  - simpl. rewrite (proj1 (Hn _)). apply (iq_end _ _ Hq).
  - apply (iq_num _ _ Hq).
  - simpl. intros b Hb. destruct (Hn b) as [-> ->]. by apply (iq_off _ _ Hq).
Qed.

Lemma strip_alter_data f h a : data_fn f → strip (alter f a h) = alter f a (strip h).
Proof.
  intros Hf. apply map_eq. intros i. unfold strip. rewrite lookup_fmap.
  destruct (decide (i = a)) as [->|].
  - rewrite !lookup_alter_eq, lookup_fmap. destruct (h !! a); simpl; [|done].
    by rewrite (df_unlink _ Hf).
  - by rewrite !lookup_alter_ne, lookup_fmap.
Qed.

Section primitive_specs.
Context (p0 : BlockPool).
Implicit Types (free : list loc).

Lemma data_lookup p a x :
  data p !! a = Some x → ∃ b, heap (mem p) !! a = Some b ∧ unlink b = x.
Proof. unfold data, strip. rewrite lookup_fmap, fmap_Some. naive_solver. Qed.

Lemma block_spec free D C a x :
  D !! a = Some x →
  triple (Rep p0 free D C) (block a) (λ b p, unlink b = x ∧ Rep p0 free D C p).
Proof.
  intros Hx p Hp. pose proof (rep_data _ _ _ _ _ Hp) as HD.
  destruct (data_lookup p a x) as (b & Hb & Hu); [by rewrite HD|].
  exists b, p. unfold block, on_mem, zoom. rewrite (rd_ok _ _ _ Hb). by destruct p.
Qed.

Lemma update_block_spec free D C a f :
  data_fn f →
  triple (Rep p0 free D C) (update_block a f) (λ _, Rep p0 free (alter f a D) C).
Proof.
  intros Hf p [Hs Hq HD HC]. eexists tt, _. split; [reflexivity|]. split; simpl.
  - destruct Hs. by split.
  - by apply is_queue_data_fn.
  - unfold data. simpl. rewrite strip_alter_data by done. by f_equal.
  - done.
Qed.

Lemma modify_cache_spec free D C f :
  triple (Rep p0 free D C) (modify_cache f) (λ _, Rep p0 free D (f C)).
Proof.
  apply triple_modify. intros p [Hs Hq HD HC]. split; simpl; try done; [by destruct Hs|].
  by rewrite HC.
Qed.

Lemma push_event_spec free D C e :
  triple (Rep p0 free D C) (push_event e) (λ _, Rep p0 free D C).
Proof. apply triple_modify. intros p [Hs Hq HD HC]. by split; [destruct Hs|..]. Qed.

Lemma metrics_spec free D C f a :
  is_Some (D !! a) →
  triple (Rep p0 free D C) (metrics f a) (λ _, Rep p0 free D C).
Proof.
  intros [x Hx]. eapply triple_bind; [by apply block_spec|]. intros b. apply triple_pure.
  intros _. apply triple_modify. intros p [Hs Hq HD HC]. by split; [destruct Hs|..].
Qed.

Lemma on_mem_rep_spec {A} free free' D C (m : M store A) (a : A) :
  (∀ p, Rep p0 free D C p →
     ∃ s', m (mem p) = (Ok a, s') ∧ is_queue s' free' ∧ same_data (mem p) s') →
  triple (Rep p0 free D C) (on_mem m) (λ r p, r = a ∧ Rep p0 free' D C p).
Proof.
  intros Hm p Hp. destruct (Hm _ Hp) as (s' & Hr & Hq' & Hsd).
  destruct Hp as [Hs Hq HD HC].
  exists a, (set_mem s' p). unfold on_mem, zoom. rewrite Hr. split; [done|]. split; [done|].
  split; simpl; [|done| |done].
  - destruct Hs. split; simpl; try done.
    + by rewrite (sd_head _ _ Hsd).
    + by rewrite (sd_tail _ _ Hsd).
  - unfold data. simpl. by rewrite (sd_strip _ _ Hsd).
Qed.

Lemma on_mem_queue_spec {A} free free' D C (m : M store A) (a : A) :
  (∀ s, is_queue s free → ∃ s', m s = (Ok a, s') ∧ is_queue s' free' ∧ same_data s s') →
  triple (Rep p0 free D C) (on_mem m) (λ r p, r = a ∧ Rep p0 free' D C p).
Proof. intros Hm. apply on_mem_rep_spec. intros p Hp. apply Hm, Hp. Qed.

Lemma on_mem_alter free D C a f (m : M store unit) :
  data_fn f →
  (∀ p, Rep p0 free D C p →
     m (mem p) = (Ok tt, set_heap (alter f a (heap (mem p))) (mem p))) →
  triple (Rep p0 free D C) (on_mem m) (λ _, Rep p0 free (alter f a D) C).
Proof.
  intros Hf Hm p Hp. destruct (update_block_spec free D C a f Hf p Hp) as ([] & p' & Hr & HR).
  exists tt, p'. split; [|done]. rewrite <- Hr. unfold update_block, on_mem, zoom.
  by rewrite (Hm p Hp).
Qed.

Lemma on_mem_unit_spec free free' D C (m : M store unit) :
  (∀ p, Rep p0 free D C p →
     ∃ s', m (mem p) = (Ok tt, s') ∧ is_queue s' free' ∧ same_data (mem p) s') →
  triple (Rep p0 free D C) (on_mem m) (λ _, Rep p0 free' D C).
Proof.
  intros Hm. eapply triple_conseq; [by apply (on_mem_rep_spec free free' D C m tt)|done|].
  intros [] p [_ Hp]. done.
Qed.

(** The blocks the map lists have their location as block id. *)
Definition ids_of_cache (D : data_map) (C : BlockHashToBlockMap) (k : bytes) : Prop :=
  ∀ b, b ∈ cache_lookup C k → ∃ x, D !! b = Some x ∧ block_id x = Z.of_nat b.


Lemma block_bind {A} free D C a x (k : KVCacheBlock → M BlockPool A) Q :
  D !! a = Some x →
  (∀ b, unlink b = x → triple (Rep p0 free D C) (k b) Q) →
  triple (Rep p0 free D C) (bind (block a) k) Q.
Proof.
  intros Hx Hk. eapply triple_bind; [by apply block_spec|]. intros b.
  cbv beta. apply triple_pure. intros Hb. by apply Hk.
Qed.

Lemma cache_bind {A} free D C (k : BlockHashToBlockMap → M BlockPool A) Q :
  triple (Rep p0 free D C) (k C) Q →
  triple (Rep p0 free D C) (bind (gets cached_block_hash_to_block) k) Q.
Proof. intros Hk. apply (triple_gets_val _ _ C); [by intros p []|done]. Qed.

Lemma pop_spec free D C k b :
  (∀ k c, C !! k = Some c → cached_wf c) → ids_of_cache D C k → b ∈ cache_lookup C k →
  triple (Rep p0 free D C) (BlockHashToBlock.pop k (Z.of_nat b))
    (λ r p, r = Some b ∧ Rep p0 free D (cache_pop C k b) p).
Proof.
  intros Hwf Hids Hb. unfold BlockHashToBlock.pop. apply cache_bind.
  unfold cache_pop. unfold cache_lookup in Hb.
  destruct (C !! k) as [[b0|d]|] eqn:HC; [| |set_solver +Hb].
  - apply list_elem_of_singleton in Hb as ->.
    destruct (Hids b0) as (x & Hx & Hid).
    { unfold cache_lookup. rewrite HC. set_solver +. }
    eapply triple_bind_unit; [apply modify_cache_spec|].
    eapply block_bind; [done|]. intros b' Hb'. subst x. simpl in Hid.
    rewrite decide_True by done. apply triple_ret. intros p Hp. by rewrite decide_True.
  - eapply triple_bind_unit; [apply modify_cache_spec|].
    destruct (Hwf _ _ HC) as (_ & Hnd & Hid).
    destruct (dict_pop (Z.of_nat b) d) as [r d'] eqn:Hp.
    destruct (dict_pop_spec d b r d' Hnd Hid Hp) as (-> & _).
    rewrite (decide_True (P := b ∈ map snd d)) by done. simpl.
    eapply (triple_bind_unit _ (Rep p0 free D
      (if decide (0 < len d') then <[k := Many d']> (delete k C) else delete k C))).
    + destruct (decide (0 < len d')); [apply modify_cache_spec|by apply triple_ret].
    + by apply triple_ret.
Qed.

Lemma insert_spec free D C k b x :
  ids_of_cache D C k → D !! b = Some x → block_id x = Z.of_nat b →
  triple (Rep p0 free D C) (BlockHashToBlock.insert k b)
    (λ _, Rep p0 free D (cache_insert C k b)).
Proof.
  intros Hids Hx Hid. unfold BlockHashToBlock.insert. apply cache_bind.
  unfold cache_insert. destruct (C !! k) as [[b0|d]|] eqn:HC.
  - destruct (Hids b0) as (y & Hy & Hid0).
    { unfold cache_lookup. rewrite HC. set_solver +. }
    eapply block_bind; [exact Hy|]. intros o Ho. subst y.
    eapply block_bind; [exact Hx|]. intros n Hn. subst x. simpl in Hid, Hid0.
    rewrite Hid, Hid0. apply modify_cache_spec.
  - eapply block_bind; [exact Hx|]. intros n Hn. subst x. simpl in Hid.
    rewrite Hid. apply modify_cache_spec.
  - apply modify_cache_spec.
Qed.

(** ** [_maybe_evict_cached_block] *)

(** The data and the map after the eviction of [b]. *)
Definition evict_data (D : data_map) (b : loc) : data_map := alter (set_hash None) b D.
Definition evict_cache (D : data_map) (C : BlockHashToBlockMap) (b : loc)
    : BlockHashToBlockMap :=
  match hash_of D b with None => C | Some k => cache_pop C k b end.

Lemma evict_data_no_hash D b : hash_of D b = None → evict_data D b = D.
Proof.
  intros Hh. apply map_eq. intros i. unfold evict_data.
  destruct (decide (i = b)) as [->|]; [|by rewrite lookup_alter_ne].
  rewrite lookup_alter_eq. unfold hash_of in Hh. destruct (D !! b) as [[]|]; simpl in *; [|done].
  by subst.
Qed.

(** Every block of the map has its location as id. *)
Definition ids_ok (D : data_map) : Prop :=
  ∀ b x, D !! b = Some x → _block_hash x ≠ None → block_id x = Z.of_nat b.

Lemma ids_of_cache_ok D C k : ids_ok D → cache_ok D C → ids_of_cache D C k.
Proof.
  intros Hids [_ Hinv] b Hb. apply Hinv in Hb. unfold hash_of in Hb.
  apply bind_Some in Hb as (x & Hx & Hk). exists x. split; [done|].
  apply Hids; [done|]. congruence.
Qed.

Lemma maybe_evict_spec free D C b x :
  cache_ok D C → ids_ok D → D !! b = Some x →
  triple (Rep p0 free D C) (_maybe_evict_cached_block b)
    (λ r p, r = bool_decide (hash_of D b ≠ None) ∧
            Rep p0 free (evict_data D b) (evict_cache D C b) p).
Proof.
  intros Hok Hids Hx. unfold _maybe_evict_cached_block.
  assert (Hh : hash_of D b = _block_hash x) by (unfold hash_of; by rewrite Hx).
  eapply triple_bind_unit; [by apply metrics_spec; eauto|].
  eapply block_bind; [done|]. intros b' Hb'. subst x. simpl in Hh. unfold evict_cache.
  destruct (_block_hash b') as [k|] eqn:Hk; rewrite Hh.
  - assert (Hid : block_id b' = Z.of_nat b).
    { apply (Hids _ _ Hx). simpl. congruence. }
    rewrite Hid.
    eapply triple_bind; [apply pop_spec|].
    + apply Hok.
    + by apply ids_of_cache_ok.
    + by apply Hok.
    + intros r. cbv beta. apply triple_pure. intros ->.
      eapply triple_bind_unit; [by apply (update_block_spec _ _ _ b (set_hash None)); eauto with vllm|].
      eapply triple_bind; [apply triple_gets|]. intros ev.
      eapply triple_conseq; [|intros p Hp; exact (proj2 Hp)|intros ? p Hp; exact Hp].
      eapply triple_bind; [apply triple_gets|]. intros ih.
      eapply triple_conseq; [|intros p Hp; exact (proj2 Hp)|intros ? p Hp; exact Hp].
      eapply triple_bind_unit.
      * destruct ev; [apply push_event_spec|by apply triple_ret].
      * by apply triple_ret.
  - apply triple_ret. intros p Hp. by rewrite evict_data_no_hash.
Qed.

Lemma evict_ok D C b : cache_ok D C → cache_ok (evict_data D b) (evict_cache D C b).
Proof.
  intros Hok. unfold evict_cache. destruct (hash_of D b) as [k|] eqn:Hh.
  - unfold hash_of in Hh. apply bind_Some in Hh as (x & Hx & Hk). by eapply cache_ok_reset.
  - by rewrite evict_data_no_hash.
Qed.
End primitive_specs.

(** * The invariant of the pool *)

Lemma ids_alter f a D :
  (∀ x, block_id (f x) = block_id x ∧ is_null (f x) = is_null x) →
  ids (alter f a D) = ids D.
Proof.
  intros Hf. apply map_eq. intros b. unfold ids. rewrite !lookup_fmap.
  destruct (decide (b = a)) as [->|]; [|by rewrite lookup_alter_ne].
  rewrite lookup_alter_eq. destruct (D !! a) as [x|]; simpl; [|done].
  by destruct (Hf x) as [-> ->].
Qed.

Lemma ref_of_alter g a b D :
  is_Some (D !! a) →
  ref_of (alter (λ x, set_ref_cnt (g (ref_cnt x)) x) a D) b =
    if decide (b = a) then g (ref_of D a) else ref_of D b.
Proof.
  intros [x Hx]. unfold ref_of. split_if as Hb; [subst|by rewrite lookup_alter_ne].
  by rewrite lookup_alter_eq, Hx.
Qed.

Lemma ref_of_alter_hash v a b D : ref_of (alter (set_hash v) a D) b = ref_of D b.
Proof.
  unfold ref_of. destruct (decide (b = a)) as [->|]; [|by rewrite lookup_alter_ne].
  rewrite lookup_alter_eq. by destruct (D !! a).
Qed.

Lemma hash_of_alter_ref g a b D :
  hash_of (alter (λ x, set_ref_cnt (g (ref_cnt x)) x) a D) b = hash_of D b.
Proof.
  rewrite hash_of_alter. split_if as Hcd; [subst|done]. unfold hash_of. by destruct (D !! a).
Qed.

Lemma ids_is_Some D D' a : ids D = ids D' → is_Some (D !! a) ↔ is_Some (D' !! a).
Proof.
  intros Heq. assert (H : ids D !! a = ids D' !! a) by by rewrite Heq.
  unfold ids in H. rewrite !lookup_fmap in H.
  destruct (D !! a), (D' !! a); simpl in H; split; intros [? ?]; naive_solver.
Qed.

(** The data of a pool of [n] blocks: block [i] is at location [i], block 0 is
    the null block, and the two sentinels follow. *)
Record dims (n : nat) (D : data_map) : Prop := {
  di_ids : ∀ a, ids D !! a =
    if decide (a < n)%nat then Some (Z.of_nat a, bool_decide (a = 0%nat))
    else if decide (a < S (S n))%nat then Some (-1, false) else None;
  di_hash : ∀ a k, hash_of D a = Some k → (0 < a < n)%nat
}.

(** The pool data: [free] holds exactly the blocks with reference count 0, no
    count is negative, and the map is the inverse of the hashes. *)
Record wf_data (n : nat) (free : list loc) (D : data_map) (C : BlockHashToBlockMap)
    : Prop := {
  wd_dims : dims n D;
  wd_range : ∀ a, a ∈ free → (0 < a < n)%nat;
  wd_ref : ∀ a, (0 < a < n)%nat → 0 ≤ ref_of D a ∧ (a ∈ free ↔ ref_of D a = 0);
  wd_cache : cache_ok D C
}.

Record static_ok (n : nat) (p : BlockPool) : Prop := {
  so_pos : (0 < n)%nat;
  so_num : num_gpu_blocks p = Z.of_nat n;
  so_blocks : blocks p = seq 0 n;
  so_null : null_block p = 0%nat;
  so_head : fake_free_list_head (queue (mem p)) = n;
  so_tail : fake_free_list_tail (queue (mem p)) = S n
}.

Record pool_wf (p : BlockPool) (free : list loc) : Prop := {
  pw_static : static_ok (length (blocks p)) p;
  pw_queue : is_queue (mem p) free;
  pw_data : wf_data (length (blocks p)) free (data p) (cached_block_hash_to_block p)
}.

Lemma dims_lookup n D a :
  dims n D → (a < n)%nat →
  ∃ x, D !! a = Some x ∧ block_id x = Z.of_nat a ∧ is_null x = bool_decide (a = 0%nat).
Proof.
  intros Hd Ha. pose proof (di_ids _ _ Hd a) as Hi. rewrite decide_True in Hi by done.
  unfold ids in Hi. rewrite lookup_fmap, fmap_Some in Hi. destruct Hi as (x & ? & [= -> ->]).
  eauto.
Qed.

Lemma dims_ids_ok n D : dims n D → ids_ok D.
Proof.
  intros Hd b x Hx Hh. destruct (_block_hash x) as [k|] eqn:Hk; [|done].
  assert (0 < b < n)%nat as [_ Hb].
  { apply (di_hash _ _ Hd b k). unfold hash_of. by rewrite Hx. }
  destruct (dims_lookup _ _ _ Hd Hb) as (y & Hy & Hid & _). congruence.
Qed.

Lemma static_ok_same n p p' : same_static p p' → static_ok n p → static_ok n p'.
Proof. intros [] []. split; congruence. Qed.

Lemma pool_wf_rep p free :
  pool_wf p free → Rep p free (data p) (cached_block_hash_to_block p) p.
Proof. intros Hp. split; [done|apply Hp|done|done]. Qed.

Lemma rep_pool_wf p0 p free free' D C :
  pool_wf p0 free → Rep p0 free' D C p → wf_data (length (blocks p0)) free' D C →
  pool_wf p free' ∧ same_static p0 p ∧ data p = D.
Proof.
  intros Hp0 [Hs Hq HD HC] Hw. split; [|done]. rewrite <- (ss_blocks _ _ Hs) in Hw.
  split; [|done|by rewrite HD, HC].
  rewrite (ss_blocks _ _ Hs). eapply static_ok_same; [done|apply Hp0].
Qed.

(** The number of uses of a block by requests, and its hash. *)
Definition ref (p : BlockPool) (a : loc) : Z := ref_of (data p) a.
Definition hash (p : BlockPool) (a : loc) : option bytes := hash_of (data p) a.

Lemma pool_free_count p free : pool_wf p free → get_num_free_blocks p = len free.
Proof. intros Hp. apply (iq_num _ _ (pw_queue _ _ Hp)). Qed.

Lemma pool_nodup p free : pool_wf p free → NoDup free.
Proof.
  intros Hp. pose proof (iq_nodup _ _ (pw_queue _ _ Hp)) as H.
  by apply path_nodup_parts in H as [? _].
Qed.

(** A block of the pool outside [free] is outside the queue. *)
Lemma not_in_path p free a :
  pool_wf p free → (a < length (blocks p))%nat → a ∉ free → a ∉ path_of (mem p) free.
Proof.
  intros Hp Ha Hf. destruct (pw_static _ _ Hp). unfold path_of.
  rewrite so_head0, so_tail0. intros [->|[?| ->%list_elem_of_singleton]%elem_of_app]%elem_of_cons;
    (lia || done).
Qed.

(** * Operations *)

(** ** [get_new_blocks] *)

Section get_new_blocks.
Context (p0 : BlockPool) (n : nat) (D0 : data_map) (free : list loc).

(** The data after the blocks [dn] were taken. *)
Definition taken (caching : bool) (dn : list loc) (D : data_map) (C : BlockHashToBlockMap)
    : Prop :=
  cache_ok D C ∧ ids D = ids D0 ∧
  (∀ a, ref_of D a = ref_of D0 a + (if decide (a ∈ dn) then 1 else 0)) ∧
  (∀ a, hash_of D a = if decide (caching = true ∧ a ∈ dn) then None else hash_of D0 a).

Lemma taken_dims caching dn D C : dims n D0 → taken caching dn D C → dims n D.
Proof.
  intros Hd (_ & Hids & _ & Hh). split.
  - intros a. rewrite Hids. apply Hd.
  - intros a k. rewrite Hh. split_if as Hc; [done|]. apply Hd.
Qed.

Lemma get_new_blocks_body dn blk D C :
  dims n D0 → taken (enable_caching p0) dn D C → blk ∉ dn → (blk < n)%nat →
  ref_of D0 blk = 0 →
  triple (Rep p0 free D C)
    ((if enable_caching p0 then (_maybe_evict_cached_block blk ;;; ret tt) else ret tt) ;;;
     let* b := block blk in
     assert_ (bool_decide (ref_cnt b = 0)) ;;;
     update_block blk (λ b, set_ref_cnt (ref_cnt b + 1) b) ;;;
     metrics on_block_allocated blk)
    (λ _ p, ∃ D' C', Rep p0 free D' C' p ∧ taken (enable_caching p0) (dn ++ [blk]) D' C').
Proof.
  intros Hdims Ht Hdn Hblk Href. pose proof Ht as (Hok & Hids & Hr & Hh).
  assert (Hd : dims n D) by by eapply taken_dims.
  set (D1 := if enable_caching p0 then evict_data D blk else D).
  set (C1 := if enable_caching p0 then evict_cache D C blk else C).
  assert (H1 : cache_ok D1 C1 ∧ ids D1 = ids D0 ∧ (∀ a, ref_of D1 a = ref_of D a) ∧
    (∀ a, hash_of D1 a = if decide (enable_caching p0 = true ∧ a ∈ dn ++ [blk]) then None
                         else hash_of D0 a)).
  { subst D1 C1. destruct (enable_caching p0) eqn:Hc.
    - split_and!; [by apply evict_ok| | |].
      + unfold evict_data. by rewrite ids_alter.
      + intros a. apply ref_of_alter_hash.
      + intros a. unfold evict_data. rewrite hash_of_alter, Hh. split_if as Ha.
        * subst a. rewrite decide_True by set_solver +. by destruct (D !! blk).
        * destruct (decide (a ∈ dn)).
          -- by rewrite !decide_True by set_solver.
          -- by rewrite !decide_False by set_solver.
    - split_and!; [done..|]. intros a. rewrite Hh. by rewrite !decide_False by naive_solver. }
  destruct H1 as (Hok1 & Hids1 & Hr1 & Hh1).
  destruct (dims_lookup n D blk Hd Hblk) as (x & Hx & Hidx & Hnx).
  eapply (triple_bind_unit _ (Rep p0 free D1 C1)).
  { subst D1 C1. destruct (enable_caching p0); [|by apply triple_ret].
    eapply triple_bind; [by eapply maybe_evict_spec; eauto using dims_ids_ok|].
    intros r. cbv beta. apply triple_pure. intros _. by apply triple_ret. }
  assert (is_Some (D1 !! blk)) as [y Hy].
  { apply (ids_is_Some D1 D); [by rewrite Hids1, Hids|eauto]. }
  eapply block_bind; [done|]. intros b Hb.
  assert (Hrb : ref_cnt b = 0).
  { assert (ref_of D1 blk = 0) as H0 by (rewrite Hr1, Hr, decide_False by done; lia).
    unfold ref_of in H0. rewrite Hy in H0. subst y. done. }
  eapply triple_bind_unit; [apply triple_assert; by apply bool_decide_eq_true_2|].
  eapply triple_bind_unit.
  { apply (update_block_spec p0 free D1 C1 blk (λ b, set_ref_cnt (ref_cnt b + 1) b)).
    apply (data_fn_ref (λ r, r + 1)). }
  eapply triple_conseq; [|intros s Hs; exact Hs|].
  { apply (metrics_spec p0 free (alter (λ b, set_ref_cnt (ref_cnt b + 1) b) blk D1) C1).
    rewrite lookup_alter_is_Some. eauto. }
  intros [] p Hp. cbv beta in Hp. eexists _, _. split; [exact Hp|]. split_and!.
  - eapply cache_ok_same_hash; [|exact Hok1]. intros a.
    apply (hash_of_alter_ref (λ r, r + 1)).
  - by rewrite ids_alter.
  - intros a. rewrite (ref_of_alter (λ r, r + 1)) by eauto. rewrite !Hr1, !Hr.
    split_if as Ha; [subst a|].
    + rewrite decide_False, decide_True by set_solver. lia.
    + destruct (decide (a ∈ dn)).
      * by rewrite decide_True by set_solver.
      * by rewrite decide_False by set_solver.
  - intros a. rewrite (hash_of_alter_ref (λ r, r + 1)). apply Hh1.
Qed.

(** The loop over the popped blocks. *)
Definition take_block (blk : loc) : M BlockPool unit :=
  (if enable_caching p0 then (_maybe_evict_cached_block blk ;;; ret tt) else ret tt) ;;;
  let* b := block blk in
  assert_ (bool_decide (ref_cnt b = 0)) ;;;
  update_block blk (λ b, set_ref_cnt (ref_cnt b + 1) b) ;;;
  metrics on_block_allocated blk.

Lemma get_new_blocks_loop xs : ∀ dn D C,
  dims n D0 → taken (enable_caching p0) dn D C → NoDup (dn ++ xs) →
  (∀ a, a ∈ xs → (a < n)%nat ∧ ref_of D0 a = 0) →
  triple (Rep p0 free D C) (for_ xs take_block)
    (λ _ p, ∃ D' C', Rep p0 free D' C' p ∧ taken (enable_caching p0) (dn ++ xs) D' C').
Proof.
  induction xs as [|x xs IH]; intros dn D C Hd Ht Hnd Hxs; simpl.
  { apply triple_ret. intros p Hp. exists D, C. by rewrite app_nil_r. }
  destruct (Hxs x) as [? ?]; [set_solver +|].
  eapply triple_bind.
  { apply (get_new_blocks_body dn x D C); try done.
    apply NoDup_app in Hnd as (_ & Hd' & _). intros Hin. apply (Hd' _ Hin). set_solver +. }
  intros []. cbv beta. apply triple_ex. intros D'. apply triple_ex. intros C'.
  intros p [HR HT]. revert p HR.
  rewrite cons_middle, app_assoc. apply (IH (dn ++ [x])); try done.
  - by rewrite <- app_assoc.
  - intros a Ha. apply Hxs. by right.
Qed.
End get_new_blocks.

Lemma wf_data_taken n r rest D C p :
  wf_data n (r ++ rest) (data p) (cached_block_hash_to_block p) → NoDup (r ++ rest) →
  taken (data p) (enable_caching p) r D C → wf_data n rest D C.
Proof.
  intros Hw Hnd HT. pose proof HT as (Hok & Hids & Hr & Hh). split; [| | |done].
  - eapply taken_dims; [apply Hw|done].
  - intros a Ha. apply (wd_range _ _ _ _ Hw). set_solver +Ha.
  - intros a Ha. destruct (wd_ref _ _ _ _ Hw a Ha) as [H1 H2]. rewrite Hr.
    apply NoDup_app in Hnd as (_ & Hd & _). rewrite elem_of_app in H2.
    split_if as Hin.
    + split; [lia|]. split; [intros Hrest; by destruct (Hd _ Hin)|].
      intros Hz. assert (ref_of (data p) a = 0) by (apply H2; auto). lia.
    + rewrite Z.add_0_r. split; [done|]. rewrite <- H2. tauto.
Qed.

Lemma get_new_blocks_run p r rest :
  pool_wf p (r ++ rest) →
  triple (Rep p (r ++ rest) (data p) (cached_block_hash_to_block p))
    (get_new_blocks (len r))
    (λ r' p', r' = r ∧ ∃ D C, Rep p rest D C p' ∧ taken (data p) (enable_caching p) r D C).
Proof.
  intros Hp. pose proof (pool_nodup _ _ Hp) as Hnd. pose proof (pw_data _ _ Hp) as Hw.
  unfold get_new_blocks. intros q Hq. unfold bind at 1, get.
  assert (get_num_free_blocks q = len (r ++ rest)) as ->.
  { apply (iq_num _ _ (rep_queue _ _ _ _ _ Hq)). }
  rewrite decide_False by (rewrite len_app; pose proof (len_nonneg rest); lia).
  rewrite (ss_caching _ _ (rep_static _ _ _ _ _ Hq)).
  revert q Hq. eapply triple_bind.
  { apply (on_mem_queue_spec p (r ++ rest) rest _ _ (FreeQueue.popleft_n (len r)) r).
    intros s Hs. by apply popleft_n_spec. }
  intros r'. cbv beta. apply triple_pure. intros ->.
  eapply triple_bind.
  { apply (get_new_blocks_loop p (length (blocks p)) (data p) rest r [] _ _).
    - apply Hw.
    - split_and!; [apply Hw|done|intros a; rewrite decide_False by set_solver +; lia|].
      intros a. rewrite decide_False by set_solver +. done.
    - by apply NoDup_app in Hnd as [? _].
    - intros a Ha. assert (Hin : a ∈ r ++ rest) by set_solver +Ha.
      pose proof (wd_range _ _ _ _ Hw a Hin). split; [lia|]. by apply (wd_ref _ _ _ _ Hw). }
  intros []. apply triple_ret. eauto.
Qed.

Lemma get_new_blocks_ok p r rest :
  pool_wf p (r ++ rest) →
  ∃ p', get_new_blocks (len r) p = (Ok r, p') ∧ pool_wf p' rest ∧ same_static p p' ∧
    (∀ a, ref p' a = ref p a + (if decide (a ∈ r) then 1 else 0)) ∧
    (∀ a, hash p' a = if decide (enable_caching p = true ∧ a ∈ r) then None else hash p a).
Proof.
  intros Hp. pose proof (pw_data _ _ Hp) as Hw.
  destruct (get_new_blocks_run p r rest Hp p (pool_wf_rep _ _ Hp))
    as (r' & p' & Heq & -> & D & C & HR & HT).
  exists p'. split; [done|].
  pose proof (wf_data_taken _ _ _ _ _ _ Hw (pool_nodup _ _ Hp) HT) as Hw'.
  destruct (rep_pool_wf _ _ _ _ _ _ Hp HR Hw') as (Hwf & Hss & HD).
  split; [done|]. split; [done|]. unfold ref, hash. rewrite HD. split; apply HT.
Qed.

Lemma get_new_blocks_error p free (k : Z) :
  pool_wf p free → len free < k → get_new_blocks k p = (Raise ValueError, p).
Proof.
  intros Hp Hk. unfold get_new_blocks, bind at 1, get.
  rewrite (pool_free_count _ _ Hp), decide_True by lia. done.
Qed.

(** ** [touch] *)

(** The data after [k] is added to the reference count of [blk]. *)
Definition bump (v : Z) (blk : loc) (D : data_map) : data_map :=
  alter (λ b, set_ref_cnt (ref_cnt b + v) b) blk D.

Lemma bump_ref v blk D a :
  is_Some (D !! blk) →
  ref_of (bump v blk D) a = ref_of D a + (if decide (a = blk) then v else 0).
Proof.
  intros Hs. unfold bump. rewrite (ref_of_alter (λ r, r + v)) by done.
  split_if as Ha; [by subst|lia].
Qed.
Lemma bump_hash v blk D a : hash_of (bump v blk D) a = hash_of D a.
Proof. apply (hash_of_alter_ref (λ r, r + v)). Qed.
Lemma bump_ids v blk D : ids (bump v blk D) = ids D.
Proof. by apply ids_alter. Qed.
Lemma bump_dims n v blk D : dims n D → dims n (bump v blk D).
Proof.
  intros [Hi Hh]. split; [by rewrite bump_ids|]. intros a h. rewrite bump_hash. apply Hh.
Qed.
Lemma bump_cache v blk D C : cache_ok D C → cache_ok (bump v blk D) C.
Proof. apply cache_ok_same_hash. apply bump_hash. Qed.

Lemma bump_spec p0 free D C v blk :
  triple (Rep p0 free D C) (update_block blk (λ b, set_ref_cnt (ref_cnt b + v) b))
    (λ _, Rep p0 free (bump v blk D) C).
Proof. apply update_block_spec. apply (data_fn_ref (λ r, r + v)). Qed.

(** Every block of the pool with a reference count read off the data. *)
Lemma block_read {A} p0 n free D C blk (K : KVCacheBlock → M BlockPool A) Q :
  dims n D → (blk < n)%nat →
  (∀ b, ref_cnt b = ref_of D blk → is_null b = bool_decide (blk = 0%nat) →
        _block_hash b = hash_of D blk → block_id b = Z.of_nat blk →
        triple (Rep p0 free D C) (K b) Q) →
  triple (Rep p0 free D C) (bind (block blk) K) Q.
Proof.
  intros Hd Hb Hk. destruct (dims_lookup n D blk Hd Hb) as (x & Hx & Hid & Hnull).
  eapply block_bind; [done|]. intros b Hu. apply Hk.
  - unfold ref_of. rewrite Hx, <- Hu. done.
  - rewrite <- Hnull, <- Hu. done.
  - unfold hash_of. rewrite Hx, <- Hu. done.
  - rewrite <- Hid, <- Hu. done.
Qed.

Lemma dims_is_Some n D a : dims n D → (a < n)%nat → is_Some (D !! a).
Proof. intros Hd Ha. destruct (dims_lookup n D a Hd Ha) as (x & Hx & _). eauto. Qed.

Definition touch_body (blk : loc) : M BlockPool unit :=
  let* b := block blk in
  (if bool_decide (ref_cnt b = 0) && negb (is_null b)
   then on_mem (FreeQueue.remove blk) else ret tt) ;;;
  update_block blk (λ b, set_ref_cnt (ref_cnt b + 1) b) ;;;
  metrics on_block_accessed blk.

Lemma touch_step p0 n free D C blk :
  NoDup free → wf_data n free D C → (blk < n)%nat →
  triple (Rep p0 free D C) (touch_body blk)
    (λ _, Rep p0 (filter (λ a, a ≠ blk) free) (bump 1 blk D) C).
Proof.
  intros Hnd Hw Hb. pose proof (wd_dims _ _ _ _ Hw) as Hd.
  eapply block_read; [done..|]. intros b Hr Hnull _ _. rewrite Hr, Hnull.
  eapply (triple_bind_unit _ (Rep p0 (filter (λ a, a ≠ blk) free) D C)).
  - destruct (decide (blk ∈ free)) as [Hin|Hin].
    + pose proof (wd_range _ _ _ _ Hw _ Hin) as Hrange.
      assert (Href : ref_of D blk = 0) by by apply (wd_ref _ _ _ _ Hw).
      rewrite !bool_decide_true, bool_decide_false by (done || lia). simpl.
      apply list_elem_of_split in Hin as (l1 & l2 & ->).
      rewrite filter_remove by done.
      apply on_mem_unit_spec. intros p Hp. apply remove_spec, Hp.
    + rewrite filter_absent by done.
      replace (bool_decide (ref_of D blk = 0) && negb (bool_decide (blk = 0%nat))) with false;
        [by apply triple_ret|].
      destruct (decide (blk = 0%nat)) as [->|].
      { rewrite (bool_decide_true (0%nat = 0%nat)) by done. by rewrite andb_false_r. }
      rewrite bool_decide_false; [done|]. intros H0. apply Hin.
      apply (wd_ref _ _ _ _ Hw blk); [lia|done].
  - eapply triple_bind_unit; [apply bump_spec|]. apply metrics_spec.
    unfold bump. rewrite lookup_alter_is_Some. by eapply dims_is_Some.
Qed.

Lemma wf_data_touch n free D C blk :
  wf_data n free D C → (blk < n)%nat →
  wf_data n (filter (λ a, a ≠ blk) free) (bump 1 blk D) C.
Proof.
  intros Hw Hb. pose proof (wd_dims _ _ _ _ Hw) as Hd. split.
  - by apply bump_dims.
  - intros a [_ Ha]%list_elem_of_filter. by apply (wd_range _ _ _ _ Hw).
  - intros a Ha. destruct (wd_ref _ _ _ _ Hw a Ha) as [H1 H2].
    rewrite bump_ref by by eapply dims_is_Some. rewrite list_elem_of_filter.
    split_if as Hab; [subst; split; [lia|]; split; [naive_solver|lia]|].
    rewrite Z.add_0_r. split; [done|]. tauto.
  - by apply bump_cache, Hw.
Qed.

Lemma filter_notin_cons (x : loc) xs (free : list loc) :
  filter (λ a, a ∉ xs) (filter (λ a, a ≠ x) free) = filter (λ a, a ∉ x :: xs) free.
Proof.
  induction free as [|y free IH]; [done|].
  destruct (decide (y = x)) as [->|].
  - rewrite filter_cons_False, (filter_cons_False (λ a, a ∉ x :: xs)) by set_solver +. done.
  - rewrite (filter_cons_True (λ a, a ≠ x)) by done. destruct (decide (y ∈ xs)).
    + rewrite !filter_cons_False by set_solver. done.
    + rewrite !filter_cons_True by set_solver. by f_equal.
Qed.

Lemma touch_loop p0 n blks : ∀ free D C,
  NoDup free → wf_data n free D C → (∀ a, a ∈ blks → (a < n)%nat) →
  triple (Rep p0 free D C) (touch blks)
    (λ _ p, ∃ D', Rep p0 (filter (λ a, a ∉ blks) free) D' C p ∧
       wf_data n (filter (λ a, a ∉ blks) free) D' C ∧
       (∀ a, ref_of D' a = ref_of D a + occ a blks) ∧
       (∀ a, hash_of D' a = hash_of D a)).
Proof.
  induction blks as [|x blks IH]; intros free D C Hnd Hw Hb; unfold touch; simpl.
  { apply triple_ret. intros p Hp. exists D.
    rewrite filter_all by (intros; apply not_elem_of_nil). split_and!; [done|done|intros; unfold occ, len; simpl; lia|done]. }
  assert (Hx : (x < n)%nat) by (apply Hb; set_solver +).
  pose proof (wd_dims _ _ _ _ Hw) as Hd.
  eapply triple_bind; [by apply (touch_step p0 n)|]. intros []. fold (touch blks).
  eapply triple_conseq; [apply (IH (filter (λ a, a ≠ x) free) (bump 1 x D) C)| |].
  - by apply NoDup_filter.
  - by apply wf_data_touch.
  - intros a Ha. apply Hb. by right.
  - intros s Hs. exact Hs.
  - intros [] p (D' & HR & Hw' & Hr & Hh). exists D'. rewrite filter_notin_cons in HR, Hw'.
    split_and!; [done|done| |].
    + intros a. rewrite Hr, occ_cons, bump_ref by by eapply dims_is_Some.
      destruct (decide (a = x)); lia.
    + intros a. by rewrite Hh, bump_hash.
Qed.

Lemma touch_ok p free blks :
  pool_wf p free → (∀ a, a ∈ blks → (a < length (blocks p))%nat) →
  ∃ p', touch blks p = (Ok tt, p') ∧ pool_wf p' (filter (λ a, a ∉ blks) free) ∧
    same_static p p' ∧ (∀ a, ref p' a = ref p a + occ a blks) ∧
    (∀ a, hash p' a = hash p a).
Proof.
  intros Hp Hb.
  destruct (touch_loop p _ blks free _ _ (pool_nodup _ _ Hp) (pw_data _ _ Hp) Hb p
              (pool_wf_rep _ _ Hp)) as ([] & p' & Hrun & D' & HR & Hw & Hr & Hh).
  exists p'. split; [done|]. destruct (rep_pool_wf _ _ _ _ _ _ Hp HR Hw) as (? & ? & HD).
  unfold ref, hash. by rewrite HD.
Qed.

(** ** [free_blocks] *)

Lemma rep_not_in_path p0 n free D C p a :
  static_ok n p0 → Rep p0 free D C p → (a < n)%nat → a ∉ free → a ∉ path_of (mem p) free.
Proof.
  intros Hs HR Ha Hf. destruct (static_ok_same _ _ _ (rep_static _ _ _ _ _ HR) Hs).
  unfold path_of. rewrite so_head0, so_tail0.
  intros [->|[?| ->%list_elem_of_singleton]%elem_of_app]%elem_of_cons; (lia || done).
Qed.

(** The data after the reference count of every block of [xs] was decremented. *)
Definition unref (xs : list loc) (D : data_map) : data_map :=
  foldl (λ D x, bump (-1) x D) D xs.

Lemma unref_spec n xs : ∀ D,
  dims n D → (∀ a, a ∈ xs → (a < n)%nat) →
  dims n (unref xs D) ∧ (∀ a, ref_of (unref xs D) a = ref_of D a - occ a xs) ∧
  (∀ a, hash_of (unref xs D) a = hash_of D a).
Proof.
  induction xs as [|x xs IH]; intros D Hd Hx; simpl.
  { split_and!; [done| |done]. intros. unfold occ, len. simpl. lia. }
  destruct (IH (bump (-1) x D)) as (H1 & H2 & H3); [by apply bump_dims|set_solver +Hx|].
  split_and!; [done| |].
  - intros a. rewrite H2, occ_cons, bump_ref.
    + destruct (decide (a = x)); lia.
    + eapply dims_is_Some; [done|]. apply Hx. set_solver +.
  - intros a. by rewrite H3, bump_hash.
Qed.

Lemma unref_loop p0 free C xs : ∀ D,
  triple (Rep p0 free D C)
    (for_ xs (λ blk, update_block blk (λ b, set_ref_cnt (ref_cnt b - 1) b)))
    (λ _, Rep p0 free (unref xs D) C).
Proof.
  induction xs as [|x xs IH]; intros D; simpl; [by apply triple_ret|].
  eapply triple_bind_unit; [|apply IH]. apply (bump_spec _ _ _ _ (-1)).
Qed.

(** The blocks of [xs] that have become free. *)
Definition released (D : data_map) (xs : list loc) : list loc :=
  filter (λ a, ref_of D a = 0 ∧ a ≠ 0%nat) xs.

Lemma free_candidates_spec p0 n free D C xs :
  dims n D → (∀ a, a ∈ xs → (a < n)%nat) →
  triple (Rep p0 free D C) (free_candidates xs)
    (λ r p, r = released D xs ∧ Rep p0 free D C p).
Proof.
  intros Hd. induction xs as [|x xs IH]; intros Hx; simpl; [by apply triple_ret|].
  eapply block_read; [done|apply Hx; set_solver +|]. intros b Hr Hnull _ _.
  eapply triple_bind; [apply IH; set_solver +Hx|]. intros r. cbv beta. apply triple_pure.
  intros ->. apply triple_ret. intros p Hp. split; [|done]. rewrite Hr, Hnull. unfold released.
  destruct (decide (ref_of D x = 0 ∧ x ≠ 0%nat)) as [Hc|Hc].
  - rewrite filter_cons_True by done.
    by rewrite bool_decide_true, bool_decide_false by tauto.
  - rewrite filter_cons_False by done.
    destruct (decide (ref_of D x = 0)).
    + rewrite (bool_decide_true (x = 0%nat)) by (destruct (decide (x = 0%nat)); tauto).
      by rewrite andb_false_r.
    + by rewrite bool_decide_false.
Qed.

(** A caller may free a block once at a time, and only a block it holds. *)
Record freeable (p : BlockPool) (xs : list loc) : Prop := {
  fr_range : ∀ a, a ∈ xs → (a < length (blocks p))%nat;
  fr_nodup : NoDup (filter (λ a : loc, a ≠ 0%nat) xs);
  fr_ref : ∀ a, a ∈ xs → a ≠ 0%nat → 0 < ref p a
}.

Lemma occ_freeable p xs a : freeable p xs → a ≠ 0%nat → occ a xs ≤ 1.
Proof.
  intros Hf Ha. destruct Hf as [_ Hnd _]. clear -Hnd Ha.
  induction xs as [|x xs IH]; [unfold occ, len; simpl; lia|]. rewrite occ_cons.
  destruct (decide (a = x)) as [<-|].
  - rewrite filter_cons_True in Hnd by done. apply NoDup_cons in Hnd as [Hx Hnd].
    rewrite occ_absent; [lia|]. intros Hin. apply Hx. by apply list_elem_of_filter.
  - rewrite Z.add_0_l. apply IH. destruct (decide (x = 0%nat)).
    + by rewrite filter_cons_False in Hnd by tauto.
    + rewrite filter_cons_True in Hnd by done. by apply NoDup_cons in Hnd as [_ ?].
Qed.

Lemma released_nodup D p xs : freeable p xs → NoDup (released D xs).
Proof.
  intros Hf. destruct Hf as [_ Hnd _]. unfold released.
  replace (filter (λ a, ref_of D a = 0 ∧ a ≠ 0%nat) xs)
    with (filter (λ a, ref_of D a = 0) (filter (λ a : loc, a ≠ 0%nat) xs)).
  - by apply NoDup_filter.
  - clear. induction xs as [|x xs IH]; [done|]. destruct (decide (x = 0%nat)).
    + rewrite filter_cons_False, filter_cons_False by tauto. done.
    + rewrite filter_cons_True by done. destruct (decide (ref_of D x = 0)).
      * rewrite !filter_cons_True by tauto. by f_equal.
      * rewrite !filter_cons_False by tauto. done.
Qed.

Lemma wf_data_free p free xs (D := unref xs (data p)) :
  pool_wf p free → freeable p xs →
  wf_data (length (blocks p)) (free ++ released D xs) D (cached_block_hash_to_block p).
Proof.
  intros Hp Hf. pose proof (pw_data _ _ Hp) as Hw. set (n := length (blocks p)) in *.
  destruct (unref_spec n xs (data p)) as (H1 & H2 & H3); [apply Hw|apply Hf|]. fold D in H1, H2, H3.
  split; [done| | |].
  - intros a [Ha|[[_ Ha0] Ha]%list_elem_of_filter]%elem_of_app;
      [by apply (wd_range _ _ _ _ Hw)|]. pose proof (fr_range _ _ Hf a Ha). unfold n. lia.
  - intros a Ha. destruct (wd_ref _ _ _ _ Hw a Ha) as [Hr Hin].
    pose proof (occ_nonneg a xs). rewrite H2, elem_of_app. unfold released.
    rewrite list_elem_of_filter, H2.
    destruct (decide (a ∈ xs)) as [Hx|Hx].
    + pose proof (fr_ref _ _ Hf a Hx ltac:(lia)) as Hpos. unfold ref in Hpos.
      pose proof (occ_freeable _ _ a Hf ltac:(lia)).
      split; [lia|]. split.
      * intros [Hfree|[[? _] _]]; [apply Hin in Hfree; lia|done].
      * intros Hz. right. split_and!; [done|lia|done].
    + rewrite occ_absent, Z.sub_0_r by done. split; [done|]. split.
      * intros [?|[_ ?]]; [by apply Hin|done].
      * intros Hz. left. by apply Hin.
  - eapply cache_ok_same_hash; [exact H3|]. apply Hw.
Qed.

Lemma free_blocks_ok p free xs :
  pool_wf p free → freeable p xs →
  ∃ p', free_blocks xs p = (Ok tt, p') ∧
    pool_wf p' (free ++ filter (λ a, ref p' a = 0 ∧ a ≠ 0%nat) xs) ∧ same_static p p' ∧
    (∀ a, ref p' a = ref p a - occ a xs) ∧ (∀ a, hash p' a = hash p a).
Proof.
  intros Hp Hf. pose proof (wf_data_free _ _ _ Hp Hf) as Hw'.
  pose proof (pw_data _ _ Hp) as Hw. set (D := unref xs (data p)) in *.
  destruct (unref_spec _ xs (data p) (wd_dims _ _ _ _ Hw) (fr_range _ _ Hf)) as (H1 & H2 & H3).
  fold D in H1, H2, H3. set (C := cached_block_hash_to_block p) in *.
  assert (Hrun : triple (Rep p free (data p) C) (free_blocks xs)
    (λ _, Rep p (free ++ released D xs) D C)).
  { unfold free_blocks. eapply triple_bind_unit; [apply unref_loop|]. fold D.
    eapply triple_bind; [eapply free_candidates_spec; [exact H1|apply Hf]|].
    intros r. cbv beta. apply triple_pure. intros ->. apply on_mem_unit_spec.
    intros q Hq. apply append_n_spec; [apply Hq|by eapply released_nodup| |].
    - intros a [[Ha Ha0] Hx]%list_elem_of_filter.
      eapply rep_not_in_path; [apply Hp|exact Hq|by apply Hf|]. intros Hfree.
      pose proof (fr_ref _ _ Hf a Hx Ha0). unfold ref in *.
      pose proof (wd_range _ _ _ _ Hw _ Hfree) as Hr.
      apply (wd_ref _ _ _ _ Hw a Hr) in Hfree. lia.
    - intros a [_ Hx]%list_elem_of_filter.
      pose proof (dims_is_Some _ _ a H1 (fr_range _ _ Hf a Hx)) as HD.
      rewrite <- (rep_data _ _ _ _ _ Hq) in HD. unfold data, strip in HD.
      by rewrite lookup_fmap, fmap_is_Some in HD. }
  destruct (Hrun p (pool_wf_rep _ _ Hp)) as ([] & p' & Heq & HR). exists p'. split; [done|].
  destruct (rep_pool_wf _ _ _ _ _ _ Hp HR Hw') as (Hwf & Hss & HD). unfold ref, hash.
  rewrite HD. split_and!; [|done|done|done]. done.
Qed.
