(* ===== verification/BlockPoolSpec.v ===== *)
(** Functional specifications of the remaining operations of the block pool:
    caching full blocks, looking blocks up by hash, evicting blocks, resetting
    the prefix cache and constructing the pool. *)

From S2P Require Import Prelude.
From S2P Require Import KVBlocks.
From S2P Require Import Request.
From S2P Require Import BlockHash.
From S2P Require Import KVCacheMetrics.
From S2P Require Import BlockPool.

(** ** [cache_full_blocks] *)

(** The view of the request's hashes at the block size of a group. *)
Definition hash_view (hash_size block_size : Z) (hashes : list bytes) : BlockHashList :=
  if decide (block_size = hash_size) then HPlain hashes
  else HScaled (mkHashList hashes (block_size / hash_size)).

(** Blocks that may receive a hash: null blocks are skipped, the others occur
    once and have none yet. *)
Record cacheable (n : nat) (D : data_map) (blks : list loc) : Prop := {
  ca_range : ∀ a, a ∈ blks → (a < n)%nat;
  ca_nodup : NoDup (filter (λ a : loc, a ≠ 0%nat) blks);
  ca_fresh : ∀ a, a ∈ blks → a ≠ 0%nat → hash_of D a = None
}.

Lemma cacheable_tail n D x blks : cacheable n D (x :: blks) → cacheable n D blks.
Proof.
  intros [Hr Hnd Hf]. split; [set_solver +Hr| |set_solver +Hf].
  destruct (decide (x = 0%nat)).
  - by rewrite filter_cons_False in Hnd by tauto.
  - rewrite filter_cons_True in Hnd by done. by apply NoDup_cons in Hnd as [_ ?].
Qed.

Lemma cacheable_head n D x blks :
  cacheable n D (x :: blks) → x ≠ 0%nat → x ∉ blks.
Proof.
  intros [_ Hnd _] Hx. rewrite filter_cons_True in Hnd by done.
  apply NoDup_cons in Hnd as [Hn _]. intros Hin. apply Hn. by apply list_elem_of_filter.
Qed.

Section cache_loop.
Context (p0 : BlockPool) (n : nat) (free : list loc) (gid : Z).
Context (Hgid : 0 ≤ gid < 2 ^ 32).

(** The data and the map after block [x] was cached under hash [h]. *)
Lemma cache_one_spec D C x h :
  dims n D → cache_ok D C → (0 < x < n)%nat → hash_of D x = None →
  let key := h ++ be_bytes 4 gid in
  let D' := alter (set_hash (Some key)) x D in
  triple (Rep p0 free D C) (on_mem (set_block_hash x key)) (λ _, Rep p0 free D' C) ∧
  triple (Rep p0 free D' C) (BlockHashToBlock.insert key x)
    (λ _, Rep p0 free D' (cache_insert C key x)) ∧
  dims n D' ∧ cache_ok D' (cache_insert C key x).
Proof.
  intros Hd Hok Hx Hnone key D'.
  destruct (dims_lookup n D x Hd ltac:(lia)) as (y & Hy & Hid & Hnull).
  assert (Hyh : _block_hash y = None) by (unfold hash_of in Hnone; by rewrite Hy in Hnone).
  assert (Hd' : dims n D').
  { split; [unfold D'; rewrite ids_alter by done; apply Hd|]. intros a k. unfold D'.
    rewrite hash_of_alter. split_if as Ha; [subst; done|]. apply Hd. }
  split_and!; [| |done|by eapply cache_ok_set].
  - apply on_mem_alter.
    + apply data_fn_hash.
    + intros q Hq. pose proof (rep_data _ _ _ _ _ Hq) as HD. rewrite <- HD in Hy.
      destruct (data_lookup q x y Hy) as (b & Hb & Hu). unfold set_block_hash.
      rewrite (bind_rd _ _ _ _ Hb). rewrite <- Hu in Hyh. simpl in Hyh.
      by rewrite bind_assert_true by (by apply bool_decide_eq_true_2).
  - eapply insert_spec.
    + intros b Hb. apply (ids_of_cache_ok D C) in Hb as (z & Hz & Hzid);
        [|by eapply dims_ids_ok|done]. unfold D'. destruct (decide (b = x)) as [->|].
      * exists (set_hash (Some key) z). rewrite lookup_alter_eq, Hz. done.
      * exists z. by rewrite lookup_alter_ne.
    + unfold D'. rewrite lookup_alter_eq, Hy. done.
    + done.
Qed.

Lemma cache_loop_spec hs blks : ∀ i D C,
  dims n D → cache_ok D C → cacheable n D blks → 0 ≤ i → i + len blks ≤ len hs →
  triple (Rep p0 free D C) (cache_loop blks hs i gid)
    (λ _ p, ∃ D' C', Rep p0 free D' C' p ∧ dims n D' ∧ cache_ok D' C' ∧
       (∀ a, ref_of D' a = ref_of D a) ∧
       (∀ j a h, blks !! j = Some a → a ≠ 0%nat → hs !! (Z.to_nat i + j)%nat = Some h →
          hash_of D' a = Some (h ++ be_bytes 4 gid)) ∧
       (∀ a, a ∉ blks ∨ a = 0%nat → hash_of D' a = hash_of D a)).
Proof.
  induction blks as [|x blks IH]; intros i D C Hd Hok Hc Hi Hlen; simpl.
  { apply triple_ret. intros p Hp. exists D, C. split_and!; naive_solver. }
  rewrite len_cons in Hlen. pose proof (len_nonneg blks).
  eapply block_read; [done|apply Hc; set_solver +|]. intros b _ Hnull Hh _. rewrite Hnull.
  destruct (decide (x = 0%nat)) as [->|Hx0].
  - rewrite bool_decide_true by done.
    eapply triple_conseq; [apply (IH (i + 1) D C)|intros s Hs; exact Hs|];
      [done|done|by eapply cacheable_tail|lia|lia|].
    intros r p (D' & C' & HR & Hd' & Hok' & Hr & Hset & Hkeep).
    exists D', C'. split_and!; [done..| |].
    + intros [|j] a h; simpl; [congruence|]. intros Hj Ha Hh'. apply (Hset j a h); [done..|].
      replace (Z.to_nat (i + 1) + j)%nat with (Z.to_nat i + S j)%nat by lia. done.
    + intros a Ha. apply Hkeep. set_solver +Ha.
  - rewrite bool_decide_false by done.
    assert (Hnone : hash_of D x = None) by (apply Hc; [set_solver +|done]).
    eapply triple_bind_unit.
    { apply triple_assert. apply bool_decide_eq_true_2. by rewrite Hh. }
    destruct (py_index_lt hs i) as [h Hih]; [lia|].
    eapply triple_some_bind; [exact Hih|].
    eapply triple_ok_bind; [by apply make_key_ok|].
    assert (Hxn : (0 < x < n)%nat).
    { pose proof (ca_range _ _ _ Hc x ltac:(set_solver +)). lia. }
    destruct (cache_one_spec D C x h Hd Hok Hxn Hnone) as (Ht1 & Ht2 & Hd1 & Hok1).
    eapply triple_bind_unit; [exact Ht1|]. eapply triple_bind_unit; [exact Ht2|].
    clear Ht1 Ht2. apply triple_gets_any. intros ih.
    set (key := h ++ be_bytes 4 gid) in *. set (D1 := alter (set_hash (Some key)) x D) in *.
    pose proof (cacheable_head _ _ _ _ Hc Hx0) as Hxb.
    assert (H1 : ∀ a, hash_of D1 a = if decide (a = x) then Some key else hash_of D a).
    { intros a. unfold D1. rewrite hash_of_alter. split_if as Ha; [|done].
      destruct (dims_lookup n D x Hd) as (y & -> & _); [lia|done]. }
    assert (Hc1 : cacheable n D1 blks).
    { pose proof (cacheable_tail _ _ _ _ Hc) as [? ? Hf]. split; [done..|].
      intros a Ha Ha0. rewrite H1, decide_False by (intros ->; done). by apply Hf. }
    eapply triple_bind; [apply (IH (i + 1) D1 (cache_insert C key x)); [done..|lia|lia]|].
    intros r. cbv beta. apply triple_ret.
    intros p (D' & C' & HR & Hd' & Hok' & Hr & Hset & Hkeep).
    exists D', C'. split_and!; [done..| | |].
    + intros a. rewrite Hr. apply ref_of_alter_hash.
    + intros [|j] a h'; simpl.
      * intros [= <-] _ Hh'. rewrite Hkeep by auto. rewrite H1, decide_True by done.
        rewrite py_index_nonneg in Hih by lia. rewrite Nat.add_0_r in Hh'.
        assert (Some h = Some h') as [= ->] by (etrans; [symmetry; exact Hih|exact Hh']). done.
      * intros Hj Ha Hh'. apply (Hset j a h'); [done..|].
        replace (Z.to_nat (i + 1) + j)%nat with (Z.to_nat i + S j)%nat by lia. done.
    + intros a Ha. rewrite Hkeep by set_solver +Ha. rewrite H1, decide_False; [done|].
      intros ->. set_solver +Ha Hx0.
Qed.
End cache_loop.

Lemma slice_lookup {A} (l : list A) a b j :
  0 ≤ a → a ≤ b → b ≤ len l → 0 ≤ j < b - a →
  py_slice l a b !! Z.to_nat j = l !! Z.to_nat (a + j).
Proof.
  intros Ha Hab Hb Hj. rewrite py_slice_nonneg by lia. rewrite lookup_drop.
  rewrite lookup_take_lt by lia. f_equal. lia.
Qed.

Lemma slice_len {A} (l : list A) a b :
  0 ≤ a → a ≤ b → b ≤ len l → len (py_slice l a b) = b - a.
Proof.
  intros Ha Hab Hb. rewrite py_slice_nonneg by lia. unfold len in *.
  rewrite length_drop, length_take. lia.
Qed.

Lemma cache_full_blocks_run p free r blks nc nf bs gid
    (view := hash_view (hash_block_size p) bs (block_hashes r)) :
  pool_wf p free → 0 ≤ gid < 2 ^ 32 → 0 ≤ nc < nf → nf ≤ len blks →
  0 < hash_block_size p ≤ bs → bs mod hash_block_size p = 0 → nf ≤ view_len view →
  cacheable (length (blocks p)) (data p) (py_slice blks nc nf) →
  ∃ hs, hashes_from view nc = Ok hs ∧ nf - nc ≤ len hs ∧
  triple (Rep p free (data p) (cached_block_hash_to_block p))
    (cache_full_blocks r blks nc nf bs gid)
    (λ _ p', ∃ D' C', Rep p free D' C' p' ∧ dims (length (blocks p)) D' ∧ cache_ok D' C' ∧
       (∀ a, ref_of D' a = ref_of (data p) a) ∧
       (∀ j a h, py_slice blks nc nf !! j = Some a → a ≠ 0%nat → hs !! j = Some h →
          hash_of D' a = Some (h ++ be_bytes 4 gid)) ∧
       (∀ a, a ∉ py_slice blks nc nf ∨ a = 0%nat → hash_of D' a = hash_of (data p) a)).
Proof.
  intros Hp Hgid Hnc Hnf Hbs Hmod Hview Hc.
  assert (Hvok : view_ok view).
  { unfold view, hash_view. destruct (decide _); simpl; [done|]. apply Z.div_str_pos. lia. }
  destruct (hashes_from_ok view nc Hvok ltac:(lia)) as (hs & Hhs & Hlhs & Hget).
  exists hs. split; [done|]. split; [lia|].
  unfold cache_full_blocks. rewrite decide_False by lia.
  assert (Hall : nf ≤ len (block_hashes r)).
  { unfold view, hash_view in Hview. destruct (decide _); simpl in Hview; [done|].
    unfold hash_list_len in Hview. simpl in Hview. pose proof (len_nonneg (block_hashes r)).
    assert (0 < bs / hash_block_size p) by (apply Z.div_str_pos; lia).
    assert (len (block_hashes r) / (bs / hash_block_size p) ≤ len (block_hashes r))
      by (apply Z.div_le_upper_bound; nia). lia. }
  eapply triple_bind_unit; [apply triple_assert; by apply bool_decide_eq_true_2|].
  eapply (triple_gets_val _ _ (hash_block_size p)); [by intros s [[]]|].
  eapply (triple_bind _ _ _ (λ v s, v = view ∧ Rep p free (data p) (cached_block_hash_to_block p) s)).
  { unfold view, hash_view. destruct (decide (bs = hash_block_size p)); [by apply triple_ret|].
    eapply triple_bind_unit; [apply triple_assert; by apply bool_decide_eq_true_2|].
    eapply triple_ok_bind; [unfold BlockHashListWithBlockSize_init; by rewrite decide_True|].
    by apply triple_ret. }
  intros v. cbv beta. apply triple_pure. intros ->.
  eapply triple_ok_bind; [exact Hhs|].
  eapply triple_bind.
  { apply (cache_loop_spec p (length (blocks p)) free gid Hgid hs (py_slice blks nc nf) 0);
      [apply Hp|apply Hp|done|done|]. rewrite slice_len by lia. lia. }
  intros r'. cbv beta. apply triple_gets_any. intros [|]; [|by apply triple_ret].
  apply triple_gets_any. intros ih s (D' & C' & HR & Hrest).
  assert (Hev : triple (Rep p free D' C')
    (let* parent :=
      (if decide (nc = 0) then ret None
       else let* h := of_res (hashes_index view (nc - 1)) in
            ret (Some (maybe_convert_block_hash ih h))) in
     push_event (EvBlockStored (mkBlockStored r' parent
      (py_slice (_all_token_ids r) (nc * bs) (nf * bs))
      bs (lora_int_id <$> lora_request r) MEDIUM_GPU (lora_name <$> lora_request r))))
    (λ _, Rep p free D' C')).
  { eapply (triple_bind _ _ _ (λ _, Rep p free D' C')); [|intros; apply push_event_spec].
    destruct (decide (nc = 0)); [by apply triple_ret|].
    destruct (hashes_index_ok view (nc - 1) Hvok ltac:(lia)) as [h Hh].
    eapply triple_ok_bind; [exact Hh|]. by apply triple_ret. }
  destruct (Hev s HR) as ([] & s' & Hrun & HR'). exists tt, s'. eauto 10.
Qed.

Lemma wf_data_same_ref n free D D' C C' :
  wf_data n free D C → dims n D' → cache_ok D' C' → (∀ a, ref_of D' a = ref_of D a) →
  wf_data n free D' C'.
Proof.
  intros Hw Hd Hok Hr. split; [done|apply Hw| |done]. intros a Ha. rewrite Hr.
  by apply (wd_ref _ _ _ _ Hw).
Qed.

(** The hashes of the blocks of [blks] from [nc] to [nf] are those of the view,
    packed with the group id; every other block keeps its hash. *)
Lemma cache_full_blocks_ok p free r blks nc nf bs gid
    (view := hash_view (hash_block_size p) bs (block_hashes r)) :
  pool_wf p free → 0 ≤ gid < 2 ^ 32 → 0 ≤ nc < nf → nf ≤ len blks →
  0 < hash_block_size p ≤ bs → bs mod hash_block_size p = 0 → nf ≤ view_len view →
  cacheable (length (blocks p)) (data p) (py_slice blks nc nf) →
  ∃ p', cache_full_blocks r blks nc nf bs gid p = (Ok tt, p') ∧ pool_wf p' free ∧
    same_static p p' ∧ (∀ a, ref p' a = ref p a) ∧
    (∀ i a, nc ≤ i < nf → blks !! Z.to_nat i = Some a → a ≠ 0%nat →
       ∃ h, hashes_index view i = Ok h ∧ hash p' a = Some (h ++ be_bytes 4 gid)) ∧
    (∀ a, a ∉ py_slice blks nc nf ∨ a = 0%nat → hash p' a = hash p a).
Proof.
  intros Hp Hgid Hnc Hnf Hbs Hmod Hview Hc.
  destruct (cache_full_blocks_run p free r blks nc nf bs gid)
    as (hs & Hhs & Hlhs & Hrun); [done..|].
  destruct (Hrun p (pool_wf_rep _ _ Hp)) as ([] & p' & Heq & D' & C' & HR & Hd & Hok & Hr & Hset & Hkeep).
  exists p'. split; [done|].
  destruct (rep_pool_wf p p' free free D' C' Hp HR) as (Hwf & Hss & HD).
  { eapply wf_data_same_ref; [apply Hp|done..]. }
  split; [done|]. split; [done|]. unfold ref, hash. rewrite HD. split; [done|]. split; [|done].
  intros i a Hi Ha Ha0.
  assert (Hvok : view_ok view).
  { unfold view, hash_view. destruct (decide _); simpl; [done|]. apply Z.div_str_pos. lia. }
  destruct (hashes_from_ok view nc Hvok ltac:(lia)) as (hs' & Hhs' & _ & Hget).
  assert (hs' = hs) as -> by (unfold view in Hhs'; congruence).
  destruct (lookup_lt_is_Some_2 hs (Z.to_nat (i - nc))) as [h Hh]; [unfold len in Hlhs; lia|].
  exists h. split.
  - apply Hget in Hh. by replace (nc + Z.of_nat (Z.to_nat (i - nc))) with i in Hh by lia.
  - apply (Hset (Z.to_nat (i - nc)) a h); [|done|done]. rewrite slice_lookup by lia.
    by replace (nc + (i - nc)) with i by lia.
Qed.

Lemma cache_full_blocks_nothing p r blks nc nf bs gid :
  nf ≤ nc → cache_full_blocks r blks nc nf bs gid p = (Ok tt, p).
Proof. intros. unfold cache_full_blocks. by rewrite decide_True by lia. Qed.

(** ** [get_cached_block] *)

Lemma get_one_block_ok p free k :
  pool_wf p free →
  ∃ r, BlockHashToBlock.get_one_block k p = (Ok r, p) ∧
    match r with
    | Some b => hash p b = Some k
    | None => ∀ b, hash p b ≠ Some k
    end.
Proof.
  intros Hp. destruct (wd_cache _ _ _ _ (pw_data _ _ Hp)) as [Hwf Hinv].
  specialize (Hinv k). unfold cache_lookup in Hinv. unfold BlockHashToBlock.get_one_block.
  rewrite bind_gets. destruct (cached_block_hash_to_block p !! k) as [[b|d]|] eqn:Hk.
  - exists (Some b). split; [done|]. apply Hinv. set_solver +.
  - destruct (Hwf _ _ Hk) as (Hd & _). destruct d as [|[i b] d]; [done|].
    exists (Some b). split; [done|]. apply Hinv. set_solver +.
  - exists None. split; [done|]. intros b Hb. apply Hinv in Hb. set_solver +Hb.
Qed.

(** The blocks found carry the wanted hash for each group; when nothing is
    returned, some group has no block with the hash. *)
Definition found (p : BlockPool) (h : bytes) (gids : list Z) (r : option (list loc)) : Prop :=
  match r with
  | Some bs => Forall2 (λ g b, hash p b = Some (h ++ be_bytes 4 g)) gids bs
  | None => ∃ g, g ∈ gids ∧ ∀ b, hash p b ≠ Some (h ++ be_bytes 4 g)
  end.

Lemma get_cached_block_ok p free h gids :
  pool_wf p free → (∀ g, g ∈ gids → 0 ≤ g < 2 ^ 32) →
  ∃ r, get_cached_block h gids p = (Ok r, p) ∧ found p h gids r.
Proof.
  intros Hp. induction gids as [|g gids IH]; intros Hg; simpl.
  { exists (Some []). split; [done|]. constructor. }
  unfold group_key. rewrite make_key_ok by (apply Hg; set_solver +).
  rewrite bind_of_res.
  destruct (get_one_block_ok p free (h ++ be_bytes 4 g) Hp) as (o & Ho & Hspec).
  rewrite (bind_ok _ _ _ _ _ Ho). destruct o as [b|].
  - destruct IH as (r & Hr & Hf); [set_solver +Hg|]. rewrite (bind_ok _ _ _ _ _ Hr).
    exists (cons b <$> r). split; [done|]. destruct r as [bs|]; simpl in *.
    + by constructor.
    + destruct Hf as (g' & ? & ?). exists g'. split; [by right|done].
  - exists None. split; [done|]. exists g. split; [by left|done].
Qed.

(** ** [evict_blocks] and [reset_prefix_cache] *)

Lemma evict_blocks_run p0 n free ids0 : ∀ D C,
  dims n D → cache_ok D C → blocks p0 = seq 0 n → (∀ i, i ∈ ids0 → 0 ≤ i < Z.of_nat n) →
  triple (Rep p0 free D C) (evict_blocks ids0)
    (λ _ p, ∃ D' C', Rep p0 free D' C' p ∧ dims n D' ∧ cache_ok D' C' ∧
       (∀ a, ref_of D' a = ref_of D a) ∧
       (∀ a, hash_of D' a = if decide (Z.of_nat a ∈ ids0) then None else hash_of D a)).
Proof.
  unfold evict_blocks. induction ids0 as [|i ids0 IH]; intros D C Hd Hok Hbs Hin; simpl.
  { apply triple_ret. intros p Hp. by exists D, C. }
  assert (Hi : 0 ≤ i < Z.of_nat n) by (apply Hin; by left).
  destruct (dims_lookup n D (Z.to_nat i) Hd ltac:(lia)) as (x & Hx & _).
  set (b := Z.to_nat i) in *.
  eapply (triple_bind_unit _ (Rep p0 free (evict_data D b) (evict_cache D C b))).
  { eapply (triple_gets_val _ _ (seq 0 n)); [intros s [[]]; congruence|].
    eapply triple_bind_unit.
    { apply triple_assert. apply bool_decide_eq_true_2. unfold len. rewrite length_seq. lia. }
    eapply (triple_some_bind _ _ _ b).
    { rewrite py_index_nonneg, lookup_seq_lt by lia. done. }
    eapply triple_bind; [eapply maybe_evict_spec; [done|by eapply dims_ids_ok|done]|].
    intros r. cbv beta. apply triple_pure. intros _. by apply triple_ret. }
  assert (Hh1 : ∀ a, hash_of (evict_data D b) a = if decide (a = b) then None else hash_of D a).
  { intros a. unfold evict_data. rewrite hash_of_alter. split_if as Ha; [|done]. by destruct (D !! b). }
  eapply triple_conseq; [apply (IH (evict_data D b) (evict_cache D C b))|done|].
  - split; [unfold evict_data; rewrite ids_alter by done; apply Hd|]. intros a k.
    rewrite Hh1. split_if as Ha; [done|]. apply Hd.
  - by apply evict_ok.
  - done.
  - intros j Hj. apply Hin. by right.
  - intros [] p (D' & C' & HR & Hd' & Hok' & Hr & Hh). exists D', C'. split_and!; [done..| |].
    + intros a. rewrite Hr. apply ref_of_alter_hash.
    + intros a. rewrite Hh, Hh1. destruct (decide (Z.of_nat a ∈ ids0)).
      * by rewrite decide_True by (right; done).
      * destruct (decide (a = b)) as [->|]; [rewrite decide_True by (apply elem_of_cons; left; lia); done|].
        rewrite decide_False; [done|]. intros [|]%elem_of_cons; [lia|done].
Qed.

Lemma evict_blocks_ok p free ids0 :
  pool_wf p free → (∀ i, i ∈ ids0 → 0 ≤ i < len (blocks p)) →
  ∃ p', evict_blocks ids0 p = (Ok tt, p') ∧ pool_wf p' free ∧ same_static p p' ∧
    (∀ a, ref p' a = ref p a) ∧
    (∀ a, hash p' a = if decide (Z.of_nat a ∈ ids0) then None else hash p a).
Proof.
  intros Hp Hin.
  destruct (evict_blocks_run p _ free ids0 _ _ (wd_dims _ _ _ _ (pw_data _ _ Hp))
    (wd_cache _ _ _ _ (pw_data _ _ Hp)) (so_blocks _ _ (pw_static _ _ Hp)) Hin p
    (pool_wf_rep _ _ Hp)) as ([] & p' & Hrun & D' & C' & HR & Hd & Hok & Hr & Hh).
  exists p'. split; [done|].
  destruct (rep_pool_wf p p' free free D' C' Hp HR) as (Hwf & Hss & HD).
  { eapply wf_data_same_ref; [apply Hp|done..]. }
  unfold ref, hash. by rewrite HD.
Qed.

Lemma reset_loop p0 free C xs : ∀ D,
  triple (Rep p0 free D C) (for_ xs (λ blk, on_mem (reset_hash blk)))
    (λ _ p, Rep p0 free (foldl (λ D x, evict_data D x) D xs) C p).
Proof.
  induction xs as [|x xs IH]; intros D; simpl; [by apply triple_ret|].
  eapply triple_bind_unit; [|apply IH]. apply on_mem_alter; [apply data_fn_hash|done].
Qed.

Lemma reset_all n xs : ∀ D,
  dims n D →
  let D' := foldl (λ D x, evict_data D x) D xs in
  dims n D' ∧ (∀ a, ref_of D' a = ref_of D a) ∧
  (∀ a, hash_of D' a = if decide (a ∈ xs) then None else hash_of D a).
Proof.
  induction xs as [|x xs IH]; intros D Hd; simpl.
  { done. }
  assert (Hh1 : ∀ a, hash_of (evict_data D x) a = if decide (a = x) then None else hash_of D a).
  { intros a. unfold evict_data. rewrite hash_of_alter. split_if as Ha; [|done]. by destruct (D !! x). }
  destruct (IH (evict_data D x)) as (H1 & H2 & H3).
  { split; [unfold evict_data; rewrite ids_alter by done; apply Hd|]. intros a k.
    rewrite Hh1. split_if as Ha; [done|]. apply Hd. }
  split_and!; [done| |].
  - intros a. rewrite H2. apply ref_of_alter_hash.
  - intros a. rewrite H3, Hh1. destruct (decide (a ∈ xs)).
    + by rewrite decide_True by (right; done).
    + destruct (decide (a = x)) as [->|]; [by rewrite decide_True by (left; done)|].
      rewrite decide_False; [done|]. intros [|]%elem_of_cons; done.
Qed.

Lemma reset_prefix_cache_ok p free :
  pool_wf p free → len free = num_gpu_blocks p - 1 →
  ∃ p', reset_prefix_cache p = (Ok true, p') ∧ pool_wf p' free ∧ same_static p p' ∧
    (∀ a, ref p' a = ref p a) ∧ (∀ a, hash p' a = None) ∧ cached_block_hash_to_block p' = ∅.
Proof.
  intros Hp Hfree. pose proof (wd_dims _ _ _ _ (pw_data _ _ Hp)) as Hd.
  set (n := length (blocks p)) in *.
  set (D' := foldl (λ D x, evict_data D x) (data p) (blocks p)).
  assert (Hrun : triple (Rep p free (data p) (cached_block_hash_to_block p))
      (modify_cache (λ _, ∅) ;;;
       for_ (blocks p) (λ blk, on_mem (reset_hash blk)) ;;;
       modify (λ p, set_metrics (reset <$> metrics_collector p) p) ;;;
       (if enable_kv_cache_events p then push_event EvAllBlocksCleared else ret tt) ;;;
       ret true) (λ r q, r = true ∧ Rep p free D' ∅ q)).
  { eapply triple_bind_unit; [apply modify_cache_spec|].
    eapply triple_bind_unit; [apply reset_loop|]. fold D'.
    eapply (triple_bind_unit _ (Rep p free D' ∅)).
    { apply triple_modify. intros q [Hs Hq HD HC]. by split; [destruct Hs|..]. }
    eapply (triple_bind_unit _ (Rep p free D' ∅)); [|by apply triple_ret].
    destruct (enable_kv_cache_events p); [apply push_event_spec|by apply triple_ret]. }
  destruct (Hrun p (pool_wf_rep _ _ Hp)) as (r & p' & Heq & -> & HR).
  exists p'. split.
  { unfold reset_prefix_cache, bind at 1, get.
    by rewrite (pool_free_count _ _ Hp), decide_False by lia. }
  destruct (reset_all n (blocks p) (data p) Hd) as (H1 & H2 & H3).
  fold D' in H1, H2, H3.
  assert (H4 : ∀ a, hash_of D' a = None).
  { intros a. rewrite H3. split_if as Ha; [done|]. destruct (hash_of (data p) a) as [k|] eqn:Hk; [|done].
    exfalso. apply Ha. rewrite (so_blocks _ _ (pw_static _ _ Hp)). apply elem_of_seq.
    apply (di_hash _ _ Hd) in Hk. fold n. lia. }
  destruct (rep_pool_wf p p' free free D' ∅ Hp HR) as (Hwf & Hss & HD).
  { eapply wf_data_same_ref; [apply Hp|done| |done]. split; [by intros k c Hk|].
    intros k b. rewrite H4. unfold cache_lookup. rewrite lookup_empty. set_solver +. }
  unfold ref, hash. rewrite HD. split_and!; [done..|apply HR].
Qed.

Lemma reset_prefix_cache_refused p free :
  pool_wf p free → len free ≠ num_gpu_blocks p - 1 → reset_prefix_cache p = (Ok false, p).
Proof.
  intros Hp Hfree. unfold reset_prefix_cache, bind at 1, get.
  by rewrite (pool_free_count _ _ Hp), decide_True by lia.
Qed.

(** ** [__init__] *)

(** The heap of [n] fresh blocks starting at block [k]. *)
Lemma alloc_blocks_spec n : ∀ k s,
  next_loc s = k → 
  ∃ h, mapM (λ i, alloc (new_block (Z.of_nat i))) (seq k n) s =
         (Ok (seq k n), mkStore h (k + n)%nat (queue s)) ∧
    ∀ a, h !! a = if decide (k ≤ a < k + n)%nat then Some (new_block (Z.of_nat a))
                  else heap s !! a.
Proof.
  induction n as [|n IH]; intros k s Hk; simpl.
  { exists (heap s). rewrite Nat.add_0_r. destruct s; simpl in *; subst. split; [done|].
    intros a. by rewrite decide_False by lia. }
  unfold bind at 1, alloc at 1. rewrite Hk.
  destruct (IH (S k) (mkStore (<[k := new_block (Z.of_nat k)]> (heap s)) (S k) (queue s)) eq_refl)
    as (h & Hrun & Hh).
  rewrite (bind_ok _ _ _ _ _ Hrun). exists h. split.
  - unfold ret. simpl. by rewrite Nat.add_succ_r.
  - intros a. rewrite Hh. cbn [heap]. destruct (decide (a = k)) as [->|].
    + rewrite (decide_False (P := (S k ≤ k < S k + n)%nat)) by lia.
      rewrite (decide_True (P := (k ≤ k < k + S n)%nat)) by lia. apply lookup_insert_eq.
    + rewrite lookup_insert_ne by congruence. destruct (decide (S k ≤ a < S k + n)%nat).
      * rewrite decide_True by lia. done.
      * rewrite decide_False by lia. done.
Qed.

Definition init_data (n : nat) (D : data_map) : Prop :=
  ∀ a, D !! a =
    if decide (a < n)%nat then Some (set_is_null (bool_decide (a = 0%nat)) (new_block (Z.of_nat a)))
    else if decide (a < S (S n))%nat then Some (new_block (-1)) else None.

Lemma init_data_wf n D :
  (0 < n)%nat → init_data n D → wf_data n (seq 1 (n - 1)) D ∅.
Proof.
  intros Hn Hi.
  assert (Hh : ∀ a, hash_of D a = None).
  { intros a. unfold hash_of. rewrite Hi. by repeat case_decide. }
  assert (Hr : ∀ a, ref_of D a = 0).
  { intros a. unfold ref_of. rewrite Hi. by repeat case_decide. }
  split.
  - split; [|by intros a k; rewrite Hh]. intros a. unfold ids. rewrite lookup_fmap, Hi.
    by repeat case_decide.
  - intros a Ha%elem_of_seq. lia.
  - intros a Ha. rewrite Hr, elem_of_seq. split; [done|]. split; [done|]. lia.
  - split; [by intros k c|]. intros k b. rewrite Hh. unfold cache_lookup.
    rewrite lookup_empty. set_solver +.
Qed.

Lemma init_store_spec n :
  (0 < n)%nat →
  ∃ s', (let* bs := alloc_blocks n in
         FreeQueue.init bs ;;;
         let* null := FreeQueue.popleft in
         upd null (set_is_null true) ;;;
         ret (bs, null)) empty_store = (Ok (seq 0 n, 0%nat), s') ∧
    is_queue s' (seq 1 (n - 1)) ∧ fake_free_list_head (queue s') = n ∧
    fake_free_list_tail (queue s') = S n ∧ init_data n (strip (heap s')).
Proof.
  intros Hn. destruct (alloc_blocks_spec n 0 empty_store eq_refl) as (h & Hrun & Hh).
  unfold alloc_blocks. rewrite (bind_ok _ _ _ _ _ Hrun). cbn [heap empty_store next_loc queue] in Hh |- *.
  assert (Hsome : ∀ a, is_Some (h !! a) ↔ (a < n)%nat).
  { intros a. destruct (decide (a < n)%nat) as [Ha|Ha].
    - rewrite Hh, decide_True by lia. split; [done|eauto].
    - rewrite Hh, decide_False, lookup_empty by lia. split; [by intros [? ?]|done]. }
  destruct (init_spec (mkStore h n (mkQueue 0 0%nat 0%nat)) (seq 0 n))
    as (s1 & H1 & Hq1 & Hhd & Htl & _ & Hstrip).
  { apply NoDup_seq. }
  { intros a Ha%elem_of_seq. apply Hsome. lia. }
  { intros a Ha. by apply Hsome. }
  { intros a. unfold nxt, prv. cbn [heap]. rewrite Hh. by case_decide. }
  simpl in Hhd, Htl, Hstrip. rewrite (bind_ok _ _ _ _ _ H1).
  replace (seq 0 n) with (0%nat :: seq 1 (n - 1)) in Hq1 by (destruct n; [lia|]; simpl; by rewrite Nat.sub_0_r).
  destruct (popleft_spec _ _ _ Hq1) as (s2 & H2 & Hq2 & Hsd).
  rewrite (bind_ok _ _ _ _ _ H2). unfold upd. rewrite bind_modify.
  eexists. split; [reflexivity|]. split_and!.
  - by apply is_queue_data_fn; [apply data_fn_null|].
  - simpl. by rewrite (sd_head _ _ Hsd).
  - simpl. by rewrite (sd_tail _ _ Hsd).
  - simpl. rewrite strip_alter_data by apply data_fn_null.
    rewrite (sd_strip _ _ Hsd), Hstrip. intros a.
    assert (Hs : strip h !! a = if decide (a < n)%nat then Some (new_block (Z.of_nat a)) else None).
    { unfold strip. rewrite lookup_fmap, Hh. destruct (decide (a < n)%nat).
      - by rewrite decide_True by lia.
      - by rewrite decide_False by lia. }
    destruct (decide (a = 0%nat)) as [->|Ha0].
    + rewrite lookup_alter_eq, !lookup_insert_ne by lia. rewrite Hs, !decide_True by lia. done.
    + rewrite lookup_alter_ne by done. destruct (decide (a = S n)) as [->|].
      { rewrite lookup_insert_eq, decide_False, decide_True by lia. done. }
      rewrite lookup_insert_ne by congruence. destruct (decide (a = n)) as [->|].
      { rewrite lookup_insert_eq, decide_False, decide_True by lia. done. }
      rewrite lookup_insert_ne by congruence. rewrite Hs.
      destruct (decide (a < n)%nat); [by rewrite bool_decide_false|].
      by rewrite decide_False by lia.
Qed.

Lemma BlockPool_init_ok n caching hash_size events ih mc :
  0 < n →
  ∃ p, BlockPool_init n caching hash_size events ih mc = Ok p ∧
    pool_wf p (seq 1 (Z.to_nat n - 1)) ∧ len (blocks p) = n ∧
    enable_caching p = caching ∧ hash_block_size p = hash_size ∧
    (∀ a, ref p a = 0) ∧ (∀ a, hash p a = None).
Proof.
  intros Hn. unfold BlockPool_init. rewrite decide_True by done.
  destruct (init_store_spec (Z.to_nat n) ltac:(lia)) as (s & Hrun & Hq & Hhd & Htl & Hd).
  cbv zeta. rewrite Hrun. eexists. split; [reflexivity|].
  assert (Hlen : length (seq 0 (Z.to_nat n)) = Z.to_nat n) by apply length_seq.
  split.
  { split; simpl; rewrite ?Hlen; [|done|].
    - split; simpl; try done; lia.
    - apply init_data_wf; [lia|done]. }
  simpl. unfold len, ref, hash, data, ref_of, hash_of. simpl. rewrite Hlen. split; [lia|].
  split; [done|]. split; [done|].
  split; intros a; rewrite Hd; by repeat case_decide.
Qed.

(** * Histories of a pool *)

(** [held] is the multiset of the references the pool's users hold: a block
    occurs once for each [get_new_blocks] or [touch] not yet undone by
    [free_blocks].  The premises are what the callers guarantee; none of them
    speaks of the pool's internal state except through its operations'
    results. *)
Inductive history : BlockPool → list loc → Prop :=
  | h_init n caching hash_size events ih mc p :
      0 < n → 0 < hash_size → BlockPool_init n caching hash_size events ih mc = Ok p →
      history p []
  | h_get p held k r p' :
      history p held → 0 ≤ k → get_new_blocks k p = (Ok r, p') →
      history p' (r ++ held)
  | h_touch p held xs r p' :
      history p held → (∀ a, a ∈ xs → (a < length (blocks p))%nat) →
      touch xs p = (r, p') → history p' (xs ++ held)
  | h_free p held xs rest r p' :
      history p held → held ≡ₚ xs ++ rest → NoDup (filter (λ a : loc, a ≠ 0%nat) xs) →
      free_blocks xs p = (r, p') → history p' rest
  | h_cache p held rq blks nc nf bs gid r p' :
      history p held → 0 ≤ gid < 2 ^ 32 → 0 ≤ nc < nf → nf ≤ len blks →
      hash_block_size p ≤ bs → bs mod hash_block_size p = 0 →
      nf ≤ view_len (hash_view (hash_block_size p) bs (block_hashes rq)) →
      cacheable (length (blocks p)) (data p) (py_slice blks nc nf) →
      cache_full_blocks rq blks nc nf bs gid p = (r, p') → history p' held
  | h_evict p held ids0 r p' :
      history p held → (∀ i, i ∈ ids0 → 0 ≤ i < len (blocks p)) →
      evict_blocks ids0 p = (r, p') → history p' held
  | h_reset p held r p' :
      history p held → reset_prefix_cache p = (r, p') → history p' held.

Record history_inv (p : BlockPool) (held free : list loc) : Prop := {
  hi_wf : pool_wf p free;
  hi_hash_size : 0 < hash_block_size p;
  hi_held : ∀ a, a ∈ held → (a < length (blocks p))%nat;
  hi_ref : ∀ a, (a < length (blocks p))%nat → ref p a = occ a held
}.

Lemma history_invariant p held : history p held → ∃ free, history_inv p held free.
Proof.
  induction 1 as
    [n caching hs ev ih mc p Hn Hhs Hp
    |p held k r p' _ (free & [Hwf Hhs Hheld Href]) Hk Hrun
    |p held xs r p' _ (free & [Hwf Hhs Hheld Href]) Hxs Hrun
    |p held xs rest r p' _ (free & [Hwf Hhs Hheld Href]) Hperm Hnd Hrun
    |p held rq blks nc nf bs gid r p' _ (free & [Hwf Hhs Hheld Href]) Hg Hnc Hnf Hbs Hmod Hv Hca Hrun
    |p held ids0 r p' _ (free & [Hwf Hhs Hheld Href]) Hin Hrun
    |p held r p' _ (free & [Hwf Hhs Hheld Href]) Hrun].
  - destruct (BlockPool_init_ok n caching hs ev ih mc Hn) as (q & Hq & Hwf & _ & _ & Hh & Hr & _).
    rewrite Hp in Hq. injection Hq as <-. eexists. split; [exact Hwf|by rewrite Hh|set_solver +|].
    intros a _. rewrite Hr. done.
  - destruct (decide (k ≤ len free)) as [Hle|Hle].
    + rewrite <- (take_drop (Z.to_nat k) free) in Hwf.
      destruct (get_new_blocks_ok _ _ _ Hwf) as (q & Hq & Hwf' & Hs & Hr & _).
      assert (Hlk : len (take (Z.to_nat k) free) = k).
      { unfold len in *. rewrite length_take. lia. }
      rewrite Hlk, Hrun in Hq. injection Hq as -> ->.
      assert (Hrange : ∀ a, a ∈ take (Z.to_nat k) free → (a < length (blocks p))%nat).
      { intros a Ha. apply (wd_range _ _ _ _ (pw_data _ _ Hwf)). set_solver +Ha. }
      pose proof (pool_nodup _ _ Hwf) as [Hnd _]%NoDup_app.
      exists (drop (Z.to_nat k) free). split; [done|by rewrite (ss_hash_size _ _ Hs)| |].
      * rewrite (ss_blocks _ _ Hs). intros a [?|?]%elem_of_app; auto.
      * rewrite (ss_blocks _ _ Hs). intros a Ha. rewrite Hr, occ_app, Href by done.
        destruct (decide (a ∈ take (Z.to_nat k) free)) as [Hin|Hin].
        -- pose proof (occ_nodup a _ Hnd). apply occ_pos in Hin. lia.
        -- rewrite (occ_absent a (take _ _)) by done. lia.
    + rewrite (get_new_blocks_error p free k Hwf) in Hrun by lia. done.
  - destruct (touch_ok _ _ xs Hwf Hxs) as (q & Hq & Hwf' & Hs & Hr & _).
    rewrite Hrun in Hq. injection Hq as -> ->. eexists. split; [exact Hwf'|by rewrite (ss_hash_size _ _ Hs)| |].
    + rewrite (ss_blocks _ _ Hs). intros a [?|?]%elem_of_app; auto.
    + rewrite (ss_blocks _ _ Hs). intros a Ha. rewrite Hr, occ_app, Href by done. lia.
  - assert (Hf : freeable p xs).
    { split; [intros a Ha; apply Hheld; rewrite Hperm; set_solver +Ha|done|].
      intros a Ha _. rewrite Href by (apply Hheld; rewrite Hperm; set_solver +Ha).
      apply occ_pos. rewrite Hperm. set_solver +Ha. }
    destruct (free_blocks_ok _ _ xs Hwf Hf) as (q & Hq & Hwf' & Hs & Hr & _).
    rewrite Hrun in Hq. injection Hq as -> ->. eexists. split; [exact Hwf'|by rewrite (ss_hash_size _ _ Hs)| |].
    + rewrite (ss_blocks _ _ Hs). intros a Ha. apply Hheld. rewrite Hperm. set_solver +Ha.
    + rewrite (ss_blocks _ _ Hs). intros a Ha. rewrite Hr, Href by done.
      rewrite (occ_perm a _ _ Hperm), occ_app. lia.
  - destruct (cache_full_blocks_ok p free rq blks nc nf bs gid)
      as (q & Hq & Hwf' & Hs & Hr & _); [done..|].
    rewrite Hrun in Hq. injection Hq as -> ->. exists free. split; [done|by rewrite (ss_hash_size _ _ Hs)| |];
      rewrite (ss_blocks _ _ Hs); [done|]. intros a Ha. by rewrite Hr, Href.
  - destruct (evict_blocks_ok p free ids0 Hwf Hin) as (q & Hq & Hwf' & Hs & Hr & _).
    rewrite Hrun in Hq. injection Hq as -> ->. exists free. split; [done|by rewrite (ss_hash_size _ _ Hs)| |];
      rewrite (ss_blocks _ _ Hs); [done|]. intros a Ha. by rewrite Hr, Href.
  - destruct (decide (len free = num_gpu_blocks p - 1)) as [He|He].
    + destruct (reset_prefix_cache_ok p free Hwf He) as (q & Hq & Hwf' & Hs & Hr & _).
      rewrite Hrun in Hq. injection Hq as -> ->. exists free. split; [done|by rewrite (ss_hash_size _ _ Hs)| |];
        rewrite (ss_blocks _ _ Hs); [done|]. intros a Ha. by rewrite Hr, Href.
    + rewrite (reset_prefix_cache_refused p free Hwf He) in Hrun. injection Hrun as <- <-.
      by exists free.
Qed.

(** The distinct non-null blocks of a multiset of references. *)
Definition distinct_blocks (held : list loc) : list loc :=
  remove_dups (filter (λ a : loc, a ≠ 0%nat) held).

Lemma distinct_in held a : a ∈ distinct_blocks held ↔ a ∈ held ∧ a ≠ 0%nat.
Proof. unfold distinct_blocks. rewrite elem_of_remove_dups, list_elem_of_filter. tauto. Qed.

(** The free blocks and the distinct blocks in use partition the blocks. *)
Lemma pool_partition p held free :
  pool_wf p free → (∀ a, a ∈ held → (a < length (blocks p))%nat) →
  (∀ a, (0 < a < length (blocks p))%nat → ref p a = occ a held) →
  free ++ distinct_blocks held ≡ₚ seq 1 (length (blocks p) - 1).
Proof.
  intros Hwf Hheld Href. pose proof (pw_data _ _ Hwf) as Hw. apply NoDup_Permutation.
  - apply NoDup_app. split; [by eapply pool_nodup|]. split; [|apply NoDup_remove_dups].
    intros a Ha [Hin Ha0]%distinct_in. pose proof (wd_range _ _ _ _ Hw a Ha) as Hr.
    apply (wd_ref _ _ _ _ Hw a Hr) in Ha. fold (ref p a) in Ha. rewrite Href in Ha by lia.
    apply occ_pos in Hin. lia.
  - apply NoDup_seq.
  - intros a. rewrite elem_of_app, distinct_in, elem_of_seq. split.
    + intros [Ha|[Ha Ha0]]; [pose proof (wd_range _ _ _ _ Hw a Ha)|pose proof (Hheld a Ha)]; lia.
    + intros Ha. destruct (decide (a ∈ held)) as [Hin|Hin]; [right; split; [done|lia]|].
      left. apply (wd_ref _ _ _ _ Hw a); [lia|]. fold (ref p a). rewrite Href by lia.
      by apply occ_absent.
Qed.

Lemma history_partition p held free :
  history_inv p held free →
  free ++ distinct_blocks held ≡ₚ seq 1 (length (blocks p) - 1).
Proof.
  intros [Hwf _ Hheld Href]. apply pool_partition; [done|done|]. intros a Ha. apply Href. lia.
Qed.

(** C22. No double allocation and no leak.  In every history of a block pool
    the free blocks and the distinct blocks held by users add up to all blocks
    but the null block; an allocation of [k] blocks succeeds exactly when [k]
    blocks are free, and it then hands out [k] distinct blocks that nobody
    holds, none of them the null block, each with reference count 1 and, with
    prefix caching, without a hash; otherwise it raises [ValueError] and
    changes nothing. *)
Theorem history_allocation_safe p held k :
  history p held → 0 ≤ k →
  get_num_free_blocks p + len (distinct_blocks held) = len (blocks p) - 1 ∧
  (if decide (k ≤ get_num_free_blocks p)
   then ∃ r p', get_new_blocks k p = (Ok r, p') ∧ len r = k ∧ NoDup r ∧
     ∀ a, a ∈ r → (0 < a < length (blocks p))%nat ∧ (a ∉ held) ∧ ref p' a = 1 ∧
                  (enable_caching p = true → hash p' a = None)
   else get_new_blocks k p = (Raise ValueError, p)).
Proof.
  intros Hist Hk. destruct (history_invariant _ _ Hist) as (free & Hinv).
  pose proof (Permutation_length (history_partition _ _ _ Hinv)) as Hlen.
  destruct Hinv as [Hwf _ Hheld Href]. rewrite (pool_free_count _ _ Hwf).
  rewrite length_app, length_seq in Hlen. pose proof (so_pos _ _ (pw_static _ _ Hwf)).
  split; [unfold len; lia|]. split_if as Hle; [|apply (get_new_blocks_error p free); [done|lia]].
  rewrite <- (take_drop (Z.to_nat k) free) in Hwf. set (r := take (Z.to_nat k) free) in *.
  assert (Hlk : len r = k) by (unfold r, len in *; rewrite length_take; lia).
  destruct (get_new_blocks_ok _ _ _ Hwf) as (q & Hq & _ & Hs & Hr & Hh).
  rewrite Hlk in Hq. exists r, q. split; [done|]. split; [done|].
  pose proof (pool_nodup _ _ Hwf) as [Hnd _]%NoDup_app. split; [done|]. intros a Ha.
  assert (Hin : a ∈ r ++ drop (Z.to_nat k) free) by set_solver +Ha.
  pose proof (wd_range _ _ _ _ (pw_data _ _ Hwf) a Hin) as Hrange.
  apply (wd_ref _ _ _ _ (pw_data _ _ Hwf) a Hrange) in Hin. fold (ref p a) in Hin.
  split; [done|]. split; [|split].
  - rewrite Href in Hin by lia. rewrite <- occ_pos. lia.
  - rewrite Hr, Hin, decide_True by done. done.
  - intros Hc. by rewrite Hh, decide_True.
Qed.

(** C23. The prefix cache is sound and complete for lookups in every history:
    a lookup of a block hash for a list of group ids never raises and changes
    nothing; it returns for each group a block that carries exactly this hash
    and group id, and it returns nothing only if for some group no block of
    the pool carries them. *)
Theorem history_lookup_exact p held h gids :
  history p held → (∀ g, g ∈ gids → 0 ≤ g < 2 ^ 32) →
  ∃ r, get_cached_block h gids p = (Ok r, p) ∧
    match r with
    | Some bs => Forall2 (λ g b, hash p b = Some (h ++ be_bytes 4 g)) gids bs
    | None => ∃ g, g ∈ gids ∧ ∀ b, hash p b ≠ Some (h ++ be_bytes 4 g)
    end.
Proof.
  intros Hist Hg. destruct (history_invariant _ _ Hist) as (free & [Hwf _ _ _]).
  by apply (get_cached_block_ok p free).
Qed.

(** Storing a full block makes it findable: after [cache_full_blocks] of a
    group, looking up the hash of any of the newly full blocks that is not a
    null block succeeds for that group, and the reference counts and the free
    list are unchanged. *)
Theorem cached_block_is_found p held r blks nc nf bs gid i a h
    (view := hash_view (hash_block_size p) bs (block_hashes r)) :
  history p held → 0 ≤ gid < 2 ^ 32 → 0 ≤ nc ≤ i → i < nf → nf ≤ len blks →
  hash_block_size p ≤ bs → bs mod hash_block_size p = 0 → nf ≤ view_len view →
  cacheable (length (blocks p)) (data p) (py_slice blks nc nf) →
  blks !! Z.to_nat i = Some a → a ≠ 0%nat → hashes_index view i = Ok h →
  ∃ p' b, cache_full_blocks r blks nc nf bs gid p = (Ok tt, p') ∧
    get_cached_block h [gid] p' = (Ok (Some [b]), p') ∧
    hash p' b = Some (h ++ be_bytes 4 gid) ∧ hash p' a = Some (h ++ be_bytes 4 gid) ∧
    get_num_free_blocks p' = get_num_free_blocks p ∧ ∀ c, ref p' c = ref p c.
Proof.
  intros Hist Hgid Hi Hinf Hnf Hbs Hmod Hview Hc Ha Ha0 Hh.
  destruct (history_invariant _ _ Hist) as (free & [Hwf Hhs _ _]).
  destruct (cache_full_blocks_ok p free r blks nc nf bs gid)
    as (p' & Hrun & Hwf' & Hs & Hr & Hset & _); [done|done|lia|done|lia|done|done|done|].
  destruct (Hset i a) as (h' & Hh' & Hha); [lia|done|done|].
  assert (h' = h) as -> by (unfold view in *; congruence).
  destruct (get_cached_block_ok p' free h [gid] Hwf') as (o & Ho & Hf);
    [intros g ->%list_elem_of_singleton; done|].
  destruct o as [[|b [|? ?]]|]; simpl in Hf.
  - by apply Forall2_cons_nil_inv in Hf.
  - apply Forall2_cons in Hf as [Hb _]. exists p', b.
    by rewrite (pool_free_count _ _ Hwf), (pool_free_count _ _ Hwf').
  - apply Forall2_cons in Hf as [_ Hf]. by apply Forall2_nil_cons_inv in Hf.
  - destruct Hf as (g & ->%list_elem_of_singleton & Hno). by destruct (Hno a).
Qed.

(** Freed blocks are reused last and in the order they were freed (the LRU
    eviction order): freeing blocks that a user holds succeeds, and allocating
    every free block afterwards returns the previously free blocks first, in
    their order, and then those of the freed blocks whose last reference was
    dropped, in the order in which they were freed. *)
Theorem freed_blocks_are_reused_last p held free q xs rest :
  history p held → get_new_blocks (get_num_free_blocks p) p = (Ok free, q) → held ≡ₚ xs ++ rest →
  NoDup (filter (λ a : loc, a ≠ 0%nat) xs) →
  ∃ p' p'', free_blocks xs p = (Ok tt, p') ∧
    get_new_blocks (get_num_free_blocks p') p' =
      (Ok (free ++ filter (λ a, a ≠ 0%nat ∧ (a ∉ rest)) xs), p'').
Proof.
  intros Hist Hfree Hperm Hnd.
  destruct (history_invariant _ _ Hist) as (free' & [Hwf _ Hheld Href]).
  assert (free = free') as ->.
  { rewrite (pool_free_count _ _ Hwf) in Hfree. rewrite <- (app_nil_r free') in Hwf.
    destruct (get_new_blocks_ok _ _ _ Hwf) as (p1 & Hrun & _). congruence. }
  assert (Hin : ∀ a, a ∈ xs → a ∈ held) by (intros a Ha; rewrite Hperm; set_solver +Ha).
  assert (Hf : freeable p xs).
  { split; [by intros a Ha%Hin%Hheld|done|]. intros a Ha _.
    rewrite Href by by apply Hheld, Hin. by apply occ_pos, Hin. }
  destruct (free_blocks_ok p free' xs Hwf Hf) as (p' & Hrun & Hwf' & _ & Hr & _).
  pose proof (pool_free_count _ _ Hwf') as Hcount.
  rewrite <- (app_nil_r (free' ++ _)) in Hwf'.
  destruct (get_new_blocks_ok _ _ _ Hwf') as (p'' & Hget & _).
  exists p', p''. split; [done|]. rewrite Hcount, Hget. do 3 f_equal. apply filter_ext_in.
  intros a Ha. rewrite Hr, Href by by apply Hheld, Hin.
  rewrite (occ_perm a _ _ Hperm), occ_app. rewrite <- (occ_pos a rest).
  pose proof (occ_nonneg a rest). lia.
Qed.

(** * Witnesses *)

(** A pool of 5 blocks with 4-token hash blocks, then after an allocation. *)
Definition example_pool : BlockPool :=
  ltac:(let t := eval vm_compute in (BlockPool_init 5 true 4 true false None) in
        lazymatch t with Ok ?p => exact p end).
Definition example_pool2 : BlockPool := snd (get_new_blocks 2 example_pool).
Definition example_hash : bytes := [7; 7].
Definition example_cached_request : Request :=
  ltac:(let t := eval vm_compute in (example_request [1; 2; 3; 4; 5]) in
        lazymatch t with Ok ?r => exact (set_block_hashes [example_hash] r) end).

Lemma example_history : history example_pool2 [1%nat; 2%nat].
Proof.
  apply (h_get example_pool [] 2 [1%nat; 2%nat]); [|done|vm_compute; reflexivity].
  by apply (h_init 5 true 4 true false None).
Qed.

Lemma history_allocation_safe_witness :
  get_num_free_blocks example_pool2 = 2 ∧
  ∃ r p', get_new_blocks 2 example_pool2 = (Ok r, p') ∧ NoDup r.
Proof.
  destruct (history_allocation_safe example_pool2 [1%nat; 2%nat] 2) as [H1 H2];
    [apply example_history|lia|].
  split; [vm_compute; reflexivity|].
  rewrite decide_True in H2 by (vm_compute; discriminate).
  destruct H2 as (r & p' & Hr & _ & Hnd & _). by exists r, p'.
Defined.

Lemma history_lookup_exact_witness :
  ∃ r, get_cached_block example_hash [0] example_pool2 = (Ok r, example_pool2).
Proof.
  destruct (history_lookup_exact example_pool2 [1%nat; 2%nat] example_hash [0]) as (r & Hr & _);
    [apply example_history|intros g ->%list_elem_of_singleton; lia|]. by exists r.
Defined.

Lemma cached_block_is_found_witness :
  ∃ p' b, cache_full_blocks example_cached_request [1%nat; 2%nat] 0 1 4 0 example_pool2
            = (Ok tt, p') ∧
    get_cached_block example_hash [0] p' = (Ok (Some [b]), p').
Proof.
  destruct (cached_block_is_found example_pool2 [1%nat; 2%nat] example_cached_request
    [1%nat; 2%nat] 0 1 4 0 0 1%nat example_hash) as (p' & b & H1 & H2 & _).
  - apply example_history.
  - lia.
  - lia.
  - lia.
  - vm_compute; discriminate.
  - vm_compute; discriminate.
  - vm_compute; reflexivity.
  - vm_compute; discriminate.
  - split.
    + intros a Ha. vm_compute in Ha. apply list_elem_of_singleton in Ha as ->. vm_compute. lia.
    + vm_compute. apply NoDup_singleton.
    + intros a Ha _. vm_compute in Ha. apply list_elem_of_singleton in Ha as ->.
      vm_compute. reflexivity.
  - reflexivity.
  - discriminate.
  - vm_compute; reflexivity.
  - by exists p', b.
Defined.

Lemma freed_blocks_are_reused_last_witness :
  ∃ p' p'', free_blocks [2%nat; 1%nat] example_pool2 = (Ok tt, p') ∧
    get_new_blocks 4 p' = (Ok [3%nat; 4%nat; 2%nat; 1%nat], p'').
Proof.
  destruct (freed_blocks_are_reused_last example_pool2 [1%nat; 2%nat] [3%nat; 4%nat]
    (snd (get_new_blocks 2 example_pool2)) [2%nat; 1%nat] []) as (p' & p'' & H1 & H2).
  - apply example_history.
  - vm_compute; reflexivity.
  - apply perm_swap.
  - vm_compute. repeat constructor; set_solver.
  - exists p', p''. split; [done|].
    assert (p' = snd (free_blocks [2%nat; 1%nat] example_pool2)) as -> by by rewrite H1.
    replace (get_num_free_blocks _) with 4 in H2 by (vm_compute; reflexivity).
    rewrite H2. vm_compute. reflexivity.
Defined.
