(* ===== verification/KVInvariant.v ===== *)
(** The joint invariant of the block pool and the block tables of the
    requests, as a property of the pool and a list of entries, and the effect
    of each pool operation on it.

    An entry [(l, k)] is the block list [l] of one request in one manager and
    the number [k] of its blocks that are already cached.  The list of all
    entries matters up to order only. *)

From S2P Require Import Prelude.
From S2P Require Import KVBlocks.
From S2P Require Import Request.
From S2P Require Import BlockHash.
From S2P Require Import KVCacheMetrics.
From S2P Require Import BlockPool.
From S2P Require Import BlockPoolSpec.

Abbreviation entry := (list loc * Z)%type.
Implicit Types (es : list entry) (l : list loc).

Definition nonnull (l : list loc) : list loc := filter (λ a : loc, a ≠ 0%nat) l.

Lemma nonnull_in l a : a ∈ nonnull l ↔ a ≠ 0%nat ∧ a ∈ l.
Proof. unfold nonnull. by rewrite list_elem_of_filter. Qed.
Lemma nonnull_app l1 l2 : nonnull (l1 ++ l2) = nonnull l1 ++ nonnull l2.
Proof. apply filter_app. Qed.
Lemma occ_nonnull l a : a ≠ 0%nat → occ a (nonnull l) = occ a l.
Proof.
  intros Ha. unfold nonnull. induction l as [|x l IH]; [done|].
  destruct (decide (x = 0%nat)) as [->|].
  - rewrite filter_cons_False by tauto. rewrite occ_cons, decide_False by done. lia.
  - rewrite filter_cons_True by done. rewrite !occ_cons. lia.
Qed.

Definition held_by es : list loc := es ≫= fst.
(** The blocks that are not cached yet. *)
Definition entry_fresh (e : entry) : list loc := nonnull (drop (Z.to_nat e.2) e.1).
Definition fresh_by es : list loc := es ≫= entry_fresh.

#[export] Instance held_by_perm : Proper ((≡ₚ) ==> (≡ₚ)) held_by.
Proof. intros es1 es2 Hp. unfold held_by. by apply bind_Permutation. Qed.

Record entry_ok (n : nat) (e : entry) : Prop := {
  eo_range : ∀ a, a ∈ e.1 → (a < n)%nat;
  eo_nodup : NoDup (nonnull e.1);
  eo_cached : 0 ≤ e.2
}.

(** The reference count of a block is the number of its uses in the block
    tables; a block that is not cached yet has no hash and exactly one use;
    without prefix caching no block has a hash. *)
Record ginv (p : BlockPool) (free : list loc) es : Prop := {
  gi_pool : pool_wf p free;
  gi_entries : ∀ e, e ∈ es → entry_ok (length (blocks p)) e;
  gi_ref : ∀ a, (0 < a < length (blocks p))%nat → ref p a = occ a (held_by es);
  gi_fresh : ∀ a, a ∈ fresh_by es → hash p a = None ∧ occ a (held_by es) = 1;
  gi_nocache : enable_caching p = false → ∀ a, hash p a = None
}.

#[export] Instance ginv_perm p free : Proper ((≡ₚ) ==> iff) (ginv p free).
Proof.
  assert (H : ∀ es1 es2, es1 ≡ₚ es2 → ginv p free es1 → ginv p free es2).
  { intros es1 es2 Hp [H1 H2 H3 H4 H5]. split; [done| | | |done].
    - intros e He. apply H2. by rewrite Hp.
    - intros a Ha. rewrite H3 by done. apply occ_perm. by rewrite Hp.
    - intros a Ha. destruct (H4 a) as [Hh Ho].
      + unfold fresh_by in *. rewrite list_elem_of_bind in *.
        destruct Ha as (e & ? & ?). exists e. split; [done|]. by rewrite Hp.
      + split; [done|]. rewrite <- Ho. apply occ_perm. by rewrite Hp. }
  intros es1 es2 Hp. split; apply H; [done|by symmetry].
Qed.

Section entries.
Context (p : BlockPool) (free : list loc).

Lemma held_cons e es : held_by (e :: es) = e.1 ++ held_by es.
Proof. done. Qed.
Lemma fresh_cons e es : fresh_by (e :: es) = entry_fresh e ++ fresh_by es.
Proof. done. Qed.

(** An empty entry may come and go. *)
Lemma ginv_empty k es : 0 ≤ k → ginv p free es ↔ ginv p free (([], k) :: es).
Proof.
  intros Hk.
  assert (Hf : fresh_by (([], k) :: es) = fresh_by es).
  { rewrite fresh_cons. unfold entry_fresh. simpl. by rewrite drop_nil. }
  split; intros [H1 H2 H3 H4 H5]; split; try done; rewrite ?Hf in *; try done.
  - intros e [->|He]%elem_of_cons; [|by apply H2]. split; simpl; [set_solver +| |done].
    constructor.
  - intros e He. apply H2. by right.
Qed.

Lemma ginv_free_unused es a : ginv p free es → a ∈ free → a ∉ held_by es.
Proof.
  intros Hg Ha Hin. pose proof (pw_data _ _ (gi_pool _ _ _ Hg)) as Hw.
  pose proof (wd_range _ _ _ _ Hw a Ha) as Hr. apply (wd_ref _ _ _ _ Hw a Hr) in Ha.
  fold (ref p a) in Ha. rewrite (gi_ref _ _ _ Hg a Hr) in Ha. apply occ_pos in Hin. lia.
Qed.

Lemma fresh_sub e : ∀ a, a ∈ entry_fresh e → a ∈ e.1.
Proof. intros a [_ Ha]%nonnull_in. by apply elem_of_drop_list in Ha. Qed.
End entries.

(** ** The effect of the pool operations *)

(** New blocks for the first entry. *)
Lemma ginv_get_new p new rest l k es :
  ginv p (new ++ rest) ((l, k) :: es) →
  ∃ p', get_new_blocks (len new) p = (Ok new, p') ∧ ginv p' rest ((l ++ new, k) :: es) ∧
    same_static p p' ∧
    (∀ a, ref p' a = ref p a + (if decide (a ∈ new) then 1 else 0)) ∧
    (∀ a, a ∉ new → hash p' a = hash p a).
Proof.
  intros Hg. pose proof (gi_pool _ _ _ Hg) as Hwf.
  destruct (get_new_blocks_ok _ _ _ Hwf) as (p' & Hrun & Hwf' & Hs & Hr & Hh).
  pose proof (pool_nodup _ _ Hwf) as (Hnd & Hdis & _)%NoDup_app.
  assert (Hrange : ∀ a, a ∈ new → (0 < a < length (blocks p))%nat).
  { intros a Ha. apply (wd_range _ _ _ _ (pw_data _ _ Hwf)). set_solver +Ha. }
  assert (Hunused : ∀ a, a ∈ new → a ∉ held_by ((l, k) :: es)).
  { intros a Ha. eapply ginv_free_unused; [exact Hg|set_solver +Ha]. }
  assert (Hocc : ∀ a, occ a (held_by ((l ++ new, k) :: es)) =
                      occ a (held_by ((l, k) :: es)) + occ a new).
  { intros a. rewrite !held_cons. simpl. rewrite !occ_app. lia. }
  assert (Hhash : ∀ a, hash p a = None → hash p' a = None).
  { intros a Ha. rewrite Hh, Ha. by destruct (decide _). }
  assert (Hnew : ∀ a, a ∈ new → hash p' a = None).
  { intros a Ha. rewrite Hh. destruct (enable_caching p) eqn:Hc.
    - by rewrite decide_True.
    - rewrite decide_False by (intros [? _]; done). by apply (gi_nocache _ _ _ Hg). }
  exists p'. split; [done|]. split; [|split; [done|split; [done|]]].
  2: { intros a Ha. rewrite Hh, decide_False; [done|]. by intros [_ ?]. }
  split; rewrite ?(ss_blocks _ _ Hs).
  - done.
  - intros e [->|He]%elem_of_cons; [|apply (gi_entries _ _ _ Hg); by right].
    destruct (gi_entries _ _ _ Hg (l, k)) as [H1 H2 H3]; [by left|]. simpl in *.
    split; simpl; [|rewrite nonnull_app; apply NoDup_app; split_and!|done].
    + intros a [?|Ha]%elem_of_app; [auto|]. apply Hrange in Ha. lia.
    + done.
    + intros a [_ Ha]%nonnull_in [_ Hn]%nonnull_in. apply (Hunused _ Hn). set_solver +Ha.
    + by apply NoDup_filter.
  - intros a Ha. rewrite Hr, Hocc, (gi_ref _ _ _ Hg) by done.
    pose proof (occ_nodup a _ Hnd). destruct (decide (a ∈ new)) as [Hin|Hin].
    + apply occ_pos in Hin. lia.
    + rewrite (occ_absent a new) by done. lia.
  - intros a Ha. rewrite Hocc.
    assert (Hcase : a ∈ new ∨ a ∈ fresh_by ((l, k) :: es)).
    { rewrite fresh_cons in *. unfold entry_fresh in *. cbn [fst snd] in *.
      apply elem_of_app in Ha as [Ha|Ha]; [|right; set_solver +Ha].
      apply nonnull_in in Ha as [Ha0 Ha]. rewrite drop_app in Ha.
      apply elem_of_app in Ha as [Ha|Ha].
      - right. apply elem_of_app. left. by apply nonnull_in.
      - left. by apply elem_of_drop_list in Ha. }
    destruct Hcase as [Hin|Hin].
    + split; [by apply Hnew|]. rewrite (occ_absent a (held_by _)) by by apply Hunused.
      pose proof (occ_nodup a _ Hnd). apply occ_pos in Hin. lia.
    + destruct (gi_fresh _ _ _ Hg a Hin) as [H1 H2]. split; [by apply Hhash|].
      rewrite H2, (occ_absent a new); [done|]. intros Hn. apply (Hunused _ Hn).
      apply occ_pos. lia.
  - rewrite (ss_caching _ _ Hs). intros Hc a. apply Hhash. by apply (gi_nocache _ _ _ Hg).
Qed.

(** Cached blocks for an empty entry; [nulls] null blocks come first. *)
Lemma ginv_touch p free nulls comp k es :
  ginv p free (([], k) :: es) → (∀ a, a ∈ comp → (a < length (blocks p))%nat) →
  NoDup (nonnull comp) → (∀ a, a ∈ nonnull comp → hash p a ≠ None) →
  ∃ p', touch comp p = (Ok tt, p') ∧
    ginv p' (filter (λ a, a ∉ comp) free)
      ((replicate nulls 0%nat ++ comp, Z.of_nat nulls + len comp) :: es) ∧
    same_static p p' ∧ (∀ a, ref p' a = ref p a + occ a comp) ∧ (∀ a, hash p' a = hash p a).
Proof.
  intros Hg Hrange Hnd Hhash. pose proof (gi_pool _ _ _ Hg) as Hwf.
  destruct (touch_ok _ _ comp Hwf Hrange) as (p' & Hrun & Hwf' & Hs & Hr & Hh).
  exists p'. split; [done|]. split; [|done].
  set (l := replicate nulls 0%nat ++ comp).
  assert (Hl : ∀ a, a ≠ 0%nat → occ a l = occ a comp).
  { intros a Ha. unfold l. rewrite occ_app, occ_absent; [lia|].
    intros [-> _]%elem_of_replicate. done. }
  assert (Hnn : nonnull l = nonnull comp).
  { unfold l. rewrite nonnull_app. replace (nonnull (replicate nulls 0%nat)) with (@nil loc);
      [done|]. clear. induction nulls as [|m IH]; [done|]. simpl. unfold nonnull in *.
    by rewrite filter_cons_False by tauto. }
  assert (Hef : entry_fresh (l, Z.of_nat nulls + len comp) = []).
  { unfold entry_fresh. simpl. rewrite drop_ge; [done|]. unfold l, len.
    rewrite length_app, length_replicate. lia. }
  assert (Hf0 : fresh_by (([], k) :: es) = fresh_by es).
  { rewrite fresh_cons. unfold entry_fresh. simpl. by rewrite drop_nil. }
  split; rewrite ?(ss_blocks _ _ Hs); [done| | | |].
  - intros e [->|He]%elem_of_cons; [|apply (gi_entries _ _ _ Hg); by right].
    split; simpl; [|by rewrite Hnn|pose proof (len_nonneg comp); lia].
    pose proof (so_pos _ _ (pw_static _ _ Hwf)).
    intros a [[-> _]%elem_of_replicate|?]%elem_of_app; [done|auto].
  - intros a Ha. rewrite Hr, (gi_ref _ _ _ Hg) by done. rewrite !held_cons. simpl.
    rewrite occ_app, Hl by lia. lia.
  - intros a Ha. rewrite fresh_cons, Hef in Ha. simpl in Ha.
    assert (Ha' : a ∈ fresh_by (([], k) :: es)) by by rewrite Hf0.
    destruct (gi_fresh _ _ _ Hg a Ha') as [H1 H2]. rewrite Hh. split; [done|].
    assert (Ha0 : a ≠ 0%nat).
    { unfold fresh_by in Ha. apply list_elem_of_bind in Ha as (e & He & _).
      by apply nonnull_in in He as [? _]. }
    rewrite held_cons in H2 |- *. simpl in H2 |- *. rewrite occ_app, Hl, H2 by done.
    rewrite occ_absent; [done|]. intros Hin. apply (Hhash a); [by apply nonnull_in|done].
  - rewrite (ss_caching _ _ Hs). intros Hc a. rewrite Hh. by apply (gi_nocache _ _ _ Hg).
Qed.

Lemma nodup_nonnull l : NoDup (nonnull l) ↔ ∀ a, a ≠ 0%nat → occ a l ≤ 1.
Proof.
  split.
  - intros Hnd a Ha. rewrite <- occ_nonnull by done. by apply occ_nodup.
  - intros H. apply nodup_occ. intros a. destruct (decide (a = 0%nat)) as [->|Ha].
    + rewrite occ_absent; [lia|]. by intros [? _]%nonnull_in.
    + rewrite occ_nonnull by done. by apply H.
Qed.

Lemma ginv_occ_le p free e es a :
  ginv p free (e :: es) → a ≠ 0%nat → occ a e.1 ≤ 1.
Proof.
  intros Hg. apply nodup_nonnull. apply (eo_nodup _ _ (gi_entries _ _ _ Hg e (list_elem_of_here _ _))).
Qed.

(** Some blocks of the first entry are given back: the whole list, or the
    skipped blocks, which null blocks replace. *)
Lemma ginv_free p free l l' k k' xs es :
  ginv p free ((l, k) :: es) →
  (∀ a, a ≠ 0%nat → occ a l = occ a l' + occ a xs) →
  (∀ a, a ∈ l' ++ xs → a = 0%nat ∨ a ∈ l) → 0 ≤ k' →
  (∀ a, a ∈ entry_fresh (l', k') → a ∈ entry_fresh (l, k)) →
  ∃ p' extra, free_blocks xs p = (Ok tt, p') ∧ ginv p' (free ++ extra) ((l', k') :: es) ∧
    same_static p p' ∧ (∀ a, hash p' a = hash p a) ∧
    (∀ a, a ∈ extra → a ∈ xs ∧ a ≠ 0%nat).
Proof.
  intros Hg Hocc Hsub Hk' Hfr. pose proof (gi_pool _ _ _ Hg) as Hwf.
  destruct (gi_entries _ _ _ Hg (l, k)) as [Hrange Hnd _]; [by left|]. simpl in Hrange, Hnd.
  pose proof (so_pos _ _ (pw_static _ _ Hwf)) as Hpos.
  pose proof (proj1 (nodup_nonnull l) Hnd) as Hone.
  assert (Hr' : ∀ a, a ∈ l' ++ xs → (a < length (blocks p))%nat).
  { intros a [->|Ha]%Hsub; [done|by apply Hrange]. }
  assert (Hf : freeable p xs).
  { split.
    - intros a Ha. apply Hr'. set_solver +Ha.
    - apply nodup_nonnull. intros a Ha. specialize (Hone a Ha). rewrite Hocc in Hone by done.
      pose proof (occ_nonneg a l'). lia.
    - intros a Ha Ha0. rewrite (gi_ref _ _ _ Hg) by (specialize (Hr' a); set_solver by lia).
      apply occ_pos. rewrite held_cons. destruct (Hsub a) as [->|?]; [set_solver +Ha|done|].
      set_solver. }
  destruct (free_blocks_ok p free xs Hwf Hf) as (p' & Hrun & Hwf' & Hs & Hr & Hh).
  exists p', (filter (λ a, ref p' a = 0 ∧ a ≠ 0%nat) xs).
  split; [done|]. split; [|split; [done|split; [done|]]].
  2: { intros a [[_ ?] ?]%list_elem_of_filter. done. }
  assert (Hheld : ∀ a, a ≠ 0%nat →
    occ a (held_by ((l, k) :: es)) = occ a (held_by ((l', k') :: es)) + occ a xs).
  { intros a Ha. rewrite !held_cons. simpl. rewrite !occ_app, Hocc by done. lia. }
  split; rewrite ?(ss_blocks _ _ Hs); [done| | | |].
  - intros e [->|He]%elem_of_cons; [|apply (gi_entries _ _ _ Hg); by right].
    split; simpl; [intros a Ha; apply Hr'; set_solver +Ha| |done].
    apply nodup_nonnull. intros a Ha. specialize (Hone a Ha). rewrite Hocc in Hone by done.
    pose proof (occ_nonneg a xs). lia.
  - intros a Ha. rewrite Hr, (gi_ref _ _ _ Hg), Hheld by lia. lia.
  - intros a Ha. rewrite Hh.
    assert (Hin : a ∈ fresh_by ((l, k) :: es) ∧ 0 < occ a (held_by ((l', k') :: es))).
    { rewrite fresh_cons, occ_pos, held_cons in *. apply elem_of_app in Ha as [Ha|Ha].
      - split; apply elem_of_app; left; [by apply Hfr|by apply fresh_sub in Ha].
      - split; apply elem_of_app; right; [done|]. unfold fresh_by, held_by in *.
        rewrite list_elem_of_bind in *. destruct Ha as (e & Ha & He). exists e.
        split; [by apply fresh_sub|done]. }
    destruct Hin as [Hin Hpos']. destruct (gi_fresh _ _ _ Hg a Hin) as [H1 H2].
    split; [done|]. assert (Ha0 : a ≠ 0%nat).
    { unfold fresh_by in Ha. apply list_elem_of_bind in Ha as (e & He & _).
      by apply nonnull_in in He as [? _]. }
    rewrite Hheld in H2 by done. pose proof (occ_nonneg a xs). lia.
  - rewrite (ss_caching _ _ Hs). intros Hc a. rewrite Hh. by apply (gi_nocache _ _ _ Hg).
Qed.

Lemma take_slice_drop {A} (l : list A) k nf :
  0 ≤ k → k ≤ nf → nf ≤ len l →
  l = take (Z.to_nat k) l ++ py_slice l k nf ++ drop (Z.to_nat nf) l.
Proof.
  intros Hk Hnf Hl. rewrite py_slice_nonneg by lia. unfold len in Hl.
  rewrite <- (take_drop (Z.to_nat k) l) at 1. f_equal.
  rewrite <- (take_drop (Z.to_nat nf - Z.to_nat k) (drop (Z.to_nat k) l)) at 1.
  rewrite drop_drop, skipn_firstn_comm. do 2 f_equal. lia.
Qed.

(** The next full blocks of the first entry are cached. *)
Lemma ginv_cache p free l k nf es r bs gid
    (view := hash_view (hash_block_size p) bs (block_hashes r)) :
  ginv p free ((l, k) :: es) → enable_caching p = true → 0 ≤ gid < 2 ^ 32 →
  k < nf ≤ len l → 0 < hash_block_size p ≤ bs → bs mod hash_block_size p = 0 →
  nf ≤ view_len view →
  ∃ p', cache_full_blocks r l k nf bs gid p = (Ok tt, p') ∧
    ginv p' free ((l, nf) :: es) ∧ same_static p p' ∧
    (∀ i a, k ≤ i < nf → l !! Z.to_nat i = Some a → a ≠ 0%nat →
       ∃ h, hashes_index view i = Ok h ∧ hash p' a = Some (h ++ be_bytes 4 gid)).
Proof.
  intros Hg Hc Hgid Hk Hbs Hmod Hview. pose proof (gi_pool _ _ _ Hg) as Hwf.
  destruct (gi_entries _ _ _ Hg (l, k)) as [Hrange Hnd Hk0]; [by left|]. simpl in *.
  pose proof (take_slice_drop l k nf ltac:(lia) ltac:(lia) ltac:(lia)) as Hl.
  set (sl := py_slice l k nf) in *.
  assert (Hsl : ∀ a, a ∈ sl → a ≠ 0%nat → a ∈ entry_fresh (l, k)).
  { intros a Ha Ha0. unfold entry_fresh. simpl. apply nonnull_in. split; [done|].
    assert (Hd : drop (Z.to_nat k) l = sl ++ drop (Z.to_nat nf) l).
    { rewrite Hl at 1. rewrite drop_app_length'; [done|]. rewrite length_take. unfold len in Hk. lia. }
    rewrite Hd. set_solver +Ha. }
  assert (Hca : cacheable (length (blocks p)) (data p) sl).
  { split.
    - intros a Ha. apply Hrange. rewrite Hl. set_solver +Ha.
    - apply nodup_nonnull. intros a Ha. pose proof (proj1 (nodup_nonnull l) Hnd a Ha) as Ho.
      rewrite Hl in Ho. rewrite !occ_app in Ho.
      pose proof (occ_nonneg a (take (Z.to_nat k) l)).
      pose proof (occ_nonneg a (drop (Z.to_nat nf) l)). lia.
    - intros a Ha Ha0. apply (gi_fresh _ _ _ Hg a). rewrite fresh_cons. apply elem_of_app.
      left. by apply Hsl. }
  destruct (cache_full_blocks_ok p free r l k nf bs gid)
    as (p' & Hrun & Hwf' & Hs & Hr & Hset & Hkeep); [done|done|lia|lia|done|done|done|done|].
  exists p'. split; [done|]. split; [|done].
  split; rewrite ?(ss_blocks _ _ Hs); [done| | | |].
  - intros e [->|He]%elem_of_cons; [|apply (gi_entries _ _ _ Hg); by right].
    split; simpl; [done|done|lia].
  - intros a Ha. rewrite Hr, (gi_ref _ _ _ Hg) by done. done.
  - intros a Ha.
    assert (Hin : a ∈ fresh_by ((l, k) :: es) ∧ a ∉ sl).
    { rewrite fresh_cons in Ha |- *. apply elem_of_app in Ha as [Ha|Ha].
      - unfold entry_fresh in Ha. simpl in Ha. apply nonnull_in in Ha as [Ha0 Ha]. split.
        + apply elem_of_app. left. unfold entry_fresh. simpl. apply nonnull_in. split; [done|].
          replace (Z.to_nat nf) with (Z.to_nat k + (Z.to_nat nf - Z.to_nat k))%nat in Ha by lia.
          rewrite <- drop_drop in Ha. by apply elem_of_drop_list in Ha.
        + intros Hs1. pose proof (proj1 (nodup_nonnull l) Hnd a Ha0) as Ho.
          rewrite Hl in Ho. rewrite !occ_app in Ho. apply occ_pos in Hs1, Ha.
          pose proof (occ_nonneg a (take (Z.to_nat k) l)). lia.
      - assert (Hboth : a ∈ fresh_by ((l, k) :: es)) by (rewrite fresh_cons; set_solver +Ha).
        split; [by rewrite fresh_cons in Hboth|]. intros Hs1.
        destruct (gi_fresh _ _ _ Hg a Hboth) as [_ H2]. rewrite held_cons, occ_app in H2.
        assert (a ∈ l) as Hin1 by (rewrite Hl; set_solver +Hs1). apply occ_pos in Hin1.
        assert (a ∈ held_by es) as Hin2.
        { unfold fresh_by, held_by in *. rewrite list_elem_of_bind in *.
          destruct Ha as (e & Ha & He). exists e. split; [by apply fresh_sub|done]. }
        apply occ_pos in Hin2. simpl in H2. lia. }
    destruct Hin as [Hin Hns]. destruct (gi_fresh _ _ _ Hg a Hin) as [H1 H2].
    rewrite Hkeep by auto. split; [done|]. exact H2.
  - rewrite (ss_caching _ _ Hs). congruence.
Qed.
