(* ===== verification/KVCacheInterface.v ===== *)
(** KV cache specifications (vllm/v1/kv_cache_interface.py): the format of a
    layer's KV cache, its page size, the memory it may need, and the merging of
    the specifications of the layers of a group.

    A [torch.dtype] is represented by its name; the size of an element,
    computed by torch, is the parameter [element_size]. *)

From S2P Require Import Prelude.

Abbreviation dtype := string.

Record AttentionFields := mkAttention {
  as_block_size : Z;
  num_kv_heads : Z;
  head_size : Z;
  as_dtype : dtype;
  as_page_size_padded : option Z
}.

Record FullFields := mkFull {
  head_size_v : Z;
  fa_sliding_window : option Z;
  fa_attention_chunk_size : option Z
}.

Inductive KVCacheSpec :=
  | FullAttentionSpec (a : AttentionFields) (f : FullFields)
  | MLAAttentionSpec (a : AttentionFields) (f : FullFields) (cache_dtype_str : option string)
  | SinkFullAttentionSpec (a : AttentionFields) (f : FullFields) (sink_len : option Z)
  | ChunkedLocalAttentionSpec (a : AttentionFields) (attention_chunk_size : Z)
  | SlidingWindowSpec (a : AttentionFields) (sliding_window : Z)
  | MambaSpec (block_size : Z) (shapes : list (list Z)) (dtypes : list dtype)
      (page_size_padded : option Z) (mamba_type : string) (num_speculative_blocks : Z)
  | EncoderOnlyAttentionSpec (a : AttentionFields)
  | CrossAttentionSpec (a : AttentionFields).

(** A specification of several layers of one type. *)
Record UniformTypeKVCacheSpecs := mkUniform {
  u_block_size : Z;
  kv_cache_specs : list (string * KVCacheSpec)
}.

#[export] Instance AttentionFields_eq_dec : EqDecision AttentionFields.
Proof. solve_decision. Defined.
#[export] Instance FullFields_eq_dec : EqDecision FullFields.
Proof. solve_decision. Defined.
#[export] Instance KVCacheSpec_eq_dec : EqDecision KVCacheSpec.
Proof. solve_decision. Defined.

(** [FullAttentionSpec.__post_init__]: [head_size_v] defaults to [head_size]. *)
Definition full_fields (a : AttentionFields) (v : option Z) (window chunk : option Z)
    : FullFields :=
  mkFull (default (head_size a) v) window chunk.

(** The common attributes. *)
Definition spec_attention (s : KVCacheSpec) : option AttentionFields :=
  match s with
  | FullAttentionSpec a _ | MLAAttentionSpec a _ _ | SinkFullAttentionSpec a _ _
  | ChunkedLocalAttentionSpec a _ | SlidingWindowSpec a _ | EncoderOnlyAttentionSpec a
  | CrossAttentionSpec a => Some a
  | MambaSpec _ _ _ _ _ _ => None
  end.
Definition spec_full (s : KVCacheSpec) : option FullFields :=
  match s with
  | FullAttentionSpec _ f | MLAAttentionSpec _ f _ | SinkFullAttentionSpec _ f _ => Some f
  | _ => None
  end.
(** [isinstance(spec, FullAttentionSpec)] holds for the subclasses too. *)
Definition is_full_attention (s : KVCacheSpec) : bool := bool_decide (is_Some (spec_full s)).
Definition is_mla (s : KVCacheSpec) : bool :=
  match s with MLAAttentionSpec _ _ _ => true | _ => false end.

Definition spec_block_size (s : KVCacheSpec) : Z :=
  match s with
  | FullAttentionSpec a _ | MLAAttentionSpec a _ _ | SinkFullAttentionSpec a _ _
  | ChunkedLocalAttentionSpec a _ | SlidingWindowSpec a _ | EncoderOnlyAttentionSpec a
  | CrossAttentionSpec a => as_block_size a
  | MambaSpec b _ _ _ _ _ => b
  end.

(** [replace(self, block_size=block_size)] *)
Definition copy_with_new_block_size (b : Z) (s : KVCacheSpec) : KVCacheSpec :=
  let set (a : AttentionFields) :=
    mkAttention b (num_kv_heads a) (head_size a) (as_dtype a) (as_page_size_padded a) in
  match s with
  | FullAttentionSpec a f => FullAttentionSpec (set a) f
  | MLAAttentionSpec a f c => MLAAttentionSpec (set a) f c
  | SinkFullAttentionSpec a f k => SinkFullAttentionSpec (set a) f k
  | ChunkedLocalAttentionSpec a c => ChunkedLocalAttentionSpec (set a) c
  | SlidingWindowSpec a w => SlidingWindowSpec (set a) w
  | MambaSpec _ sh dt p t n => MambaSpec b sh dt p t n
  | EncoderOnlyAttentionSpec a => EncoderOnlyAttentionSpec (set a)
  | CrossAttentionSpec a => CrossAttentionSpec (set a)
  end.

Section page_size.
Context (element_size : dtype → Z).

Definition prod (l : list Z) : Z := foldr Z.mul 1 l.
Definition sum (l : list Z) : Z := foldr Z.add 0 l.

(** [real_page_size_bytes] of the classes that define it. *)
Definition attention_page_size (a : AttentionFields) : Z :=
  2 * as_block_size a * num_kv_heads a * head_size a * element_size (as_dtype a).
Definition full_page_size (a : AttentionFields) (f : FullFields) : Z :=
  as_block_size a * num_kv_heads a * (head_size a + head_size_v f)
    * element_size (as_dtype a).
Definition mla_page_size (a : AttentionFields) (cache_dtype_str : option string) : Z :=
  if decide (cache_dtype_str = Some "fp8_ds_mla") then as_block_size a * 656
  else as_block_size a * num_kv_heads a * head_size a * element_size (as_dtype a).
Definition mamba_page_size (shapes : list (list Z)) (dtypes : list dtype) : Z :=
  sum (zip_with (λ shape d, prod shape * element_size d) shapes dtypes).

(** The size of a page without padding. *)
Definition real_page_size_bytes (s : KVCacheSpec) : Z :=
  match s with
  | FullAttentionSpec a f | SinkFullAttentionSpec a f _ => full_page_size a f
  | MLAAttentionSpec a _ c => mla_page_size a c
  | ChunkedLocalAttentionSpec a _ | SlidingWindowSpec a _ | EncoderOnlyAttentionSpec a
  | CrossAttentionSpec a => attention_page_size a
  | MambaSpec _ shapes dtypes _ _ _ => mamba_page_size shapes dtypes
  end.

Definition spec_page_size_padded (s : KVCacheSpec) : option Z :=
  match s with
  | MambaSpec _ _ _ p _ _ => p
  | _ => spec_attention s ≫= as_page_size_padded
  end.

Definition page_size_bytes (s : KVCacheSpec) : res Z :=
  let real_page_size := real_page_size_bytes s in
  match spec_page_size_padded s with
  | None => Ok real_page_size
  | Some p => if decide (real_page_size ≤ p) then Ok p else Raise AssertionError
  end.

(** The fields of [VllmConfig] that are read. *)
Record MemoryConfig := mkMemoryConfig {
  mc_max_model_len : Z;
  decode_context_parallel_size : Z;
  prefill_context_parallel_size : Z;
  mc_max_num_batched_tokens : Z;
  max_num_encoder_input_tokens : Z
}.

(** The number of pages [max_memory_usage_bytes] accounts for, class by class. *)
Definition full_pages (c : MemoryConfig) (block_size : Z) : Z :=
  let ws := decode_context_parallel_size c * prefill_context_parallel_size c in
  let max_model_len :=
    if decide (1 < ws) then cdiv (mc_max_model_len c) ws else mc_max_model_len c in
  cdiv max_model_len block_size.
Definition chunked_local_pages (c : MemoryConfig) (block_size attention_chunk_size : Z) : Z :=
  let num_tokens :=
    Z.min (attention_chunk_size + mc_max_num_batched_tokens c) (mc_max_model_len c) in
  cdiv num_tokens block_size.
Definition sliding_window_pages (c : MemoryConfig) (block_size sliding_window : Z) : res Z :=
  if decide (decode_context_parallel_size c = 1) then
    let num_tokens :=
      Z.min (sliding_window - 1 + mc_max_num_batched_tokens c) (mc_max_model_len c) in
    Ok (cdiv num_tokens block_size + 1)
  else Raise AssertionError.

Definition max_pages (c : MemoryConfig) (s : KVCacheSpec) : res Z :=
  match s with
  | FullAttentionSpec a _ | MLAAttentionSpec a _ _ | SinkFullAttentionSpec a _ _ =>
      Ok (full_pages c (as_block_size a))
  | ChunkedLocalAttentionSpec a chunk => Ok (chunked_local_pages c (as_block_size a) chunk)
  | SlidingWindowSpec a window => sliding_window_pages c (as_block_size a) window
  | MambaSpec b _ _ _ _ _ => Ok (cdiv (mc_max_model_len c) b)
  | EncoderOnlyAttentionSpec _ => Ok 0
  | CrossAttentionSpec a => Ok (cdiv (max_num_encoder_input_tokens c) (as_block_size a))
  end.

Definition max_memory_usage_bytes (c : MemoryConfig) (s : KVCacheSpec) : res Z :=
  match max_pages c s with
  | Raise e => Raise e
  | Ok pages =>
      match s with
      | EncoderOnlyAttentionSpec _ => Ok 0
      | _ => match page_size_bytes s with
             | Ok p => Ok (pages * p)
             | Raise e => Raise e
             end
      end
  end.

(** [UniformTypeKVCacheSpecs] *)
Fixpoint uniform_page_size (specs : list (string * KVCacheSpec)) : res Z :=
  match specs with
  | [] => Ok 0
  | (_, s) :: rest =>
      match page_size_bytes s with
      | Raise e => Raise e
      | Ok p => match uniform_page_size rest with Ok q => Ok (p + q) | Raise e => Raise e end
      end
  end.

(** The pages each layer needs. *)
Fixpoint uniform_pages (c : MemoryConfig) (specs : list (string * KVCacheSpec)) : res (list Z) :=
  match specs with
  | [] => Ok []
  | (_, s) :: rest =>
      match max_memory_usage_bytes c s, page_size_bytes s with
      | Ok m, Ok p =>
          match uniform_pages c rest with
          | Ok l => Ok (cdiv m p :: l)
          | Raise e => Raise e
          end
      | Raise e, _ | _, Raise e => Raise e
      end
  end.

(** [max(xs)] *)
Definition max_list (l : list Z) : res Z :=
  match l with [] => Raise ValueError | x :: l => Ok (foldl Z.max x l) end.

Definition uniform_max_memory_usage_bytes (c : MemoryConfig) (u : UniformTypeKVCacheSpecs)
    : res Z :=
  match uniform_pages c (kv_cache_specs u) with
  | Raise e => Raise e
  | Ok l =>
      match max_list l, uniform_page_size (kv_cache_specs u) with
      | Ok n, Ok p => Ok (n * p)
      | Raise e, _ | _, Raise e => Raise e
      end
  end.
End page_size.

(** ** Uniform types *)

Definition is_uniform_type (specs : list (string * KVCacheSpec)) : res bool :=
  let block_sizes := remove_dups (map (λ x, spec_block_size x.2) specs) in
  if decide (1 < len block_sizes) then Ok false else
  match specs with
  | [] => Raise StopIteration
  | (_, one_spec) :: _ =>
      let all_ (f : KVCacheSpec → bool) := Ok (forallb (λ x, f x.2) specs) in
      match one_spec with
      | FullAttentionSpec _ _ | MLAAttentionSpec _ _ _ | SinkFullAttentionSpec _ _ _ =>
          all_ is_full_attention
      | CrossAttentionSpec _ =>
          all_ (λ s, match s with CrossAttentionSpec _ => true | _ => false end)
      | SlidingWindowSpec _ w =>
          all_ (λ s, match s with SlidingWindowSpec _ w' => bool_decide (w' = w) | _ => false end)
      | ChunkedLocalAttentionSpec _ c =>
          all_ (λ s, match s with
                     | ChunkedLocalAttentionSpec _ c' => bool_decide (c' = c)
                     | _ => false
                     end)
      | MambaSpec _ _ _ _ _ n =>
          all_ (λ s, match s with MambaSpec _ _ _ _ _ n' => bool_decide (n' = n) | _ => false end)
      | EncoderOnlyAttentionSpec _ => Raise NotImplementedError
      end
  end.

Definition from_specs (specs : list (string * KVCacheSpec))
    : res (option UniformTypeKVCacheSpecs) :=
  match is_uniform_type specs with
  | Raise e => Raise e
  | Ok false => Ok None
  | Ok true =>
      match specs with
      | [] => Raise StopIteration
      | (_, s) :: _ => Ok (Some (mkUniform (spec_block_size s) specs))
      end
  end.

(** ** Merging *)

Definition merge_window_sizes (window_sizes : list Z) : res (option Z) :=
  match window_sizes with
  | [] => Ok None
  | [w] => Ok (Some w)
  | _ => Raise ValueError
  end.

(** The set of the values that are not [None]. *)
Definition value_set (f : FullFields → option Z) (specs : list KVCacheSpec) : list Z :=
  remove_dups (omap (λ s, spec_full s ≫= f) specs).

(** The checks and the merged windows of [FullAttentionSpec.merge] and
    [SinkFullAttentionSpec.merge]. *)
Definition merge_full_windows (specs : list KVCacheSpec)
    : res (AttentionFields * Z * option Z * option Z) :=
  if negb (forallb is_full_attention specs) then Raise AssertionError else
  if existsb is_mla specs then Raise AssertionError else
  match specs with
  | [] => Raise IndexError
  | s0 :: _ =>
      match spec_attention s0, spec_full s0 with
      | Some a, Some f =>
          match merge_window_sizes (value_set fa_sliding_window specs) with
          | Raise e => Raise e
          | Ok window =>
              match merge_window_sizes (value_set fa_attention_chunk_size specs) with
              | Raise e => Raise e
              | Ok chunk =>
                  if negb (forallb (λ s, bool_decide (spec_attention s = Some a)) specs)
                  then Raise AssertionError
                  else if bool_decide (is_Some window) && bool_decide (is_Some chunk)
                  then Raise AssertionError
                  else Ok (a, head_size_v f, window, chunk)
              end
          end
      | _, _ => Raise AttributeError
      end
  end.

Definition merge_full (specs : list KVCacheSpec) : res KVCacheSpec :=
  match merge_full_windows specs with
  | Ok (a, v, window, chunk) => Ok (FullAttentionSpec a (mkFull v window chunk))
  | Raise e => Raise e
  end.

Definition merge_sink (specs : list KVCacheSpec) : res KVCacheSpec :=
  match merge_full_windows specs, specs with
  | Ok (a, v, window, chunk), SinkFullAttentionSpec _ _ k :: _ =>
      Ok (SinkFullAttentionSpec a (mkFull v window chunk) k)
  | Ok _, _ => Raise AttributeError
  | Raise e, _ => Raise e
  end.

Definition merge_mla (specs : list KVCacheSpec) : res KVCacheSpec :=
  if negb (forallb is_mla specs) then Raise AssertionError else
  let cache_dtype_str_set :=
    remove_dups (omap (λ s, match s with MLAAttentionSpec _ _ c => Some c | _ => None end) specs) in
  match cache_dtype_str_set, specs with
  | [c], MLAAttentionSpec a _ _ :: _ =>
      Ok (MLAAttentionSpec a (full_fields a None None None) c)
  | _, _ => Raise AssertionError
  end.

(** [KVCacheSpec.merge]: the layers of a group must be equal. *)
Definition merge_same (specs : list KVCacheSpec) : res KVCacheSpec :=
  match specs with
  | [] => Raise IndexError
  | s0 :: rest =>
      if forallb (λ s, bool_decide (s = s0)) rest then Ok s0 else Raise AssertionError
  end.

(** [specs\[0\].merge(specs)] *)
Definition merge (specs : list KVCacheSpec) : res KVCacheSpec :=
  match specs with
  | [] => Raise IndexError
  | FullAttentionSpec _ _ :: _ => merge_full specs
  | MLAAttentionSpec _ _ _ :: _ => merge_mla specs
  | SinkFullAttentionSpec _ _ _ :: _ => merge_sink specs
  | _ => merge_same specs
  end.

(** ** Configurations *)

Record KVCacheTensor := mkTensor {
  kt_size : Z;
  shared_by : list string
}.
Record KVCacheGroupSpec := mkGroup {
  layer_names : list string;
  kv_cache_spec : KVCacheSpec
}.
Record KVCacheConfig := mkKVConfig {
  kc_num_blocks : Z;
  kv_cache_tensors : list KVCacheTensor;
  kv_cache_groups : list KVCacheGroupSpec
}.

(** * Properties *)

(** Merging accepts only layers with equal attention fields: the result of
    [merge] on full-attention layers has the attention fields of every layer,
    at most one kind of window, and each layer's window where it has one. *)
Theorem merge_full_sound specs s :
  merge_full specs = Ok s →
  ∃ a f, s = FullAttentionSpec a f ∧
    (fa_sliding_window f = None ∨ fa_attention_chunk_size f = None) ∧
    ∀ x, x ∈ specs → spec_attention x = Some a ∧
      ∃ g, spec_full x = Some g ∧
        (fa_sliding_window g = None ∨ fa_sliding_window g = fa_sliding_window f) ∧
        (fa_attention_chunk_size g = None ∨
         fa_attention_chunk_size g = fa_attention_chunk_size f).
Proof.
  unfold merge_full, merge_full_windows. intros H.
  destruct (forallb is_full_attention specs) eqn:Hfull; [|done]. simpl in H.
  destruct (existsb is_mla specs); [done|].
  destruct specs as [|s0 rest] eqn:Hs; [done|]. rewrite <- Hs in *. clear Hs.
  destruct (spec_attention s0) as [a|]; [|done]. destruct (spec_full s0) as [f|]; [|done].
  assert (Hmerge : ∀ (g : FullFields → option Z) o,
    merge_window_sizes (value_set g specs) = Ok o →
    ∀ x h, x ∈ specs → spec_full x = Some h → g h = None ∨ g h = o).
  { intros g o Ho x h Hx Hh. destruct (g h) as [v|] eqn:Hg; [right|by left].
    assert (Hin : v ∈ value_set g specs).
    { unfold value_set. rewrite elem_of_remove_dups, list_elem_of_omap.
      exists x. by rewrite Hh. }
    unfold merge_window_sizes in Ho. destruct (value_set g specs) as [|w [|? ?]]; [|injection Ho as <-|done].
    - by apply not_elem_of_nil in Hin.
    - apply list_elem_of_singleton in Hin as ->. done. }
  destruct (merge_window_sizes (value_set fa_sliding_window specs)) as [w|] eqn:Hw; [|done].
  destruct (merge_window_sizes (value_set fa_attention_chunk_size specs)) as [c|] eqn:Hc; [|done].
  destruct (forallb (λ s1, bool_decide (spec_attention s1 = Some a)) specs) eqn:Ha; [|done].
  simpl in H. destruct (bool_decide (is_Some w) && bool_decide (is_Some c)) eqn:Hwc; [done|].
  injection H as <-. exists a, (mkFull (head_size_v f) w c). split; [done|]. simpl. split.
  - destruct w, c; [|by right|by left|by left]. by rewrite !bool_decide_true in Hwc by eauto.
  - intros x Hx. pose proof (proj1 (forallb_forall _ _) Ha x) as Hax.
    pose proof (proj1 (forallb_forall _ _) Hfull x) as Hfx.
    rewrite <- list_elem_of_In in Hax, Hfx. specialize (Hax Hx). specialize (Hfx Hx).
    apply bool_decide_eq_true in Hax. apply bool_decide_eq_true in Hfx as [g Hg].
    split; [done|]. exists g. eauto.
Qed.

Lemma merge_full_sound_witness :
  let a := mkAttention 16 8 128 "bfloat16" None in
  let specs := [FullAttentionSpec a (mkFull 128 None None);
                FullAttentionSpec a (mkFull 128 (Some 1024) None)] in
  ∃ s, merge_full specs = Ok s ∧
    ∀ x, x ∈ specs → spec_attention x = spec_attention s.
Proof.
  intros a specs. exists (FullAttentionSpec a (mkFull 128 (Some 1024) None)).
  assert (H : merge_full specs = Ok (FullAttentionSpec a (mkFull 128 (Some 1024) None)))
    by (vm_compute; reflexivity).
  split; [done|]. intros x Hx.
  destruct (merge_full_sound specs _ H) as (a' & f & Heq & _ & Hall).
  injection Heq as <- <-. by destruct (Hall x Hx) as [-> _].
Defined.
