(* ===== verification/SingleTypeManagers.v ===== *)
(** The per-attention-type KV cache managers
    (vllm/v1/core/single_type_kv_cache_manager.py).

    A manager's operations run on the shared block pool and the manager's own
    state; the subclasses are dispatched on [manager_class], which the kind of
    specification determines.  [req_to_blocks] is a [defaultdict(list)]:
    [blocks_of] reads with subscription and so creates the entry. *)

From S2P Require Import Prelude.
From S2P Require Import KVBlocks.
From S2P Require Import Request.
From S2P Require Import BlockHash.
From S2P Require Import KVCacheMetrics.
From S2P Require Import BlockPool.
From S2P Require Import KVCacheInterface.

Inductive ManagerClass :=
  | FullAttentionManager
  | SlidingWindowManager
  | ChunkedLocalAttentionManager
  | MambaManager
  | CrossAttentionManager
  | SinkFullAttentionManager.

#[export] Instance ManagerClass_eq_dec : EqDecision ManagerClass.
Proof. solve_decision. Defined.

Definition spec_manager_map (s : KVCacheSpec) : res ManagerClass :=
  match s with
  | FullAttentionSpec _ _ | MLAAttentionSpec _ _ _ => Ok FullAttentionManager
  | SlidingWindowSpec _ _ => Ok SlidingWindowManager
  | ChunkedLocalAttentionSpec _ _ => Ok ChunkedLocalAttentionManager
  | MambaSpec _ _ _ _ _ _ => Ok MambaManager
  | CrossAttentionSpec _ => Ok CrossAttentionManager
  | SinkFullAttentionSpec _ _ _ => Ok SinkFullAttentionManager
  | EncoderOnlyAttentionSpec _ => Raise KeyError
  end.

Record Manager := mkManager {
  block_size : Z;
  manager_class : ManagerClass;
  m_kv_cache_spec : KVCacheSpec;
  m_enable_caching : bool;
  req_to_blocks : gmap string (list loc);
  num_cached_block : gmap string Z;
  kv_cache_group_id : Z;
  _null_block : loc;
  sink_blocks : list loc
}.

Definition Manager_eta (m : Manager) : Manager :=
  mkManager (block_size m) (manager_class m) (m_kv_cache_spec m) (m_enable_caching m)
    (req_to_blocks m) (num_cached_block m) (kv_cache_group_id m) (_null_block m) (sink_blocks m).
Definition set_req_to_blocks (v : gmap string (list loc)) : Manager → Manager :=
  ltac:(record_set Manager_eta req_to_blocks v).
Definition set_num_cached_block (v : gmap string Z) : Manager → Manager :=
  ltac:(record_set Manager_eta num_cached_block v).
Definition set_sink_blocks (v : list loc) : Manager → Manager :=
  ltac:(record_set Manager_eta sink_blocks v).

(** The state of a manager's operation: the pool it shares and its own. *)
Abbreviation PM := (BlockPool * Manager)%type.
Definition on_pool {A} (m : M BlockPool A) : M PM A := zoom fst (λ p s, (p, snd s)) m.
Definition this {A} (f : Manager → A) : M PM A := gets (λ s, f (snd s)).
Definition modify_this (f : Manager → Manager) : M PM unit := modify (λ s, (fst s, f (snd s))).

Definition set_blocks (request_id : string) (l : list loc) : M PM unit :=
  modify_this (λ m, set_req_to_blocks (<[request_id := l]> (req_to_blocks m)) m).
(** [self.req_to_blocks\[request_id\]] *)
Definition blocks_of (request_id : string) : M PM (list loc) :=
  let* o := this (λ m, req_to_blocks m !! request_id) in
  match o with
  | Some l => ret l
  | None => set_blocks request_id [] ;;; ret []
  end.

(** ** Construction *)

(** [get_manager_for_kv_cache_spec]; [SinkFullAttentionManager] takes its sink
    blocks from the free queue. *)
Definition get_manager_for_kv_cache_spec (spec : KVCacheSpec) (caching : bool) (group_id : Z)
    (dcp_world_size pcp_world_size : Z) : M BlockPool Manager :=
  let* cls := of_res (spec_manager_map spec) in
  let* null := gets null_block in
  let ws := dcp_world_size * pcp_world_size in
  let bs := if decide (1 < ws) then spec_block_size spec * ws else spec_block_size spec in
  let m := mkManager bs cls spec caching ∅ ∅ group_id null [] in
  match spec with
  | SinkFullAttentionSpec _ _ sink_len =>
      match sink_len with
      | None => raise AssertionError
      | Some sink_len =>
          assert_ (bool_decide (0 < sink_len) && bool_decide (sink_len mod bs = 0)) ;;;
          let* sinks := on_mem (FreeQueue.popleft_n (sink_len / bs)) in
          ret (set_sink_blocks sinks m)
      end
  | _ => ret m
  end.

(** ** Skipped tokens *)

Definition sliding_window_skipped (sliding_window num_computed_tokens : Z) : Z :=
  Z.max 0 (num_computed_tokens - sliding_window + 1).
Definition chunked_local_skipped (attention_chunk_size num_computed_tokens : Z) : Z :=
  num_computed_tokens / attention_chunk_size * attention_chunk_size.
Definition mamba_skipped (num_computed_tokens : Z) : Z := num_computed_tokens - 1.

(** The method, dispatched on the specification the manager was made for;
    the base class's version returns [0]. *)
Definition get_num_skipped_tokens (m : Manager) (num_computed_tokens : Z) : Z :=
  match m_kv_cache_spec m with
  | SlidingWindowSpec _ w => sliding_window_skipped w num_computed_tokens
  | ChunkedLocalAttentionSpec _ c => chunked_local_skipped c num_computed_tokens
  | MambaSpec _ _ _ _ _ _ => mamba_skipped num_computed_tokens
  | _ => 0
  end.
Ltac unfold_skipped :=
  unfold get_num_skipped_tokens, sliding_window_skipped, chunked_local_skipped,
    mamba_skipped in *.

(** ** Allocation *)

(** [sum(blk.ref_cnt == 0 and not blk.is_null for blk in blks)] *)
Fixpoint count_evictable (blks : list loc) : M BlockPool Z :=
  match blks with
  | [] => ret 0
  | blk :: rest =>
      let* b := block blk in
      let* n := count_evictable rest in
      ret (n + (if bool_decide (ref_cnt b = 0) && negb (is_null b) then 1 else 0))
  end.

Definition base_get_num_blocks_to_allocate (request_id : string) (num_tokens : Z)
    (new_computed_blocks : list loc) (total_computed_tokens : Z) : M PM Z :=
  let* m := this id in
  let num_required_blocks := cdiv num_tokens (block_size m) in
  let num_req_blocks := len (default [] (req_to_blocks m !! request_id)) in
  match num_cached_block m !! request_id with
  | Some _ =>
      assert_ (bool_decide (len new_computed_blocks = 0)) ;;;
      ret (Z.max (num_required_blocks - num_req_blocks) 0)
  | None =>
      let num_skipped_tokens := get_num_skipped_tokens m total_computed_tokens in
      let num_local_computed_blocks := len new_computed_blocks + num_req_blocks in
      let num_skipped_blocks := num_skipped_tokens / block_size m in
      let num_new_blocks :=
        Z.max (num_required_blocks - Z.max num_skipped_blocks num_local_computed_blocks) 0 in
      let num_skipped_new_computed_blocks := Z.max 0 (num_skipped_blocks - num_req_blocks) in
      let* num_evictable_blocks :=
        on_pool (count_evictable (py_from new_computed_blocks num_skipped_new_computed_blocks)) in
      ret (num_new_blocks + num_evictable_blocks)
  end.

(** [MambaManager] asks for its speculative blocks on top. *)
Definition with_speculative_blocks (m : Manager) (num_tokens : Z) : Z :=
  match m_kv_cache_spec m with
  | MambaSpec b _ _ _ _ n => if decide (0 < n) then num_tokens + b * n else num_tokens
  | _ => num_tokens
  end.

Definition get_num_blocks_to_allocate (request_id : string) (num_tokens : Z)
    (new_computed_blocks : list loc) (total_computed_tokens : Z) : M PM Z :=
  let* m := this id in
  base_get_num_blocks_to_allocate request_id (with_speculative_blocks m num_tokens)
    new_computed_blocks total_computed_tokens.

Definition base_allocate_new_computed_blocks (request_id : string)
    (new_computed_blocks : list loc)
    (num_local_computed_tokens num_external_computed_tokens : Z) : M PM unit :=
  let* cached := this (λ m, num_cached_block m !! request_id) in
  match cached with
  | Some _ => assert_ (bool_decide (len new_computed_blocks = 0))
  | None =>
      let* req_blocks := blocks_of request_id in
      assert_ (bool_decide (len req_blocks = 0)) ;;;
      let* m := this id in
      let num_total_computed_tokens :=
        num_local_computed_tokens + num_external_computed_tokens in
      let num_skipped_tokens := get_num_skipped_tokens m num_total_computed_tokens in
      let num_skipped_blocks := num_skipped_tokens / block_size m in
      let '(new_computed_blocks, num_external_computed_tokens) :=
        if decide (0 < num_skipped_blocks) then
          (py_from new_computed_blocks num_skipped_blocks,
           Z.min (num_total_computed_tokens - num_skipped_tokens) num_external_computed_tokens)
        else (new_computed_blocks, num_external_computed_tokens) in
      (if m_enable_caching m then on_pool (touch new_computed_blocks)
       else assert_ (bool_decide (new_computed_blocks = []))) ;;;
      let req_blocks :=
        req_blocks ++ replicate (Z.to_nat num_skipped_blocks) (_null_block m)
          ++ new_computed_blocks in
      set_blocks request_id req_blocks ;;;
      modify_this (λ m, set_num_cached_block
        (<[request_id := len req_blocks]> (num_cached_block m)) m) ;;;
      if decide (0 < num_external_computed_tokens) then
        let* allocated_blocks := on_pool (get_new_blocks
          (cdiv num_total_computed_tokens (block_size m) - len req_blocks)) in
        set_blocks request_id (req_blocks ++ allocated_blocks)
      else ret tt
  end.

Definition allocate_new_computed_blocks (request_id : string)
    (new_computed_blocks : list loc)
    (num_local_computed_tokens num_external_computed_tokens : Z) : M PM unit :=
  let* cls := this manager_class in
  match cls with
  | CrossAttentionManager => assert_ (bool_decide (len new_computed_blocks = 0))
  | _ => base_allocate_new_computed_blocks request_id new_computed_blocks
           num_local_computed_tokens num_external_computed_tokens
  end.

Definition base_allocate_new_blocks (request_id : string) (num_tokens : Z)
    : M PM (list loc) :=
  let* req_blocks := blocks_of request_id in
  let* bs := this block_size in
  let num_new_blocks := cdiv num_tokens bs - len req_blocks in
  if decide (num_new_blocks ≤ 0) then ret []
  else
    let* new_blocks := on_pool (get_new_blocks num_new_blocks) in
    set_blocks request_id (req_blocks ++ new_blocks) ;;;
    ret new_blocks.

Definition allocate_new_blocks (request_id : string) (num_tokens : Z) : M PM (list loc) :=
  let* m := this id in
  base_allocate_new_blocks request_id (with_speculative_blocks m num_tokens).

(** ** Caching, freeing *)

Definition base_cache_blocks (request : Request) (num_tokens : Z) : M PM unit :=
  let* m := this id in
  let num_cached_blocks := default 0 (num_cached_block m !! request_id request) in
  let num_full_blocks := num_tokens / block_size m in
  if decide (num_full_blocks ≤ num_cached_blocks) then ret tt
  else
    let* blks := blocks_of (request_id request) in
    on_pool (cache_full_blocks request blks num_cached_blocks num_full_blocks
               (block_size m) (kv_cache_group_id m)) ;;;
    modify_this (λ m, set_num_cached_block
      (<[request_id request := num_full_blocks]> (num_cached_block m)) m).

Definition cache_blocks (request : Request) (num_tokens : Z) : M PM unit :=
  let* cls := this manager_class in
  match cls with
  | CrossAttentionManager => raise ValueError
  | _ => base_cache_blocks request num_tokens
  end.

Definition free (request_id : string) : M PM unit :=
  let* req_blocks := this (λ m, default [] (req_to_blocks m !! request_id)) in
  modify_this (λ m, set_req_to_blocks (delete request_id (req_to_blocks m)) m) ;;;
  on_pool (free_blocks (reverse req_blocks)) ;;;
  modify_this (λ m, set_num_cached_block (delete request_id (num_cached_block m)) m).

(** The loop of [remove_skipped_blocks] from index [i - 1] down: the blocks
    to free and the request's blocks with those replaced by the null block. *)
Fixpoint remove_skipped_loop (null : loc) (i : nat) (blks removed : list loc)
    : list loc * list loc :=
  match i with
  | O => (removed, blks)
  | S i =>
      match blks !! i with
      | None => (removed, blks)
      | Some b =>
          if decide (b = null) then (removed, blks)
          else remove_skipped_loop null i (<[i := null]> blks) (removed ++ [b])
      end
  end.

Definition remove_skipped_blocks (request_id : string) (total_computed_tokens : Z)
    : M PM unit :=
  let* m := this id in
  let num_skipped_tokens := get_num_skipped_tokens m total_computed_tokens in
  if decide (num_skipped_tokens ≤ 0) then ret tt
  else
    let* blks := blocks_of request_id in
    let num_skipped_blocks := Z.min (num_skipped_tokens / block_size m) (len blks) in
    let '(removed_blocks, blks) :=
      remove_skipped_loop (_null_block m) (Z.to_nat num_skipped_blocks) blks [] in
    set_blocks request_id blks ;;;
    on_pool (free_blocks removed_blocks).

(** ** Common prefix *)

Fixpoint common_prefix_loop (num_requests : Z) (blks : list loc) : M BlockPool Z :=
  match blks with
  | [] => ret 0
  | blk :: rest =>
      let* b := block blk in
      if decide (ref_cnt b = num_requests) then
        let* n := common_prefix_loop num_requests rest in ret (1 + n)
      else ret 0
  end.

Definition full_get_num_common_prefix_blocks (running_request_id : string) : M PM Z :=
  let* blks := blocks_of running_request_id in
  let* n := this (λ m, Z.of_nat (size (req_to_blocks m))) in
  on_pool (common_prefix_loop n blks).

(** The other managers return [0]. *)
Definition get_num_common_prefix_blocks (running_request_id : string) : M PM Z :=
  let* cls := this manager_class in
  match cls with
  | FullAttentionManager | SinkFullAttentionManager =>
      full_get_num_common_prefix_blocks running_request_id
  | _ => ret 0
  end.

(** ** Prefix cache hits *)

(** [for computed, cached in zip(computed_blocks, cached_block):
    computed.append(cached)] *)
Fixpoint zip_append (computed : list (list loc)) (cached : list loc) : list (list loc) :=
  match computed, cached with
  | c :: computed, b :: cached => (c ++ [b]) :: zip_append computed cached
  | _, _ => computed
  end.
(** ... and the assignment [computed\[i\] = cached]. *)
Fixpoint zip_assign (i : nat) (computed : list (list loc)) (cached : list loc)
    : list (list loc) :=
  match computed, cached with
  | c :: computed, b :: cached => <[i := b]> c :: zip_assign i computed cached
  | _, _ => computed
  end.
(** [for computed in computed_blocks: computed.pop()] *)
Definition pop_all (computed : list (list loc)) : res (list (list loc)) :=
  collect (map (λ c : list loc, match c with
                     | [] => Raise IndexError
                     | _ => Ok (removelast c)
                     end) computed).
(** [computed_blocks\[0\]] *)
Definition first_len (computed : list (list loc)) : res Z :=
  match computed with [] => Raise IndexError | c :: _ => Ok (len c) end.

(** The [while] loop that shortens the hit to the alignment. *)
Fixpoint align_loop (fuel : nat) (block_size alignment_tokens : Z)
    (computed : list (list loc)) : M BlockPool (list (list loc)) :=
  if decide (block_size = alignment_tokens) then ret computed else
  let* n := of_res (first_len computed) in
  if decide (n * block_size mod alignment_tokens = 0) then ret computed
  else match fuel with
       | O => raise OutOfFuel
       | S fuel =>
           let* computed := of_res (pop_all computed) in
           align_loop fuel block_size alignment_tokens computed
       end.

(** The length of the lists bounds the iterations. *)
Definition align (block_size alignment_tokens : Z) (computed : list (list loc))
    : M BlockPool (list (list loc)) :=
  align_loop (match computed with [] => O | c :: _ => length c end)
    block_size alignment_tokens computed.

(** [if use_eagle and computed_blocks\[0\]: pop all] *)
Definition drop_last_if (use_eagle : bool) (computed : list (list loc))
    : M BlockPool (list (list loc)) :=
  if use_eagle then
    let* n := of_res (first_len computed) in
    if decide (n = 0) then ret computed else of_res (pop_all computed)
  else ret computed.

(** [list(block_hashes)] as the loop consumes it. *)
Definition hashes_iter (l : BlockHashList) : list (res bytes) :=
  match l with HPlain l => map Ok l | HScaled l => hash_list_iter l end.

Section cache_hit.
Context (block_hashes : BlockHashList) (max_length : Z) (kv_cache_group_ids : list Z)
  (kv_cache_spec : KVCacheSpec) (use_eagle : bool) (alignment_tokens : Z).
Let block_size := spec_block_size kv_cache_spec.
Let no_blocks : list (list loc) := map (λ _, []) kv_cache_group_ids.

(** A lookup whose result is used as a condition: [None] and [\[\]] are false. *)
Definition lookup_cached (h : res bytes) : M BlockPool (option (list loc)) :=
  let* h := of_res h in
  let* r := get_cached_block h kv_cache_group_ids in
  ret (match r with Some [] => None | _ => r end).

Fixpoint full_loop (hashes : list (res bytes)) (computed : list (list loc))
    : M BlockPool (list (list loc)) :=
  match hashes with
  | [] => ret computed
  | h :: hashes =>
      let* r := lookup_cached h in
      match r with
      | Some cached => full_loop hashes (zip_append computed cached)
      | None => ret computed
      end
  end.

Definition find_longest_cache_hit_full (dcp_world_size pcp_world_size : Z)
    : M BlockPool (list (list loc)) :=
  match kv_cache_spec with
  | FullAttentionSpec _ _ | MLAAttentionSpec _ _ _ | SinkFullAttentionSpec _ _ _
  | ChunkedLocalAttentionSpec _ _ =>
      let ws := dcp_world_size * pcp_world_size in
      let block_size := if decide (1 < ws) then block_size * ws else block_size in
      let max_num_blocks := max_length / block_size in
      if decide (max_num_blocks < 0) then raise ValueError else
      let* computed :=
        full_loop (take (Z.to_nat max_num_blocks) (hashes_iter block_hashes)) no_blocks in
      let* computed := drop_last_if use_eagle computed in
      align block_size alignment_tokens computed
  | _ => raise AssertionError
  end.

(** The loop of the sliding window lookup; it returns the blocks, the number
    of contiguous hits and whether a match was found. *)
Fixpoint sliding_loop (contiguous_needed : Z) (n : nat) (computed : list (list loc))
    (num_contiguous_blocks : Z) : M BlockPool (list (list loc) * Z * bool) :=
  match n with
  | O => ret (computed, num_contiguous_blocks, false)
  | S i =>
      let* r := lookup_cached (hashes_index block_hashes (Z.of_nat i)) in
      match r with
      | Some cached =>
          if bool_decide (num_contiguous_blocks = 0)
             && bool_decide (block_size ≠ alignment_tokens)
             && bool_decide ((Z.of_nat i + 1) * block_size mod alignment_tokens ≠ 0)
          then sliding_loop contiguous_needed i computed num_contiguous_blocks
          else
            let computed := zip_assign i computed cached in
            let num_contiguous_blocks := num_contiguous_blocks + 1 in
            if decide (contiguous_needed ≤ num_contiguous_blocks) then
              ret (map (take (i + Z.to_nat num_contiguous_blocks)) computed,
                   num_contiguous_blocks, true)
            else sliding_loop contiguous_needed i computed num_contiguous_blocks
      | None => sliding_loop contiguous_needed i computed 0
      end
  end.

Definition find_longest_cache_hit_sliding (dcp_world_size pcp_world_size : Z)
    : M BlockPool (list (list loc)) :=
  match kv_cache_spec with
  | SlidingWindowSpec _ sliding_window =>
      assert_ (bool_decide (dcp_world_size = 1)) ;;;
      assert_ (bool_decide (pcp_world_size = 1)) ;;;
      let contiguous := cdiv (sliding_window - 1) block_size in
      let contiguous := if use_eagle then contiguous + 1 else contiguous in
      let max_num_blocks := max_length / block_size in
      let* null := gets null_block in
      let* r := sliding_loop contiguous (Z.to_nat max_num_blocks)
        (map (λ _, replicate (Z.to_nat max_num_blocks) null) kv_cache_group_ids) 0 in
      let '(computed, num_contiguous_blocks, match_found) := r in
      let* computed :=
        (if match_found : bool then ret computed
         else align block_size alignment_tokens
                (map (take (Z.to_nat num_contiguous_blocks)) computed)) in
      if use_eagle then
        let* n := of_res (first_len computed) in
        if decide (n = 0) then ret computed
        else assert_ (bool_decide (block_size = alignment_tokens)) ;;;
             of_res (pop_all computed)
      else ret computed
  | _ => raise AssertionError
  end.

(** The lookups from block [i] on, as long as they hit. *)
Fixpoint chunked_loop (i : list Z) (computed : list (list loc))
    : M BlockPool (list (list loc)) :=
  match i with
  | [] => ret computed
  | i :: rest =>
      let* r := lookup_cached (hashes_index block_hashes i) in
      match r with
      | Some cached => chunked_loop rest (zip_append computed cached)
      | None => ret computed
      end
  end.

Definition find_longest_cache_hit_chunked (dcp_world_size pcp_world_size : Z)
    : M BlockPool (list (list loc)) :=
  match kv_cache_spec with
  | ChunkedLocalAttentionSpec _ attention_chunk_size =>
      assert_ (negb use_eagle) ;;;
      assert_ (bool_decide (dcp_world_size = 1)) ;;;
      assert_ (bool_decide (pcp_world_size = 1)) ;;;
      assert_ (bool_decide (block_size = alignment_tokens)) ;;;
      let max_num_blocks := max_length / block_size in
      let local_attention_start_idx :=
        if decide (0 < max_length)
        then max_length / attention_chunk_size * attention_chunk_size else 0 in
      let local_attention_start_block_idx := local_attention_start_idx / block_size in
      let* null := gets null_block in
      chunked_loop (py_range local_attention_start_block_idx max_num_blocks)
        (map (λ _, replicate (Z.to_nat local_attention_start_block_idx) null)
           kv_cache_group_ids)
  | _ => raise AssertionError
  end.

Fixpoint mamba_loop (null : loc) (n : nat) : M BlockPool (list (list loc)) :=
  match n with
  | O => ret no_blocks
  | S i =>
      let* r := lookup_cached (hashes_index block_hashes (Z.of_nat i)) in
      match r with
      | Some cached =>
          if bool_decide (block_size ≠ alignment_tokens)
             && bool_decide ((Z.of_nat i + 1) * block_size mod alignment_tokens ≠ 0)
          then mamba_loop null i
          else ret (zip_append (map (λ _, replicate i null) kv_cache_group_ids) cached)
      | None => mamba_loop null i
      end
  end.

Definition find_longest_cache_hit_mamba (dcp_world_size pcp_world_size : Z)
    : M BlockPool (list (list loc)) :=
  match kv_cache_spec with
  | MambaSpec _ _ _ _ _ _ =>
      assert_ (bool_decide (dcp_world_size = 1)) ;;;
      assert_ (bool_decide (pcp_world_size = 1)) ;;;
      let* null := gets null_block in
      mamba_loop null (Z.to_nat (max_length / block_size))
  | _ => raise AssertionError
  end.

Definition find_longest_cache_hit_cross : M BlockPool (list (list loc)) :=
  match kv_cache_spec with
  | CrossAttentionSpec _ => raise NotImplementedError
  | _ => raise AssertionError
  end.

Definition manager_find_longest_cache_hit (cls : ManagerClass)
    (dcp_world_size pcp_world_size : Z) : M BlockPool (list (list loc)) :=
  match cls with
  | FullAttentionManager | SinkFullAttentionManager =>
      find_longest_cache_hit_full dcp_world_size pcp_world_size
  | SlidingWindowManager => find_longest_cache_hit_sliding dcp_world_size pcp_world_size
  | ChunkedLocalAttentionManager =>
      find_longest_cache_hit_chunked dcp_world_size pcp_world_size
  | MambaManager => find_longest_cache_hit_mamba dcp_world_size pcp_world_size
  | CrossAttentionManager => find_longest_cache_hit_cross
  end.
End cache_hit.
