(* ===== verification/KVMemory.v ===== *)
(** Memory planning (vllm/v1/core/kv_cache_utils.py, lines 600-1566): the check
    that the cache of one request of maximal length fits, the binary search for
    the longest length that fits, the number of blocks; and the pages
    that a chunked-local layer reserves against what its manager can hold (for
    a sliding-window layer see [ManagerSpec]). *)

From S2P Require Import Prelude.
From S2P Require Import KVBlocks.
From S2P Require Import Request.
From S2P Require Import BlockHash.
From S2P Require Import KVCacheMetrics.
From S2P Require Import BlockPool.
From S2P Require Import KVCacheInterface.
From S2P Require Import SingleTypeManagers.

(** The configuration that memory planning reads and writes. *)
Record VllmConfig := mkVllmConfig {
  memory_config : MemoryConfig;
  original_max_model_len : Z;
  num_gpu_blocks_override : option Z;
  disable_hybrid_kv_cache_manager : bool
}.
(** [model_config.max_model_len = n] *)
Definition with_max_model_len (n : Z) (c : MemoryConfig) : MemoryConfig :=
  mkMemoryConfig n (decode_context_parallel_size c) (prefill_context_parallel_size c)
    (mc_max_num_batched_tokens c) (max_num_encoder_input_tokens c).

(** The specification of a group: of equal layers, or of layers of one type. *)
Inductive GroupSpec :=
  | SingleSpec (s : KVCacheSpec)
  | UniformSpec (u : UniformTypeKVCacheSpecs).
Record WorkerGroup := mkWorkerGroup {
  wg_layer_names : list string;
  wg_spec : GroupSpec
}.
Record WorkerConfig := mkWorkerConfig {
  wc_num_blocks : Z;
  wc_tensors : list KVCacheTensor;
  wc_groups : list WorkerGroup
}.

Abbreviation specs := (list (string * KVCacheSpec)).

(** [max(xs)] and [min(xs)] *)
Definition min_list (l : list Z) : res Z :=
  match l with [] => Raise ValueError | x :: l => Ok (foldl Z.min x l) end.

Definition sum_res (l : list (res Z)) : res Z :=
  letr l := collect l in Ok (foldr Z.add 0 l).

Fixpoint assoc (d : specs) (k : string) : res KVCacheSpec :=
  match d with
  | [] => Raise KeyError
  | (k', s) :: d => if decide (k = k') then Ok s else assoc d k
  end.

Section planning.
Context (element_size : dtype → Z).

(** [kv_cache_utils.max_memory_usage_bytes] *)
Definition specs_max_memory_usage_bytes (c : MemoryConfig) (l : list KVCacheSpec) : res Z :=
  sum_res (map (max_memory_usage_bytes element_size c) l).

(** ** The binary search *)

(** The [while left <= right] loop. *)
Fixpoint search_loop (fuel : nat) (fits : Z → res bool) (left right result : Z) : res Z :=
  if decide (left ≤ right) then
    match fuel with
    | O => Raise OutOfFuel
    | S fuel =>
        let mid := (left + right) / 2 in
        letr b := fits mid in
        if b : bool then search_loop fuel fits (mid + 1) right mid
        else search_loop fuel fits left (mid - 1) result
    end
  else Ok result.

(** The interval halves, so its binary logarithm is fuel enough. *)
Definition binary_search (fits : Z → res bool) (original_max : Z) : res Z :=
  letr b := fits 1 in
  if b : bool then search_loop (Z.to_nat (Z.log2 original_max + 2)) fits 1 original_max 1
  else Ok 0.

Definition fits_in_memory (c : MemoryConfig) (spec : specs) (available_memory model_len : Z)
    : res bool :=
  letr memory_needed :=
    specs_max_memory_usage_bytes (with_max_model_len model_len c) (map snd spec) in
  Ok (bool_decide (memory_needed ≤ available_memory)).

Definition estimate_max_model_len (c : MemoryConfig) (spec : specs) (available_memory : Z)
    : res Z :=
  binary_search (fits_in_memory c spec available_memory) (mc_max_model_len c).

(** [_check_enough_kv_cache_memory]: the estimate only goes into the message,
    but an exception in it would be raised. *)
Definition _check_enough_kv_cache_memory (available_memory : Z) (needed : res Z)
    (estimate : Z → res Z) : res unit :=
  if decide (available_memory ≤ 0) then Raise ValueError else
  letr needed_memory := needed in
  if decide (available_memory < needed_memory) then
    letr _ := estimate available_memory in Raise ValueError
  else Ok tt.

Definition check_enough_kv_cache_memory (c : MemoryConfig) (spec : specs)
    (available_memory : Z) : res unit :=
  match spec with
  | [] => Ok tt
  | _ => _check_enough_kv_cache_memory available_memory
           (specs_max_memory_usage_bytes c (map snd spec)) (estimate_max_model_len c spec)
  end.

(** ** Groups *)

Definition create_kv_cache_group_specs (spec : specs) (grouped_layer_names : list (list string))
    : res (list WorkerGroup) :=
  collect (map (λ names,
    letr layer_specs := collect (map (assoc spec) names) in
    letr merged_layer_spec := merge layer_specs in
    Ok (mkWorkerGroup names (SingleSpec merged_layer_spec))) grouped_layer_names).

Definition is_kv_cache_spec_uniform (spec : specs) : res bool :=
  match spec with
  | [] => Ok true
  | _ => match merge (map snd spec) with
         | Ok _ => Ok true
         | Raise AssertionError => Ok false
         | Raise e => Raise e
         end
  end.

Definition may_override_num_blocks (v : VllmConfig) (num_blocks : Z) : Z :=
  default num_blocks (num_gpu_blocks_override v).

(** [a // b] *)
Definition floordiv (a b : Z) : res Z := if decide (b = 0) then Raise ZeroDivisionError else Ok (a / b).

Definition get_num_blocks (v : VllmConfig) (num_layers available_memory page_size : Z) : res Z :=
  letr q := floordiv available_memory page_size in
  letr num_blocks := floordiv q num_layers in
  Ok (may_override_num_blocks v (Z.max num_blocks 0)).

Definition page_sizes (l : list KVCacheSpec) : res (list Z) :=
  letr l := collect (map (page_size_bytes element_size) l) in Ok (remove_dups l).

Definition group_page_size (g : GroupSpec) : res Z :=
  match g with
  | SingleSpec s => page_size_bytes element_size s
  | UniformSpec u => uniform_page_size element_size (kv_cache_specs u)
  end.
Definition get_uniform_page_size (l : list GroupSpec) : res Z :=
  letr sizes := collect (map group_page_size l) in
  match remove_dups sizes with [p] => Ok p | _ => Raise AssertionError end.

Definition _get_kv_cache_groups_uniform_spec (spec : specs) : res (list WorkerGroup) :=
  create_kv_cache_group_specs spec [map fst spec].
Definition _get_kv_cache_groups_uniform_type (u : UniformTypeKVCacheSpecs) : list WorkerGroup :=
  [mkWorkerGroup (map fst (kv_cache_specs u)) (UniformSpec u)].

Definition is_kv_cache_page_size_uniform (spec : specs) : res bool :=
  letr sizes := page_sizes (map snd spec) in Ok (bool_decide (len sizes = 1)).

(** One layer of the loop of [unify_kv_cache_spec_page_size]. *)
Definition unify_layer (max_page_size : Z) (x : string * KVCacheSpec)
    : res (string * KVCacheSpec) :=
  let '(layer_name, layer_spec) := x in
  letr layer_page_size := page_size_bytes element_size layer_spec in
  if decide (layer_page_size = max_page_size) then Ok (layer_name, layer_spec) else
  letr _ := floordiv max_page_size layer_page_size in
  if decide (max_page_size mod layer_page_size ≠ 0) then Raise NotImplementedError else
  let ratio := max_page_size / layer_page_size in
  let new_block_size := spec_block_size layer_spec * ratio in
  let new_spec := copy_with_new_block_size new_block_size layer_spec in
  letr new_page_size := page_size_bytes element_size new_spec in
  if decide (new_page_size = max_page_size) then Ok (layer_name, new_spec)
  else Raise AssertionError.

Definition unify_kv_cache_spec_page_size (spec : specs) : res specs :=
  letr sizes := page_sizes (map snd spec) in
  if decide (len sizes ≤ 1) then Ok spec else
  letr max_page_size := max_list sizes in
  collect (map (unify_layer max_page_size) spec).

Definition is_kv_cache_type_attention_free (spec : specs) : bool :=
  match spec with [] => true | _ => false end.

(** [same_type_layers\[layer_spec\].append(layer_name)], in insertion order *)
Fixpoint add_layer (d : list (KVCacheSpec * list string)) (s : KVCacheSpec) (name : string)
    : list (KVCacheSpec * list string) :=
  match d with
  | [] => [(s, [name])]
  | (s', names) :: d =>
      if decide (s = s') then (s', names ++ [name]) :: d
      else (s', names) :: add_layer d s name
  end.
Definition group_by_spec (spec : specs) : list (KVCacheSpec * list string) :=
  foldl (λ d x, add_layer d x.2 x.1) [] spec.

(** [l\[i::step\]] for [0 <= i] and [0 < step] *)
Fixpoint every (step skip : nat) (l : list string) : list string :=
  match l with
  | [] => []
  | x :: l => match skip with O => x :: every step (step - 1) l | S k => every step k l end
  end.
(** [\[layers\[i::num_groups\] for i in range(num_groups)\]] *)
Definition split_layers (group_size : Z) (layers : list string) : list (list string) :=
  let num_groups := Z.to_nat (cdiv (len layers) group_size) in
  map (λ i, every num_groups i layers) (seq 0 num_groups).

(** [max_num_layers < min_num_layers * 1.25], exact in floating point *)
Definition choose_group_size (min_num_layers max_num_layers : Z) : Z :=
  if decide (4 * max_num_layers < 5 * min_num_layers) then max_num_layers else min_num_layers.

Definition _get_kv_cache_groups_uniform_page_size (spec : specs) : res (list WorkerGroup) :=
  let same_type_layers := map snd (group_by_spec spec) in
  letr min_num_layers := min_list (map len same_type_layers) in
  letr max_num_layers := max_list (map len same_type_layers) in
  let group_size := choose_group_size min_num_layers max_num_layers in
  create_kv_cache_group_specs spec (concat (map (split_layers group_size) same_type_layers)).

(** ** Configurations *)

(** The tensors of the general case: the [i]-th is shared by the [i]-th layer
    of every group. *)
Definition shared_tensors (groups : list WorkerGroup) (size : Z) (group_size : nat)
    : list KVCacheTensor :=
  map (λ i : nat, mkTensor size (omap (λ g, wg_layer_names g !! i) groups)) (seq 0 group_size).

Definition general_config (v : VllmConfig) (groups : list WorkerGroup) (available_memory : Z)
    : res WorkerConfig :=
  letr group_size := max_list (map (λ g, len (wg_layer_names g)) groups) in
  letr page_size := get_uniform_page_size (map wg_spec groups) in
  if negb (bool_decide (0 < group_size)) then Raise AssertionError else
  letr num_blocks := get_num_blocks v group_size available_memory page_size in
  Ok (mkWorkerConfig num_blocks
        (shared_tensors groups (page_size * num_blocks) (Z.to_nat group_size)) groups).

Definition get_kv_cache_config_from_groups (v : VllmConfig) (groups : list WorkerGroup)
    (available_memory : Z) : res WorkerConfig :=
  match groups with
  | [] => Ok (mkWorkerConfig 1 [] groups)
  | [mkWorkerGroup names (UniformSpec u)] =>
      letr page_size := uniform_page_size element_size (kv_cache_specs u) in
      letr num_blocks := floordiv available_memory page_size in
      let num_blocks := may_override_num_blocks v num_blocks in
      letr tensors := collect (map (λ name,
        letr s := assoc (kv_cache_specs u) name in
        letr p := page_size_bytes element_size s in
        Ok (mkTensor (p * num_blocks) [name])) names) in
      Ok (mkWorkerConfig num_blocks tensors groups)
  | _ => general_config v groups available_memory
  end.

(** The conversion of one layer in [unify_hybrid_kv_cache_specs]. *)
Definition as_full_attention (s : KVCacheSpec) : KVCacheSpec :=
  let plain (a : AttentionFields) :=
    mkAttention (as_block_size a) (num_kv_heads a) (head_size a) (as_dtype a) None in
  match s with
  | SlidingWindowSpec a w => FullAttentionSpec (plain a) (full_fields a None (Some w) None)
  | ChunkedLocalAttentionSpec a c => FullAttentionSpec (plain a) (full_fields a None None (Some c))
  | _ => s
  end.

(** [is_kv_cache_spec_uniform(s) or is_uniform_type(s)] *)
Definition uniform_or_uniform_type (spec : specs) : res bool :=
  letr b := is_kv_cache_spec_uniform spec in
  if b : bool then Ok true else is_uniform_type spec.

Definition unify_hybrid_kv_cache_specs (spec : specs) : res specs :=
  letr b := uniform_or_uniform_type spec in
  if b : bool then Ok spec else
  let has_full_attention := existsb (λ x, is_full_attention x.2) spec in
  let has_local := existsb (λ x, match x.2 with
                                 | SlidingWindowSpec _ _ | ChunkedLocalAttentionSpec _ _ => true
                                 | _ => false
                                 end) spec in
  let spec := if has_full_attention && has_local
              then map (λ x, (x.1, as_full_attention x.2)) spec else spec in
  letr b := uniform_or_uniform_type spec in
  if b : bool then Ok spec else Raise ValueError.

(** The groups, and the layers' specifications after the in-place conversion. *)
Definition get_kv_cache_groups (v : VllmConfig) (spec : specs) : res (specs * list WorkerGroup) :=
  letr spec := if disable_hybrid_kv_cache_manager v then unify_hybrid_kv_cache_specs spec
               else Ok spec in
  if is_kv_cache_type_attention_free spec then Ok (spec, []) else
  letr b := is_kv_cache_spec_uniform spec in
  if b : bool then
    letr g := _get_kv_cache_groups_uniform_spec spec in Ok (spec, g)
  else
    letr u := from_specs spec in
    match u with
    | Some u => Ok (spec, _get_kv_cache_groups_uniform_type u)
    | None =>
        letr spec' := unify_kv_cache_spec_page_size spec in
        letr g := _get_kv_cache_groups_uniform_page_size spec' in Ok (spec, g)
    end.

Definition generate_scheduler_kv_cache_config (configs : list WorkerConfig)
    : res KVCacheConfig :=
  match configs with
  | [] => Raise IndexError
  | cfg :: _ =>
      if negb (forallb (λ c, bool_decide (wc_num_blocks c = wc_num_blocks cfg)) configs)
      then Raise AssertionError else
      letr groups := collect (map (λ g,
        match wg_spec g with
        | SingleSpec s => Ok (mkGroup (wg_layer_names g) s)
        | UniformSpec u =>
            match kv_cache_specs u with
            | [] => Raise StopIteration
            | (_, s) :: _ => Ok (mkGroup (wg_layer_names g) s)
            end
        end) (wc_groups cfg)) in
      Ok (mkKVConfig (wc_num_blocks cfg) (wc_tensors cfg) groups)
  end.

(** ** Memory of one request *)

Definition group_max_memory (c : MemoryConfig) (g : GroupSpec) : res Z :=
  match g with
  | SingleSpec s => max_memory_usage_bytes element_size c s
  | UniformSpec u => uniform_max_memory_usage_bytes element_size c u
  end.

Definition _max_memory_usage_bytes_from_groups (c : MemoryConfig) (groups : list WorkerGroup)
    : res Z :=
  match groups with
  | [] => Ok 0
  | [mkWorkerGroup _ (UniformSpec u)] =>
      specs_max_memory_usage_bytes c (map snd (kv_cache_specs u))
  | g0 :: _ =>
      letr group_size := max_list (map (λ g, len (wg_layer_names g)) groups) in
      letr page_size := get_uniform_page_size (map wg_spec groups) in
      letr any_memory := group_max_memory c (wg_spec g0) in
      letr _ := floordiv any_memory page_size in
      let blocks_needed := cdiv any_memory page_size in
      Ok (group_size * page_size * blocks_needed)
  end.

Definition groups_fit (c : MemoryConfig) (groups : list WorkerGroup)
    (available_memory model_len : Z) : res bool :=
  letr m := _max_memory_usage_bytes_from_groups (with_max_model_len model_len c) groups in
  Ok (bool_decide (m ≤ available_memory)).

Definition _estimate_max_model_len_from_groups (c : MemoryConfig) (groups : list WorkerGroup)
    (available_memory : Z) : res Z :=
  binary_search (groups_fit c groups available_memory) (mc_max_model_len c).

(** The configuration with the fitted length. *)
Definition _auto_fit_max_model_len (c : MemoryConfig) (groups : list WorkerGroup)
    (available_memory : list Z) : res MemoryConfig :=
  match groups with
  | [] => Ok c
  | _ =>
      letr min_available_memory := min_list available_memory in
      letr auto_fit_max := _estimate_max_model_len_from_groups c groups min_available_memory in
      if decide (auto_fit_max ≤ 0) then Raise ValueError
      else if decide (mc_max_model_len c ≤ auto_fit_max) then Ok c
      else Ok (with_max_model_len auto_fit_max c)
  end.

(** ** The configurations of all workers *)

(** The loop that merges the workers' specifications. *)
Definition merge_spec (merged : res specs) (x : string * KVCacheSpec) : res specs :=
  letr merged := merged in
  match assoc merged x.1 with
  | Raise _ => Ok (merged ++ [x])
  | Ok s => if decide (s = x.2) then Ok merged else Raise AssertionError
  end.
Definition merge_workers (workers : list specs) : res specs :=
  foldl merge_spec (Ok []) (concat workers).

(** The configuration of one worker: the global groups with its own layers. *)
Definition worker_groups (groups : list WorkerGroup) (spec : specs) : list WorkerGroup :=
  map (λ g, mkWorkerGroup (filter (λ n, n ∈ map fst spec) (wg_layer_names g)) (wg_spec g)) groups.
Definition worker_config (v : VllmConfig) (groups : list WorkerGroup) (spec : specs)
    (available_memory : Z) : res WorkerConfig :=
  let own := worker_groups groups spec in
  if negb (bool_decide (foldr Z.add 0 (map (λ g, len (wg_layer_names g)) own) = len spec))
  then Raise AssertionError
  else get_kv_cache_config_from_groups v own available_memory.

(** The last loop: every worker gets the smallest number of blocks. *)
Definition shrink_tensor (num_blocks_old min_num_blocks : Z) (t : KVCacheTensor)
    : res KVCacheTensor :=
  letr _ := floordiv (kt_size t) num_blocks_old in
  if decide (kt_size t mod num_blocks_old = 0)
  then Ok (mkTensor (kt_size t / num_blocks_old * min_num_blocks) (shared_by t))
  else Raise AssertionError.
Definition shrink_config (min_num_blocks : Z) (c : WorkerConfig) : res WorkerConfig :=
  letr tensors := collect (map (shrink_tensor (wc_num_blocks c) min_num_blocks) (wc_tensors c)) in
  Ok (mkWorkerConfig min_num_blocks tensors (wc_groups c)).

(** The part of [get_kv_cache_configs] up to the groups and the memory check:
    the configuration with the final model length, and the groups. *)
Definition plan_groups (v : VllmConfig) (workers : list specs) (available_memory : list Z)
    : res (MemoryConfig * list WorkerGroup) :=
  letr merged := merge_workers workers in
  letr (_, groups) := get_kv_cache_groups v merged in
  letr c := if decide (original_max_model_len v = -1)
            then _auto_fit_max_model_len (memory_config v) groups available_memory
            else Ok (memory_config v) in
  letr _ := match groups with
            | [] => Ok tt
            | _ =>
                letr m := min_list available_memory in
                _check_enough_kv_cache_memory m (_max_memory_usage_bytes_from_groups c groups)
                  (_estimate_max_model_len_from_groups c groups)
            end in
  Ok (c, groups).

Definition get_kv_cache_configs (v : VllmConfig) (workers : list specs)
    (available_memory : list Z) : res (MemoryConfig * list WorkerConfig) :=
  letr (c, groups) := plan_groups v workers available_memory in
  letr configs := collect (map (λ x, worker_config v groups x.1 x.2)
                             (zip workers available_memory)) in
  letr min_num_blocks := min_list (map wc_num_blocks configs) in
  letr configs := collect (map (shrink_config min_num_blocks) configs) in
  Ok (c, configs).
End planning.

(** * Properties *)

(** The memory reserved for a chunked-local-attention layer is enough at
    every step when the chunk size is a multiple of the block size. *)
Theorem chunked_local_pages_suffice c m a chunk n b :
  m_kv_cache_spec m = ChunkedLocalAttentionSpec a chunk → block_size m = as_block_size a →
  0 < as_block_size a → 0 < chunk → chunk mod as_block_size a = 0 → 0 ≤ n →
  0 ≤ b ≤ mc_max_num_batched_tokens c → n + b ≤ mc_max_model_len c →
  ∃ pages, max_pages c (m_kv_cache_spec m) = Ok pages ∧
    cdiv (n + b) (block_size m) - get_num_skipped_tokens m n / block_size m ≤ pages.
Proof.
  intros Hspec -> Hbs Hc Hmod Hn Hb Hlen. unfold_skipped. rewrite Hspec. simpl.
  unfold chunked_local_pages. eexists. split; [done|].
  set (bs := as_block_size a) in *. set (t := Z.min _ _). pose proof (cdiv_spec t bs Hbs).
  pose proof (Z.div_mod n chunk ltac:(lia)). pose proof (Z.mod_pos_bound n chunk Hc).
  apply Z.mod_divide in Hmod as [k Hk]; [|lia].
  replace (n / chunk * chunk / bs) with (n / chunk * k) by
    (rewrite Hk, Z.mul_assoc, Z.div_mul by lia; done).
  cut (cdiv (n + b) bs ≤ cdiv t bs + n / chunk * k); [lia|]. apply cdiv_le_iff; [done|].
  assert (n / chunk * k * bs = chunk * (n / chunk)) by (rewrite Hk; ring).
  assert (0 ≤ n / chunk) by (apply Z.div_pos; lia).
  assert (0 ≤ chunk * (n / chunk)) by nia.
  assert (n + b - chunk * (n / chunk) ≤ t) by (unfold t; lia). nia.
Qed.

Definition example_manager (s : KVCacheSpec) (cls : ManagerClass) : Manager :=
  mkManager 4 cls s true ∅ ∅ 0 0%nat [].
Definition example_fields : AttentionFields := mkAttention 4 1 64 "bfloat16" None.

Lemma chunked_local_pages_suffice_witness :
  ∃ pages, max_pages (mkMemoryConfig 100 1 1 8 0)
      (ChunkedLocalAttentionSpec example_fields 8) = Ok pages ∧
    cdiv (13 + 4) 4 - 8 / 4 ≤ pages.
Proof.
  apply (chunked_local_pages_suffice (mkMemoryConfig 100 1 1 8 0)
    (example_manager (ChunkedLocalAttentionSpec example_fields 8) ChunkedLocalAttentionManager)
    example_fields 8 13 4); simpl; (reflexivity || lia).
Defined.

(** Without that divisibility the reservation can be one page short: with
    block size 4 and chunk size 6, 11 computed and 2 new tokens live in 3
    blocks, but only 2 pages are accounted for. *)
Theorem chunked_local_pages_short :
  let m := example_manager (ChunkedLocalAttentionSpec example_fields 6)
             ChunkedLocalAttentionManager in
  max_pages (mkMemoryConfig 100 1 1 2 0) (m_kv_cache_spec m) = Ok 2 ∧
  cdiv (11 + 2) (block_size m) - get_num_skipped_tokens m 11 / block_size m = 3.
Proof. vm_compute. split; reflexivity. Qed.
