(* ===== verification/ManagerSpec.v ===== *)
(** Specifications of the managers' operations against the joint invariant
    [ginv] of [KVInvariant]: [sinv p m free es] states it for the pool [p], the
    entries of manager [m] and the entries [es] of the other managers.
    At the end, what a request of a sliding-window layer holds at each step
    against the pages that the planning reserves for it. *)

From S2P Require Import Prelude.
From S2P Require Import KVBlocks.
From S2P Require Import Request.
From S2P Require Import BlockHash.
From S2P Require Import KVCacheMetrics.
From S2P Require Import BlockPool.
From S2P Require Import BlockPoolSpec.
From S2P Require Import KVInvariant.
From S2P Require Import KVCacheInterface.
From S2P Require Import SingleTypeManagers.

Implicit Types (m : Manager) (r : string).

(** ** The entries of a manager *)

Definition mget m r : list loc := default [] (req_to_blocks m !! r).
Definition mcached m r : Z := default 0 (num_cached_block m !! r).
Definition entries_with (f : string → Z) (M : gmap string (list loc)) : list entry :=
  (λ x, (x.2, f x.1)) <$> map_to_list M.
Definition mentries m : list entry := entries_with (mcached m) (req_to_blocks m).
(** The entries of the other requests. *)
Definition mrest m r : list entry := entries_with (mcached m) (delete r (req_to_blocks m)).

Lemma entries_with_insert f M r l :
  M !! r = None → entries_with f (<[r := l]> M) ≡ₚ (l, f r) :: entries_with f M.
Proof. intros Hr. unfold entries_with. by rewrite map_to_list_insert. Qed.

Lemma entries_with_ext f g M :
  (∀ r, is_Some (M !! r) → f r = g r) → entries_with f M = entries_with g M.
Proof.
  intros Hfg. unfold entries_with. apply list_fmap_ext. intros i [r l] Hi. simpl.
  rewrite Hfg; [done|]. apply list_elem_of_lookup_2, elem_of_map_to_list in Hi. eauto.
Qed.

Lemma mentries_split m r :
  mentries m ≡ₚ
    (match req_to_blocks m !! r with Some l => [(l, mcached m r)] | None => [] end) ++ mrest m r.
Proof.
  unfold mentries, mrest. destruct (req_to_blocks m !! r) as [l|] eqn:Hr.
  - rewrite <- (insert_delete_id _ _ _ Hr) at 1. rewrite entries_with_insert by apply lookup_delete_eq.
    done.
  - by rewrite delete_id.
Qed.

Lemma mentries_set m m' r l :
  req_to_blocks m' = <[r := l]> (req_to_blocks m) →
  (∀ r', r' ≠ r → num_cached_block m' !! r' = num_cached_block m !! r') →
  mentries m' ≡ₚ (l, mcached m' r) :: mrest m r.
Proof.
  intros HM Hc. unfold mentries. rewrite HM, <- insert_delete_eq.
  rewrite entries_with_insert by apply lookup_delete_eq. unfold mrest.
  erewrite entries_with_ext; [done|]. intros r' [l' Hl']. unfold mcached. rewrite Hc; [done|].
  intros ->. by rewrite lookup_delete_eq in Hl'.
Qed.

(** ** The invariant *)

Record manager_ok (p : BlockPool) m : Prop := {
  mo_null : _null_block m = 0%nat;
  mo_bs : 0 < hash_block_size p ≤ block_size m;
  mo_mod : block_size m mod hash_block_size p = 0;
  mo_gid : 0 ≤ kv_cache_group_id m < 2 ^ 32;
  mo_caching : m_enable_caching m = enable_caching p;
  mo_cached : ∀ r, is_Some (num_cached_block m !! r) → is_Some (req_to_blocks m !! r)
}.

Record sinv (p : BlockPool) m (free : list loc) (es : list entry) : Prop := {
  si_ginv : ginv p free (mentries m ++ es);
  si_ok : manager_ok p m
}.

(** [m'] is [m] up to the data of request [r]. *)
Record same_manager r m m' : Prop := {
  sm_bs : block_size m' = block_size m;
  sm_class : manager_class m' = manager_class m;
  sm_spec : m_kv_cache_spec m' = m_kv_cache_spec m;
  sm_caching : m_enable_caching m' = m_enable_caching m;
  sm_gid : kv_cache_group_id m' = kv_cache_group_id m;
  sm_null : _null_block m' = _null_block m;
  sm_blocks : ∀ r', r' ≠ r → req_to_blocks m' !! r' = req_to_blocks m !! r';
  sm_cached : ∀ r', r' ≠ r → num_cached_block m' !! r' = num_cached_block m !! r'
}.

#[export] Instance same_manager_preorder r : PreOrder (same_manager r).
Proof.
  split; [done|]. intros m1 m2 m3 [] []. split; try congruence.
  - intros r' Hr. rewrite sm_blocks1 by done. auto.
  - intros r' Hr. rewrite sm_cached1 by done. auto.
Qed.

Lemma manager_ok_same p p' m m' r :
  manager_ok p m → same_static p p' → same_manager r m m' →
  (is_Some (num_cached_block m' !! r) → is_Some (req_to_blocks m' !! r)) → manager_ok p' m'.
Proof.
  intros [? ? ? ? ? Hc] Hs [] Hr. destruct Hs. split.
  - congruence.
  - by rewrite ss_hash_size, sm_bs0.
  - by rewrite ss_hash_size, sm_bs0.
  - by rewrite sm_gid0.
  - congruence.
  - intros r' Hr'. destruct (decide (r' = r)) as [->|]; [by apply Hr|].
    rewrite sm_blocks0 by done. apply Hc. by rewrite <- sm_cached0.
Qed.

Lemma sinv_view p m free es r :
  sinv p m free es → ginv p free ((mget m r, mcached m r) :: mrest m r ++ es).
Proof.
  intros [Hg Ho]. rewrite (mentries_split m r) in Hg. unfold mget.
  destruct (req_to_blocks m !! r) as [l|] eqn:Hr; [exact Hg|]. simpl in *.
  assert (Hk0 : 0 ≤ mcached m r); [|by apply (proj1 (ginv_empty p free _ _ Hk0))]. unfold mcached.
  destruct (num_cached_block m !! r) as [k|] eqn:Hk; [|done].
  destruct (mo_cached _ _ Ho r) as [? ?]; [eauto|congruence].
Qed.

Lemma sinv_back p p' m m' free es r l k :
  manager_ok p m → same_static p p' → same_manager r m m' →
  req_to_blocks m' = <[r := l]> (req_to_blocks m) → mcached m' r = k →
  ginv p' free ((l, k) :: mrest m r ++ es) → sinv p' m' free es.
Proof.
  intros Ho Hs Hm HM Hk Hg. split.
  - rewrite (mentries_set m m' r l HM (sm_cached _ _ _ Hm)), Hk. exact Hg.
  - eapply manager_ok_same; [done..|]. rewrite HM, lookup_insert_eq. eauto.
Qed.

(** ** Running operations *)

Lemma on_pool_ok {A} (op : M BlockPool A) p p' m a :
  op p = (Ok a, p') → on_pool op (p, m) = (Ok a, (p', m)).
Proof. intros H. unfold on_pool, zoom. simpl. by rewrite H. Qed.

Lemma bind_on_pool {A B} (op : M BlockPool A) p p' m a (K : A → M PM B) :
  op p = (Ok a, p') → bind (on_pool op) K (p, m) = K a (p', m).
Proof. intros H. by rewrite (bind_ok _ _ _ _ _ (on_pool_ok op p p' m a H)). Qed.

Lemma bind_this {A B} (f : Manager → A) (K : A → M PM B) p m :
  bind (this f) K (p, m) = K (f m) (p, m).
Proof. done. Qed.
Lemma bind_modify_this {B} f (K : unit → M PM B) p m :
  bind (modify_this f) K (p, m) = K tt (p, f m).
Proof. done. Qed.

(** [blocks_of] may create the entry. *)
Definition touched m r : Manager := set_req_to_blocks (<[r := mget m r]> (req_to_blocks m)) m.

Lemma set_req_id m : set_req_to_blocks (req_to_blocks m) m = m.
Proof. by destruct m. Qed.

Lemma bind_blocks_of {B} r (K : list loc → M PM B) p m :
  bind (blocks_of r) K (p, m) = K (mget m r) (p, touched m r).
Proof.
  unfold blocks_of. rewrite bind_assoc, bind_this. unfold touched, mget.
  destruct (req_to_blocks m !! r) as [l|] eqn:Hr; simpl.
  - rewrite insert_id by done. by rewrite set_req_id.
  - done.
Qed.

Lemma touched_same m r : same_manager r m (touched m r).
Proof. split; try done. intros r' Hr. simpl. by rewrite lookup_insert_ne. Qed.

(** ** [get_num_blocks_to_allocate] *)

Definition evictable (p : BlockPool) (l : list loc) : Z :=
  len (filter (λ a, ref p a = 0 ∧ a ≠ 0%nat) l).

Lemma block_ok p free a :
  pool_wf p free → (a < length (blocks p))%nat →
  ∃ b, block a p = (Ok b, p) ∧ ref_cnt b = ref p a ∧ is_null b = bool_decide (a = 0%nat) ∧
       _block_hash b = hash p a ∧ block_id b = Z.of_nat a.
Proof.
  intros Hwf Ha.
  destruct (dims_lookup _ _ a (wd_dims _ _ _ _ (pw_data _ _ Hwf)) Ha) as (x & Hx & Hid & Hn).
  destruct (data_lookup p a x Hx) as (b & Hb & Hu). exists b. unfold block, on_mem, zoom.
  rewrite (rd_ok _ _ _ Hb). unfold ref, ref_of, hash, hash_of. rewrite Hx, <- Hu in *.
  split; [by destruct p|]. done.
Qed.

Lemma count_evictable_ok p free l :
  pool_wf p free → (∀ a, a ∈ l → (a < length (blocks p))%nat) →
  count_evictable l p = (Ok (evictable p l), p).
Proof.
  intros Hwf. induction l as [|x l IH]; intros Hl; simpl; [done|].
  destruct (block_ok p free x Hwf) as (b & Hb & Hr & Hn & _); [apply Hl; by left|].
  rewrite (bind_ok _ _ _ _ _ Hb), (bind_ok _ _ _ _ _ (IH ltac:(intros; apply Hl; by right))).
  unfold ret. do 2 f_equal. rewrite Hr, Hn. unfold evictable.
  destruct (decide (ref p x = 0 ∧ x ≠ 0%nat)) as [Hc|Hc].
  - rewrite filter_cons_True, len_cons by done.
    rewrite bool_decide_true, bool_decide_false by tauto. simpl. lia.
  - rewrite filter_cons_False by done.
    destruct (decide (ref p x = 0)).
    + rewrite (bool_decide_true (x = 0%nat)) by (destruct (decide (x = 0%nat)); tauto).
      rewrite andb_false_r. lia.
    + rewrite bool_decide_false by done. simpl. lia.
Qed.

(** The number the scheduler compares with the free blocks. *)
Definition need (p : BlockPool) m r (tokens : Z) (comp : list loc) (total : Z) : Z :=
  let required := cdiv (with_speculative_blocks m tokens) (block_size m) in
  let have := len (mget m r) in
  match num_cached_block m !! r with
  | Some _ => Z.max (required - have) 0
  | None =>
      let skipped := get_num_skipped_tokens m total / block_size m in
      Z.max (required - Z.max skipped (len comp + have)) 0
      + evictable p (py_from comp (Z.max 0 (skipped - have)))
  end.

Lemma py_from_sub {A} (l : list A) i a : a ∈ py_from l i → a ∈ l.
Proof. apply elem_of_drop_list. Qed.

Lemma get_num_blocks_to_allocate_ok p m free es r tokens comp total :
  sinv p m free es → (∀ a, a ∈ comp → (a < length (blocks p))%nat) →
  (is_Some (num_cached_block m !! r) → comp = []) →
  get_num_blocks_to_allocate r tokens comp total (p, m) =
    (Ok (need p m r tokens comp total), (p, m)).
Proof.
  intros Hs Hc Hnew. unfold get_num_blocks_to_allocate. rewrite bind_this. cbn [id].
  unfold base_get_num_blocks_to_allocate. rewrite bind_this. cbn [id]. unfold need, mget.
  destruct (num_cached_block m !! r) as [k|].
  - by rewrite (Hnew ltac:(eauto)).
  - rewrite (bind_on_pool _ p p m (evictable p (py_from comp (Z.max 0
      (get_num_skipped_tokens m total / block_size m - len (default [] (req_to_blocks m !! r))))))).
    + done.
    + eapply count_evictable_ok; [apply (gi_pool _ _ _ (si_ginv _ _ _ _ Hs))|].
      intros a Ha%py_from_sub. by apply Hc.
Qed.

(** ** [allocate_new_blocks] *)

Lemma allocate_new_blocks_ok p m free es r tokens
    (c := cdiv (with_speculative_blocks m tokens) (block_size m) - len (mget m r)) :
  sinv p m free es → c ≤ len free →
  ∃ p' m' new, allocate_new_blocks r tokens (p, m) = (Ok new, (p', m')) ∧
    sinv p' m' (drop (Z.to_nat c) free) es ∧ same_static p p' ∧ same_manager r m m' ∧
    num_cached_block m' = num_cached_block m ∧
    new = take (Z.to_nat c) free ∧ req_to_blocks m' !! r = Some (mget m r ++ new).
Proof.
  intros Hs Hlen. unfold allocate_new_blocks. rewrite bind_this. cbn [id].
  unfold base_allocate_new_blocks. rewrite bind_blocks_of, bind_this. cbn [block_size touched].
  change (block_size (touched m r)) with (block_size m). fold c.
  pose proof (sinv_view _ _ _ _ r Hs) as Hg.
  destruct (decide (c ≤ 0)) as [Hc|Hc].
  - exists p, (touched m r), []. replace (Z.to_nat c) with 0%nat by lia. rewrite take_0, drop_0, app_nil_r.
    split; [done|]. split; [|split_and!; [done|apply touched_same|done|done|apply lookup_insert_eq]].
    by eapply (sinv_back p p m (touched m r)); [apply Hs|done|apply touched_same|..].
  - rewrite <- (take_drop (Z.to_nat c) free) in Hg.
    destruct (ginv_get_new _ _ _ _ _ _ Hg) as (p' & Hrun & Hg' & Hst & _).
    replace (len (take (Z.to_nat c) free)) with c in Hrun
      by (unfold len in *; rewrite length_take; lia).
    rewrite (bind_on_pool _ _ _ _ _ _ Hrun). unfold set_blocks. rewrite bind_modify_this.
    eexists p', _, _. split; [reflexivity|].
    assert (Hm : same_manager r m (set_req_to_blocks
      (<[r := mget m r ++ take (Z.to_nat c) free]> (req_to_blocks (touched m r))) (touched m r))).
    { split; try done. intros r' Hr. simpl. by rewrite !lookup_insert_ne. }
    split; [|split_and!; [done|exact Hm|done|done|apply lookup_insert_eq]].
    eapply (sinv_back p p' m); [apply Hs|done|exact Hm| |done|exact Hg'].
    simpl. by rewrite insert_insert_eq.
Qed.

(** ** [allocate_new_computed_blocks] *)

Definition skip_blocks m (total : Z) : Z := get_num_skipped_tokens m total / block_size m.
(** The hits inside the attention window. *)
Definition kept m (comp : list loc) (total : Z) : list loc :=
  if decide (0 < skip_blocks m total) then py_from comp (skip_blocks m total) else comp.
Definition computed_row m (comp : list loc) (total : Z) : list loc :=
  replicate (Z.to_nat (skip_blocks m total)) 0%nat ++ kept m comp total.
(** The blocks to allocate for external tokens. *)
Definition external_blocks m (comp : list loc) (local ext : Z) : Z :=
  let total := local + ext in
  let ext := if decide (0 < skip_blocks m total)
             then Z.min (total - get_num_skipped_tokens m total) ext else ext in
  if decide (0 < ext) then cdiv total (block_size m) - len (computed_row m comp total) else 0.

(** What a prefix cache lookup guarantees of its result. *)
Record hits_ok (p : BlockPool) (comp : list loc) : Prop := {
  ho_range : ∀ a, a ∈ comp → (a < length (blocks p))%nat;
  ho_nodup : NoDup (nonnull comp);
  ho_hashed : ∀ a, a ∈ nonnull comp → hash p a ≠ None;
  ho_caching : enable_caching p = false → comp = []
}.

Lemma occ_drop_le {A} `{EqDecision A} (a : A) n l : occ a (drop n l) ≤ occ a l.
Proof.
  rewrite <- (take_drop n l) at 2. rewrite occ_app. pose proof (occ_nonneg a (take n l)). lia.
Qed.

Lemma hits_ok_from p comp i : hits_ok p comp → hits_ok p (py_from comp i).
Proof.
  intros [H1 H2 H3 H4]. split.
  - intros a Ha%py_from_sub. auto.
  - apply nodup_nonnull. intros a Ha. pose proof (proj1 (nodup_nonnull comp) H2 a Ha).
    pose proof (occ_drop_le a (py_bound comp i) comp). unfold py_from. lia.
  - intros a [? Ha%py_from_sub]%nonnull_in. apply H3. by apply nonnull_in.
  - intros Hc. rewrite H4 by done. unfold py_from. by rewrite drop_nil.
Qed.

Lemma hits_ok_kept p m comp total : hits_ok p comp → hits_ok p (kept m comp total).
Proof. unfold kept. destruct (decide _); [apply hits_ok_from|done]. Qed.

(** The touch (or, without prefix caching, the check that nothing is hit). *)
Lemma touch_step_ok p m free es r comp total :
  ginv p free (([], mcached m r) :: es) → m_enable_caching m = enable_caching p →
  hits_ok p comp →
  ∃ p', (if m_enable_caching m then on_pool (touch (kept m comp total))
         else assert_ (bool_decide (kept m comp total = []))) (p, m) = (Ok tt, (p', m)) ∧
    ginv p' (filter (λ a, a ∉ kept m comp total) free)
      ((computed_row m comp total, len (computed_row m comp total)) :: es) ∧
    same_static p p' ∧ (∀ a, ref p' a = ref p a + occ a (kept m comp total)) ∧
    (∀ a, hash p' a = hash p a).
Proof.
  intros Hg Hmc Hh. pose proof (hits_ok_kept p m comp total Hh) as [H1 H2 H3 H4].
  destruct (ginv_touch p free (Z.to_nat (skip_blocks m total)) (kept m comp total)
    (mcached m r) es Hg H1 H2 H3) as (p' & Hrun & Hg' & Hs & Hr & Hha).
  fold (computed_row m comp total) in Hg'.
  assert (Hl : Z.of_nat (Z.to_nat (skip_blocks m total)) + len (kept m comp total) =
               len (computed_row m comp total)).
  { unfold computed_row, len. rewrite length_app, length_replicate. lia. }
  rewrite Hl in Hg'. exists p'. split; [|done]. destruct (m_enable_caching m) eqn:Hc.
  - by apply on_pool_ok.
  - rewrite H4 in Hrun |- * by done. by injection Hrun as <-.
Qed.

Lemma len_filter_le {A} (P : A → Prop) `{∀ x, Decision (P x)} l : len (filter P l) ≤ len l.
Proof. unfold len. pose proof (length_filter P l). lia. Qed.

Lemma base_allocate_new_computed_blocks_ok p m free es r comp local ext
    (total := local + ext) (c := external_blocks m comp local ext)
    (free1 := filter (λ a, a ∉ kept m comp total) free) :
  sinv p m free es → num_cached_block m !! r = None → mget m r = [] → hits_ok p comp →
  0 ≤ c ≤ len free1 →
  ∃ p' m', base_allocate_new_computed_blocks r comp local ext (p, m) = (Ok tt, (p', m')) ∧
    sinv p' m' (drop (Z.to_nat c) free1) es ∧ same_static p p' ∧ same_manager r m m' ∧
    mget m' r = computed_row m comp total ++ take (Z.to_nat c) free1 ∧
    num_cached_block m' !! r = Some (len (computed_row m comp total)) ∧
    (c = 0 → ∀ a, hash p' a = hash p a) ∧ (∀ a, ref p a ≤ ref p' a).
Proof.
  intros Hs Hnc Hget Hh Hc. pose proof (sinv_view _ _ _ _ r Hs) as Hg. rewrite Hget in Hg.
  pose proof (si_ok _ _ _ _ Hs) as Ho.
  unfold base_allocate_new_computed_blocks. rewrite bind_this, Hnc, bind_blocks_of, Hget.
  rewrite bind_assert_true by done. rewrite bind_this. cbn [id]. set (m1 := touched m r).
  destruct (touch_step_ok p m free _ r comp total Hg (mo_caching _ _ Ho) Hh)
    as (p1 & Hrun1 & Hg1 & Hs1 & Hr1 & Hh1).
  assert (Hrun1' : (if m_enable_caching m1 then on_pool (touch (kept m comp total))
     else assert_ (bool_decide (kept m comp total = []))) (p, m1) = (Ok tt, (p1, m1))).
  { change (m_enable_caching m1) with (m_enable_caching m). destruct (m_enable_caching m).
    - unfold on_pool, zoom in Hrun1 |- *. simpl in Hrun1 |- *.
      destruct (touch (kept m comp total) p) as [x y]. simpl in *. congruence.
    - unfold assert_ in *. destruct (bool_decide _); [|done]. unfold ret in *. congruence. }
  set (row := computed_row m comp total) in *.
  set (m2 := set_num_cached_block (<[r := len row]> (num_cached_block m1))
               (set_req_to_blocks (<[r := row]> (req_to_blocks m1)) m1)).
  assert (Hm2 : same_manager r m m2).
  { split; try done; intros r' Hr; simpl; by rewrite ?lookup_insert_ne. }
  assert (Hb2 : req_to_blocks m2 = <[r := row]> (req_to_blocks m)) by (simpl; by rewrite insert_insert_eq).
  assert (Hk2 : mcached m2 r = len row) by (unfold mcached; simpl; by rewrite lookup_insert_eq).
  assert (Hs2 : sinv p1 m2 free1 es) by (eapply (sinv_back p p1 m m2); done).
  (* the code up to the external blocks *)
  change (get_num_skipped_tokens m1 (local + ext)) with (get_num_skipped_tokens m total).
  change (block_size m1) with (block_size m). change (_null_block m1) with (_null_block m).
  rewrite (mo_null _ _ Ho). fold (skip_blocks m total).
  assert (Hpair : (if decide (0 < skip_blocks m total)
     then (py_from comp (skip_blocks m total),
           Z.min (local + ext - get_num_skipped_tokens m total) ext)
     else (comp, ext)) =
    (kept m comp total, if decide (0 < skip_blocks m total)
       then Z.min (total - get_num_skipped_tokens m total) ext else ext)).
  { unfold kept. by destruct (decide _). }
  rewrite Hpair. cbn iota zeta. rewrite (bind_ok _ _ _ _ _ Hrun1').
  cbn [app]. fold (computed_row m comp total). fold row.
  unfold set_blocks at 1. rewrite !bind_modify_this. fold m2. fold total.
  set (e := if decide (0 < skip_blocks m total)
            then Z.min (total - get_num_skipped_tokens m total) ext else ext).
  assert (Hce : c = if decide (0 < e) then cdiv total (block_size m) - len row else 0) by done.
  clearbody c. destruct (decide (0 < e)) as [He|He]; subst c.
  - pose proof (sinv_view _ _ _ _ r Hs2) as Hg2.
    rewrite <- (take_drop (Z.to_nat (cdiv total (block_size m) - len row)) free1) in Hg2.
    destruct (ginv_get_new _ _ _ _ _ _ Hg2) as (p3 & Hrun3 & Hg3 & Hs3 & Hr3 & Hh3).
    replace (len (take (Z.to_nat (cdiv total (block_size m) - len row)) free1))
      with (cdiv total (block_size m) - len row) in Hrun3
      by (unfold len in *; rewrite length_take; lia).
    rewrite (bind_on_pool _ _ _ _ _ _ Hrun3). unfold set_blocks, modify_this, modify. simpl fst. simpl snd.
    eexists p3, _. split; [reflexivity|].
    assert (Hget2 : mget m2 r = row) by (unfold mget; simpl; by rewrite lookup_insert_eq).
    rewrite Hget2, Hk2 in Hg3.
    set (new := take _ free1) in *.
    assert (Hm3 : same_manager r m2 (set_req_to_blocks (<[r := row ++ new]> (req_to_blocks m2)) m2)).
    { split; try done. intros r' Hr. simpl. by rewrite !lookup_insert_ne. }
    split_and!.
    + eapply (sinv_back p1 p3 m2); [apply Hs2|done|exact Hm3|done|done|exact Hg3].
    + by etrans.
    + by etrans.
    + unfold mget. simpl. by rewrite lookup_insert_eq.
    + simpl. apply lookup_insert_eq.
    + intros Hz a. assert (new = []) as Hn by (unfold new; rewrite Hz; apply take_0).
      rewrite Hh3 by (rewrite Hn; apply not_elem_of_nil). apply Hh1.
    + intros a. rewrite Hr3, Hr1. pose proof (occ_nonneg a (kept m comp total)).
      destruct (decide (a ∈ new)); lia.
  - exists p1, m2. rewrite drop_0, take_0, app_nil_r. split; [done|].
    split_and!; [done|done|done| | | |].
    + unfold mget. simpl. by rewrite lookup_insert_eq.
    + simpl. apply lookup_insert_eq.
    + intros _ a. apply Hh1.
    + intros a. rewrite Hr1. pose proof (occ_nonneg a (kept m comp total)). lia.
Qed.

(** ** [cache_blocks] *)

Lemma base_cache_blocks_ok p m free es (rq : Request) tokens
    (r := request_id rq) (nf := tokens / block_size m) :
  sinv p m free es →
  (mcached m r < nf → enable_caching p = true ∧ nf ≤ len (mget m r) ∧
     nf ≤ view_len (hash_view (hash_block_size p) (block_size m) (block_hashes rq))) →
  ∃ p' m', base_cache_blocks rq tokens (p, m) = (Ok tt, (p', m')) ∧ sinv p' m' free es ∧
    same_static p p' ∧ same_manager r m m' ∧ mget m' r = mget m r ∧
    mcached m' r = Z.max nf (mcached m r) ∧
    (∀ i a, mcached m r ≤ i < nf → mget m r !! Z.to_nat i = Some a → a ≠ 0%nat →
       ∃ h, hashes_index (hash_view (hash_block_size p) (block_size m) (block_hashes rq)) i
              = Ok h ∧ hash p' a = Some (h ++ be_bytes 4 (kv_cache_group_id m))).
Proof.
  intros Hs Hpre. unfold base_cache_blocks. rewrite bind_this. cbn [id]. fold r.
  fold (mcached m r). fold nf.
  destruct (decide (nf ≤ mcached m r)) as [Hle|Hlt].
  { exists p, m. split; [done|]. split; [done|]. split; [done|]. split; [done|].
    split; [done|]. split; [lia|]. intros i a Hi. lia. }
  destruct Hpre as (Hc & Hlen & Hview); [lia|]. pose proof (si_ok _ _ _ _ Hs) as Ho.
  pose proof (sinv_view _ _ _ _ r Hs) as Hg. destruct Ho.
  destruct (ginv_cache p free (mget m r) (mcached m r) nf _ rq (block_size m)
    (kv_cache_group_id m) Hg Hc) as (p' & Hrun & Hg' & Hst & Hset); [done|lia|done|done|done|].
  rewrite bind_blocks_of. rewrite (bind_on_pool _ _ _ _ _ _ Hrun).
  unfold modify_this, modify. simpl fst. simpl snd. eexists p', _. split; [reflexivity|].
  set (m' := set_num_cached_block _ _).
  assert (Hm : same_manager r m m').
  { split; try done; intros r' Hr; simpl; by rewrite lookup_insert_ne. }
  assert (Hk : mcached m' r = nf) by (unfold mcached; simpl; by rewrite lookup_insert_eq).
  split_and!; [|done|done| |lia|].
  - by eapply (sinv_back p p' m m').
  - unfold mget. simpl. by rewrite lookup_insert_eq.
  - intros i a Hi. apply Hset. lia.
Qed.

(** ** [free] *)

Lemma mentries_delete m m' r :
  req_to_blocks m' = delete r (req_to_blocks m) →
  (∀ r', r' ≠ r → num_cached_block m' !! r' = num_cached_block m !! r') →
  mentries m' = mrest m r.
Proof.
  intros HM Hc. unfold mentries, mrest. rewrite HM. apply entries_with_ext.
  intros r' [l' Hl']. unfold mcached. rewrite Hc; [done|]. intros ->.
  by rewrite lookup_delete_eq in Hl'.
Qed.

Lemma occ_reverse (a : loc) (l : list loc) : occ a (reverse l) = occ a l.
Proof. apply occ_perm. apply reverse_Permutation. Qed.

Lemma free_ok p m fr es r :
  sinv p m fr es →
  ∃ p' m' extra, free r (p, m) = (Ok tt, (p', m')) ∧ sinv p' m' (fr ++ extra) es ∧
    same_static p p' ∧ same_manager r m m' ∧ req_to_blocks m' !! r = None ∧
    num_cached_block m' !! r = None ∧ (∀ a, hash p' a = hash p a) ∧
    (∀ a, a ∈ extra → a ∈ mget m r).
Proof.
  intros Hs. pose proof (sinv_view _ _ _ _ r Hs) as Hg. unfold free. rewrite bind_this.
  fold (mget m r). rewrite bind_modify_this.
  destruct (ginv_free p fr (mget m r) [] (mcached m r) 0 (reverse (mget m r)) _ Hg)
    as (p' & extra & Hrun & Hg' & Hst & Hh & Hex).
  - intros a _. by rewrite occ_reverse.
  - intros a Ha. right. simpl in Ha. by rewrite elem_of_reverse in Ha.
  - done.
  - intros a Ha%fresh_sub. by apply not_elem_of_nil in Ha.
  - rewrite (bind_on_pool _ _ _ _ _ _ Hrun). unfold modify_this, modify. simpl fst. simpl snd.
    eexists p', _, extra. split; [reflexivity|]. set (m' := set_num_cached_block _ _).
    assert (Hm : same_manager r m m').
    { split; try done; intros r' Hr; simpl; by rewrite lookup_delete_ne. }
    split_and!; [|done|done|apply lookup_delete_eq|apply lookup_delete_eq|done|].
    + split.
      * rewrite (mentries_delete m m' r); [|done|apply Hm].
        by apply (proj2 (ginv_empty p' (fr ++ extra) 0 _ ltac:(done))).
      * eapply manager_ok_same; [apply Hs|done..|]. simpl. rewrite !lookup_delete_eq. done.
    + intros a [Ha _]%Hex. by rewrite elem_of_reverse in Ha.
Qed.

(** ** [remove_skipped_blocks] *)

Lemma occ_insert (l : list loc) i (b x a : loc) :
  l !! i = Some b →
  occ a (<[i := x]> l) + (if decide (a = b) then 1 else 0) =
  occ a l + (if decide (a = x) then 1 else 0).
Proof.
  intros Hi. rewrite <- (take_drop_middle l i b Hi) at 2.
  rewrite insert_take_drop by by eapply lookup_lt_Some.
  rewrite !occ_app, !occ_cons. lia.
Qed.

Lemma remove_skipped_loop_spec i : ∀ (l removed : list loc),
  (i ≤ length l)%nat →
  ∃ xs l', remove_skipped_loop 0%nat i l removed = (removed ++ xs, l') ∧
    length l' = length l ∧ (∀ j, (i ≤ j)%nat → l' !! j = l !! j) ∧
    (∀ j a, l' !! j = Some a → a = 0%nat ∨ l !! j = Some a) ∧
    (∀ a, a ≠ 0%nat → occ a l = occ a l' + occ a xs) ∧
    (∀ a, a ∈ xs → a ≠ 0%nat ∧ a ∈ l).
Proof.
  induction i as [|i IH]; intros l removed Hi; simpl.
  { exists [], l. rewrite app_nil_r. split_and!; try done; eauto.
    - intros. rewrite (occ_absent _ []) by apply not_elem_of_nil. lia.
    - intros a Ha. by apply not_elem_of_nil in Ha. }
  destruct (lookup_lt_is_Some_2 l i ltac:(lia)) as [b Hb]. rewrite Hb.
  destruct (decide (b = 0%nat)) as [->|Hb0].
  { exists [], l. rewrite app_nil_r. split_and!; try done; eauto.
    - intros. rewrite (occ_absent _ []) by apply not_elem_of_nil. lia.
    - intros a Ha. by apply not_elem_of_nil in Ha. }
  destruct (IH (<[i := 0%nat]> l) (removed ++ [b])) as (xs & l' & Hrun & Hlen & Hkeep & Hsub & Hocc & Hxs).
  { rewrite length_insert. lia. }
  exists (b :: xs), l'. rewrite Hrun, <- app_assoc. split; [done|].
  rewrite length_insert in Hlen. split; [done|]. split; [|split; [|split]].
  - intros j Hj. rewrite Hkeep by lia. by rewrite list_lookup_insert_ne by lia.
  - intros j a Ha. apply Hsub in Ha as [?|Ha]; [by left|].
    apply list_lookup_insert_Some in Ha as [(_ & <- & _)|[_ Ha]]; [by left|by right].
  - intros a Ha. rewrite occ_cons. specialize (Hocc a Ha).
    pose proof (occ_insert l i b 0%nat a Hb) as Ho. rewrite (decide_False (P := a = 0%nat)) in Ho by done.
    destruct (decide (a = b)); lia.
  - intros a [->|Ha]%elem_of_cons; [split; [done|by apply list_elem_of_lookup_2 in Hb]|].
    destruct (Hxs a Ha) as [Ha0 Hin]. split; [done|].
    apply list_elem_of_lookup in Hin as [j Hj].
    apply list_lookup_insert_Some in Hj as [(_ & <- & _)|[_ Hj]]; [done|].
    by eapply list_elem_of_lookup_2.
Qed.

(** Every block from the first one that holds a token inside the attention
    window on is kept. *)
Lemma remove_skipped_blocks_run p m fr es r total
    (skipped := get_num_skipped_tokens m total) :
  sinv p m fr es →
  ∃ p' m' extra, remove_skipped_blocks r total (p, m) = (Ok tt, (p', m')) ∧
    sinv p' m' (fr ++ extra) es ∧ same_static p p' ∧ same_manager r m m' ∧
    num_cached_block m' = num_cached_block m ∧ len (mget m' r) = len (mget m r) ∧
    (∀ a, hash p' a = hash p a) ∧
    (∀ i : nat, skipped / block_size m ≤ Z.of_nat i → mget m' r !! i = mget m r !! i) ∧
    (∀ i a, mget m' r !! i = Some a → a = 0%nat ∨ mget m r !! i = Some a) ∧
    mget m' r = (remove_skipped_loop 0%nat (Z.to_nat (Z.min (skipped / block_size m) (len (mget m r)))) (mget m r) []).2.
Proof.
  intros Hs. unfold remove_skipped_blocks. rewrite bind_this. cbn [id]. fold skipped.
  destruct (decide (skipped ≤ 0)) as [Hle|Hlt].
  { exists p, m, []. rewrite app_nil_r. split; [done|]. split; [done|]. split_and!; try (done || auto || reflexivity).
    pose proof (mo_bs _ _ (si_ok _ _ _ _ Hs)). assert (skipped / block_size m ≤ 0) by (apply Z.div_le_upper_bound; lia).
    by replace (Z.to_nat (Z.min (skipped / block_size m) (len (mget m r)))) with 0%nat by lia. }
  pose proof (si_ok _ _ _ _ Hs) as Ho. pose proof (mo_bs _ _ Ho) as Hbs.
  rewrite bind_blocks_of. rewrite (mo_null _ _ Ho).
  pose proof (sinv_view _ _ _ _ r Hs) as Hg.
  destruct (remove_skipped_loop_spec
    (Z.to_nat (Z.min (skipped / block_size m) (len (mget m r)))) (mget m r) [])
    as (xs & l' & Hrun & Hlen & Hkeep & Hsub & Hocc & Hxs); [unfold len; lia|].
  rewrite Hrun. cbn iota zeta. unfold set_blocks. rewrite bind_modify_this. cbn [app].
  destruct (ginv_free p fr (mget m r) l' (mcached m r) (mcached m r) xs _ Hg)
    as (p' & extra & Hrun' & Hg' & Hst & Hh & Hex).
  - done.
  - intros a [Ha|Ha]%elem_of_app; [|right; by apply Hxs].
    apply list_elem_of_lookup in Ha as [j Hj]. apply Hsub in Hj as [?|Hj]; [by left|].
    right. by eapply list_elem_of_lookup_2.
  - apply (eo_cached _ _ (gi_entries _ _ _ Hg _ (list_elem_of_here _ _))).
  - intros a. unfold entry_fresh. simpl. rewrite !nonnull_in. intros [Ha0 Ha]. split; [done|].
    apply list_elem_of_lookup in Ha as [j Hj]. rewrite lookup_drop in Hj.
    apply Hsub in Hj as [?|Hj]; [done|]. eapply (list_elem_of_lookup_2 _ j). by rewrite lookup_drop.
  - rewrite (on_pool_ok _ _ _ _ _ Hrun'). eexists p', _, extra. split; [reflexivity|].
    set (m' := set_req_to_blocks _ _).
    assert (Hm : same_manager r m m').
    { split; try done. intros r' Hr. simpl. by rewrite !lookup_insert_ne. }
    assert (Hget : mget m' r = l') by (unfold mget; simpl; by rewrite lookup_insert_eq).
    split_and!; [|done|done|done|rewrite Hget; unfold len; lia|done| |by rewrite Hget|by rewrite Hget].
    + eapply (sinv_back p p' m m'); [done|done|done| |done|exact Hg'].
      simpl. by rewrite insert_insert_eq.
    + intros i Hi. rewrite Hget. destruct (decide (i < length (mget m r))%nat) as [Hl|Hl].
      * apply Hkeep. unfold len. lia.
      * rewrite !lookup_ge_None_2 by lia. done.
Qed.
Lemma remove_skipped_blocks_ok p m fr es r total
    (skipped := get_num_skipped_tokens m total) :
  sinv p m fr es →
  ∃ p' m' extra, remove_skipped_blocks r total (p, m) = (Ok tt, (p', m')) ∧
    sinv p' m' (fr ++ extra) es ∧ same_static p p' ∧ same_manager r m m' ∧
    num_cached_block m' = num_cached_block m ∧ len (mget m' r) = len (mget m r) ∧
    (∀ a, hash p' a = hash p a) ∧
    (∀ i : nat, skipped / block_size m ≤ Z.of_nat i → mget m' r !! i = mget m r !! i) ∧
    (∀ i a, mget m' r !! i = Some a → a = 0%nat ∨ mget m r !! i = Some a).
Proof.
  intros Hs. destruct (remove_skipped_blocks_run p m fr es r total Hs)
    as (p' & m' & extra & H1 & H2 & H3 & H4 & H5 & H6 & H7 & H8 & H9 & _). by exists p', m', extra.
Qed.

(** * The pages of a sliding-window layer *)

(** The blocks of a window: those of [n + b] tokens less the skipped ones. *)
Lemma window_blocks_bound c m a w n b :
  m_kv_cache_spec m = SlidingWindowSpec a w → block_size m = as_block_size a →
  0 < as_block_size a → 1 ≤ w → 0 ≤ n → 0 ≤ b ≤ mc_max_num_batched_tokens c →
  n + b ≤ mc_max_model_len c → decode_context_parallel_size c = 1 →
  ∃ pages, max_pages c (m_kv_cache_spec m) = Ok pages ∧
    cdiv (n + b) (block_size m) - get_num_skipped_tokens m n / block_size m ≤ pages.
Proof.
  intros Hspec -> Hbs Hw Hn Hb Hlen Hd. unfold_skipped. rewrite Hspec. simpl.
  unfold sliding_window_pages. rewrite decide_True by done. eexists. split; [done|].
  set (bs := as_block_size a) in *. set (s := Z.max 0 (n - w + 1)).
  pose proof (Z.div_mod s bs ltac:(lia)). pose proof (Z.mod_pos_bound s bs Hbs).
  set (t := Z.min _ _). pose proof (cdiv_spec t bs Hbs).
  cut (cdiv (n + b) bs ≤ cdiv t bs + 1 + s / bs); [lia|]. apply cdiv_le_iff; [done|].
  assert (n + b - s ≤ t) by (unfold t, s; lia). nia.
Qed.

(** A table whose first [j] entries are the null block. *)
Definition window_table (j : nat) (t : list loc) : Prop := ∃ l, t = replicate j 0%nat ++ l ∧ 0%nat ∉ l.

Lemma nonnull_window j t : window_table j t → len (nonnull t) = len t - Z.of_nat j.
Proof.
  intros (l & -> & Hl). rewrite nonnull_app. unfold len. rewrite !length_app, length_replicate.
  assert (nonnull (replicate j 0%nat) = []) as -> by (induction j as [|j IH]; [done|]; unfold nonnull; simpl; by rewrite filter_cons_False by tauto).
  assert (nonnull l = l) as ->; [|simpl; lia]. induction l as [|x l IH]; [done|]. unfold nonnull. rewrite filter_cons_True by set_solver.
  f_equal. apply IH. set_solver.
Qed.

Lemma skipped_loop_all l : ∀ j tail removed, 0%nat ∉ l →
  (remove_skipped_loop 0%nat (j + length l) (replicate j 0%nat ++ l ++ tail) removed).2 = replicate (j + length l) 0%nat ++ tail.
Proof.
  induction l as [|x l IH] using rev_ind; intros j tail removed Hl.
  { rewrite Nat.add_0_r. cbn [app]. destruct j as [|j]; [done|]. cbn [remove_skipped_loop].
    by rewrite (lookup_app_l_Some (replicate (S j) 0%nat) tail j 0%nat) by (apply lookup_replicate; split; [done|lia]). }
  rewrite length_app, Nat.add_1_r, Nat.add_succ_r. cbn [remove_skipped_loop].
  assert (Hx : (replicate j 0%nat ++ (l ++ [x]) ++ tail) !! (j + length l)%nat = Some x).
  { rewrite lookup_app_r by (rewrite length_replicate; lia). rewrite length_replicate, <- app_assoc.
    rewrite lookup_app_r by lia. by replace (j + length l - j - length l)%nat with 0%nat by lia. }
  rewrite Hx, decide_False by set_solver.
  assert (Hins : <[(j + length l)%nat := 0%nat]> (replicate j 0%nat ++ (l ++ [x]) ++ tail) = replicate j 0%nat ++ l ++ (0%nat :: tail)).
  { rewrite insert_app_r_alt by (rewrite length_replicate; lia). rewrite length_replicate. f_equal. rewrite <- app_assoc.
    rewrite insert_app_r_alt by lia. by replace (j + length l - j - length l)%nat with 0%nat by lia. }
  rewrite Hins, IH by set_solver. rewrite replicate_S_end, <- app_assoc. done.
Qed.

(** Removing the blocks before [i] extends the null blocks to [i]. *)
Lemma skipped_loop_window j t i : window_table j t → (i ≤ length t)%nat →
  window_table (Nat.max j i) (remove_skipped_loop 0%nat i t []).2.
Proof.
  intros (l & -> & Hl) Hi. rewrite length_app, length_replicate in Hi. destruct (decide (i ≤ j)%nat) as [Hle|Hgt].
  - rewrite Nat.max_l by lia. destruct i as [|i]; [by exists l|]. cbn [remove_skipped_loop].
    rewrite (lookup_app_l_Some (replicate j 0%nat) l i 0%nat) by (apply lookup_replicate; split; [done|lia]). by exists l.
  - rewrite Nat.max_r by lia. pose proof (skipped_loop_all (take (i - j) l) j (drop (i - j) l) []) as H.
    rewrite length_take, take_drop in H. replace (j + (i - j) `min` length l)%nat with i in H by lia. rewrite H.
    + exists (drop (i - j) l). split; [done|]. intros Hx. by apply elem_of_drop_list in Hx.
    + intros Hx. apply Hl. eapply elem_of_take in Hx as (k & Hk & _). by eapply list_elem_of_lookup_2.
Qed.

(** The free blocks and the blocks of a request none of whose blocks is cached. *)
Lemma free_and_own p m fr es r : sinv p m fr es → num_cached_block m !! r = None →
  len fr + len (nonnull (mget m r)) = len (blocks p) - 1 - len (distinct_blocks (held_by (mrest m r ++ es))).
Proof.
  intros Hs Hk. pose proof (sinv_view _ _ _ _ r Hs) as Hg. set (own := mget m r) in *. set (others := mrest m r ++ es) in *.
  assert (Hc : mcached m r = 0) by (unfold mcached; by rewrite Hk). rewrite Hc in Hg.
  pose proof (gi_pool _ _ _ Hg) as Hwf. pose proof (so_pos _ _ (pw_static _ _ Hwf)).
  assert (Hrange : ∀ a, a ∈ held_by ((own, 0) :: others) → (a < length (blocks p))%nat).
  { intros a Ha. apply list_elem_of_bind in Ha as (e & Ha & He). by eapply (eo_range _ _ (gi_entries _ _ _ Hg e He)). }
  pose proof (Permutation_length (pool_partition p _ fr Hwf Hrange (gi_ref _ _ _ Hg))) as Hlen.
  rewrite length_app, length_seq in Hlen.
  assert (Hsplit : distinct_blocks (held_by ((own, 0) :: others)) ≡ₚ nonnull own ++ distinct_blocks (held_by others)).
  { assert (Hnd : NoDup (nonnull own)) by apply (eo_nodup _ _ (gi_entries _ _ _ Hg (own, 0) (list_elem_of_here _ _))).
    assert (Hfresh : ∀ a, a ∈ nonnull own → a ∉ held_by others).
    { intros a Ha Hin. assert (Hf : a ∈ fresh_by ((own, 0) :: others)) by (rewrite fresh_cons; apply elem_of_app; left; exact Ha).
      destruct (gi_fresh _ _ _ Hg a Hf) as [_ Ho]. rewrite held_cons, occ_app in Ho. simpl in Ho.
      apply occ_pos in Hin. apply nonnull_in in Ha as [_ Ha]. apply occ_pos in Ha. lia. }
    apply NoDup_Permutation.
    - apply NoDup_remove_dups.
    - apply NoDup_app. split; [done|]. split; [|apply NoDup_remove_dups].
      intros a Ha [Hin _]%distinct_in. by apply (Hfresh a).
    - intros a. rewrite elem_of_app, !distinct_in, held_cons, elem_of_app, nonnull_in. simpl. tauto. }
  apply Permutation_length in Hsplit. rewrite length_app in Hsplit. unfold len. lia.
Qed.

(** ** Every step of a request *)

Section window_steps.
Context (r : string) (c : MemoryConfig) (a : AttentionFields) (w : Z).

(** What [allocate_slots] asks of the manager for a step of the request with [n]
    computed, [b] new and [look] lookahead tokens. *)
Definition window_step (x : Z * Z * Z) : M PM unit :=
  let '(n, b, look) := x in
  remove_skipped_blocks r n ;;;
  let* _ := allocate_new_blocks r (Z.min (n + b + look) (mc_max_model_len c)) in
  ret tt.
(** The steps that the scheduler makes: of the tokens of a step any number is
    computed before the next one (the others are rejected drafts), and the new
    and lookahead tokens are within the budget of a batch. *)
Fixpoint steps_ok (lo hi : Z) (steps : list (Z * Z * Z)) : Prop :=
  match steps with
  | [] => True
  | (n, b, look) :: steps =>
      lo ≤ n ≤ hi ∧ 0 ≤ b ∧ 0 ≤ look ∧ b + look ≤ mc_max_num_batched_tokens c ∧ n + b ≤ mc_max_model_len c ∧
      steps_ok n (n + b) steps
  end.

Context (m0 : Manager) (es : list entry) (pages total : Z).
Context (Hspec : m_kv_cache_spec m0 = SlidingWindowSpec a w) (Hbs : block_size m0 = as_block_size a) (Hw : 1 ≤ w).
Context (Hdcp : decode_context_parallel_size c = 1) (Hpages : max_pages c (m_kv_cache_spec m0) = Ok pages) (Htotal : pages ≤ total).

(** With [lo] computed tokens, and slots for [hi]; [total] blocks are free or the
    request's. *)
Record window_inv (lo hi : Z) (p : BlockPool) (m : Manager) (fr : list loc) : Prop := {
  wi_sinv : sinv p m fr es;
  wi_same : same_manager r m0 m;
  wi_cached : num_cached_block m !! r = None;
  wi_total : len fr + len (nonnull (mget m r)) = total;
  wi_pages : len (nonnull (mget m r)) ≤ pages;
  wi_table : ∃ j, window_table j (mget m r);
  wi_lo : 0 ≤ lo;
  wi_slots : hi ≤ len (mget m r) * block_size m
}.

Lemma mrest_same m m' : same_manager r m m' → mrest m' r = mrest m r.
Proof.
  intros Hm. unfold mrest. assert (delete r (req_to_blocks m') = delete r (req_to_blocks m)) as ->.
  { apply map_eq. intros r'. destruct (decide (r' = r)) as [->|Hne]; [by rewrite !lookup_delete_eq|].
    rewrite !lookup_delete_ne by done. by apply (sm_blocks _ _ _ Hm). }
  apply entries_with_ext. intros r' [l Hl]. unfold mcached. rewrite (sm_cached _ _ _ Hm); [done|].
  intros ->. by rewrite lookup_delete_eq in Hl.
Qed.

Lemma total_same p p' m m' fr fr' : sinv p m fr es → sinv p' m' fr' es → same_static p p' → same_manager r m m' →
  num_cached_block m !! r = None → num_cached_block m' !! r = None →
  len fr' + len (nonnull (mget m' r)) = len fr + len (nonnull (mget m r)).
Proof.
  intros H H' Hst Hm Hk Hk'. rewrite (free_and_own p m fr es r H Hk), (free_and_own p' m' fr' es r H' Hk').
  by rewrite (mrest_same _ _ Hm), (ss_blocks _ _ Hst).
Qed.

Lemma window_step_ok lo hi p m fr n b look : window_inv lo hi p m fr → steps_ok lo hi [(n, b, look)] →
  ∃ p' m' fr', window_step (n, b, look) (p, m) = (Ok tt, (p', m')) ∧ window_inv n (n + b) p' m' fr' ∧
    Z.min (n + b + look) (mc_max_model_len c) ≤ len (mget m' r) * block_size m'.
Proof using Hspec Hbs Hw Hdcp Hpages Htotal.
  intros [H1 H2 H3 H4 H5 [j H6] H7 H8] (Hn & Hb & Hlook & Hbudget & Hmax & _). cbn [window_step].
  destruct (remove_skipped_blocks_run p m fr es r n H1)
    as (p1 & m1 & extra & Hrun1 & Hs1 & Hst1 & Hm1 & Hc1 & Hl1 & _ & _ & _ & Hloop).
  rewrite (bind_ok _ _ _ _ _ Hrun1). pose proof (total_same _ _ _ _ _ _ H1 Hs1 Hst1 Hm1 H3 ltac:(by rewrite Hc1)) as Htot1. rewrite H4 in Htot1.
  set (slots := Z.min (n + b + look) (mc_max_model_len c)). set (bs := block_size m) in *.
  assert (Hbs0 : bs = as_block_size a) by (unfold bs; by rewrite (sm_bs _ _ _ H2)).
  assert (Hpos : 0 < bs) by (pose proof (mo_bs _ _ (si_ok _ _ _ _ H1)); unfold bs; lia).
  assert (Hsp : m_kv_cache_spec m = SlidingWindowSpec a w) by (by rewrite (sm_spec _ _ _ H2)).
  destruct (window_blocks_bound c m a w n (slots - n) Hsp Hbs0 ltac:(lia) Hw ltac:(lia) ltac:(unfold slots; lia) ltac:(unfold slots; lia) Hdcp)
    as (pages' & Hp' & Hneed). rewrite (sm_spec _ _ _ H2), Hpages in Hp'. injection Hp' as <-. fold bs in Hneed.
  rewrite Zplus_minus in Hneed. set (k := get_num_skipped_tokens m n / bs) in *.
  assert (Hk : 0 ≤ k ≤ len (mget m r)).
  { unfold k. unfold_skipped. rewrite Hsp. simpl. split; [apply Z.div_pos; lia|]. apply Z.div_le_upper_bound; lia. }
  fold bs in Hloop. fold k in Hloop. rewrite Z.min_l in Hloop by lia.
  pose proof (skipped_loop_window j (mget m r) (Z.to_nat k) H6 ltac:(unfold len in *; lia)) as Ht1. rewrite <- Hloop in Ht1.
  pose proof (nonnull_window _ _ H6) as Hown. pose proof (nonnull_window _ _ Ht1) as Hown1. rewrite Hl1 in Hown1.
  assert (Hcm : cdiv (with_speculative_blocks m1 slots) (block_size m1) = cdiv slots bs).
  { unfold with_speculative_blocks. by rewrite (sm_spec _ _ _ Hm1), Hsp, (sm_bs _ _ _ Hm1). }
  pose proof (len_nonneg (fr ++ extra)) as Hfr1.
  destruct (allocate_new_blocks_ok p1 m1 (fr ++ extra) es r slots Hs1) as (p2 & m2 & new & Hrun2 & Hs2 & Hst2 & Hm2 & Hc2 & -> & Hget2);
    [rewrite Hcm, Hl1; lia|].
  rewrite (bind_ok _ _ _ _ _ Hrun2). rewrite Hcm, Hl1 in *. set (count := cdiv slots bs - len (mget m r)) in *.
  assert (Hget : mget m2 r = mget m1 r ++ take (Z.to_nat count) (fr ++ extra)) by (unfold mget at 1; by rewrite Hget2).
  assert (Hnew : 0%nat ∉ take (Z.to_nat count) (fr ++ extra)).
  { intros Hx. eapply elem_of_take in Hx as (i & Hi & _). apply list_elem_of_lookup_2 in Hi.
    pose proof (wd_range _ _ _ _ (pw_data _ _ (gi_pool _ _ _ (si_ginv _ _ _ _ Hs1))) 0%nat Hi). lia. }
  assert (Ht2 : window_table (Nat.max j (Z.to_nat k)) (mget m2 r)).
  { destruct Ht1 as (l & Hl & Hl0). rewrite Hget, Hl, <- app_assoc. eexists. split; [done|]. rewrite not_elem_of_app. done. }
  assert (Hlen2 : len (mget m2 r) = Z.max (len (mget m r)) (cdiv slots bs)).
  { rewrite Hget, len_app, Hl1. unfold len at 2. rewrite length_take. unfold len in *. lia. }
  assert (Hm02 : same_manager r m0 m2) by (etrans; [exact H2|by etrans]).
  pose proof (nonnull_window _ _ Ht2) as Hown2.
  assert (Hcover : slots ≤ len (mget m2 r) * block_size m2).
  { rewrite (sm_bs _ _ _ Hm02), Hbs, <- Hbs0, Hlen2. pose proof (cdiv_spec slots bs Hpos). nia. }
  exists p2, m2, (drop (Z.to_nat count) (fr ++ extra)). split; [done|]. split; [|done]. split; try done.
  - by rewrite Hc2, Hc1.
  - rewrite <- Htot1. apply total_same with (p := p1) (p' := p2); try done; [by rewrite Hc1|by rewrite Hc2, Hc1].
  - rewrite Hown2, Hlen2. lia.
  - by exists (Nat.max j (Z.to_nat k)).
  - lia.
  - unfold slots in *. lia.
Qed.
End window_steps.

(** C30. The pages reserved for a sliding-window layer suffice at every step.
    Take a request that has no blocks yet, and as many free blocks as
    [max_memory_usage_bytes] counts pages.  Whatever steps the scheduler makes
    with it, chunks of the prompt, generated tokens, drafts that are rejected
    and lookahead slots, as long as the new and lookahead tokens of a step are
    within the budget of a batch and no block is cached: no step raises, after
    each there are slots for all its tokens, and the request holds no more
    blocks than these pages. *)
Theorem sliding_window_pages_suffice r c a w m p fr es pages steps :
  m_kv_cache_spec m = SlidingWindowSpec a w → block_size m = as_block_size a → 1 ≤ w →
  decode_context_parallel_size c = 1 → max_pages c (m_kv_cache_spec m) = Ok pages →
  sinv p m fr es → mget m r = [] → num_cached_block m !! r = None → pages ≤ len fr → 0 ≤ pages →
  steps_ok c 0 0 steps →
  ∃ p' m', for_ steps (window_step r c) (p, m) = (Ok tt, (p', m')) ∧
    len (nonnull (mget m' r)) ≤ pages ∧
    ∀ n b look, last steps = Some (n, b, look) →
      Z.min (n + b + look) (mc_max_model_len c) ≤ len (mget m' r) * block_size m'.
Proof.
  intros Hspec Hbs Hw Hdcp Hpages Hs Hget Hk Hfr Hpos Hok.
  assert (Hinv : window_inv r m es pages (len fr) 0 0 p m fr).
  { split; rewrite ?Hget; try done; unfold nonnull; simpl; unfold len; simpl; try lia.
    exists 0%nat, []. split; [done|apply not_elem_of_nil]. }
  assert (Hall : ∀ lo hi p1 m1 fr1, window_inv r m es pages (len fr) lo hi p1 m1 fr1 → steps_ok c lo hi steps →
    ∃ p' m', for_ steps (window_step r c) (p1, m1) = (Ok tt, (p', m')) ∧ len (nonnull (mget m' r)) ≤ pages ∧
      ∀ n b look, last steps = Some (n, b, look) → Z.min (n + b + look) (mc_max_model_len c) ≤ len (mget m' r) * block_size m');
    [|by eapply Hall].
  clear Hinv Hok. induction steps as [|[[n b] look] steps IH]; intros lo hi p1 m1 fr1 Hinv Hok.
  { exists p1, m1. split; [done|]. split; [apply (wi_pages _ _ _ _ _ _ _ _ _ _ Hinv)|done]. }
  destruct Hok as (H1 & H2 & H3 & H4 & H5 & Hrest).
  destruct (window_step_ok r c a w m es pages (len fr) Hspec Hbs Hw Hdcp Hpages Hfr lo hi p1 m1 fr1 n b look Hinv
    (conj H1 (conj H2 (conj H3 (conj H4 (conj H5 I))))))
    as (p2 & m2 & fr2 & Hrun & Hinv2 & Hslots).
  cbn [for_]. rewrite (bind_ok _ _ _ _ _ Hrun). destruct (IH n (n + b) p2 m2 fr2 Hinv2 Hrest) as (p' & m' & Hrun' & Hle & Hlast).
  exists p', m'. split; [done|]. split; [done|]. intros n' b' look' Hl. destruct steps as [|s steps].
  - injection Hl as <- <- <-. cbn [for_] in Hrun'. injection Hrun' as <- <-. done.
  - by apply Hlast.
Qed.

(** ** Witnesses *)

(** Six free blocks of 4 tokens, and a layer with a window of 6 tokens. *)
Definition window_pool : BlockPool :=
  ltac:(let t := eval vm_compute in (BlockPool_init 7 true 4 false false None) in
        lazymatch t with Ok ?p => exact p end).
Definition window_fields : AttentionFields := mkAttention 4 8 64 "bfloat16" None.
Definition window_manager (w : Z) : Manager :=
  mkManager 4 SlidingWindowManager (SlidingWindowSpec window_fields w) true ∅ ∅ 0 0%nat [].

Lemma window_manager_inv w : sinv window_pool (window_manager w) (seq 1 6) [].
Proof.
  destruct (BlockPool_init_ok 7 true 4 false false None ltac:(lia)) as (p & Hp & Hwf & Hbl & Hc & Hhs & Hr & Hha).
  assert (Hw : BlockPool_init 7 true 4 false false None = Ok window_pool) by (vm_compute; reflexivity).
  rewrite Hw in Hp. injection Hp as <-. clear Hw Hbl. revert Hwf Hc Hhs Hr Hha. generalize window_pool as p.
  intros p Hwf Hc Hhs Hr Hha. split.
  - assert (He : mentries (window_manager w) ++ [] = []) by reflexivity. rewrite He. split.
    + exact Hwf.
    + intros e Hx. by apply not_elem_of_nil in Hx.
    + intros x Hx. rewrite Hr. reflexivity.
    + intros x Hx. by apply not_elem_of_nil in Hx.
    + intros _ x. apply Hha.
  - split; rewrite ?Hhs, ?Hc; try reflexivity; [split; [reflexivity|vm_compute; discriminate]|split; [vm_compute; discriminate|reflexivity]|].
    intros r [k Hk]. discriminate Hk.
Qed.

(** A prompt of 11 tokens in two chunks, a step with drafts of which one is
    rejected, and another one. *)
Definition window_example : list (Z * Z * Z) := [(0, 8, 0); (8, 3, 2); (11, 3, 2); (13, 3, 2)].
Lemma sliding_window_pages_suffice_witness :
  ∃ p' m', for_ window_example (window_step "r" (mkMemoryConfig 100 1 1 8 0)) (window_pool, window_manager 6) = (Ok tt, (p', m')) ∧
    len (nonnull (mget m' "r")) ≤ 5.
Proof.
  destruct (sliding_window_pages_suffice "r" (mkMemoryConfig 100 1 1 8 0) window_fields 6 (window_manager 6) window_pool (seq 1 6) [] 5
    window_example) as (p' & m' & Hrun & Hle & _); try reflexivity; try lia; [apply window_manager_inv|vm_compute; discriminate|..].
  - cbn. lia.
  - exists p', m'. split; [exact Hrun|exact Hle].
Defined.

(** When the lookahead tokens come on top of a full batch the pages do not
    suffice: with batches of 4 tokens and a window of 5 there are 3 pages, and
    7 computed, 4 new and 2 lookahead tokens take 4 blocks. *)
Example lookahead_exceeds_pages :
  let c := mkMemoryConfig 100 1 1 4 0 in
  max_pages c (SlidingWindowSpec window_fields 5) = Ok 3 ∧
  ∃ p' m', for_ [(0, 4, 0); (4, 3, 0); (7, 4, 2)] (window_step "r" c) (window_pool, window_manager 5) = (Ok tt, (p', m')) ∧
    len (nonnull (mget m' "r")) = 4.
Proof. split; [reflexivity|]. eexists _, _. split; vm_compute; reflexivity. Qed.
