(* ===== verification/Coordinator.v ===== *)
(** The KV cache coordinators (vllm/v1/core/kv_cache_coordinator.py): one
    manager per KV cache group on one block pool, and the search for the
    longest prefix that hits the cache in every group. *)

From S2P Require Import Prelude.
From S2P Require Import KVBlocks.
From S2P Require Import Request.
From S2P Require Import BlockHash.
From S2P Require Import KVCacheMetrics.
From S2P Require Import BlockPool.
From S2P Require Import KVCacheInterface.
From S2P Require Import SingleTypeManagers.

(** The subclass with its own attributes: no prefix caching, one group with
    its effective block size, or several groups split by specification (the
    specification, the group ids and the manager class) with the least common
    multiple of their block sizes. *)
Inductive CoordinatorKind :=
  | NoPrefixCache
  | Unitary (unit_block_size : Z)
  | Hybrid (attention_groups : list (KVCacheSpec * list Z * ManagerClass))
      (lcm_block_size : Z).

Record Coordinator := mkCoordinator {
  kind : CoordinatorKind;
  block_pool : BlockPool;
  single_type_managers : list Manager;
  c_groups : list KVCacheSpec;
  use_eagle : bool;
  c_hash_block_size : Z;
  dcp_world_size : Z;
  pcp_world_size : Z
}.

Definition Coordinator_eta (c : Coordinator) : Coordinator :=
  mkCoordinator (kind c) (block_pool c) (single_type_managers c) (c_groups c) (use_eagle c)
    (c_hash_block_size c) (dcp_world_size c) (pcp_world_size c).
Definition set_block_pool (v : BlockPool) : Coordinator → Coordinator :=
  ltac:(record_set Coordinator_eta block_pool v).
Definition set_managers (v : list Manager) : Coordinator → Coordinator :=
  ltac:(record_set Coordinator_eta single_type_managers v).
Definition set_kind (v : CoordinatorKind) : Coordinator → Coordinator :=
  ltac:(record_set Coordinator_eta kind v).

(** Run an operation of manager [i], or of the pool. *)
Definition on_manager {A} (i : nat) (m : M PM A) : M Coordinator A := λ c,
  match single_type_managers c !! i with
  | None => (Raise IndexError, c)
  | Some mg =>
      let '(r, (p, mg)) := m (block_pool c, mg) in
      (r, set_block_pool p (set_managers (<[i := mg]> (single_type_managers c)) c))
  end.
Definition in_pool {A} (m : M BlockPool A) : M Coordinator A := zoom block_pool set_block_pool m.

(** [\[body i manager for i, manager in enumerate(self.single_type_managers)\]] *)
Definition each_manager {A} (body : nat → M PM A) : M Coordinator (list A) :=
  let* n := gets (λ c, length (single_type_managers c)) in
  mapM (λ i, on_manager i (body i)) (seq 0 n).

(** [new_computed_blocks\[i\]] *)
Definition group_blocks {S} (blks : list (list loc)) (i : nat) : M S (list loc) :=
  of_option IndexError (blks !! i).

Definition is_cross : M PM bool :=
  this (λ m, bool_decide (manager_class m = CrossAttentionManager)).

Definition c_get_num_blocks_to_allocate (request_id : string) (num_tokens : Z)
    (new_computed_blocks : list (list loc)) (num_encoder_tokens total_computed_tokens : Z)
    : M Coordinator Z :=
  let* l := each_manager (λ i,
    let* cross := is_cross in
    if cross : bool then get_num_blocks_to_allocate request_id num_encoder_tokens [] 0
    else
      let* blks := group_blocks new_computed_blocks i in
      get_num_blocks_to_allocate request_id num_tokens blks total_computed_tokens) in
  ret (foldl Z.add 0 l).

Definition c_allocate_new_computed_blocks (request_id : string)
    (new_computed_blocks : list (list loc))
    (num_local_computed_tokens num_external_computed_tokens : Z) : M Coordinator unit :=
  each_manager (λ i,
    let* blks := group_blocks new_computed_blocks i in
    allocate_new_computed_blocks request_id blks
      num_local_computed_tokens num_external_computed_tokens) ;;;
  ret tt.

Definition c_allocate_new_blocks (request_id : string) (num_tokens num_encoder_tokens : Z)
    : M Coordinator (list (list loc)) :=
  each_manager (λ i,
    let* cross := is_cross in
    allocate_new_blocks request_id (if cross : bool then num_encoder_tokens else num_tokens)).

Definition c_cache_blocks (request : Request) (num_computed_tokens : Z) : M Coordinator unit :=
  each_manager (λ i, cache_blocks request num_computed_tokens) ;;; ret tt.

Definition c_free (request_id : string) : M Coordinator unit :=
  each_manager (λ i, free request_id) ;;; ret tt.

Definition c_get_num_common_prefix_blocks (running_request_id : string)
    : M Coordinator (list Z) :=
  let* k := gets kind in
  match k with
  | NoPrefixCache => gets (λ c, replicate (length (single_type_managers c)) 0)
  | _ => each_manager (λ i, get_num_common_prefix_blocks running_request_id)
  end.

Definition c_remove_skipped_blocks (request_id : string) (total_computed_tokens : Z)
    : M Coordinator unit :=
  each_manager (λ i, remove_skipped_blocks request_id total_computed_tokens) ;;; ret tt.

Definition c_get_blocks (request_id : string) (c : Coordinator) : list (list loc) :=
  map (λ m, default [] (req_to_blocks m !! request_id)) (single_type_managers c).

(** ** The longest cache hit over the groups *)

(** [_get_block_hashes] *)
Definition _get_block_hashes (hash_block_size : Z) (block_hashes : list bytes)
    (spec : KVCacheSpec) : res BlockHashList :=
  if decide (spec_block_size spec = hash_block_size) then Ok (HPlain block_hashes)
  else match BlockHashListWithBlockSize_init block_hashes hash_block_size
               (spec_block_size spec) with
       | Ok l => Ok (HScaled l)
       | Raise e => Raise e
       end.

(** [hit_blocks_by_group\[group_id\] = blocks] for the zipped lists. *)
Fixpoint assign_groups (group_ids : list Z) (blks : list (list loc))
    (by_group : list (option (list loc))) : list (option (list loc)) :=
  match group_ids, blks with
  | g :: group_ids, b :: blks =>
      assign_groups group_ids blks (<[Z.to_nat g := Some b]> by_group)
  | _, _ => by_group
  end.

(** [del blocks\[num_blocks:\]] for every group of the type. *)
Fixpoint truncate_groups (num_blocks : Z) (group_ids : list Z)
    (by_group : list (option (list loc))) : res (list (option (list loc))) :=
  match group_ids with
  | [] => Ok by_group
  | g :: group_ids =>
      match by_group !! Z.to_nat g with
      | Some (Some b) =>
          truncate_groups num_blocks group_ids
            (<[Z.to_nat g := Some (py_upto b num_blocks)]> by_group)
      | Some None => Raise AssertionError
      | None => Raise IndexError
      end
  end.

Section hybrid.
Context (block_hashes : list bytes) (hash_block_size lcm_block_size : Z) (use_eagle : bool).

(** One pass over the attention types. *)
Fixpoint hybrid_pass (groups : list (KVCacheSpec * list Z * ManagerClass))
    (curr_hit_length : Z) (by_group : list (option (list loc)))
    : M BlockPool (Z * list (option (list loc))) :=
  match groups with
  | [] => ret (curr_hit_length, by_group)
  | (spec, group_ids, cls) :: groups =>
      let* g0 := of_option IndexError (head group_ids) in
      let cached_blocks := default None (by_group !! Z.to_nat g0) in
      if is_full_attention spec && bool_decide (cached_blocks ≠ None) then
        let num_blocks := curr_hit_length / spec_block_size spec in
        let curr_hit_length := num_blocks * spec_block_size spec in
        let* by_group := of_res (truncate_groups num_blocks group_ids by_group) in
        hybrid_pass groups curr_hit_length by_group
      else
        let* hashes := of_res (_get_block_hashes hash_block_size block_hashes spec) in
        let* hit_blocks := manager_find_longest_cache_hit hashes curr_hit_length group_ids
                             spec use_eagle lcm_block_size cls 1 1 in
        let* n := of_res (first_len hit_blocks) in
        hybrid_pass groups (n * spec_block_size spec)
          (assign_groups group_ids hit_blocks by_group)
  end.

(** The [while True] loop; [fuel] bounds the number of passes. *)
Fixpoint hybrid_loop (fuel : nat) (groups : list (KVCacheSpec * list Z * ManagerClass))
    (hit_length : Z) (by_group : list (option (list loc)))
    : M BlockPool (list (list loc) * Z) :=
  match fuel with
  | O => raise OutOfFuel
  | S fuel =>
      let* r := hybrid_pass groups hit_length by_group in
      let '(curr_hit_length, by_group) := r in
      if decide (curr_hit_length < hit_length) then
        hybrid_loop fuel groups curr_hit_length by_group
      else ret (map (default []) by_group, hit_length)
  end.
End hybrid.

Definition c_find_longest_cache_hit (block_hashes : list bytes) (max_cache_hit_length : Z)
    : M Coordinator (list (list loc) * Z) :=
  let* c := get in
  match kind c with
  | NoPrefixCache => ret (map (λ _, []) (single_type_managers c), 0)
  | Unitary unit_block_size =>
      let* spec := of_option IndexError (head (c_groups c)) in
      let* mg := of_option IndexError (head (single_type_managers c)) in
      let* hit_blocks := in_pool (manager_find_longest_cache_hit (HPlain block_hashes)
        max_cache_hit_length [0] spec (use_eagle c) unit_block_size (manager_class mg)
        (dcp_world_size c) (pcp_world_size c)) in
      let* n := of_res (first_len hit_blocks) in
      ret (hit_blocks, n * unit_block_size)
  | Hybrid attention_groups lcm_block_size =>
      in_pool (hybrid_loop block_hashes (c_hash_block_size c) lcm_block_size (use_eagle c)
        (S (Z.to_nat max_cache_hit_length)) attention_groups max_cache_hit_length
        (replicate (length (c_groups c)) None))
  end.

(** ** Construction *)

Fixpoint build_managers (specs : list KVCacheSpec) (caching : bool) (i dcp pcp : Z)
    : M BlockPool (list Manager) :=
  match specs with
  | [] => ret []
  | spec :: specs =>
      let* m := get_manager_for_kv_cache_spec spec caching i dcp pcp in
      let* ms := build_managers specs caching (i + 1) dcp pcp in
      ret (m :: ms)
  end.

(** The search for an existing group with the same specification. *)
Fixpoint add_to_groups (spec : KVCacheSpec) (i : Z) (cls : ManagerClass)
    (groups : list (KVCacheSpec * list Z * ManagerClass))
    : res (list (KVCacheSpec * list Z * ManagerClass)) :=
  match groups with
  | [] => Ok [(spec, [i], cls)]
  | (spec', ids, cls') :: rest =>
      if decide (spec' = spec) then
        if decide (cls = cls') then Ok ((spec', ids ++ [i], cls') :: rest)
        else Raise AssertionError
      else match add_to_groups spec i cls rest with
           | Ok rest => Ok ((spec', ids, cls') :: rest)
           | Raise e => Raise e
           end
  end.

Fixpoint split_groups (i : Z) (specs : list KVCacheSpec) (managers : list Manager)
    (groups : list (KVCacheSpec * list Z * ManagerClass))
    : res (list (KVCacheSpec * list Z * ManagerClass)) :=
  match specs, managers with
  | spec :: specs, m :: managers =>
      match add_to_groups spec i (manager_class m) groups with
      | Ok groups => split_groups (i + 1) specs managers groups
      | Raise e => Raise e
      end
  | [], _ => Ok groups
  | _ :: _, [] => Raise IndexError
  end.

Definition lcm_list (l : list Z) : Z := foldl Z.lcm 1 l.

(** [verify_and_split_kv_cache_groups]: full attention first (a stable sort). *)
Definition verify_and_split_kv_cache_groups (specs : list KVCacheSpec)
    (managers : list Manager) : res CoordinatorKind :=
  match split_groups 0 specs managers [] with
  | Raise e => Raise e
  | Ok groups =>
      if decide (1 < len groups) then
        let full := filter (λ g : KVCacheSpec * list Z * ManagerClass,
                              is_full_attention g.1.1 = true) groups in
        let others := filter (λ g : KVCacheSpec * list Z * ManagerClass,
                                is_full_attention g.1.1 ≠ true) groups in
        Ok (Hybrid (full ++ others) (lcm_list (map (λ g, spec_block_size g.1.1) groups)))
      else Raise AssertionError
  end.

Definition base_coordinator (config : KVCacheConfig) (use_eagle caching events ih : bool)
    (dcp pcp hash_block_size : Z) (mc : option KVCacheMetricsCollector) : res Coordinator :=
  match BlockPool_init (kc_num_blocks config) caching hash_block_size events ih mc with
  | Raise e => Raise e
  | Ok p =>
      let specs := map kv_cache_spec (kv_cache_groups config) in
      match build_managers specs caching 0 dcp pcp p with
      | (Raise e, _) => Raise e
      | (Ok ms, p) =>
          Ok (mkCoordinator NoPrefixCache p ms specs use_eagle hash_block_size dcp pcp)
      end
  end.

Definition NoPrefixCache_init (config : KVCacheConfig) (use_eagle events ih : bool)
    (dcp pcp hash_block_size : Z) (mc : option KVCacheMetricsCollector) : res Coordinator :=
  base_coordinator config use_eagle false events ih dcp pcp hash_block_size mc.

Definition Unitary_init (config : KVCacheConfig) (use_eagle caching events ih : bool)
    (dcp pcp hash_block_size : Z) (mc : option KVCacheMetricsCollector) : res Coordinator :=
  match base_coordinator config use_eagle caching events ih dcp pcp hash_block_size mc with
  | Raise e => Raise e
  | Ok c =>
      match c_groups c with
      | [] => Raise IndexError
      | spec :: rest =>
          let bs := spec_block_size spec in
          let bs := if decide (1 < dcp) then bs * dcp else bs in
          let bs := if decide (1 < pcp) then bs * pcp else bs in
          if caching && bool_decide (hash_block_size ≠ bs) then Raise AssertionError
          else if decide (rest = []) then Ok (set_kind (Unitary bs) c)
          else Raise AssertionError
      end
  end.

Definition Hybrid_init (config : KVCacheConfig) (use_eagle caching events ih : bool)
    (dcp pcp hash_block_size : Z) (mc : option KVCacheMetricsCollector) : res Coordinator :=
  match base_coordinator config use_eagle caching events ih dcp pcp hash_block_size mc with
  | Raise e => Raise e
  | Ok c =>
      if negb (forallb (λ s, bool_decide (spec_block_size s mod hash_block_size = 0))
                 (c_groups c)) then Raise AssertionError
      else if bool_decide (dcp ≠ 1) then Raise AssertionError
      else if bool_decide (pcp ≠ 1) then Raise AssertionError
      else match verify_and_split_kv_cache_groups (c_groups c) (single_type_managers c) with
           | Ok k => Ok (set_kind k c)
           | Raise e => Raise e
           end
  end.

Definition get_kv_cache_coordinator (config : KVCacheConfig)
    (use_eagle caching events ih : bool) (dcp pcp hash_block_size : Z)
    (mc : option KVCacheMetricsCollector) : res Coordinator :=
  if negb caching then
    NoPrefixCache_init config use_eagle events ih dcp pcp hash_block_size mc
  else if decide (len (kv_cache_groups config) = 1) then
    Unitary_init config use_eagle caching events ih dcp pcp hash_block_size mc
  else Hybrid_init config use_eagle caching events ih dcp pcp hash_block_size mc.
