(* ===== verification/CoordinatorSpec.v ===== *)
(** The coordinator's loops over its managers preserve the joint invariant
    [cinv], and the number of blocks it asks for before an allocation is
    enough for the allocation. *)

From S2P Require Import Prelude.
From S2P Require Import KVBlocks.
From S2P Require Import Request.
From S2P Require Import BlockHash.
From S2P Require Import KVCacheMetrics.
From S2P Require Import BlockPool.
From S2P Require Import BlockPoolSpec.
From S2P Require Import KVInvariant.
From S2P Require Import KVCacheInterface.
From S2P Require Import SingleTypeManagers.
From S2P Require Import ManagerSpec.
From S2P Require Import Coordinator.

Implicit Types (c : Coordinator) (ms : list Manager).

Definition centries ms : list entry := ms ≫= mentries.

Record cinv c (free : list loc) : Prop := {
  ci_ginv : ginv (block_pool c) free (centries (single_type_managers c));
  ci_ok : ∀ m, m ∈ single_type_managers c → manager_ok (block_pool c) m
}.

(** [c'] is [c] up to the pool and the managers' tables. *)
Definition with_state c (p : BlockPool) ms : Coordinator := set_block_pool p (set_managers ms c).

Lemma manager_ok_static p p' m : manager_ok p m → same_static p p' → manager_ok p' m.
Proof.
  intros Ho Hs. eapply (manager_ok_same p p' m m ""); [done|done|done|]. apply (mo_cached _ _ Ho).
Qed.

Lemma with_state_id c : with_state c (block_pool c) (single_type_managers c) = c.
Proof. by destruct c. Qed.

Lemma centries_mid ms1 m ms2 :
  centries (ms1 ++ m :: ms2) ≡ₚ mentries m ++ centries (ms1 ++ ms2).
Proof.
  unfold centries. rewrite !bind_app, bind_cons. rewrite !app_assoc.
  apply Permutation_app_tail. apply Permutation_app_comm.
Qed.

Lemma cinv_sinv c free ms1 m ms2 :
  cinv c free → single_type_managers c = ms1 ++ m :: ms2 →
  sinv (block_pool c) m free (centries (ms1 ++ ms2)).
Proof.
  intros [Hg Ho] Hms. split.
  - rewrite <- centries_mid, <- Hms. done.
  - apply Ho. rewrite Hms. set_solver +.
Qed.

Lemma sinv_cinv c free ms1 m ms2 p' m' free' :
  cinv c free → single_type_managers c = ms1 ++ m :: ms2 →
  sinv p' m' free' (centries (ms1 ++ ms2)) → same_static (block_pool c) p' →
  cinv (with_state c p' (ms1 ++ m' :: ms2)) free'.
Proof.
  intros [Hg Ho] Hms [Hg' Ho'] Hs. split; simpl.
  - by rewrite centries_mid.
  - intros x Hx. assert (x = m' ∨ x ∈ ms1 ++ m :: ms2) as [->|Hx'] by set_solver +Hx; [done|].
    eapply manager_ok_static; [apply Ho; by rewrite Hms|done].
Qed.

(** ** Loops over the managers *)

Section each_manager.
Context {A : Type} (body : nat → M PM A).
(** The state of the loop: the managers done and to do, the pool, the free
    blocks and the results so far. *)
Context (J : list Manager → list Manager → BlockPool → list loc → list A → Prop).
Context (Hstep : ∀ ms1 m ms2 p fr acc,
  J ms1 (m :: ms2) p fr acc → sinv p m fr (centries (ms1 ++ ms2)) →
  ∃ a p' m' fr', body (length ms1) (p, m) = (Ok a, (p', m')) ∧
    sinv p' m' fr' (centries (ms1 ++ ms2)) ∧ same_static p p' ∧
    J (ms1 ++ [m']) ms2 p' fr' (acc ++ [a])).

Lemma with_state_twice c p ms p' ms' :
  with_state (with_state c p ms) p' ms' = with_state c p' ms'.
Proof. done. Qed.

Lemma mapM_managers c ms2 : ∀ ms1 p fr acc,
  cinv (with_state c p (ms1 ++ ms2)) fr → J ms1 ms2 p fr acc →
  ∃ l p' ms' fr', mapM (λ i, on_manager i (body i)) (seq (length ms1) (length ms2))
      (with_state c p (ms1 ++ ms2)) = (Ok l, with_state c p' ms') ∧
    cinv (with_state c p' ms') fr' ∧ same_static p p' ∧ J ms' [] p' fr' (acc ++ l).
Proof.
  induction ms2 as [|m ms2 IH]; intros ms1 p fr acc Hc HJ; simpl.
  { exists [], p, (ms1 ++ []), fr. rewrite !app_nil_r in *. done. }
  destruct (Hstep _ _ _ _ _ _ HJ (cinv_sinv _ _ ms1 m ms2 Hc eq_refl))
    as (a & p' & m' & fr' & Hrun & Hs & Hst & HJ').
  assert (Hon : on_manager (length ms1) (body (length ms1)) (with_state c p (ms1 ++ m :: ms2)) =
    (Ok a, with_state c p' ((ms1 ++ [m']) ++ ms2))).
  { unfold on_manager. simpl. rewrite list_lookup_middle by done. rewrite Hrun.
    replace (<[length ms1 := m']> (ms1 ++ m :: ms2)) with ((ms1 ++ [m']) ++ ms2); [done|].
    rewrite insert_app_r_alt by lia. rewrite Nat.sub_diag. simpl. by rewrite <- app_assoc. }
  rewrite (bind_ok _ _ _ _ _ Hon).
  destruct (IH (ms1 ++ [m']) p' fr' (acc ++ [a])) as (l & p2 & ms' & fr2 & Hrun2 & Hc2 & Hst2 & HJ2).
  - rewrite <- app_assoc. simpl.
    exact (sinv_cinv _ _ ms1 m ms2 p' m' fr' Hc eq_refl Hs Hst).
  - done.
  - rewrite length_app, Nat.add_1_r in Hrun2. rewrite (bind_ok _ _ _ _ _ Hrun2).
    exists (a :: l), p2, ms', fr2. split; [done|]. split; [done|]. split; [by etrans|].
    by rewrite <- app_assoc in HJ2.
Qed.

Lemma each_manager_ok c fr :
  cinv c fr → J [] (single_type_managers c) (block_pool c) fr [] →
  ∃ l p' ms' fr', each_manager body c = (Ok l, with_state c p' ms') ∧
    cinv (with_state c p' ms') fr' ∧ same_static (block_pool c) p' ∧ J ms' [] p' fr' l.
Proof.
  intros Hc HJ. unfold each_manager. rewrite bind_gets.
  assert (Hid : with_state c (block_pool c) (single_type_managers c) = c) by by destruct c.
  destruct (mapM_managers c (single_type_managers c) [] (block_pool c) fr []) as
    (l & p' & ms' & fr' & Hrun & ?); [simpl; by rewrite Hid|done|].
  simpl in Hrun. rewrite Hid in Hrun. by exists l, p', ms', fr'.
Qed.
End each_manager.

(** ** [free] *)

Lemma c_free_ok c fr r :
  cinv c fr →
  ∃ p' ms' fr', c_free r c = (Ok tt, with_state c p' ms') ∧ cinv (with_state c p' ms') fr' ∧
    same_static (block_pool c) p' ∧ (∀ a, hash p' a = hash (block_pool c) a) ∧
    (∀ m, m ∈ ms' → req_to_blocks m !! r = None ∧ num_cached_block m !! r = None) ∧
    Forall2 (same_manager r) (single_type_managers c) ms' ∧ (fr `prefix_of` fr').
Proof.
  intros Hc. unfold c_free.
  destruct (each_manager_ok (λ _, free r)
    (λ ms1 ms2 p fr' _, (∀ a, hash p a = hash (block_pool c) a) ∧
       (∀ m, m ∈ ms1 → req_to_blocks m !! r = None ∧ num_cached_block m !! r = None) ∧
       Forall2 (same_manager r) (single_type_managers c) (ms1 ++ ms2) ∧ fr `prefix_of` fr') ) with (c := c) (fr := fr)
    as (l & p' & ms' & fr' & Hrun & Hc' & Hst & Hh & Hn & Hf & Hpre).
  - intros ms1 m ms2 p f1 acc (Hh & Hn & Hf & Hpre) Hs.
    destruct (free_ok p m f1 _ r Hs) as (p' & m' & extra & Hrun & Hs' & Hst & Hm & H1 & H2 & Hh' & _).
    exists tt, p', m', (f1 ++ extra). split; [done|]. split; [done|]. split; [done|].
    split; [intros a; by rewrite Hh'|]. split; [|split].
    + intros x [Hx| ->%list_elem_of_singleton]%elem_of_app; [by apply Hn|done].
    + rewrite <- app_assoc. simpl. apply Forall2_app_inv_r in Hf as (k1 & k2 & Hf1 & Hf2 & ->).
      apply Forall2_app; [done|]. apply Forall2_cons_inv_r in Hf2 as (y & k3 & Hy & Hf3 & ->).
      constructor; [by etrans|done].
    + etrans; [exact Hpre|]. by eexists.
  - done.
  - simpl. split; [done|]. split; [intros m Hm; by apply not_elem_of_nil in Hm|]. split; [|done].
    apply Forall_Forall2_diag. by apply Forall_true.
  - rewrite (bind_ok _ _ _ _ _ Hrun). rewrite app_nil_r in Hf. exists p', ms', fr'. done.
Qed.

(** * The capacity check is sufficient *)

(** Specifications whose skipped tokens are computed tokens. *)
Definition spec_ok (s : KVCacheSpec) : Prop :=
  match s with
  | SlidingWindowSpec _ w => 1 ≤ w
  | ChunkedLocalAttentionSpec _ chunk => 0 < chunk
  | MambaSpec b _ _ _ _ _ => 0 < b
  | _ => True
  end.

Lemma skipped_le m t : spec_ok (m_kv_cache_spec m) → 0 ≤ t → get_num_skipped_tokens m t ≤ t.
Proof.
  intros Hs Ht. unfold_skipped. destruct (m_kv_cache_spec m); simpl in Hs; try lia.
  rewrite Z.mul_comm. by apply Z.mul_div_le.
Qed.

Lemma with_speculative_le m t :
  spec_ok (m_kv_cache_spec m) → t ≤ with_speculative_blocks m t.
Proof.
  intros Hs. unfold with_speculative_blocks. destruct (m_kv_cache_spec m); simpl in Hs; try lia.
  destruct (decide _); nia.
Qed.

Lemma cdiv_mono a b k : 0 < k → a ≤ b → cdiv a k ≤ cdiv b k.
Proof. intros Hk Hab. apply cdiv_le_iff; [done|]. pose proof (cdiv_spec b k Hk). lia. Qed.

Lemma len_computed_row m comp total :
  len (computed_row m comp total) = Z.max (Z.max 0 (skip_blocks m total)) (len comp).
Proof.
  unfold computed_row, kept. rewrite len_app. set (s := skip_blocks m total). clearbody s.
  unfold len. rewrite length_replicate. destruct (decide (0 < s)).
  - rewrite py_from_nonneg by lia. rewrite length_drop. lia.
  - lia.
Qed.

Lemma kept_from m comp total :
  kept m comp total = py_from comp (Z.max 0 (skip_blocks m total)).
Proof.
  unfold kept. destruct (decide _); [by rewrite Z.max_r by lia|].
  rewrite Z.max_l by lia. rewrite py_from_nonneg by lia. done.
Qed.

(** Touching removes at most the evictable blocks from the free queue. *)
Lemma touch_capacity p free es comp :
  ginv p free es → NoDup (nonnull comp) →
  len free - evictable p comp ≤ len (filter (λ a, a ∉ comp) free).
Proof.
  intros Hg Hnd. pose proof (gi_pool _ _ _ Hg) as Hwf. pose proof (pool_nodup _ _ Hwf) as Hndf.
  assert (Hsplit : len free = len (filter (λ a, a ∉ comp) free) + len (filter (λ a, a ∈ comp) free)).
  { clear. induction free as [|x l IH]; [done|]. destruct (decide (x ∈ comp)).
    - rewrite filter_cons_False, (filter_cons_True (λ a, a ∈ comp)), !len_cons by tauto. lia.
    - rewrite filter_cons_True, (filter_cons_False (λ a, a ∈ comp)), !len_cons by tauto. lia. }
  cut (len (filter (λ a, a ∈ comp) free) ≤ evictable p comp); [lia|].
  unfold evictable, len. apply inj_le, submseteq_length, NoDup_submseteq.
  - by apply NoDup_filter.
  - intros a [Hc Hf]%list_elem_of_filter. apply list_elem_of_filter.
    pose proof (wd_range _ _ _ _ (pw_data _ _ Hwf) a Hf) as Hr.
    apply (wd_ref _ _ _ _ (pw_data _ _ Hwf) a Hr) in Hf. split; [split; [done|lia]|done].
Qed.

(** The request is running in the manager, or new with valid hits. *)
Inductive ready (p : BlockPool) m r (comp : list loc) (local : Z) : Prop :=
  | ready_running k : num_cached_block m !! r = Some k → comp = [] → ready p m r comp local
  | ready_new : num_cached_block m !! r = None → mget m r = [] → hits_ok p comp →
      len comp * block_size m ≤ local → ready p m r comp local.

Definition missing m r (tokens : Z) : Z :=
  Z.max 0 (cdiv (with_speculative_blocks m tokens) (block_size m) - len (mget m r)).

Lemma external_blocks_bounds m comp local ext tokens (total := local + ext) :
  0 < block_size m → spec_ok (m_kv_cache_spec m) → 0 ≤ local → 0 ≤ ext → total ≤ tokens →
  len comp * block_size m ≤ local →
  0 ≤ external_blocks m comp local ext ≤
    Z.max 0 (cdiv (with_speculative_blocks m tokens) (block_size m)
             - len (computed_row m comp total)).
Proof.
  intros Hbs Hsp Hl He Ht Hc. unfold external_blocks. fold total.
  pose proof (skipped_le m total Hsp ltac:(lia)) as Hsk.
  pose proof (with_speculative_le m tokens Hsp).
  set (e := if decide (0 < skip_blocks m total) then _ else _). destruct (decide (0 < e)); [|lia].
  rewrite len_computed_row. set (bs := block_size m) in *.
  assert (Hcd : cdiv total bs ≤ cdiv (with_speculative_blocks m tokens) bs) by (apply cdiv_mono; lia).
  assert (H1 : skip_blocks m total ≤ cdiv total bs).
  { unfold skip_blocks. pose proof (cdiv_spec total bs Hbs).
    pose proof (Z.mul_div_le (get_num_skipped_tokens m total) bs Hbs). fold bs. nia. }
  assert (H2 : len comp ≤ cdiv total bs).
  { pose proof (cdiv_spec total bs Hbs). nia. }
  assert (H3 : 0 ≤ cdiv total bs). { pose proof (cdiv_spec total bs Hbs). nia. }
  lia.
Qed.

Lemma allocate_new_computed_blocks_ok p m fr es r comp local ext tokens :
  sinv p m fr es → manager_class m ≠ CrossAttentionManager → spec_ok (m_kv_cache_spec m) →
  ready p m r comp local → 0 ≤ local → 0 ≤ ext → local + ext ≤ tokens →
  need p m r tokens comp (local + ext) ≤ len fr →
  ∃ p' m' fr', allocate_new_computed_blocks r comp local ext (p, m) = (Ok tt, (p', m')) ∧
    sinv p' m' fr' es ∧ same_static p p' ∧ same_manager r m m' ∧
    (∃ k, num_cached_block m' !! r = Some k) ∧ (∀ a, ref p a ≤ ref p' a) ∧
    (ext = 0 → ∀ a, hash p' a = hash p a) ∧
    len fr - need p m r tokens comp (local + ext) + missing m' r tokens ≤ len fr'.
Proof.
  intros Hs Hcls Hsp Hready Hl He Ht Hneed. unfold allocate_new_computed_blocks.
  rewrite bind_this.
  assert (Hbase : ∀ X, match manager_class m with
     | CrossAttentionManager => assert_ (bool_decide (len comp = 0)) | _ => X end = (X : M PM unit))
    by (intros; destruct (manager_class m); done).
  rewrite Hbase. destruct Hready as [k Hk ->|Hk Hget Hh Hcomp].
  - exists p, m, fr. unfold base_allocate_new_computed_blocks. rewrite bind_this, Hk.
    split; [done|]. split; [done|]. split; [done|]. split; [done|]. split; [eauto|].
    split; [done|]. split; [done|]. unfold need, missing. rewrite Hk. lia.
  - pose proof (mo_bs _ _ (si_ok _ _ _ _ Hs)) as Hbs.
    pose proof (external_blocks_bounds m comp local ext tokens ltac:(lia) Hsp Hl He Ht Hcomp) as Hext.
    set (total := local + ext) in *. cbv zeta in Hext. fold total in Hext.
    pose proof (hits_ok_kept p m comp total Hh) as Hkept.
    pose proof (touch_capacity p fr _ (kept m comp total) (si_ginv _ _ _ _ Hs) (ho_nodup _ _ Hkept)) as Hcap.
    assert (Hn : need p m r tokens comp total =
      Z.max 0 (cdiv (with_speculative_blocks m tokens) (block_size m)
               - len (computed_row m comp total)) + evictable p (kept m comp total)).
    { unfold need. rewrite Hk, Hget, kept_from, len_computed_row. unfold skip_blocks.
      change (len (@nil loc)) with 0. rewrite !Z.sub_0_r. pose proof (len_nonneg comp).
      f_equal; lia. }
    rewrite Hn in *.
    destruct (base_allocate_new_computed_blocks_ok p m fr es r comp local ext Hs Hk Hget Hh)
      as (p' & m' & Hrun & Hs' & Hst & Hm & Hget' & Hnc & Hhash & Href); [fold total; lia|].
    fold total in Hrun, Hs', Hget', Hnc.
    eexists p', m', _. split; [exact Hrun|]. split; [exact Hs'|]. split; [done|].
    split; [done|]. split; [eauto|]. split; [done|]. split.
    + intros H0. apply Hhash. unfold external_blocks. rewrite H0.
      destruct (decide (0 < skip_blocks _ _)); rewrite decide_False by lia; done.
    + unfold missing. rewrite Hget', (sm_bs _ _ _ Hm). 
      assert (Hsame : with_speculative_blocks m' tokens = with_speculative_blocks m tokens)
        by (unfold with_speculative_blocks; by rewrite (sm_spec _ _ _ Hm)).
      rewrite Hsame, len_app. set (fr1 := filter (λ a, a ∉ kept m comp total) fr) in *.
      assert (len (take (Z.to_nat (external_blocks m comp local ext)) fr1) =
              external_blocks m comp local ext).
      { unfold len in *. rewrite length_take. lia. }
      assert (len (drop (Z.to_nat (external_blocks m comp local ext)) fr1) =
              len fr1 - external_blocks m comp local ext).
      { unfold len in *. rewrite length_drop. lia. }
      lia.
Qed.

Definition sumz (l : list Z) : Z := foldr Z.add 0 l.

Lemma sumz_app l1 l2 : sumz (l1 ++ l2) = sumz l1 + sumz l2.
Proof. induction l1 as [|x l1 IH]; simpl; [done|]. rewrite IH. lia. Qed.
Lemma foldl_add l : ∀ x, foldl Z.add x l = x + sumz l.
Proof. induction l as [|y l IH]; intros x; simpl; [lia|]. rewrite IH. lia. Qed.
Lemma sumz_nonneg l : (∀ x, x ∈ l → 0 ≤ x) → 0 ≤ sumz l.
Proof.
  induction l as [|x l IH]; intros Hl; simpl; [lia|]. assert (0 ≤ x) by (apply Hl; by left).
  assert (0 ≤ sumz l) by (apply IH; intros; apply Hl; by right). lia.
Qed.

Lemma evictable_mono p p' l :
  (∀ a, a ∈ l → a ≠ 0%nat → 0 ≤ ref p a ≤ ref p' a) → evictable p' l ≤ evictable p l.
Proof.
  unfold evictable. induction l as [|x l IH]; intros Hl; [done|].
  assert (Ht : evictable p' l ≤ evictable p l) by (apply IH; intros; apply Hl; [by right|done]).
  unfold evictable in Ht. destruct (decide (ref p' x = 0 ∧ x ≠ 0%nat)) as [[Hr H0]|Hc].
  - assert (0 ≤ ref p x ≤ ref p' x) by (apply Hl; [by left|done]).
    rewrite !filter_cons_True, !len_cons by lia. lia.
  - rewrite (filter_cons_False (λ a, ref p' a = 0 ∧ a ≠ 0%nat)) by done.
    destruct (decide (ref p x = 0 ∧ x ≠ 0%nat)).
    + rewrite filter_cons_True, len_cons by done. lia.
    + rewrite filter_cons_False by done. lia.
Qed.

Lemma need_mono p p' m r tokens comp total :
  (∀ a, a ∈ comp → a ≠ 0%nat → 0 ≤ ref p a ≤ ref p' a) →
  need p' m r tokens comp total ≤ need p m r tokens comp total.
Proof.
  intros Hr. unfold need. destruct (num_cached_block m !! r); [lia|].
  assert (evictable p' (py_from comp (Z.max 0 (get_num_skipped_tokens m total / block_size m - len (mget m r))))
    ≤ evictable p (py_from comp (Z.max 0 (get_num_skipped_tokens m total / block_size m - len (mget m r)))));
    [|lia].
  apply evictable_mono. intros a Ha%py_from_sub. by apply Hr.
Qed.

Lemma need_nonneg p m r tokens comp total : 0 ≤ need p m r tokens comp total.
Proof.
  unfold need. destruct (num_cached_block m !! r); [lia|]. unfold evictable.
  pose proof (len_nonneg (filter (λ a, ref p a = 0 ∧ a ≠ 0%nat) (py_from comp
    (Z.max 0 (get_num_skipped_tokens m total / block_size m - len (mget m r)))))). lia.
Qed.

Lemma zip_with_snoc {A B C} (f : A → B → C) l : ∀ k x y,
  k !! length l = Some y → zip_with f (l ++ [x]) k = zip_with f l k ++ [f x y].
Proof.
  induction l as [|z l IH]; intros [|w k] x y Hk; simpl in *; try done.
  - by injection Hk as ->.
  - by rewrite (IH _ _ _ Hk).
Qed.

Section allocation.
Context (c : Coordinator) (fr0 : list loc) (r : string) (tokens local ext : Z).
Context (comps : list (list loc)).
Let p0 := block_pool c.
Let ms0 := single_type_managers c.

Record request_ok : Prop := {
  rq_inv : cinv c fr0;
  rq_cross : ∀ m, m ∈ ms0 → manager_class m ≠ CrossAttentionManager;
  rq_spec : ∀ m, m ∈ ms0 → spec_ok (m_kv_cache_spec m);
  rq_comps : length comps = length ms0;
  rq_local : 0 ≤ local;
  rq_ext : 0 ≤ ext;
  rq_tokens : local + ext ≤ tokens;
  (** see [external_allocation_steals_hit] *)
  rq_single : ext = 0 ∨ length ms0 = 1%nat
}.

Definition needs : list Z :=
  zip_with (λ m comp, need p0 m r tokens comp (local + ext)) ms0 comps.

Lemma hits_ok_same p p' comp :
  same_static p p' → (∀ a, hash p' a = hash p a) → hits_ok p comp → hits_ok p' comp.
Proof.
  intros Hs Hh [H1 H2 H3 H4]. split.
  - by rewrite (ss_blocks _ _ Hs).
  - done.
  - intros a Ha. rewrite Hh. auto.
  - by rewrite (ss_caching _ _ Hs).
Qed.

Lemma c_get_num_blocks_to_allocate_ok enc :
  request_ok → (∀ i m comp, ms0 !! i = Some m → comps !! i = Some comp →
    (∀ a, a ∈ comp → (a < length (blocks p0))%nat) ∧
    (is_Some (num_cached_block m !! r) → comp = [])) →
  c_get_num_blocks_to_allocate r tokens comps enc (local + ext) c = (Ok (sumz needs), c).
Proof.
  intros Hrq Hpre. unfold c_get_num_blocks_to_allocate.
  destruct (each_manager_ok (λ i,
    let* cross := is_cross in
    if cross : bool then get_num_blocks_to_allocate r enc [] 0
    else let* blks := group_blocks comps i in
         get_num_blocks_to_allocate r tokens blks (local + ext))
    (λ ms1 ms2 p fr acc, ms0 = ms1 ++ ms2 ∧ p = p0 ∧
       acc = zip_with (λ m comp, need p0 m r tokens comp (local + ext)) ms1 comps))
    with (c := c) (fr := fr0) as (l & p' & ms' & fr' & Hrun & _ & _ & Hms & -> & ->).
  - intros ms1 m ms2 p fr acc (Hms & -> & ->) Hs.
    assert (Hi : ms0 !! length ms1 = Some m) by (rewrite Hms; by apply list_lookup_middle).
    destruct (lookup_lt_is_Some_2 comps (length ms1)) as [comp Hcomp].
    { rewrite (rq_comps Hrq), Hms, length_app. simpl. lia. }
    destruct (Hpre _ _ _ Hi Hcomp) as [Hrange Hnone].
    exists (need p0 m r tokens comp (local + ext)), p0, m, fr.
    unfold is_cross. rewrite bind_this.
    rewrite bool_decide_false by (apply (rq_cross Hrq); rewrite Hms; set_solver +).
    unfold group_blocks. rewrite Hcomp.
    split; [by eapply get_num_blocks_to_allocate_ok|]. split; [done|]. split; [done|].
    rewrite <- app_assoc. split; [done|]. split; [done|].
    by rewrite (zip_with_snoc _ _ _ _ _ Hcomp).
  - apply Hrq.
  - done.
  - rewrite (bind_ok _ _ _ _ _ Hrun). rewrite app_nil_r in Hms. rewrite foldl_add, <- Hms.
    unfold ret. f_equal. apply with_state_id.
Qed.

(** What the first phase leaves for the second. *)
Definition all_missing (ms : list Manager) : Z := sumz (map (λ m, missing m r tokens) ms).

Lemma all_missing_nonneg ms : 0 ≤ all_missing ms.
Proof.
  apply sumz_nonneg. intros x (m & -> & _)%list_elem_of_fmap. unfold missing. lia.
Qed.

Lemma all_missing_same ms ms' :
  ms' = ms → all_missing ms' = all_missing ms.
Proof. by intros ->. Qed.

Lemma c_allocate_new_computed_blocks_ok :
  request_ok →
  (∀ i m comp, ms0 !! i = Some m → comps !! i = Some comp → ready p0 m r comp local) →
  sumz needs ≤ len fr0 →
  ∃ p' ms' fr', c_allocate_new_computed_blocks r comps local ext c =
      (Ok tt, with_state c p' ms') ∧ cinv (with_state c p' ms') fr' ∧ same_static p0 p' ∧
    Forall2 (same_manager r) ms0 ms' ∧ all_missing ms' ≤ len fr' ∧
    (∀ m, m ∈ ms' → ∃ k, num_cached_block m !! r = Some k).
Proof.
  intros Hrq Hready Hneed. unfold c_allocate_new_computed_blocks.
  destruct (each_manager_ok (λ i,
    let* blks := group_blocks comps i in
    allocate_new_computed_blocks r blks local ext)
    (λ ms1 ms2 p fr acc, drop (length ms1) ms0 = ms2 ∧
       Forall2 (same_manager r) (take (length ms1) ms0) ms1 ∧
       (∀ m, m ∈ ms1 → ∃ k, num_cached_block m !! r = Some k) ∧
       same_static p0 p ∧ (∀ a, ref p0 a ≤ ref p a) ∧
       (ext = 0 ∨ ms1 = [] → ∀ a, hash p a = hash p0 a) ∧
       all_missing ms1 + sumz (zip_with (λ m comp, need p0 m r tokens comp (local + ext)) ms2
                                 (drop (length ms1) comps)) ≤ len fr))
    with (c := c) (fr := fr0) as (l & p' & ms' & fr' & Hrun & Hc' & Hst & Hend & Hf & Hk & _ & _ & _ & Hcap).
  - intros ms1 m ms2 p fr acc (Hms & Hf & Hk & Hst & Href & Hhash & Hcap) Hs.
    assert (Hi : ms0 !! length ms1 = Some m).
    { rewrite <- (Nat.add_0_r (length ms1)), <- lookup_drop, Hms. done. }
    pose proof (lookup_lt_Some _ _ _ Hi) as Hlt.
    destruct (lookup_lt_is_Some_2 comps (length ms1)) as [comp Hcomp]; [by rewrite (rq_comps Hrq)|].
    assert (Hh : ∀ a, hash p a = hash p0 a).
    { apply Hhash. destruct (rq_single Hrq) as [?|H1]; [by left|right].
      apply length_zero_iff_nil. lia. }
    pose proof (Hready _ _ _ Hi Hcomp) as Hrd.
    assert (Hrd' : ready p m r comp local).
    { destruct Hrd as [k Hk' Hc|Hk' Hg Hho Hl]; [by eapply ready_running|].
      eapply ready_new; [done|done| |done]. by eapply hits_ok_same. }
    assert (Hin : m ∈ ms0) by by eapply list_elem_of_lookup_2.
    assert (Hneed1 : need p m r tokens comp (local + ext) ≤ need p0 m r tokens comp (local + ext)).
    { apply need_mono. intros a Ha Ha0. split; [|apply Href].
      destruct Hrd as [k _ ->|_ _ Hho _]; [by apply not_elem_of_nil in Ha|].
      pose proof (ho_range _ _ Hho a Ha) as Hra.
      apply (wd_ref _ _ _ _ (pw_data _ _ (gi_pool _ _ _ (ci_ginv _ _ (rq_inv Hrq)))) a).
      split; [lia|exact Hra]. }
    rewrite (drop_S _ _ _ Hcomp) in Hcap. simpl in Hcap.
    pose proof (all_missing_nonneg ms1).
    assert (0 ≤ sumz (zip_with (λ m comp, need p0 m r tokens comp (local + ext)) ms2
                        (drop (S (length ms1)) comps))) as Hnn.
    { apply sumz_nonneg. intros x Hx. apply elem_of_lookup_zip_with_1 in Hx as (? & ? & ? & -> & _).
      apply need_nonneg. }
    destruct (allocate_new_computed_blocks_ok p m fr _ r comp local ext tokens Hs)
      as (p' & m' & fr' & Hrun & Hs' & Hst' & Hm' & Hk' & Href' & Hhash' & Hcap');
      [by apply (rq_cross Hrq)|by apply (rq_spec Hrq)|done|apply Hrq|apply Hrq|apply Hrq|lia|].
    exists tt, p', m', fr'. unfold group_blocks. rewrite Hcomp.
    split; [exact Hrun|]. split; [done|]. split; [done|].
    rewrite length_app, Nat.add_1_r. split; [|split; [|split; [|split; [|split; [|split]]]]].
    + erewrite drop_S in Hms by done. by injection Hms.
    + erewrite take_S_r by done. apply Forall2_app; [done|]. by constructor.
    + intros x [Hx| ->%list_elem_of_singleton]%elem_of_app; [by apply Hk|done].
    + by etrans.
    + intros a. etrans; [apply Href|apply Href'].
    + intros [H0|Hnil]; [|by destruct ms1]. intros a. by rewrite Hhash', Hh.
    + unfold all_missing. rewrite map_app, sumz_app. simpl. unfold all_missing in Hcap. lia.
  - apply Hrq.
  - simpl. rewrite !drop_0. split; [done|]. split; [constructor|].
    split; [intros m Hm; by apply not_elem_of_nil in Hm|]. split; [done|].
    split; [done|]. split; [done|]. exact Hneed.
  - rewrite (bind_ok _ _ _ _ _ Hrun). exists p', ms', fr'.
    split; [done|]. split; [done|]. split; [done|].
    assert (Hlen : (length ms0 ≤ length ms')%nat).
    { pose proof (f_equal length Hend) as Hl. rewrite length_drop in Hl. simpl in Hl. lia. }
    rewrite take_ge in Hf by done. split; [done|]. split; [|done]. simpl in Hcap. lia.
Qed.
End allocation.

(** ** The second phase, caching, and the removal of skipped blocks *)

Definition enough_slots (tokens : Z) r m : Prop :=
  cdiv (with_speculative_blocks m tokens) (block_size m) ≤ len (mget m r).

Lemma enough_slots_tokens tokens r m :
  0 < block_size m → spec_ok (m_kv_cache_spec m) → enough_slots tokens r m →
  tokens ≤ len (mget m r) * block_size m.
Proof.
  intros Hbs Hsp Hs. unfold enough_slots in Hs. pose proof (with_speculative_le m tokens Hsp).
  apply cdiv_le_iff in Hs; [|done]. lia.
Qed.

Lemma c_allocate_new_blocks_ok c fr r tokens enc :
  cinv c fr → (∀ m, m ∈ single_type_managers c → manager_class m ≠ CrossAttentionManager) →
  all_missing r tokens (single_type_managers c) ≤ len fr →
  ∃ news p' ms' fr', c_allocate_new_blocks r tokens enc c = (Ok news, with_state c p' ms') ∧
    cinv (with_state c p' ms') fr' ∧ same_static (block_pool c) p' ∧
    Forall2 (same_manager r) (single_type_managers c) ms' ∧
    (∀ m, m ∈ ms' → enough_slots tokens r m) ∧
    Forall2 (λ m m', num_cached_block m' = num_cached_block m) (single_type_managers c) ms' ∧
    (∀ i m m' new, single_type_managers c !! i = Some m → ms' !! i = Some m' →
       news !! i = Some new → mget m' r = mget m r ++ new) ∧
    length news = length ms' ∧
    ∃ k, fr = concat news ++ k ∧ fr' = k.
Proof.
  intros Hc Hcross Hcap. unfold c_allocate_new_blocks. set (ms0 := single_type_managers c) in *.
  destruct (each_manager_ok (λ _,
    let* cross := is_cross in
    allocate_new_blocks r (if cross : bool then enc else tokens))
    (λ ms1 ms2 p f1 acc, drop (length ms1) ms0 = ms2 ∧
       Forall2 (same_manager r) (take (length ms1) ms0) ms1 ∧
       (∀ m, m ∈ ms1 → enough_slots tokens r m) ∧
       Forall2 (λ m m', num_cached_block m' = num_cached_block m) (take (length ms1) ms0) ms1 ∧
       (∀ i m m' new, ms0 !! i = Some m → ms1 !! i = Some m' → acc !! i = Some new →
          mget m' r = mget m r ++ new) ∧
       length acc = length ms1 ∧
       all_missing r tokens ms2 ≤ len f1 ∧ fr = concat acc ++ f1))
    with (c := c) (fr := fr)
    as (news & p' & ms' & fr' & Hrun & Hc' & Hst & Hend & Hf & Hen & Hnc & Hget & Hlen & _ & Hfr).
  - intros ms1 m ms2 p f1 acc (Hms & Hf & Hen & Hnc & Hget & Hlen & Hm & Hfr) Hs.
    assert (Hi : ms0 !! length ms1 = Some m).
    { rewrite <- (Nat.add_0_r (length ms1)), <- lookup_drop, Hms. done. }
    assert (Hin : m ∈ ms0) by by eapply list_elem_of_lookup_2.
    unfold all_missing in Hm. simpl in Hm. fold (all_missing r tokens ms2) in Hm.
    pose proof (all_missing_nonneg r tokens ms2) as Hnn.
    destruct (allocate_new_blocks_ok p m f1 _ r tokens Hs)
      as (p' & m' & new & Hrun & Hs' & Hst' & Hm' & Hnc' & Hnew & Hget');
      [unfold missing in Hm; lia|].
    exists new, p', m', (drop (Z.to_nat (cdiv (with_speculative_blocks m tokens) (block_size m) - len (mget m r))) f1).
    unfold is_cross. rewrite bind_this, bool_decide_false by by apply Hcross.
    split; [exact Hrun|]. split; [done|]. split; [done|]. rewrite length_app, Nat.add_1_r.
    assert (Hg : mget m' r = mget m r ++ new) by (unfold mget at 1; by rewrite Hget').
    assert (Hnl : len new = Z.max 0 (cdiv (with_speculative_blocks m tokens) (block_size m) - len (mget m r))).
    { unfold missing in Hm. rewrite Hnew. unfold len in *. rewrite length_take. lia. }
    split; [|split; [|split; [|split; [|split; [|split; [|split]]]]]].
    + erewrite drop_S in Hms by done. by injection Hms.
    + erewrite take_S_r by done. apply Forall2_app; [done|]. by constructor.
    + intros x [Hx| ->%list_elem_of_singleton]%elem_of_app; [by apply Hen|].
      unfold enough_slots. rewrite Hg, len_app, (sm_bs _ _ _ Hm'). 
      assert (with_speculative_blocks m' tokens = with_speculative_blocks m tokens) as ->
        by (unfold with_speculative_blocks; by rewrite (sm_spec _ _ _ Hm')). lia.
    + erewrite take_S_r by done. apply Forall2_app; [done|]. by constructor.
    + intros i x x' nw Hx Hx' Hnw. destruct (decide (i < length ms1)%nat).
      * rewrite lookup_app_l in Hx' by lia. rewrite lookup_app_l in Hnw by lia. by eapply Hget.
      * pose proof (lookup_lt_Some _ _ _ Hx') as Hlt. rewrite length_app in Hlt. simpl in Hlt.
        assert (i = length ms1) as -> by lia.
        rewrite list_lookup_middle in Hx' by done. injection Hx' as <-.
        rewrite list_lookup_middle in Hnw by done. injection Hnw as <-. congruence.
    + rewrite length_app, Hlen. simpl. lia.
    + unfold missing in Hm. unfold len in *. rewrite length_drop. lia.
    + rewrite concat_app. simpl. rewrite app_nil_r, <- app_assoc, Hnew, take_drop. done.
  - done.
  - simpl. rewrite drop_0. split; [done|]. split; [constructor|].
    split; [intros m Hm; by apply not_elem_of_nil in Hm|]. split; [constructor|].
    split; [intros i m m' new _ Hm'; done|]. done.
  - exists news, p', ms', fr'. split; [done|]. split; [done|]. split; [done|].
    assert (Hlen' : (length ms0 ≤ length ms')%nat).
    { pose proof (f_equal length Hend) as Hl. rewrite length_drop in Hl. simpl in Hl. lia. }
    rewrite take_ge in Hf, Hnc by done. split_and!; try done. by exists fr'.
Qed.

Lemma cache_blocks_base m (rq : Request) tokens p :
  manager_class m ≠ CrossAttentionManager →
  cache_blocks rq tokens (p, m) = base_cache_blocks rq tokens (p, m).
Proof.
  intros Hc. unfold cache_blocks. rewrite bind_this. by destruct (manager_class m).
Qed.

(** What a manager needs to cache the request's blocks up to [tokens]. *)
Definition cacheable_upto (p : BlockPool) (rq : Request) (tokens : Z) m : Prop :=
  mcached m (request_id rq) < tokens / block_size m →
  enable_caching p = true ∧ tokens / block_size m ≤ len (mget m (request_id rq)) ∧
  tokens / block_size m ≤
    view_len (hash_view (hash_block_size p) (block_size m) (block_hashes rq)).

Lemma c_cache_blocks_ok c fr (rq : Request) tokens (r := request_id rq) :
  cinv c fr → (∀ m, m ∈ single_type_managers c → manager_class m ≠ CrossAttentionManager) →
  (∀ m, m ∈ single_type_managers c → cacheable_upto (block_pool c) rq tokens m) →
  ∃ p' ms', c_cache_blocks rq tokens c = (Ok tt, with_state c p' ms') ∧
    cinv (with_state c p' ms') fr ∧ same_static (block_pool c) p' ∧
    Forall2 (λ m m', same_manager r m m' ∧ mget m' r = mget m r ∧
       mcached m' r = Z.max (tokens / block_size m) (mcached m r)) (single_type_managers c) ms'.
Proof.
  intros Hc Hcross Hca. unfold c_cache_blocks. set (ms0 := single_type_managers c) in *.
  destruct (each_manager_ok (λ _, cache_blocks rq tokens)
    (λ ms1 ms2 p f1 acc, drop (length ms1) ms0 = ms2 ∧ f1 = fr ∧ same_static (block_pool c) p ∧
       Forall2 (λ m m', same_manager r m m' ∧ mget m' r = mget m r ∧
         mcached m' r = Z.max (tokens / block_size m) (mcached m r)) (take (length ms1) ms0) ms1))
    with (c := c) (fr := fr) as (l & p' & ms' & fr' & Hrun & Hc' & Hst & Hend & -> & _ & Hf).
  - intros ms1 m ms2 p f1 acc (Hms & -> & Hst & Hf) Hs.
    assert (Hi : ms0 !! length ms1 = Some m).
    { rewrite <- (Nat.add_0_r (length ms1)), <- lookup_drop, Hms. done. }
    assert (Hin : m ∈ ms0) by by eapply list_elem_of_lookup_2.
    destruct (base_cache_blocks_ok p m fr _ rq tokens Hs)
      as (p' & m' & Hrun & Hs' & Hst' & Hm' & Hg & Hk & _).
    { rewrite (ss_caching _ _ Hst), (ss_hash_size _ _ Hst). by apply Hca. }
    exists tt, p', m', fr. rewrite cache_blocks_base by by apply Hcross.
    split; [exact Hrun|]. split; [done|]. split; [done|].
    rewrite length_app, Nat.add_1_r. split; [|split; [done|split; [by etrans|]]].
    + erewrite drop_S in Hms by done. by injection Hms.
    + erewrite take_S_r by done. apply Forall2_app; [done|]. by constructor.
  - done.
  - simpl. rewrite drop_0. split; [done|]. split; [done|]. split; [done|]. constructor.
  - rewrite (bind_ok _ _ _ _ _ Hrun). exists p', ms'.
    split; [done|]. split; [done|]. split; [done|].
    assert (Hlen' : (length ms0 ≤ length ms')%nat).
    { pose proof (f_equal length Hend) as Hl. rewrite length_drop in Hl. simpl in Hl. lia. }
    by rewrite take_ge in Hf by done.
Qed.

(** [m'] is [m] after its skipped blocks were removed. *)
Record skipped_removed r (total : Z) m m' : Prop := {
  sr_same : same_manager r m m';
  sr_cached : num_cached_block m' = num_cached_block m;
  sr_len : len (mget m' r) = len (mget m r);
  sr_kept : ∀ i : nat, get_num_skipped_tokens m total / block_size m ≤ Z.of_nat i →
              mget m' r !! i = mget m r !! i;
  sr_only : ∀ i a, mget m' r !! i = Some a → a = 0%nat ∨ mget m r !! i = Some a
}.

Lemma c_remove_skipped_blocks_ok c fr r total :
  cinv c fr →
  ∃ p' ms' extra, c_remove_skipped_blocks r total c = (Ok tt, with_state c p' ms') ∧
    cinv (with_state c p' ms') (fr ++ extra) ∧ same_static (block_pool c) p' ∧
    (∀ a, hash p' a = hash (block_pool c) a) ∧
    Forall2 (skipped_removed r total) (single_type_managers c) ms'.
Proof.
  intros Hc. unfold c_remove_skipped_blocks. set (ms0 := single_type_managers c) in *.
  destruct (each_manager_ok (λ _, remove_skipped_blocks r total)
    (λ ms1 ms2 p f1 acc, drop (length ms1) ms0 = ms2 ∧ fr `prefix_of` f1 ∧
       (∀ a, hash p a = hash (block_pool c) a) ∧
       Forall2 (skipped_removed r total) (take (length ms1) ms0) ms1))
    with (c := c) (fr := fr) as (l & p' & ms' & fr' & Hrun & Hc' & Hst & Hend & [ex ->] & Hh & Hf).
  - intros ms1 m ms2 p f1 acc (Hms & Hpre & Hh & Hf) Hs.
    assert (Hi : ms0 !! length ms1 = Some m).
    { rewrite <- (Nat.add_0_r (length ms1)), <- lookup_drop, Hms. done. }
    destruct (remove_skipped_blocks_ok p m f1 _ r total Hs)
      as (p' & m' & extra & Hrun & Hs' & Hst' & Hm' & Hk & Hl & Hh' & Hkeep & Honly).
    exists tt, p', m', (f1 ++ extra). split; [exact Hrun|]. split; [done|]. split; [done|].
    rewrite length_app, Nat.add_1_r. split; [|split; [|split]].
    + erewrite drop_S in Hms by done. by injection Hms.
    + etrans; [exact Hpre|]. by eexists.
    + intros a. by rewrite Hh'.
    + erewrite take_S_r by done. apply Forall2_app; [done|]. constructor; [|done]. by split.
  - done.
  - simpl. rewrite drop_0. split; [done|]. split; [done|]. split; [done|]. constructor.
  - rewrite (bind_ok _ _ _ _ _ Hrun). exists p', ms', ex.
    split; [done|]. split; [done|]. split; [done|]. split; [done|].
    assert (Hlen' : (length ms0 ≤ length ms')%nat).
    { pose proof (f_equal length Hend) as Hl. rewrite length_drop in Hl. simpl in Hl. lia. }
    by rewrite take_ge in Hf by done.
Qed.
