(* ===== verification/KVCacheManager.v ===== *)
(** The KV cache manager (vllm/v1/core/kv_cache_manager.py): the interface of
    the scheduler to the KV cache. *)

From S2P Require Import Prelude.
From S2P Require Import KVBlocks.
From S2P Require Import Request.
From S2P Require Import BlockHash.
From S2P Require Import KVCacheMetrics.
From S2P Require Import BlockPool.
From S2P Require Import KVCacheInterface.
From S2P Require Import SingleTypeManagers.
From S2P Require Import Coordinator.

(** [KVCacheBlocks]; [shared_empty] marks the pre-constructed
    [empty_kv_cache_blocks], which [allocate_slots] recognises by identity. *)
Record KVCacheBlocks := mkBlocks {
  kb_blocks : list (list loc);
  shared_empty : bool
}.

(** [__add__] *)
Definition KVCacheBlocks_add (a b : KVCacheBlocks) : KVCacheBlocks :=
  mkBlocks (zip_with app (kb_blocks a) (kb_blocks b)) false.
(** [new_empty] *)
Definition new_empty (a : KVCacheBlocks) : KVCacheBlocks :=
  mkBlocks (map (λ _, []) (kb_blocks a)) false.
Definition get_block_ids (allow_none : bool) (a : KVCacheBlocks)
    : M BlockPool (option (list (list Z))) :=
  if allow_none && forallb (λ g, bool_decide (g = [])) (kb_blocks a) then ret None
  else
    let* ids := mapM (λ g, mapM (λ l, let* b := block l in ret (block_id b)) g) (kb_blocks a) in
    ret (Some ids).
Definition get_unhashed_block_ids (a : KVCacheBlocks) : M BlockPool (list Z) :=
  match kb_blocks a with
  | [g] =>
      let* l := mapM (λ l, let* b := block l in
                           ret (if bool_decide (_block_hash b = None) then [block_id b] else []))
                  g in
      ret (concat l)
  | _ => raise AssertionError
  end.

(** [PrefixCacheStats] (vllm/v1/metrics/stats.py) *)
Record PrefixCacheStats := mkStats {
  stats_reset : bool;
  requests : Z;
  queries : Z;
  hits : Z;
  preempted_requests : Z;
  preempted_queries : Z;
  preempted_hits : Z
}.
Definition PrefixCacheStats_init : PrefixCacheStats := mkStats false 0 0 0 0 0 0.
Definition record (num_tokens num_hits : Z) (preempted : bool) (s : PrefixCacheStats)
    : PrefixCacheStats :=
  if preempted then
    mkStats (stats_reset s) (requests s) (queries s) (hits s) (preempted_requests s + 1)
      (preempted_queries s + num_tokens) (preempted_hits s + num_hits)
  else
    mkStats (stats_reset s) (requests s + 1) (queries s + num_tokens) (hits s + num_hits)
      (preempted_requests s) (preempted_queries s) (preempted_hits s).
Definition set_stats_reset (s : PrefixCacheStats) : PrefixCacheStats :=
  mkStats true (requests s) (queries s) (hits s) (preempted_requests s) (preempted_queries s)
    (preempted_hits s).

Record KVCacheManager := mkKVManager {
  coordinator : Coordinator;
  max_model_len : Z;
  kv_enable_caching : bool;
  log_stats : bool;
  prefix_cache_stats : option PrefixCacheStats;
  num_kv_cache_groups : nat
}.

Definition KVCacheManager_eta (m : KVCacheManager) : KVCacheManager :=
  mkKVManager (coordinator m) (max_model_len m) (kv_enable_caching m) (log_stats m)
    (prefix_cache_stats m) (num_kv_cache_groups m).
Definition set_coordinator (v : Coordinator) : KVCacheManager → KVCacheManager :=
  ltac:(record_set KVCacheManager_eta coordinator v).
Definition set_prefix_cache_stats (v : option PrefixCacheStats)
    : KVCacheManager → KVCacheManager :=
  ltac:(record_set KVCacheManager_eta prefix_cache_stats v).

Definition in_coordinator {A} (m : M Coordinator A) : M KVCacheManager A :=
  zoom coordinator set_coordinator m.
Definition in_block_pool {A} (m : M BlockPool A) : M KVCacheManager A :=
  in_coordinator (in_pool m).

Definition KVCacheManager_init (config : KVCacheConfig) (max_len hash_block_size : Z)
    (caching use_eagle log events ih : bool) (dcp pcp : Z)
    (mc : option KVCacheMetricsCollector) : res KVCacheManager :=
  match get_kv_cache_coordinator config use_eagle caching events ih dcp pcp hash_block_size mc with
  | Raise e => Raise e
  | Ok c =>
      Ok (mkKVManager c max_len caching log
            (if log then Some PrefixCacheStats_init else None)
            (length (kv_cache_groups config)))
  end.

Definition empty_kv_cache_blocks (m : KVCacheManager) : KVCacheBlocks :=
  mkBlocks (replicate (num_kv_cache_groups m) []) true.

(** [any(blocks)]: some group has a block. *)
Definition create_kv_cache_blocks (blks : list (list loc)) (m : KVCacheManager) : KVCacheBlocks :=
  if existsb (λ g, negb (bool_decide (g = []))) blks then mkBlocks blks false
  else empty_kv_cache_blocks m.

Definition usage (m : KVCacheManager) : Z * Z := get_usage (block_pool (coordinator m)).

Definition make_prefix_cache_stats : M KVCacheManager (option PrefixCacheStats) :=
  let* m := get in
  if negb (log_stats m) then ret None
  else modify (set_prefix_cache_stats (Some PrefixCacheStats_init)) ;;;
       ret (prefix_cache_stats m).

Definition get_computed_blocks (request : Request) : M KVCacheManager (KVCacheBlocks * Z) :=
  let* m := get in
  if negb (kv_enable_caching m) || skip_reading_prefix_cache request then
    ret (empty_kv_cache_blocks m, 0)
  else
    let max_cache_hit_length := num_tokens request - 1 in
    let* r := in_coordinator
      (c_find_longest_cache_hit (block_hashes request) max_cache_hit_length) in
    let '(computed_blocks, num_new_computed_tokens) := r in
    (if log_stats m then
       let* stats := of_option AssertionError (prefix_cache_stats m) in
       modify (set_prefix_cache_stats (Some (record (num_tokens request)
         num_new_computed_tokens (0 <? num_preemptions request) stats)))
     else ret tt) ;;;
    ret (create_kv_cache_blocks computed_blocks m, num_new_computed_tokens).

Definition allocate_slots (request : Request) (num_new_tokens num_new_computed_tokens : Z)
    (new_computed_blocks : option KVCacheBlocks)
    (num_lookahead_tokens num_external_computed_tokens : Z) (delay_cache_blocks : bool)
    (num_encoder_tokens : Z) : M KVCacheManager (option KVCacheBlocks) :=
  if decide (num_new_tokens = 0 ∧ num_external_computed_tokens = 0) then raise ValueError else
  let* m := get in
  let new_computed_block_list := default (empty_kv_cache_blocks m) new_computed_blocks in
  let num_local_computed_tokens := num_computed_tokens request + num_new_computed_tokens in
  let total_computed_tokens :=
    Z.min (num_local_computed_tokens + num_external_computed_tokens) (max_model_len m) in
  let num_tokens_need_slot :=
    Z.min (total_computed_tokens + num_new_tokens + num_lookahead_tokens) (max_model_len m) in
  in_coordinator (c_remove_skipped_blocks (request_id request) total_computed_tokens) ;;;
  let* num_blocks_to_allocate := in_coordinator
    (c_get_num_blocks_to_allocate (request_id request) num_tokens_need_slot
       (kb_blocks new_computed_block_list) num_encoder_tokens
       (num_local_computed_tokens + num_external_computed_tokens)) in
  let* free_blocks := gets (λ m, get_num_free_blocks (block_pool (coordinator m))) in
  if decide (free_blocks < num_blocks_to_allocate) then ret None else
  (if negb (shared_empty new_computed_block_list)
      || bool_decide (0 < num_external_computed_tokens)
   then in_coordinator (c_allocate_new_computed_blocks (request_id request)
          (kb_blocks new_computed_block_list) num_local_computed_tokens
          num_external_computed_tokens)
   else ret tt) ;;;
  let* new_blocks := in_coordinator
    (c_allocate_new_blocks (request_id request) num_tokens_need_slot num_encoder_tokens) in
  if negb (kv_enable_caching m) || delay_cache_blocks then
    ret (Some (create_kv_cache_blocks new_blocks m))
  else
    let num_tokens_to_cache :=
      Z.min (total_computed_tokens + num_new_tokens) (num_tokens request) in
    in_coordinator (c_cache_blocks request num_tokens_to_cache) ;;;
    ret (Some (create_kv_cache_blocks new_blocks m)).

Definition kv_free (request : Request) : M KVCacheManager unit :=
  in_coordinator (c_free (request_id request)).

Definition kv_remove_skipped_blocks (request_id : string) (total_computed_tokens : Z)
    : M KVCacheManager unit :=
  in_coordinator (c_remove_skipped_blocks request_id total_computed_tokens).

Definition kv_evict_blocks (block_ids : list Z) : M KVCacheManager unit :=
  in_block_pool (evict_blocks block_ids).

Definition kv_reset_prefix_cache : M KVCacheManager bool :=
  let* r := in_block_pool reset_prefix_cache in
  if negb r then ret false
  else
    let* m := get in
    (if log_stats m then
       let* stats := of_option AssertionError (prefix_cache_stats m) in
       modify (set_prefix_cache_stats (Some (set_stats_reset stats)))
     else ret tt) ;;;
    ret true.

Definition kv_get_num_common_prefix_blocks (running_request_id : string)
    : M KVCacheManager (list Z) :=
  in_coordinator (c_get_num_common_prefix_blocks running_request_id).

Definition kv_take_events : M KVCacheManager (list KVCacheEvent) :=
  in_block_pool take_kv_events.

Definition get_blocks (request_id : string) (m : KVCacheManager) : KVCacheBlocks :=
  create_kv_cache_blocks (c_get_blocks request_id (coordinator m)) m.

Definition kv_get_block_ids (request_id : string) : M KVCacheManager (list (list Z)) :=
  let* m := get in
  let* ids := in_block_pool (get_block_ids false (get_blocks request_id m)) in
  of_option TypeError ids.

Definition kv_cache_blocks (request : Request) (num_computed_tokens : Z)
    : M KVCacheManager unit :=
  let* m := get in
  if kv_enable_caching m then in_coordinator (c_cache_blocks request num_computed_tokens)
  else ret tt.

(** The metrics collector of the scheduler is the one of the block pool. *)
Definition drain_metrics : M BlockPool (list KVCacheEvictionEvent) :=
  let* p := get in
  match metrics_collector p with
  | None => ret []
  | Some c =>
      let '(evs, c) := drain_events c in
      modify (set_metrics (Some c)) ;;;
      ret evs
  end.
