(* ===== verification/KVCacheManagerSpec.v ===== *)
(** Correctness of the KV cache manager's allocation, for the calls that the
    scheduler makes ([slots_ok], [kv_reach]): [allocate_slots] does not raise, keeps the joint invariant of pool and block tables, and either
    gives the request enough slots or reports that there are too few blocks. *)

From S2P Require Import Prelude.
From S2P Require Import KVBlocks.
From S2P Require Import Request.
From S2P Require Import BlockHash.
From S2P Require Import KVCacheMetrics.
From S2P Require Import BlockPool.
From S2P Require Import BlockPoolSpec.
From S2P Require Import KVInvariant.
From S2P Require Import KVCacheInterface.
From S2P Require Import SingleTypeManagers.
From S2P Require Import ManagerSpec.
From S2P Require Import Coordinator.
From S2P Require Import CoordinatorSpec.
From S2P Require Import KVCacheManager.

Implicit Types (m : KVCacheManager).

Lemma in_coordinator_ok {A} (op : M Coordinator A) m a c' :
  op (coordinator m) = (Ok a, c') → in_coordinator op m = (Ok a, set_coordinator c' m).
Proof. intros H. unfold in_coordinator, zoom. by rewrite H. Qed.

Lemma bind_in_coordinator {A B} (op : M Coordinator A) m a c' (K : A → M KVCacheManager B) :
  op (coordinator m) = (Ok a, c') →
  bind (in_coordinator op) K m = K a (set_coordinator c' m).
Proof. intros H. by rewrite (bind_ok _ _ _ _ _ (in_coordinator_ok op m a c' H)). Qed.

Lemma view_covers h bs hashes (n t : Z) :
  0 < h ≤ bs → bs mod h = 0 → 0 ≤ t ≤ n → len hashes = n / h →
  t / bs ≤ view_len (hash_view h bs hashes).
Proof.
  intros Hh Hmod Ht Hlen. unfold hash_view. destruct (decide (bs = h)) as [->|Hne]; simpl.
  - rewrite Hlen. apply Z.div_le_mono; lia.
  - unfold hash_list_len. simpl. rewrite Hlen.
    apply Z.mod_divide in Hmod as [k Hk]; [|lia]. rewrite Hk, Z.div_mul by lia.
    rewrite Z.div_div by nia. rewrite (Z.mul_comm h k). apply Z.div_le_mono; nia.
Qed.

Lemma table_range c fr (x : Manager) r a :
  cinv c fr → x ∈ single_type_managers c → a ∈ mget x r → (a < length (blocks (block_pool c)))%nat.
Proof.
  intros [Hg _] Hx Ha. unfold mget in Ha.
  destruct (req_to_blocks x !! r) as [l|] eqn:Hl; [|by apply not_elem_of_nil in Ha].
  apply (eo_range _ _ (gi_entries _ _ _ Hg (l, mcached x r)
    ltac:(unfold centries; apply list_elem_of_bind; exists x; split; [|done];
          rewrite (mentries_split x r), Hl; set_solver +))). exact Ha.
Qed.

Lemma create_blocks_groups blks m g a :
  g ∈ kb_blocks (create_kv_cache_blocks blks m) → a ∈ g → g ∈ blks.
Proof.
  unfold create_kv_cache_blocks. destruct (existsb _ _); [done|]. simpl.
  intros [-> _]%elem_of_replicate Ha%not_elem_of_nil. done.
Qed.

(** What the scheduler guarantees when it asks for slots. *)
Section slots.
Context (m : KVCacheManager) (fr : list loc) (rq : Request).
Context (new nc : Z) (given : option KVCacheBlocks) (look ext : Z) (delay : bool) (enc : Z).
Let r := request_id rq.
Let p := block_pool (coordinator m).
Let ms := single_type_managers (coordinator m).
Definition given_blocks : KVCacheBlocks := default (empty_kv_cache_blocks m) given.
Let local := num_computed_tokens rq + nc.
(** Whether the hits, or external tokens, are added to the request. *)
Definition adds_hits : bool := negb (shared_empty given_blocks) || bool_decide (0 < ext).
(** The tokens that get slots. *)
Definition slot_tokens : Z :=
  Z.min (Z.min (local + ext) (max_model_len m) + new + look) (max_model_len m).

Record slots_ok : Prop := {
  sl_cross : ∀ x, x ∈ ms → manager_class x ≠ CrossAttentionManager;
  sl_spec : ∀ x, x ∈ ms → spec_ok (m_kv_cache_spec x);
  sl_groups : length (kb_blocks given_blocks) = length ms;
  sl_new : 0 ≤ new ∧ 0 ≤ nc ∧ 0 ≤ look ∧ 0 ≤ ext ∧ 0 ≤ num_computed_tokens rq;
  sl_some : new ≠ 0 ∨ ext ≠ 0;
  sl_len : local + ext ≤ max_model_len m ∧ num_tokens rq ≤ max_model_len m;
  sl_single : ext = 0 ∨ length ms = 1%nat;
  sl_ready : adds_hits = true → ∀ i x comp, ms !! i = Some x →
    kb_blocks given_blocks !! i = Some comp → ready p x r comp local;
  sl_running : adds_hits = false → ∀ i x comp, ms !! i = Some x →
    kb_blocks given_blocks !! i = Some comp →
    comp = [] ∧ (num_cached_block x !! r = None →
                 skip_blocks x local ≤ len (mget x r));
  sl_caching : kv_enable_caching m = enable_caching p;
  sl_hashes : len (block_hashes rq) = num_tokens rq / hash_block_size p
}.

Context (Hinv : cinv (coordinator m) fr).

Lemma slots_total_min : slots_ok → Z.min (local + ext) (max_model_len m) = local + ext.
Proof. intros Hs. destruct (sl_len Hs). lia. Qed.

Lemma slots_bounds : slots_ok → 0 ≤ local ∧ 0 ≤ ext ∧ local + ext ≤ slot_tokens.
Proof.
  intros Hs. unfold slot_tokens. destruct (sl_len Hs). destruct (sl_new Hs) as (? & ? & ? & ? & ?).
  unfold local in *. lia.
Qed.

(** After the skipped blocks were removed the guarantees still hold. *)
Lemma ready_removed p' x x' comp :
  same_static p p' → (∀ a, hash p' a = hash p a) → skipped_removed r (local + ext) x x' →
  ready p x r comp local → ready p' x' r comp local.
Proof.
  intros Hst Hh Hsr [k Hk ->|Hk Hg Hho Hl].
  - eapply ready_running; [by rewrite (sr_cached _ _ _ _ Hsr)|done].
  - eapply ready_new.
    + by rewrite (sr_cached _ _ _ _ Hsr).
    + pose proof (sr_len _ _ _ _ Hsr) as Hlen. rewrite Hg in Hlen. unfold len in Hlen. simpl in Hlen.
      apply length_zero_iff_nil. lia.
    + by eapply hits_ok_same.
    + by rewrite (sm_bs _ _ _ (sr_same _ _ _ _ Hsr)).
Qed.

Lemma sum_missing_le ms' comps p' tokens total :
  (∀ i x comp, ms' !! i = Some x → comps !! i = Some comp →
     missing x r tokens ≤ need p' x r tokens comp total) →
  length comps = length ms' →
  all_missing r tokens ms' ≤
    sumz (zip_with (λ x comp, need p' x r tokens comp total) ms' comps).
Proof.
  revert comps. induction ms' as [|x ms' IH]; intros [|comp comps] Hle Hlen; try done.
  unfold all_missing. simpl. assert (H0 := Hle 0%nat x comp eq_refl eq_refl).
  assert (all_missing r tokens ms' ≤
    sumz (zip_with (λ x comp, need p' x r tokens comp total) ms' comps)); [|unfold all_missing in *; lia].
  apply IH; [|by injection Hlen]. intros i y cy Hy Hcy. by apply (Hle (S i) y cy).
Qed.

Lemma missing_le_need p' x tokens total :
  0 < block_size x →
  (num_cached_block x !! r = None → skip_blocks x total ≤ len (mget x r)) →
  missing x r tokens ≤ need p' x r tokens [] total.
Proof.
  intros Hbs Hsk. unfold missing, need. destruct (num_cached_block x !! r); [lia|].
  specialize (Hsk eq_refl). unfold skip_blocks in Hsk.
  assert (evictable p' (py_from [] (Z.max 0 (get_num_skipped_tokens x total / block_size x - len (mget x r)))) = 0) as ->.
  { unfold py_from. by rewrite drop_nil. }
  change (len (@nil loc)) with 0. lia.
Qed.

(** The managers keep their kind when only the request's tables change. *)
Lemma same_all_class c1 ms1 :
  Forall2 (same_manager r) c1 ms1 →
  (∀ x, x ∈ c1 → manager_class x ≠ CrossAttentionManager ∧ spec_ok (m_kv_cache_spec x)) →
  ∀ x, x ∈ ms1 → manager_class x ≠ CrossAttentionManager ∧ spec_ok (m_kv_cache_spec x).
Proof.
  intros Hf Hc x Hx. apply list_elem_of_lookup in Hx as [i Hi].
  destruct (Forall2_lookup_r _ _ _ _ _ Hf Hi) as (y & Hy & Hs).
  rewrite (sm_class _ _ _ Hs), (sm_spec _ _ _ Hs). apply Hc. by eapply list_elem_of_lookup_2.
Qed.

(** The first phase, when there is something to add. *)
Definition add_hits : M KVCacheManager unit :=
  if adds_hits then in_coordinator (c_allocate_new_computed_blocks r (kb_blocks given_blocks) local ext)
  else ret tt.

Record phase_pre (c1 : Coordinator) (fr1 : list loc) : Prop := {
  pp_inv : cinv c1 fr1;
  pp_kinds : ∀ x, x ∈ single_type_managers c1 →
    manager_class x ≠ CrossAttentionManager ∧ spec_ok (m_kv_cache_spec x);
  pp_len : length (kb_blocks given_blocks) = length (single_type_managers c1);
  pp_ready : adds_hits = true → ∀ i x comp, single_type_managers c1 !! i = Some x →
    kb_blocks given_blocks !! i = Some comp → ready (block_pool c1) x r comp local;
  pp_running : adds_hits = false → ∀ i x comp, single_type_managers c1 !! i = Some x →
    kb_blocks given_blocks !! i = Some comp →
    comp = [] ∧ (num_cached_block x !! r = None → skip_blocks x (local + ext) ≤ len (mget x r))
}.

Lemma phase_request_ok c1 fr1 : slots_ok → phase_pre c1 fr1 →
  request_ok c1 fr1 slot_tokens local ext (kb_blocks given_blocks).
Proof.
  intros Hs [H1 H2 H3 _ _]. destruct (slots_bounds Hs) as (? & ? & ?). split; try done.
  - intros x Hx. by apply H2.
  - intros x Hx. by apply H2.
  - rewrite <- H3, (sl_groups Hs). apply (sl_single Hs).
Qed.

Lemma phase_needs c1 fr1 : slots_ok → phase_pre c1 fr1 →
  c_get_num_blocks_to_allocate r slot_tokens (kb_blocks given_blocks) enc (local + ext) c1 =
    (Ok (sumz (needs c1 r slot_tokens local ext (kb_blocks given_blocks))), c1).
Proof.
  intros Hs Hp. eapply c_get_num_blocks_to_allocate_ok; [by apply phase_request_ok|].
  intros i x comp Hx Hcomp. destruct adds_hits eqn:Ha.
  - destruct (pp_ready _ _ Hp Ha i x comp Hx Hcomp) as [k Hk ->|Hk _ Hho _].
    + split; [intros a Hin; by apply not_elem_of_nil in Hin|done].
    + split; [apply Hho|]. rewrite Hk. by intros [? ?].
  - destruct (pp_running _ _ Hp Ha i x comp Hx Hcomp) as [-> _].
    split; [intros a Hin; by apply not_elem_of_nil in Hin|done].
Qed.

Lemma phase_add c1 fr1 : slots_ok → phase_pre c1 fr1 →
  sumz (needs c1 r slot_tokens local ext (kb_blocks given_blocks)) ≤ len fr1 →
  ∃ p2 ms2 fr2, add_hits (set_coordinator c1 m) =
      (Ok tt, set_coordinator (with_state c1 p2 ms2) m) ∧
    cinv (with_state c1 p2 ms2) fr2 ∧ same_static (block_pool c1) p2 ∧
    Forall2 (same_manager r) (single_type_managers c1) ms2 ∧
    all_missing r slot_tokens ms2 ≤ len fr2.
Proof.
  intros Hs Hp Hcap. unfold add_hits. destruct adds_hits eqn:Ha.
  - destruct (c_allocate_new_computed_blocks_ok c1 fr1 r slot_tokens local ext
      (kb_blocks given_blocks)) as (p2 & ms2 & fr2 & Hrun & H1 & H2 & H3 & H4 & _).
    + by apply phase_request_ok.
    + by apply (pp_ready _ _ Hp Ha).
    + done.
    + exists p2, ms2, fr2. split; [|done].
      exact (in_coordinator_ok _ (set_coordinator c1 m) _ _ Hrun).
  - exists (block_pool c1), (single_type_managers c1), fr1. rewrite with_state_id.
    split; [done|]. split; [apply Hp|]. split; [done|]. split.
    { apply Forall_Forall2_diag. by apply Forall_true. }
    etrans; [|exact Hcap]. apply sum_missing_le; [|apply Hp].
    intros i x comp Hx Hcomp. destruct (pp_running _ _ Hp Ha i x comp Hx Hcomp) as [-> Hsk].
    apply missing_le_need; [|done].
    pose proof (mo_bs _ _ (ci_ok _ _ (pp_inv _ _ Hp) x (list_elem_of_lookup_2 _ _ _ Hx))). lia.
Qed.

(** The tail of [allocate_slots] after the capacity check. *)
Definition commit : M KVCacheManager (option KVCacheBlocks) :=
  add_hits ;;;
  let* new_blocks := in_coordinator (c_allocate_new_blocks r slot_tokens enc) in
  if negb (kv_enable_caching m) || delay then
    ret (Some (create_kv_cache_blocks new_blocks m))
  else
    in_coordinator (c_cache_blocks rq
      (Z.min (Z.min (local + ext) (max_model_len m) + new) (num_tokens rq))) ;;;
    ret (Some (create_kv_cache_blocks new_blocks m)).

Lemma commit_ok c1 fr1 : slots_ok → phase_pre c1 fr1 → same_static p (block_pool c1) →
  sumz (needs c1 r slot_tokens local ext (kb_blocks given_blocks)) ≤ len fr1 →
  ∃ news p' ms' fr', commit (set_coordinator c1 m) =
      (Ok (Some (create_kv_cache_blocks news m)), set_coordinator (with_state c1 p' ms') m) ∧
    cinv (with_state c1 p' ms') fr' ∧ same_static (block_pool c1) p' ∧
    Forall2 (same_manager r) (single_type_managers c1) ms' ∧
    (∀ x, x ∈ ms' → enough_slots slot_tokens r x) ∧
    (∀ g a, g ∈ news → a ∈ g → (a < length (blocks p'))%nat).
Proof.
  intros Hs Hp Hst0 Hcap. unfold commit.
  destruct (phase_add c1 fr1 Hs Hp Hcap) as (p2 & ms2 & fr2 & Hrun & Hc2 & Hst2 & Hf2 & Hm2).
  rewrite (bind_ok _ _ _ _ _ Hrun).
  pose proof (same_all_class _ _ Hf2 (pp_kinds _ _ Hp)) as Hk2.
  destruct (c_allocate_new_blocks_ok (with_state c1 p2 ms2) fr2 r slot_tokens enc Hc2)
    as (news & p3 & ms3 & fr3 & Hrun3 & Hc3 & Hst3 & Hf3 & Hen & _ & Hget & Hlen & _);
    [intros x Hx; by apply Hk2|done|].
  rewrite (bind_in_coordinator _ (set_coordinator (with_state c1 p2 ms2) m) _ _ _ Hrun3).
  rewrite with_state_twice in *. cbn [single_type_managers block_pool with_state set_block_pool set_managers] in *.
  assert (Hf13 : Forall2 (same_manager r) (single_type_managers c1) ms3).
  { by etrans. }
  assert (Hst13 : same_static (block_pool c1) p3) by by etrans.
  assert (Hrange : ∀ g a, g ∈ news → a ∈ g → (a < length (blocks p3))%nat).
  { intros g a [i Hg]%list_elem_of_lookup Ha.
    destruct (lookup_lt_is_Some_2 ms3 i) as [x' Hx'];
      [rewrite <- Hlen; by eapply lookup_lt_Some|].
    destruct (Forall2_lookup_r _ _ _ _ _ Hf3 Hx') as (x & Hx & _).
    eapply (table_range _ _ x' r a Hc3); [by eapply list_elem_of_lookup_2|].
    rewrite (Hget i x x' g Hx Hx' Hg). apply elem_of_app. by right. }
  destruct (negb (kv_enable_caching m) || delay) eqn:Hd.
  { exists news, p3, ms3, fr3. done. }
  apply orb_false_iff in Hd as [Hca%negb_false_iff _].
  set (tc := Z.min _ (num_tokens rq)).
  destruct (c_cache_blocks_ok (with_state c1 p3 ms3) fr3 rq tc Hc3)
    as (p4 & ms4 & Hrun4 & Hc4 & Hst4 & Hf4).
  { intros x Hx. by apply (same_all_class _ _ Hf3 Hk2). }
  { intros x Hx _. cbn [block_pool with_state set_block_pool set_managers] in *.
    pose proof (mo_bs _ _ (ci_ok _ _ Hc3 x Hx)) as Hbs.
    pose proof (mo_mod _ _ (ci_ok _ _ Hc3 x Hx)) as Hmod.
    cbn [block_pool with_state set_block_pool set_managers] in Hbs, Hmod.
    assert (Hstp : same_static p p3) by by etrans.
    rewrite (ss_caching _ _ Hstp), <- (sl_caching Hs). split; [done|].
    pose proof (enough_slots_tokens slot_tokens r x ltac:(lia)
      (proj2 (same_all_class _ _ Hf3 Hk2 x Hx)) (Hen x Hx)) as Hslots.
    destruct (slots_bounds Hs) as (? & ? & ?). destruct (sl_len Hs). destruct (sl_new Hs).
    assert (Htc : tc ≤ slot_tokens) by (unfold tc, slot_tokens; lia).
    assert (Htc0 : 0 ≤ tc).
    { unfold tc. pose proof (len_nonneg (_all_token_ids rq)). unfold num_tokens. lia. }
    split.
    - change (request_id rq) with r. set (L := len (mget x r)) in *.
      apply Z.lt_succ_r, Z.div_lt_upper_bound; [lia|]. rewrite Z.mul_succ_r, Z.mul_comm. lia.
    - eapply (view_covers _ _ _ (num_tokens rq)); [done|done|unfold tc in *; lia|].
      rewrite (ss_hash_size _ _ Hstp). apply Hs. }
  rewrite (bind_in_coordinator _ (set_coordinator (with_state c1 p3 ms3) m) _ _ _ Hrun4).
  rewrite with_state_twice in *. cbn [single_type_managers block_pool with_state set_block_pool set_managers] in *.
  exists news, p4, ms4, fr3. split; [done|]. split; [done|]. split; [by etrans|]. split; [|split].
  - etrans; [exact Hf13|]. eapply Forall2_impl; [exact Hf4|]. by intros x y [? _].
  - intros x Hx. apply list_elem_of_lookup in Hx as [i Hi].
    destruct (Forall2_lookup_r _ _ _ _ _ Hf4 Hi) as (y & Hy & Hsm & Hg & _).
    pose proof (Hen y (list_elem_of_lookup_2 _ _ _ Hy)) as He. unfold enough_slots in *.
    change (request_id rq) with r in Hg. rewrite Hg, (sm_bs _ _ _ Hsm).
    unfold with_speculative_blocks in *.
    by rewrite (sm_spec _ _ _ Hsm).
  - by rewrite (ss_blocks _ _ Hst4).
Qed.

(** All of [allocate_slots]. *)
Lemma allocate_slots_run : slots_ok →
  ∃ res c' fr', allocate_slots rq new nc given look ext delay enc m =
      (Ok res, set_coordinator c' m) ∧
    cinv c' fr' ∧ same_static p (block_pool c') ∧
    Forall2 (same_manager r) ms (single_type_managers c') ∧
    with_state (coordinator m) (block_pool c') (single_type_managers c') = c' ∧
    match res with
    | Some b => (∀ x, x ∈ single_type_managers c' → enough_slots slot_tokens r x) ∧
        ∀ g a, g ∈ kb_blocks b → a ∈ g → (a < length (blocks (block_pool c')))%nat
    | None => Forall2 (skipped_removed r (local + ext)) ms (single_type_managers c') ∧
              get_num_free_blocks (block_pool c')
                < sumz (needs c' r slot_tokens local ext (kb_blocks given_blocks))
    end.
Proof.
  intros Hs.
  destruct (c_remove_skipped_blocks_ok (coordinator m) fr r (local + ext) Hinv)
    as (p1 & ms1 & extra & Hrun1 & Hc1 & Hst1 & Hh1 & Hf1).
  set (c1 := with_state (coordinator m) p1 ms1) in *. fold ms in Hf1.
  assert (Hf1' : Forall2 (same_manager r) ms ms1).
  { eapply Forall2_impl; [exact Hf1|]. intros x y [? _ _ _ _]. done. }
  assert (Hpp : phase_pre c1 (fr ++ extra)).
  { split.
    - done.
    - apply (same_all_class ms ms1 Hf1'). intros x Hx. split; [by apply Hs|by apply Hs].
    - rewrite (sl_groups Hs). by eapply Forall2_length.
    - intros Ha i x' comp Hx' Hcomp.
      destruct (Forall2_lookup_r _ _ _ _ _ Hf1 Hx') as (x & Hx & Hsr).
      eapply ready_removed; [exact Hst1|exact Hh1|exact Hsr|]. by eapply (sl_ready Hs).
    - intros Ha i x' comp Hx' Hcomp.
      destruct (Forall2_lookup_r _ _ _ _ _ Hf1 Hx') as (x & Hx & Hsr).
      destruct (sl_running Hs Ha i x comp Hx Hcomp) as [Hnil Hsk]. split; [done|].
      unfold adds_hits in Ha. apply orb_false_iff in Ha as [_ He%bool_decide_eq_false].
      destruct (slots_bounds Hs) as (_ & He0 & _). replace (local + ext) with local by lia.
      rewrite (sr_cached _ _ _ _ Hsr), (sr_len _ _ _ _ Hsr). unfold skip_blocks in *.
      unfold_skipped.
      by rewrite (sm_spec _ _ _ (sr_same _ _ _ _ Hsr)), (sm_bs _ _ _ (sr_same _ _ _ _ Hsr)). }
  unfold allocate_slots. rewrite decide_False by (destruct (sl_some Hs); tauto).
  unfold bind at 1, get. fold given_blocks. fold local. fold r.
  rewrite (slots_total_min Hs).
  rewrite (bind_in_coordinator _ _ _ _ _ Hrun1). fold c1.
  replace (Z.min (local + ext + new + look) (max_model_len m)) with slot_tokens
    by (unfold slot_tokens; by rewrite (slots_total_min Hs)).
  pose proof (phase_needs c1 _ Hs Hpp) as Hneed.
  rewrite (bind_in_coordinator _ (set_coordinator c1 m) _ _ _ Hneed). rewrite bind_gets.
  cbn [coordinator set_coordinator].
  pose proof (pool_free_count _ _ (gi_pool _ _ _ (ci_ginv _ _ Hc1))) as Hcount.
  split_if as Hlack.
  - exists None, c1, (fr ++ extra). split; [done|]. split; [done|]. split; [done|].
    split; [done|]. split; [done|]. split; [done|]. exact Hlack.
  - destruct (commit_ok c1 (fr ++ extra) Hs Hpp Hst1) as (news & p' & ms' & fr' & Hrun & Hc' & Hst' & Hf' & Hen & Hrange).
    { rewrite <- Hcount. unfold c1. apply Z.nlt_ge in Hlack. exact Hlack. }
    unfold commit, add_hits, adds_hits in Hrun. rewrite (slots_total_min Hs) in Hrun.
    eexists _, (with_state c1 p' ms'), fr'. split; [exact Hrun|]. split; [done|].
    split; [by etrans|]. split; [by etrans|]. split; [done|]. split; [exact Hen|]. intros g a Hg Ha.
    by eapply Hrange; [eapply create_blocks_groups|].
Qed.
End slots.

(** * Examples *)

(** Run operations one after another and keep the final state. *)
Definition run_all {S} (ops : list (M S unit)) (s : S) : S :=
  foldl (λ s op, snd (op s)) s ops.

Definition tokens_request (id : string) (tokens : list Z) (hashes : list bytes) : Request :=
  set_block_hashes hashes
    (set_all_token_ids tokens
      (ltac:(let t := eval vm_compute in (example_request []) in
             lazymatch t with Ok ?r => exact (λ i : string,
               mkRequest i (obj_id r) (client_index r) (priority r) (arrival_time r)
                 (sampling_params r) (pooling_params r) (eos_token_id r) (lora_request r)
                 (use_structured_output r) (status r) (events r) (stop_reason r) (max_tokens r)
                 (prompt_embeds r) (num_prompt_tokens r) (_output_token_ids r) (_all_token_ids r)
                 (num_output_placeholders r) (discard_latest_async_tokens r) (spec_token_ids r)
                 (num_computed_tokens r) (cache_salt r) (mm_features r) (num_cached_tokens r)
                 (num_preemptions r) (num_external_computed_tokens r) (block_hashes r)
                 (has_block_hasher r) (skip_reading_prefix_cache r)) end) id)).

Definition example_attention : AttentionFields := mkAttention 2 1 64 "bfloat16" None.
(** A model with a full-attention and a sliding-window group on 4 usable blocks. *)
Definition hybrid_config : KVCacheConfig :=
  mkKVConfig 5 [] [mkGroup ["a"] (FullAttentionSpec example_attention (mkFull 64 None None));
                   mkGroup ["b"] (SlidingWindowSpec example_attention 8)].
Definition hybrid_manager : KVCacheManager :=
  ltac:(let t := eval vm_compute in
          (KVCacheManager_init hybrid_config 64 2 true false false false false 1 1 None) in
        lazymatch t with Ok ?m => exact m end).

Definition request_a : Request := tokens_request "A" [5; 6; 7] [[1]].
Definition request_b : Request := tokens_request "B" [5; 6; 8; 9; 10] [[1]; [2]].
Definition request_c : Request := tokens_request "C" [7; 7; 7] [[3]].

(** A and C compute one block in each group and finish, A first. *)
Definition after_a_c : KVCacheManager :=
  run_all [allocate_slots request_a 2 0 None 0 0 false 0 ;;; ret tt;
           allocate_slots request_c 2 0 None 0 0 false 0 ;;; ret tt;
           kv_free request_a; kv_free request_c] hybrid_manager.

(** A block given to two groups at once.  With several groups and external
    tokens, [allocate_new_computed_blocks] allocates the external blocks of a
    group before it touches the hits of the next group, and the allocation can
    take such a hit, which is still in the free queue: request B hits block 1
    in the first group and block 2 in the second, 2 more tokens come from a
    connector, and afterwards block 2 is in B's tables of both groups, holding
    the external tokens of the one and the cached prefix of the other. *)
Example external_allocation_steals_hit :
  ∃ hits m1 m2 new,
    get_computed_blocks request_b after_a_c = (Ok (hits, 2), m1) ∧
    kb_blocks hits = [[1%nat]; [2%nat]] ∧
    allocate_slots request_b 0 2 (Some hits) 0 2 true 0 m1 = (Ok (Some new), m2) ∧
    kb_blocks (get_blocks "B" m2) = [[1%nat; 2%nat]; [2%nat; 3%nat]].
Proof.
  eexists _, _, _, _. split; [vm_compute; reflexivity|]. split; [reflexivity|].
  split; [vm_compute; reflexivity|]. vm_compute. reflexivity.
Qed.

(** * Histories of a KV cache manager *)

(** Groups the model's theorems cover: no cross attention and no attention
    sinks, and block sizes that are multiples of the hash block size. *)
Definition group_ok (hash_block_size dcp pcp : Z) (s : KVCacheSpec) : Prop :=
  match s with
  | CrossAttentionSpec _ | SinkFullAttentionSpec _ _ _ | EncoderOnlyAttentionSpec _ => False
  | _ => spec_ok s
  end ∧
  let bs := if decide (1 < dcp * pcp) then spec_block_size s * (dcp * pcp)
            else spec_block_size s in
  hash_block_size ≤ bs ∧ bs mod hash_block_size = 0.

Lemma get_manager_ok p s caching i dcp pcp free :
  pool_wf p free → enable_caching p = caching → 0 < hash_block_size p →
  group_ok (hash_block_size p) dcp pcp s → 0 ≤ i < 2 ^ 32 →
  ∃ x, get_manager_for_kv_cache_spec s caching i dcp pcp p = (Ok x, p) ∧ manager_ok p x ∧
    req_to_blocks x = ∅ ∧ num_cached_block x = ∅ ∧ m_kv_cache_spec x = s ∧
    manager_class x ≠ CrossAttentionManager ∧ spec_ok s.
Proof.
  intros Hwf Hc Hh [Hs Hbs] Hi. pose proof (so_null _ _ (pw_static _ _ Hwf)) as Hnull.
  unfold get_manager_for_kv_cache_spec. cbv zeta in Hbs.
  destruct s; simpl in Hs; try done;
    (cbn [spec_manager_map]; rewrite bind_of_res, bind_gets; eexists; split; [reflexivity|];
     split; [split; simpl in *; [done|lia|apply Hbs|done|done|by intros r [? ?]]|];
     repeat split; try done).
Qed.

Lemma build_managers_ok p caching dcp pcp free specs : ∀ i,
  pool_wf p free → enable_caching p = caching → 0 < hash_block_size p →
  Forall (group_ok (hash_block_size p) dcp pcp) specs → 0 ≤ i → i + len specs < 2 ^ 32 →
  ∃ l, build_managers specs caching i dcp pcp p = (Ok l, p) ∧
    (∀ x, x ∈ l → manager_ok p x ∧ req_to_blocks x = ∅ ∧ num_cached_block x = ∅) ∧
    Forall2 (λ s x, m_kv_cache_spec x = s ∧ manager_class x ≠ CrossAttentionManager ∧ spec_ok s)
      specs l.
Proof.
  induction specs as [|s specs IH]; intros i Hwf Hc Hh Hg Hi Hlen; simpl.
  { exists []. split; [done|]. split; [|constructor]. intros x Hx. by apply not_elem_of_nil in Hx. }
  apply Forall_cons in Hg as [Hs Hg]. rewrite len_cons in Hlen. pose proof (len_nonneg specs).
  destruct (get_manager_ok p s caching i dcp pcp free Hwf Hc Hh Hs) as (x & Hx & H1 & H2 & H3 & H4);
    [lia|]. rewrite (bind_ok _ _ _ _ _ Hx).
  destruct (IH (i + 1) Hwf Hc Hh Hg) as (l & Hl & Hall & Hf); [lia|lia|].
  rewrite (bind_ok _ _ _ _ _ Hl). exists (x :: l). split; [done|]. split; [|by constructor].
  intros y [->|Hy]%elem_of_cons; [done|by apply Hall].
Qed.

Lemma centries_empty l : (∀ x : Manager, x ∈ l → req_to_blocks x = ∅) → centries l = [].
Proof.
  induction l as [|x l IH]; intros Hl; [done|]. unfold centries. rewrite bind_cons.
  fold (centries l). rewrite IH by (intros; apply Hl; by right).
  unfold mentries. rewrite Hl by by left. unfold entries_with. by rewrite map_to_list_empty.
Qed.

Record config_ok (config : KVCacheConfig) (hash_block_size dcp pcp : Z) : Prop := {
  cf_blocks : 0 < kc_num_blocks config;
  cf_hash : 0 < hash_block_size;
  cf_groups : Forall (group_ok hash_block_size dcp pcp) (map kv_cache_spec (kv_cache_groups config));
  cf_num : len (kv_cache_groups config) < 2 ^ 32
}.

Lemma base_coordinator_ok config ue caching ev ih dcp pcp h mc :
  config_ok config h dcp pcp →
  ∃ c fr, base_coordinator config ue caching ev ih dcp pcp h mc = Ok c ∧ cinv c fr ∧
    enable_caching (block_pool c) = caching ∧ hash_block_size (block_pool c) = h ∧
    (∀ x, x ∈ single_type_managers c →
       manager_class x ≠ CrossAttentionManager ∧ spec_ok (m_kv_cache_spec x)).
Proof.
  intros [Hn Hh Hg Hlen]. unfold base_coordinator.
  destruct (BlockPool_init_ok (kc_num_blocks config) caching h ev ih mc Hn)
    as (p & -> & Hwf & Hbl & Hc & Hhs & Hr & Hha).
  destruct (build_managers_ok p caching dcp pcp _ (map kv_cache_spec (kv_cache_groups config)) 0
    Hwf Hc) as (l & Hl & Hall & Hf); [by rewrite Hhs|by rewrite Hhs|done| |].
  { unfold len. rewrite length_map. fold (len (kv_cache_groups config)). lia. }
  rewrite Hl. eexists _, _. split; [reflexivity|]. split; [|split; [done|split; [done|]]].
  - split; simpl; [|intros x Hx; by apply Hall].
    rewrite centries_empty by (intros x Hx; by apply Hall).
    split; [exact Hwf| | | |done].
    + intros e He. by apply not_elem_of_nil in He.
    + intros a Ha. rewrite Hr. done.
    + intros a Ha. by apply not_elem_of_nil in Ha.
  - simpl. intros x Hx. apply list_elem_of_lookup in Hx as [i Hi].
    destruct (Forall2_lookup_r _ _ _ _ _ Hf Hi) as (s & _ & <- & ? & ?). done.
Qed.

(** The managers reachable by the scheduler's calls. *)
Inductive kv_reach : KVCacheManager → Prop :=
  | kr_init config max_len h caching ue log ev ih dcp pcp mc m :
      config_ok config h dcp pcp →
      KVCacheManager_init config max_len h caching ue log ev ih dcp pcp mc = Ok m → kv_reach m
  | kr_allocate m rq new nc given look ext delay enc res m' :
      kv_reach m → slots_ok m rq new nc given look ext →
      allocate_slots rq new nc given look ext delay enc m = (res, m') → kv_reach m'
  | kr_free m rq res m' : kv_reach m → kv_free rq m = (res, m') → kv_reach m'
  | kr_skip m r total res m' :
      kv_reach m → kv_remove_skipped_blocks r total m = (res, m') → kv_reach m'
  | kr_evict m ids0 res m' :
      kv_reach m → (∀ i, i ∈ ids0 → 0 ≤ i < len (blocks (block_pool (coordinator m)))) →
      kv_evict_blocks ids0 m = (res, m') → kv_reach m'
  | kr_reset m res m' :
      kv_reach m → kv_reset_prefix_cache m = (res, m') → kv_reach m'.

Record kinv m (fr : list loc) : Prop := {
  ki_cinv : cinv (coordinator m) fr;
  ki_caching : kv_enable_caching m = enable_caching (block_pool (coordinator m));
  ki_stats : log_stats m = true → prefix_cache_stats m ≠ None
}.

(** A pool operation that keeps the reference counts and only drops hashes. *)
Lemma cinv_drop_hashes c fr p' :
  cinv c fr → pool_wf p' fr → same_static (block_pool c) p' →
  (∀ a, ref p' a = ref (block_pool c) a) →
  (∀ a, hash p' a = hash (block_pool c) a ∨ hash p' a = None) →
  cinv (set_block_pool p' c) fr.
Proof.
  intros [Hg Ho] Hwf Hs Hr Hh. split; simpl; [|intros x Hx; by eapply manager_ok_static; [apply Ho|]].
  destruct Hg as [_ H2 H3 H4 H5]. split; rewrite ?(ss_blocks _ _ Hs), ?(ss_caching _ _ Hs);
    [done|done| | |].
  - intros a Ha. by rewrite Hr, H3.
  - intros a Ha. destruct (H4 a Ha) as [H6 ?]. split; [|done]. destruct (Hh a) as [->|]; done.
  - intros Hc a. destruct (Hh a) as [->|]; auto.
Qed.

Lemma in_block_pool_ok {A} (op : M BlockPool A) m a p' :
  op (block_pool (coordinator m)) = (Ok a, p') →
  in_block_pool op m = (Ok a, set_coordinator (set_block_pool p' (coordinator m)) m).
Proof. intros H. unfold in_block_pool, in_coordinator, in_pool, zoom. by rewrite H. Qed.

Lemma init_kinv config max_len h caching ue log ev ih dcp pcp mc m :
  config_ok config h dcp pcp →
  KVCacheManager_init config max_len h caching ue log ev ih dcp pcp mc = Ok m →
  ∃ fr, kinv m fr.
Proof.
  intros Hcf. unfold KVCacheManager_init.
  destruct (get_kv_cache_coordinator _ _ _ _ _ _ _ _ _) as [c|e] eqn:Hc; [|done].
  intros [= <-].
  destruct (base_coordinator_ok config ue caching ev ih dcp pcp h mc Hcf)
    as (c0 & fr & Hc0 & Hinv & Hca & _).
  assert (H : caching = enable_caching (block_pool c) ∧ cinv c fr).
  { unfold get_kv_cache_coordinator in Hc. destruct caching; simpl in Hc.
    - destruct (decide (len (kv_cache_groups config) = 1)).
      + unfold Unitary_init in Hc. rewrite Hc0 in Hc. destruct (c_groups c0); [done|].
        cbv zeta in Hc.
        destruct (true && _); [done|]. destruct (decide _); [|done]. injection Hc as <-.
        destruct Hinv. by split.
      + unfold Hybrid_init in Hc. rewrite Hc0 in Hc. destruct (negb _); [done|].
        destruct (bool_decide _); [done|]. destruct (bool_decide _); [done|].
        destruct (verify_and_split_kv_cache_groups _ _); [|done]. injection Hc as <-.
        destruct Hinv. by split.
    - unfold NoPrefixCache_init in Hc. rewrite Hc0 in Hc. injection Hc as <-. done. }
  destruct H as [H1 H2]. exists fr. split; [done|done|]. simpl. by intros ->.
Qed.

Lemma kv_reach_inv m : kv_reach m → ∃ fr, kinv m fr.
Proof.
  induction 1 as
    [config max_len h caching ue log ev ih dcp pcp mc m Hcf Hm
    |m rq new nc given look ext delay enc res m' _ (fr & [Hc Hca Hst]) Hs Hrun
    |m rq res m' _ (fr & [Hc Hca Hst]) Hrun
    |m r total res m' _ (fr & [Hc Hca Hst]) Hrun
    |m ids0 res m' _ (fr & [Hc Hca Hst]) Hin Hrun
    |m res m' _ (fr & [Hc Hca Hst]) Hrun].
  - by eapply init_kinv.
  - destruct (allocate_slots_run m fr rq new nc given look ext delay enc Hc Hs)
      as (r & c' & fr' & Heq & Hc' & Hss & _). rewrite Hrun in Heq. injection Heq as -> ->.
    exists fr'. split; [done| |done]. simpl. by rewrite (ss_caching _ _ Hss).
  - destruct (c_free_ok (coordinator m) fr (request_id rq) Hc)
      as (p' & ms' & fr' & Heq & Hc' & Hss & _).
    unfold kv_free in Hrun. rewrite (in_coordinator_ok _ m _ _ Heq) in Hrun. injection Hrun as <- <-.
    exists fr'. split; [done| |done]. simpl. by rewrite (ss_caching _ _ Hss).
  - destruct (c_remove_skipped_blocks_ok (coordinator m) fr r total Hc)
      as (p' & ms' & ex & Heq & Hc' & Hss & _).
    unfold kv_remove_skipped_blocks in Hrun. rewrite (in_coordinator_ok _ m _ _ Heq) in Hrun.
    injection Hrun as <- <-. exists (fr ++ ex). split; [done| |done]. simpl. by rewrite (ss_caching _ _ Hss).
  - pose proof (gi_pool _ _ _ (ci_ginv _ _ Hc)) as Hwf.
    destruct (evict_blocks_ok _ fr ids0 Hwf Hin) as (p' & Heq & Hwf' & Hss & Hr & Hh).
    unfold kv_evict_blocks in Hrun. rewrite (in_block_pool_ok _ m _ _ Heq) in Hrun.
    injection Hrun as <- <-. exists fr. split; [|simpl; by rewrite (ss_caching _ _ Hss)|done].
    simpl. apply cinv_drop_hashes; try done. intros a. rewrite Hh. destruct (decide _); auto.
  - pose proof (gi_pool _ _ _ (ci_ginv _ _ Hc)) as Hwf. unfold kv_reset_prefix_cache in Hrun.
    destruct (decide (len fr = num_gpu_blocks (block_pool (coordinator m)) - 1)) as [He|He].
    + destruct (reset_prefix_cache_ok _ fr Hwf He) as (p' & Heq & Hwf' & Hss & Hr & Hh & _).
      rewrite (bind_ok _ _ _ _ _ (in_block_pool_ok _ m _ _ Heq)) in Hrun. simpl in Hrun.
      set (m1 := set_coordinator (set_block_pool p' (coordinator m)) m) in *.
      assert (Hk : kinv m1 fr).
      { split; [|simpl; by rewrite (ss_caching _ _ Hss)|done].
        simpl. apply cinv_drop_hashes; try done. intros a. rewrite Hh. auto. }
      unfold bind at 1, get in Hrun. destruct (log_stats m1) eqn:Hl.
      * destruct (prefix_cache_stats m1) as [st|] eqn:Hps;
          [|by destruct (ki_stats _ _ Hk Hl)].
        injection Hrun as <- <-. exists fr. destruct Hk. by split.
      * injection Hrun as <- <-. by exists fr.
    + pose proof (reset_prefix_cache_refused _ fr Hwf He) as Heq.
      rewrite (bind_ok _ _ _ _ _ (in_block_pool_ok _ m _ _ Heq)) in Hrun. simpl in Hrun.
      injection Hrun as <- <-. exists fr. destruct m as [[] ? ? ? ? ?]. by split.
Qed.

(** All block tables of all requests in all groups. *)
Definition all_tables m : list loc := held_by (centries (single_type_managers (coordinator m))).

Lemma table_in m (x : Manager) r l :
  x ∈ single_type_managers (coordinator m) → req_to_blocks x !! r = Some l →
  (l, mcached x r) ∈ centries (single_type_managers (coordinator m)).
Proof.
  intros Hx Hl. unfold centries. apply list_elem_of_bind. exists x. split; [|done].
  rewrite (mentries_split x r), Hl. set_solver +.
Qed.

Lemma tables_range m fr a :
  kinv m fr → a ∈ all_tables m → (a < length (blocks (block_pool (coordinator m))))%nat.
Proof.
  intros [[Hg _] _ _] Ha. unfold all_tables, held_by in Ha.
  apply list_elem_of_bind in Ha as (e & Ha & He). by eapply (eo_range _ _ (gi_entries _ _ _ Hg e He)).
Qed.

(** C11. In every state of the KV cache manager that the calls of the scheduler
    reach, without cross attention, attention sinks and encoder-only groups, and
    with external tokens only when there is a single group
    ([external_allocation_steals_hit] shows what they do to several): the free
    blocks and the distinct blocks of all block tables add up to all blocks but
    the null block, the reference count of a block is the number of its uses in the
    tables, and a block that a request has not cached yet belongs to that
    request alone, once, and has no hash. *)
Theorem kv_blocks_accounted m (p := block_pool (coordinator m)) :
  kv_reach m →
  get_num_free_blocks p + len (distinct_blocks (all_tables m)) = len (blocks p) - 1 ∧
  (∀ a, (0 < a < length (blocks p))%nat → ref p a = occ a (all_tables m)) ∧
  (∀ x r l i a, x ∈ single_type_managers (coordinator m) → req_to_blocks x !! r = Some l →
     l !! i = Some a → a ≠ 0%nat → mcached x r ≤ Z.of_nat i →
     occ a (all_tables m) = 1 ∧ hash p a = None).
Proof.
  intros Hm. destruct (kv_reach_inv m Hm) as (fr & Hk). pose proof (ki_cinv _ _ Hk) as [Hg _].
  pose proof (gi_pool _ _ _ Hg) as Hwf. split; [|split].
  - unfold p. rewrite (pool_free_count _ _ Hwf).
    pose proof (Permutation_length (pool_partition _ (all_tables m) _ Hwf
      (λ a, tables_range m fr a Hk) (gi_ref _ _ _ Hg))) as Hl.
    rewrite length_app, length_seq in Hl. pose proof (so_pos _ _ (pw_static _ _ Hwf)).
    unfold len. lia.
  - apply (gi_ref _ _ _ Hg).
  - intros x r l i a Hx Hl Hi Ha Hc.
    assert (Hf : a ∈ fresh_by (centries (single_type_managers (coordinator m)))).
    { unfold fresh_by. apply list_elem_of_bind. exists (l, mcached x r).
      split; [|by apply table_in]. unfold entry_fresh. simpl. apply nonnull_in. split; [done|].
      apply (list_elem_of_lookup_2 _ (i - Z.to_nat (mcached x r))). rewrite lookup_drop.
      by replace (Z.to_nat (mcached x r) + (i - Z.to_nat (mcached x r)))%nat with i by lia. }
    destruct (gi_fresh _ _ _ Hg a Hf) as [? ?]. done.
Qed.

(** C12. [allocate_slots] is total and correct.  Called without new and without
    external tokens it raises [ValueError] and changes nothing.  Called as the
    scheduler calls it ([slots_ok]: blocks of a prefix hit for a new request, or
    no hits for a running one; tokens within the model's length; external
    tokens only with a single group), in a state that such calls reach, it
    raises nothing and changes no other request's table in any group; it returns
    blocks only if afterwards the request has, in every group, slots for all its
    computed, new and lookahead tokens, and it returns [None] only if there are
    fewer free blocks than the groups need, in which case the request only lost
    blocks that its attention skips. *)
Theorem allocate_slots_correct m rq new nc given look ext delay enc
    (r := request_id rq) (ms := single_type_managers (coordinator m)) :
  (new = 0 → ext = 0 → allocate_slots rq new nc given look ext delay enc m = (Raise ValueError, m)) ∧
  (kv_reach m → slots_ok m rq new nc given look ext →
  ∃ res m', allocate_slots rq new nc given look ext delay enc m = (Ok res, m') ∧
    let ms' := single_type_managers (coordinator m') in
    (∀ i x x', ms !! i = Some x → ms' !! i = Some x' →
       ∀ r', r' ≠ r → req_to_blocks x' !! r' = req_to_blocks x !! r') ∧
    match res with
    | Some _ =>
        ∀ x, x ∈ ms' → slot_tokens m rq new nc look ext ≤ len (mget x r) * block_size x
    | None =>
        (∀ i x x', ms !! i = Some x → ms' !! i = Some x' → skipped_removed r
           (num_computed_tokens rq + nc + ext) x x') ∧
        get_num_free_blocks (block_pool (coordinator m'))
          < sumz (needs (coordinator m') r (slot_tokens m rq new nc look ext)
              (num_computed_tokens rq + nc) ext (kb_blocks (given_blocks m given)))
    end).
Proof.
  split; [intros -> ->; unfold allocate_slots; by rewrite decide_True|].
  intros Hm Hs. destruct (kv_reach_inv m Hm) as (fr & [Hc _ _]).
  destruct (allocate_slots_run m fr rq new nc given look ext delay enc Hc Hs)
    as (res & c' & fr' & Hrun & Hc' & Hst & Hf & _ & Hres).
  exists res, (set_coordinator c' m). split; [exact Hrun|]. cbv zeta. cbn [coordinator set_coordinator].
  split.
  - intros i x x' Hx Hx' r' Hr. destruct (Forall2_lookup_lr _ _ _ _ _ _ Hf Hx Hx'). auto.
  - destruct res as [kb|].
    + intros x Hx. pose proof (mo_bs _ _ (ci_ok _ _ Hc' x Hx)).
      apply enough_slots_tokens; [lia| |by apply Hres].
      eapply (same_all_class rq ms); [exact Hf| |exact Hx]. intros y Hy.
      split; [by apply (sl_cross _ _ _ _ _ _ _ Hs)|by apply (sl_spec _ _ _ _ _ _ _ Hs)].
    + destruct Hres as [Hsr Hlt]. split; [|exact Hlt]. intros i x x' Hx Hx'.
      by eapply Forall2_lookup_lr.
Qed.

(** The free blocks in the order of the queue, and those of the tables, are all
    blocks but the null block. *)
Lemma free_partition m fr : kinv m fr →
  FreeQueue.get_all_free_blocks (mem (block_pool (coordinator m))) = (Ok fr, mem (block_pool (coordinator m))) ∧
  fr ++ distinct_blocks (all_tables m) ≡ₚ seq 1 (length (blocks (block_pool (coordinator m))) - 1).
Proof.
  intros Hk. pose proof (ki_cinv _ _ Hk) as [Hg _]. pose proof (gi_pool _ _ _ Hg) as Hwf.
  split; [by apply get_all_free_blocks_spec, pw_queue|].
  apply (pool_partition _ (all_tables m) _ Hwf (λ a, tables_range m fr a Hk) (gi_ref _ _ _ Hg)).
Qed.

(** C21. [free] raises nothing in a state that the calls of the scheduler reach
    ([kv_reach]; external tokens only with a single group): it removes the
    request from every group's tables, leaves the other requests and every cached hash as
    they are (so the blocks stay usable as prefix cache hits), and appends to
    the queue of free blocks, each once, exactly the blocks of the request that
    no other table uses. *)
Theorem free_releases_request m rq (r := request_id rq) :
  kv_reach m →
  ∃ m' free freed, kv_free rq m = (Ok tt, m') ∧
    (∀ x, x ∈ single_type_managers (coordinator m') → req_to_blocks x !! r = None) ∧
    (∀ i x x', single_type_managers (coordinator m) !! i = Some x →
       single_type_managers (coordinator m') !! i = Some x' →
       ∀ r', r' ≠ r → req_to_blocks x' !! r' = req_to_blocks x !! r') ∧
    (∀ a, hash (block_pool (coordinator m')) a = hash (block_pool (coordinator m)) a) ∧
    (FreeQueue.get_all_free_blocks (mem (block_pool (coordinator m)))).1 = Ok free ∧
    (FreeQueue.get_all_free_blocks (mem (block_pool (coordinator m')))).1 = Ok (free ++ freed) ∧ NoDup freed ∧
    ∀ a, a ∈ freed ↔ a ≠ 0%nat ∧ a ∈ all_tables m ∧ a ∉ all_tables m'.
Proof.
  intros Hm. destruct (kv_reach_inv m Hm) as (fr & Hk). pose proof Hk as [Hc Hca Hst].
  destruct (c_free_ok (coordinator m) fr r Hc) as (p' & ms' & fr' & Heq & Hc' & Hss & Hh & Hn & Hf & [freed ->]).
  set (m' := set_coordinator (with_state (coordinator m) p' ms') m).
  assert (Hk' : kinv m' (fr ++ freed)) by (split; [done|simpl; by rewrite (ss_caching _ _ Hss)|done]).
  destruct (free_partition m fr Hk) as [Hq Hp]. destruct (free_partition m' _ Hk') as [Hq' Hp'].
  exists m', fr, freed. split; [by apply in_coordinator_ok|]. split; [intros x Hx; by apply Hn|]. split.
  { intros i x x' Hx Hx' r' Hr. destruct (Forall2_lookup_lr _ _ _ _ _ _ Hf Hx Hx'). auto. }
  split; [done|]. rewrite Hq, Hq'. split; [done|]. split; [done|].
  assert (Hnd : NoDup ((fr ++ freed) ++ distinct_blocks (all_tables m'))) by (rewrite Hp'; apply NoDup_seq).
  assert (Hblocks : fr ++ distinct_blocks (all_tables m) ≡ₚ (fr ++ freed) ++ distinct_blocks (all_tables m')).
  { rewrite Hp, Hp'. simpl. by rewrite (ss_blocks _ _ Hss). }
  rewrite <- app_assoc in Hblocks. apply Permutation_app_inv_l in Hblocks.
  rewrite <- app_assoc in Hnd. apply NoDup_app in Hnd as (_ & _ & (Hnd & Hno & _)%NoDup_app). split; [done|].
  intros a. specialize (Hno a). rewrite distinct_in in Hno.
  assert (Ha : a ∈ distinct_blocks (all_tables m) ↔ a ∈ freed ++ distinct_blocks (all_tables m')) by (by rewrite Hblocks).
  rewrite elem_of_app, !distinct_in in Ha. tauto.
Qed.

(** ** Witnesses *)

Lemma hybrid_config_ok : config_ok hybrid_config 2 1 1.
Proof.
  split; [reflexivity|reflexivity| |reflexivity].
  repeat constructor; simpl; lia || done.
Qed.

Lemma hybrid_reach : kv_reach hybrid_manager.
Proof.
  apply (kr_init hybrid_config 64 2 true false false false false 1 1 None); [apply hybrid_config_ok|].
  vm_compute. reflexivity.
Qed.

Lemma request_a_slots : slots_ok hybrid_manager request_a 2 0 None 0 0.
Proof.
  split.
  - intros x Hx. vm_compute in Hx.
    repeat (apply elem_of_cons in Hx as [->|Hx]; [discriminate|]). by apply not_elem_of_nil in Hx.
  - intros x Hx. vm_compute in Hx.
    repeat (apply elem_of_cons in Hx as [->|Hx]; [vm_compute; (exact I || discriminate)|]).
    by apply not_elem_of_nil in Hx.
  - vm_compute; reflexivity.
  - vm_compute. intuition discriminate.
  - left. discriminate.
  - vm_compute. intuition discriminate.
  - by left.
  - discriminate.
  - intros _ [|[|i]] x comp Hx Hcomp; vm_compute in Hx, Hcomp; try discriminate;
      injection Hx as <-; injection Hcomp as <-; (split; [done|]); intros _; vm_compute; discriminate.
  - vm_compute; reflexivity.
  - vm_compute; reflexivity.
Qed.

Definition after_a : KVCacheManager := snd (allocate_slots request_a 2 0 None 0 0 false 0 hybrid_manager).

Lemma after_a_reach : kv_reach after_a.
Proof.
  eapply (kr_allocate hybrid_manager request_a 2 0 None 0 0 false 0);
    [apply hybrid_reach|apply request_a_slots|]. unfold after_a. apply surjective_pairing.
Qed.

Lemma kv_blocks_accounted_witness :
  kv_reach after_a ∧ get_num_free_blocks (block_pool (coordinator after_a)) = 2.
Proof.
  split; [apply after_a_reach|].
  destruct (kv_blocks_accounted after_a after_a_reach) as (H & _).
  assert (len (distinct_blocks (all_tables after_a)) = 2) as Hd by (vm_compute; reflexivity).
  assert (len (blocks (block_pool (coordinator after_a))) = 5) as Hn by (vm_compute; reflexivity).
  rewrite Hd, Hn in H. clear Hd Hn. lia.
Defined.

Lemma allocate_slots_correct_witness :
  ∃ m', allocate_slots request_a 2 0 None 0 0 false 0 hybrid_manager =
    (Ok (Some (mkBlocks [[1%nat]; [2%nat]] false)), m').
Proof.
  destruct (allocate_slots_correct hybrid_manager request_a 2 0 None 0 0 false 0) as [_ Hok].
  destruct (Hok hybrid_reach request_a_slots) as (res & m' & Hrun & _).
  exists m'. rewrite Hrun. f_equal.
  assert (H : (allocate_slots request_a 2 0 None 0 0 false 0 hybrid_manager).1 =
    Ok (Some (mkBlocks [[1%nat]; [2%nat]] false))) by (vm_compute; reflexivity).
  by rewrite Hrun in H.
Defined.

Lemma free_releases_request_witness :
  ∃ m' free freed, kv_free request_a after_a = (Ok tt, m') ∧
    (FreeQueue.get_all_free_blocks (mem (block_pool (coordinator m')))).1 = Ok (free ++ freed) ∧
    ∀ a, a ∈ freed ↔ a ≠ 0%nat ∧ a ∈ all_tables after_a ∧ a ∉ all_tables m'.
Proof.
  destruct (free_releases_request after_a request_a after_a_reach) as (m' & free & freed & H1 & _ & _ & _ & _ & H2 & _ & H3).
  exists m', free, freed. split; [exact H1|]. split; [exact H2|exact H3].
Defined.
