(* ===== verification/KVMemorySpec.v ===== *)
(** What memory planning guarantees: the fitted model length is the largest one
    that fits, the tensors of a configuration fit in the available memory and
    cover all layers, and what its memory check misses. *)

From S2P Require Import Prelude.
From S2P Require Import KVBlocks.
From S2P Require Import Request.
From S2P Require Import BlockHash.
From S2P Require Import KVCacheMetrics.
From S2P Require Import BlockPool.
From S2P Require Import KVCacheInterface.
From S2P Require Import SingleTypeManagers.
From S2P Require Import KVMemory.
From S2P Require Import Coordinator.
From S2P Require Import KVCacheManager.
From S2P Require Import KVCacheManagerSpec.

(** * The binary search *)

Section search.
Context (fits : Z → res bool) (max : Z) (p : Z → bool).
Context (Hfits : ∀ n, 1 ≤ n ≤ max → fits n = Ok (p n)).
Context (Hanti : ∀ n k, 1 ≤ n → n ≤ k → k ≤ max → p k = true → p n = true).

(** The invariant of the loop. *)
Record searching (left right result : Z) : Prop := {
  se_left : 1 ≤ left ≤ result + 1;
  se_right : result ≤ right ≤ max;
  se_result : 1 ≤ result ∧ p result = true;
  se_above n : right < n → n ≤ max → p n = false
}.

Lemma search_loop_ok fuel left right result :
  searching left right result → right - left + 1 < 2 ^ Z.of_nat fuel →
  ∃ n, search_loop fuel fits left right result = Ok n ∧ 1 ≤ n ≤ max ∧
    ∀ k, 1 ≤ k ≤ max → p k = bool_decide (k ≤ n).
Proof.
  revert left right result. induction fuel as [|fuel IH]; intros left right result [Hl Hr [H1 Hp] Hab] Hf;
    cbn [search_loop].
  all: destruct (decide (left ≤ right)) as [Hle|Hgt].
  2, 4: exists result; split_and!; [done|lia|lia|]; intros k Hk;
    (case_bool_decide; [by apply (Hanti k result); try lia|apply Hab; lia]).
  { change (2 ^ Z.of_nat 0) with 1 in Hf. lia. }
  assert (Hpow : 2 ^ Z.of_nat (S fuel) = 2 * 2 ^ Z.of_nat fuel).
  { rewrite Nat2Z.inj_succ, Z.pow_succ_r; lia. }
  set (mid := (left + right) / 2).
  assert (Hmid : 2 * mid ≤ left + right < 2 * mid + 2).
  { unfold mid. pose proof (Z.div_mod (left + right) 2 ltac:(lia)).
    pose proof (Z.mod_pos_bound (left + right) 2 ltac:(lia)). lia. }
  rewrite Hfits by lia. cbn [rbind]. destruct (p mid) eqn:Hpm.
  - apply IH; [|lia]. split; [lia|lia|by split; [lia|]|done].
  - assert (result < mid).
    { destruct (decide (result < mid)); [done|].
      by rewrite (Hanti mid result) in Hpm by (done || lia). }
    apply IH; [|lia]. split; [lia|lia|done|]. intros n Hn Hm.
    destruct (p n) eqn:Hpn; [|done]. by rewrite (Hanti mid n) in Hpm by (done || lia).
Qed.

Lemma binary_search_ok :
  1 ≤ max →
  ∃ n, binary_search fits max = Ok n ∧ 0 ≤ n ≤ max ∧
    ∀ k, 1 ≤ k ≤ max → p k = bool_decide (k ≤ n).
Proof.
  intros Hmax. unfold binary_search. rewrite Hfits by lia. cbn [rbind].
  destruct (p 1) eqn:H1.
  - pose proof (Z.log2_spec max ltac:(lia)) as [_ Hlog]. pose proof (Z.log2_nonneg max).
    assert (2 ^ Z.succ (Z.log2 max) ≤ 2 ^ (Z.log2 max + 2)) by (apply Z.pow_le_mono_r; lia).
    destruct (search_loop_ok (Z.to_nat (Z.log2 max + 2)) 1 max 1) as (n & Hn & Hb & Hp).
    + split; [lia|lia|by split; [lia|]|intros; lia].
    + rewrite Z2Nat.id by lia. lia.
    + exists n. split_and!; [done|lia|lia|done].
  - exists 0. split_and!; [done|lia|lia|]. intros k Hk. rewrite bool_decide_eq_false_2 by lia.
    destruct (p k) eqn:Hpk; [|done]. by rewrite (Hanti 1 k) in H1 by (done || lia).
Qed.
End search.

(** * The longest model length that fits *)

Lemma cdiv_le_mono a b c : 0 < c → a ≤ b → cdiv a c ≤ cdiv b c.
Proof. intros Hc Hab. apply cdiv_le_iff; [done|]. pose proof (cdiv_spec b c Hc). lia. Qed.

(** The specifications whose memory is computed without an exception. *)
Definition plannable (c : MemoryConfig) (s : KVCacheSpec) : Prop :=
  0 < spec_block_size s ∧
  match s with SlidingWindowSpec _ _ => decode_context_parallel_size c = 1 | _ => True end.

(** The pages reserved grow with the model length. *)
Lemma max_pages_mono c s :
  plannable c s → ∃ f, (∀ n, max_pages (with_max_model_len n c) s = Ok (f n)) ∧
    ∀ n k, n ≤ k → f n ≤ f k.
Proof.
  intros [Hb Hs].
  exists (λ n, match max_pages (with_max_model_len n c) s with Ok p => p | Raise _ => 0 end).
  destruct s as [a f|a f d|a f k|a chunk|a w|b sh dt pp t n|a|a]; simpl in *;
    unfold full_pages, chunked_local_pages, sliding_window_pages;
    cbn [with_max_model_len decode_context_parallel_size prefill_context_parallel_size
         mc_max_model_len mc_max_num_batched_tokens max_num_encoder_input_tokens];
    (split; [intros n0|intros x y Hxy]); rewrite ?decide_True by done; try done; try lia.
  1-3: apply cdiv_le_mono; [done|]; case_decide; [apply cdiv_le_mono; lia|done].
  - apply cdiv_le_mono; lia.
  - apply Z.add_le_mono_r, cdiv_le_mono; lia.
  - apply cdiv_le_mono; lia.
Qed.

Lemma collect_inv {A} (l : list (res A)) k :
  collect l = Ok k → Forall2 (λ r a, r = Ok a) l k.
Proof.
  revert k. induction l as [|[a|e] l IH]; intros k Hk; simpl in Hk.
  - injection Hk as <-. constructor.
  - destruct (collect l) as [k'|]; [|done]. injection Hk as <-. constructor; auto.
  - done.
Qed.

(** [get_uniform_page_size] returns the page size of every group. *)
Lemma uniform_page_size_all es gs p g :
  get_uniform_page_size es gs = Ok p → g ∈ gs → group_page_size es g = Ok p.
Proof.
  unfold get_uniform_page_size. intros H Hg.
  apply rbind_ok_inv in H as (sizes & Hc & H). apply collect_inv in Hc.
  apply list_elem_of_lookup in Hg as [i Hi].
  assert (Hi' : map (group_page_size es) gs !! i = Some (group_page_size es g))
    by (by rewrite lookup_map, Hi).
  destruct (Forall2_lookup_l _ _ _ _ _ Hc Hi') as (q & Hq & Heq). rewrite Heq. f_equal.
  assert (Hin : q ∈ remove_dups sizes) by (by apply elem_of_remove_dups, list_elem_of_lookup_2 with i).
  destruct (remove_dups sizes) as [|x [|? ?]]; [done| |done]. injection H as ->.
  by apply list_elem_of_singleton in Hin.
Qed.

Section estimate.
Context (es : dtype → Z) (c : MemoryConfig) (groups : list WorkerGroup).
Context (names : list string) (s : KVCacheSpec) (rest : list WorkerGroup).
Context (Hgroups : groups = mkWorkerGroup names (SingleSpec s) :: rest).
Context (page : Z) (Hpage : get_uniform_page_size es (map wg_spec groups) = Ok page).
Context (Hpos : 0 < page) (Hplan : plannable c s) (Henc : ¬ ∃ a, s = EncoderOnlyAttentionSpec a).

Lemma groups_memory :
  ∃ size f, max_list (map (λ g, len (wg_layer_names g)) groups) = Ok size ∧ 0 ≤ size ∧
    (∀ n k, n ≤ k → f n ≤ f k) ∧
    ∀ n, _max_memory_usage_bytes_from_groups es (with_max_model_len n c) groups =
         Ok (size * page * f n).
Proof using Hgroups Hpage Hpos Hplan Henc.
  destruct (max_pages_mono c s Hplan) as (f & Hf & Hmono).
  assert (Hs : page_size_bytes es s = Ok page).
  { apply (uniform_page_size_all es _ page (SingleSpec s) Hpage). rewrite Hgroups. by left. }
  destruct (max_list (map (λ g, len (wg_layer_names g)) groups)) as [size|] eqn:Hsize;
    [|by rewrite Hgroups in Hsize].
  exists size, f. split; [done|]. split; [|split; [done|]].
  { rewrite Hgroups in Hsize. injection Hsize as <-. clear. simpl.
    assert (∀ l a, 0 ≤ a → 0 ≤ foldl Z.max a l) as Hx.
    { induction l as [|x l IH]; intros a Ha; [done|]. simpl. apply IH. lia. }
    apply Hx. apply len_nonneg. }
  intros n. rewrite Hgroups in *. unfold _max_memory_usage_bytes_from_groups.
  rewrite Hsize, Hpage. cbn [rbind group_max_memory wg_spec].
  assert (Hmem : max_memory_usage_bytes es (with_max_model_len n c) s = Ok (f n * page)).
  { unfold max_memory_usage_bytes. rewrite Hf, Hs. destruct s; try done.
    exfalso. apply Henc. by eexists. }
  rewrite Hmem. cbn [rbind]. unfold floordiv. rewrite decide_False by lia. cbn [rbind].
  assert (cdiv (f n * page) page = f n) as ->; [|done].
  apply Z.le_antisymm; [by apply cdiv_le_iff|].
  pose proof (cdiv_spec (f n * page) page Hpos). nia.
Qed.

Lemma estimate_from_groups_ok avail :
  1 ≤ mc_max_model_len c →
  ∃ n, _estimate_max_model_len_from_groups es c groups avail = Ok n ∧
    0 ≤ n ≤ mc_max_model_len c ∧
    ∀ k, 1 ≤ k ≤ mc_max_model_len c → groups_fit es c groups avail k = Ok (bool_decide (k ≤ n)).
Proof using Hgroups Hpage Hpos Hplan Henc.
  intros Hmax. destruct groups_memory as (size & f & _ & Hsize & Hmono & Hmem).
  assert (Hfits : ∀ k, groups_fit es c groups avail k = Ok (bool_decide (size * page * f k ≤ avail))).
  { intros k. unfold groups_fit. by rewrite Hmem. }
  destruct (binary_search_ok (groups_fit es c groups avail) (mc_max_model_len c)
    (λ k, bool_decide (size * page * f k ≤ avail))) as (n & Hn & Hb & Hp).
  - intros k _. apply Hfits.
  - intros n k _ Hnk _ Hk. apply bool_decide_eq_true in Hk. apply bool_decide_eq_true.
    etrans; [|exact Hk]. apply Z.mul_le_mono_nonneg_l; [lia|by apply Hmono].
  - done.
  - exists n. split; [exact Hn|]. split; [done|]. intros k Hk. by rewrite Hfits, (Hp k Hk).
Qed.
End estimate.

(** C33. The automatic model length is the largest that fits: the binary search
    terminates and returns the largest length up to the configured one for
    which the memory of one request fits in the available memory, or 0 when
    not even one token fits. *)
Theorem estimated_length_is_largest es c names s rest page avail
    (groups := mkWorkerGroup names (SingleSpec s) :: rest) :
  get_uniform_page_size es (map wg_spec groups) = Ok page → 0 < page →
  plannable c s → (∀ a, s ≠ EncoderOnlyAttentionSpec a) → 1 ≤ mc_max_model_len c →
  ∃ n, _estimate_max_model_len_from_groups es c groups avail = Ok n ∧
    0 ≤ n ≤ mc_max_model_len c ∧
    ∀ k, 1 ≤ k ≤ mc_max_model_len c → groups_fit es c groups avail k = Ok (bool_decide (k ≤ n)).
Proof.
  intros Hpage Hpos Hplan Henc. apply (estimate_from_groups_ok es c groups names s rest eq_refl page);
    try done. intros [a Ha]. by apply (Henc a).
Qed.

Definition element_bytes (d : dtype) : Z := if decide (d = "bfloat16") then 2 else 1.
Definition plan_config (max_len : Z) : MemoryConfig := mkMemoryConfig max_len 1 1 16 0.
Definition full_spec : KVCacheSpec := FullAttentionSpec example_fields (mkFull 64 None None).
Definition window_spec : KVCacheSpec := SlidingWindowSpec example_fields 8.

Lemma estimated_length_is_largest_witness :
  ∃ n, _estimate_max_model_len_from_groups element_bytes (plan_config 100)
         [mkWorkerGroup ["a"; "b"] (SingleSpec full_spec)] 20000 = Ok n ∧ 0 ≤ n ≤ 100 ∧
    ∀ k, 1 ≤ k ≤ 100 → groups_fit element_bytes (plan_config 100)
      [mkWorkerGroup ["a"; "b"] (SingleSpec full_spec)] 20000 k = Ok (bool_decide (k ≤ n)).
Proof.
  apply (estimated_length_is_largest element_bytes (plan_config 100) ["a"; "b"] full_spec [] 1024);
    [reflexivity|lia|split; [reflexivity|exact I]|discriminate|simpl; lia].
Defined.

(** * Tensors *)

Definition total_size (l : list KVCacheTensor) : Z := foldr Z.add 0 (map kt_size l).
Definition tensor_layers (l : list KVCacheTensor) : list string := concat (map shared_by l).
Definition group_layers (l : list WorkerGroup) : list string := concat (map wg_layer_names l).

(** A step of the transposition: the [n]-th layers of all groups. *)
Lemma concat_take_S (ls : list (list string)) n :
  concat (map (take (S n)) ls) ≡ₚ concat (map (take n) ls) ++ omap (λ l, l !! n) ls.
Proof.
  induction ls as [|l ls IH]; [done|]. cbn [map concat omap list_omap].
  rewrite IH. destruct (l !! n) as [x|] eqn:Hx.
  - rewrite (take_S_r _ _ _ Hx), <- !app_assoc. f_equiv. cbn [app]. apply Permutation_middle.
  - apply lookup_ge_None in Hx. rewrite !take_ge by lia. by rewrite <- app_assoc.
Qed.

(** Every layer is in exactly one tensor. *)
Lemma shared_tensors_layers groups size n :
  (∀ g, g ∈ groups → (length (wg_layer_names g) ≤ n)%nat) →
  tensor_layers (shared_tensors groups size n) ≡ₚ group_layers groups.
Proof.
  intros Hn. unfold tensor_layers, shared_tensors, group_layers. rewrite map_map. cbn [shared_by].
  assert (Ht : ∀ k, concat (map (λ i : nat, omap (λ g, wg_layer_names g !! i) groups) (seq 0 k))
    ≡ₚ concat (map (take k) (map wg_layer_names groups))).
  { induction k as [|k IH].
    - simpl. clear. induction groups as [|g groups IH]; [done|]. simpl. by rewrite <- IH.
    - rewrite seq_S, map_app, concat_app, IH, concat_take_S. f_equiv. simpl. rewrite app_nil_r.
      clear. induction groups as [|g groups IH]; [done|]. simpl.
      destruct (wg_layer_names g !! k); simpl; by rewrite IH. }
  rewrite Ht. apply reflexive_eq. f_equal. clear Ht.
  induction groups as [|g groups IH]; [done|]. simpl. f_equal.
  - apply take_ge, Hn. by left.
  - apply IH. intros h Hh. apply Hn. by right.
Qed.

Lemma total_shared groups size n :
  total_size (shared_tensors groups size n) = Z.of_nat n * size.
Proof.
  unfold total_size, shared_tensors. rewrite map_map. cbn [kt_size].
  generalize 0%nat as k. induction n as [|n IH]; intros k; [done|]. cbn [seq map foldr].
  rewrite IH. lia.
Qed.

Lemma foldl_max_ge l a x : x ∈ a :: l → x ≤ foldl Z.max a l.
Proof.
  revert a x. induction l as [|y l IH]; intros a x Hx; simpl.
  - apply list_elem_of_singleton in Hx as ->. lia.
  - assert (Hm : ∀ b, b ≤ foldl Z.max b l) by (intros b; apply IH; by left).
    specialize (Hm (Z.max a y)). apply elem_of_cons in Hx as [->|Hx]; [lia|].
    apply elem_of_cons in Hx as [->|Hx]; [lia|]. apply IH. by right.
Qed.
Lemma max_list_ge l m x : max_list l = Ok m → x ∈ l → x ≤ m.
Proof. destruct l as [|a l]; [done|]. intros [= <-]. apply foldl_max_ge. Qed.

(** The configuration of one worker before the numbers of blocks are unified. *)
Record config_fits (avail : Z) (groups : list WorkerGroup) (cfg : WorkerConfig) : Prop := {
  cf_groups : wc_groups cfg = groups;
  cf_layers : tensor_layers (wc_tensors cfg) ≡ₚ group_layers groups;
  cf_total : total_size (wc_tensors cfg) ≤ avail;
  cf_sizes t : t ∈ wc_tensors cfg → 0 ≤ kt_size t
}.

Definition single_groups (groups : list WorkerGroup) : Prop :=
  ∀ g, g ∈ groups → ∃ s, wg_spec g = SingleSpec s.
Definition positive_pages (es : dtype → Z) (groups : list WorkerGroup) : Prop :=
  ∀ p, get_uniform_page_size es (map wg_spec groups) = Ok p → 0 < p.

Lemma general_config_fits es v groups avail cfg :
  general_config es v groups avail = Ok cfg → num_gpu_blocks_override v = None →
  0 ≤ avail → positive_pages es groups → config_fits avail groups cfg ∧ 0 ≤ wc_num_blocks cfg.
Proof.
  unfold general_config. intros H Hov Ha Hpp.
  apply rbind_ok_inv in H as (size & Hsize & H). apply rbind_ok_inv in H as (page & Hpage & H).
  pose proof (Hpp page Hpage) as Hp.
  destruct (bool_decide (0 < size)) eqn:Hs; [|done]. apply bool_decide_eq_true in Hs. simpl in H.
  unfold get_num_blocks, floordiv in H. rewrite !decide_False in H by lia.
  cbn [rbind] in H. rewrite decide_False in H by lia. cbn [rbind] in H.
  unfold may_override_num_blocks in H. rewrite Hov in H. injection H as <-.
  pose proof (Z.div_pos avail page ltac:(lia) Hp).
  pose proof (Z.div_pos (avail / page) size ltac:(lia) Hs). rewrite Z.max_l by done.
  pose proof (Z.mul_div_le avail page Hp). pose proof (Z.mul_div_le (avail / page) size Hs).
  set (nb := avail / page / size) in *. split; [split|]; cbn [wc_groups wc_tensors wc_num_blocks].
  - done.
  - apply shared_tensors_layers. intros g Hg.
    pose proof (max_list_ge _ _ (len (wg_layer_names g)) Hsize) as Hge.
    unfold len in Hge. assert (Z.of_nat (length (wg_layer_names g)) ≤ size); [|lia].
    apply Hge, list_elem_of_fmap. by exists g.
  - rewrite total_shared, Z2Nat.id by lia. nia.
  - intros t Ht. apply list_elem_of_fmap in Ht as (i & -> & _). cbn [kt_size]. nia.
  - done.
Qed.

Lemma config_from_groups_fits es v groups avail cfg :
  get_kv_cache_config_from_groups es v groups avail = Ok cfg →
  num_gpu_blocks_override v = None → 0 ≤ avail → single_groups groups →
  positive_pages es groups → config_fits avail groups cfg ∧ 0 ≤ wc_num_blocks cfg.
Proof.
  intros H Hov Ha Hs Hp. destruct groups as [|[names [s|u]] rest]; simpl in H.
  - injection H as <-. split; [|simpl; lia]. split; simpl; try done. by intros t Ht%not_elem_of_nil.
  - by apply (general_config_fits es v).
  - destruct (Hs (mkWorkerGroup names (UniformSpec u))) as [s Hs']; [by left|done].
Qed.

Lemma shrink_fits mn cfg cfg' avail groups :
  shrink_config mn cfg = Ok cfg' → config_fits avail groups cfg →
  0 ≤ mn ≤ wc_num_blocks cfg → config_fits avail groups cfg' ∧ wc_num_blocks cfg' = mn.
Proof.
  unfold shrink_config. intros H [Hg Hl Ht Hpos] Hmn.
  apply rbind_ok_inv in H as (ts & Hts & [= <-]). apply collect_inv in Hts. split; [|done].
  assert (Hshr : Forall2 (λ t t', shared_by t' = shared_by t ∧ 0 ≤ kt_size t' ≤ kt_size t)
    (wc_tensors cfg) ts).
  { apply Forall2_fmap_l in Hts. clear -Hts Hpos Hmn. revert Hpos.
    induction Hts as [|t t' l l' H _ IH]; intros Hpos; constructor;
      [|apply IH; intros u Hu; apply Hpos; by right].
    unfold shrink_tensor, floordiv in H. specialize (Hpos t (list_elem_of_here _ _)).
    destruct (decide (wc_num_blocks cfg = 0)) as [|Hnz]; [done|]. simpl in H.
    case_decide as Hmod; [|done]. injection H as <-. cbn [shared_by kt_size]. split; [done|].
    pose proof (Z.div_mod (kt_size t) (wc_num_blocks cfg) Hnz) as Hd. rewrite Hmod in Hd.
    pose proof (Z.div_pos (kt_size t) (wc_num_blocks cfg) Hpos ltac:(lia)). nia. }
  clear Hts. split; cbn [wc_groups wc_tensors].
  - done.
  - rewrite <- Hl. unfold tensor_layers. apply reflexive_eq. f_equal. clear -Hshr.
    induction Hshr as [|t t' l l' [Hs _] _ IH]; [done|]. simpl. by rewrite Hs, IH.
  - etrans; [|exact Ht]. unfold total_size. clear -Hshr.
    induction Hshr as [|t t' l l' [_ Hs] _ IH]; [done|]. simpl. lia.
  - intros t' Ht'. apply list_elem_of_lookup in Ht' as [i Hi].
    destruct (Forall2_lookup_r _ _ _ _ _ Hshr Hi) as (t & _ & _ & H). lia.
Qed.

Lemma foldl_min_le l a x : x ∈ a :: l → foldl Z.min a l ≤ x.
Proof.
  revert a x. induction l as [|y l IH]; intros a x Hx; simpl.
  - apply list_elem_of_singleton in Hx as ->. lia.
  - assert (Hm : ∀ b, foldl Z.min b l ≤ b) by (intros b; apply IH; by left).
    specialize (Hm (Z.min a y)). apply elem_of_cons in Hx as [->|Hx]; [lia|].
    apply elem_of_cons in Hx as [->|Hx]; [lia|]. apply IH. by right.
Qed.
Lemma foldl_min_in l a : foldl Z.min a l ∈ a :: l.
Proof.
  revert a. induction l as [|y l IH]; intros a; simpl; [by left|].
  destruct (Z.min_spec a y) as [[_ ->]|[_ ->]].
  - destruct (elem_of_cons l (foldl Z.min a l) a) as [H _].
    destruct (H (IH a)) as [->|Hx]; [by left|by do 2 right].
  - by right.
Qed.

(** C34. The configurations of all workers have the same number of blocks; and
    when no [num_gpu_blocks_override] is given and the groups have single
    specifications with pages of positive size, each worker's tensors together
    fit in the memory available to it, and they hold each layer of each of its
    groups exactly once. *)
Theorem worker_configs_fit es v workers avails c configs :
  get_kv_cache_configs es v workers avails = Ok (c, configs) →
  num_gpu_blocks_override v = None →
  length configs = Nat.min (length workers) (length avails) ∧
  ∃ n, ∀ i cfg, configs !! i = Some cfg →
    wc_num_blocks cfg = n ∧
    ∀ avail, avails !! i = Some avail → 0 ≤ avail →
      (∀ j a, avails !! j = Some a → 0 ≤ a) →
      (∀ cfg', cfg' ∈ configs → single_groups (wc_groups cfg') ∧
         positive_pages es (wc_groups cfg')) →
      total_size (wc_tensors cfg) ≤ avail ∧
      tensor_layers (wc_tensors cfg) ≡ₚ group_layers (wc_groups cfg).
Proof.
  unfold get_kv_cache_configs. intros H Hov.
  apply rbind_ok_inv in H as ([c' groups] & _ & H).
  apply rbind_ok_inv in H as (cfgs & Hcfgs & H). apply rbind_ok_inv in H as (mn & Hmn & H).
  apply rbind_ok_inv in H as (out & Hout & [= -> ->]).
  apply collect_inv in Hcfgs, Hout. pose proof (Forall2_length _ _ _ Hcfgs) as Hl1.
  pose proof (Forall2_length _ _ _ Hout) as Hl2. rewrite length_map in Hl1, Hl2.
  rewrite length_zip_with in Hl1. split; [lia|]. exists mn.
  assert (Hpre : ∀ i cfg', configs !! i = Some cfg' → ∃ cfg spec avail,
    cfgs !! i = Some cfg ∧ avails !! i = Some avail ∧ shrink_config mn cfg = Ok cfg' ∧
    get_kv_cache_config_from_groups es v (worker_groups groups spec) avail = Ok cfg ∧
    wc_groups cfg' = wc_groups cfg ∧ wc_num_blocks cfg' = mn).
  { intros i cfg' Hi. destruct (Forall2_lookup_r _ _ _ _ _ Hout Hi) as (r & Hr & ->).
    rewrite lookup_map in Hr. apply fmap_Some in Hr as (cfg & Hcfg & Hsh).
    destruct (Forall2_lookup_r _ _ _ _ _ Hcfgs Hcfg) as (r & Hr & ->).
    rewrite lookup_map in Hr. apply fmap_Some in Hr as ([spec avail] & Hz & Hw).
    apply lookup_zip_Some in Hz as [_ Ha]. exists cfg, spec, avail. cbn [fst snd] in Hw.
    unfold worker_config in Hw. destruct (negb _); [done|]. symmetry in Hsh.
    pose proof Hsh as Hsh'. unfold shrink_config in Hsh'.
    by apply rbind_ok_inv in Hsh' as (ts & _ & [= <-]). }
  intros i cfg' Hi. destruct (Hpre i cfg' Hi) as (cfg & spec & avail & Hcfg & Ha & Hsh & Hfg & Hg & Hn).
  split; [done|]. intros avail' Ha' Hpos Hall Hok. assert (avail' = avail) as -> by congruence.
  assert (Hfit : ∀ j q q' sp a, configs !! j = Some q' → cfgs !! j = Some q →
    avails !! j = Some a → wc_groups q' = wc_groups q →
    get_kv_cache_config_from_groups es v (worker_groups groups sp) a = Ok q →
    config_fits a (wc_groups q) q ∧ 0 ≤ wc_num_blocks q).
  { intros j q q' sp a Hq' Hq Haj Hgq Hc.
    assert (Hwg : wc_groups q = worker_groups groups sp).
    { clear -Hc. destruct (worker_groups groups sp) as [|[ns [s|u]] [|g2 rest]]; simpl in Hc;
        [by injection Hc as <-|..];
        repeat (apply rbind_ok_inv in Hc as (? & _ & Hc)); try (by injection Hc as <-);
        unfold general_config in Hc; repeat (apply rbind_ok_inv in Hc as (? & _ & Hc));
        destruct (negb _); try done; repeat (apply rbind_ok_inv in Hc as (? & _ & Hc));
        by injection Hc as <-. }
    destruct (Hok q') as [Hs Hp]; [by eapply list_elem_of_lookup_2|]. rewrite Hgq, Hwg in *.
    apply (config_from_groups_fits es v); eauto. }
  destruct (Hfit i cfg cfg' spec avail Hi Hcfg Ha Hg Hfg) as [Hf _].
  assert (Hmn' : 0 ≤ mn ≤ wc_num_blocks cfg).
  { destruct cfgs as [|c0 cfgs']; [done|]. injection Hmn as <-. split.
    - pose proof (foldl_min_in (map wc_num_blocks cfgs') (wc_num_blocks c0)) as Hin.
      apply (list_elem_of_fmap wc_num_blocks (c0 :: cfgs')) in Hin as (q & -> & Hq).
      apply list_elem_of_lookup in Hq as [j Hj].
      destruct (lookup_lt_is_Some_2 configs j) as [q' Hq']; [apply lookup_lt_Some in Hj; lia|].
      destruct (Hpre j q' Hq') as (q0 & sp & a & Hq0 & Haj & _ & Hfq & Hgq & _).
      assert (q0 = q) as -> by congruence. by apply (Hfit j q q' sp a).
    - apply foldl_min_le. apply (list_elem_of_fmap wc_num_blocks (c0 :: cfgs')). exists cfg.
      split; [done|]. by eapply list_elem_of_lookup_2. }
  destruct (shrink_fits mn cfg cfg' avail (wc_groups cfg) Hsh Hf Hmn') as [[_ Hl Ht _] _].
  split; [done|]. by rewrite Hg.
Qed.

Definition plan_vllm (max_len : Z) : VllmConfig := mkVllmConfig (plan_config max_len) max_len None false.
Definition two_layers : specs := [("a", full_spec); ("b", full_spec)].

Lemma worker_configs_fit_witness :
  ∃ c configs,
    get_kv_cache_configs element_bytes (plan_vllm 16) [two_layers; two_layers] [30000; 40000]
      = Ok (c, configs) ∧
    length configs = Nat.min 2 2 ∧
    ∃ n, ∀ i cfg, configs !! i = Some cfg →
      wc_num_blocks cfg = n ∧
      ∀ avail, [30000; 40000] !! i = Some avail → 0 ≤ avail →
        (∀ j a, [30000; 40000] !! j = Some a → 0 ≤ a) →
        (∀ cfg', cfg' ∈ configs → single_groups (wc_groups cfg') ∧
           positive_pages element_bytes (wc_groups cfg')) →
        total_size (wc_tensors cfg) ≤ avail ∧
        tensor_layers (wc_tensors cfg) ≡ₚ group_layers (wc_groups cfg).
Proof.
  eexists _, _. split; [vm_compute; reflexivity|].
  apply (worker_configs_fit element_bytes (plan_vllm 16) [two_layers; two_layers] [30000; 40000]
    (plan_config 16)); [vm_compute; reflexivity|reflexivity].
Defined.

(** * What the memory check misses *)

(** A KV cache manager on the planned memory: the configurations, the
    scheduler's one and the manager, with blocks of 4 tokens, no prefix caching. *)
Definition planned_manager (max_len : Z) (workers : list specs) (avails : list Z)
    : res KVCacheManager :=
  letr (c, configs) := get_kv_cache_configs element_bytes (plan_vllm max_len) workers avails in
  letr cfg := generate_scheduler_kv_cache_config configs in
  KVCacheManager_init cfg (mc_max_model_len c) 4 false false false false false 1 1 None.

Definition allocate_on (max_len : Z) (workers : list specs) (avails : list Z) (n : Z)
    : res (option KVCacheBlocks) :=
  letr m := planned_manager max_len workers avails in
  fst (allocate_slots (tokens_request "r" (replicate (Z.to_nat n) 7) []) n 0 None 0 0 true 0 m).

(** The memory check accepts a cache that cannot hold one request of the
    model's length.  It counts the blocks of one group only, although every
    group allocates its own blocks from the shared pool, and it does not count
    the null block that the pool takes away.  With 16-token requests in blocks
    of 4: one full-attention group with memory for exactly 4 blocks passes the
    check, and a request of 15 tokens is refused by the empty cache; one more
    block serves it.  A full-attention and a sliding-window group pass the
    check with 5 blocks, and the same request is refused up to 8 blocks. *)
Theorem memory_check_admits_unservable :
  let one := [[("a", full_spec)]] in
  let two := [[("a", full_spec); ("b", window_spec)]] in
  check_enough_kv_cache_memory element_bytes (plan_config 16) [("a", full_spec)] (4 * 1024) = Ok tt ∧
  allocate_on 16 one [4 * 1024] 15 = Ok None ∧
  (∃ b, allocate_on 16 one [5 * 1024] 15 = Ok (Some b)) ∧
  allocate_on 16 two [5 * 1024] 15 = Ok None ∧
  allocate_on 16 two [8 * 1024] 15 = Ok None ∧
  (∃ b, allocate_on 16 two [9 * 1024] 15 = Ok (Some b)).
Proof.
  cbv zeta. split; [vm_compute; reflexivity|]. split; [vm_compute; reflexivity|].
  split; [eexists; vm_compute; reflexivity|]. split; [vm_compute; reflexivity|].
  split; [vm_compute; reflexivity|]. eexists; vm_compute; reflexivity.
Qed.
