(* ===== verification/KVGroups.v ===== *)
(** Grouping the layers of a model (vllm/v1/core/kv_cache_utils.py, lines
    900-1070): unifying the page sizes, and splitting the layers into groups of
    equal specifications. *)

From S2P Require Import Prelude.
From S2P Require Import KVCacheInterface.
From S2P Require Import KVMemory.
From S2P Require Import KVMemorySpec.

(** * Unifying page sizes *)

(** The layer with a block size [k] times as large. *)
Definition rescale (x : string * KVCacheSpec) (k : Z) : string * KVCacheSpec :=
  (x.1, copy_with_new_block_size (spec_block_size x.2 * k) x.2).
(** Layers whose page grows with the block size. *)
Definition scalable (s : KVCacheSpec) : Prop := is_Some (spec_attention s) ∧ spec_page_size_padded s = None.

Lemma rescale_1 x : rescale x 1 = x.
Proof. destruct x as [n s]. unfold rescale. rewrite Z.mul_1_r. cbn. by destruct s as [[]|[]|[]|[]|[]| |[]|[]]. Qed.

Lemma rescaled_page es x p k : scalable x.2 → page_size_bytes es x.2 = Ok p → page_size_bytes es (rescale x k).2 = Ok (k * p).
Proof.
  destruct x as [n s]. intros [Ha Hp]. unfold page_size_bytes, rescale. cbn [snd fst] in *. rewrite Hp. intros [= <-].
  destruct s; cbn in *; try by destruct Ha. all: rewrite Hp; f_equal.
  all: unfold full_page_size, mla_page_size, attention_page_size; cbn; try case_decide; ring.
Qed.

(** One layer, whose page has size [p], by cases. *)
Lemma unify_layer_eq es P x p : page_size_bytes es x.2 = Ok p → 0 < p →
  (∀ y, unify_layer es P x = Ok y → y = rescale x (P / p) ∧ page_size_bytes es y.2 = Ok P) ∧
  ((p ≠ P → scalable x.2) →
   unify_layer es P x = if decide (P mod p = 0) then Ok (rescale x (P / p)) else Raise NotImplementedError).
Proof.
  destruct x as [name s]. unfold unify_layer. cbn [snd]. intros Hp Hp0. rewrite Hp. cbn [rbind]. case_decide as Heq.
  { subst P. rewrite Z.mod_same, Z.div_same, rescale_1 by lia. split; [by intros y [= <-]|by rewrite decide_True]. }
  unfold floordiv. rewrite (decide_False (P := p = 0)) by lia. cbn [rbind].
  change (copy_with_new_block_size (spec_block_size s * (P / p)) s) with (rescale (name, s) (P / p)).2.
  destruct (decide (P mod p = 0)) as [Hm|Hm]; [rewrite decide_False by auto|by rewrite decide_True].
  destruct (page_size_bytes es (rescale (name, s) (P / p)).2) as [q|e] eqn:Hq; cbn [rbind]; split.
  - case_decide as HqP; [|done]. intros y [= <-]. by subst q.
  - intros Hs. specialize (Hs ltac:(done)). rewrite (rescaled_page es (name, s) p (P / p) Hs Hp) in Hq. injection Hq as <-.
    rewrite decide_True; [done|]. pose proof (Z.div_mod P p). lia.
  - done.
  - intros Hs. specialize (Hs ltac:(done)). by rewrite (rescaled_page es (name, s) p (P / p) Hs Hp) in Hq.
Qed.

Lemma unify_layers es P spec pages : Forall2 (λ x p, page_size_bytes es x.2 = Ok p ∧ 0 < p) spec pages →
  (∀ spec', collect (map (unify_layer es P) spec) = Ok spec' → spec' = zip_with (λ x p, rescale x (P / p)) spec pages ∧
     ∀ y, y ∈ spec' → page_size_bytes es y.2 = Ok P) ∧
  ((∀ x p, (x, p) ∈ zip spec pages → p ≠ P → scalable x.2) → collect (map (unify_layer es P) spec) =
     if decide (Forall (λ p, P mod p = 0) pages) then Ok (zip_with (λ x p, rescale x (P / p)) spec pages) else Raise NotImplementedError).
Proof.
  induction 1 as [|x p spec pages [Hp Hp0] _ [IH1 IH2]]; [split; [intros ? [= <-]; split; [done|by intros ? ?%not_elem_of_nil]|done]|].
  destruct (unify_layer_eq es P x p Hp Hp0) as [H1 H2]. cbn [map collect zip_with zip]. split.
  - intros spec' Hs. destruct (unify_layer es P x) as [y|] eqn:Hy; [|done]. cbn in Hs.
    destruct (collect _) as [l|] eqn:Hl; [|done]. injection Hs as <-. destruct (H1 y eq_refl) as [Hy1 Hy2]. destruct (IH1 l eq_refl) as [Hl1 Hl2].
    split; [congruence|]. intros z [->|Hz]%elem_of_cons; auto.
  - intros Hs. rewrite H2 by (intros; eapply Hs; [by left|done]).
    destruct (decide (P mod p = 0)) as [Hm|Hm]; [|rewrite decide_False by (by intros [? _]%Forall_cons); done].
    cbn [rbind]. rewrite IH2 by (intros ? ? ?; apply Hs; by right).
    destruct (decide (Forall _ pages)) as [Hf|Hf].
    + rewrite (decide_True (P := Forall _ (_ :: _))) by (by constructor). done.
    + rewrite (decide_False (P := Forall _ (_ :: _))) by (by intros [_ ?]%Forall_cons). done.
Qed.

Lemma max_list_in l m : max_list l = Ok m → m ∈ l.
Proof.
  destruct l as [|a l]; [done|]. intros [= <-]. revert a.
  induction l as [|y l IH]; intros a; simpl; [by left|].
  destruct (Z.max_spec a y) as [[_ ->]|[_ ->]]; [by right|].
  destruct (elem_of_cons l (foldl Z.max a l) a) as [H _].
  destruct (H (IH a)) as [->|Hx]; [by left|by do 2 right].
Qed.

(** C35. Unifying the page sizes of a hybrid model, whose pages have the given
    sizes: with [P] the largest of them, a result has the layers in their
    order, with block sizes multiplied by the quotient of [P] and the layer's
    page size and nothing else changed, and all pages of size [P].  When the
    layers with smaller pages are attention layers without padding, there is
    a result exactly when their page sizes divide [P], and otherwise
    [NotImplementedError] is raised. *)
Theorem unified_page_size es spec pages :
  spec ≠ [] → Forall2 (λ x p, page_size_bytes es x.2 = Ok p ∧ 0 < p) spec pages →
  ∃ P, P ∈ pages ∧ (∀ p, p ∈ pages → p ≤ P) ∧
    (∀ spec', unify_kv_cache_spec_page_size es spec = Ok spec' →
       spec' = zip_with (λ x p, rescale x (P / p)) spec pages ∧ ∀ y, y ∈ spec' → page_size_bytes es y.2 = Ok P) ∧
    ((∀ x p, (x, p) ∈ zip spec pages → p ≠ P → scalable x.2) →
     unify_kv_cache_spec_page_size es spec =
       if decide (Forall (λ p, P mod p = 0) pages) then Ok (zip_with (λ x p, rescale x (P / p)) spec pages)
       else Raise NotImplementedError).
Proof.
  intros Hne Hf. assert (Hl : collect (map (page_size_bytes es) (map snd spec)) = Ok pages).
  { clear Hne. induction Hf as [|x p spec pages [Hp _] _ IH]; [done|]. cbn. by rewrite Hp, IH. }
  unfold unify_kv_cache_spec_page_size, page_sizes. rewrite Hl. cbn [rbind].
  destruct (remove_dups pages) as [|a l] eqn:Hd.
  { destruct Hf as [|x p spec pages]; [done|]. assert (Hin : p ∈ remove_dups (p :: pages)) by (apply elem_of_remove_dups; by left).
    rewrite Hd in Hin. by apply not_elem_of_nil in Hin. }
  set (P := foldl Z.max a l). assert (HP : max_list (a :: l) = Ok P) by done. exists P.
  split; [apply elem_of_remove_dups; rewrite Hd; by apply max_list_in|].
  split; [intros p Hp%elem_of_remove_dups; rewrite Hd in Hp; by eapply max_list_ge|].
  destruct (unify_layers es P spec pages Hf) as [H1 H2].
  assert (Hrun : (if decide (len (a :: l) ≤ 1) then Ok spec else letr max_page_size := max_list (a :: l) in collect (map (unify_layer es max_page_size) spec)) =
    collect (map (unify_layer es P) spec)); [rewrite HP; cbn [rbind]|by rewrite Hrun].
  clear H1 H2. destruct (decide (len (a :: l) ≤ 1)) as [Hlen|Hlen]; [|done]. assert (l = []) as -> by (destruct l; [done|]; rewrite !len_cons in Hlen; pose proof (len_nonneg l); lia).
  assert (Hall : Forall (λ p, p = P) pages).
  { apply Forall_forall. intros p Hp%elem_of_remove_dups. rewrite Hd in Hp. by apply list_elem_of_singleton in Hp. }
  symmetry. clear -Hf Hall. revert Hall. induction Hf as [|x p spec pages [Hp Hp0] Hf IH]; intros Hall; [done|].
  apply Forall_cons in Hall as [-> Hall]. cbn [map collect]. rewrite (proj2 (unify_layer_eq es P x P Hp Hp0)) by done.
  rewrite Z.mod_same, Z.div_same, rescale_1 by lia. rewrite decide_True by done. cbn [rbind]. by rewrite IH.
Qed.

(** * Grouping *)

(** [layers\[i::num_groups\]] for all [i] is a partition of the layers. *)
Lemma every_partition n l :
  (0 < n)%nat → concat (map (λ i, every n i l) (seq 0 n)) ≡ₚ l.
Proof.
  intros Hn. induction l as [|x l IH].
  { induction (seq 0 n) as [|i s IHs]; [done|]. simpl. done. }
  destruct n as [|n]; [lia|]. cbn [seq map concat every app]. rewrite ?Nat.sub_0_r, ?Nat.sub_succ, ?Nat.sub_0_r.
  f_equiv. etrans; [|exact IH]. rewrite <- (seq_shift n 0), map_map, seq_S, map_app, concat_app.
  cbn [every map concat]. rewrite app_nil_r. apply Permutation_app_comm.
Qed.

Lemma split_layers_partition size l :
  0 < size → l ≠ [] → concat (split_layers size l) ≡ₚ l.
Proof.
  intros Hs Hl. unfold split_layers. apply every_partition.
  assert (0 < cdiv (len l) size); [|lia]. apply cdiv_lt_iff; [done|].
  destruct l; [done|]. rewrite len_cons. pose proof (len_nonneg l). lia.
Qed.

Lemma every_len n i l :
  (i < n)%nat → (length (every n i l) * n ≤ length l + n - 1 - i)%nat.
Proof.
  revert i. induction l as [|x l IH]; intros i Hi; cbn [every]; [simpl; lia|].
  destruct i as [|i]; cbn [length].
  - specialize (IH (n - 1)%nat ltac:(lia)). lia.
  - specialize (IH i ltac:(lia)). lia.
Qed.

Lemma split_layers_len size l i :
  0 < size → i ∈ seq 0 (Z.to_nat (cdiv (len l) size)) →
  len (every (Z.to_nat (cdiv (len l) size)) i l) ≤ size.
Proof.
  intros Hs Hi. apply elem_of_seq in Hi as [_ Hi]. rewrite Nat.add_0_l in Hi.
  pose proof (cdiv_spec (len l) size Hs).
  pose proof (every_len _ i l Hi) as He. set (n := cdiv (len l) size) in *.
  set (k := every (Z.to_nat n) i l) in *. unfold len in *.
  assert (Z.of_nat (length k) * n ≤ Z.of_nat (length l) + n - 1).
  { apply inj_le in He. fold k in He. rewrite Nat2Z.inj_mul, Z2Nat.id in He by lia. lia. }
  destruct (decide (Z.of_nat (length k) ≤ size)); [done|].
  assert ((size + 1) * n ≤ Z.of_nat (length k) * n) by (apply Z.mul_le_mono_nonneg_r; lia). lia.
Qed.

Lemma min_list_in l m : min_list l = Ok m → m ∈ l.
Proof. destruct l as [|a l]; [done|]. intros [= <-]. apply foldl_min_in. Qed.
Lemma every_in n i l x : x ∈ every n i l → x ∈ l.
Proof.
  revert i. induction l as [|y l IH]; intros i Hx; [by apply not_elem_of_nil in Hx|].
  destruct i as [|i]; cbn [every] in Hx.
  - apply elem_of_cons in Hx as [->|Hx]; [by left|right; eauto].
  - right. eauto.
Qed.

(** The layers sorted by their specification. *)
Lemma add_layer_layers d s name :
  concat (map snd (add_layer d s name)) ≡ₚ concat (map snd d) ++ [name].
Proof.
  induction d as [|[s' names] d IH]; simpl; [done|]. case_decide; simpl.
  - rewrite <- !app_assoc. f_equiv. apply Permutation_app_comm.
  - by rewrite IH, app_assoc.
Qed.
Lemma add_layer_in d s name s0 names x :
  (s0, names) ∈ add_layer d s name → x ∈ names →
  (s0 = s ∧ x = name) ∨ ∃ names', (s0, names') ∈ d ∧ x ∈ names'.
Proof.
  induction d as [|[s' ns] d IH]; simpl; intros Hin Hx.
  - apply list_elem_of_singleton in Hin. simplify_eq. apply list_elem_of_singleton in Hx. by left.
  - case_decide as Hs; apply elem_of_cons in Hin as [Heq|Hin].
    + simplify_eq. apply elem_of_app in Hx as [Hx|Hx%list_elem_of_singleton]; [right|by left].
      exists ns. split; [by left|done].
    + right. exists names. split; [by right|done].
    + simplify_eq. right. exists ns. split; [by left|done].
    + destruct (IH Hin Hx) as [?|(n' & ? & ?)]; [by left|]. right. exists n'. split; [by right|done].
Qed.
Lemma add_layer_nonempty d s name s0 names :
  (∀ s0 names, (s0, names) ∈ d → names ≠ []) → (s0, names) ∈ add_layer d s name → names ≠ [].
Proof.
  induction d as [|[s' ns] d IH]; simpl; intros Hd Hin.
  - apply list_elem_of_singleton in Hin. by simplify_eq.
  - case_decide as Hs; apply elem_of_cons in Hin as [Heq|Hin]; simplify_eq.
    + by destruct ns.
    + apply (Hd s0). by right.
    + apply (Hd s'). by left.
    + apply IH; [|done]. intros. eapply Hd. by right.
Qed.

Lemma group_by_spec_ok spec :
  concat (map snd (group_by_spec spec)) ≡ₚ map fst spec ∧
  (∀ s names x, (s, names) ∈ group_by_spec spec → x ∈ names → (x, s) ∈ spec) ∧
  (∀ s names, (s, names) ∈ group_by_spec spec → names ≠ []).
Proof.
  unfold group_by_spec. induction spec as [|[name s] spec IH] using rev_ind.
  { split; [done|]. split; intros *; [by intros ?%not_elem_of_nil..]. }
  rewrite foldl_app. cbn [foldl fst snd]. destruct IH as (Hp & Hin & Hne). split_and!.
  - by rewrite add_layer_layers, Hp, map_app.
  - intros s0 names x Hg Hx. destruct (add_layer_in _ _ _ _ _ _ Hg Hx) as [[-> ->]|(n' & Hn' & Hx')].
    + apply elem_of_app. right. by left.
    + apply elem_of_app. left. by eapply Hin.
  - intros s0 names. by apply add_layer_nonempty.
Qed.

Lemma create_groups_ok spec grouped groups :
  create_kv_cache_group_specs spec grouped = Ok groups →
  map wg_layer_names groups = grouped ∧
  ∀ g, g ∈ groups → ∃ layer_specs s, wg_spec g = SingleSpec s ∧ merge layer_specs = Ok s ∧
    Forall2 (λ n l, assoc spec n = Ok l) (wg_layer_names g) layer_specs.
Proof.
  unfold create_kv_cache_group_specs. intros H. apply collect_inv, Forall2_fmap_l in H.
  assert (Hall : Forall2 (λ names g, wg_layer_names g = names ∧ ∃ layer_specs s,
    wg_spec g = SingleSpec s ∧ merge layer_specs = Ok s ∧
    Forall2 (λ n l, assoc spec n = Ok l) (wg_layer_names g) layer_specs) grouped groups).
  { eapply Forall2_impl; [exact H|]. intros names g Hg. simpl in Hg.
    apply rbind_ok_inv in Hg as (ls & Hls & Hg). apply rbind_ok_inv in Hg as (s & Hs & [= <-]).
    split; [done|]. exists ls, s. split_and!; [done|done|]. simpl.
    by apply collect_inv, Forall2_fmap_l in Hls. }
  split.
  - clear H. induction Hall as [|names g l l' [Hn _] _ IH]; [done|]. simpl. by rewrite Hn, IH.
  - intros g [i Hi]%list_elem_of_lookup.
    by destruct (Forall2_lookup_r _ _ _ _ _ Hall Hi) as (? & _ & _ & ?).
Qed.

Lemma assoc_in spec n s : NoDup (map fst spec) → (n, s) ∈ spec → assoc spec n = Ok s.
Proof.
  induction spec as [|[n' s'] spec IH]; simpl; intros Hnd Hin; [by apply not_elem_of_nil in Hin|].
  apply NoDup_cons in Hnd as [Hn' Hnd]. apply elem_of_cons in Hin as [[= -> ->]|Hin].
  - by rewrite decide_True.
  - rewrite decide_False; [by apply IH|]. intros ->. apply Hn'. apply list_elem_of_fmap.
    by exists (n', s).
Qed.

(** Grouping a hybrid model partitions its layers: every layer is in exactly
    one group, all layers of a group have the same specification, and no group
    has more layers than the group size, which is the number of layers of some
    specification. *)
Theorem grouping_partitions_layers spec groups :
  _get_kv_cache_groups_uniform_page_size spec = Ok groups → NoDup (map fst spec) →
  ∃ size, (∃ layers, size = len layers ∧ layers ∈ map snd (group_by_spec spec)) ∧
    group_layers groups ≡ₚ map fst spec ∧
    (∀ g, g ∈ groups → len (wg_layer_names g) ≤ size ∧
       ∃ s, (∀ n, n ∈ wg_layer_names g → assoc spec n = Ok s) ∧
       (∃ merged, wg_spec g = SingleSpec merged ∧
          merge (map (λ _, s) (wg_layer_names g)) = Ok merged)).
Proof.
  unfold _get_kv_cache_groups_uniform_page_size. intros H Hnd.
  apply rbind_ok_inv in H as (mn & Hmn & H). apply rbind_ok_inv in H as (mx & Hmx & H).
  set (size := choose_group_size mn mx) in *.
  destruct (group_by_spec_ok spec) as (Hp & Hin & Hne).
  assert (Hlen : ∀ l, l ∈ map snd (group_by_spec spec) → l ≠ []).
  { intros l Hl. apply list_elem_of_fmap in Hl as ([s names] & -> & Hg). by eapply Hne. }
  pose proof (min_list_in _ _ Hmn) as Hmin. pose proof (max_list_in _ _ Hmx) as Hmax.
  assert (Hsize : 0 < size).
  { assert (0 < mn).
    { apply list_elem_of_fmap in Hmin as (l & -> & Hl). specialize (Hlen l Hl).
      destruct l; [done|]. rewrite len_cons. pose proof (len_nonneg l). lia. }
    pose proof (max_list_ge _ _ mn Hmx Hmin).
    unfold size, choose_group_size. case_decide; lia. }
  destruct (create_groups_ok _ _ _ H) as [Hnames Hspecs]. exists size. split_and!.
  - unfold size, choose_group_size. case_decide; by apply list_elem_of_fmap.
  - unfold group_layers. rewrite Hnames, <- Hp. clear -Hlen Hsize. 
    induction (map snd (group_by_spec spec)) as [|l ls IH]; [done|]. simpl.
    rewrite concat_app, IH by (intros k Hk; apply Hlen; by right). f_equiv.
    apply split_layers_partition; [done|]. apply Hlen. by left.
  - intros g Hg. destruct (Hspecs g Hg) as (ls & merged & Hm1 & Hm2 & Hls).
    assert (Hgn : wg_layer_names g ∈ concat (map (split_layers size) (map snd (group_by_spec spec)))).
    { rewrite <- Hnames. apply list_elem_of_fmap. by exists g. }
    apply list_elem_of_In, in_concat in Hgn as (parts & Hparts & Hgn).
    apply in_map_iff in Hparts as (layers & <- & Hlayers).
    apply list_elem_of_In, list_elem_of_fmap in Hlayers as ([s names] & -> & Hsn).
    apply list_elem_of_In, list_elem_of_fmap in Hgn as (i & Hgn & Hi).
    assert (Hs : ∀ n, n ∈ wg_layer_names g → assoc spec n = Ok s).
    { intros n Hn. rewrite Hgn in Hn. apply every_in in Hn. apply assoc_in; [done|]. by eapply Hin. }
    split; [rewrite Hgn; by apply split_layers_len|].
    exists s. split; [done|]. exists merged. split; [done|].
    assert (ls = map (λ _, s) (wg_layer_names g)) as <-; [|done].
    clear -Hls Hs. induction Hls as [|n l names ls Hn _ IH]; [done|]. simpl. f_equal.
    + pose proof (Hs n (list_elem_of_here _ _)). congruence.
    + apply IH. intros k Hk. apply Hs. by right.
Qed.

Definition hybrid_layers : specs :=
  [("f0", full_spec); ("s0", window_spec); ("s1", window_spec); ("f1", full_spec);
   ("s2", window_spec)].

Lemma grouping_partitions_layers_witness :
  ∃ groups, _get_kv_cache_groups_uniform_page_size hybrid_layers = Ok groups ∧
    map wg_layer_names groups = [["f0"; "f1"]; ["s0"; "s2"]; ["s1"]] ∧
    ∃ size, (∃ layers, size = len layers ∧ layers ∈ map snd (group_by_spec hybrid_layers)) ∧
      group_layers groups ≡ₚ map fst hybrid_layers ∧
      (∀ g, g ∈ groups → len (wg_layer_names g) ≤ size ∧
         ∃ s, (∀ n, n ∈ wg_layer_names g → assoc hybrid_layers n = Ok s) ∧
         (∃ merged, wg_spec g = SingleSpec merged ∧
            merge (map (λ _, s) (wg_layer_names g)) = Ok merged)).
Proof.
  eexists. split; [vm_compute; reflexivity|]. split; [reflexivity|].
  apply grouping_partitions_layers; [vm_compute; reflexivity|].
  apply (bool_decide_eq_true_1 (NoDup (map fst hybrid_layers))). vm_compute. reflexivity.
Defined.

(** A full-attention layer, and one whose blocks are a quarter as large. *)
Lemma unified_page_size_witness :
  let quarter := copy_with_new_block_size 1 full_spec in
  unify_kv_cache_spec_page_size element_bytes [("a", full_spec); ("b", quarter)] =
    Ok [("a", full_spec); ("b", copy_with_new_block_size 4 quarter)].
Proof.
  cbv zeta. set (spec := [("a", full_spec); ("b", copy_with_new_block_size 1 full_spec)]).
  set (pages := map (λ x, match page_size_bytes element_bytes x.2 with Ok p => p | Raise _ => 0 end) spec).
  destruct (unified_page_size element_bytes spec pages) as (P & HP & Hmax & _ & Hrun); [done|by repeat constructor; vm_compute|].
  rewrite Hrun.
  - apply elem_of_cons in HP as [->|HP]; [vm_compute; reflexivity|]. apply list_elem_of_singleton in HP as ->.
    exfalso. apply (Hmax (hd 0 pages)); [by left|vm_compute; reflexivity].
  - intros x p Hx _. apply elem_of_cons in Hx as [[= -> _]|[= -> _]%list_elem_of_singleton]; (split; [by eexists|done]).
Defined.
