(* ===== verification/CacheHits.v ===== *)
(** The prefix-cache lookup of full-attention layers
    ([FullAttentionManager.find_longest_cache_hit]) finds the longest hit: the
    blocks it returns carry the hashes of the request's leading blocks, and no
    longer aligned prefix is cached in all groups. *)

From S2P Require Import Prelude.
From S2P Require Import KVBlocks.
From S2P Require Import Request.
From S2P Require Import BlockHash.
From S2P Require Import KVCacheMetrics.
From S2P Require Import BlockPool.
From S2P Require Import BlockPoolSpec.
From S2P Require Import KVCacheInterface.
From S2P Require Import SingleTypeManagers.

(** ** Tables of blocks: a column per group, a row per block of the request *)

Definition columns_of (n : nat) (rows : list (list loc)) (cols : list (list loc)) : Prop :=
  length cols = n ∧
  ∀ j c, cols !! j = Some c → length c = length rows ∧ ∀ i, c !! i = rows !! i ≫= (.!! j).

Lemma zip_append_lookup cols row j :
  length row = length cols →
  zip_append cols row !! j = c ← cols !! j; b ← row !! j; Some (c ++ [b]).
Proof.
  revert row j. induction cols as [|c cols IH]; intros [|b row] j Hlen; try done.
  simpl. destruct j as [|j]; [done|]. simpl. apply IH. by injection Hlen.
Qed.
Lemma zip_append_length cols row : length (zip_append cols row) = length cols.
Proof. revert row. induction cols as [|c cols IH]; intros [|b row]; simpl; auto. Qed.

Lemma columns_append n rows cols row :
  columns_of n rows cols → length row = n → columns_of n (rows ++ [row]) (zip_append cols row).
Proof.
  intros [Hn Hc] Hr. split; [by rewrite zip_append_length|]. intros j c'.
  rewrite zip_append_lookup by congruence.
  destruct (cols !! j) as [c|] eqn:Hj; [|done]. destruct (row !! j) as [b|] eqn:Hb; [|done].
  simpl. intros [= <-]. destruct (Hc j c Hj) as [Hl Hi]. rewrite !length_app, Hl. split; [done|].
  intros i. destruct (decide (i < length rows)%nat) as [Hlt|Hge].
  - rewrite !lookup_app_l by lia. apply Hi.
  - rewrite !lookup_app_r by lia. rewrite Hl. destruct (i - length rows)%nat as [|k]; [done|]. simpl.
    by rewrite !lookup_nil.
Qed.

Lemma columns_empty (gids : list Z) : columns_of (length gids) [] (map (λ _, []) gids).
Proof.
  split; [by rewrite length_map|]. intros j c. rewrite lookup_map.
  destruct (gids !! j); [|done]. intros [= <-]. split; [done|]. intros i. by rewrite !lookup_nil.
Qed.

(** ** Shortening all columns *)

Section shorten.
Context (cols : list (list loc)) (N : nat).
Context (Hne : cols ≠ []) (Hlen : ∀ c, c ∈ cols → length c = N).

Lemma first_len_take n : (n ≤ N)%nat → first_len (map (take n) cols) = Ok (Z.of_nat n).
Proof.
  intros Hn. destruct cols as [|c cs]; [done|]. simpl. unfold len. rewrite length_take.
  rewrite (Hlen c) by by left. do 2 f_equal. lia.
Qed.

Lemma removelast_take {A} (l : list A) : removelast l = take (pred (length l)) l.
Proof.
  induction l as [|a l IH]; [done|]. destruct l as [|b l]; [done|].
  change (removelast (a :: b :: l)) with (a :: removelast (b :: l)). rewrite IH. done.
Qed.

Lemma pop_all_take n :
  (0 < n ≤ N)%nat → pop_all (map (take n) cols) = Ok (map (take (pred n)) cols).
Proof.
  intros Hn. unfold pop_all. clear Hne. induction cols as [|c cs IH]; [done|]. simpl.
  assert (Hc : length c = N) by (apply Hlen; by left).
  assert (Ht : length (take n c) = n) by (rewrite length_take; lia).
  destruct (take n c) as [|x l] eqn:He; [simpl in Ht; lia|].
  rewrite IH by (intros; apply Hlen; by right). do 2 f_equal.
  rewrite removelast_take, <- He, length_take, take_take. f_equal. lia.
Qed.

Definition aligned (bs alignment : Z) (n : nat) : Prop :=
  bs = alignment ∨ Z.of_nat n * bs mod alignment = 0.

(** The loop stops at the longest aligned prefix. *)
Lemma align_loop_longest bs alignment fuel n p :
  (n ≤ N)%nat → (n ≤ fuel)%nat →
  ∃ k, align_loop fuel bs alignment (map (take n) cols) p = (Ok (map (take k) cols), p) ∧
    (k ≤ n)%nat ∧ aligned bs alignment k ∧ ∀ i, (k < i ≤ n)%nat → ¬ aligned bs alignment i.
Proof.
  revert n. induction fuel as [|fuel IH]; intros n Hn Hf; simpl.
  - assert (n = 0%nat) as -> by lia. exists 0%nat.
    destruct (decide (bs = alignment)) as [He|He]; [split; [done|]; split; [done|]; split; [by left|lia]|].
    rewrite first_len_take, bind_of_res by done. rewrite decide_True by done.
    split; [done|]. split; [done|]. split; [by right|lia].
  - destruct (decide (bs = alignment)) as [He|He].
    { exists n. split; [done|]. split; [done|]. split; [by left|lia]. }
    rewrite first_len_take, bind_of_res by done. case_decide as Hm.
    { exists n. split; [done|]. split; [done|]. split; [by right|lia]. }
    destruct n as [|n]; [done|].
    rewrite pop_all_take, bind_of_res by lia.
    destruct (IH n) as (k & Hrun & Hk & Ha & Hlong); [lia..|]. exists k.
    split; [exact Hrun|]. split; [lia|]. split; [done|]. intros i Hi.
    destruct (decide (i = S n)) as [->|]; [intros [?|?]; done|]. apply Hlong. lia.
Qed.

Lemma align_longest bs alignment n p :
  (n ≤ N)%nat →
  ∃ k, align bs alignment (map (take n) cols) p = (Ok (map (take k) cols), p) ∧
    (k ≤ n)%nat ∧ aligned bs alignment k ∧ ∀ i, (k < i ≤ n)%nat → ¬ aligned bs alignment i.
Proof.
  intros Hn. unfold align. apply align_loop_longest; [done|].
  destruct cols as [|c cs]; [done|]. simpl. rewrite length_take, (Hlen c) by by left. lia.
Qed.

Lemma drop_last_if_take eagle n p :
  (n ≤ N)%nat →
  drop_last_if eagle (map (take n) cols) p =
    (Ok (map (take (if eagle then pred n else n)) cols), p).
Proof.
  intros Hn. destruct eagle; [|done]. unfold drop_last_if.
  rewrite first_len_take, bind_of_res by done. case_decide as H0.
  - by assert (n = 0%nat) as -> by lia.
  - by rewrite pop_all_take by lia.
Qed.
End shorten.

(** ** The scan *)

(** A row of blocks that carry the hash [h], one for each group. *)
Definition hit_row (p : BlockPool) (gids : list Z) (h : bytes) (row : list loc) : Prop :=
  Forall2 (λ g b, hash p b = Some (h ++ be_bytes 4 g)) gids row.

Lemma full_loop_spec p free gids hs :
  pool_wf p free → (∀ g, g ∈ gids → 0 ≤ g < 2 ^ 32) → gids ≠ [] → ∀ rows cols,
  columns_of (length gids) rows cols →
  ∃ more cols', full_loop gids (map Ok hs) cols p = (Ok cols', p) ∧
    columns_of (length gids) (rows ++ more) cols' ∧
    Forall2 (hit_row p gids) (take (length more) hs) more ∧ (length more ≤ length hs)%nat ∧
    (∀ h, hs !! length more = Some h →
       ∃ g, g ∈ gids ∧ ∀ b, hash p b ≠ Some (h ++ be_bytes 4 g)).
Proof.
  intros Hp Hg Hne. induction hs as [|h hs IH]; intros rows cols Hc; simpl.
  { exists [], cols. rewrite app_nil_r. split; [done|]. split; [done|]. split; [constructor|].
    split; [simpl; lia|]. done. }
  unfold lookup_cached at 1.
  destruct (get_cached_block_ok p free h gids Hp Hg) as (r & Hr & Hf).
  rewrite bind_assoc, bind_of_res, bind_assoc, (bind_ok _ _ _ _ _ Hr), bind_ret_l.
  destruct r as [row|]; simpl in Hf.
  - assert (Hlr : length row = length gids) by (symmetry; by eapply Forall2_length).
    destruct row as [|b row']; [destruct gids; [done|simpl in Hlr; lia]|].
    destruct (IH (rows ++ [b :: row']) (zip_append cols (b :: row'))) as (more & cols' & Hrun & Hc' & Hh & Hl & Hmiss).
    { by apply columns_append. }
    exists ((b :: row') :: more), cols'. split; [exact Hrun|].
    split; [by rewrite <- app_assoc in Hc'|]. split; [simpl; by constructor|].
    split; [simpl; lia|]. exact Hmiss.
  - exists [], cols. rewrite app_nil_r. split; [done|]. split; [done|]. split; [constructor|].
    split; [simpl; lia|]. simpl. intros h' [= <-]. exact Hf.
Qed.

(** Full attention, or a type of layer that reuses its manager. *)
Definition full_lookup_spec (s : KVCacheSpec) : bool :=
  match s with
  | FullAttentionSpec _ _ | MLAAttentionSpec _ _ _ | SinkFullAttentionSpec _ _ _
  | ChunkedLocalAttentionSpec _ _ => true
  | _ => false
  end.

(** The block size of a group under context parallelism. *)
Definition parallel_block_size (s : KVCacheSpec) (dcp pcp : Z) : Z :=
  if decide (1 < dcp * pcp) then spec_block_size s * (dcp * pcp) else spec_block_size s.

(** [k] is the number of leading blocks, of at most [limit], that all groups have. *)
Record leading_hits (p : BlockPool) (gids : list Z) (hs : list bytes) (limit k : nat) : Prop := {
  lh_found : ∀ i h g, (i < k)%nat → hs !! i = Some h → g ∈ gids →
    ∃ b, hash p b = Some (h ++ be_bytes 4 g);
  lh_limit : (k ≤ limit)%nat ∧ (k ≤ length hs)%nat;
  lh_missing : (k < limit)%nat → ∀ h, hs !! k = Some h →
    ∃ g, g ∈ gids ∧ ∀ b, hash p b ≠ Some (h ++ be_bytes 4 g)
}.

(** [n] is the longest aligned prefix of [k] blocks, or of all but the last for
    EAGLE. *)
Definition usable_hit (eagle : bool) (bs alignment : Z) (k n : nat) : Prop :=
  let usable := if eagle then pred k else k in
  (n ≤ usable)%nat ∧ aligned bs alignment n ∧
  ∀ i, (n < i ≤ usable)%nat → ¬ aligned bs alignment i.

Lemma scan_spec p free gids hs limit :
  pool_wf p free → (∀ g, g ∈ gids → 0 ≤ g < 2 ^ 32) → gids ≠ [] →
  ∃ rows cols,
    full_loop gids (take limit (map Ok hs)) (map (λ _, []) gids) p = (Ok cols, p) ∧
    columns_of (length gids) rows cols ∧ Forall2 (hit_row p gids) (take (length rows) hs) rows ∧
    leading_hits p gids hs limit (length rows).
Proof.
  intros Hp Hg Hne.
  destruct (full_loop_spec p free gids (take limit hs) Hp Hg Hne [] _ (columns_empty gids))
    as (rows & cols & Hrun & Hc & Hh & Hl & Hmiss).
  rewrite map_take in Hrun || rewrite <- firstn_map in Hrun.
  rewrite length_take in Hl. rewrite take_take, Nat.min_l in Hh by lia.
  exists rows, cols. split; [done|]. split; [done|]. split; [done|]. split.
  - intros i h g Hi Hhs Hin. destruct (lookup_lt_is_Some_2 rows i Hi) as [row Hrow].
    assert (Hr : hit_row p gids h row).
    { eapply (Forall2_lookup_lr _ _ _ i); [exact Hh| |exact Hrow]. by rewrite lookup_take_lt. }
    apply list_elem_of_lookup in Hin as [j Hj].
    destruct (Forall2_lookup_l _ _ _ _ _ Hr Hj) as (b & _ & Hb). by exists b.
  - lia.
  - intros Hlt h Hhs. apply Hmiss. by rewrite lookup_take_lt.
Qed.

Lemma full_lookup_ok p free hashes hs max_length gids spec eagle alignment dcp pcp
    (bs := parallel_block_size spec dcp pcp) (limit := Z.to_nat (max_length / bs)) :
  pool_wf p free → (∀ g, g ∈ gids → 0 ≤ g < 2 ^ 32) → gids ≠ [] →
  full_lookup_spec spec = true → hashes_iter hashes = map Ok hs → 0 ≤ max_length → 0 < bs →
  ∃ cols n k,
    find_longest_cache_hit_full hashes max_length gids spec eagle alignment dcp pcp p = (Ok cols, p) ∧
    leading_hits p gids hs limit k ∧ usable_hit eagle bs alignment k n ∧
    length cols = length gids ∧
    ∀ j g col, gids !! j = Some g → cols !! j = Some col →
      length col = n ∧
      ∀ i b, col !! i = Some b → ∃ h, hs !! i = Some h ∧ hash p b = Some (h ++ be_bytes 4 g).
Proof.
  intros Hp Hg Hne Hspec Hiter Hmax Hbs.
  destruct (scan_spec p free gids hs limit Hp Hg Hne) as (rows & cols & Hscan & [Hlc Hc] & Hrows & Hlead).
  assert (Hcne : cols ≠ []) by (intros ->; destruct gids; done).
  assert (Hlens : ∀ c, c ∈ cols → length c = length rows).
  { intros c [j Hj]%list_elem_of_lookup. by apply (Hc j). }
  set (usable := if eagle then pred (length rows) else length rows).
  assert (Hu : (usable ≤ length rows)%nat) by (unfold usable; destruct eagle; lia).
  destruct (align_longest cols (length rows) Hcne Hlens bs alignment usable p Hu)
    as (n & Halign & Hn & Hal & Hlong).
  assert (Hid : cols = map (take (length rows)) cols).
  { clear -Hlens. induction cols as [|c cs IH]; [done|]. simpl.
    rewrite take_ge by (rewrite (Hlens c) by (by left); lia). f_equal. apply IH.
    intros. apply Hlens. by right. }
  exists (map (take n) cols), n, (length rows). split; [|split; [done|split; [done|]]].
  - unfold find_longest_cache_hit_full. fold (parallel_block_size spec dcp pcp). fold bs. fold limit.
    assert (Hnn : ¬ max_length / bs < 0) by (pose proof (Z.div_pos max_length bs Hmax Hbs); lia).
    rewrite Hiter. destruct spec; try discriminate Hspec;
      (rewrite decide_False by done; rewrite (bind_ok _ _ _ _ _ Hscan); rewrite Hid at 1;
       rewrite (bind_ok _ _ _ _ _ (drop_last_if_take cols (length rows) Hcne Hlens eagle _ p (le_n _)));
       exact Halign).
  - split; [by rewrite length_map|]. intros j g col Hj Hcol. rewrite lookup_map in Hcol.
    destruct (cols !! j) as [c|] eqn:Hcj; [|done]. simpl in Hcol. injection Hcol as <-.
    destruct (Hc j c Hcj) as [Hl Hi]. rewrite length_take, Hl. split; [lia|].
    intros i b Hb. apply lookup_take_Some in Hb as [Hb Hin]. rewrite Hi in Hb.
    destruct (rows !! i) as [row|] eqn:Hrow; [|done]. simpl in Hb.
    destruct (Forall2_lookup_r _ _ _ _ _ Hrows Hrow) as (h & Hh & Hr).
    apply lookup_take_Some in Hh as [Hh _]. exists h. split; [done|].
    by apply (Forall2_lookup_lr _ _ _ _ _ _ Hr Hj).
Qed.

(** C31. The lookup of the longest prefix-cache hit of full-attention groups
    raises nothing and changes nothing.  It returns for every group as many
    blocks: the longest aligned prefix of the request's blocks, within the
    length allowed (and less the last block for EAGLE), that all groups have
    in the cache; the [i]-th block carries the hash of the [i]-th block of the
    request and the id of its group. *)
Theorem full_lookup_is_longest p held hashes hs max_length gids spec eagle alignment dcp pcp
    (bs := parallel_block_size spec dcp pcp) (limit := Z.to_nat (max_length / bs)) :
  history p held → (∀ g, g ∈ gids → 0 ≤ g < 2 ^ 32) → gids ≠ [] →
  full_lookup_spec spec = true → hashes_iter hashes = map Ok hs → 0 ≤ max_length → 0 < bs →
  ∃ cols n k,
    find_longest_cache_hit_full hashes max_length gids spec eagle alignment dcp pcp p = (Ok cols, p) ∧
    leading_hits p gids hs limit k ∧ usable_hit eagle bs alignment k n ∧
    length cols = length gids ∧
    ∀ j g col, gids !! j = Some g → cols !! j = Some col →
      length col = n ∧
      ∀ i b, col !! i = Some b → ∃ h, hs !! i = Some h ∧ hash p b = Some (h ++ be_bytes 4 g).
Proof.
  intros Hist. destruct (history_invariant _ _ Hist) as (free & [Hwf _ _ _]).
  by apply (full_lookup_ok p free).
Qed.

(** ** Witness *)

(** The example pool after the first block of the example request was cached. *)
Definition cached_pool : BlockPool :=
  snd (cache_full_blocks example_cached_request [1%nat; 2%nat] 0 1 4 0 example_pool2).
Definition full_spec_4 : KVCacheSpec :=
  FullAttentionSpec (mkAttention 4 1 64 "bfloat16" None) (mkFull 64 None None).

Lemma cached_pool_history : history cached_pool [1%nat; 2%nat].
Proof.
  apply (h_cache example_pool2 [1%nat; 2%nat] example_cached_request [1%nat; 2%nat] 0 1 4 0
    (fst (cache_full_blocks example_cached_request [1%nat; 2%nat] 0 1 4 0 example_pool2))).
  - apply example_history.
  - lia.
  - lia.
  - vm_compute; discriminate.
  - vm_compute; discriminate.
  - vm_compute; reflexivity.
  - vm_compute; discriminate.
  - split.
    + intros a Ha. vm_compute in Ha. apply list_elem_of_singleton in Ha as ->. vm_compute. lia.
    + vm_compute. apply NoDup_singleton.
    + intros a Ha _. vm_compute in Ha. apply list_elem_of_singleton in Ha as ->.
      vm_compute. reflexivity.
  - apply surjective_pairing.
Qed.

(** The first of two blocks is cached: a hit of one block. *)
Example cached_pool_hit :
  fst (find_longest_cache_hit_full (HPlain [example_hash; [9]]) 8 [0] full_spec_4 false 4 1 1 cached_pool)
    = Ok [[1%nat]].
Proof. vm_compute. reflexivity. Qed.

Lemma full_lookup_is_longest_witness :
  ∃ cols n k,
    find_longest_cache_hit_full (HPlain [example_hash; [9]]) 8 [0] full_spec_4 false 4 1 1 cached_pool
      = (Ok cols, cached_pool) ∧
    leading_hits cached_pool [0] [example_hash; [9]] 2 k ∧ usable_hit false 4 4 k n ∧
    length cols = 1%nat ∧
    ∀ j g col, [0] !! j = Some g → cols !! j = Some col →
      length col = n ∧
      ∀ i b, col !! i = Some b →
        ∃ h, [example_hash; [9]] !! i = Some h ∧ hash cached_pool b = Some (h ++ be_bytes 4 g).
Proof.
  apply (full_lookup_is_longest cached_pool [1%nat; 2%nat] (HPlain [example_hash; [9]])
    [example_hash; [9]] 8 [0] full_spec_4 false 4 1 1);
    [exact cached_pool_history| |discriminate|reflexivity|reflexivity|lia|reflexivity].
  intros g ->%list_elem_of_singleton. lia.
Defined.
