(* ===== verification/LookupSound.v ===== *)
(** The prefix-cache lookups of all types of layers are sound: the blocks they
    return are null, where the attention skips them, or carry the hash of the
    request's block at their position, and the hit is aligned. *)

From S2P Require Import Prelude.
From S2P Require Import KVBlocks.
From S2P Require Import BlockHash.
From S2P Require Import BlockPool.
From S2P Require Import BlockPoolSpec.
From S2P Require Import KVCacheInterface.
From S2P Require Import SingleTypeManagers.
From S2P Require Import KVInvariant.
From S2P Require Import ManagerSpec.
From S2P Require Import CacheHits.

(** ** Sound tables *)

(** Block [b] may stand for the [i]-th block of the request in group [g]. *)
Definition entry_sound (p : BlockPool) (H : list bytes) (g : Z) (i : nat) (b : loc) : Prop :=
  b = 0%nat ∨ ∃ h, H !! i = Some h ∧ hash p b = Some (h ++ be_bytes 4 g).

(** A column of [n] blocks for every group. *)
Definition sound_cols (p : BlockPool) (H : list bytes) (gids : list Z) (n : nat)
    (cols : list (list loc)) : Prop :=
  Forall2 (λ g col, length col = n ∧ ∀ i b, col !! i = Some b → entry_sound p H g i b) gids cols.

(** The hashes that a lookup reads. *)
Record hash_view (l : BlockHashList) (H : list bytes) : Prop := {
  hv_iter : hashes_iter l = map Ok H;
  hv_index : ∀ (i : nat) h, H !! i = Some h → hashes_index l (Z.of_nat i) = Ok h
}.

Lemma plain_view H : hash_view (HPlain H) H.
Proof.
  split; [done|]. intros i h Hi. simpl. rewrite py_index_nonneg by lia.
  by rewrite Nat2Z.id, Hi.
Qed.

Section sound.
Context (p : BlockPool) (free : list loc) (H : list bytes) (gids : list Z).
Context (Hp : pool_wf p free) (Hg : ∀ g, g ∈ gids → 0 ≤ g < 2 ^ 32) (Hne : gids ≠ []).

Lemma sound_lens n cols : sound_cols p H gids n cols →
  cols ≠ [] ∧ ∀ c, c ∈ cols → length c = n.
Proof.
  intros Hs. split; [intros ->; by inversion Hs; subst|].
  intros c [j Hj]%list_elem_of_lookup. by destruct (Forall2_lookup_r _ _ _ _ _ Hs Hj) as (? & _ & ? & _).
Qed.

Lemma sound_take n k cols :
  (k ≤ n)%nat → sound_cols p H gids n cols → sound_cols p H gids k (map (take k) cols).
Proof.
  intros Hk Hs. apply Forall2_fmap_r. eapply Forall2_impl; [exact Hs|]. intros g col [Hl He].
  split; [rewrite length_take; lia|]. intros i b [Hb _]%lookup_take_Some. auto.
Qed.

Lemma sound_nulls n : sound_cols p H gids n (map (λ _, replicate n 0%nat) gids).
Proof.
  apply Forall2_fmap_r, Forall_Forall2_diag, Forall_forall. intros g _.
  split; [apply length_replicate|]. intros i b [-> _]%lookup_replicate. by left.
Qed.

Lemma sound_append n cols h row :
  sound_cols p H gids n cols → H !! n = Some h → hit_row p gids h row →
  sound_cols p H gids (S n) (zip_append cols row).
Proof.
  unfold sound_cols, hit_row. clear Hg Hne. intros Hs Hh. revert row.
  induction Hs as [|g col gids' cols' [Hl He] Hs IH]; intros row Hr;
    [constructor|]. destruct row as [|b row]; [inversion Hr|].
  apply Forall2_cons in Hr as [Hb Hr]. simpl. constructor; [|by apply IH].
  rewrite length_app. split; [simpl; lia|]. intros i a Ha.
  apply lookup_snoc_Some in Ha as [[_ Ha]|[-> <-]]; [by apply He|]. right. exists h. by rewrite Hl.
Qed.

Lemma sound_assign n i cols h row :
  sound_cols p H gids n cols → H !! i = Some h → hit_row p gids h row →
  sound_cols p H gids n (zip_assign i cols row).
Proof.
  unfold sound_cols, hit_row. clear Hg Hne. intros Hs Hh. revert row.
  induction Hs as [|g col gids' cols' [Hl He] Hs IH]; intros row Hr;
    [constructor|]. destruct row as [|b row]; [inversion Hr|].
  apply Forall2_cons in Hr as [Hb Hr]. simpl. constructor; [|by apply IH].
  rewrite length_insert. split; [done|]. intros k a [(<- & <- & _)|[_ Ha]]%list_lookup_insert_Some.
  - right. by exists h.
  - by apply He.
Qed.

(** One lookup. *)
Lemma lookup_cached_ok h :
  ∃ r, lookup_cached gids (Ok h) p = (Ok r, p) ∧
    match r with Some row => hit_row p gids h row | None => True end.
Proof.
  unfold lookup_cached. rewrite bind_of_res.
  destruct (get_cached_block_ok p free h gids Hp Hg) as (r & Hr & Hf). rewrite (bind_ok _ _ _ _ _ Hr).
  destruct r as [[|b row]|]; eexists; (split; [reflexivity|]); done.
Qed.

Lemma first_len_sound n cols : sound_cols p H gids n cols → first_len cols = Ok (Z.of_nat n).
Proof.
  intros Hs. destruct (sound_lens n cols Hs) as [Hc Hl]. destruct cols as [|c cs]; [done|].
  simpl. unfold len. by rewrite (Hl c) by by left.
Qed.

(** ** The lookups *)

Context (hashes : BlockHashList) (Hv : hash_view hashes H).
Context (max_length : Z) (spec : KVCacheSpec) (eagle : bool) (alignment : Z).
Let bs := spec_block_size spec.
Context (Hbs : 0 < bs) (Hmax : 0 ≤ max_length) (Hcov : max_length / bs ≤ len H).
Let N := Z.to_nat (max_length / bs).

(** What a lookup returns. *)
Definition sound_result (m : M BlockPool (list (list loc))) : Prop :=
  ∃ cols n, m p = (Ok cols, p) ∧ sound_cols p H gids n cols ∧ (n ≤ N)%nat ∧
    aligned bs alignment n.

Lemma index_in_range (i : nat) : (i < N)%nat → ∃ h, H !! i = Some h.
Proof.
  intros Hi. apply lookup_lt_is_Some_2. unfold N, len in *.
  pose proof (Z.div_pos max_length bs Hmax Hbs). lia.
Qed.

(** The lookup at an index. *)
Lemma lookup_at (i : nat) : (i < N)%nat →
  ∃ h r, H !! i = Some h ∧ lookup_cached gids (hashes_index hashes (Z.of_nat i)) p = (Ok r, p) ∧
    match r with Some row => hit_row p gids h row | None => True end.
Proof.
  intros Hi. destruct (index_in_range i Hi) as [h Hh].
  destruct (lookup_cached_ok h) as (r & Hr & Hrow). exists h, r.
  by rewrite (hv_index _ _ Hv i h Hh).
Qed.

Lemma align_sound n k cols : sound_cols p H gids n cols → (k ≤ n)%nat →
  ∃ k', align bs alignment (map (take k) cols) p = (Ok (map (take k') cols), p) ∧
    sound_cols p H gids k' (map (take k') cols) ∧ (k' ≤ k)%nat ∧ aligned bs alignment k'.
Proof.
  intros Hs Hk. destruct (sound_lens n cols Hs) as [Hc Hl].
  destruct (align_longest cols n Hc Hl bs alignment k p Hk) as (k' & Hrun & Hk' & Ha & _).
  exists k'. split; [done|]. split; [eapply sound_take; [|done]; lia|]. done.
Qed.

(** *** Sliding windows *)

(** The hits end at an aligned block. *)
Lemma sliding_loop_ok need n : ∀ cols nc,
  (n + nc ≤ N)%nat → sound_cols p H gids N cols → ((0 < nc)%nat → aligned bs alignment (n + nc)) →
  ∃ cols' k found, sliding_loop hashes gids spec alignment need n cols (Z.of_nat nc) p =
      (Ok (cols', Z.of_nat k, found), p) ∧
    if found : bool
    then ∃ len', (len' ≤ N)%nat ∧ aligned bs alignment len' ∧ sound_cols p H gids len' cols'
    else (k ≤ N)%nat ∧ sound_cols p H gids N cols'.
Proof.
  induction n as [|n IH]; intros cols nc Hn Hs Hal; simpl.
  { exists cols, nc, false. split; [done|]. split; [lia|done]. }
  destruct (lookup_at n) as (h & r & Hh & Hr & Hrow); [lia|]. rewrite (bind_ok _ _ _ _ _ Hr).
  destruct r as [row|].
  - fold bs. destruct (bool_decide (Z.of_nat nc = 0) && bool_decide (bs ≠ alignment) &&
      bool_decide ((Z.of_nat n + 1) * bs mod alignment ≠ 0)) eqn:Hskip.
    { apply IH; [lia|done|]. apply andb_true_iff in Hskip as [[H0%bool_decide_eq_true _]%andb_true_iff _].
      intros. lia. }
    assert (Hal' : aligned bs alignment (n + S nc)).
    { destruct (decide (0 < nc)%nat) as [Hc|Hc]; [replace (n + S nc)%nat with (S n + nc)%nat by lia; auto|].
      replace (n + S nc)%nat with (S n) by lia. unfold aligned.
      destruct (decide (bs = alignment)) as [|Hb]; [by left|]. right.
      rewrite (bool_decide_eq_true_2 (Z.of_nat nc = 0)), (bool_decide_eq_true_2 (bs ≠ alignment)) in Hskip by (done || lia).
      apply bool_decide_eq_false in Hskip. destruct (decide ((Z.of_nat n + 1) * bs mod alignment = 0)); [|done].
      by replace (Z.of_nat (S n)) with (Z.of_nat n + 1) by lia. }
    pose proof (sound_assign N n cols h row Hs Hh Hrow) as Hs'.
    replace (Z.of_nat nc + 1) with (Z.of_nat (S nc)) by lia.
    destruct (decide (need ≤ Z.of_nat (S nc))).
    + eexists _, (S nc), true. split; [reflexivity|]. exists (n + S nc)%nat.
      split; [lia|]. split; [done|]. rewrite Nat2Z.id. eapply sound_take; [|done]. lia.
    + apply IH; [lia|done|]. intros _. done.
  - apply (IH cols 0%nat); [lia|done|lia].
Qed.

Lemma sliding_sound w a :
  spec = SlidingWindowSpec a w → (eagle = true → bs = alignment) →
  sound_result (find_longest_cache_hit_sliding hashes max_length gids spec eagle alignment 1 1).
Proof.
  intros Hspec Hea. unfold sound_result, find_longest_cache_hit_sliding. rewrite Hspec. rewrite <- !Hspec.
  rewrite !bind_assert_true by done. rewrite bind_gets. fold bs N.
  rewrite (so_null _ _ (pw_static _ _ Hp)).
  destruct (sliding_loop_ok (if eagle then cdiv (w - 1) bs + 1 else cdiv (w - 1) bs)
    N (map (λ _, replicate N 0%nat) gids) 0) as (cols & k & found & Hrun & Hres);
    [lia|apply sound_nulls|lia|]. rewrite (bind_ok _ _ _ _ _ Hrun).
  assert (Hmid : ∃ cols1 n1, (if found then ret cols else
      align bs alignment (map (take (Z.to_nat (Z.of_nat k))) cols)) p = (Ok cols1, p) ∧
    sound_cols p H gids n1 cols1 ∧ (n1 ≤ N)%nat ∧ aligned bs alignment n1).
  { destruct found.
    - destruct Hres as (l & ? & ? & ?). by exists cols, l.
    - destruct Hres as [Hk Hs]. rewrite Nat2Z.id.
      destruct (align_sound N k cols Hs Hk) as (k' & ? & ? & ? & ?).
      exists (map (take k') cols), k'. repeat split; [done|done|lia|done]. }
  destruct Hmid as (cols1 & n1 & Hm & Hs1 & Hn1 & Ha1). rewrite (bind_ok _ _ _ _ _ Hm).
  destruct eagle; [|by exists cols1, n1]. rewrite (first_len_sound n1 cols1 Hs1), bind_of_res.
  case_decide; [by exists cols1, n1|]. rewrite bind_assert_true by (by apply bool_decide_eq_true_2; auto).
  destruct (sound_lens n1 cols1 Hs1) as [Hc Hl].
  assert (Hid : map (take n1) cols1 = cols1).
  { clear -Hl. induction cols1 as [|c cs IH]; [done|]. simpl. rewrite take_ge by (rewrite (Hl c) by (by left); lia).
    f_equal. apply IH. intros. apply Hl. by right. }
  exists (map (take (pred n1)) cols1), (pred n1). split; [|split; [|split]].
  - unfold of_res. rewrite <- Hid at 1. by rewrite (pop_all_take cols1 n1 Hl) by lia.
  - eapply sound_take; [|done]. lia.
  - lia.
  - left. auto.
Qed.

(** *** Chunked local attention *)

Lemma chunked_loop_ok (i n : nat) : ∀ cols,
  (i + n ≤ N)%nat → sound_cols p H gids i cols →
  ∃ cols' k, chunked_loop hashes gids (map (λ j : nat, Z.of_nat j) (seq i n)) cols p = (Ok cols', p) ∧
    sound_cols p H gids k cols' ∧ (i ≤ k ≤ i + n)%nat.
Proof.
  revert i. induction n as [|n IH]; intros i cols Hn Hs; simpl.
  { exists cols, i. split; [done|]. split; [done|lia]. }
  destruct (lookup_at i) as (h & r & Hh & Hr & Hrow); [lia|]. rewrite (bind_ok _ _ _ _ _ Hr).
  destruct r as [row|]; [|exists cols, i; split; [done|]; split; [done|lia]].
  destruct (IH (S i) (zip_append cols row)) as (cols' & k & Hrun & Hs' & Hk); [lia| |].
  - by eapply sound_append.
  - exists cols', k. split; [done|]. split; [done|lia].
Qed.

Lemma py_range_seq a b : 0 ≤ a →
  py_range a b = map (λ j : nat, Z.of_nat j) (seq (Z.to_nat a) (Z.to_nat (b - a))).
Proof.
  intros Ha. unfold py_range. set (k := Z.to_nat (b - a)).
  assert (seq (Z.to_nat a) k = map (Nat.add (Z.to_nat a)) (seq 0 k)) as ->.
  { rewrite <- (Nat.add_0_r (Z.to_nat a)) at 1. symmetry. apply (fmap_add_seq (Z.to_nat a) 0 k). }
  rewrite map_map.
  apply map_ext. intros j. lia.
Qed.

Lemma chunked_sound chunk a :
  spec = ChunkedLocalAttentionSpec a chunk → 0 < chunk → eagle = false → bs = alignment →
  sound_result (find_longest_cache_hit_chunked hashes max_length gids spec eagle alignment 1 1).
Proof.
  intros Hspec Hchunk -> Hal. unfold sound_result, find_longest_cache_hit_chunked.
  rewrite Hspec. rewrite <- !Hspec. fold bs.
  rewrite !bind_assert_true by (done || by apply bool_decide_eq_true_2). rewrite bind_gets.
  rewrite (so_null _ _ (pw_static _ _ Hp)).
  set (start := (if decide (0 < max_length) then max_length / chunk * chunk else 0) / bs).
  assert (Hst : 0 ≤ start ≤ max_length / bs).
  { unfold start. case_decide.
    - pose proof (Z.div_pos max_length chunk Hmax Hchunk). pose proof (Z.mul_div_le max_length chunk Hchunk).
      split; [apply Z.div_pos; nia|apply Z.div_le_mono; lia].
    - rewrite Z.div_0_l by lia. split; [done|]. by apply Z.div_pos. }
  rewrite py_range_seq by apply Hst.
  destruct (chunked_loop_ok (Z.to_nat start) (Z.to_nat (max_length / bs - start))
    (map (λ _, replicate (Z.to_nat start) 0%nat) gids)) as (cols & k & Hrun & Hs & Hk);
    [unfold N; lia|apply sound_nulls|].
  exists cols, k. split; [exact Hrun|]. split; [done|]. split; [unfold N; lia|by left].
Qed.

(** *** Mamba layers *)

Lemma mamba_loop_ok (n : nat) : (n ≤ N)%nat →
  ∃ cols k, mamba_loop hashes gids spec alignment 0%nat n p = (Ok cols, p) ∧
    sound_cols p H gids k cols ∧ (k ≤ n)%nat ∧ aligned bs alignment k.
Proof.
  induction n as [|n IH]; intros Hn; simpl.
  { exists (map (λ _, []) gids), 0%nat. split; [done|]. split; [exact (sound_nulls 0)|].
    split; [done|]. by right. }
  destruct (lookup_at n) as (h & r & Hh & Hr & Hrow); [lia|]. rewrite (bind_ok _ _ _ _ _ Hr).
  destruct IH as (cols & k & Hrun & Hs & Hk & Ha); [lia|].
  destruct r as [row|]; [|exists cols, k; repeat split; (done || lia)].
  fold bs. destruct (bool_decide (bs ≠ alignment) &&
    bool_decide ((Z.of_nat n + 1) * bs mod alignment ≠ 0)) eqn:Hskip;
    [exists cols, k; repeat split; (done || lia)|].
  exists (zip_append (map (λ _, replicate n 0%nat) gids) row), (S n). split; [done|].
  split; [by eapply sound_append; [apply sound_nulls| |]|]. split; [done|].
  destruct (decide (bs = alignment)) as [|Hb]; [by left|]. right.
  rewrite bool_decide_eq_true_2 in Hskip by done. apply bool_decide_eq_false in Hskip.
  replace (Z.of_nat (S n)) with (Z.of_nat n + 1) by lia.
  by destruct (decide ((Z.of_nat n + 1) * bs mod alignment = 0)).
Qed.

Lemma mamba_sound : match spec with MambaSpec _ _ _ _ _ _ => True | _ => False end →
  sound_result (find_longest_cache_hit_mamba hashes max_length gids spec alignment 1 1).
Proof.
  intros Hspec. unfold sound_result, find_longest_cache_hit_mamba.
  destruct (mamba_loop_ok N) as (cols & k & Hrun & Hs & Hk & Ha); [done|].
  exists cols, k. split; [|done]. revert Hrun. unfold N, bs. destruct spec; try done. intros Hrun.
  rewrite !bind_assert_true by done. rewrite bind_gets.
  by rewrite (so_null _ _ (pw_static _ _ Hp)).
Qed.
End sound.

(** *** Full attention *)

Lemma full_sound p free H gids hashes max_length spec eagle alignment dcp pcp
    (pbs := parallel_block_size spec dcp pcp) :
  pool_wf p free → (∀ g, g ∈ gids → 0 ≤ g < 2 ^ 32) → gids ≠ [] → hash_view hashes H →
  full_lookup_spec spec = true → 0 ≤ max_length → 0 < pbs →
  ∃ cols n, find_longest_cache_hit_full hashes max_length gids spec eagle alignment dcp pcp p
      = (Ok cols, p) ∧
    sound_cols p H gids n cols ∧ (n ≤ Z.to_nat (max_length / pbs))%nat ∧ aligned pbs alignment n.
Proof.
  intros Hp Hg Hne Hv Hspec Hmax Hbs.
  pose proof (full_lookup_ok p free hashes H max_length gids spec eagle alignment dcp pcp
    Hp Hg Hne Hspec (hv_iter _ _ Hv) Hmax Hbs) as Hok.
  destruct Hok as (cols & n & k & Hrun & Hl & Hu & Hlen & Hc).
  destruct Hu as (Hn & Ha & _).
  exists cols, n. split; [done|]. split; [|split; [|done]].
  - apply Forall2_same_length_lookup. split; [done|]. intros j g col Hj Hcol.
    destruct (Hc j g col Hj Hcol) as [? He]. split; [done|]. intros i b Hb. right. by apply He.
  - pose proof (lh_limit _ _ _ _ _ Hl). unfold pbs. revert Hn. destruct eagle; lia.
Qed.

(** ** Any type of layer *)

(** The manager of a specification supports the lookup with these settings. *)
Definition lookup_supported (spec : KVCacheSpec) (cls : ManagerClass) (eagle : bool)
    (alignment dcp pcp : Z) : Prop :=
  spec_manager_map spec = Ok cls ∧
  match spec with
  | FullAttentionSpec _ _ | MLAAttentionSpec _ _ _ | SinkFullAttentionSpec _ _ _ => True
  | SlidingWindowSpec _ _ =>
      dcp = 1 ∧ pcp = 1 ∧ (eagle = true → spec_block_size spec = alignment)
  | ChunkedLocalAttentionSpec _ chunk =>
      dcp = 1 ∧ pcp = 1 ∧ eagle = false ∧ spec_block_size spec = alignment ∧ 0 < chunk
  | MambaSpec _ _ _ _ _ _ => dcp = 1 ∧ pcp = 1
  | _ => False
  end.

Lemma lookup_sound p free H gids hashes max_length spec cls eagle alignment dcp pcp
    (pbs := parallel_block_size spec dcp pcp) :
  pool_wf p free → (∀ g, g ∈ gids → 0 ≤ g < 2 ^ 32) → gids ≠ [] → hash_view hashes H →
  lookup_supported spec cls eagle alignment dcp pcp → 0 ≤ max_length → 0 < pbs →
  max_length / pbs ≤ len H →
  ∃ cols n, manager_find_longest_cache_hit hashes max_length gids spec eagle alignment cls dcp pcp p
      = (Ok cols, p) ∧
    sound_cols p H gids n cols ∧ (n ≤ Z.to_nat (max_length / pbs))%nat ∧ aligned pbs alignment n.
Proof.
  intros Hp Hg Hne Hv [Hcls Hs] Hmax Hbs Hcov.
  destruct spec as [| | |a chunk| | | |]; try done; injection Hcls as <-; cbn [manager_find_longest_cache_hit].
  - by apply (full_sound p free).
  - by apply (full_sound p free).
  - by apply (full_sound p free).
  - destruct Hs as (-> & -> & -> & Ha & Hc). by eapply (chunked_sound p free H gids).
  - destruct Hs as (-> & -> & Ha). by eapply (sliding_sound p free H gids).
  - destruct Hs as (-> & ->). by eapply (mamba_sound p free H gids).
Qed.
