(* ===== verification/KVService.v ===== *)
(** What the KV cache manager promises to the scheduler: the interface
    [KVService], against which the scheduler is verified. *)

From S2P Require Import Prelude.
From S2P Require Import KVBlocks.
From S2P Require Import Request.
From S2P Require Import BlockHash.
From S2P Require Import BlockPool.
From S2P Require Import KVInvariant.
From S2P Require Import KVCacheInterface.
From S2P Require Import SingleTypeManagers.
From S2P Require Import ManagerSpec.
From S2P Require Import Coordinator.
From S2P Require Import CoordinatorSpec.
From S2P Require Import KVCacheManager.
From S2P Require Import KVCacheManagerSpec.
From S2P Require Import CacheHits.

Implicit Types (m : KVCacheManager) (rq : Request) (id : string).

(** ** The interface *)

(** The block hashes of a request are up to date and distinct (which the
    chained hash of distinct prefixes gives, short of collisions). *)
Record hashed (hbs : Z) rq : Prop := {
  hd_len : len (block_hashes rq) = num_tokens rq / hbs;
  hd_nodup : NoDup (block_hashes rq)
}.

(** [kv_idle m id]: the request holds no blocks.  [kv_slots m id n]: it has slots
    for [n] tokens in every group.  [kv_valid m b]: the blocks exist.
    [kv_hits m rq b n]: [b] are hits of the prefix cache for the first [n]
    tokens of [rq]. *)
Class KVPredicates := {
  kv_ok : KVCacheManager → Prop;
  kv_idle : KVCacheManager → string → Prop;
  kv_slots : KVCacheManager → string → Z → Prop;
  kv_valid : KVCacheManager → KVCacheBlocks → Prop;
  kv_hits : KVCacheManager → Request → KVCacheBlocks → Z → Prop
}.

(** An operation on request [changed] leaves the others as they are. *)
Record kv_frame `{KVPredicates} (changed : option string) m m' : Prop := {
  kf_idle : ∀ id, changed ≠ Some id → kv_idle m id → kv_idle m' id;
  kf_slots : ∀ id n, changed ≠ Some id → kv_slots m id n → kv_slots m' id n;
  kf_valid : ∀ b, kv_valid m b → kv_valid m' b;
  kf_groups : num_kv_cache_groups m' = num_kv_cache_groups m
}.

(** [hbs] is the hash block size, [max_len] the longest model length, [log]
    whether statistics are kept. *)
Class KVService `{KVPredicates} (hbs max_len : Z) (log : bool) := {
  ks_fewer m id n k : kv_slots m id n → k ≤ n → kv_slots m id k;
  ks_free m rq : kv_ok m →
    ∃ m', kv_free rq m = (Ok tt, m') ∧ kv_ok m' ∧ kv_frame (Some (request_id rq)) m m' ∧
      kv_idle m' (request_id rq);
  (** more slots for a running request *)
  ks_extend m rq new look : kv_ok m → hashed hbs rq → num_tokens rq ≤ max_len →
    kv_slots m (request_id rq) (num_computed_tokens rq) →
    0 ≤ num_computed_tokens rq → 0 < new → 0 ≤ look →
    num_computed_tokens rq + new ≤ max_len →
    ∃ res m', allocate_slots rq new 0 None look 0 false 0 m = (Ok res, m') ∧ kv_ok m' ∧
      kv_frame (Some (request_id rq)) m m' ∧
      match res with
      | Some b => kv_valid m' b ∧ kv_slots m' (request_id rq) (num_computed_tokens rq + new)
      | None => kv_slots m' (request_id rq) (num_computed_tokens rq)
      end;
  ks_lookup m rq : kv_ok m → hashed hbs rq → 0 < num_tokens rq →
    ∃ b n m', get_computed_blocks rq m = (Ok (b, n), m') ∧ kv_ok m' ∧ kv_frame None m m' ∧
      0 ≤ n < num_tokens rq ∧ kv_hits m' rq b n;
  (** the first slots of a waiting request *)
  ks_admit m rq b n new look : kv_ok m → hashed hbs rq → num_tokens rq ≤ max_len →
    kv_idle m (request_id rq) → kv_hits m rq b n → num_computed_tokens rq = 0 →
    0 ≤ n → 0 < new → 0 ≤ look → n + new ≤ max_len →
    ∃ res m', allocate_slots rq new n (Some b) look 0 false 0 m = (Ok res, m') ∧ kv_ok m' ∧
      kv_frame (Some (request_id rq)) m m' ∧
      match res with
      | Some _ => kv_slots m' (request_id rq) (n + new)
      | None => kv_idle m' (request_id rq)
      end;
  ks_blocks m id : kv_ok m → kv_valid m (get_blocks id m);
  ks_ids m b allow_none : kv_ok m → kv_valid m b →
    ∃ ids, in_block_pool (get_block_ids allow_none b) m = (Ok ids, m) ∧
      (allow_none = false → is_Some ids);
  ks_prefix m id : kv_ok m →
    ∃ l m', kv_get_num_common_prefix_blocks id m = (Ok l, m') ∧ kv_ok m' ∧ kv_frame None m m';
  (** events and statistics *)
  ks_events m : kv_ok m →
    ∃ evs m', kv_take_events m = (Ok evs, m') ∧ kv_ok m' ∧ kv_frame None m m';
  ks_stats m : kv_ok m →
    ∃ st m', make_prefix_cache_stats m = (Ok st, m') ∧ kv_ok m' ∧ kv_frame None m m' ∧
      (log = true → is_Some st);
  ks_drain m : kv_ok m →
    ∃ evs m', in_block_pool drain_metrics m = (Ok evs, m') ∧ kv_ok m' ∧ kv_frame None m m'
}.
