(* ===== verification/KVServiceImpl.v ===== *)
(** The manager of [KVCacheManager] implements [KVService], for configurations
    without prefix caching and for one group of layers with any attention whose
    prefix cache lookup is supported. *)

From S2P Require Import Prelude.
From S2P Require Import KVBlocks.
From S2P Require Import Request.
From S2P Require Import BlockHash.
From S2P Require Import KVCacheMetrics.
From S2P Require Import BlockPool.
From S2P Require Import BlockPoolSpec.
From S2P Require Import KVInvariant.
From S2P Require Import KVCacheInterface.
From S2P Require Import SingleTypeManagers.
From S2P Require Import ManagerSpec.
From S2P Require Import Coordinator.
From S2P Require Import CoordinatorSpec.
From S2P Require Import KVCacheManager.
From S2P Require Import KVCacheManagerSpec.
From S2P Require Import CacheHits.
From S2P Require Import LookupSound.
From S2P Require Import KVService.

Implicit Types (m : KVCacheManager) (x : Manager) (rq : Request) (id : string).

Abbreviation managers m := (single_type_managers (coordinator m)).
Abbreviation pool m := (block_pool (coordinator m)).

(** ** The predicates *)

(** The lookup of the configuration; the layers of the one group decide it. *)
Definition lookup_config (hbs : Z) m : Prop :=
  match kind (coordinator m) with
  | NoPrefixCache => True
  | Unitary unit =>
      ∃ x, managers m = [x] ∧ c_groups (coordinator m) = [m_kv_cache_spec x] ∧
        unit = hbs ∧ block_size x = hbs ∧
        parallel_block_size (m_kv_cache_spec x) (dcp_world_size (coordinator m))
          (pcp_world_size (coordinator m)) = hbs ∧
        lookup_supported (m_kv_cache_spec x) (manager_class x) (use_eagle (coordinator m)) unit
          (dcp_world_size (coordinator m)) (pcp_world_size (coordinator m))
  | Hybrid _ _ => False
  end.

Record served (hbs max_len : Z) (log : bool) m : Prop := {
  se_inv : ∃ fr, kinv m fr;
  se_len : max_model_len m = max_len;
  se_log : log_stats m = log;
  se_hash : hash_block_size (pool m) = hbs;
  se_kinds : ∀ x, x ∈ managers m →
    manager_class x ≠ CrossAttentionManager ∧ spec_ok (m_kv_cache_spec x);
  se_groups : num_kv_cache_groups m = length (managers m);
  se_lookup : lookup_config hbs m
}.

Definition idle m id : Prop := ∀ x, x ∈ managers m →
  mget x id = [] ∧ num_cached_block x !! id = None.
Definition slots m id (n : Z) : Prop := ∀ x, x ∈ managers m → n ≤ len (mget x id) * block_size x.
Definition valid m (b : KVCacheBlocks) : Prop :=
  ∀ g a, g ∈ kb_blocks b → a ∈ g → (a < length (blocks (pool m)))%nat.
Record cache_hits m rq (b : KVCacheBlocks) (n : Z) : Prop := {
  ch_groups : length (kb_blocks b) = length (managers m);
  ch_shared : shared_empty b = true → n = 0 ∧ ∀ comp, comp ∈ kb_blocks b → comp = [];
  ch_hits : shared_empty b = false → ∀ i x comp, managers m !! i = Some x →
    kb_blocks b !! i = Some comp → hits_ok (pool m) comp ∧ len comp * block_size x ≤ n
}.

#[export] Instance kv_predicates (hbs max_len : Z) (log : bool) : KVPredicates := {
  kv_ok := served hbs max_len log;
  kv_idle := idle;
  kv_slots := slots;
  kv_valid := valid;
  kv_hits := cache_hits
}.

Section impl.
Context (hbs max_len : Z) (log : bool).
Existing Instance kv_predicates.
Abbreviation served := (served hbs max_len log).
Abbreviation kv_frame := (kv_frame (H := kv_predicates hbs max_len log)).

(** ** Operations on one request *)

(** The manager after an operation of the coordinator on request [r]. *)
Record step_of (r : string) m m' : Prop := {
  st_static : same_static (pool m) (pool m');
  st_managers : Forall2 (same_manager r) (managers m) (managers m');
  st_rest : m' = set_coordinator (with_state (coordinator m) (pool m') (managers m')) m;
  st_inv : ∃ fr, kinv m' fr
}.

Lemma step_of_in r m m' i x' : step_of r m m' → managers m' !! i = Some x' →
  ∃ x, managers m !! i = Some x ∧ same_manager r x x'.
Proof. intros Hs Hx. by apply (Forall2_lookup_r _ _ _ _ _ (st_managers _ _ _ Hs) Hx). Qed.

Lemma step_of_elem r m m' x' : step_of r m m' → x' ∈ managers m' →
  ∃ x, x ∈ managers m ∧ same_manager r x x'.
Proof.
  intros Hs [i Hi]%list_elem_of_lookup. destruct (step_of_in r m m' i x' Hs Hi) as (x & Hx & Hsm).
  exists x. split; [by eapply list_elem_of_lookup_2|done].
Qed.

Lemma step_of_served r m m' : served m → step_of r m m' → served m'.
Proof.
  intros [Hi Hl Hlg Hh Hk Hg Hc] Hs. pose proof (st_rest _ _ _ Hs) as Hm.
  split.
  - apply Hs.
  - by rewrite Hm.
  - by rewrite Hm.
  - rewrite <- Hh. by destruct (st_static _ _ _ Hs).
  - intros x' Hx'. destruct (step_of_elem r m m' x' Hs Hx') as (x & Hx & Hsm).
    rewrite (sm_class _ _ _ Hsm), (sm_spec _ _ _ Hsm). by apply Hk.
  - rewrite <- (Forall2_length _ _ _ (st_managers _ _ _ Hs)), <- Hg. by rewrite Hm.
  - unfold lookup_config in *. pose proof (st_managers _ _ _ Hs) as Hf.
    assert (kind (coordinator m') = kind (coordinator m)) as -> by by rewrite Hm.
    destruct (kind (coordinator m)) as [|unit|]; [done| |done].
    destruct Hc as (x & Hx & Hcg & Hu & Hbs & Hpar & Hsup). rewrite Hx in Hf.
    apply Forall2_cons_inv_l in Hf as (x' & l & Hsm & Hnil & Hms).
    apply Forall2_nil_inv_l in Hnil as ->. exists x'.
    rewrite (sm_spec _ _ _ Hsm), (sm_class _ _ _ Hsm), (sm_bs _ _ _ Hsm).
    split; [done|]. by rewrite Hm.
Qed.

Lemma step_of_frame r m m' : step_of r m m' → kv_frame (Some r) m m'.
Proof.
  intros Hs. split; simpl.
  - intros id Hid Hidle x' Hx'. destruct (step_of_elem r m m' x' Hs Hx') as (x & Hx & Hsm).
    destruct (Hidle x Hx). unfold mget in *.
    by rewrite (sm_blocks _ _ _ Hsm), (sm_cached _ _ _ Hsm) by congruence.
  - intros id n Hid Hsl x' Hx'. destruct (step_of_elem r m m' x' Hs Hx') as (x & Hx & Hsm).
    specialize (Hsl x Hx). unfold mget in *.
    by rewrite (sm_blocks _ _ _ Hsm), (sm_bs _ _ _ Hsm) by congruence.
  - intros b Hb g a Hg Ha. rewrite (ss_blocks _ _ (st_static _ _ _ Hs)). eauto.
  - by rewrite (st_rest _ _ _ Hs).
Qed.

Lemma kinv_step m c' fr fr' : kinv m fr → cinv c' fr' → same_static (pool m) (block_pool c') →
  kinv (set_coordinator c' m) fr'.
Proof. intros [Hc Hca Hst] Hc' Hs. split; [done| |done]. simpl. by rewrite (ss_caching _ _ Hs). Qed.

Lemma impl_free m rq : served m →
  ∃ m', kv_free rq m = (Ok tt, m') ∧ served m' ∧ kv_frame (Some (request_id rq)) m m' ∧
    idle m' (request_id rq).
Proof.
  intros Hm. destruct (se_inv _ _ _ _ Hm) as (fr & Hk).
  destruct (c_free_ok (coordinator m) fr (request_id rq) (ki_cinv _ _ Hk))
    as (p' & ms' & fr' & Heq & Hc' & Hss & Hh & Hn & Hf & _).
  set (m' := set_coordinator (with_state (coordinator m) p' ms') m). exists m'.
  assert (Hst : step_of (request_id rq) m m').
  { split; [done|done|done|]. exists fr'. by apply (kinv_step m _ fr fr'). }
  split; [by apply in_coordinator_ok|]. split; [by eapply step_of_served|].
  split; [by apply step_of_frame|]. intros x Hx. destruct (Hn x Hx) as [H1 H2].
  unfold mget. by rewrite H1.
Qed.

(** ** Slots *)

(** [allocate_slots] under guarantees [slots_ok]. *)
Lemma impl_allocate m rq new nc given look : served m →
  slots_ok m rq new nc given look 0 →
  ∃ res m', allocate_slots rq new nc given look 0 false 0 m = (Ok res, m') ∧ served m' ∧
    kv_frame (Some (request_id rq)) m m' ∧
    match res with
    | Some b => valid m' b ∧ slots m' (request_id rq) (slot_tokens m rq new nc look 0)
    | None => Forall2 (skipped_removed (request_id rq) (num_computed_tokens rq + nc + 0))
                (managers m) (managers m')
    end.
Proof.
  intros Hm Hs. destruct (se_inv _ _ _ _ Hm) as (fr & Hk).
  destruct (allocate_slots_run m fr rq new nc given look 0 false 0 (ki_cinv _ _ Hk) Hs)
    as (res & c' & fr' & Hrun & Hc' & Hst & Hf & Hrest & Hres).
  set (m' := set_coordinator c' m).
  assert (Hstep : step_of (request_id rq) m m').
  { split; [done|done|simpl; by rewrite Hrest|]. exists fr'. by apply (kinv_step m _ fr fr'). }
  pose proof (step_of_served _ _ _ Hm Hstep) as Hm'.
  exists res, m'. split; [exact Hrun|]. split; [done|]. split; [by apply step_of_frame|].
  destruct res as [b|]; [|by destruct Hres].
  destruct Hres as [Hen Hr]. split; [exact Hr|]. intros x Hx.
  apply enough_slots_tokens; [|by apply (se_kinds _ _ _ _ Hm')|by apply Hen].
  pose proof (mo_bs _ _ (ci_ok _ _ Hc' x Hx)). lia.
Qed.

Lemma mo_bs_pos m x fr : kinv m fr → x ∈ managers m → 0 < block_size x.
Proof. intros Hk Hx. pose proof (mo_bs _ _ (ci_ok _ _ (ki_cinv _ _ Hk) x Hx)). lia. Qed.

(** What holds for all calls of the scheduler. *)
Lemma slots_common m rq new nc given look (b := default (empty_kv_cache_blocks m) given) :
  served m → hashed hbs rq → num_tokens rq ≤ max_len →
  0 ≤ num_computed_tokens rq → 0 < new → 0 ≤ nc → 0 ≤ look → num_computed_tokens rq + nc ≤ max_len →
  length (kb_blocks b) = length (managers m) →
  (shared_empty b = false → ∀ i x comp, managers m !! i = Some x → kb_blocks b !! i = Some comp →
     ready (pool m) x (request_id rq) comp (num_computed_tokens rq + nc)) →
  (shared_empty b = true → ∀ i x comp, managers m !! i = Some x → kb_blocks b !! i = Some comp →
     comp = [] ∧ (num_cached_block x !! request_id rq = None →
       skip_blocks x (num_computed_tokens rq + nc) ≤ len (mget x (request_id rq)))) →
  slots_ok m rq new nc given look 0.
Proof.
  intros [(fr & Hk) Hl Hlg Hh Hkd Hg Hc] Hrq Hn Hc0 Hnew Hnc Hlook Hlen Hgr Hready Hrun.
  split; unfold adds_hits, given_blocks; fold b.
  - intros x Hx. by apply Hkd.
  - intros x Hx. by apply Hkd.
  - done.
  - lia.
  - lia.
  - rewrite Hl. lia.
  - by left.
  - rewrite bool_decide_eq_false_2 by lia. rewrite orb_false_r. intros Hb%negb_true_iff. exact (Hready Hb).
  - rewrite bool_decide_eq_false_2 by lia. rewrite orb_false_r. intros Hb%negb_false_iff. exact (Hrun Hb).
  - apply Hk.
  - rewrite Hh. apply Hrq.
Qed.

Lemma skip_le_table x n (l : list loc) :
  0 < block_size x → spec_ok (m_kv_cache_spec x) → 0 ≤ n → n ≤ len l * block_size x →
  skip_blocks x n ≤ len l.
Proof.
  intros Hbs Hsp Hn Hl. unfold skip_blocks. pose proof (skipped_le x n Hsp Hn).
  apply Z.div_le_upper_bound; [done|]. lia.
Qed.

Lemma impl_extend m rq new look : served m → hashed hbs rq → num_tokens rq ≤ max_len →
  slots m (request_id rq) (num_computed_tokens rq) →
  0 ≤ num_computed_tokens rq → 0 < new → 0 ≤ look → num_computed_tokens rq + new ≤ max_len →
  ∃ res m', allocate_slots rq new 0 None look 0 false 0 m = (Ok res, m') ∧ served m' ∧
    kv_frame (Some (request_id rq)) m m' ∧
    match res with
    | Some b => valid m' b ∧ slots m' (request_id rq) (num_computed_tokens rq + new)
    | None => slots m' (request_id rq) (num_computed_tokens rq)
    end.
Proof.
  intros Hm Hrq Hn Hsl Hc Hnew Hlook Hlen. destruct (se_inv _ _ _ _ Hm) as (fr & Hk).
  assert (Hs : slots_ok m rq new 0 None look 0).
  { apply slots_common; simpl; try done; try lia.
    - rewrite length_replicate. apply Hm.
    - intros _ i x comp Hx [-> _]%lookup_replicate. split; [done|]. intros _.
      pose proof (list_elem_of_lookup_2 _ _ _ Hx) as Hin. apply skip_le_table.
      + by eapply mo_bs_pos.
      + by apply (se_kinds _ _ _ _ Hm).
      + lia.
      + rewrite Z.add_0_r. by apply Hsl. }
  destruct (impl_allocate m rq new 0 None look Hm Hs) as (res & m' & Hrun & Hm' & Hf & Hres).
  exists res, m'. do 3 (split; [done|]). destruct res as [b|].
  - destruct Hres as [Hv Hsl']. split; [done|]. intros x Hx. specialize (Hsl' x Hx).
    unfold slot_tokens in Hsl'. rewrite (se_len _ _ _ _ Hm) in Hsl'. lia.
  - intros x' Hx'. apply list_elem_of_lookup in Hx' as [i Hi].
    destruct (Forall2_lookup_r _ _ _ _ _ Hres Hi) as (x & Hx & Hsr).
    rewrite (sr_len _ _ _ _ Hsr), (sm_bs _ _ _ (sr_same _ _ _ _ Hsr)).
    apply Hsl. by eapply list_elem_of_lookup_2.
Qed.

Lemma impl_admit m rq b n new look : served m → hashed hbs rq → num_tokens rq ≤ max_len →
  idle m (request_id rq) → cache_hits m rq b n → num_computed_tokens rq = 0 →
  0 ≤ n → 0 < new → 0 ≤ look → n + new ≤ max_len →
  ∃ res m', allocate_slots rq new n (Some b) look 0 false 0 m = (Ok res, m') ∧ served m' ∧
    kv_frame (Some (request_id rq)) m m' ∧
    match res with
    | Some _ => slots m' (request_id rq) (n + new)
    | None => idle m' (request_id rq)
    end.
Proof.
  intros Hm Hrq Hlen Hidle [H1 H2 H3] Hc Hn Hnew Hlook Hmax. destruct (se_inv _ _ _ _ Hm) as (fr & Hk).
  assert (Hs : slots_ok m rq new n (Some b) look 0).
  { apply slots_common; simpl; try done; rewrite ?Hc; try lia.
    - intros Hsh i x comp Hx Hcomp. destruct (H3 Hsh i x comp Hx Hcomp).
      destruct (Hidle x (list_elem_of_lookup_2 _ _ _ Hx)). by apply ready_new.
    - intros Hsh i x comp Hx Hcomp. destruct (H2 Hsh) as [-> He].
      pose proof (list_elem_of_lookup_2 _ _ _ Hx) as Hin. destruct (Hidle x Hin) as [Hnil _].
      split; [apply He; by eapply list_elem_of_lookup_2|]. intros _. rewrite Hnil.
      apply skip_le_table; [by eapply mo_bs_pos|by apply (se_kinds _ _ _ _ Hm)|done|done]. }
  destruct (impl_allocate m rq new n (Some b) look Hm Hs) as (res & m' & Hrun & Hm' & Hf & Hres).
  exists res, m'. do 3 (split; [done|]). destruct res as [b'|].
  - destruct Hres as [_ Hsl']. intros x Hx. specialize (Hsl' x Hx).
    unfold slot_tokens in Hsl'. rewrite (se_len _ _ _ _ Hm), Hc in Hsl'. lia.
  - intros x' Hx'. apply list_elem_of_lookup in Hx' as [i Hi].
    destruct (Forall2_lookup_r _ _ _ _ _ Hres Hi) as (x & Hx & Hsr).
    destruct (Hidle x (list_elem_of_lookup_2 _ _ _ Hx)) as [Hnil Hno].
    rewrite (sr_cached _ _ _ _ Hsr). split; [|done]. pose proof (sr_len _ _ _ _ Hsr) as Hl.
    rewrite Hnil in Hl. unfold len in Hl. simpl in Hl. apply length_zero_iff_nil. lia.
Qed.

(** ** The prefix cache *)

Lemma nonnull_unique (l : list loc) :
  (∀ i j a, a ≠ 0%nat → l !! i = Some a → l !! j = Some a → i = j) → NoDup (nonnull l).
Proof.
  induction l as [|b l IH]; intros Hl; [constructor|].
  assert (Hnd : NoDup (nonnull l)).
  { apply IH. intros i j a Ha Hi Hj. by injection (Hl (S i) (S j) a Ha Hi Hj). }
  unfold nonnull in *. destruct (decide (b = 0%nat)) as [Hb|Hb];
    [by rewrite filter_cons_False by tauto|rewrite filter_cons_True by done].
  constructor; [|done]. intros [_ [j Hj]%list_elem_of_lookup]%list_elem_of_filter.
  by pose proof (Hl 0%nat (S j) b Hb eq_refl Hj).
Qed.

(** The columns of a sound lookup are usable hits. *)
Lemma sound_hits p free H g n col :
  pool_wf p free → NoDup H → enable_caching p = true →
  (∀ i b, col !! i = Some b → entry_sound p H g i b) → length col = n → hits_ok p col.
Proof.
  intros Hwf Hnd Hca Hs Hn. pose proof (wd_dims _ _ _ _ (pw_data _ _ Hwf)) as Hd.
  assert (Hhash : ∀ i a, col !! i = Some a → a ≠ 0%nat →
    ∃ h, H !! i = Some h ∧ hash p a = Some (h ++ be_bytes 4 g)).
  { intros i a Hi Ha. by destruct (Hs i a Hi). }
  split.
  - intros a [i Hi]%list_elem_of_lookup. destruct (Hs i a Hi) as [->|(h & _ & Hh)].
    + pose proof (so_pos _ _ (pw_static _ _ Hwf)). lia.
    + by destruct (di_hash _ _ Hd a _ Hh).
  - apply nonnull_unique. intros i j a Ha Hi Hj.
    destruct (Hhash i a Hi Ha) as (h & Hh & E), (Hhash j a Hj Ha) as (h' & Hh' & E').
    rewrite E in E'. injection E' as E'. apply app_inv_tail in E' as ->.
    by eapply NoDup_lookup.
  - intros a [Ha [i Hi]%list_elem_of_lookup]%nonnull_in. destruct (Hhash i a Hi Ha) as (h & _ & ->). done.
  - congruence.
Qed.

(** A lookup that finds nothing. *)
Lemma no_hits m rq : served m → cache_hits m rq (empty_kv_cache_blocks m) 0.
Proof.
  intros Hm. split; simpl.
  - rewrite length_replicate. apply Hm.
  - intros _. split; [done|]. by intros comp [-> _]%elem_of_replicate.
  - done.
Qed.

Lemma record_step m st : served m → (log_stats m = true → st ≠ None) →
  let m' := set_prefix_cache_stats st m in
  served m' ∧ kv_frame None m m' ∧ (∀ rq b n, cache_hits m rq b n → cache_hits m' rq b n).
Proof.
  intros [(fr & [K1 K2 K3]) H1 H2 H3 H4 H5 H6] Hst m'. split; [|split].
  - split; try done. exists fr. by split.
  - by split.
  - intros rq b n [C1 C2 C3]. by split.
Qed.

(** The search of the coordinator. *)
Lemma search_ok m rq : served m → hashed hbs rq → 0 < num_tokens rq → kv_enable_caching m = true →
  ∃ blks n, c_find_longest_cache_hit (block_hashes rq) (num_tokens rq - 1) (coordinator m) =
      (Ok (blks, n), coordinator m) ∧
    0 ≤ n < num_tokens rq ∧ cache_hits m rq (create_kv_cache_blocks blks m) n.
Proof.
  intros Hm Hrq Hn Hca. destruct (se_inv _ _ _ _ Hm) as (fr & Hk).
  pose proof (se_lookup _ _ _ _ Hm) as Hl. unfold lookup_config in Hl.
  unfold c_find_longest_cache_hit, bind at 1, get.
  destruct (kind (coordinator m)) as [|unit|] eqn:Hkind; [| |done].
  - exists (map (λ _, []) (managers m)), 0. split; [done|]. split; [lia|].
    assert (create_kv_cache_blocks (map (λ _, []) (managers m)) m = empty_kv_cache_blocks m) as ->.
    { unfold create_kv_cache_blocks.
      assert (existsb (λ g, negb (bool_decide (g = []))) (map (λ _ : Manager, @nil loc) (managers m)) = false) as ->;
        [|done]. by induction (managers m). }
    by apply no_hits.
  - destruct Hl as (x & Hx & Hcg & -> & Hbs & Hpar & Hsup). rewrite Hcg, Hx. cbn [head of_option].
    rewrite !bind_ret_l. pose proof (gi_pool _ _ _ (ci_ginv _ _ (ki_cinv _ _ Hk))) as Hwf.
    assert (Hpos : 0 < hbs).
    { rewrite <- Hbs. eapply mo_bs_pos; [done|]. rewrite Hx. by left. }
    assert (Hg0 : ∀ g, g ∈ [0] → 0 ≤ g < 2 ^ 32) by (intros g ->%list_elem_of_singleton; lia).
    destruct (lookup_sound (pool m) fr (block_hashes rq) [0] (HPlain (block_hashes rq)) (num_tokens rq - 1)
      (m_kv_cache_spec x) (manager_class x) (use_eagle (coordinator m)) hbs
      (dcp_world_size (coordinator m)) (pcp_world_size (coordinator m)) Hwf)
      as (cols & n & Hrun & Hs & Hle & _);
      [done|done|apply plain_view|done|lia|by rewrite Hpar| |].
    { rewrite Hpar, (hd_len _ _ Hrq). apply Z.div_le_mono; lia. }
    rewrite Hpar in Hle.
    assert (Hin : in_pool (manager_find_longest_cache_hit (HPlain (block_hashes rq)) (num_tokens rq - 1) [0]
      (m_kv_cache_spec x) (use_eagle (coordinator m)) hbs (manager_class x) (dcp_world_size (coordinator m))
      (pcp_world_size (coordinator m))) (coordinator m) = (Ok cols, coordinator m)).
    { unfold in_pool, zoom. rewrite Hrun. by destruct (coordinator m). }
    rewrite (bind_ok _ _ _ _ _ Hin).
    rewrite (first_len_sound (pool m) (block_hashes rq) [0] Hg0 ltac:(done) n cols Hs), bind_of_res.
    exists cols, (Z.of_nat n * hbs). split; [done|].
    pose proof (Z.div_pos (num_tokens rq - 1) hbs ltac:(lia) Hpos).
    pose proof (Z.mul_div_le (num_tokens rq - 1) hbs Hpos).
    split; [split; nia|].
    unfold sound_cols in Hs. apply Forall2_cons_inv_l in Hs as (col & rest & [Hlen Hso] & Hnil & ->).
    apply Forall2_nil_inv_l in Hnil as ->. unfold create_kv_cache_blocks. cbn [existsb].
    case_bool_decide as Hcol.
    + simpl. subst col. simpl in Hlen. subst n. by apply no_hits.
    + simpl. split; simpl; [by rewrite Hx|done|]. intros _ i y comp Hy Hcomp. rewrite Hx in Hy.
      destruct i; [|done]. injection Hy as <-. injection Hcomp as <-. split.
      * eapply (sound_hits _ fr (block_hashes rq) 0 n); [done|apply Hrq| |done|done].
        by rewrite <- (ki_caching _ _ Hk).
      * rewrite Hbs. unfold len. rewrite Hlen. lia.
Qed.

Lemma impl_lookup m rq : served m → hashed hbs rq → 0 < num_tokens rq →
  ∃ b n m', get_computed_blocks rq m = (Ok (b, n), m') ∧ served m' ∧ kv_frame None m m' ∧
    0 ≤ n < num_tokens rq ∧ cache_hits m' rq b n.
Proof.
  intros Hm Hrq Hn. unfold get_computed_blocks, bind at 1, get.
  destruct (negb (kv_enable_caching m) || skip_reading_prefix_cache rq) eqn:Hskip.
  { exists (empty_kv_cache_blocks m), 0, m. split; [done|]. split; [done|]. split; [by split|].
    split; [lia|]. by apply no_hits. }
  apply orb_false_iff in Hskip as [Hca%negb_false_iff _].
  destruct (search_ok m rq Hm Hrq Hn Hca) as (blks & n & Hrun & Hb & Hh).
  rewrite (bind_in_coordinator _ m _ _ _ Hrun).
  assert (set_coordinator (coordinator m) m = m) as -> by by destruct m.
  destruct (log_stats m) eqn:Hlog; [|by exists (create_kv_cache_blocks blks m), n, m].
  destruct (se_inv _ _ _ _ Hm) as (fr & Hk). pose proof (ki_stats _ _ Hk Hlog) as Hst.
  destruct (prefix_cache_stats m) as [st|] eqn:Hps; [|done].
  set (st' := record (num_tokens rq) n (0 <? num_preemptions rq) st).
  destruct (record_step m (Some st') Hm ltac:(done)) as (Hm' & Hf & Hh').
  exists (create_kv_cache_blocks blks m), n, (set_prefix_cache_stats (Some st') m).
  split; [done|]. split; [done|]. split; [done|]. split; [done|]. by apply Hh'.
Qed.

(** ** Block ids *)

Lemma impl_blocks m id : served m → valid m (get_blocks id m).
Proof.
  intros Hm g a Hg Ha. destruct (se_inv _ _ _ _ Hm) as (fr & Hk). unfold get_blocks in Hg.
  pose proof (create_blocks_groups _ m g a Hg Ha) as Hin. unfold c_get_blocks in Hin.
  apply list_elem_of_fmap in Hin as (x & -> & Hx). by eapply table_range; [apply Hk| |].
Qed.

Lemma impl_ids m b allow_none : served m → valid m b →
  ∃ ids, in_block_pool (get_block_ids allow_none b) m = (Ok ids, m) ∧
    (allow_none = false → is_Some ids).
Proof.
  intros Hm Hb. destruct (se_inv _ _ _ _ Hm) as (fr & Hk).
  pose proof (gi_pool _ _ _ (ci_ginv _ _ (ki_cinv _ _ Hk))) as Hwf.
  assert (∃ ids, get_block_ids allow_none b (pool m) = (Ok ids, pool m) ∧ (allow_none = false → is_Some ids))
    as (ids & Hrun & Hids).
  { unfold get_block_ids. destruct (allow_none && _) eqn:Hnone.
    { exists None. split; [done|]. by destruct allow_none. }
    destruct (mapM_read (λ _ _, True)
      (λ g, mapM (λ l, let* b := block l in ret (block_id b)) g) (kb_blocks b) (pool m)) as (idss & Hrun & _).
    { intros g Hg. destruct (mapM_read (λ _ _, True)
        (λ l, let* b := block l in ret (block_id b)) g (pool m)) as (ids & Hrun & _); [|by exists ids].
      intros a Ha. destruct (block_ok (pool m) fr a Hwf (Hb g a Hg Ha)) as (bl & Hbl & _).
      exists (block_id bl). by rewrite (bind_ok _ _ _ _ _ Hbl). }
    rewrite (bind_ok _ _ _ _ _ Hrun). exists (Some idss). split; [done|]. by eexists. }
  exists ids. split; [|done]. rewrite (in_block_pool_ok _ m _ _ Hrun).
  f_equal. destruct m as [[] ? ? ? ? ?]. done.
Qed.

(** ** The common prefix *)

Lemma common_prefix_loop_ok p free n l : pool_wf p free → (∀ a, a ∈ l → (a < length (blocks p))%nat) →
  ∃ k, common_prefix_loop n l p = (Ok k, p).
Proof.
  intros Hwf. induction l as [|a l IH]; intros Hl; simpl; [by eexists|].
  destruct (block_ok p free a Hwf) as (b & Hb & _); [apply Hl; by left|].
  rewrite (bind_ok _ _ _ _ _ Hb). case_decide; [|by eexists].
  destruct IH as (k & Hk); [intros c Hc; apply Hl; by right|]. rewrite (bind_ok _ _ _ _ _ Hk). by eexists.
Qed.

(** The call may create an empty table, which changes nothing else. *)
Record looked r x x' : Prop := {
  lk_same : same_manager r x x';
  lk_blocks : mget x' r = mget x r;
  lk_cached : num_cached_block x' = num_cached_block x
}.
#[local] Instance looked_refl r : Reflexive (looked r).
Proof. by split. Qed.

Lemma manager_prefix_ok p x fr es r : sinv p x fr es →
  ∃ k x', get_num_common_prefix_blocks r (p, x) = (Ok k, (p, x')) ∧ sinv p x' fr es ∧ looked r x x'.
Proof.
  intros Hs. unfold get_num_common_prefix_blocks. rewrite bind_this.
  pose proof (sinv_view _ _ _ _ r Hs) as Hg.
  destruct (common_prefix_loop_ok p fr (Z.of_nat (size (req_to_blocks (touched x r)))) (mget x r)) as (k & Hk).
  { apply (gi_pool _ _ _ Hg). }
  { apply (eo_range _ _ (gi_entries _ _ _ Hg (mget x r, mcached x r) ltac:(by left))). }
  assert (Hfull : full_get_num_common_prefix_blocks r (p, x) = (Ok k, (p, touched x r))).
  { unfold full_get_num_common_prefix_blocks. rewrite bind_blocks_of, bind_this.
    by rewrite (on_pool_ok _ p p _ _ Hk). }
  assert (Ht : sinv p (touched x r) fr es ∧ looked r x (touched x r)).
  { split; [|split; [apply touched_same|unfold mget; simpl; by rewrite lookup_insert_eq|done]].
    by eapply (sinv_back p p x (touched x r)); [apply Hs|done|apply touched_same|..]. }
  destruct (manager_class x); try (by exists 0, x); by exists k, (touched x r).
Qed.

Lemma impl_prefix m id : served m →
  ∃ l m', kv_get_num_common_prefix_blocks id m = (Ok l, m') ∧ served m' ∧ kv_frame None m m'.
Proof.
  intros Hm. destruct (se_inv _ _ _ _ Hm) as (fr & Hk). unfold kv_get_num_common_prefix_blocks.
  assert (∃ l p' ms' fr', c_get_num_common_prefix_blocks id (coordinator m) =
      (Ok l, with_state (coordinator m) p' ms') ∧ cinv (with_state (coordinator m) p' ms') fr' ∧
      same_static (pool m) p' ∧ Forall2 (looked id) (managers m) ms')
    as (l & p' & ms' & fr' & Hrun & Hc' & Hst & Hf).
  { unfold c_get_num_common_prefix_blocks. rewrite bind_gets.
    assert (Hall : ∃ l p' ms' fr', each_manager (λ _, get_num_common_prefix_blocks id) (coordinator m) =
      (Ok l, with_state (coordinator m) p' ms') ∧ cinv (with_state (coordinator m) p' ms') fr' ∧
      same_static (pool m) p' ∧ Forall2 (looked id) (managers m) ms').
    { destruct (each_manager_ok (λ _, get_num_common_prefix_blocks id)
        (λ ms1 ms2 p f1 acc, Forall2 (looked id) (managers m) (ms1 ++ ms2))) with (c := coordinator m) (fr := fr)
        as (l & p' & ms' & fr' & Hrun & Hc' & Hst & Hf).
      - intros ms1 x ms2 p f1 acc Hf Hs.
        destruct (manager_prefix_ok p x f1 _ id Hs) as (k & x' & Hrun & Hs' & Hlk).
        exists k, p, x', f1. split; [exact Hrun|]. split; [done|]. split; [done|].
        rewrite <- app_assoc. simpl. apply Forall2_app_inv_r in Hf as (k1 & k2 & Hf1 & Hf2 & ->).
        apply Forall2_app; [done|]. apply Forall2_cons_inv_r in Hf2 as (y & k3 & [L1 L2 L3] & Hf3 & ->).
        destruct Hlk as [L4 L5 L6]. constructor; [|done]. split; [by etrans|congruence|congruence].
      - apply Hk.
      - simpl. apply Forall_Forall2_diag, Forall_true. done.
      - rewrite app_nil_r in Hf. by exists l, p', ms', fr'. }
    destruct (kind (coordinator m)); [|exact Hall|exact Hall].
    exists (replicate (length (managers m)) 0), (pool m), (managers m), fr. rewrite with_state_id.
    split; [done|]. split; [apply Hk|]. split; [done|]. apply Forall_Forall2_diag, Forall_true. done. }
  set (m' := set_coordinator (with_state (coordinator m) p' ms') m).
  assert (Hs : step_of id m m').
  { split; [done| |done|exists fr'; by apply (kinv_step m _ fr fr')].
    eapply Forall2_impl; [exact Hf|]. by intros x y []. }
  exists l, m'. split; [by apply in_coordinator_ok|]. split; [by eapply step_of_served|].
  pose proof (step_of_frame _ _ _ Hs) as [F1 F2 F3 F4]. split; [| |done|done].
  - intros id' _ Hidle. destruct (decide (id' = id)) as [->|Hne]; [|apply F1; [congruence|done]].
    intros x' Hx'. apply list_elem_of_lookup in Hx' as [i Hi].
    destruct (Forall2_lookup_r _ _ _ _ _ Hf Hi) as (x & Hx & [L1 L2 L3]).
    rewrite L2, L3. apply Hidle. by eapply list_elem_of_lookup_2.
  - intros id' n _ Hsl. destruct (decide (id' = id)) as [->|Hne]; [|apply F2; [congruence|done]].
    intros x' Hx'. apply list_elem_of_lookup in Hx' as [i Hi].
    destruct (Forall2_lookup_r _ _ _ _ _ Hf Hi) as (x & Hx & [L1 L2 L3]).
    rewrite L2, (sm_bs _ _ _ L1). apply Hsl. by eapply list_elem_of_lookup_2.
Qed.
(** ** Events and statistics *)

(** A change of the pool that concerns neither blocks nor the cache. *)
Record same_blocks (p p' : BlockPool) : Prop := {
  sb_static : same_static p p';
  sb_mem : mem p' = mem p;
  sb_cache : cached_block_hash_to_block p' = cached_block_hash_to_block p
}.

Lemma quiet_ok m p' : served m → same_blocks (pool m) p' →
  let m' := set_coordinator (set_block_pool p' (coordinator m)) m in
  served m' ∧ kv_frame None m m'.
Proof.
  intros [(fr & [[Hg Ho] Hca Hst]) H1 H2 H3 H4 H5 H6] [Hs Hm Hc] m'.
  assert (Hdata : data p' = data (pool m)) by (unfold data; by rewrite Hm).
  split; [|split; try done].
  - split; [|done|done|simpl; by rewrite (ss_hash_size _ _ Hs)|done|done|done].
    exists fr. split; [|simpl; by rewrite (ss_caching _ _ Hs)|done]. simpl. apply cinv_drop_hashes; [done| |done| |].
    + destruct (gi_pool _ _ _ Hg) as [[] Hq Hd]. destruct Hs.
      split; [split; congruence|by rewrite Hm|]. by rewrite ss_blocks, Hdata, Hc.
    + intros a. unfold ref. by rewrite Hdata.
    + intros a. left. unfold hash. by rewrite Hdata.
  - simpl. intros b Hb g a Hg' Ha. simpl. rewrite (ss_blocks _ _ Hs). eauto.
Qed.

Lemma impl_quiet {A} (op : M BlockPool A) m : served m →
  (∃ a p', op (pool m) = (Ok a, p') ∧ same_blocks (pool m) p') →
  ∃ a m', in_block_pool op m = (Ok a, m') ∧ served m' ∧ kv_frame None m m'.
Proof.
  intros Hm (a & p' & Hrun & Hs). exists a, (set_coordinator (set_block_pool p' (coordinator m)) m).
  split; [by apply in_block_pool_ok|]. by apply quiet_ok.
Qed.

Lemma impl_events m : served m →
  ∃ evs m', kv_take_events m = (Ok evs, m') ∧ served m' ∧ kv_frame None m m'.
Proof.
  intros Hm. apply impl_quiet; [done|]. unfold take_kv_events, bind at 1, get.
  destruct (enable_kv_cache_events (pool m)); eexists _, _; (split; [reflexivity|]); by split.
Qed.

Lemma impl_drain m : served m →
  ∃ evs m', in_block_pool drain_metrics m = (Ok evs, m') ∧ served m' ∧ kv_frame None m m'.
Proof.
  intros Hm. apply impl_quiet; [done|]. unfold drain_metrics, bind at 1, get.
  destruct (metrics_collector (pool m)) as [c|]; [|eexists _, _; split; [reflexivity|by split]].
  destruct (drain_events c) as [evs c']. eexists _, _. split; [reflexivity|by split].
Qed.

Lemma impl_stats m : served m →
  ∃ st m', make_prefix_cache_stats m = (Ok st, m') ∧ served m' ∧ kv_frame None m m' ∧
    (log = true → is_Some st).
Proof.
  intros Hm. unfold make_prefix_cache_stats, bind at 1, get.
  pose proof (se_log _ _ _ _ Hm) as Hlog. destruct (log_stats m) eqn:Hl; simpl.
  - destruct (record_step m (Some PrefixCacheStats_init) Hm) as (Hm' & Hf & _); [done|].
    eexists _, _. split; [reflexivity|]. do 2 (split; [done|]). intros _.
    destruct (se_inv _ _ _ _ Hm) as (fr & Hk). apply not_eq_None_Some. by apply (ki_stats _ _ Hk).
  - exists None, m. split; [done|]. split; [done|]. split; [by split|]. by rewrite <- Hlog.
Qed.
End impl.

(** ** The instance *)

#[export] Instance kv_service (hbs max_len : Z) (log : bool) :
  KVService (H := kv_predicates hbs max_len log) hbs max_len log.
Proof.
  split; simpl.
  - intros m id n k Hs Hk x Hx. specialize (Hs x Hx). lia.
  - apply impl_free.
  - apply impl_extend.
  - apply impl_lookup.
  - apply impl_admit.
  - apply impl_blocks.
  - apply impl_ids.
  - apply impl_prefix.
  - apply impl_events.
  - apply impl_stats.
  - apply impl_drain.
Qed.
