(* ===== verification/OrderedDict.v ===== *)
(** Python dictionaries with their insertion order, as the encoder cache, the
    offloading policies and the scheduler use them ([dict] and
    [collections.OrderedDict]): an association list, oldest entry first. *)

From S2P Require Import Prelude.

Section odict.
Context {K V : Type} `{EqDecision K}.
Implicit Types (k : K) (v : V) (d : list (K * V)).

(** [d.get(k)] *)
Fixpoint od_get k d : option V :=
  match d with
  | [] => None
  | (k', v) :: d => if decide (k' = k) then Some v else od_get k d
  end.
(** [d\[k\] = v]: an existing key keeps its place. *)
Fixpoint od_set k v d : list (K * V) :=
  match d with
  | [] => [(k, v)]
  | (k', v') :: d => if decide (k' = k) then (k, v) :: d else (k', v') :: od_set k v d
  end.
(** [d.pop(k, None)] *)
Definition od_del k d : list (K * V) := filter (λ p, p.1 ≠ k) d.
(** [k in d] *)
Definition od_mem k d : bool := bool_decide (is_Some (od_get k d)).
(** [d.keys()] and [d.values()] *)
Definition od_keys d : list K := map fst d.
Definition od_values d : list V := map snd d.
(** [d.move_to_end(k)]; [None] stands for [KeyError]. *)
Definition od_move_to_end k d : option (list (K * V)) :=
  match od_get k d with
  | Some v => Some (od_del k d ++ [(k, v)])
  | None => None
  end.

Lemma od_get_in k v d : od_get k d = Some v → (k, v) ∈ d.
Proof.
  induction d as [|[k' v'] d IH]; [done|]. simpl. case_decide as Hk.
  - intros [= ->]. subst. by left.
  - intros H. right. by apply IH.
Qed.
Lemma od_in_keys k v d : (k, v) ∈ d → k ∈ od_keys d.
Proof. intros H. apply list_elem_of_fmap. by exists (k, v). Qed.
Lemma od_get_none k d : od_get k d = None ↔ k ∉ od_keys d.
Proof.
  unfold od_keys. induction d as [|[k' v'] d IH]; simpl; [split; [set_solver|done]|].
  rewrite not_elem_of_cons. case_decide as Hk; [|rewrite IH]; naive_solver.
Qed.
Lemma od_get_keys k d : is_Some (od_get k d) ↔ k ∈ od_keys d.
Proof.
  rewrite <- not_eq_None_Some, od_get_none. split; [|tauto]. intros H.
  destruct (decide (k ∈ od_keys d)); tauto.
Qed.
Lemma od_mem_keys k d : od_mem k d = true ↔ k ∈ od_keys d.
Proof. unfold od_mem. rewrite bool_decide_eq_true. apply od_get_keys. Qed.
Lemma od_get_nodup k v d : NoDup (od_keys d) → (k, v) ∈ d → od_get k d = Some v.
Proof.
  induction d as [|[k' v'] d IH]; intros Hnd Hin; [by apply not_elem_of_nil in Hin|].
  apply NoDup_cons in Hnd as [Hn Hnd]. simpl. apply elem_of_cons in Hin as [[= -> ->]|Hin].
  - by rewrite decide_True.
  - rewrite decide_False; [by apply IH|]. intros ->. by apply Hn, (od_in_keys _ v).
Qed.

Lemma od_del_in k k' v d : (k', v) ∈ od_del k d ↔ k' ≠ k ∧ (k', v) ∈ d.
Proof. exact (list_elem_of_filter (λ p : K * V, p.1 ≠ k) d (k', v)). Qed.
Lemma od_del_keys k k' d : k' ∈ od_keys (od_del k d) ↔ k' ≠ k ∧ k' ∈ od_keys d.
Proof.
  unfold od_keys. rewrite !list_elem_of_fmap. split.
  - intros ([k1 v] & -> & [??]%od_del_in). split; [done|]. by exists (k1, v).
  - intros (Hk & [k1 v] & -> & Hin). exists (k1, v). split; [done|]. by apply od_del_in.
Qed.
Lemma od_del_nodup k d : NoDup (od_keys d) → NoDup (od_keys (od_del k d)).
Proof.
  unfold od_del. induction d as [|[k' v] d IH]; intros Hnd; [done|].
  apply NoDup_cons in Hnd as [Hn Hnd]. destruct (decide (k' = k)).
  - rewrite filter_cons_False by naive_solver. by apply IH.
  - rewrite filter_cons_True by done. apply NoDup_cons. split; [|by apply IH].
    intros Hin. apply Hn. by apply (od_del_keys k) in Hin as [??].
Qed.
Lemma od_del_absent k d : k ∉ od_keys d → od_del k d = d.
Proof.
  intros Hk. unfold od_del. apply filter_all. intros [k' v] Hin; simpl; intros ->. by apply Hk, (od_in_keys _ v).
Qed.
Lemma od_get_del k k' d : od_get k' (od_del k d) = if decide (k' = k) then None else od_get k' d.
Proof.
  unfold od_del. induction d as [|[k1 v] d IH]; [by case_decide|]. destruct (decide (k1 = k)) as [->|Hk].
  - rewrite filter_cons_False by naive_solver. rewrite IH. simpl. repeat case_decide; congruence.
  - rewrite filter_cons_True by done. simpl. rewrite IH. repeat case_decide; congruence.
Qed.
Lemma od_get_app k d d' :
  od_get k (d ++ d') = match od_get k d with Some v => Some v | None => od_get k d' end.
Proof. induction d as [|[k1 v] d IH]; [done|]. simpl. by case_decide. Qed.
Lemma od_keys_app d d' : od_keys (d ++ d') = od_keys d ++ od_keys d'.
Proof. apply map_app. Qed.

Lemma od_get_set k k' v d :
  od_get k' (od_set k v d) = if decide (k' = k) then Some v else od_get k' d.
Proof.
  induction d as [|[k1 v1] d IH]; simpl.
  { destruct (decide (k = k')), (decide (k' = k)); congruence. }
  destruct (decide (k1 = k)); simpl; rewrite ?IH; repeat case_decide; congruence.
Qed.
Lemma od_set_set k v v' d : od_set k v (od_set k v' d) = od_set k v d.
Proof.
  induction d as [|[k1 v1] d IH]; simpl; [by rewrite decide_True|]. destruct (decide (k1 = k)) as [->|]; simpl.
  - by rewrite decide_True.
  - rewrite decide_False by done. by rewrite IH.
Qed.
Lemma od_del_set k v d : od_del k (od_set k v d) = od_del k d.
Proof.
  unfold od_del. induction d as [|[k1 v1] d IH]; simpl.
  - by rewrite filter_cons_False by naive_solver.
  - destruct (decide (k1 = k)) as [->|].
    + by rewrite !filter_cons_False by naive_solver.
    + rewrite !filter_cons_True by done. by rewrite IH.
Qed.
(** A new key is appended. *)
Lemma od_set_new k v d : k ∉ od_keys d → od_set k v d = d ++ [(k, v)].
Proof.
  unfold od_keys. induction d as [|[k1 v1] d IH]; [done|]. simpl. rewrite not_elem_of_cons. intros [H1 H2].
  rewrite decide_False by congruence. by rewrite IH.
Qed.
Lemma od_set_keys_old k v d : k ∈ od_keys d → od_keys (od_set k v d) = od_keys d.
Proof.
  unfold od_keys. induction d as [|[k1 v1] d IH]; simpl; [set_solver|]. intros Hin.
  case_decide as Hk; simpl; [by subst|].
  f_equal. apply IH. apply elem_of_cons in Hin as [->|]; done.
Qed.
Lemma od_set_nodup k v d : NoDup (od_keys d) → NoDup (od_keys (od_set k v d)).
Proof.
  intros Hnd. destruct (decide (k ∈ od_keys d)); [by rewrite od_set_keys_old|].
  rewrite od_set_new, od_keys_app by done. apply NoDup_app. split; [done|].
  split; [|apply NoDup_singleton]. intros x Hx Hx'. apply list_elem_of_singleton in Hx' as ->. done.
Qed.
Lemma od_set_keys k k' v d : k' ∈ od_keys (od_set k v d) ↔ k' = k ∨ k' ∈ od_keys d.
Proof.
  rewrite <- !od_get_keys, od_get_set. case_decide as Hk; [|naive_solver].
  split; [by left|]. intros _. by eexists.
Qed.
Lemma od_snoc_nodup k v d :
  NoDup (od_keys d) → k ∉ od_keys d → NoDup (od_keys (d ++ [(k, v)])).
Proof. intros. rewrite <- od_set_new by done. by apply od_set_nodup. Qed.

Lemma od_move_to_end_spec k v d :
  od_get k d = Some v → od_move_to_end k d = Some (od_del k d ++ [(k, v)]).
Proof. intros H. unfold od_move_to_end. by rewrite H. Qed.
End odict.

(** The sum of a weight over a list. *)
Definition sum_list_Z {A} (f : A → Z) (l : list A) : Z := foldr (λ a acc, f a + acc) 0 l.

Lemma sum_list_Z_app {A} (f : A → Z) l l' :
  sum_list_Z f (l ++ l') = sum_list_Z f l + sum_list_Z f l'.
Proof. induction l as [|a l IH]; simpl; lia. Qed.
Lemma sum_list_Z_nonneg {A} (f : A → Z) l : (∀ a, a ∈ l → 0 ≤ f a) → 0 ≤ sum_list_Z f l.
Proof.
  induction l as [|a l IH]; intros H; simpl; [done|].
  pose proof (H a (list_elem_of_here _ _)). specialize (IH (λ x Hx, H x (list_elem_of_further _ _ _ Hx))). lia.
Qed.
Lemma sum_list_Z_perm {A} (f : A → Z) l l' : l ≡ₚ l' → sum_list_Z f l = sum_list_Z f l'.
Proof. induction 1; simpl; lia. Qed.
Lemma sum_list_Z_del {K} `{EqDecision K} (d : list (K * Z)) k v :
  NoDup (od_keys d) → od_get k d = Some v →
  sum_list_Z snd d = v + sum_list_Z snd (od_del k d).
Proof.
  induction d as [|[k1 v1] d IH]; intros Hnd Hget; [done|].
  apply NoDup_cons in Hnd as [Hn Hnd]. simpl in Hget |- *. unfold od_del. case_decide as Hk.
  - injection Hget as ->. subst. rewrite filter_cons_False by naive_solver.
    fold (od_del k d). by rewrite od_del_absent.
  - rewrite filter_cons_True by done. simpl. rewrite (IH Hnd Hget). unfold od_del. lia.
Qed.
