(* ===== verification/EncoderCache.v ===== *)
(** The encoder cache (vllm/v1/core/encoder_cache_manager.py): which encoder
    outputs of multi-modal inputs the workers keep, and the accounting of its
    slots, for both managers; and the encoder budgets.

    [cached] is a map to sets of request ids ([dict\[str, set\[str\]\]]) whose
    order nothing reads; [freeable] is an ordered dictionary, oldest first. *)

From S2P Require Import Prelude.
From S2P Require Import Request.
From S2P Require Import OrderedDict.

Record EncoderCacheManager := mkEncoder {
  cache_size : Z;
  num_free_slots : Z;
  num_freeable_slots : Z;
  cached : gmap string (gset string);
  freeable : list (string * Z);
  freed : list string
}.

Definition EncoderCacheManager_eta (m : EncoderCacheManager) : EncoderCacheManager :=
  mkEncoder (cache_size m) (num_free_slots m) (num_freeable_slots m) (cached m) (freeable m)
    (freed m).
Definition set_num_free_slots (v : Z) : EncoderCacheManager → EncoderCacheManager :=
  ltac:(record_set EncoderCacheManager_eta num_free_slots v).
Definition set_num_freeable_slots (v : Z) : EncoderCacheManager → EncoderCacheManager :=
  ltac:(record_set EncoderCacheManager_eta num_freeable_slots v).
Definition set_cached (v : gmap string (gset string)) : EncoderCacheManager → EncoderCacheManager :=
  ltac:(record_set EncoderCacheManager_eta cached v).
Definition set_freeable (v : list (string * Z)) : EncoderCacheManager → EncoderCacheManager :=
  ltac:(record_set EncoderCacheManager_eta freeable v).
Definition set_freed (v : list string) : EncoderCacheManager → EncoderCacheManager :=
  ltac:(record_set EncoderCacheManager_eta freed v).

Definition EncoderCacheManager_init (size : Z) : EncoderCacheManager :=
  mkEncoder size size size ∅ [] [].

(** [request.mm_features\[input_id\].identifier] *)
Definition mm_hash_of (request : Request) (input_id : Z) : res string :=
  match py_index (mm_features request) input_id with
  | Some f => Ok (identifier f)
  | None => Raise IndexError
  end.

Definition check_and_update_cache (request : Request) (input_id : Z)
    : M EncoderCacheManager bool :=
  let* mm_hash := of_res (mm_hash_of request input_id) in
  let* m := get in
  match cached m !! mm_hash with
  | None => ret false
  | Some ids =>
      (if bool_decide (ids = ∅) then
         let* num_encoder_embeds := of_option KeyError (od_get mm_hash (freeable m)) in
         modify (set_freeable (od_del mm_hash (freeable m))) ;;;
         modify (set_num_freeable_slots (num_freeable_slots m - num_encoder_embeds))
       else ret tt) ;;;
      modify (λ m, set_cached (<[mm_hash := ids ∪ {[request_id request]}]> (cached m)) m) ;;;
      ret true
  end.

(** The body of the eviction loop of [can_allocate]: [freeable.popitem(last=False)]
    raises [KeyError] on an empty dictionary, and so does [del cached\[mm_hash\]]
    for an absent key. *)
Definition evict_oldest : M EncoderCacheManager unit :=
  let* m := get in
  match freeable m with
  | [] => raise KeyError
  | (mm_hash, num_free_embeds) :: rest =>
      modify (set_freeable rest) ;;;
      match cached m !! mm_hash with
      | None => raise KeyError
      | Some _ =>
          modify (set_cached (delete mm_hash (cached m))) ;;;
          modify (λ m, set_freed (freed m ++ [mm_hash]) m) ;;;
          modify (λ m, set_num_free_slots (num_free_slots m + num_free_embeds) m)
      end
  end.

Fixpoint evict_loop (fuel : nat) (num_embeds : Z) : M EncoderCacheManager unit :=
  let* m := get in
  if decide (num_free_slots m < num_embeds) then
    match fuel with
    | O => raise OutOfFuel
    | S fuel => evict_oldest ;;; evict_loop fuel num_embeds
    end
  else ret tt.

(** Every iteration of the loop removes an entry of [freeable], which bounds
    their number. *)
Definition can_allocate (request : Request) (input_id encoder_compute_budget : Z)
    (num_embeds_to_schedule : Z) : M EncoderCacheManager bool :=
  let* num_embeds := of_res (get_num_encoder_embeds request input_id) in
  if decide (encoder_compute_budget < num_embeds) then ret false else
  let num_embeds := num_embeds + num_embeds_to_schedule in
  let* m := get in
  if decide (num_embeds ≤ num_free_slots m) then ret true else
  if decide (num_freeable_slots m < num_embeds) then ret false else
  evict_loop (S (length (freeable m))) num_embeds ;;;
  ret true.

Definition allocate (request : Request) (input_id : Z) : M EncoderCacheManager unit :=
  let* mm_hash := of_res (mm_hash_of request input_id) in
  modify (λ m, if bool_decide (is_Some (cached m !! mm_hash)) then m
               else set_cached (<[mm_hash := ∅]> (cached m)) m) ;;;
  let* num_encoder_embeds := of_res (get_num_encoder_embeds request input_id) in
  let* m := get in
  assert_ (bool_decide (num_encoder_embeds ≤ num_free_slots m)) ;;;
  assert_ (bool_decide (num_encoder_embeds ≤ num_freeable_slots m)) ;;;
  let* ids := of_option KeyError (cached m !! mm_hash) in
  modify (set_cached (<[mm_hash := ids ∪ {[request_id request]}]> (cached m))) ;;;
  modify (set_num_free_slots (num_free_slots m - num_encoder_embeds)) ;;;
  modify (set_num_freeable_slots (num_freeable_slots m - num_encoder_embeds)).

(** The set of the cached inputs of a request. *)
Definition get_cached_input_ids (request : Request) (m : EncoderCacheManager) : gset Z :=
  list_to_set (filter (λ input_id,
    match mm_hash_of request input_id with
    | Ok mm_hash => bool_decide (is_Some (cached m !! mm_hash))
    | Raise _ => false
    end = true) (py_range 0 (len (mm_features request)))).

Definition free_encoder_input (request : Request) (input_id : Z) : M EncoderCacheManager unit :=
  let* mm_hash := of_res (mm_hash_of request input_id) in
  let* m := get in
  match cached m !! mm_hash with
  | None => ret tt
  | Some ids =>
      if bool_decide (ids = ∅) then ret tt else
      let ids := ids ∖ {[request_id request]} in
      modify (set_cached (<[mm_hash := ids]> (cached m))) ;;;
      if bool_decide (ids = ∅) then
        let* num_encoder_embeds := of_res (get_num_encoder_embeds request input_id) in
        modify (set_freeable (od_set mm_hash num_encoder_embeds (freeable m))) ;;;
        modify (set_num_freeable_slots (num_freeable_slots m + num_encoder_embeds))
      else ret tt
  end.

(** Python iterates over a set in an order of its own: [set_order]. *)
Definition encoder_free (set_order : gset Z → list Z) (request : Request)
    : M EncoderCacheManager unit :=
  let* input_ids := gets (get_cached_input_ids request) in
  for_ (set_order input_ids) (λ input_id, free_encoder_input request input_id).

Definition get_freed_mm_hashes : M EncoderCacheManager (list string) :=
  let* m := get in
  modify (set_freed []) ;;;
  ret (freed m).

(** ** The manager of encoder-decoder models

    Its constructor sets three attributes; the others are never read. *)
Module EncoderDecoder.
Definition init (size : Z) : EncoderCacheManager := mkEncoder size size 0 ∅ [] [].
Definition check_and_update_cache (request : Request) (input_id : Z)
    : M EncoderCacheManager bool := ret false.
Definition can_allocate (request : Request) (input_id encoder_compute_budget : Z)
    (num_embeds_to_schedule : Z) : M EncoderCacheManager bool :=
  let* num_encoder_embeds := of_res (get_num_encoder_embeds request input_id) in
  if decide (encoder_compute_budget < num_encoder_embeds) then ret false else
  gets (λ m, bool_decide (num_encoder_embeds + num_embeds_to_schedule ≤ num_free_slots m)).
Definition allocate (request : Request) (input_id : Z) : M EncoderCacheManager unit :=
  let* num_encoder_embeds := of_res (get_num_encoder_embeds request input_id) in
  modify (λ m, set_num_free_slots (num_free_slots m - num_encoder_embeds) m) ;;;
  let* mm_hash := of_res (mm_hash_of request input_id) in
  modify (λ m, set_freed (freed m ++ [mm_hash]) m).
Definition free_encoder_input (request : Request) (input_id : Z) : M EncoderCacheManager unit :=
  let* num_encoder_embeds := of_res (get_num_encoder_embeds request input_id) in
  modify (λ m, set_num_free_slots (num_free_slots m + num_encoder_embeds) m).
Definition free (request : Request) : M EncoderCacheManager unit :=
  for_ (py_range 0 (len (mm_features request))) (λ input_id, free_encoder_input request input_id).
Definition get_cached_input_ids (request : Request) : gset Z :=
  list_to_set (py_range 0 (len (mm_features request))).
End EncoderDecoder.

(** ** The budgets

    The configuration values, and the results of the multi-modal registry
    [supports_multimodal_inputs] and [get_max_tokens_per_item_by_modality],
    are arguments. *)
Record EncoderBudgetConfig := mkBudgetConfig {
  disable_chunked_mm_input : bool;
  eb_max_num_batched_tokens : Z;
  eb_max_num_encoder_input_tokens : Z;
  eb_encoder_cache_size : Z
}.

Definition compute_mm_encoder_budget (c : EncoderBudgetConfig)
    (max_tokens_by_modality : list (string * Z)) : res (Z * Z) :=
  match od_values max_tokens_by_modality with
  | [] => Ok (0, 0)
  | v :: vs =>
      let max_tokens_per_mm_item := foldl Z.max v vs in
      if disable_chunked_mm_input c
         && bool_decide (eb_max_num_batched_tokens c < max_tokens_per_mm_item)
      then Raise ValueError
      else Ok (Z.max (eb_max_num_encoder_input_tokens c) max_tokens_per_mm_item,
               Z.max (eb_encoder_cache_size c) max_tokens_per_mm_item)
  end.
Definition compute_text_encoder_budget (c : EncoderBudgetConfig) : Z * Z := (0, 0).
Definition compute_encoder_budget (c : EncoderBudgetConfig)
    (supports_multimodal_inputs : bool) (max_tokens_by_modality : list (string * Z))
    : res (Z * Z) :=
  if supports_multimodal_inputs then compute_mm_encoder_budget c max_tokens_by_modality
  else Ok (compute_text_encoder_budget c).
