(* ===== verification/EncoderCacheSpec.v ===== *)
(** Properties of the encoder cache: its slots are accounted for in every
    history, and a positive answer of [can_allocate] really reserves room. *)

From S2P Require Import Prelude.
From S2P Require Import Request.
From S2P Require Import OrderedDict.
From S2P Require Import EncoderCache.

Section encoder_cache.
(** The number of embeddings of the data with a given hash: the identifier of
    an input is the hash of its data, so equal identifiers have equal sizes. *)
Context (size : string → Z) (size_nonneg : ∀ h, 0 ≤ size h).
(** The size of the cache. *)
Context (capacity : Z).

(** [i] is an input of [r] with hash [h]. *)
Definition has_input (r : Request) (i : Z) (h : string) : Prop :=
  0 ≤ i < len (mm_features r) ∧
  mm_hash_of r i = Ok h ∧ get_num_encoder_embeds r i = Ok (size h).

Definition wf_inputs (r : Request) : Prop :=
  ∀ i, 0 ≤ i < len (mm_features r) → ∃ h, has_input r i h.

Definition cached_size (c : gmap string (gset string)) : Z :=
  sum_list_Z size (elements (dom c)).

Record encoder_inv (m : EncoderCacheManager) : Prop := {
  ei_capacity : cache_size m = capacity;
  ei_room : 0 ≤ num_free_slots m;
  ei_size : num_free_slots m + cached_size (cached m) = capacity;
  ei_nodup : NoDup (od_keys (freeable m));
  ei_freeable : ∀ h n, (h, n) ∈ freeable m ↔ n = size h ∧ cached m !! h = Some ∅;
  ei_count : num_freeable_slots m = num_free_slots m + sum_list_Z snd (freeable m)
}.

Lemma cached_size_new c h ids :
  c !! h = None → cached_size (<[h := ids]> c) = size h + cached_size c.
Proof.
  intros Hn. unfold cached_size. rewrite dom_insert_L.
  rewrite (sum_list_Z_perm _ _ (h :: elements (dom c))); [done|].
  apply elements_union_singleton. by apply not_elem_of_dom.
Qed.
Lemma cached_size_old c h ids :
  is_Some (c !! h) → cached_size (<[h := ids]> c) = cached_size c.
Proof. intros Hs. unfold cached_size. by rewrite dom_insert_lookup_L. Qed.
Lemma cached_size_delete c h :
  is_Some (c !! h) → cached_size c = size h + cached_size (delete h c).
Proof.
  intros [ids Hs]. rewrite <- (insert_delete_id c h ids Hs) at 1.
  apply cached_size_new, lookup_delete_eq.
Qed.
Lemma cached_size_nonneg c : 0 ≤ cached_size c.
Proof. apply sum_list_Z_nonneg. intros. apply size_nonneg. Qed.

Lemma freeable_sum_nonneg m : encoder_inv m → 0 ≤ sum_list_Z snd (freeable m).
Proof.
  intros Hm. apply sum_list_Z_nonneg. intros [h n] Hin.
  apply (ei_freeable m Hm) in Hin as [-> _]. apply size_nonneg.
Qed.

Lemma freeable_get m h :
  encoder_inv m → cached m !! h = Some ∅ → od_get h (freeable m) = Some (size h).
Proof.
  intros Hm Hc. apply od_get_nodup; [apply Hm|]. by apply (ei_freeable m Hm).
Qed.
Lemma freeable_absent m h :
  encoder_inv m → cached m !! h ≠ Some ∅ → h ∉ od_keys (freeable m).
Proof.
  intros Hm Hc Hin. apply list_elem_of_fmap in Hin as ([h' n] & Heq & Hin). simpl in Heq. subst h'.
  apply (ei_freeable m Hm) in Hin as [_ ?]. done.
Qed.

Lemma nonempty_after_add (X : gset string) id : X ∪ {[id]} ≠ ∅.
Proof. set_solver. Qed.

(** ** The initial state *)

Lemma init_inv : 0 ≤ capacity → encoder_inv (EncoderCacheManager_init capacity).
Proof.
  intros Hn. split; simpl; try done.
  - unfold cached_size. rewrite dom_empty_L, elements_empty. simpl. lia.
  - constructor.
  - intros h k. rewrite lookup_empty. split; [intros H; by apply not_elem_of_nil in H|naive_solver].
  - lia.
Qed.

(** ** Changes of the state that keep the invariant *)

(** A reference is added to an entry that has one. *)
Lemma inv_reference m h ids id :
  encoder_inv m → cached m !! h = Some ids → ids ≠ ∅ →
  encoder_inv (set_cached (<[h := ids ∪ {[id]}]> (cached m)) m).
Proof.
  intros Hm Hc Hids. destruct Hm as [Hcap Hroom Hsize Hnd Hfree Hcount].
  split; simpl; try done.
  - by rewrite cached_size_old by eauto.
  - intros h' n. rewrite Hfree. destruct (decide (h' = h)) as [->|Hne].
    + rewrite lookup_insert_eq, Hc. split; intros [_ H%(inj Some)]; [done|].
      by apply nonempty_after_add in H.
    + by rewrite lookup_insert_ne by done.
Qed.

(** A reference is added to an entry that has none. *)
Lemma inv_revive m h id :
  encoder_inv m → cached m !! h = Some ∅ →
  encoder_inv (set_cached (<[h := ∅ ∪ {[id]}]> (cached m))
    (set_num_freeable_slots (num_freeable_slots m - size h)
      (set_freeable (od_del h (freeable m)) m))).
Proof.
  intros Hm Hc. pose proof (freeable_get m h Hm Hc) as Hget.
  destruct Hm as [Hcap Hroom Hsize Hnd Hfree Hcount].
  split; simpl; try done.
  - by rewrite cached_size_old by eauto.
  - by apply od_del_nodup.
  - intros h' n. rewrite od_del_in, Hfree. destruct (decide (h' = h)) as [->|Hne].
    + rewrite lookup_insert_eq. split; [tauto|]. intros [_ H%(inj Some)].
      by apply nonempty_after_add in H.
    + rewrite lookup_insert_ne by done. tauto.
  - rewrite (sum_list_Z_del _ _ _ Hnd Hget) in Hcount. lia.
Qed.

(** The oldest entry without a reference is evicted. *)
Lemma inv_evict m h n rest :
  encoder_inv m → freeable m = (h, n) :: rest →
  cached m !! h = Some ∅ ∧
  encoder_inv (set_num_free_slots (num_free_slots m + n)
    (set_freed (freed m ++ [h]) (set_cached (delete h (cached m)) (set_freeable rest m)))).
Proof.
  intros Hm Hf. assert (Hin : (h, n) ∈ freeable m) by (rewrite Hf; by left).
  apply (ei_freeable m Hm) in Hin as [-> Hc]. split; [done|].
  destruct Hm as [Hcap Hroom Hsize Hnd Hfree Hcount]. rewrite Hf in Hnd, Hcount. simpl in Hcount.
  apply NoDup_cons in Hnd as [Hn Hnd]. pose proof (size_nonneg h).
  split; simpl; try done; try lia.
  - rewrite (cached_size_delete (cached m) h) in Hsize by eauto. lia.
  - intros h' n. specialize (Hfree h' n). rewrite Hf, elem_of_cons in Hfree.
    destruct (decide (h' = h)) as [->|Hne].
    + rewrite lookup_delete_eq. split; [|naive_solver]. intros Hin. exfalso. by apply Hn, (od_in_keys _ n).
    + rewrite lookup_delete_ne by done. rewrite <- Hfree. naive_solver.
Qed.

(** A new entry is stored. *)
Lemma inv_store m h id :
  encoder_inv m → cached m !! h = None → size h ≤ num_free_slots m →
  encoder_inv (set_num_freeable_slots (num_freeable_slots m - size h)
    (set_num_free_slots (num_free_slots m - size h)
      (set_cached (<[h := ∅ ∪ {[id]}]> (<[h := ∅]> (cached m))) m))).
Proof.
  intros Hm Hc Hroom'. destruct Hm as [Hcap Hroom Hsize Hnd Hfree Hcount].
  rewrite insert_insert_eq. split; simpl; try done; try lia.
  - rewrite cached_size_new by done. lia.
  - intros h' n. rewrite Hfree. destruct (decide (h' = h)) as [->|Hne].
    + rewrite lookup_insert_eq, Hc. split; [naive_solver|]. intros [_ H%(inj Some)].
      by apply nonempty_after_add in H.
    + by rewrite lookup_insert_ne by done.
Qed.

(** A reference is removed, but not the last one. *)
Lemma inv_drop m h ids id :
  encoder_inv m → cached m !! h = Some ids → ids ≠ ∅ → ids ∖ {[id]} ≠ ∅ →
  encoder_inv (set_cached (<[h := ids ∖ {[id]}]> (cached m)) m).
Proof.
  intros Hm Hc Hids Hne'. destruct Hm as [Hcap Hroom Hsize Hnd Hfree Hcount].
  split; simpl; try done.
  - by rewrite cached_size_old by eauto.
  - intros h' n. rewrite Hfree. destruct (decide (h' = h)) as [->|Hne].
    + rewrite lookup_insert_eq, Hc. split; by intros [_ H%(inj Some)].
    + by rewrite lookup_insert_ne by done.
Qed.

(** The last reference is removed: the entry becomes evictable, as the newest. *)
Lemma inv_drop_last m h ids :
  encoder_inv m → cached m !! h = Some ids → ids ≠ ∅ →
  encoder_inv (set_num_freeable_slots (num_freeable_slots m + size h)
    (set_freeable (od_set h (size h) (freeable m)) (set_cached (<[h := ∅]> (cached m)) m))).
Proof.
  intros Hm Hc Hids. pose proof (freeable_absent m h Hm) as Habs.
  rewrite Hc in Habs. specialize (Habs ltac:(congruence)).
  destruct Hm as [Hcap Hroom Hsize Hnd Hfree Hcount].
  split; simpl; try done.
  - by rewrite cached_size_old by eauto.
  - by apply od_set_nodup.
  - intros h' n. rewrite od_set_new by done. rewrite elem_of_app, list_elem_of_singleton, Hfree.
    destruct (decide (h' = h)) as [->|Hne].
    + rewrite lookup_insert_eq, Hc. naive_solver.
    + rewrite lookup_insert_ne by done. naive_solver.
  - rewrite od_set_new by done. rewrite sum_list_Z_app. simpl. lia.
Qed.

Lemma inv_set_freed m l : encoder_inv m → encoder_inv (set_freed l m).
Proof. by intros []. Qed.

(** ** The operations *)

Lemma check_spec m r i h :
  encoder_inv m → has_input r i h →
  ∃ m', check_and_update_cache r i m = (Ok (bool_decide (is_Some (cached m !! h))), m') ∧
    encoder_inv m' ∧ num_free_slots m' = num_free_slots m ∧ freed m' = freed m ∧
    cached m' = match cached m !! h with
                | Some ids => <[h := ids ∪ {[request_id r]}]> (cached m)
                | None => cached m
                end.
Proof.
  intros Hm (Hi & Hh & Hs). unfold check_and_update_cache. rewrite Hh.
  unfold bind, of_res, get, ret. destruct (cached m !! h) as [ids|] eqn:Hc; [|by exists m].
  rewrite (bool_decide_eq_true_2 (is_Some _)) by eauto.
  destruct (decide (ids = ∅)) as [->|Hne].
  - rewrite bool_decide_eq_true_2 by done. unfold of_option.
    rewrite (freeable_get m h Hm Hc). eexists. split; [reflexivity|].
    split; [by apply (inv_revive m h)|done].
  - rewrite bool_decide_eq_false_2 by done. eexists. split; [reflexivity|].
    split; [by apply inv_reference|done].
Qed.

(** What eviction does: it removes the oldest entries nobody refers to. *)
Definition evicted_prefix (m m' : EncoderCacheManager) (es : list (string * Z)) : Prop :=
  freeable m = es ++ freeable m' ∧ freed m' = freed m ++ od_keys es ∧
  num_free_slots m' = num_free_slots m + sum_list_Z snd es ∧
  num_freeable_slots m' = num_freeable_slots m ∧
  ∀ g ids, ids ≠ ∅ → cached m !! g = Some ids ↔ cached m' !! g = Some ids.

Lemma evicted_nil m : evicted_prefix m m [].
Proof. unfold evicted_prefix. simpl. rewrite app_nil_r. repeat split; auto; lia. Qed.

Lemma evict_oldest_spec m h n rest :
  encoder_inv m → freeable m = (h, n) :: rest →
  ∃ m', evict_oldest m = (Ok tt, m') ∧ encoder_inv m' ∧ freeable m' = rest ∧
    evicted_prefix m m' [(h, n)].
Proof.
  intros Hm Hf. destruct (inv_evict m h n rest Hm Hf) as [Hc Hm'].
  unfold evict_oldest, bind, get, modify. rewrite Hf. simpl. rewrite Hc.
  eexists. split; [reflexivity|]. split; [exact Hm'|]. split; [done|].
  unfold evicted_prefix. simpl. rewrite Hf. repeat split; try done; try lia.
  - intros Hg. rewrite lookup_delete_ne; [done|]. intros ->. congruence.
  - intros [_ Hg]%lookup_delete_Some. done.
Qed.

Lemma evict_loop_spec fuel n m :
  encoder_inv m → n ≤ num_freeable_slots m → (length (freeable m) < fuel)%nat →
  ∃ m' es, evict_loop fuel n m = (Ok tt, m') ∧ encoder_inv m' ∧ n ≤ num_free_slots m' ∧
    evicted_prefix m m' es ∧
    (es = [] ∨ ∃ es0 e, es = es0 ++ [e] ∧ num_free_slots m + sum_list_Z snd es0 < n).
Proof.
  revert m. induction fuel as [|fuel IH]; intros m Hm Hn Hlen; [lia|].
  simpl. unfold bind at 1. unfold get. case_decide as Hlt.
  2:{ exists m, []. split; [done|]. split; [done|]. split; [lia|]. split; [apply evicted_nil|by left]. }
  destruct (freeable m) as [|[h k] rest] eqn:Hf.
  { destruct Hm as [_ _ _ _ _ Hcount]. rewrite Hf in Hcount. simpl in Hcount. lia. }
  destruct (evict_oldest_spec m h k rest Hm Hf) as (m1 & Hrun & Hm1 & Hf1 & He1).
  destruct He1 as (Hfe & Hfr & Hfree & Hfbl & Hrefs). simpl in Hfree.
  rewrite (bind_ok _ _ _ _ _ Hrun).
  destruct (IH m1 Hm1) as (m' & es & Hrun' & Hm' & Hroom & (Hfe' & Hfr' & Hfree' & Hfbl' & Hrefs') & Hmin).
  { lia. } { rewrite Hf1. simpl in Hlen. lia. }
  exists m', ((h, k) :: es). split; [done|]. split; [done|]. split; [done|].
  split; [split_and!|].
  - rewrite Hf. simpl. by rewrite <- Hfe', Hf1.
  - rewrite Hfr', Hfr, <- app_assoc. done.
  - simpl. lia.
  - lia.
  - intros g ids Hids. by rewrite Hrefs, Hrefs'.
  - right. destruct Hmin as [->|(es0 & e & -> & Hlt')].
    + exists [], (h, k). simpl. split; [done|lia].
    + exists ((h, k) :: es0), e. simpl. split; [done|lia].
Qed.

Lemma allocate_spec m r i h :
  encoder_inv m → has_input r i h → cached m !! h = None → size h ≤ num_free_slots m →
  ∃ m', allocate r i m = (Ok tt, m') ∧ encoder_inv m' ∧
    num_free_slots m' = num_free_slots m - size h ∧ freed m' = freed m ∧
    cached m' = <[h := {[request_id r]}]> (cached m).
Proof.
  intros Hm (Hi & Hh & Hs) Hc Hroom. unfold allocate. rewrite Hh.
  pose proof (freeable_sum_nonneg m Hm) as Hsum. pose proof (ei_count m Hm) as Hcount.
  rewrite bind_of_res, bind_modify, bool_decide_eq_false_2 by (rewrite Hc; by intros [? ?]).
  rewrite Hs, bind_of_res. unfold bind at 1. unfold get.
  rewrite !bind_assert_true by (apply bool_decide_eq_true_2; simpl; lia).
  simpl. rewrite lookup_insert_eq. simpl.
  eexists. split; [reflexivity|]. split; [by apply (inv_store m h)|].
  simpl. rewrite insert_insert_eq, (left_id_L ∅ (∪)). done.
Qed.

Lemma free_input_spec m r i h :
  encoder_inv m → has_input r i h →
  ∃ m', free_encoder_input r i m = (Ok tt, m') ∧ encoder_inv m' ∧
    num_free_slots m' = num_free_slots m ∧ freed m' = freed m ∧
    dom (cached m') = dom (cached m) ∧
    ∀ g ids, cached m !! g = Some ids →
      cached m' !! g = Some (if decide (g = h) then ids ∖ {[request_id r]} else ids).
Proof.
  intros Hm (Hi & Hh & Hs). unfold free_encoder_input. rewrite Hh, bind_of_res.
  unfold bind at 1. unfold get.
  assert (Hother : ∀ ids0 ids g x, cached m !! h = Some ids0 → ids = ids0 ∖ {[request_id r]} →
    cached m !! g = Some x → <[h := ids]> (cached m) !! g =
      Some (if decide (g = h) then x ∖ {[request_id r]} else x)).
  { intros ids0 ids g x H0 -> Hg. case_decide as Hd; [subst; rewrite lookup_insert_eq; congruence|].
    by rewrite lookup_insert_ne by done. }
  destruct (cached m !! h) as [ids|] eqn:Hc.
  2:{ exists m. do 5 (split; [done|]). intros g ids Hg. rewrite decide_False by congruence. done. }
  destruct (decide (ids = ∅)) as [->|Hne].
  { rewrite bool_decide_eq_true_2 by done. exists m. do 5 (split; [done|]).
    intros g ids Hg. case_decide; [|done]. subst. rewrite Hc in Hg. injection Hg as <-.
    rewrite Hc. f_equal. set_solver. }
  rewrite bool_decide_eq_false_2 by done. rewrite bind_modify.
  destruct (decide (ids ∖ {[request_id r]} = ∅)) as [He|He].
  - rewrite bool_decide_eq_true_2, Hs by done. eexists. split; [reflexivity|].
    rewrite He. split; [by apply (inv_drop_last m h ids)|].
    do 2 (split; [done|]). split; [simpl; by rewrite dom_insert_lookup_L by eauto|].
    simpl. intros g x Hg. by apply (Hother ids).
  - rewrite bool_decide_eq_false_2 by done. eexists. split; [reflexivity|].
    split; [by apply inv_drop|]. do 2 (split; [done|]).
    split; [simpl; by rewrite dom_insert_lookup_L by eauto|].
    simpl. intros g x Hg. by apply (Hother ids).
Qed.

Lemma cached_input_ids_valid r m i :
  i ∈ get_cached_input_ids r m → 0 ≤ i < len (mm_features r).
Proof.
  unfold get_cached_input_ids. rewrite elem_of_list_to_set, list_elem_of_filter.
  intros [_ Hin]. unfold py_range in Hin. rewrite list_elem_of_fmap in Hin.
  destruct Hin as (k & -> & Hk). apply elem_of_seq in Hk. unfold len in *. lia.
Qed.

Lemma encoder_free_spec set_order r m :
  (∀ s : gset Z, set_order s ≡ₚ elements s) → encoder_inv m → wf_inputs r →
  ∃ m', encoder_free set_order r m = (Ok tt, m') ∧ encoder_inv m' ∧
    num_free_slots m' = num_free_slots m ∧ freed m' = freed m ∧
    dom (cached m') = dom (cached m).
Proof.
  intros Hord Hm Hwf. unfold encoder_free. rewrite bind_gets.
  destruct (for_inv (λ rest m1, (∀ i, i ∈ rest → 0 ≤ i < len (mm_features r)) ∧
      encoder_inv m1 ∧ num_free_slots m1 = num_free_slots m ∧ freed m1 = freed m ∧
      dom (cached m1) = dom (cached m))
    (λ input_id, free_encoder_input r input_id) (set_order (get_cached_input_ids r m)) m)
    as (m' & Hrun & _ & Hm').
  - split; [|done]. intros i. rewrite Hord, elem_of_elements. apply cached_input_ids_valid.
  - intros i rest m1 (Hval & Hm1 & Hfree & Hfr & Hdom).
    destruct (Hwf i (Hval i (list_elem_of_here _ _))) as [h Hh].
    destruct (free_input_spec m1 r i h Hm1 Hh) as (m2 & Hrun & Hm2 & Hfree2 & Hfr2 & Hdom2 & _).
    exists m2. split; [done|]. split; [intros; apply Hval; by right|].
    split; [done|]. split; [congruence|]. split; congruence.
  - by exists m'.
Qed.

(** ** Histories *)

Inductive encoder_op :=
  | Lookup (r : Request) (i : Z)
  | Reserve (r : Request) (i budget scheduled : Z)
  | Store (r : Request) (i : Z)
  | Release (r : Request) (i : Z)
  | ReleaseAll (r : Request)
  | TakeFreed.

Definition run_encoder_op (set_order : gset Z → list Z) (op : encoder_op)
    : M EncoderCacheManager unit :=
  match op with
  | Lookup r i => let* _ := check_and_update_cache r i in ret tt
  | Reserve r i budget k => let* _ := can_allocate r i budget k in ret tt
  | Store r i => allocate r i
  | Release r i => free_encoder_input r i
  | ReleaseAll r => encoder_free set_order r
  | TakeFreed => let* _ := get_freed_mm_hashes in ret tt
  end.

(** Inputs exist, and an input is stored when it is not cached and fits into
    the free slots, as its caller found out with the first two operations. *)
Definition admissible (op : encoder_op) (m : EncoderCacheManager) : Prop :=
  match op with
  | Lookup r i | Release r i | Reserve r i _ _ => ∃ h, has_input r i h
  | Store r i => ∃ h, has_input r i h ∧ cached m !! h = None ∧ size h ≤ num_free_slots m
  | ReleaseAll r => wf_inputs r
  | TakeFreed => True
  end.

Fixpoint admissible_history (set_order : gset Z → list Z) (ops : list encoder_op)
    (m : EncoderCacheManager) : Prop :=
  match ops with
  | [] => True
  | op :: ops =>
      admissible op m ∧ admissible_history set_order ops (snd (run_encoder_op set_order op m))
  end.

Lemma can_allocate_spec m r i h budget k :
  encoder_inv m → has_input r i h →
  ∃ m' es,
    can_allocate r i budget k m =
      (Ok (bool_decide (size h ≤ budget ∧ size h + k ≤ num_freeable_slots m)), m') ∧
    encoder_inv m' ∧ evicted_prefix m m' es ∧
    (size h ≤ budget ∧ size h + k ≤ num_freeable_slots m → size h + k ≤ num_free_slots m') ∧
    (es = [] ∨ ∃ es0 e, es = es0 ++ [e] ∧ num_free_slots m + sum_list_Z snd es0 < size h + k).
Proof.
  intros Hm (Hi & Hh & Hs). unfold can_allocate. rewrite Hs, bind_of_res.
  pose proof (ei_count m Hm) as Hcount. pose proof (freeable_sum_nonneg m Hm) as Hsum.
  assert (Hno : ∀ b, (b = true ↔ size h ≤ budget ∧ size h + k ≤ num_freeable_slots m) →
    bool_decide (size h ≤ budget ∧ size h + k ≤ num_freeable_slots m) = b).
  { intros b Hb. destruct b; [apply bool_decide_eq_true_2|apply bool_decide_eq_false_2]; naive_solver. }
  destruct (decide (budget < size h)) as [Hb|Hb].
  { exists m, []. rewrite (Hno false) by (split; [done|intros; exfalso; lia]). split; [done|].
    split; [done|]. split; [apply evicted_nil|]. split; [lia|by left]. }
  unfold bind at 1. unfold get.
  destruct (decide (size h + k ≤ num_free_slots m)) as [Hfit|Hfit].
  { exists m, []. rewrite (Hno true) by (split; [intros; lia|done]). split; [done|].
    split; [done|]. split; [apply evicted_nil|]. split; [lia|by left]. }
  destruct (decide (num_freeable_slots m < size h + k)) as [Hrec|Hrec].
  { exists m, []. rewrite (Hno false) by (split; [done|intros; exfalso; lia]). split; [done|].
    split; [done|]. split; [apply evicted_nil|]. split; [lia|by left]. }
  destruct (evict_loop_spec (S (length (freeable m))) (size h + k) m Hm ltac:(lia) ltac:(lia))
    as (m' & es & Hrun & Hm' & Hroom & He & Hmin).
  exists m', es. rewrite (Hno true) by (split; [intros; lia|done]).
  rewrite (bind_ok _ _ _ _ _ Hrun). auto.
Qed.

Lemma run_encoder_op_inv set_order op m :
  (∀ s : gset Z, set_order s ≡ₚ elements s) → encoder_inv m → admissible op m →
  ∃ m', run_encoder_op set_order op m = (Ok tt, m') ∧ encoder_inv m'.
Proof.
  intros Hord Hm Ha. destruct op as [r i|r i b k|r i|r i|r|]; simpl in Ha |- *.
  - destruct Ha as [h Hh]. destruct (check_spec m r i h Hm Hh) as (m' & Hrun & Hm' & _).
    rewrite (bind_ok _ _ _ _ _ Hrun). by exists m'.
  - destruct Ha as [h Hh]. destruct (can_allocate_spec m r i h b k Hm Hh) as (m' & es & Hrun & Hm' & _).
    rewrite (bind_ok _ _ _ _ _ Hrun). by exists m'.
  - destruct Ha as (h & Hh & Hc & Hroom).
    destruct (allocate_spec m r i h Hm Hh Hc Hroom) as (m' & Hrun & Hm' & _). by exists m'.
  - destruct Ha as [h Hh]. destruct (free_input_spec m r i h Hm Hh) as (m' & Hrun & Hm' & _).
    by exists m'.
  - destruct (encoder_free_spec set_order r m Hord Hm Ha) as (m' & Hrun & Hm' & _). by exists m'.
  - eexists. split; [reflexivity|]. by apply inv_set_freed.
Qed.

(** C36. In every history of the encoder cache, started empty with [capacity]
    slots and storing only inputs that are not cached and fit, no operation raises an
    exception, and the accounting is exact: the free slots and the sizes of the
    cached entries add up to the size of the cache, never negative, the
    evictable entries are exactly the ones without references, each once and
    with its size, and the reclaimable slots are the free ones and theirs. *)
Theorem encoder_cache_accounted set_order ops :
  (∀ s : gset Z, set_order s ≡ₚ elements s) → 0 ≤ capacity →
  admissible_history set_order ops (EncoderCacheManager_init capacity) →
  ∃ m, for_ ops (run_encoder_op set_order) (EncoderCacheManager_init capacity) = (Ok tt, m) ∧
    cache_size m = capacity ∧ 0 ≤ num_free_slots m ∧
    num_free_slots m + cached_size (cached m) = capacity ∧
    NoDup (od_keys (freeable m)) ∧
    (∀ h k, (h, k) ∈ freeable m ↔ k = size h ∧ cached m !! h = Some ∅) ∧
    num_freeable_slots m = num_free_slots m + sum_list_Z snd (freeable m).
Proof.
  intros Hord Hn Hadm.
  assert (Hall : ∀ m, encoder_inv m → admissible_history set_order ops m →
    ∃ m', for_ ops (run_encoder_op set_order) m = (Ok tt, m') ∧ encoder_inv m').
  { clear Hadm. induction ops as [|op ops IH]; intros m Hm Hadm; [by exists m|].
    destruct Hadm as [Ha Hadm]. destruct (run_encoder_op_inv set_order op m Hord Hm Ha) as (m1 & Hrun & Hm1).
    rewrite Hrun in Hadm. destruct (IH m1 Hm1 Hadm) as (m' & Hrun' & Hm').
    exists m'. simpl. by rewrite (bind_ok _ _ _ _ _ Hrun). }
  destruct (Hall _ (init_inv Hn) Hadm) as (m & Hrun & Hm).
  exists m. destruct Hm as [? ? ? ? ? ?]. auto 10.
Qed.

(** C37. In a state of the encoder cache [can_allocate] raises nothing.  It
    answers yes exactly when the input is within the compute budget and fits,
    with the embeddings scheduled before, into the reclaimable slots (its
    documentation names only the second condition); then so many slots are free
    when it returns, so that [allocate] succeeds for all of them.  It evicts the
    oldest entries without references, no more than needed, and reports them as
    freed; entries with references stay. *)
Theorem can_allocate_reserves m r i h budget scheduled :
  encoder_inv m → has_input r i h →
  ∃ m' es,
    can_allocate r i budget scheduled m =
      (Ok (bool_decide (size h ≤ budget ∧ size h + scheduled ≤ num_freeable_slots m)), m') ∧
    encoder_inv m' ∧
    (size h ≤ budget ∧ size h + scheduled ≤ num_freeable_slots m →
      size h + scheduled ≤ num_free_slots m') ∧
    freeable m = es ++ freeable m' ∧ freed m' = freed m ++ od_keys es ∧
    (es = [] ∨ ∃ es0 e, es = es0 ++ [e] ∧
      num_free_slots m + sum_list_Z snd es0 < size h + scheduled) ∧
    ∀ g ids, ids ≠ ∅ → cached m !! g = Some ids ↔ cached m' !! g = Some ids.
Proof.
  intros Hm Hh. destruct (can_allocate_spec m r i h budget scheduled Hm Hh)
    as (m' & es & Hrun & Hm' & (Hf & Hfr & _ & _ & Hrefs) & Hroom & Hmin).
  exists m', es. auto 10.
Qed.

End encoder_cache.

(** ** Witnesses *)

(** A request with images of the given hashes and sizes, one after another. *)
Fixpoint image_features (start : Z) (images : list (string * Z)) : list MultiModalFeatureSpec :=
  match images with
  | [] => []
  | (h, n) :: images =>
      mkFeature h (mkPlaceholder start n None) :: image_features (start + n) images
  end.
Definition image_request (id : string) (images : list (string * Z)) : Request :=
  mkRequest id 0 0 0 0 (Some (mkSampling (Some 4) 0 false None false None)) None None None false
    WAITING [] None 4 None 16 [] (replicate 16 7) 0 false [] 0 None (image_features 0 images)
    (-1) 0 0 [] false false.

Definition four_slots (h : string) : Z := 4.
Lemma four_slots_nonneg h : 0 ≤ four_slots h.
Proof. done. Qed.

(** Two requests whose images do not fit together: the second evicts the first. *)
Definition one_image (id h : string) : Request := image_request id [(h, 4)].
Definition evicting_history : list encoder_op :=
  [Lookup (one_image "r" "a") 0; Reserve (one_image "r" "a") 0 8 0; Store (one_image "r" "a") 0;
   ReleaseAll (one_image "r" "a");
   Reserve (one_image "s" "b") 0 8 0; Store (one_image "s" "b") 0; TakeFreed].

Lemma one_image_input id h : has_input four_slots (one_image id h) 0 h.
Proof. by repeat split. Qed.
Lemma one_image_wf id h : wf_inputs four_slots (one_image id h).
Proof.
  intros i Hi. exists h. assert (i = 0) as -> by (unfold len in Hi; simpl in Hi; lia).
  apply one_image_input.
Qed.

Lemma evicting_history_admissible :
  admissible_history four_slots elements evicting_history (EncoderCacheManager_init 6).
Proof.
  unfold evicting_history, admissible_history, admissible.
  split; [exists "a"; apply one_image_input|].
  split; [exists "a"; apply one_image_input|].
  split; [exists "a"; split; [apply one_image_input|split; [reflexivity|vm_compute; discriminate]]|].
  split; [apply one_image_wf|].
  split; [exists "b"; apply one_image_input|].
  split; [exists "b"; split; [apply one_image_input|split; [reflexivity|vm_compute; discriminate]]|].
  by split.
Qed.

Lemma encoder_cache_accounted_witness :
  ∃ m, for_ evicting_history (run_encoder_op elements) (EncoderCacheManager_init 6) = (Ok tt, m) ∧
    cache_size m = 6 ∧ 0 ≤ num_free_slots m ∧
    num_free_slots m + cached_size four_slots (cached m) = 6 ∧
    NoDup (od_keys (freeable m)) ∧
    (∀ h k, (h, k) ∈ freeable m ↔ k = four_slots h ∧ cached m !! h = Some ∅) ∧
    num_freeable_slots m = num_free_slots m + sum_list_Z snd (freeable m).
Proof.
  apply (encoder_cache_accounted four_slots four_slots_nonneg 6 elements evicting_history);
    [done|lia|exact evicting_history_admissible].
Defined.

Lemma can_allocate_reserves_witness :
  ∃ m' es,
    can_allocate (one_image "s" "b") 0 8 1 (EncoderCacheManager_init 6) =
      (Ok (bool_decide (four_slots "b" ≤ 8 ∧
         four_slots "b" + 1 ≤ num_freeable_slots (EncoderCacheManager_init 6))), m') ∧
    encoder_inv four_slots 6 m' ∧
    (four_slots "b" ≤ 8 ∧ four_slots "b" + 1 ≤ num_freeable_slots (EncoderCacheManager_init 6) →
      four_slots "b" + 1 ≤ num_free_slots m') ∧
    freeable (EncoderCacheManager_init 6) = es ++ freeable m' ∧
    freed m' = freed (EncoderCacheManager_init 6) ++ od_keys es ∧
    (es = [] ∨ ∃ es0 e, es = es0 ++ [e] ∧
      num_free_slots (EncoderCacheManager_init 6) + sum_list_Z snd es0 < four_slots "b" + 1) ∧
    ∀ g ids, ids ≠ ∅ →
      cached (EncoderCacheManager_init 6) !! g = Some ids ↔ cached m' !! g = Some ids.
Proof.
  apply (can_allocate_reserves four_slots four_slots_nonneg 6); [|apply one_image_input].
  by apply init_inv.
Defined.
