(* ===== verification/HeapQueue.v ===== *)
(** Python's [heapq] module, as the priority queue of the scheduler uses it:
    the list is a binary heap in place, for a comparison [lt] (the [__lt__] of
    the elements); and the proofs that its functions keep the heap order and
    permute the elements. *)

From S2P Require Import Prelude.
From Stdlib Require Import Arith ZifyNat.

Ltac Zify.zify_post_hook ::= Z.div_mod_to_equations.

(** The position of the parent: [(pos - 1) >> 1]. *)
Definition parent (pos : nat) : nat := Nat.div2 (pos - 1).

Section heapq.
Context {A : Type} (lt : A → A → bool).
Implicit Types (heap : list A) (pos startpos : nat).

(** [_siftdown(heap, startpos, pos)]: [newitem] moves towards the root. *)
Fixpoint _siftdown_loop (fuel : nat) heap startpos pos (newitem : A) : list A :=
  match fuel with
  | O => <[pos := newitem]> heap
  | S fuel =>
      if decide (startpos < pos)%nat then
        match heap !! parent pos with
        | Some p =>
            if lt newitem p
            then _siftdown_loop fuel (<[pos := p]> heap) startpos (parent pos) newitem
            else <[pos := newitem]> heap
        | None => heap
        end
      else <[pos := newitem]> heap
  end.
Definition _siftdown heap startpos pos : list A :=
  match heap !! pos with
  | Some newitem => _siftdown_loop pos heap startpos pos newitem
  | None => heap
  end.

(** The smaller child of [pos], if [pos] has children. *)
Definition smaller_child heap pos : option nat :=
  let childpos := (2 * pos + 1)%nat in
  match heap !! childpos with
  | None => None
  | Some c =>
      match heap !! S childpos with
      | Some d => if negb (lt c d) then Some (S childpos) else Some childpos
      | None => Some childpos
      end
  end.

(** [_siftup(heap, pos)]: the hole moves to a leaf along smaller children, then
    [newitem] moves up from there. *)
Fixpoint _siftup_loop (fuel : nat) heap startpos pos (newitem : A) : list A :=
  match fuel with
  | O => _siftdown (<[pos := newitem]> heap) startpos pos
  | S fuel =>
      match smaller_child heap pos with
      | Some childpos =>
          match heap !! childpos with
          | Some c => _siftup_loop fuel (<[pos := c]> heap) startpos childpos newitem
          | None => heap
          end
      | None => _siftdown (<[pos := newitem]> heap) startpos pos
      end
  end.
Definition _siftup heap pos : list A :=
  match heap !! pos with
  | Some newitem => _siftup_loop (length heap) heap pos pos newitem
  | None => heap
  end.

Definition heappush heap (item : A) : list A :=
  _siftdown (heap ++ [item]) 0 (length heap).

(** [None] stands for [IndexError]. *)
Definition heappop heap : option (A * list A) :=
  match last heap, removelast heap with
  | None, _ => None
  | Some lastelt, [] => Some (lastelt, [])
  | Some lastelt, (returnitem :: rest) => Some (returnitem, _siftup (lastelt :: rest) 0)
  end.

(** [for i in reversed(range(n // 2)): _siftup(x, i)] *)
Definition heapify (x : list A) : list A :=
  foldl _siftup x (rev (seq 0 (length x / 2))).

End heapq.

(** * Positions *)

Lemma parent_lt i : (0 < i)%nat → (parent i < i)%nat.
Proof. intros. unfold parent. rewrite Nat.div2_div. lia. Qed.
Lemma parent_left p : parent (2 * p + 1) = p.
Proof. unfold parent. rewrite Nat.div2_div. lia. Qed.
Lemma parent_right p : parent (S (2 * p + 1)) = p.
Proof. unfold parent. rewrite Nat.div2_div. lia. Qed.
Lemma parent_inv i p : (0 < i)%nat → parent i = p → i = (2 * p + 1)%nat ∨ i = S (2 * p + 1).
Proof. intros Hi. unfold parent. rewrite Nat.div2_div. lia. Qed.

(** [pos] is in the subtree of [s]. *)
Inductive below (s : nat) : nat → Prop :=
  | below_refl : below s s
  | below_child c : (0 < c)%nat → below s (parent c) → below s c.

Lemma below_le s pos : below s pos → (s ≤ pos)%nat.
Proof. induction 1 as [|c Hc _ IH]; [done|]. pose proof (parent_lt c Hc). lia. Qed.
Lemma below_parent s pos : below s pos → (s < pos)%nat → below s (parent pos).
Proof. destruct 1 as [|c Hc Hp]; [lia|done]. Qed.
Lemma below_root pos : below 0 pos.
Proof.
  induction (lt_wf pos) as [pos _ IH]. destruct (decide (pos = 0%nat)) as [->|]; [constructor|].
  apply below_child; [lia|]. apply IH, parent_lt. lia.
Qed.

(** Exchanging two elements permutes a list. *)
Lemma swap_perm {A} (l : list A) i j a b :
  l !! i = Some a → l !! j = Some b → <[i := b]> (<[j := a]> l) ≡ₚ l.
Proof.
  intros Hi Hj. pose proof (lookup_lt_Some _ _ _ Hi) as Hli.
  pose proof (lookup_lt_Some _ _ _ Hj) as Hlj.
  destruct (decide (i = j)) as [->|Hij].
  { rewrite Hi in Hj. injection Hj as <-. by rewrite !list_insert_id by (rewrite ?list_insert_id by done; done). }
  assert (Hdel : ∀ (k : list A) n x, (n < length k)%nat → <[n := x]> k ≡ₚ x :: delete n k).
  { clear. induction k as [|y k IH]; intros [|n] x Hn; simpl in *; try lia; [done|].
    rewrite (IH n x) by lia. apply Permutation_swap. }
  assert (Hget : ∀ (k : list A) n x, k !! n = Some x → k ≡ₚ x :: delete n k)
    by (intros; by apply delete_Permutation).
  assert (Hja : <[j := a]> l !! i = Some a) by (by rewrite list_lookup_insert_ne).
  transitivity (b :: delete i (<[j := a]> l)); [apply Hdel; by rewrite length_insert|].
  transitivity (b :: delete j l); [constructor|symmetry; by apply Hget].
  apply (Permutation_cons_inv (a := a)).
  transitivity (<[j := a]> l); [symmetry; by apply Hget|by apply Hdel].
Qed.

(** * The heap order *)

Section heap_order.
Context {A : Type} (lt : A → A → bool).
(** [lt] is a strict weak order: no two elements are each below the other, and
    "not above" is transitive. *)
Context (lt_asym : ∀ a b, lt a b = true → lt b a = false).
Context (le_trans : ∀ a b c, lt b a = false → lt c b = false → lt c a = false).
Implicit Types (v heap : list A).

Definition heap_from (s : nat) v : Prop :=
  ∀ i a b, (0 < i)%nat → (s ≤ parent i)%nat →
    v !! parent i = Some a → v !! i = Some b → lt b a = false.

(** Every child of [pos] is in order with the parent of [pos]. *)
Definition skips (s pos : nat) v : Prop :=
  ∀ i a b, (0 < i)%nat → parent i = pos → (s < pos)%nat →
    v !! parent pos = Some a → v !! i = Some b → lt b a = false.

(** The heap order, but for [pos] and its parent. *)
Definition up_to (s pos : nat) v : Prop :=
  (∀ i a b, (0 < i)%nat → (s ≤ parent i)%nat → i ≠ pos →
    v !! parent i = Some a → v !! i = Some b → lt b a = false) ∧ skips s pos v.

(** The heap order, but for [pos] and its parent and children. *)
Definition around (s pos : nat) v : Prop :=
  (∀ i a b, (0 < i)%nat → (s ≤ parent i)%nat → i ≠ pos → parent i ≠ pos →
    v !! parent i = Some a → v !! i = Some b → lt b a = false) ∧ skips s pos v.

Lemma lt_irrefl a : lt a a = false.
Proof. destruct (lt a a) eqn:E; [|done]. by rewrite (lt_asym _ _ E) in E. Qed.

(** Filling the hole of [heap] at [pos] by [p] and moving the hole to [q] is an
    exchange of the list whose hole is filled. *)
Lemma move_hole heap pos q p x :
  pos ≠ q → (pos < length heap)%nat → heap !! q = Some p →
  <[q := x]> (<[pos := p]> heap) = <[q := x]> (<[pos := p]> (<[pos := x]> heap)) ∧
  <[q := x]> (<[pos := p]> heap) ≡ₚ <[pos := x]> heap.
Proof.
  intros Hne Hpos Hq.
  assert (Heq : <[q := x]> (<[pos := p]> heap) = <[q := x]> (<[pos := p]> (<[pos := x]> heap)))
    by (by rewrite list_insert_insert_eq).
  split; [done|]. rewrite Heq. apply swap_perm.
  - by rewrite list_lookup_insert_ne.
  - by rewrite list_lookup_insert_eq.
Qed.

Lemma up_to_move s pos v x p :
  (s < pos)%nat → below s pos → (pos < length v)%nat →
  v !! pos = Some x → v !! parent pos = Some p → lt x p = true →
  up_to s pos v → up_to s (parent pos) (<[parent pos := x]> (<[pos := p]> v)).
Proof.
  intros Hs Hb Hlen Hx Hp Hlt [Hrel Hskip].
  pose proof (parent_lt pos ltac:(lia)) as Hpp.
  pose proof (below_le _ _ (below_parent _ _ Hb Hs)) as Hsp.
  assert (Hget : ∀ i, <[parent pos := x]> (<[pos := p]> v) !! i =
    if decide (i = parent pos) then Some x else if decide (i = pos) then Some p else v !! i).
  { intros i. case_decide as H1; [subst; rewrite list_lookup_insert_eq; [done|rewrite length_insert; lia]|].
    rewrite list_lookup_insert_ne by done. case_decide as H2; [subst; by rewrite list_lookup_insert_eq|].
    by rewrite list_lookup_insert_ne by done. }
  split.
  - intros i a b Hi Hsi Hne. rewrite !Hget.
    rewrite (decide_False (P := i = parent pos)) by done.
    destruct (decide (i = pos)) as [->|Hip].
    + rewrite decide_True by done. intros [= <-] [= <-]. by apply lt_asym.
    + destruct (decide (parent i = parent pos)) as [Heq|Hne2].
      * intros [= <-] Hvi. apply (le_trans _ p); [by apply lt_asym|].
        apply (Hrel i); auto; congruence.
      * destruct (decide (parent i = pos)) as [Heq|Hne3].
        -- intros [= <-] Hvi. apply (Hskip i); auto.
        -- intros Ha Hvi. by apply (Hrel i).
  - intros i a b Hi Hpi Hsq. rewrite !Hget.
    pose proof (parent_lt (parent pos) ltac:(lia)) as Hqq.
    rewrite (decide_False (P := parent (parent pos) = parent pos)) by lia.
    rewrite (decide_False (P := parent (parent pos) = pos)) by lia.
    pose proof (parent_lt i Hi). rewrite (decide_False (P := i = parent pos)) by lia.
    intros Ha. pose proof (below_le _ _ (below_parent _ _ (below_parent _ _ Hb Hs) Hsq)).
    assert (Hqa : lt p a = false) by (apply (Hrel (parent pos)); auto; lia).
    case_decide as Hip; [intros [= <-]; done|]. intros Hvi.
    apply (le_trans _ p); [done|]. apply (Hrel i); auto; [lia|congruence].
Qed.

Lemma up_to_done s pos v :
  up_to s pos v → below s pos →
  (s < pos → ∀ a x, v !! parent pos = Some a → v !! pos = Some x → lt x a = false)%nat →
  heap_from s v.
Proof.
  intros [Hrel _] Hb Hpos i a b Hi Hsi Ha Hvi.
  destruct (decide (i = pos)) as [->|]; [|by apply (Hrel i)].
  apply Hpos; auto. pose proof (parent_lt pos Hi). lia.
Qed.

Lemma siftdown_loop_ok fuel heap s pos x :
  (pos ≤ fuel)%nat → (pos < length heap)%nat → below s pos →
  up_to s pos (<[pos := x]> heap) →
  heap_from s (_siftdown_loop lt fuel heap s pos x) ∧
  _siftdown_loop lt fuel heap s pos x ≡ₚ <[pos := x]> heap.
Proof.
  revert heap pos. induction fuel as [|fuel IH]; intros heap pos Hf Hlen Hb Hup; simpl.
  { split; [|done]. apply (up_to_done _ _ _ Hup Hb). lia. }
  destruct (decide (s < pos)%nat) as [Hs|Hs].
  2:{ split; [|done]. apply (up_to_done _ _ _ Hup Hb). lia. }
  pose proof (parent_lt pos ltac:(lia)) as Hpp.
  destruct (lookup_lt_is_Some_2 heap (parent pos)) as [p Hp]; [lia|]. rewrite Hp.
  destruct (lt x p) eqn:Hlt.
  - destruct (move_hole heap pos (parent pos) p x ltac:(lia) Hlen Hp) as [Heq Hperm].
    destruct (IH (<[pos := p]> heap) (parent pos)) as [Hheap Hres].
    + lia. + rewrite length_insert. lia. + by apply below_parent.
    + rewrite Heq. apply up_to_move; auto.
      * by rewrite length_insert.
      * by rewrite list_lookup_insert_eq.
      * rewrite list_lookup_insert_ne by lia. done.
    + split; [done|]. by rewrite Hres.
  - split; [|done]. apply (up_to_done _ _ _ Hup Hb). intros _ a y.
    rewrite list_lookup_insert_ne, list_lookup_insert_eq by (lia || done). congruence.
Qed.

Lemma siftdown_ok heap s pos :
  (pos < length heap)%nat → below s pos → up_to s pos heap →
  heap_from s (_siftdown lt heap s pos) ∧ _siftdown lt heap s pos ≡ₚ heap.
Proof.
  intros Hlen Hb Hup. unfold _siftdown.
  destruct (lookup_lt_is_Some_2 heap pos Hlen) as [x Hx]. rewrite Hx.
  pose proof (list_insert_id heap pos x Hx) as Hid.
  destruct (siftdown_loop_ok pos heap s pos x) as [H1 H2]; auto; [by rewrite Hid|].
  split; [done|]. by rewrite H2, Hid.
Qed.

Lemma smaller_child_some v pos c :
  smaller_child lt v pos = Some c →
  (0 < c)%nat ∧ parent c = pos ∧ ∃ x, v !! c = Some x ∧
    ∀ i d, (0 < i)%nat → parent i = pos → v !! i = Some d → lt d x = false.
Proof.
  unfold smaller_child. destruct (v !! (2 * pos + 1)%nat) as [x|] eqn:Hx; [|done].
  destruct (v !! S (2 * pos + 1)) as [y|] eqn:Hy; [destruct (lt x y) eqn:Hxy; cbn [negb]|];
    intros ?%(inj Some); subst c; (split; [lia|]); rewrite ?parent_left, ?parent_right; (split; [done|]);
    (eexists; split; [eassumption|]); intros i d Hi Hpi Hd;
    destruct (parent_inv i pos Hi Hpi) as [->| ->]; simplify_eq;
    auto using lt_irrefl.
Qed.
Lemma smaller_child_none v pos :
  smaller_child lt v pos = None → ∀ i, (0 < i)%nat → parent i = pos → v !! i = None.
Proof.
  unfold smaller_child. destruct (v !! (2 * pos + 1)%nat) as [x|] eqn:Hx.
  - destruct (v !! S (2 * pos + 1)) as [y|]; [by destruct (lt x y)|done].
  - intros _ i Hi Hpi. destruct (parent_inv i pos Hi Hpi) as [->| ->]; [done|].
    apply lookup_ge_None. apply lookup_ge_None in Hx. lia.
Qed.

Lemma around_move s pos v x c y :
  (0 < c)%nat → parent c = pos → below s pos → (c < length v)%nat →
  v !! pos = Some x → v !! c = Some y →
  (∀ i d, (0 < i)%nat → parent i = pos → v !! i = Some d → lt d y = false) →
  around s pos v → around s c (<[c := x]> (<[pos := y]> v)).
Proof.
  intros Hc Hpc Hb Hlen Hx Hy Hmin [Hrel Hskip].
  pose proof (parent_lt c Hc) as Hpp. pose proof (below_le _ _ Hb) as Hsp.
  assert (Hget : ∀ i, <[c := x]> (<[pos := y]> v) !! i =
    if decide (i = c) then Some x else if decide (i = pos) then Some y else v !! i).
  { intros i. case_decide as H1; [subst; rewrite list_lookup_insert_eq; [done|rewrite length_insert; lia]|].
    rewrite list_lookup_insert_ne by done. case_decide as H2; [subst; rewrite list_lookup_insert_eq; [done|lia]|].
    by rewrite list_lookup_insert_ne by done. }
  split.
  - intros i a b Hi Hsi Hne Hne2. rewrite !Hget, !(decide_False (P := _ = c)) by done.
    destruct (decide (i = pos)) as [->|Hip].
    + pose proof (parent_lt pos Hi). rewrite decide_False by lia.
      intros Ha [= <-]. apply (Hskip c); auto; lia.
    + destruct (decide (parent i = pos)) as [Heq|Hne3].
      * intros [= <-] Hvi. by apply (Hmin i).
      * intros Ha Hvi. by apply (Hrel i).
  - intros i a b Hi Hpi Hsc. rewrite Hpc, !Hget.
    pose proof (parent_lt i Hi). rewrite (decide_False (P := pos = c)) by lia.
    rewrite decide_True by done. rewrite !(decide_False (P := i = _)) by lia.
    intros [= <-] Hvi. apply (Hrel i); auto; try lia. by rewrite Hpi.
Qed.

Lemma around_leaf s pos v :
  (∀ i, (0 < i)%nat → parent i = pos → v !! i = None) → around s pos v → up_to s pos v.
Proof.
  intros Hleaf [Hrel Hskip]. split; [|done]. intros i a b Hi Hsi Hne Ha Hvi.
  destruct (decide (parent i = pos)) as [Heq|]; [|by apply (Hrel i)].
  rewrite (Hleaf i Hi Heq) in Hvi. done.
Qed.

Lemma smaller_child_insert heap pos x :
  smaller_child lt (<[pos := x]> heap) pos = smaller_child lt heap pos.
Proof. unfold smaller_child. by rewrite !list_lookup_insert_ne by lia. Qed.

Lemma siftup_loop_ok fuel heap s pos x :
  (length heap ≤ fuel + pos)%nat → (pos < length heap)%nat → below s pos →
  around s pos (<[pos := x]> heap) →
  heap_from s (_siftup_loop lt fuel heap s pos x) ∧
  _siftup_loop lt fuel heap s pos x ≡ₚ <[pos := x]> heap.
Proof.
  revert heap pos. induction fuel as [|fuel IH]; intros heap pos Hf Hlen Hb Har; simpl; [lia|].
  destruct (smaller_child lt heap pos) as [c|] eqn:Hc.
  - rewrite <- (smaller_child_insert heap pos x) in Hc.
    destruct (smaller_child_some _ _ _ Hc) as (Hc0 & Hpc & y & Hy & Hmin).
    pose proof (parent_lt c Hc0). pose proof (lookup_lt_Some _ _ _ Hy) as Hcl.
    rewrite length_insert in Hcl. rewrite list_lookup_insert_ne in Hy by lia. rewrite Hy.
    destruct (move_hole heap pos c y x ltac:(lia) Hlen Hy) as [Heq Hperm].
    destruct (IH (<[pos := y]> heap) c) as [Hheap Hres].
    + rewrite length_insert. lia. + by rewrite length_insert.
    + apply below_child; [done|]. by rewrite Hpc.
    + rewrite Heq. apply around_move; auto.
      * by rewrite length_insert.
      * by rewrite list_lookup_insert_eq.
      * by rewrite list_lookup_insert_ne by lia.
    + split; [done|]. by rewrite Hres.
  - apply siftdown_ok; auto; [by rewrite length_insert|].
    apply around_leaf; [|done]. apply smaller_child_none. by rewrite smaller_child_insert.
Qed.

(** The subtrees below [pos] are heaps: afterwards the one at [pos] is too. *)
Lemma siftup_ok heap pos :
  (pos < length heap)%nat → heap_from (S pos) heap →
  heap_from pos (_siftup lt heap pos) ∧ _siftup lt heap pos ≡ₚ heap.
Proof.
  intros Hlen Hh. unfold _siftup.
  destruct (lookup_lt_is_Some_2 heap pos Hlen) as [x Hx]. rewrite Hx.
  pose proof (list_insert_id heap pos x Hx) as Hid.
  destruct (siftup_loop_ok (length heap) heap pos pos x) as [H1 H2].
  - lia. - done. - constructor.
  - rewrite Hid. split; [|intros i a b _ _ ?; lia].
    intros i a b Hi Hsi Hne Hne2. apply Hh; [done|lia].
  - split; [done|]. by rewrite H2, Hid.
Qed.

Lemma heap_from_short s v : (length v ≤ 2 * s + 1)%nat → heap_from s v.
Proof.
  intros Hlen i a b Hi Hsi _ Hvi. apply lookup_lt_Some in Hvi.
  unfold parent in Hsi. rewrite Nat.div2_div in Hsi. lia.
Qed.

(** ** The functions of the module *)

Lemma heappush_ok heap x :
  heap_from 0 heap → heap_from 0 (heappush lt heap x) ∧ heappush lt heap x ≡ₚ x :: heap.
Proof.
  intros Hh. unfold heappush.
  destruct (siftdown_ok (heap ++ [x]) 0 (length heap)) as [H1 H2].
  - rewrite length_app. simpl. lia.
  - apply below_root.
  - assert (Hold : ∀ i, (i < length heap)%nat → (heap ++ [x]) !! i = heap !! i)
      by (intros; by apply lookup_app_l).
    split.
    + intros i a b Hi Hsi Hne Ha Hb. pose proof (lookup_lt_Some _ _ _ Hb) as Hl.
      rewrite length_app in Hl. simpl in Hl. pose proof (parent_lt i Hi).
      rewrite Hold in Ha, Hb by lia. by apply (Hh i).
    + intros i a b Hi Hpi _ _ Hb. apply lookup_lt_Some in Hb.
      rewrite length_app in Hb. simpl in Hb. pose proof (parent_lt i Hi). lia.
  - split; [done|]. rewrite H2. by rewrite Permutation_app_comm.
Qed.

(** The root of a heap is a least element. *)
Lemma heap_root_least heap r :
  heap_from 0 heap → heap !! 0%nat = Some r → ∀ a, a ∈ heap → lt a r = false.
Proof.
  intros Hh Hr a Ha. apply list_elem_of_lookup in Ha as [i Hi].
  revert a Hi. induction (lt_wf i) as [i _ IH]. intros a Hi.
  destruct (decide (i = 0%nat)) as [->|Hi0]; [rewrite Hr in Hi; injection Hi as <-; apply lt_irrefl|].
  pose proof (parent_lt i ltac:(lia)) as Hp. pose proof (lookup_lt_Some _ _ _ Hi).
  destruct (lookup_lt_is_Some_2 heap (parent i)) as [p Hpi]; [lia|].
  apply (le_trans _ p); [by apply (IH (parent i))|]. apply (Hh i); auto; lia.
Qed.

Lemma removelast_last (heap : list A) x : last heap = Some x → heap = removelast heap ++ [x].
Proof.
  intros Hl. destruct heap as [|a heap] using rev_ind; [done|].
  rewrite last_snoc in Hl. injection Hl as ->. by rewrite removelast_app, app_nil_r by done.
Qed.

Lemma heappop_ok heap :
  heap_from 0 heap →
  match heappop lt heap with
  | None => heap = []
  | Some (r, heap') =>
      heap !! 0%nat = Some r ∧ heap_from 0 heap' ∧ heap ≡ₚ r :: heap' ∧
      ∀ a, a ∈ heap → lt a r = false
  end.
Proof.
  intros Hh. unfold heappop. destruct (last heap) as [x|] eqn:Hl; [|by apply last_None in Hl].
  pose proof (removelast_last heap x Hl) as Heq. destruct (removelast heap) as [|r rest].
  { subst heap. simpl in *. split; [done|]. split; [apply heap_from_short; simpl; lia|].
    split; [done|]. intros a Ha. apply list_elem_of_singleton in Ha as ->. apply lt_irrefl. }
  assert (Hr : heap !! 0%nat = Some r) by (by rewrite Heq).
  destruct (siftup_ok (x :: rest) 0) as [H1 H2]; [simpl; lia| |].
  - intros i a b Hi Hsi Ha Hb. pose proof (lookup_lt_Some _ _ _ Hb) as Hlen. simpl in Hlen.
    pose proof (parent_lt i Hi). apply (Hh i); try done; try lia; rewrite Heq.
    + destruct (parent i) as [|j]; [lia|]. simpl in *. rewrite lookup_app_l; [done|]. lia.
    + destruct i as [|i]; [lia|]. simpl in *. rewrite lookup_app_l; [done|]. lia.
  - split; [done|]. split; [done|]. split; [|by apply heap_root_least].
    rewrite H2, Heq. simpl. constructor. by rewrite Permutation_app_comm.
Qed.

Lemma heapify_ok x : heap_from 0 (heapify lt x) ∧ heapify lt x ≡ₚ x.
Proof.
  assert (Hr : heapify lt x = foldr (λ i h, _siftup lt h i) x (seq 0 (length x / 2))).
  { unfold heapify. induction (seq 0 (length x / 2)) as [|i l IH]; [done|]. simpl.
    by rewrite foldl_app, IH. }
  rewrite Hr. clear Hr.
  assert (Hgen : ∀ n k v, (n + k = length x / 2)%nat → v ≡ₚ x →
    heap_from (n + k) v → heap_from n (foldr (λ i h, _siftup lt h i) v (seq n k)) ∧
    foldr (λ i h, _siftup lt h i) v (seq n k) ≡ₚ x).
  { intros n k. revert n. induction k as [|k IH]; intros n v Hn Hp Hv; simpl.
    { rewrite Nat.add_0_r in Hv. done. }
    destruct (IH (S n) v) as [H1 H2]; [lia|done|by rewrite Nat.add_succ_comm|].
    assert (Hlen : length (foldr (λ i h, _siftup lt h i) v (seq (S n) k)) = length x)
      by (by rewrite H2).
    destruct (siftup_ok (foldr (λ i h, _siftup lt h i) v (seq (S n) k)) n) as [H3 H4]; [lia|done|].
    split; [done|]. by rewrite H4. }
  apply (Hgen 0%nat (length x / 2)%nat x); [lia|done|].
  apply heap_from_short. lia.
Qed.
End heap_order.
