(* ===== verification/RequestQueue.v ===== *)
(** The waiting queues of the scheduler (vllm/v1/core/sched/request_queue.py).

    A queue holds references to requests, of a type [A] with the comparison
    [lt] that the [__lt__] of the referenced requests gives; the abstract base
    class is the typeclass [RequestQueue], its contract the class
    [RequestQueueLaws]. *)

From S2P Require Import Prelude.
From S2P Require Import Request.
From S2P Require Import HeapQueue.

Inductive SchedulingPolicy := FCFS | PRIORITY.

#[export] Instance SchedulingPolicy_eq_dec : EqDecision SchedulingPolicy.
Proof. solve_decision. Defined.

(** The abstract base class.  [queue_iter] is [list(queue)]. *)
Class RequestQueue (A Q : Type) := {
  add_request : (A → A → bool) → A → Q → Q;
  pop_request : (A → A → bool) → Q → res (A * Q);
  peek_request : Q → res A;
  prepend_request : (A → A → bool) → A → Q → Q;
  prepend_requests : (A → A → bool) → Q → Q → Q;
  remove_request : (A → A → bool) → A → Q → res Q;
  remove_requests : (A → A → bool) → list A → Q → Q;
  queue_bool : Q → bool;
  queue_len : Q → Z;
  queue_iter : (A → A → bool) → Q → list A
}.

Section queues.
Context {A : Type} `{EqDecision A}.
Implicit Types (lt : A → A → bool) (request : A).

(** ** First come, first served: a [deque] *)

Record FCFSRequestQueue := mkFCFS { deque : list A }.

(** [self.extendleft(requests)] *)
Definition extendleft (requests q : list A) : list A := foldl (λ q r, r :: q) q requests.

Implicit Types (fq : FCFSRequestQueue).
Definition fcfs_add_request request fq : FCFSRequestQueue := mkFCFS (deque fq ++ [request]).
Definition fcfs_pop_request fq : res (A * FCFSRequestQueue) :=
  match deque fq with
  | [] => Raise IndexError
  | r :: rest => Ok (r, mkFCFS rest)
  end.
Definition fcfs_peek_request fq : res A :=
  match deque fq with [] => Raise IndexError | r :: _ => Ok r end.
Definition fcfs_prepend_request request fq : FCFSRequestQueue := mkFCFS (request :: deque fq).
Definition fcfs_prepend_requests (requests : list A) fq : FCFSRequestQueue :=
  mkFCFS (extendleft requests (deque fq)).
Definition fcfs_remove_request request fq : res FCFSRequestQueue :=
  if decide (request ∈ deque fq) then Ok (mkFCFS (list_remove_first request (deque fq)))
  else Raise ValueError.
Definition fcfs_remove_requests (requests : list A) fq : FCFSRequestQueue :=
  mkFCFS (filter (λ req, req ∉ requests) (deque fq)).
Definition fcfs_bool fq : bool := bool_decide (0 < len (deque fq)).
Definition fcfs_len fq : Z := len (deque fq).
Definition fcfs_iter fq : list A := deque fq.

#[export] Instance FCFS_queue : RequestQueue A FCFSRequestQueue := {|
  add_request _ := fcfs_add_request;
  pop_request _ := fcfs_pop_request;
  peek_request := fcfs_peek_request;
  prepend_request _ := fcfs_prepend_request;
  prepend_requests _ requests := fcfs_prepend_requests (fcfs_iter requests);
  remove_request _ := fcfs_remove_request;
  remove_requests _ := fcfs_remove_requests;
  queue_bool := fcfs_bool;
  queue_len := fcfs_len;
  queue_iter _ := fcfs_iter
|}.

(** ** By priority: a heap *)

Record PriorityRequestQueue := mkPriority { _heap : list A }.

(** Popping until the copy of the heap is empty. *)
Fixpoint drain_heap lt (fuel : nat) (heap_copy : list A) : list A :=
  match fuel with
  | O => []
  | S fuel =>
      match heappop lt heap_copy with
      | None => []
      | Some (r, heap_copy) => r :: drain_heap lt fuel heap_copy
      end
  end.
Definition priority_iter lt (q : PriorityRequestQueue) : list A :=
  drain_heap lt (length (_heap q)) (_heap q).

Implicit Types (pq : PriorityRequestQueue).
Definition priority_add_request lt request pq : PriorityRequestQueue :=
  mkPriority (heappush lt (_heap pq) request).
Definition priority_pop_request lt pq : res (A * PriorityRequestQueue) :=
  match heappop lt (_heap pq) with
  | None => Raise IndexError
  | Some (r, h) => Ok (r, mkPriority h)
  end.
Definition priority_peek_request pq : res A :=
  match _heap pq with [] => Raise IndexError | r :: _ => Ok r end.
Definition priority_prepend_request lt request pq : PriorityRequestQueue :=
  priority_add_request lt request pq.
Definition priority_prepend_requests lt (requests : list A) pq : PriorityRequestQueue :=
  foldl (λ pq request, priority_add_request lt request pq) pq requests.
Definition priority_remove_request lt request pq : res PriorityRequestQueue :=
  if decide (request ∈ _heap pq)
  then Ok (mkPriority (heapify lt (list_remove_first request (_heap pq))))
  else Raise ValueError.
Definition priority_remove_requests lt (requests : list A) pq : PriorityRequestQueue :=
  mkPriority (heapify lt (filter (λ r, r ∉ requests) (_heap pq))).
Definition priority_bool pq : bool := negb (bool_decide (_heap pq = [])).
Definition priority_len pq : Z := len (_heap pq).

#[export] Instance Priority_queue : RequestQueue A PriorityRequestQueue := {|
  add_request := priority_add_request;
  pop_request := priority_pop_request;
  peek_request := priority_peek_request;
  prepend_request := priority_prepend_request;
  prepend_requests lt requests := priority_prepend_requests lt (priority_iter lt requests);
  remove_request := priority_remove_request;
  remove_requests := priority_remove_requests;
  queue_bool := priority_bool;
  queue_len := priority_len;
  queue_iter := priority_iter
|}.

(** ** The queue of a policy *)

Inductive AnyRequestQueue :=
  | AnyFCFS (q : FCFSRequestQueue)
  | AnyPriority (q : PriorityRequestQueue).

Definition create_request_queue (policy : SchedulingPolicy) : AnyRequestQueue :=
  match policy with
  | PRIORITY => AnyPriority (mkPriority [])
  | FCFS => AnyFCFS (mkFCFS [])
  end.

(** Method calls are dispatched on the class of the queue; [prepend_requests]
    iterates over its argument, whatever its class. *)
#[export] Instance Any_queue : RequestQueue A AnyRequestQueue := {|
  add_request lt request q :=
    match q with
    | AnyFCFS q => AnyFCFS (add_request lt request q)
    | AnyPriority q => AnyPriority (add_request lt request q)
    end;
  pop_request lt q :=
    match q with
    | AnyFCFS q => letr p := pop_request lt q in Ok (p.1, AnyFCFS p.2)
    | AnyPriority q => letr p := pop_request lt q in Ok (p.1, AnyPriority p.2)
    end;
  peek_request q :=
    match q with AnyFCFS q => peek_request q | AnyPriority q => peek_request q end;
  prepend_request lt request q :=
    match q with
    | AnyFCFS q => AnyFCFS (prepend_request lt request q)
    | AnyPriority q => AnyPriority (prepend_request lt request q)
    end;
  prepend_requests lt requests q :=
    let rs := match requests with
              | AnyFCFS r => queue_iter lt r
              | AnyPriority r => queue_iter lt r
              end in
    match q with
    | AnyFCFS q => AnyFCFS (fcfs_prepend_requests rs q)
    | AnyPriority q => AnyPriority (priority_prepend_requests lt rs q)
    end;
  remove_request lt request q :=
    match q with
    | AnyFCFS q => letr q := remove_request lt request q in Ok (AnyFCFS q)
    | AnyPriority q => letr q := remove_request lt request q in Ok (AnyPriority q)
    end;
  remove_requests lt requests q :=
    match q with
    | AnyFCFS q => AnyFCFS (remove_requests lt requests q)
    | AnyPriority q => AnyPriority (remove_requests lt requests q)
    end;
  queue_bool q := match q with AnyFCFS q => queue_bool q | AnyPriority q => queue_bool q end;
  queue_len q := match q with AnyFCFS q => queue_len q | AnyPriority q => queue_len q end;
  queue_iter lt q :=
    match q with AnyFCFS q => queue_iter lt q | AnyPriority q => queue_iter lt q end
|}.

End queues.
Arguments FCFSRequestQueue A : clear implicits.
Arguments PriorityRequestQueue A : clear implicits.
Arguments AnyRequestQueue A : clear implicits.

(** * The order of requests *)

(** A strict weak order. *)
Class StrictWeakOrder {A} (lt : A → A → bool) := {
  swo_asym : ∀ a b, lt a b = true → lt b a = false;
  swo_trans : ∀ a b c, lt b a = false → lt c b = false → lt c a = false
}.

Lemma string_ltb_irrefl a : string_ltb a a = false.
Proof. induction a as [|x a IH]; simpl; [done|]. by rewrite Nat.eqb_refl. Qed.
Lemma string_ltb_asym a b : string_ltb a b = true → string_ltb b a = false.
Proof.
  revert b. induction a as [|x a IH]; intros [|y b]; simpl; try done.
  rewrite (Nat.eqb_sym (Ascii.nat_of_ascii y)). destruct (Nat.eqb_spec (Ascii.nat_of_ascii x) (Ascii.nat_of_ascii y)).
  - apply IH.
  - intros Hlt%Nat.ltb_lt. apply Nat.ltb_ge. lia.
Qed.
Lemma string_ltb_trans a b c :
  string_ltb b a = false → string_ltb c b = false → string_ltb c a = false.
Proof.
  revert b c. induction a as [|x a IH]; intros [|y b] [|z c]; simpl; try done.
  destruct (Nat.eqb_spec (Ascii.nat_of_ascii y) (Ascii.nat_of_ascii x)) as [Hyx|Hyx];
  destruct (Nat.eqb_spec (Ascii.nat_of_ascii z) (Ascii.nat_of_ascii y)) as [Hzy|Hzy];
  destruct (Nat.eqb_spec (Ascii.nat_of_ascii z) (Ascii.nat_of_ascii x)) as [Hzx|Hzx];
    rewrite ?Nat.ltb_ge; try lia; try apply IH.
Qed.
Lemma string_ltb_eq a b : string_ltb a b = false → string_ltb b a = false → a = b.
Proof.
  revert b. induction a as [|x a IH]; intros [|y b]; simpl; try done.
  rewrite (Nat.eqb_sym (Ascii.nat_of_ascii y)).
  destruct (Nat.eqb_spec (Ascii.nat_of_ascii x) (Ascii.nat_of_ascii y)) as [Heq|Hne].
  - intros H1 H2. rewrite (IH b H1 H2). f_equal.
    by rewrite <- (Ascii.ascii_nat_embedding x), Heq, Ascii.ascii_nat_embedding.
  - rewrite !Nat.ltb_ge. lia.
Qed.

#[export] Instance Request_lt_order : StrictWeakOrder Request_lt.
Proof.
  unfold Request_lt. split.
  - intros a b. repeat case_decide; try congruence; rewrite ?Z.ltb_lt, ?Z.ltb_ge; try lia.
    apply string_ltb_asym.
  - intros a b c. repeat case_decide; rewrite ?Z.ltb_ge; try lia; try congruence.
    + apply string_ltb_trans.
    + match goal with H : request_id c = request_id a |- _ => rewrite H end.
      intros Hba Hab. by pose proof (string_ltb_eq _ _ Hab Hba).
Qed.
