(* ===== verification/RequestQueueSpec.v ===== *)
(** The contract of the waiting queues and its implementations: a queue holds
    a multiset of requests; the first-come-first-served queue serves them in
    order of arrival, the priority queue always serves a least one. *)

From S2P Require Import Prelude.
From S2P Require Import Request.
From S2P Require Import HeapQueue.
From S2P Require Import RequestQueue.
From Stdlib Require Import Sorting.Sorted.

(** What the scheduler relies on: operations keep the queue well formed
    ([queue_ok]) and change its contents ([queue_items]) as their names say. *)
Class RequestQueueLaws {A Q} `{EqDecision A} `{!RequestQueue A Q} (lt : A → A → bool) := {
  queue_ok : Q → Prop;
  queue_items : Q → list A;
  law_add r q : queue_ok q →
    queue_ok (add_request lt r q) ∧ queue_items (add_request lt r q) ≡ₚ r :: queue_items q;
  law_prepend r q : queue_ok q →
    queue_ok (prepend_request lt r q) ∧
    queue_items (prepend_request lt r q) ≡ₚ r :: queue_items q;
  law_prepend_all q' q : queue_ok q' → queue_ok q →
    queue_ok (prepend_requests lt q' q) ∧
    queue_items (prepend_requests lt q' q) ≡ₚ queue_items q' ++ queue_items q;
  law_pop q : queue_ok q →
    match pop_request lt q with
    | Ok (r, q') =>
        queue_ok q' ∧ queue_items q ≡ₚ r :: queue_items q' ∧ peek_request q = Ok r
    | Raise e => e = IndexError ∧ queue_items q = [] ∧ peek_request q = Raise IndexError
    end;
  law_remove r q : queue_ok q →
    match remove_request lt r q with
    | Ok q' => queue_ok q' ∧ queue_items q ≡ₚ r :: queue_items q'
    | Raise e => e = ValueError ∧ r ∉ queue_items q
    end;
  law_remove_all rs q : queue_ok q →
    queue_ok (remove_requests lt rs q) ∧
    queue_items (remove_requests lt rs q) ≡ₚ filter (λ r, r ∉ rs) (queue_items q);
  law_len q : queue_ok q → queue_len q = len (queue_items q);
  law_bool q : queue_ok q → queue_bool q = true ↔ queue_items q ≠ [];
  law_iter q : queue_ok q → queue_iter lt q ≡ₚ queue_items q
}.

Section contract.
Context {A : Type} `{EqDecision A} (lt : A → A → bool).
Context `{!StrictWeakOrder lt}.

Lemma list_remove_first_perm (r : A) (q : list A) : r ∈ q → q ≡ₚ r :: list_remove_first r q.
Proof.
  induction q as [|x q IH]; intros Hin; [by apply not_elem_of_nil in Hin|]. simpl.
  case_decide as Hx; [by subst|]. apply elem_of_cons in Hin as [->|Hin]; [done|].
  rewrite (IH Hin) at 1. apply Permutation_swap.
Qed.

Lemma extendleft_rev (rs q : list A) : extendleft rs q = rev rs ++ q.
Proof.
  unfold extendleft. revert q. induction rs as [|r rs IH]; intros q; [done|].
  simpl. rewrite IH, <- app_assoc. done.
Qed.
Lemma extendleft_perm (rs q : list A) : extendleft rs q ≡ₚ rs ++ q.
Proof. by rewrite extendleft_rev, <- Permutation_rev. Qed.

Lemma priority_prepend_requests_heap rs (q : PriorityRequestQueue A) :
  _heap (priority_prepend_requests lt rs q) = foldl (heappush lt) (_heap q) rs.
Proof. unfold priority_prepend_requests. revert q. induction rs as [|r rs IH]; intros q; [done|]. simpl. by rewrite IH. Qed.

Ltac unfold_queue := unfold fcfs_add_request, fcfs_pop_request, fcfs_peek_request,
  fcfs_prepend_request, fcfs_prepend_requests, fcfs_remove_request, fcfs_remove_requests,
  fcfs_bool, fcfs_len, fcfs_iter, priority_add_request, priority_pop_request,
  priority_peek_request, priority_prepend_request, priority_remove_request,
  priority_remove_requests, priority_bool, priority_len in *.

#[export, refine] Instance FCFS_laws : RequestQueueLaws (Q := FCFSRequestQueue A) lt := {|
  queue_ok _ := True;
  queue_items q := deque q
|}.
Proof.
  - intros r q _. split; [done|]. simpl; unfold_queue. by rewrite Permutation_app_comm.
  - done.
  - intros q' q _ _. split; [done|]. apply extendleft_perm.
  - intros [[|r q]] _; simpl; unfold_queue; done.
  - intros r q _. simpl; unfold_queue. case_decide; [|done]. split; [done|]. by apply list_remove_first_perm.
  - done.
  - done.
  - intros [q] _. simpl; unfold_queue. rewrite bool_decide_eq_true. unfold len. destruct q; simpl; split; (done || lia).
  - done.
Defined.

Lemma heap_ok_fold rs h :
  heap_from lt 0 h → heap_from lt 0 (foldl (heappush lt) h rs) ∧ foldl (heappush lt) h rs ≡ₚ rs ++ h.
Proof.
  revert h. induction rs as [|r rs IH]; intros h Hh; [done|]. simpl.
  destruct (heappush_ok lt swo_asym swo_trans h r Hh) as [H1 H2].
  destruct (IH _ H1) as [H3 H4]. split; [done|]. rewrite H4, H2.
  by rewrite Permutation_middle.
Qed.

Lemma drain_heap_spec fuel h :
  heap_from lt 0 h → (length h ≤ fuel)%nat →
  drain_heap lt fuel h ≡ₚ h ∧ StronglySorted (λ a b, lt b a = false) (drain_heap lt fuel h).
Proof.
  revert h. induction fuel as [|fuel IH]; intros h Hh Hlen; simpl.
  { destruct h; [|simpl in Hlen; lia]. split; [done|constructor]. }
  pose proof (heappop_ok lt swo_asym swo_trans h Hh) as Hpop.
  destruct (heappop lt h) as [[r h']|]; [|by subst; split; [|constructor]].
  destruct Hpop as (_ & Hh' & Hperm & Hleast).
  assert (Hlen' : (length h' ≤ fuel)%nat) by (rewrite Hperm in Hlen; simpl in Hlen; lia).
  destruct (IH h' Hh' Hlen') as [Hp Hs]. split; [by rewrite Hp, Hperm|].
  constructor; [done|]. apply Forall_forall. intros x Hx. rewrite Hp in Hx.
  apply Hleast. rewrite Hperm. by right.
Qed.

Lemma prepend_heap (q' q : PriorityRequestQueue A) :
  heap_from lt 0 (_heap q') → heap_from lt 0 (_heap q) →
  heap_from lt 0 (_heap (prepend_requests lt q' q)) ∧
  _heap (prepend_requests lt q' q) ≡ₚ _heap q' ++ _heap q.
Proof.
  intros Hq' Hq. simpl. rewrite priority_prepend_requests_heap. unfold priority_iter.
  destruct (heap_ok_fold (drain_heap lt (length (_heap q')) (_heap q')) (_heap q) Hq) as [H1 H2].
  split; [done|]. rewrite H2. by rewrite (proj1 (drain_heap_spec _ _ Hq' (le_n _))).
Qed.

#[export, refine] Instance Priority_laws : RequestQueueLaws (Q := PriorityRequestQueue A) lt := {|
  queue_ok q := heap_from lt 0 (_heap q);
  queue_items q := _heap q
|}.
Proof.
  - intros r q Hq. by apply (heappush_ok lt swo_asym swo_trans).
  - intros r q Hq. by apply (heappush_ok lt swo_asym swo_trans).
  - apply prepend_heap.
  - intros q Hq. simpl; unfold_queue. pose proof (heappop_ok lt swo_asym swo_trans _ Hq) as Hpop.
    destruct (heappop lt (_heap q)) as [[r h']|]; [|by rewrite Hpop].
    destruct Hpop as (Hr & Hh' & Hperm & _). destruct (_heap q); [done|].
    simpl in Hr. injection Hr as ->. done.
  - intros r q Hq. simpl; unfold_queue. case_decide; [|done].
    destruct (heapify_ok lt swo_asym swo_trans (list_remove_first r (_heap q))) as [H1 H2].
    split; [done|]. simpl; unfold_queue. rewrite H2. by apply list_remove_first_perm.
  - intros rs q Hq. apply (heapify_ok lt swo_asym swo_trans).
  - done.
  - intros [q] _. simpl; unfold_queue. rewrite negb_true_iff, bool_decide_eq_false. done.
  - intros q Hq. by apply drain_heap_spec.
Defined.

#[export, refine] Instance Any_laws : RequestQueueLaws (Q := AnyRequestQueue A) lt := {|
  queue_ok q := match q with AnyFCFS q => queue_ok q | AnyPriority q => queue_ok q end;
  queue_items q := match q with AnyFCFS q => queue_items q | AnyPriority q => queue_items q end
|}.
Proof.
  - intros r [q|q] Hq; [by apply (law_add (Q := FCFSRequestQueue A))|by apply (law_add (Q := PriorityRequestQueue A))].
  - intros r [q|q] Hq; [by apply (law_prepend (Q := FCFSRequestQueue A))|by apply (law_prepend (Q := PriorityRequestQueue A))].
  - intros q' q Hq' Hq.
    assert (Hit : match q' with AnyFCFS r => queue_iter lt r | AnyPriority r => queue_iter lt r end
      ≡ₚ match q' with AnyFCFS q => queue_items q | AnyPriority q => queue_items q end).
    { destruct q'; [done|by apply (law_iter (Q := PriorityRequestQueue A))]. }
    destruct q as [q|q].
    + split; [done|]. simpl; unfold_queue. by rewrite extendleft_perm, Hit.
    + simpl. rewrite priority_prepend_requests_heap.
      destruct (heap_ok_fold (match q' with AnyFCFS r => queue_iter lt r
        | AnyPriority r => queue_iter lt r end) (_heap q) Hq) as [H1 H2].
      split; [done|]. by rewrite H2, Hit.
  - intros [q|q] Hq.
    + pose proof (law_pop (Q := FCFSRequestQueue A) q Hq) as Hp. simpl in Hp |- *; unfold_queue.
      destruct (deque q); simpl in *; naive_solver.
    + pose proof (law_pop (Q := PriorityRequestQueue A) q Hq) as Hp. simpl in Hp |- *; unfold_queue.
      destruct (heappop lt (_heap q)) as [[??]|]; simpl in *; naive_solver.
  - intros r [q|q] Hq.
    + pose proof (law_remove (Q := FCFSRequestQueue A) r q Hq) as Hp. simpl in Hp |- *; unfold_queue.
      case_decide; simpl in *; naive_solver.
    + pose proof (law_remove (Q := PriorityRequestQueue A) r q Hq) as Hp. simpl in Hp |- *; unfold_queue.
      case_decide; simpl in *; naive_solver.
  - intros rs [q|q] Hq; [by apply (law_remove_all (Q := FCFSRequestQueue A))|by apply (law_remove_all (Q := PriorityRequestQueue A))].
  - intros [q|q] Hq; [by apply (law_len (Q := FCFSRequestQueue A))|by apply (law_len (Q := PriorityRequestQueue A))].
  - intros [q|q] Hq; [by apply (law_bool (Q := FCFSRequestQueue A))|by apply (law_bool (Q := PriorityRequestQueue A))].
  - intros [q|q] Hq; [by apply (law_iter (Q := FCFSRequestQueue A))|by apply (law_iter (Q := PriorityRequestQueue A))].
Defined.

Lemma create_request_queue_ok policy :
  queue_ok (lt := lt) (create_request_queue (A := A) policy) ∧
  queue_items (lt := lt) (create_request_queue (A := A) policy) = [].
Proof.
  by destruct policy; split.
Qed.

(** ** The abstract queue *)

(** The calls of the scheduler.  [QPutBack rs]: the requests [rs] were skipped
    one after another, each prepended to a temporary queue, which is prepended
    to this queue in the end. *)
Inductive queue_op :=
  | QAdd (r : A) | QPrepend (r : A) | QPutBack (rs : list A)
  | QPop | QPeek | QRemove (r : A) | QRemoveAll (rs : list A) | QIter.
Inductive queue_out := Done | Served (r : A) | Listed (rs : list A) | Failed (e : exc).

Definition queue_step (policy : SchedulingPolicy) (op : queue_op) (q : AnyRequestQueue A)
    : queue_out * AnyRequestQueue A :=
  match op with
  | QAdd r => (Done, add_request lt r q)
  | QPrepend r => (Done, prepend_request lt r q)
  | QPutBack rs =>
      (Done, prepend_requests lt
               (foldl (λ skipped r, prepend_request lt r skipped) (create_request_queue policy) rs) q)
  | QPop => match pop_request lt q with Ok (r, q) => (Served r, q) | Raise e => (Failed e, q) end
  | QPeek => match peek_request q with Ok r => (Served r, q) | Raise e => (Failed e, q) end
  | QRemove r => match remove_request lt r q with Ok q => (Done, q) | Raise e => (Failed e, q) end
  | QRemoveAll rs => (Done, remove_requests lt rs q)
  | QIter => (Listed (queue_iter lt q), q)
  end.

Fixpoint queue_run (policy : SchedulingPolicy) (ops : list queue_op) (q : AnyRequestQueue A)
    : list queue_out * AnyRequestQueue A :=
  match ops with
  | [] => ([], q)
  | op :: ops =>
      let '(out, q) := queue_step policy op q in
      let '(outs, q) := queue_run policy ops q in (out :: outs, q)
  end.

(** An abstract queue is a list whose order matters for first come, first
    served only. *)
Definition same_queue (policy : SchedulingPolicy) (l l' : list A) : Prop :=
  match policy with FCFS => l = l' | PRIORITY => l ≡ₚ l' end.
(** [r] may be served from [l]. *)
Definition may_serve (policy : SchedulingPolicy) (l : list A) (r : A) : Prop :=
  match policy with
  | FCFS => head l = Some r
  | PRIORITY => (r ∈ l) ∧ ∀ x, x ∈ l → lt x r = false
  end.

Definition spec_step (policy : SchedulingPolicy) (l : list A) (op : queue_op) (out : queue_out)
    (l' : list A) : Prop :=
  match op with
  | QAdd r => out = Done ∧ same_queue policy l' (l ++ [r])
  | QPrepend r => out = Done ∧ same_queue policy l' (r :: l)
  | QPutBack rs => out = Done ∧ same_queue policy l' (rs ++ l)
  | QPop =>
      (l = [] ∧ out = Failed IndexError ∧ l' = []) ∨ (∃ r, out = Served r ∧ may_serve policy l r ∧ same_queue policy l (r :: l'))
  | QPeek =>
      l' = l ∧ ((l = [] ∧ out = Failed IndexError) ∨ (∃ r, out = Served r ∧ may_serve policy l r))
  | QRemove r =>
      ((r ∉ l) ∧ out = Failed ValueError ∧ l' = l) ∨
      ((r ∈ l) ∧ out = Done ∧ same_queue policy l' (list_remove_first r l))
  | QRemoveAll rs => out = Done ∧ same_queue policy l' (filter (λ r, r ∉ rs) l)
  | QIter =>
      l' = l ∧ ∃ rs, out = Listed rs ∧ same_queue policy rs l ∧
        (policy = PRIORITY → StronglySorted (λ a b, lt b a = false) rs)
  end.

Fixpoint spec_run (policy : SchedulingPolicy) (l : list A) (ops : list queue_op)
    (outs : list queue_out) (l' : list A) : Prop :=
  match ops, outs with
  | [], [] => l' = l
  | op :: ops, out :: outs =>
      ∃ l1, spec_step policy l op out l1 ∧ spec_run policy l1 ops outs l'
  | _, _ => False
  end.

(** The queue [q] of the class for [policy] holds the items of [l]. *)
Definition represents (policy : SchedulingPolicy) (l : list A) (q : AnyRequestQueue A) : Prop :=
  match policy, q with
  | FCFS, AnyFCFS q => l = deque q
  | PRIORITY, AnyPriority q => heap_from lt 0 (_heap q) ∧ l = _heap q
  | _, _ => False
  end.

Lemma foldl_prepend_fcfs rs q :
  foldl (λ skipped r, prepend_request lt r skipped) (AnyFCFS (mkFCFS q)) rs =
  AnyFCFS (mkFCFS (rev rs ++ q)).
Proof.
  revert q. induction rs as [|r rs IH]; intros q; [done|].
  etrans; [apply (IH (r :: q))|]. simpl. by rewrite <- app_assoc.
Qed.
Lemma foldl_prepend_priority rs h :
  foldl (λ skipped r, prepend_request lt r skipped) (AnyPriority (mkPriority h)) rs =
  AnyPriority (mkPriority (foldl (heappush lt) h rs)).
Proof. revert h. induction rs as [|r rs IH]; intros h; [done|]. apply (IH (heappush lt h r)). Qed.

Lemma fcfs_step op q :
  let '(out, q') := queue_step FCFS op (AnyFCFS q) in
  ∃ l', spec_step FCFS (deque q) op out l' ∧ represents FCFS l' q'.
Proof.
  destruct op as [r|r|rs| | |r|rs|]; cbn [queue_step spec_step create_request_queue].
  - by eexists.
  - by eexists.
  - rewrite foldl_prepend_fcfs. eexists. split; [split; [done|reflexivity]|].
    simpl; unfold_queue; simpl. by rewrite extendleft_rev, app_nil_r, rev_involutive.
  - simpl; unfold_queue. destruct (deque q) as [|r l] eqn:Hq; simpl; eexists; (split; [|done]);
      [by left|right; by exists r].
  - simpl; unfold_queue. destruct (deque q) as [|r l] eqn:Hq; simpl; eexists; (split; [|done]); (split; [done|]);
      [by left|right; by exists r].
  - simpl; unfold_queue. case_decide; simpl; eexists; (split; [|done]); [by right|by left].
  - by eexists.
  - eexists. split; [split; [reflexivity|]|done]. by exists (deque q).
Qed.

Lemma heap_served h r : heap_from lt 0 h → h !! 0%nat = Some r → may_serve PRIORITY h r.
Proof.
  intros Hh Hr. split; [by eapply list_elem_of_lookup_2|].
  by apply (heap_root_least lt swo_asym swo_trans).
Qed.

Lemma priority_step op q :
  heap_from lt 0 (_heap q) →
  let '(out, q') := queue_step PRIORITY op (AnyPriority q) in
  ∃ l', spec_step PRIORITY (_heap q) op out l' ∧ represents PRIORITY l' q'.
Proof.
  intros Hq. destruct op as [r|r|rs| | |r|rs|]; cbn [queue_step spec_step create_request_queue].
  - destruct (heappush_ok lt swo_asym swo_trans (_heap q) r Hq). eexists; split; [|done].
    split; [done|]. simpl. by rewrite (Permutation_app_comm _ [r]).
  - destruct (heappush_ok lt swo_asym swo_trans (_heap q) r Hq). by eexists.
  - rewrite foldl_prepend_priority.
    destruct (heap_ok_fold rs []) as [Hs1 Hs2]; [apply heap_from_short; simpl; lia|].
    destruct (prepend_heap (mkPriority (foldl (heappush lt) [] rs)) q Hs1 Hq) as [H1 H2].
    eexists. split; [|by split]. split; [done|]. simpl in H2 |- *. rewrite H2, Hs2. by rewrite app_nil_r.
  - simpl; unfold_queue. pose proof (heappop_ok lt swo_asym swo_trans _ Hq) as Hp.
    destruct (heappop lt (_heap q)) as [[r h]|]; simpl.
    + destruct Hp as (Hr & Hh & Hperm & Hleast). eexists. split; [|by split]. right. exists r.
      split; [done|]. split; [by apply heap_served|]. done.
    + rewrite Hp in *. eexists. split; [by left|by split].
  - simpl; unfold_queue. destruct (_heap q) as [|r h] eqn:Hh; simpl; eexists; (split; [split; [reflexivity|]|]);
      rewrite ?Hh; try done; [by left|right]. exists r. split; [done|]. by apply heap_served.
  - simpl; unfold_queue. case_decide; simpl; eexists.
    + destruct (heapify_ok lt swo_asym swo_trans (list_remove_first r (_heap q))).
      split; [right|by split]. done.
    + split; [by left|by split].
  - destruct (heapify_ok lt swo_asym swo_trans (filter (λ r, r ∉ rs) (_heap q))). by eexists.
  - eexists. split; [split; [reflexivity|]|by split]. exists (priority_iter lt q).
    destruct (drain_heap_spec _ _ Hq (le_n _)). done.
Qed.

Lemma queue_run_refines policy ops l q :
  represents policy l q →
  let '(outs, q') := queue_run policy ops q in
  ∃ l', spec_run policy l ops outs l' ∧ represents policy l' q'.
Proof.
  revert l q. induction ops as [|op ops IH]; intros l q Hr; simpl; [by exists l|].
  assert (Hstep : let '(out, q') := queue_step policy op q in
    ∃ l', spec_step policy l op out l' ∧ represents policy l' q').
  { destruct policy, q; try done; [rewrite Hr; apply fcfs_step|].
    destruct Hr as [Hh ->]. by apply priority_step. }
  destruct (queue_step policy op q) as [out q1]. destruct Hstep as (l1 & Hs & Hr1).
  specialize (IH l1 q1 Hr1). destruct (queue_run policy ops q1) as [outs q2].
  destruct IH as (l2 & Hs2 & Hr2). exists l2. split; [|done]. by exists l1.
Qed.
End contract.

(** References are compared by the requests they refer to. *)
#[export] Instance store_order {A} (store : A → Request) :
  StrictWeakOrder (λ a b, Request_lt (store a) (store b)).
Proof. split; [intros a b; apply swo_asym|intros a b c; apply swo_trans]. Qed.

(** C32. For every sequence of calls, on an initially empty queue (of references
    to the requests in [store]) of either policy, the waiting queue behaves like the abstract queue: under FCFS
    requests are served in the order of a list to which new requests are
    appended and preempted ones prepended, and requests that were skipped in a
    step go back to the front in their old order; under PRIORITY the request
    served is one that no waiting request precedes by [__lt__] (priority, then
    arrival time, then id), and iteration lists all requests in that order.
    No request is lost or duplicated, and the only exceptions are [IndexError]
    for an empty queue and [ValueError] for removing an absent request. *)
Theorem request_queue_refines_abstract {A} `{EqDecision A} (store : A → Request) policy ops :
  let lt := λ a b, Request_lt (store a) (store b) in
  let '(outs, q) := queue_run lt policy ops (create_request_queue policy) in
  ∃ l, spec_run lt policy [] ops outs l ∧ represents lt policy l q.
Proof.
  apply (queue_run_refines (λ a b, Request_lt (store a) (store b)) policy ops []).
  destruct policy; [done|]. split; [|done]. apply heap_from_short. simpl. lia.
Qed.
