(* ===== verification/SchedulerState.v ===== *)
(** The state of the scheduler (vllm/v1/core/sched/scheduler.py), its output
    (vllm/v1/core/sched/output.py), the interfaces of the KV and encoder-cache
    connectors it calls, and the elementary operations on requests.

    Requests are mutable objects that the request table, the two queues and the
    lists of a step share: [store] maps references to the objects, everything
    else holds references.  The connectors are records of functions on a state
    [W] of their own (plugins chosen at run time, documented in
    vllm/distributed/kv_transfer/kv_connector/v1/base.py); they raise nothing. *)

From S2P Require Import Prelude.
From S2P Require Import OrderedDict.
From S2P Require Import Request.
From S2P Require Import BlockPool.
From S2P Require Import KVCacheManager.
From S2P Require Import EncoderCache.
From S2P Require Import HeapQueue.
From S2P Require Import RequestQueue.

(** [id(request)] *)
Abbreviation ref := Z.

(** ** Output of a step *)

(** [NewRequestData]: the fields copied from the request are given by the
    request as it was. *)
Record NewRequestData := mkNewRequest {
  nr_request : Request;
  nr_block_ids : list (list Z);
  nr_prefill_token_ids : option (list Z)
}.

Record CachedRequestData := mkCachedRequests {
  req_ids : list string;
  resumed_req_ids : gset string;
  new_token_ids : list (list Z);
  all_token_ids : list (string * list Z);
  new_block_ids : list (option (list (list Z)));
  cr_num_computed_tokens : list Z;
  cr_num_output_tokens : list Z
}.

Record SchedulerOutput := mkOutput {
  so_new_reqs : list NewRequestData;
  so_cached_reqs : CachedRequestData;
  so_num_scheduled_tokens : list (string * Z);
  so_total_num_scheduled_tokens : Z;
  so_spec_decode_tokens : list (string * list Z);
  so_encoder_inputs : list (string * list Z);
  so_num_common_prefix_blocks : list Z;
  so_preempted_req_ids : gset string;
  so_finished_req_ids : gset string;
  so_free_encoder_mm_hashes : list string;
  so_has_structured_output : bool;
  so_pending_structured_output : bool;
  so_num_invalid_spec_tokens : option (list (string * Z));
  (** Opaque objects for the workers. *)
  so_kv_connector_metadata : option string;
  so_ec_connector_metadata : option string
}.

Definition SchedulerOutput_eta (o : SchedulerOutput) : SchedulerOutput :=
  mkOutput (so_new_reqs o) (so_cached_reqs o) (so_num_scheduled_tokens o)
    (so_total_num_scheduled_tokens o) (so_spec_decode_tokens o) (so_encoder_inputs o)
    (so_num_common_prefix_blocks o) (so_preempted_req_ids o) (so_finished_req_ids o)
    (so_free_encoder_mm_hashes o) (so_has_structured_output o) (so_pending_structured_output o)
    (so_num_invalid_spec_tokens o) (so_kv_connector_metadata o) (so_ec_connector_metadata o).
Definition set_so_spec_decode_tokens (v : list (string * list Z)) : SchedulerOutput → SchedulerOutput :=
  ltac:(record_set SchedulerOutput_eta so_spec_decode_tokens v).
Definition set_so_has_structured_output (v : bool) : SchedulerOutput → SchedulerOutput :=
  ltac:(record_set SchedulerOutput_eta so_has_structured_output v).
Definition set_so_pending_structured_output (v : bool) : SchedulerOutput → SchedulerOutput :=
  ltac:(record_set SchedulerOutput_eta so_pending_structured_output v).
Definition set_so_num_invalid_spec_tokens (v : option (list (string * Z)))
    : SchedulerOutput → SchedulerOutput :=
  ltac:(record_set SchedulerOutput_eta so_num_invalid_spec_tokens v).
Definition set_so_kv_connector_metadata (v : option string) : SchedulerOutput → SchedulerOutput :=
  ltac:(record_set SchedulerOutput_eta so_kv_connector_metadata v).
Definition set_so_ec_connector_metadata (v : option string) : SchedulerOutput → SchedulerOutput :=
  ltac:(record_set SchedulerOutput_eta so_ec_connector_metadata v).

(** ** Configuration *)

Record SchedulerConfig := mkSchedConfig {
  sc_policy : SchedulingPolicy;
  sc_max_num_running_reqs : Z;
  sc_max_num_scheduled_tokens : Z;
  sc_max_model_len : Z;
  sc_long_prefill_token_threshold : Z;
  sc_enable_chunked_prefill : bool;
  sc_disable_chunked_mm_input : bool;
  sc_log_stats : bool;
  sc_is_encoder_decoder : bool;
  sc_max_num_encoder_input_tokens : Z;
  sc_num_encoder_max_input_tokens : Z;
  sc_num_spec_tokens : Z;
  sc_num_lookahead_tokens : Z;
  sc_use_eagle : bool;
  sc_use_pp : bool;
  sc_use_v2_model_runner : bool;
  sc_max_loras : option Z;                 (** [lora_config] and its [max_loras] *)
  sc_block_size : Z;
  sc_recompute_kv_load_failures : bool;
  sc_async : bool                          (** the class is [AsyncScheduler] *)
}.

(** ** Connectors *)

(** What the workers report about transfers. *)
Record KVConnectorOutput := mkConnectorOutput {
  finished_sending : list string;
  finished_recving : list string;
  invalid_block_ids : gset Z
}.

Record KVConnector (W : Type) := mkKVConnector {
  get_num_new_matched_tokens : Request → Z → W → option Z * bool * W;
  update_state_after_alloc : Request → KVCacheBlocks → Z → W → W;
  build_connector_meta : SchedulerOutput → W → string * W;
  supports_hma : bool;
  request_finished : Request → list Z → W → bool * option string * W;
  request_finished_all_groups : Request → list (list Z) → W → bool * option string * W;
  update_connector_output : KVConnectorOutput → W → W;
  reset_cache : W → option bool * W;
  connector_take_events : W → list KVCacheEvent * W
}.
Arguments get_num_new_matched_tokens {W} _.
Arguments update_state_after_alloc {W} _.
Arguments build_connector_meta {W} _.
Arguments supports_hma {W} _.
Arguments request_finished {W} _.
Arguments request_finished_all_groups {W} _.
Arguments update_connector_output {W} _.
Arguments reset_cache {W} _.
Arguments connector_take_events {W} _.

Record ECConnector (W : Type) := mkECConnector {
  has_caches : Request → W → list bool;
  ec_update_state_after_alloc : Request → Z → W → W;
  ec_build_connector_meta : SchedulerOutput → W → string * W
}.
Arguments has_caches {W} _.
Arguments ec_update_state_after_alloc {W} _.
Arguments ec_build_connector_meta {W} _.

(** ** State *)

Record Scheduler (W : Type) := mkScheduler {
  store : gmap ref Request;
  sched_requests : gmap string ref;        (** [self.requests] *)
  waiting : AnyRequestQueue ref;
  running : list ref;
  finished_req_ids : gset string;
  finished_req_ids_dict : option (list (Z * gset string));
  prev_step_scheduled_req_ids : gset string;
  finished_recving_kv_req_ids : gset string;
  failed_recving_kv_req_ids : gset string;
  encoder_cache_manager : EncoderCacheManager;
  kv_cache_manager : KVCacheManager;
  connector_prefix_cache_stats : option PrefixCacheStats;
  world : W                                (** the state of the connectors *)
}.
Arguments mkScheduler {W}.
Arguments store {W} _.
Arguments sched_requests {W} _.
Arguments waiting {W} _.
Arguments running {W} _.
Arguments finished_req_ids {W} _.
Arguments finished_req_ids_dict {W} _.
Arguments prev_step_scheduled_req_ids {W} _.
Arguments finished_recving_kv_req_ids {W} _.
Arguments failed_recving_kv_req_ids {W} _.
Arguments encoder_cache_manager {W} _.
Arguments kv_cache_manager {W} _.
Arguments connector_prefix_cache_stats {W} _.
Arguments world {W} _.

Section scheduler_state.
Context {W : Type}.
Implicit Types (s : Scheduler W).

Definition Scheduler_eta s : Scheduler W :=
  mkScheduler (store s) (sched_requests s) (waiting s) (running s) (finished_req_ids s)
    (finished_req_ids_dict s) (prev_step_scheduled_req_ids s) (finished_recving_kv_req_ids s)
    (failed_recving_kv_req_ids s) (encoder_cache_manager s) (kv_cache_manager s)
    (connector_prefix_cache_stats s) (world s).
Definition set_store v : Scheduler W → Scheduler W := ltac:(record_set Scheduler_eta (@store W) v).
Definition set_sched_requests v : Scheduler W → Scheduler W :=
  ltac:(record_set Scheduler_eta (@sched_requests W) v).
Definition set_waiting v : Scheduler W → Scheduler W := ltac:(record_set Scheduler_eta (@waiting W) v).
Definition set_running v : Scheduler W → Scheduler W := ltac:(record_set Scheduler_eta (@running W) v).
Definition set_finished_req_ids v : Scheduler W → Scheduler W :=
  ltac:(record_set Scheduler_eta (@finished_req_ids W) v).
Definition set_finished_req_ids_dict v : Scheduler W → Scheduler W :=
  ltac:(record_set Scheduler_eta (@finished_req_ids_dict W) v).
Definition set_prev_step v : Scheduler W → Scheduler W :=
  ltac:(record_set Scheduler_eta (@prev_step_scheduled_req_ids W) v).
Definition set_finished_recving v : Scheduler W → Scheduler W :=
  ltac:(record_set Scheduler_eta (@finished_recving_kv_req_ids W) v).
Definition set_failed_recving v : Scheduler W → Scheduler W :=
  ltac:(record_set Scheduler_eta (@failed_recving_kv_req_ids W) v).
Definition set_encoder v : Scheduler W → Scheduler W :=
  ltac:(record_set Scheduler_eta (@encoder_cache_manager W) v).
Definition set_kv v : Scheduler W → Scheduler W := ltac:(record_set Scheduler_eta (@kv_cache_manager W) v).
Definition set_connector_stats v : Scheduler W → Scheduler W :=
  ltac:(record_set Scheduler_eta (@connector_prefix_cache_stats W) v).
Definition set_world v : Scheduler W → Scheduler W := ltac:(record_set Scheduler_eta (@world W) v).

(** Calls of the components. *)
Definition kv {A} (m : M KVCacheManager A) : M (Scheduler W) A := zoom kv_cache_manager set_kv m.
Definition encoder {A} (m : M EncoderCacheManager A) : M (Scheduler W) A :=
  zoom encoder_cache_manager set_encoder m.
Definition on_world {A} (f : W → A * W) : M (Scheduler W) A :=
  zoom world set_world (λ w, (Ok (f w).1, (f w).2)).

(** Attribute access of a request object. *)
Definition request_of (r : ref) : M (Scheduler W) Request :=
  let* s := get in of_option AttributeError (store s !! r).
Definition update_request (r : ref) (f : Request → Request) : M (Scheduler W) unit :=
  let* rq := request_of r in
  modify (λ s, set_store (<[r := f rq]> (store s)) s).

(** [__lt__] of the objects that references refer to.  (References without an
    object, which do not occur, come first.) *)
Definition ref_lt s (a b : ref) : bool :=
  match store s !! a, store s !! b with
  | Some ra, Some rb => Request_lt ra rb
  | None, None => a <? b
  | None, Some _ => true
  | Some _, None => false
  end.

(** Calls of the queue [self.waiting]. *)
Definition waiting_prepend (r : ref) : M (Scheduler W) unit :=
  modify (λ s, set_waiting (prepend_request (ref_lt s) r (waiting s)) s).
Definition waiting_add (r : ref) : M (Scheduler W) unit :=
  modify (λ s, set_waiting (add_request (ref_lt s) r (waiting s)) s).
Definition waiting_pop : M (Scheduler W) ref :=
  let* s := get in
  let* p := of_res (pop_request (ref_lt s) (waiting s)) in
  modify (set_waiting p.2) ;;;
  ret p.1.
Definition waiting_peek : M (Scheduler W) ref :=
  let* s := get in of_res (peek_request (waiting s)).
Definition waiting_remove_requests (rs : list ref) : M (Scheduler W) unit :=
  modify (λ s, set_waiting (remove_requests (ref_lt s) rs (waiting s)) s).
End scheduler_state.
