(* ===== verification/SchedulerEncoder.v ===== *)
(** How the scheduler schedules and frees encoder inputs
    (vllm/v1/core/sched/scheduler.py: [_try_schedule_encoder_inputs],
    [_free_encoder_inputs]). *)

From S2P Require Import Prelude.
From S2P Require Import Request.
From S2P Require Import EncoderCache.
From S2P Require Import SchedulerState.

Section encoder_inputs.
Context {W : Type} (cfg : SchedulerConfig) (ec_connector : option (ECConnector W)).
(** The order in which Python iterates over a set of integers. *)
Context (set_order : gset Z → list Z).

(** The methods of the encoder cache manager, of the class the configuration
    chose. *)
Definition em_check_and_update_cache (request : Request) (i : Z) : M EncoderCacheManager bool :=
  if sc_is_encoder_decoder cfg then EncoderDecoder.check_and_update_cache request i
  else check_and_update_cache request i.
Definition em_can_allocate (request : Request) (i budget embeds : Z) : M EncoderCacheManager bool :=
  if sc_is_encoder_decoder cfg then EncoderDecoder.can_allocate request i budget embeds
  else can_allocate request i budget embeds.
Definition em_allocate (request : Request) (i : Z) : M EncoderCacheManager unit :=
  if sc_is_encoder_decoder cfg then EncoderDecoder.allocate request i else allocate request i.
Definition em_free_encoder_input (request : Request) (i : Z) : M EncoderCacheManager unit :=
  if sc_is_encoder_decoder cfg then EncoderDecoder.free_encoder_input request i
  else free_encoder_input request i.
Definition em_free (request : Request) : M EncoderCacheManager unit :=
  if sc_is_encoder_decoder cfg then EncoderDecoder.free request
  else encoder_free set_order request.
Definition em_get_cached_input_ids (request : Request) (m : EncoderCacheManager) : gset Z :=
  if sc_is_encoder_decoder cfg then EncoderDecoder.get_cached_input_ids request
  else get_cached_input_ids request m.

(** ** [_try_schedule_encoder_inputs] *)

(** The variables of the loop. *)
Record EncoderPlan := mkPlan {
  to_schedule : list Z;                    (** [encoder_inputs_to_schedule] *)
  plan_new_tokens : Z;                     (** [num_new_tokens] *)
  plan_budget : Z;                         (** [encoder_compute_budget] *)
  external_load : list Z;                  (** [external_load_encoder_input] *)
  plan_hashes : gset string;               (** [mm_hashes_to_schedule] *)
  plan_embeds : Z                          (** [num_embeds_to_schedule] *)
}.
Definition with_new_tokens (n : Z) (p : EncoderPlan) : EncoderPlan :=
  mkPlan (to_schedule p) n (plan_budget p) (external_load p) (plan_hashes p) (plan_embeds p).

Inductive loop_next := Continue (p : EncoderPlan) | Break (p : EncoderPlan).

(** An input that needs the encoder: allocation and accounting. *)
Definition admit_encoder_input (request : Request) (remote_cache_has_item : list bool)
    (num_computed_tokens shift_computed_tokens : Z) (i : Z) (f : MultiModalFeatureSpec)
    (num_encoder_embeds : Z) (p : EncoderPlan) : M EncoderCacheManager loop_next :=
  let start_pos := offset (mm_position f) in
  let num_encoder_tokens := mm_length (mm_position f) in
  if sc_disable_chunked_mm_input cfg && bool_decide (num_computed_tokens < start_pos)
     && bool_decide (num_computed_tokens + plan_new_tokens p < start_pos + num_encoder_tokens)
  then ret (Break (with_new_tokens (start_pos - num_computed_tokens) p)) else
  let* can := em_can_allocate request i (plan_budget p) (plan_embeds p) in
  if negb can then
    ret (Break (with_new_tokens
      (if decide (num_computed_tokens + shift_computed_tokens < start_pos)
       then start_pos - (num_computed_tokens + shift_computed_tokens) else 0) p)) else
  let start_idx_rel := Z.max 0 (num_computed_tokens - start_pos) in
  let end_idx_rel :=
    Z.min num_encoder_tokens (num_computed_tokens + plan_new_tokens p - start_pos) in
  let* range := of_res (get_embeds_indices_in_range (mm_position f) start_idx_rel end_idx_rel) in
  let '(curr_embeds_start, curr_embeds_end) := range in
  if decide (curr_embeds_end - curr_embeds_start = 0) then ret (Continue p) else
  let* remote :=
    match ec_connector with
    | None => ret false
    | Some _ => of_option IndexError (py_index remote_cache_has_item i)
    end in
  let hashes := plan_hashes p ∪ {[identifier f]} in
  let embeds := plan_embeds p + num_encoder_embeds in
  if remote : bool then
    ret (Continue (mkPlan (to_schedule p) (plan_new_tokens p) (plan_budget p)
      (external_load p ++ [i]) hashes embeds))
  else
    ret (Continue (mkPlan (to_schedule p ++ [i]) (plan_new_tokens p)
      (plan_budget p - num_encoder_embeds) (external_load p) hashes embeds)).

(** The body of the loop over [enumerate(mm_features)]. *)
Definition plan_encoder_input (request : Request) (remote_cache_has_item : list bool)
    (num_computed_tokens shift_computed_tokens : Z) (i : Z) (f : MultiModalFeatureSpec)
    (p : EncoderPlan) : M EncoderCacheManager loop_next :=
  let start_pos := offset (mm_position f) in
  let num_encoder_tokens := mm_length (mm_position f) in
  let* num_encoder_embeds := of_res (get_num_embeds (mm_position f)) in
  if decide (num_computed_tokens + plan_new_tokens p + shift_computed_tokens ≤ start_pos)
  then ret (Break p) else
  if sc_is_encoder_decoder cfg && bool_decide (0 < num_computed_tokens) then
    assert_ (bool_decide (start_pos = 0)) ;;;
    ret (Continue p)
  else if decide (start_pos + num_encoder_tokens ≤ num_computed_tokens) then ret (Continue p) else
  if negb (sc_is_encoder_decoder cfg) && bool_decide (identifier f ∈ plan_hashes p)
  then ret (Continue p) else
  let* is_cached :=
    if sc_is_encoder_decoder cfg then ret false else em_check_and_update_cache request i in
  if is_cached : bool then ret (Continue p) else
  admit_encoder_input request remote_cache_has_item num_computed_tokens shift_computed_tokens
    i f num_encoder_embeds p.

Fixpoint plan_encoder_inputs (request : Request) (remote_cache_has_item : list bool)
    (num_computed_tokens shift_computed_tokens : Z) (i : Z) (fs : list MultiModalFeatureSpec)
    (p : EncoderPlan) : M EncoderCacheManager EncoderPlan :=
  match fs with
  | [] => ret p
  | f :: fs =>
      let* next := plan_encoder_input request remote_cache_has_item
                     num_computed_tokens shift_computed_tokens i f p in
      match next with
      | Break p => ret p
      | Continue p =>
          plan_encoder_inputs request remote_cache_has_item
            num_computed_tokens shift_computed_tokens (i + 1) fs p
      end
  end.

(** The inputs to schedule, the new tokens, the remaining budget and the
    inputs that another instance has. *)
Definition _try_schedule_encoder_inputs (request : Request)
    (num_computed_tokens num_new_tokens encoder_compute_budget shift_computed_tokens : Z)
    : M (Scheduler W) (list Z * Z * Z * list Z) :=
  if bool_decide (num_new_tokens = 0) || negb (has_encoder_inputs request)
  then ret ([], num_new_tokens, encoder_compute_budget, [])
  else
    let* s := get in
    let remote_cache_has_item :=
      match ec_connector with Some c => has_caches c request (world s) | None => [] end in
    let* p := encoder (plan_encoder_inputs request remote_cache_has_item
      num_computed_tokens shift_computed_tokens 0 (mm_features request)
      (mkPlan [] num_new_tokens encoder_compute_budget [] ∅ 0)) in
    ret (to_schedule p, plan_new_tokens p, plan_budget p, external_load p).

(** [_free_encoder_inputs] *)
Definition _free_encoder_inputs (request : Request) : M (Scheduler W) unit :=
  encoder (
    let* cached_encoder_input_ids := gets (em_get_cached_input_ids request) in
    for_ (set_order cached_encoder_input_ids) (λ input_id,
      let* f := of_option IndexError (py_index (mm_features request) input_id) in
      if sc_is_encoder_decoder cfg && bool_decide (0 < num_computed_tokens request)
      then em_free_encoder_input request input_id
      else if decide (offset (mm_position f) + mm_length (mm_position f) ≤ num_computed_tokens request)
      then em_free_encoder_input request input_id
      else ret tt)).
End encoder_inputs.
