(* ===== verification/Schedule.v ===== *)
(** One scheduling step (vllm/v1/core/sched/scheduler.py: [schedule] and the
    methods it calls; [AsyncScheduler._update_after_schedule]).

    The local variables of [schedule] are the record [StepLocals]; its two
    loops are functions with fuel, each iteration one definition. *)

From S2P Require Import Prelude.
From S2P Require Import OrderedDict.
From S2P Require Import Request.
From S2P Require Import BlockPool.
From S2P Require Import KVCacheManager.
From S2P Require Import EncoderCache.
From S2P Require Import RequestQueue.
From S2P Require Import SchedulerState.
From S2P Require Import SchedulerEncoder.

(** ** Local variables *)

Record StepLocals := mkLocals {
  scheduled_new_reqs : list ref;
  scheduled_resumed_reqs : list ref;
  scheduled_running_reqs : list ref;
  preempted_reqs : list ref;
  req_to_new_blocks : list (string * KVCacheBlocks);
  num_scheduled_tokens : list (string * Z);
  token_budget : Z;
  scheduled_encoder_inputs : list (string * list Z);
  encoder_compute_budget : Z;
  scheduled_spec_decode_tokens : list (string * list Z);
  req_index : Z;
  scheduled_loras : gset Z;
  skipped_waiting_requests : AnyRequestQueue ref
}.

Definition StepLocals_eta (l : StepLocals) : StepLocals :=
  mkLocals (scheduled_new_reqs l) (scheduled_resumed_reqs l) (scheduled_running_reqs l)
    (preempted_reqs l) (req_to_new_blocks l) (num_scheduled_tokens l) (token_budget l)
    (scheduled_encoder_inputs l) (encoder_compute_budget l) (scheduled_spec_decode_tokens l)
    (req_index l) (scheduled_loras l) (skipped_waiting_requests l).
Definition set_new_reqs v : StepLocals → StepLocals := ltac:(record_set StepLocals_eta scheduled_new_reqs v).
Definition set_resumed_reqs v : StepLocals → StepLocals :=
  ltac:(record_set StepLocals_eta scheduled_resumed_reqs v).
Definition set_running_reqs v : StepLocals → StepLocals :=
  ltac:(record_set StepLocals_eta scheduled_running_reqs v).
Definition set_preempted_reqs v : StepLocals → StepLocals :=
  ltac:(record_set StepLocals_eta preempted_reqs v).
Definition set_req_to_new_blocks v : StepLocals → StepLocals :=
  ltac:(record_set StepLocals_eta req_to_new_blocks v).
Definition set_num_scheduled_tokens v : StepLocals → StepLocals :=
  ltac:(record_set StepLocals_eta num_scheduled_tokens v).
Definition set_token_budget v : StepLocals → StepLocals := ltac:(record_set StepLocals_eta token_budget v).
Definition set_scheduled_encoder_inputs v : StepLocals → StepLocals :=
  ltac:(record_set StepLocals_eta scheduled_encoder_inputs v).
Definition set_encoder_compute_budget v : StepLocals → StepLocals :=
  ltac:(record_set StepLocals_eta encoder_compute_budget v).
Definition set_scheduled_spec_decode_tokens v : StepLocals → StepLocals :=
  ltac:(record_set StepLocals_eta scheduled_spec_decode_tokens v).
Definition set_req_index v : StepLocals → StepLocals := ltac:(record_set StepLocals_eta req_index v).
Definition set_scheduled_loras v : StepLocals → StepLocals :=
  ltac:(record_set StepLocals_eta scheduled_loras v).
Definition set_skipped v : StepLocals → StepLocals :=
  ltac:(record_set StepLocals_eta skipped_waiting_requests v).

Record Step (W : Type) := mkStep {
  st_sched : Scheduler W;
  st_loc : StepLocals
}.
Arguments mkStep {W}.
Arguments st_sched {W} _.
Arguments st_loc {W} _.

(** Whether a loop goes on. *)
Inductive next := Again | Stop.

Section schedule.
Context {W : Type} (cfg : SchedulerConfig).
Context (connector : option (KVConnector W)) (ec_connector : option (ECConnector W)).
Context (set_order : gset Z → list Z).
(** The time of the step, and whether the grammar of a request is compiled. *)
Context (scheduled_timestamp : Z) (grammar_ready : Request → bool).

Abbreviation step := (Step W).

Definition on_sched {A} (m : M (Scheduler W) A) : M step A :=
  zoom st_sched (λ s st, mkStep s (st_loc st)) m.
Definition local {A} (f : StepLocals → A) : M step A := gets (λ st, f (st_loc st)).
Definition set_local (f : StepLocals → StepLocals) : M step unit :=
  modify (λ st, mkStep (st_sched st) (f (st_loc st))).

(** ** Preemption *)

Definition _preempt_request (r : ref) (timestamp : Z) : M (Scheduler W) unit :=
  let* request := request_of r in
  assert_ (bool_decide (status request = RUNNING)) ;;;
  kv (kv_free request) ;;;
  encoder (em_free cfg set_order request) ;;;
  update_request r (λ rq, set_num_preemptions (num_preemptions rq + 1)
    (set_spec_token_ids [] (set_num_computed_tokens 0 (set_status PREEMPTED rq)))) ;;;
  (if sc_log_stats cfg then update_request r (record_event PREEMPTED_EVENT timestamp) else ret tt) ;;;
  waiting_prepend r.

(** [max(self.running, key=lambda r: (r.priority, r.arrival_time))]: the first
    of the largest. *)
Definition preempt_key_lt (a b : Request) : bool :=
  (priority a <? priority b)
  || (bool_decide (priority a = priority b) && (arrival_time a <? arrival_time b)).
Fixpoint max_by_key (best : ref) (rs : list ref) : M (Scheduler W) ref :=
  match rs with
  | [] => ret best
  | r :: rs =>
      let* rb := request_of best in
      let* rr := request_of r in
      max_by_key (if preempt_key_lt rb rr then r else best) rs
  end.

(** The preempted request was scheduled in this step: it is unscheduled. *)
Definition unschedule (r : ref) : M step unit :=
  let* request := on_sched (request_of r) in
  let id := request_id request in
  set_local (λ l, set_running_reqs (list_remove_first r (scheduled_running_reqs l)) l) ;;;
  let* l := local (λ l, l) in
  let* n := of_option KeyError (od_get id (num_scheduled_tokens l)) in
  set_local (λ l, set_token_budget (token_budget l + n) l) ;;;
  let* _ := of_option KeyError (od_get id (req_to_new_blocks l)) in
  set_local (λ l, set_req_to_new_blocks (od_del id (req_to_new_blocks l)) l) ;;;
  set_local (λ l, set_num_scheduled_tokens (od_del id (num_scheduled_tokens l)) l) ;;;
  set_local (λ l, set_scheduled_spec_decode_tokens (od_del id (scheduled_spec_decode_tokens l)) l) ;;;
  set_local (λ l, set_scheduled_encoder_inputs (od_del id (scheduled_encoder_inputs l)) l) ;;;
  (match od_get id (scheduled_encoder_inputs l) with
   | None | Some [] => ret tt
   | Some inputs =>
       let* ns := mapM (λ i, of_res (get_num_encoder_embeds request i)) inputs in
       set_local (λ l, set_encoder_compute_budget (encoder_compute_budget l + foldr Z.add 0 ns) l)
   end) ;;;
  set_local (λ l, set_req_index (req_index l - 1) l).

(** The request to preempt, removed from [running]. *)
Definition pick_preempted : M step ref :=
  let* s := on_sched get in
  match sc_policy cfg with
  | PRIORITY =>
      match running s with
      | [] => raise ValueError
      | r0 :: rs =>
          let* r := on_sched (max_by_key r0 rs) in
          on_sched (modify (set_running (list_remove_first r (running s)))) ;;;
          let* scheduled := local scheduled_running_reqs in
          (if decide (r ∈ scheduled) then unschedule r else ret tt) ;;;
          ret r
      end
  | FCFS =>
      let* r := of_option IndexError (last (running s)) in
      on_sched (modify (set_running (removelast (running s)))) ;;;
      ret r
  end.

(** The [while True] loop that allocates slots, preempting until it succeeds or
    the request itself is preempted.  Every iteration but the last shortens
    [running]. *)
Fixpoint allocate_or_preempt (fuel : nat) (r : ref) (num_new_tokens : Z)
    : M step (option KVCacheBlocks) :=
  match fuel with
  | O => raise OutOfFuel
  | S fuel =>
      let* request := on_sched (request_of r) in
      let* new_blocks := on_sched (kv (allocate_slots request num_new_tokens 0 None
        (sc_num_lookahead_tokens cfg) 0 false 0)) in
      match new_blocks with
      | Some b => ret (Some b)
      | None =>
          let* preempted_req := pick_preempted in
          on_sched (_preempt_request preempted_req scheduled_timestamp) ;;;
          set_local (λ l, set_preempted_reqs (preempted_reqs l ++ [preempted_req]) l) ;;;
          if decide (preempted_req = r) then ret None
          else allocate_or_preempt fuel r num_new_tokens
      end
  end.

(** ** Running requests *)

(** The previous step has certainly reached [max_tokens]. *)
Definition reached_max_tokens (request : Request) : bool :=
  bool_decide (0 < num_output_placeholders request)
  && bool_decide (num_prompt_tokens request + max_tokens request
       ≤ num_computed_tokens request + 2 - num_output_placeholders request).

Definition limit_prefill (n : Z) : Z :=
  let threshold := sc_long_prefill_token_threshold cfg in
  if decide (0 < threshold ∧ threshold < n) then threshold else n.

(** The number of tokens to schedule, before encoder inputs are considered. *)
Definition running_new_tokens (request : Request) (budget : Z) : Z :=
  let n := limit_prefill (num_tokens_with_spec request + num_output_placeholders request
             - num_computed_tokens request) in
  Z.min (Z.min n budget) (sc_max_model_len cfg - 1 - num_computed_tokens request).

Definition shift_computed_tokens : Z := if sc_use_eagle cfg then 1 else 0.

(** The encoder inputs, the tokens left to schedule, the encoder budget left
    and the inputs to load from elsewhere. *)
Definition schedule_encoder (request : Request) (computed n : Z)
    : M step (list Z * Z * Z * list Z) :=
  let* budget := local encoder_compute_budget in
  if has_encoder_inputs request then
    on_sched (_try_schedule_encoder_inputs cfg ec_connector request computed n budget
                shift_computed_tokens)
  else ret ([], n, budget, []).

(** Allocation in the encoder cache of the scheduled and of the external inputs. *)
Definition allocate_encoder (r : ref) (inputs : list Z) (budget : Z) (external : list Z)
    : M step unit :=
  let* request := on_sched (request_of r) in
  (match inputs with
   | [] => ret tt
   | _ =>
       set_local (λ l, set_scheduled_encoder_inputs
         (od_set (request_id request) inputs (scheduled_encoder_inputs l)) l) ;;;
       for_ inputs (λ i, on_sched (encoder (em_allocate cfg request i))) ;;;
       set_local (set_encoder_compute_budget budget)
   end) ;;;
  for_ external (λ i,
    on_sched (encoder (em_allocate cfg request i)) ;;;
    match ec_connector with
    | None => ret tt
    | Some c => on_sched (on_world (λ w, (tt, ec_update_state_after_alloc c request i w)))
    end).

(** The speculative tokens that fit into the scheduled ones are taken over. *)
Definition schedule_spec_tokens (r : ref) (n : Z) : M step unit :=
  let* request := on_sched (request_of r) in
  match spec_token_ids request with
  | [] => ret tt
  | _ =>
      let num_scheduled_spec_tokens :=
        n + num_computed_tokens request - num_tokens request - num_output_placeholders request in
      (if decide (0 < num_scheduled_spec_tokens) then
         set_local (λ l, set_scheduled_spec_decode_tokens
           (od_set (request_id request)
              (py_upto (spec_token_ids request) num_scheduled_spec_tokens)
              (scheduled_spec_decode_tokens l)) l)
       else ret tt) ;;;
      on_sched (update_request r (set_spec_token_ids []))
  end.

(** [req_index += 1] *)
Definition next_request : M step next :=
  set_local (λ l, set_req_index (req_index l + 1) l) ;;; ret Again.

(** The request got its slots. *)
Definition commit_running (r : ref) (n : Z) (new_blocks : KVCacheBlocks) : M step unit :=
  let* request := on_sched (request_of r) in
  let id := request_id request in
  set_local (λ l, set_running_reqs (scheduled_running_reqs l ++ [r]) l) ;;;
  set_local (λ l, set_req_to_new_blocks (od_set id new_blocks (req_to_new_blocks l)) l) ;;;
  set_local (λ l, set_num_scheduled_tokens (od_set id n (num_scheduled_tokens l)) l) ;;;
  set_local (λ l, set_token_budget (token_budget l - n) l).

(** One iteration of the loop over [running]. *)
Definition schedule_running_one : M step next :=
  let* s := on_sched get in
  let* l := local (λ l, l) in
  let* r := of_option IndexError (py_index (running s) (req_index l)) in
  let* request := on_sched (request_of r) in
  if reached_max_tokens request then next_request else
  let* plan := schedule_encoder request (num_computed_tokens request)
                 (running_new_tokens request (token_budget l)) in
  let '(inputs, n, budget, external) := plan in
  if decide (n = 0) then next_request else
  let* new_blocks := allocate_or_preempt (S (length (running s))) r n in
  match new_blocks with
  | None => ret Stop
  | Some new_blocks =>
      commit_running r n new_blocks ;;;
      let* again := next_request in
      schedule_spec_tokens r n ;;;
      allocate_encoder r inputs budget external ;;;
      ret again
  end.

(** [while req_index < len(self.running) and token_budget > 0].  Every
    iteration brings [req_index] closer to the length of [running]. *)
Fixpoint schedule_running (fuel : nat) : M step unit :=
  let* s := on_sched get in
  let* l := local (λ l, l) in
  if bool_decide (req_index l < len (running s)) && bool_decide (0 < token_budget l) then
    match fuel with
    | O => raise OutOfFuel
    | S fuel =>
        let* again := schedule_running_one in
        match again with
        | Again => schedule_running fuel
        | Stop => ret tt
        end
    end
  else ret tt.

(** The LoRAs of the scheduled running requests. *)
Definition collect_loras : M step unit :=
  match sc_max_loras cfg with
  | None => ret tt
  | Some max_loras =>
      let* rs := local scheduled_running_reqs in
      let* requests := mapM (λ r, on_sched (request_of r)) rs in
      let ids := omap (λ rq, lora ← lora_request rq;
                             if decide (0 < lora_int_id lora) then Some (lora_int_id lora) else None)
                   requests in
      let loras : gset Z := list_to_set ids in
      set_local (set_scheduled_loras loras) ;;;
      assert_ (bool_decide (Z.of_nat (size loras) ≤ max_loras))
  end.

(** ** Waiting requests *)

(** [self.waiting.pop_request()] and [skipped_waiting_requests.prepend_request] *)
Definition skip_waiting (r : ref) : M step unit :=
  let* _ := on_sched waiting_pop in
  let* s := on_sched get in
  set_local (λ l, set_skipped (prepend_request (ref_lt s) r (skipped_waiting_requests l)) l).

(** [_update_waiting_for_remote_kv] *)
Definition _update_waiting_for_remote_kv (r : ref) : M (Scheduler W) bool :=
  assert_ (bool_decide (is_Some connector)) ;;;
  let* s := get in
  let* request := request_of r in
  let id := request_id request in
  if negb (bool_decide (id ∈ finished_recving_kv_req_ids s)) then ret false else
  (if decide (id ∈ failed_recving_kv_req_ids s) then
     (if decide (num_computed_tokens request ≠ 0)
      then kv (kv_cache_blocks request (num_computed_tokens request))
      else kv (kv_free request)) ;;;
     modify (λ s, set_failed_recving (failed_recving_kv_req_ids s ∖ {[id]}) s)
   else
     let* groups := kv (kv_get_block_ids id) in
     let* block_ids := match groups with [b] => ret b | _ => raise ValueError end in
     let n := Z.min (len block_ids * sc_block_size cfg) (num_tokens request) in
     let n := if decide (n = num_tokens request) then n - 1 else n in
     kv (kv_cache_blocks request n) ;;;
     update_request r (set_num_computed_tokens n)) ;;;
  modify (λ s, set_finished_recving (finished_recving_kv_req_ids s ∖ {[id]}) s) ;;;
  ret true.

(** Whether the first waiting request can be considered in this step. *)
Definition waiting_ready (r : ref) : M step bool :=
  let* request := on_sched (request_of r) in
  let* remote_ready :=
    if decide (status request = WAITING_FOR_REMOTE_KVS) then
      let* is_ready := on_sched (_update_waiting_for_remote_kv r) in
      if is_ready : bool then
        on_sched (update_request r (λ rq, set_status
          (if decide (num_preemptions rq ≠ 0) then PREEMPTED else WAITING) rq)) ;;; ret true
      else ret false
    else ret true in
  if negb remote_ready then ret false else
  let* request := on_sched (request_of r) in
  let* fsm_ready :=
    if decide (status request = WAITING_FOR_FSM) then
      if use_structured_output request && grammar_ready request then
        on_sched (update_request r (set_status WAITING)) ;;; ret true
      else ret false
    else ret true in
  if negb fsm_ready then ret false else
  let* loras := local scheduled_loras in
  match sc_max_loras cfg, lora_request request with
  | Some max_loras, Some lora =>
      ret (negb (bool_decide (Z.of_nat (size loras) = max_loras)
                 && negb (bool_decide (lora_int_id lora ∈ loras))))
  | _, _ => ret true
  end.

(** The hits in the local cache and in the connector's. *)
Record CacheHits := mkHits {
  new_computed_blocks : KVCacheBlocks;
  num_new_local_computed_tokens : Z;
  hits_external : Z;                       (** [num_external_computed_tokens] *)
  load_kv_async : bool;
  hits_computed : Z                        (** [num_computed_tokens] *)
}.

(** [None]: the connector cannot tell yet. *)
Definition waiting_hits (r : ref) : M (Scheduler W) (option CacheHits) :=
  let* request := request_of r in
  if decide (num_computed_tokens request = 0) then
    let* hit := kv (get_computed_blocks request) in
    let '(blocks, n) := hit in
    match connector with
    | None => ret (Some (mkHits blocks n 0 false n))
    | Some c =>
        let* matched := on_world (get_num_new_matched_tokens c request n) in
        match matched with
        | (None, _) => ret None
        | (Some ext_tokens, async) =>
            update_request r (set_num_external_computed_tokens ext_tokens) ;;;
            ret (Some (mkHits blocks n ext_tokens async (n + ext_tokens)))
        end
    end
  else
    let* m := gets kv_cache_manager in
    ret (Some (mkHits (empty_kv_cache_blocks m) 0 0 false (num_computed_tokens request))).

(** The tokens and encoder inputs to schedule; [None]: scheduling stops here. *)
Definition waiting_tokens (r : ref) (h : CacheHits) : M step (option (list Z * Z * Z * list Z)) :=
  let* l := local (λ l, l) in
  if load_kv_async h then
    assert_ (bool_decide (0 < hits_external h)) ;;;
    ret (Some ([], 0, encoder_compute_budget l, []))
  else
    let* request := on_sched (request_of r) in
    let n := limit_prefill (num_tokens request - hits_computed h) in
    if negb (sc_enable_chunked_prefill cfg) && bool_decide (token_budget l < n) then ret None else
    let n := Z.min n (token_budget l) in
    assert_ (bool_decide (0 < n)) ;;;
    let* plan := schedule_encoder request (hits_computed h) n in
    let '(inputs, n, budget, external) := plan in
    if has_encoder_inputs request && bool_decide (n = 0) then ret None
    else ret (Some (inputs, n, budget, external)).

(** [_update_connector_prefix_cache_stats] *)
Definition _update_connector_prefix_cache_stats (request : Request) : M (Scheduler W) unit :=
  modify (λ s, set_connector_stats
    (record (num_tokens request) (num_external_computed_tokens request)
       (bool_decide (0 < num_preemptions request)) <$> connector_prefix_cache_stats s) s).

(** The request starts to run. *)
Definition start_running (r : ref) (h : CacheHits) (n : Z) : M step unit :=
  let* request := on_sched (request_of r) in
  on_sched (_update_connector_prefix_cache_stats request) ;;;
  on_sched (modify (λ s, set_running (running s ++ [r]) s)) ;;;
  (if sc_log_stats cfg then on_sched (update_request r (record_event SCHEDULED scheduled_timestamp))
   else ret tt) ;;;
  (match status request with
   | WAITING => set_local (λ l, set_new_reqs (scheduled_new_reqs l ++ [r]) l)
   | PREEMPTED => set_local (λ l, set_resumed_reqs (scheduled_resumed_reqs l ++ [r]) l)
   | _ => raise RuntimeError
   end) ;;;
  (match sc_max_loras cfg, lora_request request with
   | Some _, Some lora =>
       set_local (λ l, set_scheduled_loras (scheduled_loras l ∪ {[lora_int_id lora]}) l)
   | _, _ => ret tt
   end) ;;;
  let id := request_id request in
  let* s := on_sched get in
  set_local (λ l, set_req_to_new_blocks
    (od_set id (get_blocks id (kv_cache_manager s)) (req_to_new_blocks l)) l) ;;;
  set_local (λ l, set_num_scheduled_tokens (od_set id n (num_scheduled_tokens l)) l) ;;;
  set_local (λ l, set_token_budget (token_budget l - n) l) ;;;
  on_sched (update_request r (λ rq,
    let rq := set_num_computed_tokens (hits_computed h) (set_status RUNNING rq) in
    if decide (num_cached_tokens rq < 0) then set_num_cached_tokens (hits_computed h) rq else rq)).

(** The slots of a waiting request. *)
Definition allocate_waiting (r : ref) (h : CacheHits) (n : Z) : M (Scheduler W) (option KVCacheBlocks) :=
  let* request := request_of r in
  let lookahead := if decide (num_computed_tokens request = 0) then 0
                   else sc_num_lookahead_tokens cfg in
  let num_encoder_tokens :=
    if sc_is_encoder_decoder cfg && has_encoder_inputs request
    then sc_num_encoder_max_input_tokens cfg else 0 in
  kv (allocate_slots request n (num_new_local_computed_tokens h) (Some (new_computed_blocks h))
        lookahead (hits_external h) (load_kv_async h) num_encoder_tokens).

(** The request leaves the queue: it runs, or waits for its remote blocks. *)
Definition admit_waiting (r : ref) (h : CacheHits) (plan : list Z * Z * Z * list Z)
    : M step next :=
  let '(inputs, n, budget, external) := plan in
  let* request := on_sched (request_of r) in
  (match connector with
   | None => ret tt
   | Some c =>
       let* m := on_sched (gets kv_cache_manager) in
       on_sched (on_world (λ w, (tt,
         update_state_after_alloc c request (get_blocks (request_id request) m) (hits_external h) w)))
   end) ;;;
  let* r := on_sched waiting_pop in
  if load_kv_async h then
    let* s := on_sched get in
    set_local (λ l, set_skipped (prepend_request (ref_lt s) r (skipped_waiting_requests l)) l) ;;;
    on_sched (update_request r (set_status WAITING_FOR_REMOTE_KVS)) ;;;
    ret Again
  else
    start_running r h n ;;;
    allocate_encoder r inputs budget external ;;;
    ret Again.

(** One iteration of the loop over [waiting]. *)
Definition schedule_waiting_one : M step next :=
  let* s := on_sched get in
  if decide (len (running s) = sc_max_num_running_reqs cfg) then ret Stop else
  let* r := on_sched waiting_peek in
  let* ready := waiting_ready r in
  if negb ready then skip_waiting r ;;; ret Again else
  let* hits := on_sched (waiting_hits r) in
  match hits with
  | None => skip_waiting r ;;; ret Again
  | Some h =>
      let* plan := waiting_tokens r h in
      match plan with
      | None => ret Stop
      | Some plan =>
          let* new_blocks := on_sched (allocate_waiting r h plan.1.1.2) in
          match new_blocks with
          | None =>
              let* request := on_sched (request_of r) in
              (if has_encoder_inputs request
               then on_sched (encoder (em_free cfg set_order request)) else ret tt) ;;;
              ret Stop
          | Some _ => admit_waiting r h plan
          end
      end
  end.

(** [while self.waiting and token_budget > 0].  Every iteration that goes on
    removes a request from [waiting]. *)
Fixpoint schedule_waiting (fuel : nat) : M step unit :=
  let* s := on_sched get in
  let* budget := local token_budget in
  if queue_bool (waiting s) && bool_decide (0 < budget) then
    match fuel with
    | O => raise OutOfFuel
    | S fuel =>
        let* again := schedule_waiting_one in
        match again with
        | Again => schedule_waiting fuel
        | Stop => ret tt
        end
    end
  else ret tt.

(** The skipped requests go back to the head of the waiting queue. *)
Definition put_back_skipped : M step unit :=
  let* skipped := local skipped_waiting_requests in
  if queue_bool skipped then
    on_sched (modify (λ s, set_waiting (prepend_requests (ref_lt s) skipped (waiting s)) s))
  else ret tt.

(** ** The output of the step *)

Definition sum_Z (l : list Z) : Z := foldr Z.add 0 l.

Definition check_constraints : M step unit :=
  let* s := on_sched get in
  let* l := local (λ l, l) in
  assert_ (bool_decide (sum_Z (od_values (num_scheduled_tokens l)) ≤ sc_max_num_scheduled_tokens cfg)) ;;;
  assert_ (bool_decide (0 ≤ token_budget l)) ;;;
  assert_ (bool_decide (len (running s) ≤ sc_max_num_running_reqs cfg)) ;;;
  assert_ (bool_decide (len (scheduled_new_reqs l) + len (scheduled_resumed_reqs l)
    + len (scheduled_running_reqs l) ≤ len (running s))).

Definition common_prefix_blocks : M (Scheduler W) (list Z) :=
  let* s := get in
  match running s with
  | [] => ret (replicate (num_kv_cache_groups (kv_cache_manager s)) 0)
  | r :: _ =>
      let* request := request_of r in
      kv (kv_get_num_common_prefix_blocks (request_id request))
  end.

(** [req_to_new_blocks\[req_id\].get_block_ids(allow_none)] *)
Definition new_block_ids_of (allow_none : bool) (id : string) : M step (option (list (list Z))) :=
  let* blocks := local req_to_new_blocks in
  let* b := of_option KeyError (od_get id blocks) in
  on_sched (kv (in_block_pool (get_block_ids allow_none b))).

(** [NewRequestData.from_request] *)
Definition new_request_data (r : ref) : M step NewRequestData :=
  let* request := on_sched (request_of r) in
  let* ids := new_block_ids_of false (request_id request) in
  let* ids := of_option TypeError ids in
  ret (mkNewRequest request ids
         (if sc_use_v2_model_runner cfg then Some (_all_token_ids request) else None)).

(** The fields that [_make_cached_request_data] appends for one request. *)
Record CachedRow := mkRow {
  row_id : string;
  row_resumed : bool;
  row_new_tokens : list (list Z);
  row_all_tokens : list (string * list Z);
  row_block_ids : option (list (list Z));
  row_computed : Z;
  row_outputs : Z
}.
Definition cached_request_row (resumed : bool) (r : ref) : M step CachedRow :=
  let* s := on_sched get in
  let* l := local (λ l, l) in
  let* req := on_sched (request_of r) in
  let req_id := request_id req in
  let* token_ids :=
    if sc_use_pp cfg then
      let* n := of_option KeyError (od_get req_id (num_scheduled_tokens l)) in
      let num_tokens := n - len (default [] (od_get req_id (scheduled_spec_decode_tokens l))) in
      ret [py_slice (_all_token_ids req) (num_computed_tokens req)
             (num_computed_tokens req + num_tokens)]
    else ret [] in
  let scheduled_in_prev_step := bool_decide (req_id ∈ prev_step_scheduled_req_ids s) in
  (if resumed then assert_ (negb scheduled_in_prev_step) else ret tt) ;;;
  let* ids := new_block_ids_of true req_id in
  ret (mkRow req_id resumed token_ids
         (if scheduled_in_prev_step then [] else [(req_id, _all_token_ids req)])
         ids (num_computed_tokens req) (num_output_tokens req + num_output_placeholders req)).
(** The assignments [all_token_ids\[req_id\] = ...] in order. *)
Definition od_set_all {V} (rows : list (string * V)) : list (string * V) :=
  foldl (λ d p, od_set p.1 p.2 d) [] rows.
Definition _make_cached_request_data (running_reqs resumed_reqs : list ref)
    : M step CachedRequestData :=
  let* rows1 := mapM (cached_request_row false) running_reqs in
  let* rows2 := mapM (cached_request_row true) resumed_reqs in
  let rows := rows1 ++ rows2 in
  ret (mkCachedRequests (map row_id rows)
         (list_to_set (map row_id rows2))
         (rows ≫= row_new_tokens)
         (od_set_all (rows ≫= row_all_tokens))
         (map row_block_ids rows) (map row_computed rows) (map row_outputs rows)).

Definition build_output : M step SchedulerOutput :=
  let* prefix := on_sched common_prefix_blocks in
  let* l := local (λ l, l) in
  let '(new, resumed) :=
    if sc_use_v2_model_runner cfg then (scheduled_new_reqs l ++ scheduled_resumed_reqs l, [])
    else (scheduled_new_reqs l, scheduled_resumed_reqs l) in
  let* new_reqs_data := mapM new_request_data new in
  let* cached_reqs_data := _make_cached_request_data (scheduled_running_reqs l) resumed in
  on_sched (modify (set_prev_step (list_to_set (od_keys (num_scheduled_tokens l))))) ;;;
  let* s := on_sched get in
  let* preempted := mapM (λ r, on_sched (request_of r)) (preempted_reqs l) in
  let* freed := on_sched (encoder get_freed_mm_hashes) in
  ret (mkOutput new_reqs_data cached_reqs_data (num_scheduled_tokens l)
         (sum_Z (od_values (num_scheduled_tokens l))) (scheduled_spec_decode_tokens l)
         (scheduled_encoder_inputs l) prefix (list_to_set (map request_id preempted))
         (finished_req_ids s) freed false false None None None).

(** The connectors add their metadata. *)
Definition add_connector_meta (o : SchedulerOutput) : M (Scheduler W) SchedulerOutput :=
  let* o :=
    match connector with
    | None => ret o
    | Some c =>
        let* meta := on_world (build_connector_meta c o) in
        ret (set_so_kv_connector_metadata (Some meta) o)
    end in
  match ec_connector with
  | None => ret o
  | Some c =>
      let* meta := on_world (ec_build_connector_meta c o) in
      ret (set_so_ec_connector_metadata (Some meta) o)
  end.

(** ** After scheduling *)

(** [self.requests\[req_id\]] *)
Definition lookup_request (req_id : string) : M (Scheduler W) ref :=
  let* s := get in of_option KeyError (sched_requests s !! req_id).

Definition base_update_after_schedule (o : SchedulerOutput) : M (Scheduler W) unit :=
  for_ (so_num_scheduled_tokens o) (λ '(req_id, num_scheduled_token),
    let* r := lookup_request req_id in
    update_request r (λ rq, set_num_computed_tokens (num_computed_tokens rq + num_scheduled_token) rq) ;;;
    let* request := request_of r in
    if has_encoder_inputs request then _free_encoder_inputs cfg set_order request else ret tt) ;;;
  modify (set_finished_req_ids ∅).

(** The loop of [AsyncScheduler]: output placeholders are added. *)
Fixpoint add_placeholders (o : SchedulerOutput) (ids : list string) (has pending : bool)
    : M (Scheduler W) (bool * bool) :=
  match ids with
  | [] => ret (has, pending)
  | req_id :: ids =>
      let* r := lookup_request req_id in
      let* request := request_of r in
      let has := has || use_structured_output request in
      let pending := pending || (use_structured_output request
                                 && bool_decide (0 < num_output_placeholders request)) in
      let cur_num_spec_tokens := len (default [] (od_get req_id (so_spec_decode_tokens o))) in
      (if decide (num_computed_tokens request
                  = num_tokens request + num_output_placeholders request + cur_num_spec_tokens) then
         update_request r (λ rq, set_spec_token_ids
           (replicate (Z.to_nat (sc_num_spec_tokens cfg)) (-1))
           (set_num_output_placeholders (num_output_placeholders rq + (1 + cur_num_spec_tokens)) rq))
       else ret tt) ;;;
      add_placeholders o ids has pending
  end.

Definition _update_after_schedule (o : SchedulerOutput) : M (Scheduler W) SchedulerOutput :=
  base_update_after_schedule o ;;;
  if sc_async cfg then
    let* flags := add_placeholders o (od_keys (so_num_scheduled_tokens o)) false false in
    ret (set_so_pending_structured_output flags.2 (set_so_has_structured_output flags.1 o))
  else ret o.

(** ** [schedule] *)

Definition init_locals : StepLocals :=
  mkLocals [] [] [] [] [] [] (sc_max_num_scheduled_tokens cfg) []
    (sc_max_num_encoder_input_tokens cfg) [] 0 ∅ (create_request_queue (sc_policy cfg)).

Definition schedule_step : M step SchedulerOutput :=
  let* s := on_sched get in
  schedule_running (S (length (running s))) ;;;
  collect_loras ;;;
  let* preempted := local preempted_reqs in
  (if bool_decide (preempted = []) then
     let* s := on_sched get in
     schedule_waiting (S (Z.to_nat (queue_len (waiting s))))
   else ret tt) ;;;
  put_back_skipped ;;;
  check_constraints ;;;
  let* o := build_output in
  let* o := on_sched (add_connector_meta o) in
  on_sched (_update_after_schedule o).

Definition schedule : M (Scheduler W) SchedulerOutput :=
  λ s, let '(r, st) := schedule_step (mkStep s init_locals) in (r, st_sched st).
End schedule.
