(* ===== verification/SchedulerInvariant.v ===== *)
(** The invariant of the scheduler for text requests, and the effect of its
    elementary operations.

    A request of the scheduler is running or waiting; running requests hold
    slots for their computed tokens, waiting ones hold nothing.  The KV cache
    manager is used through the interface [KVService] only. *)

From S2P Require Import Prelude.
From S2P Require Import OrderedDict.
From S2P Require Import Request.
From S2P Require Import BlockPool.
From S2P Require Import KVCacheManager.
From S2P Require Import KVService.
From S2P Require Import EncoderCache.
From S2P Require Import HeapQueue.
From S2P Require Import RequestQueue.
From S2P Require Import RequestQueueSpec.
From S2P Require Import SchedulerState.
From S2P Require Import SchedulerEncoder.
From S2P Require Import Schedule.

(** ** Requests *)

(** [rq'] is the same request, in another state of its execution. *)
Record same_request (rq rq' : Request) : Prop := {
  sq_id : request_id rq' = request_id rq;
  sq_obj : obj_id rq' = obj_id rq;
  sq_priority : priority rq' = priority rq;
  sq_arrival : arrival_time rq' = arrival_time rq;
  sq_mm : mm_features rq' = mm_features rq;
  sq_tokens : _all_token_ids rq' = _all_token_ids rq;
  sq_hashes : block_hashes rq' = block_hashes rq;
  sq_output : _output_token_ids rq' = _output_token_ids rq;
  sq_sampling : sampling_params rq' = sampling_params rq;
  sq_pooling : pooling_params rq' = pooling_params rq;
  sq_hasher : has_block_hasher rq' = has_block_hasher rq;
  sq_client : client_index rq' = client_index rq
}.

#[export] Instance same_request_preorder : PreOrder same_request.
Proof. split; [done|]. intros a b c [] []. split; congruence. Qed.

(** [rq'] has the same place in the order of requests, and the same client. *)
Record same_order (rq rq' : Request) : Prop := {
  sd_id : request_id rq' = request_id rq;
  sd_obj : obj_id rq' = obj_id rq;
  sd_priority : priority rq' = priority rq;
  sd_arrival : arrival_time rq' = arrival_time rq;
  sd_client : client_index rq' = client_index rq
}.

Lemma same_request_order a b : same_request a b → same_order a b.
Proof. by intros []. Qed.

Lemma same_order_lt a a' b b' :
  same_order a a' → same_order b b' → Request_lt a' b' = Request_lt a b.
Proof.
  intros [A1 A2 A3 A4 _] [B1 B2 B3 B4 _]. unfold Request_lt.
  by rewrite A1, A2, A3, A4, B1, B2, B3, B4.
Qed.

(** A request for text without multi-modal inputs that fits the model, and whose
    minimum number of output tokens fits too. *)
Record text_request (hbs max_len : Z) (rq : Request) : Prop := {
  tr_mm : mm_features rq = [];
  tr_hashed : hashed hbs rq;
  tr_len : 0 < num_tokens rq < max_len;
  tr_hasher : has_block_hasher rq = true;
  tr_pooling : pooling_params rq = None;
  tr_sampling : ∃ sp, sampling_params rq = Some sp ∧
    num_tokens rq - num_output_tokens rq + min_tokens sp ≤ max_len
}.

Lemma text_request_same hbs max_len rq rq' :
  same_request rq rq' → text_request hbs max_len rq → text_request hbs max_len rq'.
Proof.
  intros [] [H1 [H2 H3] H4 H5 H6 (sp & H7 & H8)].
  unfold num_tokens, num_output_tokens in *. split; try congruence.
  - split; unfold num_tokens; rewrite ?sq_tokens0; congruence.
  - unfold num_tokens. by rewrite sq_tokens0.
  - exists sp. unfold num_tokens, num_output_tokens. by rewrite sq_sampling0, sq_tokens0, sq_output0.
Qed.

Lemma text_no_inputs hbs max_len rq : text_request hbs max_len rq → has_encoder_inputs rq = false.
Proof. intros [H _ _ _ _ _]. unfold has_encoder_inputs, num_encoder_inputs. by rewrite H. Qed.

(** ** The store of requests *)

Section store.
Context {W : Type}.
Implicit Types (s : Scheduler W) (st : gmap ref Request).

(** The objects are the same, in other states. *)
Definition store_same st st' : Prop := ∀ r, option_Forall2 same_request (st !! r) (st' !! r).

#[export] Instance store_same_preorder : PreOrder store_same.
Proof.
  split.
  - intros st r. destruct (st !! r); by constructor.
  - intros a b c H1 H2 r. specialize (H1 r). specialize (H2 r).
    destruct H1; inversion H2; constructor. by etrans.
Qed.

Lemma store_same_insert st r rq rq' :
  st !! r = Some rq → same_request rq rq' → store_same st (<[r := rq']> st).
Proof.
  intros Hr Hs x. destruct (decide (r = x)) as [<-|Hx].
  - rewrite Hr, lookup_insert_eq. by constructor.
  - rewrite lookup_insert_ne by done. destruct (st !! x); by constructor.
Qed.

Lemma ref_lt_same s s' a b :
  option_Forall2 same_order (store s !! a) (store s' !! a) →
  option_Forall2 same_order (store s !! b) (store s' !! b) → ref_lt s' a b = ref_lt s a b.
Proof.
  intros Ha Hb. unfold ref_lt. destruct Ha; inversion Hb; try done. by apply same_order_lt.
Qed.

#[export] Instance ref_lt_order s : StrictWeakOrder (ref_lt s).
Proof.
  split; unfold ref_lt.
  - intros a b. destruct (store s !! a), (store s !! b); try done; [apply swo_asym|].
    rewrite Z.ltb_lt, Z.ltb_ge. lia.
  - intros a b c. destruct (store s !! a), (store s !! b), (store s !! c); try done; [apply swo_trans|].
    rewrite !Z.ltb_ge. lia.
Qed.

(** Queues of references, whose order the objects determine. *)
Definition q_ok s (q : AnyRequestQueue ref) : Prop := queue_ok (lt := ref_lt s) q.
Definition items (q : AnyRequestQueue ref) : list ref :=
  match q with AnyFCFS q => deque q | AnyPriority q => _heap q end.

Lemma queue_items_eq s q : queue_items (lt := ref_lt s) q = items q.
Proof. by destruct q. Qed.

(** Only the order of the queued requests matters. *)
Lemma q_ok_order s s' q :
  (∀ r, r ∈ items q → option_Forall2 same_order (store s !! r) (store s' !! r)) → q_ok s q → q_ok s' q.
Proof.
  intros Hs. destruct q as [q|q]; [done|]. unfold q_ok. simpl in *. intros Hh i a b Hi Hp Ha Hb.
  rewrite (ref_lt_same s s') by (apply Hs; by eapply list_elem_of_lookup_2). by apply (Hh i).
Qed.

Lemma q_ok_same s s' q : store_same (store s) (store s') → q_ok s q → q_ok s' q.
Proof.
  intros Hs. apply q_ok_order. intros r _. destruct (Hs r); constructor. by apply same_request_order.
Qed.

(** ** Elementary operations *)

Lemma kv_run {A} (op : M KVCacheManager A) s a m' :
  op (kv_cache_manager s) = (Ok a, m') → kv op s = (Ok a, set_kv m' s).
Proof. intros H. unfold kv, zoom. by rewrite H. Qed.

Lemma request_of_run s r rq : store s !! r = Some rq → request_of r s = (Ok rq, s).
Proof. intros H. unfold request_of. unfold bind, get. by rewrite H. Qed.

Lemma update_request_run s r rq f : store s !! r = Some rq →
  update_request r f s = (Ok tt, set_store (<[r := f rq]> (store s)) s).
Proof. intros H. unfold update_request. by rewrite (bind_ok _ _ _ _ _ (request_of_run _ _ _ H)). Qed.

(** Nothing happens in the encoder cache for a text request. *)
Lemma em_free_text cfg set_order rq s : set_order ∅ = [] → mm_features rq = [] →
  encoder (em_free cfg set_order rq) s = (Ok tt, s).
Proof.
  intros Hs Hm. unfold encoder, zoom, em_free.
  assert (Hf : (if sc_is_encoder_decoder cfg then EncoderDecoder.free rq
    else encoder_free set_order rq) (encoder_cache_manager s) = (Ok tt, encoder_cache_manager s)).
  { unfold EncoderDecoder.free, encoder_free, get_cached_input_ids. rewrite Hm.
    destruct (sc_is_encoder_decoder cfg); [done|]. rewrite bind_gets.
    change (py_range 0 (len [])) with (@nil Z). rewrite filter_nil, list_to_set_nil. by rewrite Hs. }
  rewrite Hf. by destruct s.
Qed.

(** A queue of the scheduler after a call. *)
Lemma items_prepend s r q : q_ok s q →
  q_ok s (prepend_request (ref_lt s) r q) ∧ items (prepend_request (ref_lt s) r q) ≡ₚ r :: items q.
Proof.
  intros Hq. destruct (law_prepend (lt := ref_lt s) r q Hq) as [H1 H2].
  by rewrite !queue_items_eq in H2.
Qed.

Lemma waiting_front s : q_ok s (waiting s) → queue_bool (waiting s) = true →
  ∃ r q', waiting_peek s = (Ok r, s) ∧ waiting_pop s = (Ok r, set_waiting q' s) ∧
    q_ok s q' ∧ items (waiting s) ≡ₚ r :: items q'.
Proof.
  intros Hq Hb. apply (law_bool (lt := ref_lt s)) in Hb; [|done]. rewrite queue_items_eq in Hb.
  pose proof (law_pop (lt := ref_lt s) (waiting s) Hq) as Hpop.
  destruct (pop_request (ref_lt s) (waiting s)) as [[r q']|e] eqn:Hp.
  - destruct Hpop as (H1 & H2 & H3). rewrite !queue_items_eq in H2. exists r, q'.
    unfold waiting_peek, waiting_pop, bind, get. rewrite H3, Hp. done.
  - destruct Hpop as (_ & He & _). by rewrite queue_items_eq in He.
Qed.
End store.

(** ** The invariant *)

Section invariant.
Context {W : Type} (cfg : SchedulerConfig) (hbs : Z).
Context {KP : KVPredicates} {KS : KVService hbs (sc_max_model_len cfg) (sc_log_stats cfg)}.
Abbreviation max_len := (sc_max_model_len cfg).
Implicit Types (s : Scheduler W) (l : StepLocals) (m : KVCacheManager).

Record runs m (rq : Request) : Prop := {
  rn_status : status rq = RUNNING;
  rn_computed : 0 ≤ num_computed_tokens rq;
  rn_slots : kv_slots m (request_id rq) (num_computed_tokens rq);
  rn_placeholders : 0 ≤ num_output_placeholders rq
}.
Record waits m (rq : Request) : Prop := {
  wt_status : status rq = WAITING ∨ status rq = WAITING_FOR_FSM ∨ status rq = PREEMPTED;
  wt_computed : num_computed_tokens rq = 0;
  wt_idle : kv_idle m (request_id rq);
  wt_placeholders : 0 ≤ num_output_placeholders rq
}.

(** Reference [r] is the request [rq], which the scheduler knows by its id. *)
Record tracked s (r : ref) (rq : Request) : Prop := {
  tk_store : store s !! r = Some rq;
  tk_text : text_request hbs max_len rq;
  tk_id : sched_requests s !! request_id rq = Some r
}.

(** The running requests of [s], and the requests [wait] that wait. *)
Record core s (wait : list ref) : Prop := {
  co_nodup : NoDup (running s ++ wait);
  co_running : ∀ r, r ∈ running s → ∃ rq, tracked s r rq ∧ runs (kv_cache_manager s) rq;
  co_waiting : ∀ r, r ∈ wait → ∃ rq, tracked s r rq ∧ waits (kv_cache_manager s) rq;
  co_kv : kv_ok (kv_cache_manager s);
  co_idle : ∀ id, sched_requests s !! id = None → kv_idle (kv_cache_manager s) id
}.

Lemma runs_frame o m m' rq :
  kv_frame o m m' → o ≠ Some (request_id rq) → runs m rq → runs m' rq.
Proof. intros Hf Ho []. split; try done. by apply (kf_slots _ _ _ Hf). Qed.
Lemma waits_frame o m m' rq :
  kv_frame o m m' → o ≠ Some (request_id rq) → waits m rq → waits m' rq.
Proof. intros Hf Ho []. split; try done. by apply (kf_idle _ _ _ Hf). Qed.

Lemma tracked_eq s r rq rq' : tracked s r rq → store s !! r = Some rq' → rq' = rq.
Proof. intros [H _ _] H'. congruence. Qed.

(** Different references are requests with different ids. *)
Lemma tracked_inj s r r' rq rq' :
  tracked s r rq → tracked s r' rq' → request_id rq = request_id rq' → r = r'.
Proof. intros [_ _ H] [_ _ H'] He. rewrite He in H. congruence. Qed.

(** A change of the request [r] and of its data in the KV cache. *)
Record changes s s' (r : ref) (rq rq' : Request) : Prop := {
  ch_same : same_request rq rq';
  ch_store : store s' = <[r := rq']> (store s);
  ch_requests : sched_requests s' = sched_requests s;
  ch_frame : kv_frame (Some (request_id rq)) (kv_cache_manager s) (kv_cache_manager s')
}.

Lemma tracked_changed s s' r rq rq' :
  changes s s' r rq rq' → tracked s r rq → tracked s' r rq'.
Proof.
  intros [Hs Hst Hr _] [H1 H2 H3]. split.
  - by rewrite Hst, lookup_insert_eq.
  - by eapply text_request_same.
  - by rewrite Hr, (sq_id _ _ Hs).
Qed.
Lemma tracked_other s s' r rq rq' x rx :
  changes s s' r rq rq' → x ≠ r → tracked s x rx → tracked s' x rx.
Proof. intros [Hs Hst Hr _] Hx [H1 H2 H3]. split; [by rewrite Hst, lookup_insert_ne|done|by rewrite Hr]. Qed.

Lemma core_tracked s wait r : core s wait → r ∈ running s ∨ r ∈ wait → ∃ rq, tracked s r rq.
Proof. intros [_ H1 H2 _ _] [Hr|Hr]; [destruct (H1 r Hr) as (?&?&_)|destruct (H2 r Hr) as (?&?&_)]; eauto. Qed.

Lemma core_change s s' wait wait' r rq rq' :
  core s wait → tracked s r rq → changes s s' r rq rq' → kv_ok (kv_cache_manager s') →
  NoDup (running s' ++ wait') →
  (∀ x, x ∈ running s' → x = r ∨ x ∈ running s) → (∀ x, x ∈ wait' → x = r ∨ x ∈ wait) →
  (r ∈ running s' → runs (kv_cache_manager s') rq') →
  (r ∈ wait' → waits (kv_cache_manager s') rq') → core s' wait'.
Proof.
  intros Hc Ht Hch Hkv Hnd Hr Hw Hruns Hwaits. split; [done| | |done|].
  3: { intros id Hid. rewrite (ch_requests _ _ _ _ _ Hch) in Hid.
    apply (kf_idle _ _ _ (ch_frame _ _ _ _ _ Hch)); [|by apply (co_idle _ _ Hc)].
    intros [= <-]. by rewrite (tk_id _ _ _ Ht) in Hid. }
  - intros x Hx. destruct (decide (x = r)) as [->|Hne].
    { exists rq'. split; [by eapply tracked_changed|auto]. }
    destruct (Hr x Hx) as [|Hxr]; [done|].
    destruct (co_running _ _ Hc x Hxr) as (rx & Htx & Hrx). exists rx.
    split; [by eapply tracked_other|]. eapply runs_frame; [apply Hch| |done].
    intros [= He]. by apply Hne, (tracked_inj s x r rx rq).
  - intros x Hx. destruct (decide (x = r)) as [->|Hne].
    { exists rq'. split; [by eapply tracked_changed|auto]. }
    destruct (Hw x Hx) as [|Hxr]; [done|].
    destruct (co_waiting _ _ Hc x Hxr) as (rx & Htx & Hrx). exists rx.
    split; [by eapply tracked_other|]. eapply waits_frame; [apply Hch| |done].
    intros [= He]. by apply Hne, (tracked_inj s x r rx rq).
Qed.

(** A change of the KV cache that affects no request. *)
Lemma core_kv s wait m' :
  core s wait → kv_ok m' → kv_frame None (kv_cache_manager s) m' → core (set_kv m' s) wait.
Proof.
  intros [H1 H2 H3 _ H5] Hkv Hf. split; [done| | |done|].
  3: { intros id Hid. apply (kf_idle _ _ _ Hf); [done|]. by apply H5. }
  - intros r Hr. destruct (H2 r Hr) as (rq & [] & ?). exists rq. split; [done|]. by eapply runs_frame.
  - intros r Hr. destruct (H3 r Hr) as (rq & [] & ?). exists rq. split; [done|]. by eapply waits_frame.
Qed.

(** ** The invariant of a step *)

Definition scheduled l : list ref :=
  scheduled_running_reqs l ++ scheduled_new_reqs l ++ scheduled_resumed_reqs l.

(** [n] tokens of a running request are scheduled. *)
Record booked m l (rq : Request) (n : Z) : Prop := {
  bk_pos : 0 < n;
  bk_len : num_computed_tokens rq + n < max_len;
  bk_slots : kv_slots m (request_id rq) (num_computed_tokens rq + n);
  bk_known : num_computed_tokens rq + n ≤ num_tokens rq + num_output_placeholders rq
    + len (default [] (od_get (request_id rq) (scheduled_spec_decode_tokens l)))
}.
Record has_booking m l (rq : Request) : Prop := {
  hb_tokens : ∃ n, od_get (request_id rq) (num_scheduled_tokens l) = Some n ∧ booked m l rq n;
  hb_blocks : ∃ b, od_get (request_id rq) (req_to_new_blocks l) = Some b ∧ kv_valid m b
}.

Definition all_waiting (st : Step W) : list ref :=
  items (waiting (st_sched st)) ++ items (skipped_waiting_requests (st_loc st)).

(** The bookings of the step and the token budget. *)
Record bookings s l : Prop := {
  bo_nodup : NoDup (scheduled l);
  bo_running : ∀ r, r ∈ scheduled l → r ∈ running s;
  bo_booked : ∀ r rq, r ∈ scheduled l → store s !! r = Some rq →
    has_booking (kv_cache_manager s) l rq;
  bo_keys : ∀ id, id ∈ od_keys (num_scheduled_tokens l) →
    ∃ r rq, r ∈ scheduled l ∧ store s !! r = Some rq ∧ request_id rq = id;
  bo_keys_nodup : NoDup (od_keys (num_scheduled_tokens l));
  bo_budget : token_budget l =
    sc_max_num_scheduled_tokens cfg - sum_list_Z snd (num_scheduled_tokens l);
  bo_nonneg : 0 ≤ token_budget l
}.

(** Requests that were scheduled in the previous step and are preempted now were
    preempted in this step; resumed requests were not in the previous step. *)
Record marks s l (wait : list ref) : Prop := {
  mk_preempted : ∀ r rq, r ∈ wait → store s !! r = Some rq → status rq = PREEMPTED →
    request_id rq ∈ prev_step_scheduled_req_ids s → r ∈ preempted_reqs l;
  mk_resumed : ∀ r rq, r ∈ scheduled_resumed_reqs l → store s !! r = Some rq →
    request_id rq ∉ prev_step_scheduled_req_ids s;
  mk_known : ∀ r, r ∈ preempted_reqs l → is_Some (store s !! r)
}.

(** [all] are the requests of the scheduler. *)
Record step_ok (all : list ref) (st : Step W) : Prop := {
  so_core : core (st_sched st) (all_waiting st);
  so_all : running (st_sched st) ++ all_waiting st ≡ₚ all;
  so_queue : q_ok (st_sched st) (waiting (st_sched st));
  so_skipped : q_ok (st_sched st) (skipped_waiting_requests (st_loc st));
  so_book : bookings (st_sched st) (st_loc st);
  so_marks : marks (st_sched st) (st_loc st) (all_waiting st);
  so_max_running : len (running (st_sched st)) ≤ sc_max_num_running_reqs cfg
}.

(** ** Changes of one request keep the rest *)

Lemma core_perm s w w' : w ≡ₚ w' → core s w → core s w'.
Proof.
  intros Hp [H1 H2 H3 H4 H5]. split; [by rewrite <- Hp|done| |done|done].
  intros r Hr. apply H3. by rewrite Hp.
Qed.

(** The core depends on four attributes only. *)
Lemma core_same s s' w :
  store s' = store s → sched_requests s' = sched_requests s → running s' = running s →
  kv_cache_manager s' = kv_cache_manager s → core s w → core s' w.
Proof.
  intros E1 E2 E3 E4 [H1 H2 H3 H4 H5]. split; rewrite ?E2, ?E3, ?E4; try done.
  - intros r Hr. destruct (H2 r Hr) as (rq & [T1 T2 T3] & ?). exists rq. split; [|done].
    split; [by rewrite E1|done|by rewrite E2].
  - intros r Hr. destruct (H3 r Hr) as (rq & [T1 T2 T3] & ?). exists rq. split; [|done].
    split; [by rewrite E1|done|by rewrite E2].
Qed.

Lemma changes_other s s' r rq rq' x :
  changes s s' r rq rq' → x ≠ r → store s' !! x = store s !! x.
Proof. intros Hch Hx. rewrite (ch_store _ _ _ _ _ Hch). by rewrite lookup_insert_ne. Qed.

Lemma changes_store s s' r rq rq' :
  store s !! r = Some rq → changes s s' r rq rq' → store_same (store s) (store s').
Proof.
  intros Hr Hch. rewrite (ch_store _ _ _ _ _ Hch). eapply store_same_insert; [done|apply Hch].
Qed.

Lemma has_booking_frame o m m' l rq :
  kv_frame o m m' → o ≠ Some (request_id rq) → has_booking m l rq → has_booking m' l rq.
Proof.
  intros Hf Ho [(n & Hn & [H1 H2 H3 H4]) (b & Hb & Hv)]. split.
  - exists n. split; [done|]. split; try done. by apply (kf_slots _ _ _ Hf).
  - exists b. split; [done|]. by apply (kf_valid _ _ _ Hf).
Qed.

(** Only the entries of the request matter. *)
Lemma has_booking_locals m l l' rq (id := request_id rq) :
  od_get id (num_scheduled_tokens l') = od_get id (num_scheduled_tokens l) →
  od_get id (req_to_new_blocks l') = od_get id (req_to_new_blocks l) →
  od_get id (scheduled_spec_decode_tokens l') = od_get id (scheduled_spec_decode_tokens l) →
  has_booking m l rq → has_booking m l' rq.
Proof.
  unfold id. intros H1 H2 H3 [(n & Hn & [? ? ? H4]) Hv]. split; [|by rewrite H2].
  exists n. rewrite H1. split; [done|]. split; try done. by rewrite H3.
Qed.

(** A request that is not scheduled changes. *)
Lemma bookings_change s s' l wait r rq rq' :
  core s wait → tracked s r rq → changes s s' r rq rq' → r ∉ scheduled l →
  (∀ x, x ∈ scheduled l → x ∈ running s') → bookings s l → bookings s' l.
Proof.
  intros Hc Ht Hch Hr Hrun [H1 H2 H3 H4 H5 H6 H7]. split; try done.
  - intros x rx Hx Hsx. assert (Hxr : x ≠ r) by (intros ->; done).
    rewrite (changes_other _ _ _ _ _ _ Hch Hxr) in Hsx.
    apply (has_booking_frame (Some (request_id rq)) (kv_cache_manager s)); [apply Hch| |by apply (H3 x)].
    destruct (core_tracked _ _ _ Hc (or_introl (H2 x Hx))) as (r0 & Ht0).
    pose proof (tracked_eq _ _ _ _ Ht0 Hsx) as ->. intros [= He].
    by apply Hxr, (tracked_inj s x r r0 rq).
  - intros id Hid. destruct (H4 id Hid) as (x & rx & Hx & Hsx & Hidx). exists x, rx.
    split; [done|]. split; [|done]. rewrite (changes_other _ _ _ _ _ _ Hch); [done|]. by intros ->.
Qed.

Lemma marks_change s s' l l' wait wait' r rq rq' :
  changes s s' r rq rq' → prev_step_scheduled_req_ids s' = prev_step_scheduled_req_ids s →
  (∀ x, x ∈ wait' → x = r ∨ x ∈ wait) → (r ∈ wait' → status rq' = PREEMPTED → request_id rq ∈ prev_step_scheduled_req_ids s →
    r ∈ preempted_reqs l') →
  (∀ x, x ∈ preempted_reqs l → x ∈ preempted_reqs l') →
  (∀ x, x ∈ preempted_reqs l' → x = r ∨ x ∈ preempted_reqs l) →
  scheduled_resumed_reqs l' = scheduled_resumed_reqs l → r ∉ scheduled_resumed_reqs l →
  marks s l wait → marks s' l' wait'.
Proof.
  intros Hch Hprev Hw Hr Hpre Hpre' Hres Hrr [H1 H2 H3]. split; rewrite ?Hprev, ?Hres.
  - intros x rx Hx Hsx Hst Hp. destruct (decide (x = r)) as [->|Hxr].
    { rewrite (ch_store _ _ _ _ _ Hch), lookup_insert_eq in Hsx. injection Hsx as <-.
      rewrite (sq_id _ _ (ch_same _ _ _ _ _ Hch)) in Hp. auto. }
    rewrite (changes_other _ _ _ _ _ _ Hch Hxr) in Hsx. destruct (Hw x Hx) as [|Hx']; [done|].
    apply Hpre. by apply (H1 x rx).
  - intros x rx Hx Hsx. assert (Hxr : x ≠ r) by (intros ->; done).
    rewrite (changes_other _ _ _ _ _ _ Hch Hxr) in Hsx. by apply (H2 x).
  - intros x Hx. destruct (decide (x = r)) as [->|Hxr].
    + by rewrite (ch_store _ _ _ _ _ Hch), lookup_insert_eq.
    + rewrite (changes_other _ _ _ _ _ _ Hch Hxr). apply H3. by destruct (Hpre' x Hx).
Qed.

(** The request [r] is scheduled for [n] tokens. *)
Record books l l' (r : ref) (id : string) (n : Z) : Prop := {
  bs_scheduled : scheduled l' ≡ₚ r :: scheduled l;
  bs_tokens : num_scheduled_tokens l' = od_set id n (num_scheduled_tokens l);
  bs_blocks : ∀ id', id' ≠ id → od_get id' (req_to_new_blocks l') = od_get id' (req_to_new_blocks l);
  bs_spec : ∀ id', id' ≠ id →
    od_get id' (scheduled_spec_decode_tokens l') = od_get id' (scheduled_spec_decode_tokens l);
  bs_budget : token_budget l' = token_budget l - n
}.

Lemma bookings_book s s' l l' wait r rq rq' n :
  core s wait → tracked s r rq → changes s s' r rq rq' → r ∉ scheduled l →
  books l l' r (request_id rq) n → n ≤ token_budget l →
  r ∈ running s' → (∀ x, x ∈ scheduled l → x ∈ running s') →
  has_booking (kv_cache_manager s') l' rq' → bookings s l → bookings s' l'.
Proof.
  intros Hc Ht Hch Hr [E1 E2 E3 E4 E5] Hn Hrr Hrun Hb Hbk.
  pose proof (bookings_change s s' l wait r rq rq' Hc Ht Hch Hr Hrun Hbk) as [H1 H2 H3 H4 H5 H6 H7].
  pose proof (tk_store _ _ _ (tracked_changed _ _ _ _ _ Hch Ht)) as Hr'.
  assert (Hid : request_id rq' = request_id rq) by apply Hch.
  assert (Hids : ∀ x rx, x ∈ scheduled l → store s' !! x = Some rx → request_id rx ≠ request_id rq).
  { intros x rx Hx Hsx He. assert (Hxr : x ≠ r) by (intros ->; done). apply Hxr.
    destruct (core_tracked _ _ _ Hc (or_introl (bo_running _ _ Hbk x Hx))) as (r0 & Ht0).
    rewrite (changes_other _ _ _ _ _ _ Hch Hxr) in Hsx.
    rewrite (tracked_eq _ _ _ _ Ht0 Hsx) in He. by apply (tracked_inj s x r r0 rq). }
  assert (Hnew : request_id rq ∉ od_keys (num_scheduled_tokens l)).
  { intros Hk. destruct (H4 _ Hk) as (x & rx & Hx & Hsx & He). by apply (Hids x rx). }
  split.
  - rewrite E1. by apply NoDup_cons.
  - intros x. rewrite E1. intros [->|Hx]%elem_of_cons; auto.
  - intros x rx. rewrite E1. intros [->|Hx]%elem_of_cons Hsx.
    { rewrite Hr' in Hsx. by injection Hsx as <-. }
    pose proof (Hids x rx Hx Hsx) as Hne. apply (has_booking_locals _ l); [|by apply E3|by apply E4|by apply (H3 x)].
    rewrite E2, od_get_set. by rewrite decide_False.
  - intros id. rewrite E2, od_set_keys. intros [->|Hk].
    + exists r, rq'. rewrite E1. split; [by left|]. done.
    + destruct (H4 id Hk) as (x & rx & Hx & ?). exists x, rx. rewrite E1. split; [by right|done].
  - rewrite E2. by apply od_set_nodup.
  - rewrite E5, E2, H6, od_set_new by done. rewrite sum_list_Z_app. simpl. lia.
  - lia.
Qed.
End invariant.
