(* ===== verification/ScheduleFrame.v ===== *)
(** What a scheduling step leaves alone, in all configurations and with any
    connectors: the table of requests, and their identity, tokens and
    parameters; and without speculative decoding no request gets speculative
    tokens. *)

From S2P Require Import Prelude.
From S2P Require Import OrderedDict.
From S2P Require Import Request.
From S2P Require Import BlockPool.
From S2P Require Import KVCacheManager.
From S2P Require Import EncoderCache.
From S2P Require Import RequestQueue.
From S2P Require Import SchedulerState.
From S2P Require Import SchedulerEncoder.
From S2P Require Import Schedule.
From S2P Require Import SchedulerInvariant.

(** ** Properties that a program preserves, whether it returns or raises *)

Definition preserves {S A} (I : S → Prop) (m : M S A) : Prop := ∀ s, I s → I (m s).2.

Lemma preserves_run {S A} (I : S → Prop) (m : M S A) s r s' :
  preserves I m → m s = (r, s') → I s → I s'.
Proof. intros Hm Hrun Hs. specialize (Hm s Hs). by rewrite Hrun in Hm. Qed.

Section preserves.
Context {S : Type} (I : S → Prop).

Lemma preserves_ret {A} (a : A) : preserves I (ret a).
Proof. by intros s Hs. Qed.
Lemma preserves_raise {A} e : preserves I (raise (A := A) e).
Proof. by intros s Hs. Qed.
Lemma preserves_get : preserves I get.
Proof. by intros s Hs. Qed.
Lemma preserves_gets {A} (f : S → A) : preserves I (gets f).
Proof. by intros s Hs. Qed.
Lemma preserves_modify f : (∀ s, I s → I (f s)) → preserves I (modify f).
Proof. intros Hf s Hs. by apply Hf. Qed.
Lemma preserves_bind {A B} (m : M S A) (k : A → M S B) :
  preserves I m → (∀ a, preserves I (k a)) → preserves I (bind m k).
Proof.
  intros Hm Hk s Hs. unfold bind. specialize (Hm s Hs). destruct (m s) as [[a|e] s']; [|done].
  by apply Hk.
Qed.
Lemma preserves_of_option {A} e (o : option A) : preserves I (of_option e o).
Proof. intros s Hs. by destruct o. Qed.
Lemma preserves_of_res {A} (r : res A) : preserves I (of_res r).
Proof. by intros s Hs. Qed.
Lemma preserves_assert b : preserves I (assert_ b).
Proof. intros s Hs. by destruct b. Qed.
Lemma preserves_for {A} (xs : list A) body : (∀ x, preserves I (body x)) → preserves I (for_ xs body).
Proof. intros Hb. induction xs as [|x xs IH]; simpl; [apply preserves_ret|]. by apply preserves_bind. Qed.
Lemma preserves_mapM {A B} (xs : list A) (body : A → M S B) :
  (∀ x, preserves I (body x)) → preserves I (mapM body xs).
Proof.
  intros Hb. induction xs as [|x xs IH]; simpl; [apply preserves_ret|].
  apply preserves_bind; [done|]. intros y. apply preserves_bind; [done|]. intros ys. apply preserves_ret.
Qed.
Lemma preserves_zoom {T A} (proj : S → T) put (m : M T A) (J : T → Prop) :
  (∀ s, I s → J (proj s)) → (∀ s t, I s → J t → I (put t s)) → preserves J m →
  preserves I (zoom proj put m).
Proof.
  intros H1 H2 Hm s Hs. unfold zoom. specialize (Hm (proj s) (H1 s Hs)).
  destruct (m (proj s)) as [r t]. by apply H2.
Qed.
End preserves.

Create HintDb frames.
#[export] Hint Resolve preserves_ret preserves_raise preserves_get preserves_gets preserves_of_option
  preserves_of_res preserves_assert : frames.

(** One step of a proof that a program preserves a property. *)
Ltac keep_step :=
  lazymatch goal with
  | |- preserves _ (bind _ _) => apply preserves_bind; [|intros ?]
  | |- preserves _ (for_ _ _) => apply preserves_for; intros ?
  | |- preserves _ (mapM _ _) => apply preserves_mapM; intros ?
  | |- preserves _ (match ?x with _ => _ end) => destruct x
  end.
Ltac keep := repeat (cbv beta zeta; first [solve [auto with frames nocore] | keep_step]).

(** ** The frame of a step *)

Section schedule_frame.
Context {W : Type} (cfg : SchedulerConfig).
Context (connector : option (KVConnector W)) (ec_connector : option (ECConnector W)).
Context (set_order : gset Z → list Z) (ts : Z) (grammar_ready : Request → bool).
(** No speculative tokens: the scheduler is synchronous, or their number is 0. *)
Context (Hnospec : sc_async cfg = true → sc_num_spec_tokens cfg ≤ 0).
Context (R : gmap string ref) (sto0 : gmap ref Request).
Implicit Types (s : Scheduler W) (l : StepLocals).

Record steady s : Prop := {
  std_requests : sched_requests s = R;
  std_same : store_same sto0 (store s);
  std_spec : ∀ r rq, store s !! r = Some rq → spec_token_ids rq = []
}.
Definition steady_step (st : Step W) : Prop :=
  steady (st_sched st) ∧ scheduled_spec_decode_tokens (st_loc st) = [].

Lemma steady_same s s' : sched_requests s' = sched_requests s → store s' = store s → steady s → steady s'.
Proof. intros H1 H2 [? ? ?]. split; [congruence|by rewrite H2|by rewrite H2]. Qed.

Lemma steady_modify f : (∀ s, sched_requests (f s) = sched_requests s ∧ store (f s) = store s) →
  preserves steady (modify f).
Proof. intros Hf. apply preserves_modify. intros s Hs. destruct (Hf s). by apply (steady_same s). Qed.

Lemma steady_kv {A} (m : M KVCacheManager A) : preserves steady (kv m).
Proof. apply (preserves_zoom _ _ _ _ (λ _, True)); [done| |done]. intros s t Hs _. by apply (steady_same s). Qed.
Lemma steady_encoder {A} (m : M EncoderCacheManager A) : preserves steady (encoder m).
Proof. apply (preserves_zoom _ _ _ _ (λ _, True)); [done| |done]. intros s t Hs _. by apply (steady_same s). Qed.
Lemma steady_world {A} (f : W → A * W) : preserves steady (on_world f).
Proof. apply (preserves_zoom _ _ _ _ (λ _, True)); [done| |done]. intros s t Hs _. by apply (steady_same s). Qed.
Lemma steady_request_of r : preserves steady (request_of r).
Proof. unfold request_of. keep. Qed.
Lemma steady_update r f :
  (∀ rq, spec_token_ids rq = [] → same_request rq (f rq) ∧ spec_token_ids (f rq) = []) →
  preserves steady (update_request r f).
Proof.
  intros Hf s [H1 Hsm H2]. unfold update_request, request_of, bind, get.
  destruct (store s !! r) as [rq|] eqn:Hr; [|done]. simpl. split; [done| |]; simpl.
  { etrans; [exact Hsm|]. eapply store_same_insert; [done|]. by apply (Hf rq), (H2 r). }
  intros x rx [[<- <-]|[_ Hx]]%lookup_insert_Some; [by apply Hf, (H2 r)|by apply (H2 x)].
Qed.

Lemma steady_on_sched {A} (m : M (Scheduler W) A) : preserves steady m → preserves steady_step (on_sched m).
Proof.
  apply preserves_zoom; [by intros s []|]. intros st s [_ Hl] Hs. by split.
Qed.
Lemma steady_local {A} (f : StepLocals → A) : preserves steady_step (local f).
Proof. apply preserves_gets. Qed.
Lemma steady_set_local f :
  (∀ l, scheduled_spec_decode_tokens l = [] → scheduled_spec_decode_tokens (f l) = []) →
  preserves steady_step (set_local f).
Proof. intros Hf. apply preserves_modify. intros st [Hs Hl]. split; [done|]. by apply Hf. Qed.
End schedule_frame.

#[export] Hint Resolve steady_kv steady_encoder steady_world steady_request_of steady_local : frames.
#[export] Hint Extern 1 (preserves (steady _ _) (modify _)) => (apply steady_modify; done) : frames.
#[export] Hint Extern 1 (preserves (steady _ _) (update_request _ _)) =>
  (apply steady_update; intros ? ?; simpl; repeat case_match; (split; [done|done])) : frames.
#[export] Hint Extern 1 (preserves (steady_step _ _) (set_local _)) =>
  (apply steady_set_local; intros ? ?; done) : frames.
#[export] Hint Extern 2 (preserves (steady_step _ _) (on_sched _)) => (apply steady_on_sched; keep) : frames.

Section schedule_frame.
Context {W : Type} (cfg : SchedulerConfig).
Context (connector : option (KVConnector W)) (ec_connector : option (ECConnector W)).
Context (set_order : gset Z → list Z) (ts : Z) (grammar_ready : Request → bool).
Context (Hnospec : sc_async cfg = true → sc_num_spec_tokens cfg ≤ 0).
Context (R : gmap string ref) (sto0 : gmap ref Request).
Abbreviation steady := (steady (W := W) R sto0).
Abbreviation steady_step := (steady_step (W := W) R sto0).

Lemma preempt_steady r t : preserves steady (_preempt_request cfg set_order r t).
Proof. unfold _preempt_request, waiting_prepend. keep. Qed.

Lemma max_by_key_steady rs : ∀ best, preserves steady (max_by_key (W := W) best rs).
Proof. induction rs as [|r rs IH]; intros best; simpl; keep. Qed.

Lemma unschedule_steady r : preserves steady_step (unschedule (W := W) r).
Proof.
  unfold unschedule. keep. apply steady_set_local. intros l Hl. simpl. by rewrite Hl.
Qed.

Lemma pick_preempted_steady : preserves steady_step (pick_preempted (W := W) cfg).
Proof.
  pose proof max_by_key_steady. pose proof unschedule_steady.
  unfold pick_preempted. keep.
Qed.

Lemma allocate_or_preempt_steady fuel : ∀ r n,
  preserves steady_step (allocate_or_preempt (W := W) cfg set_order ts fuel r n).
Proof.
  pose proof pick_preempted_steady. pose proof preempt_steady.
  induction fuel as [|fuel IH]; intros r n; simpl; keep.
Qed.

Lemma schedule_spec_tokens_steady r n : preserves steady_step (schedule_spec_tokens (W := W) r n).
Proof.
  intros [s l] [Hs Hl]. unfold schedule_spec_tokens.
  destruct (store s !! r) as [rq|] eqn:Hr.
  - assert (Hrun : on_sched (request_of r) (mkStep s l) = (Ok rq, mkStep s l))
      by (unfold on_sched, zoom, request_of, bind, get; simpl; by rewrite Hr).
    rewrite (bind_ok _ _ _ _ _ Hrun). by rewrite (std_spec _ _ _ Hs r rq Hr).
  - rewrite (bind_raise _ _ _ AttributeError (mkStep s l)); [done|].
    unfold on_sched, zoom, request_of, bind, get. simpl. by rewrite Hr.
Qed.

Lemma schedule_encoder_steady rq c n : preserves steady_step (schedule_encoder (W := W) cfg ec_connector rq c n).
Proof. unfold schedule_encoder, _try_schedule_encoder_inputs. keep. Qed.

Lemma allocate_encoder_steady r inputs b ext :
  preserves steady_step (allocate_encoder (W := W) cfg ec_connector r inputs b ext).
Proof. unfold allocate_encoder. keep. Qed.

Lemma commit_running_steady r n b : preserves steady_step (commit_running (W := W) r n b).
Proof. unfold commit_running. keep. Qed.

Lemma schedule_running_one_steady :
  preserves steady_step (schedule_running_one (W := W) cfg ec_connector set_order ts).
Proof.
  pose proof allocate_or_preempt_steady. pose proof schedule_spec_tokens_steady.
  pose proof schedule_encoder_steady. pose proof allocate_encoder_steady. pose proof commit_running_steady.
  unfold schedule_running_one, next_request. keep.
Qed.

Lemma schedule_running_steady fuel :
  preserves steady_step (schedule_running (W := W) cfg ec_connector set_order ts fuel).
Proof. pose proof schedule_running_one_steady. induction fuel as [|fuel IH]; simpl; keep. Qed.

Lemma collect_loras_steady : preserves steady_step (collect_loras (W := W) cfg).
Proof. unfold collect_loras. keep. Qed.

Lemma waiting_pop_steady : preserves steady (waiting_pop (W := W)).
Proof. unfold waiting_pop. keep. Qed.

Lemma skip_waiting_steady r : preserves steady_step (skip_waiting (W := W) r).
Proof. pose proof waiting_pop_steady. unfold skip_waiting. keep. Qed.

Lemma remote_kv_steady r : preserves steady (_update_waiting_for_remote_kv (W := W) cfg connector r).
Proof. unfold _update_waiting_for_remote_kv. keep. Qed.

Lemma waiting_ready_steady r :
  preserves steady_step (waiting_ready (W := W) cfg connector grammar_ready r).
Proof. pose proof remote_kv_steady. unfold waiting_ready. keep. Qed.

Lemma waiting_hits_steady r : preserves steady (waiting_hits (W := W) connector r).
Proof. unfold waiting_hits. keep. Qed.

Lemma waiting_tokens_steady r h : preserves steady_step (waiting_tokens (W := W) cfg ec_connector r h).
Proof. pose proof schedule_encoder_steady. unfold waiting_tokens. keep. Qed.

Lemma start_running_steady r h n : preserves steady_step (start_running (W := W) cfg ts r h n).
Proof. unfold start_running, _update_connector_prefix_cache_stats. keep. Qed.

Lemma allocate_waiting_steady r h n : preserves steady (allocate_waiting (W := W) cfg r h n).
Proof. unfold allocate_waiting. keep. Qed.

Lemma admit_waiting_steady r h plan :
  preserves steady_step (admit_waiting (W := W) cfg connector ec_connector ts r h plan).
Proof.
  pose proof waiting_pop_steady. pose proof start_running_steady. pose proof allocate_encoder_steady.
  unfold admit_waiting. keep.
Qed.

Lemma schedule_waiting_one_steady :
  preserves steady_step (schedule_waiting_one (W := W) cfg connector ec_connector set_order ts grammar_ready).
Proof.
  pose proof skip_waiting_steady. pose proof waiting_ready_steady. pose proof waiting_hits_steady.
  pose proof waiting_tokens_steady. pose proof allocate_waiting_steady. pose proof admit_waiting_steady.
  unfold schedule_waiting_one, waiting_peek. keep.
Qed.

Lemma schedule_waiting_steady fuel :
  preserves steady_step (schedule_waiting (W := W) cfg connector ec_connector set_order ts grammar_ready fuel).
Proof. pose proof schedule_waiting_one_steady. induction fuel as [|fuel IH]; simpl; keep. Qed.

Lemma put_back_steady : preserves steady_step (put_back_skipped (W := W)).
Proof. unfold put_back_skipped. keep. Qed.

Lemma check_constraints_steady : preserves steady_step (check_constraints (W := W) cfg).
Proof. unfold check_constraints. keep. Qed.

Lemma cached_request_row_steady b r : preserves steady_step (cached_request_row (W := W) cfg b r).
Proof. unfold cached_request_row, new_block_ids_of. keep. Qed.

Lemma build_output_steady : preserves steady_step (build_output (W := W) cfg).
Proof.
  pose proof cached_request_row_steady.
  unfold build_output, common_prefix_blocks, new_request_data, new_block_ids_of, _make_cached_request_data. keep.
Qed.

Lemma connector_meta_steady o : preserves steady (add_connector_meta (W := W) connector ec_connector o).
Proof. unfold add_connector_meta. keep. Qed.

Lemma lookup_request_steady id : preserves steady (lookup_request (W := W) id).
Proof. unfold lookup_request. keep. Qed.

Lemma update_after_steady o : preserves steady (_update_after_schedule (W := W) cfg set_order o).
Proof.
  pose proof lookup_request_steady.
  assert (Hbase : preserves steady (base_update_after_schedule (W := W) cfg set_order o))
    by (unfold base_update_after_schedule, _free_encoder_inputs; keep).
  assert (Hadd : sc_async cfg = true → ∀ ids has pending, preserves steady (add_placeholders (W := W) cfg o ids has pending)).
  { intros Hasync ids. specialize (Hnospec Hasync). induction ids as [|id ids IH]; intros has pending; simpl; keep.
    apply steady_update. intros rq _. split; [done|]. simpl. by replace (Z.to_nat (sc_num_spec_tokens cfg)) with 0%nat by lia. }
  unfold _update_after_schedule. apply preserves_bind; [done|]. intros _.
  destruct (sc_async cfg); [|keep]. apply preserves_bind; [by apply Hadd|]. intros ?. keep.
Qed.

(** A step of any scheduler without speculative decoding keeps the table of
    requests and gives no request speculative tokens. *)
Lemma schedule_steady :
  preserves steady (schedule (W := W) cfg connector ec_connector set_order ts grammar_ready).
Proof.
  intros s Hs. unfold schedule.
  assert (Hst : preserves steady_step (schedule_step (W := W) cfg connector ec_connector set_order ts grammar_ready)).
  { pose proof schedule_running_steady. pose proof collect_loras_steady. pose proof schedule_waiting_steady.
    pose proof put_back_steady. pose proof check_constraints_steady. pose proof build_output_steady.
    pose proof connector_meta_steady. pose proof update_after_steady. unfold schedule_step. keep. }
  specialize (Hst (mkStep s (init_locals cfg)) (conj Hs eq_refl)).
  destruct (schedule_step _ _ _ _ _ _ _) as [r st]. apply Hst.
Qed.
End schedule_frame.
