(* ===== verification/ScheduleRunning.v ===== *)
(** The first loop of a scheduling step keeps the invariant: running requests
    get slots, if necessary at the cost of preempted ones. *)

From S2P Require Import Prelude.
From S2P Require Import OrderedDict.
From S2P Require Import Request.
From S2P Require Import BlockPool.
From S2P Require Import KVCacheManager.
From S2P Require Import KVService.
From S2P Require Import EncoderCache.
From S2P Require Import RequestQueue.
From S2P Require Import RequestQueueSpec.
From S2P Require Import SchedulerState.
From S2P Require Import SchedulerEncoder.
From S2P Require Import Schedule.
From S2P Require Import SchedulerInvariant.

Section running_phase.
Context {W : Type} (cfg : SchedulerConfig) (hbs : Z).
Context {KP : KVPredicates} {KS : KVService hbs (sc_max_model_len cfg) (sc_log_stats cfg)}.
Context (set_order : gset Z → list Z) (Hset : set_order ∅ = []).
Context (ts : Z).
Implicit Types (s : Scheduler W) (st : Step W) (l : StepLocals).

Abbreviation tracked := (tracked cfg hbs).
Abbreviation core := (core cfg hbs).
Abbreviation step_ok := (step_ok cfg hbs).

(** ** Preemption *)

Lemma preempt_run s r rq timestamp :
  store s !! r = Some rq → status rq = RUNNING → mm_features rq = [] → kv_ok (kv_cache_manager s) →
  q_ok s (waiting s) →
  ∃ s' rq', _preempt_request cfg set_order r timestamp s = (Ok tt, s') ∧
    changes s s' r rq rq' ∧ kv_ok (kv_cache_manager s') ∧
    kv_idle (kv_cache_manager s') (request_id rq) ∧
    status rq' = PREEMPTED ∧ num_computed_tokens rq' = 0 ∧
    num_output_placeholders rq' = num_output_placeholders rq ∧
    running s' = running s ∧ q_ok s' (waiting s') ∧ items (waiting s') ≡ₚ r :: items (waiting s) ∧
    prev_step_scheduled_req_ids s' = prev_step_scheduled_req_ids s.
Proof.
  intros Hr Hst Hmm Hkv Hq. destruct (ks_free (hbs := hbs) (max_len := sc_max_model_len cfg) (log := sc_log_stats cfg)
    (kv_cache_manager s) rq Hkv) as (m' & Hfree & Hkv' & Hf & Hidle).
  unfold _preempt_request. rewrite (bind_ok _ _ _ _ _ (request_of_run _ _ _ Hr)).
  rewrite bind_assert_true by (by apply bool_decide_eq_true_2).
  rewrite (bind_ok _ _ _ _ _ (kv_run _ _ _ _ Hfree)).
  rewrite (bind_ok _ _ _ _ _ (em_free_text cfg set_order rq (set_kv m' s) Hset Hmm)).
  set (f := λ rq, set_num_preemptions _ _).
  rewrite (bind_ok _ _ _ _ _ (update_request_run (set_kv m' s) r rq f Hr)).
  set (s1 := set_store _ (set_kv m' s)).
  assert (H1 : store s1 !! r = Some (f rq)) by apply lookup_insert_eq.
  assert (∃ s2 rq2, (if sc_log_stats cfg then update_request r (record_event PREEMPTED_EVENT timestamp)
      else ret tt) s1 = (Ok tt, s2) ∧ s2 = set_store (<[r := rq2]> (store s)) (set_kv m' s) ∧
    same_request rq rq2 ∧ status rq2 = PREEMPTED ∧ num_computed_tokens rq2 = 0 ∧
    num_output_placeholders rq2 = num_output_placeholders rq) as (s2 & rq2 & Hrun & -> & Hs2 & ? & ? & ?).
  { destruct (sc_log_stats cfg).
    - rewrite (update_request_run s1 r _ _ H1). eexists _, _. split; [reflexivity|].
      split; [unfold s1; simpl; by rewrite insert_insert_eq|]. done.
    - exists s1, (f rq). done. }
  rewrite (bind_ok _ _ _ _ _ Hrun). set (s2 := set_store _ _).
  assert (Hss : store_same (store s) (store s2)) by by eapply store_same_insert.
  pose proof (q_ok_same s s2 (waiting s) Hss Hq) as Hq2.
  destruct (items_prepend s2 r (waiting s) Hq2) as [Hq3 Hi3].
  eexists _, rq2. split; [reflexivity|]. split; [by split|]. done.
Qed.

(** The bookings do not depend on the other local variables. *)
Lemma bookings_locals s l l' :
  scheduled l' = scheduled l → num_scheduled_tokens l' = num_scheduled_tokens l →
  req_to_new_blocks l' = req_to_new_blocks l →
  scheduled_spec_decode_tokens l' = scheduled_spec_decode_tokens l →
  token_budget l' = token_budget l → bookings cfg s l → bookings cfg s l'.
Proof.
  intros E1 E2 E3 E4 E5 [H1 H2 H3 H4 H5 H6 H7]. split; rewrite ?E1, ?E2, ?E5; try done.
  intros r rq Hr Hs. apply (has_booking_locals _ _ l); [by rewrite E2|by rewrite E3|by rewrite E4|by apply (H3 r)].
Qed.

(** An unscheduled running request is preempted. *)
Lemma preempt_step all st r run' (s := st_sched st) (l := st_loc st) :
  step_ok all st → running s ≡ₚ r :: run' → r ∉ scheduled l →
  (∀ x, x ∈ scheduled l → x ∈ run') →
  ∃ s', _preempt_request cfg set_order r ts (set_running run' s) = (Ok tt, s') ∧
    step_ok all (mkStep s' (set_preempted_reqs (preempted_reqs l ++ [r]) l)) ∧
    running s' = run' ∧ (∀ x, x ≠ r → store s' !! x = store s !! x).
Proof.
  intros [Hc Hall Hq Hsk Hb Hm Hmax] Hperm Hns Hsub. fold s l in Hc, Hall, Hq, Hsk, Hb, Hm, Hmax.
  destruct (co_running _ _ _ _ Hc r) as (rq & Ht & Hruns); [rewrite Hperm; by left|].
  destruct (preempt_run (set_running run' s) r rq ts) as
    (s' & rq' & Hrun & Hch0 & Hkv & Hidle & Hst & Hcomp & Hph & Hrn & Hq' & Hi & Hprev);
    [apply Ht|apply Hruns|apply (tk_text _ _ _ _ _ Ht)|apply Hc|apply Hq|]. simpl in Hrn, Hi, Hprev.
  assert (Hch : changes s s' r rq rq') by by destruct Hch0.
  set (l' := set_preempted_reqs (preempted_reqs l ++ [r]) l).
  assert (Hw : all_waiting (mkStep s' l') ≡ₚ r :: all_waiting st).
  { unfold all_waiting. simpl. by rewrite Hi. }
  pose proof (co_nodup _ _ _ _ Hc) as Hnd. rewrite Hperm in Hnd. simpl in Hnd.
  apply NoDup_cons in Hnd as [Hn1 Hn2]. rewrite elem_of_app in Hn1.
  exists s'. split; [exact Hrun|]. split; [|split; [done|intros x; by apply (changes_other s s' r rq rq')]].
  split; simpl.
  - apply (core_perm _ _ _ _ _ (symmetry Hw)).
    apply (core_change cfg hbs s s' (all_waiting st) _ r rq rq' Hc Ht Hch Hkv); rewrite ?Hrn.
    + rewrite <- Permutation_middle. apply NoDup_cons. split; [|done]. rewrite elem_of_app. tauto.
    + intros x Hx. right. rewrite Hperm. by right.
    + intros x [->|Hx]%elem_of_cons; auto.
    + tauto.
    + intros _. split; [tauto|done| |rewrite Hph; apply Hruns]. by rewrite (sq_id _ _ (ch_same _ _ _ _ _ Hch)).
  - rewrite <- Hall, Hperm, Hrn, Hw. by rewrite <- Permutation_middle.
  - exact Hq'.
  - eapply q_ok_same; [|exact Hsk]. by eapply changes_store; [apply Ht|].
  - apply (bookings_locals _ l); [done..|].
    apply (bookings_change cfg hbs s s' l _ r rq rq' Hc Ht Hch Hns); [|done]. by rewrite Hrn.
  - apply (marks_change s s' l l' (all_waiting st) _ r rq rq' Hch Hprev); simpl; try done.
    + intros x. rewrite Hw. by intros [->|Hx]%elem_of_cons; auto.
    + intros _ _ _. apply elem_of_app. right. by left.
    + intros x Hx. apply elem_of_app. by left.
    + intros x [Hx|Hx%list_elem_of_singleton]%elem_of_app; auto.
    + intros Hx. apply Hns. unfold scheduled. rewrite !elem_of_app. auto.
  - rewrite Hrn. unfold len in *. rewrite Hperm in Hmax. simpl in Hmax. lia.
Qed.

(** ** Unscheduling *)

(** What holds during the loop over the running requests. *)
Record run_phase s l : Prop := {
  rp_new : scheduled_new_reqs l = [];
  rp_resumed : scheduled_resumed_reqs l = [];
  rp_skipped : items (skipped_waiting_requests l) = [];
  rp_encoder : scheduled_encoder_inputs l = [];
  rp_index : 0 ≤ req_index l;
  rp_before : ∀ x, x ∈ scheduled_running_reqs l →
    ∃ i : nat, running s !! i = Some x ∧ Z.of_nat i < req_index l;
  (** requests that are not scheduled yet have not computed more tokens than
      they have *)
  rp_progress : ∀ r rq, r ∈ running s → r ∉ scheduled l → store s !! r = Some rq →
    num_computed_tokens rq ≤ num_tokens_with_spec rq + num_output_placeholders rq ∧
    num_computed_tokens rq < sc_max_model_len cfg
}.

Lemma run_phase_scheduled s l : run_phase s l → scheduled l = scheduled_running_reqs l.
Proof. intros H. unfold scheduled. by rewrite (rp_new _ _ H), (rp_resumed _ _ H), !app_nil_r. Qed.

(** The local variables after a request was unscheduled. *)
Record unscheduled l (x : ref) (id : string) (n : Z) l' : Prop := {
  un_running : scheduled_running_reqs l' = list_remove_first x (scheduled_running_reqs l);
  un_new : scheduled_new_reqs l' = scheduled_new_reqs l;
  un_resumed : scheduled_resumed_reqs l' = scheduled_resumed_reqs l;
  un_preempted : preempted_reqs l' = preempted_reqs l;
  un_skipped : skipped_waiting_requests l' = skipped_waiting_requests l;
  un_blocks : req_to_new_blocks l' = od_del id (req_to_new_blocks l);
  un_tokens : num_scheduled_tokens l' = od_del id (num_scheduled_tokens l);
  un_spec : scheduled_spec_decode_tokens l' = od_del id (scheduled_spec_decode_tokens l);
  un_encoder : scheduled_encoder_inputs l' = od_del id (scheduled_encoder_inputs l);
  un_budget : token_budget l' = token_budget l + n;
  un_index : req_index l' = req_index l - 1
}.

Lemma unschedule_run s l x rq n b :
  store s !! x = Some rq → od_get (request_id rq) (num_scheduled_tokens l) = Some n →
  od_get (request_id rq) (req_to_new_blocks l) = Some b → scheduled_encoder_inputs l = [] →
  ∃ l', unschedule x (mkStep s l) = (Ok tt, mkStep s l') ∧ unscheduled l x (request_id rq) n l'.
Proof.
  intros Hx Hn Hb He. unfold unschedule.
  assert (Hr : on_sched (request_of x) (mkStep s l) = (Ok rq, mkStep s l)).
  { unfold on_sched, zoom. simpl. by rewrite (request_of_run _ _ _ Hx). }
  rewrite (bind_ok _ _ _ _ _ Hr). unfold set_local, local. rewrite bind_modify, bind_gets. simpl.
  rewrite Hn. simpl. rewrite bind_ret_l, bind_modify. simpl. rewrite Hb. simpl.
  rewrite bind_ret_l, !bind_modify. simpl. rewrite He. simpl. rewrite bind_ret_l.
  eexists. split; [reflexivity|]. split; simpl; rewrite ?He; done.
Qed.

Lemma remove_first_nodup (x : ref) L : NoDup L → list_remove_first x L = filter (λ y, y ≠ x) L.
Proof. apply list_remove_first_nodup. Qed.

Lemma bookings_unschedule s l l' wait x rq n :
  core s wait → tracked s x rq → scheduled_new_reqs l = [] → scheduled_resumed_reqs l = [] →
  x ∈ scheduled_running_reqs l → od_get (request_id rq) (num_scheduled_tokens l) = Some n →
  unscheduled l x (request_id rq) n l' → bookings cfg s l →
  bookings cfg s l' ∧ (∀ y, y ∈ scheduled l' ↔ y ≠ x ∧ y ∈ scheduled l).
Proof.
  intros Hc Ht Hnew Hres Hx Hn Hu [H1 H2 H3 H4 H5 H6 H7].
  assert (Hsl : scheduled l = scheduled_running_reqs l).
  { unfold scheduled. by rewrite Hnew, Hres, !app_nil_r. }
  assert (Hsl' : scheduled l' = filter (λ y, y ≠ x) (scheduled l)).
  { rewrite <- remove_first_nodup by done. unfold scheduled.
    by rewrite (un_new _ _ _ _ _ Hu), (un_resumed _ _ _ _ _ Hu), (un_running _ _ _ _ _ Hu), Hnew, Hres, !app_nil_r. }
  assert (Hiff : ∀ y, y ∈ scheduled l' ↔ y ≠ x ∧ y ∈ scheduled l).
  { intros y. by rewrite Hsl', list_elem_of_filter. }
  assert (Hids : ∀ y ry, y ∈ scheduled l' → store s !! y = Some ry → request_id ry ≠ request_id rq).
  { intros y ry [Hyx Hy]%Hiff Hsy He. apply Hyx.
    destruct (core_tracked _ _ _ _ _ Hc (or_introl (H2 y Hy))) as (r0 & Ht0).
    pose proof (tracked_eq _ _ _ _ _ _ Ht0 Hsy) as ->. by apply (tracked_inj cfg hbs s y x r0 rq). }
  split; [|done]. split.
  - rewrite Hsl'. by apply NoDup_filter.
  - intros y [_ Hy]%Hiff. auto.
  - intros y ry Hy Hsy. apply (has_booking_locals _ _ l).
    + rewrite (un_tokens _ _ _ _ _ Hu), od_get_del. rewrite decide_False; [done|]. by apply (Hids y).
    + rewrite (un_blocks _ _ _ _ _ Hu), od_get_del. rewrite decide_False; [done|]. by apply (Hids y).
    + rewrite (un_spec _ _ _ _ _ Hu), od_get_del. rewrite decide_False; [done|]. by apply (Hids y).
    + apply (H3 y); [|done]. by apply Hiff.
  - intros id Hid. rewrite (un_tokens _ _ _ _ _ Hu) in Hid. apply od_del_keys in Hid as [Hne Hid].
    destruct (H4 id Hid) as (y & ry & Hy & Hsy & Hidy). exists y, ry. split; [|done].
    apply Hiff. split; [|done]. intros ->. rewrite (tracked_eq _ _ _ _ _ _ Ht Hsy) in Hidy. done.
  - rewrite (un_tokens _ _ _ _ _ Hu). by apply od_del_nodup.
  - rewrite (un_budget _ _ _ _ _ Hu), (un_tokens _ _ _ _ _ Hu), H6.
    pose proof (sum_list_Z_del _ _ _ H5 Hn). lia.
  - rewrite (un_budget _ _ _ _ _ Hu). destruct (H3 x rq) as [(k & Hk & Hbk) _];
      [by rewrite Hsl|apply Ht|]. rewrite Hk in Hn. injection Hn as ->. pose proof (bk_pos _ _ _ _ _ Hbk). lia.
Qed.

(** ** Positions in [running] *)

Lemma remove_first_delete (x : ref) L k : NoDup L → L !! k = Some x → list_remove_first x L = delete k L.
Proof.
  revert k. induction L as [|y L IH]; intros k Hnd Hk; [done|]. apply NoDup_cons in Hnd as [Hy Hnd]. simpl.
  destruct k as [|k]; simpl in *.
  - injection Hk as ->. by rewrite decide_True.
  - rewrite decide_False; [by rewrite (IH k)|]. intros ->. apply Hy. by eapply list_elem_of_lookup_2.
Qed.

Lemma removelast_delete {A} (L : list A) : removelast L = delete (pred (length L)) L.
Proof.
  induction L as [|x L IH]; [done|]. destruct L as [|y L]; [done|].
  change (removelast (x :: y :: L)) with (x :: removelast (y :: L)). by rewrite IH.
Qed.

(** Where [y] is after the element at [k] was deleted. *)
Lemma delete_index {A} (L : list A) (k i : nat) y :
  L !! i = Some y → i ≠ k → delete k L !! (if decide (k < i)%nat then pred i else i) = Some y.
Proof.
  intros Hi Hk. case_decide.
  - rewrite list_lookup_delete_ge by lia. by replace (S (pred i)) with i by lia.
  - by rewrite list_lookup_delete_lt by lia.
Qed.

(** The request in work is at or before the index; for the first-come-first-served
    policy it is at the index. *)
Definition in_work s l (r : ref) : Prop :=
  (∃ i : nat, running s !! i = Some r ∧ Z.of_nat i ≤ req_index l) ∧
  (sc_policy cfg = FCFS → running s !! Z.to_nat (req_index l) = Some r).

(** What the choice of a request to preempt gives. *)
Record picked all s l (r x : ref) (run' : list ref) l' : Prop := {
  pk_ok : step_ok all (mkStep s l');
  pk_perm : running s ≡ₚ x :: run';
  pk_unscheduled : x ∉ scheduled l';
  pk_rest : ∀ y, y ∈ scheduled l' → y ∈ run';
  pk_phase : run_phase (set_running run' s) l';
  pk_work : x ≠ r → in_work (set_running run' s) l' r;
  pk_closer : len run' - req_index l' ≤ len (running s) - req_index l;
  pk_preempted : preempted_reqs l' = preempted_reqs l;
  pk_budget : token_budget l ≤ token_budget l';
  pk_other : r ∉ scheduled l'
}.

(** The request at [k] leaves [running]; the index moves if it was scheduled. *)
Lemma run_phase_delete s l l' x rq (k : nat) :
  NoDup (running s) → run_phase s l → running s !! k = Some x → store s !! x = Some rq →
  x ∉ scheduled l' →
  (∀ y, y ∈ running s → y ≠ x → y ∉ scheduled l' → y ∉ scheduled l) →
  ((l' = l) ∨ (∃ n, unscheduled l x (request_id rq) n l' ∧ x ∈ scheduled_running_reqs l ∧
     NoDup (scheduled_running_reqs l))) →
  run_phase (set_running (delete k (running s)) s) l'.
Proof.
  intros Hnd Hp Hk Hx Hxl Hkeep Hcase.
  assert (Hprog : ∀ r r0, r ∈ running (set_running (delete k (running s)) s) → r ∉ scheduled l' →
    store s !! r = Some r0 → num_computed_tokens r0 ≤ num_tokens_with_spec r0 + num_output_placeholders r0 ∧
    num_computed_tokens r0 < sc_max_model_len cfg).
  { simpl. intros r r0 Hr Hrl Hs. assert (Hr' : r ∈ running s).
    { rewrite (delete_Permutation _ _ _ Hk). by right. }
    apply (rp_progress _ _ Hp r); [done| |done]. apply Hkeep; [done| |done]. intros ->.
    rewrite (delete_Permutation _ _ _ Hk) in Hnd. by apply NoDup_cons in Hnd as [? _]. }
  destruct Hcase as [->|(n & Hu & Hxs & Hnds)].
  - destruct Hp as [H1 H2 H3 H4 H5 H6 _]. split; try done. simpl. intros y Hy.
    destruct (H6 y Hy) as (i & Hi & Hlt). assert (i ≠ k).
    { intros ->. rewrite Hk in Hi. injection Hi as ->. apply Hxl. unfold scheduled. apply elem_of_app. by left. }
    eexists. split; [by apply delete_index|]. case_decide; lia.
  - destruct Hp as [H1 H2 H3 H4 H5 H6 _]. destruct (H6 x Hxs) as (kx & Hkx & Hkl).
    assert (kx = k) as -> by (by apply (NoDup_lookup (running s) _ _ x)).
    split; [by rewrite (un_new _ _ _ _ _ Hu)|by rewrite (un_resumed _ _ _ _ _ Hu)|
      by rewrite (un_skipped _ _ _ _ _ Hu)|by rewrite (un_encoder _ _ _ _ _ Hu), H4|
      rewrite (un_index _ _ _ _ _ Hu); lia| |done].
    simpl. intros y. rewrite (un_running _ _ _ _ _ Hu), remove_first_nodup by done.
    intros [Hyx Hy]%list_elem_of_filter. destruct (H6 y Hy) as (i & Hi & Hlt).
    assert (i ≠ k) by (intros ->; congruence). eexists. split; [by apply delete_index|].
    rewrite (un_index _ _ _ _ _ Hu). case_decide; lia.
Qed.

Lemma max_by_key_ok s rs : ∀ best,
  (∀ r, r ∈ best :: rs → is_Some (store s !! r)) →
  ∃ x, max_by_key best rs s = (Ok x, s) ∧ x ∈ best :: rs.
Proof.
  induction rs as [|r rs IH]; intros best Hr; simpl; [exists best; split; [done|by left]|].
  destruct (Hr best ltac:(by left)) as [rb Hb]. destruct (Hr r ltac:(right; by left)) as [rr Hrr].
  rewrite (bind_ok _ _ _ _ _ (request_of_run _ _ _ Hb)), (bind_ok _ _ _ _ _ (request_of_run _ _ _ Hrr)).
  destruct (IH (if preempt_key_lt rb rr then r else best)) as (x & Hx & Hin).
  - intros y [->|Hy]%elem_of_cons; [destruct (preempt_key_lt rb rr); eauto|].
    apply Hr. right. by right.
  - exists x. split; [done|]. apply elem_of_cons in Hin as [->|Hin].
    + destruct (preempt_key_lt rb rr); [right; by left|by left].
    + right. by right.
Qed.

Lemma on_sched_run {A} (op : M (Scheduler W) A) s l a s' :
  op s = (Ok a, s') → on_sched op (mkStep s l) = (Ok a, mkStep s' l).
Proof. intros H. unfold on_sched, zoom. simpl. by rewrite H. Qed.
Lemma bind_on_sched {A B} (op : M (Scheduler W) A) s l a s' (K : A → M (Step W) B) :
  op s = (Ok a, s') → bind (on_sched op) K (mkStep s l) = K a (mkStep s' l).
Proof. intros H. by rewrite (bind_ok _ _ _ _ _ (on_sched_run op s l a s' H)). Qed.

Lemma in_work_delete s l r k x :
  NoDup (running s) → running s !! k = Some x → x ≠ r → in_work s l r → sc_policy cfg = PRIORITY →
  ∀ l', req_index l' = req_index l ∨ (req_index l' = req_index l - 1 ∧ Z.of_nat k < req_index l) →
  in_work (set_running (delete k (running s)) s) l' r.
Proof.
  intros Hnd Hk Hx [(i & Hi & Hle) _] Hpol l' Hl'. split; [|by rewrite Hpol].
  assert (i ≠ k) by (intros ->; congruence). eexists. split; [by apply delete_index|].
  case_decide; lia.
Qed.

Lemma step_ok_unscheduled all s l l' x rq n :
  step_ok all (mkStep s l) → run_phase s l → x ∈ scheduled_running_reqs l → tracked s x rq →
  od_get (request_id rq) (num_scheduled_tokens l) = Some n → unscheduled l x (request_id rq) n l' →
  step_ok all (mkStep s l') ∧ (∀ y, y ∈ scheduled l' ↔ y ≠ x ∧ y ∈ scheduled l).
Proof.
  intros [Hc Hall Hq Hsk Hb Hm Hmax] Hp Hx Ht Hn Hu. unfold all_waiting in *. simpl in *.
  destruct (bookings_unschedule s l l' _ x rq n Hc Ht (rp_new _ _ Hp) (rp_resumed _ _ Hp) Hx Hn Hu Hb)
    as [Hb' Hiff].
  split; [|done]. split; unfold all_waiting; simpl; rewrite ?(un_skipped _ _ _ _ _ Hu); try done.
  destruct Hm as [H1 H2 H3].
  split; by rewrite ?(un_preempted _ _ _ _ _ Hu), ?(un_resumed _ _ _ _ _ Hu).
Qed.

Lemma pick_preempted_ok all s l r :
  step_ok all (mkStep s l) → run_phase s l → in_work s l r → r ∉ scheduled l →
  ∃ x run' l', pick_preempted cfg (mkStep s l) = (Ok x, mkStep (set_running run' s) l') ∧
    picked all s l r x run' l'.
Proof.
  intros Hok Hp Hw Hr. pose proof (so_core _ _ _ _ Hok) as Hc. simpl in Hc.
  assert (Hnd : NoDup (running s)) by (pose proof (co_nodup _ _ _ _ Hc) as H; by apply NoDup_app in H as [? _]).
  unfold pick_preempted. rewrite (bind_on_sched get s l s s) by done.
  destruct (sc_policy cfg) eqn:Hpol.
  - destruct Hw as [(i & Hi & _) Hf]. specialize (Hf Hpol). set (k := pred (length (running s))).
    destruct (last (running s)) as [x|] eqn:Hlast; [|apply last_None in Hlast; by rewrite Hlast in Hi].
    pose proof Hlast as Hk. rewrite last_lookup in Hk. fold k in Hk.
    cbn [of_option]. rewrite bind_ret_l, (bind_on_sched _ s l tt (set_running (removelast (running s)) s)) by done.
    rewrite removelast_delete. fold k. exists x, (delete k (running s)), l. split; [done|].
    pose proof (lookup_lt_Some _ _ _ Hf) as Hlt. pose proof (rp_index _ _ Hp) as Hi0.
    assert (Hxs : x ∉ scheduled l).
    { rewrite (run_phase_scheduled _ _ Hp). intros Hx. destruct (rp_before _ _ Hp x Hx) as (j & Hj & Hjl).
      pose proof (NoDup_lookup _ _ _ _ Hnd Hj Hk). unfold k in *. lia. }
    pose proof (delete_Permutation _ _ _ Hk) as Hperm.
    destruct (co_running _ _ _ _ Hc x) as (rq & Ht & _); [by eapply list_elem_of_lookup_2|].
    split; try done.
    + intros y Hy. pose proof (bo_running _ _ _ (so_book _ _ _ _ Hok) y Hy) as Hyr. simpl in Hyr.
      rewrite Hperm in Hyr. apply elem_of_cons in Hyr as [->|]; done.
    + eapply run_phase_delete; [done|done|done|apply Ht|done|done|by left].
    + intros Hxr. assert (Z.to_nat (req_index l) ≠ k) by (intros He; rewrite He in Hf; congruence).
      assert (Hl : delete k (running s) !! Z.to_nat (req_index l) = Some r).
      { rewrite list_lookup_delete_lt; [done|]. unfold k in *. lia. }
      split; [|done]. exists (Z.to_nat (req_index l)). split; [done|lia].
    + pose proof (Permutation_length Hperm) as Hpl. simpl in Hpl. unfold len. lia.
  - destruct Hw as [(i & Hi & Hle) Hf].
    destruct (running s) as [|r0 rs] eqn:Hrun; [done|]. rewrite <- Hrun in *.
    destruct (max_by_key_ok s rs r0) as (x & Hmax & Hx).
    { rewrite <- Hrun. intros y Hy. destruct (co_running _ _ _ _ Hc y Hy) as (ry & Hty & _).
      exists ry. apply Hty. }
    rewrite (bind_on_sched _ s l x s _ Hmax). rewrite <- Hrun in Hx.
    pose proof Hx as Hx2. apply list_elem_of_lookup in Hx2 as [k Hk].
    destruct (co_running _ _ _ _ Hc x Hx) as (rq & Ht & _).
    rewrite (remove_first_delete x (running s) k Hnd Hk).
    rewrite (bind_on_sched _ s l tt (set_running (delete k (running s)) s)) by done.
    unfold local. rewrite bind_gets. cbn [st_loc].
    pose proof (delete_Permutation _ _ _ Hk) as Hperm.
    assert (Hxd : x ∉ delete k (running s)).
    { rewrite Hperm in Hnd. by apply NoDup_cons in Hnd as [? _]. }
    assert (Hrest : ∀ y, y ∈ scheduled l → y ≠ x → y ∈ delete k (running s)).
    { intros y Hy Hyx. pose proof (bo_running _ _ _ (so_book _ _ _ _ Hok) y Hy) as Hyr. simpl in Hyr.
      rewrite Hperm in Hyr. apply elem_of_cons in Hyr as [->|]; done. }
    assert (Hwork : in_work s l r) by (split; [eauto|congruence]).
    destruct (decide (x ∈ scheduled_running_reqs l)) as [Hxs|Hxs].
    + destruct (bo_booked _ _ _ (so_book _ _ _ _ Hok) x rq) as [(n & Hn & Hbk) (b & Hb & _)];
        [simpl; by rewrite (run_phase_scheduled _ _ Hp)|apply Ht|]. simpl in Hn, Hb.
      destruct (unschedule_run (set_running (delete k (running s)) s) l x rq n b) as (l' & Hu & Hul);
        [apply Ht|done|done|apply Hp|]. rewrite (bind_ok _ _ _ _ _ Hu).
      exists x, (delete k (running s)), l'. split; [done|].
      destruct (step_ok_unscheduled all s l l' x rq n Hok Hp Hxs Ht Hn Hul) as [Hok' Hiff].
      destruct (rp_before _ _ Hp x Hxs) as (j & Hj & Hjl).
      pose proof (NoDup_lookup _ _ _ _ Hnd Hj Hk) as ->.
      split; [done|done|by intros [? _]%Hiff|by intros y [? ?]%Hiff; auto| | | |by apply Hul| |by intros [_ ?]%Hiff].
      * eapply (run_phase_delete s l l' x rq); [done|done|done|apply Ht|by intros [? _]%Hiff| |].
        { intros y _ Hyx Hy Hyl. apply Hy, Hiff. done. }
        right. exists n. split; [done|]. split; [done|].
        rewrite <- (run_phase_scheduled _ _ Hp). apply (so_book _ _ _ _ Hok).
      * intros Hxr. apply (in_work_delete s l r k x Hnd Hk Hxr Hwork Hpol). right.
        split; [apply Hul|done].
      * rewrite (un_index _ _ _ _ _ Hul). pose proof (Permutation_length Hperm) as Hpl. simpl in Hpl. unfold len. lia.
      * rewrite (un_budget _ _ _ _ _ Hul). pose proof (bk_pos _ _ _ _ _ Hbk). lia.
    + rewrite bind_ret_l. exists x, (delete k (running s)), l. split; [done|].
      assert (Hxs' : x ∉ scheduled l) by (by rewrite (run_phase_scheduled _ _ Hp)).
      split; [done|done|done| | | | |done|done|done].
      * intros y Hy. apply Hrest; [done|]. by intros ->.
      * eapply (run_phase_delete s l l x rq); [done|done|done|apply Ht|done|done|by left].
      * intros Hxr. apply (in_work_delete s l r k x Hnd Hk Hxr Hwork Hpol). by left.
      * pose proof (Permutation_length Hperm) as Hpl. simpl in Hpl. unfold len. lia.
Qed.

(** ** Allocation *)

(** An operation of the KV cache manager for a running request that is not
    scheduled yet. *)
Lemma kv_step_ok all s l r rq m' :
  step_ok all (mkStep s l) → tracked s r rq → r ∈ running s → r ∉ scheduled l → kv_ok m' →
  kv_frame (Some (request_id rq)) (kv_cache_manager s) m' →
  runs m' rq → step_ok all (mkStep (set_kv m' s) l).
Proof.
  intros [Hc Hall Hq Hsk Hb Hm Hmax] Ht Hr Hs Hkv Hf Hruns. unfold all_waiting in *. simpl in *.
  assert (Hch : changes s (set_kv m' s) r rq rq).
  { split; [done| |done|done]. simpl. symmetry. apply insert_id, Ht. }
  pose proof (co_nodup _ _ _ _ Hc) as Hnd. apply NoDup_app in Hnd as (Hnr & Hdis & _).
  split; unfold all_waiting; simpl; try done.
  - eapply (core_change cfg hbs); [exact Hc|exact Ht|exact Hch|done|apply Hc|auto|auto|done|].
    intros Hw. by destruct (Hdis r Hr).
  - by eapply (bookings_change cfg hbs); [exact Hc|exact Ht|exact Hch|done|apply (bo_running _ _ _ Hb)|].
  - refine (marks_change s _ l l _ _ r rq rq Hch eq_refl _ _ _ _ eq_refl _ Hm); [auto| |auto|auto|].
    + intros Hw. by destruct (Hdis r Hr).
    + intros Hw. apply Hs. unfold scheduled. rewrite !elem_of_app. auto.
Qed.

Lemma run_phase_same s s' l l' :
  run_phase s l → running s' = running s → (∀ r, r ∈ running s → store s' !! r = store s !! r) →
  scheduled_new_reqs l' = scheduled_new_reqs l → scheduled_resumed_reqs l' = scheduled_resumed_reqs l →
  skipped_waiting_requests l' = skipped_waiting_requests l →
  scheduled_encoder_inputs l' = scheduled_encoder_inputs l → req_index l' = req_index l →
  scheduled_running_reqs l' = scheduled_running_reqs l → run_phase s' l'.
Proof.
  intros [H1 H2 H3 H4 H5 H6 H7] Hr Hs E1 E2 E3 E4 E5 E6.
  split; rewrite ?E1, ?E2, ?E3, ?E4, ?E5, ?E6, ?Hr; try done.
  intros r rq Hin. unfold scheduled. rewrite E6, E1, E2, Hs by done. by apply H7.
Qed.

Lemma allocate_or_preempt_ok all r rq n fuel : ∀ s l,
  (length (running s) < fuel)%nat → step_ok all (mkStep s l) → run_phase s l → in_work s l r →
  r ∉ scheduled l → store s !! r = Some rq → 0 < n → num_computed_tokens rq + n < sc_max_model_len cfg →
  0 ≤ sc_num_lookahead_tokens cfg →
  ∃ res s' l', allocate_or_preempt cfg set_order ts fuel r n (mkStep s l) = (Ok res, mkStep s' l') ∧
    step_ok all (mkStep s' l') ∧ run_phase s' l' ∧
    len (running s') - req_index l' ≤ len (running s) - req_index l ∧
    token_budget l ≤ token_budget l' ∧
    match res with
    | Some b => in_work s' l' r ∧ (r ∉ scheduled l') ∧ store s' !! r = Some rq ∧
        kv_valid (kv_cache_manager s') b ∧
        kv_slots (kv_cache_manager s') (request_id rq) (num_computed_tokens rq + n)
    | None => preempted_reqs l' ≠ []
    end.
Proof.
  induction fuel as [|fuel IH]; intros s l Hfuel Hok Hp Hw Hs Hr Hn Hlen Hlook; [lia|]. simpl.
  pose proof (so_core _ _ _ _ Hok) as Hc. simpl in Hc.
  assert (Hin : r ∈ running s) by (destruct Hw as [(i & Hi & _) _]; by eapply list_elem_of_lookup_2).
  destruct (co_running _ _ _ _ Hc r Hin) as (rq0 & Ht & Hruns).
  pose proof (tracked_eq _ _ _ _ _ _ Ht Hr) as ->.
  rewrite (bind_on_sched _ s l rq0 s _ (request_of_run _ _ _ Hr)).
  pose proof (tr_len _ _ _ (tk_text _ _ _ _ _ Ht)) as Hnt.
  destruct (ks_extend (kv_cache_manager s) rq0 n (sc_num_lookahead_tokens cfg))
    as (res & m' & Hrun & Hkv & Hf & Hres);
    [apply Hc|apply (tk_text _ _ _ _ _ Ht)|lia|apply Hruns|apply Hruns|done|done|lia|].
  rewrite (bind_on_sched _ s l _ _ _ (kv_run _ _ _ _ Hrun)).
  assert (Hruns' : runs m' rq0).
  { destruct Hruns. split; try done. destruct res; [|done]. destruct Hres as [_ Hsl].
    eapply (ks_fewer (hbs := hbs) (max_len := sc_max_model_len cfg) (log := sc_log_stats cfg)); [exact Hsl|lia]. }
  pose proof (kv_step_ok all s l r rq0 m' Hok Ht Hin Hs Hkv Hf Hruns') as Hok1.
  assert (Hp1 : run_phase (set_kv m' s) l) by by eapply run_phase_same.
  destruct res as [b|].
  - exists (Some b), (set_kv m' s), l. split; [done|]. split; [done|]. split; [done|].
    split; [done|]. split; [done|]. split; [apply Hw|]. by destruct Hres.
  - destruct (pick_preempted_ok all (set_kv m' s) l r Hok1 Hp1 Hw Hs) as (x & run' & l' & Hpick & Hpk).
    rewrite (bind_ok _ _ _ _ _ Hpick).
    destruct (preempt_step all (mkStep (set_kv m' s) l') x run' (pk_ok _ _ _ _ _ _ _ Hpk)
      (pk_perm _ _ _ _ _ _ _ Hpk) (pk_unscheduled _ _ _ _ _ _ _ Hpk) (pk_rest _ _ _ _ _ _ _ Hpk))
      as (s2 & Hpre & Hok2 & Hrn & Hst2). simpl in Hpre, Hok2, Hst2.
    rewrite (bind_on_sched _ (set_running run' (set_kv m' s)) l' tt s2 _ Hpre).
    unfold set_local. rewrite bind_modify. cbn [st_sched st_loc].
    set (l2 := set_preempted_reqs (preempted_reqs l' ++ [x]) l') in *.
    assert (Hnx : x ∉ run').
    { pose proof (co_nodup _ _ _ _ Hc) as Hnd. apply NoDup_app in Hnd as (Hnd & _).
      pose proof (pk_perm _ _ _ _ _ _ _ Hpk) as Hpp. simpl in Hpp. rewrite Hpp in Hnd.
      by apply NoDup_cons in Hnd as [? _]. }
    assert (Hp2 : run_phase s2 l2).
    { eapply run_phase_same; [apply (pk_phase _ _ _ _ _ _ _ Hpk)|done| |done..].
      simpl. intros y Hy. apply Hst2. by intros ->. }
    assert (Hcl : len (running s2) - req_index l2 ≤ len (running s) - req_index l).
    { rewrite Hrn. apply (pk_closer _ _ _ _ _ _ _ Hpk). }
    destruct (decide (x = r)) as [Hxr|Hxr].
    + exists None, s2, l2. split; [done|]. split; [done|]. split; [done|]. split; [done|].
      split; [apply (pk_budget _ _ _ _ _ _ _ Hpk)|]. unfold l2. simpl. by destruct (preempted_reqs l').
    + destruct (IH s2 l2) as (res & s' & l3 & Hrun3 & Hok3 & Hp3 & Hcl3 & Hbu3 & Hres3); try done.
      * rewrite Hrn. pose proof (Permutation_length (pk_perm _ _ _ _ _ _ _ Hpk)) as Hpl. simpl in Hpl. lia.
      * destruct (pk_work _ _ _ _ _ _ _ Hpk Hxr) as [Hw1 Hw2]. unfold in_work. rewrite Hrn. split; done.
      * apply (pk_other _ _ _ _ _ _ _ Hpk).
      * by rewrite Hst2.
      * exists res, s', l3. split; [exact Hrun3|]. split; [done|]. split; [done|]. split; [lia|].
        split; [|done]. pose proof (pk_budget _ _ _ _ _ _ _ Hpk). unfold l2 in Hbu3. simpl in Hbu3. lia.
Qed.

(** ** The loop *)

Lemma limit_prefill_bounds n : 0 ≤ n → 0 ≤ limit_prefill cfg n ≤ n.
Proof. intros Hn. unfold limit_prefill. case_decide; lia. Qed.

Lemma running_new_tokens_bounds rq budget :
  num_computed_tokens rq ≤ num_tokens_with_spec rq + num_output_placeholders rq →
  num_computed_tokens rq < sc_max_model_len cfg → 0 < budget →
  let n := running_new_tokens cfg rq budget in
  0 ≤ n ≤ budget ∧ num_computed_tokens rq + n < sc_max_model_len cfg ∧
  num_computed_tokens rq + n ≤ num_tokens_with_spec rq + num_output_placeholders rq.
Proof.
  intros H1 H2 H3. unfold running_new_tokens.
  pose proof (limit_prefill_bounds (num_tokens_with_spec rq + num_output_placeholders rq
    - num_computed_tokens rq) ltac:(lia)). simpl. lia.
Qed.

Lemma schedule_encoder_text rq computed n s l : has_encoder_inputs rq = false →
  schedule_encoder (W := W) cfg None rq computed n (mkStep s l) =
    (Ok ([], n, encoder_compute_budget l, []), mkStep s l).
Proof. intros H. unfold schedule_encoder, local. rewrite bind_gets. by rewrite H. Qed.

Lemma allocate_encoder_text r rq budget s l : store s !! r = Some rq →
  allocate_encoder (W := W) cfg None r [] budget [] (mkStep s l) = (Ok tt, mkStep s l).
Proof.
  intros H. unfold allocate_encoder. by rewrite (bind_on_sched _ s l rq s _ (request_of_run _ _ _ H)).
Qed.

(** The speculative tokens are booked with the others, and taken away. *)
Lemma schedule_spec_run s l r rq n (id := request_id rq) :
  store s !! r = Some rq → num_computed_tokens rq + n ≤ num_tokens_with_spec rq + num_output_placeholders rq →
  ∃ rq' spec, schedule_spec_tokens (W := W) r n (mkStep s l) =
      (Ok tt, mkStep (set_store (<[r := rq']> (store s)) s) (set_scheduled_spec_decode_tokens spec l)) ∧
    same_request rq rq' ∧ status rq' = status rq ∧ num_computed_tokens rq' = num_computed_tokens rq ∧
    num_output_placeholders rq' = num_output_placeholders rq ∧ spec_token_ids rq' = [] ∧
    (∀ id', id' ≠ id → od_get id' spec = od_get id' (scheduled_spec_decode_tokens l)) ∧
    num_computed_tokens rq + n ≤ num_tokens rq + num_output_placeholders rq + len (default [] (od_get id spec)).
Proof.
  intros Hr Hn. unfold schedule_spec_tokens.
  rewrite (bind_on_sched _ s l rq s _ (request_of_run _ _ _ Hr)).
  pose proof (len_nonneg (default [] (od_get id (scheduled_spec_decode_tokens l)))) as Hl0.
  unfold num_tokens_with_spec in Hn. destruct (spec_token_ids rq) as [|t ts'] eqn:Hs.
  { exists rq, (scheduled_spec_decode_tokens l). rewrite insert_id by done.
    split; [by destruct s, l|]. do 4 (split; [done|]). split; [done|]. split; [done|].
    unfold num_tokens. change (len (@nil Z)) with 0 in Hn. lia. }
  rewrite <- Hs in *. case_decide as Hk.
  - unfold set_local. rewrite bind_modify. cbn [st_sched st_loc].
    rewrite (on_sched_run _ s _ _ _ (update_request_run s r rq _ Hr)).
    eexists _, _. split; [reflexivity|]. do 5 (split; [done|]). split.
    + intros id' Hid. rewrite od_get_set, decide_False; [done|]. exact Hid.
    + rewrite od_get_set, decide_True by done. simpl. rewrite py_upto_nonneg by lia.
      unfold num_tokens, len in *. rewrite length_take. lia.
  - rewrite bind_ret_l. rewrite (on_sched_run _ s _ _ _ (update_request_run s r rq _ Hr)).
    exists (set_spec_token_ids [] rq), (scheduled_spec_decode_tokens l).
    split; [by destruct l|]. do 5 (split; [done|]). split; [done|]. lia.
Qed.

Lemma book_running all s l r rq n b budget :
  step_ok all (mkStep s l) → run_phase s l → in_work s l r → r ∉ scheduled l → tracked s r rq →
  0 < n ≤ token_budget l → num_computed_tokens rq + n < sc_max_model_len cfg →
  num_computed_tokens rq + n ≤ num_tokens_with_spec rq + num_output_placeholders rq →
  kv_valid (kv_cache_manager s) b →
  kv_slots (kv_cache_manager s) (request_id rq) (num_computed_tokens rq + n) →
  ∃ s' l', (commit_running r n b ;;;
      let* again := next_request in
      schedule_spec_tokens r n ;;;
      allocate_encoder cfg None r [] budget [] ;;;
      ret again) (mkStep s l) = (Ok Again, mkStep s' l') ∧
    step_ok all (mkStep s' l') ∧ run_phase s' l' ∧ running s' = running s ∧
    req_index l' = req_index l + 1.
Proof.
  intros Hok Hp Hw Hs Ht Hn Hlen Hknown Hv Hsl. pose proof (tk_store _ _ _ _ _ Ht) as Hr.
  destruct Hok as [Hc Hall Hq Hsk Hb Hm Hmax]. unfold all_waiting in *. simpl in Hc, Hall, Hq, Hsk, Hb, Hm, Hmax.
  assert (Hin : r ∈ running s) by (destruct Hw as [(i & Hi & _) _]; by eapply list_elem_of_lookup_2).
  destruct (co_running _ _ _ _ Hc r Hin) as (rq0 & Ht0 & Hruns).
  pose proof (tracked_eq _ _ _ _ _ _ Ht0 Hr) as <-. clear Ht0.
  set (id := request_id rq).
  set (l1 := set_req_index (req_index l + 1) (set_token_budget (token_budget l - n)
    (set_num_scheduled_tokens (od_set id n (num_scheduled_tokens l))
      (set_req_to_new_blocks (od_set id b (req_to_new_blocks l))
        (set_running_reqs (scheduled_running_reqs l ++ [r]) l))))).
  destruct (schedule_spec_run s l1 r rq n Hr Hknown)
    as (rq' & spec & Hrun & Hsame & Hst & Hcomp & Hph & Hspec & Hothers & Hkn).
  set (s' := set_store (<[r := rq']> (store s)) s) in *.
  set (l' := set_scheduled_spec_decode_tokens spec l1) in *.
  assert (Hch : changes s s' r rq rq') by (split; [done|done|done|by split]).
  exists s', l'. split; [|split; [|split; [|done]]].
  - unfold commit_running. rewrite bind_assoc, (bind_on_sched _ s l rq s _ (request_of_run _ _ _ Hr)).
    unfold next_request, set_local. repeat first [rewrite bind_assoc|rewrite bind_modify].
    cbn [st_sched st_loc].
    change (mkStep s _) with (mkStep s l1). rewrite bind_ret_l, (bind_ok _ _ _ _ _ Hrun).
    rewrite (bind_ok _ _ _ _ _ (allocate_encoder_text r rq' budget s' l' (lookup_insert_eq _ _ _))). done.
  - pose proof (co_nodup _ _ _ _ Hc) as Hnd. apply NoDup_app in Hnd as (Hnr & Hdis & _).
    split; unfold all_waiting; simpl; [|done| | | | |done].
    + refine (core_change cfg hbs s s' _ _ r rq rq' Hc Ht Hch (co_kv _ _ _ _ Hc) (co_nodup _ _ _ _ Hc) _ _ _ _);
        [auto|auto| |].
      * intros _. destruct Hruns. split; [congruence|by rewrite Hcomp| |by rewrite Hph].
        by rewrite (sq_id _ _ Hsame), Hcomp.
      * intros Hwt. by destruct (Hdis r Hin).
    + eapply q_ok_same; [by eapply changes_store|done].
    + eapply q_ok_same; [by eapply changes_store|done].
    + refine (bookings_book cfg hbs s s' l l' _ r rq rq' n Hc Ht Hch Hs _ (proj2 Hn) Hin _ _ Hb).
      * split; [|done| |done|done].
        -- unfold scheduled. simpl. rewrite (rp_new _ _ Hp), (rp_resumed _ _ Hp), !app_nil_r.
           by rewrite Permutation_app_comm.
        -- intros id' Hid. simpl. rewrite od_get_set. by rewrite decide_False.
      * apply (bo_running _ _ _ Hb).
      * split; simpl; rewrite (sq_id _ _ Hsame); fold id.
        -- exists n. rewrite od_get_set, decide_True by done. split; [done|].
           split; rewrite ?(sq_id _ _ Hsame), ?Hcomp, ?Hph; [lia|done|done|].
           unfold num_tokens in *. rewrite (sq_tokens _ _ Hsame). done.
        -- exists b. rewrite od_get_set, decide_True by done. done.
    + refine (marks_change s s' l l' _ _ r rq rq' Hch eq_refl _ _ _ _ eq_refl _ Hm); [auto| |auto|auto|].
      * intros Hwt. by destruct (Hdis r Hin).
      * intros Hwt. apply Hs. unfold scheduled. rewrite !elem_of_app. auto.
  - destruct Hp as [H1 H2 H3 H4 H5 H6 H7]. split; simpl; try done.
    + lia.
    + intros x [Hx|Hx%list_elem_of_singleton]%elem_of_app.
      * destruct (H6 x Hx) as (i & ? & ?). exists i. split; [done|lia].
      * subst x. destruct Hw as [(i & ? & ?) _]. exists i. split; [done|lia].
    + intros x rx Hx Hxs Hsx. unfold scheduled in Hxs. simpl in Hxs. rewrite !elem_of_app in Hxs.
      assert (Hxr : x ≠ r) by (intros ->; apply Hxs; left; right; by left).
      rewrite lookup_insert_ne in Hsx by done. apply (H7 x rx Hx); [|done].
      unfold scheduled. rewrite !elem_of_app. tauto.
Qed.

Lemma step_ok_index all s l i : step_ok all (mkStep s l) → step_ok all (mkStep s (set_req_index i l)).
Proof.
  intros [H1 H2 H3 H4 H5 [M1 M2 M3] H7]. split; try done. by apply (bookings_locals _ l).
Qed.

Lemma run_phase_next s l : run_phase s l → run_phase s (set_req_index (req_index l + 1) l).
Proof.
  intros [H1 H2 H3 H4 H5 H6 H7]. split; simpl; try done; [lia|].
  intros x Hx. destruct (H6 x Hx) as (i & ? & ?). exists i. split; [done|lia].
Qed.

Lemma in_work_index s l r : run_phase s l → running s !! Z.to_nat (req_index l) = Some r →
  in_work s l r ∧ (NoDup (running s) → r ∉ scheduled l).
Proof.
  intros Hp Hr. pose proof (rp_index _ _ Hp). split.
  - split; [|done]. exists (Z.to_nat (req_index l)). split; [done|lia].
  - intros Hnd. rewrite (run_phase_scheduled _ _ Hp). intros Hin.
    destruct (rp_before _ _ Hp r Hin) as (i & Hi & Hlt). pose proof (NoDup_lookup _ _ _ _ Hnd Hi Hr). lia.
Qed.

Context (Hlook : 0 ≤ sc_num_lookahead_tokens cfg).

Lemma schedule_running_one_ok all s l :
  step_ok all (mkStep s l) → run_phase s l → req_index l < len (running s) → 0 < token_budget l →
  ∃ nx s' l', schedule_running_one cfg None set_order ts (mkStep s l) = (Ok nx, mkStep s' l') ∧
    step_ok all (mkStep s' l') ∧ run_phase s' l' ∧
    (nx = Again → len (running s') - req_index l' < len (running s) - req_index l).
Proof.
  intros Hok Hp Hi Hb. pose proof (so_core _ _ _ _ Hok) as Hc. simpl in Hc. unfold schedule_running_one.
  rewrite (bind_on_sched get s l s s) by done. unfold local. rewrite bind_gets. cbn [st_loc].
  pose proof (rp_index _ _ Hp) as Hi0. rewrite py_index_nonneg by done.
  destruct (running s !! Z.to_nat (req_index l)) as [r|] eqn:Hr.
  2: { apply lookup_ge_None in Hr. unfold len in Hi. lia. }
  cbn [of_option]. rewrite bind_ret_l.
  destruct (in_work_index s l r Hp Hr) as [Hw Hns].
  assert (Hnd : NoDup (running s)) by (pose proof (co_nodup _ _ _ _ Hc) as Hnd; by apply NoDup_app in Hnd as [? _]).
  specialize (Hns Hnd). assert (Hin : r ∈ running s) by by eapply list_elem_of_lookup_2.
  destruct (co_running _ _ _ _ Hc r Hin) as (rq & Ht & Hruns). pose proof (tk_store _ _ _ _ _ Ht) as Hst.
  rewrite (bind_on_sched _ s l rq s _ (request_of_run _ _ _ Hst)).
  assert (Hskip : ∃ nx s' l', next_request (mkStep s l) = (Ok nx, mkStep s' l') ∧
    step_ok all (mkStep s' l') ∧ run_phase s' l' ∧
    (nx = Again → len (running s') - req_index l' < len (running s) - req_index l)).
  { eexists Again, s, _. split; [reflexivity|]. split; [by apply step_ok_index|].
    split; [by apply run_phase_next|]. simpl. lia. }
  destruct (reached_max_tokens rq); [exact Hskip|].
  pose proof (text_no_inputs _ _ _ (tk_text _ _ _ _ _ Ht)) as Henc.
  rewrite (bind_ok _ _ _ _ _ (schedule_encoder_text rq _ _ s l Henc)).
  destruct (rp_progress _ _ Hp r rq Hin Hns Hst) as [Hprog Hlen].
  destruct (running_new_tokens_bounds rq (token_budget l) Hprog Hlen Hb) as (Hn & Hnl & Hnk).
  set (n := running_new_tokens cfg rq (token_budget l)) in *.
  destruct (decide (n = 0)) as [|Hn0]; [exact Hskip|].
  destruct (allocate_or_preempt_ok all r rq n (S (length (running s))) s l)
    as (res & s1 & l1 & Hrun & Hok1 & Hp1 & Hcl & Hbud & Hres); [lia|done..|lia|lia|done|].
  rewrite (bind_ok _ _ _ _ _ Hrun). destruct res as [b|].
  - destruct Hres as (Hw1 & Hs1 & Hst1 & Hv & Hsl).
    destruct (core_tracked _ _ _ _ _ (so_core _ _ _ _ Hok1) (or_introl
      ltac:(destruct Hw1 as [(i & Hi1 & _) _]; by eapply list_elem_of_lookup_2))) as (rq1 & Ht1).
    simpl in Ht1. pose proof (tracked_eq _ _ _ _ _ _ Ht1 Hst1) as <-.
    destruct (book_running all s1 l1 r rq n b (encoder_compute_budget l)) as (s2 & l2 & Hrun2 & Hok2 & Hp2 & Hrn & Hix);
      [done..|lia|done|done|done|done|].
    exists Again, s2, l2. split; [exact Hrun2|]. split; [done|]. split; [done|]. intros _. rewrite Hrn, Hix. lia.
  - by exists Stop, s1, l1.
Qed.

Lemma schedule_running_ok all fuel : ∀ s l,
  len (running s) - req_index l < Z.of_nat fuel → step_ok all (mkStep s l) → run_phase s l →
  ∃ s' l', schedule_running cfg None set_order ts fuel (mkStep s l) = (Ok tt, mkStep s' l') ∧
    step_ok all (mkStep s' l') ∧ run_phase s' l'.
Proof.
  induction fuel as [|fuel IH]; intros s l Hf Hok Hp; simpl;
    rewrite (bind_on_sched get s l s s) by done; unfold local; rewrite bind_gets; cbn [st_loc];
    destruct (bool_decide (req_index l < len (running s)) && bool_decide (0 < token_budget l)) eqn:Hgo;
    try by exists s, l.
  - apply andb_true_iff in Hgo as [Hi%bool_decide_eq_true _]. lia.
  - apply andb_true_iff in Hgo as [Hi%bool_decide_eq_true Hb%bool_decide_eq_true].
    destruct (schedule_running_one_ok all s l Hok Hp Hi Hb) as (nx & s1 & l1 & Hrun & Hok1 & Hp1 & Hcl).
    rewrite (bind_ok _ _ _ _ _ Hrun). destruct nx; [|by exists s1, l1].
    apply IH; [|done|done]. specialize (Hcl eq_refl). lia.
Qed.
End running_phase.
