(* ===== verification/ScheduleWaiting.v ===== *)
(** The second loop of a scheduling step keeps the invariant: waiting requests
    start to run, wait on, or are skipped. *)

From S2P Require Import Prelude.
From S2P Require Import OrderedDict.
From S2P Require Import Request.
From S2P Require Import BlockPool.
From S2P Require Import KVCacheManager.
From S2P Require Import KVService.
From S2P Require Import EncoderCache.
From S2P Require Import RequestQueue.
From S2P Require Import RequestQueueSpec.
From S2P Require Import SchedulerState.
From S2P Require Import SchedulerEncoder.
From S2P Require Import Schedule.
From S2P Require Import SchedulerInvariant.
From S2P Require Import ScheduleRunning.

Section waiting_phase.
Context {W : Type} (cfg : SchedulerConfig) (hbs : Z).
Context {KP : KVPredicates} {KS : KVService hbs (sc_max_model_len cfg) (sc_log_stats cfg)}.
Context (set_order : gset Z → list Z).
Context (ts : Z) (grammar_ready : Request → bool).
Context (Hlora : sc_max_loras cfg = None).
Implicit Types (s : Scheduler W) (st : Step W) (l : StepLocals).

Abbreviation tracked := (tracked cfg hbs).
Abbreviation core := (core cfg hbs).
Abbreviation step_ok := (step_ok cfg hbs).

(** Running requests that are not scheduled in the end were so before. *)
Definition keeps s l s' l' : Prop :=
  ∀ x, x ∈ running s' → x ∉ scheduled l' →
    x ∈ running s ∧ (x ∉ scheduled l) ∧ store s' !! x = store s !! x.

Lemma keeps_refl s l : keeps s l s l.
Proof. by intros x Hx Hs. Qed.
Lemma keeps_trans s1 l1 s2 l2 s3 l3 : keeps s1 l1 s2 l2 → keeps s2 l2 s3 l3 → keeps s1 l1 s3 l3.
Proof.
  intros H1 H2 x Hx Hs. destruct (H2 x Hx Hs) as (Hx2 & Hs2 & ->). by apply H1.
Qed.

(** ** Changes of a waiting request *)

(** The request stays where it is and keeps nothing in the KV cache. *)
Lemma waiting_change_ok all s s' l r rq rq' :
  step_ok all (mkStep s l) → r ∈ items (waiting s) → tracked s r rq → changes s s' r rq rq' →
  kv_ok (kv_cache_manager s') → running s' = running s → waiting s' = waiting s →
  prev_step_scheduled_req_ids s' = prev_step_scheduled_req_ids s →
  waits (kv_cache_manager s') rq' → (status rq' = PREEMPTED → status rq = PREEMPTED) →
  step_ok all (mkStep s' l).
Proof.
  intros [Hc Hall Hq Hsk Hb Hm Hmax] Hr Ht Hch Hkv Hrn Hwt Hprev Hw Hpre.
  unfold all_waiting in *. simpl in Hc, Hall, Hq, Hsk, Hb, Hm, Hmax.
  assert (Hrw : r ∈ items (waiting s) ++ items (skipped_waiting_requests l)) by (apply elem_of_app; by left).
  pose proof (co_nodup _ _ _ _ Hc) as Hnd. apply NoDup_app in Hnd as (_ & Hdis & _).
  assert (Hnr : r ∉ running s) by (intros Hin; by apply (Hdis r Hin)).
  assert (Hns : r ∉ scheduled l) by (intros Hin; by apply Hnr, (bo_running _ _ _ Hb)).
  assert (Hss : store_same (store s) (store s')) by (eapply changes_store; [apply Ht|done]).
  split; unfold all_waiting; simpl; rewrite ?Hrn, ?Hwt; try done.
  - refine (core_change cfg hbs s s' _ _ r rq rq' Hc Ht Hch Hkv _ _ _ _ _); rewrite ?Hrn;
      [apply Hc|auto|auto|done|done].
  - by eapply q_ok_same.
  - by eapply q_ok_same.
  - refine (bookings_change cfg hbs s s' l _ r rq rq' Hc Ht Hch Hns _ Hb). rewrite Hrn. apply Hb.
  - refine (marks_change s s' l l _ _ r rq rq' Hch Hprev _ _ _ _ eq_refl _ Hm); [auto| |auto|auto|].
    + intros _ Hst Hp. apply (mk_preempted _ _ _ Hm r rq); [done|apply Ht|auto|done].
    + intros Hin. apply Hns. unfold scheduled. rewrite !elem_of_app. auto.
Qed.

(** A lookup in the prefix cache. *)
Lemma kv_all_ok all s l m' : step_ok all (mkStep s l) → kv_ok m' →
  kv_frame None (kv_cache_manager s) m' → step_ok all (mkStep (set_kv m' s) l).
Proof.
  intros [Hc Hall Hq Hsk [H1 H2 H3 H4 H5 H6 H7] Hm Hmax] Hkv Hf. split; try done.
  - by apply core_kv.
  - split; try done. intros r rq Hr Hst. eapply has_booking_frame; [exact Hf|done|]. by apply (H3 r).
  - destruct Hm. by split.
Qed.

Lemma waiting_not_running all s l r : step_ok all (mkStep s l) → r ∈ items (waiting s) → r ∉ running s.
Proof.
  intros Hok Hr Hin. pose proof (co_nodup _ _ _ _ (so_core _ _ _ _ Hok)) as Hnd.
  apply NoDup_app in Hnd as (_ & Hdis & _). apply (Hdis r Hin), elem_of_app. by left.
Qed.

(** ** Is the request ready? *)

Lemma waiting_ready_ok all s l r rq :
  step_ok all (mkStep s l) → r ∈ items (waiting s) → tracked s r rq → waits (kv_cache_manager s) rq →
  ∃ b s' rq', waiting_ready cfg None grammar_ready r (mkStep s l) = (Ok b, mkStep s' l) ∧
    step_ok all (mkStep s' l) ∧ waiting s' = waiting s ∧ running s' = running s ∧
    tracked s' r rq' ∧ waits (kv_cache_manager s') rq' ∧ keeps s l s' l ∧
    (b = true → status rq' = WAITING ∨ status rq' = PREEMPTED).
Proof.
  intros Hok Hr Ht Hw. pose proof (tk_store _ _ _ _ _ Ht) as Hst. unfold waiting_ready.
  rewrite (bind_on_sched _ s l rq s _ (request_of_run _ _ _ Hst)).
  rewrite (decide_False (P := status rq = WAITING_FOR_REMOTE_KVS))
    by (destruct (wt_status _ _ Hw) as [-> |[-> | ->]]; done).
  rewrite bind_ret_l. cbn [negb]. rewrite (bind_on_sched _ s l rq s _ (request_of_run _ _ _ Hst)).
  assert (Hend : ∀ (b : bool) (s' : Scheduler W),
    (if negb b then ret false else
     let* loras := local scheduled_loras in
     match sc_max_loras cfg, lora_request rq with
     | Some max_loras, Some lora =>
         ret (negb (bool_decide (Z.of_nat (size loras) = max_loras)
                    && negb (bool_decide (lora_int_id lora ∈ loras))))
     | _, _ => ret true
     end) (mkStep s' l) = (Ok b, mkStep s' l)).
  { intros [] s'; [|done]. by rewrite Hlora. }
  destruct (decide (status rq = WAITING_FOR_FSM)) as [Hfsm|Hfsm].
  - destruct (use_structured_output rq && grammar_ready rq).
    + rewrite bind_assoc, (bind_on_sched _ s l _ _ _ (update_request_run s r rq _ Hst)), bind_ret_l, Hend.
      set (rq' := set_status WAITING rq). set (s' := set_store _ s).
      assert (Hch : changes s s' r rq rq') by (split; [done|done|done|by split]).
      assert (Hw' : waits (kv_cache_manager s) rq') by (destruct Hw; split; try done; by left).
      exists true, s', rq'. split; [done|]. split; [by eapply waiting_change_ok; [| | |exact Hch|apply (so_core _ _ _ _ Hok)|..]|].
      split; [done|]. split; [done|]. split; [by eapply tracked_changed|]. split; [done|]. split; [|by left].
      intros x Hx Hxs. split; [done|]. split; [done|]. apply (changes_other _ _ _ _ _ _ Hch).
      intros ->. by apply (waiting_not_running all s l r Hok).
    + rewrite bind_ret_l, Hend. exists false, s, rq. do 6 (split; [done|]). split; [apply keeps_refl|done].
  - rewrite bind_ret_l, Hend. exists true, s, rq. do 6 (split; [done|]). split; [apply keeps_refl|]. intros _. destruct (wt_status _ _ Hw) as [H|[H|H]]; [by left|done|by right].
Qed.

Lemma skip_waiting_ok all s l r :
  step_ok all (mkStep s l) → queue_bool (waiting s) = true → waiting_peek s = (Ok r, s) →
  ∃ s' l', skip_waiting r (mkStep s l) = (Ok tt, mkStep s' l') ∧ step_ok all (mkStep s' l') ∧
    (length (items (waiting s')) < length (items (waiting s)))%nat ∧
    keeps s l s' l' ∧ preempted_reqs l' = preempted_reqs l.
Proof.
  intros [Hc Hall Hq Hsk Hb Hm Hmax] Hbool Hpeek. unfold all_waiting in *.
  simpl in Hc, Hall, Hq, Hsk, Hb, Hm, Hmax.
  destruct (waiting_front s Hq Hbool) as (r' & q' & Hpk & Hpop & Hq' & Hi).
  rewrite Hpeek in Hpk. injection Hpk as <-. unfold skip_waiting.
  rewrite (bind_on_sched _ s l r _ _ Hpop), (bind_on_sched get _ l _ (set_waiting q' s)) by done.
  destruct (items_prepend (set_waiting q' s) r (skipped_waiting_requests l) Hsk) as [Hsk' Hi'].
  set (sk' := prepend_request _ r _) in *. exists (set_waiting q' s), (set_skipped sk' l).
  split; [reflexivity|]. clearbody sk'.
  assert (Hperm : items (waiting s) ++ items (skipped_waiting_requests l) ≡ₚ items q' ++ items sk').
  { rewrite Hi, Hi'. simpl. by rewrite Permutation_middle. }
  split; [|split; [simpl; apply Permutation_length in Hi; simpl in Hi; lia|done]].
  split; unfold all_waiting; simpl; try done.
  - apply (core_perm _ _ _ _ _ Hperm) in Hc. by eapply core_same; [..|exact Hc].
  - by rewrite <- Hperm.
  - apply (bookings_locals _ _ l); [done..|]. by destruct Hb.
  - destruct Hm as [M1 M2 M3]. split; try done. intros x rx Hx. apply M1. by rewrite Hperm.
Qed.

(** ** A request starts *)

(** The effect of [start_running] on a waiting request. *)
Lemma start_running_run s l r rq h n (id := request_id rq) :
  store s !! r = Some rq → status rq = WAITING ∨ status rq = PREEMPTED →
  ∃ s' l' rq', start_running cfg ts r h n (mkStep s l) = (Ok tt, mkStep s' l') ∧
    same_request rq rq' ∧ store s' = <[r := rq']> (store s) ∧ sched_requests s' = sched_requests s ∧
    kv_cache_manager s' = kv_cache_manager s ∧ waiting s' = waiting s ∧
    prev_step_scheduled_req_ids s' = prev_step_scheduled_req_ids s ∧
    running s' = running s ++ [r] ∧ status rq' = RUNNING ∧
    num_computed_tokens rq' = hits_computed h ∧ num_output_placeholders rq' = num_output_placeholders rq ∧
    scheduled l' ≡ₚ r :: scheduled l ∧
    (scheduled_resumed_reqs l' = scheduled_resumed_reqs l ∨
     (status rq = PREEMPTED ∧ scheduled_resumed_reqs l' = scheduled_resumed_reqs l ++ [r])) ∧
    num_scheduled_tokens l' = od_set id n (num_scheduled_tokens l) ∧
    req_to_new_blocks l' = od_set id (get_blocks id (kv_cache_manager s)) (req_to_new_blocks l) ∧
    scheduled_spec_decode_tokens l' = scheduled_spec_decode_tokens l ∧
    token_budget l' = token_budget l - n ∧ preempted_reqs l' = preempted_reqs l ∧
    skipped_waiting_requests l' = skipped_waiting_requests l.
Proof.
  intros Hr Hstat. unfold start_running.
  rewrite (bind_on_sched _ s l rq s _ (request_of_run _ _ _ Hr)).
  rewrite (bind_on_sched (_update_connector_prefix_cache_stats rq) s l tt _ _ eq_refl).
  set (s1 := set_connector_stats _ s).
  rewrite (bind_on_sched (modify _) s1 l tt _ _ eq_refl). set (s2 := set_running _ s1).
  assert (∃ s3 rq3, (if sc_log_stats cfg then on_sched (update_request r (record_event SCHEDULED ts))
      else ret tt) (mkStep s2 l) = (Ok tt, mkStep s3 l) ∧
    s3 = set_store (<[r := rq3]> (store s)) s2 ∧ same_request rq rq3 ∧
    num_output_placeholders rq3 = num_output_placeholders rq) as (s3 & rq3 & Hlog & -> & Hs3 & Hp3).
  { destruct (sc_log_stats cfg).
    - rewrite (on_sched_run _ s2 l _ _ (update_request_run s2 r rq _ Hr)). eexists _, _.
      split; [reflexivity|]. done.
    - exists s2, rq. split; [done|]. split; [|done]. unfold s2, s1. rewrite insert_id by done. by destruct s. }
  rewrite (bind_ok _ _ _ _ _ Hlog). set (s3 := set_store _ s2).
  set (l1 := if decide (status rq = WAITING) then set_new_reqs (scheduled_new_reqs l ++ [r]) l
             else set_resumed_reqs (scheduled_resumed_reqs l ++ [r]) l).
  assert (Hsel : ∀ B (K : unit → M (Step W) B),
    bind (match status rq with
     | WAITING => set_local (λ l, set_new_reqs (scheduled_new_reqs l ++ [r]) l)
     | PREEMPTED => set_local (λ l, set_resumed_reqs (scheduled_resumed_reqs l ++ [r]) l)
     | _ => raise RuntimeError
     end) K (mkStep s3 l) = K tt (mkStep s3 l1)).
  { intros B K. unfold l1. by destruct Hstat as [-> | ->]. }
  rewrite Hsel. rewrite Hlora. rewrite bind_ret_l.
  rewrite (bind_on_sched get s3 l1 s3 s3) by done. unfold set_local.
  repeat first [rewrite bind_assoc|rewrite bind_modify]. cbn [st_sched st_loc].
  assert (Hr3 : store s3 !! r = Some rq3) by apply lookup_insert_eq.
  rewrite (on_sched_run _ s3 _ _ _ (update_request_run s3 r rq3 _ Hr3)).
  set (f := λ rq0 : Request,
    let rq1 := set_num_computed_tokens (hits_computed h) (set_status RUNNING rq0) in
    if decide (num_cached_tokens rq1 < 0) then set_num_cached_tokens (hits_computed h) rq1 else rq1).
  eexists _, _, (f rq3). split; [reflexivity|]. assert (Hf : same_request rq3 (f rq3) ∧ status (f rq3) = RUNNING ∧
    num_computed_tokens (f rq3) = hits_computed h ∧
    num_output_placeholders (f rq3) = num_output_placeholders rq3).
  { unfold f. by case_decide. }
  destruct Hf as (Hf1 & Hf2 & Hf3 & Hf4). split; [by etrans|].
  split; [simpl; by rewrite insert_insert_eq|]. do 5 (split; [done|]).
  split; [done|]. split; [done|]. split; [by rewrite Hf4|].
  simpl. unfold scheduled, l1. simpl. destruct (decide (status rq = WAITING)) as [Hw|Hw]; simpl.
  - split; [|split; [by left|done]].
    rewrite <- !app_assoc, !(app_assoc (scheduled_running_reqs l)). simpl.
    by rewrite <- Permutation_middle.
  - assert (status rq = PREEMPTED) by (by destruct Hstat).
    split; [|split; [by right|done]]. rewrite !app_assoc. by rewrite Permutation_app_comm.
Qed.

Lemma start_running_ok all s l r rq q' m' h n :
  step_ok all (mkStep s l) → preempted_reqs l = [] → tracked s r rq → waits (kv_cache_manager s) rq →
  items (waiting s) ≡ₚ r :: items q' → q_ok s q' → status rq = WAITING ∨ status rq = PREEMPTED →
  kv_ok m' → kv_frame (Some (request_id rq)) (kv_cache_manager s) m' →
  kv_slots m' (request_id rq) (hits_computed h + n) → 0 ≤ hits_computed h → 0 < n ≤ token_budget l →
  hits_computed h + n ≤ num_tokens rq → len (running s) < sc_max_num_running_reqs cfg →
  ∃ s' l', start_running cfg ts r h n (mkStep (set_waiting q' (set_kv m' s)) l) = (Ok tt, mkStep s' l') ∧
    step_ok all (mkStep s' l') ∧ waiting s' = q' ∧ preempted_reqs l' = [] ∧ is_Some (store s' !! r) ∧ keeps s l s' l'.
Proof.
  intros [Hc Hall Hq Hsk Hb Hm Hmax] Hpre Ht Hw Hi Hq' Hstat Hkv Hf Hsl Hh Hn Hknown Hcap.
  unfold all_waiting in *. simpl in Hc, Hall, Hq, Hsk, Hb, Hm, Hmax.
  destruct (start_running_run (set_waiting q' (set_kv m' s)) l r rq h n (tk_store _ _ _ _ _ Ht) Hstat)
    as (s' & l' & rq' & Hrun & Hsame & Hst & Hreqs & Hkvs & Hwt & Hprev & Hrn & Hrs & Hcomp & Hph & Hsch
        & Hres & Hnum & Hblk & Hspec & Hbud & Hpre' & Hskp). simpl in Hst, Hreqs, Hkvs, Hwt, Hprev, Hrn, Hblk.
  assert (Hch : changes s s' r rq rq') by (split; [done|done|done|by rewrite Hkvs]).
  assert (Hid : request_id rq' = request_id rq) by apply Hsame.
  assert (Hnt : num_tokens rq' = num_tokens rq) by (unfold num_tokens; by rewrite (sq_tokens _ _ Hsame)).
  pose proof (tr_len _ _ _ (tk_text _ _ _ _ _ Ht)) as Hlen.
  assert (Hss : store_same (store s) (store s')) by (eapply changes_store; [apply Ht|done]).
  pose proof (co_nodup _ _ _ _ Hc) as Hnd. rewrite Hi in Hnd. simpl in Hnd.
  assert (Hnr : r ∉ running s).
  { apply NoDup_app in Hnd as (_ & Hdis & _). intros Hin. apply (Hdis r Hin). by left. }
  assert (Hns : r ∉ scheduled l) by (intros Hin; by apply Hnr, (bo_running _ _ _ Hb)).
  assert (Hnw : NoDup (running s' ++ items q' ++ items (skipped_waiting_requests l))).
  { rewrite Hrn, <- app_assoc. exact Hnd. }
  exists s', l'. split; [exact Hrun|]. split; [|split; [done|split; [by rewrite Hpre'|split]]].
  2: { rewrite Hst, lookup_insert_eq. by eexists. }
  2: { intros x. rewrite Hrn, Hsch, not_elem_of_cons. intros [Hx|Hx%list_elem_of_singleton]%elem_of_app [Hxr Hxs];
         [|done]. split; [done|]. split; [done|]. by apply (changes_other _ _ _ _ _ _ Hch). }
  split; unfold all_waiting; simpl; rewrite ?Hwt, ?Hskp.
  - refine (core_change cfg hbs s s' _ _ r rq rq' Hc Ht Hch _ Hnw _ _ _ _).
    + by rewrite Hkvs.
    + rewrite Hrn. intros x [Hx|Hx%list_elem_of_singleton]%elem_of_app; auto.
    + intros x Hx. right. rewrite Hi. by right.
    + intros _. rewrite Hkvs. split; [done|by rewrite Hcomp| |rewrite Hph; apply Hw].
      rewrite Hid, Hcomp. eapply (ks_fewer (hbs := hbs) (max_len := sc_max_model_len cfg) (log := sc_log_stats cfg)); [exact Hsl|lia].
    + intros Hx. rewrite Hrn, <- app_assoc in Hnw. apply NoDup_app in Hnw as (_ & _ & Hnw).
      by apply NoDup_cons in Hnw as [? _].
  - rewrite <- Hall, Hi, Hrn, <- app_assoc. done.
  - by eapply q_ok_same.
  - by eapply q_ok_same.
  - refine (bookings_book cfg hbs s s' l l' _ r rq rq' n Hc Ht Hch Hns _ (proj2 Hn) _ _ _ Hb).
    + split; [done|done| |by rewrite Hspec|done]. intros id' Hne. by rewrite Hblk, od_get_set, decide_False.
    + rewrite Hrn. apply elem_of_app. right. by left.
    + intros x Hx. rewrite Hrn. apply elem_of_app. left. by apply (bo_running _ _ _ Hb).
    + split; rewrite Hid, ?Hkvs.
      * exists n. rewrite Hnum, od_get_set, decide_True by done. split; [done|].
        pose proof (len_nonneg (default [] (od_get (request_id rq') (scheduled_spec_decode_tokens l')))).
        pose proof (wt_placeholders _ _ Hw).
        split; rewrite ?Hid, ?Hcomp, ?Hph, ?Hnt; [lia|lia|done|]. rewrite Hid in *. lia.
      * exists (get_blocks (request_id rq) m'). rewrite Hblk, od_get_set, decide_True by done.
        split; [done|]. by apply (ks_blocks (hbs := hbs) (max_len := sc_max_model_len cfg) (log := sc_log_stats cfg)).
  - destruct Hm as [M1 M2 M3]. rewrite Hpre in M1. split; rewrite ?Hprev, ?Hpre', ?Hpre.
    + intros x rx Hx Hsx Hpx Hp. assert (Hxr : x ≠ r).
      { intros ->. rewrite Hrn, <- app_assoc in Hnw. apply NoDup_app in Hnw as (_ & _ & Hnw).
        by apply NoDup_cons in Hnw as [? _]. }
      rewrite (changes_other _ _ _ _ _ _ Hch Hxr) in Hsx. apply (M1 x rx); [|done..]. rewrite Hi. by right.
    + intros x rx Hx Hsx. destruct (decide (x = r)) as [->|Hxr].
      * rewrite Hst, lookup_insert_eq in Hsx. injection Hsx as <-. rewrite Hid.
        destruct Hres as [Hres|[Hpst Hres]].
        { exfalso. apply Hns. rewrite Hres in Hx. unfold scheduled. rewrite !elem_of_app. auto. }
        intros Hp. apply (not_elem_of_nil r), (M1 r rq); [rewrite Hi; by left|apply Ht|done|done].
      * rewrite (changes_other _ _ _ _ _ _ Hch Hxr) in Hsx. apply (M2 x rx); [|done].
        destruct Hres as [Hres|[_ Hres]]; rewrite Hres in Hx; [done|].
        apply elem_of_app in Hx as [|Hx%list_elem_of_singleton]; done.
    + intros x Hx. by apply not_elem_of_nil in Hx.
  - rewrite Hrn, len_app. change (len [r]) with 1. lia.
Qed.

(** ** The loop *)

Lemma waiting_tokens_ok s l r rq b hits :
  store s !! r = Some rq → has_encoder_inputs rq = false → 0 ≤ hits < num_tokens rq → 0 < token_budget l →
  ∃ o, waiting_tokens cfg None r (mkHits b hits 0 false hits) (mkStep s l) = (Ok o, mkStep s l) ∧
    match o with
    | None => True
    | Some (inputs, n, _, external) =>
        inputs = [] ∧ external = [] ∧ 0 < n ≤ token_budget l ∧ hits + n ≤ num_tokens rq
    end.
Proof.
  intros Hr Henc Hh Hb. unfold waiting_tokens, local. rewrite bind_gets. cbn [st_loc load_kv_async hits_computed].
  rewrite (bind_on_sched _ s l rq s _ (request_of_run _ _ _ Hr)).
  assert (Hlim : 0 < limit_prefill cfg (num_tokens rq - hits) ≤ num_tokens rq - hits).
  { unfold limit_prefill. case_decide; lia. }
  set (n0 := limit_prefill cfg (num_tokens rq - hits)) in *.
  destruct (negb (sc_enable_chunked_prefill cfg) && bool_decide (token_budget l < n0)); [by exists None|].
  rewrite bind_assert_true by (apply bool_decide_eq_true_2; lia).
  rewrite (bind_ok _ _ _ _ _ (schedule_encoder_text cfg rq _ _ s l Henc)). rewrite Henc. simpl.
  eexists. split; [reflexivity|]. simpl. split; [done|]. split; [done|lia].
Qed.

Lemma schedule_waiting_one_ok all s l :
  step_ok all (mkStep s l) → preempted_reqs l = [] → queue_bool (waiting s) = true → 0 < token_budget l →
  ∃ nx s' l', schedule_waiting_one cfg None None set_order ts grammar_ready (mkStep s l) =
      (Ok nx, mkStep s' l') ∧
    step_ok all (mkStep s' l') ∧ preempted_reqs l' = [] ∧ keeps s l s' l' ∧
    (nx = Again → (length (items (waiting s')) < length (items (waiting s)))%nat).
Proof.
  intros Hok Hpre Hbool Hbud. unfold schedule_waiting_one.
  rewrite (bind_on_sched get s l s s) by done.
  destruct (decide (len (running s) = sc_max_num_running_reqs cfg)) as [Hfull|Hfull]; [exists Stop, s, l; do 3 (split; [done|]); by split; [apply keeps_refl|]|].
  assert (Hcap : len (running s) < sc_max_num_running_reqs cfg)
    by (pose proof (so_max_running _ _ _ _ Hok) as H; simpl in H; lia).
  destruct (waiting_front s (so_queue _ _ _ _ Hok) Hbool) as (r & q0 & Hpeek & _ & _ & Hi0).
  rewrite (bind_on_sched _ s l r s _ Hpeek).
  assert (Hin : r ∈ items (waiting s)) by (rewrite Hi0; by left).
  destruct (co_waiting _ _ _ _ (so_core _ _ _ _ Hok) r) as (rq & Ht & Hw); [apply elem_of_app; by left|].
  simpl in Ht, Hw.
  destruct (waiting_ready_ok all s l r rq Hok Hin Ht Hw) as (ready & s1 & rq1 & Hready & Hok1 & Hwt1 & Hrn1 & Ht1 & Hw1 & Hkeep1 & Hst1).
  rewrite (bind_ok _ _ _ _ _ Hready).
  assert (Hpk : peek_request (waiting s) = Ok r) by exact (f_equal fst Hpeek).
  assert (Hpeek1 : waiting_peek s1 = (Ok r, s1)).
  { change (waiting_peek s1) with (peek_request (waiting s1), s1). by rewrite Hwt1, Hpk. }
  destruct ready; cbn [negb].
  2: { rewrite <- Hwt1 in Hbool. destruct (skip_waiting_ok all s1 l r Hok1 Hbool Hpeek1)
         as (s2 & l2 & Hskip & Hok2 & Hlt & Hkeep2 & Hpre2).
       rewrite (bind_ok _ _ _ _ _ Hskip). exists Again, s2, l2. rewrite <- Hwt1, Hpre2.
       do 3 (split; [done|]). split; [|done]. by eapply keeps_trans. }
  pose proof (tk_text _ _ _ _ _ Ht1) as Htext. pose proof (tr_len _ _ _ Htext) as Hlen.
  pose proof (tk_store _ _ _ _ _ Ht1) as Hs1. pose proof (text_no_inputs _ _ _ Htext) as Henc.
  destruct (ks_lookup (hbs := hbs) (max_len := sc_max_model_len cfg) (log := sc_log_stats cfg) (kv_cache_manager s1) rq1)
    as (b & h & m2 & Hlook & Hkv2 & Hf2 & Hh & Hhits);
    [apply (so_core _ _ _ _ Hok1)|apply Htext|lia|].
  assert (Hwh : waiting_hits None r s1 = (Ok (Some (mkHits b h 0 false h)), set_kv m2 s1)).
  { unfold waiting_hits. rewrite (bind_ok _ _ _ _ _ (request_of_run _ _ _ Hs1)).
    rewrite decide_True by apply Hw1. by rewrite (bind_ok _ _ _ _ _ (kv_run _ _ _ _ Hlook)). }
  rewrite (bind_on_sched _ s1 l _ _ _ Hwh). set (s2 := set_kv m2 s1) in *.
  pose proof (kv_all_ok all s1 l m2 Hok1 Hkv2 Hf2) as Hok2. fold s2 in Hok2.
  assert (Ht2 : tracked s2 r rq1) by by destruct Ht1.
  assert (Hw2 : waits (kv_cache_manager s2) rq1) by (by eapply waits_frame).
  destruct (waiting_tokens_ok s2 l r rq1 b h Hs1 Henc Hh Hbud) as (plan & Hplan & Hpl).
  rewrite (bind_ok _ _ _ _ _ Hplan). destruct plan as [[[[inputs n] budget] external]|].
  2: { by exists Stop, s2, l. }
  destruct Hpl as (-> & -> & Hn & Hhn). cbn [fst snd].
  destruct (ks_admit (hbs := hbs) m2 rq1 b h n 0) as (res & m3 & Hadm & Hkv3 & Hf3 & Hres);
    [done|apply Htext|lia|apply Hw2|done|apply Hw1|lia|lia|done|lia|].
  assert (Hal : allocate_waiting cfg r (mkHits b h 0 false h) n s2 = (Ok res, set_kv m3 s2)).
  { unfold allocate_waiting. rewrite (bind_ok _ _ _ _ _ (request_of_run s2 _ _ Hs1)).
    rewrite decide_True by apply Hw1. rewrite Henc, andb_false_r. by apply kv_run. }
  rewrite (bind_on_sched _ s2 l _ _ _ Hal). set (s3 := set_kv m3 s2) in *.
  assert (Hch3 : changes s2 s3 r rq1 rq1).
  { split; [done| |done|done]. simpl. symmetry. by apply insert_id. }
  destruct res as [nb|].
  2: { rewrite (bind_on_sched _ s3 l rq1 s3 _ (request_of_run s3 _ _ Hs1)). rewrite Henc.
       rewrite bind_ret_l. exists Stop, s3, l. split; [done|]. split; [|done].
       eapply (waiting_change_ok all s2 s3 l r rq1 rq1); try done.
       - simpl. by rewrite Hwt1.
       - destruct Hw2. by split. }
  assert (Hq3 : q_ok s3 (waiting s3)) by apply (so_queue _ _ _ _ Hok2).
  assert (Hbool3 : queue_bool (waiting s3) = true) by (simpl; by rewrite Hwt1).
  destruct (waiting_front s3 Hq3 Hbool3) as (r3 & q3 & Hpk3 & Hpop3 & Hqq3 & Hi3).
  assert (r3 = r) as ->.
  { pose proof (f_equal fst Hpk3) as H3. change (peek_request (waiting s1) = Ok r3) in H3.
    rewrite Hwt1, Hpk in H3. by injection H3. }
  unfold admit_waiting. rewrite (bind_on_sched _ s3 l rq1 s3 _ (request_of_run s3 _ _ Hs1)).
  rewrite bind_ret_l, (bind_on_sched _ s3 l r _ _ Hpop3). cbn [load_kv_async].
  destruct (start_running_ok all s2 l r rq1 q3 m3 (mkHits b h 0 false h) n) as
    (s4 & l4 & Hrun4 & Hok4 & Hwt4 & Hpre4 & [rq4 Hs4] & Hkeep4); try done.
  - by apply Hst1.
  - simpl. lia.
  - simpl. by rewrite Hrn1.
  - change (set_waiting q3 (set_kv m3 s2)) with (set_waiting q3 s3) in Hrun4.
    rewrite (bind_ok _ _ _ _ _ Hrun4).
    rewrite (bind_ok _ _ _ _ _ (allocate_encoder_text cfg r rq4 budget s4 l4 Hs4)).
    exists Again, s4, l4. do 3 (split; [done|]). split; [by eapply (keeps_trans s l s2 l)|]. intros _.
    rewrite Hwt4. simpl in Hi3. rewrite Hwt1 in Hi3. apply Permutation_length in Hi3. simpl in Hi3. lia.
Qed.

Lemma schedule_waiting_ok all fuel : ∀ s l,
  (length (items (waiting s)) < fuel)%nat → step_ok all (mkStep s l) → preempted_reqs l = [] →
  ∃ s' l', schedule_waiting cfg None None set_order ts grammar_ready fuel (mkStep s l) =
      (Ok tt, mkStep s' l') ∧
    step_ok all (mkStep s' l') ∧ preempted_reqs l' = [] ∧ keeps s l s' l'.
Proof.
  induction fuel as [|fuel IH]; intros s l Hf Hok Hpre; [lia|]. simpl.
  rewrite (bind_on_sched get s l s s) by done. unfold local. rewrite bind_gets. cbn [st_loc].
  pose proof (keeps_refl s l) as Hrefl.
  destruct (queue_bool (waiting s)) eqn:Hbool; simpl in Hbool; rewrite Hbool; simpl; [|by exists s, l].
  case_bool_decide as Hb; [|by exists s, l].
  destruct (schedule_waiting_one_ok all s l Hok Hpre Hbool Hb) as (nx & s1 & l1 & Hrun & Hok1 & Hpre1 & Hk & Hlt).
  rewrite (bind_ok _ _ _ _ _ Hrun). destruct nx; [|by exists s1, l1].
  destruct (IH s1 l1) as (s' & l' & Hrun' & Hok' & Hpre' & Hk'); [specialize (Hlt eq_refl); lia|done|done|].
  exists s', l'. do 3 (split; [done|]). by eapply keeps_trans.
Qed.
End waiting_phase.
