(* ===== verification/ScheduleSpec.v ===== *)
(** A scheduling step of a scheduler of text requests raises nothing, keeps
    the scheduler's invariant and stays within its budgets. *)

From S2P Require Import Prelude.
From S2P Require Import OrderedDict.
From S2P Require Import Request.
From S2P Require Import BlockPool.
From S2P Require Import Coordinator.
From S2P Require Import KVCacheManager.
From S2P Require Import KVCacheInterface.
From S2P Require Import SingleTypeManagers.
From S2P Require Import ManagerSpec.
From S2P Require Import KVCacheManagerSpec.
From S2P Require Import KVService.
From S2P Require Import KVServiceImpl.
From S2P Require Import EncoderCache.
From S2P Require Import RequestQueue.
From S2P Require Import RequestQueueSpec.
From S2P Require Import SchedulerState.
From S2P Require Import SchedulerEncoder.
From S2P Require Import Schedule.
From S2P Require Import ScheduleFrame.
From S2P Require Import SchedulerInvariant.
From S2P Require Import ScheduleRunning.
From S2P Require Import ScheduleWaiting.

Lemma sum_Z_values {K} (d : list (K * Z)) : sum_Z (od_values d) = sum_list_Z snd d.
Proof. induction d as [|[k v] d IH]; [done|]. simpl. by rewrite <- IH. Qed.

Section schedule_spec.
Context {W : Type} (cfg : SchedulerConfig) (hbs : Z).
Context {KP : KVPredicates} {KS : KVService hbs (sc_max_model_len cfg) (sc_log_stats cfg)}.
Context (set_order : gset Z → list Z) (Hset : set_order ∅ = []).
Context (ts : Z) (grammar_ready : Request → bool).
Context (Hlora : sc_max_loras cfg = None) (Hlook : 0 ≤ sc_num_lookahead_tokens cfg)
  (Hmaxtok : 0 ≤ sc_max_num_scheduled_tokens cfg).
Implicit Types (s : Scheduler W) (st : Step W) (l : StepLocals).

Abbreviation tracked := (tracked cfg hbs).
Abbreviation core := (core cfg hbs).
Abbreviation step_ok := (step_ok cfg hbs).

(** ** The invariant between steps *)

Record sched_inv s : Prop := {
  sv_core : core s (items (waiting s));
  sv_queue : q_ok s (waiting s);
  sv_max : len (running s) ≤ sc_max_num_running_reqs cfg;
  (** a preempted request was not scheduled in the last step *)
  sv_preempted : ∀ r rq, r ∈ items (waiting s) → store s !! r = Some rq →
    status rq = PREEMPTED → request_id rq ∉ prev_step_scheduled_req_ids s
}.

(** A request has not computed more tokens than it has. *)
Definition progressing (rq : Request) : Prop :=
  num_computed_tokens rq ≤ num_tokens_with_spec rq + num_output_placeholders rq ∧
  num_computed_tokens rq < sc_max_model_len cfg.

Lemma start_ok s :
  sched_inv s →
  (∀ r rq, r ∈ running s → store s !! r = Some rq → progressing rq) →
  step_ok (running s ++ items (waiting s)) (mkStep s (init_locals cfg)) ∧
  run_phase cfg s (init_locals cfg).
Proof.
  intros [Hc Hq Hm Hp] Hprog.
  assert (Hall : items (create_request_queue (A := ref) (sc_policy cfg)) = []) by by destruct (sc_policy cfg).
  split.
  - split; unfold all_waiting; simpl; rewrite ?Hall, ?app_nil_r; try done.
    + unfold q_ok. by destruct (sc_policy cfg); [|apply (create_request_queue_ok (ref_lt s) PRIORITY)].
    + split; simpl; try done; [constructor|by intros r Hr%not_elem_of_nil|
        by intros r rq Hr%not_elem_of_nil|by intros r Hr%not_elem_of_nil|constructor|lia].
    + split; simpl; [|by intros r rq Hr%not_elem_of_nil|by intros r Hr%not_elem_of_nil].
      intros r rq Hr Hs Hst Hin. by destruct (Hp r rq Hr Hs Hst).
  - split; simpl; try done; [by intros x Hx%not_elem_of_nil|].
    intros r rq Hr _ Hs. by apply (Hprog r).
Qed.

(** ** After the two loops *)

Record planned (all : list ref) s l : Prop := {
  pn_core : core s (items (waiting s));
  pn_queue : q_ok s (waiting s);
  pn_all : running s ++ items (waiting s) ≡ₚ all;
  pn_book : bookings cfg s l;
  pn_marks : marks s l (items (waiting s));
  pn_max : len (running s) ≤ sc_max_num_running_reqs cfg;
  pn_progress : ∀ r rq, r ∈ running s → r ∉ scheduled l → store s !! r = Some rq → progressing rq
}.

Lemma put_back_ok all s l :
  step_ok all (mkStep s l) →
  (∀ r rq, r ∈ running s → r ∉ scheduled l → store s !! r = Some rq → progressing rq) →
  ∃ s', put_back_skipped (mkStep s l) = (Ok tt, mkStep s' l) ∧ planned all s' l.
Proof.
  intros [Hc Hall Hq Hsk Hb Hm Hmax] Hprog. unfold all_waiting in *. simpl in Hc, Hall, Hq, Hsk, Hb, Hm, Hmax.
  unfold put_back_skipped, local. rewrite bind_gets. cbn [st_loc].
  pose proof (law_bool (lt := ref_lt s) _ Hsk) as Hbool. rewrite queue_items_eq in Hbool.
  set (sk := skipped_waiting_requests l) in *.
  destruct (queue_bool sk) eqn:Hbl.
  - destruct (law_prepend_all (lt := ref_lt s) sk (waiting s) Hsk Hq) as [Hq' Hi].
    rewrite !queue_items_eq in Hi. set (q' := prepend_requests _ _ _) in *.
    assert (Hperm : items (waiting s) ++ items sk ≡ₚ items q') by (by rewrite Hi, Permutation_app_comm).
    exists (set_waiting q' s). split; [done|]. clearbody q'.
    split; simpl; try done.
    + apply (core_perm _ _ _ _ _ Hperm) in Hc. by eapply core_same; [..|exact Hc].
    + by rewrite <- Hperm.
    + by destruct Hb.
    + destruct Hm as [M1 M2 M3]. split; try done. intros x rx Hx. apply M1. by rewrite Hperm.
  - assert (Hnil : items sk = []) by (apply dec_stable; intros Hne; by apply Hbool in Hne).
    rewrite Hnil, app_nil_r in *. by exists s.
Qed.

Lemma check_constraints_ok all s l : planned all s l →
  check_constraints cfg (mkStep s l) = (Ok tt, mkStep s l).
Proof.
  intros Hp. unfold check_constraints. rewrite (bind_on_sched get s l s s) by done.
  unfold local. rewrite bind_gets. cbn [st_loc]. rewrite sum_Z_values.
  pose proof (bo_budget _ _ _ (pn_book _ _ _ Hp)). pose proof (bo_nonneg _ _ _ (pn_book _ _ _ Hp)).
  rewrite !bind_assert_true by (apply bool_decide_eq_true_2; (lia || apply Hp)).
  rewrite bool_decide_eq_true_2; [done|].
  assert (Hsub : scheduled l ⊆+ running s).
  { apply NoDup_submseteq; [apply Hp|]. apply (bo_running _ _ _ (pn_book _ _ _ Hp)). }
  apply submseteq_length in Hsub. unfold scheduled in Hsub. rewrite !length_app in Hsub. unfold len. lia.
Qed.

(** ** The output *)

Lemma set_kv_id s : set_kv (kv_cache_manager s) s = s.
Proof. by destruct s. Qed.

Lemma planned_kv all s l m' : planned all s l → kv_ok m' → kv_frame None (kv_cache_manager s) m' →
  planned all (set_kv m' s) l.
Proof.
  intros [Hc Hq Hall [B1 B2 B3 B4 B5 B6 B7] Hm Hmax Hp] Hkv Hf. split; try done.
  - by apply core_kv.
  - split; try done. intros r rq Hr Hst. eapply has_booking_frame; [exact Hf|done|]. by apply (B3 r).
  - by destruct Hm.
Qed.

Lemma common_prefix_ok all s l : planned all s l →
  ∃ x m', common_prefix_blocks s = (Ok x, set_kv m' s) ∧ planned all (set_kv m' s) l.
Proof.
  intros Hp. unfold common_prefix_blocks, bind at 1, get.
  destruct (running s) as [|r rs] eqn:Hr.
  { eexists _, (kv_cache_manager s). rewrite set_kv_id. by split. }
  destruct (co_running _ _ _ _ (pn_core _ _ _ Hp) r) as (rq & Ht & _); [rewrite Hr; by left|].
  rewrite (bind_ok _ _ _ _ _ (request_of_run _ _ _ (tk_store _ _ _ _ _ Ht))).
  destruct (ks_prefix (hbs := hbs) (max_len := sc_max_model_len cfg) (log := sc_log_stats cfg) (kv_cache_manager s) (request_id rq))
    as (x & m' & Hx & Hkv & Hf); [apply Hp|].
  exists x, m'. split; [by apply kv_run|]. by apply (planned_kv all).
Qed.

Lemma new_block_ids_ok all s l r rq b : planned all s l → r ∈ scheduled l → store s !! r = Some rq →
  ∃ ids, new_block_ids_of b (request_id rq) (mkStep s l) = (Ok ids, mkStep s l) ∧
    (b = false → is_Some ids).
Proof.
  intros Hp Hr Hs. destruct (bo_booked _ _ _ (pn_book _ _ _ Hp) r rq Hr Hs) as [_ (bl & Hb & Hv)].
  destruct (ks_ids (hbs := hbs) (max_len := sc_max_model_len cfg) (log := sc_log_stats cfg) (kv_cache_manager s) bl b)
    as (ids & Hids & Hsome); [apply Hp|done|].
  exists ids. split; [|done]. unfold new_block_ids_of, local. rewrite bind_gets. cbn [st_loc]. rewrite Hb.
  cbn [of_option]. rewrite bind_ret_l. rewrite (on_sched_run _ s l _ _ (kv_run _ _ _ _ Hids)).
  by rewrite set_kv_id.
Qed.

Lemma new_request_data_ok all s l r rq : planned all s l → r ∈ scheduled l → store s !! r = Some rq →
  ∃ d, new_request_data cfg r (mkStep s l) = (Ok d, mkStep s l) ∧ nr_request d = rq.
Proof.
  intros Hp Hr Hs. unfold new_request_data.
  rewrite (bind_on_sched _ s l rq s _ (request_of_run _ _ _ Hs)).
  destruct (new_block_ids_ok all s l r rq false Hp Hr Hs) as (ids & Hids & [i ->]); [done|].
  rewrite (bind_ok _ _ _ _ _ Hids). cbn [of_option]. rewrite bind_ret_l.
  eexists. split; [reflexivity|done].
Qed.

Lemma cached_row_ok all s l resumed r rq :
  planned all s l → r ∈ scheduled l → store s !! r = Some rq →
  (resumed = true → r ∈ scheduled_resumed_reqs l) →
  ∃ d, cached_request_row cfg resumed r (mkStep s l) = (Ok d, mkStep s l) ∧ row_id d = request_id rq.
Proof.
  intros Hp Hr Hs Hres. unfold cached_request_row. rewrite (bind_on_sched get s l s s) by done.
  unfold local. rewrite bind_gets. cbn [st_loc].
  rewrite (bind_on_sched _ s l rq s _ (request_of_run _ _ _ Hs)).
  destruct (bo_booked _ _ _ (pn_book _ _ _ Hp) r rq Hr Hs) as [(n & Hn & _) _].
  assert (∃ toks, (if sc_use_pp cfg then
      let* n := of_option KeyError (od_get (request_id rq) (num_scheduled_tokens l)) in
      let num_tokens := n - len (default [] (od_get (request_id rq) (scheduled_spec_decode_tokens l))) in
      ret [py_slice (_all_token_ids rq) (num_computed_tokens rq) (num_computed_tokens rq + num_tokens)]
    else ret []) (mkStep s l) = (Ok toks, mkStep s l)) as [toks Htoks].
  { destruct (sc_use_pp cfg); [|by eexists]. rewrite Hn. by eexists. }
  rewrite (bind_ok _ _ _ _ _ Htoks).
  assert (Hassert : (if resumed then assert_ (negb (bool_decide (request_id rq ∈ prev_step_scheduled_req_ids s)))
    else ret tt) (mkStep s l) = (Ok tt, mkStep s l)).
  { destruct resumed; [|done]. rewrite bool_decide_eq_false_2; [done|].
    apply (mk_resumed _ _ _ (pn_marks _ _ _ Hp) r rq); auto. }
  rewrite (bind_ok _ _ _ _ _ Hassert).
  destruct (new_block_ids_ok all s l r rq true Hp Hr Hs) as (ids & Hids & _).
  rewrite (bind_ok _ _ _ _ _ Hids). eexists. split; [reflexivity|done].
Qed.

(** The id of a scheduled reference. *)
Definition has_id s (r : ref) (id : string) : Prop := ∃ rq, store s !! r = Some rq ∧ request_id rq = id.

Lemma scheduled_store all s l r : planned all s l → r ∈ scheduled l → ∃ rq, tracked s r rq.
Proof.
  intros Hp Hr. apply (core_tracked _ _ _ _ _ (pn_core _ _ _ Hp)). left.
  by apply (bo_running _ _ _ (pn_book _ _ _ Hp)).
Qed.

(** The ids of the requests in the output. *)
Definition announced (o : SchedulerOutput) : list string :=
  map (λ d, request_id (nr_request d)) (so_new_reqs o) ++ req_ids (so_cached_reqs o).

Lemma ids_perm all s l ids : planned all s l → Forall2 (has_id s) (scheduled l) ids →
  ids ≡ₚ od_keys (num_scheduled_tokens l).
Proof.
  intros Hp Hf. pose proof (pn_book _ _ _ Hp) as Hb. apply NoDup_Permutation.
  - apply NoDup_alt. intros i j id Hi Hj.
    destruct (Forall2_lookup_r _ _ _ _ _ Hf Hi) as (r & Hr & rq & Hs & He).
    destruct (Forall2_lookup_r _ _ _ _ _ Hf Hj) as (r' & Hr' & rq' & Hs' & He').
    destruct (scheduled_store all s l r Hp) as (t & Ht); [by eapply list_elem_of_lookup_2|].
    destruct (scheduled_store all s l r' Hp) as (t' & Ht'); [by eapply list_elem_of_lookup_2|].
    pose proof (tracked_eq _ _ _ _ _ _ Ht Hs) as <-. pose proof (tracked_eq _ _ _ _ _ _ Ht' Hs') as <-.
    assert (r = r') as <- by (apply (tracked_inj cfg hbs s r r' rq rq'); congruence).
    by eapply NoDup_lookup; [apply (bo_nodup _ _ _ Hb)| |].
  - apply (bo_keys_nodup _ _ _ Hb).
  - intros id. split.
    + intros [i Hi]%list_elem_of_lookup. destruct (Forall2_lookup_r _ _ _ _ _ Hf Hi) as (r & Hr & rq & Hs & <-).
      destruct (bo_booked _ _ _ Hb r rq) as [(n & Hn & _) _]; [by eapply list_elem_of_lookup_2|done|].
      apply od_get_keys. by eexists.
    + intros Hid. destruct (bo_keys _ _ _ Hb id Hid) as (r & rq & Hr & Hs & He).
      apply list_elem_of_lookup in Hr as [i Hi]. destruct (Forall2_lookup_l _ _ _ _ _ Hf Hi) as (id' & Hid' & rq' & Hs' & He').
      eapply list_elem_of_lookup_2. rewrite Hid'. congruence.
Qed.

Lemma new_requests_ok all s l rs : planned all s l → (∀ r, r ∈ rs → r ∈ scheduled l) →
  ∃ ds, mapM (new_request_data cfg) rs (mkStep s l) = (Ok ds, mkStep s l) ∧
    Forall2 (has_id s) rs (map (λ d, request_id (nr_request d)) ds).
Proof.
  intros Hp Hrs.
  destruct (mapM_read (λ r d, has_id s r (request_id (nr_request d))) (new_request_data cfg) rs (mkStep s l))
    as (ds & Hds & Hf).
  - intros r Hr. destruct (scheduled_store all s l r Hp (Hrs r Hr)) as (rq & Ht).
    destruct (new_request_data_ok all s l r rq Hp (Hrs r Hr) (tk_store _ _ _ _ _ Ht)) as (d & Hd & Hid).
    exists d. split; [done|]. exists rq. rewrite Hid. split; [apply Ht|done].
  - exists ds. split; [done|]. by apply Forall2_fmap_r.
Qed.

Lemma cached_requests_ok all s l running_rs resumed_rs :
  planned all s l → (∀ r, r ∈ running_rs → r ∈ scheduled l) →
  (∀ r, r ∈ resumed_rs → r ∈ scheduled_resumed_reqs l) →
  ∃ c, _make_cached_request_data cfg running_rs resumed_rs (mkStep s l) = (Ok c, mkStep s l) ∧
    Forall2 (has_id s) (running_rs ++ resumed_rs) (req_ids c).
Proof.
  intros Hp Hrun Hres. unfold _make_cached_request_data.
  assert (Hrow : ∀ resumed rs, (∀ r, r ∈ rs → r ∈ scheduled l ∧ (resumed = true → r ∈ scheduled_resumed_reqs l)) →
    ∃ ds, mapM (cached_request_row cfg resumed) rs (mkStep s l) = (Ok ds, mkStep s l) ∧
      Forall2 (has_id s) rs (map row_id ds)).
  { intros resumed rs Hrs.
    destruct (mapM_read (λ r d, has_id s r (row_id d)) (cached_request_row cfg resumed) rs (mkStep s l))
      as (ds & Hds & Hf).
    - intros r Hr. destruct (Hrs r Hr) as [Hr1 Hr2].
      destruct (scheduled_store all s l r Hp Hr1) as (rq & Ht).
      destruct (cached_row_ok all s l resumed r rq Hp Hr1 (tk_store _ _ _ _ _ Ht) Hr2) as (d & Hd & Hid).
      exists d. split; [done|]. exists rq. rewrite Hid. split; [apply Ht|done].
    - exists ds. split; [done|]. by apply Forall2_fmap_r. }
  destruct (Hrow false running_rs) as (ds1 & Hds1 & Hf1); [intros r Hr; split; [by apply Hrun|done]|].
  rewrite (bind_ok _ _ _ _ _ Hds1).
  destruct (Hrow true resumed_rs) as (ds2 & Hds2 & Hf2).
  { intros r Hr. split; [|auto]. unfold scheduled. rewrite !elem_of_app. auto. }
  rewrite (bind_ok _ _ _ _ _ Hds2). eexists. split; [reflexivity|]. simpl. rewrite map_app.
  by apply Forall2_app.
Qed.

Lemma Forall2_perm_ids s rs rs' ids :
  rs ≡ₚ rs' → Forall2 (has_id s) rs ids → ∃ ids', Forall2 (has_id s) rs' ids' ∧ ids ≡ₚ ids'.
Proof.
  intros Hp Hf. destruct (Permutation_Forall2 Hp Hf) as (ids' & ? & ?). eauto.
Qed.

Lemma build_output_ok all s l : planned all s l →
  ∃ o m' e, build_output cfg (mkStep s l) = (Ok o, mkStep (set_encoder e (set_prev_step
      (list_to_set (od_keys (num_scheduled_tokens l))) (set_kv m' s))) l) ∧
    planned all (set_kv m' s) l ∧
    so_num_scheduled_tokens o = num_scheduled_tokens l ∧
    so_total_num_scheduled_tokens o = sum_list_Z snd (num_scheduled_tokens l) ∧
    so_spec_decode_tokens o = scheduled_spec_decode_tokens l ∧
    announced o ≡ₚ od_keys (num_scheduled_tokens l).
Proof.
  intros Hp. unfold build_output.
  destruct (common_prefix_ok all s l Hp) as (x & m' & Hx & Hp1).
  rewrite (bind_on_sched _ s l _ _ _ Hx). set (s1 := set_kv m' s) in *.
  unfold local. rewrite bind_gets. cbn [st_loc].
  set (split_reqs := if sc_use_v2_model_runner cfg then _ else _).
  assert (∃ new resumed, split_reqs = (new, resumed) ∧
    new ++ scheduled_running_reqs l ++ resumed ≡ₚ scheduled l ∧
    (∀ r, r ∈ resumed → r ∈ scheduled_resumed_reqs l)) as (new & resumed & -> & Hperm & Hres).
  { unfold split_reqs. destruct (sc_use_v2_model_runner cfg).
    - eexists _, _. split; [reflexivity|]. split; [|by intros r Hr%not_elem_of_nil].
      rewrite app_nil_r. unfold scheduled. by rewrite Permutation_app_comm.
    - eexists _, _. split; [reflexivity|]. split; [|done]. unfold scheduled.
      by rewrite !app_assoc, (Permutation_app_comm (scheduled_new_reqs l)). }
  assert (Hin : ∀ r, r ∈ new ++ scheduled_running_reqs l ++ resumed → r ∈ scheduled l)
    by (intros r; by rewrite Hperm).
  destruct (new_requests_ok all s1 l new Hp1) as (ds & Hds & Hf1).
  { intros r Hr. apply Hin, elem_of_app. by left. }
  rewrite (bind_ok _ _ _ _ _ Hds).
  destruct (cached_requests_ok all s1 l (scheduled_running_reqs l) resumed Hp1) as (c & Hcd & Hf2); [|done|].
  { intros r Hr. apply Hin. rewrite !elem_of_app. auto. }
  rewrite (bind_ok _ _ _ _ _ Hcd).
  rewrite (bind_on_sched (modify _) s1 l tt _ _ eq_refl). set (s2 := set_prev_step _ s1).
  rewrite (bind_on_sched get s2 l s2 s2) by done.
  destruct (mapM_read (λ _ _, True) (λ r, on_sched (request_of r)) (preempted_reqs l) (mkStep s2 l)) as (pre & Hpre & _).
  { intros r Hr. destruct (mk_known _ _ _ (pn_marks _ _ _ Hp1) r Hr) as [rq Hrq]. exists rq.
    by rewrite (on_sched_run _ s2 l _ _ (request_of_run s2 r rq Hrq)). }
  rewrite (bind_ok _ _ _ _ _ Hpre).
  rewrite (bind_on_sched (encoder get_freed_mm_hashes) s2 l _ _ _ eq_refl).
  eexists _, m', _. split; [reflexivity|]. split; [done|]. split; [done|]. split; [apply sum_Z_values|].
  split; [done|]. unfold announced. simpl.
  pose proof (Forall2_app Hf1 Hf2) as Hf.
  destruct (Forall2_perm_ids s1 _ _ _ Hperm Hf) as (ids' & Hf' & Hpi).
  rewrite Hpi. by apply (ids_perm all s1 l).
Qed.

(** ** The update after scheduling *)

(** The requests with the given ids are updated one after another. *)
Definition upd_requests (f : Request → Request) (ids : list string) s : Scheduler W :=
  foldl (λ s id, match sched_requests s !! id with
                 | Some r => set_store (alter f r (store s)) s
                 | None => s
                 end) s ids.

(** A request that is known by its id and has no multi-modal inputs. *)
Definition known s (id : string) : Prop :=
  ∃ r rq, sched_requests s !! id = Some r ∧ store s !! r = Some rq ∧ request_id rq = id ∧
    mm_features rq = [].

Lemma alter_as_insert (m : gmap ref Request) f r rq :
  m !! r = Some rq → alter f r m = <[r := f rq]> m.
Proof.
  intros Hr. apply map_eq. intros i. destruct (decide (i = r)) as [->|Hi].
  - by rewrite lookup_alter_eq, lookup_insert_eq, Hr.
  - by rewrite lookup_alter_ne, lookup_insert_ne.
Qed.

Lemma known_step s f id r id' :
  (∀ rq, same_request rq (f rq)) →
  sched_requests s !! id = Some r → has_id s r id → known s id' →
  known (set_store (alter f r (store s)) s) id'.
Proof.
  intros Hf Hr (rq & Hs & He) (r' & rq' & Hr' & Hs' & He' & Hm').
  destruct (decide (r' = r)) as [->|Hne].
  - exists r, (f rq'). simpl. rewrite lookup_alter_eq, Hs'. destruct (Hf rq') as [-> _ _ _ -> _ _]. done.
  - exists r', rq'. simpl. rewrite lookup_alter_ne by done. done.
Qed.

Lemma upd_requests_spec f ids : ∀ s,
  (∀ rq, same_request rq (f rq)) →
  NoDup ids → (∀ id, id ∈ ids → known s id) →
  ∃ sto', upd_requests f ids s = set_store sto' s ∧ store_same (store s) sto' ∧
    (∀ r rq, store s !! r = Some rq → sched_requests s !! request_id rq = Some r →
      sto' !! r = Some (if decide (request_id rq ∈ ids) then f rq else rq)) ∧
    (∀ id, known s id → known (set_store sto' s) id).
Proof.
  induction ids as [|id ids IH]; intros s Hf Hnd Hk; simpl.
  { exists (store s). split; [by destruct s|]. do 2 (split; [done|]). by destruct s. }
  apply NoDup_cons in Hnd as [Hid Hnd].
  destruct (Hk id ltac:(by left)) as (r & rq & Hr & Hs & He & Hm). rewrite Hr.
  set (s1 := set_store (alter f r (store s)) s).
  assert (Hks : ∀ id', known s id' → known s1 id').
  { intros id' Hk'. apply (known_step s f id r id' Hf Hr); [by exists rq|done]. }
  destruct (IH s1 Hf Hnd) as (sto' & Heq & Hsame & Hst & Hkn); [intros id' Hin; apply Hks, Hk; by right|].
  exists sto'. split; [exact Heq|]. split; [|split].
  - etrans; [|exact Hsame]. unfold s1. simpl. rewrite (alter_as_insert _ _ _ _ Hs).
    by apply store_same_insert with rq.
  - intros x rx Hx Hrx. destruct (decide (x = r)) as [->|Hne].
    + rewrite Hs in Hx. injection Hx as <-.
      rewrite (Hst r (f rq)); [|simpl; by rewrite lookup_alter_eq, Hs|by rewrite (sq_id _ _ (Hf rq))].
      rewrite (sq_id _ _ (Hf rq)), He. rewrite decide_False by done. by rewrite decide_True by by left.
    + rewrite (Hst x rx); [|simpl; by rewrite lookup_alter_ne|done].
      assert (request_id rx ≠ id) by (intros Heq'; rewrite Heq', Hr in Hrx; congruence).
      destruct (decide (request_id rx ∈ ids)) as [Hin|Hin].
      * by rewrite decide_True by by right.
      * rewrite decide_False; [done|]. by intros [|]%elem_of_cons.
  - intros id' Hk'. by apply Hkn, Hks.
Qed.

Lemma lookup_request_run s id r :
  sched_requests s !! id = Some r → lookup_request id s = (Ok r, s).
Proof. intros Hr. unfold lookup_request, bind, get. by rewrite Hr. Qed.

(** The scheduled tokens count as computed. *)
Definition advance (nums : list (string * Z)) (rq : Request) : Request :=
  set_num_computed_tokens (num_computed_tokens rq + default 0 (od_get (request_id rq) nums)) rq.

Lemma base_update_run nums0 nums s :
  (∀ id n, (id, n) ∈ nums → od_get id nums0 = Some n) → NoDup (od_keys nums) →
  (∀ id, id ∈ od_keys nums → known s id) →
  for_ nums (λ '(req_id, num_scheduled_token),
    let* r := lookup_request req_id in
    update_request r (λ rq, set_num_computed_tokens (num_computed_tokens rq + num_scheduled_token) rq) ;;;
    let* request := request_of r in
    if has_encoder_inputs request then _free_encoder_inputs cfg set_order request else ret tt) s =
  (Ok tt, upd_requests (advance nums0) (od_keys nums) s).
Proof.
  revert s. induction nums as [|[id n] nums IH]; intros s Hn Hnd Hk; [done|].
  change (od_keys ((id, n) :: nums)) with (id :: od_keys nums) in *.
  apply NoDup_cons in Hnd as [Hid Hnd].
  destruct (Hk id ltac:(by left)) as (r & rq & Hr & Hs & He & Hm).
  cbn [for_ upd_requests foldl]. rewrite Hr.
  assert (Hadv : advance nums0 rq = set_num_computed_tokens (num_computed_tokens rq + n) rq).
  { unfold advance. rewrite He, (Hn id n) by by left. done. }
  set (s1 := set_store (alter (advance nums0) r (store s)) s).
  assert (Hs1 : s1 = set_store (<[r := set_num_computed_tokens (num_computed_tokens rq + n) rq]> (store s)) s).
  { unfold s1. by rewrite (alter_as_insert _ _ _ _ Hs), Hadv. }
  assert (Hbody : (let* r := lookup_request id in
    update_request r (λ rq, set_num_computed_tokens (num_computed_tokens rq + n) rq) ;;;
    let* request := request_of r in
    if has_encoder_inputs request then _free_encoder_inputs cfg set_order request else ret tt) s = (Ok tt, s1)).
  { rewrite (bind_ok _ _ _ _ _ (lookup_request_run s id r Hr)).
    rewrite (bind_ok _ _ _ _ _ (update_request_run s r rq _ Hs)), <- Hs1.
    assert (Hs' : store s1 !! r = Some (set_num_computed_tokens (num_computed_tokens rq + n) rq))
      by (rewrite Hs1; apply lookup_insert_eq).
    rewrite (bind_ok _ _ _ _ _ (request_of_run _ _ _ Hs')). unfold has_encoder_inputs, num_encoder_inputs.
    simpl. by rewrite Hm. }
  rewrite (bind_ok _ _ _ _ _ Hbody). apply IH.
  - intros id' n' Hin. apply Hn. by right.
  - done.
  - intros id' Hin. apply (known_step s _ id r id'); [done|done|by exists rq|]. apply Hk. by right.
Qed.

(** Asynchronous scheduling adds placeholders for the coming output. *)
Definition placehold (o : SchedulerOutput) (rq : Request) : Request :=
  let cur_num_spec_tokens := len (default [] (od_get (request_id rq) (so_spec_decode_tokens o))) in
  if decide (num_computed_tokens rq
             = num_tokens rq + num_output_placeholders rq + cur_num_spec_tokens) then
    set_spec_token_ids (replicate (Z.to_nat (sc_num_spec_tokens cfg)) (-1))
      (set_num_output_placeholders (num_output_placeholders rq + (1 + cur_num_spec_tokens)) rq)
  else rq.

Lemma placehold_keeps o rq : same_request rq (placehold o rq).
Proof. unfold placehold. cbv zeta. by case_decide. Qed.

Lemma add_placeholders_run o ids : ∀ s has pending,
  NoDup ids → (∀ id, id ∈ ids → known s id) →
  ∃ flags, add_placeholders cfg o ids has pending s = (Ok flags, upd_requests (placehold o) ids s).
Proof.
  induction ids as [|id ids IH]; intros s has pending Hnd Hk; simpl; [by eexists|].
  apply NoDup_cons in Hnd as [Hid Hnd].
  destruct (Hk id ltac:(by left)) as (r & rq & Hr & Hs & He & Hm). rewrite Hr.
  rewrite (bind_ok _ _ _ _ _ (lookup_request_run s id r Hr)).
  rewrite (bind_ok _ _ _ _ _ (request_of_run _ _ _ Hs)).
  set (s1 := set_store (alter (placehold o) r (store s)) s).
  match goal with |- ∃ _, bind ?m _ _ = _ => assert (Hbody : m s = (Ok tt, s1)) end.
  { unfold s1. rewrite (alter_as_insert _ _ _ _ Hs). unfold placehold. rewrite He. case_decide.
    - by rewrite (update_request_run s r rq _ Hs).
    - rewrite insert_id by done. by destruct s. }
  rewrite (bind_ok _ _ _ _ _ Hbody). apply IH; [done|].
  intros id' Hin. apply (known_step s _ id r id'); [|done|by exists rq|apply Hk; by right].
  apply placehold_keeps.
Qed.

Lemma update_after_ok o s :
  NoDup (od_keys (so_num_scheduled_tokens o)) →
  (∀ id, id ∈ od_keys (so_num_scheduled_tokens o) → known s id) →
  let f rq := if sc_async cfg then placehold o (advance (so_num_scheduled_tokens o) rq)
              else advance (so_num_scheduled_tokens o) rq in
  ∃ o' sto', _update_after_schedule cfg set_order o s =
      (Ok o', set_finished_req_ids ∅ (set_store sto' s)) ∧ store_same (store s) sto' ∧
    (∀ r rq, store s !! r = Some rq → sched_requests s !! request_id rq = Some r →
      sto' !! r = Some (if decide (request_id rq ∈ od_keys (so_num_scheduled_tokens o)) then f rq else rq)) ∧
    so_num_scheduled_tokens o' = so_num_scheduled_tokens o ∧
    so_total_num_scheduled_tokens o' = so_total_num_scheduled_tokens o ∧
    so_spec_decode_tokens o' = so_spec_decode_tokens o ∧
    so_new_reqs o' = so_new_reqs o ∧ so_cached_reqs o' = so_cached_reqs o.
Proof.
  intros Hnd Hk f. set (nums := so_num_scheduled_tokens o) in *.
  assert (Hbase : base_update_after_schedule cfg set_order o s =
    (Ok tt, set_finished_req_ids ∅ (upd_requests (advance nums) (od_keys nums) s))).
  { unfold base_update_after_schedule. fold nums.
    rewrite (bind_ok _ _ _ _ _ (base_update_run nums nums s
      (λ id n Hin, od_get_nodup id n nums Hnd Hin) Hnd Hk)). done. }
  destruct (upd_requests_spec (advance nums) (od_keys nums) s ltac:(done) Hnd Hk) as (sto1 & Heq & Hsame & Hst & Hkn).
  rewrite Heq in Hbase. unfold _update_after_schedule. rewrite (bind_ok _ _ _ _ _ Hbase).
  destruct (sc_async cfg).
  - fold nums. set (s1 := set_finished_req_ids ∅ (set_store sto1 s)).
    assert (Hk1 : ∀ id, id ∈ od_keys nums → known s1 id) by (intros id Hid; by apply Hkn, Hk).
    destruct (add_placeholders_run o (od_keys nums) s1 false false Hnd Hk1) as (flags & Hrun).
    destruct (upd_requests_spec (placehold o) (od_keys nums) s1) as (sto2 & Heq2 & Hsame2 & Hst2 & _);
      [apply placehold_keeps|done|done|].
    rewrite Heq2 in Hrun. rewrite (bind_ok _ _ _ _ _ Hrun).
    eexists _, sto2. split; [reflexivity|]. split; [by etrans|]. split; [|done]. intros r rq Hr Hid.
    specialize (Hst r rq Hr Hid). destruct (decide (request_id rq ∈ od_keys nums)) as [Hin|Hin].
    + rewrite (Hst2 r (advance nums rq) Hst Hid). by rewrite decide_True.
    + rewrite (Hst2 r rq Hst Hid). by rewrite decide_False.
  - by exists o, sto1.
Qed.

(** ** The whole step *)

Lemma queue_len_items s : q_ok s (waiting s) → queue_len (waiting s) = len (items (waiting s)).
Proof. intros Hq. by rewrite (law_len (lt := ref_lt s)), queue_items_eq. Qed.

(** Both loops and the return of the skipped requests. *)
Lemma planning_ok s :
  sched_inv s → (∀ r rq, r ∈ running s → store s !! r = Some rq → progressing rq) →
  ∃ s1 l1, planned (running s ++ items (waiting s)) s1 l1 ∧
    (∀ R sto0, steady R sto0 s → steady_step R sto0 (mkStep s1 l1)) ∧
    schedule_step cfg None None set_order ts grammar_ready (mkStep s (init_locals cfg)) =
    (check_constraints cfg ;;;
     let* o := build_output cfg in
     let* o := on_sched (add_connector_meta None None o) in
     on_sched (_update_after_schedule cfg set_order o)) (mkStep s1 l1).
Proof.
  intros Hs Hprog. destruct (start_ok s Hs Hprog) as [Hok Hph]. set (all := running s ++ _) in *.
  unfold schedule_step. rewrite (bind_on_sched get s _ s s) by done.
  destruct (schedule_running_ok cfg hbs set_order Hset ts Hlook all (S (length (running s))) s (init_locals cfg))
    as (s1 & l1 & Hrun & Hok1 & Hph1); [simpl; unfold len; lia|done|done|].
  rewrite (bind_ok _ _ _ _ _ Hrun).
  assert (Hl : collect_loras cfg (mkStep s1 l1) = (Ok tt, mkStep s1 l1))
    by (unfold collect_loras; by rewrite Hlora).
  rewrite (bind_ok _ _ _ _ _ Hl). unfold local at 1. rewrite bind_gets. cbn [st_loc].
  assert (∃ s2 l2, (if bool_decide (preempted_reqs l1 = []) then
      let* s := on_sched get in
      schedule_waiting cfg None None set_order ts grammar_ready (S (Z.to_nat (queue_len (waiting s))))
    else ret tt) (mkStep s1 l1) = (Ok tt, mkStep s2 l2) ∧ step_ok all (mkStep s2 l2) ∧ keeps s1 l1 s2 l2)
    as (s2 & l2 & Hrun2 & Hok2 & Hk).
  { case_bool_decide as Hpre; [|exists s1, l1; split; [done|]; split; [done|apply keeps_refl]].
    rewrite (bind_on_sched get s1 l1 s1 s1) by done.
    rewrite queue_len_items by apply Hok1.
    destruct (schedule_waiting_ok cfg hbs set_order ts grammar_ready Hlora all
      (S (Z.to_nat (len (items (waiting s1))))) s1 l1) as (s2 & l2 & Hrun2 & Hok2 & _ & Hk);
      [unfold len; lia|done|done|]. by exists s2, l2. }
  rewrite (bind_ok _ _ _ _ _ Hrun2).
  destruct (put_back_ok all s2 l2 Hok2) as (s3 & Hput & Hpl).
  { intros r rq Hr Hns Hst. destruct (Hk r Hr Hns) as (Hr1 & Hns1 & He). rewrite He in Hst.
    by apply (rp_progress _ _ _ Hph1 r). }
  rewrite (bind_ok _ _ _ _ _ Hput). exists s3, l2. split; [done|]. split; [|done]. intros R sto0 HR.
  apply (preserves_run _ _ _ _ _ (put_back_steady R sto0) Hput).
  refine (preserves_run _ _ _ _ _ _ Hrun2 _); [|by apply (preserves_run _ _ _ _ _ (schedule_running_steady cfg None set_order ts R sto0 _) Hrun)].
  pose proof (schedule_waiting_steady (W := W) cfg None None set_order ts grammar_ready R sto0). keep.
Qed.

(** What a step promises: every request keeps its place among the requests of
    the scheduler, the output announces exactly the running requests it
    schedules, and their tokens are within the budget and have slots. *)
Record step_promise s (o : SchedulerOutput) s' : Prop := {
  sp_inv : sched_inv s';
  sp_requests : running s' ++ items (waiting s') ≡ₚ running s ++ items (waiting s);
  sp_total : so_total_num_scheduled_tokens o = sum_list_Z snd (so_num_scheduled_tokens o);
  sp_budget : 0 ≤ so_total_num_scheduled_tokens o ≤ sc_max_num_scheduled_tokens cfg;
  sp_keys : NoDup (od_keys (so_num_scheduled_tokens o));
  sp_entry : ∀ id n, (id, n) ∈ so_num_scheduled_tokens o → 0 < n ∧
    ∃ r rq, r ∈ running s' ∧ store s' !! r = Some rq ∧ request_id rq = id ∧
      n ≤ num_computed_tokens rq < sc_max_model_len cfg;
  sp_spec : ∀ R sto0, steady R sto0 s → so_spec_decode_tokens o = [];
  sp_announced : announced o ≡ₚ od_keys (so_num_scheduled_tokens o);
  sp_progress : so_spec_decode_tokens o = [] →
    ∀ r rq, r ∈ running s' → store s' !! r = Some rq → progressing rq
}.

Section final.
Context (s s1 : Scheduler W) (l : StepLocals) (e : EncoderCacheManager) (o : SchedulerOutput)
  (sto' : gmap ref Request).
Context (all : list ref) (Hp : planned all s1 l).
Context (Hnums : so_num_scheduled_tokens o = num_scheduled_tokens l)
  (Hspec : so_spec_decode_tokens o = scheduled_spec_decode_tokens l).
Let nums := num_scheduled_tokens l.
Let f rq := if sc_async cfg then placehold o (advance nums rq) else advance nums rq.
Context (Hsame : store_same (store s1) sto')
  (Hsto : ∀ r rq, store s1 !! r = Some rq → sched_requests s1 !! request_id rq = Some r →
    sto' !! r = Some (if decide (request_id rq ∈ od_keys nums) then f rq else rq)).
Let s' := set_finished_req_ids ∅ (set_store sto' (set_encoder e (set_prev_step
            (list_to_set (od_keys nums)) s1))).

Lemma final_scheduled r rq : tracked s1 r rq → request_id rq ∈ od_keys nums → r ∈ scheduled l.
Proof.
  intros Ht Hk. destruct (bo_keys _ _ _ (pn_book _ _ _ Hp) _ Hk) as (r' & rq' & Hr' & Hs' & He).
  destruct (scheduled_store all s1 l r' Hp Hr') as (t & Ht'). pose proof (tracked_eq _ _ _ _ _ _ Ht' Hs') as ->.
  by rewrite (tracked_inj cfg hbs s1 r r' rq t Ht Ht').
Qed.

(** The request after the step. *)
Lemma f_same rq : same_request rq (f rq).
Proof. unfold f. destruct (sc_async cfg); [|done]. etrans; [|apply placehold_keeps]. done. Qed.
Lemma f_fields rq :
  status (f rq) = status rq ∧
  num_computed_tokens (f rq) = num_computed_tokens rq + default 0 (od_get (request_id rq) nums) ∧
  num_output_placeholders rq ≤ num_output_placeholders (f rq).
Proof.
  unfold f. destruct (sc_async cfg); [|by split_and!]. unfold placehold. cbv zeta.
  destruct (decide (num_computed_tokens (advance nums rq) = _)); simpl; split_and!; try done; unfold len; lia.
Qed.

Lemma final_tracked r rq : tracked s1 r rq →
  ∃ rq', tracked s' r rq' ∧
    rq' = if decide (request_id rq ∈ od_keys nums) then f rq else rq.
Proof.
  intros [T1 T2 T3]. eexists. split; [|reflexivity].
  assert (Hsm : same_request rq (if decide (request_id rq ∈ od_keys nums) then f rq else rq))
    by (case_decide; [apply f_same|done]).
  split.
  - by apply Hsto.
  - by eapply text_request_same.
  - rewrite (sq_id _ _ Hsm). done.
Qed.

Lemma final_booking r rq : tracked s1 r rq → r ∈ scheduled l →
  ∃ n, od_get (request_id rq) nums = Some n ∧ booked cfg (kv_cache_manager s1) l rq n.
Proof.
  intros Ht Hr. by destruct (bo_booked _ _ _ (pn_book _ _ _ Hp) r rq Hr (tk_store _ _ _ _ _ Ht)) as [? _].
Qed.

Lemma final_runs r rq rq' : r ∈ running s1 → tracked s1 r rq → runs (kv_cache_manager s1) rq →
  rq' = (if decide (request_id rq ∈ od_keys nums) then f rq else rq) → runs (kv_cache_manager s') rq'.
Proof.
  intros Hr Ht Hrn ->. destruct (decide (request_id rq ∈ od_keys nums)) as [Hk|Hk]; [|done].
  destruct (final_booking r rq Ht (final_scheduled r rq Ht Hk)) as (n & Hn & [B1 B2 B3 B4]).
  destruct Hrn as [R1 R2 R3 R4]. destruct (f_fields rq) as (F1 & F2 & F3). rewrite Hn in F2. simpl in F2.
  split; rewrite ?F1, ?F2, ?(sq_id _ _ (f_same rq)); try done; lia.
Qed.

Lemma final_waiting_id r rq : r ∈ items (waiting s1) → tracked s1 r rq → request_id rq ∉ od_keys nums.
Proof.
  intros Hr Ht Hk. pose proof (final_scheduled r rq Ht Hk) as Hsch.
  pose proof (co_nodup _ _ _ _ (pn_core _ _ _ Hp)) as (_ & Hd & _)%NoDup_app.
  by apply (Hd r); [apply (bo_running _ _ _ (pn_book _ _ _ Hp))|].
Qed.

Lemma final_inv : sched_inv s'.
Proof.
  pose proof (pn_core _ _ _ Hp) as [C1 C2 C3 C4 C5]. split.
  - split; [done| | |done|done].
    + intros r Hr. destruct (C2 r Hr) as (rq & Ht & Hrn). destruct (final_tracked r rq Ht) as (rq' & Ht' & He).
      exists rq'. split; [done|]. by apply (final_runs r rq).
    + intros r Hr. destruct (C3 r Hr) as (rq & Ht & Hw). destruct (final_tracked r rq Ht) as (rq' & Ht' & He).
      rewrite decide_False in He by by apply (final_waiting_id r). subst rq'. by exists rq.
  - apply (q_ok_same s1); [done|]. apply Hp.
  - apply Hp.
  - intros r rq Hr Hst _. simpl. rewrite elem_of_list_to_set.
    destruct (C3 r Hr) as (rq0 & Ht & _). destruct (final_tracked r rq0 Ht) as (rq' & Ht' & He).
    rewrite decide_False in He by by apply (final_waiting_id r). subst rq'.
    pose proof (tracked_eq _ _ _ _ _ _ Ht' Hst) as ->. by apply (final_waiting_id r).
Qed.

Lemma final_entry id n : (id, n) ∈ nums → 0 < n ∧
  ∃ r rq, r ∈ running s' ∧ store s' !! r = Some rq ∧ request_id rq = id ∧
    n ≤ num_computed_tokens rq < sc_max_model_len cfg.
Proof.
  intros Hin. pose proof (pn_book _ _ _ Hp) as Hb.
  pose proof (od_get_nodup id n nums (bo_keys_nodup _ _ _ Hb) Hin) as Hn.
  assert (Hk : id ∈ od_keys nums) by (apply od_get_keys; by eexists).
  destruct (bo_keys _ _ _ Hb id Hk) as (r & rq & Hr & Hs & <-).
  destruct (scheduled_store all s1 l r Hp Hr) as (t & Ht). pose proof (tracked_eq _ _ _ _ _ _ Ht Hs) as ->.
  destruct (final_booking r t Ht Hr) as (n' & Hn' & [B1 B2 B3 B4]). rewrite Hn in Hn'. injection Hn' as <-.
  split; [done|]. destruct (final_tracked r t Ht) as (rq' & Ht' & He). rewrite decide_True in He by done.
  destruct (f_fields t) as (_ & F2 & _). rewrite Hn in F2. simpl in F2. subst rq'.
  destruct (co_running _ _ _ _ (pn_core _ _ _ Hp) r (bo_running _ _ _ Hb r Hr)) as (t2 & Ht2 & [_ R2 _ _]).
  pose proof (tracked_eq _ _ _ _ _ _ Ht2 (tk_store _ _ _ _ _ Ht)) as ->.
  exists r, (f t2). split; [by apply (bo_running _ _ _ Hb)|]. split; [apply Ht'|].
  split; [apply f_same|]. lia.
Qed.

Lemma final_progress : scheduled_spec_decode_tokens l = [] →
  ∀ r rq, r ∈ running s' → store s' !! r = Some rq → progressing rq.
Proof.
  intros Hnil r rq' Hr Hst. destruct (co_running _ _ _ _ (pn_core _ _ _ Hp) r Hr) as (rq & Ht & _).
  destruct (final_tracked r rq Ht) as (rq'' & Ht' & He).
  pose proof (tracked_eq _ _ _ _ _ _ Ht' Hst) as <-. destruct (decide (request_id rq ∈ od_keys nums)) as [Hk|Hk].
  - pose proof (final_scheduled r rq Ht Hk) as Hsch.
    destruct (final_booking r rq Ht Hsch) as (n & Hn & [B1 B2 B3 B4]). rewrite Hnil in B4. simpl in B4.
    destruct (f_fields rq) as (_ & F2 & F3). rewrite Hn in F2. simpl in F2. subst rq'.
    unfold progressing, num_tokens_with_spec. pose proof (sq_tokens _ _ (f_same rq)) as Htk.
    unfold num_tokens in *. rewrite Htk, F2. unfold len in *. simpl in B4. lia.
  - subst rq'. apply (pn_progress _ _ _ Hp r rq Hr); [|by apply Ht].
    intros Hsch. apply Hk. destruct (final_booking r rq Ht Hsch) as (n & Hn & _).
    apply od_get_keys. by eexists.
Qed.
End final.

Lemma schedule_ok s :
  sched_inv s → (∀ r rq, r ∈ running s → store s !! r = Some rq → progressing rq) →
  ∃ o s', schedule cfg None None set_order ts grammar_ready s = (Ok o, s') ∧ step_promise s o s'.
Proof.
  intros Hs Hprog. destruct (planning_ok s Hs Hprog) as (s1 & l & Hp & Hsteady & Hstep).
  unfold schedule. rewrite Hstep, (bind_ok _ _ _ _ _ (check_constraints_ok _ s1 l Hp)).
  destruct (build_output_ok _ s1 l Hp) as (o & m' & e & Hout & Hp2 & Hn & Ht & Hsp & Han).
  rewrite (bind_ok _ _ _ _ _ Hout). set (s2 := set_kv m' s1) in *.
  set (s3 := set_encoder e (set_prev_step _ s2)). rewrite (bind_on_sched (add_connector_meta None None o) s3 l o s3) by done.
  pose proof (pn_book _ _ _ Hp2) as Hb.
  destruct (update_after_ok o s3) as (o' & sto' & Hrun & Hsame & Hsto & E1 & E2 & E3 & E4 & E5).
  { rewrite Hn. apply Hb. }
  { rewrite Hn. intros id Hk. destruct (bo_keys _ _ _ Hb id Hk) as (r & rq & Hr & Hst & He).
    destruct (scheduled_store _ s2 l r Hp2 Hr) as (t & Htk). pose proof (tracked_eq _ _ _ _ _ _ Htk Hst) as ->.
    exists r, t. destruct Htk as [T1 [T2 _ _ _ _ _] T3]. by rewrite <- He. }
  rewrite (on_sched_run _ s3 l _ _ Hrun). rewrite Hn in Hsto. exists o', (set_finished_req_ids ∅ (set_store sto' s3)).
  split; [done|].
  split; rewrite ?E1, ?E2, ?E3, ?Hn, ?Ht, ?Hsp.
  - by apply (final_inv s2 l e o sto' _ Hp2).
  - apply (pn_all _ _ _ Hp2).
  - done.
  - pose proof (bo_budget _ _ _ Hb). pose proof (bo_nonneg _ _ _ Hb).
    split; [|lia]. apply sum_list_Z_nonneg. intros [id n] Hin.
    destruct (final_entry s2 l e o sto' _ Hp2 Hsto id n Hin). simpl. lia.
  - apply Hb.
  - intros id n. by apply (final_entry s2 l e o sto' _ Hp2).
  - intros R sto0 HR. apply (Hsteady R sto0 HR).
  - unfold announced in *. by rewrite E4, E5.
  - intros Hnil. by apply (final_progress s2 l e o sto' _ Hp2).
Qed.

End schedule_spec.

(** ** Witness *)

(** Two waiting requests of three tokens, with 4 usable blocks of 2 tokens. *)
Definition unitary_config : KVCacheConfig :=
  mkKVConfig 5 [] [mkGroup ["a"] (FullAttentionSpec example_attention (mkFull 64 None None))].
Definition unitary_manager : KVCacheManager :=
  ltac:(let t := eval vm_compute in
          (KVCacheManager_init unitary_config 16 2 true false true false false 1 1 None) in
        lazymatch t with Ok ?m => exact m end).
Definition small_config : SchedulerConfig :=
  mkSchedConfig FCFS 4 5 16 0 true false true false 0 0 0 0 false false false None 2 true false.
Definition small_scheduler : Scheduler unit :=
  mkScheduler {[1 := request_a; 2 := request_c]} {["A" := 1; "C" := 2]}
    (AnyFCFS (mkFCFS [1; 2])) [] ∅ None ∅ ∅ ∅ (EncoderCacheManager_init 0) unitary_manager None tt.

Lemma unitary_served : served 2 16 true unitary_manager.
Proof.
  split; [|reflexivity|reflexivity|reflexivity| |reflexivity|].
  - apply (init_kinv unitary_config 16 2 true false true false false 1 1 None); [|vm_compute; reflexivity].
    split; [reflexivity|reflexivity| |reflexivity]. repeat constructor; simpl; lia || done.
  - intros x Hx. vm_compute in Hx. apply list_elem_of_singleton in Hx as ->. by vm_compute.
  - vm_compute. eexists. split; [reflexivity|]. repeat split.
Qed.

#[local] Instance small_predicates : KVPredicates := kv_predicates 2 16 true.

Lemma small_waits r rq : (r, rq) ∈ [(1, request_a); (2, request_c)] →
  tracked small_config 2 small_scheduler r rq ∧ waits (kv_cache_manager small_scheduler) rq.
Proof.
  intros Hin. apply elem_of_cons in Hin as [[= -> ->]|[= -> ->]%list_elem_of_singleton].
  all: split; [split; [vm_compute; reflexivity| |vm_compute; reflexivity]|split; [by left|done| |done]].
  all: try (split; [reflexivity|split; [reflexivity|apply NoDup_singleton]|by vm_compute|reflexivity|reflexivity|
    eexists; split; [reflexivity|by vm_compute]]).
  all: intros x Hx; vm_compute in Hx; apply list_elem_of_singleton in Hx as ->; by vm_compute.
Qed.

Lemma small_inv : sched_inv small_config 2 small_scheduler.
Proof.
  assert (Hw : ∀ r, r ∈ [1; 2] → ∃ rq, (r, rq) ∈ [(1, request_a); (2, request_c)]).
  { intros r [->| ->%list_elem_of_singleton]%elem_of_cons;
      [exists request_a|exists request_c]; set_solver +. }
  split.
  - split; [apply (bool_decide_unpack _); vm_compute; exact I|by intros r Hr%not_elem_of_nil| |exact unitary_served|].
    2: { intros id _ x Hx. vm_compute in Hx. apply list_elem_of_singleton in Hx as ->. done. }
    intros r Hr. destruct (Hw r Hr) as (rq & Hrq). exists rq. by apply small_waits.
  - done.
  - vm_compute. discriminate.
  - intros r rq Hr Hs Hst _. destruct (Hw r Hr) as (rq' & Hrq). destruct (small_waits r rq' Hrq) as [Ht _].
    pose proof (tracked_eq _ _ _ _ _ _ Ht Hs) as ->.
    apply elem_of_cons in Hrq as [[= -> ->]|[= -> ->]%list_elem_of_singleton]; done.
Qed.

