(* ===== verification/SchedulerUpdate.v ===== *)
(** The scheduler between steps (vllm/v1/core/sched/scheduler.py and
    async_scheduler.py): adding and finishing requests, the results of the
    model, draft tokens, failed and finished transfers, resets, statistics.

    Values that pass through unread (log probabilities, routed experts, NaN
    counts, trace headers, performance statistics, the statistics of the
    connectors) are left out. *)

From S2P Require Import Prelude.
From S2P Require Import OrderedDict.
From S2P Require Import Request.
From S2P Require Import KVCacheMetrics.
From S2P Require Import BlockPool.
From S2P Require Import Coordinator.
From S2P Require Import KVCacheManager.
From S2P Require Import EncoderCache.
From S2P Require Import RequestQueue.
From S2P Require Import SchedulerState.
From S2P Require Import SchedulerEncoder.
From S2P Require Import Schedule.

(** What the model returned for a step. *)
Record ModelRunnerOutput := mkModelOutput {
  req_id_to_index : list (string * Z);
  sampled_token_ids : list (list Z);
  has_pooler_output : option (list bool);  (** [pooler_output\[i\] is not None] *)
  prompt_logprobs_of : gset string;        (** the requests with prompt log probabilities *)
  kv_connector_output : option KVConnectorOutput
}.
Record DraftTokenIds := mkDrafts {
  draft_req_ids : list string;
  draft_token_ids : list (list Z)
}.

Record EngineCoreOutput := mkEngineOutput {
  eo_request_id : string;
  eo_new_token_ids : list Z;
  eo_finish_reason : option FinishReason;
  eo_pooling_output : bool;
  eo_stop_reason : option Z;
  eo_events : option (list (EngineCoreEventType * Z));
  eo_kv_transfer_params : option string;
  eo_num_cached_tokens : Z
}.

(** [SpecDecodingStats] (vllm/v1/spec_decode/metrics.py) *)
Record SpecDecodingStats := mkSpecStats {
  ss_num_spec_tokens : Z;
  ss_num_drafts : Z;
  ss_num_draft_tokens : Z;
  ss_num_accepted_tokens : Z;
  ss_num_accepted_tokens_per_pos : list Z
}.
Definition SpecDecodingStats_new (num_spec_tokens : Z) : SpecDecodingStats :=
  mkSpecStats num_spec_tokens 0 0 0 (replicate (Z.to_nat num_spec_tokens) 0).
Definition observe_draft (num_draft_tokens num_accepted_tokens : Z) (s : SpecDecodingStats)
    : res SpecDecodingStats :=
  if decide (ss_num_spec_tokens s < num_accepted_tokens) then Raise AssertionError
  else if decide (len (ss_num_accepted_tokens_per_pos s) < num_accepted_tokens) then Raise IndexError
  else
    let n := Z.to_nat num_accepted_tokens in
    Ok (mkSpecStats (ss_num_spec_tokens s) (ss_num_drafts s + 1)
          (ss_num_draft_tokens s + num_draft_tokens)
          (ss_num_accepted_tokens s + num_accepted_tokens)
          (map (Z.add 1) (take n (ss_num_accepted_tokens_per_pos s))
             ++ drop n (ss_num_accepted_tokens_per_pos s))).

Record SchedulerStats := mkSchedulerStats {
  num_running_reqs : Z;
  num_waiting_reqs : Z;
  kv_cache_usage : Z * Z;
  sst_prefix_cache_stats : PrefixCacheStats;
  sst_connector_prefix_cache_stats : option PrefixCacheStats;
  kv_cache_eviction_events : list KVCacheEvictionEvent;
  spec_decoding_stats : option SpecDecodingStats
}.
Record EngineCoreOutputs := mkEngineOutputs {
  eos_outputs : list EngineCoreOutput;
  finished_requests : option (gset string);
  scheduler_stats : option SchedulerStats
}.

Section update.
Context {W : Type} (cfg : SchedulerConfig).
Context (connector : option (KVConnector W)).
Context (set_order : gset Z → list Z) (id_order : gset string → list string).
(** The block hasher of the engine, the structured output manager and the event
    publisher. *)
Context (hasher : Request → res (list bytes)).
Context (should_advance : Request → bool) (grammar_ready : Request → bool).
Context (validate_tokens : Request → list Z → list Z).
Context (publish : list KVCacheEvent → W → W).

Abbreviation sched := (Scheduler W).

(** ** Requests come and go *)

Definition get_request_counts (s : sched) : Z * Z := (len (running s), queue_len (waiting s)).
Definition get_num_unfinished_requests (s : sched) : Z := queue_len (waiting s) + len (running s).
Definition has_finished_requests (s : sched) : bool := bool_decide (0 < Z.of_nat (size (finished_req_ids s))).

(** A new request object [request], at the reference [r]. *)
Definition sched_add_request (r : ref) (request : Request) (now : Z) : M sched unit :=
  modify (λ s, set_store (<[r := request]> (store s)) s) ;;;
  waiting_add r ;;;
  modify (λ s, set_sched_requests (<[request_id request := r]> (sched_requests s)) s) ;;;
  if sc_log_stats cfg then update_request r (record_event QUEUED now) else ret tt.

Definition _free_blocks (r : ref) : M sched unit :=
  let* request := request_of r in
  assert_ (is_finished request) ;;;
  kv (kv_free request) ;;;
  let* _ := lookup_request (request_id request) in
  modify (λ s, set_sched_requests (delete (request_id request) (sched_requests s)) s).

(** Whether the blocks must be kept, and the transfer parameters. *)
Definition _connector_finished (request : Request) : M sched (bool * option string) :=
  match connector with
  | None => ret (false, None)
  | Some c =>
      kv (kv_remove_skipped_blocks (request_id request) (num_tokens request)) ;;;
      let* block_ids := kv (kv_get_block_ids (request_id request)) in
      if negb (supports_hma c) then
        let* m := gets kv_cache_manager in
        assert_ (bool_decide (num_kv_cache_groups m = 1%nat)) ;;;
        let* ids := of_option IndexError (head block_ids) in
        on_world (request_finished c request ids)
      else on_world (request_finished_all_groups c request block_ids)
  end.

Definition _free_request (r : ref) : M sched (option string) :=
  let* request := request_of r in
  assert_ (is_finished request) ;;;
  let* result := _connector_finished request in
  let '(delay_free_blocks, kv_xfer_params) := result in
  encoder (em_free cfg set_order request) ;;;
  modify (λ s, set_finished_req_ids (finished_req_ids s ∪ {[request_id request]}) s) ;;;
  modify (λ s, set_finished_req_ids_dict
    ((λ d, od_set (client_index request)
             (default ∅ (od_get (client_index request) d) ∪ {[request_id request]}) d)
       <$> finished_req_ids_dict s) s) ;;;
  (if delay_free_blocks then ret tt else _free_blocks r) ;;;
  ret kv_xfer_params.

(** The requests that can be finished: references, and which run or wait. *)
Fixpoint find_requests (ids : list string) : M sched (list ref * gset ref * list ref) :=
  match ids with
  | [] => ret ([], ∅, [])
  | req_id :: ids =>
      let* s := get in
      match sched_requests s !! req_id with
      | None => find_requests ids
      | Some r =>
          let* request := request_of r in
          if is_finished request then find_requests ids
          else
            let* rest := find_requests ids in
            let '(valid, running_to_remove, waiting_to_remove) := rest in
            if decide (status request = RUNNING)
            then ret (r :: valid, {[r]} ∪ running_to_remove, waiting_to_remove)
            else ret (r :: valid, running_to_remove, r :: waiting_to_remove)
      end
  end.

(** [ids] are the request ids in the order in which Python iterates over them
    (the argument as a set, or a single string). *)
Definition finish_requests (ids : list string) (finished_status : RequestStatus)
    : M sched unit :=
  assert_ (status_is_finished finished_status) ;;;
  let* found := find_requests ids in
  let '(valid_requests, running_to_remove, waiting_to_remove) := found in
  (if decide (running_to_remove ≠ ∅)
   then modify (λ s, set_running (remove_all (running s) running_to_remove) s) else ret tt) ;;;
  (match waiting_to_remove with [] => ret tt | rs => waiting_remove_requests rs end) ;;;
  for_ valid_requests (λ r,
    update_request r (set_status finished_status) ;;;
    let* _ := _free_request r in ret tt).

(** ** The output of the model *)

(** The loop of [_update_request_with_output]: tokens are appended until the
    request stops. *)
Fixpoint append_until_stop (r : ref) (todo : list Z) (appended : list Z)
    : M sched (list Z * bool) :=
  match todo with
  | [] => ret (appended, false)
  | token :: todo =>
      let* rq := request_of r in
      let* rq := of_res (append_output_token_ids hasher [token] rq) in
      update_request r (λ _, rq) ;;;
      let* stop := of_res (check_stop (sc_max_model_len cfg) rq) in
      let '(stopped, rq) := stop in
      update_request r (λ _, rq) ;;;
      if stopped : bool then ret (appended ++ [token], true)
      else append_until_stop r todo (appended ++ [token])
  end.
Definition base_update_request_with_output (r : ref) (new_token_ids : list Z)
    : M sched (list Z * bool) := append_until_stop r new_token_ids [].

(** [AsyncScheduler._update_request_with_output] *)
Definition async_update_request_with_output (r : ref) (new_token_ids : list Z)
    : M sched (list Z * bool) :=
  let* request := request_of r in
  if discard_latest_async_tokens request then
    update_request r (set_discard_latest_async_tokens false) ;;;
    ret ([], false)
  else
    let status_before_update := status request in
    let* result := base_update_request_with_output r new_token_ids in
    let '(new_token_ids, stopped) := result in
    update_request r (λ rq, set_num_output_placeholders
      (num_output_placeholders rq - len new_token_ids) rq) ;;;
    let* request := request_of r in
    assert_ (bool_decide (0 ≤ num_output_placeholders request)) ;;;
    (if decide (status_before_update = RUNNING) then
       kv (kv_cache_blocks request (num_computed_tokens request - num_output_placeholders request))
     else ret tt) ;;;
    ret (new_token_ids, stopped).

Definition _update_request_with_output (r : ref) (new_token_ids : list Z)
    : M sched (list Z * bool) :=
  if sc_async cfg then async_update_request_with_output r new_token_ids
  else base_update_request_with_output r new_token_ids.

Definition make_spec_decoding_stats (stats : option SpecDecodingStats)
    (num_draft_tokens num_accepted_tokens : Z)
    (num_invalid_spec_tokens : option (list (string * Z))) (request_id : string)
    : res (option SpecDecodingStats) :=
  if negb (sc_log_stats cfg) || bool_decide (num_draft_tokens = 0) then Ok None
  else
    let stats := default (SpecDecodingStats_new (sc_num_spec_tokens cfg)) stats in
    let num_draft_tokens :=
      match num_invalid_spec_tokens with
      | None | Some [] => num_draft_tokens
      | Some d => num_draft_tokens - default 0 (od_get request_id d)
      end in
    letr s := observe_draft num_draft_tokens num_accepted_tokens stats in Ok (Some s).

(** Rejected draft tokens are taken back. *)
Definition reject_drafts (num_rejected : Z) (rq : Request) : Request :=
  let rq := if decide (0 < num_computed_tokens rq)
            then set_num_computed_tokens (num_computed_tokens rq - num_rejected) rq else rq in
  if decide (0 < num_output_placeholders rq)
  then set_num_output_placeholders (num_output_placeholders rq - num_rejected) rq else rq.

(** The variables of the loop of [update_from_output]. *)
Record UpdateLocals := mkUpdate {
  up_outputs : list (Z * list EngineCoreOutput);
  up_spec_stats : option SpecDecodingStats;
  stopped_running_reqs : gset ref;
  stopped_preempted_reqs : gset ref
}.

(** [outputs\[client_index\].append(output)] for the [defaultdict]. *)
Definition append_output (client : Z) (o : EngineCoreOutput)
    (outputs : list (Z * list EngineCoreOutput)) : list (Z * list EngineCoreOutput) :=
  od_set client (default [] (od_get client outputs) ++ [o]) outputs.

(** [EngineCoreOutput(...)], which takes the events of the request. *)
Definition engine_output (r : ref) (new_token_ids : list Z) (pooling : bool)
    (params : option string) : M sched EngineCoreOutput :=
  let* rq := request_of r in
  let '(evs, rq') := take_events rq in
  update_request r (λ _, rq') ;;;
  ret (mkEngineOutput (request_id rq) new_token_ids (get_finished_reason rq) pooling
         (stop_reason rq) evs params (num_cached_tokens rq)).

(** The accepted and rejected draft tokens of a request. *)
Definition update_drafts (r : ref) (req_id : string) (out : SchedulerOutput)
    (generated_token_ids : list Z) (stats : option SpecDecodingStats)
    : M sched (option SpecDecodingStats) :=
  match od_get req_id (so_spec_decode_tokens out) with
  | None | Some [] => ret stats
  | Some spec =>
      let num_draft_tokens := len spec in
      let num_accepted := len generated_token_ids - 1 in
      update_request r (reject_drafts (num_draft_tokens - num_accepted)) ;;;
      of_res (make_spec_decoding_stats stats num_draft_tokens num_accepted
                (so_num_invalid_spec_tokens out) req_id)
  end.

(** The new tokens are appended; pooling stops at the first output. *)
Definition take_tokens (r : ref) (new_token_ids : list Z) (pooling : bool)
    : M sched (list Z * bool) :=
  let* rq := request_of r in
  match new_token_ids with
  | _ :: _ => _update_request_with_output r new_token_ids
  | [] =>
      if bool_decide (is_Some (pooling_params rq)) && pooling then
        update_request r (set_status FINISHED_STOPPED) ;;; ret ([], true)
      else ret ([], false)
  end.

(** The end of an iteration: the output of the request, if there is one. *)
Definition report_output (model : ModelRunnerOutput) (req_id : string) (r : ref)
    (new_token_ids : list Z) (pooling : bool) (params : option string) (u : UpdateLocals)
    : M sched UpdateLocals :=
  let* rq := request_of r in
  (if bool_decide (new_token_ids ≠ []) && should_advance rq
   then assert_ (use_structured_output rq && grammar_ready rq) else ret tt) ;;;
  if bool_decide (new_token_ids ≠ []) || pooling || bool_decide (is_Some params) then
    let* o := engine_output r new_token_ids pooling params in
    ret (mkUpdate (append_output (client_index rq) o (up_outputs u)) (up_spec_stats u)
           (stopped_running_reqs u) (stopped_preempted_reqs u))
  else
    assert_ (bool_decide (req_id ∉ prompt_logprobs_of model)) ;;;
    ret u.

(** One iteration of the loop over the scheduled requests. *)
Definition update_one (out : SchedulerOutput) (model : ModelRunnerOutput)
    (failed : gset string) (req_id : string) (num_tokens_scheduled : Z) (u : UpdateLocals)
    : M sched UpdateLocals :=
  assert_ (bool_decide (0 < num_tokens_scheduled)) ;;;
  if decide (req_id ∈ failed) then ret u else
  let* s := get in
  match sched_requests s !! req_id with
  | None => ret u
  | Some r =>
      let* req_index := of_option KeyError (od_get req_id (req_id_to_index model)) in
      let* generated_token_ids :=
        match sampled_token_ids model with
        | [] => ret []
        | l => of_option IndexError (py_index l req_index)
        end in
      let* stats := update_drafts r req_id out generated_token_ids (up_spec_stats u) in
      let* pooling :=
        match has_pooler_output model with
        | None | Some [] => ret false
        | Some l => of_option IndexError (py_index l req_index)
        end in
      let* before := request_of r in
      let* result := take_tokens r generated_token_ids pooling in
      let '(new_token_ids, stopped) := result in
      let* params := if stopped : bool then _free_request r else ret None in
      let u := mkUpdate (up_outputs u) stats
        (if stopped && bool_decide (status before = RUNNING)
         then stopped_running_reqs u ∪ {[r]} else stopped_running_reqs u)
        (if stopped && bool_decide (status before ≠ RUNNING)
         then stopped_preempted_reqs u ∪ {[r]} else stopped_preempted_reqs u) in
      report_output model req_id r new_token_ids pooling params u
  end.

Fixpoint update_all (out : SchedulerOutput) (model : ModelRunnerOutput) (failed : gset string)
    (scheduled : list (string * Z)) (u : UpdateLocals) : M sched UpdateLocals :=
  match scheduled with
  | [] => ret u
  | (req_id, n) :: scheduled =>
      let* u := update_one out model failed req_id n u in
      update_all out model failed scheduled u
  end.

(** ** Failed loads *)

(** The variables of the loops of [_update_requests_with_invalid_blocks]. *)
Record InvalidLocals := mkInvalid {
  affected_req_ids : gset string;
  total_affected_tokens : Z;
  blocks_to_evict : gset Z;
  marked_invalid_block_ids : gset Z
}.

(** The loop over the blocks of one request: whether it is affected and whether
    it recomputes an invalid block. *)
Fixpoint scan_invalid_blocks (r : ref) (req_num_computed_tokens : Z) (invalid : gset Z)
    (do_evict : bool) (all_ids : list Z) (idx : nat) (ids : list Z)
    (is_affected marked : bool) (v : InvalidLocals) : M sched (bool * bool * InvalidLocals) :=
  match ids with
  | [] => ret (is_affected, marked, v)
  | block_id :: ids =>
      if negb (bool_decide (block_id ∈ invalid)) then
        scan_invalid_blocks r req_num_computed_tokens invalid do_evict all_ids (S idx) ids
          is_affected marked v
      else if decide (block_id ∈ marked_invalid_block_ids v) then
        scan_invalid_blocks r req_num_computed_tokens invalid do_evict all_ids (S idx) ids
          true marked v
      else
        let v := mkInvalid (affected_req_ids v) (total_affected_tokens v) (blocks_to_evict v)
                   (marked_invalid_block_ids v ∪ {[block_id]}) in
        if marked then
          scan_invalid_blocks r req_num_computed_tokens invalid do_evict all_ids (S idx) ids
            true marked v
        else
          let valid := Z.of_nat idx * sc_block_size cfg in
          let num_affected_tokens := req_num_computed_tokens - valid in
          update_request r (λ rq, set_num_external_computed_tokens
            (num_external_computed_tokens rq - num_affected_tokens)
            (set_num_computed_tokens valid rq)) ;;;
          let v := mkInvalid (affected_req_ids v) (total_affected_tokens v + num_affected_tokens)
            (if do_evict then blocks_to_evict v ∪ list_to_set (drop idx all_ids)
             else blocks_to_evict v)
            (marked_invalid_block_ids v) in
          scan_invalid_blocks r req_num_computed_tokens invalid do_evict all_ids (S idx) ids
            true true v
  end.

Fixpoint _update_requests_with_invalid_blocks (rs : list ref) (invalid : gset Z)
    (do_evict : bool) (v : InvalidLocals) : M sched InvalidLocals :=
  match rs with
  | [] => ret v
  | r :: rs =>
      let* request := request_of r in
      let req_id := request_id request in
      let* groups := kv (kv_get_block_ids req_id) in
      let* req_block_ids := match groups with [b] => ret b | _ => raise ValueError end in
      let* s := get in
      let req_num_computed_tokens :=
        if decide (status request = WAITING_FOR_REMOTE_KVS) then
          if decide (req_id ∈ failed_recving_kv_req_ids s) then num_computed_tokens request
          else len req_block_ids * sc_block_size cfg
        else num_cached_tokens request in
      let req_num_computed_blocks :=
        (req_num_computed_tokens + sc_block_size cfg - 1) / sc_block_size cfg in
      let* result := scan_invalid_blocks r req_num_computed_tokens invalid do_evict
        req_block_ids 0 (take (Z.to_nat req_num_computed_blocks) req_block_ids) false false v in
      let '(is_affected, marked, v) := result in
      let* v :=
        if is_affected : bool then
          let* extra :=
            if marked : bool then ret 0
            else
              let* rq := request_of r in
              update_request r (set_num_computed_tokens (num_cached_tokens rq)) ;;;
              ret (num_computed_tokens rq - num_cached_tokens rq) in
          ret (mkInvalid (affected_req_ids v ∪ {[req_id]}) (total_affected_tokens v + extra)
                 (blocks_to_evict v) (marked_invalid_block_ids v))
        else ret v in
      _update_requests_with_invalid_blocks rs invalid do_evict v
  end.

Definition no_invalid : InvalidLocals := mkInvalid ∅ 0 ∅ ∅.

(** [_handle_invalid_blocks]: the ids to skip in the update. *)
Definition _handle_invalid_blocks (invalid : gset Z) : M sched (gset string) :=
  let* s := get in
  let waiting_reqs := queue_iter (ref_lt s) (waiting s) in
  let async_load_reqs := filter (λ r,
    (rq ← store s !! r; Some (status rq)) = Some WAITING_FOR_REMOTE_KVS) waiting_reqs in
  let* async := _update_requests_with_invalid_blocks async_load_reqs invalid false no_invalid in
  let* s := get in
  let* sync := _update_requests_with_invalid_blocks (running s) invalid true no_invalid in
  let async_failed := affected_req_ids async in
  let sync_failed := affected_req_ids sync in
  if decide (size async_failed + size sync_failed = 0)%nat then ret ∅ else
  (if bool_decide (blocks_to_evict sync ≠ ∅) && negb (sc_recompute_kv_load_failures cfg)
   then kv (kv_evict_blocks (set_order (blocks_to_evict sync))) else ret tt) ;;;
  if negb (sc_recompute_kv_load_failures cfg) then ret (async_failed ∪ sync_failed)
  else
    modify (λ s, set_failed_recving (failed_recving_kv_req_ids s ∪ async_failed) s) ;;;
    ret sync_failed.

(** [_update_from_kv_xfer_finished] *)
Definition _update_from_kv_xfer_finished (o : KVConnectorOutput) : M sched unit :=
  (match connector with
   | None => ret tt
   | Some c => on_world (λ w, (tt, update_connector_output c o w))
   end) ;;;
  for_ (finished_recving o) (λ req_id,
    modify (λ s, set_finished_recving (finished_recving_kv_req_ids s ∪ {[req_id]}) s)) ;;;
  for_ (finished_sending o) (λ req_id,
    let* s := get in
    assert_ (bool_decide (is_Some (sched_requests s !! req_id))) ;;;
    let* r := lookup_request req_id in
    _free_blocks r).

(** ** Statistics *)

(** [_make_connector_prefix_cache_stats] *)
Definition _make_connector_prefix_cache_stats : M sched (option PrefixCacheStats) :=
  let* s := get in
  modify (set_connector_stats ((λ _, PrefixCacheStats_init) <$> connector_prefix_cache_stats s)) ;;;
  ret (connector_prefix_cache_stats s).

Definition make_stats (spec : option SpecDecodingStats) : M sched (option SchedulerStats) :=
  if negb (sc_log_stats cfg) then ret None
  else
    let* stats := kv make_prefix_cache_stats in
    let* stats := of_option AssertionError stats in
    let* connector_stats := _make_connector_prefix_cache_stats in
    let* evs := kv (in_block_pool drain_metrics) in
    let* s := get in
    ret (Some (mkSchedulerStats (len (running s)) (queue_len (waiting s))
                 (usage (kv_cache_manager s)) stats connector_stats evs spec)).

(** ** [update_from_output] *)

(** The requests whose load failed are finished and reported. *)
Definition fail_requests (failed : gset string) (outputs : list (Z * list EngineCoreOutput))
    : M sched (list (Z * list EngineCoreOutput)) :=
  let* rs := mapM lookup_request (id_order failed) in
  finish_requests (id_order failed) FINISHED_ERROR ;;;
  let* os := mapM (λ r,
    let* rq := request_of r in
    let* o := engine_output r [] false None in
    ret (client_index rq,
         mkEngineOutput (eo_request_id o) [] (eo_finish_reason o) false None (eo_events o) None
           (eo_num_cached_tokens o))) rs in
  ret (foldl (λ outputs p, append_output p.1 p.2 outputs) outputs os).

(** Finished ids are added to the outputs of their clients. *)
Definition add_finished (finished : list (Z * gset string))
    (outs : list (Z * EngineCoreOutputs)) : list (Z * EngineCoreOutputs) :=
  foldl (λ outs p,
    match od_get p.1 outs with
    | Some o => od_set p.1 (mkEngineOutputs (eos_outputs o) (Some p.2) (scheduler_stats o)) outs
    | None => od_set p.1 (mkEngineOutputs [] (Some p.2) None) outs
    end) outs finished.

(** The statistics go to the first client. *)
Definition add_stats (stats : option SchedulerStats) (outs : list (Z * EngineCoreOutputs))
    : list (Z * EngineCoreOutputs) :=
  match stats, outs with
  | None, _ => outs
  | Some st, [] => [(0, mkEngineOutputs [] None (Some st))]
  | Some st, (c, o) :: outs => (c, mkEngineOutputs (eos_outputs o) (finished_requests o) (Some st)) :: outs
  end.

Definition collect_kv_events : M sched unit :=
  let* events := kv kv_take_events in
  let* events :=
    match connector with
    | None => ret events
    | Some c => let* more := on_world (connector_take_events c) in ret (events ++ more)
    end in
  match events with
  | [] => ret tt
  | _ => on_world (λ w, (tt, publish events w))
  end.

Definition remove_stopped (u : UpdateLocals) : M sched unit :=
  (if decide (stopped_running_reqs u ≠ ∅)
   then modify (λ s, set_running (remove_all (running s) (stopped_running_reqs u)) s)
   else ret tt) ;;;
  if decide (stopped_preempted_reqs u ≠ ∅)
  then waiting_remove_requests (elements (stopped_preempted_reqs u)) else ret tt.

Definition update_from_output (out : SchedulerOutput) (model : ModelRunnerOutput)
    : M sched (list (Z * EngineCoreOutputs)) :=
  let* failed :=
    match kv_connector_output model with
    | Some o => if decide (invalid_block_ids o ≠ ∅)
                then _handle_invalid_blocks (invalid_block_ids o) else ret ∅
    | None => ret ∅
    end in
  let* u := update_all out model failed (so_num_scheduled_tokens out) (mkUpdate [] None ∅ ∅) in
  remove_stopped u ;;;
  let* outputs :=
    if bool_decide (failed ≠ ∅) && negb (sc_recompute_kv_load_failures cfg)
    then fail_requests failed (up_outputs u) else ret (up_outputs u) in
  (match kv_connector_output model with
   | Some o => _update_from_kv_xfer_finished o
   | None => ret tt
   end) ;;;
  collect_kv_events ;;;
  let outs := map (λ p : Z * list EngineCoreOutput, (p.1, mkEngineOutputs p.2 None None)) outputs in
  let* s := get in
  let* outs :=
    match finished_req_ids_dict s with
    | None | Some [] => ret outs
    | Some d => modify (set_finished_req_ids_dict (Some [])) ;;; ret (add_finished d outs)
    end in
  let* stats := make_stats (up_spec_stats u) in
  ret (add_stats stats outs).

(** ** Draft tokens *)

Definition update_draft_token_ids (d : DraftTokenIds) : M sched unit :=
  for_ (zip (draft_req_ids d) (draft_token_ids d)) (λ '(req_id, spec),
    let* s := get in
    match sched_requests s !! req_id with
    | None => ret tt
    | Some r =>
        let* rq := request_of r in
        if is_finished rq then ret tt else
        update_request r (set_spec_token_ids
          (if should_advance rq then validate_tokens rq spec else spec))
    end).

(** The draft tokens that replace the placeholders of a request: trimmed,
    filtered by the grammar and padded; and the number of invalid ones. *)
Definition fit_drafts (rq : Request) (placeholders spec : list Z) : list Z * Z :=
  let spec := take (length placeholders) spec in
  let spec := if should_advance rq then validate_tokens rq spec else spec in
  let num_invalid_tokens := len placeholders - len spec in
  (if decide (num_invalid_tokens ≠ 0) then spec ++ replicate (Z.to_nat num_invalid_tokens) (-1)
   else spec, num_invalid_tokens).

Fixpoint update_drafts_in_output (ds : list (string * list Z))
    (sched_spec_tokens : list (string * list Z)) (invalid : list (string * Z))
    : M sched (list (string * list Z) * list (string * Z)) :=
  match ds with
  | [] => ret (sched_spec_tokens, invalid)
  | (req_id, spec) :: ds =>
      let* s := get in
      let* rq :=
        match sched_requests s !! req_id with
        | None => ret None
        | Some r => let* rq := request_of r in ret (Some rq)
        end in
      match rq, od_get req_id sched_spec_tokens with
      | Some rq, Some ((_ :: _) as placeholders) =>
          if is_finished rq then update_drafts_in_output ds sched_spec_tokens invalid else
          (if should_advance rq then assert_ (use_structured_output rq && grammar_ready rq)
           else ret tt) ;;;
          let '(spec, n) := fit_drafts rq placeholders spec in
          update_drafts_in_output ds (od_set req_id spec sched_spec_tokens)
            (if decide (n ≠ 0) then od_set req_id n invalid else invalid)
      | _, _ => update_drafts_in_output ds sched_spec_tokens invalid
      end
  end.
Definition update_draft_token_ids_in_output (d : DraftTokenIds) (o : SchedulerOutput)
    : M sched SchedulerOutput :=
  let* r := update_drafts_in_output (zip (draft_req_ids d) (draft_token_ids d))
              (so_spec_decode_tokens o) [] in
  ret (set_so_num_invalid_spec_tokens (Some r.2) (set_so_spec_decode_tokens r.1 o)).

(** The ids of the requests that need a grammar bitmask. *)
Definition structured_output_request_ids (o : SchedulerOutput) (s : sched) : list string :=
  filter (λ req_id,
    (r ← sched_requests s !! req_id; rq ← store s !! r; Some (use_structured_output rq)) = Some true)
    (od_keys (so_num_scheduled_tokens o)).

(** ** Resets *)

Definition reset_connector_cache : M sched bool :=
  match connector with
  | None => ret false
  | Some c =>
      let* r := on_world (reset_cache c) in
      if decide (r = Some false) then ret false else
      (if sc_log_stats cfg then
         let* s := get in
         let* stats := of_option AssertionError (connector_prefix_cache_stats s) in
         modify (set_connector_stats (Some (set_stats_reset stats)))
       else ret tt) ;;;
      ret true
  end.

(** [while self.running]: all running requests are preempted, the last first. *)
Fixpoint preempt_all (fuel : nat) (timestamp : Z) : M sched unit :=
  let* s := get in
  match last (running s) with
  | None => ret tt
  | Some r =>
      match fuel with
      | O => raise OutOfFuel
      | S fuel =>
          modify (set_running (removelast (running s))) ;;;
          _preempt_request cfg set_order r timestamp ;;;
          update_request r (λ rq, set_discard_latest_async_tokens true
            (set_num_output_placeholders 0 rq)) ;;;
          preempt_all fuel timestamp
      end
  end.

Definition sched_reset_prefix_cache (reset_running_requests reset_connector : bool) (timestamp : Z)
    : M sched bool :=
  (if reset_running_requests then
     let* s := get in
     preempt_all (length (running s)) timestamp ;;;
     modify (set_prev_step ∅)
   else ret tt) ;;;
  let* reset_successful := kv kv_reset_prefix_cache in
  if reset_running_requests && negb reset_successful then raise RuntimeError else
  if reset_connector then
    let* c := reset_connector_cache in ret (c && reset_successful)
  else ret reset_successful.
End update.
