(* ===== verification/EngineInvariant.v ===== *)
(** The invariant of the engine's scheduler between two calls, for text requests
    of a synchronous scheduler without connectors, and the changes of one
    request that keep it.

    The invariant [live] speaks of two logical lists of requests, [run] and
    [wait]: within a call, a request that has stopped leaves them before it
    leaves the lists of the scheduler. *)

From S2P Require Import Prelude.
From S2P Require Import OrderedDict.
From S2P Require Import Request.
From S2P Require Import BlockHash.
From S2P Require Import BlockPool.
From S2P Require Import KVCacheManager.
From S2P Require Import KVService.
From S2P Require Import EncoderCache.
From S2P Require Import RequestQueue.
From S2P Require Import RequestQueueSpec.
From S2P Require Import SchedulerState.
From S2P Require Import SchedulerEncoder.
From S2P Require Import Schedule.
From S2P Require Import SchedulerInvariant.
From S2P Require Import ScheduleFrame.
From S2P Require Import ScheduleSpec.

(** ** The block hasher *)

(** The request with one more output token. *)
Definition with_token (t : Z) (rq : Request) : Request :=
  set_all_token_ids (_all_token_ids rq ++ [t])
    (set_output_token_ids (_output_token_ids rq ++ [t]) rq).

(** What the block hasher promises: the hashes of a request that were extended
    along its life are up to date and distinct. *)
Class TokenHasher (hbs : Z) (hasher : Request → res (list bytes)) := {
  chained : Request → Prop;
  th_hashed rq : chained rq → KVService.hashed hbs rq;
  th_same rq rq' : _all_token_ids rq' = _all_token_ids rq → block_hashes rq' = block_hashes rq →
    chained rq → chained rq';
  th_new rq : block_hashes rq = [] →
    ∃ hs, hasher rq = Ok hs ∧ chained (set_block_hashes hs rq);
  th_append t rq : chained rq →
    ∃ hs, hasher (with_token t rq) = Ok hs ∧
      chained (set_block_hashes (block_hashes rq ++ hs) (with_token t rq))
}.

Section chained_hasher.
Context (hash_function : bytes * list Z * option (list ExtraKey) → bytes).
Context (NONE_HASH : bytes) (bs : Z) (Hbs : 0 < bs).
Context (hash_inj : ∀ x y, hash_function x = hash_function y → x = y).
Context (hash_seed : ∀ x, hash_function x ≠ NONE_HASH).
Context (hash_nonempty : ∀ x, hash_function x ≠ []).

Definition fully_chained (rq : Request) : Prop :=
  is_chain hash_function NONE_HASH bs rq (block_hashes rq) ∧
  num_tokens rq < (len (block_hashes rq) + 1) * bs.

Lemma fully_chained_same rq rq' :
  _all_token_ids rq' = _all_token_ids rq → block_hashes rq' = block_hashes rq →
  fully_chained rq → fully_chained rq'.
Proof.
  intros Ht Hb [H1 H2]. unfold fully_chained, num_tokens in *. rewrite Ht, Hb. split; [|done].
  eapply is_chain_mono; [done| |done]. by rewrite Ht.
Qed.

Lemma fully_chained_hashed rq : fully_chained rq → KVService.hashed bs rq.
Proof.
  intros [(tes & Hh & Htes) Hl]. split.
  - pose proof (len_nonneg (block_hashes rq)) as Hnn.
    assert (Hlo : len (block_hashes rq) * bs ≤ num_tokens rq).
    { destruct (decide (tes = [])) as [->|Hne].
      { rewrite Hh. unfold num_tokens, len. simpl. lia. }
      destruct (lookup_lt_is_Some_2 tes (pred (length tes))) as [te Hte].
      { destruct tes; [done|]. simpl. lia. }
      destruct (Htes _ _ Hte) as [_ Hb]. rewrite Hh. unfold len. rewrite length_chain.
      destruct tes; [done|]. simpl length in *. simpl pred in Hb. nia. }
    apply Z.div_unique with (num_tokens rq - bs * len (block_hashes rq)); [left; nia|lia].
  - apply NoDup_alt. intros i j h Hi Hj. rewrite Hh in Hi, Hj.
    by destruct (chain_inj _ _ hash_inj hash_seed hash_nonempty _ _ _ _ _ Hi Hj).
Qed.

(** The hasher extends the chain of any request to all its tokens. *)
Lemma fully_chained_extend rq : is_chain hash_function NONE_HASH bs rq (block_hashes rq) →
  ∃ hs, request_block_hasher hash_function NONE_HASH bs rq = Ok hs ∧
    fully_chained (set_block_hashes (block_hashes rq ++ hs) rq).
Proof.
  intros Hc. destruct (request_block_hasher_ok hash_function NONE_HASH bs rq Hbs) as [hs Hhs].
  exists hs. split; [done|].
  destruct (request_block_hasher_chain _ _ _ _ _ Hbs Hc Hhs) as [H1 H2]. split; [|done].
  by eapply (is_chain_mono _ _ bs rq).
Qed.

#[export] Program Instance chained_hasher : TokenHasher bs (request_block_hasher hash_function NONE_HASH bs) :=
  {| chained := fully_chained |}.
Next Obligation. apply fully_chained_hashed. Qed.
Next Obligation. apply fully_chained_same. Qed.
Next Obligation.
  intros rq Hn. destruct (fully_chained_extend rq) as (hs & Hhs & Hc); [rewrite Hn; by exists []|].
  exists hs. by rewrite Hn in Hc.
Qed.
Next Obligation.
  intros t rq [Hc _]. apply (fully_chained_extend (with_token t rq)).
  eapply is_chain_mono; [done| |exact Hc]. simpl. by apply prefix_app_r.
Qed.
End chained_hasher.

(** ** Requests between two calls *)

Section live.
Context {W : Type} (cfg : SchedulerConfig) (hbs : Z).
Context {KP : KVPredicates} {KS : KVService hbs (sc_max_model_len cfg) (sc_log_stats cfg)}.
Context (hasher : Request → res (list bytes)) {TH : TokenHasher hbs hasher}.
Implicit Types (s : Scheduler W) (run wait : list ref).
Abbreviation tracked := (tracked (W := W) cfg hbs).
Abbreviation progressing := (progressing cfg).

(** The request [rq] at [r] runs or waits. *)
Record alive s run wait (r : ref) (rq : Request) : Prop := {
  al_tracked : tracked s r rq;
  al_chained : chained rq;
  al_run : r ∈ run → runs (kv_cache_manager s) rq ∧ progressing rq;
  al_wait : r ∈ wait → waits (kv_cache_manager s) rq
}.
Record live s run wait : Prop := {
  lv_nodup : NoDup (run ++ wait);
  lv_alive : ∀ r, r ∈ run ++ wait → ∃ rq, alive s run wait r rq;
  lv_kv : kv_ok (kv_cache_manager s);
  lv_idle : ∀ id, sched_requests s !! id = None → kv_idle (kv_cache_manager s) id;
  lv_known : ∀ id r, sched_requests s !! id = Some r →
    r ∈ run ++ wait ∧ ∃ rq, store s !! r = Some rq ∧ request_id rq = id;
  lv_spec : ∀ r rq, store s !! r = Some rq → spec_token_ids rq = []
}.

(** The invariant between two calls. *)
Record engine_inv s : Prop := {
  ei_live : live s (running s) (items (waiting s));
  ei_queue : q_ok s (waiting s);
  ei_max : len (running s) ≤ sc_max_num_running_reqs cfg;
  ei_preempted : ∀ r rq, r ∈ items (waiting s) → store s !! r = Some rq →
    status rq = PREEMPTED → request_id rq ∉ prev_step_scheduled_req_ids s
}.

Lemma live_perm s run wait wait' : wait ≡ₚ wait' → live s run wait → live s run wait'.
Proof.
  intros Hp [H1 H2 H3 H4 H5 H6]. split; try done.
  - by rewrite <- Hp.
  - intros r. rewrite <- Hp. intros Hr. destruct (H2 r Hr) as (rq & [A1 A2 A3 A4]).
    exists rq. split; try done. rewrite <- Hp. done.
  - intros id r Hid. rewrite <- Hp. by apply H5.
Qed.

(** Only the objects, the table and the KV cache matter. *)
Lemma live_same s s' run wait :
  store s' = store s → sched_requests s' = sched_requests s →
  kv_cache_manager s' = kv_cache_manager s → live s run wait → live s' run wait.
Proof.
  intros E1 E2 E3 [H1 H2 H3 H4 H5 H6]. split; rewrite ?E1, ?E2, ?E3; try done.
  intros r Hr. destruct (H2 r Hr) as (rq & [[T1 T2 T3] A2 A3 A4]).
  exists rq. split; rewrite ?E3; try done. split; rewrite ?E1, ?E2; done.
Qed.

Lemma live_kv s run wait m' :
  live s run wait → kv_ok m' → kv_frame None (kv_cache_manager s) m' → live (set_kv m' s) run wait.
Proof.
  intros [H1 H2 H3 H4 H5 H6] Hok Hf. split; try done.
  - intros r Hr. destruct (H2 r Hr) as (rq & [[T1 T2 T3] A2 A3 A4]). exists rq. split; try done.
    + intros Hrun. destruct (A3 Hrun). split; [by eapply runs_frame|done].
    + intros Hwait. eapply waits_frame; [done..|by apply A4].
  - intros id Hid. apply (kf_idle _ _ _ Hf); [done|by apply H4].
Qed.

(** A request changes its state but neither its place nor its blocks. *)
Lemma live_change s s' run wait r rq rq' :
  live s run wait → tracked s r rq →
  store s' = <[r := rq']> (store s) → sched_requests s' = sched_requests s →
  kv_cache_manager s' = kv_cache_manager s →
  request_id rq' = request_id rq → text_request hbs (sc_max_model_len cfg) rq' → chained rq' →
  spec_token_ids rq' = [] →
  (r ∈ run → runs (kv_cache_manager s) rq' ∧ progressing rq') →
  (r ∈ wait → waits (kv_cache_manager s) rq') → live s' run wait.
Proof.
  intros [H1 H2 H3 H4 H5 H6] Ht E1 E2 E3 Hid Htx Hch Hsp Hr Hw. split; rewrite ?E2, ?E3; try done.
  - intros x Hx. destruct (decide (x = r)) as [->|Hne].
    { exists rq'. split; rewrite ?E3; try done. split; [by rewrite E1, lookup_insert_eq|done|].
      rewrite E2, Hid. apply Ht. }
    destruct (H2 x Hx) as (rx & [[T1 T2 T3] A2 A3 A4]). exists rx. split; rewrite ?E3; try done.
    split; [by rewrite E1, lookup_insert_ne|done|by rewrite E2].
  - intros id x Hx. destruct (H5 id x Hx) as (Hin & rx & Hsx & Hidx). split; [done|]. rewrite E1.
    destruct (decide (x = r)) as [->|Hne].
    + exists rq'. rewrite lookup_insert_eq. split; [done|]. rewrite Hid, <- Hidx.
      by rewrite (tk_store _ _ _ _ _ Ht) in Hsx; injection Hsx as <-.
    + exists rx. by rewrite lookup_insert_ne.
  - intros x rx. rewrite E1. intros [[<- <-]|[_ Hx]]%lookup_insert_Some; [done|by apply (H6 x)].
Qed.

(** A request leaves: its id is forgotten and its blocks are freed. *)
Lemma live_leave s s' run wait r rq :
  live s run wait → tracked s r rq → (∃ rq', store s' = <[r := rq']> (store s) ∧ spec_token_ids rq' = []) →
  sched_requests s' = delete (request_id rq) (sched_requests s) →
  kv_ok (kv_cache_manager s') →
  kv_frame (Some (request_id rq)) (kv_cache_manager s) (kv_cache_manager s') →
  kv_idle (kv_cache_manager s') (request_id rq) →
  live s' (filter (λ x, x ≠ r) run) (filter (λ x, x ≠ r) wait).
Proof.
  intros [H1 H2 H3 H4 H5 H6] Ht (rq' & E1 & Hsp) E2 Hok Hf Hidle.
  assert (Hother : ∀ x rx, tracked s x rx → x ≠ r → request_id rx ≠ request_id rq).
  { intros x rx Htx Hne He. by apply Hne, (tracked_inj cfg hbs s x r rx rq). }
  split; try done.
  - rewrite <- filter_app. by apply NoDup_filter.
  - intros x. rewrite <- filter_app. intros [Hne Hx]%list_elem_of_filter.
    destruct (H2 x Hx) as (rx & [Htx A2 A3 A4]). pose proof (Hother x rx Htx Hne) as Hid.
    exists rx. split; try done.
    + destruct Htx as [T1 T2 T3]. split; [by rewrite E1, lookup_insert_ne|done|].
      by rewrite E2, lookup_delete_ne.
    + intros [_ Hr]%list_elem_of_filter. destruct (A3 Hr). split; [|done].
      eapply runs_frame; [done| |done]. congruence.
    + intros [_ Hr]%list_elem_of_filter. eapply waits_frame; [done| |by apply A4]. congruence.
  - intros id. rewrite E2. destruct (decide (id = request_id rq)) as [->|Hne]; [done|].
    rewrite lookup_delete_ne by done. intros Hid. apply (kf_idle _ _ _ Hf); [congruence|by apply H4].
  - intros id x. rewrite E2. intros [Hne Hx]%lookup_delete_Some.
    destruct (H5 id x Hx) as (Hin & rx & Hsx & Hidx).
    assert (Hxr : x ≠ r). { intros ->. rewrite (tk_store _ _ _ _ _ Ht) in Hsx. injection Hsx as <-. done. }
    split; [rewrite <- filter_app; by apply list_elem_of_filter|].
    exists rx. by rewrite E1, lookup_insert_ne.
  - intros x rx. rewrite E1. intros [[<- <-]|[_ Hx]]%lookup_insert_Some; [done|by apply (H6 x)].
Qed.

(** An object that no request is any more changes. *)
Lemma live_dead s s' run wait r rq' :
  live s run wait → r ∉ run ++ wait → spec_token_ids rq' = [] →
  store s' = <[r := rq']> (store s) → sched_requests s' = sched_requests s →
  kv_cache_manager s' = kv_cache_manager s → live s' run wait.
Proof.
  intros [H1 H2 H3 H4 H5 H6] Hr Hsp E1 E2 E3. split; rewrite ?E2, ?E3; try done.
  - intros x Hx. assert (Hxr : x ≠ r) by (by intros ->).
    destruct (H2 x Hx) as (rx & [[T1 T2 T3] A2 A3 A4]). exists rx. split; rewrite ?E3; try done.
    split; [by rewrite E1, lookup_insert_ne|done|by rewrite E2].
  - intros id x Hx. destruct (H5 id x Hx) as (Hin & rx & Hsx & Hidx). split; [done|]. exists rx.
    rewrite E1, lookup_insert_ne; [done|]. by intros <-.
  - intros x rx. rewrite E1. intros [[<- <-]|[_ Hx]]%lookup_insert_Some; [done|by apply (H6 x)].
Qed.

(** A request comes. *)
Lemma live_add s s' run wait r rq :
  live s run wait → store s !! r = None → sched_requests s !! request_id rq = None →
  text_request hbs (sc_max_model_len cfg) rq → chained rq → spec_token_ids rq = [] →
  (kv_idle (kv_cache_manager s) (request_id rq) → waits (kv_cache_manager s) rq) →
  store s' = <[r := rq]> (store s) → sched_requests s' = <[request_id rq := r]> (sched_requests s) →
  kv_cache_manager s' = kv_cache_manager s → live s' run (r :: wait).
Proof.
  intros [H1 H2 H3 H4 H5 H6] Hr Hid Htx Hch Hsp Hw E1 E2 E3.
  assert (Hnew : r ∉ run ++ wait).
  { intros Hin. destruct (H2 r Hin) as (x & [[T1 _ _] _ _ _]). by rewrite Hr in T1. }
  assert (Hperm : run ++ r :: wait ≡ₚ r :: run ++ wait) by (symmetry; apply Permutation_middle).
  split; rewrite ?E3; try done.
  - rewrite Hperm. by apply NoDup_cons.
  - intros x. rewrite Hperm. intros [->|Hx]%elem_of_cons.
    { exists rq. split; rewrite ?E3; try done.
      - split; [by rewrite E1, lookup_insert_eq|done|by rewrite E2, lookup_insert_eq].
      - intros Hin. destruct Hnew. apply elem_of_app. by left.
      - intros _. by apply Hw, H4. }
    destruct (H2 x Hx) as (rx & [[T1 T2 T3] A2 A3 A4]). assert (Hxr : x ≠ r) by by intros ->.
    exists rx. split; rewrite ?E3; try done.
    + split; [by rewrite E1, lookup_insert_ne|done|]. rewrite E2, lookup_insert_ne; [done|].
      intros He. by rewrite <- He, Hid in T3.
    + by intros [|]%elem_of_cons; [|apply A4].
  - intros id. rewrite E2. intros [Hx _]%lookup_insert_None. by apply H4.
  - intros id x. rewrite E2, Hperm. intros [[<- <-]|[Hne Hx]]%lookup_insert_Some.
    + split; [by left|]. exists rq. by rewrite E1, lookup_insert_eq.
    + destruct (H5 id x Hx) as (Hin & rx & Hsx & Hidx). split; [by right|]. exists rx.
      rewrite E1, lookup_insert_ne; [done|]. intros ->. by rewrite Hr in Hsx.
  - intros x rx. rewrite E1. intros [[<- <-]|[_ Hx]]%lookup_insert_Some; [done|by apply (H6 x)].
Qed.

Lemma live_in s run wait id r : live s run wait → sched_requests s !! id = Some r →
  ∃ rq, alive s run wait r rq ∧ request_id rq = id ∧ r ∈ run ++ wait.
Proof.
  intros Hl Hid. destruct (lv_known _ _ _ Hl id r Hid) as (Hin & rq & Hs & He).
  destruct (lv_alive _ _ _ Hl r Hin) as (rq' & Ha). exists rq'.
  pose proof (tracked_eq _ _ _ _ _ _ (al_tracked _ _ _ _ _ Ha) Hs) as ->. done.
Qed.

Lemma live_inj s run wait id id' r : live s run wait →
  sched_requests s !! id = Some r → sched_requests s !! id' = Some r → id = id'.
Proof.
  intros Hl H1 H2. destruct (lv_known _ _ _ Hl id r H1) as (_ & rq & Hs & <-).
  destruct (lv_known _ _ _ Hl id' r H2) as (_ & rq' & Hs' & <-). congruence.
Qed.

(** The invariant of the scheduling step. *)
Lemma live_core s wait : live s (running s) wait → core cfg hbs s wait.
Proof.
  intros [H1 H2 H3 H4 H5 H6]. split; try done.
  - intros r Hr. destruct (H2 r) as (rq & [A1 A2 A3 A4]); [apply elem_of_app; by left|].
    exists rq. by destruct (A3 Hr).
  - intros r Hr. destruct (H2 r) as (rq & [A1 A2 A3 A4]); [apply elem_of_app; by right|].
    exists rq. split; [done|by apply A4].
Qed.

Lemma engine_sched_inv s : engine_inv s → sched_inv cfg hbs s.
Proof. intros [H1 H2 H3 H4]. split; try done. by apply live_core. Qed.

Lemma core_live s wait :
  core cfg hbs s wait →
  (∀ r rq, r ∈ running s ++ wait → store s !! r = Some rq → chained rq) →
  (∀ r rq, r ∈ running s → store s !! r = Some rq → progressing rq) →
  (∀ id r, sched_requests s !! id = Some r →
    r ∈ running s ++ wait ∧ ∃ rq, store s !! r = Some rq ∧ request_id rq = id) →
  (∀ r rq, store s !! r = Some rq → spec_token_ids rq = []) → live s (running s) wait.
Proof.
  intros Hc Hch Hp Hk Hsp. pose proof Hc as [H1 H2 H3 H4 H5]. split; try done.
  intros r Hr. destruct (core_tracked _ _ _ _ _ Hc (proj1 (elem_of_app _ _ _) Hr)) as (rq & Ht).
  pose proof (tk_store _ _ _ _ _ Ht) as Hs. exists rq. split; [done|by apply (Hch r)| |].
  - intros Hrun. destruct (H2 r Hrun) as (x & Htx & Hx). pose proof (tracked_eq _ _ _ _ _ _ Htx Hs) as ->.
    split; [done|by apply (Hp r)].
  - intros Hw. destruct (H3 r Hw) as (x & Htx & Hx). by pose proof (tracked_eq _ _ _ _ _ _ Htx Hs) as ->.
Qed.
End live.
