(* ===== verification/EngineCalls.v ===== *)
(** Adding and aborting requests keeps the engine's invariant, and neither ever
    raises. *)

From S2P Require Import Prelude.
From S2P Require Import OrderedDict.
From S2P Require Import Request.
From S2P Require Import BlockPool.
From S2P Require Import KVCacheManager.
From S2P Require Import KVService.
From S2P Require Import EncoderCache.
From S2P Require Import RequestQueue.
From S2P Require Import RequestQueueSpec.
From S2P Require Import SchedulerState.
From S2P Require Import SchedulerEncoder.
From S2P Require Import Schedule.
From S2P Require Import SchedulerInvariant.
From S2P Require Import ScheduleFrame.
From S2P Require Import ScheduleSpec.
From S2P Require Import SchedulerUpdate.
From S2P Require Import EngineInvariant.

(** ** Lists *)

Lemma remove_first_filter `{EqDecision A} (x : A) l :
  NoDup l → list_remove_first x l = filter (λ y, y ≠ x) l.
Proof.
  induction l as [|y l IH]; intros Hnd; [done|]. apply NoDup_cons in Hnd as [Hy Hl].
  simpl. case_decide as Hxy.
  - subst. rewrite filter_cons_False by tauto. symmetry. apply filter_all. by intros a Ha ->.
  - rewrite filter_cons_True by done. by rewrite IH.
Qed.

Lemma remove_all_filter `{Countable A} (l : list A) (R : gset A) :
  NoDup l → remove_all l R = filter (λ x, x ∉ R) l.
Proof.
  intros Hnd. unfold remove_all. pose proof (λ a, elem_of_elements R a) as Hel.
  destruct (elements R) as [|x [|y rs]]; [| |done].
  - symmetry. apply filter_all. intros a _ Ha%Hel. by apply not_elem_of_nil in Ha.
  - rewrite remove_first_filter by done. apply filter_ext_in. intros a _.
    by rewrite <- Hel, list_elem_of_singleton.
Qed.

Section calls.
Context {W : Type} (cfg : SchedulerConfig) (hbs : Z).
Context {KP : KVPredicates} {KS : KVService hbs (sc_max_model_len cfg) (sc_log_stats cfg)}.
Context (hasher : Request → res (list bytes)) {TH : TokenHasher hbs hasher}.
Context (set_order : gset Z → list Z) (Hset : set_order ∅ = []).
Implicit Types (s : Scheduler W) (run wait : list ref).
Abbreviation tracked := (tracked (W := W) cfg hbs).
Abbreviation live := (live (W := W) cfg hbs hasher).
Abbreviation engine_inv := (engine_inv (W := W) cfg hbs hasher).

(** ** Leaving *)

(** The request [id] is freed. *)
Record freed s s' (id : string) : Prop := {
  fd_store : store s' = store s;
  fd_requests : sched_requests s' = delete id (sched_requests s);
  fd_kv : kv_ok (kv_cache_manager s');
  fd_frame : kv_frame (Some id) (kv_cache_manager s) (kv_cache_manager s');
  fd_idle : kv_idle (kv_cache_manager s') id;
  fd_running : running s' = running s;
  fd_waiting : waiting s' = waiting s;
  fd_prev : prev_step_scheduled_req_ids s' = prev_step_scheduled_req_ids s;
  fd_finished : finished_req_ids s' = finished_req_ids s ∪ {[id]}
}.

Lemma free_request_ok s r rq :
  store s !! r = Some rq → is_finished rq = true → mm_features rq = [] →
  sched_requests s !! request_id rq = Some r → kv_ok (kv_cache_manager s) →
  ∃ s', _free_request cfg None set_order r s = (Ok None, s') ∧ freed s s' (request_id rq).
Proof.
  intros Hr Hfin Hmm Hid Hkv. unfold _free_request.
  rewrite (bind_ok _ _ _ _ _ (request_of_run _ _ _ Hr)), bind_assert_true by done.
  simpl. rewrite bind_ret_l. rewrite (bind_ok _ _ _ _ _ (em_free_text cfg set_order rq s Hset Hmm)).
  rewrite !bind_modify.
  set (s1 := set_finished_req_ids_dict _ _).
  destruct (ks_free (kv_cache_manager s1) rq Hkv) as (m' & Hfree & Hok & Hframe & Hidle).
  assert (Hfb : _free_blocks r s1 =
    (Ok tt, set_sched_requests (delete (request_id rq) (sched_requests s1)) (set_kv m' s1))).
  { unfold _free_blocks. rewrite (bind_ok _ _ _ _ _ (request_of_run s1 r rq Hr)), bind_assert_true by done.
    rewrite (bind_ok _ _ _ _ _ (kv_run _ _ _ _ Hfree)).
    by rewrite (bind_ok _ _ _ _ _ (lookup_request_run (set_kv m' s1) _ _ Hid)). }
  rewrite (bind_ok _ _ _ _ _ Hfb). eexists. split; [reflexivity|]. by split.
Qed.

(** A request stops ([rq'] is its last state) and is freed. *)
Lemma leave_ok s0 s run wait r rq rq' :
  live s0 run wait → tracked s0 r rq →
  store s = <[r := rq']> (store s0) → sched_requests s = sched_requests s0 →
  kv_cache_manager s = kv_cache_manager s0 →
  is_finished rq' = true → request_id rq' = request_id rq → mm_features rq' = [] →
  spec_token_ids rq' = [] →
  ∃ s', _free_request cfg None set_order r s = (Ok None, s') ∧ freed s s' (request_id rq) ∧
    live s' (filter (λ x, x ≠ r) run) (filter (λ x, x ≠ r) wait).
Proof.
  intros Hl Ht E1 E2 E3 Hfin Hid Hmm Hsp.
  destruct (free_request_ok s r rq') as (s' & Hrun & Hf).
  - by rewrite E1, lookup_insert_eq.
  - done.
  - done.
  - rewrite E2, Hid. apply Ht.
  - rewrite E3. apply Hl.
  - rewrite Hid in Hf. exists s'. split; [done|]. split; [done|]. destruct Hf. rewrite E3 in *.
    apply (live_leave cfg hbs hasher s0 s' run wait r rq); try done.
    + exists rq'. by rewrite fd_store0, E1.
    + by rewrite fd_requests0, E2.
Qed.

(** ** Adding *)

(** A request object as the engine makes it. *)
Record new_request (rq : Request) : Prop := {
  nw_text : text_request hbs (sc_max_model_len cfg) rq;
  nw_chained : chained rq;
  nw_status : status rq = WAITING ∨ status rq = WAITING_FOR_FSM;
  nw_computed : num_computed_tokens rq = 0;
  nw_placeholders : num_output_placeholders rq = 0;
  nw_spec : spec_token_ids rq = []
}.

Lemma new_request_waits m rq : new_request rq → kv_idle m (request_id rq) → waits m rq.
Proof. intros [_ _ H2 H3 H4 _] Hi. split; [tauto|done|done|lia]. Qed.

(** The constructor makes such a request of a text prompt that fits the model. *)
Lemma init_new_request id obj client prompt sp eos arrival lora salt prio rq :
  Request_init id obj client (Some prompt) (Some sp) None eos arrival None [] lora salt prio
    (Some hasher) = Ok rq →
  0 < len prompt < sc_max_model_len cfg → len prompt + min_tokens sp ≤ sc_max_model_len cfg →
  new_request rq ∧ request_id rq = id.
Proof.
  intros Hi Hlen Hmin. unfold Request_init in Hi. destruct (init_max_tokens_status _ _) as [[mt st]|] eqn:Hst; [|done].
  simpl in Hi. match type of Hi with match hasher ?x with _ => _ end = _ => set (r0 := x) in * end.
  destruct (th_new r0 eq_refl) as (hs & Hhs & Hch). rewrite Hhs in Hi. injection Hi as <-.
  split; [|done]. split; try done.
  - split; try done; [by eapply th_hashed, th_same; [| |exact Hch]|].
    exists sp. split; [done|]. unfold num_tokens, num_output_tokens. simpl. unfold len at 2. simpl. lia.
  - by eapply th_same; [| |exact Hch].
  - simpl in Hst. destruct (max_tokens_param sp); [|done]. injection Hst as _ <-. simpl.
    destruct (structured_outputs sp); tauto.
Qed.

Lemma add_ok s r rq now :
  engine_inv s → new_request rq → store s !! r = None → sched_requests s !! request_id rq = None →
  ∃ s', sched_add_request cfg r rq now s = (Ok tt, s') ∧ engine_inv s' ∧
    running s' = running s ∧ items (waiting s') ≡ₚ r :: items (waiting s) ∧
    sched_requests s' = <[request_id rq := r]> (sched_requests s) ∧
    (∀ x, x ≠ r → store s' !! x = store s !! x) ∧ ∃ rq', store s' !! r = Some rq' ∧ same_request rq rq'.
Proof.
  intros [Hl Hq Hm Hp] Hn Hr Hid. unfold sched_add_request. rewrite bind_modify.
  set (s1 := set_store (<[r := rq]> (store s)) s).
  assert (Hq1 : q_ok s1 (waiting s)).
  { apply (q_ok_order s); [|done]. intros x Hx. simpl. destruct (decide (x = r)) as [->|Hne].
    - destruct (lv_alive _ _ _ _ _ _ Hl r) as (y & Hy); [apply elem_of_app; by right|].
      pose proof (tk_store _ _ _ _ _ (al_tracked _ _ _ _ _ _ _ _ Hy)) as Hs. by rewrite Hr in Hs.
    - rewrite lookup_insert_ne by done. destruct (store s !! x); by constructor. }
  destruct (law_add (lt := ref_lt s1) r (waiting s) Hq1) as [Hq2 Hperm]. rewrite !queue_items_eq in Hperm.
  unfold waiting_add. rewrite !bind_modify. cbv beta.
  set (s2 := set_sched_requests _ _).
  assert (Hadd : ∀ s3 rq3, store s3 = <[r := rq3]> (store s) → sched_requests s3 = sched_requests s2 →
    kv_cache_manager s3 = kv_cache_manager s → running s3 = running s → waiting s3 = waiting s2 →
    prev_step_scheduled_req_ids s3 = prev_step_scheduled_req_ids s →
    same_order rq rq3 → new_request rq3 → engine_inv s3).
  { intros s3 rq3 E1 E2 E3 E4 E5 E6 Hso Hn3. pose proof (sd_id _ _ Hso) as Hid3.
    split; rewrite ?E4, ?E5, ?E6; try done.
    - eapply live_perm; [symmetry; exact Hperm|].
      apply (live_add cfg hbs hasher s s3 (running s) (items (waiting s)) r rq3); try done; try apply Hn3.
      + by rewrite Hid3.
      + by apply new_request_waits.
      + rewrite E2, Hid3. done.
    - apply (q_ok_order s1); [|exact Hq2]. intros x _. rewrite E1. simpl.
      destruct (decide (x = r)) as [->|Hne]; [rewrite !lookup_insert_eq by done; by constructor|].
      rewrite !lookup_insert_ne by done. destruct (store s !! x); by constructor.
    - intros x rx. rewrite E1. change (waiting s2) with (add_request (ref_lt s1) r (waiting s)).
      rewrite Hperm. intros Hx [[<- <-]|[Hne Hsx]]%lookup_insert_Some Hst.
      + destruct (nw_status _ Hn3); congruence.
      + apply elem_of_cons in Hx as [->|Hx]; [done|]. by apply (Hp x). }
  destruct (sc_log_stats cfg).
  - rewrite (update_request_run s2 r rq); [|apply lookup_insert_eq].
    eexists. split; [reflexivity|]. split.
    2: { do 3 (split; [done|]). split; [intros x Hx; simpl; by rewrite !lookup_insert_ne|].
      exists (record_event QUEUED now rq). simpl. by rewrite lookup_insert_eq. }
    apply (Hadd _ (record_event QUEUED now rq)); try done.
    + simpl. by rewrite insert_insert_eq.
    + destruct Hn as [[T1 [T2 T3] T4 T5 T6 T7] Hc N1 N2 N3 N4]. split; try done. by eapply th_same; [| |exact Hc].
  - eexists. split; [reflexivity|]. split; [by apply (Hadd _ rq)|].
    do 3 (split; [done|]). split; [intros x Hx; simpl; by rewrite lookup_insert_ne|].
    exists rq. simpl. by rewrite lookup_insert_eq.
Qed.

(** ** Aborting *)

Lemma alive_unfinished s run wait r rq :
  alive cfg hbs hasher s run wait r rq → r ∈ run ++ wait → NoDup (run ++ wait) →
  is_finished rq = false ∧ (status rq = RUNNING ↔ r ∈ run) ∧ (status rq ≠ RUNNING ↔ r ∈ wait).
Proof.
  intros [Ht _ Hr Hw] Hin (_ & Hd & _)%NoDup_app. unfold is_finished.
  apply elem_of_app in Hin as [Hin|Hin].
  - destruct (Hr Hin) as [Hrun _]. rewrite (rn_status _ _ Hrun). split; [done|].
    split; [done|]. split; [done|]. intros Hx. by destruct (Hd r).
  - assert (r ∉ run) by (intros Hx; by apply (Hd r)).
    destruct (wt_status _ _ (Hw Hin)) as [Hs|[Hs|Hs]]; rewrite Hs; (split; [done|]); split; split; done.
Qed.

(** The requests that [finish_requests] finds. *)
Record found s (ids : list string) (valid : list ref) (R : gset ref) (Wt : list ref) : Prop := {
  fo_nodup : NoDup valid;
  fo_valid : ∀ r, r ∈ valid ↔ ∃ id, id ∈ ids ∧ sched_requests s !! id = Some r;
  fo_running : ∀ r, r ∈ R ↔ r ∈ valid ∧ r ∈ running s;
  fo_waiting : ∀ r, r ∈ Wt ↔ r ∈ valid ∧ r ∈ items (waiting s)
}.

Lemma find_requests_ok s ids :
  live s (running s) (items (waiting s)) → NoDup ids →
  ∃ valid R Wt, find_requests ids s = (Ok (valid, R, Wt), s) ∧ found s ids valid R Wt.
Proof.
  intros Hl. induction ids as [|id ids IH]; intros Hnd.
  { exists [], ∅, []. split; [done|]. split; [constructor| | |].
    - intros r. split; [by intros Hr%not_elem_of_nil|]. intros (id & Hid%not_elem_of_nil & _). done.
    - intros r. split; [by intros Hr%not_elem_of_empty|]. by intros [Hr%not_elem_of_nil _].
    - intros r. split; [by intros Hr%not_elem_of_nil|]. by intros [Hr%not_elem_of_nil _]. }
  apply NoDup_cons in Hnd as [Hid Hnd]. destruct (IH Hnd) as (valid & R & Wt & Hrun & [F1 F2 F3 F4]).
  cbn [find_requests]. unfold bind at 1. cbn [get].
  destruct (sched_requests s !! id) as [r|] eqn:Hr.
  2: { exists valid, R, Wt. split; [done|]. split; try done. intros r. rewrite F2.
    split; intros (x & Hx & Hsx); exists x; (split; [|done]); [by right|].
    apply elem_of_cons in Hx as [->|Hx]; [by rewrite Hr in Hsx|done]. }
  destruct (live_in _ _ _ _ _ _ id r Hl Hr) as (rq & Ha & Hrid & Hin).
  destruct (alive_unfinished _ _ _ _ _ Ha Hin (lv_nodup _ _ _ _ _ _ Hl)) as (Hfin & Hst1 & Hst2).
  rewrite (bind_ok _ _ _ _ _ (request_of_run s r rq (tk_store _ _ _ _ _ (al_tracked _ _ _ _ _ _ _ _ Ha)))).
  rewrite Hfin, (bind_ok _ _ _ _ _ Hrun).
  assert (Hnew : r ∉ valid).
  { rewrite F2. intros (x & Hx & Hsx). destruct (live_in _ _ _ _ _ _ x r Hl Hsx) as (rq' & Ha' & Hid' & _).
    pose proof (tracked_eq _ _ _ _ _ _ (al_tracked _ _ _ _ _ _ _ _ Ha') (tk_store _ _ _ _ _ (al_tracked _ _ _ _ _ _ _ _ Ha))) as ->.
    congruence. }
  assert (Hval : ∀ x, x ∈ r :: valid ↔ ∃ i, i ∈ id :: ids ∧ sched_requests s !! i = Some x).
  { intros x. rewrite elem_of_cons, F2. split.
    - intros [->|(i & Hi & Hs)]; [exists id; split; [by left|done]|]. exists i. split; [by right|done].
    - intros (i & [->|Hi]%elem_of_cons & Hs); [left; congruence|]. right. by exists i. }
  assert (Hnd2 : NoDup (r :: valid)) by (by apply NoDup_cons).
  pose proof (lv_nodup _ _ _ _ _ _ Hl) as (_ & Hd & _)%NoDup_app.
  destruct (decide (status rq = RUNNING)) as [Hst|Hst].
  - apply Hst1 in Hst. eexists _, _, _. split; [reflexivity|]. split; try done.
    + intros x. rewrite elem_of_union, elem_of_singleton, F3, elem_of_cons. naive_solver.
    + intros x. rewrite F4, elem_of_cons. split; [tauto|]. intros [[->|Hx] Hw]; [by destruct (Hd r)|done].
  - apply Hst2 in Hst. eexists _, _, _. split; [reflexivity|]. split; try done.
    + intros x. rewrite F3, elem_of_cons. split; [tauto|]. intros [[->|Hx] Hw]; [by destruct (Hd r)|done].
    + intros x. rewrite !elem_of_cons, F4. naive_solver.
Qed.

Section finishing.
Context (s0 : Scheduler W) (valid : list ref) (q : AnyRequestQueue ref).

(** The requests that are left when [rest] is to be finished yet. *)
Definition left_over (rest : list ref) (l : list ref) : list ref :=
  filter (λ x, x ∉ valid ∨ x ∈ rest) l.

Record finishing (rest : list ref) s : Prop := {
  fi_rest : NoDup rest ∧ ∀ r, r ∈ rest → r ∈ valid ∧ ∃ id, sched_requests s0 !! id = Some r;
  fi_live : live s (left_over rest (running s0)) (left_over rest (items (waiting s0)));
  fi_other : ∀ x, x ∉ valid → store s !! x = store s0 !! x;
  fi_requests : ∀ id r, sched_requests s !! id = Some r ↔
    sched_requests s0 !! id = Some r ∧ (r ∉ valid ∨ r ∈ rest);
  fi_running : running s = filter (λ x, x ∉ valid) (running s0);
  fi_waiting : waiting s = q;
  fi_prev : prev_step_scheduled_req_ids s = prev_step_scheduled_req_ids s0
}.

Lemma left_over_step r rest l : r ∉ rest → r ∈ valid →
  filter (λ x, x ≠ r) (left_over (r :: rest) l) = left_over rest l.
Proof.
  intros Hr Hv. unfold left_over. rewrite list_filter_filter. apply filter_ext_in. intros x _.
  rewrite elem_of_cons. destruct (decide (x = r)) as [->|]; tauto.
Qed.

Lemma finish_one_ok fs r rest s : status_is_finished fs = true → finishing (r :: rest) s →
  ∃ s', (update_request r (set_status fs) ;;;
         let* _ := _free_request cfg None set_order r in ret tt) s = (Ok tt, s') ∧ finishing rest s'.
Proof.
  intros Hfs [[Hnd Hrest] Hl Ho Hreq Hrun Hwait Hprev]. apply NoDup_cons in Hnd as [Hr Hnd].
  destruct (Hrest r ltac:(by left)) as [Hv [id Hid0]].
  assert (Hid : sched_requests s !! id = Some r) by (apply Hreq; split; [done|right; by left]).
  destruct (live_in _ _ _ _ _ _ id r Hl Hid) as (rq & Ha & Hrid & Hin).
  pose proof (al_tracked _ _ _ _ _ _ _ _ Ha) as Ht. pose proof (tk_store _ _ _ _ _ Ht) as Hs.
  rewrite (bind_ok _ _ _ _ _ (update_request_run s r rq _ Hs)).
  set (s1 := set_store _ s).
  destruct (leave_ok s s1 _ _ r rq (set_status fs rq) Hl Ht) as (s' & Hfree & Hf & Hl'); try done.
  { by apply Ht. }
  { exact (lv_spec _ _ _ _ _ _ Hl r rq Hs). }
  rewrite (bind_ok _ _ _ _ _ Hfree). eexists. split; [reflexivity|].
  rewrite !left_over_step in Hl' by done. destruct Hf. split; try done.
  - split; [done|]. intros x Hx. apply Hrest. by right.
  - intros x Hx. rewrite fd_store0. simpl. rewrite lookup_insert_ne by (by intros ->). by apply Ho.
  - intros i x. rewrite fd_requests0. simpl. rewrite lookup_delete_Some, Hreq, elem_of_cons, Hrid. split.
    + intros (Hne & Hi & Hx). split; [done|]. destruct Hx as [Hx|[->|Hx]]; [tauto| |tauto].
      destruct Hne. assert (Hi' : sched_requests s !! i = Some r) by (apply Hreq; split; [done|right; by left]).
      destruct (lv_known _ _ _ _ _ _ Hl i r Hi') as (_ & y & Hy & Hyi). rewrite Hs in Hy. injection Hy as <-. congruence.
    + intros [Hi Hx]. split; [|tauto]. intros ->. rewrite Hid0 in Hi. injection Hi as <-. tauto.
  - by rewrite fd_running0.
  - by rewrite fd_waiting0.
  - by rewrite fd_prev0.
Qed.
End finishing.

(** [s'] is [s] without the requests [ids]. *)
Record finished s s' (ids : list string) : Prop := {
  fn_inv : engine_inv s';
  fn_gone : ∀ id, id ∈ ids → sched_requests s' !! id = None;
  fn_kept : ∀ id, id ∉ ids → sched_requests s' !! id = sched_requests s !! id;
  fn_store : ∀ id r, id ∉ ids → sched_requests s !! id = Some r → store s' !! r = store s !! r
}.

Lemma finish_ok s ids fs :
  engine_inv s → NoDup ids → status_is_finished fs = true →
  ∃ s', finish_requests cfg None set_order ids fs s = (Ok tt, s') ∧ finished s s' ids.
Proof.
  intros [Hl Hq Hm Hp] Hnd Hfs. unfold finish_requests. rewrite bind_assert_true by done.
  destruct (find_requests_ok s ids Hl Hnd) as (valid & R & Wt & Hfind & [F1 F2 F3 F4]).
  rewrite (bind_ok _ _ _ _ _ Hfind).
  pose proof (lv_nodup _ _ _ _ _ _ Hl) as (Hndr & Hdis & _)%NoDup_app.
  set (run' := filter (λ x, x ∉ valid) (running s)).
  assert (HR : remove_all (running s) R = run').
  { rewrite remove_all_filter by done. apply filter_ext_in. intros x Hx. rewrite F3. tauto. }
  assert (H1 : (if decide (R ≠ ∅) then modify (λ s, set_running (remove_all (running s) R) s) else ret tt) s
    = (Ok tt, set_running run' s)).
  { destruct (decide (R ≠ ∅)) as [Hne|He%dec_stable]; [unfold modify; by rewrite HR|].
    subst R. rewrite <- HR. unfold remove_all. rewrite elements_empty. by destruct s. }
  rewrite (bind_ok _ _ _ _ _ H1). set (s1 := set_running run' s).
  assert (Hq1 : q_ok s1 (waiting s)) by exact Hq.
  destruct (law_remove_all (lt := ref_lt s1) Wt (waiting s) Hq1) as [Hq2 Hperm]. rewrite !queue_items_eq in Hperm.
  assert (∃ q, (match Wt with [] => ret tt | rs => waiting_remove_requests rs end) s1 = (Ok tt, set_waiting q s1) ∧
    q_ok s1 q ∧ items q ≡ₚ filter (λ x, x ∉ valid) (items (waiting s))) as (q & H2 & Hqok & Hqi).
  { assert (Hf : filter (λ x, x ∉ Wt) (items (waiting s)) = filter (λ x, x ∉ valid) (items (waiting s))).
    { apply filter_ext_in. intros x Hx. rewrite F4. tauto. }
    destruct Wt as [|w Wt]; eexists; (split; [|split; [|rewrite <- Hf]]); [|exact Hq| |reflexivity|exact Hq2|exact Hperm].
    - by destruct s.
    - rewrite filter_all; [done|]. intros a _. apply not_elem_of_nil. }
  rewrite (bind_ok _ _ _ _ _ H2). set (s2 := set_waiting q s1).
  destruct (for_inv (finishing s valid q) (λ r, update_request r (set_status fs) ;;;
    let* _ := _free_request cfg None set_order r in ret tt) valid s2) as (s' & Hfor & Hfin).
  { assert (Hall : ∀ l, left_over valid valid l = l).
    { intros l. apply filter_all. intros x _. destruct (decide (x ∈ valid)); tauto. }
    split; rewrite ?Hall; try done.
    - split; [done|]. intros r Hr. split; [done|]. apply F2 in Hr as (id & _ & Hid). by exists id.
    - by apply (live_same cfg hbs hasher s).
    - intros id r. simpl. destruct (decide (r ∈ valid)); tauto. }
  { intros r rest s3 H3. by apply finish_one_ok. }
  rewrite Hfor. exists s'. split; [done|]. destruct Hfin as [_ Hl' Ho Hreq Hrun Hwait Hprev].
  assert (Hnil : ∀ l, left_over valid [] l = filter (λ x, x ∉ valid) l).
  { intros l. apply filter_ext_in. intros x _. split; [|tauto]. by intros [|Hx%not_elem_of_nil]. }
  rewrite !Hnil in Hl'.
  assert (Hout : ∀ x, x ∈ items q → (x ∉ valid) ∧ x ∈ items (waiting s)).
  { intros x. rewrite Hqi. by intros [? ?]%list_elem_of_filter. }
  assert (Hkeep : ∀ id r, id ∉ ids → sched_requests s !! id = Some r → r ∉ valid).
  { intros id r Hid Hr. rewrite F2. intros (i & Hi & Hr'). apply Hid.
    by rewrite (live_inj _ _ _ _ _ _ _ _ _ Hl Hr Hr'). }
  split.
  - split; rewrite ?Hrun, ?Hwait, ?Hprev.
    + by eapply live_perm; [symmetry; exact Hqi|].
    + apply (q_ok_order s); [|done]. intros x Hx. rewrite (Ho x) by (by apply Hout).
      destruct (store s !! x); by constructor.
    + pose proof (length_filter (λ x, x ∉ valid) (running s)). unfold len in *. lia.
    + intros x rx Hx. destruct (Hout x Hx) as [Hv Hx']. rewrite (Ho x) by done. by apply Hp.
  - intros id Hid. destruct (sched_requests s' !! id) as [r|] eqn:Hr; [|done].
    apply Hreq in Hr as [Hr Hv]. exfalso. destruct Hv as [Hv|Hv%not_elem_of_nil]; [|done].
    apply Hv, F2. by exists id.
  - intros id Hid. apply option_eq. intros r. rewrite Hreq. split; [tauto|]. intros Hr. split; [done|].
    left. by apply (Hkeep id).
  - intros id r Hid Hr. by apply Ho, (Hkeep id).
Qed.
End calls.
