(* ===== verification/UpdateSpec.v ===== *)
(** The results of the model ([update_from_output], vllm/v1/core/sched/scheduler.py)
    for a synchronous scheduler of text requests: every generated token is
    appended until its request stops, stopped requests leave, and nothing is
    raised. *)

From S2P Require Import Prelude.
From S2P Require Import OrderedDict.
From S2P Require Import Request.
From S2P Require Import BlockPool.
From S2P Require Import KVCacheManager.
From S2P Require Import KVService.
From S2P Require Import EncoderCache.
From S2P Require Import RequestQueue.
From S2P Require Import RequestQueueSpec.
From S2P Require Import SchedulerState.
From S2P Require Import SchedulerEncoder.
From S2P Require Import Schedule.
From S2P Require Import SchedulerInvariant.
From S2P Require Import ScheduleFrame.
From S2P Require Import ScheduleSpec.
From S2P Require Import SchedulerUpdate.
From S2P Require Import EngineInvariant.
From S2P Require Import EngineCalls.

(** ** Appending tokens *)

(** The request with the output tokens [toks] more. *)
Definition extend (toks : list Z) (rq : Request) : Request :=
  set_all_token_ids (_all_token_ids rq ++ toks) (set_output_token_ids (_output_token_ids rq ++ toks) rq).
(** Whether the request stops after the output tokens [toks]. *)
Definition stops_after (max_len : Z) (rq : Request) (toks : list Z) : bool :=
  match check_stop max_len (extend toks rq) with Ok (b, _) => b | Raise _ => false end.

(** Of the tokens [toks] exactly those up to the first stop, [app], are taken. *)
Record cut_at_stop (max_len : Z) (rq : Request) (toks app : list Z) (stopped : bool) : Prop := {
  ct_prefix : app `prefix_of` toks;
  ct_all : stopped = false → app = toks;
  ct_stop : stopped = true → app ≠ [] ∧ stops_after max_len rq app = true;
  ct_go : ∀ p, p `prefix_of` app → p ≠ [] → p ≠ app ∨ stopped = false → stops_after max_len rq p = false
}.

(** A change that [check_stop] makes. *)
Record status_only (rq rq' : Request) : Prop := {
  so_request : same_request rq rq';
  so_computed : num_computed_tokens rq' = num_computed_tokens rq;
  so_placeholders : num_output_placeholders rq' = num_output_placeholders rq;
  so_spec : spec_token_ids rq' = spec_token_ids rq;
  so_eos : eos_token_id rq' = eos_token_id rq;
  so_max : max_tokens rq' = max_tokens rq
}.

Lemma check_stop_ok max_len rq sp :
  pooling_params rq = None → sampling_params rq = Some sp → _output_token_ids rq ≠ [] →
  ∃ b rq', check_stop max_len rq = Ok (b, rq') ∧ status_only rq rq' ∧
    (b = true → is_finished rq' = true) ∧
    (b = false → rq' = rq ∧ (num_output_tokens rq < min_tokens sp ∨ num_tokens rq < max_len)).
Proof.
  intros Hp Hsp Hout. unfold check_stop. rewrite Hp, Hsp. case_decide as Hmin.
  { exists false, rq. split; [done|]. split; [done|]. split; [done|]. intros _. split; [done|by left]. }
  destruct (py_index (_output_token_ids rq) (-1)) as [t|] eqn:Hi.
  2: { exfalso. unfold py_index in Hi. rewrite (decide_True (P := -1 < 0)) in Hi by lia.
    destruct (_output_token_ids rq) as [|x l] eqn:Ho; [done|]. rewrite len_cons in Hi.
    pose proof (len_nonneg l). rewrite decide_True in Hi by lia. apply lookup_ge_None in Hi.
    cbn [length] in Hi. unfold len in *. lia. }
  destruct (negb _ && _); [by eexists _, _|]. case_bool_decide; [by eexists _, _|].
  destruct (_ || _) eqn:Hlen; [by eexists _, _|]. exists false, rq. split; [done|]. split; [done|].
  split; [done|]. intros _. split; [done|]. right.
  apply orb_false_iff in Hlen as [Hlen%bool_decide_eq_false _]. lia.
Qed.

(** The decision depends on few attributes. *)
Lemma check_stop_same max_len rq rq' :
  pooling_params rq' = pooling_params rq → sampling_params rq' = sampling_params rq →
  _output_token_ids rq' = _output_token_ids rq → eos_token_id rq' = eos_token_id rq →
  _all_token_ids rq' = _all_token_ids rq → max_tokens rq' = max_tokens rq →
  match check_stop max_len rq' with Ok (b, _) => b | Raise _ => false end =
  match check_stop max_len rq with Ok (b, _) => b | Raise _ => false end.
Proof.
  intros H1 H2 H3 H4 H5 H6. unfold check_stop, num_output_tokens, num_tokens. rewrite H1, H2, H3, H4, H5, H6.
  destruct (pooling_params rq), (sampling_params rq); try done. case_decide; [done|].
  destruct (py_index _ _); [|done]. destruct (negb _ && _); [done|]. case_bool_decide; [done|].
  by destruct (_ || _).
Qed.

Lemma extend_extend a b rq : extend b (extend a rq) = extend (a ++ b) rq.
Proof. unfold extend. simpl. by rewrite <- !app_assoc. Qed.

Section update.
Context {W : Type} (cfg : SchedulerConfig) (hbs : Z).
Context {KP : KVPredicates} {KS : KVService hbs (sc_max_model_len cfg) (sc_log_stats cfg)}.
Context (hasher : Request → res (list bytes)) {TH : TokenHasher hbs hasher}.
Context (set_order : gset Z → list Z) (Hset : set_order ∅ = []) (id_order : gset string → list string).
Context (should_advance : Request → bool) (grammar_ready : Request → bool).
Context (publish : list KVCacheEvent → W → W).
Context (Hadv : ∀ rq, should_advance rq = true → use_structured_output rq = true ∧ grammar_ready rq = true).
Context (Hsync : sc_async cfg = false).
Implicit Types (s : Scheduler W) (run wait : list ref).
Abbreviation tracked := (tracked (W := W) cfg hbs).
Abbreviation live := (live (W := W) cfg hbs hasher).
Abbreviation engine_inv := (engine_inv (W := W) cfg hbs hasher).
Abbreviation max_len := (sc_max_model_len cfg).
Abbreviation text_request := (text_request hbs max_len).

(** [rq'] is [rq] after the tokens [app]. *)
Record grown (rq rq' : Request) (app : list Z) (stopped : bool) : Prop := {
  gr_order : same_order rq rq';
  gr_all : _all_token_ids rq' = _all_token_ids rq ++ app;
  gr_output : _output_token_ids rq' = _output_token_ids rq ++ app;
  gr_computed : num_computed_tokens rq' = num_computed_tokens rq;
  gr_placeholders : num_output_placeholders rq' = num_output_placeholders rq;
  gr_spec : spec_token_ids rq' = spec_token_ids rq;
  gr_mm : mm_features rq' = mm_features rq;
  gr_stop : sampling_params rq' = sampling_params rq ∧ pooling_params rq' = pooling_params rq ∧
    eos_token_id rq' = eos_token_id rq ∧ max_tokens rq' = max_tokens rq;
  gr_stopped : stopped = true → is_finished rq' = true;
  gr_going : stopped = false → status rq' = status rq ∧ text_request rq' ∧ chained rq'
}.

Lemma text_with_token t rq hs : text_request rq →
  chained (set_block_hashes (block_hashes rq ++ hs) (with_token t rq)) →
  (∃ sp, sampling_params rq = Some sp ∧
    (num_output_tokens rq + 1 < min_tokens sp ∨ num_tokens rq + 1 < max_len)) →
  text_request (set_block_hashes (block_hashes rq ++ hs) (with_token t rq)).
Proof.
  intros [T1 T2 T3 T4 T5 (sp & T6 & T7)] Hc (sp' & Hsp & Hlen).
  rewrite T6 in Hsp. injection Hsp as <-.
  split; try done; [by apply th_hashed| |]; unfold num_tokens, num_output_tokens in *; simpl; rewrite ?len_app.
  - change (len [t]) with 1. lia.
  - exists sp. split; [done|]. rewrite ?len_app. change (len [t]) with 1. lia.
Qed.

Lemma append_one_ok t rq : text_request rq → chained rq →
  ∃ rq1 b rq2, append_output_token_ids hasher [t] rq = Ok rq1 ∧ check_stop max_len rq1 = Ok (b, rq2) ∧
    grown rq rq2 [t] b ∧ b = stops_after max_len rq [t].
Proof.
  intros Ht Hc. destruct (th_append t rq Hc) as (hs & Hhs & Hch).
  set (rq1 := set_block_hashes (block_hashes rq ++ hs) (with_token t rq)) in *.
  assert (Hne : _output_token_ids rq1 ≠ []) by (simpl; by destruct (_output_token_ids rq)).
  pose proof Ht as [T1 T2 T3 T4 T5 (sp & T6 & T7)].
  destruct (check_stop_ok max_len rq1 sp T5 T6 Hne) as (b & rq2 & Hcs & [Hsame S1 S2 S3 S4 S5] & Hstop & Hgo).
  exists rq1, b, rq2. split.
  { unfold append_output_token_ids. change (has_block_hasher _) with (has_block_hasher rq). rewrite T4.
    change (hasher _) with (hasher (with_token t rq)). by rewrite Hhs. }
  split; [done|]. split.
  2: { pose proof (check_stop_same max_len rq1 (extend [t] rq) eq_refl eq_refl eq_refl eq_refl eq_refl eq_refl) as He.
    unfold stops_after. by rewrite He, Hcs. }
  destruct Hsame. split; try done; try (by etrans; [eassumption|]).
  intros ->. destruct (Hgo eq_refl) as [-> Hlen]. split; [done|]. split; [|done].
  apply text_with_token; [done..|]. exists sp. split; [done|].
  unfold num_output_tokens, num_tokens in *. simpl in Hlen. rewrite !len_app in Hlen. done.
Qed.

Lemma grown_refl rq : text_request rq → chained rq → grown rq rq [] false.
Proof. intros Ht Hc. split; rewrite ?app_nil_r; done. Qed.
Lemma grown_trans a b c rq rq1 rq2 : grown rq rq1 a false → grown rq1 rq2 c b → grown rq rq2 (a ++ c) b.
Proof.
  intros [[] G2 G3 G4 G5 G6 G7 (G8&G9&G10&G11) _ G12] [[] K2 K3 K4 K5 K6 K7 (K8&K9&K10&K11) K13 K12].
  destruct (G12 eq_refl) as (Hst & _ & _). split; try congruence; try (by split; congruence).
  - rewrite K2, G2. by rewrite app_assoc.
  - rewrite K3, G3. by rewrite app_assoc.
  - split_and!; congruence.
  - done.
  - intros Hb. destruct (K12 Hb) as (Hs2 & ? & ?). by rewrite Hs2.
Qed.

Lemma stops_grown rq rq1 a b p : grown rq rq1 a b → stops_after max_len rq1 p = stops_after max_len rq (a ++ p).
Proof.
  intros [_ G2 G3 _ _ _ _ (G8&G9&G10&G11) _ _]. apply check_stop_same; simpl; try done.
  - by rewrite G3, app_assoc.
  - by rewrite G2, app_assoc.
Qed.

Lemma cut_stop rq t toks : stops_after max_len rq [t] = true → cut_at_stop max_len rq (t :: toks) [t] true.
Proof.
  intros Hs. split; [by exists toks|done|done|]. intros p [k Hk] Hne [Hp|]; [|done].
  destruct p as [|x p]; [done|]. injection Hk as <- Hk. symmetry in Hk. apply app_eq_nil in Hk as [-> _]. done.
Qed.
Lemma cut_go rq rq1 t toks app b :
  grown rq rq1 [t] false → stops_after max_len rq [t] = false →
  cut_at_stop max_len rq1 toks app b → cut_at_stop max_len rq (t :: toks) (t :: app) b.
Proof.
  intros Hg Hs [C1 C2 C3 C4]. split.
  - by apply prefix_cons.
  - intros Hb. by rewrite C2.
  - intros Hb. destruct (C3 Hb) as [_ Hst]. split; [done|]. by rewrite (stops_grown rq rq1 [t] false app Hg) in Hst.
  - intros p Hp Hne Hor. destruct p as [|x p]; [done|].
    pose proof (prefix_cons_inv_1 _ _ _ _ Hp) as ->. apply prefix_cons_inv_2 in Hp.
    destruct (decide (p = [])) as [->|Hp0]; [done|].
    change (t :: p) with ([t] ++ p). rewrite <- (stops_grown rq rq1 [t] false p Hg).
    apply C4; [done..|]. destruct Hor as [Hor|]; [|tauto]. left. congruence.
Qed.

Lemma append_until_stop_ok r todo : ∀ app s rq,
  store s !! r = Some rq → text_request rq → chained rq →
  ∃ app' b rq', append_until_stop cfg hasher r todo app s =
      (Ok (app ++ app', b), set_store (<[r := rq']> (store s)) s) ∧
    grown rq rq' app' b ∧ cut_at_stop max_len rq todo app' b.
Proof.
  induction todo as [|t todo IH]; intros app s rq Hr Ht Hc; cbn [append_until_stop].
  { exists [], false, rq. rewrite app_nil_r, insert_id by done. split; [by destruct s|].
    split; [by apply grown_refl|]. split; [done|done|done|]. by intros p ->%prefix_nil_inv. }
  rewrite (bind_ok _ _ _ _ _ (request_of_run _ _ _ Hr)).
  destruct (append_one_ok t rq Ht Hc) as (rq1 & b & rq2 & Happ & Hcs & Hg & Hb).
  rewrite Happ, bind_of_res, (bind_ok _ _ _ _ _ (update_request_run _ _ _ (λ _, rq1) Hr)).
  rewrite Hcs, bind_of_res. set (s1 := set_store _ s).
  rewrite (bind_ok _ _ _ _ _ (update_request_run s1 r rq1 (λ _, rq2) ltac:(apply lookup_insert_eq))).
  set (s2 := set_store _ s1). assert (E2 : s2 = set_store (<[r := rq2]> (store s)) s).
  { unfold s2, s1. simpl. by rewrite insert_insert_eq. }
  destruct b.
  - exists [t], true, rq2. rewrite <- E2. split; [done|]. split; [done|]. by apply cut_stop.
  - destruct (gr_going _ _ _ _ Hg eq_refl) as (_ & Ht2 & Hc2).
    destruct (IH (app ++ [t]) s2 rq2 ltac:(apply lookup_insert_eq) Ht2 Hc2) as (app' & b & rq' & Hrun & Hg2 & Hcut).
    exists (t :: app'), b, rq'. rewrite Hrun, <- app_assoc. split.
    { rewrite E2. simpl. by rewrite insert_insert_eq. }
    split; [by apply (grown_trans [t] b app' rq rq2 rq')|]. by apply (cut_go rq rq2).
Qed.

(** ** The loop over the scheduled requests *)

(** The running requests [R] and the waiting requests [P] have stopped in this
    call; they are still in the lists of the scheduler. *)
Record updating s (R P : gset ref) : Prop := {
  ud_live : live s (filter (λ r, r ∉ R) (running s)) (filter (λ r, r ∉ P) (items (waiting s)));
  ud_nodup : NoDup (running s ++ items (waiting s));
  ud_queue : q_ok s (waiting s);
  ud_max : len (running s) ≤ sc_max_num_running_reqs cfg;
  ud_preempted : ∀ r rq, r ∈ items (waiting s) → r ∉ P → store s !! r = Some rq →
    status rq = PREEMPTED → request_id rq ∉ prev_step_scheduled_req_ids s
}.

Lemma updating_start s : engine_inv s → updating s ∅ ∅.
Proof.
  intros [Hl Hq Hm Hp]. split; try done.
  - rewrite !filter_all; [done|..]; intros a _; apply not_elem_of_empty.
  - apply Hl.
  - intros r rq Hr _. by apply Hp.
Qed.

(** The attributes the loop leaves alone. *)
Record same_lists s s' : Prop := {
  sl_running : running s' = running s;
  sl_waiting : waiting s' = waiting s;
  sl_prev : prev_step_scheduled_req_ids s' = prev_step_scheduled_req_ids s
}.

Lemma updating_lists s s' R P R' P' r rq rq' :
  updating s R P → same_lists s s' → store s !! r = Some rq → store s' = <[r := rq']> (store s) →
  same_order rq rq' → (status rq' = status rq ∨ (r ∈ P' ∨ r ∉ items (waiting s))) → P ⊆ P' →
  live s' (filter (λ r, r ∉ R') (running s')) (filter (λ r, r ∉ P') (items (waiting s'))) →
  updating s' R' P'.
Proof.
  intros [Hl Hnd Hq Hm Hp] [E1 E2 E3] Hr Est Hso Hst Hsub Hl'. split; rewrite ?E1, ?E2, ?E3; try done.
  - by rewrite E1, E2 in Hl'.
  - apply (q_ok_order s); [|done]. intros x _. rewrite Est. destruct (decide (x = r)) as [->|Hne].
    + rewrite Hr, lookup_insert_eq. by constructor.
    + rewrite lookup_insert_ne by done. destruct (store s !! x); by constructor.
  - intros x rx Hx HxP. rewrite Est. intros [[<- <-]|[_ Hs]]%lookup_insert_Some Hpre.
    + destruct Hst as [Hst|[Hst|Hst]]; [|done|done]. rewrite (sd_id _ _ Hso).
      apply (Hp r rq); [done|by intros Hin%Hsub|done|by rewrite <- Hst].
    + apply (Hp x rx); [done|by intros Hin%Hsub|done|done].
Qed.

(** The request goes on with more tokens. *)
Lemma updating_go s s' R P r rq rq' app :
  let run := filter (λ r, r ∉ R) (running s) in
  let wait := filter (λ r, r ∉ P) (items (waiting s)) in
  updating s R P → alive cfg hbs hasher s run wait r rq → same_lists s s' →
  store s' = <[r := rq']> (store s) → sched_requests s' = sched_requests s →
  kv_cache_manager s' = kv_cache_manager s → grown rq rq' app false → updating s' R P.
Proof.
  intros run wait Hu [Ht Hc Hrun Hwait] Hs E1 E2 E3 Hg.
  destruct (gr_going _ _ _ _ Hg eq_refl) as (Hst & Htx & Hch).
  pose proof (sd_id _ _ (gr_order _ _ _ _ Hg)) as Hid.
  apply (updating_lists s s' R P R P r rq rq'); [done|done|apply Ht|done|apply Hg|by left|done|].
  rewrite (sl_running _ _ Hs), (sl_waiting _ _ Hs).
  apply (live_change cfg hbs hasher s s' _ _ r rq rq'); try done; [apply Hu| | |].
  - rewrite (gr_spec _ _ _ _ Hg). by apply (lv_spec _ _ _ _ _ _ (ud_live _ _ _ Hu) r), Ht.
  - intros Hr. destruct (Hrun Hr) as [[R1 R2 R3 R4] [P1 P2]].
    split; [split; rewrite ?Hst, ?Hid, ?(gr_computed _ _ _ _ Hg), ?(gr_placeholders _ _ _ _ Hg); done|].
    split; [|by rewrite (gr_computed _ _ _ _ Hg)].
    unfold num_tokens_with_spec in *. rewrite (gr_computed _ _ _ _ Hg), (gr_placeholders _ _ _ _ Hg),
      (gr_all _ _ _ _ Hg), (gr_spec _ _ _ _ Hg), len_app. pose proof (len_nonneg app). lia.
  - intros Hr. destruct (Hwait Hr) as [W1 W2 W3 W4].
    split; rewrite ?Hst, ?Hid, ?(gr_computed _ _ _ _ Hg), ?(gr_placeholders _ _ _ _ Hg); done.
Qed.

(** The request has stopped and is freed. *)
Lemma updating_stop s s' R P R' P' r rq rq' :
  let run := filter (λ r, r ∉ R) (running s) in
  let wait := filter (λ r, r ∉ P) (items (waiting s)) in
  updating s R P → alive cfg hbs hasher s run wait r rq → r ∈ run ++ wait → same_lists s s' →
  store s' = <[r := rq']> (store s) → same_order rq rq' →
  live s' (filter (λ x, x ≠ r) run) (filter (λ x, x ≠ r) wait) →
  R' = (if bool_decide (status rq = RUNNING) then R ∪ {[r]} else R) →
  P' = (if bool_decide (status rq ≠ RUNNING) then P ∪ {[r]} else P) → updating s' R' P'.
Proof.
  intros run wait Hu Ha Hin Hs E1 Hso Hl HR HP.
  destruct (alive_unfinished _ _ _ _ _ _ _ _ Ha Hin (lv_nodup _ _ _ _ _ _ (ud_live _ _ _ Hu))) as (_ & Hr & Hw).
  pose proof (ud_nodup _ _ _ Hu) as (_ & Hdis & _)%NoDup_app.
  assert (Hf : ∀ (X : gset ref) (l : list ref), filter (λ x, x ≠ r) (filter (λ x, x ∉ X) l) = filter (λ x, x ∉ X ∪ {[r]}) l).
  { intros X l. rewrite list_filter_filter. apply filter_ext_in. intros x _. set_solver. }
  assert (Hn : ∀ (X : gset ref) (l : list ref), r ∉ l → filter (λ x, x ≠ r) (filter (λ x, x ∉ X) l) = filter (λ x, x ∉ X) l).
  { intros X l Hl'. apply filter_all. intros x [_ Hx]%list_elem_of_filter ->. done. }
  apply (updating_lists s s' R P R' P' r rq rq'); [done|done|apply Ha|done|done| | |].
  - right. rewrite HP. case_bool_decide as Hc; [left; set_solver|]. right. apply Hr in Hc.
    apply list_elem_of_filter in Hc as [_ Hc]. intros Hx. by apply (Hdis r).
  - rewrite HP. case_bool_decide; set_solver.
  - rewrite (sl_running _ _ Hs), (sl_waiting _ _ Hs), HR, HP.
    destruct (decide (status rq = RUNNING)) as [Hst|Hst].
    + rewrite bool_decide_true, (bool_decide_false (status rq ≠ RUNNING)) by tauto. rewrite <- Hf.
      rewrite <- (Hn P); [done|]. apply Hr in Hst as [_ Hst]%list_elem_of_filter. intros Hx. by apply (Hdis r).
    + rewrite bool_decide_false, (bool_decide_true (status rq ≠ RUNNING)) by done. rewrite <- Hf.
      rewrite <- (Hn R); [done|]. apply Hw in Hst as [_ Hst]%list_elem_of_filter. intros Hx. by apply (Hdis r).
Qed.

(** *** One iteration *)

(** The generated tokens and the pooler output at index [i] of the model's
    output. *)
Definition generated (model : ModelRunnerOutput) (i : Z) : option (list Z) :=
  match sampled_token_ids model with [] => Some [] | l => py_index l i end.
Definition pooled (model : ModelRunnerOutput) (i : Z) : option bool :=
  match has_pooler_output model with None | Some [] => Some false | Some l => py_index l i end.

(** The model answers request [id] with the tokens [g]; prompt log probabilities
    come with the first token only. *)
Record answers (model : ModelRunnerOutput) (id : string) (g : list Z) : Prop := {
  an_index : ∃ i, od_get id (req_id_to_index model) = Some i ∧ generated model i = Some g ∧
    is_Some (pooled model i);
  an_logprobs : id ∈ prompt_logprobs_of model → g ≠ []
}.

Lemma take_tokens_ok r g p s rq :
  store s !! r = Some rq → text_request rq → chained rq →
  ∃ app b rq', take_tokens cfg hasher r g p s = (Ok (app, b), set_store (<[r := rq']> (store s)) s) ∧
    grown rq rq' app b ∧ cut_at_stop max_len rq g app b.
Proof.
  intros Hr Ht Hc. unfold take_tokens. rewrite (bind_ok _ _ _ _ _ (request_of_run _ _ _ Hr)).
  destruct (append_until_stop_ok r g [] s rq Hr Ht Hc) as (app & b & rq' & Hrun & Hg).
  exists app, b, rq'. split; [|done]. destruct g as [|t g].
  - rewrite (tr_pooling _ _ _ Ht). rewrite bool_decide_false by (by intros [? ?]). exact Hrun.
  - unfold _update_request_with_output, base_update_request_with_output. by rewrite Hsync.
Qed.

Lemma free_stopped_ok s0 run wait r rq rq' app b :
  live s0 run wait → tracked s0 r rq → grown rq rq' app b →
  let s1 := set_store (<[r := rq']> (store s0)) s0 in
  ∃ s2, (if b then _free_request cfg None set_order r else ret None) s1 = (Ok None, s2) ∧
    store s2 = store s1 ∧ same_lists s0 s2 ∧
    if b then sched_requests s2 = delete (request_id rq) (sched_requests s0) ∧
      live s2 (filter (λ x, x ≠ r) run) (filter (λ x, x ≠ r) wait)
    else s2 = s1.
Proof.
  intros Hl Ht Hg s1. destruct b.
  - destruct (leave_ok cfg hbs hasher set_order Hset s0 s1 run wait r rq rq' Hl Ht) as (s2 & Hrun & Hf & Hl2); try done.
    + by apply (gr_stopped _ _ _ _ Hg).
    + apply (sd_id _ _ (gr_order _ _ _ _ Hg)).
    + rewrite (gr_mm _ _ _ _ Hg). apply Ht.
    + rewrite (gr_spec _ _ _ _ Hg). by apply (lv_spec _ _ _ _ _ _ Hl r), Ht.
    + exists s2. destruct Hf. done.
  - exists s1. done.
Qed.

(** What the client of a request is told: the new tokens, and whether and why
    the request, now [rq'], has finished. *)
Record tells (id : string) (app : list Z) (p : bool) (rq' : Request) (o : EngineCoreOutput) : Prop := {
  tl_id : eo_request_id o = id;
  tl_tokens : eo_new_token_ids o = app;
  tl_finish : eo_finish_reason o = get_finished_reason rq';
  tl_stop : eo_stop_reason o = stop_reason rq';
  tl_pooling : eo_pooling_output o = p
}.

(** The outputs for a client. *)
Definition outputs_of (client : Z) (outs : list (Z * list EngineCoreOutput)) : list EngineCoreOutput :=
  default [] (od_get client outs).
Lemma outputs_of_append client k o outs :
  outputs_of client (append_output k o outs) = outputs_of client outs ++ (if bool_decide (k = client) then [o] else []).
Proof.
  unfold outputs_of, append_output. rewrite od_get_set. case_decide as Hk; case_bool_decide; try congruence.
  - by subst.
  - by rewrite app_nil_r.
Qed.

(** The output takes the events of the request. *)
Lemma report_output_ok model id r app p u s rq :
  store s !! r = Some rq → (id ∈ prompt_logprobs_of model → app ≠ []) →
  ∃ u' rq', report_output should_advance grammar_ready model id r app p None u s =
      (Ok u', set_store (<[r := rq']> (store s)) s) ∧
    status_only rq rq' ∧ status rq' = status rq ∧
    stopped_running_reqs u' = stopped_running_reqs u ∧ stopped_preempted_reqs u' = stopped_preempted_reqs u ∧
    (if bool_decide (app ≠ []) || p
     then ∃ o, up_outputs u' = append_output (client_index rq) o (up_outputs u) ∧ tells (request_id rq) app p rq' o
     else up_outputs u' = up_outputs u).
Proof.
  intros Hr Hlog. unfold report_output. rewrite (bind_ok _ _ _ _ _ (request_of_run _ _ _ Hr)).
  assert (Ha : (if bool_decide (app ≠ []) && should_advance rq
    then assert_ (use_structured_output rq && grammar_ready rq) else ret tt) s = (Ok tt, s)).
  { destruct (bool_decide (app ≠ [])); simpl; [|done]. destruct (should_advance rq) eqn:Hs; [|done].
    destruct (Hadv rq Hs) as [-> ->]. done. }
  rewrite (bind_ok _ _ _ _ _ Ha), (bool_decide_false (is_Some None)), orb_false_r by by intros [? ?].
  destruct (bool_decide (app ≠ []) || p) eqn:Hor.
  - unfold engine_output. rewrite bind_assoc, (bind_ok _ _ _ _ _ (request_of_run _ _ _ Hr)).
    destruct (take_events rq) as [evs rq'] eqn:Hev.
    rewrite bind_assoc, (bind_ok _ _ _ _ _ (update_request_run _ _ _ (λ _, rq') Hr)).
    eexists _, rq'. split; [reflexivity|]. unfold take_events in Hev. destruct (events rq); simplify_eq;
      (do 4 (split; [done|])); by eexists.
  - apply orb_false_iff in Hor as [Happ%bool_decide_eq_false%dec_stable _].
    exists u, rq. rewrite bool_decide_true by (intros Hin; by apply Hlog in Hin).
    rewrite insert_id by done. by destruct s.
Qed.

(** What happens to the scheduled request [id]: it takes the tokens of its
    answer up to the first stop, and leaves if it stops. *)
Definition outcome s s' (model : ModelRunnerOutput) (id : string) : Prop :=
  ∀ r rq, sched_requests s !! id = Some r → store s !! r = Some rq →
  ∃ g app b rq', answers model id g ∧ cut_at_stop max_len rq g app b ∧
    store s' !! r = Some rq' ∧ _all_token_ids rq' = _all_token_ids rq ++ app ∧
    _output_token_ids rq' = _output_token_ids rq ++ app ∧
    num_computed_tokens rq' = num_computed_tokens rq ∧
    (if b then is_finished rq' = true else status rq' = status rq) ∧
    sched_requests s' !! id = if b then None else Some r.
(** The requests other than [ids] are not touched. *)
Record untouched s s' (ids : list string) : Prop := {
  un_known : ∀ id, id ∉ ids → sched_requests s' !! id = sched_requests s !! id;
  un_store : ∀ r, (∀ id, id ∈ ids → sched_requests s !! id ≠ Some r) → store s' !! r = store s !! r
}.

(** What the client [client] is told about the scheduled request [id]. *)
Definition told s s' (model : ModelRunnerOutput) (client : Z) (id : string) (os : list EngineCoreOutput) : Prop :=
  match sched_requests s !! id with
  | Some r => ∃ rq rq' app i p, store s !! r = Some rq ∧ store s' !! r = Some rq' ∧
      _output_token_ids rq' = _output_token_ids rq ++ app ∧ client_index rq' = client_index rq ∧
      od_get id (req_id_to_index model) = Some i ∧ pooled model i = Some p ∧
      if bool_decide (client_index rq = client) && (bool_decide (app ≠ []) || p)
      then ∃ o, os = [o] ∧ tells id app p rq' o else os = []
  | None => os = [] ∧ sched_requests s' !! id = None
  end.

Lemma grown_status rq rq1 rq2 app b :
  grown rq rq1 app b → status_only rq1 rq2 → status rq2 = status rq1 → grown rq rq2 app b.
Proof.
  intros [[] G2 G3 G4 G5 G6 G7 (G8&G9&G10&G11) G12 G13] [Hsr S2 S3 S4 S5 S6] Hst. pose proof Hsr as [].
  split; try congruence; try (by split; congruence).
  - split_and!; congruence.
  - intros Hb. unfold is_finished. rewrite Hst. by apply G12.
  - intros Hb. destruct (G13 Hb) as (H1 & H2 & H3). split; [congruence|].
    split; [by eapply text_request_same|by eapply th_same; [| |exact H3]].
Qed.

(** The state after an iteration on the request [rq] at [r], which [rq'] has become. *)
Lemma iteration_ok s s2 u R' P' r rq rq1 rq' app b :
  let R := stopped_running_reqs u in let P := stopped_preempted_reqs u in
  let run := filter (λ r, r ∉ R) (running s) in
  let wait := filter (λ r, r ∉ P) (items (waiting s)) in
  let s3 := set_store (<[r := rq']> (store s)) s2 in
  updating s R P → alive cfg hbs hasher s run wait r rq → r ∈ run ++ wait →
  grown rq rq1 app b → grown rq rq' app b → same_lists s s2 → store s2 = <[r := rq1]> (store s) →
  (if b then sched_requests s2 = delete (request_id rq) (sched_requests s) ∧
     live s2 (filter (λ x, x ≠ r) run) (filter (λ x, x ≠ r) wait)
   else s2 = set_store (<[r := rq1]> (store s)) s) →
  R' = (if b && bool_decide (status rq = RUNNING) then R ∪ {[r]} else R) →
  P' = (if b && bool_decide (status rq ≠ RUNNING) then P ∪ {[r]} else P) →
  updating s3 R' P' ∧
  sched_requests s3 = (if b then delete (request_id rq) (sched_requests s) else sched_requests s).
Proof.
  intros R P run wait s3 Hu Ha Hin Hg1 Hg Hs Est Hb HR HP.
  assert (Hs3 : same_lists s s3) by (destruct Hs; by split). destruct b.
  - destruct Hb as [E2 Hl2]. split; [|done].
    apply (updating_stop s s3 R P R' P' r rq rq' Hu Ha Hin Hs3 eq_refl (gr_order _ _ _ _ Hg)); [|done|done].
    apply (live_dead cfg hbs hasher s2 s3 _ _ r rq' Hl2); try done.
    + rewrite <- filter_app. by intros [? _]%list_elem_of_filter.
    + rewrite (gr_spec _ _ _ _ Hg). by apply (lv_spec _ _ _ _ _ _ (ud_live _ _ _ Hu) r), Ha.
    + rewrite Est. simpl. by rewrite insert_insert_eq.
  - simpl in HR, HP. subst s2. split; [|done]. rewrite HR, HP.
    by apply (updating_go s s3 R P r rq rq' app).
Qed.

Lemma one_told s s' model client id r rq rq1 rq' app i p u u' :
  sched_requests s !! id = Some r → store s !! r = Some rq → store s' !! r = Some rq' →
  _output_token_ids rq' = _output_token_ids rq ++ app → client_index rq' = client_index rq → client_index rq1 = client_index rq →
  request_id rq1 = id →
  od_get id (req_id_to_index model) = Some i → pooled model i = Some p →
  (if bool_decide (app ≠ []) || p
   then ∃ o, up_outputs u' = append_output (client_index rq1) o (up_outputs u) ∧ tells (request_id rq1) app p rq' o
   else up_outputs u' = up_outputs u) →
  ∃ os, told s s' model client id os ∧ outputs_of client (up_outputs u') = outputs_of client (up_outputs u) ++ os.
Proof.
  intros Hid Hr Hr' Happ Hc' Hc Hrid Hi Hp Hout. unfold told. rewrite Hid.
  assert (Hgo : ∀ os, (if bool_decide (client_index rq = client) && (bool_decide (app ≠ []) || p)
      then ∃ o, os = [o] ∧ tells id app p rq' o else os = []) →
    outputs_of client (up_outputs u') = outputs_of client (up_outputs u) ++ os →
    ∃ os, (∃ rq rq' app i p, store s !! r = Some rq ∧ store s' !! r = Some rq' ∧ _output_token_ids rq' = _output_token_ids rq ++ app ∧
      client_index rq' = client_index rq ∧ od_get id (req_id_to_index model) = Some i ∧ pooled model i = Some p ∧
      if bool_decide (client_index rq = client) && (bool_decide (app ≠ []) || p)
      then ∃ o, os = [o] ∧ tells id app p rq' o else os = []) ∧
    outputs_of client (up_outputs u') = outputs_of client (up_outputs u) ++ os).
  { intros os H1 H2. exists os. split; [|done]. by exists rq, rq', app, i, p. }
  destruct (bool_decide (app ≠ []) || p).
  - destruct Hout as (o & Ho & Ht). rewrite Hc in Ho. rewrite Hrid in Ht.
    apply (Hgo (if bool_decide (client_index rq = client) then [o] else [])); [|by rewrite Ho, outputs_of_append].
    destruct (bool_decide _); [by exists o|done].
  - apply (Hgo []); [by rewrite andb_false_r|]. by rewrite Hout, app_nil_r.
Qed.

Lemma update_one_ok out model id n s u :
  updating s (stopped_running_reqs u) (stopped_preempted_reqs u) →
  so_spec_decode_tokens out = [] → 0 < n →
  (∀ r, sched_requests s !! id = Some r → ∃ g, answers model id g) →
  ∃ u' s', update_one cfg None set_order hasher should_advance grammar_ready out model ∅ id n u s = (Ok u', s') ∧
    updating s' (stopped_running_reqs u') (stopped_preempted_reqs u') ∧
    outcome s s' model id ∧ untouched s s' [id] ∧
    ∀ client, ∃ os, told s s' model client id os ∧
      outputs_of client (up_outputs u') = outputs_of client (up_outputs u) ++ os.
Proof.
  intros Hu Hspec Hn Hans. unfold update_one. rewrite bind_assert_true by (by apply bool_decide_eq_true_2).
  rewrite decide_False by apply not_elem_of_empty. unfold bind at 1. cbn [get].
  destruct (sched_requests s !! id) as [r|] eqn:Hid.
  2: { exists u, s. split; [done|]. split; [done|]. split; [|split; [done|]].
    - intros r rq Hr. by rewrite Hid in Hr.
    - intros client. exists []. rewrite app_nil_r. split; [|done]. unfold told. by rewrite Hid. }
  destruct (Hans r eq_refl) as (g & [(i & Hi & Hg & [p Hp]) Hlog]).
  destruct (live_in _ _ _ _ _ _ id r (ud_live _ _ _ Hu) Hid) as (rq & Ha & Hrid & Hin).
  pose proof (al_tracked _ _ _ _ _ _ _ _ Ha) as Ht. pose proof (tk_store _ _ _ _ _ Ht) as Hr.
  rewrite Hi. cbn [of_option]. rewrite bind_ret_l.
  assert (Hgen : (match sampled_token_ids model with [] => ret [] | l => of_option IndexError (py_index l i) end) s
    = (Ok g, s)).
  { unfold generated in Hg. destruct (sampled_token_ids model); [by injection Hg as <-|]. by rewrite Hg. }
  rewrite (bind_ok _ _ _ _ _ Hgen).
  assert (Hdr : update_drafts cfg r id out g (up_spec_stats u) s = (Ok (up_spec_stats u), s))
    by (unfold update_drafts; by rewrite Hspec).
  rewrite (bind_ok _ _ _ _ _ Hdr).
  assert (Hpool : (match has_pooler_output model with None | Some [] => ret false
    | Some l => of_option IndexError (py_index l i) end) s = (Ok p, s)).
  { unfold pooled in Hp. destruct (has_pooler_output model) as [[|]|]; [by injection Hp as <-| |by injection Hp as <-].
    by rewrite Hp. }
  rewrite (bind_ok _ _ _ _ _ Hpool), (bind_ok _ _ _ _ _ (request_of_run _ _ _ Hr)).
  destruct (take_tokens_ok r g p s rq Hr (tk_text _ _ _ _ _ Ht) (al_chained _ _ _ _ _ _ _ _ Ha))
    as (app & b & rq1 & Htake & Hgr & Hcut).
  rewrite (bind_ok _ _ _ _ _ Htake).
  destruct (free_stopped_ok s _ _ r rq rq1 app b (ud_live _ _ _ Hu) Ht Hgr) as (s2 & Hfree & Est & Hlists & Hb).
  rewrite (bind_ok _ _ _ _ _ Hfree). set (u1 := mkUpdate _ _ _ _).
  assert (Happ : id ∈ prompt_logprobs_of model → app ≠ []).
  { intros Hl%Hlog. destruct b; [by apply (ct_stop _ _ _ _ _ Hcut)|]. by rewrite (ct_all _ _ _ _ _ Hcut). }
  destruct (report_output_ok model id r app p u1 s2 rq1) as (u' & rq2 & Hrep & Hso & Hst2 & ER & EP & Hout);
    [rewrite Est; apply lookup_insert_eq|done|].
  rewrite Hrep. exists u'. eexists. split; [reflexivity|]. rewrite ER, EP.
  pose proof (grown_status _ _ _ _ _ Hgr Hso Hst2) as Hgr2. rewrite Est. simpl. rewrite insert_insert_eq.
  destruct (iteration_ok s s2 u (stopped_running_reqs u1) (stopped_preempted_reqs u1) r rq rq1 rq2 app b
    Hu Ha Hin Hgr Hgr2 Hlists Est Hb eq_refl eq_refl) as [Hu3 Ereq].
  split; [exact Hu3|]. split; [|split].
  - intros r' rq' Hr' Hs'. rewrite Hid in Hr'. injection Hr' as <-. rewrite Hr in Hs'. injection Hs' as <-.
    exists g, app, b, rq2. split; [by split; [exists i|]|]. split; [done|]. simpl. rewrite lookup_insert_eq.
    destruct Hgr2 as [H1 H2 H3 H4 H5 H6 H7 H8 H9 H10]. do 4 (split; [done|]). simpl in Ereq. rewrite Ereq.
    destruct b; [by rewrite Hrid, lookup_delete_eq; auto|]. by destruct H10.
  - simpl in Ereq. split; simpl.
    + intros id' Hne. rewrite list_elem_of_singleton in Hne. rewrite Ereq. destruct b; [|done]. rewrite Hrid. by apply lookup_delete_ne.
    + intros x Hx. apply lookup_insert_ne. intros <-. destruct (Hx id); [by left|done].
  - intros client. apply (one_told s _ model client id r rq rq1 rq2 app i p u1 u'); try done; [by simpl; rewrite lookup_insert_eq|..].
    + apply (gr_output _ _ _ _ Hgr2).
    + apply (sd_client _ _ (gr_order _ _ _ _ Hgr2)).
    + apply (sd_client _ _ (gr_order _ _ _ _ Hgr)).
    + by rewrite (sd_id _ _ (gr_order _ _ _ _ Hgr)).
Qed.

(** *** The whole loop *)

Lemma outcome_later s s1 s2 model id ids run wait :
  live s run wait → outcome s s1 model id → untouched s s1 [id] → untouched s1 s2 ids → id ∉ ids →
  outcome s s2 model id.
Proof.
  intros Hl Ho Hu1 Hu2 Hid r rq Hr Hs. destruct (Ho r rq Hr Hs) as (g & app & b & rq' & H1 & H2 & H3 & H4 & H5 & H6 & H7 & H8).
  exists g, app, b, rq'. rewrite (un_known _ _ _ Hu2) by done. rewrite (un_store _ _ _ Hu2); [done|].
  intros id' Hin Hr'. assert (Hne : id' ≠ id) by (by intros ->).
  rewrite (un_known _ _ _ Hu1) in Hr' by (by rewrite list_elem_of_singleton).
  by apply Hne, (live_inj _ _ _ _ _ _ _ _ _ Hl Hr' Hr).
Qed.

Lemma outcome_earlier s s1 s2 model id id' run wait :
  live s run wait → untouched s s1 [id] → id' ≠ id → outcome s1 s2 model id' → outcome s s2 model id'.
Proof.
  intros Hl Hu Hne Ho r rq Hr Hs. apply Ho.
  - by rewrite (un_known _ _ _ Hu) by (by rewrite list_elem_of_singleton).
  - rewrite (un_store _ _ _ Hu); [done|]. intros i ->%list_elem_of_singleton Hi.
    by apply Hne, (live_inj _ _ _ _ _ _ _ _ _ Hl Hr Hi).
Qed.

Lemma told_later s s1 s2 model client id os ids run wait :
  live s run wait → told s s1 model client id os → untouched s s1 [id] → untouched s1 s2 ids → id ∉ ids →
  told s s2 model client id os.
Proof.
  intros Hl Ho Hu1 Hu2 Hid. unfold told in *. destruct (sched_requests s !! id) as [r|] eqn:Hr; [|by rewrite (un_known _ _ _ Hu2)].
  rewrite (un_store _ _ _ Hu2); [done|]. intros id' Hin Hr'. assert (Hne : id' ≠ id) by (by intros ->).
  rewrite (un_known _ _ _ Hu1) in Hr' by (by rewrite list_elem_of_singleton).
  by apply Hne, (live_inj _ _ _ _ _ _ _ _ _ Hl Hr' Hr).
Qed.
Lemma told_earlier s s1 s2 model client id id' os run wait :
  live s run wait → untouched s s1 [id] → id' ≠ id → told s1 s2 model client id' os → told s s2 model client id' os.
Proof.
  intros Hl Hu Hne Ho. unfold told in *. rewrite (un_known _ _ _ Hu) in Ho by (by rewrite list_elem_of_singleton).
  destruct (sched_requests s !! id') as [r|] eqn:Hr; [|done].
  rewrite (un_store _ _ _ Hu) in Ho; [done|]. intros i ->%list_elem_of_singleton Hi.
  by apply Hne, (live_inj _ _ _ _ _ _ _ _ _ Hl Hr Hi).
Qed.

Lemma untouched_cons s s1 s2 id ids : id ∉ ids →
  untouched s s1 [id] → untouched s1 s2 ids → untouched s s2 (id :: ids).
Proof.
  intros Hid Hu1 Hu2. split.
  - intros i [Hi Hids]%not_elem_of_cons. rewrite (un_known _ _ _ Hu2) by done.
    apply (un_known _ _ _ Hu1). by rewrite list_elem_of_singleton.
  - intros r Hr. rewrite (un_store _ _ _ Hu2).
    + apply (un_store _ _ _ Hu1). intros i ->%list_elem_of_singleton. apply Hr. by left.
    + intros i Hi. rewrite (un_known _ _ _ Hu1); [apply Hr; by right|].
      rewrite list_elem_of_singleton. by intros ->.
Qed.

(** The model answers all the requests of [ids] that are known. *)
Definition answered s (model : ModelRunnerOutput) (ids : list string) : Prop :=
  ∀ id, id ∈ ids → is_Some (sched_requests s !! id) → ∃ g, answers model id g.

Lemma update_all_ok out model scheduled : so_spec_decode_tokens out = [] → ∀ s u,
  updating s (stopped_running_reqs u) (stopped_preempted_reqs u) →
  NoDup (od_keys scheduled) → (∀ id n, (id, n) ∈ scheduled → 0 < n) →
  answered s model (od_keys scheduled) →
  ∃ u' s', update_all cfg None set_order hasher should_advance grammar_ready out model ∅ scheduled u s = (Ok u', s') ∧
    updating s' (stopped_running_reqs u') (stopped_preempted_reqs u') ∧
    (∀ id, id ∈ od_keys scheduled → outcome s s' model id) ∧ untouched s s' (od_keys scheduled) ∧
    ∀ client, ∃ oss, Forall2 (told s s' model client) (od_keys scheduled) oss ∧
      outputs_of client (up_outputs u') = outputs_of client (up_outputs u) ++ concat oss.
Proof.
  intros Hspec. induction scheduled as [|[id n] scheduled IH]; intros s u Hu Hnd Hpos Hans; cbn [update_all].
  { exists u, s. split; [done|]. split; [done|]. split; [by intros id Hid%not_elem_of_nil|]. split; [done|].
    intros client. exists []. by rewrite app_nil_r. }
  simpl in Hnd. apply NoDup_cons in Hnd as [Hid Hnd].
  destruct (update_one_ok out model id n s u Hu Hspec) as (u1 & s1 & Hrun & Hu1 & Ho1 & Hun1 & Ht1).
  { apply (Hpos id). by left. }
  { intros r Hr. apply Hans; [by left|by eexists]. }
  rewrite (bind_ok _ _ _ _ _ Hrun).
  destruct (IH s1 u1 Hu1 Hnd) as (u2 & s2 & Hrun2 & Hu2 & Ho2 & Hun2 & Ht2).
  { intros i k Hi. apply (Hpos i). by right. }
  { intros i Hi Hk. apply Hans; [by right|]. rewrite (un_known _ _ _ Hun1) in Hk; [done|].
    rewrite list_elem_of_singleton. by intros ->. }
  exists u2, s2. split; [done|]. split; [done|]. pose proof (ud_live _ _ _ Hu) as Hl. split; [|split].
  - intros i [->|Hi]%elem_of_cons.
    + by apply (outcome_later s s1 s2 model id (od_keys scheduled) _ _ Hl).
    + apply (outcome_earlier s s1 s2 model id i _ _ Hl Hun1); [by intros ->|by apply Ho2].
  - by apply (untouched_cons s s1 s2).
  - intros client. destruct (Ht1 client) as (os & H1 & E1). destruct (Ht2 client) as (oss & H2 & E2).
    exists (os :: oss). split; [|by rewrite E2, E1, <- app_assoc]. constructor.
    + by apply (told_later s s1 s2 model client id os (od_keys scheduled) _ _ Hl).
    + apply Forall2_same_length_lookup in H2 as [Hlen H2]. apply Forall2_same_length_lookup. split; [done|].
      intros j i x Hi Hx. apply (told_earlier s s1 s2 model client id i x _ _ Hl Hun1); [|by apply (H2 j)].
      intros ->. by apply list_elem_of_lookup_2 in Hi.
Qed.

(** ** The rest of the call *)

(** The calls that end an update: requests and their places stay. *)
Record quiet s s' : Prop := {
  qt_store : store s' = store s;
  qt_known : sched_requests s' = sched_requests s
}.
#[local] Instance quiet_preorder : PreOrder quiet.
Proof. split; [done|]. intros a b c [] []. split; congruence. Qed.

Lemma engine_inv_same s s' : engine_inv s → quiet s s' → kv_cache_manager s' = kv_cache_manager s →
  same_lists s s' → engine_inv s'.
Proof.
  intros [Hl Hq Hm Hp] [E1 E2] E3 [E4 E5 E6]. split; rewrite ?E1, ?E4, ?E5, ?E6; try done.
  - by apply (live_same cfg hbs hasher s).
  - apply (q_ok_order s); [|done]. intros r _. rewrite E1. destruct (store s !! r); by constructor.
Qed.
Lemma engine_inv_kv s m' : engine_inv s → kv_ok m' → kv_frame None (kv_cache_manager s) m' →
  engine_inv (set_kv m' s).
Proof. intros [Hl Hq Hm Hp] Hok Hf. split; try done. by apply live_kv. Qed.

Lemma remove_stopped_ok s u : updating s (stopped_running_reqs u) (stopped_preempted_reqs u) →
  ∃ s', remove_stopped u s = (Ok tt, s') ∧ engine_inv s' ∧ quiet s s'.
Proof.
  set (R := stopped_running_reqs u). set (P := stopped_preempted_reqs u). intros [Hl Hnd Hq Hm Hp].
  unfold remove_stopped. fold R P. apply NoDup_app in Hnd as (Hndr & _ & _).
  assert (HR : remove_all (running s) R = filter (λ r, r ∉ R) (running s)) by by apply remove_all_filter.
  assert (H1 : (if decide (R ≠ ∅) then modify (λ s, set_running (remove_all (running s) R) s) else ret tt) s
    = (Ok tt, set_running (filter (λ r, r ∉ R) (running s)) s)).
  { destruct (decide (R ≠ ∅)) as [Hne|He%dec_stable]; [unfold modify; by rewrite HR|].
    rewrite <- HR, He. unfold remove_all. rewrite elements_empty. by destruct s. }
  rewrite (bind_ok _ _ _ _ _ H1). set (s1 := set_running _ s).
  assert (∃ q, (if decide (P ≠ ∅) then waiting_remove_requests (elements P) else ret tt) s1 = (Ok tt, set_waiting q s1) ∧
    q_ok s1 q ∧ items q ≡ₚ filter (λ r, r ∉ P) (items (waiting s))) as (q & H2 & Hqok & Hqi).
  { assert (Hq1 : q_ok s1 (waiting s)) by exact Hq.
    destruct (decide (P ≠ ∅)) as [Hne|He%dec_stable].
    - destruct (law_remove_all (lt := ref_lt s1) (elements P) (waiting s) Hq1) as [Hq2 Hperm].
      rewrite !queue_items_eq in Hperm. eexists. split; [reflexivity|]. split; [exact Hq2|].
      etrans; [exact Hperm|]. apply Permutation_refl'. apply filter_ext_in. intros x _. by rewrite elem_of_elements.
    - exists (waiting s). split; [by destruct s|]. split; [done|]. rewrite filter_all; [done|].
      intros x _. rewrite He. apply not_elem_of_empty. }
  rewrite H2. eexists. split; [reflexivity|]. split; [|done]. split; try done.
  - eapply live_perm; [symmetry; exact Hqi|]. by apply (live_same cfg hbs hasher s).
  - simpl. pose proof (length_filter (λ r, r ∉ R) (running s)). unfold len in *. lia.
  - intros r rq. simpl. rewrite Hqi. intros [HrP Hr]%list_elem_of_filter. by apply Hp.
Qed.

Lemma collect_kv_events_ok s : engine_inv s →
  ∃ s', collect_kv_events None publish s = (Ok tt, s') ∧ engine_inv s' ∧ quiet s s'.
Proof.
  intros Hs. unfold collect_kv_events.
  destruct (ks_events (kv_cache_manager s) (lv_kv _ _ _ _ _ _ (ei_live _ _ _ _ Hs))) as (evs & m' & Hrun & Hok & Hf).
  rewrite (bind_ok _ _ _ _ _ (kv_run _ _ _ _ Hrun)), bind_ret_l. pose proof (engine_inv_kv s m' Hs Hok Hf) as Hs'.
  destruct evs as [|e evs]; [by exists (set_kv m' s)|].
  eexists. split; [reflexivity|]. split; [|done]. by apply (engine_inv_same (set_kv m' s)).
Qed.

Lemma make_stats_ok spec s : engine_inv s →
  ∃ st s', make_stats cfg spec s = (Ok st, s') ∧ engine_inv s' ∧ quiet s s'.
Proof.
  intros Hs. unfold make_stats. destruct (sc_log_stats cfg) eqn:Hlog; [|by exists None, s]. cbn [negb].
  destruct (ks_stats (kv_cache_manager s) (lv_kv _ _ _ _ _ _ (ei_live _ _ _ _ Hs))) as (st & m' & Hrun & Hok & Hf & Hsome).
  rewrite (bind_ok _ _ _ _ _ (kv_run _ _ _ _ Hrun)). pose proof (engine_inv_kv s m' Hs Hok Hf) as Hs1.
  destruct (Hsome eq_refl) as [st' ->]. cbn [of_option]. rewrite bind_ret_l.
  set (s1 := set_kv m' s) in *.
  set (s2 := set_connector_stats ((λ _, PrefixCacheStats_init) <$> connector_prefix_cache_stats s1) s1).
  assert (Hc : _make_connector_prefix_cache_stats s1 = (Ok (connector_prefix_cache_stats s1), s2)) by done.
  rewrite (bind_ok _ _ _ _ _ Hc). assert (Hs2 : engine_inv s2) by (by apply (engine_inv_same s1)).
  destruct (ks_drain (kv_cache_manager s2) (lv_kv _ _ _ _ _ _ (ei_live _ _ _ _ Hs2))) as (evs & m2 & Hrun2 & Hok2 & Hf2).
  rewrite (bind_ok _ _ _ _ _ (kv_run _ _ _ _ Hrun2)). eexists _, _. split; [reflexivity|].
  split; [by apply engine_inv_kv|done].
Qed.

(** The outputs for a client among those of an update. *)
Definition client_outputs (client : Z) (outs : list (Z * EngineCoreOutputs)) : list EngineCoreOutput :=
  default [] (eos_outputs <$> od_get client outs).

Lemma client_outputs_map client outs :
  client_outputs client (map (λ p : Z * list EngineCoreOutput, (p.1, mkEngineOutputs p.2 None None)) outs) = outputs_of client outs.
Proof.
  unfold client_outputs, outputs_of. induction outs as [|[k os] outs IH]; [done|]. cbn [map od_get fst snd]. by case_decide.
Qed.
Lemma client_outputs_finished client d : ∀ outs, client_outputs client (add_finished d outs) = client_outputs client outs.
Proof.
  induction d as [|[k ids] d IH]; intros outs; [done|]. unfold add_finished. cbn [foldl fst snd]. fold (add_finished d).
  etrans; [apply IH|]. unfold client_outputs. destruct (od_get k outs) as [o|] eqn:Hk; rewrite od_get_set; (case_decide as Hc; [subst|done]);
    by rewrite Hk.
Qed.
Lemma client_outputs_stats client st outs : client_outputs client (add_stats st outs) = client_outputs client outs.
Proof.
  unfold client_outputs. destruct st as [st|]; [|by destruct outs]. destruct outs as [|[k o] outs]; cbn [add_stats od_get]; by case_decide.
Qed.

(** [out] is the output of a step of this scheduler. *)
Record step_output (out : SchedulerOutput) : Prop := {
  st_keys : NoDup (od_keys (so_num_scheduled_tokens out));
  st_positive : ∀ id n, (id, n) ∈ so_num_scheduled_tokens out → 0 < n;
  st_spec : so_spec_decode_tokens out = []
}.

Lemma update_ok s out model :
  engine_inv s → step_output out → kv_connector_output model = None →
  answered s model (od_keys (so_num_scheduled_tokens out)) →
  ∃ outs s', update_from_output cfg None set_order id_order hasher should_advance grammar_ready publish
      out model s = (Ok outs, s') ∧ engine_inv s' ∧
    (∀ id, id ∈ od_keys (so_num_scheduled_tokens out) → outcome s s' model id) ∧
    untouched s s' (od_keys (so_num_scheduled_tokens out)) ∧
    ∀ client, ∃ oss, Forall2 (told s s' model client) (od_keys (so_num_scheduled_tokens out)) oss ∧
      client_outputs client outs = concat oss.
Proof.
  intros Hs [Hnd Hpos Hspec] Hkv Hans. unfold update_from_output. rewrite Hkv, bind_ret_l.
  destruct (update_all_ok out model (so_num_scheduled_tokens out) Hspec s (mkUpdate [] None ∅ ∅)
    (updating_start s Hs) Hnd Hpos Hans) as (u & s1 & Hrun & Hu & Ho & Hun & Ht).
  rewrite (bind_ok _ _ _ _ _ Hrun).
  destruct (remove_stopped_ok s1 u Hu) as (s2 & Hrem & Hs2 & Hq2). rewrite (bind_ok _ _ _ _ _ Hrem).
  rewrite bool_decide_false by (by intros []). cbn [andb]. rewrite bind_ret_l, bind_ret_l.
  destruct (collect_kv_events_ok s2 Hs2) as (s3 & Hev & Hs3 & Hq3). rewrite (bind_ok _ _ _ _ _ Hev).
  cbv zeta. unfold bind at 1. cbn [get].
  set (outs := map _ (up_outputs u)).
  assert (∃ outs' s4, (match finished_req_ids_dict s3 with
    | None | Some [] => ret outs
    | Some d => modify (set_finished_req_ids_dict (Some [])) ;;; ret (add_finished d outs)
    end) s3 = (Ok outs', s4) ∧ engine_inv s4 ∧ quiet s3 s4 ∧ ∀ client, client_outputs client outs' = client_outputs client outs)
    as (outs' & s4 & Hd & Hs4 & Hq4 & Ho4).
  { destruct (finished_req_ids_dict s3) as [[|d ds]|]; [by exists outs, s3| |by exists outs, s3].
    eexists _, _. split; [reflexivity|]. split; [|split; [done|]].
    - by apply (engine_inv_same s3).
    - intros client. apply client_outputs_finished. }
  rewrite (bind_ok _ _ _ _ _ Hd).
  destruct (make_stats_ok (up_spec_stats u) s4 Hs4) as (st & s5 & Hst & Hs5 & Hq5).
  rewrite (bind_ok _ _ _ _ _ Hst). eexists _, s5. split; [reflexivity|]. split; [done|].
  assert (Hq : quiet s1 s5) by (do 3 (etrans; [eassumption|]); done). destruct Hq as [E1 E2]. split; [|split].
  - intros id Hid r rq Hr Hst'. destruct (Ho id Hid r rq Hr Hst') as (g & app & b & rq' & H).
    exists g, app, b, rq'. by rewrite E1, E2.
  - destruct Hun as [U1 U2]. split; by rewrite ?E1, ?E2.
  - intros client. destruct (Ht client) as (oss & H1 & H2). exists oss. split.
    + eapply Forall2_impl; [exact H1|]. intros i os. unfold told. by rewrite E1, E2.
    + rewrite client_outputs_stats, Ho4. unfold outs. by rewrite client_outputs_map.
Qed.
End update.
