(* ===== verification/Engine.v ===== *)
(** The engine's use of the scheduler (vllm/v1/engine/core.py, [EngineCore]):
    requests are added and aborted, steps are scheduled, and the results of
    scheduled steps come back in their order, with several steps in flight for
    pipeline parallelism.

    For a synchronous scheduler of text requests without connectors, no sequence
    of these calls makes the scheduler raise, and every request that is answered
    often enough leaves. *)

From S2P Require Import Prelude.
From S2P Require Import OrderedDict.
From S2P Require Import Request.
From S2P Require Import BlockHash.
From S2P Require Import BlockPool.
From S2P Require Import KVCacheInterface.
From S2P Require Import Coordinator.
From S2P Require Import KVCacheManager.
From S2P Require Import KVService.
From S2P Require Import KVServiceImpl.
From S2P Require Import EncoderCache.
From S2P Require Import RequestQueue.
From S2P Require Import RequestQueueSpec.
From S2P Require Import SchedulerState.
From S2P Require Import SchedulerEncoder.
From S2P Require Import Schedule.
From S2P Require Import SchedulerInvariant.
From S2P Require Import ScheduleFrame.
From S2P Require Import ScheduleSpec.
From S2P Require Import SchedulerUpdate.
From S2P Require Import EngineInvariant.
From S2P Require Import EngineCalls.
From S2P Require Import UpdateSpec.

Inductive engine_call :=
  | CallAdd (r : ref) (rq : Request) (now : Z)     (** a new request object at [r] *)
  | CallAbort (ids : list string)
  | CallSchedule (ts : Z)
  | CallUpdate (model : ModelRunnerOutput).        (** the result of the oldest step in flight *)

Record Engine (W : Type) := mkEngine {
  en_sched : Scheduler W;
  en_inflight : list SchedulerOutput
}.
Arguments mkEngine {W}.
Arguments en_sched {W} _.
Arguments en_inflight {W} _.

Section engine.
Context {W : Type} (cfg : SchedulerConfig) (hbs : Z).
Context {KP : KVPredicates} {KS : KVService hbs (sc_max_model_len cfg) (sc_log_stats cfg)}.
Context (hasher : Request → res (list bytes)) {TH : TokenHasher hbs hasher}.
Context (set_order : gset Z → list Z) (Hset : set_order ∅ = []) (id_order : gset string → list string).
Context (should_advance : Request → bool) (grammar_ready : Request → bool).
Context (publish : list KVCacheEvent → W → W).
Context (Hadv : ∀ rq, should_advance rq = true → use_structured_output rq = true ∧ grammar_ready rq = true).
Context (Hsync : sc_async cfg = false).
Context (Hlora : sc_max_loras cfg = None) (Hlook : 0 ≤ sc_num_lookahead_tokens cfg)
  (Hmaxtok : 0 ≤ sc_max_num_scheduled_tokens cfg).
Implicit Types (s : Scheduler W) (e : Engine W).
Abbreviation engine_inv := (engine_inv (W := W) cfg hbs hasher).
Abbreviation max_len := (sc_max_model_len cfg).

(** ** Runs *)

Definition run_call (c : engine_call) e : res (Engine W) :=
  match c with
  | CallAdd r rq now =>
      match sched_add_request cfg r rq now (en_sched e) with
      | (Ok _, s') => Ok (mkEngine s' (en_inflight e))
      | (Raise x, _) => Raise x
      end
  | CallAbort ids =>
      match finish_requests cfg None set_order ids FINISHED_ABORTED (en_sched e) with
      | (Ok _, s') => Ok (mkEngine s' (en_inflight e))
      | (Raise x, _) => Raise x
      end
  | CallSchedule ts =>
      match schedule cfg None None set_order ts grammar_ready (en_sched e) with
      | (Ok o, s') => Ok (mkEngine s' (en_inflight e ++ [o]))
      | (Raise x, _) => Raise x
      end
  | CallUpdate model =>
      match en_inflight e with
      | [] => Ok e
      | o :: os =>
          match update_from_output cfg None set_order id_order hasher should_advance grammar_ready
                  publish o model (en_sched e) with
          | (Ok _, s') => Ok (mkEngine s' os)
          | (Raise x, _) => Raise x
          end
      end
  end.
Fixpoint run_calls (cs : list engine_call) e : res (Engine W) :=
  match cs with
  | [] => Ok e
  | c :: cs => letr e' := run_call c e in run_calls cs e'
  end.

(** What the engine guarantees: a new request is a new object with an unused id,
    the ids of an abort are distinct, and the model answers the scheduled
    requests. *)
Definition allowed (c : engine_call) e : Prop :=
  match c with
  | CallAdd r rq _ => new_request cfg hbs hasher rq ∧ store (en_sched e) !! r = None ∧
      sched_requests (en_sched e) !! request_id rq = None
  | CallAbort ids => NoDup ids
  | CallSchedule _ => True
  | CallUpdate model => ∀ o os, en_inflight e = o :: os →
      kv_connector_output model = None ∧ answered (en_sched e) model (od_keys (so_num_scheduled_tokens o))
  end.
Fixpoint allowed_run (cs : list engine_call) e : Prop :=
  match cs with
  | [] => True
  | c :: cs => allowed c e ∧ ∀ e', run_call c e = Ok e' → allowed_run cs e'
  end.

(** The engine before its first request. *)
Record initial s : Prop := {
  in_store : store s = ∅;
  in_requests : sched_requests s = ∅;
  in_running : running s = [];
  in_waiting : items (waiting s) = [];
  in_queue : q_ok s (waiting s);
  in_max : 0 ≤ sc_max_num_running_reqs cfg;
  in_kv : kv_ok (kv_cache_manager s);
  in_idle : ∀ id, kv_idle (kv_cache_manager s) id
}.

Record engine_ok e : Prop := {
  eo_inv : engine_inv (en_sched e);
  eo_outputs : Forall step_output (en_inflight e)
}.

Lemma initial_ok s : initial s → engine_ok (mkEngine s []).
Proof.
  intros [H1 H2 H3 H4 H5 H6 H7 H8]. split; [|constructor]. simpl. split; rewrite ?H3, ?H4; try done.
  - split; rewrite ?H1, ?H2; try done; [exact NoDup_nil_2|by intros r Hr%not_elem_of_nil].
  - by intros r rq Hr%not_elem_of_nil.
Qed.

(** ** One call *)

Lemma schedule_call_ok ts s : engine_inv s →
  ∃ o s', schedule cfg None None set_order ts grammar_ready s = (Ok o, s') ∧ engine_inv s' ∧ step_output o ∧
    sched_requests s' = sched_requests s ∧ store_same (store s) (store s').
Proof.
  intros Hs. pose proof (ei_live _ _ _ _ Hs) as Hl.
  assert (Hprog : ∀ r rq, r ∈ running s → store s !! r = Some rq → progressing cfg rq).
  { intros r rq Hr Hst. destruct (lv_alive _ _ _ _ _ _ Hl r) as (x & Ha); [apply elem_of_app; by left|].
    pose proof (tracked_eq _ _ _ _ _ _ (al_tracked _ _ _ _ _ _ _ _ Ha) Hst) as ->. by apply (al_run _ _ _ _ _ _ _ _ Ha). }
  destruct (schedule_ok cfg hbs set_order Hset ts grammar_ready Hlora Hlook Hmaxtok s
    (engine_sched_inv cfg hbs hasher s Hs) Hprog) as (o & s' & Hrun & Hp).
  assert (Hst : steady (sched_requests s) (store s) s) by (split; [done|done|apply Hl]).
  pose proof (sp_spec _ _ _ _ _ Hp _ _ Hst) as Hspec.
  destruct (preserves_run _ _ _ _ _ (schedule_steady cfg None None set_order ts grammar_ready
    ltac:(by rewrite Hsync) (sched_requests s) (store s)) Hrun Hst) as [E1 E2 E3].
  exists o, s'. split; [done|]. split; [|split; [|done]].
  - pose proof (sp_inv _ _ _ _ _ Hp) as [I1 I2 I3 I4]. split; try done.
    assert (Hback : ∀ r rq', store s' !! r = Some rq' → ∃ rq, store s !! r = Some rq ∧ same_request rq rq').
    { intros r rq' Hr. specialize (E2 r). rewrite Hr in E2. inversion E2; subst. by eexists. }
    apply core_live; try done.
    + intros r rq' Hr Hr'. rewrite (sp_requests _ _ _ _ _ Hp) in Hr.
      destruct (lv_alive _ _ _ _ _ _ Hl r Hr) as (rq0 & Ha). destruct (Hback r rq' Hr') as (rq & Hrq & Hsame).
      pose proof (tracked_eq _ _ _ _ _ _ (al_tracked _ _ _ _ _ _ _ _ Ha) Hrq) as ->.
      eapply th_same; [apply Hsame|apply Hsame|apply Ha].
    + by apply (sp_progress _ _ _ _ _ Hp).
    + intros id r. rewrite E1, (sp_requests _ _ _ _ _ Hp). intros Hid.
      destruct (lv_known _ _ _ _ _ _ Hl id r Hid) as (Hin & rq & Hrq & <-). split; [done|].
      specialize (E2 r). rewrite Hrq in E2. inversion E2 as [? y Hsame|]; subst. exists y.
      split; [done|]. apply Hsame.
  - split; [apply Hp| |done]. intros id n Hin. by apply (sp_entry _ _ _ _ _ Hp id n).
Qed.

(** What a call does to a request [id] at [r] that stays: its tokens grow, by
    the tokens that the model generated for it. *)
Definition generated_tokens (c : engine_call) e (id : string) (g : list Z) : Prop :=
  match c with
  | CallUpdate model => ∃ o os, en_inflight e = o :: os ∧ id ∈ od_keys (so_num_scheduled_tokens o) ∧
      answers model id g
  | _ => False
  end.

Record call_promise (c : engine_call) e e' : Prop := {
  cp_ok : engine_ok e';
  cp_tokens : ∀ id r rq, sched_requests (en_sched e) !! id = Some r →
    sched_requests (en_sched e') !! id = Some r → store (en_sched e) !! r = Some rq →
    ∃ rq' g, store (en_sched e') !! r = Some rq' ∧ _all_token_ids rq' = _all_token_ids rq ++ g ∧
      ∀ g', generated_tokens c e id g' → g = g'
}.

Lemma answers_same model id g g' : answers model id g → answers model id g' → g = g'.
Proof. intros [(i & Hi & Hg & _) _] [(j & Hj & Hg' & _) _]. congruence. Qed.

Lemma call_ok c e : engine_ok e → allowed c e → ∃ e', run_call c e = Ok e' ∧ call_promise c e e'.
Proof.
  destruct e as [s os]. intros [Hs Hos] Ha. simpl in Hs, Hos. pose proof (ei_live _ _ _ _ Hs) as Hl.
  destruct c as [r rq now|ids|ts|model]; simpl in *.
  - destruct Ha as (Hn & Hr & Hid).
    destruct (add_ok cfg hbs hasher s r rq now Hs Hn Hr Hid) as (s' & -> & Hs' & _ & _ & Ereq & Est & _).
    eexists. split; [done|]. split; [done|]. intros id x rx Hx _ Hrx. exists rx, [].
    rewrite app_nil_r. split; [|done]. simpl in *. rewrite Est; [done|]. intros ->. by rewrite Hr in Hrx.
  - destruct (finish_ok cfg hbs hasher set_order Hset s ids FINISHED_ABORTED Hs Ha eq_refl) as (s' & -> & [Hs' Hg Hk Hst]).
    eexists. split; [done|]. split; [done|]. intros id x rx Hx Hx' Hrx. exists rx, []. rewrite app_nil_r.
    split; [|done]. simpl in *. rewrite (Hst id); [done| |done]. intros Hin. by rewrite Hg in Hx'.
  - destruct (schedule_call_ok ts s Hs) as (o & s' & -> & Hs' & Ho & Ereq & Est).
    eexists. split; [done|]. split; [split; [done|by apply Forall_app; split; [|constructor]]|].
    intros id x rx Hx _ Hrx. simpl in *. specialize (Est x). rewrite Hrx in Est.
    inversion Est as [? y Hsame Heq|]; subst. exists y, []. rewrite app_nil_r. split; [done|]. split; [apply Hsame|done].
  - destruct os as [|o os]; [eexists; split; [done|]; split; [done|]|].
    { intros id x rx Hx _ Hrx. exists rx, []. rewrite app_nil_r. split; [done|]. split; [done|]. intros g' (o & os & Ho & _). done. }
    destruct (Ha o os eq_refl) as (Hkv & Hans). apply Forall_cons in Hos as [Ho Hos].
    destruct (update_ok cfg hbs hasher set_order Hset id_order should_advance grammar_ready publish Hadv Hsync s o model
      Hs Ho Hkv Hans) as (outs & s' & -> & Hs' & Hout & Hun & _).
    eexists. split; [done|]. split; [done|]. intros id x rx Hx Hx' Hrx. simpl in *.
    destruct (decide (id ∈ od_keys (so_num_scheduled_tokens o))) as [Hin|Hin].
    + destruct (Hout id Hin x rx Hx Hrx) as (g & app & b & rq' & Hag & Hcut & Hst & Hall & _ & _ & _ & Hb).
      rewrite Hx' in Hb. destruct b; [done|]. exists rq', app. split; [done|]. split; [done|].
      intros g' (o' & os' & [= <- <-] & _ & Hag'). rewrite (ct_all _ _ _ _ _ Hcut eq_refl). by apply (answers_same model id).
    + exists rx, []. rewrite app_nil_r. split; [|split; [done|]].
      * rewrite (un_store _ _ _ Hun); [done|]. intros i Hi Hix. destruct Hin.
        by rewrite (live_inj _ _ _ _ _ _ _ _ _ Hl Hx Hix).
      * intros g' (o' & os' & [= <- <-] & Hin' & _). done.
Qed.

Lemma calls_ok cs : ∀ e, engine_ok e → allowed_run cs e → ∃ e', run_calls cs e = Ok e' ∧ engine_ok e'.
Proof.
  induction cs as [|c cs IH]; intros e He Ha; simpl; [by exists e|]. destruct Ha as [Ha Hrest].
  destruct (call_ok c e He Ha) as (e1 & Hrun & Hp). rewrite Hrun. simpl.
  apply IH; [apply Hp|by apply Hrest].
Qed.


(** ** Requests end *)

(** The request [id] at [r] is known before and after every call, and [n] of the
    calls bring it at least one token. *)
Inductive stays (id : string) (r : ref) : list engine_call → Engine W → nat → Prop :=
  | stays_nil e : sched_requests (en_sched e) !! id = Some r → stays id r [] e 0
  | stays_answer c cs e e' g n : sched_requests (en_sched e) !! id = Some r → run_call c e = Ok e' →
      generated_tokens c e id g → g ≠ [] → stays id r cs e' n → stays id r (c :: cs) e (S n)
  | stays_other c cs e e' n : sched_requests (en_sched e) !! id = Some r → run_call c e = Ok e' →
      stays id r cs e' n → stays id r (c :: cs) e n.

Lemma stays_now id r cs e n : stays id r cs e n → sched_requests (en_sched e) !! id = Some r.
Proof. by inversion 1. Qed.

Lemma stays_bounded id r cs e n : stays id r cs e n → engine_ok e → allowed_run cs e →
  ∀ rq, store (en_sched e) !! r = Some rq → num_tokens rq + Z.of_nat n < max_len.
Proof.
  induction 1 as [e Hid|c cs e e' g n Hid Hrun Hg Hne Hst IH|c cs e e' n Hid Hrun Hst IH];
    intros He Ha rq Hr.
  - destruct (live_in _ _ _ _ _ _ id r (ei_live _ _ _ _ (eo_inv _ He)) Hid) as (x & Hx & _ & _).
    pose proof (al_tracked _ _ _ _ _ _ _ _ Hx) as Ht. pose proof (tracked_eq _ _ _ _ _ _ Ht Hr) as ->.
    destruct (tr_len _ _ _ (tk_text _ _ _ _ _ Ht)). lia.
  - destruct Ha as [Ha Hrest]. destruct (call_ok c e He Ha) as (e1 & Hrun1 & [Hok Htok]).
    rewrite Hrun in Hrun1. injection Hrun1 as <-.
    destruct (Htok id r rq Hid (stays_now _ _ _ _ _ Hst) Hr) as (rq' & g' & Hr' & Hall & Hgen).
    specialize (IH Hok (Hrest e' Hrun) rq' Hr'). rewrite (Hgen g Hg) in Hall.
    unfold num_tokens in *. rewrite Hall, len_app in IH. destruct g; [done|]. rewrite len_cons in IH.
    pose proof (len_nonneg g). lia.
  - destruct Ha as [Ha Hrest]. destruct (call_ok c e He Ha) as (e1 & Hrun1 & [Hok Htok]).
    rewrite Hrun in Hrun1. injection Hrun1 as <-.
    destruct (Htok id r rq Hid (stays_now _ _ _ _ _ Hst) Hr) as (rq' & g' & Hr' & Hall & _).
    specialize (IH Hok (Hrest e' Hrun) rq' Hr'). unfold num_tokens in *. rewrite Hall, len_app in IH.
    pose proof (len_nonneg g'). lia.
Qed.

(** C3. Every text request ends whose minimum number of output tokens fits the
    model with the prompt ([min_tokens_never_end] shows one that does not and
    stays): over any sequence of calls of a synchronous scheduler without
    connectors, from the empty engine, and then any further sequence, such a
    request leaves when it has the model's answer often enough.  Precisely,
    while a request stays, the number of its answers with at least one token,
    and its tokens at the beginning, add up to less than the maximum model
    length. *)
Theorem answered_requests_end s cs cs' e id r rq n :
  initial s → allowed_run cs (mkEngine s []) → run_calls cs (mkEngine s []) = Ok e →
  allowed_run cs' e → stays id r cs' e n → store (en_sched e) !! r = Some rq →
  num_tokens rq + Z.of_nat n < max_len.
Proof.
  intros Hs Ha Hrun Ha' Hst Hr. destruct (calls_ok cs _ (initial_ok s Hs) Ha) as (e1 & Hrun1 & He).
  rewrite Hrun in Hrun1. injection Hrun1 as <-. by apply (stays_bounded id r cs' e n).
Qed.
End engine.

(** ** Witnesses *)

(** The scheduler of [ScheduleSpec] without requests; blocks of 2 tokens. *)
Definition empty_scheduler : Scheduler unit :=
  mkScheduler ∅ ∅ (AnyFCFS (mkFCFS [])) [] ∅ None ∅ ∅ ∅ (EncoderCacheManager_init 0) unitary_manager None tt.
Definition example_hasher : Request → res (list bytes) := request_block_hasher encode_hash example_seed 2.
(** A request for [n] tokens after the prompt 5 6 7. *)
Definition ask (id : string) (obj n : Z) : Request :=
  ltac:(let t := eval vm_compute in (λ id obj n,
    Request_init id obj 0 (Some [5; 6; 7]) (Some (mkSampling (Some n) 0 false None false None)) None None 0 None
      [] None None 0 (Some example_hasher)) in
    lazymatch t with (λ id obj n, Ok (@?x id obj n)) => let y := eval cbv beta in (x id obj n) in exact y end).
Definition reply : ModelRunnerOutput := mkModelOutput [("A", 0); ("B", 1)] [[8]; [9]] None ∅ None.

(** Two requests; the second is aborted while its second step is in flight, the
    first stops at its second token. *)
Definition first_calls : list engine_call :=
  [CallAdd 1 (ask "A" 1 2) 0; CallAdd 2 (ask "B" 2 8) 1; CallSchedule 2; CallUpdate reply].
Definition abort_calls : list engine_call := [CallSchedule 3; CallAbort ["B"]; CallUpdate reply].
Definition more_calls : list engine_call := [CallSchedule 3; CallUpdate reply].

#[local] Instance engine_predicates : KVPredicates := kv_predicates 2 16 true.
#[local] Instance example_chained : TokenHasher 2 example_hasher :=
  chained_hasher encode_hash example_seed 2 eq_refl encode_hash_inj encode_hash_seed encode_hash_nonempty.
Abbreviation run_example := (run_calls small_config example_hasher (λ _, []) (λ _, []) (λ _, false) (λ _, true) (λ _ w, w)).
Abbreviation call_example := (run_call small_config example_hasher (λ _, []) (λ _, []) (λ _, false) (λ _, true) (λ _ w, w)).
Abbreviation allowed_example := (allowed_run small_config 2 example_hasher (λ _, []) (λ _, []) (λ _, false) (λ _, true) (λ _ w, w)).

Definition example_engine : Engine unit := mkEngine empty_scheduler [].
Definition answered_engine : Engine unit :=
  ltac:(let t := eval vm_compute in (run_example first_calls example_engine) in
        lazymatch t with Ok ?e => exact e end).

Lemma ask_new id obj n : 0 ≤ n → new_request small_config 2 example_hasher (ask id obj n) ∧ request_id (ask id obj n) = id.
Proof.
  intros Hn. apply (init_new_request small_config 2 example_hasher id obj 0 [5; 6; 7]
    (mkSampling (Some n) 0 false None false None) None 0 None None 0); [reflexivity|by vm_compute|by vm_compute].
Qed.

Lemma empty_initial : initial small_config empty_scheduler.
Proof.
  split; try reflexivity; [vm_compute; discriminate|exact unitary_served|].
  intros id x Hx. vm_compute in Hx. apply list_elem_of_singleton in Hx as ->. done.
Qed.

Lemma allowed_cons c cs (e e' : Engine unit) : allowed small_config 2 example_hasher c e →
  call_example c e = Ok e' → allowed_example cs e' → allowed_example (c :: cs) e.
Proof. intros Ha Hrun Hcs. split; [done|]. intros x Hx. rewrite Hrun in Hx. by injection Hx as <-. Qed.

Lemma reply_allowed (e : Engine unit) :
  Forall (λ o, Forall (λ id, id = "A" ∨ id = "B") (od_keys (so_num_scheduled_tokens o))) (en_inflight e) →
  allowed small_config 2 example_hasher (CallUpdate reply) e.
Proof.
  intros Hall o os Ho. split; [done|]. rewrite Ho in Hall. apply Forall_cons in Hall as [Hall _].
  rewrite Forall_forall in Hall. intros id Hid _.
  destruct (Hall id Hid) as [->| ->]; [exists [8]|exists [9]];
    (split; [|by intros Hx%not_elem_of_empty]); eexists; (split; [reflexivity|]); (split; [reflexivity|by eexists]).
Qed.

Ltac replied := apply reply_allowed; repeat (constructor; auto).

Lemma first_allowed : allowed_example first_calls example_engine.
Proof.
  eapply allowed_cons; [split; [apply (ask_new "A" 1 2); lia|split; reflexivity]|vm_compute; reflexivity|].
  eapply allowed_cons; [split; [apply (ask_new "B" 2 8); lia|split; reflexivity]|vm_compute; reflexivity|].
  eapply allowed_cons; [exact I|vm_compute; reflexivity|].
  eapply allowed_cons; [replied|vm_compute; reflexivity|exact I].
Qed.

Lemma abort_allowed : allowed_example abort_calls answered_engine.
Proof.
  eapply allowed_cons; [exact I|vm_compute; reflexivity|].
  eapply allowed_cons; [apply NoDup_singleton|vm_compute; reflexivity|].
  eapply allowed_cons; [replied|vm_compute; reflexivity|exact I].
Qed.

Lemma more_allowed : allowed_example more_calls answered_engine.
Proof.
  eapply allowed_cons; [exact I|vm_compute; reflexivity|].
  eapply allowed_cons; [replied|vm_compute; reflexivity|exact I].
Qed.

Lemma first_run : run_example first_calls example_engine = Ok answered_engine.
Proof. vm_compute. reflexivity. Qed.

Lemma allowed_app cs cs' e e' : allowed_example cs e → run_example cs e = Ok e' → allowed_example cs' e' →
  allowed_example (cs ++ cs') (e : Engine unit).
Proof.
  revert e. induction cs as [|c cs IH]; intros e Ha Hrun Hcs; [by injection Hrun as ->|].
  destruct Ha as [Ha Hrest]. split; [done|]. intros x Hx. simpl in Hrun. rewrite Hx in Hrun. simpl in Hrun.
  apply IH; [by apply Hrest|done|done].
Qed.


Lemma answered_requests_end_witness :
  ∃ rq, store (en_sched answered_engine) !! 2 = Some rq ∧ num_tokens rq = 4 ∧ num_tokens rq + Z.of_nat 1 < 16.
Proof.
  eexists. split; [vm_compute; reflexivity|]. split; [vm_compute; reflexivity|].
  refine (answered_requests_end small_config 2 (KS := kv_service 2 16 true) example_hasher (λ _, []) eq_refl (λ _, [])
    (λ _, false) (λ _, true) (λ _ w, w) ltac:(by intros ? ?) eq_refl eq_refl ltac:(by vm_compute) ltac:(by vm_compute)
    empty_scheduler first_calls more_calls answered_engine "B" 2 _ 1 empty_initial first_allowed first_run
    more_allowed _ eq_refl).
  eapply stays_other; [vm_compute; reflexivity|vm_compute; reflexivity|].
  eapply stays_answer with (g := [9]); [vm_compute; reflexivity|vm_compute; reflexivity| |discriminate|apply stays_nil; vm_compute; reflexivity].
  eexists _, []. split; [reflexivity|]. split; [vm_compute; set_solver +|].
  split; [|by intros Hx%not_elem_of_empty].
  eexists. split; [reflexivity|]. split; [reflexivity|by eexists].
Defined.

(** ** A request that never ends

    The length of the model does not end a request before [min_tokens] tokens are
    generated, and the scheduler gives no tokens to a request at that length.
    Its sampling parameters are valid: 20 tokens at least, 30 at most, for a
    model of 16. *)
Definition stubborn : Request :=
  ltac:(let t := eval vm_compute in (Request_init "A" 1 0 (Some [5; 6; 7]) (Some (mkSampling (Some 30) 20 false None false None))
      None None 0 None [] None None 0 (Some example_hasher)) in
    lazymatch t with Ok ?x => exact x end).
Definition roomy_engine : Engine unit :=
  ltac:(let t := eval vm_compute in (KVCacheManager_init (mkKVConfig 10 [] (kv_cache_groups unitary_config)) 16 2 true false true false false 1 1 None) in
    lazymatch t with Ok ?m => exact (mkEngine (mkScheduler ∅ ∅ (AnyFCFS (mkFCFS [])) [] ∅ None ∅ ∅ ∅ (EncoderCacheManager_init 0) m None tt) []) end).
Example min_tokens_never_end :
  ∃ e rq, run_example (CallAdd 1 stubborn 0 :: concat (replicate 13 [CallSchedule 1; CallUpdate reply])) roomy_engine = Ok e ∧
    store (en_sched e) !! 1 = Some rq ∧ num_tokens rq = 16 ∧ num_output_tokens rq = 13 ∧ running (en_sched e) = [1] ∧
    ∃ e', run_example [CallSchedule 1] e = Ok e' ∧ map so_num_scheduled_tokens (en_inflight e') = [[]].
Proof.
  eexists _, _. split; [vm_compute; reflexivity|]. do 4 (split; [vm_compute; reflexivity|]).
  eexists. split; vm_compute; reflexivity.
Qed.
