(* ===== verification/EngineOutputs.v ===== *)
(** What the outputs of the scheduler say about its requests
    (vllm/v1/core/sched/scheduler.py, [update_from_output]).

    A list of outputs ([EngineCoreOutput], vllm/v1/engine/__init__.py) brings
    new tokens of requests and ends requests.  A map from the unfinished
    requests to their output tokens is the abstract state of an engine core;
    [after_outputs] is what a list of outputs makes of it.  For a client whose
    requests these are, the outputs of the scheduler carry exactly the output
    tokens that the requests got and end exactly the requests that left. *)

From S2P Require Import Prelude.
From S2P Require Import Request.
From S2P Require Import BlockPool.
From S2P Require Import KVCacheManager.
From S2P Require Import KVService.
From S2P Require Import KVServiceImpl.
From S2P Require Import OrderedDict.
From S2P Require Import EncoderCache.
From S2P Require Import RequestQueue.
From S2P Require Import RequestQueueSpec.
From S2P Require Import SchedulerState.
From S2P Require Import Schedule.
From S2P Require Import SchedulerInvariant.
From S2P Require Import ScheduleSpec.
From S2P Require Import SchedulerUpdate.
From S2P Require Import EngineInvariant.
From S2P Require Import EngineCalls.
From S2P Require Import UpdateSpec.
From S2P Require Import Engine.

(** The requests that outputs end, and the new tokens of a request. *)
Definition ended (os : list EngineCoreOutput) : list string :=
  omap (λ o, if decide (eo_finish_reason o = None) then None else Some (eo_request_id o)) os.
Definition tokens_for (id : string) (os : list EngineCoreOutput) : list Z :=
  concat (map eo_new_token_ids (filter (λ o, eo_request_id o = id) os)).

Lemma ended_app os os' : ended (os ++ os') = ended os ++ ended os'.
Proof. apply omap_app. Qed.
Lemma tokens_for_app id os os' : tokens_for id (os ++ os') = tokens_for id os ++ tokens_for id os'.
Proof. unfold tokens_for. by rewrite filter_app, map_app, concat_app. Qed.

Lemma elem_of_ended id os : id ∈ ended os ↔ ∃ o, o ∈ os ∧ eo_request_id o = id ∧ is_Some (eo_finish_reason o).
Proof.
  unfold ended. rewrite list_elem_of_omap. split; intros (o & Ho & H); exists o; (split; [done|]).
  - destruct (decide _) as [|Hf]; [done|]. injection H as <-. split; [done|]. by apply not_eq_None_Some.
  - destruct H as [<- Hf%not_eq_None_Some]. by rewrite decide_False.
Qed.
Lemma ended_one o : ended [o] = if decide (eo_finish_reason o = None) then [] else [eo_request_id o].
Proof. cbn. by case_decide. Qed.

(** Outputs of other requests say nothing about [id]. *)
Lemma outputs_of_others id os : (∀ o, o ∈ os → eo_request_id o ≠ id) → tokens_for id os = [] ∧ id ∉ ended os.
Proof.
  intros Hos. split.
  - unfold tokens_for. replace (filter _ os) with (@nil EngineCoreOutput); [done|].
    symmetry. induction os as [|o os IH]; [done|]. rewrite filter_cons_False by (apply Hos; by left). apply IH. intros x Hx. apply Hos. by right.
  - intros (o & Ho & Hid & _)%elem_of_ended. by apply (Hos o).
Qed.
Lemma tokens_for_own id os : (∀ o, o ∈ os → eo_request_id o = id) → tokens_for id os = concat (map eo_new_token_ids os).
Proof. intros Hos. unfold tokens_for. by rewrite filter_all. Qed.

(** Outputs that are grouped by requests. *)
Lemma grouped_outputs ids oss id : NoDup ids → Forall2 (λ i os, ∀ o, o ∈ os → eo_request_id o = i) ids oss →
  (id ∉ ids → tokens_for id (concat oss) = [] ∧ id ∉ ended (concat oss)) ∧
  ∀ k os, ids !! k = Some id → oss !! k = Some os →
    tokens_for id (concat oss) = tokens_for id os ∧ (id ∈ ended (concat oss) ↔ id ∈ ended os).
Proof.
  intros Hnd Hall. revert Hnd. induction Hall as [|i os ids oss Hi Hall IH]; intros Hnd.
  { split; [by intros _; split; [|apply not_elem_of_nil]|]. by intros k os Hk. }
  apply NoDup_cons in Hnd as [Hni Hnd]. destruct (IH Hnd) as [IH1 IH2]. cbn [concat]. rewrite tokens_for_app, ended_app.
  assert (Hother : id ≠ i → tokens_for id os = [] ∧ id ∉ ended os).
  { intros Hne. apply outputs_of_others. intros o Ho. rewrite (Hi o Ho). congruence. }
  split.
  - intros [Hne Hid]%not_elem_of_cons. destruct (IH1 Hid) as [-> ?]. destruct (Hother Hne) as [-> ?]. split; [done|]. rewrite elem_of_app. tauto.
  - intros [|k] os' Hk Ho; cbn in Hk, Ho.
    + injection Hk as <-. injection Ho as <-. destruct (IH1 Hni) as [-> ?]. rewrite app_nil_r. split; [done|]. rewrite elem_of_app. tauto.
    + destruct (IH2 k os' Hk Ho) as [-> Hiff]. destruct (decide (id = i)) as [->|Hne]; [by apply list_elem_of_lookup_2 in Hk|].
      destruct (Hother Hne) as [-> ?]. split; [done|]. rewrite elem_of_app, Hiff. tauto.
Qed.

(** ** The unfinished requests and their tokens *)

Abbreviation request_tokens := (gmap string (list Z)).

Definition after_outputs (os : list EngineCoreOutput) (m : request_tokens) : request_tokens :=
  map_imap (λ id ks, if decide (id ∈ ended os) then None else Some (ks ++ tokens_for id os)) m.

Lemma lookup_after_outputs os m id :
  after_outputs os m !! id = if decide (id ∈ ended os) then None else (λ ks, ks ++ tokens_for id os) <$> m !! id.
Proof. unfold after_outputs. rewrite map_lookup_imap. by destruct (m !! id); cbn; case_decide. Qed.

Lemma after_no_outputs m : after_outputs [] m = m.
Proof.
  apply map_eq. intros id. rewrite lookup_after_outputs, decide_False by apply not_elem_of_nil.
  destruct (m !! id); cbn; [by rewrite app_nil_r|done].
Qed.
Lemma after_outputs_app os os' m : after_outputs (os ++ os') m = after_outputs os' (after_outputs os m).
Proof.
  apply map_eq. intros id. rewrite !lookup_after_outputs, ended_app, tokens_for_app.
  destruct (decide (id ∈ ended os)) as [H1|H1]; [rewrite decide_True by (apply elem_of_app; by left); by case_decide|].
  destruct (decide (id ∈ ended os')) as [H2|H2]; [by rewrite decide_True by (apply elem_of_app; by right)|].
  rewrite decide_False by (rewrite elem_of_app; tauto). destruct (m !! id); cbn; [by rewrite app_assoc|done].
Qed.

(** ** The outputs of the scheduler *)

Lemma finished_reason_some rq : is_Some (get_finished_reason rq) ↔ is_finished rq = true.
Proof. unfold get_finished_reason, is_finished. destruct (status rq); cbn; split; try done; by intros [? ?]. Qed.

Section outputs.
Context {W : Type} (cfg : SchedulerConfig) (hbs : Z).
Context {KP : KVPredicates} {KS : KVService hbs (sc_max_model_len cfg) (sc_log_stats cfg)}.
Context (hasher : Request → res (list bytes)) {TH : TokenHasher hbs hasher}.
Implicit Types (s : Scheduler W).
Abbreviation engine_inv := (engine_inv (W := W) cfg hbs hasher).

(** The output tokens of the scheduler's requests. *)
Definition output_tokens s : request_tokens := omap (λ r, _output_token_ids <$> store s !! r) (sched_requests s).
(** All requests are those of one client. *)
Definition all_of (client : Z) s : Prop :=
  ∀ id r rq, sched_requests s !! id = Some r → store s !! r = Some rq → client_index rq = client.

Lemma lookup_output_tokens s id :
  output_tokens s !! id = (r ← sched_requests s !! id; _output_token_ids <$> store s !! r).
Proof. unfold output_tokens. by rewrite lookup_omap. Qed.

Lemma output_tokens_same s s' id : sched_requests s' !! id = sched_requests s !! id →
  (∀ r, sched_requests s !! id = Some r → _output_token_ids <$> store s' !! r = _output_token_ids <$> store s !! r) →
  output_tokens s' !! id = output_tokens s !! id.
Proof.
  intros Hid Hst. rewrite !lookup_output_tokens, Hid. destruct (sched_requests s !! id) as [r|]; cbn; [by apply Hst|done].
Qed.

Lemma schedule_keeps s s' : sched_requests s' = sched_requests s → store_same (store s) (store s') →
  output_tokens s' = output_tokens s ∧ ∀ client, all_of client s → all_of client s'.
Proof.
  intros Hreq Hst. split.
  - apply map_eq. intros id. apply output_tokens_same; [by rewrite Hreq|]. intros r _.
    destruct (Hst r) as [x y Hxy|]; cbn; [by rewrite (sq_output _ _ Hxy)|done].
  - intros client Hall id r rq'. rewrite Hreq. intros Hid Hr'. specialize (Hst r). rewrite Hr' in Hst.
    inversion Hst as [x y Hxy Hx|]; subst. rewrite (sq_client _ _ Hxy). by apply (Hall id r).
Qed.

Lemma add_keeps s s' r rq rq' : store s !! r = None → sched_requests s' = <[request_id rq := r]> (sched_requests s) →
  (∀ x, x ≠ r → store s' !! x = store s !! x) → store s' !! r = Some rq' → same_request rq rq' →
  (∀ id, sched_requests s !! id ≠ Some r) →
  output_tokens s' = <[request_id rq := _output_token_ids rq]> (output_tokens s) ∧
  ∀ client, client_index rq = client → all_of client s → all_of client s'.
Proof.
  intros Hr Hreq Hst Hr' Hsame Hno. split.
  - apply map_eq. intros id. destruct (decide (id = request_id rq)) as [->|Hne].
    + rewrite lookup_insert_eq, lookup_output_tokens, Hreq, lookup_insert_eq. cbn. rewrite Hr'. cbn. by rewrite (sq_output _ _ Hsame).
    + rewrite lookup_insert_ne by done. apply output_tokens_same; [by rewrite Hreq, lookup_insert_ne|].
      intros x Hx. rewrite Hst; [done|]. intros ->. by apply (Hno id).
  - intros client Hc Hall id x rx. rewrite Hreq. intros [[<- <-]|[_ Hx]]%lookup_insert_Some Hrx.
    + rewrite Hr' in Hrx. injection Hrx as <-. by rewrite (sq_client _ _ Hsame).
    + rewrite Hst in Hrx by (intros ->; by apply (Hno id)). by apply (Hall id x).
Qed.

Lemma finish_keeps s s' ids : finished cfg hbs hasher s s' ids →
  (∀ id, output_tokens s' !! id = if decide (id ∈ ids) then None else output_tokens s !! id) ∧
  ∀ client, all_of client s → all_of client s'.
Proof.
  intros [_ Hg Hk Hst]. split.
  - intros id. case_decide as Hid; [by rewrite lookup_output_tokens, (Hg id Hid)|]. apply output_tokens_same; [by apply Hk|].
    intros r Hr. by rewrite (Hst id r).
  - intros client Hall id r rq Hid Hr. destruct (decide (id ∈ ids)) as [Hin|Hin]; [by rewrite Hg in Hid|].
    rewrite (Hk id Hin) in Hid. rewrite (Hst id r) in Hr by done. by apply (Hall id r).
Qed.

(** ** The results of a batch *)

Section update.
Context (s s' : Scheduler W) (model : ModelRunnerOutput) (ids : list string) (client : Z) (oss : list (list EngineCoreOutput)).
Context (Hs : engine_inv s) (Hnd : NoDup ids).
Context (Hout : ∀ id, id ∈ ids → outcome cfg s s' model id) (Hun : untouched s s' ids).
Context (Htold : Forall2 (told s s' model client) ids oss).

Lemma told_grouped : Forall2 (λ i os, ∀ o, o ∈ os → eo_request_id o = i) ids oss.
Proof using Htold.
  eapply Forall2_impl; [exact Htold|]. intros id os Hos o Ho. unfold told in Hos. destruct (sched_requests s !! id).
  - destruct Hos as (rq & rq' & app & i & p & _ & _ & _ & _ & _ & _ & Hos). destruct (_ && _).
    + destruct Hos as (x & -> & Hx). apply list_elem_of_singleton in Ho as ->. apply (tl_id _ _ _ _ _ Hx).
    + subst os. by apply not_elem_of_nil in Ho.
  - destruct Hos as [-> _]. by apply not_elem_of_nil in Ho.
Qed.

(** The output of a request of the client. *)
Lemma told_tokens id r rq os : all_of client s → sched_requests s !! id = Some r → store s !! r = Some rq →
  outcome cfg s s' model id → told s s' model client id os →
  ∃ rq', store s' !! r = Some rq' ∧ _output_token_ids rq' = _output_token_ids rq ++ tokens_for id os ∧
    client_index rq' = client ∧ sched_requests s' !! id = if decide (id ∈ ended os) then None else Some r.
Proof using Hs.
  intros Hall Hid Hr Ho Ht. destruct (Ho r rq Hid Hr) as (g & app & b & rq' & _ & Hcut & Hr' & _ & Hids & _ & Hb & Hreq).
  unfold told in Ht. rewrite Hid in Ht. destruct Ht as (rq0 & rq1 & app1 & i & p & Hr0 & Hr1 & Hids1 & Hc1 & _ & _ & Hos).
  rewrite Hr in Hr0. injection Hr0 as <-. rewrite Hr' in Hr1. injection Hr1 as <-.
  rewrite Hids in Hids1. apply app_inv_head in Hids1 as <-. pose proof (Hall id r rq Hid Hr) as Hc.
  exists rq'. split; [done|]. rewrite Hids, Hreq. rewrite (bool_decide_eq_true_2 _ Hc) in Hos. cbn [andb] in Hos.
  assert (Hfin : is_Some (get_finished_reason rq') ↔ b = true).
  { rewrite finished_reason_some. destruct b; [by rewrite Hb|]. unfold is_finished. rewrite Hb.
    pose proof (ei_live _ _ _ _ Hs) as Hl. destruct (live_in _ _ _ _ _ _ id r Hl Hid) as (x & Hx & _ & Hin).
    pose proof (tracked_eq _ _ _ _ _ _ (al_tracked _ _ _ _ _ _ _ _ Hx) Hr) as ->.
    destruct (alive_unfinished _ _ _ _ _ _ _ _ Hx Hin (lv_nodup _ _ _ _ _ _ Hl)) as (Hf & _). unfold is_finished in Hf. by rewrite Hf. }
  destruct (bool_decide (app ≠ []) || p) eqn:Hp.
  - destruct Hos as (o & -> & [T1 T2 T3 _ _]). rewrite tokens_for_own by (by intros ? ->%list_elem_of_singleton).
    cbn [map concat]. rewrite T2, app_nil_r. split; [done|]. split; [congruence|]. rewrite ended_one, T1, T3.
    destruct (get_finished_reason rq') as [f|] eqn:Hf.
    + rewrite (decide_False (P := Some f = None)) by done. rewrite (proj1 Hfin) by (by eexists). by rewrite decide_True by (by left).
    + rewrite (decide_True (P := None = None)) by done. destruct b; [destruct (proj2 Hfin eq_refl); done|]. by rewrite decide_False by apply not_elem_of_nil.
  - subst os. apply orb_false_iff in Hp as [->%bool_decide_eq_false%dec_stable _]. split; [done|]. split; [congruence|].
    rewrite decide_False by apply not_elem_of_nil. destruct b; [|done]. by destruct (ct_stop _ _ _ _ _ Hcut eq_refl).
Qed.

Lemma update_serves : all_of client s →
  output_tokens s' = after_outputs (concat oss) (output_tokens s) ∧ all_of client s'.
Proof using All.
  intros Hall. pose proof (ei_live _ _ _ _ Hs) as Hl.
  assert (Hknown : ∀ id, id ∉ ids → sched_requests s' !! id = sched_requests s !! id ∧
    ∀ r, sched_requests s !! id = Some r → store s' !! r = store s !! r).
  { intros id Hid. split; [by apply (un_known _ _ _ Hun)|]. intros r Hr. apply (un_store _ _ _ Hun). intros i Hi Hri.
    by rewrite (live_inj _ _ _ _ _ _ _ _ _ Hl Hr Hri) in Hid. }
  assert (Hin : ∀ id, id ∈ ids → ∃ os, told s s' model client id os ∧
    tokens_for id (concat oss) = tokens_for id os ∧ (id ∈ ended (concat oss) ↔ id ∈ ended os)).
  { intros id [k Hk]%list_elem_of_lookup. destruct (Forall2_lookup_l _ _ _ _ _ Htold Hk) as (os & Hos & Ht).
    exists os. split; [done|]. by apply (proj2 (grouped_outputs ids oss id Hnd told_grouped) k). }
  split.
  - apply map_eq. intros id. rewrite lookup_after_outputs. destruct (decide (id ∈ ids)) as [Hid|Hid].
    + destruct (Hin id Hid) as (os & Ht & E1 & E2). rewrite E1, (decide_ext _ _ _ _ E2).
      destruct (sched_requests s !! id) as [r|] eqn:Hr.
      * destruct (lv_known _ _ _ _ _ _ Hl id r Hr) as (_ & rq & Hrq & _).
        destruct (told_tokens id r rq os Hall Hr Hrq (Hout id Hid) Ht) as (rq' & Hr' & Hids & _ & Hreq).
        rewrite !lookup_output_tokens, Hr, Hreq. cbn. case_decide; [done|]. cbn. rewrite Hr', Hrq. cbn. by rewrite Hids.
      * unfold told in Ht. rewrite Hr in Ht. destruct Ht as [-> Hn]. rewrite !lookup_output_tokens, Hr, Hn. by case_decide.
    + destruct (proj1 (grouped_outputs ids oss id Hnd told_grouped) Hid) as [E1 E2]. rewrite E1, decide_False by done.
      destruct (Hknown id Hid) as [K1 K2]. rewrite (output_tokens_same s s' id K1) by (intros r Hr; by rewrite K2).
      destruct (output_tokens s !! id); cbn; [by rewrite app_nil_r|done].
  - intros id r rq' Hr Hrq'. destruct (decide (id ∈ ids)) as [Hid|Hid].
    + destruct (Hin id Hid) as (os & Ht & _). destruct (sched_requests s !! id) as [x|] eqn:Hx.
      * destruct (lv_known _ _ _ _ _ _ Hl id x Hx) as (_ & rq & Hrq & _).
        destruct (told_tokens id x rq os Hall Hx Hrq (Hout id Hid) Ht) as (rq1 & Hr1 & _ & Hc & Hreq).
        rewrite Hr in Hreq. case_decide; [done|]. injection Hreq as ->. rewrite Hr1 in Hrq'. by injection Hrq' as <-.
      * unfold told in Ht. rewrite Hx in Ht. destruct Ht as [_ Hn]. by rewrite Hn in Hr.
    + destruct (Hknown id Hid) as [K1 K2]. rewrite K1 in Hr. rewrite (K2 r Hr) in Hrq'. by apply (Hall id r).
Qed.

(** A model that generates text pools nothing. *)
Lemma update_pools : (∀ i p, pooled model i = Some p → p = false) → ∀ o, o ∈ concat oss → eo_pooling_output o = false.
Proof using Htold.
  intros Hp o Hin. apply list_elem_of_In, in_concat in Hin as (os & Hos & Ho). apply list_elem_of_In in Hos, Ho. apply list_elem_of_lookup in Hos as [k Hk].
  destruct (Forall2_lookup_r _ _ _ _ _ Htold Hk) as (id & _ & Ht). unfold told in Ht. destruct (sched_requests s !! id).
  - destruct Ht as (rq & rq' & app & i & p & _ & _ & _ & _ & _ & Hi & Hx). destruct (_ && _).
    + destruct Hx as (x & -> & Hx). apply list_elem_of_singleton in Ho as ->. rewrite (tl_pooling _ _ _ _ _ Hx). by apply (Hp i).
    + subst os. by apply not_elem_of_nil in Ho.
  - destruct Ht as [-> _]. by apply not_elem_of_nil in Ho.
Qed.
End update.

(** ** [update_from_output] *)

(** Every output is about a scheduled request and carries its reasons. *)
Definition reasons_told (s s' : Scheduler W) (ids : list string) (os : list EngineCoreOutput) : Prop :=
  ∀ o, o ∈ os → eo_request_id o ∈ ids ∧ ∃ r rq', sched_requests s !! eo_request_id o = Some r ∧ store s' !! r = Some rq' ∧
    eo_finish_reason o = get_finished_reason rq' ∧ eo_stop_reason o = stop_reason rq'.

Lemma told_reasons s s' model client ids oss : Forall2 (told s s' model client) ids oss → reasons_told s s' ids (concat oss).
Proof.
  intros Htold o Hin. apply list_elem_of_In, in_concat in Hin as (os & Hos & Ho). apply list_elem_of_In in Hos, Ho.
  apply list_elem_of_lookup in Hos as [k Hk]. destruct (Forall2_lookup_r _ _ _ _ _ Htold Hk) as (id & Hid & Ht).
  unfold told in Ht. destruct (sched_requests s !! id) as [r|] eqn:Hr; [|destruct Ht as [-> _]; by apply not_elem_of_nil in Ho].
  destruct Ht as (rq & rq' & app & i & p & _ & Hr' & _ & _ & _ & _ & Hx). destruct (_ && _); [|subst os; by apply not_elem_of_nil in Ho].
  destruct Hx as (x & -> & [T1 T2 T3 T4 T5]). apply list_elem_of_singleton in Ho as ->. rewrite T1.
  split; [by apply list_elem_of_lookup_2 in Hid|]. by exists r, rq'.
Qed.

Context (set_order : gset Z → list Z) (Hset : set_order ∅ = []) (id_order : gset string → list string).
Context (should_advance : Request → bool) (grammar_ready : Request → bool).
Context (publish : list KVCacheEvent → W → W).
Context (Hadv : ∀ rq, should_advance rq = true → use_structured_output rq = true ∧ grammar_ready rq = true).
Context (Hsync : sc_async cfg = false).

(** C9. The results of a batch reach the requests and their client exactly, for a
    synchronous scheduler of text requests of one client, without drafts and
    without output of a connector.  If the model answers the scheduled requests
    that are still known, [update_from_output] returns and keeps the invariant;
    each of these requests takes the tokens of its answer up to the first at
    which it stops, and leaves if and only if it stops; all other requests stay
    as they are.  The outputs for the client carry exactly the tokens that its
    requests got, end exactly the requests that left, and give the reason that
    the request has. *)
Theorem update_outputs_exact s out model client :
  engine_inv s → step_output out → kv_connector_output model = None →
  answered s model (od_keys (so_num_scheduled_tokens out)) → all_of client s →
  ∃ outs s', update_from_output cfg None set_order id_order hasher should_advance grammar_ready publish out model s = (Ok outs, s') ∧
    engine_inv s' ∧ all_of client s' ∧
    (∀ id, id ∈ od_keys (so_num_scheduled_tokens out) → outcome cfg s s' model id) ∧
    untouched s s' (od_keys (so_num_scheduled_tokens out)) ∧
    output_tokens s' = after_outputs (client_outputs client outs) (output_tokens s) ∧
    reasons_told s s' (od_keys (so_num_scheduled_tokens out)) (client_outputs client outs).
Proof using Hset Hadv Hsync KS.
  intros Hs Ho Hkv Hans Hall.
  destruct (update_ok cfg hbs hasher set_order Hset id_order should_advance grammar_ready publish Hadv Hsync s out model Hs Ho Hkv Hans)
    as (outs & s' & Hrun & Hs' & Hout & Hun & Htold).
  destruct (Htold client) as (oss & Ht & Hos). exists outs, s'. split; [done|]. split; [done|].
  destruct (update_serves s s' model _ client oss Hs (st_keys _ Ho) Hout Hun Ht Hall) as [Htok Hall'].
  rewrite Hos. do 4 (split; [done|]). by eapply told_reasons.
Qed.
End outputs.

(** ** An example *)

#[local] Existing Instances engine_predicates example_chained.

(** The two requests of [Engine] with their second step in flight: request A is
    about to stop at its second token. *)
Definition stepping_engine : Engine unit :=
  ltac:(let t := eval vm_compute in (run_example (first_calls ++ [CallSchedule 3]) example_engine) in
        lazymatch t with Ok ?e => exact e end).
Definition stepping_output : SchedulerOutput :=
  ltac:(let t := eval vm_compute in (en_inflight stepping_engine) in lazymatch t with [?o] => exact o end).

Lemma stepping_ok : engine_ok small_config 2 example_hasher stepping_engine.
Proof.
  assert (Ha : allowed_example (first_calls ++ [CallSchedule 3]) example_engine).
  { eapply allowed_app; [exact first_allowed|exact first_run|]. eapply allowed_cons; [exact I|vm_compute; reflexivity|exact I]. }
  destruct (calls_ok small_config 2 (KS := kv_service 2 16 true) example_hasher (λ _, []) eq_refl (λ _, [])
    (λ _, false) (λ _, true) (λ _ w, w) ltac:(by intros ? ?) eq_refl eq_refl ltac:(by vm_compute) ltac:(by vm_compute)
    _ _ (initial_ok small_config 2 example_hasher _ empty_initial) Ha) as (e & Hrun & He).
  assert (Hrun' : run_example (first_calls ++ [CallSchedule 3]) example_engine = Ok stepping_engine) by (vm_compute; reflexivity).
  change (mkEngine empty_scheduler []) with example_engine in Hrun. rewrite Hrun' in Hrun. injection Hrun as <-. exact He.
Qed.

Lemma all_of_dec client (s : Scheduler unit) :
  bool_decide (map_Forall (λ _ r, client_index <$> store s !! r = Some client) (sched_requests s)) = true → all_of client s.
Proof. intros Hb%bool_decide_eq_true id r rq Hid Hr. specialize (Hb id r Hid). cbn in Hb. rewrite Hr in Hb. by injection Hb. Qed.

Lemma update_outputs_exact_witness :
  ∃ outs s', update_from_output small_config None (λ _, []) (λ _, []) example_hasher (λ _, false) (λ _, true) (λ _ w, w)
      stepping_output reply (en_sched stepping_engine) = (Ok outs, s') ∧
    output_tokens s' = after_outputs (client_outputs 0 outs) (output_tokens (en_sched stepping_engine)) ∧
    ended (client_outputs 0 outs) = ["A"] ∧ tokens_for "B" (client_outputs 0 outs) = [9].
Proof.
  pose proof stepping_ok as [Hs Hos]. apply Forall_cons in Hos as [Ho _].
  destruct (update_outputs_exact small_config 2 (KS := kv_service 2 16 true) example_hasher (λ _, []) eq_refl (λ _, [])
    (λ _, false) (λ _, true) (λ _ w, w) ltac:(by intros ? ?) eq_refl (en_sched stepping_engine) stepping_output reply 0 Hs Ho eq_refl)
    as (outs & s' & Hrun & _ & _ & _ & _ & Htok & _).
  - apply (reply_allowed stepping_engine (ltac:(repeat (constructor; auto))) stepping_output []). reflexivity.
  - apply all_of_dec. vm_compute. reflexivity.
  - exists outs, s'. split; [exact Hrun|]. split; [exact Htok|]. vm_compute in Hrun. injection Hrun as <- _.
    split; vm_compute; reflexivity.
Defined.
