(* ===== verification/EngineCore.v ===== *)
(** The core of the engine (vllm/v1/engine/core.py, [EngineCore]): requests are
    handed to the scheduler, steps are scheduled and given to the executor, and
    the results go back to the scheduler; with pipeline parallelism several
    batches are in flight.

    The executor runs the model on workers; it and the structured-output manager
    are parameters ([Executor], [grammar_bitmask]).  The input thread appends to
    the queue of aborts at any time; a step reads it once, so that appending
    during a step is appending before it. *)

From S2P Require Import Prelude.
From S2P Require Import OrderedDict.
From S2P Require Import Request.
From S2P Require Import BlockPool.
From S2P Require Import KVCacheManager.
From S2P Require Import RequestQueue.
From S2P Require Import SchedulerState.
From S2P Require Import Schedule.
From S2P Require Import SchedulerUpdate.

(** [GrammarOutput]: the structured-output requests and their bitmask. *)
Record GrammarOutput (G : Type) := mkGrammar {
  structured_output_ids : list string;
  bitmask : G
}.
Arguments mkGrammar {G}.

(** The executor, over a state [E] of the workers; a call that does not block
    gives a future [F].  A future's result is [None] when the model has to be
    sampled by another call. *)
Record Executor (E F G : Type) := mkExecutor {
  execute_model : SchedulerOutput → E → F * E;
  sample_tokens : option (GrammarOutput G) → E → F * E;           (** [non_block=True] *)
  sample_tokens_now : option (GrammarOutput G) → E → res ModelRunnerOutput * E;
  future_result : F → E → res (option ModelRunnerOutput) * E;
  future_done : F → E → bool;
  take_draft_token_ids : E → option DraftTokenIds * E
}.
Arguments execute_model {E F G} _.
Arguments sample_tokens {E F G} _.
Arguments sample_tokens_now {E F G} _.
Arguments future_result {E F G} _.
Arguments future_done {E F G} _.
Arguments take_draft_token_ids {E F G} _.

Record EngineConfig := mkEngineConfig {
  batch_queue_size : Z;
  is_ec_producer : bool;
  is_pooling_model : bool;
  use_spec_decode : bool
}.

(** The batch queue is a deque: batches enter on the left, that is at the head
    of the list; it is [None] when there is no pipeline parallelism. *)
Record EngineCore (W E F : Type) := mkCore {
  core_scheduler : Scheduler W;
  model_executor : E;
  batch_queue : option (list (F * SchedulerOutput * F));
  aborts_queue : list (list string)
}.
Arguments mkCore {W E F}.
Arguments core_scheduler {W E F} _.
Arguments model_executor {W E F} _.
Arguments batch_queue {W E F} _.
Arguments aborts_queue {W E F} _.

Section engine_core.
Context {W E F G : Type} (cfg : SchedulerConfig) (ecfg : EngineConfig) (exec : Executor E F G).
Context (connector : option (KVConnector W)) (ec_connector : option (ECConnector W)).
Context (set_order : gset Z → list Z) (id_order : gset string → list string).
Context (hasher : Request → res (list bytes)).
Context (should_advance : Request → bool) (grammar_ready : Request → bool).
Context (validate_tokens : Request → list Z → list Z).
Context (publish : list KVCacheEvent → W → W).
(** Whether the workers support the task of the pooling parameters. *)
Context (pooling_task_supported : PoolingParams → bool).
Context (grammar_bitmask : Scheduler W → list string → list (string * list Z) → G).
Abbreviation core := (EngineCore W E F).

Definition set_core_scheduler (v : Scheduler W) (c : core) : core :=
  mkCore v (model_executor c) (batch_queue c) (aborts_queue c).
Definition set_executor (v : E) (c : core) : core :=
  mkCore (core_scheduler c) v (batch_queue c) (aborts_queue c).
Definition set_batch_queue (v : option (list (F * SchedulerOutput * F))) (c : core) : core :=
  mkCore (core_scheduler c) (model_executor c) v (aborts_queue c).
Definition set_aborts (v : list (list string)) (c : core) : core :=
  mkCore (core_scheduler c) (model_executor c) (batch_queue c) v.

Definition scheduler {A} (m : M (Scheduler W) A) : M core A := zoom core_scheduler set_core_scheduler m.
Definition executor {A} (f : E → A * E) : M core A :=
  zoom model_executor set_executor (λ x, (Ok (f x).1, (f x).2)).
(** A call whose exception the engine sees. *)
Definition executor_result {A} (f : E → res A * E) : M core A := zoom model_executor set_executor f.

(** [SchedulerInterface.has_unfinished_requests] and [has_requests]
    (vllm/v1/core/sched/interface.py) *)
Definition has_unfinished_requests (s : Scheduler W) : bool :=
  bool_decide (0 < get_num_unfinished_requests s).
Definition has_requests (s : Scheduler W) : bool :=
  has_unfinished_requests s || has_finished_requests s.

Definition get_grammar_bitmask (o : SchedulerOutput) : M (Scheduler W) (option (GrammarOutput G)) :=
  let* s := get in
  match structured_output_request_ids o s with
  | [] => ret None
  | ids => ret (Some (mkGrammar ids (grammar_bitmask s ids (so_spec_decode_tokens o))))
  end.

(** A request is handed over; [r] is the new object. *)
Definition core_add_request (r : ref) (request : Request) (now : Z) : M core unit :=
  match pooling_params request with
  | Some p => if pooling_task_supported p then ret tt else raise ValueError
  | None => ret tt
  end ;;;
  scheduler (sched_add_request cfg r request now).

(** [finish_requests] makes a set of the ids. *)
Definition abort_requests (request_ids : list string) : M core unit :=
  scheduler (finish_requests cfg connector set_order (id_order (list_to_set request_ids)) FINISHED_ABORTED).

Definition _process_aborts_queue : M core unit :=
  let* c := get in
  match aborts_queue c with
  | [] => ret tt
  | q => modify (set_aborts []) ;;; abort_requests (concat q)
  end.

Abbreviation schedule_at now := (schedule cfg connector ec_connector set_order now grammar_ready).
Abbreviation update_with := (update_from_output cfg connector set_order id_order hasher should_advance grammar_ready publish).

Definition core_step (now : Z) : M core (list (Z * EngineCoreOutputs) * bool) :=
  let* c := get in
  if negb (has_requests (core_scheduler c)) then ret ([], false) else
  let* scheduler_output := scheduler (schedule_at now) in
  let* future := executor (execute_model exec scheduler_output) in
  let* grammar_output := scheduler (get_grammar_bitmask scheduler_output) in
  let* model_output := executor_result (future_result exec future) in
  let* model_output :=
    match model_output with
    | Some m => ret m
    | None => executor_result (sample_tokens_now exec grammar_output)
    end in
  _process_aborts_queue ;;;
  let* engine_core_outputs := scheduler (update_with scheduler_output model_output) in
  ret (engine_core_outputs, bool_decide (0 < so_total_num_scheduled_tokens scheduler_output)).

(** The batch queue as a list, and [appendleft] of a bounded deque. *)
Definition queue_of (c : core) : list (F * SchedulerOutput * F) := default [] (batch_queue c).
Definition appendleft (x : F * SchedulerOutput * F) : M core unit :=
  modify (λ c, set_batch_queue (Some (take (Z.to_nat (batch_queue_size ecfg)) (x :: queue_of c))) c).

(** What the first part of [step_with_batch_queue] leaves to do. *)
Inductive batch_plan :=
  | Return (model_executed : bool)
  | Await (model_executed : bool) (deferred : option (SchedulerOutput * F)).

(** A new batch is scheduled if there are requests. *)
Definition schedule_batch (now : Z) : M core batch_plan :=
  let* c := get in
  if has_requests (core_scheduler c) then
    let* scheduler_output := scheduler (schedule_at now) in
    let* exec_future := executor (execute_model exec scheduler_output) in
    let model_executed := negb (is_ec_producer ecfg)
      && bool_decide (0 < so_total_num_scheduled_tokens scheduler_output) in
    if negb (is_pooling_model ecfg) && model_executed && so_pending_structured_output scheduler_output
    then ret (Await model_executed (Some (scheduler_output, exec_future)))
    else
      let* future :=
        if is_pooling_model ecfg || negb model_executed then ret exec_future
        else
          let* grammar_output := scheduler (get_grammar_bitmask scheduler_output) in
          executor (sample_tokens exec grammar_output) in
      appendleft (future, scheduler_output, exec_future) ;;;
      let* c := get in
      if model_executed && bool_decide (len (queue_of c) < batch_queue_size ecfg)
         && match last (queue_of c) with
            | Some (f, _, _) => negb (future_done exec f (model_executor c))
            | None => false
            end
      then ret (Return true) else ret (Await model_executed None)
  else
    match queue_of c with [] => ret (Return false) | _ => ret (Await false None) end.

(** [batch_queue.pop()]: the oldest batch. *)
Definition pop_batch : M core (F * SchedulerOutput * F) :=
  let* c := get in
  let* b := of_option IndexError (last (queue_of c)) in
  modify (set_batch_queue (Some (removelast (queue_of c)))) ;;;
  ret b.

(** The sampling that waited for the tokens of the previous batch. *)
Definition sample_deferred (scheduler_output : SchedulerOutput) (exec_future : F) : M core unit :=
  let* scheduler_output :=
    if use_spec_decode ecfg then
      let* d := executor (take_draft_token_ids exec) in
      let* d := of_option AssertionError d in
      scheduler (update_draft_token_ids_in_output should_advance grammar_ready validate_tokens d scheduler_output)
    else ret scheduler_output in
  let* grammar_output := scheduler (get_grammar_bitmask scheduler_output) in
  let* future := executor (sample_tokens exec grammar_output) in
  appendleft (future, scheduler_output, exec_future).

Definition step_with_batch_queue (now : Z)
    : M core (option (list (Z * EngineCoreOutputs)) * bool) :=
  let* c := get in
  assert_ (bool_decide (is_Some (batch_queue c))) ;;;
  assert_ (bool_decide (len (queue_of c) < batch_queue_size ecfg)) ;;;
  let* plan := schedule_batch now in
  match plan with
  | Return model_executed => ret (None, model_executed)
  | Await model_executed deferred =>
      let* b := pop_batch in
      let '(future, scheduler_output, exec_model_fut) := b in
      let* model_output := executor_result (future_result exec future) in
      let* model_output :=
        match model_output with
        | Some m => ret m
        | None => let* _ := executor_result (future_result exec exec_model_fut) in raise RuntimeError
        end in
      _process_aborts_queue ;;;
      let* engine_core_outputs := scheduler (update_with scheduler_output model_output) in
      (match deferred with
       | Some (o, f) => sample_deferred o f
       | None => ret tt
       end) ;;;
      ret (Some engine_core_outputs, model_executed)
  end.

(** [post_step]: draft tokens of a synchronous scheduler. *)
Definition post_step (model_executed : bool) : M core unit :=
  if negb (sc_async cfg) && use_spec_decode ecfg && model_executed then
    let* d := executor (take_draft_token_ids exec) in
    match d with
    | Some d => scheduler (update_draft_token_ids should_advance validate_tokens d)
    | None => ret tt
    end
  else ret tt.

(** [step_fn] *)
Definition step_fn (now : Z) : M core (option (list (Z * EngineCoreOutputs)) * bool) :=
  let* c := get in
  match batch_queue c with
  | None => let* r := core_step now in ret (Some r.1, r.2)
  | Some _ => step_with_batch_queue now
  end.

(** [_process_engine_step]: a step, whose outputs are put into the output queue,
    and the hook after it. *)
Definition _process_engine_step (now : Z) : M core (list (Z * EngineCoreOutputs) * bool) :=
  let* r := step_fn now in
  let '(outputs, model_executed) := r in
  post_step model_executed ;;;
  ret (default [] outputs, model_executed).
End engine_core.
