(* ===== verification/EngineCoreSpec.v ===== *)
(** The engine core never fails on text generation with a synchronous scheduler
    without connectors: whatever requests arrive and are aborted, every
    step of it returns, with and without a queue of batches, on every executor
    that keeps its promises ([ExecutorLaws]). *)

From S2P Require Import Prelude.
From S2P Require Import OrderedDict.
From S2P Require Import Request.
From S2P Require Import BlockHash.
From S2P Require Import BlockPool.
From S2P Require Import KVCacheManager.
From S2P Require Import KVService.
From S2P Require Import KVServiceImpl.
From S2P Require Import EncoderCache.
From S2P Require Import RequestQueue.
From S2P Require Import RequestQueueSpec.
From S2P Require Import SchedulerState.
From S2P Require Import SchedulerEncoder.
From S2P Require Import Schedule.
From S2P Require Import SchedulerInvariant.
From S2P Require Import ScheduleFrame.
From S2P Require Import ScheduleSpec.
From S2P Require Import SchedulerUpdate.
From S2P Require Import EngineInvariant.
From S2P Require Import EngineCalls.
From S2P Require Import UpdateSpec.
From S2P Require Import EngineOutputs.
From S2P Require Import Engine.
From S2P Require Import EngineCore.

(** ** Results of computations *)

(** If the program returns, its result satisfies [P]. *)
Definition returns {S A} (P : A → Prop) (m : M S A) : Prop := ∀ s a s', m s = (Ok a, s') → P a.

Lemma returns_ret {S A} (P : A → Prop) a : P a → returns P (ret (S := S) a).
Proof. by intros Ha s b s' [= <- _]. Qed.
Lemma returns_bind {S A B} (P : B → Prop) (m : M S A) k : (∀ a, returns P (k a)) → returns P (bind m k).
Proof. intros Hk s b s' (a & s1 & _ & H)%bind_ok_inv. by apply (Hk a s1 b s'). Qed.
Lemma returns_then {S A B} (Q : A → Prop) (P : B → Prop) (m : M S A) k :
  returns Q m → (∀ a, Q a → returns P (k a)) → returns P (bind m k).
Proof. intros Hm Hk s b s' (a & s1 & Ha & H)%bind_ok_inv. by apply (Hk a (Hm _ _ _ Ha) s1 b s'). Qed.
Lemma returns_zoom {S T A} (P : A → Prop) (proj : S → T) put m : returns P m → returns P (zoom proj put m).
Proof.
  intros Hm s a s' Hrun. unfold zoom in Hrun. destruct (m (proj s)) as [r t] eqn:Hr. injection Hrun as -> _.
  by apply (Hm _ _ _ Hr).
Qed.

(** A synchronous scheduler never waits for the tokens of another batch. *)
Lemma schedule_not_pending {W} cfg connector ec_connector set_order now grammar_ready :
  sc_async cfg = false →
  returns (λ o, so_pending_structured_output o = false)
    (schedule (W := W) cfg connector ec_connector set_order now grammar_ready).
Proof.
  intros Hsync s o s' Hrun. unfold schedule in Hrun. destruct (schedule_step _ _ _ _ _ _ _) as [r st] eqn:Hst.
  injection Hrun as -> _. revert Hst. cut (returns (λ o, so_pending_structured_output o = false)
    (schedule_step (W := W) cfg connector ec_connector set_order now grammar_ready)); [intros Hret; apply Hret|].
  unfold schedule_step. do 7 (apply returns_bind; intros ?).
  apply (returns_then (λ o, so_pending_structured_output o = false)).
  { unfold build_output. do 2 (apply returns_bind; intros ?). destruct (if sc_use_v2_model_runner cfg then _ else _).
    do 6 (apply returns_bind; intros ?). by apply returns_ret. }
  intros o1 Ho1. apply (returns_then (λ o, so_pending_structured_output o = false)).
  { apply returns_zoom. unfold add_connector_meta.
    apply (returns_then (λ o, so_pending_structured_output o = false)).
    - destruct connector; [apply returns_bind; intros ?|]; by apply returns_ret.
    - intros o2 Ho2. destruct ec_connector; [apply returns_bind; intros ?|]; by apply returns_ret. }
  intros o2 Ho2. apply returns_zoom. unfold _update_after_schedule. apply returns_bind. intros _. rewrite Hsync.
  by apply returns_ret.
Qed.

(** ** What the executor promises *)

(** The model answers all the scheduled requests. *)
Definition full_answer (o : SchedulerOutput) (model : ModelRunnerOutput) : Prop :=
  kv_connector_output model = None ∧
  ∀ id, id ∈ od_keys (so_num_scheduled_tokens o) → ∃ g, answers model id g.

(** [ex_ready x q]: the batches [q] are in flight, the newest first; the result of
    the oldest answers its requests.  A batch of no tokens needs no sampling;
    without a queue, sampling may be left to a second call. *)
Class ExecutorLaws {E F G} (exec : Executor E F G) := {
  ex_ready : E → list (F * SchedulerOutput) → Prop;
  ex_step x o : ex_ready x [] →
    let '(f, x1) := execute_model exec o x in
    ∃ m x2, future_result exec f x1 = (Ok m, x2) ∧
      match m with
      | Some m => full_answer o m ∧ ex_ready x2 []
      | None => ∀ g, ∃ m x3, sample_tokens_now exec g x2 = (Ok m, x3) ∧ full_answer o m ∧ ex_ready x3 []
      end;
  ex_batch x q o : ex_ready x q →
    let '(f, x1) := execute_model exec o x in
    (so_total_num_scheduled_tokens o ≤ 0 → ex_ready x1 ((f, o) :: q)) ∧
    ∀ g, let '(f2, x2) := sample_tokens exec g x1 in ex_ready x2 ((f2, o) :: q);
  ex_result x q f o : ex_ready x (q ++ [(f, o)]) →
    ∃ m x', future_result exec f x = (Ok (Some m), x') ∧ full_answer o m ∧ ex_ready x' q
}.

(** A model that generates text pools nothing. *)
Definition generates (model : ModelRunnerOutput) : Prop := ∀ i p, pooled model i = Some p → p = false.
Record generation {E F G} (exec : Executor E F G) : Prop := {
  ge_result f x m x' : future_result exec f x = (Ok (Some m), x') → generates m;
  ge_now g x m x' : sample_tokens_now exec g x = (Ok m, x') → generates m
}.

Section engine_core.
Context {W E F G : Type} (cfg : SchedulerConfig) (ecfg : EngineConfig) (exec : Executor E F G).
Context {EL : ExecutorLaws exec} (hbs : Z).
Context {KP : KVPredicates} {KS : KVService hbs (sc_max_model_len cfg) (sc_log_stats cfg)}.
Context (hasher : Request → res (list bytes)) {TH : TokenHasher hbs hasher}.
Context (set_order : gset Z → list Z) (Hset : set_order ∅ = []).
Context (id_order : gset string → list string) (Hids : ∀ X, id_order X ≡ₚ elements X).
Context (should_advance : Request → bool) (grammar_ready : Request → bool).
Context (validate_tokens : Request → list Z → list Z).
Context (publish : list KVCacheEvent → W → W).
Context (pooling_task_supported : PoolingParams → bool).
Context (grammar_bitmask : Scheduler W → list string → list (string * list Z) → G).
Context (Hadv : ∀ rq, should_advance rq = true → use_structured_output rq = true ∧ grammar_ready rq = true).
Context (Hsync : sc_async cfg = false) (Hspec : use_spec_decode ecfg = false)
  (Hec : is_ec_producer ecfg = false) (Hpool : is_pooling_model ecfg = false).
Context (Hlora : sc_max_loras cfg = None) (Hlook : 0 ≤ sc_num_lookahead_tokens cfg)
  (Hmaxtok : 0 ≤ sc_max_num_scheduled_tokens cfg).
Implicit Types (c : EngineCore W E F) (s : Scheduler W).
Abbreviation engine_inv := (engine_inv (W := W) cfg hbs hasher).
Abbreviation batches c := (map (λ b : F * SchedulerOutput * F, (b.1.1, b.1.2)) (queue_of c)).

(** The invariant, with at most [n] batches in flight. *)
Record core_at (n : Z) c : Prop := {
  ci_sched : engine_inv (core_scheduler c);
  ci_outputs : ∀ b, b ∈ queue_of c → step_output b.1.2;
  ci_ready : ex_ready (model_executor c) (batches c);
  ci_size : is_Some (batch_queue c) → len (queue_of c) ≤ n
}.
Definition core_inv : EngineCore W E F → Prop := core_at (batch_queue_size ecfg - 1).

(** The requests and their tokens stay. *)
Record keeps c c' : Prop := {
  kp_aborts : aborts_queue c' = aborts_queue c;
  kp_tokens : output_tokens (core_scheduler c') = output_tokens (core_scheduler c);
  kp_client client : all_of client (core_scheduler c) → all_of client (core_scheduler c')
}.
(** The requests are what the outputs tell their client. *)
Record served c c' (outs : list (Z * EngineCoreOutputs)) : Prop := {
  sv_aborts : aborts_queue c' = [];
  sv_tokens client : all_of client (core_scheduler c) →
    output_tokens (core_scheduler c') = after_outputs (client_outputs client outs) (output_tokens (core_scheduler c)) ∧
    all_of client (core_scheduler c');
  sv_plain client o : generation exec → o ∈ client_outputs client outs → eo_pooling_output o = false
}.

Lemma served_keeps c c1 c2 outs : keeps c c1 → served c1 c2 outs → served c c2 outs.
Proof.
  intros [A1 A2 A3] [B1 B2 B3]. split; [done| |done]. intros client Hc. rewrite <- A2. by apply B2, A3.
Qed.
Lemma served_nothing c c' : aborts_queue c = [] → keeps c c' → served c c' [].
Proof.
  intros Ha [A1 A2 A3]. split; [congruence| |by intros client o _ Ho%not_elem_of_nil].
  intros client Hc. change (client_outputs client []) with (@nil EngineCoreOutput). rewrite after_no_outputs. auto.
Qed.
Lemma scheduled_keeps c s' : sched_requests s' = sched_requests (core_scheduler c) →
  store_same (store (core_scheduler c)) (store s') → keeps c (set_core_scheduler s' c).
Proof. intros H1 H2. destruct (schedule_keeps (core_scheduler c) s' H1 H2). by split. Qed.

Lemma scheduler_run {A} (m : M (Scheduler W) A) c a s' :
  m (core_scheduler c) = (Ok a, s') → scheduler m c = (Ok a, set_core_scheduler s' c).
Proof. intros H. unfold scheduler, zoom. by rewrite H. Qed.
Lemma executor_run {A} (f : E → A * E) c a x' :
  f (model_executor c) = (a, x') → executor f c = (Ok a, set_executor x' c).
Proof. intros H. unfold executor, zoom. by rewrite H. Qed.
Lemma executor_result_run {A} (f : E → res A * E) c a x' :
  f (model_executor c) = (Ok a, x') → executor_result f c = (Ok a, set_executor x' c).
Proof. intros H. unfold executor_result, zoom. by rewrite H. Qed.

(** ** The calls between steps *)

Lemma add_call_ok n c r rq now : core_at n c → new_request cfg hbs hasher rq →
  store (core_scheduler c) !! r = None → sched_requests (core_scheduler c) !! request_id rq = None →
  ∃ c', core_add_request cfg pooling_task_supported r rq now c = (Ok tt, c') ∧ core_at n c' ∧
    batch_queue c' = batch_queue c ∧ aborts_queue c' = aborts_queue c ∧
    output_tokens (core_scheduler c') = <[request_id rq := _output_token_ids rq]> (output_tokens (core_scheduler c)) ∧
    (all_of (client_index rq) (core_scheduler c) → all_of (client_index rq) (core_scheduler c')).
Proof.
  intros [Hs Ho Hr Hq] Hn Hnew Hid. unfold core_add_request. rewrite (tr_pooling _ _ _ (nw_text _ _ _ _ Hn)).
  destruct (add_ok cfg hbs hasher (core_scheduler c) r rq now Hs Hn Hnew Hid) as (s' & Hrun & Hs' & _ & _ & Ereq & Est & rq' & Hr' & Hsame).
  rewrite bind_ret_l. eexists. split; [exact (scheduler_run _ _ _ _ Hrun)|]. split; [by split|]. split; [done|]. split; [done|].
  destruct (add_keeps (core_scheduler c) s' r rq rq' Hnew Ereq Est Hr' Hsame) as [H1 H2].
  - intros id Hidr. destruct (lv_known _ _ _ _ _ _ (ei_live _ _ _ _ Hs) id r Hidr) as (_ & x & Hx & _). by rewrite Hnew in Hx.
  - split; [exact H1|]. by apply H2.
Qed.

Lemma abort_ok n c ids : core_at n c →
  ∃ c', abort_requests cfg None set_order id_order ids c = (Ok tt, c') ∧ core_at n c' ∧
    batch_queue c' = batch_queue c ∧ model_executor c' = model_executor c ∧ aborts_queue c' = aborts_queue c ∧
    (∀ id, output_tokens (core_scheduler c') !! id = if decide (id ∈ ids) then None else output_tokens (core_scheduler c) !! id) ∧
    ∀ client, all_of client (core_scheduler c) → all_of client (core_scheduler c').
Proof.
  intros [Hs Ho Hr Hq]. unfold abort_requests.
  destruct (finish_ok cfg hbs hasher set_order Hset (core_scheduler c) (id_order (list_to_set ids)) FINISHED_ABORTED Hs)
    as (s' & Hrun & Hfin); [|done|].
  { rewrite Hids. apply NoDup_elements. }
  destruct (finish_keeps cfg hbs hasher _ _ _ Hfin) as [Htok Hcl]. destruct Hfin as [Hs' _ _ _].
  eexists. split; [exact (scheduler_run _ _ _ _ Hrun)|]. split; [by split|]. do 3 (split; [done|]). split; [|exact Hcl].
  intros id. etrans; [apply Htok|]. apply decide_ext. by rewrite Hids, elem_of_elements, elem_of_list_to_set.
Qed.

Lemma process_aborts_ok n c : core_at n c →
  ∃ c', _process_aborts_queue cfg None set_order id_order c = (Ok tt, c') ∧ core_at n c' ∧
    batch_queue c' = batch_queue c ∧ model_executor c' = model_executor c.
Proof.
  intros Hc. unfold _process_aborts_queue. unfold bind at 1. cbn [get].
  destruct (aborts_queue c); [by exists c|]. rewrite bind_modify.
  destruct (abort_ok n (set_aborts [] c) (concat (l :: l0))) as (c' & Hrun & Hc' & H1 & H2 & _); [by destruct Hc; split|].
  by exists c'.
Qed.
Lemma process_no_aborts c : aborts_queue c = [] → _process_aborts_queue cfg None set_order id_order c = (Ok tt, c).
Proof. intros Ha. unfold _process_aborts_queue. unfold bind at 1. cbn [get]. by rewrite Ha. Qed.

(** ** A step *)

Lemma schedule_core_ok n now c : core_at n c →
  ∃ o s', scheduler (schedule cfg None None set_order now grammar_ready) c = (Ok o, set_core_scheduler s' c) ∧
    engine_inv s' ∧ step_output o ∧ so_pending_structured_output o = false ∧ keeps c (set_core_scheduler s' c).
Proof.
  intros [Hs _ _ _].
  destruct (schedule_call_ok cfg hbs hasher set_order Hset grammar_ready Hsync Hlora Hlook Hmaxtok now (core_scheduler c) Hs)
    as (o & s' & Hrun & Hs' & Ho & E1 & E2). exists o, s'. split; [by apply scheduler_run|]. split; [done|]. split; [done|].
  split; [by apply (schedule_not_pending _ _ _ _ _ _ Hsync _ _ _ Hrun)|by apply scheduled_keeps].
Qed.

Lemma bitmask_ok o c : ∃ g, scheduler (get_grammar_bitmask grammar_bitmask o) c = (Ok g, c).
Proof.
  assert (∃ g, get_grammar_bitmask grammar_bitmask o (core_scheduler c) = (Ok g, core_scheduler c)) as [g Hg].
  { unfold get_grammar_bitmask, bind, get. destruct (structured_output_request_ids o _); by eexists. }
  exists g. rewrite (scheduler_run _ _ _ _ Hg). by destruct c.
Qed.

(** The results of a batch that is no longer in the queue. *)
Lemma results_ok n c o model : core_at n c → step_output o → full_answer o model →
  ∃ outs c', (∀ A (k : list (Z * EngineCoreOutputs) → M (EngineCore W E F) A),
      (_process_aborts_queue cfg None set_order id_order ;;;
       let* x := scheduler (update_from_output cfg None set_order id_order hasher should_advance grammar_ready publish o model) in
       k x) c = k outs c') ∧
    core_at n c' ∧ batch_queue c' = batch_queue c ∧
    (aborts_queue c = [] → (generation exec → generates model) → served c c' outs).
Proof.
  intros Hc Ho [Hkv Hans]. destruct (process_aborts_ok n c Hc) as (c1 & Hrun1 & Hc1 & E1 & E2).
  destruct (update_ok cfg hbs hasher set_order Hset id_order should_advance grammar_ready publish Hadv Hsync
    (core_scheduler c1) o model (ci_sched _ _ Hc1) Ho Hkv) as (outs & s' & Hrun & Hs' & Hout & Hun & Htold).
  { intros id Hid _. by apply Hans. }
  exists outs. eexists. split.
  { intros A k. by rewrite (bind_ok _ _ _ _ _ Hrun1), (bind_ok _ _ _ _ _ (scheduler_run _ _ _ _ Hrun)). }
  split; [destruct Hc1 as [_ H2 H3 H4]; by split|]. split; [done|]. intros Ha Hgen.
  rewrite (process_no_aborts c Ha) in Hrun1. injection Hrun1 as <-.
  split; [exact Ha| |]; intros client; destruct (Htold client) as (oss & Ht & ->).
  - intros Hall. by apply (update_serves cfg hbs hasher (core_scheduler c) s' model _ client oss (ci_sched _ _ Hc) (st_keys _ Ho) Hout Hun Ht).
  - intros o' Hge. by apply (update_pools (core_scheduler c) s' model _ client oss Ht), Hgen.
Qed.

Lemma core_step_ok now c : core_inv c → batch_queue c = None →
  ∃ r c', core_step cfg exec None None set_order id_order hasher should_advance grammar_ready publish grammar_bitmask now c
      = (Ok r, c') ∧ core_inv c' ∧ batch_queue c' = None ∧ (aborts_queue c = [] → served c c' r.1).
Proof.
  intros Hc Hq. unfold core_step. unfold bind at 1. cbn [get].
  destruct (has_requests (core_scheduler c)); cbn [negb].
  2: { eexists _, c. split; [reflexivity|]. split; [done|]. split; [done|]. intros Ha. by apply served_nothing. }
  destruct (schedule_core_ok _ now c Hc) as (o & s' & Hrun & Hs' & Ho & _ & Hk). rewrite (bind_ok _ _ _ _ _ Hrun).
  set (c1 := set_core_scheduler s' c). assert (Hr : ex_ready (model_executor c1) []).
  { pose proof (ci_ready _ _ Hc) as Hr. unfold queue_of in Hr. by rewrite Hq in Hr. }
  pose proof (ex_step (model_executor c1) o Hr) as Hex. destruct (execute_model exec o (model_executor c1)) as [f x1] eqn:Hx1.
  destruct Hex as (m & x2 & Hres & Hm). rewrite (bind_ok _ _ _ _ _ (executor_run _ _ _ _ Hx1)).
  set (c2 := set_executor x1 c1). destruct (bitmask_ok o c2) as [g Hg]. rewrite (bind_ok _ _ _ _ _ Hg).
  rewrite (bind_ok _ _ _ _ _ (executor_result_run _ c2 m x2 Hres)).
  assert (∃ model x3, (match m with Some m => ret m | None => executor_result (sample_tokens_now exec g) end)
      (set_executor x2 c2) = (Ok model, set_executor x3 c2) ∧ full_answer o model ∧ ex_ready x3 [] ∧
      (generation exec → generates model))
    as (model & x3 & Hmod & Hans & Hr3 & Hgen).
  { destruct m as [m|].
    - destruct Hm. exists m, x2. do 3 (split; [done|]). intros Hge. by apply (ge_result _ Hge f x1 m x2).
    - destruct (Hm g) as (m & x3 & Hnow & ? & ?). exists m, x3. rewrite (executor_result_run _ (set_executor x2 c2) m x3 Hnow).
      do 3 (split; [done|]). intros Hge. by apply (ge_now _ Hge g x2 m x3). }
  rewrite (bind_ok _ _ _ _ _ Hmod).
  assert (Hc3 : core_inv (set_executor x3 c2)).
  { destruct Hc as [H1 H2 H3 H4]. split; try done. unfold queue_of. simpl. by rewrite Hq. }
  destruct (results_ok _ _ o model Hc3 Ho Hans) as (outs & c4 & Hrest & Hc4 & Hq4 & Hsv). rewrite Hrest.
  eexists _, c4. split; [reflexivity|]. split; [done|]. split; [by rewrite Hq4|]. intros Ha.
  apply (served_keeps c (set_executor x3 c2)); [by destruct Hk|]. by apply Hsv.
Qed.

(** *** With a batch queue *)

Lemma core_at_le n n' c : core_at n c → n ≤ n' → core_at n' c.
Proof. intros [H1 H2 H3 H4] Hn. split; try done. intros Hq. specialize (H4 Hq). lia. Qed.

Lemma queue_some c q : batch_queue c = Some q → queue_of c = q.
Proof. intros H. unfold queue_of. by rewrite H. Qed.

(** What scheduling a batch leaves: batches to wait for, and nothing deferred. *)
Lemma schedule_batch_ok now c : core_inv c → is_Some (batch_queue c) →
  ∃ plan c', schedule_batch cfg ecfg exec None None set_order grammar_ready grammar_bitmask now c = (Ok plan, c') ∧
    is_Some (batch_queue c') ∧ keeps c c' ∧
    match plan with
    | Return _ => core_inv c'
    | Await _ d => d = None ∧ queue_of c' ≠ [] ∧ core_at (batch_queue_size ecfg) c'
    end.
Proof.
  intros Hc [q Hq]. unfold schedule_batch. unfold bind at 1. cbn [get].
  destruct (has_requests (core_scheduler c)).
  2: { destruct (queue_of c) eqn:Hqc; eexists _, c; (split; [reflexivity|]); (split; [by eexists|]); (split; [done|]); [done|].
    rewrite Hqc. split; [done|]. split; [done|]. apply (core_at_le _ _ _ Hc). lia. }
  destruct (schedule_core_ok _ now c Hc) as (o & s' & Hrun & Hs' & Ho & Hpend & Hk). rewrite (bind_ok _ _ _ _ _ Hrun).
  set (c1 := set_core_scheduler s' c). pose proof (ci_ready _ _ Hc) as Hr.
  pose proof (ex_batch (model_executor c1) _ o Hr) as Hex. destruct (execute_model exec o (model_executor c1)) as [f x1] eqn:Hx1.
  destruct Hex as [Hzero Hsample]. rewrite (bind_ok _ _ _ _ _ (executor_run _ _ _ _ Hx1)).
  set (c2 := set_executor x1 c1). rewrite Hec, Hpool, Hpend, andb_false_r. cbn [negb orb andb].
  set (exed := bool_decide (0 < so_total_num_scheduled_tokens o)).
  assert (∃ f2 x2, (if negb exed then ret f
    else let* g := scheduler (get_grammar_bitmask grammar_bitmask o) in executor (sample_tokens exec g)) c2
      = (Ok f2, set_executor x2 c2) ∧ ex_ready x2 ((f2, o) :: batches c)) as (f2 & x2 & Hf2 & Hr2).
  { unfold exed. case_bool_decide as Hpos; cbn [negb].
    - destruct (bitmask_ok o c2) as [g Hg]. rewrite (bind_ok _ _ _ _ _ Hg). specialize (Hsample g).
      destruct (sample_tokens exec g x1) as [f2 x2] eqn:Hx2. exists f2, x2. split; [|done].
      by apply (executor_run _ c2).
    - exists f, x1. split; [reflexivity|]. apply Hzero. lia. }
  rewrite (bind_ok _ _ _ _ _ Hf2). set (c3 := set_executor x2 c2). unfold appendleft. rewrite bind_modify.
  assert (Hq3 : queue_of c3 = queue_of c) by done.
  assert (Hsize : len (queue_of c) ≤ batch_queue_size ecfg - 1) by (apply (ci_size _ _ Hc); by eexists).
  assert (Htake : take (Z.to_nat (batch_queue_size ecfg)) ((f2, o, f) :: queue_of c3) = (f2, o, f) :: queue_of c).
  { rewrite Hq3. apply take_ge. simpl. unfold len in Hsize. lia. }
  rewrite Htake. set (c4 := set_batch_queue (Some ((f2, o, f) :: queue_of c)) c3).
  assert (Hc4 : core_at (batch_queue_size ecfg) c4).
  { split; simpl; [done| |done|].
    - intros b [->|Hb]%elem_of_cons; [done|by apply (ci_outputs _ _ Hc)].
    - intros _. change (queue_of c4) with ((f2, o, f) :: queue_of c). rewrite len_cons. lia. }
  assert (Hk4 : keeps c c4) by (by destruct Hk). unfold bind at 1. cbn [get].
  destruct (exed && bool_decide (len (queue_of c4) < batch_queue_size ecfg) && _) eqn:Hcond.
  - eexists _, c4. split; [reflexivity|]. split; [by eexists|]. split; [done|]. apply andb_true_iff in Hcond as [Hcond _].
    apply andb_true_iff in Hcond as [_ Hlt%bool_decide_eq_true]. destruct Hc4 as [H1 H2 H3 H4]. split; try done.
    intros _. lia.
  - eexists _, c4. split; [reflexivity|]. split; [by eexists|]. split; [done|]. split; [done|]. split; [done|exact Hc4].
Qed.

Lemma step_with_queue_ok now c : core_inv c → is_Some (batch_queue c) →
  ∃ r c', step_with_batch_queue cfg ecfg exec None None set_order id_order hasher should_advance grammar_ready
      validate_tokens publish grammar_bitmask now c = (Ok r, c') ∧ core_inv c' ∧ is_Some (batch_queue c') ∧
    (aborts_queue c = [] → served c c' (default [] r.1)).
Proof.
  intros Hc Hq. unfold step_with_batch_queue. unfold bind at 1. cbn [get].
  rewrite bind_assert_true by by apply bool_decide_eq_true_2.
  pose proof (ci_size _ _ Hc Hq) as Hsize. rewrite bind_assert_true by (apply bool_decide_eq_true_2; lia).
  destruct (schedule_batch_ok now c Hc Hq) as (plan & c1 & Hrun & Hq1 & Hk & Hplan). rewrite (bind_ok _ _ _ _ _ Hrun).
  destruct plan as [b|b d].
  { eexists _, c1. split; [reflexivity|]. split; [done|]. split; [done|]. intros Ha. by apply served_nothing. } destruct Hplan as (-> & Hne & Hc1).
  destruct (exists_last Hne) as (q & [[f o] ef] & Hql).
  assert (Hpop : pop_batch c1 = (Ok (f, o, ef), set_batch_queue (Some q) c1)).
  { unfold pop_batch. unfold bind at 1. cbn [get]. rewrite Hql, last_snoc. cbn [of_option]. rewrite bind_ret_l, bind_modify.
    by rewrite removelast_last. }
  rewrite (bind_ok _ _ _ _ _ Hpop). set (c2 := set_batch_queue (Some q) c1).
  pose proof (ci_ready _ _ Hc1) as Hr. rewrite Hql, map_app in Hr. simpl in Hr.
  destruct (ex_result _ _ _ _ Hr) as (m & x' & Hres & Hans & Hr').
  rewrite (bind_ok _ _ _ _ _ (executor_result_run _ c2 _ x' Hres)), bind_ret_l.
  assert (Hc3 : core_inv (set_executor x' c2)).
  { destruct Hc1 as [H1 H2 H3 H4]. split; simpl; try done.
    - intros b0 Hb. apply H2. rewrite Hql. apply elem_of_app. by left.
    - intros _. specialize (H4 Hq1). rewrite Hql, len_app in H4. change (len [(f, o, ef)]) with 1 in H4.
      change (queue_of (set_executor x' c2)) with q. lia. }
  destruct (results_ok _ _ o m Hc3) as (outs & c4 & Hrest & Hc4 & Hq4 & Hsv); [|done|].
  { apply (ci_outputs _ _ Hc1 (f, o, ef)). rewrite Hql. apply elem_of_app. right. by left. }
  rewrite Hrest. rewrite bind_ret_l. eexists _, c4. split; [reflexivity|]. split; [done|]. split; [by rewrite Hq4; eexists|].
  intros Ha. apply (served_keeps c (set_executor x' c2)); [by destruct Hk|]. apply Hsv.
  - etrans; [exact (kp_aborts _ _ Hk)|exact Ha].
  - intros Hge. by apply (ge_result _ Hge f (model_executor c2) m x').
Qed.

Abbreviation step_now := (step_fn cfg ecfg exec None None set_order id_order hasher should_advance
  grammar_ready validate_tokens publish grammar_bitmask).
Abbreviation engine_step := (_process_engine_step cfg ecfg exec None None set_order id_order hasher should_advance
  grammar_ready validate_tokens publish grammar_bitmask).

Lemma step_fn_ok now c : core_inv c →
  ∃ r c', step_now now c = (Ok r, c') ∧ core_inv c' ∧ (aborts_queue c = [] → served c c' (default [] r.1)).
Proof.
  intros Hc. unfold step_fn. unfold bind at 1. cbn [get]. destruct (batch_queue c) as [q|] eqn:Hq.
  - destruct (step_with_queue_ok now c Hc) as (r & c' & Hrun & Hc' & _ & Hsv); [by eexists|]. by exists r, c'.
  - destruct (core_step_ok now c Hc Hq) as (r & c' & Hrun & Hc' & _ & Hsv). rewrite (bind_ok _ _ _ _ _ Hrun). by eexists _, c'.
Qed.
Lemma post_step_ok b (c : EngineCore W E F) : post_step cfg ecfg exec should_advance validate_tokens b c = (Ok tt, c).
Proof. unfold post_step. rewrite Hspec, andb_false_r. by destruct b. Qed.

Lemma engine_step_ok now c : core_inv c → ∃ r c', engine_step now c = (Ok r, c') ∧ core_inv c'.
Proof.
  intros Hc. destruct (step_fn_ok now c Hc) as ([outs b] & c' & Hrun & Hc' & _). unfold _process_engine_step.
  rewrite (bind_ok _ _ _ _ _ Hrun), (bind_ok _ _ _ _ _ (post_step_ok b c')). by eexists _, c'.
Qed.

(** ** The busy loop *)

(** What happens to the engine core: client requests are handled, the input
    thread queues aborts, steps are made. *)
Inductive core_event :=
  | HandleAdd (r : ref) (rq : Request) (now : Z)
  | HandleAbort (ids : list string)
  | QueueAborts (ids : list string)
  | EngineStep (now : Z).

Definition run_event (ev : core_event) : M (EngineCore W E F) unit :=
  match ev with
  | HandleAdd r rq now => core_add_request cfg pooling_task_supported r rq now
  | HandleAbort ids => abort_requests cfg None set_order id_order ids
  | QueueAborts ids => modify (λ c, set_aborts (aborts_queue c ++ [ids]) c)
  | EngineStep now => let* _ := engine_step now in ret tt
  end.

(** New requests are new objects with unused ids; nothing else is asked. *)
Definition event_allowed (ev : core_event) c : Prop :=
  match ev with
  | HandleAdd r rq _ => new_request cfg hbs hasher rq ∧ store (core_scheduler c) !! r = None ∧
      sched_requests (core_scheduler c) !! request_id rq = None
  | _ => True
  end.
Fixpoint events_allowed (evs : list core_event) c : Prop :=
  match evs with
  | [] => True
  | ev :: evs => event_allowed ev c ∧ ∀ c', run_event ev c = (Ok tt, c') → events_allowed evs c'
  end.

Lemma event_ok ev c : core_inv c → event_allowed ev c → ∃ c', run_event ev c = (Ok tt, c') ∧ core_inv c'.
Proof.
  intros Hc Ha. destruct ev as [r rq now|ids|ids|now]; simpl in *.
  - destruct Ha as (Hn & Hr & Hid). destruct (add_call_ok _ c r rq now Hc Hn Hr Hid) as (c' & Hrun & Hc' & _). by exists c'.
  - destruct (abort_ok _ c ids Hc) as (c' & Hrun & Hc' & _). by exists c'.
  - eexists. split; [reflexivity|]. by destruct Hc; split.
  - destruct (engine_step_ok now c Hc) as (r & c' & Hrun & Hc'). rewrite (bind_ok _ _ _ _ _ Hrun). by exists c'.
Qed.

(** The engine core after its construction. *)
Record core_initial c : Prop := {
  cn_sched : initial cfg (core_scheduler c);
  cn_queue : batch_queue c = None ∨ batch_queue c = Some [] ∧ 1 < batch_queue_size ecfg;
  cn_ready : ex_ready (model_executor c) []
}.

Lemma initial_core c : core_initial c → core_inv c.
Proof.
  intros [Hi Hq Hr]. assert (Hqe : queue_of c = []) by (unfold queue_of; by destruct Hq as [->|[-> _]]).
  split; rewrite ?Hqe; try done; [|by intros b Hb%not_elem_of_nil|].
  - apply (eo_inv _ _ _ _ (initial_ok cfg hbs hasher (core_scheduler c) Hi)).
  - intros Hs. destruct Hq as [Hq|[_ Hq]]; [by rewrite Hq in Hs; destruct Hs|]. unfold len. simpl. lia.
Qed.

(** C1. The engine core never fails on text generation.  The scheduler is
    synchronous, without speculative decoding, LoRA or connectors; new requests
    are new objects with new ids, for a text prompt that fits the model together
    with the minimum number of output tokens.  Whatever such requests are added,
    whatever is aborted, through the loop or while the model runs, and however
    many steps the loop makes, with or without a queue of batches for pipeline
    parallelism: if the executor answers the scheduled requests, nothing is
    raised, neither by the assertions of the engine core, the scheduler and the
    KV cache manager nor by a lookup, and the scheduler's invariant holds after
    every event. *)
Theorem engine_core_never_fails c evs :
  core_initial c → events_allowed evs c →
  ∃ c', for_ evs run_event c = (Ok tt, c') ∧ engine_inv (core_scheduler c') ∧
    (is_Some (batch_queue c') → len (queue_of c') < batch_queue_size ecfg).
Proof.
  intros Hi Hev. pose proof (initial_core c Hi) as Hc.
  clear Hi. revert c Hev Hc. induction evs as [|ev evs IH]; intros c Hev Hc; simpl.
  - exists c. split; [done|]. split; [apply Hc|]. intros Hs. pose proof (ci_size _ _ Hc Hs). lia.
  - destruct Hev as [Ha Hrest]. destruct (event_ok ev c Hc Ha) as (c1 & Hrun & Hc1).
    rewrite (bind_ok _ _ _ _ _ Hrun). apply IH; [by apply Hrest|done].
Qed.
End engine_core.

(** ** Witness: a model that always generates token 8 *)

#[local] Existing Instances engine_predicates example_chained.

(** The result for a batch. *)
Definition eights (o : SchedulerOutput) : ModelRunnerOutput :=
  mkModelOutput (map (λ id, (id, 0)) (od_keys (so_num_scheduled_tokens o))) [[8]] None ∅ None.
(** Workers that remember the last batch; a future is a batch and whether it was
    sampled. *)
Definition eight_executor : Executor SchedulerOutput (bool * SchedulerOutput) unit :=
  mkExecutor _ _ _ (λ o _, ((false, o), o)) (λ _ x, ((true, x), x)) (λ _ x, (Ok (eights x), x))
    (λ f x, (Ok (if f.1 || bool_decide (so_total_num_scheduled_tokens f.2 ≤ 0) then Some (eights f.2) else None), x))
    (λ _ _, false) (λ x, (None, x)).

Lemma eights_answer o : full_answer o (eights o).
Proof.
  split; [done|]. intros id Hid. exists [8]. split; [|by intros Hx%not_elem_of_empty].
  exists 0. split; [|split; [reflexivity|by eexists]]. unfold eights. simpl.
  induction (od_keys (so_num_scheduled_tokens o)) as [|k ks IH]; [by apply not_elem_of_nil in Hid|]. simpl.
  case_decide; [done|]. apply IH. by apply elem_of_cons in Hid as [|].
Qed.

Definition eight_ready (q : list ((bool * SchedulerOutput) * SchedulerOutput)) : Prop :=
  Forall (λ b, b.1.2 = b.2 ∧ (b.1.1 = true ∨ so_total_num_scheduled_tokens b.2 ≤ 0)) q.

#[local] Instance eight_laws : ExecutorLaws eight_executor.
Proof.
  refine {| ex_ready x q := eight_ready q |}.
  - intros x o _. simpl. case_bool_decide.
    + eexists _, _. split; [reflexivity|]. split; [apply eights_answer|constructor].
    + eexists _, _. split; [reflexivity|]. intros g. eexists _, _. split; [reflexivity|].
      split; [apply eights_answer|constructor].
  - intros x q o Hq. simpl. split; [intros Ht|intros g]; (constructor; [|exact Hq]); auto.
  - intros x q f o [Hq [[E Hor] _]%Forall_cons]%Forall_app. simpl in *. exists (eights o), x.
    split; [|by split; [apply eights_answer|]]. rewrite E. destruct Hor as [->|Hor]; [done|].
    by rewrite bool_decide_true, orb_true_r by done.
Defined.

Definition example_core : EngineCore unit SchedulerOutput (bool * SchedulerOutput) :=
  mkCore empty_scheduler
    (mkOutput [] (mkCachedRequests [] ∅ [] [] [] [] []) [] 0 [] [] [] ∅ ∅ [] false false None None None)
    (Some []) [].
Definition example_events : list core_event :=
  [HandleAdd 1 (ask "A" 1 2) 0; HandleAdd 2 (ask "B" 2 8) 1; EngineStep 2; EngineStep 3; QueueAborts ["B"; "B"];
   EngineStep 4; EngineStep 5].
Definition pipeline : EngineConfig := mkEngineConfig 2 false false false.
Abbreviation run_core := (run_event small_config pipeline eight_executor example_hasher (λ _, []) elements
  (λ _, false) (λ _, true) (λ _ l, l) (λ _ w, w) (λ _, true) (λ _ _ _, tt)).

Lemma elements_order (X : gset string) : elements X ≡ₚ elements X.
Proof. done. Qed.

Lemma example_allowed : events_allowed small_config pipeline eight_executor 2 example_hasher (λ _, []) elements
  (λ _, false) (λ _, true) (λ _ l, l) (λ _ w, w) (λ _, true) (λ _ _ _, tt) example_events example_core.
Proof.
  split; [split; [apply (ask_new "A" 1 2); lia|split; reflexivity]|]. intros c Hc. vm_compute in Hc. injection Hc as <-.
  split; [split; [apply (ask_new "B" 2 8); lia|split; reflexivity]|]. intros c Hc.
  repeat (split; [exact I|intros ? _]). exact I.
Qed.

Lemma engine_core_never_fails_witness :
  ∃ c, for_ example_events run_core example_core = (Ok tt, c) ∧
    engine_inv small_config 2 example_hasher (core_scheduler c) ∧ sched_requests (core_scheduler c) = ∅ ∧
    aborts_queue c = [].
Proof.
  assert (Hrun : ∃ c, for_ example_events run_core example_core = (Ok tt, c) ∧ sched_requests (core_scheduler c) = ∅ ∧
    aborts_queue c = []) by (eexists; vm_compute; repeat split).
  destruct (engine_core_never_fails small_config pipeline eight_executor 2 (KS := kv_service 2 16 true) example_hasher
    (λ _, []) eq_refl elements elements_order (λ _, false) (λ _, true) (λ _ l, l) (λ _ w, w) (λ _, true) (λ _ _ _, tt)
    ltac:(by intros ? ?) eq_refl eq_refl eq_refl eq_refl eq_refl ltac:(by vm_compute) ltac:(by vm_compute)
    example_core example_events) as (c & Hc & Hinv & _);
    [split; [exact empty_initial|right; split; reflexivity|constructor]|exact example_allowed|].
  destruct Hrun as (c2 & Hc2 & He & Ha). rewrite Hc in Hc2. injection Hc2 as <-.
  exists c. split; [exact Hc|]. split; [exact Hinv|]. split; [exact He|exact Ha].
Defined.
