(* ===== verification/PyFloat.v ===== *)
(** Python numbers that are [int] or [float], as the adaptive replacement policy
    computes with them (vllm/v1/kv_offload/arc_manager.py).

    Floats are IEEE 754 binary64 numbers of the Standard Library's [SpecFloat].
    A comparison of an [int] with a [float] is exact; the quotient of two
    integers is the rounded quotient (below 2 ^ 53, where both are floats). *)

From S2P Require Import Prelude.
From Stdlib Require Import Floats.SpecFloat.

Definition fprec : Z := 53.
Definition femax : Z := 1024.
Abbreviation float := spec_float.

Definition float_of_Z (n : Z) : float := binary_normalize fprec femax n 0 false.
Definition float_add : float → float → float := SFadd fprec femax.
Definition float_sub : float → float → float := SFsub fprec femax.
(** [a / b] for integers *)
Definition int_div (a b : Z) : res float :=
  if decide (b = 0) then Raise ZeroDivisionError else Ok (SFdiv fprec femax (float_of_Z a) (float_of_Z b)).

(** [int(x)]: the integer part. *)
Definition float_trunc (x : float) : res Z :=
  match x with
  | S754_zero _ => Ok 0
  | S754_finite s m e =>
      let a := if decide (0 ≤ e) then Zpos m * 2 ^ e else Zpos m / 2 ^ (- e) in
      Ok (if s then - a else a)
  | S754_infinity _ => Raise OverflowError
  | S754_nan => Raise ValueError
  end.

(** [x < n] and [n < x], exactly. *)
Definition float_lt_int (x : float) (n : Z) : bool :=
  match x with
  | S754_zero _ => 0 <? n
  | S754_finite s m e =>
      let v := if s then Zneg m else Zpos m in
      if decide (0 ≤ e) then v * 2 ^ e <? n else v <? n * 2 ^ (- e)
  | S754_infinity s => s
  | S754_nan => false
  end.
Definition int_lt_float (n : Z) (x : float) : bool :=
  match x with
  | S754_zero _ => n <? 0
  | S754_finite s m e =>
      let v := if s then Zneg m else Zpos m in
      if decide (0 ≤ e) then n <? v * 2 ^ e else n * 2 ^ (- e) <? v
  | S754_infinity s => negb s
  | S754_nan => false
  end.

Inductive number := NInt (n : Z) | NFloat (x : float).

Definition num_lt (a b : number) : bool :=
  match a, b with
  | NInt a, NInt b => a <? b
  | NFloat a, NFloat b => SFltb a b
  | NInt a, NFloat b => int_lt_float a b
  | NFloat a, NInt b => float_lt_int a b
  end.
Definition to_float (a : number) : float := match a with NInt n => float_of_Z n | NFloat x => x end.
Definition num_add (a b : number) : number :=
  match a, b with
  | NInt a, NInt b => NInt (a + b)
  | _, _ => NFloat (float_add (to_float a) (to_float b))
  end.
Definition num_sub (a b : number) : number :=
  match a, b with
  | NInt a, NInt b => NInt (a - b)
  | _, _ => NFloat (float_sub (to_float a) (to_float b))
  end.
(** [max(a, b)] and [min(a, b)]: the first of equal arguments. *)
Definition num_max (a b : number) : number := if num_lt a b then b else a.
Definition num_min (a b : number) : number := if num_lt b a then b else a.
Definition num_int (a : number) : res Z :=
  match a with NInt n => Ok n | NFloat x => float_trunc x end.

Example third : num_int (num_add (NInt 3) (NFloat (SFdiv fprec femax (float_of_Z 5) (float_of_Z 3)))) = Ok 4.
Proof. reflexivity. Qed.
Example capped : num_min (num_add (NFloat (float_of_Z 7)) (NInt 1)) (NInt 8) = NFloat (float_of_Z 8).
Proof. reflexivity. Qed.

(** Rounding of nonnegative floats, as far as the adaptive policy needs it: sums
    and differences are numbers, and a difference does not exceed a bound that
    its minuend keeps. *)

(** ** Shifts *)

(** [r] is [m] shifted right by [n] bits; its flags are set for lost bits only. *)
Definition shifted (m n : Z) (r : shr_record) : Prop :=
  0 ≤ shr_m r ∧ shr_m r = m / 2 ^ n ∧ (shr_r r || shr_s r = true → m mod 2 ^ n ≠ 0).

Lemma pow2_pos n : 0 ≤ n → 0 < 2 ^ n.
Proof. intros. by apply Z.pow_pos_nonneg. Qed.

Lemma div_pow_succ m n : 0 ≤ n → m / 2 ^ (n + 1) = m / 2 ^ n / 2.
Proof. intros Hn. pose proof (pow2_pos n Hn). rewrite Z.pow_add_r by lia. by rewrite Z.div_div by lia. Qed.

Lemma mod_pow_succ m n : 0 ≤ n → m mod 2 ^ (n + 1) = m mod 2 ^ n + 2 ^ n * ((m / 2 ^ n) mod 2).
Proof. intros Hn. pose proof (pow2_pos n Hn). rewrite Z.pow_add_r by lia. apply Z.rem_mul_r; lia. Qed.

Lemma shr_1_shifted m n r : 0 ≤ n → shifted m n r → shifted m (n + 1) (shr_1 r).
Proof.
  intros Hn (H0 & Hm & Hflag). pose proof (pow2_pos n Hn) as Hp. unfold shifted. rewrite div_pow_succ, mod_pow_succ by done.
  pose proof (Z.mod_pos_bound m (2 ^ n) Hp). rewrite <- Hm.
  destruct r as [k a b]. simpl in *. destruct k as [|[p|p|]|p]; simpl; try lia.
  - split; [done|]. split; [done|]. intros Hf. specialize (Hflag Hf). change (0 mod 2) with 0. lia.
  - split; [done|]. split; [exact (Zdiv2_div (Zpos p~1))|]. intros _. replace (Zpos p~1 mod 2) with 1; [lia|].
    rewrite Pos2Z.inj_xI. rewrite Z.add_comm, Z.mul_comm, Z.mod_add by lia. done.
  - split; [done|]. split; [exact (Zdiv2_div (Zpos p~0))|]. intros Hf. specialize (Hflag Hf).
    pose proof (Z.mod_pos_bound (Zpos p~0) 2). nia.
  - split; [done|]. split; [done|]. intros _. replace (1 mod 2) with 1 by done. lia.
Qed.

Lemma iter_shifted p : ∀ m n r, 0 ≤ n → shifted m n r → shifted m (n + Zpos p) (iter_pos shr_1 p r).
Proof.
  induction p as [p IH|p IH|]; intros m n r Hn Hr; simpl.
  - replace (n + Zpos p~1) with (n + 1 + Zpos p + Zpos p) by lia. apply IH, IH, shr_1_shifted; (lia || done).
  - replace (n + Zpos p~0) with (n + Zpos p + Zpos p) by lia. apply IH, IH; (lia || done).
  - by apply shr_1_shifted.
Qed.

Lemma exact_shifted m : 0 ≤ m → shifted m 0 (shr_record_of_loc m loc_Exact).
Proof. intros Hm. unfold shifted. simpl. by rewrite Z.div_1_r. Qed.

(** The result of rounding is the exact quotient or the integer above it. *)
Lemma round_shifted m n r : shifted m n r →
  let k := round_nearest_even (shr_m r) (loc_of_shr_record r) in
  0 ≤ k ∧ (k = m / 2 ^ n ∨ k = m / 2 ^ n + 1 ∧ m mod 2 ^ n ≠ 0).
Proof.
  intros (H0 & Hm & Hflag). rewrite <- Hm. destruct r as [k [] []]; simpl in *.
  - split; [lia|]. right. by split; [|apply Hflag].
  - destruct (Z.even k); [lia|]. split; [lia|]. right. by split; [|apply Hflag].
  - lia.
  - lia.
Qed.

Lemma digits_log2 p : Zpos (digits2_pos p) = Z.log2 (Zpos p) + 1.
Proof.
  induction p as [p IH|p IH|]; [| |done]; simpl digits2_pos; rewrite Pos2Z.inj_succ, IH.
  - rewrite Pos2Z.inj_xI, Z.log2_succ_double by lia. lia.
  - rewrite Pos2Z.inj_xO, Z.log2_double by lia. lia.
Qed.

Lemma iter_xO p n : Zpos (Pos.iter xO p n) = Zpos p * 2 ^ Zpos n.
Proof.
  induction n as [|n IH] using Pos.peano_ind; [simpl; lia|].
  rewrite Pos.iter_succ, Pos2Z.inj_xO, IH, Pos2Z.inj_succ, Z.pow_succ_r by lia. lia.
Qed.

Lemma shl_align_spec p e e' : ∃ q, shl_align p e e' = (q, Z.min e e') ∧ Zpos q = Zpos p * 2 ^ (e - Z.min e e').
Proof.
  unfold shl_align. destruct (e' - e) as [|d|d] eqn:Hd.
  - exists p. replace (Z.min e e') with e by lia. rewrite Z.sub_diag. split; [done|lia].
  - exists p. replace (Z.min e e') with e by lia. rewrite Z.sub_diag. split; [done|lia].
  - eexists. replace (Z.min e e') with e' by lia. split; [reflexivity|]. rewrite iter_xO. do 2 f_equal. lia.
Qed.

(** ** Bounds *)

(** [m * 2 ^ e <= cap] *)
Definition le_cap (cap m e : Z) : Prop := ∀ K, 0 ≤ K → 0 ≤ e + K → m * 2 ^ (e + K) ≤ cap * 2 ^ K.

Lemma le_cap_intro cap m e K : 0 ≤ K → 0 ≤ e + K → m * 2 ^ (e + K) ≤ cap * 2 ^ K → le_cap cap m e.
Proof.
  intros HK HeK Hle K' HK' HeK'. pose proof (pow2_pos K HK) as Hp.
  apply (Z.mul_le_mono_pos_r _ _ (2 ^ K)); [done|]. replace (m * 2 ^ (e + K') * 2 ^ K) with (m * 2 ^ (e + K) * 2 ^ K').
  - replace (cap * 2 ^ K' * 2 ^ K) with (cap * 2 ^ K * 2 ^ K') by ring.
    apply Z.mul_le_mono_nonneg_r; [|done]. pose proof (pow2_pos K' HK'). lia.
  - rewrite <- !Z.mul_assoc, <- !Z.pow_add_r by lia. do 2 f_equal. lia.
Qed.

Lemma le_cap_mono cap m m' e : m ≤ m' → le_cap cap m' e → le_cap cap m e.
Proof.
  intros Hm Hle K HK HeK. specialize (Hle K HK HeK). pose proof (pow2_pos (e + K) HeK). nia.
Qed.

Lemma le_cap_shift cap m e k : 0 ≤ k → le_cap cap m e ↔ le_cap cap (m * 2 ^ k) (e - k).
Proof.
  intros Hk. set (K := Z.abs e + k). assert (Heq : m * 2 ^ k * 2 ^ (e - k + K) = m * 2 ^ (e + K)).
  { rewrite <- Z.mul_assoc, <- Z.pow_add_r by lia. do 2 f_equal. lia. }
  split; intros Hle.
  - apply (le_cap_intro cap _ _ K); [lia|lia|]. rewrite Heq. apply Hle; lia.
  - apply (le_cap_intro cap _ _ K); [lia|lia|]. rewrite <- Heq. apply Hle; lia.
Qed.

Lemma le_cap_lt cap m e : int_lt_float cap (S754_finite false m e) = false ↔ le_cap cap (Zpos m) e.
Proof.
  simpl. case_decide as He; rewrite Z.ltb_ge; split; intros Hle.
  - apply (le_cap_intro cap _ _ 0); rewrite ?Z.add_0_r; lia.
  - specialize (Hle 0). rewrite Z.add_0_r in Hle. lia.
  - apply (le_cap_intro cap _ _ (- e)); [lia|lia|]. rewrite Z.add_opp_diag_r. lia.
  - specialize (Hle (- e)). rewrite Z.add_opp_diag_r in Hle. lia.
Qed.

Abbreviation fexp64 := (fexp fprec femax).

(** A number below 2 ^ 53 has no bits beyond the binary point. *)
Lemma le_cap_fexp cap p e : cap < 2 ^ 53 → le_cap cap (Zpos p) e → fexp64 (Zpos (digits2_pos p) + e) ≤ 0.
Proof.
  intros Hcap Hle. unfold fexp, emin, fprec, femax. rewrite digits_log2. apply Z.max_lub; [|lia].
  destruct (Z.le_gt_cases (Z.log2 (Zpos p) + e) 52) as [|Hgt]; [lia|]. exfalso.
  pose proof (Z.log2_spec (Zpos p) ltac:(lia)) as [Hlog _]. set (K := Z.abs e).
  specialize (Hle K ltac:(lia) ltac:(lia)). pose proof (pow2_pos K ltac:(lia)) as HpK. pose proof (Z.log2_nonneg (Zpos p)).
  assert (H1 : 2 ^ 53 * 2 ^ K ≤ 2 ^ Z.log2 (Zpos p) * 2 ^ (e + K)).
  { rewrite <- !Z.pow_add_r by lia. apply Z.pow_le_mono_r; lia. }
  pose proof (pow2_pos (e + K) ltac:(lia)). nia.
Qed.

Lemma digits_shift p q k : 0 ≤ k → Zpos q = Zpos p * 2 ^ k → Zpos (digits2_pos q) = Zpos (digits2_pos p) + k.
Proof. intros Hk Hq. rewrite !digits_log2, Hq, Z.log2_mul_pow2 by lia. lia. Qed.

Definition within (cap : Z) (x : float) : Prop :=
  x = S754_zero false ∨ ∃ k e, x = S754_finite false k e ∧ le_cap cap (Zpos k) e.

(** The first rounding to the exponent [F] and the second one, which only shifts. *)
Lemma final_within cap k F : 0 ≤ k → F ≤ 0 → cap < 2 ^ 53 → le_cap cap k F →
  within cap (let '(mrs, e) := shr_fexp fprec femax k F loc_Exact in
    match shr_m mrs with
    | Z0 => S754_zero false
    | Zpos m => if e <=? femax - fprec then S754_finite false m e else S754_infinity false
    | _ => S754_nan
    end).
Proof.
  intros Hk HF Hcap Hle. unfold shr_fexp, shr. destruct k as [|p|]; [|clear Hk|lia].
  { destruct (fexp64 (Zdigits2 0 + F) - F) as [|n|n]; [by left| |by left].
    destruct (iter_shifted n 0 0 _ ltac:(lia) (exact_shifted 0 ltac:(lia))) as (_ & -> & _).
    rewrite Zdiv_0_l. by left. }
  pose proof (le_cap_fexp cap p F Hcap Hle) as Hexp. change (Zdigits2 (Zpos p)) with (Zpos (digits2_pos p)).
  set (n := fexp64 (Zpos (digits2_pos p) + F) - F) in *.
  assert (Hshort : within cap (if F <=? femax - fprec then S754_finite false p F else S754_infinity false)).
  { destruct (F <=? femax - fprec) eqn:Hf; [right; by exists p, F|]. apply Z.leb_gt in Hf. unfold femax, fprec in Hf. lia. }
  destruct n as [|n'|n'] eqn:Hn; [done| |done].
  destruct (iter_shifted n' (Zpos p) 0 _ ltac:(lia) (exact_shifted (Zpos p) ltac:(lia))) as (H0 & Hm & _).
  rewrite Z.add_0_l in Hm. destruct (shr_m _) as [|k|k]; [by left| |lia].
  destruct (F + Zpos n' <=? femax - fprec) eqn:Hf; [|apply Z.leb_gt in Hf; unfold femax, fprec in Hf; lia].
  right. exists k, (F + Zpos n'). split; [done|]. apply (le_cap_shift _ _ _ (Zpos n')); [lia|].
  replace (F + Zpos n' - Zpos n') with F by lia. eapply le_cap_mono; [|exact Hle].
  rewrite Hm, Z.mul_comm. apply Z.mul_div_le. by apply pow2_pos.
Qed.

(** Rounding keeps a bound that is an integer below 2 ^ 53. *)
Lemma round_within cap p z : 0 ≤ cap < 2 ^ 53 → le_cap cap (Zpos p) z →
  within cap (binary_round fprec femax false p z).
Proof.
  intros Hcap Hle. unfold binary_round. pose proof (le_cap_fexp cap p z (proj2 Hcap) Hle) as HF.
  set (F := fexp64 (Zpos (digits2_pos p) + z)) in *. destruct (shl_align_spec p z F) as (q & -> & Hq).
  set (ez := Z.min z F) in *. assert (Hlq : le_cap cap (Zpos q) ez).
  { rewrite Hq. replace ez with (z - (z - ez)) at 2 by lia. apply le_cap_shift; [lia|done]. }
  unfold binary_round_aux, shr_fexp. change (Zdigits2 (Zpos q)) with (Zpos (digits2_pos q)).
  rewrite (digits_shift p q (z - ez)) by (lia || done). replace (Zpos (digits2_pos p) + (z - ez) + ez) with (Zpos (digits2_pos p) + z) by lia.
  fold F. fold (shr_fexp fprec femax). set (n := F - ez).
  assert (Hshr : ∃ r, shr (shr_record_of_loc (Zpos q) loc_Exact) ez n = (r, F) ∧ shifted (Zpos q) n r).
  { unfold shr. destruct n as [|n'|n'] eqn:Hn; [| |lia].
    - eexists. split; [f_equal; lia|]. by apply exact_shifted.
    - eexists. split; [f_equal; lia|]. apply (iter_shifted n' (Zpos q) 0); [lia|]. by apply exact_shifted. }
  destruct Hshr as (r & -> & Hr). destruct (round_shifted _ _ _ Hr) as [Hk0 Hk]. cbv zeta in Hk0, Hk.
  apply final_within; [done|done|lia|].
  assert (HC : Zpos q ≤ cap * 2 ^ (- F) * 2 ^ n).
  { specialize (Hlq (- ez) ltac:(lia)). rewrite Z.add_opp_diag_r, Z.mul_1_r in Hlq. rewrite <- Z.mul_assoc, <- Z.pow_add_r by lia.
    replace (- F + n) with (- ez) by lia. apply Hlq. lia. }
  apply (le_cap_intro _ _ _ (- F)); [lia|lia|]. rewrite Z.add_opp_diag_r, Z.mul_1_r.
  pose proof (pow2_pos n ltac:(lia)) as Hp. pose proof (Z.div_mod (Zpos q) (2 ^ n) ltac:(lia)) as Hdm.
  pose proof (Z.mod_pos_bound (Zpos q) (2 ^ n) Hp). nia.
Qed.

(** ** Numbers in a range *)

(** Zero or of a sign, and not NaN. *)
Definition signed (neg : bool) (x : float) : Prop :=
  match x with S754_zero _ => True | S754_infinity s | S754_finite s _ _ => s = neg | S754_nan => False end.
Abbreviation nonneg := (signed false).

Lemma round_aux_signed neg m e l : 0 ≤ m → signed neg (binary_round_aux fprec femax neg m e l).
Proof.
  intros Hm. unfold binary_round_aux. assert (Hshr : ∀ m e l, 0 ≤ m → 0 ≤ shr_m (shr_fexp fprec femax m e l).1).
  { clear. intros m e l Hm. unfold shr_fexp, shr. set (n := _ - e). assert (H0 : 0 ≤ shr_m (shr_record_of_loc m l)) by by destruct l as [|[]].
    destruct n as [|n|n]; [done| |done]. revert H0. generalize (shr_record_of_loc m l). clear m l Hm. simpl.
    assert (Hone : ∀ r, 0 ≤ shr_m r → 0 ≤ shr_m (shr_1 r)) by by intros [[|[]|[]] ? ?].
    induction n as [n IH|n IH|]; intros r Hr; simpl; auto. }
  pose proof (Hshr m e l Hm) as H1. destruct (shr_fexp fprec femax m e l) as [r e1]. simpl in H1.
  assert (H2 : 0 ≤ round_nearest_even (shr_m r) (loc_of_shr_record r)).
  { destruct r as [k [] []]; simpl in *; try lia. destruct (Z.even k); lia. }
  pose proof (Hshr _ e1 loc_Exact H2) as H3. destruct (shr_fexp _ _ _ e1 _) as [r' e2]. simpl in H3.
  destruct (shr_m r'); [done| |lia]. by destruct (e2 <=? _).
Qed.
Lemma round_signed neg p e : signed neg (binary_round fprec femax neg p e).
Proof.
  unfold binary_round. destruct (shl_align_spec p e (fexp64 (Zpos (digits2_pos p) + e))) as (q & -> & _).
  by apply round_aux_signed.
Qed.
Lemma normalize_nonneg m e : 0 ≤ m → nonneg (binary_normalize fprec femax m e false).
Proof.
  intros Hm. destruct m as [|p|]; [done| |lia]. apply round_signed.
Qed.

(** A number from 0 to [cap]. *)
Definition ranged (cap : Z) (x : number) : Prop :=
  match x with
  | NInt n => 0 ≤ n ≤ cap
  | NFloat (S754_zero _) => True
  | NFloat (S754_finite false m e) => le_cap cap (Zpos m) e
  | _ => False
  end.
Definition positive_delta (d : number) : Prop :=
  match d with NInt n => 0 ≤ n | NFloat x => nonneg x end.
Lemma positive_float d : positive_delta d → nonneg (to_float d).
Proof. destruct d as [n|x]; [apply normalize_nonneg|done]. Qed.

Lemma within_ranged cap x : within cap x → ranged cap (NFloat x).
Proof. by intros [->|(k & e & -> & ?)]. Qed.

Lemma float_of_Z_within cap n : 0 ≤ n ≤ cap → cap < 2 ^ 53 → within cap (float_of_Z n).
Proof.
  intros Hn Hcap. unfold float_of_Z, binary_normalize. destruct n as [|p|]; [by left| |lia].
  apply round_within; [lia|]. apply (le_cap_intro _ _ _ 0); lia.
Qed.

Lemma ranged_float cap x : ranged cap x → cap < 2 ^ 53 → ranged cap (NFloat (to_float x)).
Proof. destruct x as [n|x]; [|done]. intros Hn Hcap. by apply within_ranged, float_of_Z_within. Qed.

(** [int(x)] does not fail. *)
Lemma ranged_int cap x : ranged cap x → ∃ n, num_int x = Ok n.
Proof. destruct x as [n|[s|[]| |[] m e]]; intros Hx; try done; by eexists. Qed.

(** [min(x + d, cap)] *)
Lemma ranged_grow cap x d : 0 ≤ cap < 2 ^ 53 → ranged cap x → positive_delta d →
  ranged cap (num_min (num_add x d) (NInt cap)).
Proof.
  intros Hcap Hx Hd. assert (Hadd : match num_add x d with NInt n => 0 ≤ n | NFloat y => nonneg y end).
  { assert (Hsum : nonneg (float_add (to_float x) (to_float d))).
    { apply ranged_float in Hx; [|lia]. apply positive_float in Hd.
      destruct (to_float x) as [[]|[]| |[] mx ex], (to_float d) as [[]|[]| |[] md ed]; try done.
      apply normalize_nonneg. simpl. lia. }
    destruct x as [n|x], d as [k|y]; try done. simpl in *. lia. }
  unfold num_min. destruct (num_lt (NInt cap) (num_add x d)) eqn:Hlt; [simpl; lia|].
  destruct (num_add x d) as [n|[s|[]| |[] m e]]; try done.
  - simpl in *. apply Z.ltb_ge in Hlt. lia.
  - by apply le_cap_lt.
Qed.

(** [max(y, 0)] for a number that is at most [cap] or negative. *)
Definition below (cap : Z) (y : float) : Prop :=
  match y with
  | S754_zero _ | S754_infinity true | S754_finite true _ _ => True
  | S754_finite false m e => le_cap cap (Zpos m) e
  | _ => False
  end.
Lemma below_max cap y : 0 ≤ cap → below cap y → ranged cap (num_max (NFloat y) (NInt 0)).
Proof.
  intros Hcap Hy. unfold num_max. destruct y as [s|[]| |[] m e]; try done; simpl; try lia.
  - case_decide as He; [pose proof (pow2_pos e He)|pose proof (pow2_pos (- e) ltac:(lia))].
    + replace (Zneg m * 2 ^ e <? 0) with true by (symmetry; apply Z.ltb_lt; lia). simpl; lia.
    + replace (Zneg m <? 0 * 2 ^ (- e)) with true by (symmetry; apply Z.ltb_lt; lia). simpl; lia.
  - case_decide as He; [pose proof (pow2_pos e He)|pose proof (pow2_pos (- e) ltac:(lia))].
    + by replace (Zpos m * 2 ^ e <? 0) with false by (symmetry; apply Z.ltb_ge; lia).
    + by replace (Zpos m <? 0 * 2 ^ (- e)) with false by (symmetry; apply Z.ltb_ge; lia).
Qed.
Lemma signed_below cap y : signed true y → below cap y.
Proof. by destruct y as [|[]| |[]]. Qed.
Lemma within_below cap y : within cap y → below cap y.
Proof. by intros [->|(k & e & -> & ?)]. Qed.

(** The difference of two positive numbers. *)
Lemma sub_below cap mx ex md ed : 0 ≤ cap < 2 ^ 53 → le_cap cap (Zpos mx) ex →
  below cap (float_sub (S754_finite false mx ex) (S754_finite false md ed)).
Proof.
  intros Hcap Hx. unfold float_sub, SFsub. set (ez := Z.min ex ed).
  destruct (shl_align_spec mx ex ez) as (qx & -> & Hqx). destruct (shl_align_spec md ed ez) as (qd & -> & Hqd).
  simpl cond_Zopp. cbn [fst]. replace (Z.min ex ez) with ez in Hqx by lia. unfold binary_normalize.
  destruct (Zpos qx - Zpos qd) as [|p|p] eqn:Hp; [done| |apply signed_below, round_signed].
  apply within_below, round_within; [done|]. eapply (le_cap_mono _ _ (Zpos qx)); [lia|].
  rewrite Hqx. replace ez with (ex - (ex - ez)) at 2 by lia. apply le_cap_shift; [lia|done].
Qed.

(** [max(x - d, 0)] *)
Lemma ranged_shrink cap x d : 0 ≤ cap < 2 ^ 53 → ranged cap x → positive_delta d →
  ranged cap (num_max (num_sub x d) (NInt 0)).
Proof.
  intros Hcap Hx Hd. assert (Hfloat : ranged cap (num_max (NFloat (float_sub (to_float x) (to_float d))) (NInt 0))).
  { apply ranged_float in Hx; [|lia]. apply positive_float in Hd.
    apply below_max; [lia|]. destruct (to_float x) as [[]|[]| |[] mx ex], (to_float d) as [[]|[]| |[] md ed]; try done.
    by apply sub_below. }
  destruct x as [n|x], d as [k|y]; try done. unfold num_max. simpl in *.
  destruct (n - k <? 0) eqn:Hlt; [simpl; lia|]. apply Z.ltb_ge in Hlt. simpl. lia.
Qed.

(** ** Quotients *)

Lemma float_of_pos p : Zpos p < 2 ^ 53 → ∃ q e, float_of_Z (Zpos p) = S754_finite false q e.
Proof.
  intros Hp. unfold float_of_Z, binary_normalize, binary_round.
  assert (HF : fexp64 (Zpos (digits2_pos p) + 0) ≤ 0).
  { apply (le_cap_fexp (Zpos p)); [done|]. apply (le_cap_intro _ _ _ 0); lia. }
  set (F := fexp64 _) in *. destruct (shl_align_spec p 0 F) as (q & -> & Hq). replace (Z.min 0 F) with F in * by lia.
  assert (Hn : fexp64 (Zdigits2 (Zpos q) + F) - F = 0).
  { change (Zdigits2 (Zpos q)) with (Zpos (digits2_pos q)). rewrite (digits_shift p q (0 - F)) by (lia || done).
    replace (Zpos (digits2_pos p) + (0 - F) + F) with (Zpos (digits2_pos p) + 0) by lia. fold F. lia. }
  unfold binary_round_aux, shr_fexp. rewrite Hn. cbn [shr shr_record_of_loc shr_m loc_of_shr_record round_nearest_even].
  rewrite Hn. cbn [shr shr_record_of_loc shr_m]. exists q, F.
  replace (F <=? femax - fprec) with true; [done|]. symmetry. apply Z.leb_le. unfold femax, fprec. lia.
Qed.

Lemma int_div_nonneg a b : 0 ≤ a < 2 ^ 53 → 0 < b < 2 ^ 53 → ∃ q, int_div a b = Ok q ∧ nonneg q.
Proof.
  intros Ha Hb. unfold int_div. rewrite decide_False by lia. eexists. split; [reflexivity|].
  destruct b as [|b|b]; [lia| |lia]. destruct (float_of_pos b) as (mb & eb & ->); [lia|].
  destruct a as [|a|a]; [done| |lia]. destruct (float_of_pos a) as (ma & ea & ->); [lia|].
  simpl. destruct (SFdiv_core_binary fprec femax (Zpos ma) ea (Zpos mb) eb) as [[q e] l] eqn:Hcore.
  apply round_aux_signed. unfold SFdiv_core_binary in Hcore. cbv zeta in Hcore.
  match type of Hcore with context [Z.div_eucl ?x _] => remember x as m' eqn:Hm' end.
  assert (Hm : 0 ≤ m').
  { rewrite Hm'. destruct (_ - _ - _); [lia| |lia]. by apply Z.shiftl_nonneg. }
  clear Hm'. pose proof (Z_div_mod m' (Zpos mb) ltac:(lia)) as Hd. destruct (Z.div_eucl m' (Zpos mb)) as [q' r].
  injection Hcore as <- _ _. nia.
Qed.
