(* ===== verification/Offload.v ===== *)
(** Offloading of KV blocks (vllm/v1/kv_offload): the interface of backends
    ([Backend], backend.py), the CPU backend (backends/cpu.py), the state that
    the policies share and the LRU policy (lru_manager.py).

    A policy maps block hashes to the status objects of offloaded blocks.  Each
    object belongs to one entry only, so that entries hold the values. *)

From S2P Require Import Prelude.
From S2P Require Import OrderedDict.

(** ** Backends *)

(** [ref_cnt] is a [ctypes.c_int32]: -1 for a block that is not ready to be read,
    else the number of loads that use it. *)
Record BlockStatus (A : Type) := mkStatus {
  ref_cnt : Z;
  address : A
}.
Arguments mkStatus {A}.
Arguments ref_cnt {A} _.
Arguments address {A} _.

Definition is_ready {A} (b : BlockStatus A) : bool := 0 <=? ref_cnt b.
Definition set_ref_cnt {A} (v : Z) (b : BlockStatus A) : BlockStatus A := mkStatus (int32 v) (address b).
Definition BlockStatus_new {A} (a : A) : BlockStatus A := mkStatus (-1) a.

(** [B] is the state of the backend and [A] the addresses of blocks; a load-store
    specification lists addresses. *)
Class Backend (B A : Type) := {
  backend_block_size : B → Z;
  backend_medium : B → string;
  get_num_free_blocks : B → Z;
  allocate_blocks : list bytes → M B (list (BlockStatus A));
  backend_free : BlockStatus A → M B unit
}.

Definition get_load_store_spec {A} (block_hashes : list bytes) (blocks : list (BlockStatus A)) : list A :=
  map address blocks.

(** *** The CPU backend *)

Record CPUBackend := mkCPU {
  cpu_block_size : Z;
  num_blocks : Z;
  num_allocated_blocks : Z;
  allocated_blocks_free_list : list Z
}.
Definition CPUBackend_init (block_size num_blocks : Z) : CPUBackend := mkCPU block_size num_blocks 0 [].

Definition cpu_get_num_free_blocks (b : CPUBackend) : Z :=
  len (allocated_blocks_free_list b) + num_blocks b - num_allocated_blocks b.

(** [n] times the next fresh block. *)
Fixpoint allocate_fresh (n : nat) : M CPUBackend (list (BlockStatus Z)) :=
  match n with
  | O => ret []
  | S n =>
      let* b := get in
      modify (λ b, mkCPU (cpu_block_size b) (num_blocks b) (num_allocated_blocks b + 1)
                     (allocated_blocks_free_list b)) ;;;
      let* rest := allocate_fresh n in
      ret (BlockStatus_new (num_allocated_blocks b) :: rest)
  end.
(** [n] times [allocated_blocks_free_list.pop()]. *)
Fixpoint allocate_reused (n : nat) : M CPUBackend (list (BlockStatus Z)) :=
  match n with
  | O => ret []
  | S n =>
      let* b := get in
      let* block_id := of_option IndexError (last (allocated_blocks_free_list b)) in
      modify (λ b, mkCPU (cpu_block_size b) (num_blocks b) (num_allocated_blocks b)
                     (removelast (allocated_blocks_free_list b))) ;;;
      let* rest := allocate_reused n in
      ret (BlockStatus_new block_id :: rest)
  end.
Definition cpu_allocate_blocks (block_hashes : list bytes) : M CPUBackend (list (BlockStatus Z)) :=
  let* b := get in
  let num_fresh_blocks := Z.min (len block_hashes) (num_blocks b - num_allocated_blocks b) in
  let num_reused_blocks := len block_hashes - num_fresh_blocks in
  assert_ (bool_decide (num_reused_blocks ≤ len (allocated_blocks_free_list b))) ;;;
  let* fresh := allocate_fresh (Z.to_nat num_fresh_blocks) in
  let* reused := allocate_reused (Z.to_nat num_reused_blocks) in
  ret (fresh ++ reused).
Definition cpu_free (block : BlockStatus Z) : M CPUBackend unit :=
  modify (λ b, mkCPU (cpu_block_size b) (num_blocks b) (num_allocated_blocks b)
                 (allocated_blocks_free_list b ++ [address block])).

#[export] Instance cpu_backend : Backend CPUBackend Z := {
  backend_block_size := cpu_block_size;
  backend_medium _ := "CPU";
  get_num_free_blocks := cpu_get_num_free_blocks;
  allocate_blocks := cpu_allocate_blocks;
  backend_free := cpu_free
}.

(** ** Events and results *)

Record OffloadingEvent := mkOffloadingEvent {
  oe_block_hashes : list bytes;
  oe_block_size : Z;
  oe_medium : string;
  oe_removed : bool
}.
Record PrepareStoreOutput (A : Type) := mkPrepared {
  block_hashes_to_store : list bytes;
  store_spec : list A;
  block_hashes_evicted : list bytes
}.
Arguments mkPrepared {A}.
Arguments block_hashes_to_store {A} _.
Arguments store_spec {A} _.
Arguments block_hashes_evicted {A} _.

(** ** Managers *)

(** [OffloadingManager] (abstract.py): [S] is the state of the policy. *)
Class OffloadingManager (S A : Type) := {
  lookup : list bytes → S → Z;
  prepare_load : list bytes → M S (list A);
  touch : list bytes → M S unit;
  complete_load : list bytes → M S unit;
  prepare_store : list bytes → M S (option (PrepareStoreOutput A));
  complete_store : list bytes → bool → M S unit;
  take_events : M S (list OffloadingEvent)
}.

(** ** The LRU policy *)

Record LRUOffloadingManager (B A : Type) := mkLRU {
  lru_backend : B;
  lru_blocks : list (bytes * BlockStatus A);
  lru_events : option (list OffloadingEvent)
}.
Arguments mkLRU {B A}.
Arguments lru_backend {B A} _.
Arguments lru_blocks {B A} _.
Arguments lru_events {B A} _.

Section lru.
Context {B A : Type} `{Backend B A}.
Abbreviation lru := (LRUOffloadingManager B A).
Abbreviation statuses := (list (bytes * BlockStatus A)).

Definition LRU_init (backend : B) (enable_events : bool) : lru :=
  mkLRU backend [] (if enable_events then Some [] else None).

Definition set_lru_backend (v : B) (m : lru) : lru := mkLRU v (lru_blocks m) (lru_events m).
Definition set_lru_blocks (v : statuses) (m : lru) : lru := mkLRU (lru_backend m) v (lru_events m).
Definition set_lru_events (v : option (list OffloadingEvent)) (m : lru) : lru :=
  mkLRU (lru_backend m) (lru_blocks m) v.
Definition lru_on_backend {X} (op : M B X) : M lru X := zoom lru_backend set_lru_backend op.

(** Hashes of ready blocks, up to the first other one. *)
Fixpoint count_ready (get_block : bytes → option (BlockStatus A)) (block_hashes : list bytes) : Z :=
  match block_hashes with
  | [] => 0
  | h :: hs =>
      match get_block h with
      | Some b => if is_ready b then 1 + count_ready get_block hs else 0
      | None => 0
      end
  end.
Definition lru_lookup (block_hashes : list bytes) (m : lru) : Z :=
  count_ready (λ h, od_get h (lru_blocks m)) block_hashes.

(** [self.blocks\[block_hash\]], and an update of the object. *)
Definition lru_block (h : bytes) : M lru (BlockStatus A) :=
  let* m := get in of_option KeyError (od_get h (lru_blocks m)).
Definition lru_set_block (h : bytes) (b : BlockStatus A) : M lru unit :=
  modify (λ m, set_lru_blocks (od_set h b (lru_blocks m)) m).

Definition lru_prepare_load (block_hashes : list bytes) : M lru (list A) :=
  let* blocks := mapM (λ h,
    let* block := lru_block h in
    assert_ (is_ready block) ;;;
    lru_set_block h (set_ref_cnt (ref_cnt block + 1) block) ;;;
    ret block) block_hashes in
  ret (get_load_store_spec block_hashes blocks).

Definition lru_touch (block_hashes : list bytes) : M lru unit :=
  for_ (rev block_hashes) (λ h,
    let* m := get in
    match od_get h (lru_blocks m) with
    | None => ret tt
    | Some _ =>
        let* d := of_option KeyError (od_move_to_end h (lru_blocks m)) in
        modify (set_lru_blocks d)
    end).

Definition lru_complete_load (block_hashes : list bytes) : M lru unit :=
  for_ block_hashes (λ h,
    let* block := lru_block h in
    assert_ (bool_decide (0 < ref_cnt block)) ;;;
    lru_set_block h (set_ref_cnt (ref_cnt block - 1) block)).

(** The loop that looks for [n] blocks to evict, the oldest first; [None] if it
    ends without finding them. *)
Fixpoint find_evictable (n : Z) (blocks : statuses) : option (list bytes) :=
  match blocks with
  | [] => None
  | (h, b) :: blocks =>
      if decide (ref_cnt b = 0) then
        if decide (n - 1 = 0) then Some [h] else (cons h) <$> find_evictable (n - 1) blocks
      else find_evictable n blocks
  end.

Definition removed_event (hs : list bytes) (removed : bool) (b : B) : OffloadingEvent :=
  mkOffloadingEvent hs (backend_block_size b) (backend_medium b) removed.
(** [if hs and self.events is not None: self.events.append(...)] *)
Definition lru_record (hs : list bytes) (removed : bool) : M lru unit :=
  match hs with
  | [] => ret tt
  | _ => modify (λ m, set_lru_events
           ((λ evs, evs ++ [removed_event hs removed (lru_backend m)]) <$> lru_events m) m)
  end.

Definition lru_prepare_store (hs : list bytes) : M lru (option (PrepareStoreOutput A)) :=
  let* m := get in
  let to_store := filter (λ h, h ∉ od_keys (lru_blocks m)) hs in
  let num_blocks_to_evict := len to_store - get_num_free_blocks (lru_backend m) in
  let found := if decide (0 < num_blocks_to_evict)
               then find_evictable num_blocks_to_evict (lru_blocks m) else Some [] in
  match found with
  | None => ret None
  | Some to_evict =>
      for_ to_evict (λ h,
        let* block := lru_block h in
        modify (λ m, set_lru_blocks (od_del h (lru_blocks m)) m) ;;;
        lru_on_backend (backend_free block)) ;;;
      lru_record to_evict true ;;;
      let* blocks := lru_on_backend (allocate_blocks to_store) in
      assert_ (bool_decide (len blocks = len to_store)) ;;;
      for_ (zip to_store blocks) (λ p, lru_set_block p.1 p.2) ;;;
      ret (Some (mkPrepared to_store (get_load_store_spec to_store blocks) to_evict))
  end.

Definition lru_complete_store (block_hashes : list bytes) (success : bool) : M lru unit :=
  let* stored :=
    if success then
      let* marks := mapM (λ h,
        let* block := lru_block h in
        if is_ready block then ret [] else
        lru_set_block h (set_ref_cnt 0 block) ;;;
        ret [h]) block_hashes in
      ret (concat marks)
    else
      for_ block_hashes (λ h,
        let* block := lru_block h in
        if is_ready block then ret tt else
        lru_on_backend (backend_free block) ;;;
        modify (λ m, set_lru_blocks (od_del h (lru_blocks m)) m)) ;;;
      ret [] in
  lru_record stored false.

(** The generator is consumed to its end. *)
Definition lru_take_events : M lru (list OffloadingEvent) :=
  let* m := get in
  modify (set_lru_events ((λ _, []) <$> lru_events m)) ;;;
  ret (default [] (lru_events m)).

#[export] Instance lru_manager : OffloadingManager lru A := {
  lookup := lru_lookup;
  prepare_load := lru_prepare_load;
  touch := lru_touch;
  complete_load := lru_complete_load;
  prepare_store := lru_prepare_store;
  complete_store := lru_complete_store;
  take_events := lru_take_events
}.
End lru.
