(* ===== verification/OffloadSpec.v ===== *)
(** The contract of backends ([BackendLaws]), which the CPU backend keeps, and
    the invariant of the blocks that a policy tracks on a backend ([tracked]),
    with the changes that keep it. *)

From S2P Require Import Prelude.
From S2P Require Import OrderedDict.
From S2P Require Import BlockHash.
From S2P Require Import Offload.

(** ** Dictionaries *)

Section dict.
Context {K V X : Type} `{EqDecision K}.
Implicit Types (k : K) (v : V) (d : list (K * V)).

Lemma od_set_values (f : V → X) k v v' d :
  od_get k d = Some v → f v' = f v → map (λ p, f p.2) (od_set k v' d) = map (λ p, f p.2) d.
Proof.
  intros Hk Hf. induction d as [|[k1 v1] d IH]; [done|]. simpl in *. case_decide; simpl.
  - injection Hk as ->. by rewrite Hf.
  - by rewrite IH.
Qed.

Lemma od_del_perm k v d : NoDup (od_keys d) → od_get k d = Some v → d ≡ₚ (k, v) :: od_del k d.
Proof.
  intros Hnd Hk. unfold od_del. induction d as [|[k1 v1] d IH]; [done|]. apply NoDup_cons in Hnd as [Hn Hnd].
  simpl in Hk. case_decide as Hkk.
  - injection Hk as ->. subst. rewrite filter_cons_False by naive_solver. fold (od_del k d). by rewrite od_del_absent.
  - rewrite filter_cons_True by done. rewrite (IH Hnd Hk) at 1. apply Permutation_swap.
Qed.

Lemma od_move_keys k v d : od_get k d = Some v → NoDup (od_keys d) →
  od_keys (od_del k d ++ [(k, v)]) ≡ₚ od_keys d.
Proof.
  intros Hk Hnd. unfold od_keys. rewrite (od_del_perm k v d Hnd Hk) at 2. rewrite map_app. simpl.
  by rewrite Permutation_app_comm.
Qed.

Lemma od_move_get k k' v d : od_get k d = Some v →
  od_get k' (od_del k d ++ [(k, v)]) = od_get k' d.
Proof.
  intros Hk. rewrite od_get_app, od_get_del. destruct (decide (k' = k)) as [->|Hne].
  - simpl. rewrite decide_True by done. done.
  - simpl. rewrite decide_False by done. by destruct (od_get k' d).
Qed.

Lemma od_get_perm d d' : NoDup (od_keys d) → d' ≡ₚ d → ∀ k, od_get k d' = od_get k d.
Proof.
  intros Hnd Hp k. assert (Hnd' : NoDup (od_keys d')) by (unfold od_keys; by rewrite Hp).
  destruct (od_get k d) as [v|] eqn:Hk.
  - apply od_get_nodup; [done|]. rewrite Hp. by apply od_get_in.
  - apply od_get_none. apply od_get_none in Hk. unfold od_keys. by rewrite Hp.
Qed.
End dict.

(** ** Backends *)

(** [backend_ok b used]: the allocated addresses are [used]; [capacity] blocks fit. *)
Class BackendLaws (B A : Type) `{Backend B A} (capacity : Z) := {
  backend_ok : B → list A → Prop;
  bl_count b used : backend_ok b used → get_num_free_blocks b + len used = capacity;
  bl_free_nonneg b used : backend_ok b used → 0 ≤ get_num_free_blocks b;
  bl_distinct b used : backend_ok b used → NoDup used;
  bl_perm b used used' : used ≡ₚ used' → backend_ok b used → backend_ok b used';
  bl_allocate b used hs : backend_ok b used → len hs ≤ get_num_free_blocks b →
    ∃ blocks b', allocate_blocks hs b = (Ok blocks, b') ∧ len blocks = len hs ∧
      Forall (λ s, ref_cnt s = -1) blocks ∧ backend_ok b' (map address blocks ++ used);
  bl_free b used s : backend_ok b (address s :: used) →
    ∃ b', backend_free s b = (Ok tt, b') ∧ backend_ok b' used
}.

Section cpu.
Context (capacity : Z).

Record cpu_ok (b : CPUBackend) (used : list Z) : Prop := {
  co_capacity : num_blocks b = capacity;
  co_fresh : 0 ≤ num_allocated_blocks b ≤ capacity;
  co_used : used ++ allocated_blocks_free_list b ≡ₚ py_range 0 (num_allocated_blocks b)
}.

Lemma py_range_snoc n : 0 ≤ n → py_range 0 (n + 1) = py_range 0 n ++ [n].
Proof.
  intros Hn. unfold py_range. replace (Z.to_nat (n + 1 - 0)) with (Z.to_nat (n - 0) + 1)%nat by lia.
  rewrite seq_app, map_app. simpl. do 2 f_equal. lia.
Qed.

Lemma cpu_count b used : cpu_ok b used → cpu_get_num_free_blocks b + len used = capacity.
Proof.
  intros [H1 H2 H3]. apply Permutation_length in H3. rewrite length_app in H3.
  unfold cpu_get_num_free_blocks, len, py_range in *. rewrite length_map, length_seq in H3. lia.
Qed.

Lemma fresh_ok n : ∀ b used, cpu_ok b used → num_allocated_blocks b + Z.of_nat n ≤ capacity →
  ∃ blocks b', allocate_fresh n b = (Ok blocks, b') ∧ length blocks = n ∧
    Forall (λ s, ref_cnt s = -1) blocks ∧ cpu_ok b' (map address blocks ++ used) ∧
    allocated_blocks_free_list b' = allocated_blocks_free_list b.
Proof.
  induction n as [|n IH]; intros b used Hok Hn; cbn [allocate_fresh]; [by exists [], b|].
  unfold bind at 1. cbn [get]. rewrite bind_modify. destruct Hok as [H1 H2 H3]. set (b1 := mkCPU _ _ _ _).
  destruct (IH b1 (num_allocated_blocks b :: used)) as (blocks & b' & Hrun & Hlen & Hall & Hok' & Hf).
  { split; simpl; [done|lia|]. rewrite py_range_snoc by lia. rewrite <- H3.
    by rewrite <- Permutation_cons_append. }
  { simpl. lia. }
  rewrite (bind_ok _ _ _ _ _ Hrun). eexists _, b'. split; [reflexivity|]. split; [simpl; lia|].
  split; [by constructor|]. split; [|done]. destruct Hok' as [K1 K2 K3]. split; [done|done|].
  rewrite <- K3. simpl. by rewrite <- Permutation_middle.
Qed.

Lemma reused_ok n : ∀ b used, cpu_ok b used → (n ≤ length (allocated_blocks_free_list b))%nat →
  ∃ blocks b', allocate_reused n b = (Ok blocks, b') ∧ length blocks = n ∧
    Forall (λ s, ref_cnt s = -1) blocks ∧ cpu_ok b' (map address blocks ++ used).
Proof.
  induction n as [|n IH]; intros b used Hok Hn; cbn [allocate_reused]; [by exists [], b|].
  unfold bind at 1. cbn [get]. destruct (allocated_blocks_free_list b) as [|x l] eqn:Hfree; [simpl in Hn; lia|].
  destruct (exists_last (l := x :: l) ltac:(done)) as (l' & a & Hl). rewrite Hl in Hfree.
  rewrite Hl, last_snoc. cbn [of_option]. rewrite bind_ret_l, bind_modify.
  destruct Hok as [H1 H2 H3]. set (b1 := mkCPU _ _ _ _).
  assert (Hb1 : allocated_blocks_free_list b1 = l') by (unfold b1; cbn [allocated_blocks_free_list]; rewrite Hfree; apply removelast_last).
  destruct (IH b1 (a :: used)) as (blocks & b' & Hrun & Hlen & Hall & Hok').
  { split; [done|done|]. rewrite Hb1. simpl. rewrite <- H3, Hfree. rewrite app_assoc.
    by rewrite <- Permutation_cons_append. }
  { rewrite Hb1. apply (f_equal length) in Hl. rewrite length_app in Hl. simpl in Hl, Hn. lia. }
  rewrite (bind_ok _ _ _ _ _ Hrun). eexists _, b'. split; [reflexivity|]. split; [simpl; lia|].
  split; [by constructor|]. destruct Hok' as [K1 K2 K3]. split; [done|done|].
  rewrite <- K3. simpl. by rewrite <- Permutation_middle.
Qed.

#[export] Program Instance cpu_laws : BackendLaws CPUBackend Z capacity := {| backend_ok := cpu_ok |}.
Next Obligation. apply cpu_count. Qed.
Next Obligation.
  intros b used [H1 H2 H3]. simpl. unfold cpu_get_num_free_blocks. pose proof (len_nonneg (allocated_blocks_free_list b)). lia.
Qed.
Next Obligation.
  intros b used [H1 H2 H3]. pose proof (py_range_nodup 0 (num_allocated_blocks b)) as Hnd. rewrite <- H3 in Hnd.
  by apply NoDup_app in Hnd as [? _].
Qed.
Next Obligation. intros b used used' Hp [H1 H2 H3]. split; [done|done|]. by rewrite <- Hp. Qed.
Next Obligation.
  intros b used hs Hok Hn. simpl in *. unfold cpu_allocate_blocks. unfold bind at 1. cbn [get].
  pose proof Hok as [H1 H2 H3]. unfold cpu_get_num_free_blocks in Hn.
  remember (Z.min (len hs) (num_blocks b - num_allocated_blocks b)) as nf eqn:Hnf.
  pose proof (len_nonneg hs) as Hpos. pose proof (len_nonneg (allocated_blocks_free_list b)) as Hpos'.
  rewrite bind_assert_true by (apply bool_decide_eq_true_2; lia).
  destruct (fresh_ok (Z.to_nat nf) b used Hok) as (fresh & b1 & Hrun1 & Hl1 & Ha1 & Hok1 & Hf1); [lia|].
  rewrite (bind_ok _ _ _ _ _ Hrun1).
  destruct (reused_ok (Z.to_nat (len hs - nf)) b1 _ Hok1) as (reused & b2 & Hrun2 & Hl2 & Ha2 & Hok2).
  { rewrite Hf1. unfold len in *. lia. }
  rewrite (bind_ok _ _ _ _ _ Hrun2). eexists _, b2. split; [reflexivity|]. split.
  { unfold len in *. rewrite length_app. lia. }
  split; [by apply Forall_app|]. destruct Hok2 as [K1 K2 K3]. split; [done|done|]. rewrite <- K3.
  rewrite map_app. by rewrite !app_assoc, (Permutation_app_comm (map address fresh)).
Qed.
Next Obligation.
  intros b used s [H1 H2 H3]. eexists. split; [reflexivity|]. split; [done|done|]. simpl in *. rewrite <- H3.
  rewrite app_assoc. by rewrite <- Permutation_cons_append.
Qed.

Lemma cpu_init_ok bs : 0 ≤ capacity → cpu_ok (CPUBackend_init bs capacity) [].
Proof. intros Hc. split; [done|simpl; lia|done]. Qed.
End cpu.

Section dict_moves.
Context {V : Type}.
Implicit Types (h : bytes) (d : list (bytes * V)).

Definition move_to_end (d : list (bytes * V)) (h : bytes) : list (bytes * V) :=
  match od_get h d with Some v => od_del h d ++ [(h, v)] | None => d end.

Lemma move_perm h (d : list (bytes * V)) : NoDup (od_keys d) → move_to_end d h ≡ₚ d.
Proof.
  intros Hnd. unfold move_to_end. destruct (od_get h d) as [v|] eqn:Hv; [|done].
  rewrite (od_del_perm h v d Hnd Hv) at 2. by rewrite <- Permutation_cons_append.
Qed.

Lemma moves_perm hs (d : list (bytes * V)) : NoDup (od_keys d) → foldl move_to_end d hs ≡ₚ d.
Proof.
  revert d. induction hs as [|h hs IH]; intros d Hnd; [done|]. simpl. pose proof (move_perm h d Hnd) as Hp.
  rewrite IH; [done|]. unfold od_keys. by rewrite Hp.
Qed.

Lemma filter_keys (P : bytes → Prop) `{∀ h, Decision (P h)} (d : list (bytes * V)) :
  od_keys (filter (λ p, P p.1) d) = filter P (od_keys d).
Proof.
  unfold od_keys. induction d as [|[k v] d IH]; [done|]. simpl. destruct (decide (P k)).
  - rewrite !filter_cons_True by done. simpl. by rewrite IH.
  - rewrite !filter_cons_False by done. done.
Qed.

Lemma del_keys_filter h (d : list (bytes * V)) : od_keys (od_del h d) = filter (λ k, k ≠ h) (od_keys d).
Proof. exact (filter_keys (λ k, k ≠ h) d). Qed.

Lemma moves_keys hs : ∀ d : list (bytes * V), NoDup hs →
  od_keys (foldl move_to_end d hs) = filter (λ h, h ∉ hs) (od_keys d) ++ filter (λ h, h ∈ od_keys d) hs.
Proof.
  induction hs as [|h hs IH]; intros d Hnd; simpl.
  { rewrite app_nil_r. symmetry. apply filter_all. intros; by apply not_elem_of_nil. }
  apply NoDup_cons in Hnd as [Hh Hnd]. rewrite IH by done. unfold move_to_end.
  destruct (od_get h d) as [v|] eqn:Hv.
  - assert (Hin : h ∈ od_keys d) by (apply od_get_keys; by eexists).
    rewrite (filter_cons_True _ h) by done. rewrite od_keys_app, del_keys_filter, filter_app, list_filter_filter.
    simpl. rewrite filter_cons_True by done. rewrite <- app_assoc. simpl. f_equal; [|f_equal].
    + apply filter_ext_in. intros x _. rewrite not_elem_of_cons. tauto.
    + apply filter_ext_in. intros x Hx. rewrite elem_of_app, list_elem_of_filter, list_elem_of_singleton.
      assert (x ≠ h) by congruence. tauto.
  - apply od_get_none in Hv. rewrite (filter_cons_False _ h) by done. f_equal.
    apply filter_ext_in. intros x Hx. rewrite not_elem_of_cons. assert (x ≠ h) by congruence. tauto.
Qed.

Lemma od_get_filter (P : bytes * V → Prop) `{∀ p, Decision (P p)} h d :
  (∀ v, P (h, v)) → od_get h (filter P d) = od_get h d.
Proof.
  intros HP. induction d as [|[k v] d IH]; [done|]. destruct (decide (P (k, v))).
  - rewrite filter_cons_True by done. simpl. by rewrite IH.
  - rewrite filter_cons_False by done. simpl. rewrite decide_False; [done|]. intros ->. by apply n, HP.
Qed.
End dict_moves.

(** ** Tracked blocks *)

(** Where a block is. *)
Definition place {A} (d : list (bytes * BlockStatus A)) (h : bytes) : option A := address <$> od_get h d.

Section tracked.
Context {B A : Type} {HB : Backend B A} (capacity : Z) {HL : BackendLaws B A capacity}.
Implicit Types (d : list (bytes * BlockStatus A)) (bk : B) (h : bytes) (hs loading : list bytes) (storing : gset bytes).

(** The loads in flight are [loading] (a hash once for every load), and the
    hashes [storing] are being stored. *)
Record tracked loading storing d bk : Prop := {
  tk_keys : NoDup (od_keys d);
  tk_backend : backend_ok bk (map (λ p, address p.2) d);
  tk_status : ∀ h s, od_get h d = Some s →
    ref_cnt s = if decide (h ∈ storing) then -1 else occ h loading;
  tk_loading : ∀ h, h ∈ loading → h ∈ od_keys d ∧ h ∉ storing;
  tk_storing : ∀ h, h ∈ storing → h ∈ od_keys d;
  tk_width : len loading < 2 ^ 31
}.
Arguments tk_keys {loading storing d bk}.
Arguments tk_backend {loading storing d bk}.
Arguments tk_status {loading storing d bk}.
Arguments tk_loading {loading storing d bk}.
Arguments tk_storing {loading storing d bk}.
Arguments tk_width {loading storing d bk}.

Lemma occ_le h loading : occ h loading ≤ len loading.
Proof. unfold occ, len. pose proof (length_filter (λ b, b = h) loading). lia. Qed.

Lemma ready_iff loading storing d bk h b : tracked loading storing d bk → od_get h d = Some b →
  is_ready b = true ↔ h ∉ storing.
Proof.
  intros Hi Hb. unfold is_ready. rewrite Z.leb_le, (tk_status Hi h b Hb).
  pose proof (occ_nonneg h loading). case_decide; split; (tauto || lia).
Qed.

(** The status of one block changes. *)
Lemma set_status_ok loading storing loading' storing' d bk h b v :
  tracked loading storing d bk → od_get h d = Some b → - 2 ^ 31 ≤ v < 2 ^ 31 →
  v = (if decide (h ∈ storing') then -1 else occ h loading') →
  (∀ x, x ≠ h → occ x loading' = occ x loading ∧ (x ∈ storing' ↔ x ∈ storing)) →
  (h ∈ loading' → h ∉ storing') → len loading' < 2 ^ 31 →
  tracked loading' storing' (od_set h (set_ref_cnt v b) d) bk.
Proof.
  intros [H1 H2 H3 H4 H5 H6] Hb Hv Hval Hrest Hdis Hlen.
  assert (Hk : h ∈ od_keys d) by (apply od_get_keys; by eexists).
  assert (Hin : ∀ x, x ≠ h → x ∈ loading' → x ∈ loading).
  { intros x Hx. destruct (Hrest x Hx) as [Ho _]. rewrite <- !occ_pos, Ho. done. }
  split; simpl; try done.
  - by rewrite od_set_keys_old.
  - by rewrite (od_set_values address h b) by done.
  - intros x bx. rewrite od_get_set. destruct (decide (x = h)) as [->|Hx].
    + intros [= <-]. simpl. by rewrite int32_small.
    + intros Hbx. rewrite (H3 x bx Hbx). destruct (Hrest x Hx) as [-> Hs]. destruct (decide (x ∈ storing)), (decide (x ∈ storing')); tauto.
  - intros x Hx. rewrite od_set_keys. destruct (decide (x = h)) as [->|Hne]; [by split; [left|apply Hdis]|].
    destruct (H4 x (Hin x Hne Hx)) as [? Hs]. split; [by right|]. by rewrite (proj2 (Hrest x Hne)).
  - intros x Hx. rewrite od_set_keys. destruct (decide (x = h)) as [->|Hne]; [by left|].
    right. apply H5. by apply (proj2 (Hrest x Hne)).
Qed.

(** The order of the blocks does not matter for the invariant. *)
Lemma reorder_ok loading storing d d' bk : tracked loading storing d bk → d' ≡ₚ d → tracked loading storing d' bk.
Proof.
  intros [H1 H2 H3 H4 H5 H6] Hp. assert (Hk : od_keys d' ≡ₚ od_keys d) by (unfold od_keys; by rewrite Hp).
  assert (Hnd : NoDup (od_keys d')) by by rewrite Hk.
  split; simpl; try done.
  - eapply bl_perm; [|exact H2]. by rewrite Hp.
  - intros h b Hb. apply H3, od_get_nodup; [done|]. rewrite <- Hp. by apply od_get_in.
  - intros h Hh. rewrite Hk. by apply H4.
  - intros h Hh. rewrite Hk. by apply H5.
Qed.

(** Idle blocks, the oldest first. *)
Definition idle (d : list (bytes * BlockStatus A)) : list bytes := od_keys (filter (λ p, ref_cnt p.2 = 0) d).

Lemma find_evictable_spec d : ∀ n, 0 < n →
  find_evictable n d = if decide (n ≤ len (idle d)) then Some (take (Z.to_nat n) (idle d)) else None.
Proof.
  unfold idle. induction d as [|[h b] d IH]; intros n Hn; simpl.
  { unfold len. simpl. by rewrite decide_False by lia. }
  destruct (decide (ref_cnt b = 0)) as [Hb|Hb].
  - rewrite filter_cons_True by done. simpl. rewrite len_cons. destruct (decide (n - 1 = 0)) as [Hn1|Hn1].
    + pose proof (len_nonneg (od_keys (filter (λ p, ref_cnt p.2 = 0) d))). rewrite decide_True by lia.
      by replace n with 1 by lia.
    + rewrite IH by lia. replace (Z.to_nat n) with (S (Z.to_nat (n - 1))) by lia.
      destruct (decide (n - 1 ≤ _)); [rewrite decide_True by lia|rewrite decide_False by lia]; done.
  - rewrite filter_cons_False by done. by apply IH.
Qed.

Lemma idle_in h d : h ∈ idle d → NoDup (od_keys d) → ∃ b, od_get h d = Some b ∧ ref_cnt b = 0.
Proof.
  intros Hh Hnd. apply list_elem_of_fmap in Hh as ([h' b] & -> & Hin).
  apply list_elem_of_filter in Hin as [Hb Hin]. exists b. split; [by apply od_get_nodup|done].
Qed.

Lemma idle_nodup d : NoDup (od_keys d) → NoDup (idle d).
Proof.
  unfold idle, od_keys. induction d as [|[h b] d IH]; intros Hnd; [constructor|]. apply NoDup_cons in Hnd as [Hh Hnd].
  destruct (decide (ref_cnt b = 0)); [rewrite filter_cons_True by done|rewrite filter_cons_False by done; by apply IH].
  simpl. constructor; [|by apply IH]. intros Hin. apply Hh. apply list_elem_of_fmap in Hin as (q & Hq & [_ Hin]%list_elem_of_filter).
  apply list_elem_of_fmap. by exists q.
Qed.

Lemma remove_ok loading storing d bk h b : tracked loading storing d bk → od_get h d = Some b → h ∉ loading →
  ∃ bk', backend_free b bk = (Ok tt, bk') ∧ tracked loading (storing ∖ {[h]}) (od_del h d) bk'.
Proof.
  intros [H1 H2 H3 H4 H5 H6] Hb Hh. pose proof (od_del_perm h b _ H1 Hb) as Hp.
  destruct (bl_free bk (map (λ p, address p.2) (od_del h d)) b) as (b' & Hrun & Hok).
  { eapply bl_perm; [|exact H2]. by rewrite Hp at 1. }
  exists b'. split; [done|]. split; simpl; try done.
  - by apply od_del_nodup.
  - intros x bx. rewrite od_get_del. destruct (decide (x = h)); [done|]. intros Hx. rewrite (H3 x bx Hx).
    destruct (decide (x ∈ storing)), (decide (x ∈ storing ∖ {[h]})); (done || set_solver).
  - intros x Hx. rewrite od_del_keys. destruct (H4 x Hx). split; [split; [congruence|done]|set_solver].
  - intros x Hx. rewrite od_del_keys. split; [set_solver|]. apply H5. set_solver.
Qed.

Lemma ready_new (blocks : list (BlockStatus A)) : Forall (λ s, ref_cnt s = -1) blocks →
  blocks = map BlockStatus_new (map address blocks).
Proof. induction 1 as [|[c a] l Hc _ IH]; simpl in *; [done|]. rewrite IH at 1. by rewrite Hc. Qed.

(** New entries, whose addresses the backend has just allocated. *)
Lemma append_ok loading storing d bk bk' hs (addrs : list A) : tracked loading storing d bk → NoDup hs →
  (∀ h, h ∈ hs → h ∉ od_keys d) → length addrs = length hs →
  backend_ok bk' (addrs ++ map (λ p, address p.2) d) →
  tracked loading (storing ∪ list_to_set hs) (d ++ zip hs (map BlockStatus_new addrs)) bk'.
Proof.
  intros [H1 H2 H3 H4 H5 H6] Hnd Hfresh Hlen Hok.
  assert (Hkeys : od_keys (zip hs (map BlockStatus_new addrs)) = hs).
  { unfold od_keys. apply fst_zip. rewrite length_map. lia. }
  assert (Haddr : map (λ p, address p.2) (zip hs (map BlockStatus_new addrs)) = addrs).
  { rewrite <- (map_map snd address). change (map snd ?l) with (l.*2). rewrite snd_zip by (rewrite length_map; lia).
    rewrite map_map. simpl. apply map_id. }
  split; simpl; try done.
  - rewrite od_keys_app, Hkeys. apply NoDup_app. split; [done|]. split; [|done]. intros x Hx Hx'. by apply (Hfresh x).
  - rewrite map_app, Haddr. eapply bl_perm; [apply Permutation_app_comm|exact Hok].
  - intros x bx. rewrite od_get_app. destruct (od_get x d) as [by_|] eqn:Hx.
    + intros [= <-]. rewrite (H3 x by_ Hx). assert (Hin : x ∈ od_keys d) by (apply od_get_keys; by eexists).
      destruct (decide (x ∈ storing)), (decide (x ∈ storing ∪ list_to_set hs)); (done || set_solver).
    + intros Hget. apply od_get_in in Hget. pose proof (elem_of_zip_l _ _ _ _ Hget) as Hl. apply elem_of_zip_r in Hget.
      apply list_elem_of_fmap in Hget as (a & -> & _). simpl. rewrite decide_True; [done|set_solver].
  - intros x Hx. destruct (H4 x Hx) as [Hk Hs]. rewrite od_keys_app. split; [set_solver|].
    intros [?|Hin]%elem_of_union; [done|]. apply elem_of_list_to_set in Hin. by apply (Hfresh x).
  - intros x Hx. rewrite od_keys_app, Hkeys. set_solver.
Qed.

Lemma split_length (vs : list bytes) d : NoDup (od_keys d) → NoDup vs →
  (∀ h, h ∈ vs → h ∈ od_keys d) → len (filter (λ p, p.1 ∉ vs) d) + len vs = len d.
Proof.
  intros Hnd Hvs Hin. assert (Hp : od_keys (filter (λ p, p.1 ∉ vs) d) ++ vs ≡ₚ od_keys d).
  { assert (Hf : od_keys (filter (λ p, p.1 ∉ vs) d) = filter (λ h, h ∉ vs) (od_keys d)) by exact (filter_keys (λ h, h ∉ vs) d).
    rewrite Hf. apply NoDup_Permutation; [|done|].
    - apply NoDup_app. split; [by apply NoDup_filter|]. split; [|done]. intros x [??]%list_elem_of_filter. done.
    - intros x. rewrite elem_of_app, list_elem_of_filter. destruct (decide (x ∈ vs)); naive_solver. }
  apply Permutation_length in Hp. unfold od_keys in Hp. rewrite length_app, !length_map in Hp. unfold len. lia.
Qed.

Lemma inv_loading loading loading' storing d bk :
  loading ≡ₚ loading' → tracked loading storing d bk → tracked loading' storing d bk.
Proof.
  intros Hp [H1 H2 H3 H4 H5 H6]. split; try done.
  - intros h b Hb. rewrite <- (occ_perm h _ _ Hp). by apply H3.
  - intros h. rewrite <- Hp. apply H4.
  - unfold len in *. by rewrite <- Hp.
Qed.

Lemma placed_kept d d' (vs : list bytes) h : NoDup (od_keys d') → (∀ p, p ∈ d → p.1 ∉ vs → p ∈ d') →
  h ∈ od_keys d → h ∉ vs → place d' h = place d h.
Proof.
  intros Hnd Hin [b Hb]%od_get_keys Hh. unfold place. rewrite Hb. erewrite od_get_nodup; [done|done|].
  apply Hin; [by apply od_get_in|done].
Qed.

Lemma placed_new d' hs (addrs : list A) : NoDup (od_keys d') → length addrs = length hs →
  (∀ p, p ∈ zip hs (map BlockStatus_new addrs) → p ∈ d') → Forall2 (λ h a, place d' h = Some a) hs addrs.
Proof.
  intros Hnd. revert addrs. induction hs as [|h hs IH]; intros [|a addrs] Hlen Hin; try done. constructor.
  - unfold place. rewrite (od_get_nodup h (BlockStatus_new a)); [done|done|]. apply Hin. by left.
  - apply IH; [simpl in Hlen; lia|]. intros p Hp. apply Hin. by right.
Qed.
(** Idle blocks are those in no transfer. *)
Lemma idle_filter loading storing d bk : tracked loading storing d bk →
  idle d = filter (λ h, (h ∉ loading) ∧ h ∉ storing) (od_keys d).
Proof.
  intros Hi. unfold idle. assert (Hall : ∀ p, p ∈ d → ref_cnt p.2 = 0 ↔ (p.1 ∉ loading) ∧ p.1 ∉ storing).
  { intros [h s] Hp. simpl. rewrite (tk_status Hi h s (od_get_nodup _ _ _ (tk_keys Hi) Hp)).
    pose proof (occ_nonneg h loading). rewrite <- occ_pos. destruct (decide (h ∈ storing)) as [Hs|Hs].
    - split; [lia|by intros [_ ?]].
    - split; [intros; split; [lia|done]|intros [? _]; lia]. }
  clear - Hall. induction d as [|[h s] d IH]; [done|]. unfold od_keys in *. simpl.
  pose proof (Hall (h, s) ltac:(by left)) as Hs. simpl in Hs. specialize (IH (λ p Hp, Hall p ltac:(by right))).
  destruct (decide (ref_cnt s = 0)).
  - rewrite !filter_cons_True by tauto. simpl. by rewrite IH.
  - rewrite !filter_cons_False by tauto. done.
Qed.
Lemma idle_unused loading storing d bk h : tracked loading storing d bk → h ∈ idle d → (h ∉ loading) ∧ h ∉ storing.
Proof. intros Hi. rewrite (idle_filter _ _ _ _ Hi), list_elem_of_filter. tauto. Qed.
End tracked.

Arguments tk_keys {B A HB capacity HL loading storing d bk} _.
Arguments tk_backend {B A HB capacity HL loading storing d bk} _.
Arguments tk_status {B A HB capacity HL loading storing d bk} _.
Arguments tk_loading {B A HB capacity HL loading storing d bk} _.
Arguments tk_storing {B A HB capacity HL loading storing d bk} _.
Arguments tk_width {B A HB capacity HL loading storing d bk} _.

(** ** Loops over blocks *)

(** The blocks that a policy tracks on its backend, with an invariant of its own. *)
Definition managed {S B A} `{BackendLaws B A capacity} (blocks : S → list (bytes * BlockStatus A)) (backend : S → B)
    (state : S → Prop) (loading : list bytes) (storing : gset bytes) (m : S) : Prop :=
  tracked capacity loading storing (blocks m) (backend m) ∧ state m.

Section loops.
Context {S B A : Type} {HB : Backend B A} (capacity : Z) {HL : BackendLaws B A capacity}.
Context (blocks : S → list (bytes * BlockStatus A)) (backend : S → B) (state : S → Prop).
Implicit Types (m : S) (h : bytes) (hs loading : list bytes) (storing : gset bytes).
Abbreviation policy_inv := (managed (capacity := capacity) blocks backend state).

(** [m'] is [m] with another status of [h]. *)
Record updates (h : bytes) (s : BlockStatus A) m m' : Prop := {
  up_state : state m → state m';
  up_blocks : blocks m' = od_set h s (blocks m);
  up_backend : backend m' = backend m
}.
Definition same_places m m' : Prop := ∀ h, place (blocks m') h = place (blocks m) h.

#[local] Instance same_places_preorder : PreOrder same_places.
Proof. split; [done|]. intros a b c H1 H2 h. by rewrite H2. Qed.

Lemma place_keys m m' h : same_places m m' → h ∈ od_keys (blocks m') ↔ h ∈ od_keys (blocks m).
Proof. intros Hs. rewrite <- !od_get_keys, <- !(fmap_is_Some address). pose proof (Hs h) as E. unfold place in E. by rewrite E. Qed.

Lemma updates_places h b v m m' : od_get h (blocks m) = Some b → updates h (set_ref_cnt v b) m m' → same_places m m'.
Proof.
  intros Hb [_ Hbl _] x. unfold place. rewrite Hbl, od_get_set. destruct (decide (x = h)) as [->|]; [|done]. by rewrite Hb.
Qed.

Lemma updates_ok loading storing loading' storing' m m' h b v :
  policy_inv loading storing m → od_get h (blocks m) = Some b → updates h (set_ref_cnt v b) m m' → - 2 ^ 31 ≤ v < 2 ^ 31 →
  v = (if decide (h ∈ storing') then -1 else occ h loading') →
  (∀ x, x ≠ h → occ x loading' = occ x loading ∧ (x ∈ storing' ↔ x ∈ storing)) →
  (h ∈ loading' → h ∉ storing') → len loading' < 2 ^ 31 → policy_inv loading' storing' m'.
Proof.
  intros [Hi Hs] Hb [Hst Hbl Hbk] Hv Hval Hrest Hdis Hlen. split; [|by apply Hst]. rewrite Hbl, Hbk.
  by eapply set_status_ok.
Qed.

Lemma load_loop (body : bytes → M S (BlockStatus A))
    (Hbody : ∀ h b m, od_get h (blocks m) = Some b → is_ready b = true →
      ∃ m', body h m = (Ok b, m') ∧ updates h (set_ref_cnt (ref_cnt b + 1) b) m m') hs :
  ∀ loading storing m, policy_inv loading storing m →
  (∀ h, h ∈ hs → h ∈ od_keys (blocks m) ∧ h ∉ storing) → len loading + len hs < 2 ^ 31 →
  ∃ bs m', mapM body hs m = (Ok bs, m') ∧ policy_inv (hs ++ loading) storing m' ∧ same_places m m' ∧
    Forall2 (λ h a, place (blocks m) h = Some a) hs (map address bs).
Proof.
  induction hs as [|h hs IH]; intros loading storing m Hi Hhs Hlen; [by exists [], m|].
  rewrite len_cons in Hlen. pose proof (len_nonneg hs). cbn [mapM].
  destruct (Hhs h ltac:(by left)) as [Hk Hs]. apply od_get_keys in Hk as [b Hb].
  destruct (Hbody h b m Hb) as (m1 & Hrun1 & Hup); [by apply (ready_iff capacity _ _ _ _ h b (proj1 Hi) Hb)|].
  pose proof (tk_status (proj1 Hi) h b Hb) as Hst. rewrite decide_False in Hst by done.
  pose proof (occ_le h loading). pose proof (occ_nonneg h loading). rewrite (bind_ok _ _ _ _ _ Hrun1).
  assert (Hi1 : policy_inv (h :: loading) storing m1).
  { apply (updates_ok loading storing (h :: loading) storing m m1 h b _ Hi Hb Hup); try done; try lia.
    - rewrite decide_False by done. rewrite occ_cons, decide_True by done. lia.
    - intros x Hx. rewrite occ_cons, decide_False by done. split; [lia|done].
    - rewrite len_cons. lia. }
  pose proof (updates_places _ _ _ _ _ Hb Hup) as Hs1.
  destruct (IH (h :: loading) storing m1 Hi1) as (bs & m' & Hrun & [Hi' Hst'] & Hsame & Hall).
  { intros x Hx. rewrite (place_keys _ _ _ Hs1). apply Hhs. by right. }
  { rewrite len_cons. lia. }
  rewrite (bind_ok _ _ _ _ _ Hrun). eexists _, m'. split; [reflexivity|]. split; [|split; [by etrans|]].
  - split; [|done]. eapply inv_loading; [|exact Hi']. simpl. by rewrite Permutation_middle.
  - constructor; [unfold place; by rewrite Hb|]. eapply Forall2_impl; [exact Hall|]. intros x a Hx. by rewrite <- Hx, Hs1.
Qed.

Lemma unload_loop (body : bytes → M S unit)
    (Hbody : ∀ h b m, od_get h (blocks m) = Some b → 0 < ref_cnt b →
      ∃ m', body h m = (Ok tt, m') ∧ updates h (set_ref_cnt (ref_cnt b - 1) b) m m') hs :
  ∀ loading storing m, policy_inv (hs ++ loading) storing m →
  ∃ m', for_ hs body m = (Ok tt, m') ∧ policy_inv loading storing m' ∧ same_places m m'.
Proof.
  induction hs as [|h hs IH]; intros loading storing m Hi; [by exists m|].
  cbn [for_]. destruct (tk_loading (proj1 Hi) h ltac:(by left)) as [Hk Hs]. apply od_get_keys in Hk as [b Hb].
  pose proof (tk_status (proj1 Hi) h b Hb) as Hst. rewrite decide_False in Hst by done. simpl in Hst.
  rewrite occ_cons, decide_True in Hst by done. pose proof (occ_nonneg h (hs ++ loading)) as Hnn.
  pose proof (occ_le h (hs ++ loading)). pose proof (tk_width (proj1 Hi)) as Hw. simpl in Hw. rewrite len_cons in Hw.
  destruct (Hbody h b m Hb ltac:(lia)) as (m1 & Hrun1 & Hup). rewrite (bind_ok _ _ _ _ _ Hrun1).
  assert (Hi1 : policy_inv (hs ++ loading) storing m1).
  { apply (updates_ok ((h :: hs) ++ loading) storing (hs ++ loading) storing m m1 h b _ Hi Hb Hup); try done; try lia.
    - rewrite decide_False by done. lia.
    - intros x Hx. simpl. rewrite occ_cons, decide_False by done. split; [lia|done]. }
  destruct (IH loading storing m1 Hi1) as (m' & Hrun & Hi' & Hsame). exists m'. split; [done|]. split; [done|].
  etrans; [by apply (updates_places _ _ _ _ _ Hb Hup)|exact Hsame].
Qed.

(** Blocks that are being stored become ready. *)
Lemma mark_loop (body : bytes → M S (list bytes))
    (Hbody : ∀ h b m, od_get h (blocks m) = Some b → is_ready b = false →
      ∃ m', body h m = (Ok [h], m') ∧ updates h (set_ref_cnt 0 b) m m') hs :
  ∀ loading storing m, policy_inv loading storing m → NoDup hs → (∀ h, h ∈ hs → h ∈ storing) →
  ∃ marks m', mapM body hs m = (Ok marks, m') ∧ concat marks = hs ∧
    policy_inv loading (storing ∖ list_to_set hs) m' ∧ same_places m m'.
Proof.
  induction hs as [|h hs IH]; intros loading storing m Hi Hnd Hhs.
  { exists [], m. split; [done|]. split; [done|]. by rewrite list_to_set_nil, difference_empty_L. }
  apply NoDup_cons in Hnd as [Hh Hnd]. pose proof (Hhs h ltac:(by left)) as Hs.
  destruct (proj2 (od_get_keys h (blocks m)) (tk_storing (proj1 Hi) h Hs)) as [b Hb]. cbn [mapM].
  destruct (Hbody h b m Hb) as (m1 & Hrun1 & Hup).
  { apply not_true_is_false. rewrite (ready_iff capacity _ _ _ _ h b (proj1 Hi) Hb). tauto. }
  rewrite (bind_ok _ _ _ _ _ Hrun1). assert (Hl : h ∉ loading) by (intros Hl; by apply (tk_loading (proj1 Hi)) in Hl as [_ Hl]).
  assert (Hi1 : policy_inv loading (storing ∖ {[h]}) m1).
  { apply (updates_ok loading storing loading (storing ∖ {[h]}) m m1 h b _ Hi Hb Hup); try done.
    - rewrite decide_False by set_solver. by rewrite occ_absent.
    - intros x Hx. split; [done|set_solver].
    - apply (proj1 Hi). }
  destruct (IH loading (storing ∖ {[h]}) m1 Hi1 Hnd) as (marks & m' & Hrun & Hmarks & Hi' & Hsame); [set_solver|].
  rewrite (bind_ok _ _ _ _ _ Hrun). eexists _, m'. split; [reflexivity|]. split; [simpl; by rewrite Hmarks|]. split.
  - by replace (storing ∖ list_to_set (h :: hs)) with (storing ∖ {[h]} ∖ list_to_set hs) by set_solver.
  - etrans; [by apply (updates_places _ _ _ _ _ Hb Hup)|exact Hsame].
Qed.

(** A failed store gives back its blocks. *)
Lemma discard_loop (body : bytes → M S unit)
    (Hbody : ∀ h b m bk, od_get h (blocks m) = Some b → is_ready b = false → NoDup (od_keys (blocks m)) →
      backend_free b (backend m) = (Ok tt, bk) →
      ∃ m', body h m = (Ok tt, m') ∧ blocks m' = od_del h (blocks m) ∧ backend m' = bk ∧ (state m → state m')) hs :
  ∀ loading storing m, policy_inv loading storing m → NoDup hs → (∀ h, h ∈ hs → h ∈ storing) →
  ∃ m', for_ hs body m = (Ok tt, m') ∧ policy_inv loading (storing ∖ list_to_set hs) m' ∧
    (∀ h, h ∉ hs → place (blocks m') h = place (blocks m) h).
Proof.
  induction hs as [|h hs IH]; intros loading storing m Hi Hnd Hhs.
  { exists m. split; [done|]. by rewrite list_to_set_nil, difference_empty_L. }
  apply NoDup_cons in Hnd as [Hh Hnd]. pose proof (Hhs h ltac:(by left)) as Hs.
  destruct (proj2 (od_get_keys h (blocks m)) (tk_storing (proj1 Hi) h Hs)) as [b Hb]. cbn [for_].
  assert (Hl : h ∉ loading) by (intros Hl; by apply (tk_loading (proj1 Hi)) in Hl as [_ Hl]).
  destruct (remove_ok capacity _ _ _ _ h b (proj1 Hi) Hb Hl) as (bk & Hfree & Hi1).
  destruct (Hbody h b m bk Hb) as (m1 & Hrun1 & Hbl & Hbk & Hst); [|by apply (proj1 Hi)|done|].
  { apply not_true_is_false. rewrite (ready_iff capacity _ _ _ _ h b (proj1 Hi) Hb). tauto. }
  rewrite (bind_ok _ _ _ _ _ Hrun1). rewrite <- Hbl, <- Hbk in Hi1.
  destruct (IH loading (storing ∖ {[h]}) m1) as (m' & Hrun & Hi' & Hsame); [split; [done|by apply Hst, Hi]|done|set_solver|].
  exists m'. split; [done|]. split.
  - by replace (storing ∖ list_to_set (h :: hs)) with (storing ∖ {[h]} ∖ list_to_set hs) by set_solver.
  - intros x Hx. apply not_elem_of_cons in Hx as [Hxh Hx]. rewrite (Hsame x Hx). unfold place.
    rewrite Hbl, od_get_del. by rewrite decide_False.
Qed.
End loops.

(** ** Policies *)

(** What a policy promises to its callers: [policy_blocks] are the blocks it
    tracks on [policy_backend], and [policy_state] is an invariant of its own.
    With [touch_storing], blocks that are being stored may be touched. *)
Section policy.
Context {S B A : Type}.

Class PolicyLaws `{OffloadingManager S A} `{BackendLaws B A capacity} := {
  policy_blocks : S → list (bytes * BlockStatus A);
  policy_backend : S → B;
  policy_state : S → Prop;
  touch_storing : bool;
  pl_lookup hs m : lookup hs m = count_ready (λ h, od_get h (policy_blocks m)) hs;
  pl_load hs loading storing m : managed policy_blocks policy_backend policy_state loading storing m →
    (∀ h, h ∈ hs → h ∈ od_keys (policy_blocks m) ∧ h ∉ storing) → len loading + len hs < 2 ^ 31 →
    ∃ addrs m', prepare_load hs m = (Ok addrs, m') ∧
      managed policy_blocks policy_backend policy_state (hs ++ loading) storing m' ∧
      (∀ h, place (policy_blocks m') h = place (policy_blocks m) h) ∧
      Forall2 (λ h a, place (policy_blocks m) h = Some a) hs addrs;
  pl_unload hs loading storing m : managed policy_blocks policy_backend policy_state (hs ++ loading) storing m →
    ∃ m', complete_load hs m = (Ok tt, m') ∧ managed policy_blocks policy_backend policy_state loading storing m' ∧
      (∀ h, place (policy_blocks m') h = place (policy_blocks m) h);
  pl_touch hs loading storing m : managed policy_blocks policy_backend policy_state loading storing m →
    (∀ h, h ∈ hs → touch_storing = true ∨ h ∉ storing) →
    ∃ m', touch hs m = (Ok tt, m') ∧ managed policy_blocks policy_backend policy_state loading storing m' ∧
      (∀ h, place (policy_blocks m') h = place (policy_blocks m) h);
  pl_store hs loading storing m : managed policy_blocks policy_backend policy_state loading storing m → NoDup hs →
    let new := filter (λ h, h ∉ od_keys (policy_blocks m)) hs in
    ∃ r m', prepare_store hs m = (Ok r, m') ∧
      (∀ h, h ∈ loading ∨ h ∈ storing → place (policy_blocks m') h = place (policy_blocks m) h) ∧
      match r with
      | None => managed policy_blocks policy_backend policy_state loading storing m'
      | Some out => block_hashes_to_store out = new ∧
          Forall2 (λ h a, place (policy_blocks m') h = Some a) new (store_spec out) ∧
          managed policy_blocks policy_backend policy_state loading (storing ∪ list_to_set new) m'
      end;
  pl_finish hs success loading storing m : managed policy_blocks policy_backend policy_state loading storing m →
    NoDup hs → (∀ h, h ∈ hs → h ∈ storing) →
    ∃ m', complete_store hs success m = (Ok tt, m') ∧
      managed policy_blocks policy_backend policy_state loading (storing ∖ list_to_set hs) m' ∧
      (∀ h, h ∉ hs → place (policy_blocks m') h = place (policy_blocks m) h);
  pl_events loading storing m : managed policy_blocks policy_backend policy_state loading storing m →
    ∃ evs m', take_events m = (Ok evs, m') ∧ managed policy_blocks policy_backend policy_state loading storing m' ∧
      (∀ h, place (policy_blocks m') h = place (policy_blocks m) h)
}.
End policy.
Arguments PolicyLaws S B A {_} {_} capacity {_}.
