(* ===== verification/LruSpec.v ===== *)
(** The LRU policy: blocks that are loaded or stored keep their place, the space
    is accounted for, and storing evicts the oldest idle blocks and no more than
    needed. *)

From S2P Require Import Prelude.
From S2P Require Import OrderedDict.
From S2P Require Import BlockHash.
From S2P Require Import Offload.
From S2P Require Import OffloadSpec.

Section lru.
Context {B A : Type} {HB : Backend B A} (capacity : Z) {HL : BackendLaws B A capacity}.
Abbreviation lru := (LRUOffloadingManager B A).
Abbreviation lru_inv loading storing m := (tracked capacity loading storing (lru_blocks m) (lru_backend m)).
Abbreviation lru_policy := (managed (capacity := capacity) lru_blocks lru_backend (λ _ : lru, True)).
Implicit Types (m : lru) (h : bytes) (hs loading : list bytes) (storing : gset bytes).

Lemma lru_block_run m h b : od_get h (lru_blocks m) = Some b → lru_block h m = (Ok b, m).
Proof. intros Hb. unfold lru_block, bind, get. by rewrite Hb. Qed.

(** *** Touching *)

Lemma touch_run hs m :
  lru_touch hs m = (Ok tt, set_lru_blocks (foldl move_to_end (lru_blocks m) (rev hs)) m).
Proof.
  unfold lru_touch. generalize (rev hs) as l. intros l. revert m. induction l as [|h l IH]; intros m; [by destruct m|].
  cbn [for_ foldl]. unfold move_to_end at 2. unfold bind at 1. unfold bind at 1. cbn [get]. destruct (od_get h (lru_blocks m)) as [b|] eqn:Hb.
  - rewrite (od_move_to_end_spec h b) by done. cbn [of_option]. rewrite bind_ret_l. unfold modify. rewrite IH. done.
  - unfold ret. rewrite IH. done.
Qed.

(** *** Storing *)

Lemma evict_run loading storing hs : ∀ m, lru_inv loading storing m → NoDup hs →
  (∀ h, h ∈ hs → ∃ b, od_get h (lru_blocks m) = Some b ∧ ref_cnt b = 0) →
  ∃ m', for_ hs (λ h, let* block := lru_block h in
        modify (λ m, set_lru_blocks (od_del h (lru_blocks m)) m) ;;;
        lru_on_backend (backend_free block)) m = (Ok tt, m') ∧ lru_inv loading storing m' ∧
    lru_blocks m' = filter (λ p, p.1 ∉ hs) (lru_blocks m) ∧ lru_events m' = lru_events m.
Proof.
  induction hs as [|h hs IH]; intros m Hi Hnd Hhs.
  { exists m. split; [done|]. split; [done|]. split; [|done]. symmetry. apply filter_all. intros; apply not_elem_of_nil. }
  apply NoDup_cons in Hnd as [Hh Hnd]. destruct (Hhs h ltac:(by left)) as (b & Hb & Hidle).
  pose proof (tk_status Hi h b Hb) as Hst. assert (Hs : h ∉ storing) by (intros Hs; rewrite decide_True in Hst by done; lia).
  rewrite decide_False in Hst by done. assert (Hl : h ∉ loading) by (rewrite <- occ_pos; lia).
  destruct (remove_ok capacity loading storing _ _ h b Hi Hb Hl) as (b' & Hrun & Hi'). rewrite difference_disjoint_L in Hi' by set_solver.
  cbn [for_]. rewrite bind_assoc, (bind_ok _ _ _ _ _ (lru_block_run m h b Hb)), bind_assoc, bind_modify.
  pose (m1 := set_lru_backend b' (set_lru_blocks (od_del h (lru_blocks m)) m)).
  assert (Hback : lru_on_backend (backend_free b) (set_lru_blocks (od_del h (lru_blocks m)) m) = (Ok tt, m1)).
  { unfold lru_on_backend, zoom. simpl. by rewrite Hrun. }
  rewrite (bind_ok _ _ _ _ _ Hback). destruct (IH m1 Hi' Hnd) as (m' & Hrun' & Hi2 & Hbl & Hev).
  { intros x Hx. destruct (Hhs x ltac:(by right)) as (bx & Hbx & ?). exists bx. split; [|done].
    simpl. rewrite od_get_del, decide_False; [done|congruence]. }
  exists m'. split; [done|]. split; [done|]. split; [|done]. rewrite Hbl. simpl. unfold od_del. rewrite list_filter_filter.
  apply filter_ext_in. intros p _. rewrite not_elem_of_cons. tauto.
Qed.

Lemma insert_run hs : ∀ (blocks : list (BlockStatus A)) m, NoDup hs → length blocks = length hs →
  (∀ h, h ∈ hs → h ∉ od_keys (lru_blocks m)) →
  for_ (zip hs blocks) (λ p, lru_set_block p.1 p.2) m = (Ok tt, set_lru_blocks (lru_blocks m ++ zip hs blocks) m).
Proof.
  induction hs as [|h hs IH]; intros [|b blocks] m Hnd Hlen Hhs; simpl; try done.
  { rewrite app_nil_r. by destruct m. }
  apply NoDup_cons in Hnd as [Hh Hnd]. injection Hlen as Hlen. unfold lru_set_block at 1. rewrite bind_modify.
  rewrite od_set_new by (apply Hhs; by left). rewrite IH; [|done|done|].
  - simpl. by rewrite <- app_assoc.
  - intros x Hx. simpl. rewrite od_keys_app, elem_of_app. simpl. rewrite list_elem_of_singleton.
    intros [Hin| ->]; [|done]. apply (Hhs x); [by right|done].
Qed.

(** The recorded events: hashes, and whether they were removed. *)
Definition log m : option (list (list bytes * bool)) :=
  map (λ e, (oe_block_hashes e, oe_removed e)) <$> lru_events m.
Definition logged (hs : list bytes) (removed : bool) : list (list bytes * bool) :=
  if decide (hs = []) then [] else [(hs, removed)].

Lemma record_run hs removed m :
  ∃ evs, lru_record hs removed m = (Ok tt, set_lru_events evs m) ∧
    log (set_lru_events evs m) = (λ l, l ++ logged hs removed) <$> log m.
Proof.
  unfold log. destruct m as [b d [l|]], hs as [|h hs]; eexists; (split; [reflexivity|]); simpl; try done.
  - by rewrite app_nil_r.
  - by rewrite map_app.
Qed.

Definition new_hashes m hs : list bytes := filter (λ h, h ∉ od_keys (lru_blocks m)) hs.
(** How many blocks storing [hs] needs beyond the free ones. *)
Definition shortage m hs : Z := len (new_hashes m hs) - get_num_free_blocks (lru_backend m).

Lemma prepare_store_none m hs : shortage m hs > Z.max 0 (len (idle (lru_blocks m))) →
  lru_prepare_store hs m = (Ok None, m).
Proof.
  intros Hn. unfold lru_prepare_store, bind at 1. cbn [get]. fold (new_hashes m hs). fold (shortage m hs).
  rewrite decide_True, find_evictable_spec by lia. rewrite decide_False by lia. done.
Qed.

(** The blocks that storing [hs] evicts. *)
Definition victims m hs : list bytes := take (Z.to_nat (shortage m hs)) (idle (lru_blocks m)).

Lemma found_victims m hs : shortage m hs ≤ Z.max 0 (len (idle (lru_blocks m))) →
  (if decide (0 < shortage m hs) then find_evictable (shortage m hs) (lru_blocks m) else Some []) = Some (victims m hs).
Proof.
  intros Hn. unfold victims. destruct (decide (0 < shortage m hs)).
  - rewrite find_evictable_spec by done. by rewrite decide_True by lia.
  - by rewrite Z2Nat.nonpos by lia.
Qed.

Lemma victims_nodup m hs : NoDup (od_keys (lru_blocks m)) → NoDup (victims m hs).
Proof. intros Hnd. eapply sublist_NoDup; [by apply (idle_nodup (lru_blocks m))|apply sublist_take]. Qed.

Lemma victims_keys m hs h : h ∈ victims m hs → h ∈ od_keys (lru_blocks m).
Proof.
  unfold victims. intros (i & Hi & _)%elem_of_take. apply list_elem_of_lookup_2 in Hi.
  apply list_elem_of_fmap in Hi as (p & -> & [_ Hp]%list_elem_of_filter). by apply list_elem_of_fmap_2.
Qed.

Record stored loading storing m hs addrs m' : Prop := {
  st_inv : lru_inv loading (storing ∪ list_to_set (new_hashes m hs)) m';
  st_blocks : lru_blocks m' = filter (λ p, p.1 ∉ victims m hs) (lru_blocks m) ++
    zip (new_hashes m hs) (map BlockStatus_new addrs);
  st_len : len addrs = len (new_hashes m hs);
  st_events : log m' = (λ l, l ++ logged (victims m hs) true) <$> log m
}.

Lemma evicted_space loading storing m m' hs :
  lru_inv loading storing m → lru_inv loading storing m' →
  lru_blocks m' = filter (λ p, p.1 ∉ victims m hs) (lru_blocks m) →
  shortage m hs ≤ Z.max 0 (len (idle (lru_blocks m))) →
  len (new_hashes m hs) ≤ get_num_free_blocks (lru_backend m').
Proof.
  intros Hi Hi' Hbl Hn. pose proof (bl_count _ _ (tk_backend Hi)) as Hc.
  pose proof (bl_count _ _ (tk_backend Hi')) as Hc'. rewrite Hbl in Hc'.
  assert (Hsplit : len (filter (λ p, p.1 ∉ victims m hs) (lru_blocks m)) + len (victims m hs) = len (lru_blocks m)).
  { apply split_length; [by apply Hi|by apply victims_nodup, Hi|by apply victims_keys]. }
  assert (Hv : len (victims m hs) = Z.max 0 (shortage m hs)).
  { unfold victims, len in *. rewrite length_take. lia. }
  assert (Hmap : ∀ d : list (bytes * BlockStatus A), len (map (λ p, address p.2) d) = len d) by (intros; unfold len; by rewrite length_map).
  rewrite !Hmap in *. unfold shortage in *. lia.
Qed.

Lemma prepare_store_ok loading storing m hs : lru_inv loading storing m → NoDup hs →
  shortage m hs ≤ Z.max 0 (len (idle (lru_blocks m))) →
  ∃ addrs m', lru_prepare_store hs m = (Ok (Some (mkPrepared (new_hashes m hs) addrs (victims m hs))), m') ∧
    stored loading storing m hs addrs m'.
Proof.
  intros Hi Hnd Hn. unfold lru_prepare_store. unfold bind at 1. cbn [get]. fold (new_hashes m hs). fold (shortage m hs).
  rewrite found_victims by done.
  destruct (evict_run loading storing (victims m hs) m Hi) as (m1 & Hrun1 & Hi1 & Hbl1 & Hev1).
  { by apply victims_nodup, Hi. }
  { intros h Hh. apply idle_in; [|by apply Hi]. unfold victims in Hh. apply elem_of_take in Hh as (i & Hi1 & _). by eapply list_elem_of_lookup_2. }
  rewrite (bind_ok _ _ _ _ _ Hrun1). destruct (record_run (victims m hs) true m1) as (evs & Hrun2 & Hlog).
  rewrite (bind_ok _ _ _ _ _ Hrun2). set (m2 := set_lru_events evs m1).
  pose proof (evicted_space _ _ _ _ _ Hi Hi1 Hbl1 Hn) as Hspace.
  destruct (bl_allocate _ _ (new_hashes m hs) (tk_backend Hi1) Hspace) as (blocks & b' & Hrun3 & Hlen & Hall & Hok).
  assert (Hback : lru_on_backend (allocate_blocks (new_hashes m hs)) m2 = (Ok blocks, set_lru_backend b' m2)).
  { unfold lru_on_backend, zoom. simpl. by rewrite Hrun3. }
  rewrite (bind_ok _ _ _ _ _ Hback), bind_assert_true by (apply bool_decide_eq_true_2; lia).
  assert (Hfresh : ∀ h, h ∈ new_hashes m hs → h ∉ od_keys (lru_blocks m1)).
  { intros h [Hh _]%list_elem_of_filter Hin. apply Hh. rewrite Hbl1 in Hin.
    apply list_elem_of_fmap in Hin as (q & -> & [_ Hq]%list_elem_of_filter). by apply list_elem_of_fmap_2. }
  assert (HndT : NoDup (new_hashes m hs)) by by apply NoDup_filter.
  erewrite bind_ok by (apply insert_run; [done|unfold len in Hlen; lia|done]).
  exists (map address blocks). eexists. split; [reflexivity|]. split; simpl.
  - rewrite (ready_new blocks Hall) at 1. apply (append_ok capacity loading storing (lru_blocks m2) (lru_backend m2)); try done.
    unfold len in Hlen. rewrite length_map. lia.
  - rewrite Hbl1. by rewrite <- ready_new.
  - unfold len in *. by rewrite length_map.
  - assert (Hl : log m1 = log m) by (unfold log; by rewrite Hev1). rewrite <- Hl, <- Hlog. done.
Qed.

(** ** The LRU policy is a policy *)

Lemma victim_idle loading storing m hs h : lru_inv loading storing m → h ∈ victims m hs → (h ∉ loading) ∧ h ∉ storing.
Proof.
  intros Hi Hh. assert (Hin : h ∈ idle (lru_blocks m)).
  { unfold victims in Hh. apply elem_of_take in Hh as (i & Hi' & _). by eapply list_elem_of_lookup_2. }
  by apply (idle_unused capacity _ _ (lru_blocks m) (lru_backend m)).
Qed.

Lemma lru_store_policy hs loading storing m : lru_inv loading storing m → NoDup hs →
  ∃ r m', lru_prepare_store hs m = (Ok r, m') ∧
    (∀ h, h ∈ loading ∨ h ∈ storing → place (lru_blocks m') h = place (lru_blocks m) h) ∧
    match r with
    | None => lru_inv loading storing m'
    | Some out => block_hashes_to_store out = new_hashes m hs ∧
        Forall2 (λ h a, place (lru_blocks m') h = Some a) (new_hashes m hs) (store_spec out) ∧
        lru_inv loading (storing ∪ list_to_set (new_hashes m hs)) m'
    end.
Proof.
  intros Hi Hnd. destruct (decide (shortage m hs ≤ Z.max 0 (len (idle (lru_blocks m))))) as [Hn|Hn].
  2: { rewrite prepare_store_none by lia. by eexists None, m. }
  destruct (prepare_store_ok loading storing m hs Hi Hnd Hn) as (addrs & m' & Hrun & [Hi' Hb Hlen _]).
  eexists _, m'. split; [exact Hrun|]. pose proof (tk_keys Hi') as Hk. split; [|split; [done|split; [|done]]].
  - intros h Hh. apply (placed_kept _ _ (victims m hs)); [done| | |].
    + intros p Hp Hv. rewrite Hb. apply elem_of_app. left. by apply list_elem_of_filter.
    + destruct Hh as [Hh|Hh]; [by apply (tk_loading Hi) in Hh as [? _]|by apply (tk_storing Hi)].
    + intros Hv. destruct (victim_idle _ _ _ _ _ Hi Hv). tauto.
  - apply placed_new; [done|unfold len in Hlen; simpl; lia|]. intros p Hp. rewrite Hb. apply elem_of_app. by right.
Qed.

Lemma lru_finish_policy hs success loading storing m : lru_policy loading storing m → NoDup hs →
  (∀ h, h ∈ hs → h ∈ storing) →
  ∃ m', lru_complete_store hs success m = (Ok tt, m') ∧ lru_policy loading (storing ∖ list_to_set hs) m' ∧
    (∀ h, h ∉ hs → place (lru_blocks m') h = place (lru_blocks m) h).
Proof.
  intros Hi Hnd Hin. unfold lru_complete_store. destruct success.
  - edestruct (mark_loop capacity lru_blocks lru_backend (λ _, True)) as (marks & m1 & Hrun & Hmarks & Hi1 & Hs);
      [|exact Hi|exact Hnd|exact Hin|].
    2: { rewrite bind_assoc, (bind_ok _ _ _ _ _ Hrun), bind_ret_l. destruct (record_run (concat marks) false m1) as (evs & Hrec & _).
      eexists. split; [exact Hrec|]. split; [exact Hi1|]. intros h _. apply Hs. }
    intros h b m0 Hb Hr. cbv beta. rewrite (bind_ok _ _ _ _ _ (lru_block_run m0 h b Hb)), Hr. eexists. by split.
  - edestruct (discard_loop capacity lru_blocks lru_backend (λ _, True)) as (m1 & Hrun & Hi1 & Hs);
      [|exact Hi|exact Hnd|exact Hin|].
    2: { rewrite bind_assoc, (bind_ok _ _ _ _ _ Hrun). by exists m1. }
    intros h b m0 bk Hb Hr _ Hfree. cbv beta. rewrite (bind_ok _ _ _ _ _ (lru_block_run m0 h b Hb)), Hr.
    unfold lru_on_backend, zoom, bind. rewrite Hfree. eexists. by split.
Qed.

Lemma lru_init_ok b events : backend_ok b [] → lru_inv [] ∅ (LRU_init b events : lru).
Proof. intros Hb. split; simpl; (done || constructor || set_solver). Qed.

#[export] Program Instance lru_laws : PolicyLaws lru B A capacity :=
  {| policy_blocks := lru_blocks; policy_backend := lru_backend; policy_state _ := True; touch_storing := true |}.
Next Obligation. done. Qed.
Next Obligation.
  intros hs loading storing m Hi Hhs Hw. edestruct (load_loop capacity lru_blocks lru_backend (λ _ : lru, True))
    as (bs & m' & Hrun & Hi' & Hs & Hall); [|exact Hi|exact Hhs|exact Hw|].
  2: { exists (map address bs), m'. split; [|done]. cbn [lru_manager prepare_load]. unfold lru_prepare_load. by rewrite (bind_ok _ _ _ _ _ Hrun). }
  intros h b m0 Hb Hr. cbv beta. rewrite (bind_ok _ _ _ _ _ (lru_block_run m0 h b Hb)), bind_assert_true by done. eexists. by split.
Qed.
Next Obligation.
  intros hs loading storing m Hi. apply (unload_loop capacity lru_blocks lru_backend (λ _ : lru, True)); [|exact Hi].
  intros h b m0 Hb Hr. cbv beta. rewrite (bind_ok _ _ _ _ _ (lru_block_run m0 h b Hb)), bind_assert_true by (by apply bool_decide_eq_true_2).
  eexists. by split.
Qed.
Next Obligation.
  intros hs loading storing m [Hi _] _. eexists. split; [apply touch_run|]. simpl.
  pose proof (moves_perm (rev hs) (lru_blocks m) (tk_keys Hi)) as Hp. split.
  - split; [by eapply reorder_ok|done].
  - intros h. unfold place. by rewrite (od_get_perm (lru_blocks m)) by (apply Hi || done).
Qed.
Next Obligation.
  intros hs loading storing m [Hi _] Hnd. destruct (lru_store_policy hs loading storing m Hi Hnd) as (r & m' & Hrun & Hp & Hr).
  exists r, m'. split; [done|]. split; [done|]. destruct r; [|done]. destruct Hr as (? & ? & ?). done.
Qed.
Next Obligation.
  intros hs success loading storing m Hi Hnd Hin. by apply lru_finish_policy.
Qed.
Next Obligation. intros loading storing m [Hi _]. by eexists _, _. Qed.
End lru.
