(* ===== verification/Arc.v ===== *)
(** The adaptive replacement policy of offloaded blocks
    (vllm/v1/kv_offload/arc_manager.py). *)

From S2P Require Import Prelude.
From S2P Require Import OrderedDict.
From S2P Require Import PyFloat.
From S2P Require Import Offload.

(** [t1] and [t2] hold the blocks, [b1] and [b2] the hashes that left them. *)
Record ARCOffloadingManager (B A : Type) := mkARC {
  arc_backend : B;
  target_t1_size : number;
  t1 : list (bytes * BlockStatus A);
  t2 : list (bytes * BlockStatus A);
  b1 : list (bytes * unit);
  b2 : list (bytes * unit);
  arc_events : option (list OffloadingEvent);
  cache_capacity : Z
}.
Arguments mkARC {B A}.
Arguments arc_backend {B A} _.
Arguments target_t1_size {B A} _.
Arguments t1 {B A} _.
Arguments t2 {B A} _.
Arguments b1 {B A} _.
Arguments b2 {B A} _.
Arguments arc_events {B A} _.
Arguments cache_capacity {B A} _.

Section arc.
Context {B A : Type} `{Backend B A}.
Abbreviation arc := (ARCOffloadingManager B A).
Abbreviation statuses := (list (bytes * BlockStatus A)).
Abbreviation ghosts := (list (bytes * unit)).

Definition ARC_init (backend : B) (enable_events : bool) : arc :=
  mkARC backend (NFloat (float_of_Z 0)) [] [] [] [] (if enable_events then Some [] else None)
    (get_num_free_blocks backend).

Definition arc_eta (m : arc) : arc :=
  mkARC (arc_backend m) (target_t1_size m) (t1 m) (t2 m) (b1 m) (b2 m) (arc_events m) (cache_capacity m).
Definition set_arc_backend (v : B) : arc → arc := ltac:(record_set arc_eta (@arc_backend B A) v).
Definition set_target (v : number) : arc → arc := ltac:(record_set arc_eta (@target_t1_size B A) v).
Definition set_t1 (v : statuses) : arc → arc := ltac:(record_set arc_eta (@t1 B A) v).
Definition set_t2 (v : statuses) : arc → arc := ltac:(record_set arc_eta (@t2 B A) v).
Definition set_b1 (v : ghosts) : arc → arc := ltac:(record_set arc_eta (@b1 B A) v).
Definition set_b2 (v : ghosts) : arc → arc := ltac:(record_set arc_eta (@b2 B A) v).
Definition set_arc_events (v : option (list OffloadingEvent)) : arc → arc := ltac:(record_set arc_eta (@arc_events B A) v).
Definition arc_on_backend {X} (op : M B X) : M arc X := zoom arc_backend set_arc_backend op.

(** [self.t1.get(block_hash) or self.t2.get(block_hash)] *)
Definition arc_get (m : arc) (h : bytes) : option (BlockStatus A) :=
  match od_get h (t1 m) with Some b => Some b | None => od_get h (t2 m) end.
(** An update of the object that [arc_get] finds. *)
Definition arc_set_block (h : bytes) (b : BlockStatus A) : M arc unit :=
  modify (λ m, if od_mem h (t1 m) then set_t1 (od_set h b (t1 m)) m else set_t2 (od_set h b (t2 m)) m).

Definition arc_lookup (block_hashes : list bytes) (m : arc) : Z := count_ready (arc_get m) block_hashes.

Definition arc_prepare_load (block_hashes : list bytes) : M arc (list A) :=
  let* blocks := mapM (λ h,
    let* m := get in
    let* block := of_option AssertionError (arc_get m h) in
    assert_ (is_ready block) ;;;
    arc_set_block h (set_ref_cnt (ref_cnt block + 1) block) ;;;
    ret block) block_hashes in
  ret (get_load_store_spec block_hashes blocks).

Definition arc_complete_load (block_hashes : list bytes) : M arc unit :=
  for_ block_hashes (λ h,
    let* m := get in
    let* block := of_option AssertionError (arc_get m h) in
    assert_ (bool_decide (0 < ref_cnt block)) ;;;
    arc_set_block h (set_ref_cnt (ref_cnt block - 1) block)).

(** ** Touching *)

(** [max(1, hits / misses)] for ghost lists *)
Definition ghost_delta (others own : ghosts) : res number :=
  letr q := int_div (len others) (len own) in Ok (num_max (NInt 1) (NFloat q)).

Definition touch_block (h : bytes) : M arc unit :=
  let* m := get in
  if od_mem h (t1 m) then
    let* block := of_option KeyError (od_get h (t1 m)) in
    modify (set_t1 (od_del h (t1 m))) ;;;
    if negb (is_ready block) then
      let* m := get in
      let* d := of_option KeyError (od_move_to_end h (t1 m)) in
      modify (set_t1 d)
    else modify (λ m, set_t2 (od_set h block (t2 m)) m)
  else if od_mem h (t2 m) then
    let* d := of_option KeyError (od_move_to_end h (t2 m)) in
    modify (set_t2 d)
  else if od_mem h (b1 m) then
    let* delta := of_res (ghost_delta (b2 m) (b1 m)) in
    modify (set_target (num_min (num_add (target_t1_size m) delta) (NInt (cache_capacity m)))) ;;;
    let* d := of_option KeyError (od_move_to_end h (b1 m)) in
    modify (set_b1 d)
  else if od_mem h (b2 m) then
    let* delta := of_res (ghost_delta (b1 m) (b2 m)) in
    modify (set_target (num_max (num_sub (target_t1_size m) delta) (NInt 0))) ;;;
    let* d := of_option KeyError (od_move_to_end h (b2 m)) in
    modify (set_b2 d)
  else ret tt.
Definition arc_touch (block_hashes : list bytes) : M arc unit := for_ (rev block_hashes) touch_block.

(** ** Storing *)

(** The oldest block that nothing uses. *)
Fixpoint oldest_idle (blocks : statuses) : option (bytes * BlockStatus A) :=
  match blocks with
  | [] => None
  | (h, b) :: blocks => if decide (ref_cnt b = 0) then Some (h, b) else oldest_idle blocks
  end.
(** The block to evict, and whether it leaves [t1]. *)
Definition choose_victim (m : arc) : res (option (bytes * BlockStatus A * bool)) :=
  letr target := num_int (target_t1_size m) in
  match (if decide (target ≤ len (t1 m)) then oldest_idle (t1 m) else None) with
  | Some (h, b) => Ok (Some (h, b, true))
  | None => Ok ((λ p, (p.1, p.2, false)) <$> oldest_idle (t2 m))
  end.
(** The loop that evicts [n] blocks; [None] if it finds too few. *)
Fixpoint evict_blocks (n : nat) : M arc (option (list bytes)) :=
  match n with
  | O => ret (Some [])
  | S n =>
      let* m := get in
      let* victim := of_res (choose_victim m) in
      match victim with
      | None => ret None
      | Some (h, block, from_t1) =>
          modify (λ m, if from_t1 : bool then set_b1 (od_set h tt (b1 m)) (set_t1 (od_del h (t1 m)) m)
                       else set_b2 (od_set h tt (b2 m)) (set_t2 (od_del h (t2 m)) m)) ;;;
          arc_on_backend (backend_free block) ;;;
          let* rest := evict_blocks n in
          ret ((cons h) <$> rest)
      end
  end.

(** [for i in range(len(b) - capacity): b.popitem(last=False)] *)
Definition trim_ghosts (capacity : Z) (b : ghosts) : ghosts := drop (Z.to_nat (len b - capacity)) b.

Definition arc_record (hs : list bytes) (removed : bool) : M arc unit :=
  match hs with
  | [] => ret tt
  | _ => modify (λ m, set_arc_events
           ((λ evs, evs ++ [removed_event hs removed (arc_backend m)]) <$> arc_events m) m)
  end.

Definition arc_prepare_store (block_hashes : list bytes) : M arc (option (PrepareStoreOutput A)) :=
  let* m := get in
  let to_store := filter (λ h, (h ∉ od_keys (t1 m)) ∧ h ∉ od_keys (t2 m)) block_hashes in
  match to_store with
  | [] => ret (Some (mkPrepared [] (get_load_store_spec [] []) []))
  | _ =>
      let num_blocks_to_evict := len to_store - get_num_free_blocks (arc_backend m) in
      let* evicted := evict_blocks (Z.to_nat num_blocks_to_evict) in
      match evicted with
      | None => ret None
      | Some to_evict =>
          modify (λ m, set_b2 (trim_ghosts (cache_capacity m) (b2 m))
                         (set_b1 (trim_ghosts (cache_capacity m) (b1 m)) m)) ;;;
          arc_record to_evict true ;;;
          let* blocks := arc_on_backend (allocate_blocks to_store) in
          assert_ (bool_decide (len blocks = len to_store)) ;;;
          for_ (zip to_store blocks) (λ p,
            modify (λ m, set_b2 (od_del p.1 (b2 m)) (set_b1 (od_del p.1 (b1 m))
                           (set_t1 (od_set p.1 p.2 (t1 m)) m)))) ;;;
          ret (Some (mkPrepared to_store (get_load_store_spec to_store blocks) to_evict))
      end
  end.

(** The mark of a block that was being stored. *)
Definition arc_mark (h : bytes) : M arc (list bytes) :=
  let* m := get in
  match arc_get m h with
  | Some block =>
      if is_ready block then ret [] else
      arc_set_block h (set_ref_cnt 0 block) ;;;
      ret [h]
  | None => ret []
  end.
(** The removal of a block whose store failed; a ready block is dropped, too. *)
Definition arc_discard (h : bytes) : M arc unit :=
  let* m := get in
  match od_get h (t1 m) with
  | Some block =>
      modify (set_t1 (od_del h (t1 m))) ;;;
      if is_ready block then ret tt else arc_on_backend (backend_free block)
  | None =>
      match od_get h (t2 m) with
      | Some block =>
          modify (set_t2 (od_del h (t2 m))) ;;;
          if is_ready block then ret tt else arc_on_backend (backend_free block)
      | None => ret tt
      end
  end.
Definition arc_complete_store (block_hashes : list bytes) (success : bool) : M arc unit :=
  let* stored :=
    if success then let* marks := mapM arc_mark block_hashes in ret (concat marks)
    else for_ block_hashes arc_discard ;;; ret [] in
  arc_record stored false.

Definition arc_take_events : M arc (list OffloadingEvent) :=
  let* m := get in
  modify (set_arc_events ((λ _, []) <$> arc_events m)) ;;;
  ret (default [] (arc_events m)).

#[export] Instance arc_manager : OffloadingManager arc A := {
  lookup := arc_lookup;
  prepare_load := arc_prepare_load;
  touch := arc_touch;
  complete_load := arc_complete_load;
  prepare_store := arc_prepare_store;
  complete_store := arc_complete_store;
  take_events := arc_take_events
}.
End arc.
