(* ===== verification/ArcSpec.v ===== *)
(** The adaptive policy keeps the promises of a policy, as long as no block is
    touched while it is being stored. *)

From S2P Require Import Prelude.
From S2P Require Import OrderedDict.
From S2P Require Import BlockHash.
From S2P Require Import PyFloat.
From S2P Require Import Offload.
From S2P Require Import OffloadSpec.
From S2P Require Import Arc.

(** ** Two dictionaries as one *)

Section dicts.
Context {V : Type}.
Implicit Types (h : bytes) (d : list (bytes * V)).

Lemma od_set_app h v d d' :
  od_set h v (d ++ d') = if od_mem h d then od_set h v d ++ d' else d ++ od_set h v d'.
Proof.
  induction d as [|[k w] d IH]; [done|]. unfold od_mem in *. simpl. destruct (decide (k = h)) as [->|]; [done|].
  rewrite IH. by destruct (bool_decide (is_Some (od_get h d))).
Qed.
Lemma od_mem_app h d d' : od_mem h d = false → od_get h (d ++ d') = od_get h d'.
Proof.
  intros Hm. rewrite od_get_app. destruct (od_get h d) eqn:Hh; [|done]. unfold od_mem in Hm. by rewrite Hh in Hm.
Qed.
Lemma od_mem_some h v d : od_get h d = Some v → od_mem h d = true.
Proof. intros Hh. unfold od_mem. by rewrite Hh. Qed.
Lemma od_mem_none h d : od_get h d = None → od_mem h d = false.
Proof. intros Hh. unfold od_mem. by rewrite Hh. Qed.
Lemma od_del_app h d d' : od_del h (d ++ d') = od_del h d ++ od_del h d'.
Proof. apply filter_app. Qed.
Lemma od_del_length h d : len (od_del h d) ≤ len d.
Proof. unfold od_del, len. pose proof (length_filter (λ p : bytes * V, p.1 ≠ h) d). lia. Qed.
Lemma od_set_length h v d : len (od_set h v d) ≤ len d + 1.
Proof.
  unfold len. induction d as [|[k w] d IH]; [done|]. simpl. case_decide; simpl; lia.
Qed.
Lemma od_set_length_old h v d : od_mem h d = true → len (od_set h v d) = len d.
Proof.
  intros Hm%od_mem_keys. apply (od_set_keys_old h v) in Hm. unfold od_keys in Hm. apply (f_equal length) in Hm.
  rewrite !length_map in Hm. unfold len. lia.
Qed.
Lemma od_move_length h d d' : NoDup (od_keys d) → od_move_to_end h d = Some d' → d' ≡ₚ d.
Proof.
  intros Hnd. unfold od_move_to_end. destruct (od_get h d) as [v|] eqn:Hv; [|done]. intros [= <-].
  rewrite (od_del_perm h v d Hnd Hv) at 2. by rewrite <- Permutation_cons_append.
Qed.
End dicts.

Section arc.
Context {B A : Type} {HB : Backend B A} (capacity : Z) {HL : BackendLaws B A capacity}.
Abbreviation arc := (ARCOffloadingManager B A).
Implicit Types (m : arc) (h : bytes) (hs loading : list bytes) (storing : gset bytes).

Definition arc_blocks m : list (bytes * BlockStatus A) := t1 m ++ t2 m.

(** The target is a number in the range of the cache, and the ghost lists are
    bounded. *)
Record arc_state m : Prop := {
  as_target : ranged capacity (target_t1_size m);
  as_capacity : cache_capacity m = capacity;
  as_width : 0 ≤ capacity ∧ 2 * capacity < 2 ^ 53;
  as_b1 : NoDup (od_keys (b1 m)) ∧ len (b1 m) + len (arc_blocks m) ≤ 2 * capacity;
  as_b2 : NoDup (od_keys (b2 m)) ∧ len (b2 m) + len (arc_blocks m) ≤ 2 * capacity
}.
Abbreviation arc_policy := (managed (capacity := capacity) arc_blocks arc_backend arc_state).

Lemma arc_get_spec m h : arc_get m h = od_get h (arc_blocks m).
Proof. unfold arc_get, arc_blocks. by rewrite od_get_app. Qed.

(** Blocks of the same number keep the state. *)
Lemma state_blocks m m' : target_t1_size m' = target_t1_size m → cache_capacity m' = cache_capacity m →
  b1 m' = b1 m → b2 m' = b2 m → len (arc_blocks m') ≤ len (arc_blocks m) → arc_state m → arc_state m'.
Proof. intros H1 H2 H3 H4 Hlen [S1 S2 S3 [S4 S4'] [S5 S5']]. split; rewrite ?H1, ?H2, ?H3, ?H4; (done || (split; [done|lia])). Qed.

Lemma set_block_run m h b v : od_get h (arc_blocks m) = Some b →
  ∃ m', arc_set_block h (set_ref_cnt v b) m = (Ok tt, m') ∧
    updates arc_blocks arc_backend arc_state h (set_ref_cnt v b) m m'.
Proof.
  intros Hb. unfold arc_set_block, modify. eexists. split; [reflexivity|].
  assert (Hbl : arc_blocks (if od_mem h (t1 m) then set_t1 (od_set h (set_ref_cnt v b) (t1 m)) m
      else set_t2 (od_set h (set_ref_cnt v b) (t2 m)) m) = od_set h (set_ref_cnt v b) (arc_blocks m)).
  { unfold arc_blocks. rewrite od_set_app. by destruct (od_mem h (t1 m)). }
  assert (Hlen : len (od_set h (set_ref_cnt v b) (arc_blocks m)) = len (arc_blocks m)).
  { apply od_set_length_old. by eapply od_mem_some. }
  split; [|exact Hbl|by destruct (od_mem h (t1 m))].
  apply state_blocks; try (by destruct (od_mem h (t1 m))). rewrite Hbl. lia.
Qed.

(** ** Loads *)

Lemma arc_load hs loading storing m : arc_policy loading storing m →
  (∀ h, h ∈ hs → h ∈ od_keys (arc_blocks m) ∧ h ∉ storing) → len loading + len hs < 2 ^ 31 →
  ∃ addrs m', arc_prepare_load hs m = (Ok addrs, m') ∧ arc_policy (hs ++ loading) storing m' ∧
    (∀ h, place (arc_blocks m') h = place (arc_blocks m) h) ∧
    Forall2 (λ h a, place (arc_blocks m) h = Some a) hs addrs.
Proof.
  intros Hi Hhs Hw. edestruct (load_loop capacity arc_blocks arc_backend arc_state)
    as (bs & m' & Hrun & Hi' & Hs & Hall); [|exact Hi|exact Hhs|exact Hw|].
  2: { exists (map address bs), m'. split; [|done]. unfold arc_prepare_load. by rewrite (bind_ok _ _ _ _ _ Hrun). }
  intros h b m0 Hb Hr. cbv beta. unfold bind at 1. cbn [get]. rewrite arc_get_spec, Hb. cbn [of_option]. rewrite bind_ret_l.
  rewrite bind_assert_true by done. destruct (set_block_run m0 h b (ref_cnt b + 1) Hb) as (m1 & Hrun1 & Hup).
  exists m1. split; [|done]. by rewrite (bind_ok _ _ _ _ _ Hrun1).
Qed.

Lemma arc_unload hs loading storing m : arc_policy (hs ++ loading) storing m →
  ∃ m', arc_complete_load hs m = (Ok tt, m') ∧ arc_policy loading storing m' ∧
    (∀ h, place (arc_blocks m') h = place (arc_blocks m) h).
Proof.
  intros Hi. apply (unload_loop capacity arc_blocks arc_backend arc_state); [|exact Hi].
  intros h b m0 Hb Hr. cbv beta. unfold bind at 1. cbn [get]. rewrite arc_get_spec, Hb. cbn [of_option]. rewrite bind_ret_l.
  rewrite bind_assert_true by (by apply bool_decide_eq_true_2). by apply set_block_run.
Qed.

(** ** Touching *)

Lemma ghost_delta_ok (others own : list (bytes * unit)) h : od_mem h own = true →
  len others < 2 ^ 53 → len own < 2 ^ 53 → ∃ d, ghost_delta others own = Ok d ∧ positive_delta d.
Proof.
  intros Hh Ho Hw. assert (Hpos : 0 < len own).
  { destruct own; [by apply od_mem_keys, elem_of_nil in Hh|]. rewrite len_cons. pose proof (len_nonneg own). lia. }
  destruct (int_div_nonneg (len others) (len own)) as (q & Hq & Hpq); [pose proof (len_nonneg others); lia|lia|].
  unfold ghost_delta. rewrite Hq. eexists. split; [reflexivity|]. unfold num_max. by destruct (num_lt _ _).
Qed.

(** [m'] has the blocks of [m] in another order. *)
Record reordered m m' : Prop := {
  re_blocks : arc_blocks m' ≡ₚ arc_blocks m;
  re_backend : arc_backend m' = arc_backend m;
  re_state : arc_state m'
}.

Lemma touch_t1 loading storing m h b : arc_policy loading storing m → od_get h (t1 m) = Some b → is_ready b = true →
  ∃ m', touch_block h m = (Ok tt, m') ∧ reordered m m'.
Proof.
  intros [Hi Hst] Hb Hr. unfold touch_block. unfold bind at 1. cbn [get]. rewrite (od_mem_some h b) by done.
  rewrite Hb. cbn [of_option]. rewrite bind_ret_l, bind_modify, Hr. cbn [negb]. unfold modify. eexists. split; [reflexivity|].
  assert (Hp : od_del h (t1 m) ++ od_set h b (t2 m) ≡ₚ t1 m ++ t2 m).
  { pose proof (tk_keys Hi) as Hnd. unfold arc_blocks in Hnd. rewrite od_keys_app in Hnd. apply NoDup_app in Hnd as (H1 & H2 & _).
    rewrite od_set_new by (apply H2, od_get_keys; by eexists).
    rewrite (od_del_perm h b (t1 m) H1 Hb) at 2. rewrite app_assoc, <- Permutation_cons_append. done. }
  split; [exact Hp|done|]. apply (state_blocks m); try done. unfold arc_blocks, len. simpl. by rewrite Hp.
Qed.

Lemma touch_t2 loading storing m h : arc_policy loading storing m → od_mem h (t1 m) = false → od_mem h (t2 m) = true →
  ∃ m', touch_block h m = (Ok tt, m') ∧ reordered m m'.
Proof.
  intros [Hi Hst] H1 H2. unfold touch_block. unfold bind at 1. cbn [get]. rewrite H1, H2.
  pose proof (tk_keys Hi) as Hnd. unfold arc_blocks in Hnd. rewrite od_keys_app in Hnd. apply NoDup_app in Hnd as (_ & _ & Hnd).
  pose proof H2 as (v & Hv)%od_mem_keys%od_get_keys. destruct (od_move_to_end h (t2 m)) as [d|] eqn:Hd.
  2: { unfold od_move_to_end in Hd. by rewrite Hv in Hd. }
  cbn [of_option]. rewrite bind_ret_l. eexists. split; [reflexivity|]. pose proof (od_move_length h _ _ Hnd Hd) as Hp.
  assert (Hp' : t1 m ++ d ≡ₚ t1 m ++ t2 m) by by rewrite Hp.
  split; [exact Hp'|done|]. apply (state_blocks m); try done. unfold arc_blocks, len. simpl. by rewrite Hp'.
Qed.

Lemma ghost_move h (b b' : list (bytes * unit)) n : od_move_to_end h b = Some b' →
  NoDup (od_keys b) ∧ len b + n ≤ 2 * capacity → NoDup (od_keys b') ∧ len b' + n ≤ 2 * capacity.
Proof.
  intros Hd [Hnd Hlen]. pose proof (od_move_length h _ _ Hnd Hd) as Hp. unfold od_keys, len in *. by rewrite Hp.
Qed.

Lemma touch_ghost m h : arc_state m → od_mem h (t1 m) = false → od_mem h (t2 m) = false →
  ∃ m', touch_block h m = (Ok tt, m') ∧ reordered m m'.
Proof.
  intros [S1 S2 S3 S4 S5] H1 H2. unfold touch_block. unfold bind at 1. cbn [get]. rewrite H1, H2.
  pose proof (len_nonneg (arc_blocks m)). destruct (od_mem h (b1 m)) eqn:H3; [|destruct (od_mem h (b2 m)) eqn:H4].
  - destruct (ghost_delta_ok (b2 m) (b1 m) h H3) as (d & -> & Hd); [lia|lia|]. rewrite bind_of_res, bind_modify.
    pose proof H3 as (v & Hv)%od_mem_keys%od_get_keys. rewrite (od_move_to_end_spec h v) by done.
    cbn [of_option]. rewrite bind_ret_l. eexists. split; [reflexivity|]. split; [done|done|]. split; try done.
    + rewrite S2. apply ranged_grow; [lia|done|done].
    + apply (ghost_move h (b1 m)); [by apply od_move_to_end_spec|done].
  - destruct (ghost_delta_ok (b1 m) (b2 m) h H4) as (d & -> & Hd); [lia|lia|]. rewrite bind_of_res, bind_modify.
    pose proof H4 as (v & Hv)%od_mem_keys%od_get_keys. rewrite (od_move_to_end_spec h v) by done.
    cbn [of_option]. rewrite bind_ret_l. eexists. split; [reflexivity|]. split; [done|done|]. split; try done.
    + apply ranged_shrink; [lia|done|done].
    + apply (ghost_move h (b2 m)); [by apply od_move_to_end_spec|done].
  - exists m. by split.
Qed.

Lemma touch_one loading storing m h : arc_policy loading storing m → h ∉ storing →
  ∃ m', touch_block h m = (Ok tt, m') ∧ arc_policy loading storing m' ∧ same_places arc_blocks m m'.
Proof.
  intros Hp Hs. assert (∃ m', touch_block h m = (Ok tt, m') ∧ reordered m m') as (m' & Hrun & [Hbl Hbk Hst]).
  { destruct (od_get h (t1 m)) as [b|] eqn:H1.
    - apply (touch_t1 loading storing m h b Hp H1). apply (ready_iff capacity _ _ _ _ h b (proj1 Hp)); [|done].
      unfold arc_blocks. by rewrite od_get_app, H1.
    - apply od_mem_none in H1. destruct (od_mem h (t2 m)) eqn:H2; [by eapply touch_t2|]. by apply touch_ghost; [apply Hp|..]. }
  exists m'. split; [done|]. split.
  - split; [|done]. rewrite Hbk. eapply reorder_ok; [apply (proj1 Hp)|done].
  - intros x. unfold place. by rewrite (od_get_perm (arc_blocks m)) by (apply (tk_keys (proj1 Hp)) || done).
Qed.

Lemma arc_touch_ok hs loading storing m : arc_policy loading storing m → (∀ h, h ∈ hs → h ∉ storing) →
  ∃ m', arc_touch hs m = (Ok tt, m') ∧ arc_policy loading storing m' ∧ same_places arc_blocks m m'.
Proof.
  intros Hp Hhs. unfold arc_touch.
  destruct (for_inv (λ l m', arc_policy loading storing m' ∧ same_places arc_blocks m m' ∧ ∀ h, h ∈ l → h ∉ storing) touch_block (rev hs) m)
    as (m' & Hrun & Hm' & Hsame & _).
  - split; [done|]. split; [done|]. intros h Hh. apply Hhs. by rewrite list_elem_of_In, <- in_rev, <- list_elem_of_In in Hh.
  - intros h l m1 (Hm1 & Hs1 & Hl). destruct (touch_one loading storing m1 h Hm1) as (m2 & Hrun & Hm2 & Hs2); [apply Hl; by left|].
    exists m2. split; [done|]. split; [done|]. split; [|intros x Hx; apply Hl; by right]. intros x. by rewrite (Hs2 x).
  - by exists m'.
Qed.

(** ** The end of a store *)

Lemma arc_record_run hs removed m : ∃ evs, arc_record hs removed m = (Ok tt, set_arc_events evs m).
Proof. destruct hs; [exists (arc_events m); by destruct m|by eexists]. Qed.

Lemma discard_run h b m bk : od_get h (arc_blocks m) = Some b → is_ready b = false → NoDup (od_keys (arc_blocks m)) →
  backend_free b (arc_backend m) = (Ok tt, bk) →
  ∃ m', arc_discard h m = (Ok tt, m') ∧ arc_blocks m' = od_del h (arc_blocks m) ∧ arc_backend m' = bk ∧
    (arc_state m → arc_state m').
Proof.
  intros Hb Hr Hnd Hfree. unfold arc_discard. unfold bind at 1. cbn [get]. unfold arc_blocks in Hb, Hnd. rewrite od_get_app in Hb.
  rewrite od_keys_app in Hnd. apply NoDup_app in Hnd as (_ & Hdis & _). pose proof (od_del_length h (arc_blocks m)) as Hlen.
  unfold arc_blocks in Hlen. rewrite od_del_app in Hlen. destruct (od_get h (t1 m)) as [b'|] eqn:H1.
  - injection Hb as ->. rewrite bind_modify, Hr. unfold arc_on_backend, zoom. simpl. rewrite Hfree.
    assert (H2 : od_del h (t2 m) = t2 m) by (apply od_del_absent, Hdis, od_get_keys; by eexists). rewrite H2 in Hlen.
    eexists. split; [reflexivity|]. unfold arc_blocks. simpl. split; [by rewrite od_del_app, H2|]. split; [done|].
    by apply state_blocks.
  - rewrite Hb, bind_modify, Hr. unfold arc_on_backend, zoom. simpl. rewrite Hfree.
    assert (H2 : od_del h (t1 m) = t1 m) by (by apply od_del_absent, od_get_none). rewrite H2 in Hlen.
    eexists. split; [reflexivity|]. unfold arc_blocks. simpl. split; [by rewrite od_del_app, H2|]. split; [done|].
    by apply state_blocks.
Qed.

Lemma arc_finish hs success loading storing m : arc_policy loading storing m → NoDup hs →
  (∀ h, h ∈ hs → h ∈ storing) →
  ∃ m', arc_complete_store hs success m = (Ok tt, m') ∧ arc_policy loading (storing ∖ list_to_set hs) m' ∧
    (∀ h, h ∉ hs → place (arc_blocks m') h = place (arc_blocks m) h).
Proof.
  intros Hi Hnd Hin. unfold arc_complete_store. destruct success.
  - destruct (mark_loop capacity arc_blocks arc_backend arc_state arc_mark) with (2 := Hi) (3 := Hnd) (4 := Hin)
      as (marks & m1 & Hrun & Hmarks & [Hi1 Hst1] & Hs).
    { intros h b m0 Hb Hr. unfold arc_mark. unfold bind at 1. cbn [get]. rewrite arc_get_spec, Hb, Hr.
      destruct (set_block_run m0 h b 0 Hb) as (m1 & Hrun1 & Hup). exists m1. split; [|done].
      by rewrite (bind_ok _ _ _ _ _ Hrun1). }
    rewrite bind_assoc, (bind_ok _ _ _ _ _ Hrun), bind_ret_l. destruct (arc_record_run (concat marks) false m1) as (evs & Hrec).
    eexists. split; [exact Hrec|]. split; [|intros h _; apply Hs]. split; [exact Hi1|]. by apply (state_blocks m1).
  - destruct (discard_loop capacity arc_blocks arc_backend arc_state arc_discard) with (2 := Hi) (3 := Hnd) (4 := Hin)
      as (m1 & Hrun & Hi1 & Hs).
    2: { rewrite bind_assoc, (bind_ok _ _ _ _ _ Hrun). by exists m1. }
    apply discard_run.
Qed.

(** ** Storing *)

Lemma oldest_idle_in (d : list (bytes * BlockStatus A)) h b : oldest_idle d = Some (h, b) → (h, b) ∈ d ∧ ref_cnt b = 0.
Proof.
  induction d as [|[k s] d IH]; [done|]. simpl. destruct (decide (ref_cnt s = 0)) as [Hs|Hs].
  - intros [= -> ->]. by split; [left|].
  - intros Hf. destruct (IH Hf). by split; [right|].
Qed.

Definition evicted m h (from_t1 : bool) : arc :=
  if from_t1 then set_b1 (od_set h tt (b1 m)) (set_t1 (od_del h (t1 m)) m)
  else set_b2 (od_set h tt (b2 m)) (set_t2 (od_del h (t2 m)) m).

Lemma choose_ok m : arc_state m → ∃ v, choose_victim m = Ok v ∧
  match v with
  | Some (h, b, from_t1) => (h, b) ∈ (if from_t1 : bool then t1 m else t2 m) ∧ ref_cnt b = 0
  | None => True
  end.
Proof.
  intros Hst. unfold choose_victim. destruct (ranged_int _ _ (as_target m Hst)) as [n ->]. simpl.
  destruct (if decide (n ≤ len (t1 m)) then oldest_idle (t1 m) else None) as [[h b]|] eqn:H1.
  - eexists. split; [reflexivity|]. apply oldest_idle_in. by destruct (decide (n ≤ len (t1 m))).
  - eexists. split; [reflexivity|]. destruct (oldest_idle (t2 m)) as [[h b]|] eqn:H2; [|done]. by apply oldest_idle_in.
Qed.

Lemma del_one (d : list (bytes * BlockStatus A)) h b : NoDup (od_keys d) → (h, b) ∈ d → len d = len (od_del h d) + 1.
Proof.
  intros Hnd Hin. pose proof (od_del_perm h b d Hnd (od_get_nodup _ _ _ Hnd Hin)) as Hp.
  unfold len. rewrite Hp at 1. simpl. lia.
Qed.

Lemma ghost_set_nodup h (b : list (bytes * unit)) : NoDup (od_keys b) → NoDup (od_keys (od_set h tt b)).
Proof. apply od_set_nodup. Qed.

(** One eviction. *)
Lemma evict_one loading storing m h b from_t1 : arc_policy loading storing m →
  (h, b) ∈ (if from_t1 : bool then t1 m else t2 m) → ref_cnt b = 0 →
  ∃ bk, backend_free b (arc_backend m) = (Ok tt, bk) ∧
    let m' := set_arc_backend bk (evicted m h from_t1) in
    arc_policy loading storing m' ∧ arc_blocks m' = od_del h (arc_blocks m) ∧ (h ∉ loading) ∧ (h ∉ storing) ∧
    get_num_free_blocks bk = get_num_free_blocks (arc_backend m) + 1.
Proof.
  intros [Hi Hst] Hin Hz. pose proof (tk_keys Hi) as Hnd.
  assert (Hall : (h, b) ∈ arc_blocks m) by (unfold arc_blocks; destruct from_t1; set_solver).
  pose proof (od_get_nodup _ _ _ Hnd Hall) as Hb. pose proof (tk_status Hi h b Hb) as Hcnt.
  assert (Hs : h ∉ storing) by (intros Hs; rewrite decide_True in Hcnt by done; lia).
  rewrite decide_False in Hcnt by done. assert (Hl : h ∉ loading) by (rewrite <- occ_pos; lia).
  destruct (remove_ok capacity loading storing _ _ h b Hi Hb Hl) as (bk & Hfree & Hi').
  rewrite difference_disjoint_L in Hi' by set_solver. exists bk. split; [done|]. cbv zeta.
  assert (Hbl : arc_blocks (set_arc_backend bk (evicted m h from_t1)) = od_del h (arc_blocks m)).
  { unfold arc_blocks in *. rewrite od_del_app. rewrite od_keys_app in Hnd. apply NoDup_app in Hnd as (_ & Hdis & _).
    destruct from_t1; simpl; f_equal; symmetry; apply od_del_absent.
    - by apply Hdis, (od_in_keys h b).
    - intros Hin'. by apply (Hdis h Hin'), (od_in_keys h b). }
  pose proof (del_one _ h b Hnd Hall) as Hlen.
  assert (Hst' : arc_state (set_arc_backend bk (evicted m h from_t1))).
  { destruct Hst as [S1 S2 S3 [S4 S4'] [S5 S5']]. pose proof (od_set_length h tt (b1 m)). pose proof (od_set_length h tt (b2 m)).
    split; rewrite ?Hbl; destruct from_t1; try done; simpl; split; try (by apply od_set_nodup); try done; lia. }
  split; [split; [|done]|split; [done|split; [done|split; [done|]]]].
  - rewrite Hbl. by destruct from_t1.
  - pose proof (bl_count _ _ (tk_backend Hi)) as Hc. pose proof (bl_count _ _ (tk_backend Hi')) as Hc'.
    unfold len in *. rewrite length_map in Hc, Hc'. lia.
Qed.

Lemma arc_evict_run n : ∀ loading storing m, arc_policy loading storing m →
  ∃ r m', evict_blocks n m = (Ok r, m') ∧ arc_policy loading storing m' ∧
    (∀ h, h ∈ loading ∨ h ∈ storing → place (arc_blocks m') h = place (arc_blocks m) h) ∧
    (∀ h, h ∈ od_keys (arc_blocks m') → h ∈ od_keys (arc_blocks m)) ∧
    (is_Some r → get_num_free_blocks (arc_backend m') = get_num_free_blocks (arc_backend m) + Z.of_nat n).
Proof.
  induction n as [|n IH]; intros loading storing m Hp.
  { exists (Some []), m. split; [done|]. split; [done|]. split; [done|]. split; [done|]. lia. }
  cbn [evict_blocks]. unfold bind at 1. cbn [get]. destruct (choose_ok m (proj2 Hp)) as (v & -> & Hv). rewrite bind_of_res.
  destruct v as [[[h b] from_t1]|]; [|exists None, m; repeat split; (done || by apply Hp || by intros [])].
  destruct Hv as [Hin Hz]. rewrite bind_modify. fold (evicted m h from_t1).
  destruct (evict_one loading storing m h b from_t1 Hp Hin Hz) as (bk & Hfree & Hp1 & Hbl & Hl & Hs & Hfr).
  assert (Hback : arc_on_backend (backend_free b) (evicted m h from_t1) = (Ok tt, set_arc_backend bk (evicted m h from_t1))).
  { unfold arc_on_backend, zoom. replace (arc_backend (evicted m h from_t1)) with (arc_backend m) by by destruct from_t1. by rewrite Hfree. }
  rewrite (bind_ok _ _ _ _ _ Hback). destruct (IH loading storing _ Hp1) as (r & m' & Hrun & Hp' & Hpl & Hk & Hf).
  rewrite (bind_ok _ _ _ _ _ Hrun). eexists _, m'. split; [reflexivity|]. split; [done|]. rewrite Hbl in Hpl, Hk.
  split; [|split].
  - intros x Hx. rewrite (Hpl x Hx). unfold place. rewrite od_get_del, decide_False; [done|]. intros ->. tauto.
  - intros x Hx. by apply Hk, od_del_keys in Hx as [_ ?].
  - intros Hsome. rewrite Hf by by destruct r. simpl arc_backend. rewrite Hfr. lia.
Qed.

(** The insertion of new blocks in [t1]. *)
Record inserted m hs (new : list (BlockStatus A)) m' : Prop := {
  in_t1 : t1 m' = t1 m ++ zip hs new;
  in_t2 : t2 m' = t2 m;
  in_rest : arc_backend m' = arc_backend m ∧ target_t1_size m' = target_t1_size m ∧ cache_capacity m' = cache_capacity m;
  in_b1 : len (b1 m') ≤ len (b1 m) ∧ (NoDup (od_keys (b1 m)) → NoDup (od_keys (b1 m')));
  in_b2 : len (b2 m') ≤ len (b2 m) ∧ (NoDup (od_keys (b2 m)) → NoDup (od_keys (b2 m')))
}.

Lemma arc_insert_run hs : ∀ (new : list (BlockStatus A)) m, NoDup hs → length new = length hs →
  (∀ h, h ∈ hs → h ∉ od_keys (t1 m)) →
  ∃ m', for_ (zip hs new) (λ p, modify (λ m, set_b2 (od_del p.1 (b2 m)) (set_b1 (od_del p.1 (b1 m))
      (set_t1 (od_set p.1 p.2 (t1 m)) m)))) m = (Ok tt, m') ∧ inserted m hs new m'.
Proof.
  induction hs as [|h hs IH]; intros [|b new] m Hnd Hlen Hhs; try done.
  { exists m. split; [done|]. split; [by rewrite app_nil_r|done|done| |]; (split; [lia|done]). }
  apply NoDup_cons in Hnd as [Hh Hnd]. injection Hlen as Hlen. cbn [zip zip_with for_]. rewrite bind_modify. simpl fst. simpl snd.
  rewrite od_set_new by (apply Hhs; by left). set (m1 := set_b2 _ _).
  destruct (IH new m1 Hnd Hlen) as (m' & Hrun & [I1 I2 I3 [I4 I4'] [I5 I5']]).
  { intros x Hx. simpl. rewrite od_keys_app, elem_of_app. simpl. rewrite list_elem_of_singleton.
    intros [Hin| ->]; [|done]. apply (Hhs x); [by right|done]. }
  exists m'. split; [done|]. simpl in *. pose proof (od_del_length h (b1 m)). pose proof (od_del_length h (b2 m)).
  split; [by rewrite I1, <- app_assoc|done|done| |]; (split; [lia|]); intros; [apply I4'|apply I5']; by apply od_del_nodup.
Qed.

Definition arc_new m hs : list bytes := filter (λ h, h ∉ od_keys (arc_blocks m)) hs.

Lemma trim_ok (b : list (bytes * unit)) : 0 ≤ capacity → NoDup (od_keys b) →
  len (trim_ghosts capacity b) ≤ capacity ∧ NoDup (od_keys (trim_ghosts capacity b)).
Proof.
  intros Hc Hnd. unfold trim_ghosts. split; [unfold len; rewrite length_drop; lia|].
  unfold od_keys in *. rewrite <- skipn_map. eapply sublist_NoDup; [exact Hnd|apply sublist_drop].
Qed.

(** After the evictions the new blocks are allocated and tracked. *)
Lemma arc_allocate loading storing m hs to_evict : arc_policy loading storing m → NoDup hs →
  (∀ h, h ∈ hs → h ∉ od_keys (arc_blocks m)) → len hs ≤ get_num_free_blocks (arc_backend m) →
  ∃ addrs m', (modify (λ m, set_b2 (trim_ghosts (cache_capacity m) (b2 m))
                         (set_b1 (trim_ghosts (cache_capacity m) (b1 m)) m)) ;;;
          arc_record to_evict true ;;;
          let* blocks := arc_on_backend (allocate_blocks hs) in
          assert_ (bool_decide (len blocks = len hs)) ;;;
          for_ (zip hs blocks) (λ p,
            modify (λ m, set_b2 (od_del p.1 (b2 m)) (set_b1 (od_del p.1 (b1 m))
                           (set_t1 (od_set p.1 p.2 (t1 m)) m)))) ;;;
          ret (Some (mkPrepared hs (get_load_store_spec hs blocks) to_evict))) m
    = (Ok (Some (mkPrepared hs addrs to_evict)), m') ∧
    length addrs = length hs ∧ arc_policy loading (storing ∪ list_to_set hs) m' ∧
    arc_blocks m' ≡ₚ arc_blocks m ++ zip hs (map BlockStatus_new addrs).
Proof.
  intros [Hi Hst] Hnd Hfresh Hfree. rewrite bind_modify. set (m1 := set_b2 _ _). destruct (arc_record_run to_evict true m1) as (evs & Hrec).
  rewrite (bind_ok _ _ _ _ _ Hrec). set (m2 := set_arc_events evs m1).
  destruct (bl_allocate _ _ hs (tk_backend Hi) Hfree) as (new & bk & Hrun & Hlen & Hall & Hok).
  assert (Hback : arc_on_backend (allocate_blocks hs) m2 = (Ok new, set_arc_backend bk m2)).
  { unfold arc_on_backend, zoom. simpl. by rewrite Hrun. }
  rewrite (bind_ok _ _ _ _ _ Hback), bind_assert_true by (apply bool_decide_eq_true_2; lia).
  destruct (arc_insert_run hs new (set_arc_backend bk m2) Hnd) as (m' & Hrun' & [I1 I2 (I3 & I4 & I5) I6 I7]); [unfold len in Hlen; lia| |].
  { intros h Hh Hin. apply (Hfresh h Hh). unfold arc_blocks. rewrite od_keys_app. apply elem_of_app. by left. }
  rewrite (bind_ok _ _ _ _ _ Hrun'). exists (map address new), m'. split; [done|]. simpl in I1, I2, I3, I4, I5, I6, I7.
  assert (Hla : length (map address new) = length hs) by (rewrite length_map; unfold len in Hlen; lia).
  assert (Hbl : arc_blocks m' ≡ₚ arc_blocks m ++ zip hs (map BlockStatus_new (map address new))).
  { unfold arc_blocks. rewrite I1, I2, <- (ready_new new Hall), <- !app_assoc. by rewrite (Permutation_app_comm (zip hs new)). }
  split; [done|]. split; [|done]. assert (Htr : tracked capacity loading (storing ∪ list_to_set hs) (arc_blocks m') (arc_backend m')).
  { eapply reorder_ok; [|exact Hbl]. rewrite I3. by eapply append_ok. }
  split; [done|]. destruct Hst as [S1 S2 S3 [S4 S4'] [S5 S5']]. rewrite S2 in I6, I7.
  destruct (trim_ok (b1 m) ltac:(lia) S4). destruct (trim_ok (b2 m) ltac:(lia) S5).
  pose proof (bl_count _ _ (tk_backend Htr)) as Hc. pose proof (bl_free_nonneg _ _ (tk_backend Htr)).
  assert (Hcap : len (arc_blocks m') ≤ capacity) by (unfold len in *; rewrite length_map in Hc; lia).
  split; [by rewrite I4|by rewrite I5|done| |]; (split; [naive_solver|lia]).
Qed.

Lemma arc_store hs loading storing m : arc_policy loading storing m → NoDup hs →
  ∃ r m', arc_prepare_store hs m = (Ok r, m') ∧
    (∀ h, h ∈ loading ∨ h ∈ storing → place (arc_blocks m') h = place (arc_blocks m) h) ∧
    match r with
    | None => arc_policy loading storing m'
    | Some out => block_hashes_to_store out = arc_new m hs ∧
        Forall2 (λ h a, place (arc_blocks m') h = Some a) (arc_new m hs) (store_spec out) ∧
        arc_policy loading (storing ∪ list_to_set (arc_new m hs)) m'
    end.
Proof.
  intros Hp Hnd. unfold arc_prepare_store. unfold bind at 1. cbn [get].
  assert (Hnew : filter (λ h, (h ∉ od_keys (t1 m)) ∧ h ∉ od_keys (t2 m)) hs = arc_new m hs).
  { apply filter_ext_in. intros h _. unfold arc_blocks. rewrite od_keys_app, not_elem_of_app. done. }
  rewrite Hnew. assert (Hndn : NoDup (arc_new m hs)) by by apply NoDup_filter.
  assert (Hfresh : ∀ h, h ∈ arc_new m hs → h ∉ od_keys (arc_blocks m)) by (intros h Hh; by apply list_elem_of_filter in Hh as [? _]).
  destruct (arc_new m hs) as [|h0 new0] eqn:Hn.
  { eexists _, m. split; [reflexivity|]. split; [done|]. split; [done|]. split; [constructor|]. by rewrite list_to_set_nil, union_empty_r_L. }
  rewrite <- Hn in *. set (n := Z.to_nat _). destruct (arc_evict_run n loading storing m Hp) as (r & m1 & Hrun & Hp1 & Hpl & Hk & Hf).
  rewrite (bind_ok _ _ _ _ _ Hrun). destruct r as [to_evict|]; [|by exists None, m1].
  destruct (arc_allocate loading storing m1 (arc_new m hs) to_evict Hp1 Hndn) as (addrs & m' & Hrun' & Hlen & Hp' & Hbl).
  { intros h Hh Hin. by apply (Hfresh h Hh), Hk. }
  { rewrite Hf by done. unfold n. lia. }
  eexists _, m'. split; [exact Hrun'|]. pose proof (tk_keys (proj1 Hp')) as Hkeys. split; [|split; [done|split; [|done]]].
  - intros h Hh. rewrite <- (Hpl h Hh). apply (placed_kept _ _ []); [done| | |apply not_elem_of_nil].
    + intros p Hpin _. rewrite Hbl. apply elem_of_app. by left.
    + destruct Hh as [Hh|Hh]; [by apply (tk_loading (proj1 Hp1)) in Hh as [? _]|by apply (tk_storing (proj1 Hp1))].
  - apply placed_new; [done|done|]. intros p Hpin. rewrite Hbl. apply elem_of_app. by right.
Qed.

#[export] Program Instance arc_laws : PolicyLaws arc B A capacity :=
  {| policy_blocks := arc_blocks; policy_backend := arc_backend; policy_state := arc_state; touch_storing := false |}.
Next Obligation.
  intros hs m. simpl. unfold arc_lookup. induction hs as [|h hs IH]; [done|]. cbn [count_ready]. rewrite arc_get_spec.
  destruct (od_get h (arc_blocks m)) as [b|]; [|done]. by rewrite IH.
Qed.
Next Obligation. intros. by apply arc_load. Qed.
Next Obligation. intros. by apply arc_unload. Qed.
Next Obligation. intros hs loading storing m Hp Hhs. apply arc_touch_ok; [done|]. intros h Hh. by destruct (Hhs h Hh). Qed.
Next Obligation.
  intros hs loading storing m Hp Hnd. destruct (arc_store hs loading storing m Hp Hnd) as (r & m' & Hrun & Hpl & Hr).
  exists r, m'. split; [done|]. split; [done|]. destruct r; [|done]. destruct Hr as (? & ? & ?). done.
Qed.
Next Obligation. intros. by apply arc_finish. Qed.
Next Obligation.
  intros loading storing m [Hi Hst]. eexists _, _. split; [reflexivity|]. split; [|done]. split; [done|]. by apply (state_blocks m).
Qed.

Lemma arc_init_ok b events : backend_ok b [] → 0 ≤ capacity → 2 * capacity < 2 ^ 53 → get_num_free_blocks b = capacity →
  arc_policy [] ∅ (ARC_init b events).
Proof.
  intros Hb H0 H1 Hf. split.
  - split; simpl; (done || constructor || set_solver).
  - split; simpl; try done; (split; [constructor|unfold len; simpl; lia]).
Qed.
End arc.

(** ** Touching a block that is being stored *)

Section crash.
Context {B A : Type} {HB : Backend B A}.
Abbreviation arc := (ARCOffloadingManager B A).
Implicit Types (m : arc) (h : bytes) (hs : list bytes).

Definition stored_in_t1 m h : Prop := ∃ b, od_get h (t1 m) = Some b ∧ is_ready b = false.

#[local] Instance stored_in_t1_dec m h : Decision (stored_in_t1 m h).
Proof.
  refine (match od_get h (t1 m) as o return od_get h (t1 m) = o → _ with
          | Some b => λ Hb, cast_if (decide (is_ready b = false))
          | None => λ Hb, right _
          end eq_refl); unfold stored_in_t1; rewrite Hb; naive_solver.
Defined.

Lemma touch_stored m h : stored_in_t1 m h → ∃ m', touch_block h m = (Raise KeyError, m').
Proof.
  intros (b & Hb & Hr). unfold touch_block. unfold bind at 1. cbn [get]. rewrite (od_mem_some h b), Hb by done.
  cbn [of_option]. rewrite bind_ret_l, bind_modify, Hr. cbn [negb]. unfold bind, get. simpl t1. unfold od_move_to_end.
  rewrite od_get_del, decide_True by done. by eexists.
Qed.

(** Another block either raises [KeyError] or leaves [h] where it is. *)
Lemma touch_other m x h : stored_in_t1 m h → ∃ r m', touch_block x m = (r, m') ∧
  (r = Raise KeyError ∨ r = Ok tt ∧ stored_in_t1 m' h).
Proof.
  intros Hh. destruct (decide (stored_in_t1 m x)) as [Hx|Hx].
  { destruct (touch_stored m x Hx) as [m' Hrun]. exists (Raise KeyError), m'. split; [done|by left]. }
  assert (Hne : x ≠ h) by by intros ->. destruct Hh as (b & Hb & Hr). unfold touch_block. unfold bind at 1. cbn [get].
  destruct (od_mem x (t1 m)) eqn:H1.
  - pose proof H1 as (bx & Hbx)%od_mem_keys%od_get_keys. rewrite Hbx. cbn [of_option]. rewrite bind_ret_l, bind_modify.
    destruct (is_ready bx) eqn:Hrx; [|exfalso; apply Hx; by exists bx]. cbn [negb]. unfold modify. eexists _, _. split; [reflexivity|].
    right. split; [done|]. exists b. split; [|done]. simpl. rewrite od_get_del, decide_False; [done|congruence].
  - assert (Hmove : ∀ {V} (d : list (bytes * V)) (put : list (bytes * V) → arc → arc) (f : arc → arc),
      (∀ d m, t1 (put d m) = t1 m) → (∀ m, t1 (f m) = t1 m) →
      ∃ r m', (let* d' := of_option KeyError (od_move_to_end x d) in modify (put d')) (f m) = (r, m') ∧
        (r = Raise KeyError ∨ r = Ok tt ∧ stored_in_t1 m' h)).
    { intros V d put f Hput Hf. destruct (od_move_to_end x d); [|by eexists _, _; split; [reflexivity|left]].
      eexists _, _. split; [reflexivity|]. right. split; [done|]. exists b. by rewrite Hput, Hf. }
    destruct (od_mem x (t2 m)) eqn:H2; [by apply (Hmove _ (t2 m) set_t2 (λ m, m))|].
    assert (Hdelta : ∀ others own, od_mem x own = true → ∃ d, ghost_delta others own = Ok d).
    { intros others own Hown. unfold ghost_delta, int_div. rewrite decide_False; [by eexists|].
      destruct own; [by apply od_mem_keys, elem_of_nil in Hown|]. rewrite len_cons. pose proof (len_nonneg own). lia. }
    destruct (od_mem x (b1 m)) eqn:H3; [|destruct (od_mem x (b2 m)) eqn:H4].
    + destruct (Hdelta (b2 m) (b1 m) H3) as [d ->]. rewrite bind_of_res, bind_modify.
      apply (Hmove _ (b1 m) set_b1 (λ m, set_target _ m)); done.
    + destruct (Hdelta (b1 m) (b2 m) H4) as [d ->]. rewrite bind_of_res, bind_modify.
      apply (Hmove _ (b2 m) set_b2 (λ m, set_target _ m)); done.
    + eexists _, _. split; [reflexivity|]. right. split; [done|]. by exists b.
Qed.

Lemma touch_all_raises l : ∀ m h, stored_in_t1 m h → h ∈ l → ∃ m', for_ l touch_block m = (Raise KeyError, m').
Proof.
  induction l as [|x l IH]; intros m h Hh Hin; [by apply not_elem_of_nil in Hin|]. cbn [for_].
  destruct (touch_other m x h Hh) as (r & m1 & Hrun & [->|[-> Hh1]]).
  - rewrite (bind_raise _ _ _ _ _ Hrun). by eexists.
  - rewrite (bind_ok _ _ _ _ _ Hrun). apply elem_of_cons in Hin as [->|Hin]; [|by apply (IH m1 h)].
    destruct (touch_stored m x Hh) as [m2 Hrun2]. by rewrite Hrun2 in Hrun.
Qed.

(** The loop of [arc_prepare_store] leaves the last new block in [t1]. *)
Lemma insert_last hs (new : list (BlockStatus A)) m r m' : length new = length hs → hs ≠ [] →
  Forall (λ s, ref_cnt s = -1) new →
  for_ (zip hs new) (λ p, modify (λ m, set_b2 (od_del p.1 (b2 m)) (set_b1 (od_del p.1 (b1 m))
      (set_t1 (od_set p.1 p.2 (t1 m)) m)))) m = (r, m') →
  r = Ok tt ∧ ∃ h, h ∈ hs ∧ stored_in_t1 m' h.
Proof.
  intros Hlen Hne Hall. destruct (exists_last Hne) as (hs' & h & ->). rewrite length_app in Hlen. simpl in Hlen.
  destruct (exists_last (l := new)) as (new' & b & ->); [by intros ->; simpl in Hlen; lia|].
  rewrite length_app in Hlen. simpl in Hlen. rewrite zip_with_app by lia. rewrite for_app. intros Hrun.
  apply Forall_app in Hall as [_ [Hb _]%Forall_cons].
  match type of Hrun with context [for_ _ ?f] => set (body := f) in Hrun end.
  destruct (for_inv (λ _ _, True) body (zip hs' new') m I) as (m1 & Hrun1 & _); [intros p rest m1 _; by eexists|].
  rewrite (bind_ok _ _ _ _ _ Hrun1) in Hrun. unfold body in Hrun.
  simpl in Hrun. unfold bind, modify, ret in Hrun. injection Hrun as <- <-. split; [done|].
  exists h. split; [apply elem_of_app; right; by left|]. exists b. simpl. rewrite od_get_set, decide_True by done.
  split; [done|]. unfold is_ready. rewrite Hb. done.
Qed.

(** A store leaves a block in [t1] that is not ready, if the backend returns
    blocks that are not ready, as backend.py says. *)
Lemma arc_stores (m : arc) (hs : list bytes) out m'
    (Hnew : ∀ hs b blocks b', allocate_blocks hs b = (Ok blocks, b') → Forall (λ s : BlockStatus A, ref_cnt s = -1) blocks)
    (Hstore : arc_prepare_store hs m = (Ok (Some out), m')) (Hne : block_hashes_to_store out ≠ []) :
  ∃ h, h ∈ hs ∧ stored_in_t1 m' h.
Proof.
  unfold arc_prepare_store in Hstore. unfold bind at 1 in Hstore. cbn [get] in Hstore.
  destruct (filter _ hs) as [|h0 new0] eqn:Hf; [by injection Hstore as <- _|]. rewrite <- Hf in Hstore.
  apply bind_ok_inv in Hstore as (r & m1 & _ & Hstore). destruct r as [to_evict|]; [|done].
  rewrite bind_modify in Hstore. apply bind_ok_inv in Hstore as ([] & m2 & _ & Hstore).
  apply bind_ok_inv in Hstore as (new & m3 & Halloc & Hstore). apply bind_ok_inv in Hstore as ([] & m4 & Hassert & Hstore).
  apply bind_ok_inv in Hstore as ([] & m5 & Hins & Hstore). injection Hstore as <- <-. cbn [block_hashes_to_store] in *.
  unfold assert_ in Hassert. case_bool_decide as Hlen; [|done]. injection Hassert as <-.
  unfold arc_on_backend, zoom in Halloc. destruct (allocate_blocks _ _) as [[blocks|] bk] eqn:Hal; [|done]. injection Halloc as <- <-.
  apply insert_last in Hins as (_ & h & Hh & Hst); [|unfold len in Hlen; lia|done|by eapply Hnew].
  exists h. apply list_elem_of_filter in Hh as [_ ?]. done.
Qed.

(** Touching the blocks that have just been prepared for a store raises:
    [touch] takes a block that is not ready out of [t1] and then moves it to the
    end of [t1], where it no longer is. *)
Lemma touch_after_store (m : arc) (hs touched : list bytes) out m'
    (Hnew : ∀ hs b blocks b', allocate_blocks hs b = (Ok blocks, b') → Forall (λ s : BlockStatus A, ref_cnt s = -1) blocks)
    (Hstore : arc_prepare_store hs m = (Ok (Some out), m')) (Hne : block_hashes_to_store out ≠ [])
    (Htouched : ∀ h, h ∈ hs → h ∈ touched) :
  ∃ m'', arc_touch touched m' = (Raise KeyError, m'').
Proof.
  destruct (arc_stores m hs out m' Hnew Hstore Hne) as (h & Hin & Hh). unfold arc_touch. apply (touch_all_raises _ _ h Hh).
  rewrite list_elem_of_In, <- in_rev, <- list_elem_of_In. by apply Htouched.
Qed.
End crash.

(** The CPU backend allocates blocks that are not ready. *)
Lemma fresh_not_ready n : ∀ b r b', allocate_fresh n b = (Ok r, b') → Forall (λ s, ref_cnt s = -1) r.
Proof.
  induction n as [|n IH]; intros b r b' Hrun; cbn [allocate_fresh] in Hrun; [injection Hrun as <- _; constructor|].
  unfold bind at 1 in Hrun. cbn [get] in Hrun. rewrite bind_modify in Hrun.
  apply bind_ok_inv in Hrun as (rest & b1 & Hrun & Hret). injection Hret as <- _. constructor; [done|by eapply IH].
Qed.
Lemma reused_not_ready n : ∀ b r b', allocate_reused n b = (Ok r, b') → Forall (λ s, ref_cnt s = -1) r.
Proof.
  induction n as [|n IH]; intros b r b' Hrun; cbn [allocate_reused] in Hrun; [injection Hrun as <- _; constructor|].
  unfold bind at 1 in Hrun. cbn [get] in Hrun. apply bind_ok_inv in Hrun as (id & b1 & _ & Hrun). rewrite bind_modify in Hrun.
  apply bind_ok_inv in Hrun as (rest & b2 & Hrun & Hret). injection Hret as <- _. constructor; [done|by eapply IH].
Qed.
Lemma cpu_not_ready hs (b : CPUBackend) (blocks : list (BlockStatus Z)) b' :
  allocate_blocks hs b = (Ok blocks, b') → Forall (λ s, ref_cnt s = -1) blocks.
Proof.
  simpl. unfold cpu_allocate_blocks. unfold bind at 1. cbn [get]. intros Hrun. apply bind_ok_inv in Hrun as ([] & b1 & _ & Hrun).
  apply bind_ok_inv in Hrun as (fresh & b2 & H1 & Hrun). apply bind_ok_inv in Hrun as (reused & b3 & H2 & Hrun).
  injection Hrun as <- _. apply Forall_app. split; [by eapply fresh_not_ready|by eapply reused_not_ready].
Qed.

Definition example_arc : ARCOffloadingManager CPUBackend Z := ARC_init (CPUBackend_init 16 2) true.

(** ** Refused and failed stores *)

(** A store that is refused has already evicted what it could, and the eviction
    is not reported: two blocks are there, the first is being loaded, a store of
    two others takes the second away. *)
Definition example_full : ARCOffloadingManager CPUBackend Z :=
  snd ((let* _ := arc_prepare_store [[1]; [2]] in
        arc_complete_store [[1]; [2]] true ;;;
        let* _ := arc_take_events in
        let* _ := arc_prepare_load [[1]] in
        ret tt) example_arc).
Example refused_store_evicts :
  od_keys (arc_blocks example_full) = [[1]; [2]] ∧
  ∃ m, arc_prepare_store [[3]; [4]] example_full = (Ok None, m) ∧ od_keys (arc_blocks m) = [[1]] ∧ arc_events m = Some [].
Proof. split; [vm_compute; reflexivity|]. eexists. vm_compute. repeat split. Qed.

(** A failed store drops blocks that had been stored before, and their space is
    lost to the backend. *)
Example failed_store_drops_ready :
  od_keys (arc_blocks example_full) = [[1]; [2]] ∧
  ∃ m, arc_complete_store [[2]] false example_full = (Ok tt, m) ∧ od_keys (arc_blocks m) = [[1]] ∧
    cpu_get_num_free_blocks (arc_backend m) = 0.
Proof. split; [vm_compute; reflexivity|]. eexists. vm_compute. repeat split. Qed.
