(* ===== verification/OffloadJobs.v ===== *)
(** The use of an offloading manager: loads and stores are prepared, run for a
    while and complete in any order, while blocks are looked up and touched.

    With a policy that keeps its promises ([PolicyLaws]: the LRU policy does, and
    the adaptive one) no such history raises, the space of the backend is
    accounted for, and a transfer in flight keeps the addresses it was given. *)

From S2P Require Import Prelude.
From S2P Require Import OrderedDict.
From S2P Require Import BlockHash.
From S2P Require Import Offload.
From S2P Require Import OffloadSpec.
From S2P Require Import LruSpec.
From S2P Require Import PyFloat.
From S2P Require Import Arc.
From S2P Require Import ArcSpec.

(** ** Histories *)

(** Transfers in flight: the blocks of each with the addresses it was given. *)
Record Jobs (A : Type) := mkJobs {
  loads : list (list (bytes * A));
  stores : list (list (bytes * A))
}.
Arguments mkJobs {A}.
Arguments loads {A} _.
Arguments stores {A} _.

(** A transfer ends by its index. *)
Inductive offload_call :=
  | OTouch (hs : list bytes)
  | OPrepareLoad (hs : list bytes)
  | OCompleteLoad (i : nat)
  | OPrepareStore (hs : list bytes)
  | OCompleteStore (i : nat) (success : bool)
  | OTakeEvents.

Section jobs.
Context {S A : Type} `{OffloadingManager S A}.
Implicit Types (J : Jobs A) (m : S).

Definition hashes (jobs : list (list (bytes * A))) : list bytes := map fst (concat jobs).

Definition offload_step (c : offload_call) (J : Jobs A) : M S (Jobs A) :=
  match c with
  | OTouch hs => touch hs ;;; ret J
  | OPrepareLoad hs =>
      let* addrs := prepare_load hs in
      ret (mkJobs (loads J ++ [zip hs addrs]) (stores J))
  | OCompleteLoad i =>
      complete_load (map fst (default [] (loads J !! i))) ;;;
      ret (mkJobs (base.delete i (loads J)) (stores J))
  | OPrepareStore hs =>
      let* out := prepare_store hs in
      ret (match out with
           | None => J
           | Some out => mkJobs (loads J) (stores J ++ [zip (block_hashes_to_store out) (store_spec out)])
           end)
  | OCompleteStore i success =>
      complete_store (map fst (default [] (stores J !! i))) success ;;;
      ret (mkJobs (loads J) (base.delete i (stores J)))
  | OTakeEvents => let* _ := take_events in ret J
  end.
Fixpoint offload_steps (cs : list offload_call) (J : Jobs A) : M S (Jobs A) :=
  match cs with
  | [] => ret J
  | c :: cs => let* J' := offload_step c J in offload_steps cs J'
  end.

(** What the callers guarantee: blocks that are loaded were found by [lookup],
    the hashes of a store are distinct, and a transfer ends once.  Some policies
    require that blocks that are being stored are not touched. *)
Definition allowed_call (touch_storing : bool) (c : offload_call) J m : Prop :=
  match c with
  | OTouch hs => touch_storing = true ∨ ∀ h, h ∈ hs → h ∉ hashes (stores J)
  | OPrepareLoad hs => lookup hs m = len hs ∧ len (concat (loads J)) + len hs < 2 ^ 31
  | OCompleteLoad i => (i < length (loads J))%nat
  | OPrepareStore hs => NoDup hs
  | OCompleteStore i _ => (i < length (stores J))%nat
  | OTakeEvents => True
  end.
Fixpoint allowed_calls (touch_storing : bool) (cs : list offload_call) J m : Prop :=
  match cs with
  | [] => True
  | c :: cs => allowed_call touch_storing c J m ∧ ∀ J' m', offload_step c J m = (Ok J', m') → allowed_calls touch_storing cs J' m'
  end.
End jobs.

(** ** Any policy *)

Section policy.
Context {S B A : Type} {HM : OffloadingManager S A} {HB : Backend B A} (capacity : Z) {HL : BackendLaws B A capacity}.
Context {HP : PolicyLaws S B A capacity}.
Implicit Types (m : S) (J : Jobs A) (h : bytes) (hs : list bytes).

Abbreviation blocks_of := (policy_blocks (S := S) (B := B) (A := A) (capacity := capacity)).
Abbreviation policy_inv := (managed blocks_of policy_backend policy_state).

Definition pinned m (p : bytes * A) : Prop := place (blocks_of m) p.1 = Some p.2.

Record jobs_inv J m : Prop := {
  ji_policy : policy_inv (hashes (loads J)) (list_to_set (hashes (stores J))) m;
  ji_stores : NoDup (hashes (stores J));
  ji_loads : Forall (pinned m) (concat (loads J));
  ji_pinned : Forall (pinned m) (concat (stores J))
}.

Lemma count_ready_all (get : bytes → option (BlockStatus A)) hs : count_ready get hs = len hs →
  ∀ h, h ∈ hs → ∃ b, get h = Some b ∧ is_ready b = true.
Proof.
  assert (Hle : ∀ hs, count_ready get hs ≤ len hs).
  { clear hs. induction hs as [|h hs IH]; [done|]. simpl. rewrite len_cons. pose proof (len_nonneg hs).
    destruct (get h) as [b|]; [destruct (is_ready b)|]; lia. }
  induction hs as [|h hs IH]; intros Hc x Hx; [by apply not_elem_of_nil in Hx|].
  simpl in Hc. rewrite len_cons in Hc. pose proof (len_nonneg hs). specialize (Hle hs).
  destruct (get h) as [b|] eqn:Hb; [|lia]. destruct (is_ready b) eqn:Hr; [|lia].
  apply elem_of_cons in Hx as [->|Hx]; [by exists b|]. apply IH; [lia|done].
Qed.

Lemma pinned_same m m' (ps : list (bytes * A)) :
  (∀ p, p ∈ ps → place (blocks_of m') p.1 = place (blocks_of m) p.1) → Forall (pinned m) ps → Forall (pinned m') ps.
Proof. rewrite !Forall_forall. intros Hs Hall p Hp. unfold pinned. rewrite (Hs p Hp). by apply Hall. Qed.
Lemma pinned_zip m hs addrs : Forall2 (λ h a, place (blocks_of m) h = Some a) hs addrs → Forall (pinned m) (zip hs addrs).
Proof. induction 1; by constructor. Qed.

Lemma hashes_snoc (jobs : list (list (bytes * A))) job : hashes (jobs ++ [job]) = hashes jobs ++ map fst job.
Proof. unfold hashes. rewrite concat_app, map_app. simpl. by rewrite app_nil_r. Qed.
Lemma hashes_in (jobs : list (list (bytes * A))) p : p ∈ concat jobs → p.1 ∈ hashes jobs.
Proof. apply list_elem_of_fmap_2. Qed.
Lemma concat_delete {X} (jobs : list (list X)) i job : jobs !! i = Some job →
  concat jobs ≡ₚ job ++ concat (base.delete i jobs).
Proof. intros Hi. by rewrite (delete_Permutation jobs i job Hi) at 1. Qed.
Lemma hashes_delete (jobs : list (list (bytes * A))) i job : jobs !! i = Some job →
  hashes jobs ≡ₚ map fst job ++ hashes (base.delete i jobs).
Proof. intros Hi. unfold hashes. rewrite <- map_app. by rewrite (concat_delete jobs i job Hi). Qed.
Lemma pinned_delete m (jobs : list (list (bytes * A))) i job : jobs !! i = Some job → Forall (pinned m) (concat jobs) →
  Forall (pinned m) (concat (base.delete i jobs)).
Proof. intros Hi. rewrite (concat_delete jobs i job Hi). by intros [_ ?]%Forall_app. Qed.

(** ** One call *)

Lemma load_call touching hs J m : jobs_inv J m → allowed_call touching (OPrepareLoad hs) J m →
  ∃ J' m', offload_step (OPrepareLoad hs) J m = (Ok J', m') ∧ jobs_inv J' m'.
Proof.
  intros [Hl Hst Hlo Hpi] [Hlook Hw]. rewrite pl_lookup in Hlook.
  assert (Hready : ∀ h, h ∈ hs → h ∈ od_keys (blocks_of m) ∧ h ∉@{gset bytes} list_to_set (hashes (stores J))).
  { intros h Hh. destruct (count_ready_all _ _ Hlook h Hh) as (b & Hb & Hr).
    split; [apply od_get_keys; by eexists|]. by apply (ready_iff capacity _ _ _ _ h b (proj1 Hl) Hb). }
  assert (Hlen : len (hashes (loads J)) = len (concat (loads J))) by (unfold hashes, len; by rewrite length_map).
  destruct (pl_load hs _ _ m Hl Hready) as (addrs & m' & Hrun & [Hi Hs'] & Hs & Hall); [lia|].
  unfold offload_step. rewrite (bind_ok _ _ _ _ _ Hrun). eexists _, m'. split; [reflexivity|].
  pose proof (Forall2_length _ _ _ Hall) as Hl2. split; simpl.
  - rewrite hashes_snoc. change (map fst ?l) with (l.*1). rewrite fst_zip by lia. split; [|done].
    eapply inv_loading; [apply Permutation_app_comm|exact Hi].
  - done.
  - rewrite concat_app. apply Forall_app. split; [by apply (pinned_same m)|]. simpl. rewrite app_nil_r.
    apply (pinned_same m); [done|]. by apply pinned_zip.
  - by apply (pinned_same m).
Qed.

Lemma unload_call touching i J m : jobs_inv J m → allowed_call touching (OCompleteLoad i) J m →
  ∃ J' m', offload_step (OCompleteLoad i) J m = (Ok J', m') ∧ jobs_inv J' m'.
Proof.
  intros [[Hl Hps] Hst Hlo Hpi] Hi. apply lookup_lt_is_Some in Hi as [job Hjob].
  destruct (pl_unload (map fst job) (hashes (base.delete i (loads J))) (list_to_set (hashes (stores J))) m) as (m' & Hrun & Hi' & Hs).
  { split; [|done]. eapply inv_loading; [by apply hashes_delete|exact Hl]. }
  unfold offload_step. rewrite Hjob. simpl. rewrite (bind_ok _ _ _ _ _ Hrun). eexists _, m'. split; [reflexivity|].
  split; simpl; [done|done| |].
  - apply (pinned_same m); [done|]. by apply (pinned_delete m _ i job).
  - by apply (pinned_same m).
Qed.

Lemma touch_call hs J m : jobs_inv J m → allowed_call touch_storing (OTouch hs) J m →
  ∃ J' m', offload_step (OTouch hs) J m = (Ok J', m') ∧ jobs_inv J' m'.
Proof.
  intros [Hl Hst Hlo Hpi] Hc. destruct (pl_touch hs _ _ m Hl) as (m' & Hrun & Hi & Hs).
  { intros h Hh. destruct Hc as [Hc|Hc]; [by left|]. right. rewrite elem_of_list_to_set. by apply Hc. }
  unfold offload_step. rewrite (bind_ok _ _ _ _ _ Hrun). eexists _, m'. split; [reflexivity|].
  split; [done|done| |]; by apply (pinned_same m).
Qed.

Lemma in_flight J m p : jobs_inv J m → p ∈ concat (loads J) ++ concat (stores J) →
  p.1 ∈ hashes (loads J) ∨ p.1 ∈@{gset bytes} list_to_set (hashes (stores J)).
Proof. intros _ [Hp|Hp]%elem_of_app; apply hashes_in in Hp; rewrite elem_of_list_to_set; tauto. Qed.

Lemma store_call touching hs J m : jobs_inv J m → allowed_call touching (OPrepareStore hs) J m →
  ∃ J' m', offload_step (OPrepareStore hs) J m = (Ok J', m') ∧ jobs_inv J' m'.
Proof.
  intros HJ Hnd. pose proof HJ as [Hl Hst Hlo Hpi]. unfold offload_step.
  destruct (pl_store hs _ _ m Hl Hnd) as (r & m' & Hrun & Hp & Hr). rewrite (bind_ok _ _ _ _ _ Hrun).
  eexists _, m'. split; [reflexivity|].
  assert (Hlo' : Forall (pinned m') (concat (loads J))).
  { apply (pinned_same m); [|done]. intros p Hin. apply Hp, (in_flight J m p HJ). set_solver. }
  assert (Hpi' : Forall (pinned m') (concat (stores J))).
  { apply (pinned_same m); [|done]. intros p Hin. apply Hp, (in_flight J m p HJ). set_solver. }
  destruct r as [out|]; [|by split]. destruct Hr as (Hout & Hall & Hi). rewrite Hout.
  set (new := filter _ hs) in *. assert (Hfst : map fst (zip new (store_spec out)) = new).
  { apply fst_zip. by rewrite (Forall2_length _ _ _ Hall). }
  split; simpl.
  - by rewrite hashes_snoc, Hfst, list_to_set_app_L.
  - rewrite hashes_snoc, Hfst. apply NoDup_app. split; [done|]. split; [|by apply NoDup_filter].
    intros h Hh [Hout' _]%list_elem_of_filter. apply Hout', (tk_storing (proj1 Hl)). by apply elem_of_list_to_set.
  - done.
  - rewrite concat_app. apply Forall_app. split; [done|]. simpl. rewrite app_nil_r. by apply pinned_zip.
Qed.

Lemma ends_store J m i job : jobs_inv J m → stores J !! i = Some job →
  (∀ h, h ∈ map fst job → h ∈@{gset bytes} list_to_set (hashes (stores J)) ∧
     (h ∉ hashes (loads J)) ∧ h ∉ hashes (base.delete i (stores J))) ∧
  NoDup (map fst job) ∧ NoDup (hashes (base.delete i (stores J))) ∧
  list_to_set (hashes (stores J)) ∖ list_to_set (map fst job) =@{gset bytes} list_to_set (hashes (base.delete i (stores J))).
Proof.
  intros [[Hl _] Hst Hlo Hpi] Hi. pose proof (hashes_delete _ _ _ Hi) as Hp. rewrite Hp in Hst.
  apply NoDup_app in Hst as (H1 & H2 & H3). split; [|split; [done|split; [done|]]].
  - intros h Hh. assert (Hs : h ∈@{gset bytes} list_to_set (hashes (stores J))).
    { apply elem_of_list_to_set. rewrite Hp. apply elem_of_app. by left. }
    split; [done|]. split; [|by apply H2]. intros Hload. by apply (tk_loading Hl) in Hload as [_ ?].
  - apply set_eq. intros x. rewrite elem_of_difference, !elem_of_list_to_set, Hp, elem_of_app. naive_solver.
Qed.

Lemma finish_call touching i success J m : jobs_inv J m → allowed_call touching (OCompleteStore i success) J m →
  ∃ J' m', offload_step (OCompleteStore i success) J m = (Ok J', m') ∧ jobs_inv J' m'.
Proof.
  intros HJ Hi. apply lookup_lt_is_Some in Hi as [job Hjob]. destruct (ends_store J m i job HJ Hjob) as (Hin & Hnd & Hrest & Hset).
  destruct HJ as [Hl Hst Hlo Hpi]. unfold offload_step. rewrite Hjob. simpl default.
  destruct (pl_finish (map fst job) success _ _ m Hl Hnd) as (m' & Hrun & Hi' & Hs); [intros; by apply Hin|].
  rewrite (bind_ok _ _ _ _ _ Hrun). eexists _, m'. split; [reflexivity|]. rewrite Hset in Hi'. split; simpl; [done|done| |].
  - apply (pinned_same m); [|done]. intros p Hp. apply Hs. intros Hh. apply Hin in Hh as (_ & Hh & _). by apply Hh, hashes_in.
  - apply (pinned_same m); [|by apply (pinned_delete m _ i job)]. intros p Hp. apply Hs. intros Hh.
    apply Hin in Hh as (_ & _ & Hh). by apply Hh, hashes_in.
Qed.

Lemma step_ok c J m : jobs_inv J m → allowed_call touch_storing c J m →
  ∃ J' m', offload_step c J m = (Ok J', m') ∧ jobs_inv J' m'.
Proof.
  destruct c; intros HJ Hc; [by apply touch_call|by eapply load_call|by eapply unload_call|by eapply store_call|by eapply finish_call|].
  destruct HJ as [Hl Hst Hlo Hpi]. destruct (pl_events _ _ m Hl) as (evs & m' & Hrun & Hi & Hs).
  unfold offload_step. rewrite (bind_ok _ _ _ _ _ Hrun). eexists _, m'. split; [reflexivity|].
  split; [done|done| |]; by apply (pinned_same m).
Qed.

Lemma steps_ok cs : ∀ J m, jobs_inv J m → allowed_calls touch_storing cs J m →
  ∃ J' m', offload_steps cs J m = (Ok J', m') ∧ jobs_inv J' m'.
Proof.
  induction cs as [|c cs IH]; intros J m HJ Hcs; [by exists J, m|]. destruct Hcs as [Hc Hcs]. cbn [offload_steps].
  destruct (step_ok c J m HJ Hc) as (J1 & m1 & Hrun & HJ1). rewrite (bind_ok _ _ _ _ _ Hrun).
  apply IH; [done|]. by apply Hcs.
Qed.

Lemma init_ok m : policy_inv [] ∅ m → jobs_inv (mkJobs [] []) m.
Proof. intros Hm. split; [exact Hm|constructor|constructor|constructor]. Qed.

(** C10. Loads and stores are prepared and complete in any order, with blocks
    looked up and touched in between, as the callers of an offloading manager
    may do.  With a policy that keeps its promises, on a backend that does, no
    call raises: every assertion and every dictionary access holds.  At any time
    the free blocks and the tracked blocks make up the capacity of the backend,
    no two blocks share an address, and the blocks of a transfer in flight are
    where the transfer was told, those that are loaded ready to be read: none
    of them is evicted. *)
Theorem offload_history_safe (m : S) (cs : list offload_call)
    (Hm : policy_inv [] ∅ m) (Hcs : allowed_calls touch_storing cs (mkJobs [] []) m) :
  ∃ J m', offload_steps cs (mkJobs [] []) m = (Ok J, m') ∧
    get_num_free_blocks (policy_backend m') + len (blocks_of m') = capacity ∧
    NoDup (map (λ p, address p.2) (blocks_of m')) ∧
    (∀ h a, (h, a) ∈ concat (loads J) → ∃ s, od_get h (blocks_of m') = Some s ∧ address s = a ∧ is_ready s = true) ∧
    (∀ h a, (h, a) ∈ concat (stores J) → ∃ s, od_get h (blocks_of m') = Some s ∧ address s = a ∧ is_ready s = false).
Proof.
  destruct (steps_ok cs _ _ (init_ok m Hm) Hcs) as (J & m' & Hrun & [[Hl _] Hst Hlo Hpi]).
  exists J, m'. split; [done|]. pose proof (tk_backend Hl) as Hok. split; [|split; [by eapply bl_distinct|]].
  { pose proof (bl_count _ _ Hok) as Hc. unfold len in *. by rewrite length_map in Hc. }
  rewrite Forall_forall in Hlo, Hpi. split; intros h a Hin.
  - specialize (Hlo _ Hin). unfold pinned, place in Hlo. simpl in Hlo. destruct (od_get h (blocks_of m')) as [s|] eqn:Hs; [|done].
    exists s. injection Hlo as Ha. split; [done|]. split; [done|]. apply (ready_iff capacity _ _ _ _ h s Hl Hs).
    by apply (tk_loading Hl h), (hashes_in _ _ Hin).
  - specialize (Hpi _ Hin). unfold pinned, place in Hpi. simpl in Hpi. destruct (od_get h (blocks_of m')) as [s|] eqn:Hs; [|done].
    exists s. injection Hpi as Ha. split; [done|]. split; [done|]. apply not_true_is_false. rewrite (ready_iff capacity _ _ _ _ h s Hl Hs).
    apply (hashes_in _ _) in Hin. intros Hn. by apply Hn, elem_of_list_to_set.
Qed.
End policy.

(** ** The LRU policy *)

Section lru.
Context {B A : Type} {HB : Backend B A} (capacity : Z) {HL : BackendLaws B A capacity}.
Abbreviation lru := (LRUOffloadingManager B A).
Implicit Types (m : lru) (h : bytes) (hs : list bytes).

(** C38. [prepare_store] of the LRU policy, exactly, for distinct hashes and
    whatever loads and stores are in flight: it stores the hashes that are not
    there; when the backend lacks room for them, it evicts as many idle blocks
    as are missing and no more, the least recently used first, and if there are
    fewer idle blocks it changes nothing and returns [None].  A block is idle
    when no load uses it and it is not being stored.  The other blocks keep
    their order, the new ones follow it, and the eviction is recorded. *)
Theorem lru_store_evicts_oldest (J : Jobs A) m hs (HJ : jobs_inv (S := lru) capacity J m) (Hhs : NoDup hs) :
  let new := filter (λ h, h ∉ od_keys (lru_blocks m)) hs in
  let missing := len new - get_num_free_blocks (lru_backend m) in
  let unused := filter (λ h, (h ∉ hashes (loads J)) ∧ h ∉ hashes (stores J)) (od_keys (lru_blocks m)) in
  let evicted := take (Z.to_nat missing) unused in
  if decide (missing ≤ Z.max 0 (len unused)) then
    ∃ addrs m', prepare_store hs m = (Ok (Some (mkPrepared new addrs evicted)), m') ∧
      lru_blocks m' = filter (λ p, p.1 ∉ evicted) (lru_blocks m) ++ zip new (map BlockStatus_new addrs) ∧
      len addrs = len new ∧ log m' = (λ l, l ++ logged evicted true) <$> log m
  else prepare_store hs m = (Ok None, m).
Proof.
  destruct HJ as [Hp Hst Hlo Hpi]. assert (Hidle : filter (λ h, (h ∉ hashes (loads J)) ∧ h ∉ hashes (stores J)) (od_keys (lru_blocks m)) = idle (lru_blocks m)).
  { rewrite (idle_filter capacity _ _ (lru_blocks m) (lru_backend m) (proj1 Hp)). apply filter_ext_in. intros h _. by rewrite elem_of_list_to_set. }
  cbv zeta. rewrite Hidle. fold (new_hashes m hs). fold (shortage m hs). fold (victims m hs).
  destruct (decide (shortage m hs ≤ Z.max 0 (len (idle (lru_blocks m))))) as [Hn|Hn].
  - destruct (prepare_store_ok capacity _ _ m hs (proj1 Hp) Hhs Hn) as (addrs & m' & Hrun & [Hi Hb Hlen Hev]). by exists addrs, m'.
  - apply prepare_store_none. lia.
Qed.
End lru.

(** ** Examples *)

Definition example_lru : LRUOffloadingManager CPUBackend Z := LRU_init (CPUBackend_init 16 2) true.
(** Two blocks are stored, the first is loaded, and the store of a third block
    has to evict the second. *)
Definition example_calls : list offload_call :=
  [OPrepareStore [[1]; [2]]; OCompleteStore 0 true; OTouch [[1]]; OPrepareLoad [[1]]; OPrepareStore [[3]];
   OCompleteLoad 0; OCompleteStore 0 false; OTakeEvents].

(** Each call of a history is allowed: the states are computed. *)
Ltac check_allowed :=
  repeat (split;
    [vm_compute; first [done|left; reflexivity|right; set_solver|repeat constructor; set_solver|lia]
    |intros ? ? Hrun; vm_compute in Hrun; injection Hrun as <- <-]);
  exact I.

Lemma example_lru_inv : managed (capacity := 2) lru_blocks lru_backend (λ _, True) [] ∅ example_lru.
Proof.
  split; [|exact I]. apply (lru_init_ok 2), cpu_init_ok. lia.
Qed.
Lemma example_arc_inv : managed (capacity := 2) arc_blocks arc_backend (arc_state 2) [] ∅ example_arc.
Proof. apply (arc_init_ok 2 (CPUBackend_init 16 2) true); [apply cpu_init_ok; lia|lia|lia|done]. Qed.

(** The history with both policies on a CPU backend of two blocks. *)
Lemma offload_history_safe_witness :
  (∃ J m, offload_steps example_calls (mkJobs [] []) example_lru = (Ok J, m) ∧
    get_num_free_blocks (lru_backend m) + len (lru_blocks m) = 2) ∧
  (∃ J m, offload_steps example_calls (mkJobs [] []) example_arc = (Ok J, m) ∧
    get_num_free_blocks (arc_backend m) + len (arc_blocks m) = 2).
Proof.
  split.
  - destruct (offload_history_safe (HP := lru_laws 2) 2 example_lru example_calls example_lru_inv) as (J & m & Hrun & Hfree & _); [check_allowed|].
    by exists J, m.
  - destruct (offload_history_safe (HP := arc_laws 2) 2 example_arc example_calls example_arc_inv) as (J & m & Hrun & Hfree & _); [check_allowed|].
    by exists J, m.
Defined.

(** The first block is loaded, the second is idle. *)
Definition example_prefix : list offload_call := take 4 example_calls.
Definition example_loaded : Jobs Z * LRUOffloadingManager CPUBackend Z :=
  ltac:(let t := eval vm_compute in (offload_steps example_prefix (mkJobs [] []) example_lru) in
        lazymatch t with (Ok ?J, ?m) => exact (J, m) end).

Lemma example_loaded_inv : jobs_inv 2 example_loaded.1 example_loaded.2.
Proof.
  destruct (steps_ok (HP := lru_laws 2) 2 example_prefix (mkJobs [] []) example_lru (init_ok (HP := lru_laws 2) 2 _ example_lru_inv)) as (J & m & Hrun & HJ); [check_allowed|].
  vm_compute in Hrun. by injection Hrun as <- <-.
Qed.

Lemma lru_store_evicts_oldest_witness :
  jobs_inv 2 example_loaded.1 example_loaded.2 ∧ NoDup [[3] : bytes] ∧
  ∃ addrs m', prepare_store [[3]] example_loaded.2 = (Ok (Some (mkPrepared [[3]] addrs [[2]])), m') ∧
    lru_blocks m' = [([1], mkStatus 1 0); ([3], mkStatus (-1) 1)] ∧ len addrs = 1 ∧
    log m' = Some [([[1]; [2]], false); ([[2]], true)].
Proof.
  split; [exact example_loaded_inv|]. split; [repeat constructor; set_solver|].
  destruct (lru_store_evicts_oldest 2 example_loaded.1 example_loaded.2 [[3]] example_loaded_inv) as (addrs & m' & Hrun & _ & Hlen & _).
  { repeat constructor; set_solver. }
  exists addrs, m'. split; [exact Hrun|]. vm_compute in Hrun. by injection Hrun as <- <-.
Defined.
