(* ===== verification/OffloadConnector.v ===== *)
(** The scheduler side of the offloading connector
    (vllm/distributed/kv_transfer/kv_connector/v1/offloading_connector.py,
    [OffloadingConnectorScheduler]), over any offloading manager.

    Requests are objects that the scheduler changes: the connector keeps
    references to them, and [objects] gives the request behind a reference at
    the time of a call. *)

From S2P Require Import Prelude.
From S2P Require Import OrderedDict.
From S2P Require Import KVBlocks.
From S2P Require Import Request.
From S2P Require Import BlockHash.
From S2P Require Import BlockPool.
From S2P Require Import SchedulerState.
From S2P Require Import Offload.

(** [islice(l, start, stop, step)]; [None] stands for the end of the list. *)
Definition islice {X} (l : list X) (start : Z) (stop : option Z) (step : Z) : list X :=
  let bound := match stop with Some s => Z.min s (len l) | None => len l end in
  omap (λ k, l !! Z.to_nat (start + k * step)) (py_range 0 (cdiv (bound - start) step)).

(** Where a transfer reads and where it writes: addresses of the offloaded
    blocks and ids of GPU blocks. *)
Record TransferSpec (A : Type) := mkTransfer {
  ts_offloaded : list A;
  ts_gpu : list Z
}.
Arguments mkTransfer {A}.
Arguments ts_offloaded {A} _.
Arguments ts_gpu {A} _.

Record OffloadingConnectorMetadata (A : Type) := mkOffloadMeta {
  reqs_to_load : list (string * TransferSpec A);
  reqs_to_store : list (string * TransferSpec A)
}.
Arguments mkOffloadMeta {A}.
Arguments reqs_to_load {A} _.
Arguments reqs_to_store {A} _.

Record OffloadingConnectorScheduler (S A : Type) := mkConnector {
  gpu_block_size : Z;
  offloaded_block_size : Z;
  block_size_factor : Z;
  manager : S;
  _requests : gmap string Z;                        (** references *)
  _request_block_ids : gmap string (list Z);
  _reqs_to_load : list (string * TransferSpec A);
  _next_stored_block_idx : gmap string Z;
  _reqs_being_stored : gmap string (gset bytes);
  _reqs_being_loaded : gmap string (gset bytes)
}.
Arguments mkConnector {S A}.
Arguments gpu_block_size {S A} _.
Arguments offloaded_block_size {S A} _.
Arguments block_size_factor {S A} _.
Arguments manager {S A} _.
Arguments _requests {S A} _.
Arguments _request_block_ids {S A} _.
Arguments _reqs_to_load {S A} _.
Arguments _next_stored_block_idx {S A} _.
Arguments _reqs_being_stored {S A} _.
Arguments _reqs_being_loaded {S A} _.

(** [yield_req_data] (kv_connector/utils.py): id, new block ids, resumed *)
Definition yield_req_data (o : SchedulerOutput) : list (string * option (list (list Z)) * bool) :=
  map (λ n, (request_id (nr_request n), Some (nr_block_ids n), false)) (so_new_reqs o) ++
  (let cached := so_cached_reqs o in
   map (λ p, (p.1, p.2, bool_decide (p.1 ∈ resumed_req_ids cached)))
     (zip (req_ids cached) (new_block_ids cached))).

Section connector.
Context {S A : Type} `{OffloadingManager S A}.
Abbreviation connector := (OffloadingConnectorScheduler S A).
(** The iteration order of a set of hashes. *)
Context (hash_order : gset bytes → list bytes).

Definition OffloadingConnectorScheduler_init (gpu_size offloaded_size : Z) (m : S) : connector :=
  mkConnector gpu_size offloaded_size (offloaded_size / gpu_size) m ∅ ∅ [] ∅ ∅ ∅.

Definition connector_eta (c : connector) : connector :=
  mkConnector (gpu_block_size c) (offloaded_block_size c) (block_size_factor c) (manager c) (_requests c)
    (_request_block_ids c) (_reqs_to_load c) (_next_stored_block_idx c) (_reqs_being_stored c) (_reqs_being_loaded c).
Definition set_manager (v : S) : connector → connector := ltac:(record_set connector_eta (@manager S A) v).
Definition set_oc_requests (v : gmap string Z) : connector → connector :=
  ltac:(record_set connector_eta (@_requests S A) v).
Definition set_request_block_ids (v : gmap string (list Z)) : connector → connector :=
  ltac:(record_set connector_eta (@_request_block_ids S A) v).
Definition set_reqs_to_load (v : list (string * TransferSpec A)) : connector → connector :=
  ltac:(record_set connector_eta (@_reqs_to_load S A) v).
Definition set_next_stored (v : gmap string Z) : connector → connector :=
  ltac:(record_set connector_eta (@_next_stored_block_idx S A) v).
Definition set_being_stored (v : gmap string (gset bytes)) : connector → connector :=
  ltac:(record_set connector_eta (@_reqs_being_stored S A) v).
Definition set_being_loaded (v : gmap string (gset bytes)) : connector → connector :=
  ltac:(record_set connector_eta (@_reqs_being_loaded S A) v).
Definition in_manager {X} (op : M S X) : M connector X := zoom manager set_manager op.

(** The hash of an offloaded block is that of its last GPU block. *)
Definition _get_block_hashes (factor : Z) (req : Request) (start_idx : Z) (end_idx : option Z) : list bytes :=
  islice (block_hashes req) (factor * start_idx + factor - 1)
    (match end_idx with Some e => if decide (e = 0) then None else Some (factor * e) | None => None end) factor.

Definition oc_get_num_new_matched_tokens (request : Request) (num_computed_tokens : Z) : M connector (Z * bool) :=
  let* c := get in
  let size := offloaded_block_size c in
  let num_blocks := num_tokens request / size in
  assert_ (bool_decide (len (block_hashes request) / block_size_factor c = num_blocks)) ;;;
  in_manager (touch (_get_block_hashes (block_size_factor c) request 0 None)) ;;;
  let full_block_tokens := size * num_blocks in
  if decide (full_block_tokens - num_computed_tokens < size) then ret (0, false) else
  let start_block_idx := num_computed_tokens / size in
  let* c' := get in
  let hits := lookup (_get_block_hashes (block_size_factor c) request start_block_idx None) (manager c') in
  if decide (hits = 0) then ret (0, false) else
  let num_hit_tokens := size * (start_block_idx + hits) - num_computed_tokens in
  if decide (num_hit_tokens < size) then ret (0, false) else ret (num_hit_tokens, true).

(** [blocks] are the block objects of each group. *)
Definition oc_update_state_after_alloc (r : Z) (request : Request) (blocks : list (list KVCacheBlock))
    (num_external_tokens : Z) : M connector unit :=
  let id := request_id request in
  modify (λ c, set_oc_requests (<[id := r]> (_requests c)) c) ;;;
  modify (λ c, set_request_block_ids (<[id := []]> (_request_block_ids c)) c) ;;;
  if decide (num_external_tokens = 0) then ret tt else
  let* c := get in
  let size := offloaded_block_size c in
  let factor := block_size_factor c in
  let* group := of_option IndexError (head blocks) in
  let block_ids := map block_id group in
  let num_computed_gpu_blocks := len (filter (λ b, is_Some (_block_hash b)) group) in
  let num_computed_tokens := num_computed_gpu_blocks * gpu_block_size c in
  let full_block_tokens := num_computed_tokens + num_external_tokens in
  assert_ (bool_decide (full_block_tokens mod size = 0)) ;;;
  let num_pending_gpu_blocks := len block_ids - num_computed_gpu_blocks in
  assert_ (bool_decide (num_external_tokens = num_pending_gpu_blocks * gpu_block_size c)) ;;;
  let start_block_idx := num_computed_tokens / size in
  let num_blocks := full_block_tokens / size in
  assert_ (bool_decide (num_blocks ≤ len (block_hashes request) / factor)) ;;;
  let hashes := _get_block_hashes factor request start_block_idx (Some num_blocks) in
  let* src_spec := in_manager (prepare_load hashes) in
  let dst_spec := drop (Z.to_nat num_computed_gpu_blocks) block_ids in
  modify (λ c, set_reqs_to_load (od_set id (mkTransfer src_spec dst_spec) (_reqs_to_load c)) c) ;;;
  modify (λ c, set_being_loaded
    (<[id := default ∅ (_reqs_being_loaded c !! id) ∪ list_to_set hashes]> (_reqs_being_loaded c)) c) ;;;
  modify (λ c, set_next_stored (<[id := num_blocks]> (_next_stored_block_idx c)) c).

(** ** Stores *)

(** The GPU blocks of the stored ones among [hashes], the first of which is the
    offloaded block [idx]. *)
Fixpoint gather_src (factor : Z) (block_ids : list Z) (to_store : gset bytes) (idx : Z) (hashes : list bytes)
    : M connector (list Z) :=
  match hashes with
  | [] => ret []
  | h :: hashes =>
      if decide (h ∈ to_store) then
        let* ids := mapM (λ i, of_option IndexError (py_index block_ids (idx * factor + i))) (py_range 0 factor) in
        let* rest := gather_src factor block_ids to_store (idx + 1) hashes in
        ret (ids ++ rest)
      else gather_src factor block_ids to_store (idx + 1) hashes
  end.

(** The blocks that the scheduler has given to a request are recorded. *)
Definition collect_block_ids (req_id : string) (new_block_id_groups : option (list (list Z))) (preempted : bool)
    : M connector unit :=
  (if preempted then modify (λ c, set_request_block_ids (<[req_id := []]> (_request_block_ids c)) c) else ret tt) ;;;
  match new_block_id_groups with
  | None | Some [] => ret tt
  | Some (new_ids :: _) =>
      let* c := get in
      let* ids := of_option KeyError (_request_block_ids c !! req_id) in
      modify (λ c, set_request_block_ids (<[req_id := ids ++ new_ids]> (_request_block_ids c)) c)
  end.
(** One turn of the loop of [_get_reqs_to_store]; the result is the transfer, if
    there is one. *)
Definition store_request (objects : Z → Request) (scheduled : list (string * Z))
    (p : string * option (list (list Z)) * bool) : M connector (option (string * TransferSpec A)) :=
  let '(req_id, new_block_id_groups, preempted) := p in
  collect_block_ids req_id new_block_id_groups preempted ;;;
  let* c := get in
  let factor := block_size_factor c in
  let* block_ids := of_option KeyError (_request_block_ids c !! req_id) in
  let* r := of_option KeyError (_requests c !! req_id) in
  let req := objects r in
  let* new_tokens := of_option KeyError (od_get req_id scheduled) in
  let num_blocks := (num_computed_tokens req + new_tokens) / offloaded_block_size c in
  let start_block_idx := default 0 (_next_stored_block_idx c !! req_id) in
  if decide (num_blocks - start_block_idx ≤ 0) then ret None else
  let new_block_hashes := _get_block_hashes factor req start_block_idx (Some num_blocks) in
  let* store_output := in_manager (prepare_store new_block_hashes) in
  match store_output with
  | None => ret None
  | Some out =>
      modify (λ c, set_next_stored (<[req_id := num_blocks]> (_next_stored_block_idx c)) c) ;;;
      match block_hashes_to_store out with
      | [] => ret None
      | to_store =>
          let stored := list_to_set to_store in
          in_manager (touch (_get_block_hashes factor req 0 (Some num_blocks))) ;;;
          let* src_block_ids := gather_src factor block_ids stored start_block_idx new_block_hashes in
          modify (λ c, set_being_stored
            (<[req_id := default ∅ (_reqs_being_stored c !! req_id) ∪ stored]> (_reqs_being_stored c)) c) ;;;
          ret (Some (req_id, mkTransfer (store_spec out) src_block_ids))
      end
  end.
Definition _get_reqs_to_store (objects : Z → Request) (o : SchedulerOutput)
    : M connector (list (string * TransferSpec A)) :=
  let* found := mapM (store_request objects (so_num_scheduled_tokens o)) (yield_req_data o) in
  ret (foldl (λ d e, od_set e.1 e.2 d) [] (omap id found)).

(** ** Steps *)

(** The stores of a request are complete: [block_hashes] are those of the set. *)
Definition finish_stores (block_hashes : gset bytes) : M connector unit :=
  if decide (block_hashes = ∅) then ret tt else in_manager (complete_store (hash_order block_hashes) true).

Definition oc_build_connector_meta (id_order : gset string → list string) (objects : Z → Request) (o : SchedulerOutput)
    : M connector (OffloadingConnectorMetadata A) :=
  let* c := get in
  let* stores := _get_reqs_to_store objects o in
  let meta := mkOffloadMeta (_reqs_to_load c) stores in
  modify (set_reqs_to_load []) ;;;
  for_ (id_order (so_preempted_req_ids o)) (λ req_id,
    let* c := get in
    match _reqs_being_stored c !! req_id with
    | None => ret tt
    | Some block_hashes =>
        finish_stores block_hashes ;;;
        (* [block_hashes.clear()], when there were some *)
        modify (λ c, set_being_stored (<[req_id := ∅]> (_reqs_being_stored c)) c)
    end) ;;;
  ret meta.

Definition oc_update_connector_output (o : KVConnectorOutput) : M connector unit :=
  for_ (finished_sending o) (λ req_id,
    let* c := get in
    let block_hashes := default ∅ (_reqs_being_stored c !! req_id) in
    modify (λ c, set_being_stored (base.delete req_id (_reqs_being_stored c)) c) ;;;
    finish_stores block_hashes) ;;;
  for_ (finished_recving o) (λ req_id,
    let* c := get in
    let block_hashes := default ∅ (_reqs_being_loaded c !! req_id) in
    modify (λ c, set_being_loaded (base.delete req_id (_reqs_being_loaded c)) c) ;;;
    if decide (block_hashes = ∅) then ret tt else in_manager (complete_load (hash_order block_hashes))).

(** [True]: the blocks may not be freed before the request is reported. *)
Definition oc_request_finished (request : Request) : M connector bool :=
  let req_id := request_id request in
  modify (λ c, set_oc_requests (base.delete req_id (_requests c)) c) ;;;
  modify (λ c, set_request_block_ids (base.delete req_id (_request_block_ids c)) c) ;;;
  modify (λ c, set_next_stored (base.delete req_id (_next_stored_block_idx c)) c) ;;;
  let* c := get in
  ret (bool_decide (is_Some (_reqs_being_stored c !! req_id))).

Definition oc_take_events : M connector (list KVCacheEvent) :=
  let* evs := in_manager take_events in
  ret (map (λ e,
    if oe_removed e then EvBlockRemoved (map EBytes (oe_block_hashes e)) (oe_medium e)
    else EvBlockStored (mkBlockStored (map EBytes (oe_block_hashes e)) None [] (oe_block_size e) None (oe_medium e) None)) evs).
End connector.
