(* ===== verification/OffloadConnectorSpec.v ===== *)
(** The offloading connector: what it finds in the cache can be loaded, what it
    stores comes from the right GPU blocks, and its use of the manager. *)

From S2P Require Import Prelude.
From S2P Require Import OrderedDict.
From S2P Require Import KVBlocks.
From S2P Require Import Request.
From S2P Require Import BlockHash.
From S2P Require Import SchedulerState.
From S2P Require Import PyFloat.
From S2P Require Import Offload.
From S2P Require Import OffloadSpec.
From S2P Require Import LruSpec.
From S2P Require Import Arc.
From S2P Require Import ArcSpec.
From S2P Require Import OffloadJobs.
From S2P Require Import OffloadConnector.

(** ** Hashes of offloaded blocks *)

(** The hash of each block of [f] hashed GPU blocks: the last of them. *)
Definition offloaded_hashes (f : Z) (hashes : list bytes) : list bytes :=
  map (λ j, nth (Z.to_nat (f * j + f - 1)) hashes []) (py_range 0 (len hashes / f)).

Lemma offloaded_length f hashes : 0 < f → len (offloaded_hashes f hashes) = len hashes / f.
Proof.
  intros Hf. unfold offloaded_hashes, py_range, len. rewrite !length_map, length_seq.
  pose proof (Z.div_pos (Z.of_nat (length hashes)) f). lia.
Qed.

Lemma omap_nth {X} (l : list X) (x0 : X) (i : Z → nat) ks : (∀ k, k ∈ ks → (i k < length l)%nat) →
  omap (λ k, l !! i k) ks = map (λ k, nth (i k) l x0) ks.
Proof.
  induction ks as [|k ks IH]; intros Hks; [done|]. specialize (IH (λ x Hx, Hks x ltac:(by right))).
  change (omap ?g (k :: ks)) with (match g k with Some y => y :: omap g ks | None => omap g ks end). cbv beta. rewrite IH.
  destruct (nth_lookup_or_length l (i k) x0) as [->|Hge]; [done|]. specialize (Hks k ltac:(by left)). lia.
Qed.

Lemma islice_stride (f s b : Z) (l : list bytes) : 0 < f → 0 ≤ s → b ≤ len l →
  omap (λ k, l !! Z.to_nat (f * s + f - 1 + k * f)) (py_range 0 (cdiv (b - (f * s + f - 1)) f)) =
  map (λ j, nth (Z.to_nat (f * j + f - 1)) l []) (py_range s (b / f)).
Proof.
  intros Hf Hs Hb. assert (Hc : cdiv (b - (f * s + f - 1)) f = b / f - s).
  { apply Z.le_antisymm.
    - apply cdiv_le_iff; [done|]. pose proof (Z.div_mod b f). pose proof (Z.mod_pos_bound b f). nia.
    - apply Z.lt_pred_le. apply cdiv_lt_iff; [done|]. pose proof (Z.mul_div_le b f). nia. }
  rewrite Hc. rewrite (omap_nth l []).
  - unfold py_range. rewrite !map_map, Z.sub_0_r. apply map_ext. intros i. f_equal. lia.
  - intros k [Hk0 Hk]%py_range_in. assert (f * (s + k + 1) ≤ b); [|unfold len in Hb; lia].
    pose proof (Z.mul_div_le b f). nia.
Qed.

Lemma get_hashes_some f req s e : 0 < f → 0 ≤ s → 0 < e →
  _get_block_hashes f req s (Some e) = drop (Z.to_nat s) (take (Z.to_nat e) (offloaded_hashes f (block_hashes req))).
Proof.
  intros Hf Hs He. unfold _get_block_hashes, islice, offloaded_hashes. rewrite decide_False by lia.
  rewrite islice_stride by lia. rewrite firstn_map, skipn_map, py_range_take, py_range_drop by done. do 2 f_equal.
  rewrite Z.add_0_l, Z.max_r by lia. rewrite Z.min_comm. destruct (Z.le_gt_cases (f * e) (len (block_hashes req))).
  - rewrite Z.min_r by done. rewrite Z.mul_comm, Z.div_mul by lia. rewrite Z.min_r; [done|].
    apply Z.div_le_lower_bound; lia.
  - rewrite Z.min_l by lia. rewrite Z.min_l; [done|]. apply Z.lt_succ_r, Z.div_lt_upper_bound; lia.
Qed.

Lemma get_hashes_none f req s : 0 < f → 0 ≤ s →
  _get_block_hashes f req s None = drop (Z.to_nat s) (offloaded_hashes f (block_hashes req)).
Proof.
  intros Hf Hs. unfold _get_block_hashes, islice, offloaded_hashes. rewrite islice_stride by (lia || done).
  by rewrite skipn_map, py_range_drop.
Qed.

(** ** Loads *)

Section connector.
Context {S B A : Type} {HM : OffloadingManager S A} {HB : Backend B A} (capacity : Z) {HL : BackendLaws B A capacity}.
Context {HP : PolicyLaws S B A capacity}.
Abbreviation connector := (OffloadingConnectorScheduler S A).
Abbreviation blocks_of := (policy_blocks (S := S) (B := B) (A := A) (capacity := capacity)).
Abbreviation policy_inv := (managed blocks_of policy_backend policy_state).
Implicit Types (c : connector) (m : S) (request : Request) (loading : list bytes) (storing : gset bytes).

(** An offloaded block is [block_size_factor] GPU blocks. *)
Record sizes c : Prop := {
  sz_gpu : 0 < gpu_block_size c;
  sz_factor : 0 < block_size_factor c;
  sz_offloaded : offloaded_block_size c = block_size_factor c * gpu_block_size c
}.

Lemma sizes_pos c : sizes c → 0 < offloaded_block_size c.
Proof. intros [H1 H2 ->]. nia. Qed.

Lemma count_ready_bounds (get : bytes → option (BlockStatus A)) hs : 0 ≤ count_ready get hs ≤ len hs.
Proof.
  induction hs as [|h hs IH]; [done|]. simpl. rewrite len_cons. pose proof (len_nonneg hs).
  destruct (get h) as [b|]; [destruct (is_ready b)|]; lia.
Qed.
Lemma count_ready_take (get : bytes → option (BlockStatus A)) hs n : 0 ≤ n ≤ count_ready get hs →
  count_ready get (take (Z.to_nat n) hs) = len (take (Z.to_nat n) hs).
Proof.
  revert n. induction hs as [|h hs IH]; intros n Hn; [by rewrite take_nil|]. destruct (decide (n = 0)) as [->|Hn0]; [done|].
  replace (Z.to_nat n) with (Datatypes.S (Z.to_nat (n - 1))) by lia. simpl in *. rewrite len_cons.
  destruct (get h) as [b|]; [|lia]. destruct (is_ready b); [|lia]. rewrite IH; lia.
Qed.

Lemma in_manager_run {X} (op : M S X) c x m : op (manager c) = (x, m) → in_manager op c = (x, set_manager m c).
Proof. intros Hop. unfold in_manager, zoom. by rewrite Hop. Qed.

(** What [get_num_new_matched_tokens] found: [k] tokens that end at the offloaded block [e]. *)
Record found m c request (computed k e : Z) : Prop := {
  fo_end : computed + k = offloaded_block_size c * e;
  fo_enough : offloaded_block_size c ≤ k;
  fo_bound : computed + k ≤ num_tokens request;
  fo_hashes : e ≤ len (block_hashes request) / block_size_factor c;
  fo_ready : lookup (_get_block_hashes (block_size_factor c) request (computed / offloaded_block_size c) (Some e)) m =
    len (_get_block_hashes (block_size_factor c) request (computed / offloaded_block_size c) (Some e))
}.

Definition touchable c request storing : Prop :=
  ∀ h, h ∈ _get_block_hashes (block_size_factor c) request 0 None → touch_storing = true ∨ h ∉ storing.

Lemma matched_ok loading storing c request computed : sizes c → policy_inv loading storing (manager c) →
  touchable c request storing →
  len (block_hashes request) / block_size_factor c = num_tokens request / offloaded_block_size c → 0 ≤ computed →
  ∃ k async m', oc_get_num_new_matched_tokens request computed c = (Ok (k, async), set_manager m' c) ∧
    policy_inv loading storing m' ∧
    (if async : bool then ∃ e, found m' c request computed k e else k = 0).
Proof.
  intros Hc Hm Htouch Hhash Hcomp. unfold oc_get_num_new_matched_tokens. unfold bind at 1. cbn [get].
  rewrite bind_assert_true by (by apply bool_decide_eq_true_2).
  destruct (pl_touch _ _ _ _ Hm Htouch) as (m' & Hrun & Hm' & _).
  rewrite (bind_ok _ _ _ _ _ (in_manager_run _ _ _ _ Hrun)). set (size := offloaded_block_size c) in *.
  pose proof (sizes_pos c Hc) as Hsize. fold size in Hsize. pose proof (sz_factor c Hc) as Hf.
  destruct (decide (_ < size)); [by exists 0, false, m'|]. unfold bind at 1. cbn [get].
  change (manager (set_manager m' c)) with m'. rewrite pl_lookup. set (start := computed / size).
  assert (Hstart : 0 ≤ start) by (by apply Z.div_pos). rewrite get_hashes_none by done.
  set (all := offloaded_hashes (block_size_factor c) (block_hashes request)).
  assert (Hall : len all = num_tokens request / size) by (unfold all; by rewrite offloaded_length).
  pose proof (count_ready_bounds (λ h, od_get h (blocks_of m')) (drop (Z.to_nat start) all)) as Hb.
  set (hits := count_ready _ _) in *. destruct (decide (hits = 0)); [by exists 0, false, m'|].
  destruct (decide (size * (start + hits) - computed < size)); [by exists 0, false, m'|].
  assert (Hlen : start + hits ≤ len all) by (unfold len in *; rewrite length_drop in Hb; lia).
  eexists _, true, m'. split; [reflexivity|]. split; [done|]. exists (start + hits). split; [lia|lia| |lia|].
  - rewrite Hall in Hlen. pose proof (Z.mul_div_le (num_tokens request) size Hsize). nia.
  - rewrite pl_lookup, get_hashes_some by lia. fold all. fold size. fold start.
    replace (Z.to_nat (start + hits)) with (Z.to_nat start + Z.to_nat hits)%nat by lia.
    rewrite <- take_drop_commute. apply count_ready_take. fold hits. lia.
Qed.

(** The allocation of the scheduler: [computed] tokens in the blocks that are
    cached, and blocks for the [k] tokens that are loaded. *)
Record allocated c (computed k : Z) (group : list KVCacheBlock) : Prop := {
  al_cached : computed = len (filter (λ b, is_Some (_block_hash b)) group) * gpu_block_size c;
  al_size : len group * gpu_block_size c = computed + k
}.

Lemma alloc_ok loading storing c r request computed k e group rest : sizes c → policy_inv loading storing (manager c) →
  found (manager c) c request computed k e → 0 ≤ computed → allocated c computed k group →
  len loading + len (block_hashes request) < 2 ^ 31 →
  let hashes := _get_block_hashes (block_size_factor c) request (computed / offloaded_block_size c) (Some e) in
  ∃ addrs c2, oc_update_state_after_alloc r request (group :: rest) k c = (Ok tt, c2) ∧
    od_get (request_id request) (_reqs_to_load c2) =
      Some (mkTransfer addrs (drop (length (filter (λ b, is_Some (_block_hash b)) group)) (map block_id group))) ∧
    Forall2 (λ h a, place (blocks_of (manager c2)) h = Some a) hashes addrs ∧
    policy_inv (hashes ++ loading) storing (manager c2) ∧
    _reqs_being_loaded c2 !! request_id request = Some (default ∅ (_reqs_being_loaded c !! request_id request) ∪ list_to_set hashes).
Proof.
  intros Hc Hm [F1 F2 F3 F4 F5] Hcomp [A1 A2] Hw. pose proof (sizes_pos c Hc) as Hsize. pose proof (sz_gpu c Hc) as Hg.
  pose proof (sz_factor c Hc) as Hf. cbv zeta. set (hashes := _get_block_hashes _ _ _ _) in *.
  set (cached := filter (λ b, is_Some (_block_hash b)) group) in *.
  unfold oc_update_state_after_alloc. rewrite !bind_modify. rewrite decide_False by lia. unfold bind at 1. cbn [get].
  set (c1 := set_request_block_ids _ _). change (offloaded_block_size c1) with (offloaded_block_size c).
  change (block_size_factor c1) with (block_size_factor c). change (gpu_block_size c1) with (gpu_block_size c).
  cbn [head of_option]. rewrite bind_ret_l. fold cached. rewrite <- A1, F1.
  assert (Hmod : (offloaded_block_size c * e) mod offloaded_block_size c = 0) by (rewrite Z.mul_comm; by apply Z.mod_mul; lia).
  rewrite bind_assert_true by (by apply bool_decide_eq_true_2).
  assert (Hids : len (map block_id group) = len group) by (unfold len; by rewrite length_map).
  rewrite Hids, bind_assert_true by (apply bool_decide_eq_true_2; nia).
  replace (offloaded_block_size c * e / offloaded_block_size c) with e by (rewrite Z.mul_comm; symmetry; apply Z.div_mul; lia).
  rewrite bind_assert_true by (by apply bool_decide_eq_true_2). fold hashes.
  assert (Hready : ∀ h, h ∈ hashes → h ∈ od_keys (blocks_of (manager c)) ∧ h ∉ storing).
  { intros h Hh. rewrite pl_lookup in F5. destruct (count_ready_all _ _ F5 h Hh) as (b & Hb & Hr).
    split; [apply od_get_keys; by eexists|]. by apply (ready_iff capacity _ _ _ _ h b (proj1 Hm) Hb). }
  assert (Hlen : len hashes ≤ len (block_hashes request)).
  { unfold hashes. assert (0 < e) by nia. rewrite get_hashes_some by (try lia; by apply Z.div_pos). unfold len.
    rewrite length_drop, length_take. pose proof (offloaded_length (block_size_factor c) (block_hashes request) Hf) as Hl.
    unfold len in Hl. pose proof (Z.mul_div_le (Z.of_nat (length (block_hashes request))) (block_size_factor c) Hf). nia. }
  destruct (pl_load hashes loading storing (manager c) Hm Hready) as (addrs & m' & Hrun & Hm' & Hs & Hall); [lia|].
  assert (Hrun' : in_manager (prepare_load hashes) c1 = (Ok addrs, set_manager m' c1)) by by apply in_manager_run.
  rewrite (bind_ok _ _ _ _ _ Hrun'), !bind_modify. eexists addrs, _. split; [reflexivity|]. simpl.
  rewrite od_get_set, decide_True by done. split; [unfold len; by rewrite Nat2Z.id|].
  split; [|split; [done|by rewrite lookup_insert_eq]].
  eapply Forall2_impl; [exact Hall|]. intros h a Ha. by rewrite <- Ha.
Qed.

(** ** Stores *)

(** The offloaded blocks from [i] on, with their hashes. *)
Definition indexed (i : Z) (hs : list bytes) : list (Z * bytes) := zip (py_range i (i + len hs)) hs.

Lemma indexed_nil i : indexed i [] = [].
Proof. unfold indexed. by destruct (py_range i _). Qed.
Lemma indexed_cons i h hs : indexed i (h :: hs) = (i, h) :: indexed (i + 1) hs.
Proof.
  unfold indexed. rewrite len_cons. pose proof (len_nonneg hs).
  assert (Hr : py_range i (i + (1 + len hs)) = i :: py_range (i + 1) (i + 1 + len hs)); [|by rewrite Hr].
  unfold py_range. replace (Z.to_nat (i + (1 + len hs) - i)) with (Datatypes.S (Z.to_nat (i + 1 + len hs - (i + 1)))) by lia.
  simpl. f_equal; [lia|]. rewrite <- seq_shift, map_map. apply map_ext. intros k. lia.
Qed.

Lemma mapM_options {X Y T} (e : exc) (g : X → option Y) xs ys (t : T) : Forall2 (λ x y, g x = Some y) xs ys →
  mapM (λ x, of_option e (g x)) xs t = (Ok ys, t).
Proof.
  induction 1 as [|x y xs ys Hx _ IH]; [done|]. cbn [mapM]. rewrite Hx. cbn [of_option]. rewrite bind_ret_l.
  by rewrite (bind_ok _ _ _ _ _ IH).
Qed.

(** The GPU blocks of an offloaded block. *)
Definition gpu_blocks_of (f : Z) (ids : list Z) (j : Z) : list Z := take (Z.to_nat f) (drop (Z.to_nat (j * f)) ids).

Lemma gpu_blocks_run (f j : Z) (ids : list Z) c : 0 < f → 0 ≤ j → (j + 1) * f ≤ len ids →
  mapM (λ i, of_option IndexError (py_index ids (j * f + i))) (py_range 0 f) c = (Ok (gpu_blocks_of f ids j), c).
Proof.
  intros Hf Hj Hlen. apply mapM_options. unfold len in Hlen. apply Forall2_same_length_lookup_2.
  { unfold py_range, gpu_blocks_of. rewrite length_map, length_seq, length_take, length_drop. lia. }
  intros k i b Hi Hb. unfold py_range in Hi. rewrite lookup_map in Hi. apply fmap_Some in Hi as (n & Hn & ->).
  apply lookup_seq in Hn as [-> Hn]. rewrite py_index_nonneg by lia. unfold gpu_blocks_of in Hb.
  rewrite lookup_take_lt, lookup_drop in Hb by lia. rewrite <- Hb. f_equal. lia.
Qed.

Lemma gather_run (f : Z) (ids : list Z) (stored : gset bytes) c hs : ∀ j, 0 < f → 0 ≤ j → (j + len hs) * f ≤ len ids →
  gather_src f ids stored j hs c =
    (Ok (concat (map (λ p, gpu_blocks_of f ids p.1) (filter (λ p, p.2 ∈ stored) (indexed j hs)))), c).
Proof.
  induction hs as [|h hs IH]; intros j Hf Hj Hlen; [by rewrite indexed_nil|]. rewrite len_cons in Hlen. pose proof (len_nonneg hs).
  rewrite indexed_cons. cbn [gather_src]. destruct (decide (h ∈ stored)).
  - rewrite filter_cons_True by done. rewrite (bind_ok _ _ _ _ _ (gpu_blocks_run f j ids c Hf Hj ltac:(nia))).
    rewrite (bind_ok _ _ _ _ _ (IH (j + 1) Hf ltac:(lia) ltac:(lia))). done.
  - rewrite filter_cons_False by done. apply IH; lia.
Qed.

Lemma indexed_filter (P : bytes → Prop) (Q : Z * bytes → Prop) `{∀ h, Decision (P h)} `{∀ p, Decision (Q p)} hs :
  (∀ j h, Q (j, h) ↔ P h) → ∀ j, map snd (filter Q (indexed j hs)) = filter P hs.
Proof.
  intros HQ. induction hs as [|h hs IH]; intros j; [by rewrite indexed_nil|]. rewrite indexed_cons. destruct (decide (P h)).
  - rewrite !filter_cons_True by (try apply HQ; done). simpl. by rewrite IH.
  - rewrite !filter_cons_False by (try rewrite HQ; done). apply IH.
Qed.

(** The block ids of a request after [collect_block_ids]. *)
Definition collected c (req_id : string) (groups : option (list (list Z))) (preempted : bool) : list Z :=
  (if preempted then [] else default [] (_request_block_ids c !! req_id)) ++
  match groups with Some (ids :: _) => ids | _ => [] end.

Lemma collect_run c req_id groups (preempted : bool) : preempted = true ∨ is_Some (_request_block_ids c !! req_id) →
  ∃ d, collect_block_ids req_id groups preempted c = (Ok tt, set_request_block_ids d c) ∧
    d !! req_id = Some (collected c req_id groups preempted).
Proof.
  intros Hid. unfold collect_block_ids, collected. destruct preempted.
  - rewrite bind_modify. destruct groups as [[|ids groups]|]; cbn [app].
    + eexists. split; [reflexivity|]. by rewrite lookup_insert_eq.
    + unfold bind, get. simpl. rewrite lookup_insert_eq. simpl. eexists. split; [reflexivity|]. by rewrite lookup_insert_eq.
    + eexists. split; [reflexivity|]. by rewrite lookup_insert_eq.
  - destruct Hid as [|[old Hold]]; [done|]. rewrite bind_ret_l, Hold. simpl default.
    destruct groups as [[|ids groups]|]; rewrite ?app_nil_r.
    + exists (_request_block_ids c). split; [by destruct c|done].
    + unfold bind, get. rewrite Hold. simpl. eexists. split; [reflexivity|]. by rewrite lookup_insert_eq.
    + exists (_request_block_ids c). split; [by destruct c|done].
Qed.

(** What [store_request] did: [new] are the offloaded blocks that the manager did
    not have. *)
Record stores_blocks c req_id request (ids : list Z) (first last : Z) loading storing
    (t : TransferSpec A) c' : Prop := {
  sb_inv : let new := filter (λ p : Z * bytes, p.2 ∉ od_keys (blocks_of (manager c)))
             (indexed first (_get_block_hashes (block_size_factor c) request first (Some last))) in
    ts_gpu t = concat (map (λ p, gpu_blocks_of (block_size_factor c) ids p.1) new) ∧
    Forall2 (λ p a, place (blocks_of (manager c')) p.2 = Some a) new (ts_offloaded t) ∧
    policy_inv loading (storing ∪ list_to_set (map snd new)) (manager c');
  sb_next : _next_stored_block_idx c' !! req_id = Some last
}.

Lemma store_request_ok loading storing c objects scheduled req_id groups preempted r new_tokens :
  sizes c → policy_inv loading storing (manager c) → touch_storing = true →
  preempted = true ∨ is_Some (_request_block_ids c !! req_id) →
  _requests c !! req_id = Some r → od_get req_id scheduled = Some new_tokens →
  let request := objects r in
  let ids := collected c req_id groups preempted in
  let first := default 0 (_next_stored_block_idx c !! req_id) in
  let last := (num_computed_tokens request + new_tokens) / offloaded_block_size c in
  0 ≤ first → last * block_size_factor c ≤ len ids →
  NoDup (offloaded_hashes (block_size_factor c) (block_hashes request)) →
  ∃ res c', store_request objects scheduled (req_id, groups, preempted) c = (Ok res, c') ∧
    match res with
    | None => policy_inv loading storing (manager c')
    | Some (id, t) => id = req_id ∧ stores_blocks c req_id request ids first last loading storing t c'
    end.
Proof.
  intros Hc Hm Ht Hid Hr Hn request ids first last Hfirst Hlast Hnd. unfold store_request.
  destruct (collect_run c req_id groups preempted Hid) as (d & Hcol & Hd). rewrite (bind_ok _ _ _ _ _ Hcol).
  unfold bind at 1. cbn [get]. set (c1 := set_request_block_ids d c).
  change (_request_block_ids c1) with d. rewrite Hd. cbn [of_option]. rewrite bind_ret_l.
  change (_requests c1) with (_requests c). rewrite Hr. cbn [of_option]. rewrite bind_ret_l. rewrite Hn. cbn [of_option]. rewrite bind_ret_l.
  change (_next_stored_block_idx c1) with (_next_stored_block_idx c). fold first. fold request.
  change (offloaded_block_size c1) with (offloaded_block_size c). change (block_size_factor c1) with (block_size_factor c). fold last.
  destruct (decide (last - first ≤ 0)) as [Hle|Hgt]; [by exists None, c1|]. pose proof (sz_factor c Hc) as Hf.
  set (hs := _get_block_hashes (block_size_factor c) request first (Some last)).
  assert (Hhs : NoDup hs ∧ len hs ≤ last - first).
  { unfold hs. rewrite get_hashes_some by lia. split.
    - eapply sublist_NoDup; [|apply sublist_drop]. eapply sublist_NoDup; [exact Hnd|apply sublist_take].
    - unfold len. rewrite length_drop, length_take. lia. }
  destruct Hhs as [Hndhs Hlenhs].
  destruct (pl_store hs loading storing (manager c) Hm Hndhs) as (out & m1 & Hrun & _ & Hout).
  assert (Hrun' : in_manager (prepare_store hs) c1 = (Ok out, set_manager m1 c1)) by by apply in_manager_run.
  rewrite (bind_ok _ _ _ _ _ Hrun'). destruct out as [out|]; [|by eexists None, _].
  destruct Hout as (Hto & Hall & Hm1). set (new := filter (λ h, h ∉ od_keys (blocks_of (manager c))) hs) in *.
  rewrite bind_modify. rewrite Hto. destruct new as [|h0 new0] eqn:Hnew.
  { eexists None, _. split; [reflexivity|]. by rewrite list_to_set_nil, union_empty_r_L in Hm1. }
  rewrite <- Hnew in *.
  assert (Hpairs : filter (λ p : Z * bytes, p.2 ∈@{gset bytes} list_to_set new) (indexed first hs) =
      filter (λ p : Z * bytes, p.2 ∉ od_keys (blocks_of (manager c))) (indexed first hs)).
  { apply filter_ext_in. intros [j h] Hp. apply elem_of_zip_r in Hp. simpl. rewrite elem_of_list_to_set.
    unfold new. rewrite list_elem_of_filter. tauto. }
  assert (Hsnd : map snd (filter (λ p : Z * bytes, p.2 ∉ od_keys (blocks_of (manager c))) (indexed first hs)) = new).
  { by apply indexed_filter. }
  set (c2 := set_next_stored _ _). destruct (pl_touch (_get_block_hashes (block_size_factor c) request 0 (Some last)) _ _ m1 Hm1)
    as (m2 & Hrun2 & Hm2 & Hs2); [by left|].
  assert (Hrun2' : in_manager (touch (_get_block_hashes (block_size_factor c) request 0 (Some last))) c2 = (Ok tt, set_manager m2 c2))
    by by apply in_manager_run.
  rewrite (bind_ok _ _ _ _ _ Hrun2'). fold ids.
  assert (Hmul : (first + len hs) * block_size_factor c ≤ last * block_size_factor c) by (apply Z.mul_le_mono_nonneg_r; lia).
  erewrite bind_ok by (apply gather_run; [done|done|exact (Z.le_trans _ _ _ Hmul Hlast)]).
  rewrite Hpairs. eexists (Some _), _. split; [reflexivity|]. split; [done|]. split; [|simpl; by rewrite lookup_insert_eq].
  cbv zeta. fold hs. split; [done|]. rewrite Hsnd. split; [|done]. simpl manager.
  apply (Forall2_fmap_l snd (λ h a, place (blocks_of m2) h = Some a)). change (snd <$> ?l) with (map snd l). rewrite Hsnd.
  eapply Forall2_impl; [exact Hall|]. intros h a Ha. by rewrite Hs2.
Qed.

(** ** Properties *)

(** C16. What the connector reports to the scheduler can be loaded.
    [get_num_new_matched_tokens] does not raise and, when it reports [k] tokens,
    they end at a whole offloaded block, are at least one offloaded block, and
    are tokens of the request; then [update_state_after_alloc] with these tokens
    does not raise either, whatever blocks the scheduler has allocated for them
    after the cached ones: the transfer reads the addresses of the offloaded
    blocks from the first one that is not computed, writes the GPU blocks that
    are not cached, and the manager counts it as in flight. *)
Theorem connector_load_accepted loading storing c r request computed
    (Hc : sizes c) (Hm : policy_inv loading storing (manager c)) (Htouch : touchable c request storing)
    (Hhash : len (block_hashes request) / block_size_factor c = num_tokens request / offloaded_block_size c)
    (Hcomp : 0 ≤ computed) (Hw : len loading + len (block_hashes request) < 2 ^ 31) :
  ∃ k async c1, oc_get_num_new_matched_tokens request computed c = (Ok (k, async), c1) ∧
    if async : bool then
      offloaded_block_size c ≤ k ∧ computed + k ≤ num_tokens request ∧ (computed + k) mod offloaded_block_size c = 0 ∧
      ∀ group rest, allocated c computed k group →
        let hashes := _get_block_hashes (block_size_factor c) request (computed / offloaded_block_size c)
                        (Some ((computed + k) / offloaded_block_size c)) in
        let num_cached := length (filter (λ b, is_Some (_block_hash b)) group) in
        ∃ addrs c2, oc_update_state_after_alloc r request (group :: rest) k c1 = (Ok tt, c2) ∧
          od_get (request_id request) (_reqs_to_load c2) = Some (mkTransfer addrs (drop num_cached (map block_id group))) ∧
          Forall2 (λ h a, place (blocks_of (manager c2)) h = Some a) hashes addrs ∧
          policy_inv (hashes ++ loading) storing (manager c2)
    else k = 0.
Proof.
  destruct (matched_ok loading storing c request computed Hc Hm Htouch Hhash Hcomp) as (k & async & m' & Hrun & Hm' & Hk).
  exists k, async, (set_manager m' c). split; [done|]. destruct async; [|done]. destruct Hk as (e & He).
  pose proof (sizes_pos c Hc) as Hsize. destruct He as [F1 F2 F3 F4 F5] eqn:HeqF. clear HeqF. split; [done|]. split; [done|].
  split; [rewrite F1, Z.mul_comm; apply Z.mod_mul; lia|]. intros group rest Hal. cbv zeta.
  replace ((computed + k) / offloaded_block_size c) with e by (rewrite F1, Z.mul_comm; symmetry; apply Z.div_mul; lia).
  destruct (alloc_ok loading storing (set_manager m' c) r request computed k e group rest) as (addrs & c2 & H1 & H2 & H3 & H4 & _); try done.
  - by destruct Hc.
  - by destruct Hal.
  - by exists addrs, c2.
Qed.

(** C17. Under a policy that lets blocks be touched while they are stored (the LRU
    policy; under ARC see [connector_arc_store_raises]) the store of a scheduled
    request, whose blocks are known and whose hashes are distinct, does not
    raise.  If there is a transfer, it copies, for each offloaded block that the
    manager did not have, in order, the GPU blocks of the request at its place
    to the address that the manager has given to its hash; these hashes are
    being stored from then on, and the next store of the request starts behind
    them. *)
Theorem connector_store_copies loading storing c objects scheduled req_id groups preempted r new_tokens
    (Hc : sizes c) (Hm : policy_inv loading storing (manager c)) (Ht : touch_storing = true)
    (Hid : preempted = true ∨ is_Some (_request_block_ids c !! req_id))
    (Hr : _requests c !! req_id = Some r) (Hn : od_get req_id scheduled = Some new_tokens)
    (Hfirst : 0 ≤ default 0 (_next_stored_block_idx c !! req_id))
    (Hids : (num_computed_tokens (objects r) + new_tokens) / offloaded_block_size c * block_size_factor c ≤
      len (collected c req_id groups preempted))
    (Hnd : NoDup (offloaded_hashes (block_size_factor c) (block_hashes (objects r)))) :
  let first := default 0 (_next_stored_block_idx c !! req_id) in
  let last := (num_computed_tokens (objects r) + new_tokens) / offloaded_block_size c in
  let ids := collected c req_id groups preempted in
  let new := filter (λ p : Z * bytes, p.2 ∉ od_keys (blocks_of (manager c)))
    (indexed first (_get_block_hashes (block_size_factor c) (objects r) first (Some last))) in
  ∃ res c', store_request objects scheduled (req_id, groups, preempted) c = (Ok res, c') ∧
    match res with
    | None => policy_inv loading storing (manager c')
    | Some (id, t) => id = req_id ∧
        ts_gpu t = concat (map (λ p, gpu_blocks_of (block_size_factor c) ids p.1) new) ∧
        Forall2 (λ p a, place (blocks_of (manager c')) p.2 = Some a) new (ts_offloaded t) ∧
        policy_inv loading (storing ∪ list_to_set (map snd new)) (manager c') ∧
        _next_stored_block_idx c' !! req_id = Some last
    end.
Proof.
  destruct (store_request_ok loading storing c objects scheduled req_id groups preempted r new_tokens Hc Hm Ht Hid Hr Hn Hfirst Hids Hnd)
    as (res & c' & Hrun & Hres). exists res, c'. split; [done|]. destruct res as [[id t]|]; [|done].
  destruct Hres as (-> & [(H1 & H2 & H3) H4]). done.
Qed.
End connector.

(** ** The adaptive policy *)

Section arc.
Context {B A : Type} {HB : Backend B A}.
Abbreviation connector := (OffloadingConnectorScheduler (ARCOffloadingManager B A) A).
Implicit Types (c : connector).

(** C39. With the adaptive policy the connector fails at its first store: when the
    manager has accepted to store some blocks of a request, the turn of the
    request raises [KeyError].  The connector touches all blocks of the request
    right after it has prepared the store of the new ones, and [touch] takes
    a block that is not ready out of [t1] and then moves it to the end of [t1],
    where it no longer is.  The backend only has to return blocks that are not
    ready, as backend.py says. *)
Theorem connector_arc_store_raises c objects scheduled req_id groups preempted r new_tokens out m'
    (Hc : sizes c) (Hid : preempted = true ∨ is_Some (_request_block_ids c !! req_id))
    (Hr : _requests c !! req_id = Some r) (Hn : od_get req_id scheduled = Some new_tokens)
    (Hfirst : 0 ≤ default 0 (_next_stored_block_idx c !! req_id))
    (Hnew : ∀ hs b blocks b', allocate_blocks hs b = (Ok blocks, b') → Forall (λ s : BlockStatus A, ref_cnt s = -1) blocks) :
  let first := default 0 (_next_stored_block_idx c !! req_id) in
  let last := (num_computed_tokens (objects r) + new_tokens) / offloaded_block_size c in
  first < last →
  prepare_store (_get_block_hashes (block_size_factor c) (objects r) first (Some last)) (manager c) = (Ok (Some out), m') →
  block_hashes_to_store out ≠ [] →
  ∃ c', store_request objects scheduled (req_id, groups, preempted) c = (Raise KeyError, c').
Proof.
  intros first last Hlt Hstore Hne. unfold store_request.
  destruct (collect_run c req_id groups preempted Hid) as (d & Hcol & Hd). rewrite (bind_ok _ _ _ _ _ Hcol).
  unfold bind at 1. cbn [get]. set (c1 := set_request_block_ids d c).
  change (_request_block_ids c1) with d. rewrite Hd. cbn [of_option]. rewrite bind_ret_l.
  change (_requests c1) with (_requests c). rewrite Hr. cbn [of_option]. rewrite bind_ret_l. rewrite Hn. cbn [of_option]. rewrite bind_ret_l.
  change (_next_stored_block_idx c1) with (_next_stored_block_idx c). fold first.
  change (offloaded_block_size c1) with (offloaded_block_size c). change (block_size_factor c1) with (block_size_factor c). fold last.
  rewrite decide_False by lia. pose proof (sz_factor c Hc) as Hf.
  set (hs := _get_block_hashes (block_size_factor c) (objects r) first (Some last)) in *.
  assert (Hrun : in_manager (prepare_store hs) c1 = (Ok (Some out), set_manager m' c1)) by by apply in_manager_run.
  rewrite (bind_ok _ _ _ _ _ Hrun), bind_modify. destruct (block_hashes_to_store out) as [|h0 hs0] eqn:Hto; [done|].
  destruct (touch_after_store (manager c) hs (_get_block_hashes (block_size_factor c) (objects r) 0 (Some last)) out m' Hnew Hstore)
    as (m2 & Hraise); [by rewrite Hto| |].
  { unfold hs. rewrite !get_hashes_some by lia. intros h Hh. by apply elem_of_drop_list in Hh. }
  set (c2 := set_next_stored _ _).
  assert (Hraise' : in_manager (touch (_get_block_hashes (block_size_factor c) (objects r) 0 (Some last))) c2 =
    (Raise KeyError, set_manager m2 c2)) by by apply in_manager_run.
  rewrite (bind_raise _ _ _ _ _ Hraise'). by eexists.
Qed.
End arc.

(** ** Examples *)

(** GPU blocks of two tokens, offloaded blocks of four, a request of eight tokens. *)
Definition offload_request : Request :=
  mkRequest "r" 0 0 0 0 (Some (mkSampling (Some 4) 0 false None false None)) None None None false
    WAITING [] None 4 None 8 [] (replicate 8 7) 0 false [] 0 None [] (-1) 0 0 [[1]; [2]; [3]; [4]] true false.

(** The cache of two blocks holds both offloaded blocks of the request. *)
Definition warm_calls : list offload_call := [OPrepareStore [[2]; [4]]; OCompleteStore 0 true].
Definition warm_lru : LRUOffloadingManager CPUBackend Z :=
  ltac:(let t := eval vm_compute in (offload_steps warm_calls (mkJobs [] []) example_lru) in
        lazymatch t with (Ok _, ?m) => exact m end).
Lemma warm_lru_inv : managed (capacity := 2) lru_blocks lru_backend (λ _, True) [] ∅ warm_lru.
Proof.
  destruct (steps_ok (HP := lru_laws 2) 2 warm_calls (mkJobs [] []) example_lru (init_ok (HP := lru_laws 2) 2 _ example_lru_inv))
    as (J & m & Hrun & HJ); [check_allowed|].
  vm_compute in Hrun. injection Hrun as <- <-. exact (ji_policy _ _ _ HJ).
Qed.

Definition warm_connector : OffloadingConnectorScheduler (LRUOffloadingManager CPUBackend Z) Z :=
  OffloadingConnectorScheduler_init 2 4 warm_lru.
Definition fresh_group : list KVCacheBlock := map new_block [10; 11; 12; 13].

Lemma connector_load_accepted_witness :
  ∃ c1 c2 addrs, oc_get_num_new_matched_tokens offload_request 0 warm_connector = (Ok (8, true), c1) ∧
    oc_update_state_after_alloc 0 offload_request [fresh_group] 8 c1 = (Ok tt, c2) ∧
    od_get "r" (_reqs_to_load c2) = Some (mkTransfer addrs [10; 11; 12; 13]) ∧ addrs = [0; 1].
Proof.
  destruct (connector_load_accepted (HP := lru_laws 2) 2 [] ∅ warm_connector 0 offload_request 0) as (k & async & c1 & Hrun & Hk).
  - by split.
  - exact warm_lru_inv.
  - intros h _. by left.
  - reflexivity.
  - lia.
  - vm_compute. reflexivity.
  - pose proof Hrun as Hrun'. vm_compute in Hrun'. injection Hrun' as <- <- <-. destruct Hk as (_ & _ & _ & Hk).
    destruct (Hk fresh_group []) as (addrs & c2 & Hup & Hload & _); [by split|].
    eexists _, c2, addrs. split; [exact Hrun|]. split; [exact Hup|]. split; [exact Hload|].
    vm_compute in Hup. injection Hup as <-. vm_compute in Hload. by injection Hload as <-.
Defined.

(** The request is scheduled for the first time with four blocks. *)
Definition cold_connector {S} (m : S) : OffloadingConnectorScheduler S Z :=
  set_oc_requests {["r" := 0]} (set_request_block_ids {["r" := []]} (OffloadingConnectorScheduler_init 2 4 m)).

Lemma connector_store_copies_witness :
  ∃ c', store_request (λ _, offload_request) [("r", 8)] ("r", Some [[10; 11; 12; 13]], false) (cold_connector example_lru) =
    (Ok (Some ("r", mkTransfer [0; 1] [10; 11; 12; 13])), c') ∧ _next_stored_block_idx c' !! "r" = Some 2.
Proof.
  destruct (connector_store_copies (HP := lru_laws 2) 2 [] ∅ (cold_connector example_lru) (λ _, offload_request) [("r", 8)] "r"
    (Some [[10; 11; 12; 13]]) false 0 8) as (res & c' & Hrun & Hres).
  - by split.
  - exact example_lru_inv.
  - done.
  - right. by eexists.
  - done.
  - done.
  - done.
  - vm_compute. done.
  - vm_compute. repeat constructor; set_solver.
  - exists c'. pose proof Hrun as Hrun'. vm_compute in Hrun'. injection Hrun' as <- _.
    split; [exact Hrun|]. apply Hres.
Defined.

Lemma connector_arc_store_raises_witness :
  ∃ c', store_request (λ _, offload_request) [("r", 8)] ("r", Some [[10; 11; 12; 13]], false) (cold_connector example_arc) =
    (Raise KeyError, c').
Proof.
  apply (connector_arc_store_raises (cold_connector example_arc) (λ _, offload_request) [("r", 8)] "r"
    (Some [[10; 11; 12; 13]]) false 0 8 (mkPrepared [[2]; [4]] [0; 1] []) (snd (arc_prepare_store [[2]; [4]] example_arc))).
  - by split.
  - right. by eexists.
  - done.
  - done.
  - done.
  - exact cpu_not_ready.
  - reflexivity.
  - vm_compute. reflexivity.
  - done.
Defined.

(** Blocks that have no hash yet when their tokens are scheduled are never
    stored: the request has the hashes of one offloaded block, two are counted. *)
Definition late_request : Request := set_block_hashes [[1]; [2]] offload_request.
Example late_hash_skipped :
  ∃ c', store_request (λ _, late_request) [("r", 8)] ("r", Some [[10; 11; 12; 13]], false) (cold_connector example_lru) =
    (Ok (Some ("r", mkTransfer [0] [10; 11])), c') ∧ _next_stored_block_idx c' !! "r" = Some 2 ∧
  ∃ c'', store_request (λ _, offload_request) [("r", 8)] ("r", None, false) c' = (Ok None, c'').
Proof. eexists. split; [vm_compute; reflexivity|]. split; [reflexivity|]. eexists. vm_compute. reflexivity. Qed.
