(* ===== verification/OffloadWorker.v ===== *)
(** The worker side of offloading: the dispatch of transfers to handlers
    (vllm/v1/kv_offload/worker/worker.py) and the jobs of the offloading
    connector ([OffloadingConnectorWorker],
    kv_connector/v1/offloading_connector.py).

    The handlers copy memory: they are functions on a state [W] of their own.
    [Sp] are the transfer specifications, with their media. *)

From S2P Require Import Prelude.
From S2P Require Import OrderedDict.
From S2P Require Import OffloadConnector.

(** A handler, by its identity [Z].  [None]: the submission raised. *)
Record Handlers (Sp W : Type) := mkHandlers {
  handler_transfer_async : Z → Z → Sp → W → option bool * W;
  handler_get_finished : Z → W → list (Z * bool) * W;
  handler_wait : Z → gset Z → W → W
}.
Arguments handler_transfer_async {Sp W} _.
Arguments handler_get_finished {Sp W} _.
Arguments handler_wait {Sp W} _.

Record OffloadingWorker (W : Type) := mkOffloadingWorker {
  handlers : gset Z;
  transfer_type_to_handler : gmap (string * string) Z;
  handler_state : W
}.
Arguments mkOffloadingWorker {W}.
Arguments handlers {W} _.
Arguments transfer_type_to_handler {W} _.
Arguments handler_state {W} _.

Section worker.
Context {Sp W : Type} (hd : Handlers Sp W) (transfer_type : Sp → string * string).
(** The iteration order of the set of handlers. *)
Context (handler_order : gset Z → list Z).
Abbreviation worker := (OffloadingWorker W).

Definition OffloadingWorker_init (w : W) : worker := mkOffloadingWorker ∅ ∅ w.
Definition set_handler_state (v : W) (ow : worker) : worker :=
  mkOffloadingWorker (handlers ow) (transfer_type_to_handler ow) v.
Definition on_handlers {X} (op : W → X * W) : M worker X := λ ow,
  let '(x, w) := op (handler_state ow) in (Ok x, set_handler_state w ow).

Definition register_handler (src_medium dst_medium : string) (handler : Z) : M worker unit :=
  let* ow := get in
  assert_ (bool_decide (transfer_type_to_handler ow !! (src_medium, dst_medium) = None)) ;;;
  modify (λ ow, mkOffloadingWorker (handlers ow ∪ {[handler]})
    (<[(src_medium, dst_medium) := handler]> (transfer_type_to_handler ow)) (handler_state ow)).

Definition transfer_async (job_id : Z) (spec : Sp) : M worker bool :=
  let* ow := get in
  let* handler := of_option AssertionError (transfer_type_to_handler ow !! transfer_type spec) in
  let* success := on_handlers (handler_transfer_async hd handler job_id spec) in
  ret (default false success).

Definition worker_get_finished : M worker (list (Z * bool)) :=
  let* ow := get in
  let* results := mapM (λ h, on_handlers (handler_get_finished hd h)) (handler_order (handlers ow)) in
  ret (concat results).

Definition worker_wait (job_ids : gset Z) : M worker unit :=
  let* ow := get in
  for_ (handler_order (handlers ow)) (λ h, on_handlers (λ w, (tt, handler_wait hd h job_ids w))).
End worker.

(** ** The connector *)

Record OffloadingConnectorWorker (Sp W : Type) := mkConnectorWorker {
  ocw_worker : OffloadingWorker W;
  _job_counter : Z;
  _jobs : gmap Z (string * bool);          (** request, and whether it is a store *)
  _load_job : gmap string Z;
  _store_jobs : gmap string (gset Z);
  _unsubmitted_store_jobs : list (Z * Sp);
  _finished_reqs_waiting_for_store : gset string
}.
Arguments mkConnectorWorker {Sp W}.
Arguments ocw_worker {Sp W} _.
Arguments _job_counter {Sp W} _.
Arguments _jobs {Sp W} _.
Arguments _load_job {Sp W} _.
Arguments _store_jobs {Sp W} _.
Arguments _unsubmitted_store_jobs {Sp W} _.
Arguments _finished_reqs_waiting_for_store {Sp W} _.

Section connector_worker.
Context {Sp W : Type} (hd : Handlers Sp W) (transfer_type : Sp → string * string).
Context (handler_order : gset Z → list Z).
Abbreviation cworker := (OffloadingConnectorWorker Sp W).

Definition ConnectorWorker_init (w : W) : cworker := mkConnectorWorker (OffloadingWorker_init w) 0 ∅ ∅ ∅ [] ∅.

Definition cworker_eta (c : cworker) : cworker :=
  mkConnectorWorker (ocw_worker c) (_job_counter c) (_jobs c) (_load_job c) (_store_jobs c)
    (_unsubmitted_store_jobs c) (_finished_reqs_waiting_for_store c).
Definition set_worker (v : OffloadingWorker W) : cworker → cworker := ltac:(record_set cworker_eta (@ocw_worker Sp W) v).
Definition set_job_counter (v : Z) : cworker → cworker := ltac:(record_set cworker_eta (@_job_counter Sp W) v).
Definition set_jobs (v : gmap Z (string * bool)) : cworker → cworker := ltac:(record_set cworker_eta (@_jobs Sp W) v).
Definition set_load_job (v : gmap string Z) : cworker → cworker := ltac:(record_set cworker_eta (@_load_job Sp W) v).
Definition set_store_jobs (v : gmap string (gset Z)) : cworker → cworker := ltac:(record_set cworker_eta (@_store_jobs Sp W) v).
Definition set_unsubmitted (v : list (Z * Sp)) : cworker → cworker :=
  ltac:(record_set cworker_eta (@_unsubmitted_store_jobs Sp W) v).
Definition set_waiting_reqs (v : gset string) : cworker → cworker :=
  ltac:(record_set cworker_eta (@_finished_reqs_waiting_for_store Sp W) v).
Definition on_worker {X} (op : M (OffloadingWorker W) X) : M cworker X := zoom ocw_worker set_worker op.

Definition _generate_job_id : M cworker Z :=
  let* c := get in
  modify (set_job_counter (_job_counter c + 1)) ;;;
  ret (_job_counter c).

(** [register_kv_caches]: a handler for each pair of media that the
    specification has. *)
Definition _register_handlers (specs : list (string * string * Z)) : M cworker unit :=
  for_ specs (λ p, on_worker (register_handler p.1.1 p.1.2 p.2)).

(** [success = self.worker.transfer_async(...); assert success] *)
Definition submit (job_id : Z) (spec : Sp) : M cworker unit :=
  let* success := on_worker (transfer_async hd transfer_type job_id spec) in
  assert_ success.
Definition submit_stores : M cworker unit :=
  let* c := get in
  for_ (_unsubmitted_store_jobs c) (λ p, submit p.1 p.2) ;;;
  modify (set_unsubmitted []).

Definition handle_preemptions (preempted_req_ids : list string) : M cworker unit :=
  submit_stores ;;;
  for_ preempted_req_ids (λ req_id,
    let* c := get in
    match _store_jobs c !! req_id with
    | None => ret tt
    | Some job_ids => if decide (job_ids = ∅) then ret tt else on_worker (worker_wait hd handler_order job_ids)
    end).

Definition start_kv_transfers (to_load : list (string * Sp)) : M cworker unit :=
  submit_stores ;;;
  for_ to_load (λ p,
    let '(req_id, spec) := p in
    let* job_id := _generate_job_id in
    modify (λ c, set_jobs (<[job_id := (req_id, false)]> (_jobs c)) c) ;;;
    let* c := get in
    assert_ (bool_decide (_load_job c !! req_id = None)) ;;;
    modify (λ c, set_load_job (<[req_id := job_id]> (_load_job c)) c) ;;;
    submit job_id spec).

Definition prepare_store_kv (to_store : list (string * Sp)) : M cworker unit :=
  for_ to_store (λ p,
    let '(req_id, spec) := p in
    let* job_id := _generate_job_id in
    modify (λ c, set_jobs (<[job_id := (req_id, true)]> (_jobs c)) c) ;;;
    modify (λ c, set_store_jobs (<[req_id := default ∅ (_store_jobs c !! req_id) ∪ {[job_id]}]> (_store_jobs c)) c) ;;;
    modify (λ c, set_unsubmitted (_unsubmitted_store_jobs c ++ [(job_id, spec)]) c)).

(** A finished job; the request that is reported, and whether it was a store. *)
Definition finish_job (job_id : Z) : M cworker (option (string * bool)) :=
  let* c := get in
  let* job := of_option KeyError (_jobs c !! job_id) in
  let '(req_id, store) := job in
  modify (λ c, set_jobs (base.delete job_id (_jobs c)) c) ;;;
  if store : bool then
    (* [self._store_jobs\[req_id\]] of a [defaultdict], and [remove] *)
    let req_jobs := default ∅ (_store_jobs c !! req_id) in
    of_option KeyError (if decide (job_id ∈ req_jobs) then Some tt else None) ;;;
    modify (λ c, set_store_jobs (<[req_id := req_jobs ∖ {[job_id]}]> (_store_jobs c)) c) ;;;
    if decide (req_jobs ∖ {[job_id]} ≠ ∅) then ret None else
    if decide (req_id ∈ _finished_reqs_waiting_for_store c) then
      modify (λ c, set_waiting_reqs (_finished_reqs_waiting_for_store c ∖ {[req_id]}) c) ;;;
      modify (λ c, set_store_jobs (base.delete req_id (_store_jobs c)) c) ;;;
      ret (Some (req_id, true))
    else ret None
  else
    let* req_job := of_option KeyError (_load_job c !! req_id) in
    assert_ (bool_decide (job_id = req_job)) ;;;
    modify (λ c, set_load_job (base.delete req_id (_load_job c)) c) ;;;
    ret (Some (req_id, false)).

(** A request that has finished generating; [true] if it is reported. *)
Definition finish_request (req_id : string) : M cworker bool :=
  let* c := get in
  match _store_jobs c !! req_id with
  | None => ret false
  | Some pending_req_jobs =>
      if decide (pending_req_jobs = ∅) then
        modify (λ c, set_store_jobs (base.delete req_id (_store_jobs c)) c) ;;;
        ret true
      else
        modify (λ c, set_waiting_reqs (_finished_reqs_waiting_for_store c ∪ {[req_id]}) c) ;;;
        ret false
  end.

(** The requests whose transfers have finished: sending and receiving. *)
Definition ocw_get_finished (finished_req_ids : list string) : M cworker (gset string * gset string) :=
  let* results := on_worker (worker_get_finished hd handler_order) in
  let* reported := mapM (λ p : Z * bool, assert_ p.2 ;;; finish_job p.1) results in
  let* ended := mapM (λ r, let* e := finish_request r in ret (if e : bool then [r] else [])) finished_req_ids in
  let of_kind k := omap (λ x, match x with Some (r, s) => if bool_decide (s = k) then Some r else None | None => None end) reported in
  ret (list_to_set (of_kind true ++ concat ended), list_to_set (of_kind false)).
End connector_worker.
