(* ===== verification/OffloadWorkerSpec.v ===== *)
(** The worker side of the offloading connector keeps its tables of jobs
    consistent, and reports a finished request exactly when the last of its
    stores is done. *)

From S2P Require Import Prelude.
From S2P Require Import OrderedDict.
From S2P Require Import OffloadConnector.
From S2P Require Import OffloadWorker.

Section connector_worker.
Context {Sp W : Type} (hd : Handlers Sp W) (transfer_type : Sp → string * string).
Context (handler_order : gset Z → list Z).
Abbreviation cworker := (OffloadingConnectorWorker Sp W).
Implicit Types (c : cworker) (r q : string) (j : Z).

Record worker_inv c : Prop := {
  wi_store r js j : _store_jobs c !! r = Some js → j ∈ js ↔ _jobs c !! j = Some (r, true);
  wi_stored r j : _jobs c !! j = Some (r, true) → is_Some (_store_jobs c !! r);
  wi_load r j : _load_job c !! r = Some j ↔ _jobs c !! j = Some (r, false);
  wi_waiting r : r ∈ _finished_reqs_waiting_for_store c → ∃ j, _jobs c !! j = Some (r, true);
  wi_fresh j : is_Some (_jobs c !! j) → j < _job_counter c
}.

(** No store of the request is in flight. *)
Definition no_stores c r : Prop := ∀ j, _jobs c !! j ≠ Some (r, true).

(** ** A finished job *)

(** The tables after a job has been reported as [x]. *)
Record job_done c (j : Z) (x : option (string * bool)) c' : Prop := {
  jd_inv : worker_inv c';
  jd_jobs : _jobs c' = base.delete j (_jobs c);
  jd_sent q : x = Some (q, true) ↔ q ∈ _finished_reqs_waiting_for_store c ∧ no_stores c' q;
  jd_received q : x = Some (q, false) ↔ _jobs c !! j = Some (q, false);
  jd_stores q : is_Some (_store_jobs c' !! q) ↔ is_Some (_store_jobs c !! q) ∧ x ≠ Some (q, true);
  jd_waiting q : q ∈ _finished_reqs_waiting_for_store c' ↔ q ∈ _finished_reqs_waiting_for_store c ∧ x ≠ Some (q, true)
}.

Lemma load_done c j r : worker_inv c → _jobs c !! j = Some (r, false) →
  ∃ c', finish_job j c = (Ok (Some (r, false)), c') ∧ job_done c j (Some (r, false)) c'.
Proof.
  intros Hi Hj. unfold finish_job. unfold bind at 1. cbn [get]. rewrite Hj. cbn [of_option]. rewrite bind_ret_l, bind_modify.
  change (_load_job (set_jobs _ c)) with (_load_job c). pose proof (proj2 (wi_load c Hi r j) Hj) as Hl.
  rewrite Hl. cbn [of_option]. rewrite bind_ret_l, bind_assert_true by (by apply bool_decide_eq_true_2).
  rewrite bind_modify. eexists. split; [reflexivity|].
  assert (Hkeep : ∀ k q, base.delete j (_jobs c) !! k = Some (q, true) ↔ _jobs c !! k = Some (q, true)).
  { intros k q. rewrite lookup_delete_Some. split; [by intros [_ ?]|]. intros Hk. split; [|done]. intros ->. congruence. }
  split; simpl; try done.
  - destruct Hi as [I1 I2 I3 I4 I5]. split; simpl.
    + intros q js k Hq. rewrite Hkeep. by apply I1.
    + intros q k. rewrite Hkeep. apply I2.
    + intros q k. rewrite !lookup_delete_Some, I3. split; intros [Hne Hk]; (split; [|done]); intros <-; naive_solver.
    + intros q Hq. destruct (I4 q Hq) as [k Hk]. exists k. by rewrite Hkeep.
    + intros k [v Hv]. apply lookup_delete_Some in Hv as [_ Hv]. apply I5. by eexists.
  - intros q. split; [done|]. intros [Hq Hno]. destruct (wi_waiting c Hi q Hq) as [k Hk]. destruct (Hno k). simpl. by rewrite Hkeep.
  - intros q. rewrite Hj. naive_solver.
  - intros q. naive_solver.
  - intros q. naive_solver.
Qed.

(** The tables without a store job. *)
Lemma without_store c c' j r js : worker_inv c → _jobs c !! j = Some (r, true) → _store_jobs c !! r = Some js →
  _jobs c' = base.delete j (_jobs c) → _load_job c' = _load_job c → _job_counter c' = _job_counter c →
  (∀ q, q ≠ r → _store_jobs c' !! q = _store_jobs c !! q) →
  _store_jobs c' !! r = Some (js ∖ {[j]}) ∨ (_store_jobs c' !! r = None ∧ js ∖ {[j]} = ∅) →
  (∀ q, q ∈ _finished_reqs_waiting_for_store c' → q ∈ _finished_reqs_waiting_for_store c ∧ (q = r → js ∖ {[j]} ≠ ∅)) →
  worker_inv c'.
Proof.
  intros [I1 I2 I3 I4 I5] Hj Hjs H1 H2 H3 H4 H5 H6.
  assert (Hrest : ∀ k q, _jobs c' !! k = Some (q, true) ↔ _jobs c !! k = Some (q, true) ∧ k ≠ j).
  { intros k q. rewrite H1, lookup_delete_Some. naive_solver. }
  assert (Hr : ∀ k, k ∈ js ∖ {[j]} ↔ _jobs c' !! k = Some (r, true)).
  { intros k. rewrite Hrest, <- (I1 r js k Hjs). set_solver. }
  split.
  - intros q js' k Hq. destruct (decide (q = r)) as [->|Hne].
    + destruct H5 as [H5|[H5 _]]; rewrite H5 in Hq; [|done]. injection Hq as <-. apply Hr.
    + rewrite H4 in Hq by done. rewrite (I1 q js' k Hq), Hrest. split; [|tauto]. intros Hk. split; [done|]. naive_solver.
  - intros q k Hk. destruct (decide (q = r)) as [->|Hne].
    + destruct H5 as [H5|[_ H5]]; [by rewrite H5|]. apply Hr in Hk. set_solver.
    + rewrite H4 by done. apply Hrest in Hk as [Hk _]. by eapply I2.
  - intros q k. rewrite H2, I3, H1, lookup_delete_Some. split; [|tauto]. intros Hk. split; [|done]. naive_solver.
  - intros q Hq. destruct (H6 q Hq) as [Hq' Hne]. destruct (decide (q = r)) as [->|Hqr].
    + destruct (set_choose_L _ (Hne eq_refl)) as [k Hk]. exists k. by apply Hr.
    + destruct (I4 q Hq') as [k Hk]. exists k. apply Hrest. split; [done|]. naive_solver.
  - intros k. rewrite H1, H3. intros [v [_ Hv]%lookup_delete_Some]. apply I5. by eexists.
Qed.

Lemma store_done c j r : worker_inv c → _jobs c !! j = Some (r, true) →
  ∃ x c', finish_job j c = (Ok x, c') ∧ job_done c j x c'.
Proof.
  intros Hi Hj. destruct (wi_stored c Hi r j Hj) as [js Hjs]. pose proof (λ k, wi_store c Hi r js k Hjs) as Hin.
  unfold finish_job. unfold bind at 1. cbn [get]. rewrite Hj. cbn [of_option]. rewrite bind_ret_l, bind_modify.
  change (_store_jobs (set_jobs _ c)) with (_store_jobs c). rewrite Hjs. simpl default.
  rewrite (decide_True (P := j ∈ js)) by (by apply Hin). cbn [of_option]. rewrite bind_ret_l, bind_modify.
  set (c2 := set_store_jobs _ _). assert (Hno : no_stores c2 r ↔ js ∖ {[j]} = ∅).
  { unfold no_stores. change (_jobs c2) with (base.delete j (_jobs c)). split.
    - intros Hno. apply set_eq. intros k. split; [|set_solver]. intros [Hk Hkj]%elem_of_difference. exfalso. apply (Hno k).
      rewrite lookup_delete_ne by set_solver. by apply Hin.
    - intros Hemp k [Hkj Hk]%lookup_delete_Some. apply Hin in Hk. set_solver. }
  assert (Hother : ∀ q, q ≠ r → q ∈ _finished_reqs_waiting_for_store c → ¬ no_stores c2 q).
  { intros q Hq Hw Hnone. destruct (wi_waiting c Hi q Hw) as [k Hk]. apply (Hnone k).
    change (_jobs c2) with (base.delete j (_jobs c)). rewrite lookup_delete_ne; [done|]. naive_solver. }
  change (_finished_reqs_waiting_for_store (set_jobs _ c)) with (_finished_reqs_waiting_for_store c).
  destruct (decide (js ∖ {[j]} ≠ ∅ ∨ r ∉ _finished_reqs_waiting_for_store c)) as [Hstay|Hgo].
  - (* the request is not reported *)
    exists None, c2. split; [|split; simpl; try done].
    + destruct (decide (js ∖ {[j]} ≠ ∅)); [done|]. rewrite decide_False; [done|]. tauto.
    + apply (without_store c c2 j r js); try done.
      * intros q Hq. apply lookup_insert_ne. congruence.
      * left. apply lookup_insert_eq.
      * intros q Hq. split; [done|]. intros -> He. destruct Hstay as [?|Hn]; [done|]. by apply Hn.
    + intros q. split; [done|]. intros [Hw Hnone]. destruct (decide (q = r)) as [->|Hq]; [|by destruct (Hother q Hq Hw)].
      apply Hno in Hnone. tauto.
    + intros q. rewrite Hj. split; [done|]. by intros [= <-].
    + intros q. destruct (decide (q = r)) as [->|Hq]; [rewrite lookup_insert_eq, Hjs; naive_solver|].
      rewrite lookup_insert_ne by congruence. naive_solver.
    + naive_solver.
  - (* the last store of a finished request *)
    assert (Hemp : js ∖ {[j]} = ∅) by (destruct (decide (js ∖ {[j]} = ∅)); [done|tauto]).
    assert (Hw : r ∈ _finished_reqs_waiting_for_store c) by (destruct (decide (r ∈ _finished_reqs_waiting_for_store c)); [done|tauto]).
    rewrite decide_False by tauto. rewrite decide_True by done. rewrite !bind_modify. eexists (Some (r, true)), _. split; [reflexivity|].
    split; simpl; try done.
    + eapply (without_store c _ j r js); simpl; try done.
      * intros q Hq. rewrite lookup_delete_ne, lookup_insert_ne by congruence. done.
      * right. split; [apply lookup_delete_eq|done].
      * set_solver.
    + intros q. split; [intros [= <-]; split; [done|by apply Hno]|]. intros [Hqw Hnone].
      destruct (decide (q = r)) as [->|Hq]; [done|]. by destruct (Hother q Hq Hqw).
    + intros q. rewrite Hj. naive_solver.
    + intros q. destruct (decide (q = r)) as [->|Hq].
      * rewrite lookup_delete_eq. split; [by intros []|tauto].
      * rewrite lookup_delete_ne, lookup_insert_ne by congruence. naive_solver.
    + intros q. rewrite elem_of_difference, elem_of_singleton. naive_solver.
Qed.

Lemma done_step c j : worker_inv c → is_Some (_jobs c !! j) → ∃ x c', finish_job j c = (Ok x, c') ∧ job_done c j x c'.
Proof.
  intros Hi [[r []] Hj]; [by eapply store_done|]. destruct (load_done c j r Hi Hj) as (c' & ? & ?). by eexists _, c'.
Qed.

(** ** Finished jobs *)

Record jobs_done c (js : list Z) (xs : list (option (string * bool))) c' : Prop := {
  js_inv : worker_inv c';
  js_jobs j : _jobs c' !! j = if decide (j ∈ js) then None else _jobs c !! j;
  js_sent q : Some (q, true) ∈ xs ↔ q ∈ _finished_reqs_waiting_for_store c ∧ no_stores c' q;
  js_received q : Some (q, false) ∈ xs ↔ ∃ j, j ∈ js ∧ _jobs c !! j = Some (q, false);
  js_stores q : is_Some (_store_jobs c' !! q) ↔ is_Some (_store_jobs c !! q) ∧ Some (q, true) ∉ xs;
  js_waiting q : q ∈ _finished_reqs_waiting_for_store c' ↔ q ∈ _finished_reqs_waiting_for_store c ∧ Some (q, true) ∉ xs
}.

Lemma no_stores_waiting c q : worker_inv c → q ∈ _finished_reqs_waiting_for_store c → ¬ no_stores c q.
Proof. intros Hi Hq Hn. destruct (wi_waiting c Hi q Hq) as [j Hj]. by apply (Hn j). Qed.

Lemma jobs_run js : ∀ c, worker_inv c → NoDup js → (∀ j, j ∈ js → is_Some (_jobs c !! j)) →
  ∃ xs c', mapM (λ p : Z * bool, assert_ p.2 ;;; finish_job p.1) (map (λ j, (j, true)) js) c = (Ok xs, c') ∧ jobs_done c js xs c'.
Proof.
  induction js as [|j js IH]; intros c Hi Hnd Hjs.
  { exists [], c. split; [done|]. split; [done|done| | | |].
    - intros q. split; [by intros Hq%elem_of_nil|]. intros [Hq Hn]. by destruct (no_stores_waiting c q Hi Hq).
    - intros q. split; [by intros Hq%elem_of_nil|]. by intros (j & Hj%elem_of_nil & _).
    - intros q. pose proof (not_elem_of_nil (Some (q, true))). tauto.
    - intros q. pose proof (not_elem_of_nil (Some (q, true))). tauto. }
  apply NoDup_cons in Hnd as [Hj Hnd]. destruct (done_step c j Hi (Hjs j ltac:(by left))) as (x & c1 & Hrun1 & [J1 J2 J3 J4 J5 J6]).
  assert (Hother : ∀ k, k ∈ js → _jobs c1 !! k = _jobs c !! k).
  { intros k Hk. rewrite J2, lookup_delete_ne; [done|]. by intros ->. }
  destruct (IH c1 J1 Hnd) as (xs & c' & Hrun & [K1 K2 K3 K4 K5 K6]).
  { intros k Hk. rewrite Hother by done. apply Hjs. by right. }
  exists (x :: xs), c'. split.
  { cbn [map mapM]. simpl fst. simpl snd. unfold bind at 1. unfold bind at 1. simpl. rewrite Hrun1.
    by rewrite (bind_ok _ _ _ _ _ Hrun). }
  split; [done| | | | |].
  - intros k. rewrite K2, J2. destruct (decide (k = j)) as [->|Hk].
    + rewrite (decide_True (P := j ∈ j :: js)) by by left. rewrite lookup_delete_eq. by destruct (decide (j ∈ js)).
    + rewrite lookup_delete_ne by congruence. destruct (decide (k ∈ js)); [rewrite decide_True by by right|rewrite decide_False by set_solver]; done.
  - intros q. rewrite elem_of_cons, K3, J6. split.
    + intros [Hx|[[Hq _] Hn]]; [|done]. symmetry in Hx. apply J3 in Hx as [Hq Hn]. split; [done|]. intros k. rewrite K2.
      destruct (decide (k ∈ js)); [done|apply Hn].
    + intros [Hq Hn]. destruct (decide (x = Some (q, true))) as [->|Hx]; [by left|]. right. done.
  - intros q. rewrite elem_of_cons, K4. split.
    + intros [Hx|(k & Hk & Hjk)]; [exists j; split; [by left|by apply J4]|]. exists k. split; [by right|]. by rewrite <- Hother.
    + intros (k & [->|Hk]%elem_of_cons & Hjk); [left; symmetry; by apply J4|]. right. exists k. by rewrite Hother.
  - intros q. rewrite K5, J5, not_elem_of_cons. naive_solver.
  - intros q. rewrite K6, J6, not_elem_of_cons. naive_solver.
Qed.

(** ** Finished requests *)

Record ended c (rs sent : list string) c' : Prop := {
  en_inv : worker_inv c';
  en_jobs : _jobs c' = _jobs c;
  en_sent q : q ∈ sent ↔ q ∈ rs ∧ is_Some (_store_jobs c !! q) ∧ no_stores c q;
  en_stores q : is_Some (_store_jobs c' !! q) ↔ is_Some (_store_jobs c !! q) ∧ q ∉ sent;
  en_waiting q : q ∈ _finished_reqs_waiting_for_store c' ↔
    q ∈ _finished_reqs_waiting_for_store c ∨ (q ∈ rs ∧ is_Some (_store_jobs c !! q) ∧ ¬ no_stores c q)
}.

Lemma empty_no_stores c r js : worker_inv c → _store_jobs c !! r = Some js → js = ∅ ↔ no_stores c r.
Proof.
  intros Hi Hjs. unfold no_stores. split.
  - intros -> j Hj. by apply (wi_store c Hi r ∅ j Hjs) in Hj.
  - intros Hn. apply set_eq. intros j. split; [|set_solver]. intros Hj. apply (wi_store c Hi r js j Hjs) in Hj. by destruct (Hn j).
Qed.

Lemma end_step c r : worker_inv c →
  ∃ e c', finish_request r c = (Ok e, c') ∧ ended c [r] (if e : bool then [r] else []) c'.
Proof.
  intros Hi. unfold finish_request. unfold bind at 1. cbn [get]. destruct (_store_jobs c !! r) as [js|] eqn:Hjs.
  - pose proof (empty_no_stores c r js Hi Hjs) as Hemp. destruct (decide (js = ∅)) as [He|He].
    + eexists true, _. split; [reflexivity|]. apply Hemp in He. split; simpl; [|done| | |].
      * destruct Hi as [I1 I2 I3 I4 I5]. split; simpl; try done.
        -- intros q js' j [_ Hq]%lookup_delete_Some. by apply I1.
        -- intros q j Hq. rewrite lookup_delete_ne; [by eapply I2|]. intros ->. by apply (He j).
      * intros q. rewrite list_elem_of_singleton. split; [intros ->; split; [done|]; split; [by eexists|done]|tauto].
      * intros q. rewrite list_elem_of_singleton. destruct (decide (q = r)) as [->|Hq].
        -- rewrite lookup_delete_eq. split; [by intros []|tauto].
        -- rewrite lookup_delete_ne by congruence. tauto.
      * intros q. rewrite list_elem_of_singleton. split; [tauto|]. intros [Hq|(-> & _ & Hn)]; tauto.
    + eexists false, _. split; [reflexivity|]. assert (Hn : ¬ no_stores c r) by tauto. split; simpl; [|done| | |].
      * destruct Hi as [I1 I2 I3 I4 I5]. split; simpl; try done. intros q [Hq|Hq%elem_of_singleton]%elem_of_union; [by apply I4|].
        subst q. destruct (set_choose_L _ He) as [j Hj]. exists j. by apply (I1 r js j Hjs).
      * intros q. rewrite list_elem_of_singleton. split; [by intros Hq%elem_of_nil|]. intros (-> & _ & ?). done.
      * intros q. pose proof (not_elem_of_nil q). tauto.
      * intros q. rewrite elem_of_union, elem_of_singleton, list_elem_of_singleton. split; [|naive_solver].
        intros [Hq| ->]; [by left|]. right. split; [done|]. split; [by eexists|done].
  - exists false, c. split; [done|]. split; [done|done| | |]; intros q; rewrite ?list_elem_of_singleton; pose proof (not_elem_of_nil q).
    + split; [done|]. intros (-> & [? Hs] & _). congruence.
    + tauto.
    + split; [tauto|]. intros [?|(-> & [? Hs] & _)]; [done|congruence].
Qed.

Lemma no_stores_jobs c c' q : _jobs c' = _jobs c → no_stores c' q ↔ no_stores c q.
Proof. unfold no_stores. by intros ->. Qed.

Lemma ends_run rs : ∀ c, worker_inv c → NoDup rs →
  ∃ es c', mapM (λ r, let* e := finish_request r in ret (if e : bool then [r] else [])) rs c = (Ok es, c') ∧ ended c rs (concat es) c'.
Proof.
  induction rs as [|r rs IH]; intros c Hi Hnd.
  { exists [], c. split; [done|]. split; [done|done| | |]; intros q; simpl; pose proof (not_elem_of_nil q); tauto. }
  apply NoDup_cons in Hnd as [Hr Hnd]. destruct (end_step c r Hi) as (e & c1 & Hrun1 & [E1 E2 E3 E4 E5]).
  destruct (IH c1 E1 Hnd) as (es & c' & Hrun & [F1 F2 F3 F4 F5]). set (x := if e : bool then [r] else []) in *.
  exists (x :: es), c'. split.
  { cbn [mapM]. rewrite bind_assoc, (bind_ok _ _ _ _ _ Hrun1), bind_ret_l. by rewrite (bind_ok _ _ _ _ _ Hrun). }
  assert (Hx : ∀ q, q ∈ x → q = r) by (intros q; unfold x; destruct e; [by intros ->%list_elem_of_singleton|by intros ?%elem_of_nil]).
  split; [done|congruence| | |]; intros q; cbn [concat].
  - rewrite elem_of_app, F3, E3, E4, (no_stores_jobs c c1 q E2), list_elem_of_singleton, elem_of_cons. naive_solver.
  - rewrite F4, E4, not_elem_of_app. tauto.
  - rewrite F5, E5, E4, (no_stores_jobs c c1 q E2), list_elem_of_singleton, elem_of_cons. naive_solver.
Qed.

(** ** New jobs *)

(** Handlers take the transfers of their types. *)
Context (Haccept : ∀ h j sp w, ∃ w', handler_transfer_async hd h j sp w = (Some true, w')).

Definition registered c (sp : Sp) : Prop :=
  is_Some (transfer_type_to_handler (ocw_worker c) !! transfer_type sp).

(** [c'] has the tables of [c], and the same handlers. *)
Record same_tables c c' : Prop := {
  ta_jobs : _jobs c' = _jobs c;
  ta_load : _load_job c' = _load_job c;
  ta_store : _store_jobs c' = _store_jobs c;
  ta_waiting : _finished_reqs_waiting_for_store c' = _finished_reqs_waiting_for_store c;
  ta_counter : _job_counter c' = _job_counter c;
  ta_handlers : transfer_type_to_handler (ocw_worker c') = transfer_type_to_handler (ocw_worker c)
}.
#[local] Instance same_tables_preorder : PreOrder same_tables.
Proof. split; [done|]. intros a b c [] []. split; congruence. Qed.

Lemma same_tables_inv c c' : same_tables c c' → worker_inv c → worker_inv c'.
Proof. intros [H1 H2 H3 H4 H5 _] [I1 I2 I3 I4 I5]. split; rewrite ?H1, ?H2, ?H3, ?H4, ?H5; done. Qed.
Lemma same_tables_registered c c' sp : same_tables c c' → registered c' sp ↔ registered c sp.
Proof. unfold registered. by intros [_ _ _ _ _ ->]. Qed.

Lemma submit_run c j sp : registered c sp → ∃ c', submit hd transfer_type j sp c = (Ok tt, c') ∧ same_tables c c' ∧
  _unsubmitted_store_jobs c' = _unsubmitted_store_jobs c.
Proof.
  intros [h Hh]. destruct (Haccept h j sp (handler_state (ocw_worker c))) as [w' Hw].
  assert (Hrun : on_worker (transfer_async hd transfer_type j sp) c =
    (Ok true, set_worker (set_handler_state w' (ocw_worker c)) c)).
  { unfold on_worker, zoom, transfer_async. unfold bind at 1. cbn [get]. rewrite Hh. cbn [of_option]. rewrite bind_ret_l.
    unfold bind, on_handlers. by rewrite Hw. }
  unfold submit. rewrite (bind_ok _ _ _ _ _ Hrun). eexists. by split.
Qed.

(** Stores wait with registered types. *)
Definition pending_ok c : Prop := Forall (λ p, registered c p.2) (_unsubmitted_store_jobs c).

Lemma submit_stores_run c : pending_ok c → ∃ c', submit_stores hd transfer_type c = (Ok tt, c') ∧ same_tables c c' ∧
  _unsubmitted_store_jobs c' = [].
Proof.
  intros Hp. unfold submit_stores. unfold bind at 1. cbn [get].
  destruct (for_inv (λ l c', same_tables c c' ∧ Forall (λ p, registered c p.2) l)
    (λ p, submit hd transfer_type p.1 p.2) (_unsubmitted_store_jobs c) c) as (c' & Hrun & Hs & _); [done| |].
  - intros p l c1 [Hs [Hp1 Hl]%Forall_cons]. destruct (submit_run c1 p.1 p.2) as (c2 & Hrun & Hs2 & _).
    { by apply (same_tables_registered c c1). }
    exists c2. split; [done|]. split; [|done]. by etrans.
  - rewrite (bind_ok _ _ _ _ _ Hrun). eexists. split; [reflexivity|]. split; [|done]. by destruct Hs.
Qed.

Lemma fresh_job c : worker_inv c → _jobs c !! _job_counter c = None.
Proof.
  intros Hi. destruct (_jobs c !! _job_counter c) eqn:Hj; [|done]. pose proof (wi_fresh c Hi (_job_counter c) ltac:(by eexists)). lia.
Qed.

(** A job for the request [r] is entered in the tables. *)
Lemma add_load c r : worker_inv c → _load_job c !! r = None →
  worker_inv (set_load_job (<[r := _job_counter c]> (_load_job c))
    (set_jobs (<[_job_counter c := (r, false)]> (_jobs c)) (set_job_counter (_job_counter c + 1) c))).
Proof.
  intros Hi Hl. pose proof (fresh_job c Hi) as Hf. destruct Hi as [I1 I2 I3 I4 I5].
  assert (Hkeep : ∀ j q, <[_job_counter c := (r, false)]> (_jobs c) !! j = Some (q, true) ↔ _jobs c !! j = Some (q, true)).
  { intros j q. rewrite lookup_insert_Some. naive_solver. }
  split; simpl.
  - intros q js j Hq. rewrite Hkeep. by apply I1.
  - intros q j. rewrite Hkeep. apply I2.
  - intros q j. rewrite !lookup_insert_Some, I3. naive_solver.
  - intros q Hq. destruct (I4 q Hq) as [j Hj]. exists j. by rewrite Hkeep.
  - intros j [v [[<- _]|[_ Hv]]%lookup_insert_Some]; [lia|]. pose proof (I5 j ltac:(by eexists)). lia.
Qed.

Lemma add_store c r : worker_inv c →
  worker_inv (set_store_jobs (<[r := default ∅ (_store_jobs c !! r) ∪ {[_job_counter c]}]> (_store_jobs c))
    (set_jobs (<[_job_counter c := (r, true)]> (_jobs c)) (set_job_counter (_job_counter c + 1) c))).
Proof.
  intros Hi. pose proof (fresh_job c Hi) as Hf. destruct Hi as [I1 I2 I3 I4 I5]. split; simpl.
  - intros q js j. rewrite !lookup_insert_Some. intros [[<- <-]|[Hne Hq]].
    + rewrite elem_of_union, elem_of_singleton. assert (Hold : j ∈ default ∅ (_store_jobs c !! r) ↔ _jobs c !! j = Some (r, true)).
      { destruct (_store_jobs c !! r) as [js|] eqn:Hjs; simpl; [by apply I1|]. split; [set_solver|].
        intros Hj. apply I2 in Hj as [? Hj]. congruence. }
      rewrite Hold. naive_solver.
    + rewrite (I1 q js j Hq). naive_solver.
  - intros q j. rewrite !lookup_insert_Some. intros [[_ [= ->]]|[_ Hj]]; [by rewrite lookup_insert_eq|].
    destruct (decide (q = r)) as [->|Hq]; [by rewrite lookup_insert_eq|]. rewrite lookup_insert_ne by congruence. by eapply I2.
  - intros q j. rewrite I3, lookup_insert_Some. naive_solver.
  - intros q Hq. destruct (I4 q Hq) as [j Hj]. exists j. rewrite lookup_insert_Some. naive_solver.
  - intros j [v [[<- _]|[_ Hv]]%lookup_insert_Some]; [lia|]. pose proof (I5 j ltac:(by eexists)). lia.
Qed.

(** Between the calls: the tables are consistent, and stores that wait can be
    submitted. *)
Definition worker_ok (types : gmap (string * string) Z) c : Prop :=
  worker_inv c ∧ pending_ok c ∧ transfer_type_to_handler (ocw_worker c) = types.

Lemma same_tables_ok types c c' : worker_ok types c → same_tables c c' →
  Forall (λ p, registered c p.2) (_unsubmitted_store_jobs c') → worker_ok types c'.
Proof.
  intros (Hi & _ & Ht) Hs Hp. split; [by eapply same_tables_inv|]. split; [|by rewrite (ta_handlers _ _ Hs)].
  eapply Forall_impl; [exact Hp|]. intros p Hr. by apply (same_tables_registered c c').
Qed.

Lemma start_run types to_load c : worker_ok types c → NoDup (map fst to_load) →
  (∀ p, p ∈ to_load → _load_job c !! p.1 = None ∧ registered c p.2) →
  ∃ c', start_kv_transfers hd transfer_type to_load c = (Ok tt, c') ∧ worker_ok types c'.
Proof.
  intros Hok Hnd Hl. destruct (submit_stores_run c) as (c1 & Hrun & Hs & Hu); [apply Hok|].
  assert (Hok1 : worker_ok types c1) by (eapply same_tables_ok; [exact Hok|done|by rewrite Hu]).
  unfold start_kv_transfers. rewrite (bind_ok _ _ _ _ _ Hrun).
  assert (Hl1 : ∀ p, p ∈ to_load → _load_job c1 !! p.1 = None ∧ registered c1 p.2).
  { intros p Hp. destruct (Hl p Hp). rewrite (ta_load _ _ Hs). split; [done|]. by apply (same_tables_registered c c1). }
  clear Hrun Hs Hu Hl Hok. revert c1 Hok1 Hl1. induction to_load as [|[r sp] to_load IH]; intros c1 Hok Hl; [by exists c1|].
  apply NoDup_cons in Hnd as [Hr Hnd]. destruct (Hl (r, sp) ltac:(by left)) as [Hnone Hreg]. simpl in Hnone, Hreg.
  cbn [for_]. destruct Hok as (Hi & Hp & Ht). pose proof (add_load c1 r Hi Hnone) as Hi2. set (c2 := set_load_job _ _) in Hi2.
  destruct (submit_run c2 (_job_counter c1) sp Hreg) as (c3 & Hrun3 & Hs3 & Hu3).
  match goal with |- ∃ c', bind ?body _ c1 = _ ∧ _ => assert (Hbody : body c1 = (Ok tt, c3)) end.
  { unfold _generate_job_id. rewrite bind_assoc. unfold bind at 1. cbn [get]. rewrite bind_assoc, bind_modify, bind_ret_l, bind_modify.
    unfold bind at 1. cbn [get]. rewrite bind_assert_true by (by apply bool_decide_eq_true_2). by rewrite bind_modify. }
  rewrite (bind_ok _ _ _ _ _ Hbody). apply IH; [done| |].
  - apply (same_tables_ok types c2); [split; [done|split; [exact Hp|exact Ht]]|done|]. rewrite Hu3. exact Hp.
  - intros p Hpin. destruct (Hl p ltac:(by right)) as [Hn Hg]. rewrite (ta_load _ _ Hs3). simpl. split.
    + rewrite lookup_insert_ne; [done|]. intros Heq. apply Hr. simpl. rewrite Heq. by apply (list_elem_of_fmap_2 fst).
    + by apply (same_tables_registered c2 c3).
Qed.

Lemma prepare_run types to_store : ∀ c, worker_ok types c → (∀ p, p ∈ to_store → registered c p.2) →
  ∃ c', prepare_store_kv to_store c = (Ok tt, c') ∧ worker_ok types c'.
Proof.
  unfold prepare_store_kv. induction to_store as [|[r sp] to_store IH]; intros c Hok Hreg; [by exists c|].
  destruct Hok as (Hi & Hp & Ht). pose proof (add_store c r Hi) as Hi2. set (c2 := set_store_jobs _ _) in Hi2. cbn [for_].
  set (c3 := set_unsubmitted (_unsubmitted_store_jobs c2 ++ [(_job_counter c, sp)]) c2).
  match goal with |- ∃ c', bind ?body _ c = _ ∧ _ => assert (Hbody : body c = (Ok tt, c3)) end.
  { unfold _generate_job_id. rewrite bind_assoc. unfold bind at 1. cbn [get]. by rewrite bind_assoc, bind_modify, bind_ret_l, !bind_modify. }
  rewrite (bind_ok _ _ _ _ _ Hbody). apply IH.
  - split; [by destruct Hi2|]. split; [|exact Ht]. apply Forall_app. split; [exact Hp|]. constructor; [|done].
    apply (Hreg (r, sp)). by left.
  - intros p Hpin. apply (Hreg p). by right.
Qed.

Lemma preemptions_run types ids c : worker_ok types c →
  ∃ c', handle_preemptions hd transfer_type handler_order ids c = (Ok tt, c') ∧ worker_ok types c'.
Proof.
  intros Hok. destruct (submit_stores_run c) as (c1 & Hrun & Hs & Hu); [apply Hok|].
  assert (Hok1 : worker_ok types c1 ∧ _unsubmitted_store_jobs c1 = []) by (split; [eapply same_tables_ok; [exact Hok|done|by rewrite Hu]|done]).
  unfold handle_preemptions. rewrite (bind_ok _ _ _ _ _ Hrun).
  match goal with |- ∃ c', for_ _ ?f _ = _ ∧ _ =>
    destruct (for_inv (λ _ c', worker_ok types c' ∧ _unsubmitted_store_jobs c' = []) f ids c1 Hok1) as (c' & Hrun' & Hok' & _);
      [|by exists c'] end.
  intros r rest c2 [Hok2 Hu2]. unfold bind at 1. cbn [get].
  destruct (_store_jobs c2 !! r) as [js|]; [|by exists c2]. destruct (decide (js = ∅)); [by exists c2|].
  assert (∃ w', on_worker (worker_wait hd handler_order js) c2 = (Ok tt, set_worker (set_handler_state w' (ocw_worker c2)) c2)) as [w' Hw].
  { unfold on_worker, zoom, worker_wait. unfold bind at 1. cbn [get]. generalize (handler_order (handlers (ocw_worker c2))) as l.
    intros l. assert (Hwait : ∀ ow, ∃ w', for_ l (λ h, on_handlers (λ w, (tt, handler_wait hd h js w))) ow = (Ok tt, set_handler_state w' ow)).
    { induction l as [|h l IH]; intros ow; [exists (handler_state ow); by destruct ow|]. cbn [for_]. unfold bind at 1, on_handlers at 1.
      destruct (IH (set_handler_state (handler_wait hd h js (handler_state ow)) ow)) as [w' Hw]. exists w'. by rewrite Hw. }
    destruct (Hwait (ocw_worker c2)) as [w' Hw]. exists w'. by rewrite Hw. }
  eexists. split; [exact Hw|]. split; [|done]. eapply same_tables_ok; [exact Hok2|by split|]. simpl. by rewrite Hu2.
Qed.

(** ** Reports *)

(** The jobs [js] are those that the handlers report, as done. *)
Definition reports c (js : list Z) : Prop :=
  (∃ ow, worker_get_finished hd handler_order (ocw_worker c) = (Ok (map (λ j, (j, true)) js), ow) ∧
    transfer_type_to_handler ow = transfer_type_to_handler (ocw_worker c)) ∧
  NoDup js ∧ (∀ j, j ∈ js → is_Some (_jobs c !! j)).

(** What a call of [get_finished] reports. *)
Record reported c (js : list Z) (finished : list string) (sent received : gset string) c' : Prop := {
  rp_sent q : q ∈ sent ↔ is_Some (_store_jobs c !! q) ∧ (q ∈ _finished_reqs_waiting_for_store c ∨ q ∈ finished) ∧ no_stores c' q;
  rp_received q : q ∈ received ↔ ∃ j, j ∈ js ∧ _jobs c !! j = Some (q, false);
  rp_jobs j : _jobs c' !! j = if decide (j ∈ js) then None else _jobs c !! j;
  rp_stores q : is_Some (_store_jobs c' !! q) ↔ is_Some (_store_jobs c !! q) ∧ q ∉ sent;
  rp_waiting q : q ∈ _finished_reqs_waiting_for_store c' ↔
    is_Some (_store_jobs c !! q) ∧ (q ∈ _finished_reqs_waiting_for_store c ∨ q ∈ finished) ∧ q ∉ sent
}.

Lemma mapM_frame {X Y} (f : cworker → Prop) (body : X → M cworker Y) xs : (∀ x c y c', body x c = (Ok y, c') → f c → f c') →
  ∀ c ys c', mapM body xs c = (Ok ys, c') → f c → f c'.
Proof.
  intros Hb. induction xs as [|x xs IH]; intros c ys c' Hrun Hf; cbn [mapM] in Hrun; [by injection Hrun as _ <-|].
  apply bind_ok_inv in Hrun as (y & c1 & Hx & Hrun). apply bind_ok_inv in Hrun as (ys' & c2 & Hxs & Hret).
  injection Hret as _ <-. eapply IH; [exact Hxs|]. by eapply Hb.
Qed.

(** Finished jobs and requests do not touch the handlers and the waiting stores. *)
Lemma finish_job_frame j c x c' : finish_job j c = (Ok x, c') →
  ocw_worker c' = ocw_worker c ∧ _unsubmitted_store_jobs c' = _unsubmitted_store_jobs c.
Proof.
  unfold finish_job. unfold bind at 1. cbn [get]. destruct (_jobs c !! j) as [[r []]|]; cbn [of_option]; [| |done].
  - rewrite bind_ret_l, bind_modify. set (js := default ∅ _). destruct (decide (j ∈ js)); cbn [of_option]; [|done].
    rewrite bind_ret_l, bind_modify. repeat case_decide; intros Hrun; try (by injection Hrun as _ <-).
  - rewrite bind_ret_l, bind_modify. destruct (_load_job _ !! r); cbn [of_option]; [|done]. rewrite bind_ret_l.
    intros Hrun. apply bind_ok_inv in Hrun as ([] & c1 & Ha & Hrun). unfold assert_ in Ha. destruct (bool_decide _); [|done].
    injection Ha as <-. rewrite bind_modify in Hrun. by injection Hrun as _ <-.
Qed.
Lemma finish_request_frame r c e c' : finish_request r c = (Ok e, c') →
  ocw_worker c' = ocw_worker c ∧ _unsubmitted_store_jobs c' = _unsubmitted_store_jobs c.
Proof.
  unfold finish_request. unfold bind at 1. cbn [get]. destruct (_store_jobs c !! r) as [js|]; [|by intros [= _ <-]].
  case_decide; rewrite bind_modify; by intros [= _ <-].
Qed.

Lemma get_finished_run types c js finished : worker_ok types c → reports c js → NoDup finished →
  ∃ sent received c', ocw_get_finished hd handler_order finished c = (Ok (sent, received), c') ∧ worker_ok types c' ∧
    reported c js finished sent received c'.
Proof.
  intros (Hi & Hp & Ht) ((ow & How & Hty) & Hnd & Hjs) Hfin. unfold ocw_get_finished.
  assert (Hrun0 : on_worker (worker_get_finished hd handler_order) c = (Ok (map (λ j, (j, true)) js), set_worker ow c)).
  { unfold on_worker, zoom. by rewrite How. }
  rewrite (bind_ok _ _ _ _ _ Hrun0). set (c0 := set_worker ow c). assert (Hi0 : worker_inv c0) by by destruct Hi.
  destruct (jobs_run js c0 Hi0 Hnd Hjs) as (xs & c1 & Hrun1 & [J1 J2 J3 J4 J5 J6]). rewrite (bind_ok _ _ _ _ _ Hrun1).
  destruct (ends_run finished c1 J1 Hfin) as (es & c' & Hrun2 & [E1 E2 E3 E4 E5]). rewrite (bind_ok _ _ _ _ _ Hrun2).
  eexists _, _, c'. split; [reflexivity|]. assert (Hkeep : ocw_worker c' = ow ∧ _unsubmitted_store_jobs c' = _unsubmitted_store_jobs c).
  { set (keeps := λ c2 : cworker, ocw_worker c2 = ow ∧ _unsubmitted_store_jobs c2 = _unsubmitted_store_jobs c).
    assert (Hk1 : keeps c1).
    { eapply (mapM_frame keeps); [|exact Hrun1|done]. intros p c2 y c3 Hb Hk. unfold bind in Hb. destruct p as [j []]; [|done].
      apply finish_job_frame in Hb as [H1 H2]. unfold keeps. by rewrite H1, H2. }
    eapply (mapM_frame keeps); [|exact Hrun2|exact Hk1]. intros r c2 y c3 Hb Hk.
    apply bind_ok_inv in Hb as (e & c4 & Hb & Hret). injection Hret as _ <-. apply finish_request_frame in Hb as [H1 H2].
    unfold keeps. by rewrite H1, H2. }
  destruct Hkeep as [Hk1 Hk2]. split.
  { split; [done|]. split; [|by rewrite Hk1, Hty]. unfold pending_ok, registered in *. rewrite Hk1, Hk2, Hty. exact Hp. }
  assert (Hof : ∀ q k, q ∈ omap (λ x, match x with Some (r, s) => if bool_decide (s = k) then Some r else None | None => None end) xs ↔
      Some (q, k) ∈ xs).
  { intros q k. rewrite list_elem_of_omap. split.
    - intros ([[r s]|] & Hx & Heq); [|done]. case_bool_decide; [|done]. injection Heq as ->. by subst.
    - intros Hx. exists (Some (q, k)). split; [done|]. by rewrite bool_decide_eq_true_2. }
  assert (Hno : ∀ q, no_stores c' q ↔ no_stores c1 q) by (intros q; by apply no_stores_jobs).
  assert (Hsent : ∀ q, q ∈@{gset string} list_to_set (omap (λ x, match x with Some (r, s) => if bool_decide (s = true) then Some r else None | None => None end) xs ++ concat es) ↔
      is_Some (_store_jobs c !! q) ∧ (q ∈ _finished_reqs_waiting_for_store c ∨ q ∈ finished) ∧ no_stores c' q).
  { intros q. rewrite elem_of_list_to_set, elem_of_app, Hof, J3, E3, J5, Hno. rewrite J3.
    change (_store_jobs c0) with (_store_jobs c). change (_finished_reqs_waiting_for_store c0) with (_finished_reqs_waiting_for_store c).
    assert (Hw : q ∈ _finished_reqs_waiting_for_store c → is_Some (_store_jobs c !! q)).
    { intros Hq. destruct (wi_waiting c Hi q Hq) as [j Hj]. by eapply wi_stored. }
    destruct (decide (q ∈ _finished_reqs_waiting_for_store c)); tauto. }
  split; [exact Hsent| | | |].
  - intros q. rewrite elem_of_list_to_set, Hof. apply J4.
  - intros j. rewrite E2. apply J2.
  - intros q. rewrite Hsent, E4, E3, J5, J3, Hno. change (_store_jobs c0) with (_store_jobs c).
    change (_finished_reqs_waiting_for_store c0) with (_finished_reqs_waiting_for_store c). tauto.
  - intros q. rewrite Hsent, E5, J6, J5, J3, Hno. change (_store_jobs c0) with (_store_jobs c).
    change (_finished_reqs_waiting_for_store c0) with (_finished_reqs_waiting_for_store c).
    assert (Hw : q ∈ _finished_reqs_waiting_for_store c → is_Some (_store_jobs c !! q)).
    { intros Hq. destruct (wi_waiting c Hi q Hq) as [j Hj]. by eapply wi_stored. }
    tauto.
Qed.

(** ** Histories *)

Inductive worker_call :=
  | WStart (to_load : list (string * Sp))
  | WPrepare (to_store : list (string * Sp))
  | WPreempt (req_ids : list string)
  | WFinished (req_ids : list string).

Definition worker_step (wc : worker_call) : M cworker unit :=
  match wc with
  | WStart to_load => start_kv_transfers hd transfer_type to_load
  | WPrepare to_store => prepare_store_kv to_store
  | WPreempt ids => handle_preemptions hd transfer_type handler_order ids
  | WFinished ids => let* _ := ocw_get_finished hd handler_order ids in ret tt
  end.

(** Loads are for requests that load nothing else, transfers have a handler, and
    the handlers report each job of the worker at most once, as done. *)
Definition worker_allowed (wc : worker_call) c : Prop :=
  match wc with
  | WStart to_load => NoDup (map fst to_load) ∧ ∀ p, p ∈ to_load → _load_job c !! p.1 = None ∧ registered c p.2
  | WPrepare to_store => ∀ p, p ∈ to_store → registered c p.2
  | WPreempt _ => True
  | WFinished ids => NoDup ids ∧ ∃ js, reports c js
  end.
Fixpoint worker_history (wcs : list worker_call) c : Prop :=
  match wcs with
  | [] => True
  | wc :: wcs => worker_allowed wc c ∧ ∀ c', worker_step wc c = (Ok tt, c') → worker_history wcs c'
  end.

Lemma worker_step_ok types wc c : worker_ok types c → worker_allowed wc c →
  ∃ c', worker_step wc c = (Ok tt, c') ∧ worker_ok types c'.
Proof.
  destruct wc as [to_load|to_store|ids|ids]; intros Hok Hc.
  - destruct Hc. by apply start_run.
  - by apply prepare_run.
  - by apply preemptions_run.
  - destruct Hc as (Hnd & js & Hjs). destruct (get_finished_run types c js ids Hok Hjs Hnd) as (sent & received & c' & Hrun & Hok' & _).
    exists c'. split; [|done]. unfold worker_step. by rewrite (bind_ok _ _ _ _ _ Hrun).
Qed.

Lemma worker_steps_ok types wcs : ∀ c, worker_ok types c → worker_history wcs c →
  ∃ c', for_ wcs worker_step c = (Ok tt, c') ∧ worker_ok types c'.
Proof.
  induction wcs as [|wc wcs IH]; intros c Hok Hh; [by exists c|]. destruct Hh as [Hc Hh].
  destruct (worker_step_ok types wc c Hok Hc) as (c1 & Hrun & Hok1). cbn [for_]. rewrite (bind_ok _ _ _ _ _ Hrun).
  apply IH; [done|]. by apply Hh.
Qed.

Lemma register_run specs : ∀ c c', _register_handlers specs c = (Ok tt, c') →
  _jobs c' = _jobs c ∧ _load_job c' = _load_job c ∧ _store_jobs c' = _store_jobs c ∧
  _finished_reqs_waiting_for_store c' = _finished_reqs_waiting_for_store c ∧ _unsubmitted_store_jobs c' = _unsubmitted_store_jobs c.
Proof.
  unfold _register_handlers. induction specs as [|p specs IH]; intros c c' Hrun; [by injection Hrun as <-|].
  cbn [for_] in Hrun. apply bind_ok_inv in Hrun as ([] & c1 & Hp & Hrun). apply IH in Hrun as (-> & -> & -> & -> & ->).
  unfold on_worker, zoom in Hp. destruct (register_handler _ _ _ _) as [[[]|] ow]; [|done]. by injection Hp as <-.
Qed.

(** C18. The worker side of the offloading connector reports transfers exactly.
    Whatever loads, stores, preemptions and reports there have been, no call has
    raised, and the next [get_finished] returns as sent the requests that have
    been storing, that have finished generating (now or before), and that have
    no store left in flight, and as received the requests whose load is done; it
    forgets the jobs that are done and the stores of the requests it reports,
    and it remembers the finished requests that it still has to report.  The
    handlers have to accept the transfers and to report each one at most once,
    as done. *)
Theorem worker_reports_exact (specs : list (string * string * Z)) (w : W) c0 wcs
    (Hreg : _register_handlers specs (ConnectorWorker_init w) = (Ok tt, c0)) (Hh : worker_history wcs c0) :
  ∃ c, for_ wcs worker_step c0 = (Ok tt, c) ∧
    ∀ js finished, reports c js → NoDup finished →
    ∃ sent received c', ocw_get_finished hd handler_order finished c = (Ok (sent, received), c') ∧
      (∀ q, q ∈ sent ↔ is_Some (_store_jobs c !! q) ∧ (q ∈ _finished_reqs_waiting_for_store c ∨ q ∈ finished) ∧
         ∀ j, _jobs c' !! j ≠ Some (q, true)) ∧
      (∀ q, q ∈ received ↔ ∃ j, j ∈ js ∧ _jobs c !! j = Some (q, false)) ∧
      (∀ j, _jobs c' !! j = if decide (j ∈ js) then None else _jobs c !! j) ∧
      (∀ q, is_Some (_store_jobs c' !! q) ↔ is_Some (_store_jobs c !! q) ∧ q ∉ sent) ∧
      (∀ q, q ∈ _finished_reqs_waiting_for_store c' ↔
         is_Some (_store_jobs c !! q) ∧ (q ∈ _finished_reqs_waiting_for_store c ∨ q ∈ finished) ∧ q ∉ sent).
Proof.
  assert (Hok : worker_ok (transfer_type_to_handler (ocw_worker c0)) c0).
  { destruct (register_run specs _ _ Hreg) as (H1 & H2 & H3 & H4 & H5). split; [|split; [|done]].
    - split; rewrite ?H1, ?H2, ?H3, ?H4; try done; intros j [v Hv]; done.
    - unfold pending_ok. rewrite H5. constructor. }
  destruct (worker_steps_ok _ wcs c0 Hok Hh) as (c & Hrun & Hok'). exists c. split; [done|]. intros js finished Hjs Hnd.
  destruct (get_finished_run _ c js finished Hok' Hjs Hnd) as (sent & received & c' & Hrun' & _ & [R1 R2 R3 R4 R5]).
  by exists sent, received, c'.
Qed.
End connector_worker.

(** ** Example *)

(** A handler that finishes every transfer at once. *)
Definition instant : Handlers unit (list Z) := {|
  handler_transfer_async _ j _ w := (Some true, w ++ [j]);
  handler_get_finished _ w := (map (λ j, (j, true)) w, []);
  handler_wait _ _ w := w
|}.
Definition gpu_to_cpu (sp : unit) : string * string := ("GPU", "CPU")%string.
Lemma instant_accepts h j sp w : ∃ w', handler_transfer_async instant h j sp w = (Some true, w').
Proof. by eexists. Qed.

Definition instant_worker : OffloadingConnectorWorker unit (list Z) :=
  ltac:(let t := eval vm_compute in (_register_handlers (Sp := unit) [("GPU", "CPU", 0)] (ConnectorWorker_init ([] : list Z))) in
        lazymatch t with (_, ?c) => exact c end).
(** A store is prepared, and its request finishes before it is submitted. *)
Definition worker_calls : list (worker_call (Sp := unit)) := [WPrepare [("r", tt)]; WFinished ["r"]; WPreempt []].

Definition stored_worker : OffloadingConnectorWorker unit (list Z) :=
  ltac:(let t := eval vm_compute in (snd (for_ worker_calls (worker_step instant gpu_to_cpu elements) instant_worker)) in exact t).

Lemma worker_reports_exact_witness :
  ∃ c, for_ worker_calls (worker_step instant gpu_to_cpu elements) instant_worker = (Ok tt, c) ∧
    ∃ sent received c', ocw_get_finished instant elements [] c = (Ok (sent, received), c') ∧ "r" ∈ sent ∧ _jobs c' !! 0 = None.
Proof.
  destruct (worker_reports_exact instant gpu_to_cpu elements instant_accepts [("GPU", "CPU", 0)] [] instant_worker worker_calls)
    as (c & Hrun & Hc).
  - vm_compute. reflexivity.
  - split; [intros p _; by eexists|]. intros c1 Hrun. vm_compute in Hrun. injection Hrun as <-.
    split; [split; [repeat constructor; set_solver|]|].
    { exists []. split; [eexists; split; [vm_compute; reflexivity|done]|]. split; [constructor|]. by intros j Hj%elem_of_nil. }
    intros c2 Hrun. vm_compute in Hrun. injection Hrun as <-. split; [exact I|]. by intros.
  - assert (c = stored_worker) as ->.
    { assert (Hc' : for_ worker_calls (worker_step instant gpu_to_cpu elements) instant_worker = (Ok tt, stored_worker)) by (vm_compute; reflexivity).
      rewrite Hc' in Hrun. by injection Hrun as <-. }
    exists stored_worker. split; [exact Hrun|]. clear Hrun.
    destruct (Hc [0] []) as (sent & received & c' & Hget & Hsent & _ & Hjobs & _).
    + split; [eexists; split; [vm_compute; reflexivity|reflexivity]|]. split; [apply NoDup_singleton|].
      intros j ->%list_elem_of_singleton. eexists. vm_compute. reflexivity.
    + constructor.
    + exists sent, received, c'. split; [exact Hget|]. split; [|rewrite Hjobs; reflexivity]. apply Hsent.
      split; [eexists; vm_compute; reflexivity|]. split; [left; vm_compute; reflexivity|]. intros j. rewrite Hjobs.
      destruct (decide (j ∈ [0])) as [|Hj]; [done|]. intros Hin. apply Hj. apply list_elem_of_singleton.
      assert (Hone : _jobs stored_worker = {[0 := ("r"%string, true)]}) by (vm_compute; reflexivity).
      rewrite Hone in Hin. by apply lookup_singleton_Some in Hin as [<- _].
Defined.
