(* ===== verification/OffloadTransfer.v ===== *)
(** The transfers of offloaded blocks (vllm/v1/kv_offload/worker/cpu_gpu.py):
    the mapping of the blocks of a transfer, the handler of one direction with
    its streams and events, and the layout of the CPU tensors.

    CUDA is modelled by what its documentation says of streams and events: the
    work on a stream is done in order, after the events that the stream was
    told to wait for, and an event has happened when the work before it is
    done. *)

From stdpp Require Import functions.
From S2P Require Import Prelude.

(** ** Block ids

    Arrays of [np.int64] are lists; [int64] is the wrap-around of their
    arithmetic. *)
Definition int64 (z : Z) : Z := (z + 2 ^ 63) mod 2 ^ 64 - 2 ^ 63.

(** [output\[a:b\] = v] *)
Definition np_assign (a b : Z) (v : list Z) : M (list Z) unit :=
  let* output := get in
  let slice := py_slice output a b in
  let* v :=
    if decide (len v = len slice) then ret v
    else match v with [x] => ret (replicate (length slice) x) | _ => raise ValueError end in
  modify (λ output, py_upto output a ++ v ++ py_from output (Z.max a b)).

(** The turns of the loop from [i] on. *)
Fixpoint expand_loop (block_size_factor : Z) (first_range full_range : list Z) (i output_idx : Z) (block_ids : list Z)
    : M (list Z) unit :=
  match block_ids with
  | [] => ret tt
  | block_id :: block_ids =>
      let base_block_id := int64 (block_id * block_size_factor) in
      let indices := if decide (i = 0) then first_range else full_range in
      let output_end_idx := output_idx + len indices in
      np_assign output_idx output_end_idx (map (λ j, int64 (base_block_id + j)) indices) ;;;
      expand_loop block_size_factor first_range full_range (i + 1) output_end_idx block_ids
  end.
(** The state is the array [output]. *)
Definition expand_block_ids (block_ids : list Z) (block_size_factor skip_count : Z) : M (list Z) unit :=
  assert_ (bool_decide (skip_count < block_size_factor)) ;;;
  let first_range := py_range skip_count block_size_factor in
  let full_range := py_range 0 block_size_factor in
  expand_loop block_size_factor first_range full_range 0 0 block_ids.

Section transfers.
(** The contents of a page: a block of one layer, or its keys or its values.
    [np_empty n] are the contents of a new array of length [n]. *)
Context {P : Type} (np_empty : nat → list Z).

(** [src_to_dst] of [transfer_async], by its two columns. *)
Definition transfer_plan (src_factor dst_factor : Z) (src_blocks dst_blocks : list Z) : res (list (Z * Z)) :=
  let src_sub_block_count := len src_blocks * src_factor in
  let dst_sub_block_count := len dst_blocks * dst_factor in
  if decide (src_factor = 0) then Raise ZeroDivisionError else
  let src_sub_blocks_to_skip := (- len dst_blocks) mod src_factor in
  if decide (dst_sub_block_count = src_sub_block_count - src_sub_blocks_to_skip) then
    let array := np_empty (Z.to_nat dst_sub_block_count) in
    match expand_block_ids src_blocks src_factor src_sub_blocks_to_skip array with
    | (Raise e, _) => Raise e
    | (Ok _, src_column) =>
        match expand_block_ids dst_blocks dst_factor 0 array with
        | (Raise e, _) => Raise e
        | (Ok _, dst_column) => Ok (zip src_column dst_column)
        end
    end
  else Raise AssertionError.

(** [ops.swap_blocks] (csrc/cache_kernels.cu): the pages of [src] are copied to
    [dst], row by row of the mapping. *)
Definition swap_blocks (src dst : Z → P) (block_mapping : list (Z * Z)) : Z → P :=
  foldl (λ d p, <[p.2 := src p.1]> d) dst block_mapping.

(** The KV caches in one memory: the pages of each layer, [true] for the values
    where keys and values are apart. *)
Definition memory := nat → bool → Z → P.
(** The caches that a layer has. *)
Definition layer_caches (kv_dim : bool) : list bool := if kv_dim then [false; true] else [false].
(** The loop over the layers. *)
Definition swap_layers (kv_dim_before_num_blocks : list bool) (src dst : memory) (block_mapping : list (Z * Z)) : memory :=
  λ layer cache,
    match kv_dim_before_num_blocks !! layer with
    | Some kv_dim =>
        if decide (cache ∈ layer_caches kv_dim) then swap_blocks (src layer cache) (dst layer cache) block_mapping
        else dst layer cache
    | None => dst layer cache
    end.

(** ** The device *)

(** The copies of one transfer: they wait for the earlier work on the stream and
    for the event [w_after]; then [w_event] has happened. *)
Record Work := mkWork {
  w_stream : Z;
  w_event : Z;
  w_after : option Z;
  w_to_cpu : bool;
  w_mapping : list (Z * Z)
}.
(** [next_id] is unused as a stream and as an event. *)
Record Device := mkDevice {
  gpu_memory : memory;
  cpu_memory : memory;
  next_id : Z;
  work : list Work
}.

(** [event.query()] *)
Definition query (event : Z) (d : Device) : bool := bool_decide (Forall (λ w, w_event w ≠ event) (work d)).

(** The work has to wait for the earlier one. *)
Definition waits_for (w earlier : Work) : bool :=
  bool_decide (w_stream earlier = w_stream w) || bool_decide (w_after w = Some (w_event earlier)).

Definition set_work (v : list Work) (d : Device) : Device := mkDevice (gpu_memory d) (cpu_memory d) (next_id d) v.
Definition do_work (kv_dims : list bool) (w : Work) (d : Device) : Device :=
  if w_to_cpu w
  then mkDevice (gpu_memory d) (swap_layers kv_dims (gpu_memory d) (cpu_memory d) (w_mapping w)) (next_id d) (work d)
  else mkDevice (swap_layers kv_dims (cpu_memory d) (gpu_memory d) (w_mapping w)) (cpu_memory d) (next_id d) (work d).

(** ** The handler of one direction *)

Record SingleDirectionOffloadingHandler := mkHandler {
  src_block_size_factor : Z;
  dst_block_size_factor : Z;
  gpu_to_cpu : bool;
  _transfer_events : gmap Z Z;
  _transfers : list (Z * Z * Z);              (** job, stream, event *)
  _stream_pool : list Z;
  _event_pool : list Z
}.
Abbreviation handler := SingleDirectionOffloadingHandler.
Definition Handler_init (src_factor dst_factor : Z) (to_cpu : bool) : handler :=
  mkHandler src_factor dst_factor to_cpu ∅ [] [] [].

Definition handler_eta (h : handler) : handler :=
  mkHandler (src_block_size_factor h) (dst_block_size_factor h) (gpu_to_cpu h) (_transfer_events h) (_transfers h)
    (_stream_pool h) (_event_pool h).
Definition set_transfer_events (v : gmap Z Z) : handler → handler := ltac:(record_set handler_eta _transfer_events v).
Definition set_transfers (v : list (Z * Z * Z)) : handler → handler := ltac:(record_set handler_eta _transfers v).
Definition set_stream_pool (v : list Z) : handler → handler := ltac:(record_set handler_eta _stream_pool v).
Definition set_event_pool (v : list Z) : handler → handler := ltac:(record_set handler_eta _event_pool v).

(** A call works on the handler and the device. *)
Abbreviation H := (M (handler * Device)).
Definition on_handler (f : handler → handler) : H unit := modify (λ s, (f s.1, s.2)).
Definition on_device (f : Device → Device) : H unit := modify (λ s, (s.1, f s.2)).

(** [torch.cuda.Stream()], [torch.Event()] *)
Definition new_id : H Z :=
  let* s := get in
  on_device (λ d, mkDevice (gpu_memory d) (cpu_memory d) (next_id d + 1) (work d)) ;;;
  ret (next_id s.2).
Definition take_stream : H Z :=
  let* s := get in
  match last (_stream_pool s.1) with
  | Some stream => on_handler (set_stream_pool (removelast (_stream_pool s.1))) ;;; ret stream
  | None => new_id
  end.
Definition take_event : H Z :=
  let* s := get in
  match last (_event_pool s.1) with
  | Some event => on_handler (set_event_pool (removelast (_event_pool s.1))) ;;; ret event
  | None => new_id
  end.

Definition sd_transfer_async (job_id : Z) (src_blocks dst_blocks : list Z) : H bool :=
  let* s := get in
  let* src_to_dst := of_res (transfer_plan (src_block_size_factor s.1) (dst_block_size_factor s.1) src_blocks dst_blocks) in
  let* stream := take_stream in
  let* event := take_event in
  let* s := get in
  let last_event := (λ t, t.2) <$> last (_transfers s.1) in
  on_device (λ d, set_work (work d ++ [mkWork stream event last_event (gpu_to_cpu s.1) src_to_dst]) d) ;;;
  on_handler (λ h, set_transfer_events (<[job_id := event]> (_transfer_events h)) h) ;;;
  on_handler (λ h, set_transfers (_transfers h ++ [(job_id, stream, event)]) h) ;;;
  ret true.

(** The loop of [get_finished] over the transfers [ts]. *)
Fixpoint report_done (ts : list (Z * Z * Z)) : H (list (Z * bool)) :=
  match ts with
  | [] => ret []
  | (job_id, stream, event) :: ts =>
      let* s := get in
      if query event s.2 then
        on_handler (set_transfers ts) ;;;
        on_handler (λ h, set_stream_pool (_stream_pool h ++ [stream]) h) ;;;
        on_handler (λ h, set_event_pool (_event_pool h ++ [event]) h) ;;;
        let* s := get in
        let* _ := of_option KeyError (_transfer_events s.1 !! job_id) in
        on_handler (λ h, set_transfer_events (delete job_id (_transfer_events h)) h) ;;;
        let* rest := report_done ts in
        ret ((job_id, true) :: rest)
      else ret []
  end.
Definition sd_get_finished : H (list (Z * bool)) :=
  let* s := get in report_done (_transfers s.1).

(** [wait] blocks until every event has happened: it returns in these states. *)
Definition sd_wait_returns (job_ids : list Z) (s : handler * Device) : bool :=
  forallb (λ job_id, match _transfer_events s.1 !! job_id with Some event => query event s.2 | None => true end) job_ids.
End transfers.
