(* ===== verification/OffloadTransferSpec.v ===== *)
(** Transfers of offloaded blocks: the mapping of a transfer, what a store
    writes and a load reads back, and the order of transfers. *)

From stdpp Require Import functions.
From S2P Require Import Prelude.
From S2P Require Import OffloadTransfer.

(** ** Sub-blocks *)

(** The pages of a block, and of some blocks. *)
Definition sub_blocks (f b : Z) : list Z := map (λ j, b * f + j) (py_range 0 f).
Definition all_sub_blocks (f : Z) (bs : list Z) : list Z := concat (map (sub_blocks f) bs).
(** Their ids fit 64 bits. *)
Definition fits (f b : Z) : Prop := 0 ≤ b ∧ (b + 1) * f ≤ 2 ^ 63.

Lemma int64_small z : 0 ≤ z < 2 ^ 63 → int64 z = z.
Proof. intros Hz. unfold int64. rewrite Z.mod_small; lia. Qed.

Lemma py_range_length a b : len (py_range a b) = Z.max 0 (b - a).
Proof. unfold py_range, len. rewrite length_map, length_seq. lia. Qed.

Lemma sub_blocks_length f b : 0 ≤ f → len (sub_blocks f b) = f.
Proof. intros Hf. unfold sub_blocks, len. rewrite length_map. fold (len (py_range 0 f)). rewrite py_range_length. lia. Qed.

Lemma all_sub_blocks_length f bs : 0 ≤ f → len (all_sub_blocks f bs) = len bs * f.
Proof.
  intros Hf. induction bs as [|b bs IH]; [done|]. unfold all_sub_blocks in *. cbn [map concat].
  rewrite len_app, len_cons, IH, sub_blocks_length by done. lia.
Qed.

Lemma sub_blocks_in f b p : 0 < f → p ∈ sub_blocks f b ↔ p / f = b.
Proof.
  intros Hf. unfold sub_blocks. rewrite list_elem_of_fmap. split.
  - intros (j & -> & Hj%py_range_in). rewrite Z.add_comm, Z.div_add by lia. rewrite Z.div_small by lia. lia.
  - intros <-. exists (p mod f). pose proof (Z.mod_pos_bound p f Hf). pose proof (Z.div_mod p f). split; [lia|].
    apply py_range_in. lia.
Qed.

Lemma all_sub_blocks_in f bs p : 0 < f → p ∈ all_sub_blocks f bs ↔ p / f ∈ bs.
Proof.
  intros Hf. unfold all_sub_blocks. induction bs as [|b bs IH]; cbn [map concat].
  - by rewrite !elem_of_nil.
  - by rewrite elem_of_app, elem_of_cons, IH, sub_blocks_in by done.
Qed.

Lemma all_sub_blocks_NoDup f bs : 0 < f → NoDup bs → NoDup (all_sub_blocks f bs).
Proof.
  intros Hf. unfold all_sub_blocks. induction 1 as [|b bs Hb Hbs IH]; cbn [map concat]; [constructor|].
  apply NoDup_app. split; [|split; [|done]].
  - unfold sub_blocks. apply NoDup_fmap_2; [intros i j Hij; lia|]. apply py_range_nodup.
  - intros p Hp%sub_blocks_in Hq; [|done]. apply (all_sub_blocks_in f bs p Hf) in Hq. by subst b.
Qed.

Lemma all_sub_blocks_app f bs bs' : all_sub_blocks f (bs ++ bs') = all_sub_blocks f bs ++ all_sub_blocks f bs'.
Proof. unfold all_sub_blocks. by rewrite map_app, concat_app. Qed.

Lemma all_sub_blocks_one bs : all_sub_blocks 1 bs = bs.
Proof.
  unfold all_sub_blocks. induction bs as [|b bs IH]; [done|]. cbn [map concat]. rewrite IH. unfold sub_blocks. simpl. f_equal. lia.
Qed.

(** ** The mapping *)

Lemma np_assign_ok (pre mid post v : list Z) : length mid = length v →
  np_assign (len pre) (len pre + len v) v (pre ++ mid ++ post) = (Ok tt, pre ++ v ++ post).
Proof.
  intros Hv. unfold np_assign. unfold bind at 1. cbn [get].
  pose proof (len_nonneg pre) as Hpre. pose proof (len_nonneg v) as Hlv.
  assert (Hs : py_slice (pre ++ mid ++ post) (len pre) (len pre + len v) = mid).
  { rewrite py_slice_nonneg by lia. unfold len. replace (Z.to_nat (Z.of_nat (length pre) + Z.of_nat (length v))) with (length pre + length mid)%nat by lia.
    rewrite Nat2Z.id, app_assoc. rewrite take_app_length' by (rewrite length_app; lia). by rewrite drop_app_length. }
  rewrite Hs. rewrite decide_True by (unfold len; lia). rewrite bind_ret_l. unfold modify. do 2 f_equal; [|f_equal].
  - rewrite py_upto_nonneg by lia. unfold len. by rewrite Nat2Z.id, take_app_length.
  - rewrite py_from_nonneg by lia. rewrite app_assoc. apply drop_app_length'. rewrite length_app. unfold len in *. lia.
Qed.

(** What the loop writes from its turn [i] on. *)
Definition expansion (f skip i : Z) (bs : list Z) : list Z :=
  if decide (i = 0) then drop (Z.to_nat skip) (all_sub_blocks f bs) else all_sub_blocks f bs.

Lemma range_ids (f skip b : Z) : 0 ≤ skip < f → fits f b →
  map (λ j, int64 (int64 (b * f) + j)) (py_range skip f) = drop (Z.to_nat skip) (sub_blocks f b).
Proof.
  intros Hs [Hb0 Hb]. unfold sub_blocks. rewrite skipn_map, py_range_drop by lia. apply map_ext_in.
  intros j Hj. apply list_elem_of_In, py_range_in in Hj. rewrite (int64_small (b * f)) by nia. apply int64_small. nia.
Qed.

Lemma expand_loop_ok (f skip : Z) bs : ∀ i pre mid post, 0 ≤ skip < f → 0 ≤ i → Forall (fits f) bs →
  length mid = length (expansion f skip i bs) →
  expand_loop f (py_range skip f) (py_range 0 f) i (len pre) bs (pre ++ mid ++ post) =
    (Ok tt, pre ++ expansion f skip i bs ++ post).
Proof.
  induction bs as [|b bs IH]; intros i pre mid post Hs Hi Hbs Hmid.
  - assert (He : expansion f skip i [] = []) by (unfold expansion, all_sub_blocks; split_if as H0; [by destruct (Z.to_nat skip)|done]).
    rewrite He in *. by destruct mid.
  - apply Forall_cons in Hbs as [Hb Hbs]. cbn [expand_loop].
    set (v := map _ (if decide (i = 0) then _ else _)).
    assert (Hv : expansion f skip i (b :: bs) = v ++ all_sub_blocks f bs).
    { unfold v, expansion, all_sub_blocks. cbn [map concat]. split_if as H0; [|].
      - rewrite range_ids by done. rewrite drop_app_le; [done|]. pose proof (sub_blocks_length f b ltac:(lia)). unfold len in *. lia.
      - by rewrite (range_ids f 0) by (done || lia). }
    assert (Hlv : len v = len (if decide (i = 0) then py_range skip f else py_range 0 f)) by (unfold v, len; by rewrite length_map).
    rewrite Hv, length_app in Hmid. rewrite <- (take_drop (length v) mid), <- app_assoc. rewrite <- Hlv.
    rewrite (bind_ok _ _ _ _ _ (np_assign_ok pre (take (length v) mid) (drop (length v) mid ++ post) v ltac:(rewrite length_take; lia))).
    rewrite Hv, <- len_app, (app_assoc pre v), <- (app_assoc v), (app_assoc pre v).
    assert (He : expansion f skip (i + 1) bs = all_sub_blocks f bs) by (unfold expansion; by rewrite decide_False by lia).
    rewrite (IH (i + 1) (pre ++ v)) by (done || lia || (rewrite He, length_drop; lia)). by rewrite He.
Qed.

Lemma expand_ok (f skip : Z) bs output : 0 ≤ skip < f → Forall (fits f) bs →
  length output = length (drop (Z.to_nat skip) (all_sub_blocks f bs)) →
  expand_block_ids bs f skip output = (Ok tt, drop (Z.to_nat skip) (all_sub_blocks f bs)).
Proof.
  intros Hs Hbs Hlen. unfold expand_block_ids. rewrite bind_assert_true by (apply bool_decide_eq_true_2; lia).
  pose proof (expand_loop_ok f skip bs 0 [] output [] Hs ltac:(done) Hbs Hlen) as Hrun. rewrite !app_nil_r in Hrun. exact Hrun.
Qed.

Section transfers.
Context {P : Type} (np_empty : nat → list Z) (Hempty : ∀ n, length (np_empty n) = n).
Context (kv_dims : list bool).

Lemma transfer_plan_ok sf df src dst : 0 < sf → 0 < df → Forall (fits sf) src → Forall (fits df) dst →
  let skip := (- len dst) mod sf in
  len dst * df = len src * sf - skip →
  transfer_plan np_empty sf df src dst = Ok (zip (drop (Z.to_nat skip) (all_sub_blocks sf src)) (all_sub_blocks df dst)).
Proof.
  intros Hsf Hdf Hsrc Hdst skip Hsize. unfold transfer_plan. rewrite decide_False by lia. fold skip. rewrite decide_True by done.
  assert (Hskip : 0 ≤ skip < sf) by (apply Z.mod_pos_bound; lia). pose proof (len_nonneg dst) as Hd.
  pose proof (all_sub_blocks_length sf src ltac:(lia)) as Hls. pose proof (all_sub_blocks_length df dst ltac:(lia)) as Hld.
  rewrite expand_ok; [|done|done|]. 2: { rewrite Hempty, length_drop. unfold len in *. lia. }
  rewrite (expand_ok df 0); [by rewrite drop_0|lia|done|]. rewrite Hempty, length_drop. unfold len in *. lia.
Qed.

(** ** What the copies do *)

Lemma swap_blocks_ok (src : Z → P) (m : list (Z * Z)) : ∀ dst, NoDup (map snd m) →
  (∀ p, p ∈ m → swap_blocks src dst m p.2 = src p.1) ∧ (∀ d, d ∉ map snd m → swap_blocks src dst m d = dst d).
Proof.
  induction m as [|[a b] m IH]; intros dst Hnd; [split; [by intros p Hp%elem_of_nil|done]|].
  cbn [map] in Hnd. apply NoDup_cons in Hnd as [Hb Hnd]. destruct (IH (<[b := src a]> dst) Hnd) as [H1 H2].
  unfold swap_blocks in *. cbn [foldl fst snd]. split.
  - intros p [->|Hp]%elem_of_cons; [|by apply H1]. cbn [fst snd]. rewrite H2 by done. apply fn_lookup_insert.
  - intros d Hd. cbn [map snd] in Hd. rewrite not_elem_of_cons in Hd. destruct Hd as [Hdb Hd]. rewrite H2 by done. by apply fn_lookup_insert_ne.
Qed.

Lemma swap_layers_ok (src dst : memory (P := P)) m layer kv cache : kv_dims !! layer = Some kv → cache ∈ layer_caches kv →
  swap_layers kv_dims src dst m layer cache = swap_blocks (src layer cache) (dst layer cache) m.
Proof. intros Hkv Hc. unfold swap_layers. rewrite Hkv. by rewrite decide_True. Qed.

Lemma swap_layers_other (src dst : memory (P := P)) m layer cache page : NoDup (map snd m) → page ∉ map snd m →
  swap_layers kv_dims src dst m layer cache page = dst layer cache page.
Proof.
  intros Hnd Hp. unfold swap_layers. destruct (kv_dims !! layer); [|done]. destruct (decide _); [|done]. by apply swap_blocks_ok.
Qed.

Lemma snd_zip_eq (a b : list Z) : length a = length b → map snd (zip a b) = b.
Proof. intros H. apply snd_zip. lia. Qed.

Lemma zip_lookup_in (a b : list Z) i x y : a !! i = Some x → b !! i = Some y → (x, y) ∈ zip a b.
Proof. intros Ha Hb. apply list_elem_of_lookup. exists i. apply lookup_zip_with_Some. by exists x, y. Qed.

(** C19. What a store writes, a load reads back.  A store to CPU blocks of [f] GPU
    blocks each, all different, is accepted with the GPU blocks to fill them,
    and changes no other page of the CPU.  Later, a load of some consecutive
    ones of these CPU blocks is accepted with any different GPU blocks whose
    number leaves out less than one CPU block: their pages get, layer by layer,
    what the last of the stored GPU blocks for the loaded CPU blocks held when
    they were stored, in the same order, and no other page of the GPU changes.
    In between, the GPU pages and the other CPU pages may have changed. *)
Theorem stored_blocks_load_back (f : Z) (gpu_ids before loaded after : list Z) (gpu cpu : memory (P := P))
    (Hf : 0 < f) (Hnd : NoDup (before ++ loaded ++ after)) (Hcpu : Forall (fits f) (before ++ loaded ++ after))
    (Hgpu : Forall (fits 1) gpu_ids) (Hfill : len gpu_ids = len (before ++ loaded ++ after) * f) :
  ∃ store, transfer_plan np_empty 1 f gpu_ids (before ++ loaded ++ after) = Ok store ∧
    let cpu1 := swap_layers kv_dims gpu cpu store in
    (∀ layer cache page, (page / f ∉ before ++ loaded ++ after) → cpu1 layer cache page = cpu layer cache page) ∧
    ∀ (gpu_ids' : list Z) (gpu' cpu' : memory (P := P)),
      NoDup gpu_ids' → Forall (fits 1) gpu_ids' → len loaded * f - f < len gpu_ids' ≤ len loaded * f →
      (∀ layer cache page, page / f ∈ loaded → cpu' layer cache page = cpu1 layer cache page) →
      ∃ load, transfer_plan np_empty f 1 loaded gpu_ids' = Ok load ∧
        let gpu2 := swap_layers kv_dims cpu' gpu' load in
        let first := Z.to_nat (len (before ++ loaded) * f - len gpu_ids') in
        (∀ layer kv cache i s d, kv_dims !! layer = Some kv → cache ∈ layer_caches kv →
           gpu_ids !! (first + i)%nat = Some s → gpu_ids' !! i = Some d → gpu2 layer cache d = gpu layer cache s) ∧
        (∀ layer cache page, (page ∉ gpu_ids') → gpu2 layer cache page = gpu' layer cache page).
Proof.
  set (cs := before ++ loaded ++ after) in *. set (pages := all_sub_blocks f cs).
  assert (Hlp : length gpu_ids = length pages).
  { pose proof (all_sub_blocks_length f cs ltac:(lia)) as Hl. fold pages in Hl. unfold len in *. lia. }
  exists (zip gpu_ids pages). split.
  { rewrite transfer_plan_ok; [by rewrite Z.mod_1_r, drop_0, all_sub_blocks_one|lia|done|done|done|rewrite Z.mod_1_r; lia]. }
  assert (Hst : NoDup (map snd (zip gpu_ids pages))) by (rewrite snd_zip_eq by done; by apply all_sub_blocks_NoDup).
  cbv zeta. split.
  { intros layer cache page Hp. apply swap_layers_other; [done|]. rewrite snd_zip_eq by done. intros Hin. by apply Hp, (all_sub_blocks_in f cs). }
  intros gpu_ids' gpu' cpu' Hnd' Hfit' Hsize Hsame. set (skip := len loaded * f - len gpu_ids') in *.
  assert (Hskip : (- len gpu_ids') mod f = skip).
  { symmetry. apply (Z.mod_unique _ _ (- len loaded)); [left|]; unfold skip; lia. }
  assert (Hloaded : Forall (fits f) loaded) by (apply Forall_app in Hcpu as [_ Hcpu]; by apply Forall_app in Hcpu as [? _]).
  assert (Hll : length (drop (Z.to_nat skip) (all_sub_blocks f loaded)) = length gpu_ids').
  { rewrite length_drop. pose proof (all_sub_blocks_length f loaded ltac:(lia)) as Hl. unfold len in *. lia. }
  eexists. split; [apply transfer_plan_ok; [done|lia|done|done|rewrite Hskip; unfold skip; lia]|].
  rewrite Hskip, all_sub_blocks_one. set (load := zip _ gpu_ids'). assert (Hsnd : map snd load = gpu_ids') by (by apply snd_zip_eq).
  split; [|intros layer cache page Hp; apply swap_layers_other; by rewrite Hsnd].
  intros layer kv cache i s d Hkv Hcache Hs Hd. rewrite (swap_layers_ok _ _ _ _ kv) by done.
  assert (Hi : (i < length gpu_ids')%nat) by (by eapply lookup_lt_Some).
  destruct (lookup_lt_is_Some_2 (drop (Z.to_nat skip) (all_sub_blocks f loaded)) i ltac:(lia)) as [page Hpage].
  destruct (swap_blocks_ok (cpu' layer cache) load (gpu' layer cache) ltac:(by rewrite Hsnd)) as [Hcopy _].
  etransitivity; [apply (Hcopy (page, d)); by eapply zip_lookup_in|]. cbn [fst].
  rewrite lookup_drop in Hpage. pose proof (list_elem_of_lookup_2 _ _ _ Hpage) as Hin. apply all_sub_blocks_in in Hin; [|done].
  rewrite Hsame by done. rewrite (swap_layers_ok _ _ _ _ kv) by done.
  destruct (swap_blocks_ok (gpu layer cache) (zip gpu_ids pages) (cpu layer cache) Hst) as [Hcopy' _].
  apply (Hcopy' (s, page)). eapply zip_lookup_in; [exact Hs|]. unfold pages, cs. rewrite app_assoc, !all_sub_blocks_app, <- app_assoc.
  pose proof (all_sub_blocks_length f before ltac:(lia)) as Hlb.
  rewrite len_app, Z.mul_add_distr_r. rewrite lookup_app_r by (unfold skip, len in *; lia).
  rewrite lookup_app_l.
  - rewrite <- Hpage. f_equal. unfold skip, len in *. lia.
  - apply lookup_lt_Some in Hpage. unfold skip, len in *. lia.
Qed.
End transfers.

(** ** Example *)

Definition zeros (n : nat) : list Z := replicate n 0.
Definition pages_of (k : Z) : memory (P := Z) := λ _ _ page, k + page.

(** A store of four GPU blocks to the CPU blocks 1 and 0, and a load of the last
    three of its blocks. *)
Lemma stored_blocks_load_back_witness :
  ∃ store load, transfer_plan zeros 1 2 [7; 3; 5; 9] [1; 0] = Ok store ∧
    transfer_plan zeros 2 1 [1; 0] [2; 4; 6] = Ok load ∧
    swap_layers [true] (swap_layers [true] (pages_of 100) (pages_of 0) store) (pages_of 200) load 0%nat true 4 = 105.
Proof.
  assert (Hz : ∀ n, length (zeros n) = n) by (intros n; apply length_replicate).
  assert (Hfit : ∀ f b, 0 ≤ b < 10 → 0 < f < 10 → fits f b) by (intros f b; unfold fits; nia).
  destruct (stored_blocks_load_back zeros Hz [true] 2 [7; 3; 5; 9] [] [1; 0] [] (pages_of 100) (pages_of 0)) as (store & Hs & _ & Hload).
  - lia.
  - repeat (apply NoDup_cons; split; [by repeat (apply not_elem_of_cons; split; [done|]); apply not_elem_of_nil|]). constructor.
  - repeat (apply Forall_cons; split; [apply Hfit; lia|]). constructor.
  - repeat (apply Forall_cons; split; [apply Hfit; lia|]). constructor.
  - reflexivity.
  - destruct (Hload [2; 4; 6] (pages_of 200) (swap_layers [true] (pages_of 100) (pages_of 0) store)) as (load & Hl & Hpages & _).
    + repeat (apply NoDup_cons; split; [by repeat (apply not_elem_of_cons; split; [done|]); apply not_elem_of_nil|]). constructor.
    + repeat (apply Forall_cons; split; [apply Hfit; lia|]). constructor.
    + vm_compute. split; congruence.
    + done.
    + exists store, load. split; [exact Hs|]. split; [exact Hl|]. apply (Hpages 0%nat true true 1%nat 5 4); try reflexivity. right. by left.
Defined.
