(* ===== verification/OffloadStreams.v ===== *)
(** The order of transfers: the two handlers of cpu_gpu.py on one device, as
    a transition system, and what its histories have in common. *)

From stdpp Require Import functions.
From S2P Require Import Prelude.
From S2P Require Import OffloadTransfer.
From S2P Require Import OffloadTransferSpec.

Section streams.
Context {P : Type} (np_empty : nat → list Z) (kv_dims : list bool).
Abbreviation handler := SingleDirectionOffloadingHandler.
Abbreviation device := (Device (P := P)).
Abbreviation mapping := (list (Z * Z)).

(** The handlers: [true] is the one to the CPU. *)
Record System := mkSystem { handler_of : bool → handler; sys_device : device }.
Implicit Types (s : System) (dir : bool) (h : handler) (d : device).

Inductive event :=
  | Submitted (dir : bool) (job : Z) (m : mapping)
  | Completed (dir : bool) (m : mapping)
  | Reported (dir : bool) (results : list (Z * bool))
  | Waited (dir : bool) (jobs : list Z).

(** Calls of the handlers, and the device that does some work when the stream
    allows it.  Jobs in flight have different ids; [wait] blocks. *)
Inductive step : System → event → System → Prop :=
  | step_submit s dir job src dst m h d :
      _transfer_events (handler_of s dir) !! job = None →
      transfer_plan np_empty (src_block_size_factor (handler_of s dir)) (dst_block_size_factor (handler_of s dir)) src dst = Ok m →
      sd_transfer_async np_empty job src dst (handler_of s dir, sys_device s) = (Ok true, (h, d)) →
      step s (Submitted dir job m) (mkSystem (<[dir := h]> (handler_of s)) d)
  | step_work s before w after :
      work (sys_device s) = before ++ w :: after →
      Forall (λ e, waits_for w e = false) before →
      step s (Completed (w_to_cpu w) (w_mapping w))
        (mkSystem (handler_of s) (set_work (before ++ after) (do_work kv_dims w (sys_device s))))
  | step_report s dir results h d :
      sd_get_finished (handler_of s dir, sys_device s) = (Ok results, (h, d)) →
      step s (Reported dir results) (mkSystem (<[dir := h]> (handler_of s)) d)
  | step_wait s dir jobs :
      sd_wait_returns jobs (handler_of s dir, sys_device s) = true → step s (Waited dir jobs) s.

Inductive steps (s0 : System) : list event → System → Prop :=
  | steps_nil : steps s0 [] s0
  | steps_snoc evs s e s' : steps s0 evs s → step s e s' → steps s0 (evs ++ [e]) s'.

Definition System_init (cpu_factor : Z) (gpu cpu : memory) : System :=
  mkSystem (λ dir, if dir then Handler_init 1 cpu_factor true else Handler_init cpu_factor 1 false) (mkDevice gpu cpu 0 []).

(** What happened in one direction. *)
Definition submitted dir (evs : list event) : list (Z * mapping) :=
  omap (λ e, match e with Submitted dir' j m => if decide (dir' = dir) then Some (j, m) else None | _ => None end) evs.
Definition completed dir (evs : list event) : list mapping :=
  omap (λ e, match e with Completed dir' m => if decide (dir' = dir) then Some m else None | _ => None end) evs.
Definition reported dir (evs : list event) : list (Z * bool) :=
  concat (omap (λ e, match e with Reported dir' r => if decide (dir' = dir) then Some r else None | _ => None end) evs).

(** ** One direction

    [sub] are the submitted transfers, of which [n] are reported and [m] are
    done; [ws] is the work that is left. *)
Record lane (sub : list (Z * mapping)) (n m : nat) h (ws : list Work) : Prop := {
  ln_order : (n ≤ m ≤ length sub)%nat;
  ln_jobs : map (λ t, t.1.1) (_transfers h) = map fst (drop n sub);
  ln_work : map w_mapping ws = map snd (drop m sub);
  ln_events : map w_event ws = map snd (drop (m - n) (_transfers h));
  ln_chain i a b : ws !! i = Some a → ws !! S i = Some b → w_after b = Some (w_event a);
  ln_unique : NoDup (map (λ t, t.1.1) (_transfers h));
  ln_table j e : _transfer_events h !! j = Some e ↔ ∃ st, (j, st, e) ∈ _transfers h
}.

(** The events that a handler uses. *)
Definition events_of h : list Z := map snd (_transfers h) ++ _event_pool h.
Definition lane_work dir d : list Work := filter (λ w, w_to_cpu w = dir) (work d).

(** The copies that were made, in their order. *)
Definition copied (mems : memory (P := P) * memory) (e : event) : memory * memory :=
  match e with
  | Completed dir m => if dir then (mems.1, swap_layers kv_dims mems.1 mems.2 m) else (swap_layers kv_dims mems.2 mems.1 m, mems.2)
  | _ => mems
  end.

Record streams_inv (gpu cpu : memory) (evs : list event) s : Prop := {
  si_lane dir : ∃ n m, lane (submitted dir evs) n m (handler_of s dir) (lane_work dir (sys_device s)) ∧
    reported dir evs = map (λ p, (p.1, true)) (take n (submitted dir evs)) ∧
    completed dir evs = map snd (take m (submitted dir evs));
  si_direction dir : gpu_to_cpu (handler_of s dir) = dir;
  si_distinct dir : NoDup (events_of (handler_of s dir) ++ events_of (handler_of s (negb dir)));
  si_fresh dir : Forall (λ e, e < next_id (sys_device s)) (events_of (handler_of s dir));
  si_memory : (gpu_memory (sys_device s), cpu_memory (sys_device s)) = foldl copied (gpu, cpu) evs
}.

(** ** The calls *)

Lemma take_stream_run h d : ∃ st sp n,
  take_stream (h, d) = (Ok st, (set_stream_pool sp h, mkDevice (gpu_memory d) (cpu_memory d) n (work d))) ∧ next_id d ≤ n.
Proof.
  unfold take_stream. unfold bind at 1. cbn [get fst]. destruct (last (_stream_pool h)) as [st|].
  - eexists st, _, (next_id d). split; [|done]. by destruct d.
  - eexists (next_id d), (_stream_pool h), (next_id d + 1). split; [|lia]. by destruct h.
Qed.

Lemma take_event_run h d : ∃ e ep n,
  take_event (h, d) = (Ok e, (set_event_pool ep h, mkDevice (gpu_memory d) (cpu_memory d) n (work d))) ∧ next_id d ≤ n ∧
  (_event_pool h = ep ++ [e] ∨ (ep = _event_pool h ∧ next_id d ≤ e < n)).
Proof.
  unfold take_event. unfold bind at 1. cbn [get fst]. destruct (last (_event_pool h)) as [e|] eqn:He.
  - eexists e, _, (next_id d). split; [by destruct d|]. split; [done|]. left.
    apply last_Some in He as [l ->]. by rewrite removelast_last.
  - eexists (next_id d), (_event_pool h), (next_id d + 1). split; [by destruct h|]. split; [lia|]. right. split; [done|lia].
Qed.

(** The handler and the device after a transfer has been submitted. *)
Definition with_transfer (job st e : Z) (sp ep : list Z) h : handler :=
  mkHandler (src_block_size_factor h) (dst_block_size_factor h) (gpu_to_cpu h) (<[job := e]> (_transfer_events h))
    (_transfers h ++ [(job, st, e)]) sp ep.
Definition new_work (st e : Z) (m : mapping) h : Work :=
  mkWork st e ((λ t, t.2) <$> last (_transfers h)) (gpu_to_cpu h) m.

Lemma transfer_run h d job src dst m :
  transfer_plan np_empty (src_block_size_factor h) (dst_block_size_factor h) src dst = Ok m →
  ∃ st e sp ep n, sd_transfer_async np_empty job src dst (h, d) =
    (Ok true, (with_transfer job st e sp ep h, mkDevice (gpu_memory d) (cpu_memory d) n (work d ++ [new_work st e m h]))) ∧
    next_id d ≤ n ∧ (_event_pool h = ep ++ [e] ∨ (ep = _event_pool h ∧ next_id d ≤ e < n)).
Proof.
  intros Hm. unfold sd_transfer_async. unfold bind at 1. cbn [get fst]. rewrite Hm, bind_of_res.
  destruct (take_stream_run h d) as (st & sp & n1 & Hs & Hn1). rewrite (bind_ok _ _ _ _ _ Hs).
  destruct (take_event_run (set_stream_pool sp h) (mkDevice (gpu_memory d) (cpu_memory d) n1 (work d))) as (e & ep & n2 & He & Hn2 & Hep).
  rewrite (bind_ok _ _ _ _ _ He). exists st, e, sp, ep, n2. split; [done|]. simpl in *. split; [lia|].
  destruct Hep as [?|[? ?]]; [by left|]. right. split; [done|lia].
Qed.

Lemma lane_submit sub n m h ws job st e sp ep pl : lane sub n m h ws → _transfer_events h !! job = None →
  lane (sub ++ [(job, pl)]) n m (with_transfer job st e sp ep h) (ws ++ [new_work st e pl h]).
Proof.
  intros [H1 H2 H3 H4 H5 H6 H7] Hjob.
  assert (Hlt : length (_transfers h) = (length sub - n)%nat) by (apply (f_equal length) in H2; by rewrite !length_map, length_drop in H2).
  assert (Hfresh : job ∉ map (λ t, t.1.1) (_transfers h)).
  { intros ([[j st'] e'] & -> & Hin)%list_elem_of_fmap. simpl in Hjob. rewrite (proj2 (H7 j e')) in Hjob; [done|by exists st']. }
  split; cbn [_transfers _transfer_events with_transfer].
  - rewrite length_app. lia.
  - rewrite drop_app_le by lia. by rewrite !map_app, H2.
  - rewrite drop_app_le by lia. by rewrite !map_app, H3.
  - rewrite drop_app_le by lia. by rewrite !map_app, H4.
  - intros i a b Ha Hb. destruct (decide (S i < length ws)%nat) as [Hi|Hi].
    + rewrite lookup_app_l in Ha by lia. rewrite lookup_app_l in Hb by lia. by eapply H5.
    + pose proof (lookup_lt_Some _ _ _ Hb) as Hlen. rewrite length_app in Hlen. simpl in Hlen.
      rewrite lookup_app_l in Ha by lia. rewrite lookup_app_r in Hb by lia. replace (S i - length ws)%nat with 0%nat in Hb by lia.
      injection Hb as <-. cbn [w_after new_work]. apply (f_equal (λ l, l !! i)) in H4. rewrite !list_lookup_fmap, Ha, lookup_drop in H4.
      simpl in H4. rewrite last_lookup. assert (Hi' : (m - n + i = pred (length (_transfers h)))%nat).
      { apply (f_equal length) in H3. rewrite !length_map, length_drop in H3. lia. }
      rewrite <- Hi'. by destruct (_transfers h !! _) as [[? ?]|]; [injection H4 as ->|].
  - rewrite map_app. apply NoDup_app. split; [done|]. split; [|apply NoDup_singleton].
    intros j Hj ->%list_elem_of_singleton. done.
  - intros j ev. destruct (decide (j = job)) as [->|Hne].
    + rewrite lookup_insert_eq. split.
      * intros [= <-]. exists st. apply elem_of_app. right. by left.
      * intros [st' [Hin|Hin]%elem_of_app]; [|by apply list_elem_of_singleton in Hin as [= _ ->]].
        destruct Hfresh. apply list_elem_of_fmap. by exists (job, st', ev).
    + rewrite lookup_insert_ne by congruence. rewrite H7. split; intros [st' Hin]; exists st'.
      * apply elem_of_app. by left.
      * apply elem_of_app in Hin as [Hin|Hin]; [done|]. by apply list_elem_of_singleton in Hin as [= -> _ _].
Qed.

(** The oldest work of the direction is done. *)
Lemma lane_complete sub n m h w ws : lane sub n m h (w :: ws) →
  lane sub n (S m) h ws ∧ ∃ p, sub !! m = Some p ∧ p.2 = w_mapping w.
Proof.
  intros [H1 H2 H3 H4 H5 H6 H7]. cbn [map] in H3, H4.
  destruct (lookup_lt_is_Some_2 sub m) as [p Hp].
  { apply (f_equal length) in H3. simpl in H3. rewrite !length_map, length_drop in H3. lia. }
  rewrite (drop_S _ _ _ Hp) in H3. injection H3 as Hw Hws. split; [|by exists p]. split; try done.
  - apply lookup_lt_Some in Hp. lia.
  - replace (S m - n)%nat with (m - n + 1)%nat by lia. rewrite <- drop_drop.
    destruct (drop (m - n) (_transfers h)) as [|t ts]; [done|]. cbn [map] in H4. by injection H4.
  - intros i a b Ha Hb. by apply (H5 (S i)).
Qed.

Lemma oldest_first sub n m h ws before w after :
  lane sub n m h ws → ws = filter (λ x, w_to_cpu x = w_to_cpu w) before ++ w :: after →
  Forall (λ e, waits_for w e = false) before → filter (λ x, w_to_cpu x = w_to_cpu w) before = [].
Proof.
  intros Hl Hws Hno. destruct (filter _ before) as [|x l] eqn:Hf using rev_ind; [done|]. exfalso. clear IHl.
  assert (Hx : x ∈ before) by (eapply list_elem_of_filter; rewrite Hf; apply elem_of_app; right; by left).
  rewrite Forall_forall in Hno. specialize (Hno x Hx). rewrite <- app_assoc in Hws. simpl in Hws.
  unfold waits_for in Hno. rewrite (ln_chain _ _ _ _ _ Hl (length l) x w) in Hno.
  - apply orb_false_iff in Hno as [_ Hno]. by apply bool_decide_eq_false_1 in Hno.
  - rewrite Hws. by apply list_lookup_middle.
  - rewrite Hws. rewrite lookup_app_r by lia. by replace (S (length l) - length l)%nat with 1%nat by lia.
Qed.

(** Which events have happened: those of the transfers that are done. *)
Definition happened (n m : nat) h d : Prop :=
  ∀ i t, _transfers h !! i = Some t → query t.2 d = bool_decide (i < m - n)%nat.

Lemma query_lane sub n m h d other dir : lane sub n m h (lane_work dir d) → NoDup (events_of h ++ other) →
  (∀ w, w ∈ work d → w_to_cpu w ≠ dir → w_event w ∈ other) → happened n m h d.
Proof.
  intros Hl Hnd Hother i t Ht. unfold query. apply bool_decide_ext. rewrite Forall_forall.
  assert (Hts : NoDup (map snd (_transfers h))).
  { unfold events_of in Hnd. by repeat apply NoDup_app in Hnd as [Hnd _]. }
  assert (Hin : ∀ e, e ∈ map snd (drop (m - n) (_transfers h)) ↔ ∃ w, w ∈ work d ∧ w_to_cpu w = dir ∧ w_event w = e).
  { intros e. rewrite <- (ln_events _ _ _ _ _ Hl), list_elem_of_fmap. unfold lane_work. split.
    - intros (w & -> & [Hd Hw]%list_elem_of_filter). by exists w.
    - intros (w & Hw & Hd & <-). exists w. split; [done|]. by apply list_elem_of_filter. }
  split.
  - intros Hno. apply not_ge. intros Hi. destruct (proj1 (Hin t.2)) as (w & Hw & _ & He); [|by apply (Hno w)].
    apply list_elem_of_fmap. exists t. split; [done|]. apply list_elem_of_lookup. exists (i - (m - n))%nat.
    rewrite lookup_drop. rewrite <- Ht. f_equal. lia.
  - intros Hi w Hw He. destruct (decide (w_to_cpu w = dir)) as [Hd|Hd].
    + assert (Hdrop : t.2 ∈ map snd (drop (m - n) (_transfers h))) by (apply Hin; by exists w).
      apply list_elem_of_fmap in Hdrop as (t' & Het & (k & Hk)%list_elem_of_lookup). rewrite lookup_drop in Hk.
      assert (i = (m - n + k)%nat); [|lia]. apply (NoDup_lookup (map snd (_transfers h)) _ _ t.2 Hts).
      * by rewrite list_lookup_fmap, Ht.
      * rewrite list_lookup_fmap, Hk. simpl. by f_equal.
    + apply NoDup_app in Hnd as (_ & Hnd & _). apply (Hnd t.2); [|rewrite <- He; by apply Hother].
      apply elem_of_app. left. apply list_elem_of_fmap. exists t. split; [done|]. by eapply list_elem_of_lookup_2.
Qed.

(** *** Reports *)

Lemma lane_pop sub n m h ws j st e ts sp ep : lane sub n m h ws → (n < m)%nat → _transfers h = (j, st, e) :: ts →
  lane sub (S n) m (set_transfer_events (delete j (_transfer_events h)) (set_event_pool ep (set_stream_pool sp (set_transfers ts h)))) ws ∧
  fst <$> sub !! n = Some j.
Proof.
  intros [H1 H2 H3 H4 H5 H6 H7] Hlt Hts. rewrite Hts in *. cbn [map fst] in H2, H6.
  destruct (lookup_lt_is_Some_2 sub n ltac:(lia)) as [p Hp]. rewrite (drop_S _ _ _ Hp) in H2. injection H2 as Hj H2.
  apply NoDup_cons in H6 as [Hnew H6]. split; [|rewrite Hp; simpl; by f_equal]. split; cbn; try done; [lia| |].
  - rewrite H4. replace (m - n)%nat with (S (m - S n)) by lia. done.
  - intros k ev. rewrite lookup_delete_Some, H7. split.
    + intros [Hne [st' Hin]]. exists st'. apply elem_of_cons in Hin as [[= -> _ _]|Hin]; [done|done].
    + intros [st' Hin]. split; [|exists st'; by right]. intros <-. apply Hnew. apply list_elem_of_fmap. by exists (j, st', ev).
Qed.

Lemma report_run sub m d ts : ∀ n h ws, lane sub n m h ws → _transfers h = ts → happened n m h d →
  ∃ h', report_done ts (h, d) = (Ok (map (λ p, (p.1, true)) (drop n (take m sub))), (h', d)) ∧ lane sub m m h' ws ∧
    events_of h' ≡ₚ events_of h ∧ gpu_to_cpu h' = gpu_to_cpu h.
Proof.
  induction ts as [|[[j st] e] ts IH]; intros n h ws Hl Hts Hq.
  - assert (n = m) as <-.
    { pose proof (ln_order _ _ _ _ _ Hl). pose proof (f_equal length (ln_jobs _ _ _ _ _ Hl)) as Hlen.
      rewrite Hts, !length_map, length_drop in Hlen. simpl in Hlen. lia. }
    exists h. split; [|done]. rewrite drop_ge; [done|]. rewrite length_take. lia.
  - cbn [report_done]. unfold bind at 1. cbn [get fst snd]. pose proof (Hq 0%nat (j, st, e)) as Hq0. rewrite Hts in Hq0.
    specialize (Hq0 eq_refl). simpl in Hq0. rewrite Hq0. pose proof (ln_order _ _ _ _ _ Hl) as Ho.
    destruct (decide (n < m)%nat) as [Hlt|Hge].
    + rewrite bool_decide_eq_true_2 by lia. unfold on_handler. rewrite !bind_modify. unfold bind at 1. cbn [get].
      match goal with |- context [of_option KeyError ?o] => assert (o = Some e) as -> end.
      { cbn. apply (ln_table _ _ _ _ _ Hl). exists st. rewrite Hts. by left. }
      cbn [of_option]. rewrite bind_ret_l, bind_modify. cbn [fst snd].
      match goal with |- context [bind (report_done ts) _ (?x, d)] => set (h1 := x) end.
      edestruct (lane_pop sub n m h ws j st e ts) as [Hl1 Hj]; [done|done|done|].
      destruct (IH (S n) h1 ws) as (h' & Hrun & Hl' & Hev & Hdir); [exact Hl1|done| |].
      { intros i t Ht. rewrite (Hq (S i) t); [|by rewrite Hts]. apply bool_decide_ext. lia. }
      rewrite (bind_ok _ _ _ _ _ Hrun). exists h'. split; [|split; [done|split; [|done]]].
      * destruct (sub !! n) as [p|] eqn:Hp; [|done]. injection Hj as Hj.
        rewrite (drop_S (take m sub) p n) by (by rewrite lookup_take_lt). cbn [map]. by rewrite Hj.
      * rewrite Hev. unfold events_of. cbn. rewrite Hts. cbn [map]. rewrite app_assoc, (Permutation_app_comm _ [e]). done.
    + rewrite bool_decide_eq_false_2 by lia. assert (n = m) as <- by lia. exists h. split; [|done].
      rewrite drop_ge; [done|]. rewrite length_take. lia.
Qed.

(** ** Histories *)

(** What an event adds to the lists of a direction. *)
Lemma submitted_snoc dir evs e : submitted dir (evs ++ [e]) = submitted dir evs ++ submitted dir [e].
Proof. apply omap_app. Qed.
Lemma completed_snoc dir evs e : completed dir (evs ++ [e]) = completed dir evs ++ completed dir [e].
Proof. apply omap_app. Qed.
Lemma reported_snoc dir evs e : reported dir (evs ++ [e]) = reported dir evs ++ reported dir [e].
Proof. unfold reported. by rewrite omap_app, concat_app. Qed.

(** The part of the invariant that is about one direction. *)
Definition lane_inv evs s dir : Prop :=
  ∃ n m, lane (submitted dir evs) n m (handler_of s dir) (lane_work dir (sys_device s)) ∧
    reported dir evs = map (λ p, (p.1, true)) (take n (submitted dir evs)) ∧
    completed dir evs = map snd (take m (submitted dir evs)).

(** The event does not concern the direction. *)
Definition foreign dir (e : event) : Prop := submitted dir [e] = [] ∧ completed dir [e] = [] ∧ reported dir [e] = [].

Lemma foreign_lane evs e s s' dir : lane_inv evs s dir → foreign dir e → handler_of s' dir = handler_of s dir →
  lane_work dir (sys_device s') = lane_work dir (sys_device s) → lane_inv (evs ++ [e]) s' dir.
Proof.
  intros (n & m & H1 & H2 & H3) (F1 & F2 & F3) Hh Hw. exists n, m.
  by rewrite submitted_snoc, reported_snoc, completed_snoc, F1, F2, F3, !app_nil_r, Hh, Hw.
Qed.

(** A step of one direction. *)
Lemma inv_snoc gpu cpu evs e s s' dir : streams_inv gpu cpu evs s → lane_inv (evs ++ [e]) s' dir → foreign (negb dir) e →
  handler_of s' (negb dir) = handler_of s (negb dir) → gpu_to_cpu (handler_of s' dir) = dir →
  lane_work (negb dir) (sys_device s') = lane_work (negb dir) (sys_device s) →
  NoDup (events_of (handler_of s' dir) ++ events_of (handler_of s (negb dir))) →
  Forall (λ x, x < next_id (sys_device s')) (events_of (handler_of s' dir)) → next_id (sys_device s) ≤ next_id (sys_device s') →
  (gpu_memory (sys_device s'), cpu_memory (sys_device s')) = copied (gpu_memory (sys_device s), cpu_memory (sys_device s)) e →
  streams_inv gpu cpu (evs ++ [e]) s'.
Proof.
  intros [I1 I2 I3 I4 I5] Hlane Hfor Hh Hdir Hw Hnd Hfresh Hnext Hmem.
  assert (Hcase : ∀ (Q : bool → Prop), Q dir → Q (negb dir) → ∀ b, Q b) by (intros Q H1 H2 b; by destruct b, dir).
  split.
  - apply Hcase; [exact Hlane|]. apply (foreign_lane evs e s s' (negb dir)); [apply I1|done|done|done].
  - apply Hcase; [done|]. rewrite Hh. apply I2.
  - apply Hcase; [by rewrite Hh|]. by rewrite Hh, negb_involutive, (Permutation_app_comm (events_of _)).
  - apply Hcase; [done|]. rewrite Hh. eapply Forall_impl; [apply I4|]. intros x Hx. simpl in Hx. lia.
  - rewrite Hmem, foldl_app, <- I5. done.
Qed.

Lemma lane_work_snoc dir d d' w : work d' = work d ++ [w] →
  lane_work dir d' = lane_work dir d ++ (if decide (w_to_cpu w = dir) then [w] else []).
Proof. intros Hd. unfold lane_work. by rewrite Hd, filter_app. Qed.

Lemma negb_ne (b : bool) : b ≠ negb b.
Proof. by destruct b. Qed.

Lemma submit_inv gpu cpu evs s dir job src dst m h d : streams_inv gpu cpu evs s →
  _transfer_events (handler_of s dir) !! job = None →
  transfer_plan np_empty (src_block_size_factor (handler_of s dir)) (dst_block_size_factor (handler_of s dir)) src dst = Ok m →
  sd_transfer_async np_empty job src dst (handler_of s dir, sys_device s) = (Ok true, (h, d)) →
  streams_inv gpu cpu (evs ++ [Submitted dir job m]) (mkSystem (<[dir := h]> (handler_of s)) d).
Proof.
  intros Hi Hjob Hm Hrun. destruct (transfer_run _ (sys_device s) job _ _ _ Hm) as (st & e & sp & ep & n & Hrun' & Hn & Hep).
  rewrite Hrun' in Hrun. injection Hrun as <- <-. pose proof (negb_ne dir) as Hne. pose proof (si_direction _ _ _ _ Hi dir) as Hdir.
  pose proof (si_distinct _ _ _ _ Hi dir) as Hnd. pose proof (si_fresh _ _ _ _ Hi dir) as Hf. pose proof (si_fresh _ _ _ _ Hi (negb dir)) as Hf'.
  set (h := handler_of s dir) in *. set (h' := with_transfer job st e sp ep h).
  assert (Hev : events_of h' ≡ₚ (map snd (_transfers h) ++ ep) ++ [e]).
  { unfold events_of. cbn. rewrite map_app. simpl. by rewrite <- !app_assoc, (Permutation_app_comm [e]). }
  assert (Hle : Forall (λ x, x < n) (events_of h)) by (eapply Forall_impl; [exact Hf|]; intros x Hx; simpl in Hx; lia).
  apply (inv_snoc gpu cpu evs _ s _ dir Hi); cbn [handler_of sys_device next_id gpu_memory cpu_memory].
  - destruct (si_lane _ _ _ _ Hi dir) as (k & l & H1 & H2 & H3). exists k, l. cbn [handler_of sys_device].
    rewrite submitted_snoc, reported_snoc, completed_snoc, fn_lookup_insert.
    cbn [submitted omap list_omap completed reported concat]. rewrite decide_True by done. rewrite !app_nil_r.
    pose proof (ln_order _ _ _ _ _ H1) as Ho. rewrite !take_app_le by lia. split; [|done].
    erewrite lane_work_snoc by reflexivity. cbn [w_to_cpu new_work]. rewrite decide_True by done. by apply lane_submit.
  - split; [|done]. cbn. by rewrite decide_False.
  - by rewrite fn_lookup_insert_ne.
  - by rewrite fn_lookup_insert.
  - erewrite lane_work_snoc by reflexivity. cbn [w_to_cpu new_work]. rewrite decide_False by (fold h; congruence). apply app_nil_r.
  - rewrite fn_lookup_insert. fold h'. rewrite Hev, <- app_assoc. destruct Hep as [Hep|[-> He]].
    + assert (Heq : events_of h = (map snd (_transfers h) ++ ep) ++ [e]) by (unfold events_of; by rewrite Hep, app_assoc).
      rewrite Heq, <- app_assoc in Hnd. exact Hnd.
    + fold (events_of h). rewrite (Permutation_app_comm [e]), app_assoc. apply NoDup_app. split; [done|]. split; [|apply NoDup_singleton].
      intros x Hx ->%list_elem_of_singleton. rewrite Forall_forall in Hf, Hf'.
      apply elem_of_app in Hx as [Hx|Hx]; [apply Hf in Hx|apply Hf' in Hx]; lia.
  - rewrite fn_lookup_insert. fold h'. rewrite Hev. destruct Hep as [Hep|[-> He]].
    + unfold events_of in Hle. rewrite Hep in Hle. by rewrite <- app_assoc.
    + apply Forall_app. split; [done|]. apply Forall_singleton. lia.
  - done.
  - done.
Qed.

Lemma other_work before w after dir : w_to_cpu w ≠ dir →
  filter (λ x, w_to_cpu x = dir) (before ++ w :: after) = filter (λ x, w_to_cpu x = dir) (before ++ after).
Proof. intros Hw. by rewrite !filter_app, filter_cons_False. Qed.

Lemma work_inv gpu cpu evs s before w after : streams_inv gpu cpu evs s →
  work (sys_device s) = before ++ w :: after → Forall (λ e, waits_for w e = false) before →
  streams_inv gpu cpu (evs ++ [Completed (w_to_cpu w) (w_mapping w)])
    (mkSystem (handler_of s) (set_work (before ++ after) (do_work kv_dims w (sys_device s)))).
Proof.
  intros Hi Hw Hno. set (dir := w_to_cpu w). pose proof (negb_ne dir) as Hne.
  assert (Hnext : next_id (do_work kv_dims w (sys_device s)) = next_id (sys_device s)) by (unfold do_work; by destruct (w_to_cpu w)).
  apply (inv_snoc gpu cpu evs _ s _ dir Hi); cbn [handler_of sys_device].
  - destruct (si_lane _ _ _ _ Hi dir) as (k & l & H1 & H2 & H3).
    assert (Hws : lane_work dir (sys_device s) = filter (λ x, w_to_cpu x = dir) before ++ w :: filter (λ x, w_to_cpu x = dir) after).
    { unfold lane_work. by rewrite Hw, filter_app, filter_cons_True. }
    pose proof (oldest_first _ _ _ _ _ _ _ _ H1 Hws Hno) as Hnil. fold dir in Hnil. rewrite Hws, Hnil in H1. cbn [app] in H1.
    destruct (lane_complete _ _ _ _ _ _ H1) as (H1' & p & Hp & Hpm). exists k, (S l). cbn [handler_of sys_device].
    rewrite submitted_snoc, reported_snoc, completed_snoc. cbn [submitted omap list_omap completed reported concat].
    rewrite decide_True by done. rewrite !app_nil_r. split; [|split; [done|]].
    + unfold lane_work. cbn [work set_work]. rewrite filter_app, Hnil. exact H1'.
    + rewrite H3, (take_S_r _ _ _ Hp), map_app. cbn [map]. by rewrite Hpm.
  - split; [done|]. split; [|done]. cbn. by rewrite decide_False.
  - done.
  - apply (si_direction _ _ _ _ Hi).
  - unfold lane_work. cbn [work set_work]. rewrite Hw, other_work; [done|]. by fold dir.
  - apply (si_distinct _ _ _ _ Hi).
  - cbn [next_id set_work]. rewrite Hnext. apply (si_fresh _ _ _ _ Hi).
  - cbn [next_id set_work]. by rewrite Hnext.
  - cbn [gpu_memory cpu_memory set_work copied fst snd]. unfold do_work, dir. by destruct (w_to_cpu w).
Qed.

(** In a reachable state the queries are exact. *)
Lemma query_inv gpu cpu evs s dir n m : streams_inv gpu cpu evs s →
  lane (submitted dir evs) n m (handler_of s dir) (lane_work dir (sys_device s)) → happened n m (handler_of s dir) (sys_device s).
Proof.
  intros Hi Hl. apply (query_lane _ n m _ _ _ dir Hl (si_distinct _ _ _ _ Hi dir)). intros w Hw Hd.
  destruct (si_lane _ _ _ _ Hi (negb dir)) as (k & l & H1 & _).
  assert (Hin : w_event w ∈ map w_event (lane_work (negb dir) (sys_device s))).
  { apply list_elem_of_fmap. exists w. split; [done|]. apply list_elem_of_filter. split; [|done]. by destruct (w_to_cpu w), dir. }
  rewrite (ln_events _ _ _ _ _ H1) in Hin. apply list_elem_of_fmap in Hin as (t & He & Ht). apply elem_of_app. left.
  apply list_elem_of_fmap. exists t. split; [done|]. by eapply subseteq_drop.
Qed.

Lemma report_inv gpu cpu evs s dir results h d : streams_inv gpu cpu evs s →
  sd_get_finished (handler_of s dir, sys_device s) = (Ok results, (h, d)) →
  streams_inv gpu cpu (evs ++ [Reported dir results]) (mkSystem (<[dir := h]> (handler_of s)) d).
Proof.
  intros Hi Hrun. destruct (si_lane _ _ _ _ Hi dir) as (n & m & H1 & H2 & H3). pose proof (negb_ne dir) as Hne.
  destruct (report_run _ m (sys_device s) _ n _ _ H1 eq_refl (query_inv _ _ _ _ _ _ _ Hi H1)) as (h' & Hrun' & Hl & Hev & Hdir).
  unfold sd_get_finished in Hrun. unfold bind at 1 in Hrun. cbn [get fst] in Hrun. rewrite Hrun' in Hrun. injection Hrun as <- <- <-.
  apply (inv_snoc gpu cpu evs _ s _ dir Hi); cbn [handler_of sys_device]; rewrite ?fn_lookup_insert; try done.
  - exists m, m. cbn [handler_of sys_device]. rewrite submitted_snoc, reported_snoc, completed_snoc, fn_lookup_insert.
    cbn [submitted omap list_omap completed reported concat]. rewrite decide_True by done. rewrite !app_nil_r.
    split; [done|]. split; [|done]. pose proof (ln_order _ _ _ _ _ H1) as Ho.
    rewrite H2. cbn [concat]. rewrite ?app_nil_r, <- map_app. f_equal. rewrite <- (take_drop n (take m (submitted dir evs))) at 2.
    by rewrite take_take, Nat.min_l by lia.
  - split; [done|]. split; [done|]. cbn. by rewrite decide_False.
  - by rewrite fn_lookup_insert_ne.
  - rewrite Hdir. apply (si_direction _ _ _ _ Hi).
  - rewrite Hev. apply (si_distinct _ _ _ _ Hi).
  - rewrite Hev. apply (si_fresh _ _ _ _ Hi).
Qed.

Lemma lane_init h : _transfers h = [] → _transfer_events h = ∅ → lane [] 0 0 h [].
Proof.
  intros Ht He. split; rewrite ?Ht, ?He; try done; [constructor|]. intros j e. rewrite lookup_empty.
  split; [done|]. by intros [st Hin%elem_of_nil].
Qed.

Lemma steps_inv f gpu cpu evs s : steps (System_init f gpu cpu) evs s → streams_inv gpu cpu evs s.
Proof.
  induction 1 as [|evs s e s' _ IH Hstep].
  - split; cbn; try done.
    + intros dir. exists 0%nat, 0%nat. split; [|done]. apply lane_init; by destruct dir.
    + by intros [].
    + intros []; constructor.
    + intros []; constructor.
  - destruct Hstep as [s dir job src dst m h d Hj Hm Hrun|s before w after Hw Hno|s dir results h d Hrun|s dir jobs Hw].
    + by eapply submit_inv.
    + by apply work_inv.
    + by apply report_inv.
    + apply (inv_snoc gpu cpu evs _ s s dir IH); try done; [|apply IH|apply IH|apply IH].
      destruct (si_lane _ _ _ _ IH dir) as (n & m & H1 & H2 & H3). exists n, m.
      by rewrite submitted_snoc, reported_snoc, completed_snoc, !app_nil_r.
Qed.

(** [wait] returns when no transfer that is not done is asked for. *)
Lemma wait_iff sub n m h ws d jobs : lane sub n m h ws → happened n m h d →
  sd_wait_returns jobs (h, d) = true ↔ ∀ p, p ∈ drop m sub → p.1 ∉ jobs.
Proof.
  intros Hl Hq. pose proof (ln_order _ _ _ _ _ Hl) as Ho. unfold sd_wait_returns. rewrite forallb_forall. cbn [fst snd].
  assert (Hat : ∀ i t, _transfers h !! i = Some t ↔ ∃ p, sub !! (n + i)%nat = Some p ∧ _transfers h !! i = Some t ∧ p.1 = t.1.1).
  { intros i t. split; [|by intros (? & ? & ? & ?)]. intros Ht. pose proof (f_equal (λ l, l !! i) (ln_jobs _ _ _ _ _ Hl)) as Hj.
    simpl in Hj. rewrite !list_lookup_fmap, Ht, lookup_drop in Hj. simpl in Hj.
    destruct (sub !! (n + i)%nat) as [p|]; [|done]. exists p. split; [done|]. split; [done|]. by injection Hj. }
  split.
  - intros Hall p (i & Hp)%list_elem_of_lookup Hin. rewrite lookup_drop in Hp. apply list_elem_of_In, Hall in Hin.
    pose proof (f_equal (λ l, l !! (m - n + i)%nat) (ln_jobs _ _ _ _ _ Hl)) as Hj. simpl in Hj.
    rewrite !list_lookup_fmap, lookup_drop in Hj. replace (n + (m - n + i))%nat with (m + i)%nat in Hj by lia. rewrite Hp in Hj.
    destruct (_transfers h !! (m - n + i)%nat) as [[[j st] e]|] eqn:Ht; [|done]. injection Hj as Hj. cbn in Hj. subst j.
    rewrite (proj2 (ln_table _ _ _ _ _ Hl p.1 e)) in Hin by (exists st; by eapply list_elem_of_lookup_2).
    specialize (Hq _ _ Ht). simpl in Hq. rewrite Hq in Hin. apply bool_decide_eq_true in Hin. lia.
  - intros Hno j Hj. apply list_elem_of_In in Hj. destruct (_transfer_events h !! j) as [e|] eqn:He; [|done].
    apply (ln_table _ _ _ _ _ Hl) in He as (st & (i & Ht)%list_elem_of_lookup). rewrite (Hq _ _ Ht : query e d = _).
    apply bool_decide_eq_true. apply not_ge. intros Hi. apply Hat in Ht as (p & Hp & _ & Hpj). simpl in Hpj. subst j.
    apply (Hno p); [|done]. apply list_elem_of_lookup. exists (i - (m - n))%nat. rewrite lookup_drop, <- Hp. f_equal. lia.
Qed.

(** C20. Transfers of one direction are done and reported in the order of their
    submission, as the comment of the handler says.  In every history of the two
    handlers and their device, the transfers that are done are the first [m]
    that were submitted, and the jobs that were reported, as successes, are the
    first [n ≤ m] of them; the memories are what these copies, one after the
    other, have made of the initial ones.  Then [get_finished] reports exactly
    the jobs that are done and not yet reported, a new transfer is accepted
    whenever its blocks have fitting sizes, [wait] returns if and only if no
    job that it waits for is still to be done, and as long as there is such
    a job the device can go on. *)
Theorem transfers_in_order (f : Z) (gpu cpu : memory) evs s (Hsteps : steps (System_init f gpu cpu) evs s) :
  (gpu_memory (sys_device s), cpu_memory (sys_device s)) = foldl copied (gpu, cpu) evs ∧
  ∀ dir, let sub := submitted dir evs in let side := (handler_of s dir, sys_device s) in
  ∃ n m, (n ≤ m ≤ length sub)%nat ∧
    completed dir evs = map snd (take m sub) ∧
    reported dir evs = map (λ p, (p.1, true)) (take n sub) ∧
    (∃ s', step s (Reported dir (map (λ p, (p.1, true)) (drop n (take m sub)))) s') ∧
    (∀ job src dst mp, job ∉ map fst (drop n sub) →
       transfer_plan np_empty (src_block_size_factor side.1) (dst_block_size_factor side.1) src dst = Ok mp →
       ∃ s', step s (Submitted dir job mp) s') ∧
    (∀ jobs, sd_wait_returns jobs side = true ↔ ∀ p, p ∈ drop m sub → p.1 ∉ jobs) ∧
    ((m < length sub)%nat → ∃ dir' mp s', step s (Completed dir' mp) s').
Proof.
  pose proof (steps_inv _ _ _ _ _ Hsteps) as Hi. split; [apply Hi|]. intros dir sub side.
  destruct (si_lane _ _ _ _ Hi dir) as (n & m & H1 & H2 & H3). exists n, m. fold sub in H1, H2, H3.
  pose proof (ln_order _ _ _ _ _ H1) as Ho. pose proof (query_inv _ _ _ _ _ _ _ Hi H1) as Hq.
  split; [done|]. split; [done|]. split; [done|]. split; [|split; [|split]].
  - destruct (report_run _ m (sys_device s) _ n _ _ H1 eq_refl Hq) as (h' & Hrun & _). eexists. by apply step_report.
  - intros job src dst mp Hjob Hmp. destruct (transfer_run _ (sys_device s) job _ _ _ Hmp) as (st & e & sp & ep & k & Hrun & _).
    eexists. eapply step_submit; [|exact Hmp|exact Hrun]. destruct (_transfer_events (handler_of s dir) !! job) as [ev|] eqn:He; [|done].
    destruct Hjob. rewrite <- (ln_jobs _ _ _ _ _ H1). apply (ln_table _ _ _ _ _ H1) in He as (st' & Hin).
    apply list_elem_of_fmap. by exists (job, st', ev).
  - intros jobs. by eapply wait_iff.
  - intros Hm. destruct (work (sys_device s)) as [|w ws] eqn:Hw.
    + pose proof (f_equal length (ln_work _ _ _ _ _ H1)) as Hlen. unfold lane_work in Hlen.
      rewrite Hw, !length_map, length_drop in Hlen. cbn in Hlen. lia.
    + exists (w_to_cpu w), (w_mapping w). eexists. by apply (step_work s [] w ws).
Qed.
End streams.

(** ** Example *)

Lemma transfers_in_order_witness :
  ∃ evs s, steps zeros [false] (System_init 2 (pages_of 100) (pages_of 0)) evs s ∧
    reported true evs = [] ∧ (∃ s', step zeros [false] s (Reported true [(1, true)]) s') ∧ cpu_memory (sys_device s) 0%nat false 2 = 107.
Proof.
  set (s0 := System_init 2 (pages_of 100) (pages_of 0)).
  set (r := sd_transfer_async zeros 1 [7; 3] [1] (handler_of s0 true, sys_device s0)).
  assert (Hr : r = (Ok true, (r.2.1, r.2.2))) by (vm_compute; reflexivity).
  assert (H1 : step zeros [false] s0 (Submitted true 1 [(7, 2); (3, 3)]) (mkSystem (<[true := r.2.1]> (handler_of s0)) r.2.2)).
  { apply (step_submit zeros [false] s0 true 1 [7; 3] [1] [(7, 2); (3, 3)]); [reflexivity|vm_compute; reflexivity|exact Hr]. }
  set (s1 := mkSystem _ _) in H1.
  assert (Hw : work (sys_device s1) = [] ++ mkWork 0 1 None true [(7, 2); (3, 3)] :: []) by (vm_compute; reflexivity).
  pose proof (step_work zeros [false] s1 [] _ [] Hw (List.Forall_nil _)) as H2. cbn [w_to_cpu w_mapping app] in H2.
  set (s2 := mkSystem _ _) in H2. set (evs := ([] ++ [Submitted true 1 [(7, 2); (3, 3)]]) ++ [Completed true [(7, 2); (3, 3)]]).
  assert (Hsteps : steps zeros [false] s0 evs s2) by (eapply steps_snoc; [eapply steps_snoc; [apply steps_nil|exact H1]|exact H2]).
  exists evs, s2. split; [exact Hsteps|]. split; [reflexivity|].
  destruct (transfers_in_order zeros [false] 2 (pages_of 100) (pages_of 0) evs s2 Hsteps) as [Hmem Hdir]. split.
  - destruct (Hdir true) as (n & m & Hnm & Hdone & Hrep & Hreport & _).
    assert (Hsub : length (submitted true evs) = 1%nat) by reflexivity. cbv zeta in *. rewrite Hsub in Hnm.
    apply (f_equal length) in Hdone, Hrep. rewrite length_map, length_take, Hsub in Hdone, Hrep.
    change (length (completed true evs)) with 1%nat in Hdone. change (length (reported true evs)) with 0%nat in Hrep.
    assert (m = 1%nat) as -> by lia. assert (n = 0%nat) as -> by lia.
    exact Hreport.
  - apply (f_equal snd) in Hmem. cbn [snd] in Hmem. rewrite Hmem. reflexivity.
Defined.
