(* ===== verification/OffloadSetup.v ===== *)
(** The construction of offloading: the number of offloaded blocks and the
    policy ([CPUOffloadingSpec], vllm/v1/kv_offload/spec.py and cpu.py), the
    registry of specifications (factory.py), and the layout of the CPU tensors
    ([CpuGpuOffloadingHandlers], worker/cpu_gpu.py).

    A layer's attention backend is code of its own: what is asked of it is in
    [LayerBackend]. *)

From S2P Require Import Prelude.
From S2P Require Import KVCacheInterface.
From S2P Require Import Offload.
From S2P Require Import Arc.
From S2P Require Import OffloadTransfer.

(** ** The specification *)

(** The entries of [kv_connector_extra_config] that are read, and the fields of
    the other configurations. *)
Record OffloadConfig := mkOffloadConfig {
  extra_block_size : option Z;
  cpu_bytes_to_use : option Z;
  extra_eviction_policy : option string;
  config_block_size : Z;
  world_size : Z;
  enable_kv_cache_events : option bool           (** [None]: no events configuration *)
}.

Record CPUOffloadingSpec := mkOffloadSpec {
  spec_gpu_block_size : Z;
  spec_offloaded_block_size : Z;
  spec_num_blocks : Z;
  eviction_policy : string
}.

(** [OffloadingSpec.__init__] *)
Definition offloaded_size (cfg : OffloadConfig) : res Z :=
  let size := default (config_block_size cfg) (extra_block_size cfg) in
  if decide (config_block_size cfg = 0) then Raise ZeroDivisionError else
  if decide (size mod config_block_size cfg = 0) then Ok size else Raise AssertionError.

Section spec.
Context (element_size : dtype → Z).

Definition kv_bytes_per_offloaded_block (cfg : OffloadConfig) (kv : KVCacheConfig) (offloaded_block_size : Z) : res Z :=
  letr sizes := collect (map (λ g, page_size_bytes element_size (kv_cache_spec g)) (kv_cache_groups kv)) in
  match elements (list_to_set sizes : gset Z) with
  | [page_size_bytes] =>
      let kv_bytes_per_block := page_size_bytes * len (kv_cache_tensors kv) * world_size cfg in
      Ok (kv_bytes_per_block * (offloaded_block_size / config_block_size cfg))
  | _ => Raise AssertionError
  end.

Definition CPUOffloadingSpec_init (cfg : OffloadConfig) (kv_cache_config : option KVCacheConfig) : res CPUOffloadingSpec :=
  letr offloaded_block_size := offloaded_size cfg in
  match cpu_bytes_to_use cfg with
  | None | Some 0 => Raise Exception_
  | Some bytes =>
      match kv_cache_config with
      | None => Raise AssertionError
      | Some kv =>
          letr per_block := kv_bytes_per_offloaded_block cfg kv offloaded_block_size in
          Ok (mkOffloadSpec (config_block_size cfg) offloaded_block_size
                (if decide (0 < per_block) then bytes / per_block else 0)
                (default "lru" (extra_eviction_policy cfg)))
      end
  end.
End spec.

(** The manager that [get_manager] creates at its first call. *)
Inductive CPUManager :=
  | LRUManager (m : LRUOffloadingManager CPUBackend Z)
  | ARCManager (m : ARCOffloadingManager CPUBackend Z).

Definition create_manager (cfg : OffloadConfig) (s : CPUOffloadingSpec) : res CPUManager :=
  let enable_events := default false (enable_kv_cache_events cfg) in
  let backend := CPUBackend_init (spec_offloaded_block_size s) (spec_num_blocks s) in
  if decide (eviction_policy s = "lru") then Ok (LRUManager (LRU_init backend enable_events))
  else if decide (eviction_policy s = "arc") then Ok (ARCManager (ARC_init backend enable_events))
  else Raise ValueError.
(** The state is [self._manager]. *)
Definition get_manager (cfg : OffloadConfig) (s : CPUOffloadingSpec) : M (option CPUManager) CPUManager :=
  let* created := get in
  match created with
  | Some m => ret m
  | None =>
      let* m := of_res (create_manager cfg s) in
      modify (λ _, Some m) ;;;
      ret m
  end.

(** ** The registry *)

Section factory.
(** [C] are the classes; [import] is [importlib], and [is_spec] whether the class
    is a subclass of [OffloadingSpec]. *)
Context {C : Type} (import : string → string → res C) (is_spec : C → bool).

(** A registered name has a loader: a module and a class in it. *)
Definition register_spec (name module_path class_name : string) : M (gmap string (string * string)) unit :=
  let* registry := get in
  match registry !! name with
  | Some _ => raise ValueError
  | None => modify (<[name := (module_path, class_name)]>)
  end.

(** The class of which [create_spec] makes the specification. *)
Definition create_spec_class (registry : gmap string (string * string)) (spec_name spec_module_path : option string) : res C :=
  let spec_name := default "CPUOffloadingSpec" spec_name in
  letr spec_cls :=
    match registry !! spec_name with
    | Some (module_path, class_name) => import module_path class_name
    | None =>
        match spec_module_path with
        | None => Raise ValueError
        | Some path => import path spec_name
        end
    end in
  if is_spec spec_cls then Ok spec_cls else Raise AssertionError.
End factory.

(** ** The tensors *)

(** [test_shape] is [get_kv_cache_shape] for 1234 blocks of size 16, 8 heads and
    head size 256, and [stride_order] is [get_kv_cache_stride_order], with
    [None] when the backend has no such method. *)
Record LayerBackend := mkLayerBackend {
  test_shape : list Z;
  stride_order : bool → option (list nat)
}.

(** What the shapes say: whether the keys and values come before the blocks, the
    index of the blocks, whether there is a dimension of layers, and the test
    shape to use. *)
Definition layer_layout (gpu_shape test_shape : list Z) : res (bool * nat * bool * list Z) :=
  if decide (len gpu_shape ≠ len test_shape) then
    if decide (len gpu_shape = len test_shape + 1) then Ok (false, 0%nat, true, 80 :: test_shape)
    else Raise AssertionError
  else
    match test_shape with
    | [] => Raise IndexError
    | first :: rest =>
        if decide (first = 1234) then Ok (false, 0%nat, false, test_shape)
        else if decide (first = 2) then
          match rest, gpu_shape with
          | second :: _, g :: _ =>
              if decide (second = 1234 ∧ g = 2) then Ok (true, 1%nat, false, test_shape) else Raise AssertionError
          | _, _ => Raise IndexError
          end
        else Raise AssertionError
    end.

Definition block_size_index (gpu_shape test_shape : list Z) (order : option (list nat)) : res nat :=
  letr order :=
    match order with
    | Some o => if decide (len o = len gpu_shape) then Ok o else Raise AssertionError
    | None => Ok (seq 0 (length gpu_shape))
    end in
  letr permuted := collect (map (λ i, match test_shape !! i with Some n => Ok n | None => Raise IndexError end) order) in
  match list_find (λ n, n = 16) permuted with Some (i, _) => Ok i | None => Raise ValueError end.

Section tensors.
Context (gpu_block_size cpu_block_size num_cpu_blocks : Z).

(** The layout of one layer, given the size of a kernel block if it is known:
    the flag, the shape of the CPU tensor, and the size of a kernel block. *)
Definition layer_tensor (gpu_shape : list Z) (backend : LayerBackend) (kernel_block_size : option Z)
    : res (bool * list Z * Z) :=
  letr l := layer_layout gpu_shape (test_shape backend) in
  let '(kv_dim, num_blocks_idx, has_layers_dim, shape) := l in
  letr block_size_idx := block_size_index gpu_shape shape (stride_order backend has_layers_dim) in
  match gpu_shape !! block_size_idx with
  | None => Raise IndexError
  | Some size =>
      letr kernel :=
        match kernel_block_size with
        | Some k => if decide (k = size) then Ok k else Raise AssertionError
        | None =>
            if decide (size = 0) then Raise ZeroDivisionError
            else if decide (gpu_block_size mod size = 0) then Ok size else Raise AssertionError
        end in
      if decide (num_blocks_idx < length gpu_shape)%nat
      then Ok (kv_dim, <[num_blocks_idx := num_cpu_blocks * (cpu_block_size / gpu_block_size)]> gpu_shape, kernel)
      else Raise IndexError
  end.

Fixpoint layer_tensors (caches : list (list Z * LayerBackend)) (kernel_block_size : option Z)
    : res (list bool * list (list Z) * option Z) :=
  match caches with
  | [] => Ok ([], [], kernel_block_size)
  | (gpu_shape, backend) :: caches =>
      letr t := layer_tensor gpu_shape backend kernel_block_size in
      let '(kv_dim, cpu_shape, kernel) := t in
      letr rest := layer_tensors caches (Some kernel) in
      let '(kv_dims, cpu_shapes, kernel) := rest in
      Ok (kv_dim :: kv_dims, cpu_shape :: cpu_shapes, kernel)
  end.

Record CpuGpuOffloadingHandlers := mkHandlersOf {
  kv_dim_before_num_blocks : list bool;
  cpu_shapes : list (list Z);
  gpu_to_cpu_handler : SingleDirectionOffloadingHandler;
  cpu_to_gpu_handler : SingleDirectionOffloadingHandler
}.
Definition CpuGpuOffloadingHandlers_init (gpu_caches : list (list Z * LayerBackend)) : res CpuGpuOffloadingHandlers :=
  if decide (gpu_caches = []) then Raise AssertionError else
  if decide (gpu_block_size = 0) then Raise ZeroDivisionError else
  if decide (cpu_block_size mod gpu_block_size ≠ 0) then Raise AssertionError else
  letr layers := layer_tensors gpu_caches None in
  let '(kv_dims, shapes, kernel) := layers in
  match kernel with
  | None => Raise AssertionError
  | Some kernel_block_size =>
      let gpu_block_size_factor := gpu_block_size / kernel_block_size in
      let cpu_block_size_factor := cpu_block_size / kernel_block_size in
      if decide (gpu_block_size_factor = 1) then
        Ok (mkHandlersOf kv_dims shapes (Handler_init gpu_block_size_factor cpu_block_size_factor true)
              (Handler_init cpu_block_size_factor gpu_block_size_factor false))
      else Raise AssertionError
  end.
End tensors.

(** [CPUOffloadingSpec.get_handlers]: the state is [self._handlers]. *)
Definition get_handlers (s : CPUOffloadingSpec) (is_cuda_alike : bool) (gpu_caches : list (list Z * LayerBackend))
    : M (option CpuGpuOffloadingHandlers) (list (string * string * SingleDirectionOffloadingHandler)) :=
  let* created := get in
  match created with
  | Some _ => ret tt
  | None =>
      if negb is_cuda_alike then raise Exception_ else
      let* h := of_res (CpuGpuOffloadingHandlers_init (spec_gpu_block_size s) (spec_offloaded_block_size s)
        (spec_num_blocks s) gpu_caches) in
      modify (λ _, Some h)
  end ;;;
  let* created := get in
  let* h := of_option AssertionError created in
  ret [("GPU", "CPU", gpu_to_cpu_handler h); ("CPU", "GPU", cpu_to_gpu_handler h)].
