(* ===== verification/OffloadSetupSpec.v ===== *)
(** The CPU tensors of offloading against the configured memory: they stay within
    it when each tensor of the configuration is registered once, and exceed it
    when layers share a cache. *)

From S2P Require Import Prelude.
From S2P Require Import KVCacheInterface.
From S2P Require Import OffloadTransfer.
From S2P Require Import OffloadSetup.

Lemma prod_insert l i n : (i < length l)%nat → prod (<[i := n]> l) = n * prod (<[i := 1]> l).
Proof.
  revert i. induction l as [|x l IH]; intros i Hi; [simpl in Hi; lia|]. destruct i as [|i].
  - unfold prod. cbn. lia.
  - change (prod (<[S i := ?v]> (x :: l))) with (x * prod (<[i := v]> l)). rewrite !(IH i) by (simpl in Hi; lia). lia.
Qed.

Lemma sum_cons x l : sum (x :: l) = x + sum l.
Proof. done. Qed.

Section spec.
Context (element_size : dtype → Z).

(** All groups have the same page size, if the specification can be made. *)
Lemma per_block_value cfg kv size per g page : kv_bytes_per_offloaded_block element_size cfg kv size = Ok per →
  g ∈ kv_cache_groups kv → page_size_bytes element_size (kv_cache_spec g) = Ok page →
  per = page * len (kv_cache_tensors kv) * world_size cfg * (size / config_block_size cfg).
Proof.
  unfold kv_bytes_per_offloaded_block. intros Hper Hg Hpage. apply rbind_ok_inv in Hper as (sizes & Hs & Hper).
  assert (Hin : page ∈ sizes).
  { clear Hper. revert sizes Hs. induction (kv_cache_groups kv) as [|g' gs IH]; intros sizes Hs; [by apply elem_of_nil in Hg|].
    cbn [map collect] in Hs. destruct (page_size_bytes element_size (kv_cache_spec g')) as [p|] eqn:Hp; [|done].
    destruct (collect _) as [l|]; [|done]. injection Hs as <-. apply elem_of_cons in Hg as [->|Hg].
    - apply elem_of_cons. left. congruence.
    - apply elem_of_cons. right. by apply IH. }
  destruct (elements _) as [|p [|]] eqn:He; [done| |done]. injection Hper as <-.
  assert (Hp : page ∈ elements (list_to_set sizes : gset Z)) by (by apply elem_of_elements, elem_of_list_to_set).
  rewrite He in Hp. apply list_elem_of_singleton in Hp as ->. done.
Qed.

End spec.

Section tensors.
Context (gpu_bs cpu_bs n : Z).

(** The CPU tensor of a layer is its GPU tensor with another number of blocks. *)
Definition cpu_tensor (cache : list Z * LayerBackend) (cpu_shape : list Z) : Prop :=
  ∃ kv idx has test, layer_layout cache.1 (test_shape cache.2) = Ok (kv, idx, has, test) ∧ (idx < length cache.1)%nat ∧
    cpu_shape = <[idx := n * (cpu_bs / gpu_bs)]> cache.1.

Lemma layer_tensor_ok shape b kernel kv_dim cpu_shape k :
  layer_tensor gpu_bs cpu_bs n shape b kernel = Ok (kv_dim, cpu_shape, k) →
  cpu_tensor (shape, b) cpu_shape ∧ match kernel with Some k0 => k = k0 | None => k ≠ 0 ∧ gpu_bs mod k = 0 end.
Proof.
  unfold layer_tensor. intros H. apply rbind_ok_inv in H as ([[[kv idx] has] test] & Hl & H).
  apply rbind_ok_inv in H as (i & _ & H). destruct (shape !! i) as [size|]; [|done].
  apply rbind_ok_inv in H as (k' & Hk & H). destruct (decide (idx < length shape)%nat) as [Hidx|]; [|done]. injection H as <- <- <-.
  split; [by exists kv, idx, has, test|]. destruct kernel as [k0|].
  - destruct (decide (k0 = size)) as [->|]; [|done]. by injection Hk.
  - destruct (decide (size = 0)); [done|]. destruct (decide (gpu_bs mod size = 0)); [|done]. by injection Hk as <-.
Qed.

Lemma layer_tensors_ok caches : ∀ kernel kv_dims shapes k,
  layer_tensors gpu_bs cpu_bs n caches kernel = Ok (kv_dims, shapes, k) →
  Forall2 cpu_tensor caches shapes ∧ length kv_dims = length caches ∧
  match kernel, k with Some k0, k => k = Some k0 | None, Some k => k ≠ 0 ∧ gpu_bs mod k = 0 | None, None => True end.
Proof.
  induction caches as [|[shape b] caches IH]; intros kernel kv_dims shapes k H; cbn [layer_tensors] in H.
  { injection H as <- <- <-. split; [constructor|]. split; [done|]. by destruct kernel. }
  apply rbind_ok_inv in H as ([[kv sh] k1] & Ht & H). apply rbind_ok_inv in H as ([[kvs shs] k2] & Hr & H). injection H as <- <- <-.
  apply layer_tensor_ok in Ht as [Ht Hk1]. apply IH in Hr as (Hr & Hlen & ->). split; [by constructor|]. split; [simpl; lia|].
  destruct kernel as [k0|]; [by subst k1|done].
Qed.

Lemma handlers_ok caches h : CpuGpuOffloadingHandlers_init gpu_bs cpu_bs n caches = Ok h → 0 < gpu_bs →
  caches ≠ [] ∧ Forall2 cpu_tensor caches (cpu_shapes h) ∧ length (kv_dim_before_num_blocks h) = length caches ∧
  gpu_to_cpu_handler h = Handler_init 1 (cpu_bs / gpu_bs) true ∧ cpu_to_gpu_handler h = Handler_init (cpu_bs / gpu_bs) 1 false.
Proof.
  unfold CpuGpuOffloadingHandlers_init. destruct (decide (caches = [])) as [|Hne]; [done|].
  destruct (decide (gpu_bs = 0)); [done|]. destruct (decide (cpu_bs mod gpu_bs ≠ 0)); [done|]. intros H Hpos.
  apply rbind_ok_inv in H as ([[kv sh] k] & Hl & H). apply layer_tensors_ok in Hl as (Hl & Hlen & Hk).
  destruct k as [k|]; [|done]. destruct Hk as [Hk0 Hk]. destruct (decide (gpu_bs / k = 1)) as [H1|]; [|done]. injection H as <-.
  assert (k = gpu_bs) as ->. { pose proof (Z.div_mod gpu_bs k Hk0). nia. }
  cbn. by rewrite H1.
Qed.
End tensors.

(** [items] gives the element size of each cache and the bytes of one of its GPU
    blocks. *)
Definition block_bytes (c : list Z * LayerBackend) (item : Z * Z) : Prop :=
  ∀ kv_dim idx has test, layer_layout c.1 (test_shape c.2) = Ok (kv_dim, idx, has, test) → prod (<[idx := 1]> c.1) * item.1 = item.2.

Lemma cpu_bytes_sum gpu_bs cpu_bs n caches shapes items : Forall2 (cpu_tensor gpu_bs cpu_bs n) caches shapes → Forall2 block_bytes caches items →
  sum (zip_with (λ shape item, prod shape * item.1) shapes items) = n * (cpu_bs / gpu_bs) * sum (map snd items).
Proof.
  intros Hf. revert items. induction Hf as [|c sh caches shapes Hc _ IH]; intros items Hi.
  { inversion Hi; subst. cbn. unfold sum. cbn. lia. }
  inversion Hi as [|? item ? items' Hp Hps]; subst. cbn [zip_with map]. rewrite !sum_cons, IH by done.
  destruct Hc as (kvd & idx & has & test & Hl & Hidx & ->). rewrite prod_insert by done. rewrite <- (Hp _ _ _ _ Hl). ring.
Qed.

(** C40. The CPU memory of offloading against the configured [cpu_bytes_to_use].
    The specification charges one page for each tensor of the KV cache
    configuration; the handlers of a worker make a CPU tensor for each cache
    that is registered, a cache for each layer or one for all layers.  The CPU
    tensors of all workers take the bytes of one block in all registered caches
    times the number of CPU blocks.  If the registered caches have no more
    bytes in a block than what is charged, they stay within the configured
    memory, and if they have as many, one more offloaded block would not fit.
    The handlers copy [k] GPU blocks for each CPU block, where [k] is the
    quotient of the block sizes. *)
Theorem cpu_tensors_fit_budget (element_size : dtype → Z) cfg kv s g page bytes (caches : list (list Z * LayerBackend)) items h
    (Hs : CPUOffloadingSpec_init element_size cfg (Some kv) = Ok s) (Hbytes : cpu_bytes_to_use cfg = Some bytes) (Hpos : 0 ≤ bytes)
    (Hg : g ∈ kv_cache_groups kv) (Hpage : page_size_bytes element_size (kv_cache_spec g) = Ok page)
    (Hh : CpuGpuOffloadingHandlers_init (spec_gpu_block_size s) (spec_offloaded_block_size s) (spec_num_blocks s) caches = Ok h)
    (Hgpu : 0 < config_block_size cfg) (Hoff : 0 ≤ spec_offloaded_block_size s) (Hworld : 0 ≤ world_size cfg)
    (Hitems : Forall2 block_bytes caches items) :
  let k := spec_offloaded_block_size s / spec_gpu_block_size s in
  let used := world_size cfg * sum (zip_with (λ shape item, prod shape * item.1) (cpu_shapes h) items) in
  let per_block := world_size cfg * (page * len (kv_cache_tensors kv) * k) in
  used = world_size cfg * sum (map snd items) * k * spec_num_blocks s ∧
  (sum (map snd items) ≤ page * len (kv_cache_tensors kv) → used ≤ bytes) ∧
  (sum (map snd items) = page * len (kv_cache_tensors kv) → 0 < per_block → bytes < used + per_block) ∧
  gpu_to_cpu_handler h = Handler_init 1 k true ∧ cpu_to_gpu_handler h = Handler_init k 1 false.
Proof.
  intros k used per_block. unfold CPUOffloadingSpec_init in Hs. apply rbind_ok_inv in Hs as (size & Hsize & Hs). rewrite Hbytes in Hs.
  assert (Hb : 0 < bytes) by (destruct bytes; [done|done|lia]).
  assert (Hs' : (letr per := kv_bytes_per_offloaded_block element_size cfg kv size in
     Ok (mkOffloadSpec (config_block_size cfg) size (if decide (0 < per) then bytes / per else 0)
           (default "lru"%string (extra_eviction_policy cfg)))) = Ok s) by (by destruct bytes).
  clear Hs. apply rbind_ok_inv in Hs' as (per & Hper & Hs). injection Hs as <-. cbn in k, Hh, Hoff.
  pose proof (per_block_value _ _ _ _ _ _ _ Hper Hg Hpage) as Hv. fold k in Hv.
  destruct (handlers_ok _ _ _ _ _ Hh Hgpu) as (_ & Htens & _ & Hh1 & Hh2). fold k in Hh1, Hh2.
  set (blocks := if decide (0 < per) then bytes / per else 0) in *.
  assert (Hk : 0 ≤ k) by (apply Z.div_pos; lia).
  assert (Hblocks : 0 ≤ blocks) by (unfold blocks; destruct (decide (0 < per)); [apply Z.div_pos; lia|lia]).
  assert (Hpb : per = per_block) by (rewrite Hv; unfold per_block; lia).
  assert (Hused : used = world_size cfg * sum (map snd items) * k * blocks).
  { unfold used. rewrite (cpu_bytes_sum _ _ _ _ _ _ Htens Hitems). fold k. ring. }
  assert (Hfit : per * blocks ≤ bytes) by (unfold blocks; destruct (decide (0 < per)); [apply Z.mul_div_le; lia|lia]).
  split; [exact Hused|]. split; [|split; [|done]].
  - intros Hle. etrans; [|exact Hfit]. rewrite Hused, Hpb. unfold per_block.
    assert (0 ≤ world_size cfg * k * blocks) by nia. nia.
  - intros Heq Hp. assert (Hu : used = per * blocks) by (rewrite Hused, Hpb, Heq; unfold per_block; ring).
    rewrite Hu, <- Hpb. rewrite <- Hpb in Hp. unfold blocks. rewrite decide_True by done.
    pose proof (Z.mod_pos_bound bytes per Hp). pose proof (Z.div_mod bytes per). lia.
Qed.

(** ** Examples *)

(** The shapes of a FlashAttention layer with layout NHD or HND. *)
Definition flash_attention (hnd : bool) : LayerBackend :=
  mkLayerBackend [2; 1234; 16; 8; 256] (λ _, Some (if hnd then [0; 1; 3; 2; 4]%nat else [0; 1; 2; 3; 4]%nat)).

Definition setup_config : OffloadConfig := mkOffloadConfig (Some 32) (Some 5000) None 16 1 None.
Definition setup_group : KVCacheGroupSpec :=
  mkGroup ["layer"] (FullAttentionSpec (mkAttention 16 1 4 "bfloat16" None) (mkFull 4 None None)).
Definition setup_kv : KVCacheConfig := mkKVConfig 10 [mkTensor 2560 ["layer"]] [setup_group].
Definition setup_spec : CPUOffloadingSpec := mkOffloadSpec 16 32 9 "lru".

Lemma cpu_tensors_fit_budget_witness :
  ∃ h, CpuGpuOffloadingHandlers_init 16 32 9 [([2; 10; 16; 1; 4], flash_attention false)] = Ok h ∧
    cpu_shapes h = [[2; 18; 16; 1; 4]] ∧ 1 * sum (zip_with (λ shape item, prod shape * item.1) (cpu_shapes h) [(2, 256)]) ≤ 5000.
Proof.
  eexists. split; [vm_compute; reflexivity|]. split; [reflexivity|].
  apply (cpu_tensors_fit_budget (λ _, 2) setup_config setup_kv setup_spec setup_group 256 5000
    [([2; 10; 16; 1; 4], flash_attention false)] [(2, 256)]).
  - reflexivity.
  - reflexivity.
  - lia.
  - left.
  - reflexivity.
  - vm_compute. reflexivity.
  - reflexivity.
  - vm_compute. discriminate.
  - vm_compute. discriminate.
  - constructor; [|constructor]. intros kv_dim idx has test Hl. vm_compute in Hl. injection Hl as <- <- <- <-. reflexivity.
  - vm_compute. discriminate.
Defined.

(** A layer that reuses the KV cache of another one is registered as a cache of
    its own, and gets a CPU tensor, but no tensor of the configuration: 9 blocks
    for 5000 bytes take 9216. *)
Definition shared_kv : KVCacheConfig :=
  mkKVConfig 10 [mkTensor 2560 ["layer"]] [mkGroup ["layer"; "reuses"] (kv_cache_spec setup_group)].
Example shared_layers_exceed_budget :
  CPUOffloadingSpec_init (λ _, 2) setup_config (Some shared_kv) = Ok setup_spec ∧
  ∃ h, CpuGpuOffloadingHandlers_init (spec_gpu_block_size setup_spec) (spec_offloaded_block_size setup_spec) (spec_num_blocks setup_spec)
      [([2; 10; 16; 1; 4], flash_attention false); ([2; 10; 16; 1; 4], flash_attention false)] = Ok h ∧
    sum (map (λ shape, prod shape * 2) (cpu_shapes h)) = 9216 ∧ cpu_bytes_to_use setup_config = Some 5000.
Proof. split; [reflexivity|]. eexists. split; [vm_compute; reflexivity|]. split; reflexivity. Qed.

(** With layout HND the index of the block size is looked up in the permuted
    test shape and used in the shape of the tensor, which is not permuted: the
    number of heads is taken for the size of a kernel block, and the handlers
    are refused. *)
Example hnd_layout_refused :
  CpuGpuOffloadingHandlers_init 16 32 9 [([2; 10; 16; 8; 64], flash_attention true)] = Raise AssertionError ∧
  ∃ h, CpuGpuOffloadingHandlers_init 16 32 9 [([2; 10; 16; 8; 64], flash_attention false)] = Ok h.
Proof. split; [reflexivity|]. eexists. vm_compute. reflexivity. Qed.
