(* ===== verification/Ngram.v ===== *)
(** The n-gram drafter (vllm/v1/spec_decode/ngram_proposer.py): the search for
    the longest suffix that occurred before, by the prefix function of Knuth,
    Morris and Pratt, and the batch that runs it. *)

From S2P Require Import Prelude.

(** ** One request *)

(** The variables of the [while] loop. *)
Record Scan := mkScan {
  scan_i : Z;
  prev_lps : Z;
  longest_ngram : Z;
  position : Z;
  lps : list Z                             (** [np.int32] *)
}.

(** Assignment to an array; indices count from the end when negative. *)
Definition array_set {A} (l : list A) (i : Z) (x : A) : res (list A) :=
  match py_index l i with
  | Some _ => Ok (<[Z.to_nat (if decide (i < 0) then i + len l else i) := x]> l)
  | None => Raise IndexError
  end.
Definition array_get {A} (l : list A) (i : Z) : res A :=
  match py_index l i with Some x => Ok x | None => Raise IndexError end.

(** One iteration of the loop. *)
Definition scan_step (tokens : list Z) (max_ngram : Z) (s : Scan) : res Scan :=
  letr a := array_get tokens (prev_lps s) in
  letr b := array_get tokens (scan_i s) in
  if decide (a = b) then
    let prev := prev_lps s + 1 in
    let '(longest, pos) :=
      if decide (longest_ngram s ≤ prev) then (prev, scan_i s)
      else (longest_ngram s, position s) in
    letr table := if decide (scan_i s < max_ngram)
                  then array_set (lps s) (scan_i s) (int32 prev) else Ok (lps s) in
    letr prev := if decide (prev = max_ngram) then array_get table (max_ngram - 1) else Ok prev in
    Ok (mkScan (scan_i s + 1) prev longest pos table)
  else if decide (prev_lps s ≠ 0) then
    letr prev := array_get (lps s) (prev_lps s - 1) in
    Ok (mkScan (scan_i s) prev (longest_ngram s) (position s) (lps s))
  else Ok (mkScan (scan_i s + 1) (prev_lps s) (longest_ngram s) (position s) (lps s)).

(** [while i < total_token].  Every iteration lowers [2 * (total_token - i) + prev_lps]. *)
Fixpoint scan_loop (fuel : nat) (tokens : list Z) (max_ngram : Z) (s : Scan) : res Scan :=
  if decide (scan_i s < len tokens) then
    match fuel with
    | O => Raise OutOfFuel
    | S fuel => letr s := scan_step tokens max_ngram s in scan_loop fuel tokens max_ngram s
    end
  else Ok s.

Definition _find_longest_matched_ngram_and_propose_tokens (origin_tokens : list Z)
    (min_ngram max_ngram max_model_len k : Z) : res (list Z) :=
  let total_token := len origin_tokens in
  if decide (total_token < min_ngram) then Ok [] else
  let k := Z.min k (max_model_len - total_token) in
  if decide (k ≤ 0) then Ok [] else
  let tokens := reverse origin_tokens in
  letr s := scan_loop (2 * length tokens) tokens max_ngram
              (mkScan 1 0 0 0 (replicate (Z.to_nat max_ngram) 0)) in
  if decide (longest_ngram s < min_ngram) then Ok [] else
  let start_position := total_token - 1 - position s + longest_ngram s in
  let k := Z.min k (total_token - start_position) in
  Ok (py_slice origin_tokens start_position (start_position + k)).

(** ** The batch *)

(** The attributes the batch uses; the buffers keep the data of earlier steps. *)
Record NgramProposer := mkNgramProposer {
  min_n : Z;
  max_n : Z;
  ng_k : Z;
  ng_max_model_len : Z;
  valid_ngram_draft : list (list Z);
  valid_ngram_num_drafts : list Z          (** [np.int32] *)
}.
Definition NgramProposer_eta (p : NgramProposer) : NgramProposer :=
  mkNgramProposer (min_n p) (max_n p) (ng_k p) (ng_max_model_len p) (valid_ngram_draft p)
    (valid_ngram_num_drafts p).
Definition set_draft v : NgramProposer → NgramProposer :=
  ltac:(record_set NgramProposer_eta valid_ngram_draft v).
Definition set_num_drafts v : NgramProposer → NgramProposer :=
  ltac:(record_set NgramProposer_eta valid_ngram_num_drafts v).

(** [__init__]; the call that triggers the compilation proposes nothing. *)
Definition NgramProposer_init (lookup_min lookup_max : option Z)
    (num_speculative_tokens max_len : Z) (max_num_seqs : nat) : res NgramProposer :=
  match lookup_min, lookup_max with
  | Some min, Some max =>
      Ok (mkNgramProposer min max num_speculative_tokens max_len
        (replicate max_num_seqs (replicate (Z.to_nat num_speculative_tokens) 0))
        (replicate max_num_seqs 0))
  | _, _ => Raise AssertionError
  end.

(** [row\[:n\] = values]; the shapes must agree. *)
Definition assign_prefix (row values : list Z) : res (list Z) :=
  let n := len values in
  if decide (len (py_upto row n) = n) then Ok (values ++ py_from row n) else Raise ValueError.

(** The body of the parallel loop, for request [idx]. *)
Definition propose_one (num_tokens_no_spec : list Z) (token_ids_cpu : list (list Z)) (idx : Z)
    : M NgramProposer unit :=
  let* p := get in
  let* num_tokens := of_res (array_get num_tokens_no_spec idx) in
  let* row := of_res (array_get token_ids_cpu idx) in
  let context_token_ids := py_upto row num_tokens in
  let* drafter_output := of_res (_find_longest_matched_ngram_and_propose_tokens
    context_token_ids (min_n p) (max_n p) (ng_max_model_len p) (ng_k p)) in
  let* nums := of_res (array_set (valid_ngram_num_drafts p) idx (int32 (len drafter_output))) in
  modify (set_num_drafts nums) ;;;
  if decide (drafter_output = []) then ret tt
  else
    let* draft := of_res (array_get (valid_ngram_draft p) idx) in
    let* draft := of_res (assign_prefix draft drafter_output) in
    let* drafts := of_res (array_set (valid_ngram_draft p) idx draft) in
    modify (set_draft drafts).

Section batch.
(** The order in which the threads finish the iterations of [prange]. *)
Context (prange : list Z → list Z).

Definition batch_propose_numba (valid_ngram_requests num_tokens_no_spec : list Z)
    (token_ids_cpu : list (list Z)) : M NgramProposer unit :=
  for_ (prange valid_ngram_requests) (propose_one num_tokens_no_spec token_ids_cpu).

Definition batch_propose (num_requests : Z) (valid_ngram_requests num_tokens_no_spec : list Z)
    (token_ids_cpu : list (list Z)) : M NgramProposer (list (list Z)) :=
  (if decide (valid_ngram_requests = []) then ret tt
   else batch_propose_numba valid_ngram_requests num_tokens_no_spec token_ids_cpu) ;;;
  let* p := get in
  mapM (λ i,
    if decide (i ∈ valid_ngram_requests) then
      let* n := of_res (array_get (valid_ngram_num_drafts p) i) in
      if decide (0 < n) then
        let* row := of_res (array_get (valid_ngram_draft p) i) in ret (py_upto row n)
      else ret []
    else ret []) (py_range 0 num_requests).

(** The requests that sampled a token and can grow. *)
Fixpoint valid_requests (i : Z) (sampled_token_ids : list (list Z)) (num_tokens_no_spec : list Z)
    : M NgramProposer (list Z) :=
  match sampled_token_ids with
  | [] => ret []
  | [] :: rest => valid_requests (i + 1) rest num_tokens_no_spec
  | (_ :: _) :: rest =>
      let* p := get in
      let* num_tokens := of_res (array_get num_tokens_no_spec i) in
      let* valid := valid_requests (i + 1) rest num_tokens_no_spec in
      ret (if decide (ng_max_model_len p ≤ num_tokens) then valid else i :: valid)
  end.

Definition propose (sampled_token_ids : list (list Z)) (num_tokens_no_spec : list Z)
    (token_ids_cpu : list (list Z)) : M NgramProposer (list (list Z)) :=
  let* valid := valid_requests 0 sampled_token_ids num_tokens_no_spec in
  batch_propose (len sampled_token_ids) valid num_tokens_no_spec token_ids_cpu.
End batch.

(** A token sequence with an earlier occurrence of its last two tokens. *)
Example ngram_example :
  _find_longest_matched_ngram_and_propose_tokens [1; 2; 3; 4; 2; 3] 1 3 20 3 = Ok [4; 2; 3].
Proof. vm_compute. reflexivity. Qed.
