(* ===== verification/NgramSpec.v ===== *)
(** The drafter proposes what a brute-force search would: the tokens after the
    earliest occurrence of the longest suffix, of a length in the given range,
    that occurred before; and a batch does so for each of its requests. *)

From S2P Require Import Prelude.
From S2P Require Import Ngram.

(** ** Borders *)

Section borders.
Context (t : list Z).
Implicit Types (i j v w p q : nat).

(** The first [v] tokens are the last [v] of the first [j]. *)
Definition border j v : Prop := (v < j)%nat ∧ ∀ q, (q < v)%nat → t !! q = t !! (j - v + q)%nat.

Lemma border_zero j : (0 < j)%nat → border j 0.
Proof. split; [done|lia]. Qed.

Lemma border_S j v : border (S j) (S v) ↔ border j v ∧ t !! v = t !! j.
Proof.
  split.
  - intros [Hv Hq]. split; [split; [lia|]|].
    + intros q Hlt. rewrite Hq by lia. f_equal; lia.
    + rewrite Hq by lia. f_equal; lia.
  - intros [[Hv Hq] He]. split; [lia|]. intros q Hlt. destruct (decide (q = v)) as [->|].
    + rewrite He. f_equal; lia.
    + rewrite Hq by lia. f_equal; lia.
Qed.

Lemma border_trans j v w : border j v → border v w → border j w.
Proof.
  intros [Hv H1] [Hw H2]. split; [lia|]. intros q Hq. rewrite H2, H1 by lia. f_equal; lia.
Qed.

Lemma border_inner j v w : border j v → border j w → (w < v)%nat → border v w.
Proof.
  intros [Hv H1] [Hw H2] Hlt. split; [done|]. intros q Hq. rewrite H2, (H1 (v - w + q)%nat) by lia.
  f_equal; lia.
Qed.

(** The longest border. *)
Definition longest_border j m : Prop := border j m ∧ ∀ v, border j v → (v ≤ m)%nat.

(** ** The invariant of the scan *)

Context (cap : nat).

(** The entries of the table that are computed, and the others, which are 0. *)
Definition table_ok i (table : list Z) : Prop :=
  length table = cap ∧
  (∀ j, (j < cap)%nat → (j < i)%nat → ∃ m, table !! j = Some (Z.of_nat m) ∧ longest_border (S j) m) ∧
  (∀ j, (j < cap)%nat → (i ≤ j)%nat → table !! j = Some 0).

(** [p] is a border of the first [i] tokens; longer ones cannot be extended. *)
Record candidate i p : Prop := {
  ca_border : border i p;
  ca_cap : (p < cap)%nat;
  ca_rejected : ∀ v, (p < v < cap)%nat → border i v → t !! v ≠ t !! i
}.

(** [best] is the length of the longest border, at most [cap], of the first [j]
    tokens for [j] up to [i], and [pos + 1] the last such [j]. *)
Record best_ok i (best pos : nat) : Prop := {
  be_cap : (best ≤ cap)%nat;
  be_border : (0 < best)%nat → border (S pos) best ∧ (pos < i)%nat;
  be_longest : ∀ j v, (j ≤ i)%nat → (v ≤ cap)%nat → border j v → (v ≤ best)%nat;
  be_last : ∀ j, (0 < best)%nat → (j ≤ i)%nat → border j best → (j ≤ S pos)%nat
}.

Record scan_inv i p (best pos : nat) (table : list Z) : Prop := {
  sc_pos : (1 ≤ i)%nat;
  sc_table : table_ok i table;
  sc_cand : candidate i p;
  sc_best : best_ok i best pos
}.

Definition state i p (best pos : nat) table : Scan :=
  mkScan (Z.of_nat i) (Z.of_nat p) (Z.of_nat best) (Z.of_nat pos) table.

Lemma array_get_nat {A} (l : list A) j x : l !! j = Some x → array_get l (Z.of_nat j) = Ok x.
Proof. intros Hj. unfold array_get. by rewrite py_index_nonneg, Nat2Z.id, Hj by lia. Qed.

Lemma array_set_nat {A} (l : list A) j x y : l !! j = Some y →
  array_set l (Z.of_nat j) x = Ok (<[j := x]> l).
Proof.
  intros Hj. unfold array_set. rewrite py_index_nonneg, Nat2Z.id, Hj by lia.
  by rewrite decide_False, Nat2Z.id by lia.
Qed.

(** Borders of the next prefix of tokens come from candidates. *)
Lemma next_border i p v : candidate i p → border (S i) v → (0 < v ≤ cap)%nat →
  (v ≤ S p)%nat ∧ (t !! p ≠ t !! i → (v ≤ p)%nat).
Proof.
  intros [Hb Hc Hr] Hv Hpos. destruct v as [|v]; [lia|]. apply border_S in Hv as [Hv He].
  assert (v ≤ p)%nat.
  { destruct (decide (v ≤ p)%nat); [done|]. by destruct (Hr v ltac:(lia) Hv). }
  split; [lia|]. intros Hne. destruct (decide (v = p)) as [->|]; [done|lia].
Qed.

(** No border is found at position [i]. *)
Lemma best_skip i best pos : best_ok i best pos →
  (∀ v, border (S i) v → (v ≤ cap)%nat → v = 0%nat) → best_ok (S i) best pos.
Proof.
  intros [H1 H2 H3 H4] Hno. split; [done| | |].
  - intros Hb. destruct (H2 Hb). split; [done|lia].
  - intros j v Hj Hv Hb. destruct (decide (j = S i)) as [->|]; [|by apply (H3 j); [lia| |]].
    rewrite (Hno v Hb Hv). lia.
  - intros j Hb Hj Hbd. destruct (decide (j = S i)) as [->|]; [|apply H4; [done|lia|done]].
    specialize (Hno best Hbd H1). lia.
Qed.

(** The border [m] is the longest at position [i]. *)
Lemma best_found i best pos m : best_ok i best pos → border (S i) m → (m ≤ cap)%nat →
  (0 < m)%nat → (∀ v, border (S i) v → (v ≤ cap)%nat → (v ≤ m)%nat) →
  best_ok (S i) (if decide (best ≤ m)%nat then m else best) (if decide (best ≤ m)%nat then i else pos).
Proof.
  intros [H1 H2 H3 H4] Hm Hcap Hpos Hmax. case_decide as Hle.
  - split; [done| | |lia].
    + intros _. split; [done|lia].
    + intros j v Hj Hv Hb. destruct (decide (j = S i)) as [->|]; [auto|].
      specialize (H3 j v ltac:(lia) Hv Hb). lia.
  - split; [done| | |].
    + intros Hb. destruct (H2 Hb). split; [done|lia].
    + intros j v Hj Hv Hb. destruct (decide (j = S i)) as [->|]; [|by apply (H3 j); [lia| |]].
      specialize (Hmax v Hb Hv). lia.
    + intros j Hb Hj Hbd. destruct (decide (j = S i)) as [->|]; [|apply H4; [done|lia|done]].
      specialize (Hmax best Hbd H1). lia.
Qed.

(** The candidate after a border of length [cap]: its longest border. *)
Lemma reset_candidate i p m : candidate i p → t !! p = t !! i → S p = cap →
  longest_border cap m → candidate (S i) m.
Proof.
  intros [Hb Hc Hr] He Hcap [Hm Hmax].
  assert (Hbc : border (S i) cap) by (rewrite <- Hcap; by apply border_S).
  split.
  - by eapply border_trans.
  - apply Hm.
  - intros v Hv Hbv. assert (border cap v) as Hcv by (eapply border_inner; [exact Hbc|done|lia]).
    specialize (Hmax v Hcv). lia.
Qed.

Lemma grow_candidate i p : candidate i p → t !! p = t !! i → S p ≠ cap → candidate (S i) (S p).
Proof.
  intros Hc He Hne. pose proof Hc as [Hb Hcap Hr]. split.
  - by apply border_S.
  - lia.
  - intros v Hv Hbv. destruct (next_border i p v Hc Hbv); lia.
Qed.

Lemma shrink_candidate i p m : candidate i p → t !! p ≠ t !! i → longest_border p m → candidate i m.
Proof.
  intros [Hb Hc Hr] Hne [Hm Hmax]. split.
  - by eapply border_trans.
  - destruct Hm. lia.
  - intros v Hv Hbv. destruct (decide (v = p)) as [->|]; [done|].
    destruct (decide (p < v)%nat); [by apply Hr; [lia|]|].
    assert (border p v) as Hpv by (eapply border_inner; [exact Hb|done|lia]).
    specialize (Hmax v Hpv). lia.
Qed.

Lemma table_store i table m : table_ok i table → (i < cap)%nat → longest_border (S i) m →
  table_ok (S i) (<[i := Z.of_nat m]> table).
Proof.
  intros (Hl & H1 & H2) Hi Hm. split; [by rewrite length_insert|]. split.
  - intros j Hj Hlt. destruct (decide (j = i)) as [->|].
    + exists m. rewrite list_lookup_insert_eq by lia. done.
    + rewrite list_lookup_insert_ne by done. apply H1; lia.
  - intros j Hj Hlt. rewrite list_lookup_insert_ne by lia. apply H2; lia.
Qed.

Lemma table_skip i table : table_ok i table → (i < cap)%nat → longest_border (S i) 0 →
  table_ok (S i) table.
Proof.
  intros (Hl & H1 & H2) Hi Hm. split; [done|]. split.
  - intros j Hj Hlt. destruct (decide (j = i)) as [->|]; [|apply H1; lia].
    exists 0%nat. split; [by apply H2|done].
  - intros j Hj Hlt. apply H2; lia.
Qed.

Lemma table_full i table : table_ok i table → (cap ≤ i)%nat → table_ok (S i) table.
Proof. intros (Hl & H1 & H2) Hi. split; [done|]. split; intros j Hj Hlt; [apply H1; lia|lia]. Qed.

(** ** The loop *)

Context (Hcap : (0 < cap)%nat) (Hwidth : Z.of_nat cap < 2 ^ 31).

(** One iteration keeps the invariant and gets closer to the end. *)
Definition scan_progress i p (r : res Scan) : Prop :=
  ∃ i' p' best' pos' table', r = Ok (state i' p' best' pos' table') ∧
    scan_inv i' p' best' pos' table' ∧ (i' ≤ length t)%nat ∧
    (2 * (length t - i') + p' < 2 * (length t - i) + p)%nat.

Lemma step_match i p best pos table :
  scan_inv i p best pos table → (i < length t)%nat → t !! p = t !! i →
  scan_progress i p (scan_step t (Z.of_nat cap) (state i p best pos table)).
Proof.
  intros [Hi Ht Hc Hb] Hn He. pose proof Hc as [[Hpi _] Hpc _].
  destruct (lookup_lt_is_Some_2 t i Hn) as [x Hx].
  assert (Hbd : border (S i) (S p)) by (apply border_S; split; [apply Hc|done]).
  assert (Hmax : ∀ v, border (S i) v → (v ≤ cap)%nat → (v ≤ S p)%nat).
  { intros v Hv Hvc. destruct (decide (v = 0%nat)) as [->|]; [lia|].
    by destruct (next_border i p v Hc Hv ltac:(lia)). }
  unfold scan_step, state. cbn [prev_lps scan_i longest_ngram position lps].
  rewrite (array_get_nat t p x), (array_get_nat t i x) by congruence. cbn [rbind].
  rewrite decide_True by done. replace (Z.of_nat p + 1) with (Z.of_nat (S p)) by lia.
  set (best' := if decide (best ≤ S p)%nat then S p else best).
  set (pos' := if decide (best ≤ S p)%nat then i else pos).
  assert (Hbest : best_ok (S i) best' pos') by (apply best_found; auto with lia).
  assert ((if decide (Z.of_nat best ≤ Z.of_nat (S p)) then (Z.of_nat (S p), Z.of_nat i)
    else (Z.of_nat best, Z.of_nat pos)) = (Z.of_nat best', Z.of_nat pos')) as ->.
  { unfold best', pos'. destruct (decide (best ≤ S p)%nat);
      [rewrite decide_True by lia|rewrite decide_False by lia]; done. }
  assert (∃ table', (if decide (Z.of_nat i < Z.of_nat cap)
    then array_set table (Z.of_nat i) (int32 (Z.of_nat (S p))) else Ok table) = Ok table' ∧
    table_ok (S i) table') as (table' & -> & Ht').
  { case_decide as Hlt; [|exists table; split; [done|apply table_full; [done|lia]]].
    rewrite int32_small by lia. destruct Ht as (Hl & H1 & H2).
    rewrite (array_set_nat table i _ 0) by (apply H2; lia). eexists. split; [done|].
    apply table_store; [done|lia|]. split; [done|]. intros v Hv. apply Hmax; [done|]. destruct Hv. lia. }
  cbn [rbind]. replace (Z.of_nat i + 1) with (Z.of_nat (S i)) by lia.
  case_decide as Hfull.
  - assert (S p = cap) as Hsp by lia.
    destruct (proj1 (proj2 Ht') (cap - 1)%nat ltac:(lia) ltac:(lia)) as (m & Hm & Hlb).
    replace (S (cap - 1)) with cap in Hlb by lia.
    replace (Z.of_nat cap - 1) with (Z.of_nat (cap - 1)) by lia.
    rewrite (array_get_nat _ _ _ Hm). cbn [rbind].
    exists (S i), m, best', pos', table'. split; [done|]. split; [|].
    + split; [lia|done| |done]. by eapply reset_candidate.
    + destruct Hlb as [[Hmc _] _]. lia.
  - cbn [rbind]. exists (S i), (S p), best', pos', table'. split; [done|]. split; [|lia].
    split; [lia|done| |done]. apply grow_candidate; [done|done|lia].
Qed.

Lemma step_mismatch i p best pos table :
  scan_inv i p best pos table → (i < length t)%nat → t !! p ≠ t !! i →
  scan_progress i p (scan_step t (Z.of_nat cap) (state i p best pos table)).
Proof.
  intros [Hi Ht Hc Hb] Hn He. pose proof Hc as [[Hpi _] Hpc _].
  destruct (lookup_lt_is_Some_2 t i Hn) as [x Hx]. destruct (lookup_lt_is_Some_2 t p) as [y Hy]; [lia|].
  unfold scan_step, state. cbn [prev_lps scan_i longest_ngram position lps].
  rewrite (array_get_nat t p y), (array_get_nat t i x) by done. cbn [rbind].
  rewrite decide_False by congruence. case_decide as Hp.
  - destruct (proj1 (proj2 Ht) (p - 1)%nat ltac:(lia) ltac:(lia)) as (m & Hm & Hlb).
    replace (S (p - 1)) with p in Hlb by lia.
    replace (Z.of_nat p - 1) with (Z.of_nat (p - 1)) by lia.
    rewrite (array_get_nat _ _ _ Hm). cbn [rbind].
    exists i, m, best, pos, table. split; [done|]. split; [|destruct Hlb as [[Hmc _] _]; lia].
    split; [done|done| |done]. by eapply shrink_candidate.
  - assert (p = 0%nat) as -> by lia.
    assert (Hno : ∀ v, border (S i) v → (v ≤ cap)%nat → v = 0%nat).
    { intros v Hv Hvc. destruct (decide (v = 0%nat)); [done|].
      destruct (next_border i 0 v Hc Hv ltac:(lia)) as [_ Hv0]. specialize (Hv0 He). lia. }
    exists (S i), 0%nat, best, pos, table. split; [unfold state; do 2 f_equal; lia|]. split; [|lia]. split.
    + lia.
    + destruct (decide (i < cap)%nat); [|by apply table_full; [|lia]].
      apply table_skip; [done|done|]. split; [apply border_zero; lia|].
      intros v Hv. rewrite (Hno v); [done|done|]. destruct Hv. lia.
    + split; [apply border_zero; lia|done|]. intros v Hv Hbv. specialize (Hno v Hbv). lia.
    + by apply best_skip.
Qed.

Lemma scan_loop_ok fuel : ∀ i p best pos table,
  (2 * (length t - i) + p ≤ fuel)%nat → (i ≤ length t)%nat → scan_inv i p best pos table →
  ∃ p' best' pos' table',
    scan_loop fuel t (Z.of_nat cap) (state i p best pos table) =
      Ok (state (length t) p' best' pos' table') ∧ best_ok (length t) best' pos'.
Proof.
  induction fuel as [|fuel IH]; intros i p best pos table Hf Hi Hinv; simpl; unfold len.
  - rewrite decide_False by lia. exists p, best, pos, table. replace (length t) with i by lia.
    split; [done|apply Hinv].
  - case_decide as Hlt.
    + assert (scan_progress i p (scan_step t (Z.of_nat cap) (state i p best pos table)))
        as (i' & p' & best' & pos' & table' & -> & Hinv' & Hi' & Hlt').
      { destruct (decide (t !! p = t !! i)); [apply step_match|apply step_mismatch]; (done || lia). }
      cbn [rbind]. apply IH; [lia|done|done].
    + replace i with (length t) in * by lia. exists p, best, pos, table. split; [done|apply Hinv].
Qed.

Lemma scan_start : (0 < length t)%nat → scan_inv 1 0 0 0 (replicate cap 0).
Proof.
  intros Hn. assert (H1 : ∀ j v, (j ≤ 1)%nat → border j v → v = 0%nat) by (intros j v Hj [Hv _]; lia).
  split; [done| | |].
  - split; [apply length_replicate|]. split.
    + intros j Hj Hlt. exists 0%nat. assert (j = 0%nat) as -> by lia.
      split; [by rewrite lookup_replicate_2|]. split; [apply border_zero; lia|].
      intros v Hv. by rewrite (H1 1%nat v).
    + intros j Hj _. by apply lookup_replicate_2.
  - split; [apply border_zero; lia|done|]. intros v Hv Hb. specialize (H1 1%nat v ltac:(done) Hb). lia.
  - split; [lia|lia| |lia]. intros j v Hj _ Hb. by rewrite (H1 j v Hj Hb).
Qed.
End borders.

(** ** The specification by search *)

Section reference.
Context (tokens : list Z).
Let n : nat := length tokens.

(** The last [v] tokens also occur at [s], before their place at the end. *)
Definition occurs (v s : nat) : bool :=
  bool_decide (s + v < n)%nat && bool_decide (take v (drop s tokens) = drop (n - v) tokens).
Definition earliest (v : nat) : option nat := head (filter (λ s, occurs v s = true) (seq 0 n)).
(** The length and the earliest place of the longest suffix that occurs. *)
Definition longest_match (lo hi : nat) : option (nat * nat) :=
  head (omap (λ v, pair v <$> earliest v) (reverse (seq lo (S hi - lo)))).
(** The tokens that followed it. *)
Definition draft_after (min_ngram max_ngram max_model_len k : Z) : list Z :=
  match longest_match (Z.to_nat min_ngram) (Z.to_nat max_ngram) with
  | Some (v, s) => take (Z.to_nat (Z.min k (max_model_len - len tokens))) (drop (s + v) tokens)
  | None => []
  end.

Lemma earliest_some v s : occurs v s = true →
  (∀ s', (s' < s)%nat → occurs v s' = false) → earliest v = Some s.
Proof.
  intros Ho Hmin. pose proof Ho as [Hs%bool_decide_eq_true _]%andb_true_iff. unfold earliest.
  replace n with (s + S (n - S s))%nat by lia. rewrite seq_app, filter_app.
  assert (filter (λ s, occurs v s = true) (seq 0 s) = []) as ->.
  { apply filter_none. intros x [_ Hx]%elem_of_seq. by rewrite Hmin by lia. }
  simpl. by rewrite filter_cons_True.
Qed.

Lemma earliest_none v : (∀ s, occurs v s = false) → earliest v = None.
Proof.
  intros Hno. unfold earliest.
  assert (filter (λ s, occurs v s = true) (seq 0 n) = []) as ->; [|done].
  apply filter_none. intros x _. by rewrite Hno.
Qed.

Lemma omap_nil {A B} (f : A → option B) l : (∀ x, x ∈ l → f x = None) → omap f l = [].
Proof.
  induction l as [|x l IH]; intros Hl; [done|]. simpl. rewrite Hl by by left.
  apply IH. intros y Hy. apply Hl. by right.
Qed.

Lemma longest_match_some lo hi v s : (lo ≤ v ≤ hi)%nat → occurs v s = true →
  (∀ s', (s' < s)%nat → occurs v s' = false) →
  (∀ v' s', (v < v' ≤ hi)%nat → occurs v' s' = false) → longest_match lo hi = Some (v, s).
Proof.
  intros Hv Ho Hmin Hmax. unfold longest_match.
  replace (S hi - lo)%nat with ((v - lo) + S (hi - v))%nat by lia.
  rewrite seq_app, reverse_app, omap_app. replace (lo + (v - lo))%nat with v by lia.
  cbn [seq]. rewrite reverse_cons, omap_app.
  rewrite (omap_nil _ (reverse (seq (S v) (hi - v)))).
  - simpl. by rewrite (earliest_some v s).
  - intros x [Hx1 Hx2]%elem_of_reverse%elem_of_seq. rewrite earliest_none; [done|].
    intros s'. apply Hmax. lia.
Qed.

Lemma longest_match_none lo hi :
  (∀ v s, (lo ≤ v ≤ hi)%nat → occurs v s = false) → longest_match lo hi = None.
Proof.
  intros Hno. unfold longest_match. rewrite omap_nil; [done|].
  intros x [Hx1 Hx2]%elem_of_reverse%elem_of_seq. rewrite earliest_none; [done|].
  intros s. apply Hno. lia.
Qed.

(** Borders of the reversed tokens are occurrences of suffixes. *)
Lemma border_occurs j v : (j ≤ n)%nat →
  border (reverse tokens) j v ↔ (v < j)%nat ∧ occurs v (n - j) = true.
Proof.
  intros Hj.
  assert (Hrev : ∀ q, (q < n)%nat → reverse tokens !! q = tokens !! (n - S q)%nat)
    by (intros q Hq; by apply reverse_lookup).
  unfold occurs. rewrite andb_true_iff, !bool_decide_eq_true.
  assert ((v < j)%nat → (∀ q, (q < v)%nat → reverse tokens !! q = reverse tokens !! (j - v + q)%nat) ↔
    take v (drop (n - j) tokens) = drop (n - v) tokens) as Hiff.
  { intros Hv. split.
    - intros Hq. apply list_eq. intros r. rewrite lookup_drop. destruct (decide (r < v)%nat).
      + rewrite lookup_take_lt, lookup_drop by done. specialize (Hq (v - S r)%nat ltac:(lia)).
        rewrite !Hrev in Hq by lia. replace (n - v + r)%nat with (n - S (v - S r))%nat by lia.
        rewrite Hq. f_equal; lia.
      + rewrite lookup_take_ge by lia. symmetry. apply lookup_ge_None_2. unfold n. lia.
    - intros He q Hq. rewrite !Hrev by lia. apply (f_equal (λ l, l !! (v - S q)%nat)) in He.
      rewrite lookup_take_lt, !lookup_drop in He by lia.
      replace (n - S q)%nat with (n - v + (v - S q))%nat by lia. rewrite <- He. f_equal; lia. }
  unfold border. split; [intros [Hv Hq]|intros (Hv & _ & Hq)]; specialize (Hiff Hv);
    (split; [done|]); [split; [lia|]|]; by apply Hiff.
Qed.
End reference.

(** The drafter returns exactly what a brute-force search finds: the tokens,
    at most [k] and not beyond the model's length, that follow the earliest
    occurrence of the longest suffix of the context whose length is in
    [[min_ngram, max_ngram]] and that occurs before; nothing if there is none.
    It reads its tables only inside their bounds and terminates. *)
Lemma ngram_draft_is_brute_force tokens min_ngram max_ngram max_model_len k :
  1 ≤ min_ngram ≤ max_ngram → max_ngram < 2 ^ 31 →
  _find_longest_matched_ngram_and_propose_tokens tokens min_ngram max_ngram max_model_len k =
    Ok (draft_after tokens min_ngram max_ngram max_model_len k).
Proof.
  intros Hmin Hmax. unfold _find_longest_matched_ngram_and_propose_tokens, draft_after.
  set (n := length tokens). set (lo := Z.to_nat min_ngram). set (hi := Z.to_nat max_ngram).
  change (len tokens) with (Z.of_nat n).
  case_decide as Hshort.
  { rewrite longest_match_none; [done|]. intros v s Hv. unfold occurs.
    rewrite bool_decide_eq_false_2; [done|]. fold n. lia. }
  case_decide as Hk.
  { destruct (longest_match tokens lo hi) as [[v s]|]; [|done].
    by replace (Z.to_nat _) with 0%nat by lia. }
  set (t := reverse tokens). assert (Hlen : length t = n) by apply length_reverse.
  destruct (scan_loop_ok t hi ltac:(lia) ltac:(lia) (2 * length t) 1 0 0 0 (replicate hi 0))
    as (p & best & pos & table & Hrun & [Hb1 Hb2 Hb3 Hb4]); [lia|lia|apply scan_start; lia|].
  unfold state in Hrun. replace (Z.of_nat hi) with max_ngram in Hrun by lia.
  change (Z.of_nat 1) with 1 in Hrun. change (Z.of_nat 0) with 0 in Hrun. rewrite Hrun. clear Hrun.
  cbn [rbind longest_ngram position]. rewrite Hlen in *.
  case_decide as Hbest.
  - rewrite longest_match_none; [done|]. intros v s Hv. destruct (occurs tokens v s) eqn:Ho; [|done].
    pose proof Ho as [Hs%bool_decide_eq_true _]%andb_true_iff. fold n in Hs.
    assert (border t (n - s) v) as Hbd.
    { apply border_occurs; fold n; [lia|]. split; [lia|]. by replace (n - (n - s))%nat with s by lia. }
    specialize (Hb3 (n - s)%nat v ltac:(lia) ltac:(lia) Hbd). lia.
  - destruct (Hb2 ltac:(lia)) as [Hbd Hpos].
    apply border_occurs in Hbd as [Hlt Ho]; [|fold n; lia]. fold n in Ho.
    rewrite (longest_match_some tokens lo hi best (n - S pos)); [|lia|done| |].
    + set (a := (n - S pos + best)%nat).
      replace (Z.of_nat n - 1 - Z.of_nat pos + Z.of_nat best) with (Z.of_nat a) by lia.
      rewrite py_slice_nonneg by lia. rewrite skipn_firstn_comm, Nat2Z.id. f_equal.
      set (d := drop a tokens). assert (Hd : length d = (n - a)%nat) by apply length_drop.
      destruct (decide (Z.min k (max_model_len - Z.of_nat n) ≤ Z.of_nat (length d))) as [Hle|Hgt].
      * f_equal. lia.
      * rewrite !take_ge by lia. done.
    + intros s' Hs'. destruct (occurs tokens best s') eqn:Ho'; [|done].
      assert (border t (n - s') best) as Hbd'.
      { apply border_occurs; fold n; [lia|]. split; [lia|]. by replace (n - (n - s'))%nat with s' by lia. }
      specialize (Hb4 (n - s')%nat ltac:(lia) ltac:(lia) Hbd'). lia.
    + intros v' s' Hv'. destruct (occurs tokens v' s') eqn:Ho'; [|done].
      pose proof Ho' as [Hs%bool_decide_eq_true _]%andb_true_iff. fold n in Hs.
      assert (border t (n - s') v') as Hbd'.
      { apply border_occurs; fold n; [lia|]. split; [lia|]. by replace (n - (n - s'))%nat with s' by lia. }
      specialize (Hb3 (n - s')%nat v' ltac:(lia) ltac:(lia) Hbd'). lia.
Qed.

(** ** The batch *)

Lemma draft_length tokens min_ngram max_ngram max_model_len k :
  len (draft_after tokens min_ngram max_ngram max_model_len k) ≤ Z.max 0 k.
Proof.
  unfold draft_after. destruct (longest_match _ _ _) as [[v s]|]; [|unfold len; simpl; lia].
  unfold len. rewrite length_take. lia.
Qed.

Section batch.
Context (nums : list Z) (rows : list (list Z)).
Implicit Types (p : NgramProposer) (i : nat).

(** The buffers have room for [m] requests with [k] tokens each. *)
Record proposer_ok (m : nat) p : Prop := {
  po_ngram : 1 ≤ min_n p ≤ max_n p ∧ max_n p < 2 ^ 31;
  po_k : 0 ≤ ng_k p < 2 ^ 31;
  po_draft : (m ≤ length (valid_ngram_draft p))%nat;
  po_rows : ∀ row, row ∈ valid_ngram_draft p → len row = ng_k p;
  po_nums : (m ≤ length (valid_ngram_num_drafts p))%nat
}.

(** The configuration stays, the buffers change. *)
Definition same_config p p' : Prop :=
  min_n p' = min_n p ∧ max_n p' = max_n p ∧ ng_k p' = ng_k p ∧ ng_max_model_len p' = ng_max_model_len p.

(** What is proposed for a context. *)
Definition draft_of p (n : Z) (row : list Z) : list Z :=
  draft_after (py_upto row n) (min_n p) (max_n p) (ng_max_model_len p) (ng_k p).

(** The buffers hold the proposal for request [i]. *)
Definition drafted p i : Prop := ∃ n row drow,
  nums !! i = Some n ∧ rows !! i = Some row ∧ valid_ngram_draft p !! i = Some drow ∧
  valid_ngram_num_drafts p !! i = Some (len (draft_of p n row)) ∧
  py_upto drow (len (draft_of p n row)) = draft_of p n row.

Lemma py_upto_app {A} (a b : list A) : py_upto (a ++ b) (len a) = a.
Proof. rewrite py_upto_nonneg by apply len_nonneg. unfold len. by rewrite Nat2Z.id, take_app_length. Qed.

Lemma assign_prefix_ok row values : len values ≤ len row →
  assign_prefix row values = Ok (values ++ py_from row (len values)).
Proof.
  intros Hl. unfold assign_prefix. rewrite decide_True; [done|]. pose proof (len_nonneg values).
  rewrite py_upto_nonneg by done. unfold len in *. rewrite length_take. lia.
Qed.

(** The body of the parallel loop touches the row of its request only. *)
Lemma propose_one_ok m p i n row :
  proposer_ok m p → (i < m)%nat → nums !! i = Some n → rows !! i = Some row →
  ∃ p', propose_one nums rows (Z.of_nat i) p = (Ok tt, p') ∧ proposer_ok m p' ∧ same_config p p' ∧
    drafted p' i ∧
    (∀ j, j ≠ i → valid_ngram_draft p' !! j = valid_ngram_draft p !! j ∧
                  valid_ngram_num_drafts p' !! j = valid_ngram_num_drafts p !! j).
Proof.
  intros [Hg Hk Hd Hr Hn] Hi Hnum Hrow. unfold propose_one, bind at 1, get.
  rewrite (array_get_nat nums i n Hnum), (array_get_nat rows i row Hrow), !bind_of_res.
  rewrite ngram_draft_is_brute_force by lia. rewrite bind_of_res.
  fold (draft_of p n row). set (out := draft_of p n row).
  assert (Hout : 0 ≤ len out ≤ ng_k p).
  { split; [apply len_nonneg|]. pose proof (draft_length (py_upto row n) (min_n p) (max_n p)
      (ng_max_model_len p) (ng_k p)). unfold out, draft_of. lia. }
  rewrite int32_small by lia.
  destruct (lookup_lt_is_Some_2 (valid_ngram_num_drafts p) i ltac:(lia)) as [x Hx].
  destruct (lookup_lt_is_Some_2 (valid_ngram_draft p) i ltac:(lia)) as [drow Hdrow].
  rewrite (array_set_nat _ i _ x Hx), bind_of_res.
  set (nums' := <[i := len out]> (valid_ngram_num_drafts p)).
  assert (Hlen : length nums' = length (valid_ngram_num_drafts p)) by apply length_insert.
  assert (Hnums' : nums' !! i = Some (len out)) by (apply list_lookup_insert_eq; lia).
  assert (Hoth : ∀ j, j ≠ i → nums' !! j = valid_ngram_num_drafts p !! j)
    by (intros j Hj; by apply list_lookup_insert_ne).
  unfold bind at 1, modify. case_decide as Hnil.
  - exists (set_num_drafts nums' p). split; [done|]. split; [split; simpl; [done|done|done|done|lia]|].
    split; [done|]. split; [|intros j Hj; split; [done|by apply Hoth]].
    exists n, row, drow. change (draft_of (set_num_drafts nums' p) n row) with out.
    do 4 (split; [done|]). rewrite Hnil. by rewrite py_upto_nonneg.
  - pose proof (Hr drow (list_elem_of_lookup_2 _ _ _ Hdrow)) as Hdl.
    rewrite (array_get_nat _ i drow Hdrow), bind_of_res, assign_prefix_ok by lia. rewrite bind_of_res.
    rewrite (array_set_nat _ i _ drow Hdrow), bind_of_res.
    set (drow' := out ++ py_from drow (len out)). set (p' := set_draft _ _).
    exists p'. split; [done|]. split.
    { split; simpl; [done|done|by rewrite length_insert| |lia].
      intros r [j Hj]%list_elem_of_lookup. apply list_lookup_insert_Some in Hj as [(_ & <- & _)|[_ Hj]].
      - unfold drow'. rewrite py_from_nonneg by lia. unfold len in *. rewrite length_app, length_drop. lia.
      - apply Hr. by eapply list_elem_of_lookup_2. }
    split; [done|]. split; [|intros j Hj; split; [by apply list_lookup_insert_ne|by apply Hoth]].
    exists n, row, drow'. change (draft_of p' n row) with out.
    split; [done|]. split; [done|]. split; [apply list_lookup_insert_eq; lia|]. split; [done|].
    apply py_upto_app.
Qed.

Lemma drafted_kept p p' i : same_config p p' →
  valid_ngram_draft p' !! i = valid_ngram_draft p !! i →
  valid_ngram_num_drafts p' !! i = valid_ngram_num_drafts p !! i → drafted p i → drafted p' i.
Proof.
  intros (E1 & E2 & E3 & E4) H1 H2 (n & row & drow & ?). exists n, row, drow.
  unfold draft_of in *. by rewrite E1, E2, E3, E4, H1, H2.
Qed.

Lemma same_config_trans p1 p2 p3 : same_config p1 p2 → same_config p2 p3 → same_config p1 p3.
Proof. intros (?&?&?&?) (?&?&?&?). unfold same_config. split_and!; congruence. Qed.

(** All iterations, in any order. *)
Lemma propose_all_ok m (order : list nat) : ∀ p (done : list nat),
  proposer_ok m p → (∀ i, i ∈ order → (i < m)%nat ∧ is_Some (nums !! i) ∧ is_Some (rows !! i)) →
  (∀ i, i ∈ done → drafted p i) →
  ∃ p', for_ (map Z.of_nat order) (propose_one nums rows) p = (Ok tt, p') ∧ proposer_ok m p' ∧
    same_config p p' ∧ ∀ i, i ∈ done ++ order → drafted p' i.
Proof.
  induction order as [|i order IH]; intros p don Hp Ho Hd; simpl.
  { exists p. rewrite app_nil_r. done. }
  destruct (Ho i ltac:(by left)) as (Hi & [n Hn] & [row Hrow]).
  destruct (propose_one_ok m p i n row Hp Hi Hn Hrow) as (p1 & Hrun & Hp1 & Hc1 & Hd1 & Hoth).
  rewrite (bind_ok _ _ _ _ _ Hrun).
  destruct (IH p1 (don ++ [i]) Hp1) as (p2 & Hrun2 & Hp2 & Hc2 & Hd2).
  - intros j Hj. apply Ho. by right.
  - intros j Hj. destruct (decide (j = i)) as [->|Hne]; [done|].
    apply elem_of_app in Hj as [Hj|Hj%list_elem_of_singleton]; [|done].
    destruct (Hoth j Hne). by eapply drafted_kept; [exact Hc1| | |apply Hd].
  - exists p2. split; [done|]. split; [done|]. split; [by eapply same_config_trans|].
    by rewrite <- app_assoc in Hd2.
Qed.

(** The valid requests. *)
Definition is_valid p (sampled : list (list Z)) (i k : nat) : Prop :=
  ∃ x n, sampled !! k = Some x ∧ x ≠ [] ∧ nums !! (i + k)%nat = Some n ∧ n < ng_max_model_len p.

Lemma valid_requests_ok p sampled : ∀ i,
  (i + length sampled ≤ length nums)%nat →
  ∃ valid, valid_requests (Z.of_nat i) sampled nums p = (Ok (map Z.of_nat valid), p) ∧
    ∀ j, j ∈ valid ↔ ∃ k, j = (i + k)%nat ∧ is_valid p sampled i k.
Proof.
  induction sampled as [|x sampled IH]; intros i Hi; simpl in *.
  { exists []. split; [done|]. intros j. split; [by intros ?%not_elem_of_nil|].
    by intros (k & _ & ? & ? & ? & _). }
  destruct (IH (S i) ltac:(lia)) as (valid & Hrun & Hin).
  replace (Z.of_nat (S i)) with (Z.of_nat i + 1) in Hrun by lia.
  assert (Hnext : ∀ j, j ∈ valid ↔ ∃ k, j = (i + S k)%nat ∧ is_valid p (x :: sampled) i (S k)).
  { intros j. rewrite Hin. unfold is_valid. simpl.
    split; intros (k & -> & y & n & ? & ? & Hn & ?); exists k; (split; [lia|]); exists y, n;
      (do 2 (split; [done|])); (split; [|done]); rewrite <- Hn; f_equal; lia. }
  assert (Hsplit : ∀ j, (∃ k, j = (i + k)%nat ∧ is_valid p (x :: sampled) i k) ↔
    (j = i ∧ is_valid p (x :: sampled) i 0) ∨ j ∈ valid).
  { intros j. rewrite Hnext. split.
    - intros ([|k] & -> & Hv); [left; split; [lia|done]|right; eauto].
    - intros [[-> Hv]|(k & -> & Hv)]; [exists 0%nat; split; [lia|done]|eauto]. }
  destruct x as [|a x].
  { exists valid. split; [done|]. intros j. rewrite Hsplit. split; [by right|].
    intros [[_ (? & ? & [= <-] & ? & _)]|?]; done. }
  destruct (lookup_lt_is_Some_2 nums i ltac:(lia)) as [n Hn].
  unfold bind at 1, get. rewrite (array_get_nat nums i n Hn), bind_of_res.
  rewrite (bind_ok _ _ _ _ _ Hrun). case_decide as Hmax.
  - exists valid. split; [done|]. intros j. rewrite Hsplit. split; [by right|].
    intros [[_ (? & n' & _ & _ & Hn' & ?)]|?]; [|done]. rewrite Nat.add_0_r, Hn in Hn'.
    injection Hn' as <-. lia.
  - exists (i :: valid). split; [done|]. intros j. rewrite Hsplit, elem_of_cons.
    assert (is_valid p ((a :: x) :: sampled) i 0).
    { exists (a :: x), n. rewrite Nat.add_0_r. do 3 (split; [done|]). lia. }
    tauto.
Qed.

(** What is proposed for a request. *)
Definition proposal p (request : list Z * (Z * list Z)) : list Z :=
  let '(sampled, (n, row)) := request in
  if decide (sampled = [] ∨ ng_max_model_len p ≤ n) then [] else draft_of p n row.
End batch.

Definition reorders (prange : list Z → list Z) : Prop := ∀ l, prange l ≡ₚ l.

Lemma perm_map_of_nat l l' : l ≡ₚ map Z.of_nat l' → ∃ l0, l = map Z.of_nat l0 ∧ l0 ≡ₚ l'.
Proof.
  intros Hp. apply Permutation_map_inv in Hp as (l0 & -> & Hp). by exists l0.
Qed.

(** The drafts are read back for the valid requests. *)
Section read_back.
Context (sampled : list (list Z)) (nums : list Z) (rows : list (list Z)) (p p' : NgramProposer).
Context (valid : list nat).
Context (Hvalid : ∀ j, j ∈ valid ↔ ∃ k, j = (0 + k)%nat ∧ is_valid nums p sampled 0 k).
Context (Hconfig : same_config p p') (Hdrafted : ∀ i, i ∈ valid → drafted nums rows p' i).

Lemma valid_request i x n : sampled !! i = Some x → nums !! i = Some n →
  i ∈ valid ↔ ¬ (x = [] ∨ ng_max_model_len p ≤ n).
Proof.
  intros Hx Hn. rewrite Hvalid. split.
  - intros (k & -> & y & n' & Hy & Hne & Hn' & Hmax). simpl in *.
    rewrite Hx in Hy. injection Hy as <-. rewrite Hn in Hn'. injection Hn' as <-. intros [|]; [done|lia].
  - intros Hno. exists i. split; [done|].
    exists x, n. split; [done|]. split; [by intros ->; apply Hno; left|].
    split; [done|]. destruct (decide (ng_max_model_len p ≤ n)); [|lia]. exfalso. apply Hno. by right.
Qed.

Lemma in_map_of_nat i : Z.of_nat i ∈ map Z.of_nat valid ↔ i ∈ valid.
Proof.
  rewrite (list_elem_of_fmap Z.of_nat valid). split; [|eauto].
  intros (j & Hj & Hin). by assert (i = j) as -> by lia.
Qed.

Lemma read_draft_ok i x n row :
  sampled !! i = Some x → nums !! i = Some n → rows !! i = Some row →
  (if decide (Z.of_nat i ∈ map Z.of_nat valid) then
     let* n := of_res (array_get (valid_ngram_num_drafts p') (Z.of_nat i)) in
     if decide (0 < n) then
       let* row := of_res (array_get (valid_ngram_draft p') (Z.of_nat i)) in ret (py_upto row n)
     else ret []
   else ret []) p' = (Ok (proposal p (x, (n, row))), p').
Proof.
  intros Hx Hn Hr. pose proof (valid_request i x n Hx Hn) as Hiff. unfold proposal.
  destruct (decide (Z.of_nat i ∈ map Z.of_nat valid)) as [Hv|Hv]; rewrite in_map_of_nat in Hv.
  - rewrite (decide_False (P := x = [] ∨ ng_max_model_len p ≤ n)) by by apply Hiff.
    destruct (Hdrafted i Hv) as (n' & row' & drow & Hn' & Hr' & Hdr & Hnd & Hup).
    rewrite Hn in Hn'. injection Hn' as <-. rewrite Hr in Hr'. injection Hr' as <-.
    assert (draft_of p' n row = draft_of p n row) as Hdo.
    { unfold draft_of. by destruct Hconfig as (-> & -> & -> & ->). }
    rewrite Hdo in *. rewrite (array_get_nat _ i _ Hnd), bind_of_res.
    pose proof (len_nonneg (draft_of p n row)). case_decide as Hpos.
    + rewrite (array_get_nat _ i _ Hdr), bind_of_res. by rewrite Hup.
    + unfold ret. do 2 f_equal. symmetry. apply nil_length_inv. unfold len in *. lia.
  - rewrite decide_True; [done|]. destruct (decide (x = [] ∨ ng_max_model_len p ≤ n)); [done|].
    exfalso. by apply Hv, Hiff.
Qed.

Lemma mapM_range {S A} (body : Z → M S A) (k : nat) (l : list A) s :
  length l = k → (∀ i y, l !! i = Some y → body (Z.of_nat i) s = (Ok y, s)) →
  mapM body (py_range 0 (Z.of_nat k)) s = (Ok l, s).
Proof.
  intros Hl Hb. destruct (mapM_read (λ z y, l !! Z.to_nat z = Some y) body (py_range 0 (Z.of_nat k)) s)
    as (ys & Hys & Hf).
  { intros z Hz. unfold py_range in Hz. apply list_elem_of_fmap in Hz as (i & -> & Hi%elem_of_seq).
    rewrite Z.add_0_l, Nat2Z.id. destruct (lookup_lt_is_Some_2 l i) as [y Hy]; [lia|].
    exists y. split; [by apply Hb|done]. }
  rewrite Hys. do 2 f_equal. apply list_eq_same_length with k; [done| |].
  - apply Forall2_length in Hf. unfold py_range in Hf. rewrite length_map, length_seq in Hf. lia.
  - intros i x y Hi Hx Hy. destruct (Forall2_lookup_r _ _ _ _ _ Hf Hx) as (z & Hz & Hzx).
    unfold py_range in Hz. rewrite list_lookup_fmap in Hz. apply fmap_Some in Hz as (j & Hj%lookup_seq & ->).
    rewrite Z.add_0_l, Nat2Z.id in Hzx. destruct Hj as [-> _]. simpl in Hzx. congruence.
Qed.
End read_back.

(** C29. The n-gram drafter proposes for every request of a batch exactly what a
    brute-force search finds: the tokens, at most [k] and not beyond the
    model's length, that follow the earliest occurrence of the longest suffix
    of the context whose length is in [[min_n, max_n]] and that occurs before;
    nothing for a request that sampled nothing or is full.  This holds for any
    order in which the threads finish and for any contents of the buffers; the
    scan terminates and reads all arrays inside their bounds. *)
Theorem propose_is_brute_force prange p sampled nums rows
    (m := length sampled) :
  reorders prange → proposer_ok m p → length nums = m → length rows = m →
  ∃ p', propose prange sampled nums rows p = (Ok (map (proposal p) (zip sampled (zip nums rows))), p') ∧
    proposer_ok m p' ∧ same_config p p'.
Proof.
  intros Hpr Hp Hnums Hrows. unfold propose.
  destruct (valid_requests_ok nums p sampled 0 ltac:(lia)) as (valid & Hrun & Hvalid).
  change (Z.of_nat 0) with 0 in Hrun. rewrite (bind_ok _ _ _ _ _ Hrun). unfold batch_propose.
  assert (∃ p', (if decide (map Z.of_nat valid = []) then ret tt
      else batch_propose_numba prange (map Z.of_nat valid) nums rows) p = (Ok tt, p') ∧
    proposer_ok m p' ∧ same_config p p' ∧ ∀ i, i ∈ valid → drafted nums rows p' i)
    as (p' & Hb & Hp' & Hc & Hd).
  { case_decide as Hnil.
    - apply fmap_nil_inv in Hnil as ->. exists p. split_and!; [done|done|done|].
      by intros i ?%not_elem_of_nil.
    - destruct (perm_map_of_nat _ valid (Hpr (map Z.of_nat valid))) as (order & Horder & Hperm).
      unfold batch_propose_numba. rewrite Horder.
      destruct (propose_all_ok nums rows m order p [] Hp) as (p' & Hall & Hp' & Hc & Hd).
      + intros i Hi. rewrite Hperm in Hi. apply Hvalid in Hi as (k & -> & x & _ & Hx%lookup_lt_Some & _).
        fold m in Hx. split; [done|]. split; apply lookup_lt_is_Some_2; simpl; lia.
      + by intros i ?%not_elem_of_nil.
      + exists p'. do 3 (split; [done|]). intros i Hi. apply Hd. simpl. by rewrite Hperm. }
  rewrite (bind_ok _ _ _ _ _ Hb). unfold bind at 1, get. exists p'. split; [|done].
  apply mapM_range; [rewrite length_map, !length_zip_with; lia|].
  intros i y Hy. rewrite list_lookup_fmap in Hy. apply fmap_Some in Hy as ([x [n row]] & Hz & ->).
  apply lookup_zip_with_Some in Hz as (x' & nr & [= <- <-] & Hx & Hz).
  apply lookup_zip_with_Some in Hz as (n' & row' & [= <- <-] & Hn & Hr).
  by apply (read_draft_ok sampled nums rows p p' valid).
Qed.

(** ** Witness *)

Lemma propose_is_brute_force_witness :
  ∃ p', propose (@reverse Z) [[3]; []; [3]] [6; 3; 4] [[1; 2; 3; 4; 2; 3]; [1; 1; 1]; [3; 3; 5; 3]]
      (mkNgramProposer 1 3 3 8 [[9; 9; 9]; [9; 9; 9]; [9; 9; 9]] [2; 2; 2])
    = (Ok [[4; 2]; []; [3; 5; 3]], p').
Proof.
  destruct (propose_is_brute_force (@reverse Z)
    (mkNgramProposer 1 3 3 8 [[9; 9; 9]; [9; 9; 9]; [9; 9; 9]] [2; 2; 2])
    [[3]; []; [3]] [6; 3; 4] [[1; 2; 3; 4; 2; 3]; [1; 1; 1]; [3; 3; 5; 3]]) as (p' & Hrun & _).
  - intros l. apply reverse_Permutation.
  - split; simpl; try lia. intros row Hrow. repeat (apply elem_of_cons in Hrow as [->|Hrow]; [done|]).
    by apply not_elem_of_nil in Hrow.
  - reflexivity.
  - reflexivity.
  - exists p'. rewrite Hrun. do 2 f_equal; vm_compute; reflexivity.
Defined.
