(* ===== verification/Detokenizer.v ===== *)
(** Incremental detokenization and stop strings (vllm/v1/engine/detokenizer.py,
    vllm/tokenizers/detokenizer_utils.py).

    A text is the list of its code points.  Tokenizers and their decode streams
    are code of other libraries: parameters. *)

From S2P Require Import Prelude.
From S2P Require Import Request.

Abbreviation text := (list Z).
(** "\ufffd", the replacement character. *)
Definition replacement_char : Z := 65533.

(** ** Stop strings *)

(** The first index from [i] on, where [l] starts, at which [sub] occurs; -1 if
    there is none. *)
Fixpoint find_from (sub l : text) (i : Z) : Z :=
  if decide (take (length sub) l = sub) then i
  else match l with [] => -1 | _ :: l => find_from sub l (i + 1) end.
(** [s.find(sub, start)] *)
Definition py_find (s sub : text) (start : Z) : Z :=
  let start := if decide (start < 0) then Z.max 0 (start + len s) else start in
  if decide (len s < start) then -1 else find_from sub (drop (Z.to_nat start) s) start.

(** The loop over the stop strings. *)
Fixpoint stop_loop (output_text : text) (new_char_count : Z) (include_in_output : bool) (stop : list text)
    : option (text * Z) :=
  match stop with
  | [] => None
  | stop_str :: stop =>
      let stop_string_len := len stop_str in
      let stop_index := py_find output_text stop_str (1 - new_char_count - stop_string_len) in
      if decide (stop_index = -1) then stop_loop output_text new_char_count include_in_output stop
      else if include_in_output then
        let stop_index := stop_index + stop_string_len in
        if decide (len output_text ≤ stop_index) then Some (stop_str, -1) else Some (stop_str, stop_index)
      else Some (stop_str, stop_index)
  end.
Definition check_stop_strings (output_text : text) (new_char_count : Z) (stop : list text) (include_in_output : bool)
    : option (text * Z) :=
  if decide (new_char_count = 0 ∨ stop = []) then None else stop_loop output_text new_char_count include_in_output stop.

(** ** Detokenizers *)

(** [params.stop] *)
Inductive StopParam := NoStop | OneStop (s : text) | ManyStops (l : list text).
(** The sampling parameters that detokenizers read. *)
Record DetokenizerParams := mkDetokParams {
  dp_stop : StopParam;
  dp_min_tokens : Z;
  dp_include_stop_str_in_output : bool;
  dp_skip_special_tokens : bool;
  dp_spaces_between_special_tokens : bool
}.

(** How a subclass decodes: its state, and [decode_next], which sees the token
    ids so far. *)
Class Decoder (D : Type) := decode_next : list Z → Z → M D text.

(** [dt_prompt_len] is 0 but for the slow detokenizer, whose token ids start with
    the prompt. *)
Record BaseIncrementalDetokenizer (D : Type) := mkDetok {
  dt_token_ids : list Z;
  dt_prompt_len : Z;
  dt_stop : list text;
  dt_min_tokens : Z;
  include_stop_str_in_output : bool;
  stop_buffer_length : Z;
  _last_output_text_offset : Z;
  output_text : text;
  decoder : D
}.
Arguments mkDetok {D}.
Arguments dt_token_ids {D} _.
Arguments dt_prompt_len {D} _.
Arguments dt_stop {D} _.
Arguments dt_min_tokens {D} _.
Arguments include_stop_str_in_output {D} _.
Arguments stop_buffer_length {D} _.
Arguments _last_output_text_offset {D} _.
Arguments output_text {D} _.
Arguments decoder {D} _.

Section base.
Context {D : Type} `{Decoder D}.
Abbreviation detok := (BaseIncrementalDetokenizer D).

Definition stop_list (p : StopParam) : list text :=
  match p with NoStop => [] | OneStop s => [s] | ManyStops l => l end.
Definition Base_init (p : DetokenizerParams) (d : D) : detok :=
  let stop := stop_list (dp_stop p) in
  mkDetok [] 0 stop (dp_min_tokens p) (dp_include_stop_str_in_output p)
    (if bool_decide (stop ≠ []) && negb (dp_include_stop_str_in_output p)
     then foldr Z.max 0 (map len stop) - 1 else 0)
    0 [] d.

Definition detok_eta (b : detok) : detok :=
  mkDetok (dt_token_ids b) (dt_prompt_len b) (dt_stop b) (dt_min_tokens b) (include_stop_str_in_output b)
    (stop_buffer_length b) (_last_output_text_offset b) (output_text b) (decoder b).
Definition set_token_ids (v : list Z) : detok → detok := ltac:(record_set detok_eta (@dt_token_ids D) v).
Definition set_last_offset (v : Z) : detok → detok := ltac:(record_set detok_eta (@_last_output_text_offset D) v).
Definition set_output_text (v : text) : detok → detok := ltac:(record_set detok_eta (@output_text D) v).
Definition set_decoder (v : D) : detok → detok := ltac:(record_set detok_eta (@decoder D) v).

Definition output_token_ids (b : detok) : list Z :=
  if decide (dt_prompt_len b = 0) then dt_token_ids b else py_from (dt_token_ids b) (dt_prompt_len b).

(** The loop of [update] over the new tokens; the result is
    [stop_check_offset]. *)
Fixpoint decode_loop (new_token_ids : list Z) (stop_check_offset : Z) : M detok Z :=
  match new_token_ids with
  | [] => ret stop_check_offset
  | id :: new_token_ids =>
      modify (λ b, set_token_ids (dt_token_ids b ++ [id]) b) ;;;
      let* b := get in
      let* t := zoom decoder set_decoder (decode_next (dt_token_ids b) id) in
      modify (λ b, set_output_text (output_text b ++ t) b) ;;;
      let* b := get in
      let offset :=
        if bool_decide (dt_min_tokens b ≠ 0) && bool_decide (len (output_token_ids b) ≤ dt_min_tokens b)
        then len (output_text b) else stop_check_offset in
      decode_loop new_token_ids offset
  end.

Definition update (new_token_ids : list Z) (stop_terminated : bool) : M detok (option text) :=
  match last new_token_ids with
  | None => ret None
  | Some last_id =>
      let* b := get in
      let skip := stop_terminated && negb (include_stop_str_in_output b) in
      let new_token_ids := if skip then removelast new_token_ids else new_token_ids in
      let* stop_check_offset := decode_loop new_token_ids (len (output_text b)) in
      (if skip then modify (λ b, set_token_ids (dt_token_ids b ++ [last_id]) b) else ret tt) ;;;
      let* b := get in
      if bool_decide (dt_stop b ≠ []) && bool_decide (dt_min_tokens b < len (output_token_ids b)) then
        match check_stop_strings (output_text b) (len (output_text b) - stop_check_offset) (dt_stop b)
                (include_stop_str_in_output b) with
        | None => ret None
        | Some (stop_string, truncate_to) =>
            (if decide (truncate_to ≠ -1) then modify (λ b, set_output_text (py_upto (output_text b) truncate_to) b) else ret tt) ;;;
            ret (Some stop_string)
        end
      else ret None
  end.

Definition get_next_output_text (finished delta : bool) : M detok text :=
  let* b := get in
  let buffer_length := if finished then 0 else stop_buffer_length b in
  if negb delta then
    ret (if decide (buffer_length ≠ 0) then py_upto (output_text b) (- buffer_length) else output_text b)
  else
    let length := len (output_text b) - buffer_length in
    let last_offset := _last_output_text_offset b in
    if decide (last_offset < length) then
      modify (set_last_offset length) ;;;
      ret (py_slice (output_text b) last_offset length)
    else ret [].
End base.

(** ** The fast detokenizer *)

(** What a step of a decode stream may do. *)
Inductive StepResult := Decoded (token : option text) | StepOverflow | InvalidPrefix | StepFailed.

Record FastDecoder (St : Type) := mkFast {
  stream : St;
  fd_skip_special_tokens : bool;
  fd_spaces_between_special_tokens : bool;
  last_special : bool
}.
Arguments mkFast {St}.
Arguments stream {St} _.
Arguments fd_skip_special_tokens {St} _.
Arguments fd_spaces_between_special_tokens {St} _.
Arguments last_special {St} _.

Section fast.
(** [new_stream skip_special_tokens] is a new stream, [stream_step] the step of a stream by a token,
    [tok_decode] is [Tokenizer.decode], and [added_token_ids] are the added
    tokens with their contents. *)
Context {St : Type} (new_stream : bool → St) (stream_step : Z → St → StepResult * St) (tok_decode : list Z → text).
Context (added_token_ids : gmap Z text).
Abbreviation fast := (FastDecoder St).

Definition set_stream (v : St) (d : fast) : fast := mkFast v (fd_skip_special_tokens d) (fd_spaces_between_special_tokens d) (last_special d).
Definition set_last_special (v : bool) (d : fast) : fast := mkFast (stream d) (fd_skip_special_tokens d) (fd_spaces_between_special_tokens d) v.
Definition stream_next (next_token_id : Z) : M fast StepResult := λ d,
  let '(r, st) := stream_step next_token_id (stream d) in (Ok r, set_stream st d).

Definition _protected_step (next_token_id : Z) : M fast (option text) :=
  let* r := stream_next next_token_id in
  match r with
  | Decoded token => ret token
  | StepOverflow => ret None
  | StepFailed => raise Exception_
  | InvalidPrefix =>
      modify (λ d, set_stream (new_stream (fd_skip_special_tokens d)) d) ;;;
      let* r := stream_next next_token_id in
      match r with
      | Decoded token => ret token
      | StepOverflow => raise OverflowError
      | InvalidPrefix | StepFailed => raise Exception_
      end
  end.

#[export] Instance fast_decode_next : Decoder fast := λ _ next_token_id,
  let* token := _protected_step next_token_id in
  let* d := get in
  let* token :=
    if fd_spaces_between_special_tokens d then ret token
    else
      let special_token := added_token_ids !! next_token_id in
      modify (set_last_special (bool_decide (is_Some special_token))) ;;;
      ret (match special_token with Some t => if last_special d then Some t else token | None => token end) in
  ret (default [] token).

(** The suffix of the prompt that primes the stream. *)
Definition safe_suffix (prompt_token_ids : list Z) : list Z :=
  if decide (4 < len prompt_token_ids) then
    match list_find (λ i, replacement_char ∉ tok_decode (py_from prompt_token_ids (- i)))
            (py_range 4 (Z.min (len prompt_token_ids + 1) 24)) with
    | Some (_, i) => py_from prompt_token_ids (- i)
    | None => prompt_token_ids
    end
  else prompt_token_ids.

Definition Fast_init (p : DetokenizerParams) (prompt_token_ids : option (list Z)) : res (BaseIncrementalDetokenizer fast) :=
  let spaces := dp_skip_special_tokens p || dp_spaces_between_special_tokens p in
  let d0 := mkFast (new_stream (dp_skip_special_tokens p)) (dp_skip_special_tokens p) (spaces || bool_decide (added_token_ids = ∅)) false in
  match for_ (safe_suffix (default [] prompt_token_ids)) (λ tid, let* _ := _protected_step tid in ret tt) d0 with
  | (Raise e, _) => Raise e
  | (Ok _, d) => Ok (Base_init p d)
  end.
End fast.

(** ** The slow detokenizer *)

(** A tokenizer of Hugging Face; a token may be [None] out of the vocabulary. *)
Record SlowTokenizer := mkTokenizer {
  vocab_len : Z;
  convert_ids_to_tokens : list Z → bool → list (option text);
  convert_tokens_to_string : list (option text) → text;
  is_fast : bool;
  get_added_vocab : list text;
  all_special_tokens : list text
}.

Record SlowDecoder := mkSlow {
  sd_tokens : list (option text);
  sd_prefix_offset : Z;
  sd_read_offset : option Z;           (** [None]: there is no such attribute *)
  sd_skip_special_tokens : bool;
  sd_spaces_between_special_tokens : bool
}.

Section slow.
Context (tk : SlowTokenizer).

Definition _replace_none_with_empty (tokens : list (option text)) : list (option text) :=
  map (λ t, match t with None => Some [] | Some _ => t end) tokens.

(** The loop over the tokens. *)
Fixpoint sub_texts_loop (all_special_tokens : list text) (tokens current : list (option text)) : list text :=
  match tokens with
  | [] => match current with [] => [] | _ => [convert_tokens_to_string tk current] end
  | token :: tokens =>
      if bool_decide (token ∈ map Some all_special_tokens) then sub_texts_loop all_special_tokens tokens current
      else match token with
      | Some t =>
          if bool_decide (t ∈ get_added_vocab tk) then
            match current with [] => [] | _ => [convert_tokens_to_string tk current] end ++
            t :: sub_texts_loop all_special_tokens tokens []
          else sub_texts_loop all_special_tokens tokens (current ++ [token])
      | None => sub_texts_loop all_special_tokens tokens (current ++ [token])
      end
  end.
Definition join (sep : text) (l : list text) : text :=
  match l with [] => [] | t :: l => t ++ concat (map (λ u, sep ++ u) l) end.
Definition _convert_tokens_to_string_with_added_encoders (output_tokens : list (option text))
    (skip_special_tokens spaces_between_special_tokens : bool) : text :=
  let specials := if skip_special_tokens then all_special_tokens tk else [] in
  join (if spaces_between_special_tokens then [32] else []) (sub_texts_loop specials output_tokens []).

Definition INITIAL_INCREMENTAL_DETOKENIZATION_OFFSET : Z := 5.
Definition convert_prompt_ids_to_tokens (prompt_ids : list Z) (skip_special_tokens : bool)
    : list (option text) * Z * Z :=
  let new_tokens := convert_ids_to_tokens tk
    (py_from prompt_ids (- INITIAL_INCREMENTAL_DETOKENIZATION_OFFSET - 2)) skip_special_tokens in
  let read_offset := len new_tokens in
  let prefix_offset := Z.max (read_offset - INITIAL_INCREMENTAL_DETOKENIZATION_OFFSET) 0 in
  (_replace_none_with_empty new_tokens, prefix_offset, read_offset).

(** [new_text.endswith("\ufffd")] *)
Definition ends_unfinished (t : text) : bool := bool_decide (last t = Some replacement_char).

(** Each id on its own; [decode] is [tokenizer.decode], which may return
    [None]. *)
Definition convert_ids_list_to_tokens (decode : list Z → option text) (token_ids : list Z) : list text :=
  map (λ token_id, default [] (decode [token_id])) token_ids.

Definition detokenize_incrementally (all_input_ids : list Z) (prev_tokens : option (list (option text)))
    (prefix_offset read_offset : Z) (skip_special_tokens spaces_between_special_tokens : bool)
    : res (list (option text) * text * Z * Z) :=
  match last all_input_ids with
  | None => Raise IndexError
  | Some new_token_id =>
      let is_first_iter := bool_decide (prev_tokens = None) in
      let '(prev, prefix_offset, read_offset) :=
        match prev_tokens with
        | Some prev => (prev, prefix_offset, read_offset)
        | None => convert_prompt_ids_to_tokens (removelast all_input_ids) skip_special_tokens
        end in
      let new_tokens :=
        if decide (0 ≤ new_token_id < vocab_len tk) then convert_ids_to_tokens tk [new_token_id] skip_special_tokens
        else [Some []] in
      let output_tokens := prev ++ new_tokens in
      let new_tokens := if is_first_iter then output_tokens else new_tokens in
      let to_text l :=
        if is_fast tk || bool_decide (get_added_vocab tk = []) then convert_tokens_to_string tk l
        else _convert_tokens_to_string_with_added_encoders l skip_special_tokens spaces_between_special_tokens in
      let prefix_text := to_text (py_slice output_tokens prefix_offset read_offset) in
      let new_text := to_text (py_from output_tokens prefix_offset) in
      if decide (len new_text ≤ len prefix_text) then Ok (new_tokens, [], prefix_offset, read_offset)
      else if ends_unfinished new_text then Ok (new_tokens, [], prefix_offset, read_offset)
      else Ok (new_tokens, py_from new_text (len prefix_text), read_offset, len output_tokens)
  end.

#[export] Instance slow_decode_next : Decoder SlowDecoder := λ token_ids _,
  let* d := get in
  let* read_offset := of_option AttributeError (sd_read_offset d) in
  let* r := of_res (detokenize_incrementally token_ids (Some (sd_tokens d)) (sd_prefix_offset d) read_offset
    (sd_skip_special_tokens d) (sd_spaces_between_special_tokens d)) in
  let '(new_tokens, decoded_text, prefix_offset, read_offset) := r in
  modify (λ d, mkSlow (sd_tokens d ++ new_tokens) prefix_offset (Some read_offset)
    (sd_skip_special_tokens d) (sd_spaces_between_special_tokens d)) ;;;
  ret decoded_text.

Definition Slow_init (p : DetokenizerParams) (prompt_token_ids : option (list Z)) (prompt_embeds : option (list bytes))
    : res (BaseIncrementalDetokenizer SlowDecoder) :=
  letr prompt_len := length_from_prompt_token_ids_or_embeds prompt_token_ids prompt_embeds in
  let '(tokens, prefix_offset, read_offset) :=
    match prompt_token_ids with
    | Some ids =>
        let '(tokens, prefix_offset, read_offset) := convert_prompt_ids_to_tokens ids (dp_skip_special_tokens p) in
        (tokens, prefix_offset, Some read_offset)
    | None => (replicate (Z.to_nat prompt_len) (Some []), 0, None)
    end in
  let d := mkSlow tokens prefix_offset read_offset (dp_skip_special_tokens p) (dp_spaces_between_special_tokens p) in
  let b := Base_init p d in
  let ids := match prompt_token_ids with
             | Some ((_ :: _) as ids) => ids
             | _ => replicate (Z.to_nat prompt_len) 0
             end in
  Ok (mkDetok ids prompt_len (dt_stop b) (dt_min_tokens b) (include_stop_str_in_output b) (stop_buffer_length b)
        (_last_output_text_offset b) (output_text b) d).
End slow.

(** ** Requests *)

(** Without a tokenizer there is no text. *)
Inductive IncrementalDetokenizer (D : Type) :=
  | PlainDetok (token_ids : list Z)
  | TextDetok (b : BaseIncrementalDetokenizer D).
Arguments PlainDetok {D}.
Arguments TextDetok {D}.

Section incremental.
Context {D : Type} `{Decoder D}.

Definition inc_output_token_ids (d : IncrementalDetokenizer D) : list Z :=
  match d with PlainDetok ids => ids | TextDetok b => output_token_ids b end.
Definition inc_update (new_token_ids : list Z) (stop_terminated : bool) : M (IncrementalDetokenizer D) (option text) :=
  λ d, match d with
  | PlainDetok ids => (Ok None, PlainDetok (ids ++ new_token_ids))
  | TextDetok b => let '(r, b) := update new_token_ids stop_terminated b in (r, TextDetok b)
  end.
Definition inc_get_next_output_text (finished delta : bool) : M (IncrementalDetokenizer D) text :=
  λ d, match d with
  | PlainDetok _ => (Ok [], d)
  | TextDetok b => let '(r, b) := get_next_output_text finished delta b in (r, TextDetok b)
  end.
End incremental.

Section factory.
Context {St : Type} (new_stream : bool → St) (stream_step : Z → St → StepResult * St) (tok_decode : list Z → text).
Context (added_token_ids : gmap Z text) (tk : SlowTokenizer).
Abbreviation either := (FastDecoder St + SlowDecoder)%type.

#[export] Instance either_decode_next : Decoder either := λ token_ids next_token_id d,
  match d with
  | inl f => let '(r, f) := fast_decode_next new_stream stream_step added_token_ids token_ids next_token_id f in (r, inl f)
  | inr s => let '(r, s) := slow_decode_next tk token_ids next_token_id s in (r, inr s)
  end.
(** A detokenizer with another decoder. *)
Definition with_decoder {D E} (e : E) (b : BaseIncrementalDetokenizer D) : BaseIncrementalDetokenizer E :=
  mkDetok (dt_token_ids b) (dt_prompt_len b) (dt_stop b) (dt_min_tokens b) (include_stop_str_in_output b)
    (stop_buffer_length b) (_last_output_text_offset b) (output_text b) e.

(** [fast_tokenizer] is [None] without a tokenizer, else whether the fast class is
    used. *)
Definition from_new_request (fast_tokenizer : option bool) (p : DetokenizerParams) (prompt_token_ids : option (list Z)) (prompt_embeds : option (list bytes))
    : res (IncrementalDetokenizer either) :=
  match fast_tokenizer with
  | None => Ok (PlainDetok [])
  | Some true =>
      letr b := Fast_init new_stream stream_step tok_decode added_token_ids p prompt_token_ids in
      Ok (TextDetok (with_decoder (inl (decoder b)) b))
  | Some false =>
      letr b := Slow_init tk p prompt_token_ids prompt_embeds in
      Ok (TextDetok (with_decoder (inr (decoder b)) b))
  end.
End factory.
