(* ===== verification/DetokenizerSpec.v ===== *)
(** Stop strings are found when they end, and streamed text is never taken
    back. *)

From S2P Require Import Prelude.
From S2P Require Import Request.
From S2P Require Import Detokenizer.

(** ** Searching *)

Definition occurs (sub s : text) (i : Z) : Prop := 0 ≤ i ≤ len s ∧ take (length sub) (drop (Z.to_nat i) s) = sub.

#[export] Instance occurs_dec sub s i : Decision (occurs sub s i).
Proof. unfold occurs. apply _. Defined.

(** [r] is the first index from [a] on where [sub] occurs, or -1. *)
Definition first_occurrence (sub s : text) (a r : Z) : Prop :=
  (r = -1 ∧ ∀ i, a ≤ i → ¬ occurs sub s i) ∨ (a ≤ r ∧ occurs sub s r ∧ ∀ i, a ≤ i < r → ¬ occurs sub s i).

Lemma find_from_ok sub l : ∀ s i, 0 ≤ i ≤ len s → drop (Z.to_nat i) s = l → first_occurrence sub s i (find_from sub l i).
Proof.
  induction l as [|c l IH]; intros s i Hi Hl; cbn [find_from].
  - assert (Hlen : i = len s). { apply (f_equal length) in Hl. rewrite length_drop in Hl. unfold len in *. simpl in Hl. lia. }
    split_if as Ht.
    + right. split; [lia|]. split; [|lia]. split; [lia|]. by rewrite Hl.
    + left. split; [done|]. intros k Hk [Hb Hs]. replace k with i in Hs by lia. by rewrite Hl in Hs.
  - split_if as Ht.
    + right. split; [lia|]. split; [|lia]. split; [lia|]. by rewrite Hl.
    + assert (Hlt : i < len s). { apply (f_equal length) in Hl. rewrite length_drop in Hl. unfold len in *. simpl in Hl. lia. }
      assert (Hi' : ¬ occurs sub s i) by (intros [_ Hs]; by rewrite Hl in Hs).
      destruct (IH s (i + 1)) as [[-> Hno]|(H1 & H2 & H3)]; [lia| | |].
      { replace (Z.to_nat (i + 1)) with (Z.to_nat i + 1)%nat by lia. by rewrite <- drop_drop, Hl. }
      * left. split; [done|]. intros k Hk. destruct (decide (k = i)) as [->|]; [done|]. apply Hno. lia.
      * right. split; [lia|]. split; [done|]. intros k Hk. destruct (decide (k = i)) as [->|]; [done|]. apply H3. lia.
Qed.

Lemma py_find_ok s sub start :
  first_occurrence sub s (if decide (start < 0) then Z.max 0 (start + len s) else start) (py_find s sub start).
Proof.
  unfold py_find. set (a := if decide (start < 0) then _ else _). assert (Ha : 0 ≤ a) by (unfold a; split_if as H0; lia).
  split_if as Hlen; [|by apply find_from_ok; [lia|]]. left. split; [done|]. intros i Hi [Hb _]. lia.
Qed.

(** The stop string occurs at [i] and ends after [offset]. *)
Definition ends_after (offset : Z) (s : text) (stop : text) (i : Z) : Prop := occurs stop s i ∧ offset < i + len stop.

#[export] Instance ends_after_dec offset s stop i : Decision (ends_after offset s stop i).
Proof. unfold ends_after. apply _. Defined.

(** A search of all positions of the text for the first such string. *)
Definition search_stop (offset : Z) (s : text) (stop : list text) : option (text * Z) :=
  match filter (λ p, ends_after offset s p.1 p.2) (concat (map (λ st, map (pair st) (py_range 0 (len s + 1))) stop)) with
  | [] => None
  | p :: _ => Some p
  end.

(** Where the text is cut. *)
Definition cut_at (s : text) (include : bool) (p : text * Z) : text * Z :=
  if include then (p.1, if decide (len s ≤ p.2 + len p.1) then -1 else p.2 + len p.1) else p.

Lemma filter_first {A} (P : A → Prop) `{∀ x, Decision (P x)} (l : list A) k x :
  l !! k = Some x → P x → (∀ j y, (j < k)%nat → l !! j = Some y → ¬ P y) → ∃ l', filter P l = x :: l'.
Proof.
  revert k. induction l as [|y l IH]; intros k Hx HP Hno; [done|]. destruct k as [|k].
  - injection Hx as ->. rewrite filter_cons_True by done. by eexists.
  - rewrite filter_cons_False by (by apply (Hno 0%nat); [lia|]). apply (IH k); [done|done|].
    intros j z Hj Hz. apply (Hno (S j)); [lia|done].
Qed.

Lemma positions_lookup (s st : text) k : (k < length s + 1)%nat →
  map (pair st) (py_range 0 (len s + 1)) !! k = Some (st, Z.of_nat k).
Proof.
  intros Hk. rewrite list_lookup_fmap. unfold py_range. rewrite list_lookup_fmap, lookup_seq_lt by (unfold len; lia). done.
Qed.

Lemma positions_filter offset (s st : text) r : (∀ i, i < 0 → ¬ occurs st s i) →
  first_occurrence st s (Z.max 0 (offset + 1 - len st)) r →
  if decide (r = -1) then filter (λ p, ends_after offset s p.1 p.2) (map (pair st) (py_range 0 (len s + 1))) = []
  else ∃ l, filter (λ p, ends_after offset s p.1 p.2) (map (pair st) (py_range 0 (len s + 1))) = (st, r) :: l.
Proof.
  intros Hneg [[-> Hno]|(Hr & Hocc & Hno)].
  - rewrite decide_True by done. apply filter_none. intros p Hp [Ho He]. apply list_elem_of_fmap in Hp as (i & -> & Hi).
    simpl in *. apply (Hno i); [|done]. destruct Ho as [? _]. lia.
  - rewrite decide_False by lia. destruct Hocc as [Hb Hocc]. apply (filter_first _ _ (Z.to_nat r)).
    + rewrite positions_lookup by (unfold len in Hb; lia). do 2 f_equal. lia.
    + split; [done|]. simpl. lia.
    + intros j p Hj Hp [Ho He]. rewrite positions_lookup in Hp by (unfold len in Hb; lia). injection Hp as <-. simpl in *.
      apply (Hno (Z.of_nat j)); [lia|done].
Qed.

Lemma stop_loop_ok s offset include stop : 0 ≤ offset < len s → Forall (λ st, st ≠ []) stop →
  stop_loop s (len s - offset) include stop = cut_at s include <$> search_stop offset s stop.
Proof.
  intros Ho. induction 1 as [|st stop Hst _ IH]; [done|]. cbn [stop_loop]. set (start := 1 - (len s - offset) - len st).
  assert (Hl : 0 < len st) by (destruct st; [done|rewrite len_cons; pose proof (len_nonneg st); lia]).
  pose proof (py_find_ok s st start) as Hf. rewrite decide_True in Hf by lia.
  replace (start + len s) with (offset + 1 - len st) in Hf by lia. set (r := py_find s st start) in *.
  pose proof (positions_filter offset s st r ltac:(intros i Hi [? _]; lia) Hf) as Hp.
  unfold search_stop in *. cbn [map concat]. rewrite filter_app.
  destruct (decide (r = -1)) as [Hr|Hr]; [by rewrite Hp|]. destruct Hp as [l ->]. cbn [app fmap option_fmap option_map].
  unfold cut_at. simpl. destruct include; [|done]. by split_if as Hc.
Qed.

Lemma stop_strings_ok (s : text) (offset : Z) (stop : list text) (include : bool) :
  0 ≤ offset ≤ len s → Forall (λ st, st ≠ []) stop →
  check_stop_strings s (len s - offset) stop include = cut_at s include <$> search_stop offset s stop.
Proof.
  intros Ho Hstop. unfold check_stop_strings. destruct (decide (len s - offset = 0 ∨ stop = [])) as [Hc|Hc].
  - unfold search_stop. rewrite filter_none; [done|]. intros p Hp [[Hb Hs] He].
    destruct Hc as [Hc| ->]; [|by apply elem_of_nil in Hp].
    apply (f_equal length) in Hs. rewrite length_take, length_drop in Hs. unfold len in *. lia.
  - apply stop_loop_ok; [lia|done].
Qed.

(** C13. The search for stop strings is complete although only the end of the text
    is looked at.  When [offset] characters have been checked before,
    [check_stop_strings] returns the same as a search of the whole text, at all
    positions, for stop strings that end after [offset]: the first such string
    of the list at its first such position, with the text to be cut there or
    behind it. *)
Theorem stop_check_is_search (s : text) (offset : Z) (stop : list text) (include : bool)
    (Ho : 0 ≤ offset ≤ len s) (Hstop : Forall (λ st, st ≠ []) stop) :
  check_stop_strings s (len s - offset) stop include = cut_at s include <$> search_stop offset s stop.
Proof. by apply stop_strings_ok. Qed.

(** "abcab" with 2 characters checked, stop strings "b" and "ca". *)
Lemma stop_check_is_search_witness :
  (0 ≤ 2 ≤ len [97; 98; 99; 97; 98] ∧ Forall (λ st : text, st ≠ []) [[98]; [99; 97]]) ∧
  check_stop_strings [97; 98; 99; 97; 98] (len [97; 98; 99; 97; 98] - 2) [[98]; [99; 97]] false = Some ([98], 4).
Proof.
  assert (H : (0 ≤ 2 ≤ len [97; 98; 99; 97; 98]) ∧ Forall (λ st : text, st ≠ []) [[98]; [99; 97]]).
  { split; [unfold len; simpl; lia|repeat constructor; discriminate]. }
  split; [exact H|]. rewrite (stop_check_is_search _ 2 _ false (proj1 H) (proj2 H)). vm_compute. reflexivity.
Defined.

(** ** Updates *)

Section stream.
Context {D : Type} `{Decoder D}.
Abbreviation detok := (BaseIncrementalDetokenizer D).
Implicit Types (b : detok).

(** Updates change these fields only by appending. *)
Record same_settings b b' : Prop := {
  ss_stop : dt_stop b' = dt_stop b;
  ss_min : dt_min_tokens b' = dt_min_tokens b;
  ss_include : include_stop_str_in_output b' = include_stop_str_in_output b;
  ss_buffer : stop_buffer_length b' = stop_buffer_length b;
  ss_prompt : dt_prompt_len b' = dt_prompt_len b;
  ss_offset : _last_output_text_offset b' = _last_output_text_offset b
}.

Lemma same_settings_trans b1 b2 b3 : same_settings b1 b2 → same_settings b2 b3 → same_settings b1 b3.
Proof. intros [] []. split; congruence. Qed.

Lemma decode_loop_ok ids : ∀ offset b r b', decode_loop ids offset b = (Ok r, b') → offset ≤ len (output_text b) →
  same_settings b b' ∧ (∃ t, output_text b' = output_text b ++ t) ∧ offset ≤ r ≤ len (output_text b') ∧
  dt_token_ids b' = dt_token_ids b ++ ids.
Proof.
  induction ids as [|id ids IH]; intros offset b r b' Hrun Hoff.
  { injection Hrun as <- <-. split; [done|]. split; [exists []; by rewrite app_nil_r|]. split; [lia|]. by rewrite app_nil_r. }
  cbn [decode_loop] in Hrun. rewrite bind_modify in Hrun. unfold bind at 1 in Hrun. cbn [get] in Hrun.
  apply bind_ok_inv in Hrun as (t & b1 & Ht & Hrun). unfold zoom in Ht. destruct (decode_next _ _ _) as [[t'|] d]; [|done].
  injection Ht as <- <-. rewrite bind_modify in Hrun. unfold bind at 1 in Hrun. cbn [get] in Hrun.
  match type of Hrun with decode_loop _ _ ?x = _ => set (b2 := x) in * end.
  match type of Hrun with decode_loop _ ?o _ = _ => set (offset' := o) in * end.
  assert (Hs : same_settings b b2) by done. assert (Ht2 : output_text b2 = output_text b ++ t') by done.
  assert (Hoff' : offset ≤ offset' ≤ len (output_text b2)).
  { rewrite Ht2, len_app. pose proof (len_nonneg t'). unfold offset'. rewrite Ht2, len_app. destruct (_ && _); lia. }
  destruct (IH _ _ _ _ Hrun (proj2 Hoff')) as (Hs' & [u Hu] & Hr & Hids).
  split; [by eapply same_settings_trans|]. split; [exists (t' ++ u); by rewrite Hu, Ht2, app_assoc|]. split; [lia|].
  rewrite Hids. cbn. by rewrite <- app_assoc.
Qed.

(** What the detokenizer keeps: the buffer covers all but one character of a stop
    string, and what has been returned as a delta lies before the buffer. *)
Record detok_inv b : Prop := {
  di_stop : Forall (λ st, st ≠ []) (dt_stop b);
  di_buffer : include_stop_str_in_output b = false → Forall (λ st, len st ≤ stop_buffer_length b + 1) (dt_stop b);
  di_buffer_pos : 0 ≤ stop_buffer_length b;
  di_offset : 0 ≤ _last_output_text_offset b ≤ Z.max 0 (len (output_text b) - stop_buffer_length b)
}.

(** What has been returned as deltas. *)
Definition released b : text := take (Z.to_nat (_last_output_text_offset b)) (output_text b).

Lemma search_stop_in offset s stop st i : search_stop offset s stop = Some (st, i) → st ∈ stop ∧ ends_after offset s st i.
Proof.
  unfold search_stop. destruct (filter _ _) as [|p l] eqn:Hf; [done|]. intros [= ->].
  assert (Hin : (st, i) ∈ filter (λ p, ends_after offset s p.1 p.2) (concat (map (λ st, map (pair st) (py_range 0 (len s + 1))) stop))).
  { rewrite Hf. by left. }
  apply list_elem_of_filter in Hin as [He Hin]. split; [|done]. clear -Hin.
  induction stop as [|st' stop IH]; [by apply elem_of_nil in Hin|]. cbn [map concat] in Hin. apply elem_of_app in Hin as [Hin|Hin].
  - apply list_elem_of_fmap in Hin as (k & [= -> ->] & _). by left.
  - right. by apply IH.
Qed.

(** The new text of an update: it grows, and is cut behind the last checked
    character, less the buffer. *)
Lemma detok_update_ok ids term b r b' : detok_inv b → update ids term b = (Ok r, b') →
  same_settings b b' ∧ dt_token_ids b' = dt_token_ids b ++ ids ∧
  (∃ t, output_text b' = take (length (output_text b')) (output_text b ++ t)) ∧
  (if r is Some st then st ∈ dt_stop b ∧ Z.max 0 (len (output_text b) - stop_buffer_length b) ≤ len (output_text b')
   else ∃ t, output_text b' = output_text b ++ t).
Proof.
  intros Hi Hrun. unfold update in Hrun. destruct (last ids) as [last_id|] eqn:Hlast.
  2:{ injection Hrun as <- <-. apply last_None in Hlast as ->. rewrite app_nil_r. split; [done|]. split; [done|].
      split; exists []; rewrite app_nil_r; [by rewrite firstn_all|done]. }
  unfold bind at 1 in Hrun. cbn [get] in Hrun. set (skip := term && _) in *.
  apply bind_ok_inv in Hrun as (offset & b1 & Hloop & Hrun).
  destruct (decode_loop_ok _ _ _ _ _ Hloop (Z.le_refl _)) as (Hs1 & [t Ht] & Hoff & Hids).
  assert (Hskip : ∃ b2, same_settings b b2 ∧ output_text b2 = output_text b1 ∧ dt_token_ids b2 = dt_token_ids b ++ ids ∧
    (if skip then modify (λ b, set_token_ids (dt_token_ids b ++ [last_id]) b) else ret tt) b1 = (Ok tt, b2)).
  { destruct skip.
    - eexists. split; [|split; [|split; [|reflexivity]]]; [by destruct Hs1|done|]. cbn. rewrite Hids, <- app_assoc.
      f_equal. apply last_Some in Hlast as [l ->]. by rewrite removelast_last.
    - exists b1. by rewrite Hids. }
  destruct Hskip as (b2 & Hs2 & Ht2 & Hids2 & Hrun2). rewrite (bind_ok _ _ _ _ _ Hrun2) in Hrun. clear Hrun2.
  unfold bind at 1 in Hrun. cbn [get] in Hrun. rewrite Ht2 in Hrun.
  assert (Hnone : same_settings b b2 ∧ dt_token_ids b2 = dt_token_ids b ++ ids ∧
    (∃ t, output_text b2 = take (length (output_text b2)) (output_text b ++ t)) ∧ ∃ t, output_text b2 = output_text b ++ t).
  { split; [done|]. split; [done|]. rewrite Ht2, Ht. split; exists t; [by rewrite firstn_all|done]. }
  destruct (bool_decide _ && bool_decide _); [|by injection Hrun as <- <-].
  assert (Hstop : Forall (λ st, st ≠ []) (dt_stop b2)) by (rewrite (ss_stop _ _ Hs2); apply Hi).
  rewrite stop_strings_ok in Hrun; [|pose proof (len_nonneg (output_text b)); lia|done].
  destruct (search_stop offset (output_text b1) (dt_stop b2)) as [[st i]|] eqn:Hsearch; [|by injection Hrun as <- <-].
  destruct (search_stop_in _ _ _ _ _ Hsearch) as [Hin [[Hb Hocc] Hend]]. cbn [fmap option_fmap option_map] in Hrun.
  assert (Hmax : len (output_text b) ≤ len (output_text b1)) by (rewrite Ht, len_app; pose proof (len_nonneg t); lia).
  assert (Hcut : ∃ k, 0 ≤ k ≤ len (output_text b1) ∧ Z.max 0 (len (output_text b) - stop_buffer_length b) ≤ k ∧
    r = Some st ∧ same_settings b b' ∧ dt_token_ids b' = dt_token_ids b2 ∧ output_text b' = take (Z.to_nat k) (output_text b1)).
  { pose proof (len_nonneg st) as Hst. pose proof (di_buffer_pos b Hi) as Hbuf. unfold cut_at in Hrun. cbn [fst snd] in Hrun.
    rewrite (ss_include _ _ Hs2) in Hrun. destruct (include_stop_str_in_output b) eqn:Hincl.
    - destruct (decide (len (output_text b1) ≤ i + len st)).
      + injection Hrun as <- <-. exists (len (output_text b1)). split; [lia|]. split; [lia|]. split; [done|]. split; [done|].
        split; [done|]. rewrite Ht2. unfold len. by rewrite Nat2Z.id, firstn_all.
      + rewrite decide_True in Hrun by lia. injection Hrun as <- <-. exists (i + len st). split; [lia|]. split; [lia|]. split; [done|].
        split; [by destruct Hs2|]. split; [done|]. cbn. rewrite Ht2. by rewrite py_upto_nonneg by lia.
    - pose proof (di_buffer b Hi Hincl) as Hbl. rewrite Forall_forall in Hbl. specialize (Hbl st). rewrite <- (ss_stop _ _ Hs2) in Hbl.
      specialize (Hbl Hin). rewrite decide_True in Hrun by lia. injection Hrun as <- <-. exists i. split; [lia|]. split; [lia|].
      split; [done|]. split; [by destruct Hs2|]. split; [done|]. cbn. rewrite Ht2. by rewrite py_upto_nonneg by lia. }
  destruct Hcut as (k & Hk & Hkmin & -> & Hs' & Hids' & Hout). split; [done|]. split; [by rewrite Hids'|].
  assert (Hlen : length (output_text b') = Z.to_nat k) by (rewrite Hout, length_take; unfold len in Hk; lia).
  split; [exists t; rewrite Hlen, <- Ht; done|]. split; [by rewrite <- (ss_stop _ _ Hs2)|]. unfold len in *. lia.
Qed.

Lemma released_kept ids term b r b' : detok_inv b → update ids term b = (Ok r, b') → released b' = released b.
Proof.
  intros Hi Hrun. destruct (detok_update_ok _ _ _ _ _ Hi Hrun) as (Hs & _ & [t Ht] & Hr). unfold released. rewrite (ss_offset _ _ Hs).
  pose proof (di_offset b Hi) as Ho. assert (Hlen : (Z.to_nat (_last_output_text_offset b) ≤ length (output_text b'))%nat).
  { destruct r; [destruct Hr as [_ Hr]; unfold len in *; lia|]. destruct Hr as [u ->]. rewrite length_app. pose proof (di_buffer_pos b Hi). unfold len in *. lia. }
  rewrite Ht, take_take, Nat.min_l by done. rewrite take_app_le; [done|]. pose proof (di_buffer_pos b Hi). unfold len in *. lia.
Qed.

Lemma update_inv ids term b b' : detok_inv b → update ids term b = (Ok None, b') → detok_inv b'.
Proof.
  intros Hi Hrun. destruct (detok_update_ok _ _ _ _ _ Hi Hrun) as ([S1 S2 S3 S4 S5 S6] & _ & _ & [t Ht]). destruct Hi as [I1 I2 I3 I4].
  split; rewrite ?S1, ?S3, ?S4, ?S6; try done. rewrite Ht, len_app. pose proof (len_nonneg t). lia.
Qed.

(** A delta continues what was returned before; the last one completes it. *)
Lemma read_delta finished b : detok_inv b ∨ (finished = true ∧ 0 ≤ _last_output_text_offset b ≤ len (output_text b)) →
  ∃ t b', get_next_output_text finished true b = (Ok t, b') ∧ released b' = released b ++ t ∧
    output_text b' = output_text b ∧ dt_token_ids b' = dt_token_ids b ∧ dt_prompt_len b' = dt_prompt_len b ∧ decoder b' = decoder b ∧
    (if finished : bool then released b' = output_text b' ∧ 0 ≤ _last_output_text_offset b' ≤ len (output_text b') else detok_inv b').
Proof.
  intros Hi. unfold get_next_output_text. unfold bind at 1. cbn [get negb].
  set (length := len (output_text b) - _). set (o := _last_output_text_offset b).
  assert (Ho : 0 ≤ o ≤ len (output_text b)).
  { destruct Hi as [Hi|[_ Hi]]; [|done]. pose proof (di_offset b Hi). pose proof (di_buffer_pos b Hi). pose proof (len_nonneg (output_text b)). lia. }
  assert (Hlen : length ≤ len (output_text b)).
  { unfold length. destruct finished; [lia|]. destruct Hi as [Hi|[? _]]; [|done]. pose proof (di_buffer_pos b Hi). lia. }
  destruct (decide (o < length)) as [Hlt|Hge].
  - rewrite bind_modify. eexists _, _. split; [reflexivity|]. split; [|split; [done|split; [done|split; [done|split; [done|]]]]].
    + unfold released. cbn. fold o. rewrite py_slice_nonneg by lia.
      rewrite <- (take_drop (Z.to_nat o) (take (Z.to_nat length) (output_text b))) at 1. rewrite take_take. by rewrite Nat.min_l by lia.
    + destruct finished.
      * split; [|cbn; unfold length in *; lia]. unfold released. cbn. rewrite firstn_all2; [done|]. unfold length, len in *. lia.
      * destruct Hi as [[I1 I2 I3 I4]|[? _]]; [|done]. split; cbn; try done. unfold length. lia.
  - eexists _, b. split; [reflexivity|]. split; [by rewrite app_nil_r|]. split; [done|]. split; [done|]. split; [done|]. split; [done|].
    destruct finished.
    + split; [|done]. unfold released. fold o. rewrite firstn_all2; [done|]. unfold length, len in *. lia.
    + by destruct Hi as [|[? _]].
Qed.

Lemma base_init_inv p (d : D) : Forall (λ st, st ≠ []) (stop_list (dp_stop p)) → detok_inv (Base_init p d) ∧ released (Base_init p d) = [].
Proof.
  intros Hst. assert (Hmax : ∀ (st : text) (l : list text), st ∈ l → len st ≤ foldr Z.max 0 (map len l)).
  { intros st l. induction l as [|x l IH]; intros Hin; [by apply elem_of_nil in Hin|]. cbn. apply elem_of_cons in Hin as [->|Hin]; [lia|].
    specialize (IH Hin). lia. }
  split; [|by unfold released; cbn]. split; cbn; try done.
  - intros ->. apply Forall_forall. intros st Hin. rewrite bool_decide_eq_true_2 by (intros He; rewrite He in Hin; by apply elem_of_nil in Hin).
    cbn. specialize (Hmax st _ Hin). lia.
  - destruct (bool_decide _ && negb _) eqn:Hb; [|done]. apply andb_true_iff in Hb as [Hb _]. apply bool_decide_eq_true in Hb.
    destruct (stop_list (dp_stop p)) as [|st l]; [done|]. apply Forall_cons in Hst as [Hst _]. specialize (Hmax st (st :: l) ltac:(by left)).
    assert (0 < len st) by (destruct st as [|c st]; [done|rewrite len_cons; pose proof (len_nonneg st); lia]). lia.
  - split; [done|]. unfold len. simpl. lia.
Qed.

(** ** All detokenizers *)

(** Decoding raises nothing in the states [decoder_ok], which it keeps. *)
Class TotalDecoder := {
  decoder_ok : D → Prop;
  decode_total (ids : list Z) (id : Z) (d : D) : decoder_ok d → ids ≠ [] →
    ∃ t d', decode_next ids id d = (Ok t, d') ∧ decoder_ok d'
}.

Lemma decode_loop_total `{!TotalDecoder} ids : ∀ offset b, decoder_ok (decoder b) →
  ∃ r b', decode_loop ids offset b = (Ok r, b') ∧ decoder_ok (decoder b').
Proof.
  induction ids as [|id ids IH]; intros offset b Hb; [by eexists _, _|]. cbn [decode_loop]. rewrite bind_modify.
  unfold bind at 1. cbn [get]. set (b1 := set_token_ids _ _).
  destruct (decode_total (dt_token_ids b1) id (decoder b1) Hb) as (t & d & Ht & Hd); [by destruct (dt_token_ids b)|].
  assert (Hz : zoom decoder set_decoder (decode_next (dt_token_ids b1) id) b1 = (Ok t, set_decoder d b1)) by (unfold zoom; by rewrite Ht).
  rewrite (bind_ok _ _ _ _ _ Hz), bind_modify. unfold bind at 1. cbn [get]. by apply IH.
Qed.
Lemma update_total `{!TotalDecoder} ids term b : decoder_ok (decoder b) →
  ∃ r b', update ids term b = (Ok r, b') ∧ decoder_ok (decoder b').
Proof.
  intros Hb. unfold update. destruct (last ids) as [last_id|]; [|by eexists _, _]. unfold bind at 1. cbn [get]. set (skip := term && _).
  destruct (decode_loop_total (if skip then removelast ids else ids) (len (output_text b)) b Hb) as (o & b1 & Hl & H1).
  rewrite (bind_ok _ _ _ _ _ Hl). set (b2 := if skip then set_token_ids (dt_token_ids b1 ++ [last_id]) b1 else b1).
  assert (H2 : (if skip then modify (λ b, set_token_ids (dt_token_ids b ++ [last_id]) b) else ret tt) b1 = (Ok tt, b2)) by (unfold b2; by destruct skip).
  assert (Hd2 : decoder b2 = decoder b1) by (unfold b2; by destruct skip). rewrite <- Hd2 in H1. clearbody b2.
  rewrite (bind_ok _ _ _ _ _ H2). unfold bind at 1. cbn [get]. destruct (bool_decide _ && bool_decide _); [|by eexists _, _].
  destruct (check_stop_strings _ _ _ _) as [[st k]|]; [|by eexists _, _]. destruct (decide (k ≠ -1)); by eexists _, _.
Qed.

Definition ids_ok b : Prop := 0 ≤ dt_prompt_len b ≤ len (dt_token_ids b).

Lemma output_ids_app b b' ids : ids_ok b → dt_prompt_len b' = dt_prompt_len b → dt_token_ids b' = dt_token_ids b ++ ids →
  output_token_ids b' = output_token_ids b ++ ids ∧ ids_ok b'.
Proof.
  intros Hb Hp Hids. unfold ids_ok, output_token_ids in *. rewrite Hp, Hids, len_app. pose proof (len_nonneg ids). split; [|lia].
  destruct (decide (dt_prompt_len b = 0)); [done|]. rewrite !py_from_nonneg by lia. unfold len in *. by rewrite drop_app_le by lia.
Qed.

Abbreviation idetok := (IncrementalDetokenizer D).
Implicit Types (d : idetok).

Definition dt_text d : text := match d with PlainDetok _ => [] | TextDetok b => output_text b end.
Definition dt_released d : text := match d with PlainDetok _ => [] | TextDetok b => released b end.
(** A detokenizer that goes on, and one that has been told to stop. *)
Definition dt_inv `{!TotalDecoder} d : Prop :=
  match d with PlainDetok _ => True | TextDetok b => detok_inv b ∧ ids_ok b ∧ decoder_ok (decoder b) end.
Definition dt_final d : Prop :=
  match d with PlainDetok _ => True | TextDetok b => 0 ≤ _last_output_text_offset b ≤ len (output_text b) ∧ ids_ok b end.

Lemma dt_inv_final `{!TotalDecoder} d : dt_inv d → dt_final d.
Proof.
  destruct d as [|b]; [done|]. intros (Hi & Hk & _). split; [|done]. pose proof (di_offset b Hi). pose proof (di_buffer_pos b Hi).
  pose proof (len_nonneg (output_text b)). lia.
Qed.

(** An update appends tokens and takes nothing back. *)
Lemma inc_update_ok `{!TotalDecoder} ids term d : dt_inv d → ∃ r d', inc_update ids term d = (Ok r, d') ∧
  inc_output_token_ids d' = inc_output_token_ids d ++ ids ∧ dt_released d' = dt_released d ∧ dt_final d' ∧
  (if r is Some st then st ≠ [] else dt_inv d').
Proof.
  destruct d as [k|b]; [by eexists None, _|]. intros (Hi & Hk & Hd). unfold inc_update.
  destruct (update_total ids term b Hd) as (r & b' & Hrun & Hd'). rewrite Hrun.
  destruct (detok_update_ok _ _ _ _ _ Hi Hrun) as (Hs & Hids & _ & Hr).
  destruct (output_ids_app b b' ids Hk (ss_prompt _ _ Hs) Hids) as [Hout Hk'].
  eexists r, _. split; [done|]. split; [done|]. split; [by eapply released_kept|].
  assert (Hinv : if r is Some st then st ≠ [] else dt_inv (TextDetok b')).
  { destruct r as [st|]; [|split; [by eapply update_inv|by split]]. destruct Hr as [Hin _]. pose proof (di_stop b Hi) as Hst.
    rewrite Forall_forall in Hst. by apply Hst. }
  split; [|done]. destruct r as [st|]; [|by apply dt_inv_final]. split; [|done]. destruct Hr as [_ Hr].
  rewrite (ss_offset _ _ Hs). pose proof (di_offset b Hi). lia.
Qed.

(** A delta continues what was released; the last one completes it. *)
Lemma inc_read_delta `{!TotalDecoder} finished d : dt_inv d ∨ (finished = true ∧ dt_final d) →
  ∃ t d', inc_get_next_output_text finished true d = (Ok t, d') ∧ dt_released d' = dt_released d ++ t ∧ dt_text d' = dt_text d ∧
    inc_output_token_ids d' = inc_output_token_ids d ∧ dt_final d' ∧ (if finished : bool then dt_released d' = dt_text d' else dt_inv d').
Proof.
  destruct d as [k|b]; [by exists [], (PlainDetok k); destruct finished|]. intros Hd. unfold inc_get_next_output_text.
  destruct (read_delta finished b) as (t & b' & Hrun & Hr & Ht & Hids & Hp & Hdec & Hf).
  { destruct Hd as [[Hi _]|[-> [Ho _]]]; [by left|by right]. }
  rewrite Hrun. exists t, (TextDetok b'). split; [done|]. split; [done|]. split; [done|].
  assert (Hout : inc_output_token_ids (TextDetok b') = inc_output_token_ids (TextDetok b)) by (cbn; unfold output_token_ids; by rewrite Hids, Hp).
  assert (Hk : ids_ok b') by (unfold ids_ok; rewrite Hids, Hp; destruct Hd as [(_ & Hk & _)|[_ [_ Hk]]]; exact Hk).
  split; [done|]. destruct finished; [by destruct Hf as [Hf Ho]|]. destruct Hd as [(_ & _ & Hd)|[? _]]; [|done].
  assert (Hi' : dt_inv (TextDetok b')) by (split; [done|split; [done|by rewrite Hdec]]). split; [by apply dt_inv_final|done].
Qed.
(** Reading the whole text changes nothing. *)
Lemma inc_read_all finished d : ∃ t, inc_get_next_output_text finished false d = (Ok t, d).
Proof. destruct d as [k|b]; [by exists []|]. eexists. unfold inc_get_next_output_text, get_next_output_text. unfold bind. cbn [get negb ret]. reflexivity. Qed.
End stream.
Arguments TotalDecoder D {_}.

(** ** The detokenizers of requests *)

(** A new detokenizer has released nothing. *)
Definition fresh_detokenizer {D} `{Decoder D} `{!TotalDecoder D} (d : IncrementalDetokenizer D) : Prop :=
  dt_inv d ∧ dt_released d = [] ∧ inc_output_token_ids d = [].

Section requests.
Context {St : Type} (new_stream : bool → St) (stream_step : Z → St → StepResult * St) (tok_decode : list Z → text).
Context (added_token_ids : gmap Z text) (tk : SlowTokenizer).
(** A stream fails with an invalid prefix at worst, and then a new stream takes
    the token. *)
Context (stream_step_ok : ∀ id st skip,
  match (stream_step id st).1 with
  | StepFailed => False
  | InvalidPrefix => ∃ t, (stream_step id (new_stream skip)).1 = Decoded t
  | _ => True
  end).

Lemma _protected_step_total id d : ∃ t d', _protected_step new_stream stream_step id d = (Ok t, d').
Proof using stream_step_ok.
  unfold _protected_step. unfold bind at 1. unfold stream_next at 1. pose proof (stream_step_ok id (stream d)) as Hok.
  destruct (stream_step id (stream d)) as [r st] eqn:Hr. cbn [fst] in Hok.
  specialize (Hok (fd_skip_special_tokens (set_stream st d))). destruct r; [by eexists _, _|by eexists _, _| |done].
  destruct Hok as [t Ht]. rewrite bind_modify. unfold bind, stream_next. cbn [stream set_stream].
  destruct (stream_step id (new_stream _)) as [r' st']. cbn [fst] in Ht. subst r'. by eexists _, _.
Qed.

#[export] Program Instance either_total : @TotalDecoder _ (either_decode_next new_stream stream_step added_token_ids tk) := {|
  decoder_ok d := match d with inl _ => True | inr s => is_Some (sd_read_offset s) end |}.
Next Obligation.
  intros ids id [f|s] Hok Hne; unfold decode_next, either_decode_next.
  - unfold fast_decode_next. destruct (_protected_step_total id f) as (t & f' & Hf). unfold bind at 1. rewrite Hf.
    unfold bind at 1. cbn [get]. destruct (fd_spaces_between_special_tokens f'); by eexists _, (inl _).
  - destruct Hok as [o Ho]. unfold slow_decode_next. unfold bind at 1. cbn [get]. rewrite Ho. cbn [of_option]. mstep.
    unfold detokenize_incrementally. destruct (last ids) as [l|] eqn:Hl; [|by apply last_None in Hl].
    destruct (decide (len _ ≤ len _)); [|destruct (ends_unfinished _)]; by eexists _, (inr _).
Qed.

Lemma base_init_text {D'} (p : DetokenizerParams) (d : D') : output_text (Base_init p d) = [] ∧ dt_token_ids (Base_init p d) = [] ∧
  dt_prompt_len (Base_init p d) = 0 ∧ decoder (Base_init p d) = d.
Proof. done. Qed.

(** A stop string is not empty ([SamplingParams._verify_args]). *)
Lemma from_new_request_fresh fast p ids embeds d : Forall (λ st, st ≠ []) (stop_list (dp_stop p)) → (fast = Some false → is_Some ids) →
  from_new_request new_stream stream_step tok_decode added_token_ids tk fast p ids embeds = Ok d →
  @fresh_detokenizer _ (either_decode_next new_stream stream_step added_token_ids tk) either_total d.
Proof using stream_step_ok.
  intros Hst Hids. unfold from_new_request. destruct fast as [[]|]; [| |intros [= <-]; done].
  - unfold Fast_init. set (d0 := mkFast _ _ _ _). destruct (for_ _ _ d0) as [[[]|] f]; [|done]. cbn [rbind]. intros [= <-].
    destruct (base_init_inv p (inl f : FastDecoder St + SlowDecoder) Hst) as [[I1 I2 I3 I4] Hr]. split; [|by split].
    split; [by split|]. split; [|done]. split; done.
  - destruct (Hids eq_refl) as [k ->]. unfold Slow_init. intros Hrun. apply rbind_ok_inv in Hrun as (b & Hb & [= <-]).
    apply rbind_ok_inv in Hb as (n & Hn & Hb). destruct (convert_prompt_ids_to_tokens tk k _) as [[tokens prefix] read].
    injection Hb as <-. cbv zeta.
    assert (Hlen : n = len k) by (cbn in Hn; destruct embeds; [destruct (decide _)|]; congruence).
    match goal with |- context [mkDetok ?x _ _ _ _ _ _ _ _] =>
      assert (Hk' : x = k) by (destruct k; [rewrite Hlen; reflexivity|reflexivity]); rewrite Hk' end. clear Hk'.
    destruct (base_init_inv p (inr (mkSlow tokens prefix (Some read) (dp_skip_special_tokens p) (dp_spaces_between_special_tokens p)) : FastDecoder St + SlowDecoder) Hst)
      as [[I1 I2 I3 I4] Hr].
    split; [split; [by split|split; [|by eexists]]|split; [done|]].
    + unfold ids_ok. cbn. pose proof (len_nonneg k). lia.
    + cbn. unfold output_token_ids. cbn. destruct (decide (n = 0)) as [H0|H0].
      * destruct k; [done|]. rewrite len_cons in Hlen. pose proof (len_nonneg k). lia.
      * pose proof (len_nonneg k). rewrite py_from_nonneg by lia. rewrite Hlen. unfold len. by rewrite Nat2Z.id, drop_all.
Qed.
End requests.

(** ** Prompt embeddings *)

(** A slow detokenizer of a request with prompt embeddings has no read offset,
    so the first token raises [AttributeError]: [__init__] sets an attribute
    [read_offest]. *)
Lemma embeds_break_slow_detokenizer tk p embeds b ids id : Slow_init tk p None (Some embeds) = Ok b →
  slow_decode_next tk ids id (decoder b) = (Raise AttributeError, decoder b).
Proof. unfold Slow_init. cbn. by intros [= <-]. Qed.
