(* ===== verification/Logprobs.v ===== *)
(** Log probabilities of requests (vllm/logprobs.py, vllm/v1/engine/logprobs.py).

    There are two containers, a list of dictionaries and parallel flat lists;
    the processor of a request fills one for the sampled tokens and one for the
    prompt.  The values are floats of [PyFloat]; arrays and tensors are lists
    of rows. *)

From S2P Require Import Prelude.
From S2P Require Import OrderedDict.
From S2P Require Import PyFloat.
From S2P Require Import Detokenizer.

Record Logprob := mkLogprob {
  logprob : float;
  rank : option Z;
  decoded_token : option text
}.
(** [dict\[int, Logprob\]] *)
Abbreviation LogprobsOnePosition := (list (Z * Logprob)).

(** The indices of a slice [\[a:b:step\]] of a list of [n] elements
    ([slice.indices]); a bound that is left out is [None]. *)
Definition slice_bound (lower upper n default : Z) (i : option Z) : Z :=
  match i with
  | None => default
  | Some i => if decide (i < 0) then Z.max (i + n) lower else Z.min i upper
  end.
Definition slice_range (a b step : option Z) (n : Z) : res (list Z) :=
  let k := default 1 step in
  if decide (k = 0) then Raise ValueError
  else
    let lower := if decide (k < 0) then -1 else 0 in
    let upper := if decide (k < 0) then n - 1 else n in
    let start := slice_bound lower upper n (if decide (k < 0) then upper else lower) a in
    let stop := slice_bound lower upper n (if decide (k < 0) then lower else upper) b in
    Ok (map (λ i, start + Z.of_nat i * k) (seq 0 (Z.to_nat (- (- (stop - start) / k))))).
(** [l\[a:b:step\]] of a list; all indices are within it. *)
Definition slice_of {A} (a b step : option Z) (l : list A) : res (list A) :=
  letr indices := slice_range a b step (len l) in
  Ok (omap (λ i, l !! Z.to_nat i) indices).

(** The dictionary with these items; a later one replaces an earlier one. *)
Definition dict_of (items : list (Z * Logprob)) : LogprobsOnePosition :=
  foldl (λ d '(k, v), od_set k v d) [] items.

(** ** Flat containers *)

Record FlatLogprobs := mkFlat {
  start_indices : list Z;
  end_indices : list Z;
  fl_token_ids : list Z;
  fl_logprobs : list float;
  fl_ranks : list (option Z);
  fl_decoded_tokens : list (option text)
}.
Definition FlatLogprobs_new : FlatLogprobs := mkFlat [] [] [] [] [] [].

Definition push_item (f : FlatLogprobs) (token_id : Z) (p : Logprob) : FlatLogprobs :=
  mkFlat (start_indices f) (end_indices f) (fl_token_ids f ++ [token_id]) (fl_logprobs f ++ [logprob p])
    (fl_ranks f ++ [rank p]) (fl_decoded_tokens f ++ [decoded_token p]).
Definition push_start (f : FlatLogprobs) : FlatLogprobs :=
  mkFlat (start_indices f ++ [len (fl_logprobs f)]) (end_indices f) (fl_token_ids f) (fl_logprobs f) (fl_ranks f)
    (fl_decoded_tokens f).
Definition push_end (f : FlatLogprobs) : FlatLogprobs :=
  mkFlat (start_indices f) (end_indices f ++ [len (fl_logprobs f)]) (fl_token_ids f) (fl_logprobs f) (fl_ranks f)
    (fl_decoded_tokens f).
Definition push_items (items : list (Z * Logprob)) (f : FlatLogprobs) : FlatLogprobs :=
  foldl (λ f '(token_id, p), push_item f token_id p) f items.

Definition flat_append (logprobs_one_position : option LogprobsOnePosition) (f : FlatLogprobs) : FlatLogprobs :=
  push_end (push_items (default [] logprobs_one_position) (push_start f)).

(** [zip] of token ids, log probabilities, ranks and decoded tokens, as items. *)
Fixpoint zip_items (token_ids : list Z) (logprobs : list float) (ranks : list Z) (decoded_tokens : list (option text))
    : list (Z * Logprob) :=
  match token_ids, logprobs, ranks, decoded_tokens with
  | token_id :: token_ids, logprob :: logprobs, rank :: ranks, token :: decoded_tokens =>
      (token_id, mkLogprob logprob (Some rank) token) :: zip_items token_ids logprobs ranks decoded_tokens
  | _, _, _, _ => []
  end.
Definition append_fast (token_ids : list Z) (logprobs : list float) (ranks : list Z) (decoded_tokens : list (option text))
    (f : FlatLogprobs) : FlatLogprobs :=
  push_end (push_items (zip_items token_ids logprobs ranks decoded_tokens) (push_start f)).

Definition flat_extend (logprobs_multi_positions : list (option LogprobsOnePosition)) (f : FlatLogprobs) : FlatLogprobs :=
  foldl (λ f p, flat_append p f) f logprobs_multi_positions.
Definition flat_len (f : FlatLogprobs) : Z := len (start_indices f).

Definition index_of {A} (l : list A) (i : Z) : res A :=
  match py_index l i with Some a => Ok a | None => Raise IndexError end.
Definition flat_item (f : FlatLogprobs) (i : Z) : res (Z * Logprob) :=
  letr token_id := index_of (fl_token_ids f) i in
  letr p := index_of (fl_logprobs f) i in
  letr r := index_of (fl_ranks f) i in
  letr t := index_of (fl_decoded_tokens f) i in
  Ok (token_id, mkLogprob p r t).
(** [__getitem__] of an index and of a slice *)
Definition flat_getitem (f : FlatLogprobs) (index : Z) : res LogprobsOnePosition :=
  letr start := index_of (start_indices f) index in
  letr stop := index_of (end_indices f) index in
  letr items := collect (map (flat_item f) (py_range start stop)) in
  Ok (dict_of items).
Definition flat_slice (f : FlatLogprobs) (a b step : option Z) : res FlatLogprobs :=
  letr starts := slice_of a b step (start_indices f) in
  letr ends := slice_of a b step (end_indices f) in
  letr min_index := index_of starts 0 in
  letr max_index := index_of ends (-1) in
  Ok (mkFlat (map (λ i, i - min_index) starts) (map (λ i, i - min_index) ends)
        (py_slice (fl_token_ids f) min_index max_index) (py_slice (fl_logprobs f) min_index max_index)
        (py_slice (fl_ranks f) min_index max_index) (py_slice (fl_decoded_tokens f) min_index max_index)).
(** [list(f)] *)
Definition flat_iter (f : FlatLogprobs) : res (list LogprobsOnePosition) :=
  collect (map (flat_getitem f) (py_range 0 (len (start_indices f)))).

(** ** Both containers *)

(** [PromptLogprobs] and [SampleLogprobs] *)
Inductive Logprobs := ListLogprobs (l : list (option LogprobsOnePosition)) | Flat (f : FlatLogprobs).

Definition lp_append (p : option LogprobsOnePosition) (c : Logprobs) : Logprobs :=
  match c with ListLogprobs l => ListLogprobs (l ++ [p]) | Flat f => Flat (flat_append p f) end.
Definition lp_len (c : Logprobs) : Z :=
  match c with ListLogprobs l => len l | Flat f => flat_len f end.
(** The elements, as iteration yields them. *)
Definition lp_iter (c : Logprobs) : res (list (option LogprobsOnePosition)) :=
  match c with
  | ListLogprobs l => Ok l
  | Flat f => letr l := flat_iter f in Ok (map Some l)
  end.
Definition lp_extend (other : Logprobs) (c : Logprobs) : res Logprobs :=
  letr l := lp_iter other in
  Ok (match c with ListLogprobs k => ListLogprobs (k ++ l) | Flat f => Flat (flat_extend l f) end).
Definition lp_getitem (c : Logprobs) (index : Z) : res (option LogprobsOnePosition) :=
  match c with
  | ListLogprobs l => index_of l index
  | Flat f => letr p := flat_getitem f index in Ok (Some p)
  end.
Definition lp_slice (c : Logprobs) (a b step : option Z) : res Logprobs :=
  match c with
  | ListLogprobs l => letr l := slice_of a b step l in Ok (ListLogprobs l)
  | Flat f => letr f := flat_slice f a b step in Ok (Flat f)
  end.

Definition create_sample_logprobs (flat_logprobs : bool) : Logprobs :=
  if flat_logprobs then Flat FlatLogprobs_new else ListLogprobs [].
Definition create_prompt_logprobs (flat_logprobs : bool) : Logprobs :=
  lp_append None (create_sample_logprobs flat_logprobs).

Definition append_logprobs_for_next_position (request_logprobs : Logprobs) (token_ids : list Z) (logprobs : list float)
    (decoded_tokens : list (option text)) (rank : Z) (num_logprobs : Z) : Logprobs :=
  let num_logprobs := if decide (num_logprobs = -1) then len logprobs else num_logprobs in
  let ranks := rank :: py_range 1 (num_logprobs + 1) in
  match request_logprobs with
  | Flat f => Flat (append_fast token_ids logprobs ranks decoded_tokens f)
  | ListLogprobs l => ListLogprobs (l ++ [Some (dict_of (zip_items token_ids logprobs ranks decoded_tokens))])
  end.

(** ** The processor of a request *)

(** What the engine core sends: a row for each position (vllm/v1/outputs.py). *)
Record LogprobsLists := mkLists {
  ll_token_ids : list (list Z);
  ll_logprobs : list (list float);
  ll_ranks : list Z
}.
(** The same as tensors, with the shape of the second. *)
Record LogprobsTensors := mkTensors {
  lt_lists : LogprobsLists;
  lt_shape : Z * Z
}.

Record LogprobsProcessor := mkProcessor {
  lp_has_tokenizer : bool;               (** [tokenizer is not None] *)
  lp_logprobs : option Logprobs;
  lp_prompt_logprobs : option Logprobs;
  cumulative_logprob : option float;
  lp_num_logprobs : option Z;
  lp_num_prompt_logprobs : option Z
}.

(** [decode] is [tokenizer.decode]. *)
Section processor.
Context (decode : list Z → option text).

Definition set_logprobs (v : option Logprobs) (p : LogprobsProcessor) : LogprobsProcessor :=
  mkProcessor (lp_has_tokenizer p) v (lp_prompt_logprobs p) (cumulative_logprob p) (lp_num_logprobs p) (lp_num_prompt_logprobs p).
Definition set_prompt_logprobs (v : option Logprobs) (p : LogprobsProcessor) : LogprobsProcessor :=
  mkProcessor (lp_has_tokenizer p) (lp_logprobs p) v (cumulative_logprob p) (lp_num_logprobs p) (lp_num_prompt_logprobs p).
Definition set_cumulative (v : option float) (p : LogprobsProcessor) : LogprobsProcessor :=
  mkProcessor (lp_has_tokenizer p) (lp_logprobs p) (lp_prompt_logprobs p) v (lp_num_logprobs p) (lp_num_prompt_logprobs p).

Definition LogprobsProcessor_from_new_request (has_tokenizer : bool) (num_logprobs num_prompt_logprobs : option Z)
    (flat_logprobs : bool) : LogprobsProcessor :=
  mkProcessor has_tokenizer
    (match num_logprobs with None => None | Some _ => Some (create_sample_logprobs flat_logprobs) end)
    (match num_prompt_logprobs with None => None | Some _ => Some (create_prompt_logprobs flat_logprobs) end)
    (match num_logprobs with None => None | Some _ => Some (float_of_Z 0) end)
    num_logprobs num_prompt_logprobs.

(** [t.endswith("\ufffd")], for what [decode] returned. *)
Definition endswith_replacement (t : option text) : res bool :=
  match t with Some t => Ok (ends_unfinished t) | None => Raise AttributeError end.

(** The id that the latest position lists first. *)
Definition latest_token_id (c : Logprobs) : res Z :=
  letr p := lp_getitem c (-1) in
  match p with
  | Some ((token_id, _) :: _) => Ok token_id
  | Some [] => Raise StopIteration
  | None => Raise TypeError
  end.

Definition _correct_decoded_token (self : LogprobsProcessor) (idx : Z) (tokens : list Z) : res text :=
  if negb (lp_has_tokenizer self) then Raise AssertionError
  else
    let previous :=
      match lp_logprobs self with
      | Some c =>
          if decide (lp_len c = 0) then Ok []
          else
            letr latest := latest_token_id c in
            let decode_ids := latest :: (if decide (0 < idx) then py_slice tokens (idx - 1) (idx + 1)
                                         else py_slice tokens idx (idx + 1)) in
            letr unfinished := endswith_replacement (decode decode_ids) in
            Ok (if unfinished : bool then [] else default [] (decode decode_ids))
      | None => Ok []
      end in
    if decide (0 < idx) then
      let possible := decode (py_slice tokens (idx - 1) (idx + 1)) in
      letr unfinished := endswith_replacement possible in
      if unfinished : bool then previous else Ok (default [] possible)
    else previous.

Definition _verify_tokens (self : LogprobsProcessor) (decoded_tokens_list : list text) (tokens : list Z) : res (list text) :=
  collect (imap (λ idx t, if ends_unfinished t then _correct_decoded_token self (Z.of_nat idx) tokens else Ok t)
    decoded_tokens_list).

(** The loop over the positions. *)
Fixpoint sample_loop (num_logprobs : Z) (rows : list (Z * list float * list Z)) : M LogprobsProcessor unit :=
  match rows with
  | [] => ret tt
  | (rank, logprobs, token_ids) :: rows =>
      let* self := get in
      let* decoded_tokens :=
        if lp_has_tokenizer self
        then of_res (letr l := _verify_tokens self (convert_ids_list_to_tokens decode token_ids) token_ids in Ok (map Some l))
        else ret (replicate (length token_ids) None) in
      let* sampled_token_logprob := of_res (index_of logprobs 0) in
      modify (λ p, set_cumulative ((λ c, float_add c sampled_token_logprob) <$> cumulative_logprob p) p) ;;;
      modify (λ p, set_logprobs ((λ c, append_logprobs_for_next_position c token_ids logprobs decoded_tokens rank num_logprobs)
                                   <$> lp_logprobs p) p) ;;;
      sample_loop num_logprobs rows
  end.
Definition zip3 {A B C} (l : list A) (k : list B) (m : list C) : list (A * B * C) := zip (zip l k) m.
Definition _update_sample_logprobs (lists : LogprobsLists) : M LogprobsProcessor unit :=
  let* self := get in
  match lp_num_logprobs self, lp_logprobs self, cumulative_logprob self with
  | Some num_logprobs, Some _, Some _ => sample_loop num_logprobs (zip3 (ll_ranks lists) (ll_logprobs lists) (ll_token_ids lists))
  | _, _, _ => raise AssertionError
  end.

(** The loop over the prompt positions. *)
Fixpoint prompt_loop (num_prompt_logprobs num_logprobs : Z) (lists : LogprobsLists) (all_decoded_tokens : option (list text))
    (positions : list Z) : M LogprobsProcessor unit :=
  match positions with
  | [] => ret tt
  | pos :: positions =>
      let offset := pos * num_logprobs in
      let offset_end := offset + num_logprobs in
      let* self := get in
      let* token_ids := of_res (index_of (ll_token_ids lists) pos) in
      let* decoded_tokens :=
        match all_decoded_tokens with
        | None => ret (replicate (length token_ids) None)
        | Some l => of_res (letr l := _verify_tokens self (py_slice l offset offset_end) token_ids in Ok (map Some l))
        end in
      let* logprobs := of_res (index_of (ll_logprobs lists) pos) in
      let* rank := of_res (index_of (ll_ranks lists) pos) in
      modify (λ p, set_prompt_logprobs
        ((λ c, append_logprobs_for_next_position c token_ids logprobs decoded_tokens rank num_prompt_logprobs)
           <$> lp_prompt_logprobs p) p) ;;;
      prompt_loop num_prompt_logprobs num_logprobs lists all_decoded_tokens positions
  end.
Definition _update_prompt_logprobs (tensors : LogprobsTensors) : M LogprobsProcessor unit :=
  let* self := get in
  match lp_num_prompt_logprobs self, lp_prompt_logprobs self with
  | Some num_prompt_logprobs, Some _ =>
      let '(num_prompt_tokens, num_logprobs) := lt_shape tensors in
      let lists := lt_lists tensors in
      let all_decoded_tokens :=
        if lp_has_tokenizer self then Some (convert_ids_list_to_tokens decode (concat (ll_token_ids lists))) else None in
      prompt_loop num_prompt_logprobs num_logprobs lists all_decoded_tokens (py_range 0 num_prompt_tokens)
  | _, _ => raise AssertionError
  end.

Definition pop_prompt_logprobs : M LogprobsProcessor (option Logprobs) :=
  let* self := get in
  let plp := lp_prompt_logprobs self in
  (match plp with
   | Some c => if decide (lp_len c = 0) then ret tt else modify (set_prompt_logprobs (Some (ListLogprobs [])))
   | None => ret tt
   end) ;;;
  ret plp.

Definition lp_update_from_output (new_logprobs : option LogprobsLists) (new_prompt_logprobs_tensors : option LogprobsTensors)
    : M LogprobsProcessor unit :=
  (match new_logprobs with Some l => _update_sample_logprobs l | None => ret tt end) ;;;
  (match new_prompt_logprobs_tensors with Some t => _update_prompt_logprobs t | None => ret tt end).
End processor.
