(* ===== verification/LogprobsSpec.v ===== *)
(** The flat container of log probabilities is a list of dictionaries, as long as
    it is not sliced backwards or to nothing. *)

From S2P Require Import Prelude.
From S2P Require Import OrderedDict.
From S2P Require Import PyFloat.
From S2P Require Import Detokenizer.
From S2P Require Import Logprobs.

(** ** Slices *)

(** The order of the positions that a slice with step [k] visits. *)
Definition visits (k : Z) (i j : nat) : Prop := if decide (k < 0) then (j < i)%nat else (i < j)%nat.

Lemma visits_sorted k (x : Z) n : k ≠ 0 → (∀ i : nat, (i < n)%nat → 0 ≤ x + Z.of_nat i * k) →
  ∀ i j a b, (i < j)%nat → map (λ i, Z.to_nat (x + Z.of_nat i * k)) (seq 0 n) !! i = Some a →
    map (λ i, Z.to_nat (x + Z.of_nat i * k)) (seq 0 n) !! j = Some b → visits k a b.
Proof.
  intros Hk Hx i j a b Hij Ha Hb. rewrite lookup_map in Ha, Hb.
  destruct (seq 0 n !! i) as [i'|] eqn:Hi; [|done]. destruct (seq 0 n !! j) as [j'|] eqn:Hj; [|done].
  apply lookup_seq in Hi as [-> Hi], Hj as [-> Hj]. injection Ha as <-. injection Hb as <-.
  pose proof (Hx i Hi). pose proof (Hx j Hj). unfold visits. destruct (decide (k < 0)); nia.
Qed.

(** A slice with a step visits positions of the list in their order, the last
    first for a negative step. *)
Lemma slice_range_ok a b step n : default 1 step ≠ 0 → ∃ ps : list nat,
  slice_range a b step (Z.of_nat n) = Ok (map Z.of_nat ps) ∧ Forall (λ p, p < n)%nat ps ∧
  ∀ i j x y, (i < j)%nat → ps !! i = Some x → ps !! j = Some y → visits (default 1 step) x y.
Proof.
  intros Hk. unfold slice_range. rewrite decide_False by done. set (k := default 1 step) in *. cbv zeta.
  set (lower := if decide (k < 0) then -1 else 0). set (upper := if decide (k < 0) then Z.of_nat n - 1 else Z.of_nat n).
  assert (Hb : ∀ d i, lower ≤ d ≤ upper → lower ≤ slice_bound lower upper (Z.of_nat n) d i ≤ upper).
  { intros d [i|] Hd; [|done]. unfold slice_bound. subst lower upper. case_decide; case_decide; lia. }
  set (start := slice_bound _ _ _ _ a). set (stop := slice_bound _ _ _ _ b).
  assert (Hstart : lower ≤ start ≤ upper) by (apply Hb; subst lower upper; case_decide; lia).
  assert (Hstop : lower ≤ stop ≤ upper) by (apply Hb; subst lower upper; case_decide; lia).
  clearbody start stop. clear Hb. set (m := Z.to_nat (- (- (stop - start) / k))).
  assert (Hin : ∀ i : nat, (i < m)%nat → 0 ≤ start + Z.of_nat i * k < Z.of_nat n).
  { intros i Hi. assert (Hm : Z.of_nat i < - (- (stop - start) / k)) by lia.
    pose proof (Z.div_mod (- (stop - start)) k Hk) as Hd. subst lower upper. destruct (decide (k < 0)) as [Hneg|Hpos].
    - pose proof (Z.mod_neg_bound (- (stop - start)) k ltac:(lia)). nia.
    - pose proof (Z.mod_pos_bound (- (stop - start)) k ltac:(lia)). nia. }
  exists (map (λ i, Z.to_nat (start + Z.of_nat i * k)) (seq 0 m)). split; [|split].
  - f_equal. rewrite map_map. apply map_ext_in. intros i Hi%in_seq. pose proof (Hin i ltac:(lia)). lia.
  - apply Forall_map, Forall_forall. intros i Hi%elem_of_seq. pose proof (Hin i ltac:(lia)). lia.
  - apply visits_sorted; [done|]. intros i Hi. by apply Hin.
Qed.

(** The elements at the positions [ps]. *)
Definition pick {A} (ps : list nat) (l : list A) : list A := omap (λ p, l !! p) ps.

Lemma slice_of_ok {A} a b step (l : list A) ps : slice_range a b step (len l) = Ok (map Z.of_nat ps) → slice_of a b step l = Ok (pick ps l).
Proof.
  intros Hr. unfold slice_of. rewrite Hr. cbn [rbind]. f_equal. unfold pick. clear Hr. induction ps as [|p ps IH]; [done|]. cbn.
  rewrite Nat2Z.id, IH. done.
Qed.

Lemma pick_lookup {A} ps (l : list A) i : Forall (λ p, p < length l)%nat ps → pick ps l !! i = ps !! i ≫= (λ p, l !! p).
Proof.
  intros Hps. revert i. induction Hps as [|p ps Hp _ IH]; intros i; [done|]. unfold pick. cbn.
  destruct (lookup_lt_is_Some_2 l p Hp) as [x Hx]. rewrite Hx. destruct i as [|i]; [done|]. apply IH.
Qed.
Lemma length_pick {A} ps (l : list A) : Forall (λ p, p < length l)%nat ps → length (pick ps l) = length ps.
Proof.
  induction 1 as [|p ps Hp _ IH]; [done|]. unfold pick. cbn. destruct (lookup_lt_is_Some_2 l p Hp) as [x ->]. cbn. by f_equal.
Qed.
Lemma pick_fmap {A B} (f : A → B) ps (l : list A) : pick ps (map f l) = map f (pick ps l).
Proof. unfold pick. induction ps as [|p ps IH]; [done|]. cbn. rewrite lookup_map. destruct (l !! p); cbn; by rewrite IH. Qed.

(** [l\[0:\]] *)
Lemma slice_all {A} (l : list A) : slice_of (Some 0) None None l = Ok l.
Proof.
  assert (Hr : slice_range (Some 0) None None (len l) = Ok (map Z.of_nat (seq 0 (length l)))).
  { pose proof (len_nonneg l). unfold slice_range, slice_bound. cbn [default from_option].
    rewrite (decide_False (P := 1 = 0)), !(decide_False (P := 1 < 0)), (decide_False (P := 0 < 0)) by lia.
    unfold id. rewrite Z.min_l, Z.sub_0_r, Z.div_1_r, Z.opp_involutive by done. unfold len. rewrite Nat2Z.id.
    f_equal. apply map_ext. intros i. lia. }
  rewrite (slice_of_ok _ _ _ _ _ Hr). f_equal. apply list_eq. intros i.
  rewrite pick_lookup by (apply Forall_forall; intros j Hj%elem_of_seq; lia).
  destruct (decide (i < length l)%nat) as [Hi|Hi].
  - by rewrite lookup_seq_lt.
  - rewrite lookup_seq_ge by lia. by rewrite lookup_ge_None_2 by lia.
Qed.

(** ** Dictionaries *)

Lemma dict_of_app d1 d2 : dict_of (d1 ++ d2) = foldl (λ d '(k, v), od_set k v d) (dict_of d1) d2.
Proof. unfold dict_of. by rewrite foldl_app. Qed.
Lemma dict_of_nodup d : NoDup (od_keys d) → dict_of d = d.
Proof.
  induction d as [|[k v] d IH] using rev_ind; intros Hnd; [done|]. rewrite dict_of_app. cbn.
  rewrite od_keys_app in Hnd. apply NoDup_app in Hnd as (Hd & Hk & _). rewrite IH by done. apply od_set_new.
  intros Hin. apply (Hk k Hin). by left.
Qed.
Lemma dict_of_nil d : dict_of d = [] → d = [].
Proof.
  destruct d as [|[k v] d] using rev_ind; [done|]. rewrite dict_of_app. cbn. intros Hd.
  assert (Hin : k ∈ od_keys (od_set k v (dict_of d))) by (apply od_set_keys; by left). rewrite Hd in Hin. by apply not_elem_of_nil in Hin.
Qed.
Lemma dict_of_zip_nodup d : NoDup (od_keys (dict_of d)).
Proof.
  induction d as [|[k v] d IH] using rev_ind; [constructor|]. rewrite dict_of_app. by apply od_set_nodup.
Qed.

(** ** What a flat container holds *)

(** [items] are the flat lists together; the groups are disjoint segments of
    them, in order.  After a slice with a step there may be items between two
    groups. *)
Record flat_holds (items : list (Z * Logprob)) (gs : list (list (Z * Logprob))) (f : FlatLogprobs) : Prop := {
  fh_ids : fl_token_ids f = map fst items;
  fh_logprobs : fl_logprobs f = map (λ x, logprob x.2) items;
  fh_ranks : fl_ranks f = map (λ x, rank x.2) items;
  fh_decoded : fl_decoded_tokens f = map (λ x, decoded_token x.2) items;
  fh_starts : length (start_indices f) = length gs;
  fh_ends : length (end_indices f) = length gs;
  fh_group i g : gs !! i = Some g → ∃ s, start_indices f !! i = Some (Z.of_nat s) ∧
    end_indices f !! i = Some (Z.of_nat (s + length g)) ∧ (s + length g ≤ length items)%nat ∧ take (length g) (drop s items) = g;
  fh_order i j e s : (i < j)%nat → end_indices f !! i = Some e → start_indices f !! j = Some s → e ≤ s
}.
Definition flat_rep (gs : list (list (Z * Logprob))) (f : FlatLogprobs) : Prop := ∃ items, flat_holds items gs f.

Lemma push_items_eq items : ∀ f, push_items items f =
  mkFlat (start_indices f) (end_indices f) (fl_token_ids f ++ map fst items) (fl_logprobs f ++ map (λ x, logprob x.2) items)
    (fl_ranks f ++ map (λ x, rank x.2) items) (fl_decoded_tokens f ++ map (λ x, decoded_token x.2) items).
Proof.
  induction items as [|[k p] items IH]; intros f; cbn; [rewrite !app_nil_r; by destruct f|].
  change (foldl _ ?x items) with (push_items items x). rewrite IH. unfold push_item. cbn. by rewrite <- !app_assoc.
Qed.

Lemma flat_rep_new : flat_rep [] FlatLogprobs_new.
Proof. by exists []. Qed.

Lemma lookup_snoc {A} (l : list A) x i y : (l ++ [x]) !! i = Some y → l !! i = Some y ∨ i = length l ∧ y = x.
Proof.
  intros Hy. destruct (decide (i < length l)%nat) as [Hi|Hi]; [left; by rewrite lookup_app_l in Hy by done|].
  right. rewrite lookup_app_r in Hy by lia. apply list_lookup_singleton_Some in Hy as [? ->]. split; [lia|done].
Qed.
Lemma lookup_end {A} (l : list A) x n : n = length l → (l ++ [x]) !! n = Some x.
Proof. intros ->. by rewrite lookup_app_r, Nat.sub_diag by lia. Qed.

Lemma flat_rep_push gs g f : flat_rep gs f → flat_rep (gs ++ [g]) (push_end (push_items g (push_start f))).
Proof.
  intros (items & [R1 R2 R3 R4 R5 R6 R7 R8]). exists (items ++ g). rewrite push_items_eq. unfold push_end, push_start. cbn.
  split; cbn; rewrite ?map_app, ?R1, ?R2, ?R3, ?R4, ?length_app, ?R5, ?R6; try done.
  - intros i g' [Hi|[-> ->]]%lookup_snoc.
    + destruct (R7 i g' Hi) as (s & Hs & He & Hle & Hg). exists s. split; [by apply lookup_app_l_Some|]. split; [by apply lookup_app_l_Some|].
      split; [lia|]. rewrite drop_app_le, take_app_le by (rewrite ?length_drop; lia). done.
    + exists (length items). split; [rewrite lookup_end by done; f_equal; unfold len; by rewrite length_map|].
      split; [rewrite lookup_end by done; f_equal; unfold len; rewrite <- map_app, length_map, length_app; lia|]. split; [lia|].
      by rewrite drop_app_length, take_ge.
  - intros i j e s Hij [He|[-> ->]]%lookup_snoc [Hs|[-> ->]]%lookup_snoc.
    + by eapply R8.
    + destruct (lookup_lt_is_Some_2 gs i ltac:(apply lookup_lt_Some in He; lia)) as [g' Hg'].
      destruct (R7 i g' Hg') as (s & _ & He' & Hle & _). assert (e = Z.of_nat (s + length g')) as -> by congruence.
      unfold len. rewrite length_map. lia.
    + apply lookup_lt_Some in Hs. lia.
    + lia.
Qed.

Lemma flat_holds_item items gs f i : flat_holds items gs f → 0 ≤ i →
  flat_item f i = match items !! Z.to_nat i with Some x => Ok x | None => Raise IndexError end.
Proof.
  intros [R1 R2 R3 R4 _ _ _ _] Hi. unfold flat_item, index_of. rewrite R1, R2, R3, R4, !py_index_nonneg, !lookup_map by done.
  by destruct (items !! Z.to_nat i) as [[k [p r t]]|].
Qed.

Lemma collect_snoc {A} (l : list (res A)) k x : collect l = Ok k → collect (l ++ [Ok x]) = Ok (k ++ [x]).
Proof.
  revert k. induction l as [|[a|e] l IH]; intros k Hk; cbn in *; [by injection Hk as <-| |done].
  destruct (collect l) as [k'|]; [|done]. injection Hk as <-. by rewrite (IH k').
Qed.
Lemma collect_range {A B} (f : Z → res B) (g : A → B) (l : list A) (s : nat) :
  (∀ i a, l !! i = Some a → f (Z.of_nat (s + i)) = Ok (g a)) →
  collect (map f (py_range (Z.of_nat s) (Z.of_nat (s + length l)))) = Ok (map g l).
Proof.
  unfold py_range. replace (Z.to_nat (Z.of_nat (s + length l) - Z.of_nat s)) with (length l) by lia.
  induction l as [|a l IH] using rev_ind; intros Hf; [done|]. rewrite length_app, Nat.add_1_r, seq_S, !map_app. cbn [map].
  assert (Ha : f (Z.of_nat s + Z.of_nat (0 + length l)) = Ok (g a)).
  { rewrite <- (Hf (length l) a) by (by apply lookup_end). f_equal. lia. }
  rewrite Ha. apply collect_snoc, IH. intros i b Hb. apply Hf. by apply lookup_app_l_Some.
Qed.

(** An index means the same for all lists of one length. *)
Lemma index_of_pos n i : (∀ B (l : list B), length l = n → index_of l i = Raise IndexError) ∨
  ∃ j, (j < n)%nat ∧ ∀ B (l : list B) b, length l = n → l !! j = Some b → index_of l i = Ok b.
Proof.
  set (j := if decide (i < 0) then i + Z.of_nat n else i). destruct (decide (0 ≤ j < Z.of_nat n)) as [Hj|Hj].
  - right. exists (Z.to_nat j). split; [lia|]. intros B l b Hl Hb. unfold index_of, py_index, len. rewrite Hl. fold j.
    rewrite decide_True by lia. by rewrite Hb.
  - left. intros B l Hl. unfold index_of, py_index, len. rewrite Hl. fold j. destruct (decide (0 ≤ j)); [|done].
    by rewrite lookup_ge_None_2 by lia.
Qed.

Lemma flat_getitem_ok gs f i : flat_rep gs f → flat_getitem f i = match index_of gs i with Ok g => Ok (dict_of g) | Raise e => Raise e end.
Proof.
  intros (items & Hf). pose proof Hf as [_ _ _ _ R5 R6 R7 _]. unfold flat_getitem.
  destruct (index_of_pos (length gs) i) as [Hno|(j & Hj & Hi)].
  - rewrite (Hno _ (start_indices f)) by done. by rewrite (Hno _ gs).
  - destruct (lookup_lt_is_Some_2 gs j Hj) as [g Hg]. rewrite (Hi _ gs g eq_refl Hg). destruct (R7 j g Hg) as (s & Hs & He & Hle & Htake).
    rewrite (Hi _ (start_indices f) _ R5 Hs). cbn [rbind]. rewrite (Hi _ (end_indices f) _ R6 He). cbn [rbind].
    rewrite (collect_range (flat_item f) id g s), map_id; [done|]. intros k x Hx.
    rewrite (flat_holds_item items gs) by (done || lia). rewrite Nat2Z.id.
    rewrite <- Htake in Hx. apply lookup_take_Some in Hx as [Hx _]. rewrite lookup_drop in Hx. by rewrite Hx.
Qed.

Lemma flat_iter_ok gs f : flat_rep gs f → flat_iter f = Ok (map dict_of gs).
Proof.
  intros Hf. unfold flat_iter. assert (Hl : length (start_indices f) = length gs) by (by destruct Hf as (items & [])).
  unfold len. rewrite Hl. apply (collect_range (flat_getitem f) dict_of gs 0).
  intros i g Hg. rewrite (flat_getitem_ok gs f) by done. unfold index_of. rewrite py_index_nonneg, Nat2Z.id by lia. cbn [Nat.add]. by rewrite Hg.
Qed.

Lemma flat_extend_ok l : ∀ gs f, flat_rep gs f → flat_rep (gs ++ map (default []) l) (flat_extend l f).
Proof.
  induction l as [|p l IH]; intros gs f Hf; cbn; [by rewrite app_nil_r|].
  change (foldl _ ?x l) with (flat_extend l x). replace (gs ++ default [] p :: map (default []) l) with ((gs ++ [default [] p]) ++ map (default []) l)
    by (by rewrite <- app_assoc). by apply IH, flat_rep_push.
Qed.

Lemma index_of_last {A} (l : list A) : index_of l (-1) = match last l with None => Raise IndexError | Some a => Ok a end.
Proof.
  unfold index_of, py_index, len. rewrite last_lookup. rewrite (decide_True (P := -1 < 0)) by lia.
  destruct (decide (0 ≤ _)) as [H0|H0].
  - by replace (Z.to_nat (-1 + Z.of_nat (length l))) with (pred (length l)) by lia.
  - destruct l; [done|]. simpl in H0. lia.
Qed.

(** ** Slices of flat containers *)

Lemma py_slice_segment {A} (l : list A) s e : (s ≤ length l)%nat → (e ≤ length l)%nat →
  py_slice l (Z.of_nat s) (Z.of_nat e) = drop s (take e l).
Proof. intros Hs He. rewrite py_slice_nonneg by lia. by rewrite !Nat2Z.id. Qed.

(** The container that a slice makes of the groups at [ps], the first of which
    starts at [s0] and the last of which ends at [en]. *)
Definition sliced (f : FlatLogprobs) (ps : list nat) (s0 en : nat) : FlatLogprobs :=
  mkFlat (map (λ i, i - Z.of_nat s0) (pick ps (start_indices f))) (map (λ i, i - Z.of_nat s0) (pick ps (end_indices f)))
    (drop s0 (take en (fl_token_ids f))) (drop s0 (take en (fl_logprobs f)))
    (drop s0 (take en (fl_ranks f))) (drop s0 (take en (fl_decoded_tokens f))).

Lemma flat_slice_eq items gs f a b step ps : flat_holds items gs f → slice_range a b step (len gs) = Ok (map Z.of_nat ps) →
  Forall (λ p, p < length gs)%nat ps →
  match ps, last ps with
  | p0 :: _, Some pe => ∃ s0 en, flat_slice f a b step = Ok (sliced f ps s0 en) ∧
      start_indices f !! p0 = Some (Z.of_nat s0) ∧ end_indices f !! pe = Some (Z.of_nat en) ∧ (s0 ≤ length items)%nat ∧ (en ≤ length items)%nat
  | _, _ => flat_slice f a b step = Raise IndexError
  end.
Proof.
  intros [R1 R2 R3 R4 R5 R6 R7 R8] Hr Hps. unfold flat_slice.
  rewrite (slice_of_ok _ _ _ (start_indices f) ps) by (unfold len; by rewrite R5).
  rewrite (slice_of_ok _ _ _ (end_indices f) ps) by (unfold len; by rewrite R6). cbn [rbind].
  destruct ps as [|p0 ps']; [done|]. set (ps := p0 :: ps') in *. destruct (last ps) as [pe|] eqn:Hlast; [|by apply last_None in Hlast].
  assert (Hpe : pe ∈ ps) by (apply last_Some in Hlast as (l & ->); set_solver).
  rewrite Forall_forall in Hps. destruct (lookup_lt_is_Some_2 gs p0 (Hps p0 ltac:(left))) as [g0 Hg0].
  destruct (lookup_lt_is_Some_2 gs pe (Hps pe Hpe)) as [ge Hge]. rewrite <- Forall_forall in Hps.
  destruct (R7 p0 g0 Hg0) as (s0 & Hs0 & _ & Hle0 & _). destruct (R7 pe ge Hge) as (se & _ & Hee & Hlee & _).
  assert (Hfirst : index_of (pick ps (start_indices f)) 0 = Ok (Z.of_nat s0)).
  { unfold index_of. rewrite py_index_nonneg, pick_lookup by (by rewrite ?R5). assert (ps !! Z.to_nat 0 = Some p0) as -> by done.
    cbn [mbind option_bind]. by rewrite Hs0. }
  assert (Hend : index_of (pick ps (end_indices f)) (-1) = Ok (Z.of_nat (se + length ge))).
  { rewrite index_of_last, last_lookup, length_pick, pick_lookup by (by rewrite R6). rewrite <- last_lookup, Hlast.
    cbn [mbind option_bind]. by rewrite Hee. }
  exists s0, (se + length ge)%nat. rewrite Hfirst. cbn [rbind]. rewrite Hend. cbn [rbind].
  rewrite !py_slice_segment by (rewrite ?R1, ?R2, ?R3, ?R4, ?length_map; lia). split; [done|]. split; [done|]. split; [done|]. lia.
Qed.

(** Going forward, the groups keep their segments. *)
Lemma sliced_forward items gs f p0 ps' pe s0 en (ps := p0 :: ps') : flat_holds items gs f →
  Forall (λ p, p < length gs)%nat ps → (∀ i j x y, (i < j)%nat → ps !! i = Some x → ps !! j = Some y → (x < y)%nat) →
  last ps = Some pe → start_indices f !! p0 = Some (Z.of_nat s0) → end_indices f !! pe = Some (Z.of_nat en) →
  flat_rep (pick ps gs) (sliced f ps s0 en).
Proof.
  intros [R1 R2 R3 R4 R5 R6 R7 R8] Hps Hord Hlast Hs0 Hen. exists (drop s0 (take en items)).
  assert (Hps' : Forall (λ p, p < length (start_indices f))%nat ps) by (by rewrite R5).
  assert (Hps'' : Forall (λ p, p < length (end_indices f))%nat ps) by (by rewrite R6).
  assert (Hseg : ∀ i p g, ps !! i = Some p → gs !! p = Some g → ∃ s, start_indices f !! p = Some (Z.of_nat s) ∧
    end_indices f !! p = Some (Z.of_nat (s + length g)) ∧ (s0 ≤ s)%nat ∧ (s + length g ≤ en)%nat ∧ (en ≤ length items)%nat ∧
    take (length g) (drop s items) = g).
  { intros i p g Hi Hg. destruct (R7 p g Hg) as (s & Hs & He & Hle & Htake). exists s. split; [done|]. split; [done|].
    split; [|split; [|split; [|done]]].
    - destruct i as [|i]; [simpl in Hi; simplify_eq; lia|]. pose proof (Hord 0%nat (S i) p0 p ltac:(lia) eq_refl Hi) as Hlt.
      destruct (lookup_lt_is_Some_2 gs p0 ltac:(by apply Forall_inv in Hps)) as [g0 Hg0]. destruct (R7 p0 g0 Hg0) as (s' & Hs' & He' & _).
      pose proof (R8 p0 p _ _ Hlt He' Hs). assert (Z.of_nat s' = Z.of_nat s0) by congruence. lia.
    - rewrite last_lookup in Hlast. destruct (decide (i = pred (length ps))) as [->|Hne].
      { assert (p = pe) as -> by congruence. assert (Z.of_nat (s + length g) = Z.of_nat en) by congruence. lia. }
      pose proof (lookup_lt_Some _ _ _ Hi). pose proof (Hord i (pred (length ps)) p pe ltac:(lia) Hi Hlast) as Hlt.
      assert (Hpe : (pe < length gs)%nat) by (by eapply Forall_lookup_1 in Hps).
      destruct (lookup_lt_is_Some_2 gs pe Hpe) as [ge Hge]. destruct (R7 pe ge Hge) as (s' & Hs' & He' & _).
      pose proof (R8 p pe _ _ Hlt He Hs'). assert (Z.of_nat (s' + length ge) = Z.of_nat en) by congruence. lia.
    - assert (Hpe : (pe < length gs)%nat) by (rewrite last_lookup in Hlast; by eapply Forall_lookup_1 in Hps).
      destruct (lookup_lt_is_Some_2 gs pe Hpe) as [ge Hge]. destruct (R7 pe ge Hge) as (s' & _ & He' & Hle' & _).
      assert (Z.of_nat (s' + length ge) = Z.of_nat en) by congruence. lia. }
  split; cbn [sliced fl_token_ids fl_logprobs fl_ranks fl_decoded_tokens start_indices end_indices].
  1-4: rewrite ?R1, ?R2, ?R3, ?R4; by rewrite <- skipn_map, <- firstn_map.
  1-2: by rewrite length_map, !length_pick.
  - intros i g Hi. rewrite pick_lookup in Hi by done. apply bind_Some in Hi as (p & Hp & Hg).
    destruct (Hseg i p g Hp Hg) as (s & Hs & He & H0 & H1 & Hl & Htake). exists (s - s0)%nat.
    rewrite !lookup_map, !pick_lookup, Hp by done. cbn [mbind option_bind]. rewrite Hs, He. cbn.
    split; [f_equal; lia|]. split; [f_equal; lia|]. rewrite length_drop, length_take. split; [lia|].
    rewrite drop_drop. replace (s0 + (s - s0))%nat with s by lia. rewrite <- Htake at 2.
    rewrite skipn_firstn_comm, take_take. f_equal. lia.
  - intros i j e s Hij He Hs. rewrite lookup_map in He, Hs. apply fmap_Some in He as (e' & He & ->). apply fmap_Some in Hs as (s' & Hs & ->).
    rewrite pick_lookup in He, Hs by done. apply bind_Some in He as (p & Hp & He). apply bind_Some in Hs as (q & Hq & Hs).
    pose proof (R8 p q _ _ (Hord i j p q Hij Hp Hq) He Hs). lia.
Qed.

(** Going backwards over two groups or more, the flat lists are empty, and only
    empty groups can be read. *)
Lemma empty_groups_iter f (gs : list (list (Z * Logprob))) :
  fl_token_ids f = [] → length (start_indices f) = length gs →
  (∀ i g, gs !! i = Some g → ∃ s : Z, start_indices f !! i = Some s ∧ end_indices f !! i = Some (s + len g)) →
  flat_iter f = if decide (Forall (λ g, g = []) gs) then Ok (map dict_of gs) else Raise IndexError.
Proof.
  intros Hids Hlen Hse. unfold flat_iter, len. rewrite Hlen.
  assert (Hget : ∀ i g, gs !! i = Some g → flat_getitem f (Z.of_nat i) = if decide (g = []) then Ok [] else Raise IndexError).
  { intros i g Hg. destruct (Hse i g Hg) as (s & Hs & He). unfold flat_getitem, index_of. rewrite !py_index_nonneg, Nat2Z.id, Hs, He by lia. cbn [rbind].
    unfold py_range. replace (s + len g - s) with (len g) by lia. unfold len. rewrite Nat2Z.id. destruct g as [|x g]; [done|].
    rewrite decide_False by done. cbn [length seq map collect]. unfold flat_item at 1. rewrite Hids.
    assert (Hnil : index_of (@nil Z) (s + Z.of_nat 0) = Raise IndexError) by (unfold index_of, py_index; by destruct (decide (0 ≤ _))).
    by rewrite Hnil. }
  rewrite (map_ext_in _ (λ i, if decide (default [] (gs !! Z.to_nat i) = []) then Ok [] else Raise IndexError)).
  2:{ intros i Hi. unfold py_range in Hi. apply in_map_iff in Hi as (k & <- & Hk%in_seq). rewrite Z.add_0_l.
      destruct (lookup_lt_is_Some_2 gs k ltac:(lia)) as [g Hg]. rewrite Nat2Z.id, Hg. by apply Hget. }
  unfold py_range. rewrite Z.sub_0_r, Nat2Z.id, map_map. clear. induction gs as [|g gs IH]; [done|].
  cbn [length seq map collect]. rewrite <- seq_shift, map_map.
  assert (Hext : map (λ i, if decide (default [] ((g :: gs) !! Z.to_nat (0 + Z.of_nat (S i))) = []) then Ok [] else Raise IndexError) (seq 0 (length gs)) =
    map (λ i, if decide (default [] (gs !! Z.to_nat (0 + Z.of_nat i)) = []) then Ok (A := LogprobsOnePosition) [] else Raise IndexError) (seq 0 (length gs))).
  { apply map_ext. intros i. by replace (Z.to_nat (0 + Z.of_nat (S i))) with (S (Z.to_nat (0 + Z.of_nat i))) by lia. }
  rewrite Hext, IH. cbn. destruct g as [|x g].
  - destruct (decide (Forall (λ g, g = []) gs)) as [Hf|Hf].
    + rewrite (decide_True (P := Forall _ ([] :: gs))) by (by constructor). by rewrite decide_True.
    + rewrite (decide_False (P := Forall _ ([] :: gs))) by (by intros [_ ?]%Forall_cons). by rewrite decide_True.
  - rewrite decide_False by done. rewrite decide_False; [done|]. by intros [? _]%Forall_cons.
Qed.

Lemma flat_slice_ok gs f a b step gs' : flat_rep gs f → slice_of a b step gs = Ok gs' →
  if decide (gs' = []) then flat_slice f a b step = Raise IndexError
  else ∃ f', flat_slice f a b step = Ok f' ∧
    if decide (default 1 step < 0 ∧ 1 < len gs')
    then flat_iter f' = if decide (Forall (λ g, g = []) gs') then Ok (map dict_of gs') else Raise IndexError
    else flat_rep gs' f'.
Proof.
  intros (items & Hf) Hs. assert (Hk : default 1 step ≠ 0).
  { intros H0. unfold slice_of, slice_range in Hs. by rewrite decide_True in Hs. }
  destruct (slice_range_ok a b step (length gs) Hk) as (ps & Hr & Hps & Hord).
  rewrite (slice_of_ok _ _ _ gs ps Hr) in Hs. injection Hs as <-. pose proof (flat_slice_eq items gs f a b step ps Hf Hr Hps) as Heq.
  destruct ps as [|p0 ps']; [exact Heq|]. set (ps := p0 :: ps') in *. destruct (last ps) as [pe|] eqn:Hlast; [|by apply last_None in Hlast].
  destruct Heq as (s0 & en & Hrun & Hs0 & Hen & Hle0 & Hle). rewrite decide_False.
  2:{ intros Hnil. apply (f_equal length) in Hnil. by rewrite length_pick in Hnil. }
  exists (sliced f ps s0 en). split; [done|]. unfold len. rewrite length_pick by done. case_decide as Hback.
  - pose proof Hf as [R1 R2 R3 R4 R5 R6 R7 R8]. destruct Hback as [Hneg Hmany].
    assert (Hlt : (pe < p0)%nat).
    { rewrite last_lookup in Hlast. pose proof (Hord 0%nat (pred (length ps)) p0 pe ltac:(lia) eq_refl Hlast) as Hv.
      unfold visits in Hv. by rewrite decide_True in Hv. }
    pose proof (R8 pe p0 _ _ Hlt Hen Hs0). apply empty_groups_iter.
    + cbn. apply drop_ge. rewrite length_take. lia.
    + cbn [sliced start_indices]. by rewrite length_map, !length_pick by (by rewrite ?R5).
    + intros i g Hi. rewrite pick_lookup in Hi by done. apply bind_Some in Hi as (p & Hp & Hg).
      destruct (R7 p g Hg) as (s & Hs & He & _). exists (Z.of_nat s - Z.of_nat s0). cbn [sliced start_indices end_indices].
      rewrite !lookup_map, !pick_lookup, Hp by (by rewrite ?R5, ?R6). cbn [mbind option_bind]. rewrite Hs, He.
      split; [done|]. apply (f_equal Some). unfold len. lia.
  - eapply sliced_forward; try done. intros i j x y Hij Hx Hy. pose proof (Hord i j x y Hij Hx Hy) as Hv. unfold visits in Hv.
    case_decide as Hneg; [|done]. exfalso. apply Hback. split; [done|].
    assert (Hj : (j < length ps)%nat) by (by eapply lookup_lt_Some). lia.
Qed.

(** ** Containers built by the same calls *)

(** How a container comes about. *)
Inductive container :=
  | New
  | Append (c : container) (p : option LogprobsOnePosition)
  | AppendNext (c : container) (token_ids : list Z) (logprobs : list float) (decoded_tokens : list (option text))
      (rank num_logprobs : Z)
  | Extend (c other : container)
  | Slice (c : container) (a b step : option Z).

Fixpoint build (flat : bool) (c : container) : res Logprobs :=
  match c with
  | New => Ok (create_sample_logprobs flat)
  | Append c p => letr c := build flat c in Ok (lp_append p c)
  | AppendNext c ids ps ts rank num => letr c := build flat c in Ok (append_logprobs_for_next_position c ids ps ts rank num)
  | Extend c other => letr c := build flat c in letr other := build flat other in lp_extend other c
  | Slice c a b step => letr c := build flat c in lp_slice c a b step
  end.

(** What is appended is a dictionary, and slices go forward and are not empty. *)
Fixpoint proper (c : container) : Prop :=
  match c with
  | New => True
  | Append c p => proper c ∧ NoDup (od_keys (default [] p))
  | AppendNext c _ _ _ _ _ => proper c
  | Extend c other => proper c ∧ proper other
  | Slice c a b step => proper c ∧ 0 < default 1 step ∧ ∀ l, build false c = Ok (ListLogprobs l) → slice_of a b step l ≠ Ok []
  end.

Lemma slice_of_fmap {A B} (f : A → B) a b step (l : list A) : slice_of a b step (map f l) = (letr k := slice_of a b step l in Ok (map f k)).
Proof.
  destruct (decide (default 1 step = 0)) as [H0|H0].
  { unfold slice_of, slice_range. by rewrite !decide_True. }
  destruct (slice_range_ok a b step (length l) H0) as (ps & Hr & _). rewrite (slice_of_ok _ _ _ l ps Hr). cbn [rbind].
  rewrite (slice_of_ok _ _ _ (map f l) ps) by (unfold len; by rewrite length_map). by rewrite pick_fmap.
Qed.
Lemma slice_of_some {A} a b step (l : list A) : default 1 step ≠ 0 → ∃ k, slice_of a b step l = Ok k.
Proof. intros Hk. destruct (slice_range_ok a b step (length l) Hk) as (ps & Hr & _). eexists. by apply slice_of_ok. Qed.

(** The groups of the flat container are the dictionaries of the list. *)
Lemma build_ok c : proper c → ∃ l f gs, build false c = Ok (ListLogprobs l) ∧ build true c = Ok (Flat f) ∧
  flat_rep gs f ∧ map dict_of gs = map (default []) l.
Proof.
  induction c as [|c IH p|c IH ids ps ts rank num|c IH other IHo|c IH a b step]; cbn [proper build].
  - intros _. exists [], FlatLogprobs_new, []. split; [done|]. split; [done|]. split; [apply flat_rep_new|done].
  - intros [Hc Hp]. destruct (IH Hc) as (l & f & gs & -> & -> & Hf & Hm). cbn. eexists _, _, (gs ++ [default [] p]).
    split; [reflexivity|]. split; [reflexivity|]. split; [by apply flat_rep_push|]. rewrite !map_app, Hm. cbn.
    by rewrite dict_of_nodup.
  - intros Hc. destruct (IH Hc) as (l & f & gs & -> & -> & Hf & Hm). cbn.
    eexists _, _, (gs ++ [zip_items ids ps (rank :: py_range 1 ((if decide (num = -1) then len ps else num) + 1)) ts]).
    split; [reflexivity|]. split; [reflexivity|]. split; [by apply flat_rep_push|]. by rewrite !map_app, Hm.
  - intros [Hc Ho]. destruct (IH Hc) as (l & f & gs & -> & -> & Hf & Hm). destruct (IHo Ho) as (k & fo & go & -> & -> & Hfo & Hmo).
    assert (Hx : lp_extend (Flat fo) (Flat f) = Ok (Flat (flat_extend (map Some (map dict_of go)) f))).
    { unfold lp_extend, lp_iter. by rewrite (flat_iter_ok go) by done. }
    cbn [rbind]. rewrite Hx. eexists _, _, (gs ++ map dict_of go). split; [reflexivity|]. split; [reflexivity|]. split.
    + pose proof (flat_extend_ok (map Some (map dict_of go)) gs f Hf) as He. by rewrite map_map, map_id in He.
    + rewrite !map_app, Hm, <- Hmo. f_equal. rewrite map_map. apply map_ext. intros d. apply dict_of_nodup, dict_of_zip_nodup.
  - intros (Hc & Hpos & Hne). destruct (IH Hc) as (l & f & gs & Hl & -> & Hf & Hm). rewrite Hl. specialize (Hne l Hl). cbn [rbind lp_slice].
    destruct (slice_of_some a b step gs ltac:(lia)) as [gs' Hgs]. destruct (slice_of_some a b step l ltac:(lia)) as [l' Hl'].
    assert (Hm' : map dict_of gs' = map (default []) l').
    { pose proof (slice_of_fmap dict_of a b step gs) as H1. rewrite Hm, slice_of_fmap, Hgs, Hl' in H1. by injection H1. }
    pose proof (flat_slice_ok gs f a b step gs' Hf Hgs) as Hs. rewrite Hl'. rewrite decide_False in Hs.
    2:{ intros ->. destruct l'; [|done]. by rewrite Hl' in Hne. }
    destruct Hs as (f' & -> & Hf'). rewrite decide_False in Hf' by lia. by eexists _, _, gs'.
Qed.

(** C24. The flat container of log probabilities behaves like the list of
    dictionaries that it replaces.  For every container that is created, appended
    to, extended with another and sliced, forward and not empty, in any order,
    the two representations have the same length, the same positions in the
    same order and the same element at every index, negative and out of range
    included; a position without log probabilities is [None] in the list and
    an empty dictionary in the flat container.  Any further slice has a result
    in the list exactly when its step is not 0.  Then, if it is empty, it raises
    [IndexError] in the flat container; if it goes backwards over two positions
    or more the flat container can be read only when none of them has log
    probabilities, and raises [IndexError] otherwise; and any other slice gives
    the same positions. *)
Theorem flat_logprobs_refine_list (c : container) (Hc : proper c) :
  ∃ l f, build false c = Ok (ListLogprobs l) ∧ build true c = Ok (Flat f) ∧
    lp_len (Flat f) = lp_len (ListLogprobs l) ∧
    lp_iter (Flat f) = Ok (map (λ p, Some (default [] p)) l) ∧
    (∀ i, lp_getitem (Flat f) i = letr p := lp_getitem (ListLogprobs l) i in Ok (Some (default [] p))) ∧
    ∀ a b step, match slice_of a b step l with
      | Raise e => e = ValueError ∧ default 1 step = 0 ∧ lp_slice (Flat f) a b step = Raise ValueError
      | Ok [] => lp_slice (Flat f) a b step = Raise IndexError
      | Ok l' => ∃ f', lp_slice (Flat f) a b step = Ok (Flat f') ∧
          lp_iter (Flat f') =
            if decide (default 1 step < 0 ∧ 1 < len l' ∧ ¬ Forall (λ p, default [] p = []) l') then Raise IndexError
            else Ok (map (λ p, Some (default [] p)) l')
      end.
Proof.
  destruct (build_ok c Hc) as (l & f & gs & Hl & Hb & Hf & Hm). exists l, f. split; [done|]. split; [done|].
  assert (Hsome : ∀ (k : list (option LogprobsOnePosition)) (hs : list LogprobsOnePosition), map dict_of hs = map (default []) k → map Some (map dict_of hs) = map (λ p, Some (default [] p)) k).
  { intros k hs ->. by rewrite map_map. }
  assert (Hlen : length gs = length l) by (apply (f_equal length) in Hm; by rewrite !length_map in Hm).
  split; [|split; [|split]].
  - cbn. unfold flat_len, len. destruct Hf as (items & Hf). by rewrite (fh_starts _ _ _ Hf), Hlen.
  - unfold lp_iter. rewrite (flat_iter_ok gs) by done. cbn [rbind]. by rewrite (Hsome l).
  - intros i. unfold lp_getitem. rewrite (flat_getitem_ok gs) by done.
    assert (Hi : index_of (map dict_of gs) i = index_of (map (default []) l) i) by (by rewrite Hm). revert Hi. unfold index_of.
    unfold py_index, len. rewrite !length_map, Hlen.
    destruct (decide (0 ≤ _)); [|done]. rewrite !lookup_map. destruct (gs !! _), (l !! _); cbn; congruence.
  - intros a b step. destruct (decide (default 1 step = 0)) as [H0|H0].
    { assert (Hz : ∀ A (k : list A), slice_of a b step k = Raise ValueError) by (intros A k; unfold slice_of, slice_range; by rewrite decide_True).
      rewrite Hz. cbn [lp_slice]. unfold flat_slice. by rewrite Hz. }
    destruct (slice_of_some a b step gs H0) as [gs' Hgs]. destruct (slice_of_some a b step l H0) as [l' Hl'].
    assert (Hm' : map dict_of gs' = map (default []) l').
    { pose proof (slice_of_fmap dict_of a b step gs) as H1. rewrite Hm, slice_of_fmap, Hgs, Hl' in H1. by injection H1. }
    assert (Hlen' : length gs' = length l') by (apply (f_equal length) in Hm'; by rewrite !length_map in Hm').
    assert (Hnil : Forall (λ g, g = []) gs' ↔ Forall (λ p, default [] p = []) l').
    { rewrite <- (Forall_map (default []) (λ d, d = [])), <- Hm', Forall_map. apply Forall_iff. intros g. split; [by intros ->|apply dict_of_nil]. }
    pose proof (flat_slice_ok gs f a b step gs' Hf Hgs) as Hs. rewrite Hl'. cbn [lp_slice].
    destruct l' as [|p l']; [destruct gs'; [|done]; rewrite decide_True in Hs by done; by rewrite Hs|].
    destruct gs' as [|g gs']; [done|]. rewrite decide_False in Hs by done. destruct Hs as (f' & -> & Hf'). exists f'. split; [done|].
    assert (Hln : len (g :: gs') = len (p :: l')) by (unfold len; by rewrite Hlen'). rewrite Hln in Hf'. unfold lp_iter.
    rewrite <- (Hsome _ _ Hm').
    destruct (decide (default 1 step < 0 ∧ 1 < len (p :: l'))) as [Hb1|Hb1].
    + rewrite Hf'. destruct (decide (Forall _ (g :: gs'))) as [Hn|Hn].
      * rewrite decide_False by tauto. done.
      * rewrite decide_True by tauto. done.
    + rewrite (flat_iter_ok _ _ Hf'), decide_False by tauto. done.
Qed.

(** The last two of three positions; the sampled token 7 is also the second of
    the most likely ones. *)
Definition sample_container : container :=
  Slice (AppendNext (AppendNext (Append New None) [7; 9; 7] [float_of_Z (-3); float_of_Z (-1); float_of_Z (-3)] [None; None; None] 2 2)
           [4] [float_of_Z 0] [Some [97]] 1 0) (Some (-2)) None None.

(** Read backwards the list has its two positions, and the flat container raises
    [IndexError]. *)
Lemma flat_logprobs_refine_list_witness :
  proper sample_container ∧ ∃ l f, build false sample_container = Ok (ListLogprobs l) ∧ build true sample_container = Ok (Flat f) ∧
    lp_len (Flat f) = lp_len (ListLogprobs l) ∧ flat_len f = 2 ∧
    ∃ f', lp_slice (Flat f) None None (Some (-1)) = Ok (Flat f') ∧ lp_iter (Flat f') = Raise IndexError.
Proof.
  assert (H : proper sample_container).
  { split; [split; [done|constructor]|]. split; [done|]. intros l Hl. vm_compute in Hl. injection Hl as <-. vm_compute. discriminate. }
  split; [exact H|]. destruct (flat_logprobs_refine_list sample_container H) as (l & f & Hl & Hf & Hlen & _ & _ & Hs). exists l, f.
  split; [exact Hl|]. split; [exact Hf|]. split; [exact Hlen|]. specialize (Hs None None (Some (-1))).
  vm_compute in Hl. injection Hl as <-. vm_compute in Hf. injection Hf as <-. split; [reflexivity|].
  eexists. split; vm_compute; reflexivity.
Defined.
