(* ===== verification/RequestOutputs.v ===== *)
(** Outputs of requests (vllm/outputs.py), the requests of parallel sampling
    (vllm/v1/engine/parallel_sampling.py) and the collectors of outputs
    ([RequestOutputCollector] of vllm/v1/engine/output_processor.py).

    A [RequestOutput] may share its list of completions with the aggregator of
    a parent request; parents live in a store.  A completion has the tokens and
    log probabilities of the moment: in cumulative mode the code hands out the
    lists of the request themselves, which later outputs extend. *)

From S2P Require Import Prelude.
From S2P Require Import Request.
From S2P Require Import Detokenizer.
From S2P Require Import PyFloat.
From S2P Require Import Logprobs.
From stdpp Require Import pretty.

Open Scope Z_scope.

Abbreviation ref := Z.

Inductive RequestOutputKind := CUMULATIVE | DELTA | FINAL_ONLY.

#[export] Instance RequestOutputKind_eq_dec : EqDecision RequestOutputKind.
Proof. solve_decision. Defined.

(** ** Completions *)

Inductive StopReason := StopToken (token_id : Z) | StopString (s : text).

Record CompletionOutput := mkCompletion {
  co_index : Z;
  co_text : text;
  co_token_ids : list Z;
  co_cumulative_logprob : option float;
  co_logprobs : option Logprobs;
  co_finish_reason : option FinishReason;
  co_stop_reason : option StopReason
}.
Definition co_finished (c : CompletionOutput) : bool := bool_decide (is_Some (co_finish_reason c)).

Definition CompletionOutput_eta (c : CompletionOutput) : CompletionOutput :=
  mkCompletion (co_index c) (co_text c) (co_token_ids c) (co_cumulative_logprob c) (co_logprobs c) (co_finish_reason c)
    (co_stop_reason c).
Definition set_co_text v : CompletionOutput → CompletionOutput := ltac:(record_set CompletionOutput_eta co_text v).
Definition set_co_token_ids v : CompletionOutput → CompletionOutput := ltac:(record_set CompletionOutput_eta co_token_ids v).
Definition set_co_logprobs v : CompletionOutput → CompletionOutput := ltac:(record_set CompletionOutput_eta co_logprobs v).
Definition set_co_cumulative v : CompletionOutput → CompletionOutput := ltac:(record_set CompletionOutput_eta co_cumulative_logprob v).
Definition set_co_finish_reason v : CompletionOutput → CompletionOutput := ltac:(record_set CompletionOutput_eta co_finish_reason v).
Definition set_co_stop_reason v : CompletionOutput → CompletionOutput := ltac:(record_set CompletionOutput_eta co_stop_reason v).

(** A list of completions of its own, or the aggregator of a parent; an entry of
    an aggregator may be [None]. *)
Inductive OutputList := Fresh (l : list (option CompletionOutput)) | Aggregator (parent : ref).

Record RequestOutput := mkRequestOutput {
  ro_request_id : string;
  ro_prompt_token_ids : option (list Z);
  ro_prompt_logprobs : option Logprobs;
  ro_outputs : OutputList;
  ro_finished : bool;
  ro_num_cached_tokens : Z;
  ro_kv_transfer_params : option string
}.
Definition RequestOutput_eta (o : RequestOutput) : RequestOutput :=
  mkRequestOutput (ro_request_id o) (ro_prompt_token_ids o) (ro_prompt_logprobs o) (ro_outputs o) (ro_finished o)
    (ro_num_cached_tokens o) (ro_kv_transfer_params o).
Definition set_ro_outputs v : RequestOutput → RequestOutput := ltac:(record_set RequestOutput_eta ro_outputs v).
Definition set_ro_finished v : RequestOutput → RequestOutput := ltac:(record_set RequestOutput_eta ro_finished v).
Definition set_ro_kv_transfer_params v : RequestOutput → RequestOutput :=
  ltac:(record_set RequestOutput_eta ro_kv_transfer_params v).

Record PoolingRequestOutput := mkPoolingOutput {
  po_request_id : string;
  po_num_cached_tokens : Z;
  po_prompt_token_ids : list Z;
  po_finished : bool
}.

(** ** Parallel sampling *)

(** The sampling parameters that the output side reads. *)
Record OutputParams := mkOutputParams {
  os_n : Z;
  os_seed : option Z;
  os_output_kind : RequestOutputKind;
  os_detokenize : bool;
  os_logprobs : option Z;
  os_prompt_logprobs : option Z;
  os_flat_logprobs : bool;
  os_detokenizer : DetokenizerParams
}.
Definition with_child (n : Z) (seed : option Z) (p : OutputParams) : OutputParams :=
  mkOutputParams n seed (os_output_kind p) (os_detokenize p) (os_logprobs p) (os_prompt_logprobs p) (os_flat_logprobs p)
    (os_detokenizer p).

Record ParentRequest := mkParent {
  pa_request_id : string;
  pa_external_req_id : string;
  pa_sampling_params : OutputParams;
  child_requests : gset string;
  output_aggregator : list (option CompletionOutput);
  cached_child_sampling_params : option OutputParams
}.
Definition ParentRequest_new (request_id external_req_id : string) (p : OutputParams) : ParentRequest :=
  mkParent request_id external_req_id p ∅
    (if decide (os_output_kind p = FINAL_ONLY) then replicate (Z.to_nat (os_n p)) None else []) None.
Definition ParentRequest_eta (p : ParentRequest) : ParentRequest :=
  mkParent (pa_request_id p) (pa_external_req_id p) (pa_sampling_params p) (child_requests p) (output_aggregator p)
    (cached_child_sampling_params p).
Definition set_child_requests v : ParentRequest → ParentRequest := ltac:(record_set ParentRequest_eta child_requests v).
Definition set_output_aggregator v : ParentRequest → ParentRequest := ltac:(record_set ParentRequest_eta output_aggregator v).
Definition set_cached_child v : ParentRequest → ParentRequest := ltac:(record_set ParentRequest_eta cached_child_sampling_params v).

Definition _get_child_sampling_params (index : Z) : M ParentRequest OutputParams :=
  let* self := get in
  match cached_child_sampling_params self with
  | Some p => ret p
  | None =>
      match os_seed (pa_sampling_params self) with
      | None =>
          let child := with_child 1 None (pa_sampling_params self) in
          modify (set_cached_child (Some child)) ;;;
          ret child
      | Some seed => ret (with_child 1 (Some (seed + index)) (pa_sampling_params self))
      end
  end.
Definition child_id (index : Z) (request_id : string) : string := (pretty index +:+ "_" +:+ request_id)%string.
Definition get_child_info (index : Z) : M ParentRequest (string * OutputParams) :=
  let* self := get in
  let child_req_id := child_id index (pa_request_id self) in
  modify (λ p, set_child_requests ({[child_req_id]} ∪ child_requests p) p) ;;;
  let* params := _get_child_sampling_params index in
  ret (child_req_id, params).

(** [l\[i\] = v] *)
Definition py_store {A} (i : Z) (v : A) : M (list A) unit := λ l,
  let j := if decide (i < 0) then i + len l else i in
  if decide (0 ≤ j < len l) then (Ok tt, <[Z.to_nat j := v]> l) else (Raise IndexError, l).

(** [self] is the reference of the parent. *)
Definition get_outputs (self : ref) (child_request_id : string) (completion_output : CompletionOutput)
    : M ParentRequest (OutputList * bool) :=
  let* p := get in
  let* already_finished_and_returned :=
    if co_finished completion_output then
      if decide (child_request_id ∈ child_requests p) then
        modify (λ p, set_child_requests (child_requests p ∖ {[child_request_id]}) p) ;;;
        ret false
      else ret true
    else ret false in
  let* outputs :=
    if decide (os_output_kind (pa_sampling_params p) ≠ FINAL_ONLY) then
      ret (Fresh (if already_finished_and_returned : bool then [] else [Some completion_output]))
    else
      zoom output_aggregator set_output_aggregator (py_store (co_index completion_output) (Some completion_output)) ;;;
      let* p := get in
      ret (if decide (child_requests p = ∅) then Aggregator self else Fresh []) in
  let* p := get in
  ret (outputs, bool_decide (child_requests p = ∅)).

(** ** Merging outputs *)

Abbreviation parents := (gmap ref ParentRequest).

Definition list_of (ps : parents) (l : OutputList) : list (option CompletionOutput) :=
  match l with Fresh l => l | Aggregator p => default [] (output_aggregator <$> ps !! p) end.
Definition merging : Type := RequestOutput * parents.
Definition merging_list (s : merging) : list (option CompletionOutput) := list_of s.2 (ro_outputs s.1).
Definition set_merging_list (l : list (option CompletionOutput)) (s : merging) : merging :=
  match ro_outputs s.1 with
  | Fresh _ => (set_ro_outputs (Fresh l) s.1, s.2)
  | Aggregator p => (s.1, alter (set_output_aggregator l) p s.2)
  end.

(** The first completion with the index of [next]. *)
Fixpoint find_completion (outputs : list (option CompletionOutput)) (next : option CompletionOutput) (i : nat)
    : res (option nat) :=
  match outputs with
  | [] => Ok None
  | c :: outputs =>
      match c, next with
      | Some c, Some n => if decide (co_index c = co_index n) then Ok (Some i) else find_completion outputs next (S i)
      | _, _ => Raise AttributeError
      end
  end.

(** Merge the completion of the same index. *)
Definition merge_completion (next : CompletionOutput) : M CompletionOutput unit :=
  modify (λ c, set_co_text (co_text c ++ co_text next) c) ;;;
  modify (λ c, set_co_token_ids (co_token_ids c ++ co_token_ids next) c) ;;;
  (match co_logprobs next with
   | Some lp =>
       if decide (lp_len lp = 0) then ret tt
       else
         let* c := get in
         match co_logprobs c with
         | None => raise AssertionError
         | Some l =>
             let* l := of_res (lp_extend lp l) in
             modify (set_co_logprobs (Some l))
         end
   | None => ret tt
   end) ;;;
  modify (set_co_cumulative (co_cumulative_logprob next)) ;;;
  modify (set_co_finish_reason (co_finish_reason next)) ;;;
  modify (set_co_stop_reason (co_stop_reason next)).

Definition add_completion (aggregate : bool) (next : option CompletionOutput) : M merging unit :=
  let* s := get in
  let* i := of_res (find_completion (merging_list s) next 0) in
  match i with
  | None => modify (λ s, set_merging_list (merging_list s ++ [next]) s)
  | Some i =>
      if aggregate then λ s,
        match merging_list s !! i, next with
        | Some (Some c), Some next =>
            let '(r, c) := merge_completion next c in (r, set_merging_list (<[i := Some c]> (merging_list s)) s)
        | _, _ => (Raise AttributeError, s)
        end
      else modify (λ s, set_merging_list (<[i := next]> (merging_list s)) s)
  end.

(** [RequestOutput.add] *)
Definition ro_add (next_output : RequestOutput) (aggregate : bool) : M merging unit :=
  modify (λ s, (set_ro_finished (ro_finished s.1 || ro_finished next_output) s.1, s.2)) ;;;
  modify (λ s, (set_ro_kv_transfer_params (ro_kv_transfer_params next_output) s.1, s.2)) ;;;
  let* s := get in
  for_ (list_of s.2 (ro_outputs next_output)) (add_completion aggregate).

(** ** Collectors *)

Inductive OutputItem := Completion (o : RequestOutput) | Pooled (o : PoolingRequestOutput) | Failure (e : exc).

Record RequestOutputCollector := mkCollector {
  aggregate : bool;
  qu_request_id : string;
  qu_output : option OutputItem;
  ready : bool
}.
Definition RequestOutputCollector_new (output_kind : RequestOutputKind) (request_id : string) : RequestOutputCollector :=
  mkCollector (bool_decide (output_kind = DELTA)) request_id None false.
Definition set_output (v : option OutputItem) (r : bool) (q : RequestOutputCollector) : RequestOutputCollector :=
  mkCollector (aggregate q) (qu_request_id q) v r.

Definition collector_put (output : OutputItem) : M (RequestOutputCollector * parents) unit :=
  let* s := get in
  match qu_output s.1, output with
  | None, _ | _, Failure _ => modify (λ s, (set_output (Some output) true s.1, s.2))
  | Some (Completion o), Completion next => λ s,
      let '(r, (o, ps)) := ro_add next (aggregate s.1) (o, s.2) in
      (r, (set_output (Some (Completion o)) (ready s.1) s.1, ps))
  | Some (Pooled _), Pooled _ => modify (λ s, (set_output (Some output) (ready s.1) s.1, s.2))
  | _, _ => ret tt
  end.

(** [None] is returned when there is no output; [get] waits then. *)
Definition get_nowait : M RequestOutputCollector (option OutputItem) :=
  let* self := get in
  let output := qu_output self in
  (if decide (is_Some output) then modify (set_output None false) else ret tt) ;;;
  match output with
  | Some (Failure e) => raise e
  | _ => ret output
  end.
Definition collector_get : M RequestOutputCollector (option OutputItem) :=
  let* self := get in
  match qu_output self with
  | None => ret None
  | Some output =>
      modify (set_output None false) ;;;
      match output with Failure e => raise e | _ => ret (Some output) end
  end.

(** ** Streams

    Collectors keep streams: merging an output that the consumer has not taken
    yet appends to the text and tokens of its completions. *)

(** ** The pieces of a stream *)

(** What the completions of an index say; [f] is their text or their tokens. *)
Definition piece (f : CompletionOutput → list Z) (i : Z) (c : option CompletionOutput) : list Z :=
  match c with Some c => if decide (co_index c = i) then f c else [] | None => [] end.
Definition pieces (f : CompletionOutput → list Z) (i : Z) (l : list (option CompletionOutput)) : list Z :=
  concat (map (piece f i) l).
Definition item_pieces (f : CompletionOutput → list Z) (i : Z) (it : OutputItem) : list Z :=
  match it with
  | Completion o => match ro_outputs o with Fresh l => pieces f i l | Aggregator _ => [] end
  | _ => []
  end.

(** No log probabilities. *)
Definition quiet (lp : option Logprobs) : Prop := ∀ c, lp = Some c → lp_len c = 0.

(** An output with a list of its own, a completion for each of its indices. *)
Definition own_outputs (o : RequestOutput) (l : list CompletionOutput) : Prop :=
  ro_outputs o = Fresh (map Some l) ∧ NoDup (map co_index l) ∧ Forall (λ c, quiet (co_logprobs c)) l.
Definition own_item (it : OutputItem) : Prop := ∃ o l, it = Completion o ∧ own_outputs o l.

Lemma pieces_app f i l k : pieces f i (l ++ k) = pieces f i l ++ pieces f i k.
Proof. unfold pieces. by rewrite map_app, concat_app. Qed.
Lemma pieces_absent f i l : i ∉ map co_index l → pieces f i (map Some l) = [].
Proof.
  induction l as [|c l IH]; intros Hi; [done|]. cbn in *. apply not_elem_of_cons in Hi as [Hc Hl].
  unfold pieces in *. cbn. rewrite decide_False by congruence. by apply IH.
Qed.

(** ** Merging *)

Lemma find_completion_ok l c : ∀ n,
  (find_completion (map Some l) (Some c) n = Ok None ∧ co_index c ∉ map co_index l) ∨
  ∃ l1 d l2, l = l1 ++ d :: l2 ∧ co_index d = co_index c ∧ find_completion (map Some l) (Some c) n = Ok (Some (n + length l1)%nat).
Proof.
  induction l as [|d l IH]; intros n; cbn; [left; split; [done|apply not_elem_of_nil]|].
  destruct (decide (co_index d = co_index c)) as [He|He].
  - right. exists [], d, l. split; [done|]. split; [done|]. cbn. do 2 f_equal. lia.
  - destruct (IH (S n)) as [[-> Hn]|(l1 & e & l2 & -> & Hi & ->)].
    + left. split; [done|]. apply not_elem_of_cons. split; [congruence|done].
    + right. exists (d :: l1), e, l2. split; [done|]. split; [done|]. cbn. do 2 f_equal. lia.
Qed.

(** The merged completion. *)
Definition merged (c d : CompletionOutput) : CompletionOutput :=
  mkCompletion (co_index d) (co_text d ++ co_text c) (co_token_ids d ++ co_token_ids c) (co_cumulative_logprob c) (co_logprobs d)
    (co_finish_reason c) (co_stop_reason c).

Lemma merge_completion_ok c d : quiet (co_logprobs c) → merge_completion c d = (Ok tt, merged c d).
Proof.
  intros Hq. unfold merge_completion. mstep. destruct (co_logprobs c) as [lp|] eqn:Hlp; mstep; [|done].
  rewrite decide_True by (by apply Hq). mstep. done.
Qed.

(** How an output changes when a completion is added. *)
Definition appended (f : CompletionOutput → list Z) (l l' : list CompletionOutput) (c : CompletionOutput) : Prop :=
  ∀ i, pieces f i (map Some l') = pieces f i (map Some l) ++ piece f i (Some c).

Lemma appended_merge f l1 c d l2 : (∀ x y, f (merged x y) = f y ++ f x) → NoDup (map co_index (l1 ++ d :: l2)) →
  co_index d = co_index c → appended f (l1 ++ d :: l2) (l1 ++ merged c d :: l2) c.
Proof.
  intros Hf Hnd Hi i. rewrite !map_app, !pieces_app. rewrite <- app_assoc. f_equal. cbn [map].
  unfold pieces. cbn [map concat piece]. change (co_index (merged c d)) with (co_index d).
  rewrite map_app in Hnd. apply NoDup_app in Hnd as (_ & _ & Hnd). cbn in Hnd. apply NoDup_cons in Hnd as [Hd _].
  rewrite Hi in *. destruct (decide (co_index c = i)) as [<-|]; [|by rewrite app_nil_r].
  pose proof (pieces_absent f (co_index c) l2 Hd) as Hl. unfold pieces in Hl. by rewrite Hl, Hf, !app_nil_r.
Qed.

Lemma add_completion_ok c o l ps : own_outputs o l → quiet (co_logprobs c) →
  ∃ l', add_completion true (Some c) (o, ps) = (Ok tt, (set_ro_outputs (Fresh (map Some l')) o, ps)) ∧
    NoDup (map co_index l') ∧ Forall (λ c, quiet (co_logprobs c)) l' ∧ appended co_text l l' c ∧ appended co_token_ids l l' c.
Proof.
  intros (Ho & Hnd & Hq) Hc. unfold add_completion. unfold bind at 1. cbn [get].
  assert (Hl : merging_list (o, ps) = map Some l) by (unfold merging_list; cbn; by rewrite Ho). rewrite Hl.
  assert (Hset : ∀ k, set_merging_list k (o, ps) = (set_ro_outputs (Fresh k) o, ps)) by (intros k; unfold set_merging_list; cbn; by rewrite Ho).
  destruct (find_completion_ok l c 0) as [[-> Hn]|(l1 & d & l2 & -> & Hi & ->)]; rewrite bind_of_res.
  - exists (l ++ [c]). unfold modify. rewrite Hl, Hset, !map_app. cbn [map]. split; [done|]. split; [|split; [|split]].
    + apply NoDup_app. split; [done|]. split; [|repeat constructor; apply not_elem_of_nil].
      intros x Hx Hin. apply list_elem_of_singleton in Hin as ->. done.
    + apply Forall_app. by split; [|constructor].
    + intros i. rewrite map_app, pieces_app. unfold pieces at 2. cbn. by rewrite app_nil_r.
    + intros i. rewrite map_app, pieces_app. unfold pieces at 2. cbn. by rewrite app_nil_r.
  - exists (l1 ++ merged c d :: l2). cbv beta. rewrite Hl. cbn [Nat.add]. rewrite map_app. cbn [map].
    rewrite list_lookup_middle by (by rewrite length_map). rewrite merge_completion_ok by done. rewrite Hset.
    split; [|split; [|split; [|split]]].
    + do 4 f_equal. rewrite insert_app_r_alt by (by rewrite length_map). rewrite length_map, Nat.sub_diag. by rewrite map_app.
    + rewrite map_app in *. cbn [map] in *. done.
    + apply Forall_app in Hq as [H1 H2]. apply Forall_cons in H2 as [Hd H2]. apply Forall_app. split; [done|]. by constructor.
    + by apply appended_merge.
    + by apply appended_merge.
Qed.

(** ** Collectors *)

Definition collector_ok (c : RequestOutputCollector) : Prop :=
  ready c = bool_decide (is_Some (qu_output c)) ∧ ∀ it, qu_output c = Some it → own_item it.

Definition pending (f : CompletionOutput → list Z) (i : Z) (c : RequestOutputCollector) : list Z :=
  from_option (item_pieces f i) [] (qu_output c).

(** An output with a single completion. *)
Definition single (it : OutputItem) (c : CompletionOutput) : Prop :=
  ∃ o, it = Completion o ∧ ro_outputs o = Fresh [Some c] ∧ quiet (co_logprobs c).

Lemma single_own it c : single it c → own_item it.
Proof.
  intros (o & -> & Ho & Hq). exists o, [c]. split; [done|]. split; [done|]. split; [|by constructor].
  apply NoDup_singleton.
Qed.
Lemma single_pieces f i it c : single it c → item_pieces f i it = piece f i (Some c).
Proof. intros (o & -> & Ho & _). cbn [item_pieces]. rewrite Ho. unfold pieces. cbn [map concat]. by rewrite app_nil_r. Qed.

Lemma add_replace_ok c o l ps : own_outputs o l → quiet (co_logprobs c) →
  ∃ l', add_completion false (Some c) (o, ps) = (Ok tt, (set_ro_outputs (Fresh (map Some l')) o, ps)) ∧
    NoDup (map co_index l') ∧ Forall (λ c, quiet (co_logprobs c)) l'.
Proof.
  intros (Ho & Hnd & Hq) Hc. unfold add_completion. unfold bind at 1. cbn [get].
  assert (Hl : merging_list (o, ps) = map Some l) by (unfold merging_list; cbn; by rewrite Ho). rewrite Hl.
  assert (Hset : ∀ k, set_merging_list k (o, ps) = (set_ro_outputs (Fresh k) o, ps)) by (intros k; unfold set_merging_list; cbn; by rewrite Ho).
  destruct (find_completion_ok l c 0) as [[-> Hn]|(l1 & d & l2 & -> & Hi & ->)]; rewrite bind_of_res; unfold modify; rewrite Hl, Hset.
  - exists (l ++ [c]). rewrite map_app. split; [done|]. rewrite map_app. split.
    + apply NoDup_app. split; [done|]. split; [|repeat constructor; apply not_elem_of_nil].
      intros x Hx Hin. apply list_elem_of_singleton in Hin as ->. done.
    + apply Forall_app. by split; [|constructor].
  - exists (l1 ++ c :: l2). split; [|split].
    + do 4 f_equal. cbn [Nat.add]. rewrite !map_app, insert_app_r_alt by (by rewrite length_map). by rewrite length_map, Nat.sub_diag.
    + rewrite map_app in *. cbn [map] in *. by rewrite <- Hi.
    + apply Forall_app in Hq as [H1 H2]. apply Forall_cons in H2 as [Hd H2]. apply Forall_app. split; [done|]. by constructor.
Qed.

(** What a collector does with one more completion: an aggregating one appends
    it. *)
Lemma collector_put_ok q it c ps : collector_ok q → single it c →
  ∃ q', collector_put it (q, ps) = (Ok tt, (q', ps)) ∧ collector_ok q' ∧ aggregate q' = aggregate q ∧
    qu_request_id q' = qu_request_id q ∧
    (aggregate q = true → (∀ i, pending co_text i q' = pending co_text i q ++ piece co_text i (Some c)) ∧
       (∀ i, pending co_token_ids i q' = pending co_token_ids i q ++ piece co_token_ids i (Some c))).
Proof.
  intros [Hr Hown] Hs. unfold collector_put. unfold bind at 1. cbn [get fst].
  destruct (qu_output q) as [p|] eqn:Hp.
  - destruct (Hown p eq_refl) as (o & l & -> & Hol). pose proof Hs as (n & -> & Hn & Hq).
    unfold ro_add. mstep. unfold bind at 1. cbn [get snd]. rewrite Hn. cbn [list_of for_].
    set (o1 := set_ro_kv_transfer_params _ _). assert (Ho1 : own_outputs o1 l) by exact Hol.
    cbn [fst snd]. destruct (aggregate q) eqn:Ha.
    + destruct (add_completion_ok c o1 l ps Ho1 Hq) as (l' & Hadd & Hnd & Hq' & Ht & Hk).
      rewrite (bind_ok _ _ _ _ _ Hadd). cbn [ret]. eexists. split; [reflexivity|]. split; [|split; [done|split; [done|]]].
      * split; [cbn; by rewrite Hr|]. intros it [= <-]. by eexists _, l'.
      * intros _. unfold pending. cbn [qu_output set_output from_option item_pieces ro_outputs set_ro_outputs]. rewrite Hp.
        cbn [from_option item_pieces]. destruct Hol as (-> & _). by split.
    + destruct (add_replace_ok c o1 l ps Ho1 Hq) as (l' & Hadd & Hnd & Hq').
      rewrite (bind_ok _ _ _ _ _ Hadd). cbn [ret]. eexists. split; [reflexivity|]. split; [|by split; [|split]].
      split; [cbn; by rewrite Hr|]. intros it [= <-]. by eexists _, l'.
  - eexists. split; [reflexivity|]. split; [|split; [done|split; [done|]]].
    + split; [done|]. intros x [= <-]. by eapply single_own.
    + intros _. unfold pending. rewrite Hp. cbn [qu_output set_output from_option fst]. by split; intros i; rewrite (single_pieces _ _ _ _ Hs).
Qed.

(** The consumer takes what is pending. *)
Lemma get_nowait_ok q : collector_ok q →
  get_nowait q = (Ok (qu_output q), set_output None false q) ∧ collector_ok (set_output None false q).
Proof.
  intros [Hr Hown]. split; [|by split]. unfold get_nowait. unfold bind at 1. cbn [get].
  destruct (qu_output q) as [it|] eqn:Hq.
  - rewrite decide_True by (by eexists). mstep. by destruct (Hown it eq_refl) as (o & l & -> & _).
  - rewrite decide_False by (by intros [? ?]). mstep. unfold ret. cbn in Hr. do 2 f_equal. unfold set_output. rewrite <- Hr, <- Hq. by destruct q.
Qed.
