(* ===== verification/OutputProcessor.v ===== *)
(** The output processor (vllm/v1/engine/output_processor.py) and the calls of
    the engines that feed it (vllm/v1/engine/llm_engine.py, async_llm.py).

    Collectors and parent requests are shared: they live in stores and are
    referred to by references. *)

From S2P Require Import Prelude.
From S2P Require Import OrderedDict.
From S2P Require Import Request.
From S2P Require Import SchedulerUpdate.
From S2P Require Import Detokenizer.
From S2P Require Import PyFloat.
From S2P Require Import Logprobs.
From S2P Require Import RequestOutputs.

(** The attributes of an [EngineCoreRequest] that only the engine core reads: of
    the sampling and pooling parameters, what the core reads of them. *)
Record CoreParams := mkCoreParams {
  cp_sampling_params : option SamplingParams;
  cp_pooling_params : option PoolingParams;
  cp_mm_features : option (list MultiModalFeatureSpec);
  cp_eos_token_id : option Z;
  cp_arrival_time : Z;
  cp_lora_request : option LoRARequest;
  cp_cache_salt : option string;
  cp_priority : Z;
  cp_client_index : Z
}.
(** The other attributes are those that the output side reads. *)
Record EngineCoreRequest := mkEngineRequest {
  er_request_id : string;
  er_external_req_id : option string;
  er_prompt_token_ids : option (list Z);
  er_prompt_embeds : option (list bytes);
  er_sampling_params : option OutputParams;
  er_pooling_kind : option RequestOutputKind;  (** [pooling_params.output_kind] *)
  er_core : CoreParams
}.
(** An [EngineCoreOutput] with its log probabilities. *)
Record ProcessedOutput := mkProcessed {
  pr_output : EngineCoreOutput;
  pr_new_logprobs : option LogprobsLists;
  pr_new_prompt_logprobs_tensors : option LogprobsTensors
}.

Record RequestState (D : Type) := mkState {
  rs_request_id : string;
  rs_external_req_id : string;
  rs_parent_req : option ref;
  rs_request_index : Z;
  rs_output_kind : RequestOutputKind;
  rs_prompt_token_ids : option (list Z);
  rs_prompt_embeds : option (list bytes);
  rs_prompt_len : Z;
  rs_logprobs_processor : option LogprobsProcessor;
  rs_detokenizer : option (IncrementalDetokenizer D);
  rs_queue : option ref;
  rs_is_prefilling : bool;
  rs_num_cached_tokens : Z;
  sent_tokens_offset : Z
}.
Arguments mkState {D}.
Arguments rs_request_id {D} _.
Arguments rs_external_req_id {D} _.
Arguments rs_parent_req {D} _.
Arguments rs_request_index {D} _.
Arguments rs_output_kind {D} _.
Arguments rs_prompt_token_ids {D} _.
Arguments rs_prompt_embeds {D} _.
Arguments rs_prompt_len {D} _.
Arguments rs_logprobs_processor {D} _.
Arguments rs_detokenizer {D} _.
Arguments rs_queue {D} _.
Arguments rs_is_prefilling {D} _.
Arguments rs_num_cached_tokens {D} _.
Arguments sent_tokens_offset {D} _.

Record OutputProcessor (D : Type) := mkOutputProcessor {
  request_states : list (string * RequestState D);
  parent_requests : gmap string ref;
  external_req_ids : gmap string (list string);
  _requests_drained : bool;
  op_parents : gmap ref ParentRequest;
  op_queues : gmap ref RequestOutputCollector
}.
Arguments mkOutputProcessor {D}.
Arguments request_states {D} _.
Arguments parent_requests {D} _.
Arguments external_req_ids {D} _.
Arguments _requests_drained {D} _.
Arguments op_parents {D} _.
Arguments op_queues {D} _.

Section processor.
(** [new_detokenizer has_tokenizer request] is
    [IncrementalDetokenizer.from_new_request], [decode] is [tokenizer.decode],
    [id_order] the order of a set of child requests. *)
Context {D : Type} `{Decoder D} (has_tokenizer : bool).
Context (new_detokenizer : bool → DetokenizerParams → option (list Z) → option (list bytes) → res (IncrementalDetokenizer D)).
Context (decode : list Z → option text).
Context (stream_interval : Z) (id_order : gset string → list string).
Abbreviation rstate := (RequestState D).
Abbreviation processor := (OutputProcessor D).

Definition rstate_eta (s : rstate) : rstate :=
  mkState (rs_request_id s) (rs_external_req_id s) (rs_parent_req s) (rs_request_index s) (rs_output_kind s)
    (rs_prompt_token_ids s) (rs_prompt_embeds s) (rs_prompt_len s) (rs_logprobs_processor s) (rs_detokenizer s) (rs_queue s)
    (rs_is_prefilling s) (rs_num_cached_tokens s) (sent_tokens_offset s).
Definition set_rs_logprobs v : rstate → rstate := ltac:(record_set rstate_eta (@rs_logprobs_processor D) v).
Definition set_rs_detokenizer v : rstate → rstate := ltac:(record_set rstate_eta (@rs_detokenizer D) v).
Definition set_is_prefilling v : rstate → rstate := ltac:(record_set rstate_eta (@rs_is_prefilling D) v).
Definition set_rs_num_cached v : rstate → rstate := ltac:(record_set rstate_eta (@rs_num_cached_tokens D) v).
Definition set_sent_offset v : rstate → rstate := ltac:(record_set rstate_eta (@sent_tokens_offset D) v).

Definition processor_eta (s : processor) : processor :=
  mkOutputProcessor (request_states s) (parent_requests s) (external_req_ids s) (_requests_drained s) (op_parents s) (op_queues s).
Definition set_request_states v : processor → processor := ltac:(record_set processor_eta (@request_states D) v).
Definition set_parent_requests v : processor → processor := ltac:(record_set processor_eta (@parent_requests D) v).
Definition set_external_req_ids v : processor → processor := ltac:(record_set processor_eta (@external_req_ids D) v).
Definition set_requests_drained v : processor → processor := ltac:(record_set processor_eta (@_requests_drained D) v).
Definition set_op_parents v : processor → processor := ltac:(record_set processor_eta (@op_parents D) v).
Definition set_op_queues v : processor → processor := ltac:(record_set processor_eta (@op_queues D) v).

Definition OutputProcessor_init : processor := mkOutputProcessor [] ∅ ∅ true ∅ ∅.

(** ** Request states *)

Definition RequestState_from_new_request (request : EngineCoreRequest) (parent_req : option ref) (request_index : Z)
    (queue : option ref) : res rstate :=
  letr fields :=
    match er_sampling_params request with
    | Some p =>
        let has_tokenizer := has_tokenizer && os_detokenize p in
        let lp := LogprobsProcessor_from_new_request has_tokenizer (os_logprobs p) (os_prompt_logprobs p) (os_flat_logprobs p) in
        letr d := new_detokenizer has_tokenizer (os_detokenizer p) (er_prompt_token_ids request) (er_prompt_embeds request) in
        Ok (os_output_kind p, Some lp, Some d)
    | None =>
        match er_pooling_kind request with
        | Some kind => Ok (kind, None, None)
        | None => Raise AssertionError
        end
    end in
  let '(output_kind, logprobs_processor, detokenizer) := fields in
  match er_external_req_id request with
  | None => Raise AssertionError
  | Some external_req_id =>
      letr prompt_len := length_from_prompt_token_ids_or_embeds (er_prompt_token_ids request) (er_prompt_embeds request) in
      Ok (mkState (er_request_id request) external_req_id parent_req request_index output_kind (er_prompt_token_ids request)
            (er_prompt_embeds request) prompt_len logprobs_processor detokenizer queue true 0 0)
  end.

(** The methods of a request state run on the state and the parents. *)
Definition with_parents : Type := rstate * parents.
Definition self_state : M with_parents rstate := gets fst.
Definition modify_state (f : rstate → rstate) : M with_parents unit := modify (λ s, (f s.1, s.2)).
Definition on_parent {A} (p : ref) (m : M ParentRequest A) : M with_parents A := λ s,
  match s.2 !! p with
  | None => (Raise KeyError, s)
  | Some o => let '(r, o) := m o in (r, (s.1, <[p := o]> s.2))
  end.
Definition on_detokenizer {A} (m : M (IncrementalDetokenizer D) A) : M with_parents A := λ s,
  match rs_detokenizer s.1 with
  | None => (Raise AssertionError, s)
  | Some d => let '(r, d) := m d in (r, (set_rs_detokenizer (Some d) s.1, s.2))
  end.
Definition on_logprobs {A} (m : M LogprobsProcessor A) : M with_parents A := λ s,
  match rs_logprobs_processor s.1 with
  | None => (Raise AssertionError, s)
  | Some p => let '(r, p) := m p in (r, (set_rs_logprobs (Some p) s.1, s.2))
  end.

Definition _new_completion_output (token_ids : list Z) (finish_reason : option FinishReason) (stop_reason : option StopReason)
    : M with_parents CompletionOutput :=
  let* self := self_state in
  match rs_detokenizer self, rs_logprobs_processor self with
  | Some _, Some lp =>
      let finished := bool_decide (is_Some finish_reason) in
      let delta := bool_decide (rs_output_kind self = DELTA) in
      let* text := on_detokenizer (inc_get_next_output_text finished delta) in
      let* self := self_state in
      let token_ids := if delta then token_ids else from_option inc_output_token_ids [] (rs_detokenizer self) in
      let* logprobs :=
        match lp_logprobs lp with
        | Some c =>
            if delta && negb (bool_decide (lp_len c = 0))
            then let* c := of_res (lp_slice c (Some (- len token_ids)) None None) in ret (Some c)
            else ret (Some c)
        | None => ret None
        end in
      ret (mkCompletion (rs_request_index self) text token_ids (cumulative_logprob lp) logprobs finish_reason
             (if finished then stop_reason else None))
  | _, _ => raise AssertionError
  end.

(** [_new_request_output] for completions and for a pooling output *)
Definition _new_request_output (external_req_id : string) (outputs : OutputList) (finished : bool)
    (kv_transfer_params : option string) : M with_parents OutputItem :=
  let* self := self_state in
  let* prompt_logprobs :=
    if decide (rs_output_kind self = DELTA) then on_logprobs pop_prompt_logprobs
    else on_logprobs (gets lp_prompt_logprobs) in
  let prompt_token_ids :=
    match rs_prompt_token_ids self, rs_prompt_embeds self with
    | None, Some embeds => Some (replicate (length embeds) 0)
    | ids, _ => ids
    end in
  ret (Completion (mkRequestOutput external_req_id prompt_token_ids prompt_logprobs outputs finished
         (rs_num_cached_tokens self) kv_transfer_params)).
Definition _new_pooling_request_output (external_req_id : string) (finished : bool) : M with_parents OutputItem :=
  let* self := self_state in
  match rs_prompt_token_ids self with
  | None => raise AssertionError
  | Some ids => ret (Pooled (mkPoolingOutput external_req_id (rs_num_cached_tokens self) ids finished))
  end.

(** Whether an output is due, and its tokens. *)
Definition stream_tokens (new_token_ids : list Z) (finished : bool) : M with_parents (option (list Z)) :=
  if decide (1 < stream_interval) then
    let* self := self_state in
    match rs_detokenizer self with
    | None => raise AssertionError
    | Some d =>
        let num_tokens := len (inc_output_token_ids d) in
        if finished || bool_decide (sent_tokens_offset self = 0) ||
           bool_decide (stream_interval ≤ num_tokens - sent_tokens_offset self)
        then
          if decide (rs_output_kind self = DELTA) then
            modify_state (set_sent_offset num_tokens) ;;;
            ret (Some (py_from (inc_output_token_ids d) (sent_tokens_offset self)))
          else ret (Some new_token_ids)
        else ret None
    end
  else ret (Some new_token_ids).

Definition make_request_output (new_token_ids : list Z) (pooling_output : bool) (finish_reason : option FinishReason)
    (stop_reason : option StopReason) (kv_transfer_params : option string) : M with_parents (option OutputItem) :=
  let finished := bool_decide (is_Some finish_reason) in
  let* self := self_state in
  if negb finished && bool_decide (rs_output_kind self = FINAL_ONLY) then ret None
  else
    let* tokens := stream_tokens new_token_ids finished in
    match tokens with
    | None => ret None
    | Some new_token_ids =>
        if pooling_output then
          let* o := _new_pooling_request_output (rs_external_req_id self) finished in ret (Some o)
        else
          let* output := _new_completion_output new_token_ids finish_reason stop_reason in
          match rs_parent_req self with
          | None =>
              let* o := _new_request_output (rs_external_req_id self) (Fresh [Some output]) finished kv_transfer_params in
              ret (Some o)
          | Some p =>
              let* r := on_parent p (get_outputs p (rs_request_id self) output) in
              let '(outputs, finished) := r in
              let* s := get in
              if decide (list_of s.2 outputs = []) then ret None
              else
                let* parent := on_parent p get in
                let* o := _new_request_output (pa_external_req_id parent) outputs finished kv_transfer_params in
                ret (Some o)
          end
    end.

(** ** The processor *)

(** Run a method of the state of a request, an object that may have left
    [request_states]. *)
Definition on_popped {A} (rs : rstate) (m : M with_parents A) : M processor A := λ s,
  let '(r, (_, ps)) := m (rs, op_parents s) in (r, set_op_parents ps s).
Definition on_request {A} (request_id : string) (m : M with_parents A) : M processor A := λ s,
  match od_get request_id (request_states s) with
  | None => (Raise KeyError, s)
  | Some rs =>
      let '(r, (rs, ps)) := m (rs, op_parents s) in
      (r, set_request_states (od_set request_id rs (request_states s)) (set_op_parents ps s))
  end.
Definition put (q : ref) (output : OutputItem) : M processor unit := λ s,
  match op_queues s !! q with
  | None => (Raise KeyError, s)
  | Some c =>
      let '(r, (c, ps)) := collector_put output (c, op_parents s) in
      (r, set_op_queues (<[q := c]> (op_queues s)) (set_op_parents ps s))
  end.
(** A consumer's call on a collector. *)
Definition on_collector {A} (q : ref) (m : M RequestOutputCollector A) : M processor A := λ s,
  match op_queues s !! q with
  | None => (Raise KeyError, s)
  | Some c => let '(r, c) := m c in (r, set_op_queues (<[q := c]> (op_queues s)) s)
  end.

Definition get_num_unfinished (s : processor) : Z := len (request_states s).
Definition op_has_unfinished_requests (s : processor) : bool := bool_decide (0 < len (request_states s)).

Definition propagate_error (e : exc) : M processor unit :=
  let* s := get in
  for_ (od_values (request_states s)) (λ rs,
    match rs_queue rs with
    | None => raise AssertionError
    | Some q => put q (Failure e)
    end).

(** Remove a request from the list of its external id, a [defaultdict]. *)
Definition remove_external (external_req_id request_id : string) : M processor unit :=
  let* s := get in
  let internal_ids := default [] (external_req_ids s !! external_req_id) in
  if decide (request_id ∈ internal_ids) then
    let internal_ids := list_remove_first request_id internal_ids in
    modify (set_external_req_ids
      (if decide (internal_ids = []) then delete external_req_id (external_req_ids s)
       else <[external_req_id := internal_ids]> (external_req_ids s)))
  else
    modify (set_external_req_ids (<[external_req_id := internal_ids]> (external_req_ids s))) ;;;
    raise ValueError.

(** The loop over the requested ids; the result is [internal_req_ids]. *)
Fixpoint resolve_ids (request_ids : list string) (internal : bool) : M processor (list string) :=
  match request_ids with
  | [] => ret []
  | request_id :: request_ids =>
      let* s := get in
      let* ids :=
        if internal then
          (match od_get request_id (request_states s) with
           | Some req_state => remove_external (rs_external_req_id req_state) request_id
           | None => ret tt
           end) ;;;
          ret [request_id]
        else
          modify (set_external_req_ids (delete request_id (external_req_ids s))) ;;;
          ret (default [] (external_req_ids s !! request_id)) in
      let* rest := resolve_ids request_ids internal in
      ret (ids ++ rest)
  end.

(** The final output of an aborted request. *)
Definition abort_output (req_state : rstate) : M processor unit :=
  match rs_queue req_state with
  | None => ret tt
  | Some q =>
      let* o := on_popped req_state
        (make_request_output [] (bool_decide (rs_detokenizer req_state = None)) (Some ABORT) None None) in
      match o with Some o => put q o | None => ret tt end
  end.

(** The fuel bounds the nesting of parents: a child of a parent has a longer
    id. *)
Fixpoint abort_loop (abort : list string → M processor (list string)) (internal_req_ids : list string)
    : M processor (list string) :=
  match internal_req_ids with
  | [] => ret []
  | request_id :: internal_req_ids =>
      let* s := get in
      let* aborted :=
        match od_get request_id (request_states s) with
        | Some req_state =>
            modify (set_request_states (od_del request_id (request_states s))) ;;;
            abort_output req_state ;;;
            ret [request_id]
        | None =>
            match parent_requests s !! request_id with
            | None => ret []
            | Some p =>
                let* parent := of_option KeyError (op_parents s !! p) in
                let* child_reqs :=
                  if decide (child_requests parent = ∅) then ret [] else abort (id_order (child_requests parent)) in
                modify (λ s, set_parent_requests (delete request_id (parent_requests s)) s) ;;;
                ret child_reqs
            end
        end in
      let* rest := abort_loop abort internal_req_ids in
      ret (aborted ++ rest)
  end.
Fixpoint abort_requests_fuel (fuel : nat) (request_ids : list string) (internal : bool) : M processor (list string) :=
  match fuel with
  | O => raise OutOfFuel
  | S fuel =>
      let* internal_req_ids := resolve_ids request_ids internal in
      let* request_ids_to_abort := abort_loop (λ ids, abort_requests_fuel fuel ids true) internal_req_ids in
      modify (λ s, if decide (request_states s = []) then set_requests_drained true s else s) ;;;
      ret request_ids_to_abort
  end.
Definition op_abort_requests (request_ids : list string) (internal : bool) : M processor (list string) :=
  let* s := get in
  abort_requests_fuel (S (S (max_list (map (λ p, String.length p.1) (map_to_list (parent_requests s)))))) request_ids internal.

(** [parent_req] is the reference of the parent. *)
Definition op_add_request (request : EngineCoreRequest) (parent_req : option ref) (request_index : Z) (queue : option ref)
    : M processor unit :=
  let request_id := er_request_id request in
  let* s := get in
  if od_mem request_id (request_states s) then raise ValueError
  else
    let* req_state := of_res (RequestState_from_new_request request parent_req request_index queue) in
    modify (set_requests_drained false) ;;;
    modify (λ s, set_request_states (od_set request_id req_state (request_states s)) s) ;;;
    (match parent_req with
     | None => ret tt
     | Some p =>
         let* s := get in
         let* parent := of_option KeyError (op_parents s !! p) in
         modify (set_parent_requests (<[pa_request_id parent := p]> (parent_requests s)))
     end) ;;;
    modify (λ s, set_external_req_ids
      (<[rs_external_req_id req_state := default [] (external_req_ids s !! rs_external_req_id req_state) ++ [request_id]]>
         (external_req_ids s)) s).

(** A child request: the body of the loop over the [n] samples of a request in
    [add_request] of both engines. *)
Definition at_parent {A} (p : ref) (m : M ParentRequest A) : M processor A := λ s,
  match op_parents s !! p with
  | None => (Raise KeyError, s)
  | Some o => let '(r, o) := m o in (r, set_op_parents (<[p := o]> (op_parents s)) s)
  end.
Definition child_request (request : EngineCoreRequest) (request_id : string) (child_params : OutputParams) : EngineCoreRequest :=
  mkEngineRequest request_id (er_external_req_id request) (er_prompt_token_ids request) (er_prompt_embeds request)
    (Some child_params) (er_pooling_kind request) (er_core request).
Definition op_add_child (parent_request : ref) (idx : Z) (request : EngineCoreRequest) (queue : option ref)
    : M processor EngineCoreRequest :=
  let* info := at_parent parent_request (get_child_info idx) in
  let request := child_request request info.1 info.2 in
  op_add_request request (Some parent_request) idx queue ;;;
  ret request.

Record OutputProcessorOutput := mkProcessorOutput {
  request_outputs : list OutputItem;
  reqs_to_abort : list string
}.

(** The update of the state of the request; the result has the reasons to
    finish. *)
Definition update_state (o : ProcessedOutput) : M with_parents (option FinishReason * option StopReason) :=
  let e := pr_output o in
  modify_state (λ s, set_is_prefilling false (set_rs_num_cached (eo_num_cached_tokens e) s)) ;;;
  let reasons := (eo_finish_reason e, StopToken <$> eo_stop_reason e) in
  if eo_pooling_output e then ret reasons
  else
    let* self := self_state in
    match rs_detokenizer self, rs_logprobs_processor self with
    | Some _, Some _ =>
        let* stop_string := on_detokenizer (inc_update (eo_new_token_ids e) (bool_decide (eo_finish_reason e = Some STOP))) in
        on_logprobs (lp_update_from_output decode (pr_new_logprobs o) (pr_new_prompt_logprobs_tensors o)) ;;;
        ret (match stop_string with
             | Some ((_ :: _) as s) => (Some STOP, Some (StopString s))
             | _ => reasons
             end)
    | _, _ => raise AssertionError
    end.

(** What is done for a request that has finished; the result says whether the
    engine has to abort it. *)
Definition free_finished (req_id : string) (o : ProcessedOutput) : M processor (list string) :=
  let* s := get in
  let* req_state := of_option KeyError (od_get req_id (request_states s)) in
  modify (set_request_states (od_del req_id (request_states s))) ;;;
  remove_external (rs_external_req_id req_state) req_id ;;;
  (match rs_parent_req req_state with
   | None => ret tt
   | Some p =>
       let* s := get in
       let* parent := of_option KeyError (op_parents s !! p) in
       if decide (child_requests parent = ∅)
       then modify (set_parent_requests (delete (pa_request_id parent) (parent_requests s)))
       else ret tt
   end) ;;;
  modify (λ s, if decide (request_states s = []) then set_requests_drained true s else s) ;;;
  ret (if decide (eo_finish_reason (pr_output o) = None) then [req_id] else []).

(** The body of the loop of [process_outputs]. *)
Definition process_one (o : ProcessedOutput) : M processor OutputProcessorOutput :=
  let e := pr_output o in
  let req_id := eo_request_id e in
  let* s := get in
  match od_get req_id (request_states s) with
  | None => ret (mkProcessorOutput [] [])
  | Some _ =>
      let* reasons := on_request req_id (update_state o) in
      let '(finish_reason, stop_reason) := reasons in
      let* request_output := on_request req_id
        (make_request_output (eo_new_token_ids e) (eo_pooling_output e) finish_reason stop_reason (eo_kv_transfer_params e)) in
      let* outputs :=
        match request_output with
        | None => ret []
        | Some request_output =>
            let* queue := on_request req_id (gets (λ s, rs_queue s.1)) in
            match queue with
            | Some q => put q request_output ;;; ret []
            | None => ret [request_output]
            end
        end in
      let* aborts := if decide (is_Some finish_reason) then free_finished req_id o else ret [] in
      ret (mkProcessorOutput outputs aborts)
  end.
Fixpoint process_outputs (engine_core_outputs : list ProcessedOutput) : M processor OutputProcessorOutput :=
  match engine_core_outputs with
  | [] => ret (mkProcessorOutput [] [])
  | o :: engine_core_outputs =>
      let* first := process_one o in
      let* rest := process_outputs engine_core_outputs in
      ret (mkProcessorOutput (request_outputs first ++ request_outputs rest) (reqs_to_abort first ++ reqs_to_abort rest))
  end.
End processor.
