(* ===== verification/OutputProcessorSpec.v ===== *)
(** What a request puts out at each step: its next delta, exactly. *)

From S2P Require Import Prelude.
From S2P Require Import OrderedDict.
From S2P Require Import Request.
From S2P Require Import SchedulerUpdate.
From S2P Require Import Detokenizer.
From S2P Require Import DetokenizerSpec.
From S2P Require Import PyFloat.
From S2P Require Import Logprobs.
From S2P Require Import LogprobsSpec.
From S2P Require Import RequestOutputs.
From S2P Require Import OutputProcessor.

Section emit.
Context {D : Type} `{Decoder D} `{!TotalDecoder D} (stream_interval : Z).
Abbreviation rstate := (RequestState D).
Abbreviation make := (make_request_output stream_interval).

(** ** The state of a request *)

Definition out_ids (rs : rstate) : list Z := from_option inc_output_token_ids [] (rs_detokenizer rs).
Definition out_text (rs : rstate) : text := from_option dt_text [] (rs_detokenizer rs).
Definition out_released (rs : rstate) : text := from_option dt_released [] (rs_detokenizer rs).
(** The tokens that have been put out as deltas. *)
Definition sent_ids (rs : rstate) : list Z :=
  if decide (1 < stream_interval) then take (Z.to_nat (sent_tokens_offset rs)) (out_ids rs) else out_ids rs.

(** A sampling request whose log probabilities are empty. *)
Record state_ok (rs : rstate) : Prop := {
  so_detokenizer : ∃ d, rs_detokenizer rs = Some d ∧ dt_inv d;
  so_logprobs : ∃ lp, rs_logprobs_processor rs = Some lp ∧ quiet (lp_logprobs lp);
  so_sent : 0 ≤ sent_tokens_offset rs ≤ len (out_ids rs)
}.
(** The same after an update, which may have told the request to finish. *)
Record state_updated (finished : bool) (rs : rstate) : Prop := {
  su_detokenizer : ∃ d, rs_detokenizer rs = Some d ∧ dt_final d ∧ (finished = false → dt_inv d);
  su_logprobs : ∃ lp, rs_logprobs_processor rs = Some lp ∧ quiet (lp_logprobs lp);
  su_sent : 0 ≤ sent_tokens_offset rs ≤ len (out_ids rs)
}.

(** What never changes. *)
Record same_request (rs rs' : rstate) : Prop := {
  sr_id : rs_request_id rs' = rs_request_id rs;
  sr_external : rs_external_req_id rs' = rs_external_req_id rs;
  sr_parent : rs_parent_req rs' = rs_parent_req rs;
  sr_index : rs_request_index rs' = rs_request_index rs;
  sr_kind : rs_output_kind rs' = rs_output_kind rs;
  sr_queue : rs_queue rs' = rs_queue rs
}.
#[export] Instance same_request_refl : Reflexive same_request.
Proof. by intros rs. Qed.
#[export] Instance same_request_trans : Transitive same_request.
Proof. intros x y z [] []. split; congruence. Qed.

Lemma state_ok_updated rs finished : state_ok rs → state_updated finished rs.
Proof. intros [(d & Hd & Hi) Hl Hs]. split; [|done|done]. exists d. split; [done|]. split; [by apply dt_inv_final|done]. Qed.
Lemma state_updated_ok rs : state_updated false rs → state_ok rs.
Proof. intros [(d & Hd & _ & Hi) Hl Hs]. split; [|done|done]. exists d. by split; [|apply Hi]. Qed.

(** ** Parents *)

(** The parent of a request knows it and streams. *)
Definition known_child (ps : parents) (rs : rstate) : Prop :=
  ∀ p, rs_parent_req rs = Some p → ∃ parent, ps !! p = Some parent ∧ rs_request_id rs ∈ child_requests parent ∧
    os_output_kind (pa_sampling_params parent) ≠ FINAL_ONLY.
(** The parents after an output of the request. *)
Definition parents_after (finished : bool) (rs : rstate) (ps : parents) : parents :=
  match rs_parent_req rs with
  | Some p => if finished then alter (λ parent, set_child_requests (child_requests parent ∖ {[rs_request_id rs]}) parent) p ps else ps
  | None => ps
  end.

Lemma get_outputs_ok p id c parent : os_output_kind (pa_sampling_params parent) ≠ FINAL_ONLY → id ∈ child_requests parent →
  let parent' := if co_finished c then set_child_requests (child_requests parent ∖ {[id]}) parent else parent in
  get_outputs p id c parent = (Ok (Fresh [Some c], bool_decide (child_requests parent' = ∅)), parent').
Proof.
  intros Hk Hid. unfold get_outputs. unfold bind at 1. cbn [get]. destruct (co_finished c).
  - rewrite decide_True by done. rewrite bind_assoc, bind_modify, bind_ret_l. rewrite decide_True by done. rewrite bind_ret_l. done.
  - rewrite bind_ret_l. rewrite decide_True by done. rewrite bind_ret_l. done.
Qed.

(** ** Updates *)

(** An output of the engine for a sampling request, without log
    probabilities. *)
Definition plain_output (o : ProcessedOutput) : Prop :=
  eo_pooling_output (pr_output o) = false ∧ pr_new_logprobs o = None ∧ pr_new_prompt_logprobs_tensors o = None.

Lemma update_state_ok (decode : list Z → option text) o rs ps : plain_output o → state_ok rs → ∃ finish stop rs',
  update_state decode o (rs, ps) = (Ok (finish, stop), (rs', ps)) ∧ same_request rs rs' ∧
  state_updated (bool_decide (is_Some finish)) rs' ∧ (is_Some (eo_finish_reason (pr_output o)) → is_Some finish) ∧
  out_ids rs' = out_ids rs ++ eo_new_token_ids (pr_output o) ∧ out_released rs' = out_released rs ∧
  sent_tokens_offset rs' = sent_tokens_offset rs.
Proof.
  intros (Hp & Hl & Hpl) [(d & Hd & Hi) (lp & Hlp & Hq) Hs]. unfold update_state, modify_state. rewrite Hp. mstep.
  unfold bind at 1. unfold self_state at 1, gets. cbn [fst snd]. set (rs1 := set_is_prefilling _ _).
  change (rs_detokenizer rs1) with (rs_detokenizer rs). change (rs_logprobs_processor rs1) with (rs_logprobs_processor rs).
  rewrite Hd, Hlp. destruct (inc_update_ok (eo_new_token_ids (pr_output o)) (bool_decide (eo_finish_reason (pr_output o) = Some STOP)) d Hi)
    as (r & d' & Hrun & Hids & Hrel & Hfin & Hr).
  assert (Hon : on_detokenizer (inc_update (eo_new_token_ids (pr_output o)) (bool_decide (eo_finish_reason (pr_output o) = Some STOP)))
    (rs1, ps) = (Ok r, (set_rs_detokenizer (Some d') rs1, ps))).
  { unfold on_detokenizer. cbn [fst snd]. change (rs_detokenizer rs1) with (rs_detokenizer rs). rewrite Hd. by rewrite Hrun. }
  rewrite (bind_ok _ _ _ _ _ Hon). set (rs2 := set_rs_detokenizer _ _).
  assert (Hlog : on_logprobs (lp_update_from_output decode (pr_new_logprobs o) (pr_new_prompt_logprobs_tensors o)) (rs2, ps) =
    (Ok tt, (set_rs_logprobs (Some lp) rs2, ps))).
  { unfold on_logprobs. cbn [fst snd]. change (rs_logprobs_processor rs2) with (rs_logprobs_processor rs). rewrite Hlp, Hl, Hpl. done. }
  rewrite (bind_ok _ _ _ _ _ Hlog). set (rs3 := set_rs_logprobs _ _).
  assert (Hout : out_ids rs3 = out_ids rs ++ eo_new_token_ids (pr_output o)) by (unfold out_ids; cbn; by rewrite Hd, Hids).
  assert (Hrel3 : out_released rs3 = out_released rs) by (unfold out_released; cbn; by rewrite Hd, Hrel).
  assert (Hsent : 0 ≤ sent_tokens_offset rs3 ≤ len (out_ids rs3)).
  { rewrite Hout, len_app. pose proof (len_nonneg (eo_new_token_ids (pr_output o))). change (sent_tokens_offset rs3) with (sent_tokens_offset rs). lia. }
  destruct r as [st|].
  - destruct st as [|x st]; [done|]. eexists _, _, rs3. split; [reflexivity|]. split; [by split|]. split; [|by split; [eexists|split; [|split]]].
    split; [|by eexists|done]. exists d'. split; [done|]. split; [done|]. by rewrite bool_decide_eq_true_2 by (by eexists).
  - eexists _, _, rs3. split; [reflexivity|]. split; [by split|]. split; [|by split; [|split; [|split]]]. split; [|by eexists|done]. by exists d'.
Qed.

(** ** Outputs *)

Lemma stream_tokens_ok ids finished rs ps before : state_updated finished rs →
  (if decide (1 < stream_interval) then before = take (Z.to_nat (sent_tokens_offset rs)) (out_ids rs) else out_ids rs = before ++ ids) →
  ∃ r rs', stream_tokens stream_interval ids finished (rs, ps) = (Ok r, (rs', ps)) ∧ same_request rs rs' ∧ state_updated finished rs' ∧
    rs_detokenizer rs' = rs_detokenizer rs ∧
    match r with
    | None => finished = false ∧ rs' = rs ∧ (rs_output_kind rs = DELTA → sent_ids rs' = before)
    | Some ks => rs_output_kind rs = DELTA → sent_ids rs' = before ++ ks ∧ sent_ids rs' = out_ids rs'
    end.
Proof.
  intros Hok Hb. unfold stream_tokens, sent_ids. destruct (decide (1 < stream_interval)) as [Hi|Hi].
  2:{ exists (Some ids), rs. split; [done|]. split; [done|]. split; [done|]. by split. }
  pose proof Hok as [(d & Hd & Hf & Hinv) Hlp Hs]. unfold bind at 1. unfold self_state at 1, gets. cbn [fst]. rewrite Hd.
  assert (Hout : out_ids rs = inc_output_token_ids d) by (unfold out_ids; by rewrite Hd). rewrite <- Hout.
  destruct (finished || _ || _) eqn:Hdue.
  - destruct (decide (rs_output_kind rs = DELTA)) as [Hk|Hk].
    + unfold modify_state. rewrite bind_modify. cbn [fst snd]. set (n := len (out_ids rs)) in *.
      exists (Some (py_from (out_ids rs) (sent_tokens_offset rs))), (set_sent_offset n rs). split; [done|]. split; [done|].
      assert (Hn : 0 ≤ n ∧ take (Z.to_nat n) (out_ids rs) = out_ids rs).
      { split; [apply len_nonneg|]. unfold n, len. by rewrite Nat2Z.id, firstn_all. }
      split; [|split; [done|]].
      * split; [by exists d|done|]. change (0 ≤ n ≤ n). lia.
      * intros _. change (take (Z.to_nat n) (out_ids rs) = before ++ py_from (out_ids rs) (sent_tokens_offset rs) ∧
          take (Z.to_nat n) (out_ids rs) = out_ids rs). split; [|apply Hn]. rewrite (proj2 Hn), Hb, py_from_nonneg by lia. by rewrite take_drop.
    + exists (Some ids), rs. split; [done|]. split; [done|]. split; [done|]. split; [done|]. by intros.
  - exists None, rs. destruct finished; [by cbn in Hdue|]. split; [done|]. split; [done|]. split; [done|].
    split; [done|]. split; [done|]. split; [done|]. by intros.
Qed.

Lemma _new_completion_output_ok ids finish stop rs ps : let finished := bool_decide (is_Some finish) in state_updated finished rs →
  ∃ c rs', _new_completion_output ids finish stop (rs, ps) = (Ok c, (rs', ps)) ∧ same_request rs rs' ∧ state_updated finished rs' ∧
    sent_tokens_offset rs' = sent_tokens_offset rs ∧ out_ids rs' = out_ids rs ∧ out_text rs' = out_text rs ∧
    co_index c = rs_request_index rs ∧ co_finish_reason c = finish ∧ quiet (co_logprobs c) ∧
    (rs_output_kind rs = DELTA → out_released rs' = out_released rs ++ co_text c ∧ co_token_ids c = ids ∧
       (finished = true → out_released rs' = out_text rs')).
Proof.
  intros finished [(d & Hd & Hf & Hinv) (lp & Hlp & Hq) Hs]. unfold _new_completion_output. unfold bind at 1. unfold self_state at 1, gets.
  cbn [fst]. rewrite Hd, Hlp. fold finished.
  assert (Hread : ∃ t d', inc_get_next_output_text finished (bool_decide (rs_output_kind rs = DELTA)) d = (Ok t, d') ∧
    dt_text d' = dt_text d ∧ inc_output_token_ids d' = inc_output_token_ids d ∧ dt_final d' ∧ (finished = false → dt_inv d') ∧
    (rs_output_kind rs = DELTA → dt_released d' = dt_released d ++ t ∧ (finished = true → dt_released d' = dt_text d'))).
  { destruct (decide (rs_output_kind rs = DELTA)) as [Hk|Hk].
    - rewrite bool_decide_eq_true_2 by done. destruct (inc_read_delta finished d) as (t & d' & Hr & Hrel & Ht & Hids & Hfin & Hend).
      { destruct finished; [by right|left; by apply Hinv]. }
      exists t, d'. split; [done|]. split; [done|]. split; [done|]. split; [done|]. by destruct finished.
    - rewrite bool_decide_eq_false_2 by done. destruct (inc_read_all finished d) as [t Ht]. exists t, d. by repeat split. }
  destruct Hread as (t & d' & Hr & Ht & Hids & Hfin & Hinv' & Hrel).
  assert (Hon : on_detokenizer (inc_get_next_output_text finished (bool_decide (rs_output_kind rs = DELTA))) (rs, ps) =
    (Ok t, (set_rs_detokenizer (Some d') rs, ps))) by (unfold on_detokenizer; cbn [fst snd]; by rewrite Hd, Hr).
  rewrite (bind_ok _ _ _ _ _ Hon). unfold bind at 1. unfold self_state, gets. cbn [fst]. set (rs' := set_rs_detokenizer _ _).
  set (logs := match lp_logprobs lp with Some _ => _ | None => _ end).
  assert (Hlogs : logs (rs', ps) = (Ok (lp_logprobs lp), (rs', ps))).
  { unfold logs. destruct (lp_logprobs lp) as [c|] eqn:Hc; [|done]. rewrite (bool_decide_eq_true_2 (lp_len c = 0)) by (by apply Hq).
    by rewrite andb_false_r. }
  rewrite (bind_ok _ _ _ _ _ Hlogs). clear Hlogs logs.
  assert (Hout : out_ids rs' = out_ids rs) by (unfold out_ids; cbn; by rewrite Hd, Hids).
  eexists _, rs'. split; [reflexivity|]. split; [done|]. split; [split; [by exists d'|by exists lp|by rewrite Hout]|].
  split; [done|]. split; [done|]. split; [unfold out_text; cbn; by rewrite Hd, Ht|]. split; [done|]. split; [done|]. split; [done|].
  intros Hk. destruct (Hrel Hk) as [H1 H2]. split; [unfold out_released; cbn; by rewrite Hd, H1|]. split; [cbn; by rewrite bool_decide_eq_true_2|].
  intros Hfd. unfold out_released, out_text. cbn. by apply H2.
Qed.

Lemma _new_request_output_ok ext outputs fin kv rs ps finished : state_updated finished rs →
  ∃ o rs', _new_request_output ext outputs fin kv (rs, ps) = (Ok (Completion o), (rs', ps)) ∧ ro_outputs o = outputs ∧
    ro_finished o = fin ∧ same_request rs rs' ∧ state_updated finished rs' ∧ rs_detokenizer rs' = rs_detokenizer rs ∧
    sent_tokens_offset rs' = sent_tokens_offset rs.
Proof.
  intros [Hd (lp & Hlp & Hq) Hs]. unfold _new_request_output. unfold bind at 1. unfold self_state, gets. cbn [fst].
  set (m := if decide (rs_output_kind rs = DELTA) then _ else _).
  assert (Hm : ∃ v lp', m (rs, ps) = (Ok v, (set_rs_logprobs (Some lp') rs, ps)) ∧ quiet (lp_logprobs lp')).
  { unfold m. destruct (decide _).
    - unfold on_logprobs. cbn [fst snd]. rewrite Hlp. unfold pop_prompt_logprobs. unfold bind at 1. cbn [get].
      destruct (lp_prompt_logprobs lp) as [c|]; [destruct (decide _)|]; mstep; by eexists _, _.
    - unfold on_logprobs. cbn [fst snd]. rewrite Hlp. by eexists _, _. }
  destruct Hm as (v & lp' & Hm & Hq'). rewrite (bind_ok _ _ _ _ _ Hm). eexists _, _. split; [reflexivity|]. split; [done|]. split; [done|].
  split; [done|]. split; [|done]. split; [done|by exists lp'|done].
Qed.

(** What an output adds to the stream of a request: nothing is lost and nothing
    is repeated. *)
Record emitted (finished : bool) (rs : rstate) (before : list Z) (item : option OutputItem) (rs' : rstate) : Prop := {
  em_same : same_request rs rs';
  em_ids : out_ids rs' = out_ids rs;
  em_text : out_text rs' = out_text rs;
  em_ok : finished = false → state_ok rs';
  em_none : item = None → finished = false ∧ (rs_output_kind rs = DELTA → out_released rs' = out_released rs ∧ sent_ids rs' = before);
  em_some it : item = Some it → ∃ c, single it c ∧ co_index c = rs_request_index rs ∧
    (rs_output_kind rs = DELTA → out_released rs' = out_released rs ++ co_text c ∧ sent_ids rs' = before ++ co_token_ids c);
  em_final : finished = true → rs_output_kind rs = DELTA → out_released rs' = out_text rs' ∧ sent_ids rs' = out_ids rs'
}.

Lemma sent_ids_same rs rs' : sent_tokens_offset rs' = sent_tokens_offset rs → out_ids rs' = out_ids rs → sent_ids rs' = sent_ids rs.
Proof. unfold sent_ids. by intros -> ->. Qed.
Lemma out_same rs rs' : rs_detokenizer rs' = rs_detokenizer rs →
  out_ids rs' = out_ids rs ∧ out_text rs' = out_text rs ∧ out_released rs' = out_released rs.
Proof. unfold out_ids, out_text, out_released. by intros ->. Qed.

Lemma make_request_output_ok ids finish stop kv rs ps before : let finished := bool_decide (is_Some finish) in
  state_updated finished rs → known_child ps rs →
  (if decide (1 < stream_interval) then before = take (Z.to_nat (sent_tokens_offset rs)) (out_ids rs) else out_ids rs = before ++ ids) →
  ∃ item rs', make ids false finish stop kv (rs, ps) = (Ok item, (rs', parents_after finished rs ps)) ∧ emitted finished rs before item rs'.
Proof.
  intros finished Hok Hchild Hb. unfold make_request_output. fold finished. unfold bind at 1. unfold self_state at 1, gets. cbn [fst].
  destruct (negb finished && _) eqn:Hskip.
  { apply andb_true_iff in Hskip as [Hf Hk]. apply negb_true_iff in Hf. apply bool_decide_eq_true in Hk. rewrite Hf in *.
    exists None, rs. split; [unfold parents_after; by destruct (rs_parent_req rs)|].
    split; try done; [intros _; by apply state_updated_ok|]. intros _. split; [done|]. by rewrite Hk. }
  destruct (stream_tokens_ok ids finished rs ps before Hok Hb) as (r & rs1 & Hst & Hs1 & Hok1 & Hd1 & Hr).
  rewrite (bind_ok _ _ _ _ _ Hst). clear Hst Hskip. destruct (out_same _ _ Hd1) as (Hi1 & Ht1 & Hr1). destruct r as [ks|].
  2:{ destruct Hr as (Hf & -> & Hsent). rewrite Hf in *. exists None, rs. split; [unfold parents_after; by destruct (rs_parent_req rs)|].
      split; try done; [intros _; by apply state_updated_ok|]. intros _. split; [done|]. intros Hk. by split; [|apply Hsent]. }
  destruct (_new_completion_output_ok ks finish stop rs1 ps Hok1) as (c & rs2 & Hc & Hs2 & Hok2 & Hsent2 & Hi2 & Ht2 & Hidx & Hfin & Hquiet & Hdelta).
  fold finished in Hok2, Hdelta. rewrite (bind_ok _ _ _ _ _ Hc). clear Hc.
  assert (Hgo : ∀ ext outputs fin ps', outputs = Fresh [Some c] → ∃ item rs',
    (let* o := _new_request_output ext outputs fin kv in ret (Some o)) (rs2, ps') = (Ok item, (rs', ps')) ∧ emitted finished rs before item rs').
  { intros ext outputs fin ps' ->. destruct (_new_request_output_ok ext (Fresh [Some c]) fin kv rs2 ps' finished Hok2)
      as (o & rs3 & Ho & Hout & _ & Hs3 & Hok3 & Hd3 & Hsent3).
    rewrite (bind_ok _ _ _ _ _ Ho). exists (Some (Completion o)), rs3. split; [done|]. destruct (out_same _ _ Hd3) as (Hi3 & Ht3 & Hr3).
    assert (Hsent : sent_ids rs3 = sent_ids rs1) by (apply sent_ids_same; congruence).
    assert (Hkind : rs_output_kind rs1 = rs_output_kind rs) by apply Hs1.
    split; [by transitivity rs1; [|transitivity rs2]|congruence|congruence| |done| |].
    - intros Hf. rewrite Hf in Hok3. by apply state_updated_ok.
    - intros it [= <-]. exists c. split; [by exists o|]. split; [rewrite Hidx; apply Hs1|]. intros Hk.
      destruct (Hdelta (eq_trans Hkind Hk)) as (H1 & H2 & _). split; [congruence|]. rewrite Hsent, H2. by apply Hr.
    - intros Hf Hk. destruct (Hdelta (eq_trans Hkind Hk)) as (_ & _ & H3). split; [rewrite Hr3, Ht3; by apply H3|].
      rewrite Hsent, (proj2 (Hr Hk)). congruence. }
  unfold parents_after. destruct (rs_parent_req rs) as [p|] eqn:Hp; [|by apply Hgo].
  destruct (Hchild p Hp) as (parent & Hpar & Hid & Hkind).
  set (parent' := if finished then set_child_requests (child_requests parent ∖ {[rs_request_id rs]}) parent else parent).
  assert (Hps : (if finished then alter (λ x, set_child_requests (child_requests x ∖ {[rs_request_id rs]}) x) p ps else ps) = <[p := parent']> ps).
  { unfold parent'. destruct finished; [|by rewrite insert_id]. apply map_eq. intros q. destruct (decide (q = p)) as [->|].
    - by rewrite lookup_alter_eq, lookup_insert_eq, Hpar.
    - by rewrite lookup_alter_ne, lookup_insert_ne. }
  rewrite Hps. assert (Hfinc : co_finished c = finished) by (unfold co_finished; by rewrite Hfin).
  assert (Hget : on_parent p (get_outputs p (rs_request_id rs) c) (rs2, ps) =
    (Ok (Fresh [Some c], bool_decide (child_requests parent' = ∅)), (rs2, <[p := parent']> ps))).
  { unfold on_parent. cbn [fst snd]. rewrite Hpar. pose proof (get_outputs_ok p (rs_request_id rs) c parent Hkind Hid) as Hg.
    rewrite Hfinc in Hg. cbv zeta in Hg. fold parent' in Hg. by rewrite Hg. }
  rewrite (bind_ok _ _ _ _ _ Hget). unfold bind at 1. cbn [get snd list_of]. rewrite decide_False by done.
  assert (Hpp : on_parent p get (rs2, <[p := parent']> ps) = (Ok parent', (rs2, <[p := parent']> ps))).
  { unfold on_parent. cbn [fst snd]. rewrite lookup_insert_eq. cbn [get]. by rewrite insert_insert_eq. }
  rewrite (bind_ok _ _ _ _ _ Hpp). by apply Hgo.
Qed.

(** ** Behaviour that is not meant *)

(** With a stream interval, pooling outputs raise an assertion. *)
Lemma interval_breaks_pooling ids finish stop kv (rs : rstate) ps : 1 < stream_interval → rs_detokenizer rs = None → is_Some finish →
  make ids true finish stop kv (rs, ps) = (Raise AssertionError, (rs, ps)).
Proof.
  intros Hi Hd Hf. unfold make_request_output, bind at 1. cbn. rewrite bool_decide_eq_true_2 by done. cbn.
  unfold stream_tokens, bind at 1. rewrite decide_True by done. unfold bind, self_state, gets. cbn. by rewrite Hd.
Qed.

(** In cumulative mode the interval has no effect: the offset of what was sent
    stays 0, so an output is always due. *)
Lemma cumulative_ignores_interval ids finished (rs : rstate) ps d : rs_output_kind rs = CUMULATIVE → sent_tokens_offset rs = 0 → rs_detokenizer rs = Some d →
  stream_tokens stream_interval ids finished (rs, ps) = (Ok (Some ids), (rs, ps)).
Proof.
  intros Hk Ho Hd. unfold stream_tokens. destruct (decide _); [|done]. unfold bind at 1, self_state, gets. cbn [fst]. rewrite Hd.
  rewrite (bool_decide_eq_true_2 (sent_tokens_offset rs = 0)) by done. rewrite orb_true_r. cbn [orb]. by rewrite Hk.
Qed.

(** The last output of an aborted request has no tokens and repeats all log
    probabilities: the slice from minus zero is the whole list. *)
Lemma abort_repeats_logprobs stop (rs : rstate) ps d lp l : rs_detokenizer rs = Some d → dt_final d → rs_logprobs_processor rs = Some lp →
  lp_logprobs lp = Some (ListLogprobs l) → rs_output_kind rs = DELTA →
  ∃ c s', _new_completion_output [] (Some ABORT) stop (rs, ps) = (Ok c, s') ∧ co_token_ids c = [] ∧ co_logprobs c = Some (ListLogprobs l).
Proof.
  intros Hd Hfin Hlp Hl Hk. unfold _new_completion_output, bind at 1, self_state at 1, gets. cbn [fst]. rewrite Hd, Hlp, Hk.
  rewrite !bool_decide_eq_true_2 by (first [done|by eexists]).
  destruct (inc_read_delta true d) as (t & d' & Hr & _); [by right|].
  assert (Hon : on_detokenizer (inc_get_next_output_text true true) (rs, ps) = (Ok t, (set_rs_detokenizer (Some d') rs, ps)))
    by (unfold on_detokenizer; cbn [fst snd]; by rewrite Hd, Hr).
  rewrite (bind_ok _ _ _ _ _ Hon). unfold bind at 1, self_state, gets. cbn [fst]. rewrite Hl. cbn [andb].
  destruct (decide (len l = 0)) as [H0|H0].
  - rewrite (bool_decide_eq_true_2 (lp_len (ListLogprobs l) = 0)) by done. cbn. by eexists _, _.
  - rewrite (bool_decide_eq_false_2 (lp_len (ListLogprobs l) = 0)) by done. cbn [negb]. rewrite bind_assoc.
    assert (Hs : lp_slice (ListLogprobs l) (Some (- len (@nil Z))) None None = Ok (ListLogprobs l)).
    { cbn [lp_slice]. change (- len (@nil Z)) with 0. by rewrite slice_all. }
    rewrite Hs, bind_of_res, bind_ret_l. by eexists _, _.
Qed.
End emit.
