(* ===== verification/OutputInvariant.v ===== *)
(** The invariant of the output processor, kept by each of its steps.

    A processing step and an abort are described by [advanced]: what happens to
    the request, to its collector and to nothing else. *)

From S2P Require Import Prelude.
From S2P Require Import OrderedDict.
From S2P Require Import Request.
From S2P Require Import SchedulerUpdate.
From S2P Require Import Detokenizer.
From S2P Require Import DetokenizerSpec.
From S2P Require Import PyFloat.
From S2P Require Import Logprobs.
From S2P Require Import RequestOutputs.
From S2P Require Import OutputProcessor.
From S2P Require Import OutputProcessorSpec.

Section invariant.
Context {D : Type} `{Decoder D} `{!TotalDecoder D} (stream_interval : Z).
Abbreviation rstate := (RequestState D).
Abbreviation processor := (OutputProcessor D).
Implicit Types (s : processor) (rs : rstate).

Definition live s (id : string) : option rstate := od_get id (request_states s).

(** [leaving] are requests about to be removed; [unlisted] are requests that are
    no longer listed under their external id. *)
Record op_inv (leaving unlisted : gset string) s : Prop := {
  oi_nodup : NoDup (od_keys (request_states s));
  oi_id id rs : live s id = Some rs → rs_request_id rs = id;
  oi_state id rs : live s id = Some rs → (id ∉ leaving) → state_ok rs ∧ known_child (op_parents s) rs;
  oi_registered id rs p : live s id = Some rs → rs_parent_req rs = Some p →
    ∃ parent, op_parents s !! p = Some parent ∧ parent_requests s !! pa_request_id parent = Some p;
  oi_external ext l : external_req_ids s !! ext = Some l → l ≠ [] ∧ NoDup l;
  oi_listed ext l id : external_req_ids s !! ext = Some l → id ∈ l →
    (id ∉ unlisted) ∧ ∃ rs, live s id = Some rs ∧ rs_external_req_id rs = ext;
  oi_lists id rs : live s id = Some rs → (id ∉ unlisted) → ∃ l, external_req_ids s !! rs_external_req_id rs = Some l ∧ id ∈ l;
  oi_parents k p : parent_requests s !! k = Some p → ∃ parent, op_parents s !! p = Some parent ∧ pa_request_id parent = k;
  oi_children p parent c p' parent' : op_parents s !! p = Some parent → c ∈ child_requests parent →
    op_parents s !! p' = Some parent' → pa_request_id parent' ≠ c;
  oi_collectors q c : op_queues s !! q = Some c → collector_ok c;
  oi_queue id rs q : live s id = Some rs → rs_queue rs = Some q →
    ∃ c, op_queues s !! q = Some c ∧ aggregate c = bool_decide (rs_output_kind rs = DELTA);
  oi_slots id id' rs rs' q : live s id = Some rs → live s id' = Some rs' → rs_queue rs = Some q → rs_queue rs' = Some q →
    rs_request_index rs = rs_request_index rs' → id = id'
}.

(** The flag for waiting until all requests are done. *)
Definition drained_ok s : Prop := _requests_drained s = bool_decide (request_states s = []).

(** ** Steps of one request *)

(** The collector of a request after an output with text [t] and tokens [k]. *)
Definition queue_step (rs : rstate) (t : text) (k : list Z) s s' : Prop :=
  match rs_queue rs with
  | None => op_queues s' = op_queues s
  | Some q => ∃ c c', op_queues s !! q = Some c ∧ op_queues s' = <[q := c']> (op_queues s) ∧ collector_ok c' ∧ aggregate c' = aggregate c ∧
      (aggregate c = true → ∀ i,
         pending co_text i c' = pending co_text i c ++ (if decide (i = rs_request_index rs) then t else []) ∧
         pending co_token_ids i c' = pending co_token_ids i c ++ (if decide (i = rs_request_index rs) then k else []))
  end.

(** A request has made a step from [rs] to [rs'], its last one if [finished]. *)
Record advanced (id : string) (rs rs' : rstate) (finished : bool) s s' : Prop := {
  ad_states : request_states s' = if finished then od_del id (request_states s) else od_set id rs' (request_states s);
  ad_same : same_request rs rs';
  ad_stream : ∃ t k, queue_step rs t k s s' ∧
    (is_Some (rs_queue rs) → rs_output_kind rs = DELTA →
       out_released rs' = out_released rs ++ t ∧ sent_ids stream_interval rs' = sent_ids stream_interval rs ++ k);
  ad_final : finished = true → is_Some (rs_queue rs) → rs_output_kind rs = DELTA →
    out_released rs' = out_text rs' ∧ sent_ids stream_interval rs' = out_ids rs'
}.

Lemma put_ok q it cmp s : (∀ c, op_queues s !! q = Some c → collector_ok c) → is_Some (op_queues s !! q) → single it cmp →
  ∃ c c', op_queues s !! q = Some c ∧ put q it s = (Ok tt, set_op_queues (<[q := c']> (op_queues s)) s) ∧ collector_ok c' ∧
    aggregate c' = aggregate c ∧ qu_request_id c' = qu_request_id c ∧
    (aggregate c = true → (∀ i, pending co_text i c' = pending co_text i c ++ piece co_text i (Some cmp)) ∧
      (∀ i, pending co_token_ids i c' = pending co_token_ids i c ++ piece co_token_ids i (Some cmp))).
Proof.
  intros Hok [c Hc] Hs. exists c. destruct (collector_put_ok c it cmp (op_parents s) (Hok c Hc) Hs) as (c' & Hp & Hc' & Ha & Hi & Hap).
  exists c'. split; [done|]. split; [|by split]. unfold put. rewrite Hc, Hp. by destruct s.
Qed.

(** ** The lists of external ids *)

Lemma remove_external_ok ext id l s : external_req_ids s !! ext = Some l → id ∈ l → NoDup l →
  ∃ m, remove_external ext id s = (Ok tt, set_external_req_ids m s) ∧
    ∀ e, m !! e = if decide (e = ext) then if decide (filter (λ y, y ≠ id) l = []) then None else Some (filter (λ y, y ≠ id) l)
                  else external_req_ids s !! e.
Proof.
  intros Hl Hid Hnd. unfold remove_external. unfold bind at 1. cbn [get]. rewrite Hl. change (default [] (Some l)) with l.
  rewrite decide_True by done. rewrite list_remove_first_nodup by done.
  eexists. split; [reflexivity|]. intros e. destruct (decide (e = ext)) as [->|Hne]; destruct (decide (filter (λ y, y ≠ id) l = [])).
  - by rewrite lookup_delete_eq.
  - by rewrite lookup_insert_eq.
  - by rewrite lookup_delete_ne.
  - by rewrite lookup_insert_ne.
Qed.

Lemma filter_other_in (id : string) (l : list string) x : x ∈ filter (λ y, y ≠ id) l ↔ x ≠ id ∧ x ∈ l.
Proof. by rewrite list_elem_of_filter. Qed.

(** A request leaves the list of its external id. *)
Lemma remove_external_inv leaving unlisted id rs s : op_inv leaving unlisted s → live s id = Some rs → id ∉ unlisted →
  ∃ m, remove_external (rs_external_req_id rs) id s = (Ok tt, set_external_req_ids m s) ∧
    op_inv leaving ({[id]} ∪ unlisted) (set_external_req_ids m s).
Proof.
  intros Hi Hlive Hun. destruct (oi_lists _ _ _ Hi id rs Hlive Hun) as (l & Hl & Hid). destruct (oi_external _ _ _ Hi _ _ Hl) as [_ Hnd].
  destruct (remove_external_ok _ _ _ _ Hl Hid Hnd) as (m & Hrun & Hm). exists m. split; [done|]. set (l' := filter (λ y, y ≠ id) l) in *.
  assert (Hl' : ∀ x, x ∈ l' ↔ x ≠ id ∧ x ∈ l) by (intros x; apply filter_other_in).
  destruct Hi as [I1 I2 I3 I4 I5 I6 I7 I8 I9 I10 I11 I12]. split; try done.
  - intros e k Hk. change (m !! e = Some k) in Hk. rewrite Hm in Hk. destruct (decide (e = _)) as [->|]; [|by eapply I5].
    destruct (decide (l' = [])); [done|]. injection Hk as <-. split; [done|]. unfold l'. by apply NoDup_filter.
  - intros e k x Hk Hx. change (m !! e = Some k) in Hk. rewrite Hm in Hk. destruct (decide (e = _)) as [->|He].
    + destruct (decide (l' = [])); [done|]. injection Hk as <-. apply Hl' in Hx as [Hne Hx]. destruct (I6 _ _ x Hl Hx) as [Hxu Hx']. split; [set_solver|done].
    + destruct (I6 _ _ x Hk Hx) as [Hxu (rs' & Hx1 & Hx2)]. split; [|by exists rs']. intros Hin. apply elem_of_union in Hin as [Hin|Hin]; [|done].
      apply elem_of_singleton in Hin as ->. apply He. change (live s id = Some rs') in Hx1. congruence.
  - intros x rs' Hx Hxu. change (live s x = Some rs') in Hx. assert (Hxid : x ≠ id ∧ x ∉ unlisted) by set_solver. destruct Hxid as [Hxid Hxu'].
    destruct (I7 x rs' Hx Hxu') as (k & Hk & Hxk). change (∃ l0, m !! rs_external_req_id rs' = Some l0 ∧ x ∈ l0). setoid_rewrite Hm.
    destruct (decide (rs_external_req_id rs' = rs_external_req_id rs)) as [He|He]; [|by exists k].
    rewrite He, Hl in Hk. injection Hk as <-. assert (Hin : x ∈ l') by (by apply Hl').
    destruct (decide (l' = [])) as [Hn|]; [rewrite Hn in Hin; by apply elem_of_nil in Hin|]. by exists l'.
Qed.

(** A request that is listed nowhere is removed. *)
Lemma delete_state_inv leaving unlisted id s : op_inv leaving unlisted s → id ∈ unlisted →
  op_inv (leaving ∖ {[id]}) (unlisted ∖ {[id]}) (set_request_states (od_del id (request_states s)) s).
Proof.
  intros [I1 I2 I3 I4 I5 I6 I7 I8 I9 I10 I11 I12] Hid.
  assert (Hlive : ∀ x rs, live (set_request_states (od_del id (request_states s)) s) x = Some rs → x ≠ id ∧ live s x = Some rs).
  { intros x rs. unfold live. cbn [request_states set_request_states]. rewrite od_get_del. by destruct (decide (x = id)). }
  split; try done.
  - by apply od_del_nodup.
  - intros x rs [_ Hx]%Hlive. by apply I2.
  - intros x rs [Hne Hx]%Hlive Hl. apply (I3 x rs); [done|]. set_solver.
  - intros x rs p [_ Hx]%Hlive. by apply (I4 x rs).
  - intros e l x Hl Hx. destruct (I6 e l x Hl Hx) as [Hu (rs & Hr & He)]. split; [set_solver|]. exists rs. split; [|done].
    unfold live. cbn [request_states set_request_states]. rewrite od_get_del, decide_False; [done|]. intros ->. done.
  - intros x rs [Hne Hx]%Hlive Hu. apply (I7 x rs); [done|]. set_solver.
  - intros x rs q [_ Hx]%Hlive. by apply (I11 x rs).
  - intros x y rs rs' q [_ Hx]%Hlive [_ Hy]%Hlive. by apply (I12 _ _ _ _ _ Hx Hy).
Qed.

(** ** States, parents and collectors *)

Lemma live_set id rs' s x : live (set_request_states (od_set id rs' (request_states s)) s) x = if decide (x = id) then Some rs' else live s x.
Proof. apply od_get_set. Qed.

(** The state of a request changes. *)
Lemma set_state_inv leaving leaving' unlisted id rs rs' s : op_inv leaving unlisted s → live s id = Some rs → same_request rs rs' →
  leaving ⊆ leaving' → ((id ∉ leaving') → state_ok rs') →
  op_inv leaving' unlisted (set_request_states (od_set id rs' (request_states s)) s).
Proof.
  intros [I1 I2 I3 I4 I5 I6 I7 I8 I9 I10 I11 I12] Hlive [S1 S2 S3 S4 S5 S6] Hsub Hok.
  split; cbn [parent_requests external_req_ids op_parents op_queues set_request_states]; try done.
  - by apply od_set_nodup.
  - intros x rx. rewrite live_set. case_decide as Hx; [intros [= <-]; subst x; rewrite S1; by apply I2|apply I2].
  - intros x rx. rewrite live_set. case_decide as Hx; intros Hr Hl.
    + injection Hr as <-. subst x. split; [by apply Hok|]. destruct (I3 id rs Hlive ltac:(set_solver)) as [_ Hk].
      unfold known_child. rewrite S3, S1. exact Hk.
    + apply (I3 x rx Hr). set_solver.
  - intros x rx p. rewrite live_set. case_decide as Hx; [intros [= <-]; subst x; rewrite S3; by apply (I4 id rs)|apply I4].
  - intros e l x Hl Hx. destruct (I6 e l x Hl Hx) as [Hu (rx & Hr & He)]. split; [done|]. rewrite live_set.
    case_decide as Hxi; [subst x; exists rs'; split; [done|]; rewrite S2; congruence|by exists rx].
  - intros x rx. rewrite live_set. case_decide as Hx; [intros [= <-]; subst x; rewrite S2; by apply (I7 id rs)|apply I7].
  - intros x rx q. rewrite live_set. case_decide as Hx; [intros [= <-]; subst x; rewrite S5, S6; by apply (I11 id rs)|apply I11].
  - intros x y rx ry q. rewrite !live_set. case_decide as Hx; case_decide as Hy; try congruence.
    + intros [= <-] Hry. rewrite S4, S6. subst x. by apply (I12 id y rs ry q).
    + intros Hrx [= <-]. rewrite S4, S6. subst y. by apply (I12 x id rx rs q).
    + apply I12.
Qed.

(** Which parents there are after an output of a request. *)
Lemma parents_after_lookup finished rs ps p :
  match parents_after finished rs ps !! p with
  | Some parent' => ∃ parent, ps !! p = Some parent ∧ pa_request_id parent' = pa_request_id parent ∧
      pa_sampling_params parent' = pa_sampling_params parent ∧
      child_requests parent' ⊆ child_requests parent ∧
      ∀ c, c ∈ child_requests parent → (finished = false ∨ c ≠ rs_request_id rs) → c ∈ child_requests parent'
  | None => ps !! p = None
  end.
Proof.
  unfold parents_after. destruct (rs_parent_req rs) as [q|]; [destruct finished|].
  2-3: destruct (ps !! p) as [parent|]; [by exists parent|done].
  destruct (decide (p = q)) as [->|Hne].
  - rewrite lookup_alter_eq. destruct (ps !! q) as [parent|]; [|done]. exists parent. cbn.
    split; [done|]. split; [done|]. split; [done|]. split; [set_solver|]. intros c Hc [|Hn]; [done|]. set_solver.
  - rewrite lookup_alter_ne by done. destruct (ps !! p) as [parent|]; [by exists parent|done].
Qed.
Lemma parents_after_some finished rs ps p parent : ps !! p = Some parent → ∃ parent', parents_after finished rs ps !! p = Some parent' ∧
  pa_request_id parent' = pa_request_id parent ∧ pa_sampling_params parent' = pa_sampling_params parent ∧
  ∀ c, c ∈ child_requests parent → (finished = false ∨ c ≠ rs_request_id rs) → c ∈ child_requests parent'.
Proof.
  intros Hp. pose proof (parents_after_lookup finished rs ps p) as Hl. destruct (parents_after finished rs ps !! p) as [parent'|]; [|congruence].
  destruct Hl as (parent0 & H1 & H2 & H3 & _ & H5). exists parent'. assert (parent0 = parent) as -> by congruence. done.
Qed.

Lemma parents_after_inv leaving unlisted finished rs s : op_inv leaving unlisted s →
  (finished = true → rs_request_id rs ∈ leaving ∨ live s (rs_request_id rs) = None) →
  op_inv leaving unlisted (set_op_parents (parents_after finished rs (op_parents s)) s).
Proof.
  intros [I1 I2 I3 I4 I5 I6 I7 I8 I9 I10 I11 I12] Hfin.
  split; cbn [request_states parent_requests external_req_ids op_parents op_queues set_op_parents]; try done.
  - intros x rx Hx Hl. change (live s x = Some rx) in Hx. destruct (I3 x rx Hx Hl) as [Hok Hk]. split; [done|]. intros p Hp.
    destruct (Hk p Hp) as (parent & Hpar & Hc & Hkind). destruct (parents_after_some finished rs _ _ _ Hpar) as (parent' & H1 & H2 & H3 & H4).
    exists parent'. split; [done|]. rewrite H3. split; [|done]. apply H4; [done|]. destruct finished; [right|by left].
    rewrite (I2 _ _ Hx). intros He. destruct (Hfin eq_refl) as [Hin|Hn]; [by rewrite <- He in Hin|]. rewrite <- He in Hn. congruence.
  - intros x rx p Hx Hp. destruct (I4 x rx p Hx Hp) as (parent & Hpar & Hreg).
    destruct (parents_after_some finished rs _ _ _ Hpar) as (parent' & H1 & H2 & _). exists parent'. by rewrite H2.
  - intros k p Hk. destruct (I8 k p Hk) as (parent & Hpar & Hid).
    destruct (parents_after_some finished rs _ _ _ Hpar) as (parent' & H1 & H2 & _). exists parent'. by rewrite H2.
  - intros p parent c p' parent' Hp Hc Hp'. pose proof (parents_after_lookup finished rs (op_parents s) p) as Hl. rewrite Hp in Hl.
    destruct Hl as (pa & Hpa & _ & _ & Hsub & _). pose proof (parents_after_lookup finished rs (op_parents s) p') as Hl'. rewrite Hp' in Hl'.
    destruct Hl' as (pa' & Hpa' & Hid & _). rewrite Hid. apply (I9 p pa c p' pa'); [done|set_solver|done].
Qed.

Lemma set_queue_inv leaving unlisted q c c' s : op_inv leaving unlisted s → op_queues s !! q = Some c → collector_ok c' →
  aggregate c' = aggregate c → op_inv leaving unlisted (set_op_queues (<[q := c']> (op_queues s)) s).
Proof.
  intros [I1 I2 I3 I4 I5 I6 I7 I8 I9 I10 I11 I12] Hq Hc Ha.
  split; cbn [request_states parent_requests external_req_ids op_parents op_queues set_op_queues]; try done.
  - intros q' x [[<- <-]|[_ Hx]]%lookup_insert_Some; [done|by eapply I10].
  - intros x rx q' Hx Hq'. destruct (I11 x rx q' Hx Hq') as (d & Hd & Had). destruct (decide (q' = q)) as [->|Hne].
    + exists c'. rewrite lookup_insert_eq. split; [done|]. rewrite Ha. congruence.
    + exists d. by rewrite lookup_insert_ne.
Qed.

Lemma unregister_inv leaving unlisted k s : op_inv leaving unlisted s →
  (∀ id rs p parent, live s id = Some rs → rs_parent_req rs = Some p → op_parents s !! p = Some parent → pa_request_id parent ≠ k) →
  op_inv leaving unlisted (set_parent_requests (delete k (parent_requests s)) s).
Proof.
  intros [I1 I2 I3 I4 I5 I6 I7 I8 I9 I10 I11 I12] Hno.
  split; cbn [request_states parent_requests external_req_ids op_parents op_queues set_parent_requests]; try done.
  - intros x rx p Hx Hp. destruct (I4 x rx p Hx Hp) as (parent & Hpar & Hreg). exists parent. split; [done|].
    rewrite lookup_delete_ne; [done|]. intros He. by apply (Hno x rx p parent).
  - intros j p [_ Hj]%lookup_delete_Some. by apply I8.
Qed.

(** ** Removing requests *)

Lemma remove_external_frame ext id m l s : remove_external ext id s = (Ok tt, set_external_req_ids m s) →
  remove_external ext id (set_request_states l s) = (Ok tt, set_external_req_ids m (set_request_states l s)).
Proof.
  unfold remove_external. unfold bind at 1 3. cbn [get external_req_ids set_request_states]. destruct (decide _); [|done].
  unfold modify. intros [= Hs]. by rewrite Hs.
Qed.

(** The parent of a request that leaves is forgotten with its last child. *)
Lemma no_live_child leaving unlisted p parent rs s : op_inv leaving unlisted s → op_parents s !! p = Some parent →
  parent_requests s !! pa_request_id parent = Some p →
  (∀ id rs', live s id = Some rs' → (id ∉ leaving) ∧ (rs_parent_req rs' = Some p → id ∉ child_requests parent)) →
  rs_parent_req rs = Some p →
  ∀ id rs' p' parent', live s id = Some rs' → rs_parent_req rs' = Some p' → op_parents s !! p' = Some parent' → pa_request_id parent' ≠ pa_request_id parent.
Proof.
  intros Hi Hp Hreg Hno Hrs id rs' p' parent' Hl Hp' Hpar' He. destruct (oi_registered _ _ _ Hi id rs' p' Hl Hp') as (pa & Hpa & Hreg').
  assert (pa = parent') as -> by congruence. rewrite He, Hreg in Hreg'. injection Hreg' as <-. destruct (Hno id rs' Hl) as [Hnl Hc].
  destruct (oi_state _ _ _ Hi id rs' Hl Hnl) as [_ Hk]. destruct (Hk p Hp') as (pa' & Hpa' & Hin & _).
  assert (pa' = parent) as -> by congruence. rewrite <- (oi_id _ _ _ Hi id rs' Hl) in Hc. by apply (Hc Hp').
Qed.

Lemma free_finished_ok id o rs s : op_inv {[id]} ∅ s → live s id = Some rs →
  ∃ s', free_finished id o s = (Ok (if decide (eo_finish_reason (pr_output o) = None) then [id] else []), s') ∧ op_inv ∅ ∅ s' ∧
    request_states s' = od_del id (request_states s) ∧ op_queues s' = op_queues s ∧ op_parents s' = op_parents s ∧
    _requests_drained s' = if decide (request_states s' = []) then true else _requests_drained s.
Proof.
  intros Hi Hlive. destruct (remove_external_inv _ _ id rs s Hi Hlive ltac:(set_solver)) as (m & Hm & Hi1).
  apply (delete_state_inv _ _ id) in Hi1; [|set_solver]. unfold free_finished. unfold bind at 1. cbn [get]. unfold live in Hlive.
  rewrite Hlive. cbn [of_option]. rewrite bind_ret_l, bind_modify. rewrite (bind_ok _ _ _ _ _ (remove_external_frame _ _ _ _ _ Hm)).
  set (s1 := set_external_req_ids m (set_request_states (od_del id (request_states s)) s)).
  assert (Hi2 : op_inv ∅ ∅ s1).
  { replace (∅ : gset string) with ({[id]} ∖ {[id]} : gset string) at 1 by set_solver.
    replace (∅ : gset string) with (({[id]} ∪ ∅) ∖ {[id]} : gset string) by set_solver. exact Hi1. }
  clear Hi1.
  assert (Hpar : ∃ s2, (match rs_parent_req rs with
     | None => ret tt
     | Some p => let* s := get in let* parent := of_option KeyError (op_parents s !! p) in
         if decide (child_requests parent = ∅) then modify (set_parent_requests (delete (pa_request_id parent) (parent_requests s))) else ret tt
     end) s1 = (Ok tt, s2) ∧ op_inv ∅ ∅ s2 ∧ request_states s2 = request_states s1 ∧ op_queues s2 = op_queues s1 ∧ op_parents s2 = op_parents s1 ∧
     _requests_drained s2 = _requests_drained s1).
  { destruct (rs_parent_req rs) as [p|] eqn:Hp; [|by exists s1]. unfold bind at 1. cbn [get].
    destruct (oi_registered _ _ _ Hi id rs p Hlive Hp) as (parent & Hpar & Hreg). change (op_parents s1) with (op_parents s).
    rewrite Hpar. cbn [of_option]. rewrite bind_ret_l. destruct (decide (child_requests parent = ∅)) as [Hc|]; [|by exists s1].
    eexists. split; [reflexivity|]. split; [|done]. apply unregister_inv; [done|].
    eapply (no_live_child ∅ ∅ p parent rs s1); try done. intros x rx _. split; [set_solver|]. intros _. rewrite Hc. set_solver. }
  destruct Hpar as (s2 & Hrun & Hi3 & H1 & H2 & H3 & H4). rewrite (bind_ok _ _ _ _ _ Hrun), bind_modify.
  change (request_states s1) with (od_del id (request_states s)) in H1. change (op_queues s1) with (op_queues s) in H2.
  change (op_parents s1) with (op_parents s) in H3. change (_requests_drained s1) with (_requests_drained s) in H4.
  destruct (decide (request_states s2 = [])) as [Hn|Hn].
  - exists (set_requests_drained true s2). split; [done|]. split; [by destruct Hi3|]. split; [done|]. split; [done|]. split; [done|].
    cbn. by rewrite decide_True.
  - exists s2. split; [done|]. split; [done|]. split; [done|]. split; [done|]. split; [done|]. by rewrite decide_False.
Qed.

(** ** Processing an output *)

Lemma on_request_ok {A} id (m : M (with_parents (D := D)) A) rs a rs' ps' s : live s id = Some rs → m (rs, op_parents s) = (Ok a, (rs', ps')) →
  on_request id m s = (Ok a, set_request_states (od_set id rs' (request_states s)) (set_op_parents ps' s)).
Proof. unfold on_request, live. intros -> Hm. by rewrite Hm. Qed.

(** The output goes to the collector of the request. *)
Lemma deliver_ok leaving unlisted rs item s : op_inv leaving unlisted s →
  (∀ q, rs_queue rs = Some q → is_Some (op_queues s !! q)) →
  (∀ it, item = Some it → ∃ c, single it c ∧ co_index c = rs_request_index rs) →
  let t := from_option (item_pieces co_text (rs_request_index rs)) [] item in
  let k := from_option (item_pieces co_token_ids (rs_request_index rs)) [] item in
  ∃ s', match rs_queue rs, item with Some q, Some it => put q it s = (Ok tt, s') | _, _ => s' = s end ∧
    op_inv leaving unlisted s' ∧ queue_step rs t k s s' ∧ (∃ m, s' = set_op_queues m s).
Proof.
  intros Hi Hq Hit t k. unfold queue_step. destruct (rs_queue rs) as [q|].
  2:{ exists s. split; [done|]. split; [done|]. split; [done|]. exists (op_queues s). by destruct s. }
  destruct (Hq q eq_refl) as [c Hc]. pose proof (oi_collectors _ _ _ Hi q c Hc) as Hcok. destruct item as [it|].
  - destruct (Hit it eq_refl) as (cmp & Hs & Hidx).
    destruct (put_ok q it cmp s) as (c0 & c' & Hc0 & Hput & Hok & Ha & _ & Hap); [by intros x Hx; apply (oi_collectors _ _ _ Hi q)|by eexists|done|].
    assert (c0 = c) as -> by congruence. eexists. split; [exact Hput|]. split; [by eapply set_queue_inv|]. split; [|by eexists].
    exists c, c'. split; [done|]. split; [done|]. split; [done|]. split; [done|]. intros Hagg i. destruct (Hap Hagg) as [H1 H2].
    rewrite H1, H2. unfold t, k. cbn [from_option]. rewrite !(single_pieces _ _ _ _ Hs). unfold piece. rewrite Hidx.
    destruct (decide (rs_request_index rs = i)) as [->|]; [by rewrite !decide_True|by rewrite !decide_False by congruence].
  - exists s. split; [done|]. split; [done|]. split; [|exists (op_queues s); by destruct s]. exists c, c. split; [done|].
    split; [by rewrite insert_id|]. split; [done|]. split; [done|]. intros _ i. unfold t, k. cbn [from_option].
    by destruct (decide _); rewrite !app_nil_r.
Qed.

(** What an emission adds to the stream. *)
Lemma emitted_stream finished rs before item rs' : emitted stream_interval finished rs before item rs' → rs_output_kind rs = DELTA →
  out_released rs' = out_released rs ++ from_option (item_pieces co_text (rs_request_index rs)) [] item ∧
  sent_ids stream_interval rs' = before ++ from_option (item_pieces co_token_ids (rs_request_index rs)) [] item.
Proof.
  intros He Hk. destruct item as [it|].
  - destruct (em_some _ _ _ _ _ _ He it eq_refl) as (c & Hs & Hidx & Hd). destruct (Hd Hk) as [H1 H2]. rewrite H1, H2. cbn [from_option].
    rewrite !(single_pieces _ _ _ _ Hs). unfold piece. by rewrite !decide_True.
  - destruct (em_none _ _ _ _ _ _ He eq_refl) as [_ Hd]. destruct (Hd Hk) as [-> ->]. cbn [from_option]. by rewrite !app_nil_r.
Qed.

(** The part of [process_one] that makes the output of a request and hands it
    over. *)
Lemma emit_ok id ids finish stop kv rs before s (finished := bool_decide (is_Some finish)) (leaving := if finished then {[id]} else ∅ : gset string) :
  op_inv leaving ∅ s → live s id = Some rs → state_updated finished rs → known_child (op_parents s) rs →
  (if decide (1 < stream_interval) then before = take (Z.to_nat (sent_tokens_offset rs)) (out_ids rs) else out_ids rs = before ++ ids) →
  ∃ item rs' l s', (∀ B (k : list OutputItem → M processor B),
      (let* request_output := on_request id (make_request_output stream_interval ids false finish stop kv) in
       let* outputs := match request_output with
         | None => ret []
         | Some request_output =>
             let* queue := on_request id (gets (λ x : with_parents (D := D), rs_queue x.1)) in
             match queue with Some q => put q request_output ;;; ret [] | None => ret [request_output] end
         end in
       k outputs) s = k l s') ∧
    emitted stream_interval finished rs before item rs' ∧ op_inv leaving ∅ s' ∧ request_states s' = od_set id rs' (request_states s) ∧
    queue_step rs (from_option (item_pieces co_text (rs_request_index rs)) [] item)
      (from_option (item_pieces co_token_ids (rs_request_index rs)) [] item) s s' ∧
    _requests_drained s' = _requests_drained s ∧ (is_Some (rs_queue rs) → l = []).
Proof.
  intros Hi Hlive Hok Hchild Hb.
  destruct (make_request_output_ok stream_interval ids finish stop kv rs (op_parents s) before Hok Hchild Hb) as (item & rs' & Hmake & Hem).
  fold finished in Hmake, Hem. pose proof (em_same _ _ _ _ _ _ Hem) as Hs.
  pose proof (on_request_ok id _ rs _ _ _ s Hlive Hmake) as Hon. clear Hmake.
  set (s1 := set_request_states (od_set id rs' (request_states s)) (set_op_parents (parents_after finished rs (op_parents s)) s)) in *.
  assert (Hi1 : op_inv leaving ∅ s1).
  { assert (Hc : op_inv leaving ∅ (set_request_states (od_set id rs' (request_states s)) s)).
    { eapply (set_state_inv leaving); [done|done|done|done|]. intros Hl. apply (em_ok _ _ _ _ _ _ Hem). unfold leaving in Hl.
      destruct finished; [set_solver|done]. }
    apply (parents_after_inv _ _ finished rs) in Hc; [exact Hc|].
    intros Hf. left. rewrite (oi_id _ _ _ Hi id rs Hlive). unfold leaving. rewrite Hf. set_solver. }
  assert (Hlive1 : live s1 id = Some rs') by (unfold s1, live; cbn [request_states set_request_states]; by rewrite od_get_set, decide_True).
  destruct (deliver_ok leaving ∅ rs' item s1 Hi1) as (s2 & Hdel & Hi2 & Hqs & [m Hm]).
  { intros q Hq. destruct (oi_queue _ _ _ Hi1 id rs' q Hlive1 Hq) as (c & Hc & _). by exists c. }
  { intros it Hit. destruct (em_some _ _ _ _ _ _ Hem it Hit) as (c & Hc & Hidx & _). exists c. split; [done|]. rewrite Hidx.
    symmetry. apply (sr_index _ _ Hs). }
  unfold queue_step in Hqs. rewrite (sr_queue _ _ Hs), (sr_index _ _ Hs) in Hqs.
  exists item, rs', (match rs_queue rs, item with None, Some it => [it] | _, _ => [] end), s2.
  split; [|split; [done|split; [done|split; [by rewrite Hm|split; [exact Hqs|split; [by rewrite Hm|]]]]]].
  - intros B k. rewrite (bind_ok _ _ _ _ _ Hon). rewrite (sr_queue _ _ Hs) in Hdel. destruct item as [it|].
    2:{ rewrite bind_ret_l. by destruct (rs_queue rs); subst s2. }
    pose proof (on_request_ok id (gets (λ x : with_parents (D := D), rs_queue x.1)) rs' _ _ _ s1 Hlive1 eq_refl) as Hg.
    assert (Hs1 : set_request_states (od_set id rs' (request_states s1)) (set_op_parents (op_parents s1) s1) = s1).
    { unfold s1. cbn [request_states set_request_states op_parents set_op_parents]. by rewrite od_set_set. }
    rewrite Hs1 in Hg. rewrite bind_assoc. rewrite (bind_ok _ _ _ _ _ Hg). cbn [fst]. rewrite (sr_queue _ _ Hs). destruct (rs_queue rs) as [q|].
    + rewrite bind_assoc. rewrite (bind_ok _ _ _ _ _ Hdel). by rewrite bind_ret_l.
    + rewrite Hdel. by rewrite bind_ret_l.
  - intros [q Hq]. by rewrite Hq.
Qed.

Lemma process_one_ok (decode : list Z → option text) o rs s (id := eo_request_id (pr_output o)) : op_inv ∅ ∅ s → plain_output o → live s id = Some rs →
  ∃ r s' rs1 rs' finished, process_one decode stream_interval o s = (Ok r, s') ∧ op_inv ∅ ∅ s' ∧
    (on_request id (update_state decode o) s).2 = set_request_states (od_set id rs1 (request_states s)) s ∧
    out_text rs' = out_text rs1 ∧ out_ids rs' = out_ids rs1 ∧ same_request rs rs1 ∧ advanced id rs rs' finished s s' ∧
    reqs_to_abort r = (if finished && bool_decide (eo_finish_reason (pr_output o) = None) then [id] else []) ∧
    (is_Some (eo_finish_reason (pr_output o)) → finished = true) ∧
    _requests_drained s' = (if decide (request_states s' = []) then true else _requests_drained s) ∧
    (is_Some (rs_queue rs) → request_outputs r = []) ∧
    out_ids rs' = out_ids rs ++ eo_new_token_ids (pr_output o).
Proof.
  intros Hi Hplain Hlive. destruct (oi_state _ _ _ Hi id rs Hlive ltac:(set_solver)) as [Hok Hchild].
  destruct (update_state_ok decode o rs (op_parents s) Hplain Hok) as (finish & stop & rs1 & Hup & Hs1 & Hok1 & Hfin & Hids & Hrel & Hsent).
  unfold process_one. unfold bind at 1. cbn [get]. fold id. pose proof Hlive as Hlive'. unfold live in Hlive'. rewrite Hlive'.
  pose proof (on_request_ok id _ rs _ _ _ s Hlive Hup) as Hon. rewrite Hon.
  assert (Hps : set_op_parents (op_parents s) s = s) by (by destruct s). rewrite Hps in Hon. rewrite (bind_ok _ _ _ _ _ Hon). clear Hps.
  set (s1 := set_request_states (od_set id rs1 (request_states s)) s) in *. set (finished := bool_decide (is_Some finish)) in *.
  set (before := sent_ids stream_interval rs). destruct Hplain as (Hpool & _ & _). rewrite Hpool.
  destruct (emit_ok id (eo_new_token_ids (pr_output o)) finish stop (eo_kv_transfer_params (pr_output o)) rs1 before s1)
    as (item & rs' & l & s2 & Hrun & Hem & Hi2 & Hst & Hqs & Hdr & Hl).
  { eapply (set_state_inv ∅); [done|done|done|set_solver|]. fold finished. destruct finished; [set_solver|]. intros _. by apply state_updated_ok. }
  { unfold s1. by rewrite live_set, decide_True. }
  { done. }
  { unfold known_child. rewrite (sr_parent _ _ Hs1), (sr_id _ _ Hs1). exact Hchild. }
  { unfold before, sent_ids. destruct (decide (1 < stream_interval)); [|done]. rewrite Hsent, Hids. rewrite take_app_le; [done|].
    pose proof (so_sent _ Hok). unfold len in *. lia. }
  fold finished in Hem, Hi2. rewrite Hrun. clear Hrun.
  change (request_states s1) with (od_set id rs1 (request_states s)) in Hst. rewrite od_set_set in Hst.
  change (_requests_drained s1) with (_requests_drained s) in Hdr.
  assert (Hs' : same_request rs rs') by (transitivity rs1; [done|by destruct Hem]).
  assert (Had : ∀ s', op_queues s' = op_queues s2 → request_states s' = (if finished then od_del id (request_states s) else od_set id rs' (request_states s)) →
    advanced id rs rs' finished s s').
  { intros s' Hq' Hst'. split; [done|done| |].
    - eexists _, _. split.
      + unfold queue_step in *. rewrite (sr_queue _ _ Hs1), (sr_index _ _ Hs1) in Hqs. rewrite Hq'. exact Hqs.
      + intros _ Hk. rewrite <- Hrel. rewrite <- (sr_index _ _ Hs1). eapply emitted_stream; [exact Hem|].
        by rewrite (sr_kind _ _ Hs1).
    - intros Hf _ Hk. apply (em_final _ _ _ _ _ _ Hem Hf). by rewrite (sr_kind _ _ Hs1). }
  rewrite (sr_queue _ _ Hs1) in Hl. pose proof (em_text _ _ _ _ _ _ Hem) as Ht. pose proof (em_ids _ _ _ _ _ _ Hem) as Hk.
  destruct (decide (is_Some finish)) as [Hfs|Hfs].
  - assert (Hft : finished = true) by (by apply bool_decide_eq_true_2). rewrite Hft in *.
    assert (Hlive2 : live s2 id = Some rs') by (unfold live; by rewrite Hst, od_get_set, decide_True).
    destruct (free_finished_ok id o rs' s2 Hi2 Hlive2) as (s3 & Hfree & Hi3 & Hst3 & Hq3 & _ & Hdr3).
    rewrite (bind_ok _ _ _ _ _ Hfree). eexists _, s3, rs1, rs', true. split; [reflexivity|].
    rewrite Hst, od_del_set in Hst3. rewrite Hdr in Hdr3. repeat (split; [done|]). split; [by apply Had|]. cbn [reqs_to_abort request_outputs andb].
    split; [|do 3 (split; [done|]); by rewrite Hk].
    destruct (decide (eo_finish_reason (pr_output o) = None)); [by rewrite bool_decide_eq_true_2|by rewrite bool_decide_eq_false_2].
  - assert (Hff : finished = false) by (by apply bool_decide_eq_false_2). rewrite Hff in *. rewrite bind_ret_l.
    eexists _, s2, rs1, rs', false. split; [reflexivity|]. repeat (split; [done|]). split; [by apply Had|]. split; [done|].
    split; [intros Hx; by apply Hfin in Hx|]. split; [|split; [done|by rewrite Hk]].
    rewrite decide_False; [done|]. rewrite Hst. intros Hn. apply (f_equal (od_get id)) in Hn. by rewrite od_get_set, decide_True in Hn.
Qed.

(** ** Aborting requests *)

(** These requests have left, each with a last step. *)
Inductive aborted : list (string * rstate) → processor → processor → Prop :=
  | aborted_nil s s' : request_states s' = request_states s → op_queues s' = op_queues s → aborted [] s s'
  | aborted_cons id rs rs' F s s1 s2 : live s id = Some rs → advanced id rs rs' true s s1 →
      out_text rs' = out_text rs → out_ids rs' = out_ids rs → aborted F s1 s2 → aborted ((id, rs) :: F) s s2.

Lemma aborted_live F s s' : aborted F s s' → ∀ id rs, live s' id = Some rs ↔ live s id = Some rs ∧ id ∉ map fst F.
Proof.
  induction 1 as [s s' Hst _|id rs rs' F s s1 s2 Hl Ha _ _ _ IH]; intros x rx.
  - unfold live. rewrite Hst. split; [intros Hx; split; [done|apply not_elem_of_nil]|by intros [? _]].
  - rewrite IH. unfold live at 1. rewrite (ad_states _ _ _ _ _ _ Ha), od_get_del. cbn [map fst]. rewrite not_elem_of_cons.
    case_decide as Hx; [|unfold live; tauto]. split; [by intros [? _]|]. intros (_ & Hne & _). done.
Qed.
(** [aborted] is about requests and collectors. *)
Lemma aborted_same F s1 s2 s1' s2' : aborted F s1 s2 → request_states s1' = request_states s1 → op_queues s1' = op_queues s1 →
  request_states s2' = request_states s2 → op_queues s2' = op_queues s2 → aborted F s1' s2'.
Proof.
  intros Ha. revert s1'. induction Ha as [s s' Hst Hq|id rs rs' F s s1 s2 Hl Ha Ht Hi Hrest IH]; intros s1' H1 H2 H3 H4.
  - constructor; congruence.
  - econstructor; [unfold live; rewrite H1; exact Hl| |exact Ht|exact Hi|by apply IH].
    destruct Ha as [A1 A2 (t & k & A3 & A4) A5]. split; [by rewrite H1|done| |done]. exists t, k. split; [|done].
    unfold queue_step in *. rewrite H2. exact A3.
Qed.
Lemma aborted_app F1 F2 s s1 s2 : aborted F1 s s1 → aborted F2 s1 s2 → aborted (F1 ++ F2) s s2.
Proof.
  intros Ha. revert F2 s2. induction Ha as [s s' Hst Hq|id rs rs' F s s1 s1' Hl Ha Ht Hi _ IH]; intros F2 s2 Hb; cbn [app].
  - by eapply aborted_same.
  - econstructor; [done|done|done|done|by apply IH].
Qed.

Lemma abort_one_ok unlisted id rs s : op_inv ∅ unlisted s → id ∈ unlisted → live s id = Some rs →
  ∃ s' rs', abort_output stream_interval rs (set_request_states (od_del id (request_states s)) s) = (Ok tt, s') ∧
    op_inv ∅ (unlisted ∖ {[id]}) s' ∧ advanced id rs rs' true s s' ∧ out_text rs' = out_text rs ∧ out_ids rs' = out_ids rs ∧
    parent_requests s' = parent_requests s ∧ _requests_drained s' = _requests_drained s.
Proof.
  intros Hi Hid Hlive. destruct (oi_state _ _ _ Hi id rs Hlive ltac:(set_solver)) as [Hok Hchild].
  pose proof (delete_state_inv _ _ id s Hi Hid) as Hi1. replace (∅ ∖ {[id]} : gset string) with (∅ : gset string) in Hi1 by set_solver.
  set (s1 := set_request_states (od_del id (request_states s)) s) in *.
  unfold abort_output. destruct (rs_queue rs) as [q|] eqn:Hq.
  2:{ exists s1, rs. split; [done|]. split; [done|]. split; [|done]. split; [done|done| |by intros _ [? Hx]; congruence].
      exists [], []. split; [unfold queue_step; by rewrite Hq|]. intros [? Hx]. congruence. }
  pose proof Hok as [(d & Hd & _) _ _]. rewrite Hd, bool_decide_eq_false_2 by done.
  destruct (make_request_output_ok stream_interval [] (Some ABORT) None None rs (op_parents s1) (sent_ids stream_interval rs)
    (state_ok_updated rs true Hok) Hchild) as (item & rs' & Hmake & Hem).
  { unfold sent_ids. destruct (decide (1 < stream_interval)); [done|by rewrite app_nil_r]. }
  change (bool_decide (is_Some (Some ABORT))) with true in *.
  assert (Hpop : on_popped rs (make_request_output stream_interval [] false (Some ABORT) None None) s1 =
    (Ok item, set_op_parents (parents_after true rs (op_parents s1)) s1)) by (unfold on_popped; by rewrite Hmake).
  rewrite (bind_ok _ _ _ _ _ Hpop). clear Hpop Hmake.
  assert (Hi2 := parents_after_inv _ _ true rs s1 Hi1). set (s2 := set_op_parents _ s1) in *.
  assert (Hid' : rs_request_id rs = id) by (by apply (oi_id _ _ _ Hi)).
  specialize (Hi2 ltac:(intros _; right; rewrite Hid'; unfold s1, live; cbn [request_states set_request_states]; by rewrite od_get_del, decide_True)).
  destruct (deliver_ok _ _ rs item s2 Hi2) as (s3 & Hdel & Hi3 & Hqs & [m Hm]).
  { intros q' Hq'. destruct (oi_queue _ _ _ Hi id rs q' Hlive Hq') as (c & Hc & _). by exists c. }
  { intros it Hit. destruct (em_some _ _ _ _ _ _ Hem it Hit) as (c & Hc & Hidx & _). by exists c. }
  rewrite Hq in Hdel. exists s3, rs'. split; [by destruct item; [|subst s3]|]. split; [done|]. split; [|split; [|split; [|split]]].
  - split; [by rewrite Hm|by destruct Hem| |].
    + eexists _, _. split; [exact Hqs|]. intros _ Hk. by eapply emitted_stream.
    + intros _ _ Hk. by apply (em_final _ _ _ _ _ _ Hem).
  - apply (em_text _ _ _ _ _ _ Hem).
  - apply (em_ids _ _ _ _ _ _ Hem).
  - by rewrite Hm.
  - by rewrite Hm.
Qed.

(** Only what is live can be listed. *)
Lemma unlisted_inv leaving unlisted unlisted' s : op_inv leaving unlisted s →
  (∀ ext l id, external_req_ids s !! ext = Some l → id ∈ l → id ∉ unlisted → id ∉ unlisted') →
  (∀ id rs, live s id = Some rs → id ∉ unlisted' → id ∉ unlisted) → op_inv leaving unlisted' s.
Proof.
  intros [I1 I2 I3 I4 I5 I6 I7 I8 I9 I10 I11 I12] H1 H2. split; try done.
  - intros e l x Hl Hx. destruct (I6 e l x Hl Hx) as [Hu Hr]. split; [by eapply H1|done].
  - intros x rx Hx Hu. apply (I7 x rx Hx). by eapply H2.
Qed.

(** Aborting a list of requests that are no parents. *)
Lemma abort_loop_ok (id_order : gset string → list string) abort ids : ∀ s, op_inv ∅ (list_to_set ids) s → NoDup ids →
  (∀ id, id ∈ ids → live s id = None → parent_requests s !! id = None) →
  ∃ F s', abort_loop stream_interval id_order abort ids s = (Ok (map fst F), s') ∧ op_inv ∅ ∅ s' ∧ aborted F s s' ∧
    (∀ id, id ∈ map fst F ↔ id ∈ ids ∧ is_Some (live s id)) ∧ parent_requests s' = parent_requests s ∧
    _requests_drained s' = _requests_drained s.
Proof.
  induction ids as [|id ids IH]; intros s Hi Hnd Hpar; cbn [abort_loop].
  { exists [], s. split; [done|]. split; [done|]. split; [by constructor|]. split; [|done]. intros x. split; [|intros [? _]]; set_solver. }
  apply NoDup_cons in Hnd as [Hid Hnd]. unfold bind at 1. cbn [get]. change (od_get id (request_states s)) with (live s id).
  destruct (live s id) as [rs|] eqn:Hlive.
  - destruct (abort_one_ok _ id rs s Hi ltac:(set_solver) Hlive) as (s1 & rs' & Hrun & Hi1 & Had & Ht & Hids & Hp1 & Hdr1).
    rewrite bind_assoc, bind_modify, bind_assoc. rewrite (bind_ok _ _ _ _ _ Hrun), bind_ret_l.
    replace (list_to_set (id :: ids) ∖ {[id]} : gset string) with (list_to_set ids : gset string) in Hi1 by set_solver.
    assert (Hlive1 : ∀ x, x ≠ id → live s1 x = live s x).
    { intros x Hx. unfold live. by rewrite (ad_states _ _ _ _ _ _ Had), od_get_del, decide_False. }
    destruct (IH s1 Hi1 Hnd) as (F & s2 & Hloop & Hi2 & Hab & Hin & Hp2 & Hdr2).
    { intros x Hx Hl. rewrite Hp1. apply Hpar; [by right|]. rewrite <- Hlive1; [done|]. intros ->. done. }
    rewrite (bind_ok _ _ _ _ _ Hloop). exists ((id, rs) :: F), s2. split; [done|]. split; [done|]. split; [by econstructor|].
    split; [|split; congruence]. intros x. cbn [map fst]. rewrite !elem_of_cons, Hin. destruct (decide (x = id)) as [->|Hx].
    + rewrite Hlive. split; [intros _; split; [by left|by eexists]|by left].
    + rewrite Hlive1 by done. naive_solver.
  - rewrite (Hpar id ltac:(by left) Hlive), bind_ret_l.
    assert (Hi1 : op_inv ∅ (list_to_set ids) s).
    { apply (unlisted_inv _ _ (list_to_set ids) s Hi); [set_solver|]. intros x rx Hx Hu. assert (x ≠ id) by (intros ->; congruence). set_solver. }
    destruct (IH s Hi1 Hnd) as (F & s2 & Hloop & Hi2 & Hab & Hin & Hp2 & Hdr2); [intros x Hx; apply Hpar; by right|].
    rewrite (bind_ok _ _ _ _ _ Hloop). exists F, s2. split; [done|]. split; [done|]. split; [done|]. split; [|done].
    intros x. rewrite Hin, elem_of_cons. split; [naive_solver|]. intros [[->|Hx] Hl]; [|done]. rewrite Hlive in Hl. by destruct Hl.
Qed.

(** *** Which requests are aborted *)

Lemma unlisted_dead unlisted id s : op_inv ∅ unlisted s → live s id = None → op_inv ∅ ({[id]} ∪ unlisted) s.
Proof.
  intros Hi Hd. apply (unlisted_inv _ _ _ s Hi); [|set_solver]. intros e l x Hl Hx Hu.
  destruct (oi_listed _ _ _ Hi e l x Hl Hx) as [_ (rs & Hr & _)]. assert (x ≠ id) by (intros ->; congruence). set_solver.
Qed.

Lemma set_external_twice m m' s : set_external_req_ids m (set_external_req_ids m' s) = set_external_req_ids m s.
Proof. done. Qed.

Lemma resolve_internal ids : ∀ unlisted s, op_inv ∅ unlisted s → NoDup ids → (∀ id, id ∈ ids → id ∉ unlisted) →
  ∃ m, resolve_ids ids true s = (Ok ids, set_external_req_ids m s) ∧ op_inv ∅ (list_to_set ids ∪ unlisted) (set_external_req_ids m s).
Proof.
  induction ids as [|id ids IH]; intros unlisted s Hi Hnd Hun; cbn [resolve_ids].
  { exists (external_req_ids s). assert (Hs : set_external_req_ids (external_req_ids s) s = s) by (by destruct s). rewrite Hs.
    split; [done|]. by replace (list_to_set [] ∪ unlisted : gset string) with unlisted by set_solver. }
  apply NoDup_cons in Hnd as [Hid Hnd]. unfold bind at 1. cbn [get].
  assert (Hstep : ∃ m, (match od_get id (request_states s) with Some rs => remove_external (rs_external_req_id rs) id | None => ret tt end) s =
    (Ok tt, set_external_req_ids m s) ∧ op_inv ∅ ({[id]} ∪ unlisted) (set_external_req_ids m s)).
  { destruct (od_get id (request_states s)) as [rs|] eqn:Hlive.
    - apply remove_external_inv; [done|done|]. apply Hun. by left.
    - exists (external_req_ids s). assert (Hs : set_external_req_ids (external_req_ids s) s = s) by (by destruct s). rewrite Hs.
      split; [done|]. by apply unlisted_dead. }
  destruct Hstep as (m & Hrun & Hi1). rewrite bind_assoc. rewrite (bind_ok _ _ _ _ _ Hrun), bind_ret_l.
  destruct (IH ({[id]} ∪ unlisted) (set_external_req_ids m s) Hi1 Hnd) as (m' & Hres & Hi2).
  { intros x Hx. assert (x ≠ id) by (intros ->; done). assert (x ∉ unlisted) by (apply Hun; by right). set_solver. }
  rewrite (bind_ok _ _ _ _ _ Hres). exists m'. rewrite set_external_twice in *. split; [done|].
  by replace (list_to_set (id :: ids) ∪ unlisted : gset string) with (list_to_set ids ∪ ({[id]} ∪ unlisted) : gset string) by set_solver.
Qed.

Lemma pop_external_inv unlisted ext s : op_inv ∅ unlisted s →
  op_inv ∅ (list_to_set (default [] (external_req_ids s !! ext)) ∪ unlisted) (set_external_req_ids (delete ext (external_req_ids s)) s).
Proof.
  intros Hi. destruct Hi as [I1 I2 I3 I4 I5 I6 I7 I8 I9 I10 I11 I12].
  split; cbn [request_states parent_requests external_req_ids op_parents op_queues set_external_req_ids]; try done.
  - intros e l [_ Hl]%lookup_delete_Some. by apply (I5 e).
  - intros e l x [Hne Hl]%lookup_delete_Some Hx. destruct (I6 e l x Hl Hx) as [Hu (rs & Hr & He)]. split; [|by exists rs].
    intros [Hin|]%elem_of_union; [|done]. destruct (external_req_ids s !! ext) as [k|] eqn:Hk; [|by apply elem_of_list_to_set, elem_of_nil in Hin].
    apply elem_of_list_to_set in Hin. cbn in Hin. destruct (I6 ext k x Hk Hin) as [_ (rs' & Hr' & He')]. congruence.
  - intros x rx Hx Hu. apply not_elem_of_union in Hu as [Hu1 Hu2]. destruct (I7 x rx Hx Hu2) as (l & Hl & Hxl). exists l. split; [|done].
    rewrite lookup_delete_ne; [done|]. intros He. apply Hu1. rewrite He, Hl. by apply elem_of_list_to_set.
Qed.

Lemma resolve_external exts : ∀ unlisted s, op_inv ∅ unlisted s →
  ∃ ids m, resolve_ids exts false s = (Ok ids, set_external_req_ids m s) ∧ op_inv ∅ (list_to_set ids ∪ unlisted) (set_external_req_ids m s) ∧
    NoDup ids ∧ (∀ id, id ∈ ids ↔ (id ∉ unlisted) ∧ ∃ rs, live s id = Some rs ∧ rs_external_req_id rs ∈ exts).
Proof.
  induction exts as [|ext exts IH]; intros unlisted s Hi; cbn [resolve_ids].
  { exists [], (external_req_ids s). assert (Hs : set_external_req_ids (external_req_ids s) s = s) by (by destruct s). rewrite Hs.
    split; [done|]. split; [by replace (list_to_set [] ∪ unlisted : gset string) with unlisted by set_solver|]. split; [constructor|].
    intros x. split; [intros Hx; by apply elem_of_nil in Hx|]. intros (_ & rs & _ & Hx). by apply elem_of_nil in Hx. }
  unfold bind at 1. cbn [get]. rewrite bind_assoc, bind_modify, bind_ret_l. set (l := default [] (external_req_ids s !! ext)).
  pose proof (pop_external_inv unlisted ext s Hi) as Hi1. fold l in Hi1.
  destruct (IH _ _ Hi1) as (ids & m & Hres & Hi2 & Hnd & Hin). rewrite (bind_ok _ _ _ _ _ Hres). rewrite set_external_twice in *.
  assert (Hl : ∀ x, x ∈ l → (x ∉ unlisted) ∧ ∃ rs, live s x = Some rs ∧ rs_external_req_id rs = ext).
  { unfold l. intros x Hx. destruct (external_req_ids s !! ext) as [k|] eqn:Hk; [|by apply elem_of_nil in Hx]. by apply (oi_listed _ _ _ Hi ext k). }
  exists (l ++ ids), m. split; [done|]. split; [|split].
  - by replace (list_to_set (l ++ ids) ∪ unlisted : gset string) with (list_to_set ids ∪ (list_to_set l ∪ unlisted) : gset string) by set_solver.
  - apply NoDup_app. split; [|split; [|done]].
    + unfold l. destruct (external_req_ids s !! ext) as [k|] eqn:Hk; [|constructor]. by apply (oi_external _ _ _ Hi ext k).
    + intros x Hx Hxi. apply Hin in Hxi as [Hn _]. apply Hn, elem_of_union. left. by apply elem_of_list_to_set.
  - intros x. rewrite elem_of_app, Hin. split.
    + intros [Hx|[Hn (rs & Hr & He)]].
      * destruct (Hl x Hx) as [Hu (rs & Hr & He)]. split; [done|]. exists rs. split; [done|]. rewrite He. by left.
      * split; [set_solver|]. exists rs. split; [done|]. by right.
    + intros [Hu (rs & Hr & He)]. destruct (decide (x ∈ l)) as [|Hxl]; [by left|right]. split; [set_solver|]. exists rs. split; [done|].
      apply elem_of_cons in He as [He|]; [|done]. exfalso. apply Hxl. destruct (oi_lists _ _ _ Hi x rs Hr Hu) as (k & Hk & Hxk).
      unfold l. rewrite <- He, Hk. exact Hxk.
Qed.

(** *** The whole call *)

Definition abort_result (F : list (string * rstate)) s s' : Prop :=
  op_inv ∅ ∅ s' ∧ drained_ok s' ∧ aborted F s s'.

Lemma drain_ok leaving s0 s1 F : op_inv leaving ∅ s1 → aborted F s0 s1 → drained_ok s0 → _requests_drained s1 = _requests_drained s0 →
  let s2 := if decide (request_states s1 = []) then set_requests_drained true s1 else s1 in
  op_inv leaving ∅ s2 ∧ drained_ok s2 ∧ aborted F s0 s2.
Proof.
  intros Hi Hab Hd Heq s2. assert (H2 : request_states s2 = request_states s1 ∧ op_queues s2 = op_queues s1) by (unfold s2; by destruct (decide _)).
  split; [unfold s2; destruct (decide _); [by destruct Hi|done]|]. split; [|by eapply aborted_same; destruct H2].
  unfold s2, drained_ok in *. destruct (decide (request_states s1 = [])) as [Hn|Hn].
  - cbn. by rewrite bool_decide_eq_true_2.
  - rewrite Heq, Hd, !bool_decide_eq_false_2; [done|done|]. intros Hn0. apply Hn. destruct (request_states s1) as [|[x rx] rest] eqn:Hst; [done|].
    assert (Hl : live s1 x = Some rx) by (unfold live; rewrite Hst; simpl; by rewrite decide_True).
    apply (aborted_live _ _ _ Hab) in Hl as [Hl _]. unfold live in Hl. by rewrite Hn0 in Hl.
Qed.

Section abort.
Context (id_order : gset string → list string) (id_order_perm : ∀ X, id_order X ≡ₚ elements X).
Abbreviation abort_fuel := (abort_requests_fuel stream_interval id_order).

(** Requests that are no parents, given by their own ids. *)
Lemma abort_internal_ok n ids s : op_inv ∅ ∅ s → drained_ok s → NoDup ids →
  (∀ id, id ∈ ids → live s id = None → parent_requests s !! id = None) →
  ∃ F s', abort_fuel (S n) ids true s = (Ok (map fst F), s') ∧ abort_result F s s' ∧
    (∀ id, id ∈ map fst F ↔ id ∈ ids ∧ is_Some (live s id)) ∧ parent_requests s' = parent_requests s.
Proof.
  intros Hi Hd Hnd Hpar. cbn [abort_requests_fuel]. destruct (resolve_internal ids ∅ s Hi Hnd ltac:(set_solver)) as (m & Hres & Hi1).
  rewrite (bind_ok _ _ _ _ _ Hres). replace (list_to_set ids ∪ ∅ : gset string) with (list_to_set ids : gset string) in Hi1 by set_solver.
  destruct (abort_loop_ok id_order (λ ids, abort_fuel n ids true) ids _ Hi1 Hnd Hpar) as (F & s1 & Hloop & Hi2 & Hab & Hin & Hp & Hdr).
  rewrite (bind_ok _ _ _ _ _ Hloop), bind_modify. assert (Hab' : aborted F s s1) by (by eapply aborted_same).
  destruct (drain_ok ∅ s s1 F Hi2 Hab' Hd Hdr) as (H1 & H2 & H3). eexists F, _. split; [reflexivity|]. split; [done|]. split; [done|].
  by destruct (decide _).
Qed.

(** A parent, given by its id. *)
Lemma abort_parent_ok n id s : op_inv ∅ ∅ s → drained_ok s → live s id = None →
  ∃ F s', abort_fuel (S (S n)) [id] true s = (Ok (map fst F), s') ∧ abort_result F s s' ∧ parent_requests s' !! id = None ∧
    (∀ x, x ∈ map fst F ↔ is_Some (live s x) ∧ ∃ p parent, parent_requests s !! id = Some p ∧ op_parents s !! p = Some parent ∧
       x ∈ child_requests parent).
Proof using id_order_perm.
  intros Hi Hd Hlive. pose proof Hlive as Hlive'. unfold live in Hlive'.
  assert (Hres : resolve_ids [id] true s = (Ok [id], s)) by (cbn [resolve_ids]; unfold bind at 1; cbn [get]; by rewrite Hlive').
  set (abort := (λ ids, abort_fuel (S n) ids true) : list string → M processor (list string)). change (abort_fuel (S (S n)) [id] true s) with
    ((let* ids := resolve_ids [id] true in let* l := abort_loop stream_interval id_order abort ids in
      modify (λ s, if decide (request_states s = []) then set_requests_drained true s else s) ;;; ret l) s).
  rewrite (bind_ok _ _ _ _ _ Hres).
  assert (Hloop : ∃ F s1, abort_loop stream_interval id_order abort [id] s = (Ok (map fst F), s1) ∧ op_inv ∅ ∅ s1 ∧ drained_ok s1 ∧
    aborted F s s1 ∧ parent_requests s1 !! id = None ∧
    (∀ x, x ∈ map fst F ↔ is_Some (live s x) ∧ ∃ p parent, parent_requests s !! id = Some p ∧ op_parents s !! p = Some parent ∧
       x ∈ child_requests parent)).
  { cbn [abort_loop]. unfold bind at 1. cbn [get]. rewrite Hlive'. destruct (parent_requests s !! id) as [p|] eqn:Hp.
    2:{ exists [], s. split; [done|]. split; [done|]. split; [done|]. split; [by constructor|]. split; [done|].
        intros x. split; [intros Hx; by apply elem_of_nil in Hx|]. intros (_ & p & parent & ? & _). done. }
    destruct (oi_parents _ _ _ Hi id p Hp) as (parent & Hpar & Hpid). rewrite Hpar. cbn [of_option]. rewrite bind_assoc, bind_ret_l.
    assert (Hcall : ∃ F s1, (if decide (child_requests parent = ∅) then ret [] else abort (id_order (child_requests parent))) s =
      (Ok (map fst F), s1) ∧ abort_result F s s1 ∧ (∀ x, x ∈ map fst F ↔ x ∈ child_requests parent ∧ is_Some (live s x)) ∧
      parent_requests s1 = parent_requests s).
    { destruct (decide (child_requests parent = ∅)) as [Hc|Hc].
      - exists [], s. split; [done|]. split; [by split; [|split; [|constructor]]|]. split; [|done].
        intros x. rewrite Hc. split; [intros Hx; by apply elem_of_nil in Hx|set_solver].
      - destruct (abort_internal_ok n (id_order (child_requests parent)) s Hi Hd) as (F & s1 & Hr & Hres' & Hin & Hps).
        + rewrite id_order_perm. apply NoDup_elements.
        + intros x Hx _. rewrite id_order_perm, elem_of_elements in Hx. destruct (parent_requests s !! x) as [p'|] eqn:Hp'; [|done].
          destruct (oi_parents _ _ _ Hi x p' Hp') as (parent' & Hpar' & Hid'). by destruct (oi_children _ _ _ Hi p parent x p' parent' Hpar Hx Hpar').
        + exists F, s1. split; [done|]. split; [done|]. split; [|done]. intros x. rewrite Hin, id_order_perm, elem_of_elements. done. }
    destruct Hcall as (F & s1 & Hr & (Hi1 & Hd1 & Hab) & Hin & Hps). rewrite bind_assoc. rewrite (bind_ok _ _ _ _ _ Hr).
    rewrite bind_assoc, bind_modify, bind_ret_l. cbn [abort_loop]. rewrite bind_ret_l, app_nil_r.
    exists F, (set_parent_requests (delete id (parent_requests s1)) s1). split; [done|]. split.
    { apply unregister_inv; [done|]. intros x rx p' parent' Hx Hp' Hpar' Hpid'. apply (aborted_live _ _ _ Hab) in Hx as [Hx Hnx].
      apply Hnx, Hin. destruct (oi_state _ _ _ Hi x rx Hx ltac:(set_solver)) as [_ Hk]. destruct (Hk p' Hp') as (pa & Hpa & Hc & _).
      destruct (oi_registered _ _ _ Hi x rx p' Hx Hp') as (pa' & Hpa' & Hreg). assert (pa' = pa) as -> by congruence.
      split; [|by eexists]. destruct (oi_registered _ _ _ Hi1 x rx p') as (pa1 & Hpa1 & Hreg1); [|done|].
      { apply (aborted_live _ _ _ Hab). by split. }
      assert (pa1 = parent') as -> by congruence. rewrite Hpid', Hps in Hreg1. assert (p' = p) as -> by congruence.
      rewrite (oi_id _ _ _ Hi x rx Hx) in Hc. congruence. }
    split; [done|]. split; [by eapply aborted_same|]. split; [cbn; by rewrite lookup_delete_eq|]. intros x. rewrite Hin. split.
    - intros [Hx Hl]. split; [done|]. by exists p, parent.
    - intros (Hl & p' & parent' & Hp' & Hpar' & Hx). split; [|done]. congruence. }
  destruct Hloop as (F & s1 & Hr & Hi1 & Hd1 & Hab & Hnone & Hin). rewrite (bind_ok _ _ _ _ _ Hr), bind_modify.
  eexists F, _. split; [reflexivity|].
  assert (Hdr : (if decide (request_states s1 = []) then set_requests_drained true s1 else s1) = s1).
  { destruct (decide _) as [Hn|]; [|done]. unfold drained_ok in Hd1. rewrite bool_decide_eq_true_2 in Hd1 by done. destruct s1. cbn in *. by rewrite Hd1. }
  rewrite Hdr. done.
Qed.

(** Requests given by their external ids. *)
Lemma abort_external_ok n exts s : op_inv ∅ ∅ s → drained_ok s →
  ∃ F s', abort_fuel (S n) exts false s = (Ok (map fst F), s') ∧ abort_result F s s' ∧
    (∀ id, id ∈ map fst F ↔ ∃ rs, live s id = Some rs ∧ rs_external_req_id rs ∈ exts).
Proof.
  intros Hi Hd. cbn [abort_requests_fuel]. destruct (resolve_external exts ∅ s Hi) as (ids & m & Hres & Hi1 & Hnd & Hin).
  rewrite (bind_ok _ _ _ _ _ Hres). replace (list_to_set ids ∪ ∅ : gset string) with (list_to_set ids : gset string) in Hi1 by set_solver.
  destruct (abort_loop_ok id_order (λ ids, abort_fuel n ids true) ids _ Hi1 Hnd) as (F & s1 & Hloop & Hi2 & Hab & HinF & _ & Hdr).
  { intros x Hx Hl. apply Hin in Hx as [_ (rs & Hr & _)]. change (live s x = None) in Hl. congruence. }
  rewrite (bind_ok _ _ _ _ _ Hloop), bind_modify. assert (Hab' : aborted F s s1) by (by eapply aborted_same).
  destruct (drain_ok ∅ s s1 F Hi2 Hab' Hd Hdr) as (H1 & H2 & H3). eexists F, _. split; [reflexivity|]. split; [done|].
  intros x. rewrite HinF, Hin. split; [by intros [[_ Hx] _]|]. intros (rs & Hr & He). split; [split; [set_solver|by exists rs]|by exists rs].
Qed.

(** Which ids [abort_requests] is called with: external ones, own ids of live
    requests, or a single id. *)
Definition may_abort (ids : list string) (internal : bool) s : Prop :=
  internal = false ∨ (NoDup ids ∧ ∀ id, id ∈ ids → is_Some (live s id)) ∨ ∃ id, ids = [id].

Lemma op_abort_ok ids internal s : op_inv ∅ ∅ s → drained_ok s → may_abort ids internal s →
  ∃ F s', op_abort_requests stream_interval id_order ids internal s = (Ok (map fst F), s') ∧ abort_result F s s' ∧
    (internal = true → NoDup ids → (∀ id, id ∈ ids → is_Some (live s id)) → ∀ id, id ∈ ids → id ∈ map fst F).
Proof using id_order_perm.
  intros Hi Hd Hmay. unfold op_abort_requests. unfold bind at 1. cbn [get]. set (n := max_list _). destruct internal.
  2:{ destruct (abort_external_ok (S n) ids s Hi Hd) as (F & s' & H1 & H2 & _). exists F, s'. by split; [|split]. }
  assert (Hlive : NoDup ids → (∀ id, id ∈ ids → is_Some (live s id)) → ∃ F s', abort_fuel (S (S n)) ids true s = (Ok (map fst F), s') ∧
    abort_result F s s' ∧ ∀ id, id ∈ ids → id ∈ map fst F).
  { intros Hl1 Hl2. destruct (abort_internal_ok (S n) ids s Hi Hd Hl1) as (F & s' & H1 & H2 & H3 & _).
    - intros x Hx Hn. destruct (Hl2 x Hx) as [y Hy]. congruence.
    - exists F, s'. split; [done|]. split; [done|]. intros id Hid. apply H3. auto. }
  assert (Hgo : (NoDup ids ∧ ∀ id, id ∈ ids → is_Some (live s id)) ∨ ∃ id, ids = [id] ∧ live s id = None).
  { destruct Hmay as [?|[?|[id ->]]]; [done|by left|]. destruct (live s id) as [rs|] eqn:Hl; [left|right; by exists id].
    split; [apply NoDup_singleton|]. intros x ->%list_elem_of_singleton. by exists rs. }
  destruct Hgo as [[H1 H2]|(id & -> & Hl)].
  - destruct (Hlive H1 H2) as (F & s' & H3 & H4 & H5). exists F, s'. by split; [|split].
  - destruct (abort_parent_ok n id s Hi Hd Hl) as (F & s' & H1 & H2 & _). exists F, s'. split; [done|]. split; [done|].
    intros _ _ Hx. destruct (Hx id) as [y Hy]; [by left|]. congruence.
Qed.
End abort.
End invariant.
