(* ===== verification/OutputHistory.v ===== *)
(** Histories of the output processor with its collectors and consumers: what
    the consumers receive is what was generated. *)

From S2P Require Import Prelude.
From S2P Require Import OrderedDict.
From S2P Require Import Request.
From S2P Require Import SchedulerUpdate.
From S2P Require Import Detokenizer.
From S2P Require Import DetokenizerSpec.
From S2P Require Import PyFloat.
From S2P Require Import Logprobs.
From S2P Require Import RequestOutputs.
From S2P Require Import OutputProcessor.
From S2P Require Import OutputProcessorSpec.
From S2P Require Import OutputInvariant.

Section adding.
Context {D : Type} `{Decoder D} `{!TotalDecoder D}.
Abbreviation rstate := (RequestState D).
Abbreviation processor := (OutputProcessor D).
Implicit Types (s : processor) (rs : rstate).

(** [s'] is [s] with one more request. *)
Record added (rs : rstate) (parent_req : option ref) s s' : Prop := {
  an_new : live s (rs_request_id rs) = None;
  an_states : request_states s' = od_set (rs_request_id rs) rs (request_states s);
  an_queues : op_queues s' = op_queues s;
  an_parents : op_parents s' = op_parents s;
  an_external : external_req_ids s' =
    <[rs_external_req_id rs := default [] (external_req_ids s !! rs_external_req_id rs) ++ [rs_request_id rs]]> (external_req_ids s);
  an_drained : _requests_drained s' = false;
  an_registered k p : parent_requests s' !! k = Some p → parent_requests s !! k = Some p ∨
    (parent_req = Some p ∧ ∃ parent, op_parents s !! p = Some parent ∧ pa_request_id parent = k);
  an_kept k p : parent_requests s !! k = Some p → parent_requests s' !! k = Some p;
  an_parent p : parent_req = Some p → ∃ parent, op_parents s !! p = Some parent ∧ parent_requests s' !! pa_request_id parent = Some p
}.

Lemma added_live rs parent_req s s' x rx : added rs parent_req s s' → live s' x = Some rx →
  (x = rs_request_id rs ∧ rx = rs) ∨ (x ≠ rs_request_id rs ∧ live s x = Some rx).
Proof.
  intros Ha. unfold live. rewrite (an_states _ _ _ _ Ha), od_get_set. case_decide as Hx; [intros [= <-]; by left|by right].
Qed.

Lemma added_inv rs parent_req s s' : op_inv ∅ ∅ s → added rs parent_req s s' → state_ok rs → known_child (op_parents s) rs →
  rs_parent_req rs = parent_req →
  (∀ q, rs_queue rs = Some q → (∃ c, op_queues s !! q = Some c ∧ aggregate c = bool_decide (rs_output_kind rs = DELTA)) ∧
     ∀ id rs', live s id = Some rs' → rs_queue rs' = Some q → rs_request_index rs' ≠ rs_request_index rs) →
  op_inv ∅ ∅ s'.
Proof.
  intros Hi Ha Hok Hchild Hp Hq. pose proof Hi as [I1 I2 I3 I4 I5 I6 I7 I8 I9 I10 I11 I12].
  assert (Hl := added_live rs parent_req s s'). destruct Ha as [A1 A2 A3 A4 A5 A6 A7 A8 A9].
  specialize (λ x rx, Hl x rx ltac:(by split)). set (id := rs_request_id rs) in *. set (ext := rs_external_req_id rs) in *.
  assert (Hlive' : ∀ x rx, live s x = Some rx → live s' x = Some rx).
  { intros x rx Hx. unfold live. rewrite A2, od_get_set, decide_False; [done|]. intros ->. congruence. }
  assert (Hnew' : live s' id = Some rs) by (unfold live; by rewrite A2, od_get_set, decide_True).
  split; rewrite ?A3, ?A4; try done.
  - rewrite A2. by apply od_set_nodup.
  - intros x rx [[-> ->]|[_ Hx]]%Hl; [done|by apply I2].
  - intros x rx [[-> ->]|[_ Hx]]%Hl _; [done|]. by apply (I3 x rx).
  - intros x rx p [[-> ->]|[_ Hx]]%Hl Hxp; [apply A9; congruence|]. destruct (I4 x rx p Hx Hxp) as (parent & H1 & H2). exists parent. auto.
  - intros e l. rewrite A5. intros [[<- <-]|[_ Hl']]%lookup_insert_Some; [|by apply (I5 e)]. split; [by destruct (default _ _)|].
    apply NoDup_app. split; [|split; [|apply NoDup_singleton]].
    + destruct (external_req_ids s !! ext) as [k|] eqn:Hk; [by apply (I5 ext)|constructor].
    + intros x Hx Hin. apply list_elem_of_singleton in Hin as ->. destruct (external_req_ids s !! ext) as [k|] eqn:Hk; [|by apply elem_of_nil in Hx].
      destruct (I6 ext k id Hk Hx) as [_ (rx & Hr & _)]. congruence.
  - intros e l x. rewrite A5. intros [[<- <-]|[Hne Hl']]%lookup_insert_Some Hx; (split; [set_solver|]).
    + apply elem_of_app in Hx as [Hx|Hx]; [|apply list_elem_of_singleton in Hx as ->; by exists rs].
      destruct (external_req_ids s !! ext) as [k|] eqn:Hk; [|by apply elem_of_nil in Hx]. destruct (I6 ext k x Hk Hx) as [_ (rx & Hr & He)].
      exists rx. split; [by apply Hlive'|done].
    + destruct (I6 e l x Hl' Hx) as [_ (rx & Hr & He)]. exists rx. split; [by apply Hlive'|done].
  - intros x rx [[-> ->]|[_ Hx]]%Hl _; rewrite A5.
    + rewrite lookup_insert_eq. eexists. split; [done|]. apply elem_of_app. right. by left.
    + destruct (I7 x rx Hx ltac:(set_solver)) as (k & Hk & Hxk). destruct (decide (rs_external_req_id rx = ext)) as [He|He].
      * rewrite He in *. rewrite lookup_insert_eq. eexists. split; [done|]. rewrite Hk. apply elem_of_app. by left.
      * rewrite lookup_insert_ne by done. by exists k.
  - intros k p [Hk|[Hpp Hpar]]%A7; [by apply I8|done].
  - intros x rx q [[-> ->]|[_ Hx]]%Hl Hxq; [by apply Hq|by apply (I11 x rx)].
  - intros x y rx ry q [[-> ->]|[_ Hx]]%Hl [[-> ->]|[_ Hy]]%Hl Hxq Hyq He; try done.
    + destruct (Hq q Hxq) as [_ Hno]. by destruct (Hno y ry Hy Hyq).
    + destruct (Hq q Hyq) as [_ Hno]. by destruct (Hno x rx Hx Hxq).
    + by apply (I12 x y rx ry q).
Qed.

Lemma register_ok parent_req s : (∀ p, parent_req = Some p → ∃ parent, op_parents s !! p = Some parent ∧
    (parent_requests s !! pa_request_id parent = None ∨ parent_requests s !! pa_request_id parent = Some p)) →
  ∃ m, (match parent_req with None => ret tt | Some p => let* s := get in let* parent := of_option KeyError (op_parents s !! p) in
      modify (set_parent_requests (<[pa_request_id parent := p]> (parent_requests s))) end) s = (Ok tt, set_parent_requests m s) ∧
    (∀ k p, m !! k = Some p → parent_requests s !! k = Some p ∨ (parent_req = Some p ∧ ∃ parent, op_parents s !! p = Some parent ∧ pa_request_id parent = k)) ∧
    (∀ k p, parent_requests s !! k = Some p → m !! k = Some p) ∧
    (∀ p, parent_req = Some p → ∃ parent, op_parents s !! p = Some parent ∧ m !! pa_request_id parent = Some p).
Proof.
  intros Hpar. destruct parent_req as [p|].
  2:{ exists (parent_requests s). split; [by destruct s|]. split; [by left|]. by split. }
  destruct (Hpar p eq_refl) as (parent & Hpp & Hpr). unfold bind at 1. cbn [get]. rewrite Hpp. cbn [of_option]. rewrite bind_ret_l.
  eexists. split; [reflexivity|]. split; [|split].
  - intros k q [[<- <-]|[_ Hk']]%lookup_insert_Some; [right|by left]. split; [done|]. by exists parent.
  - intros k q Hk'. destruct (decide (k = pa_request_id parent)) as [->|Hne].
    + rewrite lookup_insert_eq. destruct Hpr as [Hpr|Hpr]; congruence.
    + by rewrite lookup_insert_ne.
  - intros q [= <-]. exists parent. split; [done|]. by rewrite lookup_insert_eq.
Qed.

(** A parent gets a child. *)
Lemma child_inv p parent parent' c s : op_inv ∅ ∅ s → op_parents s !! p = Some parent → pa_request_id parent' = pa_request_id parent →
  pa_sampling_params parent' = pa_sampling_params parent → child_requests parent' = {[c]} ∪ child_requests parent →
  (∀ p' parent', op_parents s !! p' = Some parent' → pa_request_id parent' ≠ c) →
  op_inv ∅ ∅ (set_op_parents (<[p := parent']> (op_parents s)) s).
Proof.
  intros [I1 I2 I3 I4 I5 I6 I7 I8 I9 I10 I11 I12] Hp Hid Hsp Hc Hnew.
  assert (Hlook : ∀ q pa', <[p := parent']> (op_parents s) !! q = Some pa' → ∃ pa, op_parents s !! q = Some pa ∧ pa_request_id pa' = pa_request_id pa ∧
    pa_sampling_params pa' = pa_sampling_params pa ∧ ∀ x, x ∈ child_requests pa' → x = c ∨ x ∈ child_requests pa).
  { intros q pa' [[<- <-]|[Hne Hq]]%lookup_insert_Some; [|exists pa'; auto]. exists parent. rewrite Hc. split; [done|]. split; [done|]. split; [done|]. set_solver. }
  assert (Hlook' : ∀ q pa, op_parents s !! q = Some pa → ∃ pa', <[p := parent']> (op_parents s) !! q = Some pa' ∧ pa_request_id pa' = pa_request_id pa ∧
    pa_sampling_params pa' = pa_sampling_params pa ∧ child_requests pa ⊆ child_requests pa').
  { intros q pa Hq. destruct (decide (q = p)) as [->|Hne].
    - exists parent'. rewrite lookup_insert_eq. assert (pa = parent) as -> by congruence. rewrite Hc. split; [done|]. split; [done|]. split; [done|]. set_solver.
    - exists pa. by rewrite lookup_insert_ne. }
  split; cbn [request_states parent_requests external_req_ids op_parents op_queues set_op_parents]; try done.
  - intros x rx Hx _. destruct (I3 x rx Hx ltac:(set_solver)) as [Hok Hk]. split; [done|]. intros q Hq.
    destruct (Hk q Hq) as (pa & Hpa & Hin & Hkind). destruct (Hlook' q pa Hpa) as (pa' & H1 & H2 & H3 & H4). exists pa'. rewrite H3. auto.
  - intros x rx q Hx Hq. destruct (I4 x rx q Hx Hq) as (pa & Hpa & Hreg). destruct (Hlook' q pa Hpa) as (pa' & H1 & H2 & _). exists pa'. by rewrite H2.
  - intros k q Hk. destruct (I8 k q Hk) as (pa & Hpa & Hreg). destruct (Hlook' q pa Hpa) as (pa' & H1 & H2 & _). exists pa'. by rewrite H2.
  - intros q pa x q' pa' Hq Hx Hq'. destruct (Hlook q pa Hq) as (pa0 & Hpa0 & _ & _ & Hch). destruct (Hlook q' pa' Hq') as (pa1 & Hpa1 & Hid1 & _).
    rewrite Hid1. destruct (Hch x Hx) as [->|Hx']; [by apply (Hnew q' pa1)|by apply (I9 q pa0 x q' pa1)].
Qed.

(** A new parent. *)
Lemma new_parent_ok p id ext params s : op_inv ∅ ∅ s → op_parents s !! p = None →
  (∀ p' parent, op_parents s !! p' = Some parent → id ∉ child_requests parent) →
  op_inv ∅ ∅ (set_op_parents (<[p := ParentRequest_new id ext params]> (op_parents s)) s).
Proof.
  intros Hi Hp Hid. set (pa := ParentRequest_new id ext params).
  assert (Hold : ∀ q x, op_parents s !! q = Some x → <[p := pa]> (op_parents s) !! q = Some x) by (intros q x Hx; by rewrite lookup_insert_ne by congruence).
  destruct Hi as [I1 I2 I3 I4 I5 I6 I7 I8 I9 I10 I11 I12].
  split; cbn [request_states parent_requests external_req_ids op_parents op_queues set_op_parents]; try done.
  - intros x rx Hx Hl. destruct (I3 x rx Hx Hl) as [Hok Hk]. split; [done|]. intros q Hq. destruct (Hk q Hq) as (y & Hy & ?). exists y. auto.
  - intros x rx q Hx Hq. destruct (I4 x rx q Hx Hq) as (y & Hy & ?). exists y. auto.
  - intros k q Hk. destruct (I8 k q Hk) as (y & Hy & ?). exists y. auto.
  - intros q y c q' y' [[<- <-]|[_ Hq]]%lookup_insert_Some Hc; [by apply not_elem_of_empty in Hc|].
    intros [[<- <-]|[_ Hq']]%lookup_insert_Some; [|by apply (I9 q y c q' y')]. cbn. intros ->. by apply (Hid q y).
Qed.

(** A new collector. *)
Lemma new_queue_ok q kind id s : op_inv ∅ ∅ s → op_queues s !! q = None →
  op_inv ∅ ∅ (set_op_queues (<[q := RequestOutputCollector_new kind id]> (op_queues s)) s).
Proof.
  intros [I1 I2 I3 I4 I5 I6 I7 I8 I9 I10 I11 I12] Hq.
  split; cbn [request_states parent_requests external_req_ids op_parents op_queues set_op_queues]; try done.
  - intros q' x [[<- <-]|[_ Hx]]%lookup_insert_Some; [by split|by eapply I10].
  - intros x rx q' Hx Hq'. destruct (I11 x rx q' Hx Hq') as (d & Hd' & Ha). exists d. split; [|done].
    rewrite lookup_insert_ne; [done|]. congruence.
Qed.

End adding.

Section history.
Context {D : Type} `{Decoder D} `{!TotalDecoder D} (has_tokenizer : bool).
Context (new_detokenizer : bool → DetokenizerParams → option (list Z) → option (list bytes) → res (IncrementalDetokenizer D)).
Context (decode : list Z → option text) (stream_interval : Z).
Context (id_order : gset string → list string).
Abbreviation rstate := (RequestState D).
Abbreviation processor := (OutputProcessor D).
Implicit Types (s : processor) (rs : rstate).

(** ** Adding requests *)

(** A sampling request whose detokenizer starts with nothing
    ([from_new_request_fresh]). *)
Definition good_request (request : EngineCoreRequest) : Prop :=
  ∃ sp, er_sampling_params request = Some sp ∧ ∀ d,
    new_detokenizer (has_tokenizer && os_detokenize sp) (os_detokenizer sp) (er_prompt_token_ids request) (er_prompt_embeds request) = Ok d →
    fresh_detokenizer d.

Definition kind_of (request : EngineCoreRequest) : RequestOutputKind :=
  from_option os_output_kind CUMULATIVE (er_sampling_params request).

Lemma new_state_ok request parent idx queue rs : good_request request →
  RequestState_from_new_request has_tokenizer new_detokenizer request parent idx queue = Ok rs →
  state_ok rs ∧ out_released rs = [] ∧ sent_ids stream_interval rs = [] ∧ rs_request_id rs = er_request_id request ∧
  rs_parent_req rs = parent ∧ rs_request_index rs = idx ∧ rs_queue rs = queue ∧ rs_output_kind rs = kind_of request.
Proof.
  intros (sp & Hsp & Hd) Hrun. unfold RequestState_from_new_request in Hrun. rewrite Hsp in Hrun.
  apply rbind_ok_inv in Hrun as ([[kind lp] d] & Hf & Hrun). apply rbind_ok_inv in Hf as (d0 & Hd0 & [= <- <- <-]).
  destruct (Hd d0 Hd0) as (Hinv & Hrel & Hids). destruct (er_external_req_id request); [|done].
  apply rbind_ok_inv in Hrun as (n & _ & [= <-]). unfold kind_of. rewrite Hsp. split; [|split; [|split; [|done]]].
  - split; [by exists d0| |].
    + eexists. split; [reflexivity|]. unfold LogprobsProcessor_from_new_request. cbn. destruct (os_logprobs sp); [|done].
      intros c [= <-]. by destruct (os_flat_logprobs sp).
    + unfold out_ids. cbn. rewrite Hids. cbn. unfold len. simpl. lia.
  - unfold out_released. cbn. exact Hrel.
  - unfold sent_ids, out_ids. cbn. rewrite Hids. by destruct (decide _).
Qed.

(** What the caller of [add_request] guarantees. *)
Record may_add (request : EngineCoreRequest) (parent_req : option ref) (idx : Z) (queue : option ref) s : Prop := {
  ma_good : good_request request;
  ma_parent p : parent_req = Some p → ∃ parent, op_parents s !! p = Some parent ∧
    (parent_requests s !! pa_request_id parent = None ∨ parent_requests s !! pa_request_id parent = Some p) ∧
    er_request_id request ∈ child_requests parent ∧ os_output_kind (pa_sampling_params parent) ≠ FINAL_ONLY;
  ma_queue q : queue = Some q → (∃ c, op_queues s !! q = Some c ∧ aggregate c = bool_decide (kind_of request = DELTA)) ∧
    ∀ id rs, live s id = Some rs → rs_queue rs = Some q → rs_request_index rs ≠ idx
}.

Lemma op_add_request_ok request parent_req idx queue s : op_inv ∅ ∅ s → may_add request parent_req idx queue s →
  (∃ e, op_add_request has_tokenizer new_detokenizer request parent_req idx queue s = (Raise e, s)) ∨
  ∃ s' rs, op_add_request has_tokenizer new_detokenizer request parent_req idx queue s = (Ok tt, s') ∧ op_inv ∅ ∅ s' ∧
    added rs parent_req s s' ∧ out_released rs = [] ∧ sent_ids stream_interval rs = [] ∧ rs_queue rs = queue ∧ rs_request_index rs = idx ∧
    rs_output_kind rs = kind_of request ∧ rs_request_id rs = er_request_id request.
Proof.
  intros Hi [Hgood Hpar Hqu]. set (run := op_add_request has_tokenizer new_detokenizer request parent_req idx queue s).
  assert (Hrun : run = op_add_request has_tokenizer new_detokenizer request parent_req idx queue s) by done. clearbody run.
  unfold op_add_request in Hrun. unfold bind at 1 in Hrun. cbn [get] in Hrun.
  destruct (od_mem (er_request_id request) (request_states s)) eqn:Hmem; [by left; eexists|].
  assert (Hnone : live s (er_request_id request) = None).
  { unfold live. destruct (od_get (er_request_id request) (request_states s)) eqn:Hg; [|done]. unfold od_mem in Hmem. rewrite Hg in Hmem.
    by rewrite bool_decide_eq_true_2 in Hmem by (by eexists). }
  destruct (RequestState_from_new_request _ _ request parent_req idx queue) as [rs|e] eqn:Hnew; [|by left; exists e].
  destruct (new_state_ok request parent_req idx queue rs Hgood Hnew) as (Hok & Hrel & Hsent & Hid & Hp & Hidx & Hq & Hk).
  right. rewrite bind_of_res, !bind_modify in Hrun. set (s1 := set_request_states _ (set_requests_drained false s)) in Hrun.
  destruct (register_ok parent_req s1) as (m & Hm & M1 & M2 & M3).
  { intros p Hpp. destruct (Hpar p Hpp) as (parent & H1 & H2 & _). by exists parent. }
  rewrite (bind_ok _ _ _ _ _ Hm) in Hrun. eexists _, rs. split; [exact Hrun|].
  match goal with |- op_inv _ _ ?x ∧ _ => set (s2 := x) end.
  assert (Ha : added rs parent_req s s2) by (split; rewrite ?Hid; done).
  split; [|by split].
  eapply added_inv; [done|exact Ha|done| |done|].
  - intros p Hpp. rewrite Hp in Hpp. destruct (Hpar p Hpp) as (parent & H1 & _ & H3 & H4). exists parent. by rewrite Hid.
  - intros q Hqq. rewrite Hq in Hqq. rewrite Hk, Hidx. by apply Hqu.
Qed.

Lemma get_child_info_ok idx parent : ∃ params parent', get_child_info idx parent = (Ok (child_id idx (pa_request_id parent), params), parent') ∧
  pa_request_id parent' = pa_request_id parent ∧ pa_sampling_params parent' = pa_sampling_params parent ∧
  child_requests parent' = {[child_id idx (pa_request_id parent)]} ∪ child_requests parent.
Proof.
  unfold get_child_info, _get_child_sampling_params, bind. cbn.
  destruct (cached_child_sampling_params parent) as [c|]; [by eexists _, _|]. destruct (os_seed _); by eexists _, _.
Qed.

(** ** Worlds *)

Definition slot : Type := ref * Z.
(** The output processor, what each consumer has received, the whole text and
    all tokens of the delta streams that have ended, and the slots, indices at
    a collector, that requests have taken. *)
Record world := mkWorld {
  w_op : processor;
  w_received : gmap ref (list OutputItem);
  w_ended : list (slot * (text * list Z));
  w_used : gset slot
}.

(** All that the consumer of a collector gets for an index. *)
Definition stream (f : CompletionOutput → list Z) (w : world) (q : ref) (i : Z) : list Z :=
  concat (map (item_pieces f i) (default [] (w_received w !! q))) ++ from_option (pending f i) [] (op_queues (w_op w) !! q).

Definition slot_of rs : option slot := (λ q, (q, rs_request_index rs)) <$> rs_queue rs.
(** The delta streams of [s] that are gone in [s']. *)
Definition ending s s' : list (slot * (text * list Z)) :=
  omap (λ '(id, rs), if live s' id is Some _ then None else
    if decide (rs_output_kind rs = DELTA) then (λ x, (x, (out_text rs, out_ids rs))) <$> slot_of rs else None) (request_states s).

Inductive action :=
  | NewCollector (q : ref) (output_kind : RequestOutputKind) (request_id : string)
  | NewParent (p : ref) (request_id external_req_id : string) (params : OutputParams)
  | Add (request : EngineCoreRequest) (queue : option ref)
  | AddChild (p : ref) (idx : Z) (request : EngineCoreRequest) (queue : option ref)
  | Process (outputs : list ProcessedOutput)
  | Abort (request_ids : list string) (internal : bool)
  | Receive (q : ref).

Definition with_op (s : processor) (w : world) : world := mkWorld s (w_received w) (w_ended w) (w_used w).
Definition run_op {A} (m : M processor A) : M world A := λ w, let '(r, s) := m (w_op w) in (r, with_op s w).
Definition use (queue : option ref) (idx : Z) (w : world) : world :=
  mkWorld (w_op w) (w_received w) (w_ended w) (match queue with Some q => {[(q, idx)]} ∪ w_used w | None => w_used w end).
Definition end_streams (l : list (slot * (text * list Z))) (w : world) : world :=
  mkWorld (w_op w) (w_received w) (w_ended w ++ l) (w_used w).

(** One output; a stream that ends has the text and tokens after the update. *)
Definition process_and_record (o : ProcessedOutput) : M world OutputProcessorOutput := λ w,
  let updated := (on_request (eo_request_id (pr_output o)) (update_state decode o) (w_op w)).2 in
  let '(r, s) := process_one decode stream_interval o (w_op w) in
  (r, end_streams (ending updated s) (with_op s w)).

Definition perform (a : action) : M world unit :=
  match a with
  | NewCollector q kind id => run_op (modify (λ s, set_op_queues (<[q := RequestOutputCollector_new kind id]> (op_queues s)) s))
  | NewParent p id ext params => run_op (modify (λ s, set_op_parents (<[p := ParentRequest_new id ext params]> (op_parents s)) s))
  | Add request queue => run_op (op_add_request has_tokenizer new_detokenizer request None 0 queue) ;;; modify (use queue 0)
  | AddChild p idx request queue =>
      run_op (op_add_child has_tokenizer new_detokenizer p idx request queue) ;;; modify (use queue idx)
  | Process os => for_ os (λ o, process_and_record o ;;; ret tt)
  | Abort ids internal => λ w,
      let '(r, s) := op_abort_requests stream_interval id_order ids internal (w_op w) in
      (match r with Ok _ => Ok tt | Raise e => Raise e end, end_streams (ending (w_op w) s) (with_op s w))
  | Receive q => λ w,
      let '(r, s) := on_collector q get_nowait (w_op w) in
      (match r with Ok _ => Ok tt | Raise e => Raise e end,
       mkWorld s (match r with
                  | Ok (Some it) => <[q := default [] (w_received w !! q) ++ [it]]> (w_received w)
                  | _ => w_received w
                  end) (w_ended w) (w_used w))
  end.

(** The processor of a world does what [process_outputs] does. *)
Lemma perform_process os : ∀ w, w_op (perform (Process os) w).2 = (process_outputs decode stream_interval os (w_op w)).2.
Proof.
  induction os as [|o os IH]; intros w; [done|]. cbn [perform for_ process_outputs] in *. unfold bind.
  unfold process_and_record at 1. destruct (process_one decode stream_interval o (w_op w)) as [[r|e] s]; [|done]. cbn [ret]. rewrite IH.
  cbn [w_op end_streams with_op]. by destruct (process_outputs decode stream_interval os s) as [[r'|e'] s'].
Qed.

End history.

(** ** The invariant of worlds *)

Section streams.
Context {D : Type} `{Decoder D} `{!TotalDecoder D} (stream_interval : Z).
Abbreviation rstate := (RequestState D).
Abbreviation processor := (OutputProcessor D).
Implicit Types (s : processor) (rs : rstate).

(** Live and ended streams are exact; slots are used once. *)
Record streams_ok (w : world) : Prop := {
  st_queue id rs q : live (w_op w) id = Some rs → rs_queue rs = Some q →
    ∃ c, op_queues (w_op w) !! q = Some c ∧ aggregate c = bool_decide (rs_output_kind rs = DELTA);
  st_slots id id' rs rs' x : live (w_op w) id = Some rs → live (w_op w) id' = Some rs' → slot_of rs = Some x → slot_of rs' = Some x → id = id';
  st_live id rs q : live (w_op w) id = Some rs → rs_queue rs = Some q → rs_output_kind rs = DELTA →
    stream co_text w q (rs_request_index rs) = out_released rs ∧ stream co_token_ids w q (rs_request_index rs) = sent_ids stream_interval rs;
  st_used id rs x : live (w_op w) id = Some rs → slot_of rs = Some x → x ∈ w_used w;
  st_dom q i : (q, i) ∈ w_used w → is_Some (op_queues (w_op w) !! q);
  st_received q l : w_received w !! q = Some l → is_Some (op_queues (w_op w) !! q);
  st_ended q i t k : ((q, i), (t, k)) ∈ w_ended w → stream co_text w q i = t ∧ stream co_token_ids w q i = k ∧ (q, i) ∈ w_used w ∧
    (∃ c, op_queues (w_op w) !! q = Some c ∧ aggregate c = true) ∧ ∀ id rs, live (w_op w) id = Some rs → slot_of rs ≠ Some (q, i);
  st_unused q i c : op_queues (w_op w) !! q = Some c → aggregate c = true → ((q, i) ∉ w_used w) →
    stream co_text w q i = [] ∧ stream co_token_ids w q i = []
}.

(** Only requests and collectors matter. *)
Lemma streams_ok_same s s' rcv e used : streams_ok (mkWorld s rcv e used) → request_states s' = request_states s → op_queues s' = op_queues s →
  streams_ok (mkWorld s' rcv e used).
Proof.
  intros [S1 S2 S3 S4 S5 S6 S7 S8] Hst Hq. unfold stream in *. cbn in *.
  split; unfold stream; cbn; rewrite ?Hq; unfold live in *; rewrite ?Hst; eauto.

Qed.

Lemma stream_step rs t k s s' rcv e e' used q' i c' : queue_step rs t k s s' → op_queues s' !! q' = Some c' → aggregate c' = true →
  let x := bool_decide (slot_of rs = Some (q', i)) in
  stream co_text (mkWorld s' rcv e' used) q' i = stream co_text (mkWorld s rcv e used) q' i ++ (if x then t else []) ∧
  stream co_token_ids (mkWorld s' rcv e' used) q' i = stream co_token_ids (mkWorld s rcv e used) q' i ++ (if x then k else []).
Proof.
  unfold queue_step, stream, slot_of. cbn [w_received w_op]. destruct (rs_queue rs) as [q|]; cbn [fmap option_fmap option_map].
  2:{ intros ->. intros _ _. cbn. by rewrite !app_nil_r. }
  intros (c & c1 & Hc & -> & _ & Ha & Hp) Hc' Hagg. destruct (decide (q' = q)) as [->|Hne].
  - rewrite lookup_insert_eq in *. injection Hc' as <-. rewrite Hc. cbn [from_option]. rewrite Ha in Hagg. destruct (Hp Hagg i) as [-> ->].
    rewrite !app_assoc. destruct (decide (i = rs_request_index rs)) as [->|Hi].
    + by rewrite bool_decide_eq_true_2.
    + rewrite bool_decide_eq_false_2 by congruence. done.
  - rewrite lookup_insert_ne by done. rewrite bool_decide_eq_false_2 by congruence. by rewrite !app_nil_r.
Qed.

Lemma queue_step_lookup rs t k s s' q' c' : queue_step rs t k s s' → op_queues s' !! q' = Some c' →
  ∃ c, op_queues s !! q' = Some c ∧ aggregate c' = aggregate c.
Proof.
  unfold queue_step. destruct (rs_queue rs) as [q|]; [|intros ->; by exists c'].
  intros (c & c1 & Hc & -> & _ & Ha & _) [[<- <-]|[_ Hq]]%lookup_insert_Some; [by exists c|by exists c'].
Qed.
Lemma queue_step_some rs t k s s' q' c : queue_step rs t k s s' → op_queues s !! q' = Some c →
  ∃ c', op_queues s' !! q' = Some c' ∧ aggregate c' = aggregate c.
Proof.
  unfold queue_step. destruct (rs_queue rs) as [q|]; [|intros ->; by exists c].
  intros (c0 & c1 & Hc & -> & _ & Ha & _) Hq. destruct (decide (q' = q)) as [->|Hne].
  - exists c1. rewrite lookup_insert_eq. split; [done|]. congruence.
  - exists c. by rewrite lookup_insert_ne.
Qed.

Lemma same_slot rs rs' : same_request rs rs' → slot_of rs' = slot_of rs.
Proof. intros [_ _ _ Hi _ Hq]. unfold slot_of. by rewrite Hq, Hi. Qed.
Lemma slot_queue rs q i : slot_of rs = Some (q, i) → rs_queue rs = Some q ∧ rs_request_index rs = i.
Proof. unfold slot_of. destruct (rs_queue rs); [|done]. by intros [= -> ->]. Qed.
Lemma queue_slot rs q : rs_queue rs = Some q → slot_of rs = Some (q, rs_request_index rs).
Proof. unfold slot_of. by intros ->. Qed.

(** A step of a request extends its stream, and the last one completes it. *)
Lemma advanced_streams id rs rs' finished s s' rcv e F used : streams_ok (mkWorld s rcv e used) → live s id = Some rs →
  advanced stream_interval id rs rs' finished s s' →
  (∀ x, x ∈ F → finished = true ∧ rs_output_kind rs = DELTA ∧ ∃ sl, slot_of rs = Some sl ∧ x = (sl, (out_text rs', out_ids rs'))) →
  streams_ok (mkWorld s' rcv (e ++ F) used).
Proof.
  intros [S1 S2 S3 S4 S5 S6 S7 S8] Hlive [Hst Hsame (t & k & Hqs & Hext) Hfin] HF. cbn [w_op w_received w_ended w_used] in *.
  assert (Hl : ∀ x rx, live s' x = Some rx → (x = id ∧ finished = false ∧ rx = rs') ∨ (x ≠ id ∧ live s x = Some rx)).
  { intros x rx. unfold live. rewrite Hst. destruct finished; [rewrite od_get_del|rewrite od_get_set]; case_decide; naive_solver. }
  pose proof (same_slot _ _ Hsame) as Hslot.
  assert (Hother : ∀ x rx sl, x ≠ id → live s x = Some rx → slot_of rx = Some sl → slot_of rs ≠ Some sl).
  { intros x rx sl Hne Hx Hsl Hrs. apply Hne. by apply (S2 x id rx rs sl). }
  split; cbn [w_op w_received w_ended w_used].
  - intros x rx q Hx Hq. assert (Hs : ∃ c, op_queues s !! q = Some c ∧ aggregate c = bool_decide (rs_output_kind rx = DELTA)).
    { apply Hl in Hx as [(-> & _ & ->)|[_ Hx]]; [|by apply (S1 x)]. rewrite (sr_kind _ _ Hsame). apply (S1 id); [done|]. by rewrite <- (sr_queue _ _ Hsame). }
    destruct Hs as (c & Hc & Ha). destruct (queue_step_some _ _ _ _ _ _ _ Hqs Hc) as (c' & Hc' & Ha'). exists c'. split; [done|congruence].
  - intros x y rx ry sl [(-> & _ & ->)|[Hx1 Hx]]%Hl [(-> & _ & ->)|[Hy1 Hy]]%Hl H1 H2; try done.
    + rewrite Hslot in H1. by destruct (Hother y ry sl Hy1 Hy H2).
    + rewrite Hslot in H2. by destruct (Hother x rx sl Hx1 Hx H1).
    + by apply (S2 x y rx ry sl).
  - intros x rx q Hx Hq Hk.
    assert (Hagg : ∃ c', op_queues s' !! q = Some c' ∧ aggregate c' = true).
    { assert (Hs : ∃ c, op_queues s !! q = Some c ∧ aggregate c = true).
      { apply Hl in Hx as [(-> & _ & ->)|[_ Hx]].
        - rewrite (sr_queue _ _ Hsame) in Hq. rewrite (sr_kind _ _ Hsame) in Hk. destruct (S1 id rs q Hlive Hq) as (c & Hc & Ha).
          exists c. split; [done|]. by rewrite Ha, bool_decide_eq_true_2.
        - destruct (S1 x rx q Hx Hq) as (c & Hc & Ha). exists c. split; [done|]. by rewrite Ha, bool_decide_eq_true_2. }
      destruct Hs as (c & Hc & Ha). destruct (queue_step_some _ _ _ _ _ _ _ Hqs Hc) as (c' & Hc' & Ha'). exists c'. split; [done|congruence]. }
    destruct Hagg as (c' & Hc' & Ha'). destruct (stream_step rs t k s s' rcv e (e ++ F) used q (rs_request_index rx) c' Hqs Hc' Ha') as [H1 H2].
    rewrite H1, H2. pose proof (queue_slot rx q Hq) as Hrx. apply Hl in Hx as [(-> & _ & ->)|[Hne Hx]].
    + rewrite Hslot in Hrx. rewrite bool_decide_eq_true_2 by done. rewrite (sr_queue _ _ Hsame) in Hq. rewrite (sr_kind _ _ Hsame) in Hk.
      destruct (S3 id rs q Hlive Hq Hk) as [H3 H4]. rewrite (sr_index _ _ Hsame), H3, H4. destruct (Hext ltac:(by eexists) Hk) as [-> ->]. done.
    + rewrite bool_decide_eq_false_2 by (by apply (Hother x rx)). rewrite !app_nil_r. by apply (S3 x).
  - intros x rx sl [(-> & _ & ->)|[_ Hx]]%Hl Hsl; [|by apply (S4 x rx)]. rewrite Hslot in Hsl. by apply (S4 id rs).
  - intros q i Hu. destruct (S5 q i Hu) as [c Hc]. destruct (queue_step_some _ _ _ _ _ _ _ Hqs Hc) as (c' & Hc' & _). by exists c'.
  - intros q l Hq. destruct (S6 q l Hq) as [c Hc]. destruct (queue_step_some _ _ _ _ _ _ _ Hqs Hc) as (c' & Hc' & _). by exists c'.
  - intros q i t' k' [He|He]%elem_of_app.
    + destruct (S7 q i t' k' He) as (H1 & H2 & H3 & (c & Hc & Ha) & H5).
      destruct (queue_step_some _ _ _ _ _ _ _ Hqs Hc) as (c' & Hc' & Ha'). rewrite Ha in Ha'.
      destruct (stream_step rs t k s s' rcv e (e ++ F) used q i c' Hqs Hc' Ha') as [H6 H7].
      assert (Hns : slot_of rs ≠ Some (q, i)) by (by apply (H5 id)). rewrite H6, H7, bool_decide_eq_false_2 by done. rewrite !app_nil_r.
      split; [done|]. split; [done|]. split; [done|]. split; [by exists c'|].
      intros x rx [(-> & _ & ->)|[_ Hx]]%Hl; [by rewrite Hslot|by apply (H5 x)].
    + destruct (HF _ He) as (-> & Hk & sl & Hsl & [= <- -> ->]). destruct (slot_queue _ _ _ Hsl) as [Hq Hidx].
      destruct (S1 id rs q Hlive Hq) as (c & Hc & Ha). rewrite bool_decide_eq_true_2 in Ha by done.
      destruct (queue_step_some _ _ _ _ _ _ _ Hqs Hc) as (c' & Hc' & Ha'). rewrite Ha in Ha'.
      destruct (stream_step rs t k s s' rcv e (e ++ F) used q i c' Hqs Hc' Ha') as [H6 H7]. rewrite bool_decide_eq_true_2 in H6, H7 by done.
      destruct (S3 id rs q Hlive Hq Hk) as [H3 H4]. rewrite Hidx in H3, H4. rewrite H3 in H6. rewrite H4 in H7.
      destruct (Hext ltac:(by eexists) Hk) as [H8 H9]. destruct (Hfin eq_refl ltac:(by eexists) Hk) as [H10 H11].
      rewrite H6, H7, <- H8, <- H9, H10, H11. split; [done|]. split; [done|]. split; [by apply (S4 id rs)|]. split; [by exists c'|].
      intros x rx [(-> & ? & ->)|[Hne Hx]]%Hl; [done|]. intros Hrx. by apply (Hother x rx (q, i)).
  - intros q i c' Hc' Ha' Hu. destruct (queue_step_lookup _ _ _ _ _ _ _ Hqs Hc') as (c & Hc & Ha). rewrite Ha in Ha'.
    destruct (stream_step rs t k s s' rcv e (e ++ F) used q i c' Hqs Hc' ltac:(congruence)) as [H1 H2].
    destruct (S8 q i c Hc Ha' Hu) as [H3 H4]. rewrite H1, H2, H3, H4, bool_decide_eq_false_2; [done|].
    intros Hsl. apply Hu. by apply (S4 id rs).
Qed.

(** Nothing changes for the requests and no stream changes; there may be new
    collectors. *)
Lemma streams_ok_view w w' : streams_ok w → request_states (w_op w') = request_states (w_op w) → w_ended w' = w_ended w → w_used w' = w_used w →
  (∀ q c, op_queues (w_op w) !! q = Some c → ∃ c', op_queues (w_op w') !! q = Some c' ∧ aggregate c' = aggregate c) →
  (∀ q c', op_queues (w_op w') !! q = Some c' → (∃ c, op_queues (w_op w) !! q = Some c ∧ aggregate c' = aggregate c) ∨
     ∀ i, stream co_text w' q i = [] ∧ stream co_token_ids w' q i = []) →
  (∀ q i, is_Some (op_queues (w_op w) !! q) → stream co_text w' q i = stream co_text w q i ∧ stream co_token_ids w' q i = stream co_token_ids w q i) →
  (∀ q l, w_received w' !! q = Some l → is_Some (op_queues (w_op w') !! q)) →
  streams_ok w'.
Proof.
  intros [S1 S2 S3 S4 S5 S6 S7 S8] Hst He Hu Hfwd Hback Hsame Hrcv.
  unfold live in *. split; rewrite ?He, ?Hu; unfold live; rewrite ?Hst; try done.
  - intros id rs q Hx Hq. destruct (S1 id rs q Hx Hq) as (c & Hc & Ha). destruct (Hfwd q c Hc) as (c' & Hc' & Ha'). exists c'. split; [done|congruence].
  - intros id rs q Hx Hq Hk. destruct (S1 id rs q Hx Hq) as (c & Hc & _). destruct (Hsame q (rs_request_index rs)) as [-> ->]; [by exists c|].
    by apply (S3 id).
  - intros q i Hx. destruct (S5 q i Hx) as [c Hc]. destruct (Hfwd q c Hc) as (c' & Hc' & _). by exists c'.
  - intros q i t k Hx. destruct (S7 q i t k Hx) as (H1 & H2 & H3 & (c & Hc & Ha) & H5). destruct (Hsame q i) as [-> ->]; [by exists c|].
    split; [done|]. split; [done|]. split; [done|]. split; [|done]. destruct (Hfwd q c Hc) as (c' & Hc' & Ha'). exists c'. split; [done|congruence].
  - intros q i c' Hc' Ha Hx. destruct (Hback q c' Hc') as [(c & Hc & Ha')|Hn]; [|apply Hn].
    destruct (Hsame q i) as [-> ->]; [by exists c|]. apply (S8 q i c Hc); [congruence|done].
Qed.

Lemma streams_ok_fewer s rcv e e' used : streams_ok (mkWorld s rcv e used) → (∀ x, x ∈ e' → x ∈ e) → streams_ok (mkWorld s rcv e' used).
Proof.
  intros [S1 S2 S3 S4 S5 S6 S7 S8] He. unfold stream in *. cbn [w_op w_received w_ended w_used] in *.
  split; unfold stream; cbn [w_op w_received w_ended w_used]; try done. intros q i t k Hx. apply (S7 q i t k). by apply He.
Qed.

(** The last words of requests that leave. *)
Definition ended_of (F : list (string * rstate)) : list (slot * (text * list Z)) :=
  omap (λ '(_, rs), if decide (rs_output_kind rs = DELTA) then (λ x, (x, (out_text rs, out_ids rs))) <$> slot_of rs else None) F.

Lemma aborted_streams F s s' rcv used : aborted stream_interval F s s' → ∀ e, streams_ok (mkWorld s rcv e used) →
  streams_ok (mkWorld s' rcv (e ++ ended_of F) used).
Proof.
  induction 1 as [s s' Hst Hq|id rs rs' F s s1 s2 Hl Ha Ht Hi _ IH]; intros e Hw.
  - cbn. rewrite app_nil_r. by apply (streams_ok_same s).
  - set (F1 := ended_of [(id, rs)]). assert (Heq : ended_of ((id, rs) :: F) = F1 ++ ended_of F).
    { unfold F1, ended_of. change ((id, rs) :: F) with ([(id, rs)] ++ F). by rewrite omap_app. }
    rewrite Heq, app_assoc. apply IH. eapply advanced_streams; [exact Hw|exact Hl|exact Ha|].
    unfold F1, ended_of. cbn. intros x. destruct (decide (rs_output_kind rs = DELTA)) as [Hk|]; [|intros Hx; by apply elem_of_nil in Hx].
    destruct (slot_of rs) as [sl|]; cbn; [|intros Hx; by apply elem_of_nil in Hx]. intros Hx. apply list_elem_of_singleton in Hx as ->.
    split; [done|]. split; [done|]. exists sl. by rewrite Ht, Hi.
Qed.

Lemma in_ending s s' sl t k : NoDup (od_keys (request_states s)) → (sl, (t, k)) ∈ ending s s' → ∃ id rs, live s id = Some rs ∧ live s' id = None ∧
  rs_output_kind rs = DELTA ∧ slot_of rs = Some sl ∧ t = out_text rs ∧ k = out_ids rs.
Proof.
  intros Hnd Hx. unfold ending in Hx. apply list_elem_of_omap in Hx as ([id rs] & Hin & Hx). exists id, rs. split; [by apply od_get_nodup|].
  destruct (live s' id); [done|]. destruct (decide _); [|done]. destruct (slot_of rs) as [sl'|]; [|done]. cbn in Hx. by injection Hx as -> <- <-.
Qed.

Lemma in_ended_of F id rs sl : (id, rs) ∈ F → rs_output_kind rs = DELTA → slot_of rs = Some sl → (sl, (out_text rs, out_ids rs)) ∈ ended_of F.
Proof. intros Hin Hk Hs. apply list_elem_of_omap. exists (id, rs). split; [done|]. rewrite decide_True by done. by rewrite Hs. Qed.

Lemma aborted_in F s s' : aborted stream_interval F s s' → ∀ id rs, (id, rs) ∈ F → live s id = Some rs.
Proof.
  induction 1 as [|id rs rs' F s s1 s2 Hl Ha _ _ _ IH]; intros x rx Hx; [by apply elem_of_nil in Hx|].
  apply elem_of_cons in Hx as [[= -> ->]|Hx]; [done|]. apply IH in Hx. unfold live in *. rewrite (ad_states _ _ _ _ _ _ _ Ha), od_get_del in Hx.
  by destruct (decide (x = id)).
Qed.

(** The world after requests have been aborted. *)
Lemma abort_streams F s s' rcv e used : NoDup (od_keys (request_states s)) → aborted stream_interval F s s' → streams_ok (mkWorld s rcv e used) →
  streams_ok (mkWorld s' rcv (e ++ ending s s') used).
Proof.
  intros Hnd Ha Hw. eapply streams_ok_fewer; [by eapply aborted_streams|]. intros [sl [t k]] [Hx|Hx]%elem_of_app; apply elem_of_app; [by left|right].
  destruct (in_ending _ _ _ _ _ Hnd Hx) as (id & rs & Hl & Hl' & Hk & Hs & -> & ->).
  destruct (decide (id ∈ map fst F)) as [Hin|Hin].
  - apply list_elem_of_fmap in Hin as ([id0 rs0] & Heq & Hin). cbn in Heq. subst id0. pose proof (aborted_in _ _ _ Ha _ _ Hin) as Hl0.
    assert (rs0 = rs) as -> by congruence. by eapply in_ended_of.
  - assert (Hc : live s' id = Some rs) by (apply (aborted_live _ _ _ _ Ha); by split). congruence.
Qed.
End streams.
