(* ===== verification/OutputStreams.v ===== *)
(** Every history of the output processor, of the actions that [allowed] admits
    (requests that generate text): its bookkeeping, and what the consumers have
    received. *)

From S2P Require Import Prelude.
From S2P Require Import OrderedDict.
From S2P Require Import Request.
From S2P Require Import SchedulerUpdate.
From S2P Require Import Detokenizer.
From S2P Require Import DetokenizerSpec.
From S2P Require Import PyFloat.
From S2P Require Import Logprobs.
From S2P Require Import RequestOutputs.
From S2P Require Import OutputProcessor.
From S2P Require Import OutputProcessorSpec.
From S2P Require Import OutputInvariant.
From S2P Require Import OutputHistory.

Section worlds.
Context {D : Type} `{Decoder D} `{!TotalDecoder D} (has_tokenizer : bool).
Context (new_detokenizer : bool → DetokenizerParams → option (list Z) → option (list bytes) → res (IncrementalDetokenizer D)).
Context (decode : list Z → option text) (stream_interval : Z).
Context (id_order : gset string → list string).
Abbreviation rstate := (RequestState D).
Abbreviation processor := (OutputProcessor D).
Abbreviation act := (perform has_tokenizer new_detokenizer decode stream_interval id_order).
Abbreviation good := (good_request has_tokenizer new_detokenizer).
Abbreviation world := (world (D := D)).
Implicit Types (s : processor) (rs : rstate) (w : world).

(** ** Which actions the engines perform *)

(** A request writes to a collector of its kind, with an index of its own. *)
Definition can_use (request : EngineCoreRequest) (queue : option ref) (idx : Z) w : Prop :=
  ∀ q, queue = Some q → (∃ c, op_queues (w_op w) !! q = Some c ∧ aggregate c = bool_decide (kind_of request = DELTA)) ∧ ((q, idx) ∉ w_used w).

Definition allowed (a : action) w : Prop :=
  match a with
  | NewCollector q _ _ => op_queues (w_op w) !! q = None
  | NewParent p id _ _ => op_parents (w_op w) !! p = None ∧
      ∀ p' parent, op_parents (w_op w) !! p' = Some parent → id ∉ child_requests parent
  | Add request queue => good request ∧ can_use request queue 0 w
  | AddChild p idx request queue => ∃ parent, op_parents (w_op w) !! p = Some parent ∧
      os_output_kind (pa_sampling_params parent) ≠ FINAL_ONLY ∧
      (parent_requests (w_op w) !! pa_request_id parent = None ∨ parent_requests (w_op w) !! pa_request_id parent = Some p) ∧
      (∀ p' parent', op_parents (w_op w) !! p' = Some parent' → pa_request_id parent' ≠ child_id idx (pa_request_id parent)) ∧
      ∀ id params parent', get_child_info idx parent = (Ok (id, params), parent') →
        good (child_request request id params) ∧ can_use (child_request request id params) queue idx w
  | Process os => Forall plain_output os
  | Abort ids internal => may_abort ids internal (w_op w)
  | Receive q => is_Some (op_queues (w_op w) !! q)
  end.

Definition world_init : world := mkWorld OutputProcessor_init ∅ [] ∅.

Inductive reachable : world → Prop :=
  | reachable_init : reachable world_init
  | reachable_step w a : reachable w → allowed a w → reachable (act a w).2.

Record world_inv w : Prop := {
  wi_op : op_inv ∅ ∅ (w_op w);
  wi_drained : drained_ok (w_op w);
  wi_streams : streams_ok stream_interval w
}.

Lemma world_init_inv : world_inv world_init.
Proof.
  split; [|done|].
  - split; cbn; try (by intros); [constructor|..]; intros *; try (intros Hx; by rewrite lookup_empty in Hx).
  - split; cbn; try (by intros); intros *; try (intros Hx; by rewrite lookup_empty in Hx); set_solver.
Qed.

(** ** Collectors and parents *)

Lemma new_collector_inv q kind id w : world_inv w → op_queues (w_op w) !! q = None → world_inv (act (NewCollector q kind id) w).2.
Proof.
  intros [Hi Hd Hs] Hq. cbn [perform]. unfold run_op. cbn [modify snd]. split; [|done|]; cbn [w_op with_op].
  - by apply new_queue_ok.
  - eapply streams_ok_view; [exact Hs|done|done|done| | | |]; cbn [w_op w_received with_op op_queues set_op_queues].
    + intros q' x Hx. exists x. rewrite lookup_insert_ne by congruence. done.
    + intros q' x [[<- <-]|[_ Hx]]%lookup_insert_Some; [right|left; by exists x]. intros i. unfold stream.
      cbn [w_op w_received with_op op_queues set_op_queues]. rewrite lookup_insert_eq. cbn [from_option].
      destruct (w_received w !! q) as [l|] eqn:Hl; [|done]. destruct (st_received _ _ Hs q l Hl) as [x Hx]. congruence.
    + intros q' i [x Hx]. unfold stream. cbn [w_op w_received with_op op_queues set_op_queues]. by rewrite lookup_insert_ne by congruence.
    + intros q' l Hl. destruct (st_received _ _ Hs q' l Hl) as [x Hx]. rewrite lookup_insert_ne by congruence. by exists x.
Qed.

Lemma streams_ok_op s w : streams_ok stream_interval w → request_states s = request_states (w_op w) → op_queues s = op_queues (w_op w) →
  streams_ok stream_interval (with_op s w).
Proof. intros Hs. destruct w. by apply streams_ok_same. Qed.

Lemma new_parent_inv p id ext params w : world_inv w → op_parents (w_op w) !! p = None →
  (∀ p' parent, op_parents (w_op w) !! p' = Some parent → id ∉ child_requests parent) → world_inv (act (NewParent p id ext params) w).2.
Proof.
  intros [Hi Hd Hs] Hp Hid. cbn [perform]. unfold run_op. cbn [modify snd]. split; [|done|by apply streams_ok_op]. by apply new_parent_ok.
Qed.

Lemma receive_inv q w : world_inv w → is_Some (op_queues (w_op w) !! q) → ∃ c, op_queues (w_op w) !! q = Some c ∧
  act (Receive q) w = (Ok tt, mkWorld (set_op_queues (<[q := set_output None false c]> (op_queues (w_op w))) (w_op w))
    (match qu_output c with Some it => <[q := default [] (w_received w !! q) ++ [it]]> (w_received w) | None => w_received w end) (w_ended w) (w_used w)) ∧
  world_inv (act (Receive q) w).2.
Proof.
  intros [Hi Hd Hs] [c Hc]. exists c. split; [done|]. destruct (get_nowait_ok c (oi_collectors _ _ _ Hi q c Hc)) as [Hget Hok].
  assert (Hon : on_collector q get_nowait (w_op w) = (Ok (qu_output c), set_op_queues (<[q := set_output None false c]> (op_queues (w_op w))) (w_op w))).
  { unfold on_collector. by rewrite Hc, Hget. }
  cbn [perform]. rewrite Hon. split; [by destruct (qu_output c)|]. cbn [snd]. split; [by eapply set_queue_inv|done|].
  eapply streams_ok_view; [exact Hs|done|done|done| | | |]; cbn [w_op w_received op_queues set_op_queues].
  - intros q' x Hx. destruct (decide (q' = q)) as [->|Hne]; [|exists x; by rewrite lookup_insert_ne].
    eexists. rewrite lookup_insert_eq. split; [done|]. assert (x = c) as -> by congruence. done.
  - intros q' x [[<- <-]|[_ Hx]]%lookup_insert_Some; left; [by exists c|by exists x].
  - intros q' i _. unfold stream. cbn [w_op w_received op_queues set_op_queues]. destruct (decide (q' = q)) as [->|Hne].
    + rewrite lookup_insert_eq, Hc. cbn [from_option]. unfold pending. cbn [set_output qu_output from_option]. rewrite !app_nil_r.
      destruct (qu_output c) as [it|]; cbn [from_option]; [|by rewrite !app_nil_r]. rewrite lookup_insert_eq.
      set (old := default [] (w_received w !! q)). change (default [] (Some (old ++ [it]))) with (old ++ [it]).
      rewrite !map_app, !concat_app. cbn [map concat]. by rewrite !app_nil_r.
    + rewrite lookup_insert_ne by done. destruct (qu_output c); [by rewrite lookup_insert_ne|done].
  - intros q' l Hl. destruct (decide (q' = q)) as [->|Hne]; [rewrite lookup_insert_eq; by eexists|]. rewrite lookup_insert_ne by done.
    apply (st_received _ _ Hs q' l). destruct (qu_output c); [by rewrite lookup_insert_ne in Hl|done].
Qed.
(** ** Requests *)

Lemma added_streams rs parent_req s s' rcv e used : streams_ok stream_interval (mkWorld s rcv e used) → added rs parent_req s s' →
  out_released rs = [] → sent_ids stream_interval rs = [] →
  (∀ q, rs_queue rs = Some q → (∃ c, op_queues s !! q = Some c ∧ aggregate c = bool_decide (rs_output_kind rs = DELTA)) ∧
     ((q, rs_request_index rs) ∉ used)) →
  streams_ok stream_interval (use (rs_queue rs) (rs_request_index rs) (mkWorld s' rcv e used)).
Proof.
  intros [S1 S2 S3 S4 S5 S6 S7 S8] Ha Hrel Hsent Hq. pose proof (λ x rx, added_live rs parent_req s s' x rx Ha) as Hl.
  pose proof (an_queues _ _ _ _ Ha) as Hqs. unfold use. cbn [w_op w_received w_ended w_used].
  assert (Hst : ∀ f q i used', stream f (mkWorld s' rcv e used') q i = stream f (mkWorld s rcv e used) q i).
  { intros f q i used'. unfold stream. cbn [w_op w_received]. by rewrite Hqs. }
  set (used' := match rs_queue rs with Some q => {[(q, rs_request_index rs)]} ∪ used | None => used end).
  assert (Hu : ∀ x, x ∈ used' ↔ slot_of rs = Some x ∨ x ∈ used).
  { intros x. unfold used', slot_of. destruct (rs_queue rs); cbn; [rewrite elem_of_union, elem_of_singleton|]; naive_solver. }
  assert (Hfree : ∀ sl, slot_of rs = Some sl → sl ∉ used).
  { intros [q i] Hs. destruct (slot_queue _ _ _ Hs) as [Hq1 <-]. by apply Hq. }
  cbn [w_op w_received w_ended w_used] in *.
  split; cbn [w_op w_received w_ended w_used]; try rewrite !Hqs.
  - intros x rx q [[-> ->]|[_ Hx]]%Hl Hxq; [by apply Hq|by apply (S1 x)].
  - intros x y rx ry sl [[-> ->]|[_ Hx]]%Hl [[-> ->]|[_ Hy]]%Hl H1 H2; try done.
    + destruct (Hfree sl H1). by apply (S4 y ry).
    + destruct (Hfree sl H2). by apply (S4 x rx).
    + by apply (S2 x y rx ry sl).
  - intros x rx q Hx Hxq Hk. rewrite !Hst. apply Hl in Hx as [[-> ->]|[_ Hx]]; [|by apply (S3 x)]. rewrite Hrel, Hsent.
    destruct (Hq q Hxq) as [(c & Hc & Hagg) Hno]. apply (S8 q _ c Hc); [|done]. by rewrite Hagg, bool_decide_eq_true_2.
  - intros x rx sl Hx Hsl. apply Hu. apply Hl in Hx as [[-> ->]|[_ Hx]]; [by left|right; by apply (S4 x rx)].
  - intros q i [Hs|Hx]%Hu; [|by apply (S5 q i)]. destruct (slot_queue _ _ _ Hs) as [Hq1 _]. destruct (Hq q Hq1) as [(c & Hc & _) _]. by exists c.
  - done.
  - intros q i t k Hx. rewrite !Hst. destruct (S7 q i t k Hx) as (H1 & H2 & H3 & H4 & H5). split; [done|]. split; [done|].
    split; [apply Hu; by right|]. split; [done|]. intros x rx [[-> ->]|[_ Hx']]%Hl; [|by apply (H5 x)]. intros Hs. by apply (Hfree _ Hs).
  - intros q i c Hc Hagg Hx. rewrite !Hst. apply (S8 q i c Hc Hagg). intros Hin. apply Hx, Hu. by right.
Qed.

(** What the call does to the world; if it raises the world is as before. *)
Lemma add_inv request parent_req idx queue w : world_inv w → good request → can_use request queue idx w →
  (∀ p, parent_req = Some p → ∃ parent, op_parents (w_op w) !! p = Some parent ∧
    (parent_requests (w_op w) !! pa_request_id parent = None ∨ parent_requests (w_op w) !! pa_request_id parent = Some p) ∧
    er_request_id request ∈ child_requests parent ∧ os_output_kind (pa_sampling_params parent) ≠ FINAL_ONLY) →
  (∃ e, op_add_request has_tokenizer new_detokenizer request parent_req idx queue (w_op w) = (Raise e, w_op w)) ∨
  ∃ s, op_add_request has_tokenizer new_detokenizer request parent_req idx queue (w_op w) = (Ok tt, s) ∧ world_inv (use queue idx (with_op s w)).
Proof.
  intros [Hi Hd Hs] Hgood Huse Hpar.
  assert (Hmay : may_add has_tokenizer new_detokenizer request parent_req idx queue (w_op w)).
  { split; [done|done|]. intros q Hq. destruct (Huse q Hq) as [Hc Hno]. split; [done|]. intros id rs Hl Hrq <-. apply Hno.
    apply (st_used _ _ Hs id rs); [done|]. by apply queue_slot. }
  destruct (op_add_request_ok has_tokenizer new_detokenizer stream_interval request parent_req idx queue (w_op w) Hi Hmay)
    as [Hr|(s & rs & Hrun & Hi' & Ha & Hrel & Hsent & Hrq & Hidx & Hkind & _)]; [by left|right].
  exists s. split; [done|]. split; [done| |].
  - unfold drained_ok. cbn [w_op use with_op]. rewrite (an_drained _ _ _ _ Ha), (an_states _ _ _ _ Ha).
    rewrite bool_decide_eq_false_2; [done|]. intros Hn. apply (f_equal (od_get (rs_request_id rs))) in Hn. by rewrite od_get_set, decide_True in Hn.
  - rewrite <- Hrq, <- Hidx. destruct w as [s0 rcv e used]. eapply (added_streams _ _ _ _ rcv e used Hs Ha Hrel Hsent).
    intros q Hq. rewrite Hrq in Hq. rewrite Hidx, Hkind. by apply Huse.
Qed.
(** [Add] and [AddChild] may raise, and then leave the requests as they were;
    the others never raise. *)
Definition outcome (a : action) (r : res unit) w w' : Prop :=
  match a with
  | Add _ _ | AddChild _ _ _ _ => r = Ok tt ∨ request_states (w_op w') = request_states (w_op w)
  | _ => r = Ok tt
  end.
Definition step_ok (a : action) w : Prop := ∃ r w', act a w = (r, w') ∧ world_inv w' ∧ outcome a r w w'.

Lemma with_op_same w : with_op (w_op w) w = w.
Proof. by destruct w. Qed.

Lemma add_step_ok request queue w : world_inv w → allowed (Add request queue) w → step_ok (Add request queue) w.
Proof.
  intros Hw [Hgood Huse]. unfold step_ok. cbn [perform]. unfold bind, run_op.
  destruct (add_inv request None 0 queue w Hw Hgood Huse ltac:(done)) as [[e ->]|(s & -> & Hw')].
  - rewrite with_op_same. eexists _, _. split; [reflexivity|]. split; [done|by right].
  - eexists _, _. split; [reflexivity|]. split; [done|by left].
Qed.

Lemma add_child_step_ok p idx request queue w : world_inv w → allowed (AddChild p idx request queue) w → step_ok (AddChild p idx request queue) w.
Proof.
  intros [Hi Hd Hs] (parent & Hp & Hkind & Hreg & Hids & Hgood). unfold step_ok. cbn [perform]. unfold bind at 1, run_op.
  destruct (get_child_info_ok idx parent) as (params & parent' & Hget & H1 & H2 & H3). destruct (Hgood _ _ _ Hget) as [Hgd Huse].
  unfold op_add_child. set (c := child_id idx (pa_request_id parent)) in *. set (s1 := set_op_parents (<[p := parent']> (op_parents (w_op w))) (w_op w)).
  assert (Hat : at_parent p (get_child_info idx) (w_op w) = (Ok (c, params), s1)) by (unfold at_parent; by rewrite Hp, Hget).
  rewrite (bind_ok _ _ _ _ _ Hat). cbn [fst snd].
  assert (Hw1 : world_inv (with_op s1 w)).
  { split; [|done|by apply streams_ok_op]. by eapply child_inv. }
  destruct (add_inv (child_request request c params) (Some p) idx queue (with_op s1 w) Hw1 Hgd) as [[e He]|(s & Hrun & Hw')].
  - intros q Hq. destruct (Huse q Hq) as [Hc Hno]. by split.
  - intros q [= <-]. exists parent'. cbn [w_op with_op s1 op_parents set_op_parents parent_requests]. rewrite lookup_insert_eq, H1, H2, H3.
    split; [done|]. split; [done|]. split; [|done]. cbn. set_solver.
  - cbn [w_op with_op] in He. unfold bind. rewrite He. eexists _, _. split; [reflexivity|]. split; [done|by right].
  - cbn [w_op with_op] in Hrun. rewrite (bind_ok _ _ _ _ _ Hrun). eexists _, _. split; [reflexivity|]. split; [|by left]. exact Hw'.
Qed.

Lemma process_step o w : world_inv w → plain_output o → ∃ r w', process_and_record decode stream_interval o w = (Ok r, w') ∧ world_inv w'.
Proof.
  intros [Hi Hd Hs] Hplain. unfold process_and_record. set (s := w_op w) in *. set (id := eo_request_id (pr_output o)).
  pose proof (oi_nodup _ _ _ Hi) as Hnd. destruct (live s id) as [rs|] eqn:Hlive.
  - destruct (process_one_ok stream_interval decode o rs s Hi Hplain Hlive)
      as (r & s' & rs1 & rs' & finished & Hrun & Hi' & Hup & Ht & Hids & Hs1 & Had & _ & _ & Hdr & _).
    fold id in Hup. rewrite Hup, Hrun. eexists _, _. split; [reflexivity|]. split; [done| |].
    { unfold drained_ok. cbn [w_op end_streams with_op]. rewrite Hdr. destruct (decide _) as [Hn|Hn]; [by rewrite bool_decide_eq_true_2|].
      rewrite Hd, !bool_decide_eq_false_2; [done|done|]. intros Hx. unfold live in Hlive. by rewrite Hx in Hlive. }
    set (G := ending _ s'). destruct w as [s0 rcv e used]. unfold end_streams, with_op. cbn [w_op w_received w_ended w_used] in *.
    eapply (advanced_streams stream_interval id rs rs' finished s s' rcv e G used Hs Hlive Had).
    intros [sl [t k]] Hx. assert (Hnd1 : NoDup (od_keys (request_states (set_request_states (od_set id rs1 (request_states s)) s)))) by (by apply od_set_nodup).
    destruct (in_ending _ _ _ _ _ Hnd1 Hx) as (id' & rx & Hl & Hl' & Hk & Hsl & -> & ->). rewrite live_set in Hl.
    unfold live in Hl'. rewrite (ad_states _ _ _ _ _ _ _ Had) in Hl'. destruct (decide (id' = id)) as [->|Hne].
    + injection Hl as <-. destruct finished; [|by rewrite od_get_set, decide_True in Hl'].
      rewrite <- (same_slot _ _ Hs1), <- (sr_kind _ _ Hs1), Ht, Hids. split; [done|]. split; [done|]. by exists sl.
    + unfold live in Hl. destruct finished; [rewrite od_get_del, decide_False in Hl' by done|rewrite od_get_set, decide_False in Hl' by done]; congruence.
  - assert (Hon : (on_request id (update_state decode o) s).2 = s) by (unfold on_request; unfold live in Hlive; by rewrite Hlive).
    assert (Hrun : process_one decode stream_interval o s = (Ok (mkProcessorOutput [] []), s)).
    { unfold process_one. unfold bind at 1. cbn [get]. fold id. unfold live in Hlive. by rewrite Hlive. }
    rewrite Hon, Hrun. eexists _, _. split; [reflexivity|]. split; [done|done|]. destruct w as [s0 rcv e used].
    unfold end_streams, with_op. cbn [w_op w_received w_ended w_used] in *. subst s. eapply streams_ok_fewer; [exact Hs|].
    apply (abort_streams stream_interval [] s0 s0 rcv e used Hnd) in Hs; [|by constructor].
    intros [sl [t k]] [Hx|Hx]%elem_of_app; [done|]. destruct (in_ending _ _ _ _ _ Hnd Hx) as (x & rx & H1 & H2 & _). congruence.
Qed.

Lemma process_step_ok os : ∀ w, world_inv w → Forall plain_output os → step_ok (Process os) w.
Proof.
  induction os as [|o os IH]; intros w Hw Hos; [by exists (Ok tt), w|]. apply Forall_cons in Hos as [Ho Hos].
  destruct (process_step o w Hw Ho) as (r & w1 & Hrun & Hw1). destruct (IH w1 Hw1 Hos) as (r' & w' & Hrest & Hw' & Hr).
  exists r', w'. split; [|done]. cbn [perform for_] in *. rewrite bind_assoc. rewrite (bind_ok _ _ _ _ _ Hrun), bind_ret_l. exact Hrest.
Qed.

Section abort.
Context (id_order_perm : ∀ X, id_order X ≡ₚ elements X).

Lemma abort_step_ok ids internal w : world_inv w → allowed (Abort ids internal) w → step_ok (Abort ids internal) w.
Proof using id_order_perm.
  intros [Hi Hd Hs] Hall. pose proof (oi_nodup _ _ _ Hi) as Hnd.
  destruct (op_abort_ok stream_interval id_order id_order_perm ids internal (w_op w) Hi Hd Hall) as (F & s' & Hrun & (Hi' & Hd' & Hab) & _).
  unfold step_ok. cbn [perform]. rewrite Hrun. eexists _, _. split; [reflexivity|].
  split; [|done]. split; [done|done|]. destruct w as [s rcv e used]. by eapply abort_streams.
Qed.

Lemma step_inv a w : world_inv w → allowed a w → step_ok a w.
Proof using id_order_perm.
  intros Hw Ha. destruct a.
  - eexists _, _. split; [reflexivity|]. split; [by apply new_collector_inv|done].
  - destruct Ha. eexists _, _. split; [reflexivity|]. split; [by apply new_parent_inv|done].
  - by apply add_step_ok.
  - by apply add_child_step_ok.
  - by apply process_step_ok.
  - by apply abort_step_ok.
  - destruct (receive_inv q w Hw Ha) as (c & _ & Hrun & Hw'). eexists _, _. split; [exact Hrun|]. rewrite Hrun in Hw'. by split.
Qed.

Lemma reachable_inv w : reachable w → world_inv w.
Proof using id_order_perm.
  induction 1 as [|w a _ IH Ha]; [apply world_init_inv|]. destruct (step_inv a w IH Ha) as (r & w' & -> & Hw' & _). exact Hw'.
Qed.

(** ** The properties *)

(** C8. For requests that generate text with a working detokenizer, parallel
    samples that are not final only, outputs of the engine without pooling and
    log probabilities, and aborts by external ids, of one id or of distinct live
    ids: however requests, parents and collectors are added, outputs processed,
    requests aborted and collectors read, the live requests are exactly those
    listed under their external ids, each of them once; the flag for draining
    says whether there are none; a child request is known to its parent, and the
    parent is registered.  Processing, aborting and reading raise nothing, and an
    addition that raises leaves the requests as they were. *)
Theorem processor_bookkeeping w : reachable w →
  (∀ id, is_Some (live (w_op w) id) ↔ ∃ ext l, external_req_ids (w_op w) !! ext = Some l ∧ id ∈ l) ∧
  (∀ ext l, external_req_ids (w_op w) !! ext = Some l → l ≠ [] ∧ NoDup l ∧
     ∀ id, id ∈ l → ∃ rs, live (w_op w) id = Some rs ∧ rs_external_req_id rs = ext) ∧
  _requests_drained (w_op w) = bool_decide (request_states (w_op w) = []) ∧
  (∀ id rs p, live (w_op w) id = Some rs → rs_parent_req rs = Some p → ∃ parent, op_parents (w_op w) !! p = Some parent ∧
     parent_requests (w_op w) !! pa_request_id parent = Some p ∧ id ∈ child_requests parent) ∧
  ∀ a, allowed a w → ∃ r w', act a w = (r, w') ∧ outcome a r w w'.
Proof using id_order_perm.
  intros Hr. pose proof (reachable_inv w Hr) as Hw. pose proof Hw as [Hi Hd _]. split; [|split; [|split; [done|split]]].
  - intros id. split.
    + intros [rs Hl]. destruct (oi_lists _ _ _ Hi id rs Hl ltac:(set_solver)) as (l & Hl' & Hin). by eexists _, l.
    + intros (ext & l & Hl & Hin). destruct (oi_listed _ _ _ Hi ext l id Hl Hin) as [_ (rs & Hrs & _)]. by exists rs.
  - intros ext l Hl. destruct (oi_external _ _ _ Hi ext l Hl) as [H1 H2]. split; [done|]. split; [done|].
    intros id Hin. by destruct (oi_listed _ _ _ Hi ext l id Hl Hin) as [_ Hx].
  - intros id rs p Hl Hp. destruct (oi_registered _ _ _ Hi id rs p Hl Hp) as (parent & Hpar & Hreg). exists parent. split; [done|]. split; [done|].
    destruct (oi_state _ _ _ Hi id rs Hl ltac:(set_solver)) as [_ Hk]. destruct (Hk p Hp) as (parent' & Hpar' & Hin & _).
    rewrite (oi_id _ _ _ Hi id rs Hl) in Hin. congruence.
  - intros a Ha. destruct (step_inv a w Hw Ha) as (r & w' & Hrun & _ & Ho). by exists r, w'.
Qed.

(** What the consumer of a collector has received for an index. *)
Definition received (f : CompletionOutput → list Z) w (q : ref) (i : Z) : list Z :=
  concat (map (item_pieces f i) (default [] (w_received w !! q))).

Lemma receive_stream f q i w : world_inv w → is_Some (op_queues (w_op w) !! q) → received f (act (Receive q) w).2 q i = stream f w q i.
Proof.
  intros Hw Hq. destruct (receive_inv q w Hw Hq) as (c & Hc & Hrun & _). rewrite Hrun. unfold received, stream, pending.
  cbn [snd w_received]. rewrite Hc. cbn [from_option]. destruct (qu_output c) as [it|]; cbn [from_option]; [|by rewrite app_nil_r].
  rewrite lookup_insert_eq. set (old := default [] (w_received w !! q)). change (default [] (Some (old ++ [it]))) with (old ++ [it]).
  rewrite map_app, concat_app. cbn [map concat]. by rewrite app_nil_r.
Qed.

End abort.
End worlds.

(** ** An example *)

(** A decoder that writes a character for each token. *)
#[local] Instance char_decoder : Decoder unit := λ _ id, ret [id].
#[local] Program Instance char_total : @TotalDecoder unit char_decoder := {| decoder_ok _ := True |}.
Next Obligation. intros. by eexists _, _. Qed.

Definition char_detokenizer (has_tokenizer : bool) (p : DetokenizerParams) (ids : option (list Z)) (embeds : option (list bytes))
    : res (IncrementalDetokenizer unit) := Ok (TextDetok (Base_init p tt)).
Definition example_params : OutputParams :=
  mkOutputParams 2 None DELTA true None None false (mkDetokParams (OneStop [98; 99]) 0 false true true).
(** At most eight tokens. *)
Definition example_core_params : CoreParams :=
  mkCoreParams (Some (mkSampling (Some 8) 0 true None false None)) None None None 0 None None 0 0.
Definition example_request (id : string) : EngineCoreRequest :=
  mkEngineRequest id (Some "e") (Some [1]) None (Some example_params) None example_core_params.
Definition example_output (id : string) (tokens : list Z) : ProcessedOutput :=
  mkProcessed (mkEngineOutput id tokens None false None None None 0) None None.

Lemma example_good id params : os_detokenizer params = os_detokenizer example_params →
  good_request true char_detokenizer (child_request (example_request "r") id params).
Proof.
  intros Hp. eexists. split; [reflexivity|]. intros d [= <-]. rewrite Hp.
  destruct (base_init_inv (os_detokenizer example_params) tt) as [Hi Hr]; [repeat constructor; discriminate|].
  split; [|by split]. split; [done|]. by split.
Qed.

(** A request that stops with "bc", and a child of a parent that goes on, at the
    same collector. *)
Definition example_actions : list action :=
  [NewCollector 5 DELTA "e"; NewParent 7 "p" "e" example_params; Add (example_request "r") (Some 5);
   AddChild 7 1 (example_request "p") (Some 5);
   Process [example_output "r" [97; 98]; example_output "1_p" [120]]; Receive 5;
   Process [example_output "r" [97; 98]; example_output "r" [99; 100]; example_output "1_p" [121; 98]]].
Abbreviation example_act := (perform true char_detokenizer (λ _, None) 1 (elements : gset string → list string)).
Definition example_world (n : nat) : world (D := unit) := foldl (λ w a, (example_act a w).2) world_init (take n example_actions).

Lemma example_reachable n : reachable true char_detokenizer (λ _, None) 1 elements (example_world n).
Proof.
  assert (Hgood : ∀ id params, os_detokenizer params = os_detokenizer example_params →
    good_request true char_detokenizer (child_request (example_request "p") id params)) by apply example_good.
  assert (Hgo : ∀ l w, reachable true char_detokenizer (λ _, None) 1 elements w →
    (∀ k a, l !! k = Some a → allowed true char_detokenizer a (foldl (λ w a, (example_act a w).2) w (take k l))) →
    ∀ n, reachable true char_detokenizer (λ _, None) 1 elements (foldl (λ w a, (example_act a w).2) w (take n l))).
  { induction l as [|a l IH]; intros w Hw Hall n'; [by rewrite take_nil|]. destruct n' as [|n']; [done|]. cbn [take foldl]. apply IH.
    - apply reachable_step; [done|]. by apply (Hall 0%nat a).
    - intros k b Hb. by apply (Hall (S k) b). }
  apply Hgo; [apply reachable_init|]. intros k a Hk.
  destruct k as [|[|[|[|[|[|[|k]]]]]]]; [injection Hk as <-..|done].
  - reflexivity.
  - split; [reflexivity|]. intros p' parent Hp. vm_compute in Hp. done.
  - split; [apply (Hgood "r" example_params eq_refl)|]. intros q [= <-]. split.
    + eexists. split; vm_compute; reflexivity.
    + vm_compute. intros Hx. done.
  - eexists. split; [vm_compute; reflexivity|]. split; [done|]. split; [by left|]. split.
    + intros p' parent' Hp. vm_compute in Hp. destruct p' as [|[[[]|[]|]|[]|]|]; try done. injection Hp as <-. done.
    + intros id params parent' Hget. vm_compute in Hget. injection Hget as <- <- <-. split; [by apply Hgood|].
      intros q [= <-]. split; [eexists; split; vm_compute; reflexivity|]. by vm_compute.
  - by repeat constructor.
  - eexists. vm_compute. reflexivity.
  - by repeat constructor.
Qed.

Lemma processor_bookkeeping_witness : (∀ X, (elements : gset string → list string) X ≡ₚ elements X) ∧
  reachable true char_detokenizer (λ _, None) 1 elements (example_world 7) ∧
  _requests_drained (w_op (example_world 7)) = false.
Proof.
  assert (Hw := example_reachable 7). split; [done|]. split; [exact Hw|].
  destruct (processor_bookkeeping true char_detokenizer (λ _, None) 1 elements (λ _, reflexivity _) _ Hw) as (_ & _ & Hd & _).
  rewrite Hd. vm_compute. reflexivity.
Defined.

