(* ===== verification/Frontend.v ===== *)
(** The engines that applications call (vllm/v1/engine/llm_engine.py,
    async_llm.py): a processor of outputs and a client of the engine core.

    The client is an interface ([EngineClient]).  The coroutines of [AsyncLLM]
    are cut at their awaits: each definition is what runs without
    interruption. *)

From S2P Require Import Prelude.
From S2P Require Import OrderedDict.
From S2P Require Import Request.
From S2P Require Import SchedulerUpdate.
From S2P Require Import Detokenizer.
From S2P Require Import RequestOutputs.
From S2P Require Import OutputProcessor.

(** What the engines call of [EngineCoreClient]
    (vllm/v1/engine/core_client.py). *)
Class EngineClient (C : Type) := {
  client_add_request : EngineCoreRequest → M C unit;
  client_abort_requests : list string → M C unit;
  client_get_output : M C (list ProcessedOutput);
  client_execute_dummy_batch : M C unit;
  client_dp_engines_running : C → bool;
  client_engine_dead : C → bool;
  client_reset_prefix_cache : M C unit;
  client_reset_mm_cache : M C unit
}.

Record LLMEngine (D C : Type) := mkLLM {
  le_processor : OutputProcessor D;
  le_client : C;
  should_execute_dummy_batch : bool
}.
Arguments mkLLM {D C}.
Arguments le_processor {D C} _.
Arguments le_client {D C} _.
Arguments should_execute_dummy_batch {D C} _.

(** The outputs that the output handler has received and not processed, and the
    requests that it is about to abort, belong to its coroutine. *)
Record AsyncLLM (D C : Type) := mkAsync {
  al_processor : OutputProcessor D;
  al_client : C;
  _paused : bool;
  al_handler_done : bool;
  al_outputs : list ProcessedOutput;
  al_reqs_to_abort : list string
}.
Arguments mkAsync {D C}.
Arguments al_processor {D C} _.
Arguments al_client {D C} _.
Arguments _paused {D C} _.
Arguments al_handler_done {D C} _.
Arguments al_outputs {D C} _.
Arguments al_reqs_to_abort {D C} _.

(** [InputProcessor.assign_request_id]; [suffix] is random. *)
Definition assign_request_id (suffix : string) (request : EngineCoreRequest) : res EngineCoreRequest :=
  match er_external_req_id request with
  | Some _ => Raise ValueError
  | None =>
      Ok (mkEngineRequest (er_request_id request +:+ "-" +:+ suffix)%string (Some (er_request_id request))
            (er_prompt_token_ids request) (er_prompt_embeds request) (er_sampling_params request) (er_pooling_kind request)
            (er_core request))
  end.

Section frontend.
Context {D : Type} `{Decoder D} (has_tokenizer : bool).
Context (new_detokenizer : bool → DetokenizerParams → option (list Z) → option (list bytes) → res (IncrementalDetokenizer D)).
Context (decode : list Z → option text) (stream_interval : Z) (id_order : gset string → list string).
Context {C : Type} `{EngineClient C}.
Abbreviation processor := (OutputProcessor D).
Abbreviation llm := (LLMEngine D C).
Abbreviation async := (AsyncLLM D C).
Abbreviation add_to_processor := (op_add_request has_tokenizer new_detokenizer).
Abbreviation add_child_to_processor := (op_add_child has_tokenizer new_detokenizer).
Abbreviation abort_in_processor := (op_abort_requests stream_interval id_order).

(** [ParentRequest(request)]; [p] is the new object. *)
Definition create_parent (p : ref) (request : EngineCoreRequest) (params : OutputParams) : M processor unit :=
  match er_external_req_id request with
  | None => raise AssertionError
  | Some external_req_id =>
      modify (λ s, set_op_parents (<[p := ParentRequest_new (er_request_id request) external_req_id params]> (op_parents s)) s)
  end.

(** ** [LLMEngine] *)

Definition le_processor_run {A} (m : M processor A) : M llm A :=
  zoom le_processor (λ v s, mkLLM v (le_client s) (should_execute_dummy_batch s)) m.
Definition le_client_run {A} (m : M C A) : M llm A :=
  zoom le_client (λ v s, mkLLM (le_processor s) v (should_execute_dummy_batch s)) m.
Definition set_dummy_batch (v : bool) (s : llm) : llm := mkLLM (le_processor s) (le_client s) v.

(** [request] is the processed input; the parent of parallel samples is [p]. *)
Definition le_add_child (p : ref) (request : EngineCoreRequest) (idx : Z) : M llm unit :=
  let* child_request := le_processor_run (add_child_to_processor p idx request None) in
  le_client_run (client_add_request child_request).
Definition le_add_request (p : ref) (suffix : string) (request : EngineCoreRequest) : M llm unit :=
  let* request := of_res (assign_request_id suffix request) in
  match er_sampling_params request with
  | Some params =>
      if decide (os_n params = 1) then
        le_processor_run (add_to_processor request None 0 None) ;;;
        le_client_run (client_add_request request)
      else
        le_processor_run (create_parent p request params) ;;;
        for_ (py_range 0 (os_n params)) (le_add_child p request)
  | None =>
      assert_ (bool_decide (is_Some (er_pooling_kind request))) ;;;
      le_processor_run (add_to_processor request None 0 None) ;;;
      le_client_run (client_add_request request)
  end.

Definition le_abort_request (request_ids : list string) (internal : bool) : M llm unit :=
  let* request_ids := le_processor_run (abort_in_processor request_ids internal) in
  le_client_run (client_abort_requests request_ids).

Definition le_step : M llm (list OutputItem) :=
  let* s := get in
  if should_execute_dummy_batch s then
    modify (set_dummy_batch false) ;;;
    le_client_run client_execute_dummy_batch ;;;
    ret []
  else
    let* outputs := le_client_run client_get_output in
    let* processed_outputs := le_processor_run (process_outputs decode stream_interval outputs) in
    le_client_run (client_abort_requests (reqs_to_abort processed_outputs)) ;;;
    ret (request_outputs processed_outputs).

Definition le_get_num_unfinished_requests (s : llm) : Z := get_num_unfinished (le_processor s).
(** [has_unfinished_dp] is the result over all engines of a data-parallel group,
    if there is a group. *)
Definition has_unfinished_requests_dp (has_unfinished_dp : bool → bool) (has_unfinished : bool) : M llm bool :=
  let aggregated_has_unfinished := has_unfinished_dp has_unfinished in
  (if negb has_unfinished && aggregated_has_unfinished then modify (set_dummy_batch true) else ret tt) ;;;
  ret aggregated_has_unfinished.
Definition le_has_unfinished_requests (dp_group : option (bool → bool)) : M llm bool :=
  let* s := get in
  let has_unfinished := op_has_unfinished_requests (le_processor s) in
  match dp_group with
  | None => ret (has_unfinished || client_dp_engines_running (le_client s))
  | Some has_unfinished_dp => has_unfinished_requests_dp has_unfinished_dp has_unfinished
  end.

(** ** [AsyncLLM] *)

Definition al_processor_run {A} (m : M processor A) : M async A :=
  zoom al_processor (λ v s, mkAsync v (al_client s) (_paused s) (al_handler_done s) (al_outputs s) (al_reqs_to_abort s)) m.
Definition al_client_run {A} (m : M C A) : M async A :=
  zoom al_client (λ v s, mkAsync (al_processor s) v (_paused s) (al_handler_done s) (al_outputs s) (al_reqs_to_abort s)) m.
Definition set_paused (v : bool) (s : async) : async :=
  mkAsync (al_processor s) (al_client s) v (al_handler_done s) (al_outputs s) (al_reqs_to_abort s).
Definition set_handler_done (s : async) : async :=
  mkAsync (al_processor s) (al_client s) (_paused s) true (al_outputs s) (al_reqs_to_abort s).
Definition set_al_outputs (v : list ProcessedOutput) (s : async) : async :=
  mkAsync (al_processor s) (al_client s) (_paused s) (al_handler_done s) v (al_reqs_to_abort s).
Definition set_reqs_to_abort (v : list string) (s : async) : async :=
  mkAsync (al_processor s) (al_client s) (_paused s) (al_handler_done s) (al_outputs s) v.

Definition errored (s : async) : bool := client_engine_dead (al_client s) || al_handler_done s.

(** [_add_request], which awaits at its end. *)
Definition al_add_one (request : EngineCoreRequest) (parent_req : option ref) (index : Z) (queue : ref) : M async unit :=
  al_processor_run (add_to_processor request parent_req index (Some queue)) ;;;
  al_client_run (client_add_request request).

(** The first part of [add_request], up to its waiting for the end of a pause. *)
Definition al_prepare (suffix : string) (request : EngineCoreRequest) : M async EngineCoreRequest :=
  let* s := get in
  if errored s then raise EngineDeadError else of_res (assign_request_id suffix request).
(** The part after it, with the first [_add_request] of a single request; [None]
    if the engine is paused. *)
Definition al_create_queue (queue : ref) (output_kind : RequestOutputKind) (request_id : string) : M async unit :=
  al_processor_run (modify (λ s, set_op_queues (<[queue := RequestOutputCollector_new output_kind request_id]> (op_queues s)) s)).
Definition al_add_single (queue : ref) (output_kind : RequestOutputKind) (request : EngineCoreRequest) : M async (option unit) :=
  let* s := get in
  if _paused s then ret None
  else
    al_create_queue queue output_kind (er_request_id request) ;;;
    al_add_one request None 0 queue ;;;
    ret (Some tt).
(** The same for parallel samples, with the first child. *)
Definition al_add_child (p queue : ref) (request : EngineCoreRequest) (idx : Z) : M async unit :=
  let* child_request := al_processor_run (add_child_to_processor p idx request (Some queue)) in
  al_client_run (client_add_request child_request).
Definition al_add_parallel (p queue : ref) (output_kind : RequestOutputKind) (request : EngineCoreRequest) (params : OutputParams)
    : M async (option unit) :=
  let* s := get in
  if _paused s then ret None
  else
    al_create_queue queue output_kind (er_request_id request) ;;;
    al_processor_run (create_parent p request params) ;;;
    (if decide (0 < os_n params) then al_add_child p queue request 0 else ret tt) ;;;
    ret (Some tt).

Definition al_abort (request_ids : list string) (internal : bool) : M async unit :=
  let* all_request_ids := al_processor_run (abort_in_processor request_ids internal) in
  al_client_run (client_abort_requests all_request_ids).

(** A round of the loop of [generate]; [None] if it has to wait. *)
Definition generate_receive (queue : ref) : M async (option RequestOutput) :=
  let* out := al_processor_run (on_collector queue get_nowait) in
  let* out := match out with Some out => ret (Some out) | None => al_processor_run (on_collector queue collector_get) end in
  match out with
  | None => ret None
  | Some (Completion out) => ret (Some out)
  | Some _ => raise AssertionError
  end.
(** What [generate] does on a cancellation and on other exceptions, once it has
    its collector. *)
Definition generate_cancelled (queue : ref) : M async unit :=
  let* request_id := al_processor_run (on_collector queue (gets qu_request_id)) in
  al_abort [request_id] true.
Definition generate_step (queue : ref) : M async (option RequestOutput) := λ s,
  match generate_receive queue s with
  | (Raise e, s') =>
      if decide (e = EngineDeadError ∨ e = ValueError) then (Raise e, s')
      else (generate_cancelled queue ;;; raise EngineGenerateError) s'
  | r => r
  end.

(** The output handler: it receives a batch, and processes and aborts by chunks;
    an exception ends it and goes to all requests. *)
Definition handler_try (m : M async unit) : M async unit := λ s,
  match m s with
  | (Raise e, s') => (al_processor_run (propagate_error e) ;;; modify set_handler_done) s'
  | r => r
  end.
Definition handler_receive : M async unit :=
  handler_try (let* outputs := al_client_run client_get_output in modify (set_al_outputs outputs)).
Definition handler_chunk (chunk_size : Z) : M async unit :=
  handler_try (
    let* s := get in
    let chunk := Z.to_nat chunk_size in
    modify (set_al_outputs (drop chunk (al_outputs s))) ;;;
    let* r := al_processor_run (process_outputs decode stream_interval (take chunk (al_outputs s))) in
    assert_ (bool_decide (request_outputs r = [])) ;;;
    modify (set_reqs_to_abort (reqs_to_abort r))).
Definition handler_abort : M async unit :=
  handler_try (
    let* s := get in
    if decide (al_reqs_to_abort s = []) then ret tt
    else
      modify (set_reqs_to_abort []) ;;;
      al_client_run (client_abort_requests (al_reqs_to_abort s))).

(** [pause_generation], up to its waiting for requests to drain; the result says
    whether it goes on. *)
Definition pause_begin (wait_for_inflight_requests : bool) : M async bool :=
  let* s := get in
  if _paused s then ret false
  else
    modify (set_paused true) ;;;
    (if wait_for_inflight_requests then ret tt
     else
       let request_ids := od_keys (request_states (al_processor s)) in
       if decide (request_ids = []) then ret tt else al_abort request_ids true) ;;;
    ret true.
(** Whether [wait_for_requests_to_drain] returns. *)
Definition drained (s : async) : bool :=
  negb (op_has_unfinished_requests (al_processor s)) || _requests_drained (al_processor s).
Definition pause_clear (clear_cache : bool) : M async unit :=
  if clear_cache then al_client_run client_reset_prefix_cache ;;; al_client_run client_reset_mm_cache else ret tt.
Definition resume_generation : M async unit := modify (set_paused false).
End frontend.
