(* ===== verification/FrontendSpec.v ===== *)
(** The requests of the output processor are those of the engine core.

    [EngineClientLaws] is what the engines need of a client; [LLMEngine] keeps
    both sides in agreement over every client with these laws. *)

From S2P Require Import Prelude.
From S2P Require Import OrderedDict.
From S2P Require Import Request.
From S2P Require Import SchedulerUpdate.
From S2P Require Import EngineOutputs.
From S2P Require Import Detokenizer.
From S2P Require Import DetokenizerSpec.
From S2P Require Import PyFloat.
From S2P Require Import Logprobs.
From S2P Require Import RequestOutputs.
From S2P Require Import OutputProcessor.
From S2P Require Import OutputProcessorSpec.
From S2P Require Import OutputInvariant.
From S2P Require Import OutputHistory.
From S2P Require Import OutputStreams.
From S2P Require Import Frontend.

(** The requests that outputs finish. *)
Definition finished_ids (os : list ProcessedOutput) : list string := ended (map pr_output os).

Lemma finished_ids_app os os' : finished_ids (os ++ os') = finished_ids os ++ finished_ids os'.
Proof. unfold finished_ids. by rewrite map_app, ended_app. Qed.

(** ** Steps of the processor *)

Section processor.
Context {D : Type} `{Decoder D} `{!TotalDecoder D} (stream_interval : Z).
Abbreviation rstate := (RequestState D).
Abbreviation processor := (OutputProcessor D).
Implicit Types (s : processor) (rs : rstate).

Definition has_request s (id : string) : Prop := is_Some (live s id).
(** Every request has a collector. *)
Definition all_queued s : Prop := ∀ id rs, live s id = Some rs → is_Some (rs_queue rs).

Lemma has_request_keys s id : has_request s id ↔ id ∈ od_keys (request_states s).
Proof. unfold has_request, live. apply od_get_keys. Qed.

(** What processing a batch does to the requests. *)
Record processed (os : list ProcessedOutput) (r : OutputProcessorOutput) s s' : Prop := {
  pd_inv : op_inv ∅ ∅ s';
  pd_drained : drained_ok s';
  pd_live id : has_request s' id → has_request s id;
  pd_aborts id : id ∈ reqs_to_abort r → has_request s id ∧ ¬ has_request s' id;
  pd_gone id : has_request s id → ¬ has_request s' id → id ∈ reqs_to_abort r ∨ id ∈ finished_ids os;
  pd_finished id : id ∈ finished_ids os → ¬ has_request s' id;
  pd_tokens id rs' : live s' id = Some rs' →
    ∃ rs, live s id = Some rs ∧ out_ids rs' = out_ids rs ++ tokens_for id (map pr_output os);
  pd_queues : all_queued s → request_outputs r = [] ∧ all_queued s'
}.

Lemma advanced_requests id rs rs' finished s s' x : live s id = Some rs → advanced stream_interval id rs rs' finished s s' →
  has_request s' x ↔ has_request s x ∧ (finished = false ∨ x ≠ id).
Proof.
  intros Hl Ha. unfold has_request, live in *. rewrite (ad_states _ _ _ _ _ _ _ Ha).
  destruct finished; [rewrite od_get_del|rewrite od_get_set]; case_decide as Hx.
  - subst x. split; [intros [? ?]; done|intros [_ [?|?]]; done].
  - split; [intros ?; split; [done|by right]|by intros [? _]].
  - subst x. rewrite Hl. split; [intros _; split; [by eexists|by left]|by eexists].
  - split; [intros ?; split; [done|by left]|by intros [? _]].
Qed.

Lemma drained_step s s' id : drained_ok s → has_request s id →
  _requests_drained s' = (if decide (request_states s' = []) then true else _requests_drained s) → drained_ok s'.
Proof.
  unfold drained_ok, has_request, live. intros Hd [rs Hl] ->. destruct (decide _) as [Hn|Hn]; [by rewrite bool_decide_eq_true_2|].
  rewrite Hd, !bool_decide_eq_false_2; [done|done|]. intros Hx. by rewrite Hx in Hl.
Qed.

Lemma process_one_requests (decode : list Z → option text) o s : op_inv ∅ ∅ s → drained_ok s → plain_output o →
  ∃ r s', process_one decode stream_interval o s = (Ok r, s') ∧ processed [o] r s s'.
Proof.
  intros Hi Hd Hp. set (id := eo_request_id (pr_output o)).
  assert (Hfin : ∀ x, x ∈ finished_ids [o] ↔ is_Some (eo_finish_reason (pr_output o)) ∧ x = id).
  { intros x. unfold finished_ids. cbn [map]. rewrite ended_one. case_decide as Hf.
    - rewrite Hf. split; [intros Hx; by apply elem_of_nil in Hx|intros [[? ?] _]; done].
    - rewrite list_elem_of_singleton. apply not_eq_None_Some in Hf. split; [by intros ->|by intros [_ ->]]. }
  assert (Htok : ∀ x, tokens_for x (map pr_output [o]) = if decide (x = id) then eo_new_token_ids (pr_output o) else []).
  { intros x. case_decide as Hx.
    - rewrite tokens_for_own by (cbn [map]; intros y ->%list_elem_of_singleton; done). cbn. by rewrite app_nil_r.
    - apply outputs_of_others. cbn [map]. intros y ->%list_elem_of_singleton. fold id. congruence. }
  destruct (live s id) as [rs|] eqn:Hlive.
  - destruct (process_one_ok stream_interval decode o rs s Hi Hp Hlive)
      as (r & s' & rs1 & rs' & finished & Hrun & Hi' & _ & _ & _ & _ & Had & Hab & Hf & Hdr & Hq & Hids).
    fold id in Had, Hab. exists r, s'. split; [done|]. pose proof (λ x, advanced_requests id rs rs' finished s s' x Hlive Had) as Hx.
    split; [done| | | | | | |].
    + by apply (drained_step s s' id); [|by exists rs|].
    + intros x. rewrite Hx. by intros [? _].
    + intros x. rewrite Hab, Hx. destruct finished; [|intros Hin; by apply elem_of_nil in Hin]. cbn. destruct (bool_decide _).
      * intros ->%list_elem_of_singleton. split; [by exists rs|]. intros [_ [?|?]]; done.
      * intros Hin. by apply elem_of_nil in Hin.
    + intros x Hxs. rewrite Hx, Hfin. intros Hn. destruct finished; [|destruct Hn; split; [done|by left]].
      destruct (decide (x = id)) as [->|Hne]; [|destruct Hn; split; [done|by right]].
      rewrite Hab. cbn. destruct (eo_finish_reason (pr_output o)) eqn:He; [by right|left; by left].
    + intros x [Hs ->]%Hfin. rewrite Hx, (Hf Hs). intros [_ [?|?]]; done.
    + intros x rx Hlx. assert (Hsx : has_request s' x) by (by exists rx). apply Hx in Hsx as [[r0 Hr0] Hor]. rewrite Htok.
      unfold live in Hlx. rewrite (ad_states _ _ _ _ _ _ _ Had) in Hlx. destruct (decide (x = id)) as [->|Hxi].
      * destruct Hor as [->|Hne]; [|done]. rewrite od_get_set, decide_True in Hlx by done. injection Hlx as <-. by exists rs.
      * exists rx. rewrite app_nil_r. split; [|done]. by destruct finished; rewrite ?od_get_del, ?od_get_set, decide_False in Hlx by done.
    + intros Hall. split; [by apply Hq, (Hall id)|]. intros x rx Hlx.
      assert (Hsx : has_request s' x) by (by exists rx). apply Hx in Hsx as [[r0 Hr0] _]. destruct (decide (x = id)) as [->|Hne].
      * unfold live in Hlx. rewrite (ad_states _ _ _ _ _ _ _ Had) in Hlx.
        destruct finished; [by rewrite od_get_del, decide_True in Hlx|]. rewrite od_get_set, decide_True in Hlx by done. injection Hlx as <-.
        rewrite (sr_queue _ _ (ad_same _ _ _ _ _ _ _ Had)). by apply (Hall id).
      * apply (Hall x rx). unfold live in *. rewrite (ad_states _ _ _ _ _ _ _ Had) in Hlx.
        destruct finished; [by rewrite od_get_del, decide_False in Hlx|by rewrite od_get_set, decide_False in Hlx].
  - exists (mkProcessorOutput [] []), s. split.
    + unfold process_one. unfold bind at 1. cbn [get]. fold id. unfold live in Hlive. by rewrite Hlive.
    + split; try done; [intros x Hx; by apply elem_of_nil in Hx| |].
      * intros x [_ ->]%Hfin [? ?]. congruence.
      * intros x rx Hlx. exists rx. split; [done|]. rewrite Htok. case_decide; [congruence|]. by rewrite app_nil_r.
Qed.

Lemma process_outputs_ok (decode : list Z → option text) os : ∀ s, op_inv ∅ ∅ s → drained_ok s → Forall plain_output os →
  ∃ r s', process_outputs decode stream_interval os s = (Ok r, s') ∧ processed os r s s'.
Proof.
  induction os as [|o os IH]; intros s Hi Hd Hp.
  { exists (mkProcessorOutput [] []), s. split; [done|]. split; try done; try (intros x Hx; by apply elem_of_nil in Hx).
    intros x rx Hlx. exists rx. by rewrite app_nil_r. }
  apply Forall_cons in Hp as [Ho Hp]. destruct (process_one_requests decode o s Hi Hd Ho) as (r1 & s1 & Hrun & [P1 P2 P3 P4 P5 P6 PT P7]).
  destruct (IH s1 P1 P2 Hp) as (r2 & s2 & Hrest & [Q1 Q2 Q3 Q4 Q5 Q6 QT Q7]). cbn [process_outputs].
  rewrite (bind_ok _ _ _ _ _ Hrun), (bind_ok _ _ _ _ _ Hrest). eexists _, s2. split; [reflexivity|].
  assert (Hf : ∀ x, x ∈ finished_ids (o :: os) ↔ x ∈ finished_ids [o] ∨ x ∈ finished_ids os).
  { intros x. change (o :: os) with ([o] ++ os). by rewrite finished_ids_app, elem_of_app. }
  split; cbn [reqs_to_abort request_outputs]; try done.
  - intros id Hx. by apply P3, Q3.
  - intros id [Hx|Hx]%elem_of_app; [destruct (P4 id Hx) as [H1 H2]|destruct (Q4 id Hx) as [H1 H2]].
    + split; [done|]. intros Hx'. by apply H2, Q3.
    + split; [by apply P3|done].
  - intros id Hx Hn. rewrite Hf, elem_of_app. destruct (decide (id ∈ od_keys (request_states s1))) as [H1|H1].
    + apply has_request_keys in H1. destruct (Q5 id H1 Hn); auto.
    + rewrite <- has_request_keys in H1. destruct (P5 id Hx H1); auto.
  - intros id [Hx|Hx]%Hf; [|by apply Q6]. intros Hx'. apply (P6 id Hx). by apply Q3.
  - intros id rs' Hl. destruct (QT id rs' Hl) as (rs1 & Hl1 & E1). destruct (PT id rs1 Hl1) as (rs0 & Hl0 & E0).
    exists rs0. split; [done|]. change (o :: os) with ([o] ++ os). by rewrite map_app, tokens_for_app, E1, E0, <- app_assoc.
  - intros Hall. destruct (P7 Hall) as [-> H1]. destruct (Q7 H1) as [-> H2]. done.
Qed.

Lemma aborted_requests F s s' id : aborted stream_interval F s s' → has_request s' id ↔ has_request s id ∧ id ∉ map fst F.
Proof.
  intros Ha. unfold has_request. split.
  - intros [rs [Hl Hn]%(aborted_live _ _ _ _ Ha)]. split; [by exists rs|done].
  - intros [[rs Hl] Hn]. exists rs. by apply (aborted_live _ _ _ _ Ha).
Qed.
Lemma aborted_queued F s s' : aborted stream_interval F s s' → all_queued s → all_queued s'.
Proof. intros Ha Hall id rs [Hl _]%(aborted_live _ _ _ _ Ha). by apply (Hall id). Qed.

Lemma added_requests rs parent_req s s' id : added rs parent_req s s' → has_request s' id ↔ has_request s id ∨ id = rs_request_id rs.
Proof.
  intros Ha. unfold has_request, live. rewrite (an_states _ _ _ _ Ha), od_get_set. case_decide as Hx.
  - split; [by right|by eexists].
  - split; [by left|by intros [?|?]].
Qed.
Lemma added_drained rs parent_req s s' : added rs parent_req s s' → drained_ok s'.
Proof.
  intros Ha. unfold drained_ok. rewrite (an_drained _ _ _ _ Ha), (an_states _ _ _ _ Ha).
  rewrite bool_decide_eq_false_2; [done|]. intros Hn. apply (f_equal (od_get (rs_request_id rs))) in Hn. by rewrite od_get_set, decide_True in Hn.
Qed.
End processor.

(** ** Parallel samples *)

(** The parameters of a child are those of the parent, but for [n] and the
    seed. *)
Definition child_params (p c : OutputParams) : Prop :=
  os_detokenize c = os_detokenize p ∧ os_detokenizer c = os_detokenizer p ∧ os_output_kind c = os_output_kind p.
Definition cached_ok (parent : ParentRequest) : Prop :=
  ∀ c, cached_child_sampling_params parent = Some c → child_params (pa_sampling_params parent) c.

Lemma get_child_info_params idx parent : cached_ok parent → ∃ params parent',
  get_child_info idx parent = (Ok (child_id idx (pa_request_id parent), params), parent') ∧
  child_params (pa_sampling_params parent) params ∧ cached_ok parent' ∧ pa_request_id parent' = pa_request_id parent ∧
  pa_sampling_params parent' = pa_sampling_params parent ∧ child_requests parent' = {[child_id idx (pa_request_id parent)]} ∪ child_requests parent.
Proof.
  intros Hc. unfold get_child_info, _get_child_sampling_params, bind. cbn.
  destruct (cached_child_sampling_params parent) as [c|] eqn:He; [|destruct (os_seed _)].
  - eexists _, _. split; [reflexivity|]. split; [by apply Hc|]. split; [|done]. intros c' Hc'. apply Hc. exact Hc'.
  - eexists _, _. split; [reflexivity|]. split; [done|]. split; [|done]. intros c' Hc'. apply Hc. exact Hc'.
  - eexists _, _. split; [reflexivity|]. split; [done|]. split; [|done]. by intros c' [= <-].
Qed.

Lemma string_length_app (s t : string) : String.length (s +:+ t) = (String.length s + String.length t)%nat.
Proof. induction s as [|a s IH]; simpl; [done|]. by rewrite IH. Qed.
Lemma child_id_other idx id : child_id idx id ≠ id.
Proof.
  intros He. apply (f_equal String.length) in He. unfold child_id in He. rewrite !string_length_app in He. cbn in He. lia.
Qed.

Section fan_out.
Context {D : Type} `{Decoder D} `{!TotalDecoder D} (has_tokenizer : bool).
Context (new_detokenizer : bool → DetokenizerParams → option (list Z) → option (list bytes) → res (IncrementalDetokenizer D)).
Abbreviation processor := (OutputProcessor D).
Abbreviation good := (good_request has_tokenizer new_detokenizer).
Implicit Types s : processor.

Lemma good_child request p id params : er_sampling_params request = Some p → good request → child_params p params →
  good (child_request request id params).
Proof.
  intros Hp (p' & Hp' & Hg) (H1 & H2 & _). assert (p' = p) as -> by congruence. exists params. split; [done|].
  cbn. rewrite H1, H2. exact Hg.
Qed.

(** The parent [p] with id [id] takes children. *)
Record taking_children (p : ref) (id : string) (params : OutputParams) s : Prop := {
  tc_parent : ∃ parent, op_parents s !! p = Some parent ∧ pa_request_id parent = id ∧ pa_sampling_params parent = params ∧ cached_ok parent;
  tc_kind : os_output_kind params ≠ FINAL_ONLY;
  tc_registered : parent_requests s !! id = None ∨ parent_requests s !! id = Some p;
  tc_ids idx p' parent' : op_parents s !! p' = Some parent' → pa_request_id parent' ≠ child_id idx id
}.

Lemma add_child_ok p id params idx request queue s : op_inv ∅ ∅ s → drained_ok s → taking_children p id params s → good request →
  er_sampling_params request = Some params →
  (∀ q, queue = Some q → (∃ c, op_queues s !! q = Some c ∧ aggregate c = bool_decide (os_output_kind params = DELTA)) ∧
     ∀ id rs, live s id = Some rs → rs_queue rs = Some q → rs_request_index rs ≠ idx) →
  ∃ r s', op_add_child has_tokenizer new_detokenizer p idx request queue s = (r, s') ∧ op_inv ∅ ∅ s' ∧ drained_ok s' ∧
    taking_children p id params s' ∧ op_queues s' = op_queues s ∧
    match r with
    | Ok request' => er_request_id request' = child_id idx id ∧ (∃ cid c, request' = child_request request cid c) ∧
        (∃ s0 rs, request_states s0 = request_states s ∧ added rs (Some p) s0 s' ∧
        rs_request_id rs = child_id idx id ∧ rs_queue rs = queue ∧ out_ids rs = [])
    | Raise _ => request_states s' = request_states s
    end.
Proof.
  intros Hi Hd [(parent & Hp & Hid & Hparams & Hcached) Hkind Hreg Hids] Hgood Hsp Hq.
  destruct (get_child_info_params idx parent Hcached) as (c & parent' & Hget & Hc & Hcached' & Hid' & Hsp' & Hch).
  rewrite Hid in Hget, Hid', Hch. rewrite Hparams in Hc, Hsp'. set (cid := child_id idx id) in *.
  set (s1 := set_op_parents (<[p := parent']> (op_parents s)) s).
  assert (Hat : at_parent p (get_child_info idx) s = (Ok (cid, c), s1)) by (unfold at_parent; by rewrite Hp, Hget).
  unfold op_add_child. rewrite (bind_ok _ _ _ _ _ Hat). cbn [fst snd].
  assert (Hi1 : op_inv ∅ ∅ s1) by (apply (child_inv p parent parent' cid s); [done|done|congruence|congruence|done|by apply Hids]).
  assert (Hps : op_parents s1 = <[p := parent']> (op_parents s)) by done.
  assert (Hlook : ∀ q' pa, op_parents s1 !! q' = Some pa → ∃ pa0, op_parents s !! q' = Some pa0 ∧ pa_request_id pa = pa_request_id pa0).
  { intros q' pa. rewrite Hps. intros [[<- <-]|[_ Hq']]%lookup_insert_Some; [exists parent; split; [done|congruence]|by exists pa]. }
  assert (Hmay : may_add has_tokenizer new_detokenizer (child_request request cid c) (Some p) idx queue s1).
  { split; [by eapply good_child| |].
    - intros q [= <-]. exists parent'. rewrite Hps, lookup_insert_eq, Hid', Hch, Hsp'.
      split; [done|]. split; [done|]. split; [|done]. cbn. set_solver.
    - intros q Hqq. unfold kind_of. cbn. destruct Hc as (_ & _ & ->). by apply Hq. }
  assert (Htc : taking_children p id params s1).
  { split; [|done|done|].
    - exists parent'. rewrite Hps, lookup_insert_eq. split; [done|]. split; [congruence|]. by split; [congruence|].
    - intros j q' pa Hq'. destruct (Hlook q' pa Hq') as (pa0 & H1 & ->). by apply (Hids j q'). }
  destruct (op_add_request_ok has_tokenizer new_detokenizer 0 (child_request request cid c) (Some p) idx queue s1 Hi1 Hmay)
    as [[e He]|(s' & rs & Hrun & Hi' & Ha & _ & Hnil & Hrq & _ & _ & Hrid)].
  - unfold bind. rewrite He. eexists _, s1. split; [reflexivity|]. by repeat (split; [done|]).
  - rewrite (bind_ok _ _ _ _ _ Hrun). eexists _, s'. split; [reflexivity|]. split; [done|]. split; [by eapply added_drained|].
    split; [|split; [by rewrite (an_queues _ _ _ _ Ha)|]].
    + destruct Htc as [T1 T2 T3 T4]. split; rewrite ?(an_parents _ _ _ _ Ha); try done.
      right. destruct (an_parent _ _ _ _ Ha p eq_refl) as (pa & H1 & H2). destruct T1 as (pa' & H3 & H4 & _). congruence.
    + split; [done|]. split; [by eexists _, _|]. exists s1, rs. by repeat (split; [done|]).
Qed.

Lemma create_parent_ok p request params s : op_inv ∅ ∅ s → op_parents s !! p = None → is_Some (er_external_req_id request) →
  os_output_kind params ≠ FINAL_ONLY → parent_requests s !! er_request_id request = None →
  (∀ p' parent, op_parents s !! p' = Some parent → er_request_id request ∉ child_requests parent) →
  (∀ idx p' parent, op_parents s !! p' = Some parent → pa_request_id parent ≠ child_id idx (er_request_id request)) →
  ∃ s', create_parent p request params s = (Ok tt, s') ∧ op_inv ∅ ∅ s' ∧ taking_children p (er_request_id request) params s' ∧
    request_states s' = request_states s ∧ op_queues s' = op_queues s ∧ _requests_drained s' = _requests_drained s.
Proof.
  intros Hi Hp [ext Hext] Hk Hreg Hfresh Hids. unfold create_parent. rewrite Hext. eexists. split; [reflexivity|].
  split; [by apply new_parent_ok|]. split; [|done]. split; [|done|by left|].
  - eexists. cbn [op_parents set_op_parents]. rewrite lookup_insert_eq. split; [done|]. by split; [|split].
  - intros idx p' parent. cbn [op_parents set_op_parents]. intros [[<- <-]|[_ Hp']]%lookup_insert_Some; [|by apply (Hids idx p')]. intros He. by apply (child_id_other idx (er_request_id request)).
Qed.
End fan_out.

(** ** [LLMEngine] *)

(** What a client of the engine core promises, over the requests that the core
    has and their output tokens; [accepts] are the requests that the core can
    serve. *)
Class EngineClientLaws (C : Type) `{EngineClient C} := {
  client_inv : C → Prop;
  accepts : EngineCoreRequest → Prop;
  core_tokens : C → request_tokens;
  accepts_child request id params : accepts request → accepts (child_request request id params);
  client_add_ok c request : client_inv c → accepts request → core_tokens c !! er_request_id request = None →
    ∃ c', client_add_request request c = (Ok tt, c') ∧ client_inv c' ∧ core_tokens c' = <[er_request_id request := []]> (core_tokens c);
  client_abort_ok c ids : client_inv c → ∃ c', client_abort_requests ids c = (Ok tt, c') ∧ client_inv c' ∧
    ∀ id, core_tokens c' !! id = if decide (id ∈ ids) then None else core_tokens c !! id;
  client_output_ok c : client_inv c → ∃ os c', client_get_output c = (Ok os, c') ∧ client_inv c' ∧ Forall plain_output os ∧
    core_tokens c' = after_outputs (map pr_output os) (core_tokens c);
  client_dummy_ok c : client_inv c →
    ∃ c', client_execute_dummy_batch c = (Ok tt, c') ∧ client_inv c' ∧ core_tokens c' = core_tokens c
}.

Section llm_engine.
Context {D : Type} `{Decoder D} `{!TotalDecoder D} (has_tokenizer : bool).
Context (new_detokenizer : bool → DetokenizerParams → option (list Z) → option (list bytes) → res (IncrementalDetokenizer D)).
Context (decode : list Z → option text) (stream_interval : Z) (id_order : gset string → list string).
Context {C : Type} `{EngineClientLaws C}.
Abbreviation processor := (OutputProcessor D).
Abbreviation llm := (LLMEngine D C).
Abbreviation good := (good_request has_tokenizer new_detokenizer).
Implicit Types (s : processor) (e : llm).

(** The same requests, with the same output tokens. *)
Definition agree s (c : C) : Prop := ∀ id, out_ids <$> live s id = core_tokens c !! id.
Record llm_ok e : Prop := {
  lo_inv : op_inv ∅ ∅ (le_processor e);
  lo_drained : drained_ok (le_processor e);
  lo_client : client_inv (le_client e);
  lo_agree : agree (le_processor e) (le_client e)
}.

(** A request that the processor has accepted goes to the core. *)
Lemma hand_over_ok s s0 s' request rs parent_req c d : request_states s0 = request_states s → added rs parent_req s0 s' →
  rs_request_id rs = er_request_id request → out_ids rs = [] → accepts request → agree s c → client_inv c → op_inv ∅ ∅ s' →
  ∃ e', le_client_run (client_add_request request) (mkLLM s' c d) = (Ok tt, e') ∧ llm_ok e' ∧ le_processor e' = s'.
Proof.
  intros Hst Ha Hid Hids Hacc Hag Hc Hi. pose proof (an_new _ _ _ _ Ha) as Hnew. unfold live in Hnew. rewrite Hst in Hnew.
  assert (Hno : core_tokens c !! er_request_id request = None).
  { rewrite <- (Hag (er_request_id request)), <- Hid. unfold live. by rewrite Hnew. }
  destruct (client_add_ok c request Hc Hacc Hno) as (c' & Hrun & Hc' & Hr). unfold le_client_run, zoom. cbn [le_client]. rewrite Hrun.
  eexists. split; [reflexivity|]. split; [|done]. split; cbn [le_processor le_client]; [done|by eapply added_drained|done|].
  intros id. unfold live. rewrite (an_states _ _ _ _ Ha), od_get_set, Hr, Hid, Hst. case_decide as Hx.
  - subst id. rewrite lookup_insert_eq. cbn. by rewrite Hids.
  - rewrite lookup_insert_ne by done. apply (Hag id).
Qed.

Lemma le_single_ok request e : llm_ok e → good request → accepts request → ∃ r e',
  (le_processor_run (op_add_request has_tokenizer new_detokenizer request None 0 None) ;;; le_client_run (client_add_request request)) e = (r, e') ∧
  llm_ok e'.
Proof.
  intros [Hi Hd Hc Ha] Hgood Hacc. destruct e as [s c d]. cbn [le_processor le_client] in *.
  assert (Hmay : may_add has_tokenizer new_detokenizer request None 0 None s) by (by split).
  unfold bind at 1. unfold le_processor_run at 1, zoom at 1. cbn [le_processor].
  destruct (op_add_request_ok has_tokenizer new_detokenizer 0 request None 0 None s Hi Hmay)
    as [[x Hx]|(s' & rs & Hrun & Hi' & Had & _ & Hids & _ & _ & _ & Hrid)].
  - rewrite Hx. eexists _, _. split; [reflexivity|]. by split.
  - rewrite Hrun. cbn [le_client should_execute_dummy_batch].
    destruct (hand_over_ok s s s' request rs None c d eq_refl Had Hrid Hids Hacc Ha Hc Hi') as (e' & Hr & He' & _). by eexists _, e'.
Qed.

Lemma le_children_ok p id params request l : er_sampling_params request = Some params → good request → accepts request →
  ∀ e, llm_ok e → taking_children p id params (le_processor e) →
  ∃ r e', for_ l (le_add_child has_tokenizer new_detokenizer p request) e = (r, e') ∧ llm_ok e'.
Proof.
  intros Hsp Hgood Hacc. induction l as [|idx l IH]; intros e He Htc; [by eexists _, _|]. cbn [for_]. destruct He as [Hi Hd Hc Ha].
  destruct (add_child_ok has_tokenizer new_detokenizer p id params idx request None (le_processor e) Hi Hd Htc Hgood Hsp ltac:(done))
    as (r & s' & Hrun & Hi' & Hd' & Htc' & _ & Hr).
  unfold le_add_child at 1. unfold bind at 1. unfold bind at 1. unfold le_processor_run at 1, zoom at 1. rewrite Hrun. destruct r as [request'|x].
  - destruct Hr as (Hrid & (cid & cp & Hreq) & s0 & rs & Hst & Had & Hrs & _ & Hids). destruct e as [s c d]. cbn [le_processor le_client should_execute_dummy_batch] in *.
    destruct (hand_over_ok s s0 s' request' rs (Some p) c d Hst Had ltac:(congruence) Hids ltac:(rewrite Hreq; by apply accepts_child) Ha Hc Hi') as (e' & Hr & He' & Hp).
    rewrite Hr. apply IH; [done|]. by rewrite Hp.
  - eexists _, _. split; [reflexivity|]. split; [done|done|done|]. intros x'. cbn [le_processor le_client]. rewrite <- (Ha x'). unfold live. by rewrite Hr.
Qed.

(** ** Histories *)

Inductive llm_call := CallAdd (p : ref) (suffix : string) (request : EngineCoreRequest)
  | CallAbort (request_ids : list string) (internal : bool) | CallStep | CallHasUnfinished (dp_group : option (bool → bool)).

Definition run_call (call : llm_call) : M llm unit :=
  match call with
  | CallAdd p suffix request => le_add_request has_tokenizer new_detokenizer p suffix request
  | CallAbort ids internal => le_abort_request stream_interval id_order ids internal
  | CallStep => le_step decode stream_interval ;;; ret tt
  | CallHasUnfinished dp_group => le_has_unfinished_requests dp_group ;;; ret tt
  end.

(** The random suffix makes the id of a new parent different from the ids of
    all requests, parents and children; parallel samples are not final only. *)
Definition may_fan_out (p : ref) (request : EngineCoreRequest) (params : OutputParams) s : Prop :=
  op_parents s !! p = None ∧ os_output_kind params ≠ FINAL_ONLY ∧ parent_requests s !! er_request_id request = None ∧
  (∀ p' parent, op_parents s !! p' = Some parent → er_request_id request ∉ child_requests parent) ∧
  (∀ idx p' parent, op_parents s !! p' = Some parent → pa_request_id parent ≠ child_id idx (er_request_id request)).
Definition may_call (call : llm_call) e : Prop :=
  match call with
  | CallAdd p suffix request => ∀ request', assign_request_id suffix request = Ok request' → good request' ∧ accepts request' ∧
      ∀ params, er_sampling_params request' = Some params → os_n params ≠ 1 → may_fan_out p request' params (le_processor e)
  | CallAbort ids internal => may_abort ids internal (le_processor e)
  | CallStep | CallHasUnfinished _ => True
  end.

Lemma le_add_ok p suffix request e : llm_ok e → may_call (CallAdd p suffix request) e →
  ∃ r e', le_add_request has_tokenizer new_detokenizer p suffix request e = (r, e') ∧ llm_ok e'.
Proof.
  intros He Hmay. unfold le_add_request. destruct (assign_request_id suffix request) as [request'|x] eqn:Has; [|by eexists _, e].
  rewrite bind_of_res. destruct (Hmay request' Has) as (Hgood & Hacc & Hfan). pose proof Hgood as (params & Hsp & _). rewrite Hsp.
  destruct (decide (os_n params = 1)) as [Hn|Hn]; [by apply le_single_ok|]. destruct (Hfan params Hsp Hn) as (F1 & F2 & F3 & F4 & F5).
  pose proof He as [Hi Hd Hc Ha].
  assert (Hext : is_Some (er_external_req_id request')).
  { unfold assign_request_id in Has. destruct (er_external_req_id request); [done|]. injection Has as <-. by eexists. }
  destruct (create_parent_ok p request' params (le_processor e) Hi F1 Hext F2 F3 F4 F5) as (s' & Hrun & Hi' & Htc & Hst & _ & Hdr).
  unfold bind at 1. unfold le_processor_run at 1, zoom at 1. rewrite Hrun. eapply le_children_ok; [done|done|done| |exact Htc].
  split; [done| |done|].
  - unfold drained_ok in *. cbn [le_processor]. by rewrite Hdr, Hst.
  - intros id. cbn [le_processor le_client]. rewrite <- (Ha id). unfold live. by rewrite Hst.
Qed.

Lemma client_abort_agree s s' c ids d : op_inv ∅ ∅ s' → drained_ok s' → client_inv c →
  (∀ id, out_ids <$> live s' id = if decide (id ∈ ids) then None else core_tokens c !! id) →
  ∃ e', le_client_run (client_abort_requests ids) (mkLLM s' c d) = (Ok tt, e') ∧ llm_ok e'.
Proof.
  intros Hi Hd Hc Hag. destruct (client_abort_ok c ids Hc) as (c' & Hrun & Hc' & Hr). unfold le_client_run, zoom. cbn [le_client]. rewrite Hrun.
  eexists. split; [reflexivity|]. split; [done|done|done|]. intros id. cbn [le_processor le_client]. by rewrite (Hag id), Hr.
Qed.

Lemma le_step_ok e : llm_ok e → ∃ l e', le_step decode stream_interval e = (Ok l, e') ∧ llm_ok e'.
Proof.
  intros [Hi Hd Hc Ha]. unfold le_step. unfold bind at 1. cbn [get]. destruct (should_execute_dummy_batch e).
  - rewrite bind_modify. unfold bind at 1. unfold le_client_run at 1, zoom at 1. cbn [le_client set_dummy_batch].
    destruct (client_dummy_ok _ Hc) as (c' & Hrun & Hc' & Hr). rewrite Hrun. eexists _, _. split; [reflexivity|].
    split; [done|done|done|]. intros id. cbn [le_processor le_client]. rewrite Hr. apply (Ha id).
  - destruct (client_output_ok _ Hc) as (os & c' & Hrun & Hc' & Hplain & Hr).
    unfold bind at 1. unfold le_client_run at 1, zoom at 1. rewrite Hrun.
    destruct (process_outputs_ok stream_interval decode os (le_processor e) Hi Hd Hplain) as (r & s' & Hp & [P1 P2 P3 P4 P5 P6 P7 _]).
    unfold bind at 1. unfold le_processor_run at 1, zoom at 1. cbn [le_processor]. rewrite Hp. cbn [le_client should_execute_dummy_batch].
    destruct (client_abort_agree (le_processor e) s' c' (reqs_to_abort r) (should_execute_dummy_batch e) P1 P2 Hc') as (e' & He & Hok).
    { intros id. rewrite Hr, lookup_after_outputs, <- (Ha id). destruct (live s' id) as [rs'|] eqn:Hl.
      - assert (Hx : has_request s' id) by (by exists rs'). destruct (P7 id rs' Hl) as (rs & -> & E). cbn.
        rewrite !decide_False; [by rewrite E| |]; [intros Hf; by apply (P6 id)|intros Hab; by destruct (P4 id Hab)].
      - assert (Hx : ¬ has_request s' id) by (unfold has_request; rewrite Hl; by intros [? ?]).
        destruct (decide (id ∈ reqs_to_abort r)) as [|Hab]; [done|]. destruct (decide (id ∈ _)) as [|Hf]; [done|].
        destruct (live (le_processor e) id) as [rs|] eqn:Hl0; [|done]. by destruct (P5 id ltac:(by exists rs) Hx). }
    rewrite (bind_ok _ _ _ _ _ He). by eexists _, e'.
Qed.

Inductive llm_reachable (c : C) : llm → Prop :=
  | llm_init : llm_reachable c (mkLLM OutputProcessor_init c false)
  | llm_after e call : llm_reachable c e → may_call call e → llm_reachable c (run_call call e).2.

Section histories.
Context (id_order_perm : ∀ X, id_order X ≡ₚ elements X).

Lemma llm_call_ok call e : llm_ok e → may_call call e →
  ∃ r e', run_call call e = (r, e') ∧ llm_ok e' ∧ (match call with CallAdd _ _ _ => True | _ => r = Ok tt end).
Proof using id_order_perm.
  intros He Hmay. destruct call as [p suffix request|ids internal| |dp]; cbn [run_call].
  - destruct (le_add_ok p suffix request e He Hmay) as (r & e' & Hrun & He'). by exists r, e'.
  - destruct He as [Hi Hd Hc Ha]. destruct (op_abort_ok stream_interval id_order id_order_perm ids internal (le_processor e) Hi Hd Hmay)
      as (F & s' & Hrun & (Hi' & Hd' & Hab) & _).
    unfold le_abort_request. unfold bind at 1. unfold le_processor_run, zoom. rewrite Hrun.
    destruct (client_abort_agree (le_processor e) s' (le_client e) (map fst F) (should_execute_dummy_batch e) Hi' Hd' Hc) as (e' & Hr & He').
    { intros id. rewrite <- (Ha id). destruct (live s' id) as [rs|] eqn:Hl.
      - apply (aborted_live _ _ _ _ Hab) in Hl as [-> Hno]. by rewrite decide_False.
      - case_decide as Hid; [done|]. destruct (live (le_processor e) id) as [rs|] eqn:Hl0; [|done].
        assert (Hl' : live s' id = Some rs) by (by apply (aborted_live _ _ _ _ Hab)). by rewrite Hl in Hl'. }
    exists (Ok tt), e'. by split; [|split].
  - destruct (le_step_ok e He) as (l & e' & Hrun & He'). rewrite (bind_ok _ _ _ _ _ Hrun). by exists (Ok tt), e'.
  - assert (Hdummy : ∀ b, llm_ok (set_dummy_batch b e)) by (intros b; by destruct He; split).
    assert (Hu : ∃ b e', le_has_unfinished_requests dp e = (Ok b, e') ∧ llm_ok e').
    { unfold le_has_unfinished_requests. unfold bind at 1. cbn [get]. destruct dp as [dp|]; [|by eexists _, e].
      unfold has_unfinished_requests_dp. set (u := op_has_unfinished_requests (le_processor e)). destruct (negb u && dp u).
      - rewrite bind_modify. eexists _, _. split; [reflexivity|done].
      - rewrite bind_ret_l. by eexists _, e. }
    destruct Hu as (b & e' & Hrun & He'). rewrite (bind_ok _ _ _ _ _ Hrun). by exists (Ok tt), e'.
Qed.

Lemma init_processor_inv : op_inv ∅ ∅ (OutputProcessor_init : processor).
Proof. split; cbn; try (by intros); [constructor|..]; intros *; try (intros Hx; by rewrite lookup_empty in Hx). Qed.

Lemma llm_reachable_ok c e : client_inv c → core_tokens c = ∅ → llm_reachable c e → llm_ok e.
Proof using id_order_perm.
  intros Hc Hn. induction 1 as [|e call _ IH Hmay].
  - split; [apply init_processor_inv|done|done|]. intros id. cbn [le_processor le_client]. by rewrite Hn, lookup_empty.
  - destruct (llm_call_ok call e IH Hmay) as (r & e' & -> & He' & _). exact He'.
Qed.

Lemma llm_idle e : llm_ok e → op_has_unfinished_requests (le_processor e) = false → core_tokens (le_client e) = ∅.
Proof.
  intros He Hu. apply bool_decide_eq_false in Hu. apply map_empty. intros id. rewrite <- (lo_agree _ He id).
    unfold live. destruct (request_states (le_processor e)); [done|]. rewrite len_cons in Hu. pose proof (len_nonneg l). lia.
Qed.

End histories.
End llm_engine.

(** ** An example *)

#[local] Existing Instances char_decoder char_total.

(** A core that answers each request with two tokens. *)
Definition two_tokens : Type := request_tokens.
Definition answer (p : string * list Z) : ProcessedOutput :=
  mkProcessed (mkEngineOutput p.1 [97] (if decide (p.2 = []) then None else Some LENGTH) false None None None 0) None None.
#[local] Instance two_tokens_client : EngineClient two_tokens := {|
  client_add_request request := modify (λ c : two_tokens, <[er_request_id request := []]> c);
  client_abort_requests ids := modify (λ c : two_tokens, filter (λ p : string * list Z, p.1 ∉ ids) c);
  client_get_output := λ c : two_tokens, let os := map answer (map_to_list c) in (Ok os, after_outputs (map pr_output os) c);
  client_execute_dummy_batch := ret tt;
  client_dp_engines_running _ := false;
  client_engine_dead _ := false;
  client_reset_prefix_cache := ret tt;
  client_reset_mm_cache := ret tt
|}.

#[local] Program Instance two_tokens_laws : EngineClientLaws two_tokens := {|
  client_inv _ := True;
  accepts _ := True;
  core_tokens c := c
|}.
Next Obligation. done. Qed.
Next Obligation. intros c request _ _ _. by eexists. Qed.
Next Obligation.
  intros c ids _. eexists. split; [reflexivity|]. split; [done|]. intros id. case_decide as Hid.
  - apply map_lookup_filter_None. right. by intros ks _ Hn.
  - apply option_eq. intros ks. rewrite map_lookup_filter_Some. naive_solver.
Qed.
Next Obligation.
  intros c _. eexists _, _. split; [reflexivity|]. split; [done|]. split; [|done].
  apply Forall_forall. intros o Ho. apply list_elem_of_In, in_map_iff in Ho as (p & <- & _). done.
Qed.
Next Obligation. intros c _. by exists c. Qed.

Definition sample_request (id : string) (n : Z) : EngineCoreRequest :=
  mkEngineRequest id None (Some [1]) None (Some (with_child n None example_params)) None example_core_params.
Lemma sample_good id ext n : good_request true char_detokenizer (mkEngineRequest id ext (Some [1]) None (Some (with_child n None example_params)) None example_core_params).
Proof. exact (example_good id (with_child n None example_params) eq_refl). Qed.

(** Two parallel samples and a single request, of which a step makes one token
    each; the single one is aborted by its external id. *)
Definition sample_calls : list llm_call :=
  [CallAdd 7 "x" (sample_request "p" 2); CallAdd 8 "y" (sample_request "r" 1); CallStep; CallAbort ["r"] false].
Abbreviation sample_run := (run_call true char_detokenizer (λ _, None) 1 (elements : gset string → list string)).
Definition sample_engine (n : nat) : LLMEngine unit two_tokens :=
  foldl (λ e call, (sample_run call e).2) (mkLLM OutputProcessor_init ∅ false) (take n sample_calls).

Lemma sample_reachable : llm_reachable true char_detokenizer (λ _, None) 1 elements ∅ (sample_engine 4).
Proof.
  assert (H1 : llm_reachable true char_detokenizer (λ _, None) 1 elements ∅ (sample_engine 1)).
  { apply (llm_after _ _ _ _ _ _ _ (CallAdd 7 "x" (sample_request "p" 2))); [constructor|]. intros request' [= <-]. split; [apply sample_good|split; [done|]].
    intros params [= <-] _. by repeat split. }
  assert (H2 : llm_reachable true char_detokenizer (λ _, None) 1 elements ∅ (sample_engine 2)).
  { apply (llm_after _ _ _ _ _ _ _ (CallAdd 8 "y" (sample_request "r" 1)) H1). intros request' [= <-]. split; [apply sample_good|split; [done|]].
    intros params [= <-] Hn. by destruct Hn. }
  assert (H3 := llm_after _ _ _ _ _ _ _ CallStep H2 I).
  apply (llm_after _ _ _ _ _ _ _ (CallAbort ["r"] false) H3). by left.
Qed.


(** Aborting parallel samples by their external id leaves their parent behind. *)
Example external_abort_keeps_parent : let e := (sample_run (CallAbort ["p"] false) (sample_engine 1)).2 in
  request_states (le_processor e) = [] ∧ parent_requests (le_processor e) !! "p-x" = Some 7.
Proof. vm_compute. split; reflexivity. Qed.
(** An id that is given twice raises, and the request is no longer listed. *)
Example abort_twice_raises : let '(r, e) := sample_run (CallAbort ["r-y"; "r-y"] true) (sample_engine 3) in
  r = Raise ValueError ∧ is_Some (live (le_processor e) "r-y") ∧ external_req_ids (le_processor e) !! "r" = Some [].
Proof. vm_compute. split; [reflexivity|split; [by eexists|reflexivity]]. Qed.
