(* ===== verification/InprocClient.v ===== *)
(** The engine core in the process of its engine ([InprocClient],
    vllm/v1/engine/core_client.py) as a client, and the [Request] that the core
    makes of an [EngineCoreRequest] (vllm/v1/request.py,
    [from_engine_core_request]; vllm/v1/engine/core.py,
    [preprocess_add_request]).

    The receiver cache fills in the data of multi-modal features, and the
    compilation of grammars changes the structured output manager; neither
    changes an attribute of the model.  Log probabilities are what the runner
    reported for the output ([new_logprobs], [new_prompt_logprobs_tensors]).

    The client keeps the promises of [EngineClientLaws]; so the output processor
    of an [LLMEngine] over it has exactly the requests of the scheduler, with the
    tokens that the scheduler has appended, for text generation with a
    synchronous scheduler without connectors. *)

From S2P Require Import Prelude.
From S2P Require Import Request.
From S2P Require Import BlockPool.
From S2P Require Import KVCacheManager.
From S2P Require Import KVService.
From S2P Require Import KVServiceImpl.
From S2P Require Import OrderedDict.
From S2P Require Import EncoderCache.
From S2P Require Import RequestQueue.
From S2P Require Import RequestQueueSpec.
From S2P Require Import SchedulerState.
From S2P Require Import Schedule.
From S2P Require Import SchedulerInvariant.
From S2P Require Import ScheduleSpec.
From S2P Require Import SchedulerUpdate.
From S2P Require Import EngineInvariant.
From S2P Require Import EngineCalls.
From S2P Require Import UpdateSpec.
From S2P Require Import Engine.
From S2P Require Import EngineOutputs.
From S2P Require Import EngineCore.
From S2P Require Import EngineCoreSpec.
From S2P Require Import Detokenizer.
From S2P Require Import DetokenizerSpec.
From S2P Require Import Logprobs.
From S2P Require Import RequestOutputs.
From S2P Require Import OutputProcessor.
From S2P Require Import OutputProcessorSpec.
From S2P Require Import OutputInvariant.
From S2P Require Import OutputHistory.
From S2P Require Import OutputStreams.
From S2P Require Import Frontend.
From S2P Require Import FrontendSpec.

(** [obj] is the identity of the new object. *)
Definition from_engine_core_request (obj : Z) (request : EngineCoreRequest) (block_hasher : option (Request → res (list bytes)))
    : res Request :=
  let core := er_core request in
  Request_init (er_request_id request) obj (cp_client_index core) (er_prompt_token_ids request)
    (cp_sampling_params core) (cp_pooling_params core) (cp_eos_token_id core) (cp_arrival_time core)
    (er_prompt_embeds request) (default [] (cp_mm_features core)) (cp_lora_request core) (cp_cache_salt core)
    (cp_priority core) block_hasher.

(** The clock of the process has been read [ic_readings] times. *)
Record InprocClient (W E F : Type) := mkInproc {
  engine_core : EngineCore W E F;
  ic_readings : nat
}.
Arguments mkInproc {W E F}.
Arguments engine_core {W E F} _.
Arguments ic_readings {W E F} _.

Section inproc.
Context {W E F G : Type} (cfg : SchedulerConfig) (ecfg : EngineConfig) (exec : Executor E F G).
Context (connector : option (KVConnector W)) (ec_connector : option (ECConnector W)).
Context (set_order : gset Z → list Z) (id_order : gset string → list string).
(** [request_block_hasher]: [None] without prefix caching; then no request has a
    hasher that could be called. *)
Context (block_hasher : option (Request → res (list bytes))).
Abbreviation hasher := (default (λ _, Ok []) block_hasher).
Context (should_advance : Request → bool) (grammar_ready : Request → bool).
Context (validate_tokens : Request → list Z → list Z).
Context (publish : list KVCacheEvent → W → W).
Context (pooling_task_supported : PoolingParams → bool).
Context (grammar_bitmask : Scheduler W → list string → list (string * list Z) → G).
(** [time.monotonic()]; the other calls of the executor; the log
    probabilities. *)
Context (monotonic : nat → Z).
Context (executor_dummy_batch executor_reset_mm_cache : E → E).
Context (new_logprobs : EngineCoreOutput → option LogprobsLists).
Context (new_prompt_logprobs : EngineCoreOutput → option LogprobsTensors).
Abbreviation client := (InprocClient W E F).

Definition core_run {A} (m : M (EngineCore W E F) A) : M client A :=
  zoom engine_core (λ v c, mkInproc v (ic_readings c)) m.
Definition time_monotonic : M client Z := λ c, (Ok (monotonic (ic_readings c)), mkInproc (engine_core c) (S (ic_readings c))).
(** A reference to a new object. *)
Definition new_object (c : client) : ref := fresh (dom (store (core_scheduler (engine_core c)))).

Definition ic_add_request (request : EngineCoreRequest) : M client unit :=
  let* c := get in
  let r := new_object c in
  let* req := of_res (from_engine_core_request r request block_hasher) in
  let* now := time_monotonic in
  core_run (core_add_request cfg pooling_task_supported r req now).

Definition ic_abort_requests (request_ids : list string) : M client unit :=
  match request_ids with
  | [] => ret tt
  | _ => core_run (abort_requests cfg connector set_order id_order request_ids)
  end.

(** The outputs for client 0. *)
Definition ic_get_output : M client (list ProcessedOutput) :=
  let* now := time_monotonic in
  let* r := core_run (step_fn cfg ecfg exec connector ec_connector set_order id_order hasher should_advance grammar_ready
                        validate_tokens publish grammar_bitmask now) in
  let '(outputs, model_executed) := r in
  core_run (post_step cfg ecfg exec should_advance validate_tokens model_executed) ;;;
  ret (map (λ o, mkProcessed o (new_logprobs o) (new_prompt_logprobs o))
         (default [] (eos_outputs <$> (outputs ≫= od_get 0)))).

Definition ic_execute_dummy_batch : M client unit := core_run (executor (λ x, (tt, executor_dummy_batch x))).
Definition ic_reset_prefix_cache (reset_running_requests reset_connector : bool) : M client bool :=
  let* timestamp := time_monotonic in
  core_run (scheduler (sched_reset_prefix_cache cfg connector set_order reset_running_requests reset_connector timestamp)).
Definition ic_reset_mm_cache : M client unit := core_run (executor (λ x, (tt, executor_reset_mm_cache x))).

(** Only [AsyncLLM], which has other clients, asks whether the core is dead. *)
Definition inproc_client : EngineClient client := {|
  client_add_request := ic_add_request;
  client_abort_requests := ic_abort_requests;
  client_get_output := ic_get_output;
  client_execute_dummy_batch := ic_execute_dummy_batch;
  client_dp_engines_running _ := false;
  client_engine_dead _ := false;
  client_reset_prefix_cache := (let* _ := ic_reset_prefix_cache false false in ret tt);
  client_reset_mm_cache := ic_reset_mm_cache
|}.
End inproc.

(** ** The contract of a client *)

Section inproc_laws.
Context {W E F G : Type} (cfg : SchedulerConfig) (ecfg : EngineConfig) (exec : Executor E F G).
Context {EL : ExecutorLaws exec} (hbs : Z).
Context {KP : KVPredicates} {KS : KVService hbs (sc_max_model_len cfg) (sc_log_stats cfg)}.
Context (hasher : Request → res (list bytes)) {TH : TokenHasher hbs hasher}.
Context (set_order : gset Z → list Z) (Hset : set_order ∅ = []).
Context (id_order : gset string → list string) (Hids : ∀ X, id_order X ≡ₚ elements X).
Context (should_advance : Request → bool) (grammar_ready : Request → bool).
Context (validate_tokens : Request → list Z → list Z).
Context (publish : list KVCacheEvent → W → W).
Context (pooling_task_supported : PoolingParams → bool).
Context (grammar_bitmask : Scheduler W → list string → list (string * list Z) → G).
Context (monotonic : nat → Z).
Context (executor_dummy_batch executor_reset_mm_cache : E → E).
Context (new_logprobs : EngineCoreOutput → option LogprobsLists).
Context (new_prompt_logprobs : EngineCoreOutput → option LogprobsTensors).
Context (Hadv : ∀ rq, should_advance rq = true → use_structured_output rq = true ∧ grammar_ready rq = true).
Context (Hsync : sc_async cfg = false) (Hspec : use_spec_decode ecfg = false)
  (Hec : is_ec_producer ecfg = false) (Hpool : is_pooling_model ecfg = false).
Context (Hlora : sc_max_loras cfg = None) (Hlook : 0 ≤ sc_num_lookahead_tokens cfg)
  (Hmaxtok : 0 ≤ sc_max_num_scheduled_tokens cfg).
(** The model generates text, a dummy batch does not disturb the batches in
    flight, and no log probabilities are asked for. *)
Context (Hgen : generation exec).
Context (Hdummy : ∀ x q, ex_ready x q → ex_ready (executor_dummy_batch x) q).
Context (Hlogprobs : ∀ o, new_logprobs o = None ∧ new_prompt_logprobs o = None).
Abbreviation client := (InprocClient W E F).
Abbreviation core_of c := (core_scheduler (engine_core c)).

#[local] Instance the_client : EngineClient client :=
  inproc_client cfg ecfg exec None None set_order id_order (Some hasher) should_advance grammar_ready validate_tokens publish
    pooling_task_supported grammar_bitmask monotonic executor_dummy_batch executor_reset_mm_cache new_logprobs new_prompt_logprobs.

(** A text prompt that fits the model with its minimum number of output tokens,
    from the only client. *)
Definition servable (request : EngineCoreRequest) : Prop :=
  ∃ prompt sp, er_prompt_token_ids request = Some prompt ∧ er_prompt_embeds request = None ∧
    cp_sampling_params (er_core request) = Some sp ∧ is_Some (max_tokens_param sp) ∧
    cp_pooling_params (er_core request) = None ∧ default [] (cp_mm_features (er_core request)) = [] ∧
    cp_client_index (er_core request) = 0 ∧
    0 < len prompt < sc_max_model_len cfg ∧ len prompt + min_tokens sp ≤ sc_max_model_len cfg.

Record inproc_ok (c : client) : Prop := {
  ip_core : core_inv cfg ecfg exec hbs hasher (engine_core c);
  ip_aborts : aborts_queue (engine_core c) = [];
  ip_client : all_of 0 (core_of c)
}.

Lemma request_made obj request : servable request →
  ∃ rq, from_engine_core_request obj request (Some hasher) = Ok rq ∧ new_request cfg hbs hasher rq ∧
    request_id rq = er_request_id request ∧ client_index rq = 0 ∧ _output_token_ids rq = [].
Proof.
  intros (prompt & sp & H1 & H2 & H3 & [mt H4] & H5 & H6 & H7 & Hlen & Hmin). unfold from_engine_core_request.
  rewrite H1, H2, H3, H5, H6, H7. set (run := Request_init _ _ _ _ _ _ _ _ _ _ _ _ _ _).
  assert (∃ rq, run = Ok rq ∧ client_index rq = 0 ∧ _output_token_ids rq = []) as (rq & Hrun & Hc & Ho).
  { unfold run, Request_init. cbn. rewrite H4. cbn. match goal with |- context [hasher ?x] => set (r0 := x) end.
    destruct (th_new r0 eq_refl) as (hs & -> & _). by eexists. }
  destruct (init_new_request cfg hbs hasher _ _ _ _ _ _ _ _ _ _ rq Hrun Hlen Hmin) as [Hn Hid].
  exists rq. done.
Qed.

Lemma core_run_ok {A} (m : M (EngineCore W E F) A) (c : client) a c' :
  m (engine_core c) = (Ok a, c') → core_run m c = (Ok a, mkInproc c' (ic_readings c)).
Proof. intros H. unfold core_run, zoom. by rewrite H. Qed.

Lemma no_request_no_tokens (c : client) id : inproc_ok c → output_tokens (core_of c) !! id = None → sched_requests (core_of c) !! id = None.
Proof.
  intros [Hc _ _] Hn. rewrite lookup_output_tokens in Hn. destruct (sched_requests (core_of c) !! id) as [r|] eqn:Hr; [|done].
  destruct (lv_known _ _ _ _ _ _ (ei_live _ _ _ _ (ci_sched _ _ _ _ _ _ Hc)) id r Hr) as (_ & rq & Hrq & _). cbn in Hn. by rewrite Hrq in Hn.
Qed.

#[local] Program Instance the_client_laws : EngineClientLaws client := {|
  client_inv := inproc_ok;
  accepts := servable;
  core_tokens c := output_tokens (core_of c)
|}.
Next Obligation. done. Qed.
Next Obligation.
  intros c request Hc Ha Hno. pose proof Hc as [H1 H2 H3]. set (r := new_object c).
  destruct (request_made r request Ha) as (rq & Hrq & Hn & Hid & Hci & Ho).
  set (c1 := mkInproc (engine_core c) (S (ic_readings c)) : client).
  destruct (add_call_ok cfg exec hbs hasher pooling_task_supported _ (engine_core c) r rq (monotonic (ic_readings c)) H1 Hn)
    as (c' & Hrun & Hc' & _ & Hab & Htok & Hall).
  { apply not_elem_of_dom. apply is_fresh. }
  { rewrite Hid. by apply no_request_no_tokens. }
  eexists. split.
  - cbn [client_add_request the_client inproc_client]. unfold ic_add_request. unfold bind at 1. cbn [get]. fold r.
    rewrite Hrq, bind_of_res. rewrite (bind_ok _ _ c (monotonic (ic_readings c)) c1) by done.
    apply (core_run_ok _ c1). exact Hrun.
  - split; [split; cbn [engine_core]; [done|congruence|]|].
    + rewrite <- Hci. apply Hall. by rewrite Hci.
    + cbn [engine_core]. by rewrite Htok, Hid, Ho.
Qed.
Next Obligation.
  intros c ids Hc. pose proof Hc as [H1 H2 H3]. cbn [client_abort_requests the_client inproc_client]. unfold ic_abort_requests.
  destruct ids as [|id ids].
  { exists c. split; [done|]. split; [done|]. intros id. by rewrite decide_False by apply not_elem_of_nil. }
  destruct (abort_ok cfg exec hbs hasher set_order Hset id_order Hids _ (engine_core c) (id :: ids) H1)
    as (c' & Hrun & Hc' & _ & _ & Hab & Htok & Hall).
  eexists. split; [exact (core_run_ok _ c _ _ Hrun)|]. split; [|exact Htok]. split; cbn [engine_core]; [done|congruence|by apply Hall].
Qed.
Next Obligation.
  intros c [H1 H2 H3]. set (c1 := mkInproc (engine_core c) (S (ic_readings c)) : client).
  destruct (step_fn_ok cfg ecfg exec hbs hasher set_order Hset id_order Hids should_advance grammar_ready validate_tokens publish
    grammar_bitmask Hadv Hsync Hec Hpool Hlora Hlook Hmaxtok (monotonic (ic_readings c)) (engine_core c) H1) as ([outs b] & c' & Hrun & Hc' & Hsv).
  destruct (Hsv H2) as [S1 S2 S3]. cbn [fst] in S2, S3. destruct (S2 0 H3) as [Htok Hall].
  set (os := default [] (eos_outputs <$> (outs ≫= od_get 0))).
  assert (Hos : client_outputs 0 (default [] outs) = os) by (by destruct outs). rewrite Hos in Htok.
  eexists _, _. split.
  - cbn [client_get_output the_client inproc_client]. unfold ic_get_output.
    rewrite (bind_ok _ _ c (monotonic (ic_readings c)) c1) by done.
    rewrite (bind_ok _ _ _ _ _ (core_run_ok _ c1 _ _ Hrun)).
    rewrite (bind_ok _ _ _ _ _ (core_run_ok _ (mkInproc c' _) _ _ (post_step_ok cfg ecfg exec should_advance validate_tokens Hspec b c'))).
    reflexivity.
  - cbn [engine_core ic_readings]. split; [by split|]. split.
    + apply Forall_forall. intros o Ho. apply list_elem_of_In, in_map_iff in Ho as (x & <- & Hx). apply list_elem_of_In in Hx.
      destruct (Hlogprobs x). split; [|done]. cbn. apply (S3 0); [done|]. by rewrite Hos.
    + rewrite map_map. cbn [pr_output]. rewrite map_id. exact Htok.
Qed.
Next Obligation.
  intros c [[C1 C2 C3 C4] H2 H3]. eexists. split; [reflexivity|]. split; [|done]. split; [|done|done].
  split; cbn; try done. by apply Hdummy.
Qed.

(** ** The engine *)

Context {D : Type} `{Decoder D} `{!TotalDecoder D} (has_tokenizer : bool).
Context (new_detokenizer : bool → DetokenizerParams → option (list Z) → option (list bytes) → res (IncrementalDetokenizer D)).
Context (decode : list Z → option text) (stream_interval : Z).
Abbreviation llm := (LLMEngine D client).
Abbreviation reachable_from c := (llm_reachable (C := client) has_tokenizer new_detokenizer decode stream_interval id_order (mkInproc c 0)).

(** An engine core that has just been made. *)
Lemma initial_client c : core_initial cfg ecfg exec c → aborts_queue c = [] → inproc_ok (mkInproc c 0) ∧ output_tokens (core_scheduler c) = ∅.
Proof.
  intros Hi Ha. assert (Hn : sched_requests (core_scheduler c) = ∅) by apply (cn_sched _ _ _ _ Hi). split.
  - split; cbn; [by apply initial_core|done|]. intros id r rq. by rewrite Hn, lookup_empty.
  - apply map_empty. intros id. by rewrite lookup_output_tokens, Hn, lookup_empty.
Qed.

Lemma no_tokens_idle (s : Scheduler W) : engine_inv cfg hbs hasher s → output_tokens s = ∅ → running s = [] ∧ items (waiting s) = [].
Proof.
  intros Hs Hn. pose proof (ei_live _ _ _ _ Hs) as Hl.
  assert (Hno : ∀ r, r ∉ running s ++ items (waiting s)).
  { intros r Hr. destruct (lv_alive _ _ _ _ _ _ Hl r Hr) as (rq & [[T1 T2 T3] _ _ _]).
    assert (He : output_tokens s !! request_id rq = None) by (by rewrite Hn, lookup_empty).
    rewrite lookup_output_tokens, T3 in He. cbn in He. by rewrite T1 in He. }
  split; apply elem_of_nil_inv; intros r Hr; apply (Hno r), elem_of_app; auto.
Qed.

End inproc_laws.

(** ** An example *)

#[local] Existing Instances engine_predicates example_chained eight_laws char_decoder char_total.
#[local] Instance example_service : KVService 2 (sc_max_model_len small_config) (sc_log_stats small_config) := kv_service 2 16 true.

Lemma eight_generation : generation eight_executor.
Proof.
  assert (He : ∀ o, generates (eights o)) by (intros o i p; by intros [= <-]). split.
  - intros f x m x'. cbn. destruct (f.1 || _); intros [= <- _]. apply He.
  - intros g x m x' [= <- _]. apply He.
Qed.

(** The pipeline of [EngineCoreSpec], whose model answers with token 8. *)
Abbreviation eight_client_type := (InprocClient unit SchedulerOutput (bool * SchedulerOutput)).
#[local] Instance eight_client : EngineClient eight_client_type :=
  the_client small_config pipeline eight_executor example_hasher (λ _, []) elements (λ _, false) (λ _, true) (λ _ l, l) (λ _ w, w)
    (λ _, true) (λ _ _ _, tt) Z.of_nat (λ x, x) (λ x, x) (λ _, None) (λ _, None).
#[local] Instance eight_client_laws : EngineClientLaws eight_client_type :=
  the_client_laws small_config pipeline eight_executor 2 example_hasher (λ _, []) eq_refl elements elements_order (λ _, false) (λ _, true)
    (λ _ l, l) (λ _ w, w) (λ _, true) (λ _ _ _, tt) Z.of_nat (λ x, x) (λ x, x) (λ _, None) (λ _, None) ltac:(by intros ? ?)
    eq_refl eq_refl eq_refl eq_refl eq_refl ltac:(by vm_compute) ltac:(by vm_compute) eight_generation ltac:(by intros ? ?) ltac:(done).

Abbreviation eight_run := (run_call (C := eight_client_type) true char_detokenizer (λ _, None) 1 (elements : gset string → list string)).
Definition new_engine : LLMEngine unit eight_client_type := mkLLM OutputProcessor_init (mkInproc EngineCoreSpec.example_core 0) false.
(** Two parallel samples and a single request; after two steps the single one is
    aborted by its external id. *)
Definition served_calls : list llm_call :=
  [CallAdd 7 "x" (sample_request "p" 2); CallAdd 8 "y" (sample_request "r" 1); CallStep; CallStep; CallAbort ["r"] false].
Definition served_engine (n : nat) : LLMEngine unit eight_client_type :=
  foldl (λ e call, (eight_run call e).2) new_engine (take n served_calls).
Abbreviation eight_reachable := (llm_reachable (C := eight_client_type) true char_detokenizer (λ _, None) 1 (elements : gset string → list string)
  (mkInproc EngineCoreSpec.example_core 0)).

Lemma sample_servable id ext n : servable small_config (mkEngineRequest id ext (Some [1]) None (Some (with_child n None example_params)) None example_core_params).
Proof. eexists _, _. do 2 (split; [reflexivity|]). split; [reflexivity|]. split; [by eexists|]. by vm_compute. Qed.

Lemma served_reachable : eight_reachable (served_engine 5).
Proof.
  assert (H1 : eight_reachable (served_engine 1)).
  { apply (llm_after _ _ _ _ _ _ _ (CallAdd 7 "x" (sample_request "p" 2))); [constructor|]. intros request' [= <-].
    split; [apply sample_good|split; [apply sample_servable|]]. intros params [= <-] _. by repeat split. }
  assert (H2 : eight_reachable (served_engine 2)).
  { apply (llm_after _ _ _ _ _ _ _ (CallAdd 8 "y" (sample_request "r" 1)) H1). intros request' [= <-].
    split; [apply sample_good|split; [apply sample_servable|]]. intros params [= <-] Hn. by destruct Hn. }
  assert (H4 := llm_after _ _ _ _ _ _ _ CallStep (llm_after _ _ _ _ _ _ _ CallStep H2 I) I).
  apply (llm_after _ _ _ _ _ _ _ (CallAbort ["r"] false) H4). by left.
Qed.

Lemma example_core_initial : core_initial small_config pipeline eight_executor EngineCoreSpec.example_core.
Proof. split; [exact empty_initial|right; split; reflexivity|constructor]. Qed.

