(* ===== verification/AsyncSpec.v ===== *)
(** [AsyncLLM] and the engine core in another process: a step relation over the
    messages between them.

    Each action is what runs without an await; the core takes messages and emits
    batches of outputs at any time.  In every history of the
    actions that [may_act] allows the requests of the processor are those of the
    core, up to the messages under way. *)

From S2P Require Import Prelude.
From S2P Require Import OrderedDict.
From S2P Require Import Request.
From S2P Require Import SchedulerUpdate.
From S2P Require Import EngineOutputs.
From S2P Require Import Detokenizer.
From S2P Require Import DetokenizerSpec.
From S2P Require Import PyFloat.
From S2P Require Import Logprobs.
From S2P Require Import RequestOutputs.
From S2P Require Import OutputProcessor.
From S2P Require Import OutputProcessorSpec.
From S2P Require Import OutputInvariant.
From S2P Require Import OutputHistory.
From S2P Require Import OutputStreams.
From S2P Require Import Frontend.
From S2P Require Import FrontendSpec.

(** ** The wire *)

Inductive CoreMessage := AddMessage (id : string) | AbortMessage (ids : list string).

(** Messages on their way to the core, the requests that the core has, and
    batches on their way back; both channels keep the order. *)
Record Wire := mkWire {
  wr_inputs : list CoreMessage;
  wr_running : gset string;
  wr_outputs : list (list ProcessedOutput)
}.
Definition send (m : CoreMessage) (c : Wire) : Wire := mkWire (wr_inputs c ++ [m]) (wr_running c) (wr_outputs c).

(** [AsyncMPClient]; [get_output_async] waits when there is no batch. *)
#[export] Instance wire_client : EngineClient Wire := {|
  client_add_request request := modify (send (AddMessage (er_request_id request)));
  client_abort_requests ids := if decide (ids = []) then ret tt else modify (send (AbortMessage ids));
  client_get_output := λ c, match wr_outputs c with
    | [] => (Raise RuntimeError, c)
    | b :: l => (Ok b, mkWire (wr_inputs c) (wr_running c) l)
    end;
  client_execute_dummy_batch := ret tt;
  client_dp_engines_running _ := false;
  client_engine_dead _ := false;
  client_reset_prefix_cache := ret tt;
  client_reset_mm_cache := ret tt
|}.

(** The core takes a message. *)
Definition take_message (m : CoreMessage) (running : gset string) : gset string :=
  match m with AddMessage id => {[id]} ∪ running | AbortMessage ids => running ∖ list_to_set ids end.
Definition take_all (ms : list CoreMessage) (running : gset string) : gset string := foldl (λ r m, take_message m r) running ms.
Definition adds (ms : list CoreMessage) : list string := omap (λ m, if m is AddMessage id then Some id else None) ms.

Lemma take_all_app ms m running : take_all (ms ++ [m]) running = take_message m (take_all ms running).
Proof. unfold take_all. by rewrite foldl_app. Qed.

Lemma take_all_pointwise id ms : ∀ r r', (id ∈ r ↔ id ∈ r') → id ∈ take_all ms r ↔ id ∈ take_all ms r'.
Proof.
  induction ms as [|m ms IH]; intros r r' Hr; [done|]. cbn [take_all foldl]. apply IH. destruct m as [x|ids]; cbn [take_message].
  - rewrite !elem_of_union. tauto.
  - rewrite !elem_of_difference. tauto.
Qed.
Lemma take_all_absent id ms : ∀ r, id ∉ r → id ∉ adds ms → id ∉ take_all ms r.
Proof.
  induction ms as [|m ms IH]; intros r Hr Ha; [done|]. cbn [take_all foldl]. destruct m as [x|ids]; cbn [take_message adds omap list_omap] in *.
  - apply not_elem_of_cons in Ha as [Hx Ha]. apply IH; [set_solver|done].
  - apply IH; [set_solver|done].
Qed.
Lemma adds_app ms m : adds (ms ++ [m]) = adds ms ++ (if m is AddMessage id then [id] else []).
Proof. unfold adds. rewrite omap_app. by destruct m. Qed.

Section async.
Context {D : Type} `{Decoder D} `{!TotalDecoder D} (has_tokenizer : bool).
Context (new_detokenizer : bool → DetokenizerParams → option (list Z) → option (list bytes) → res (IncrementalDetokenizer D)).
Context (decode : list Z → option text) (stream_interval : Z) (id_order : gset string → list string) (chunk_size : Z).
Abbreviation processor := (OutputProcessor D).
Abbreviation async := (AsyncLLM D Wire).
Abbreviation good := (good_request has_tokenizer new_detokenizer).
Implicit Types (s : processor) (e : async) (c : Wire).

(** ** Worlds *)

(** The requests that the core has when it has taken all messages, those that
    the output handler is about to send included. *)
Definition settled e : gset string :=
  take_all (wr_inputs (al_client e)) (wr_running (al_client e)) ∖ list_to_set (al_reqs_to_abort e).
(** The outputs under way. *)
Definition under_way e : list ProcessedOutput := al_outputs e ++ concat (wr_outputs (al_client e)).
Definition quiet_wire e : Prop :=
  wr_inputs (al_client e) = [] ∧ wr_outputs (al_client e) = [] ∧ al_outputs e = [] ∧ al_reqs_to_abort e = [].

(** With the ids that requests have been given. *)
Record async_world := mkAW { aw : async; aw_issued : gset string }.

Record async_ok (w : async_world) : Prop := {
  ao_inv : op_inv ∅ ∅ (al_processor (aw w));
  ao_drained : drained_ok (al_processor (aw w));
  ao_queued : all_queued (al_processor (aw w));
  ao_alive : al_handler_done (aw w) = false;
  ao_plain : Forall plain_output (under_way (aw w));
  ao_settled id : id ∈ settled (aw w) → has_request (al_processor (aw w)) id;
  ao_requests id : has_request (al_processor (aw w)) id → id ∈ settled (aw w) ∨ id ∈ finished_ids (under_way (aw w));
  ao_finished id : id ∈ finished_ids (under_way (aw w)) → id ∉ settled (aw w);
  ao_adds : NoDup (adds (wr_inputs (al_client (aw w)))) ∧
    ∀ id, id ∈ adds (wr_inputs (al_client (aw w))) → id ∉ wr_running (al_client (aw w));
  ao_issued id : id ∈ adds (wr_inputs (al_client (aw w))) ∨ id ∈ wr_running (al_client (aw w)) ∨
    id ∈ finished_ids (under_way (aw w)) ∨ id ∈ al_reqs_to_abort (aw w) → id ∈ aw_issued w
}.

(** ** Actions *)

Inductive async_action :=
  | Single (queue : ref) (kind : RequestOutputKind) (suffix : string) (request : EngineCoreRequest)
  | Parallel (p queue : ref) (kind : RequestOutputKind) (suffix : string) (request : EngineCoreRequest)
  | Child (p queue : ref) (request : EngineCoreRequest) (idx : Z)
  | Read (queue : ref)
  | Cancel (queue : ref)
  | AbortIds (ids : list string) (internal : bool)
  | HandlerReceive | HandlerChunk | HandlerAbort
  | Pause (wait_for_inflight_requests : bool) | Resume
  | CoreTake
  | CoreEmit (outputs : list ProcessedOutput).

Definition run_async (a : async_action) : M async unit :=
  match a with
  | Single queue kind suffix request =>
      let* request := al_prepare suffix request in
      al_add_single has_tokenizer new_detokenizer queue kind request ;;; ret tt
  | Parallel p queue kind suffix request =>
      let* request := al_prepare suffix request in
      match er_sampling_params request with
      | Some params => al_add_parallel has_tokenizer new_detokenizer p queue kind request params ;;; ret tt
      | None => ret tt
      end
  | Child p queue request idx => al_add_child has_tokenizer new_detokenizer p queue request idx
  | Read queue => generate_step stream_interval id_order queue ;;; ret tt
  | Cancel queue => generate_cancelled stream_interval id_order queue
  | AbortIds ids internal => al_abort stream_interval id_order ids internal
  | HandlerReceive => handler_receive
  | HandlerChunk => handler_chunk decode stream_interval chunk_size
  | HandlerAbort => handler_abort
  | Pause wait => pause_begin stream_interval id_order wait ;;; ret tt
  | Resume => resume_generation
  | CoreTake => al_client_run (λ c, match wr_inputs c with
      | [] => (Ok tt, c)
      | m :: l => (Ok tt, mkWire l (take_message m (wr_running c)) (wr_outputs c))
      end)
  | CoreEmit outputs => al_client_run (modify (λ c,
      mkWire (wr_inputs c) (wr_running c ∖ list_to_set (finished_ids outputs)) (wr_outputs c ++ [outputs])))
  end.

(** The ids that an action gives out. *)
Definition issues (a : async_action) : gset string :=
  match a with
  | Single _ _ suffix request => match assign_request_id suffix request with Ok r => {[er_request_id r]} | Raise _ => ∅ end
  | Parallel _ _ _ suffix request => match assign_request_id suffix request with Ok r => {[child_id 0 (er_request_id r)]} | Raise _ => ∅ end
  | Child _ _ request idx => {[child_id idx (er_request_id request)]}
  | _ => ∅
  end.

(** Ids are new; a coroutine that adds samples has created their parent and
    collector; the output handler receives when it has nothing to do, and sends
    its aborts before it goes on; the core answers requests that it has. *)
Definition may_act (a : async_action) (w : async_world) : Prop :=
  let e := aw w in
  match a with
  | Single queue kind suffix request => ∀ request', assign_request_id suffix request = Ok request' →
      good request' ∧ op_queues (al_processor e) !! queue = None ∧ kind_of request' = kind ∧ (er_request_id request' ∉ aw_issued w)
  | Parallel p queue kind suffix request => ∀ request', assign_request_id suffix request = Ok request' →
      good request' ∧ op_queues (al_processor e) !! queue = None ∧ kind_of request' = kind ∧ (child_id 0 (er_request_id request') ∉ aw_issued w) ∧
      ∀ params, er_sampling_params request' = Some params → may_fan_out p request' params (al_processor e)
  | Child p queue request idx => ∃ params, er_sampling_params request = Some params ∧ good request ∧
      (child_id idx (er_request_id request) ∉ aw_issued w) ∧ taking_children p (er_request_id request) params (al_processor e) ∧
      (∃ q, op_queues (al_processor e) !! queue = Some q ∧ aggregate q = bool_decide (os_output_kind params = DELTA)) ∧
      ∀ id rs, live (al_processor e) id = Some rs → rs_queue rs = Some queue → rs_request_index rs ≠ idx
  | Read queue | Cancel queue => is_Some (op_queues (al_processor e) !! queue)
  | AbortIds ids internal => may_abort ids internal (al_processor e)
  | HandlerReceive => wr_outputs (al_client e) ≠ [] ∧ al_outputs e = [] ∧ al_reqs_to_abort e = []
  | HandlerChunk => al_reqs_to_abort e = []
  | HandlerAbort | Pause _ | Resume | CoreTake => True
  | CoreEmit outputs => Forall plain_output outputs ∧ ∀ o, o ∈ outputs → eo_request_id (pr_output o) ∈ wr_running (al_client e)
  end.

Definition act_async (a : async_action) (w : async_world) : async_world := mkAW (run_async a (aw w)).2 (issues a ∪ aw_issued w).
Definition async_init : async_world := mkAW (mkAsync OutputProcessor_init (mkWire [] ∅ []) false false [] []) ∅.
Inductive async_reachable : async_world → Prop :=
  | async_start : async_reachable async_init
  | async_step w a : async_reachable w → may_act a w → async_reachable (act_async a w).

(** ** The invariant *)

Lemma run_processor {A} (m : M processor A) s c p h os rs r s' : m s = (r, s') →
  al_processor_run m (mkAsync s c p h os rs) = (r, mkAsync s' c p h os rs).
Proof. intros Hm. unfold al_processor_run, zoom. cbn [al_processor]. by rewrite Hm. Qed.
Lemma run_client {A} (m : M Wire A) s c p h os rs r c' : m c = (r, c') →
  al_client_run m (mkAsync s c p h os rs) = (r, mkAsync s c' p h os rs).
Proof. intros Hm. unfold al_client_run, zoom. cbn [al_client]. by rewrite Hm. Qed.

(** The requests stay as they are, or leave the processor and the core
    together. *)
Lemma leave_together s c p p' h os rs issued issued' s' (ids : list string) : async_ok (mkAW (mkAsync s c p h os rs) issued) →
  op_inv ∅ ∅ s' → drained_ok s' → all_queued s' → issued ⊆ issued' → (∀ id, has_request s' id ↔ has_request s id ∧ id ∉ ids) →
  async_ok (mkAW (mkAsync s' (if decide (ids = []) then c else send (AbortMessage ids) c) p' h os rs) issued').
Proof.
  intros [A1 A2 A3 A4 A5 A6 A7 A8 [A9 A10] A11] Hi Hd Hq Hsub Hids. unfold settled, under_way in *. cbn [aw aw_issued al_processor al_client al_outputs al_reqs_to_abort al_handler_done] in *.
  set (c' := if decide (ids = []) then c else send (AbortMessage ids) c).
  assert (Hset : ∀ id, id ∈ take_all (wr_inputs c') (wr_running c') ↔ id ∈ take_all (wr_inputs c) (wr_running c) ∧ id ∉ ids).
  { intros id. unfold c'. destruct (decide (ids = [])) as [->|Hne]; [split; [intros ?; split; [done|apply not_elem_of_nil]|by intros [? _]]|].
    cbn [send wr_inputs wr_running]. rewrite take_all_app. cbn [take_message]. by rewrite elem_of_difference, elem_of_list_to_set. }
  assert (Hsame : wr_running c' = wr_running c ∧ wr_outputs c' = wr_outputs c ∧ adds (wr_inputs c') = adds (wr_inputs c)).
  { unfold c'. destruct (decide _); [done|]. cbn [send wr_inputs wr_running wr_outputs]. rewrite adds_app, app_nil_r. done. }
  destruct Hsame as (H1 & H2 & H3). clearbody c'.
  split; unfold settled, under_way; cbn [aw aw_issued al_processor al_client al_outputs al_reqs_to_abort al_handler_done]; rewrite ?H1, ?H2, ?H3 in *; try done.
  - intros id. rewrite elem_of_difference, Hset, Hids. intros [[Hx Hn] Hr]. split; [|done]. apply A6. by apply elem_of_difference.
  - intros id. rewrite elem_of_difference, Hset, Hids. intros [Hx Hn]. destruct (A7 id Hx) as [Hs|Hf]; [left|by right].
    apply elem_of_difference in Hs as [Hs Hr]. by split; [split|].
  - intros id Hf. rewrite elem_of_difference, Hset. intros [[Hx _] Hr]. apply (A8 id Hf). by apply elem_of_difference.
  - intros id Hx. apply Hsub. by apply A11.
Qed.

Lemma nothing_left issued s c p p' h os rs s' : async_ok (mkAW (mkAsync s c p h os rs) issued) →
  op_inv ∅ ∅ s' → drained_ok s' → all_queued s' → (∀ id, has_request s' id ↔ has_request s id) →
  async_ok (mkAW (mkAsync s' c p' h os rs) issued).
Proof.
  intros Ha Hi Hd Hq Hids. apply (leave_together s c p p' h os rs issued issued s' []) in Ha; try done.
  intros id. rewrite Hids. split; [intros ?; split; [done|apply not_elem_of_nil]|by intros [? _]].
Qed.

(** A new request enters the processor and is sent to the core. *)
Lemma enter_ok request rs parent_req s s0 s' c p h os rs_ issued : async_ok (mkAW (mkAsync s c p h os rs_) issued) → op_inv ∅ ∅ s' →
  request_states s0 = request_states s → added rs parent_req s0 s' → rs_request_id rs = er_request_id request → is_Some (rs_queue rs) →
  er_request_id request ∉ issued →
  async_ok (mkAW (mkAsync s' (send (AddMessage (er_request_id request)) c) p h os rs_) ({[er_request_id request]} ∪ issued)).
Proof.
  intros [A1 A2 A3 A4 A5 A6 A7 A8 [A9 A10] A11] Hi Hst Ha Hrid Hq Hnew. set (n := er_request_id request) in *.
  unfold settled, under_way in *. cbn [aw aw_issued al_processor al_client al_outputs al_reqs_to_abort al_handler_done] in *.
  assert (Hhas : ∀ id, has_request s' id ↔ has_request s id ∨ id = n).
  { intros id. rewrite (added_requests _ _ _ _ id Ha), Hrid. unfold has_request, live. by rewrite Hst. }
  assert (Hout : (n ∉ adds (wr_inputs c)) ∧ (n ∉ wr_running c) ∧ (n ∉ finished_ids (os ++ concat (wr_outputs c))) ∧ (n ∉ rs_)).
  { split; [|split; [|split]]; intros Hx; apply Hnew, A11; tauto. }
  destruct Hout as (O1 & O2 & O3 & O4).
  split; unfold settled, under_way; cbn [aw aw_issued al_processor al_client al_outputs al_reqs_to_abort al_handler_done send wr_inputs wr_running wr_outputs];
    rewrite ?take_all_app, ?adds_app; cbn [take_message]; try done.
  - by eapply added_drained.
  - intros id rx. unfold live. rewrite (an_states _ _ _ _ Ha), od_get_set, Hst. case_decide; [by intros [= <-]|apply A3].
  - intros id. rewrite Hhas, elem_of_difference, elem_of_union, elem_of_singleton. intros [[ -> |Hx] Hn]; [by right|left].
    apply A6. by apply elem_of_difference.
  - intros id. rewrite Hhas, elem_of_difference, elem_of_union, elem_of_singleton, elem_of_list_to_set. intros [Hx| -> ]; [|left; by split; [left|]].
    destruct (A7 id Hx) as [Hs|Hf]; [left|by right]. apply elem_of_difference in Hs as [Hs Hr]. rewrite elem_of_list_to_set in Hr. by split; [right|].
  - intros id Hf. rewrite elem_of_difference, elem_of_union, elem_of_singleton. intros [[ -> |Hx] Hr]; [done|]. apply (A8 id Hf). by apply elem_of_difference.
  - split.
    + apply NoDup_app. split; [done|]. split; [|apply NoDup_singleton]. intros x Hx ->%list_elem_of_singleton. done.
    + intros id [Hx|Hx]%elem_of_app; [by apply A10|]. by apply list_elem_of_singleton in Hx as ->.
  - intros id Hx. rewrite elem_of_union, elem_of_singleton. rewrite elem_of_app in Hx. destruct Hx as [[Hx|Hx]|Hx].
    + right. apply A11. by left.
    + left. by apply list_elem_of_singleton in Hx.
    + right. apply A11. tauto.
Qed.

Lemma issued_more w X : async_ok w → async_ok (mkAW (aw w) (X ∪ aw_issued w)).
Proof. intros []. split; try done. intros id Hx. apply elem_of_union. right. auto. Qed.

(** *** Adding *)

Lemma same_requests_ok issued s c p h os rs s' : async_ok (mkAW (mkAsync s c p h os rs) issued) → op_inv ∅ ∅ s' →
  request_states s' = request_states s → _requests_drained s' = _requests_drained s → async_ok (mkAW (mkAsync s' c p h os rs) issued).
Proof.
  intros He Hi Hst Hdr. pose proof He as [_ A2 A3 _ _ _ _ _ _ _]. eapply nothing_left; [exact He|done| | |].
  - unfold drained_ok in *. by rewrite Hdr, Hst.
  - intros id rx. unfold live. rewrite Hst. apply A3.
  - intros id. unfold has_request, live. by rewrite Hst.
Qed.

(** The requests of the processor have ids that have been given out. *)
Lemma request_issued s c p h os rs issued id : async_ok (mkAW (mkAsync s c p h os rs) issued) → has_request s id → id ∈ issued.
Proof.
  intros [_ _ _ _ _ _ A7 _ [_ _] A11] Hx. unfold settled, under_way in *. cbn [aw aw_issued al_processor al_client al_outputs al_reqs_to_abort] in *.
  apply A11. destruct (A7 id Hx) as [Hs|Hf]; [|tauto]. apply elem_of_difference in Hs as [Hs _].
  destruct (decide (id ∈ wr_running c)) as [|Hr]; [tauto|]. destruct (decide (id ∈ adds (wr_inputs c))) as [|Ha]; [tauto|].
  by apply (take_all_absent id _ _ Hr) in Ha.
Qed.

Lemma add_one_ok request queue s c p h os rs issued : async_ok (mkAW (mkAsync s c p h os rs) issued) → good request →
  er_request_id request ∉ issued →
  (∃ q, op_queues s !! queue = Some q ∧ aggregate q = bool_decide (kind_of request = DELTA)) →
  (∀ id rs, live s id = Some rs → rs_queue rs ≠ Some queue) →
  ∃ r e', al_add_one has_tokenizer new_detokenizer request None 0 queue (mkAsync s c p h os rs) = (r, e') ∧
    async_ok (mkAW e' ({[er_request_id request]} ∪ issued)).
Proof.
  intros He Hgood Hnew Hq Hno. pose proof He as [A1 _ _ _ _ _ _ _ _ _]. cbn [aw al_processor] in A1.
  assert (Hmay : may_add has_tokenizer new_detokenizer request None 0 (Some queue) s).
  { split; [done|done|]. intros q [= <-]. split; [done|]. intros id rx Hl Hrq. by destruct (Hno id rx Hl). }
  unfold al_add_one. destruct (op_add_request_ok has_tokenizer new_detokenizer 0 request None 0 (Some queue) s A1 Hmay)
    as [[x Hx]|(s' & rx & Hrun & Hi' & Ha & _ & _ & Hrq & _ & _ & Hrid)].
  - unfold bind. rewrite (run_processor _ _ c p h os rs _ _ Hx). eexists _, _. split; [reflexivity|]. exact (issued_more _ _ He).
  - rewrite (bind_ok _ _ _ _ _ (run_processor _ _ c p h os rs _ _ Hrun)).
    assert (Hc : al_client_run (client_add_request request) (mkAsync s' c p h os rs) = (Ok tt, mkAsync s' (send (AddMessage (er_request_id request)) c) p h os rs)) by done.
    rewrite Hc. eexists _, _. split; [reflexivity|]. eapply enter_ok; [exact He|done|reflexivity|exact Ha|done|by rewrite Hrq|done].
Qed.

Lemma add_child_action_ok pa queue request idx params s c p h os rs issued : async_ok (mkAW (mkAsync s c p h os rs) issued) → good request →
  er_sampling_params request = Some params → child_id idx (er_request_id request) ∉ issued →
  taking_children pa (er_request_id request) params s →
  (∃ q, op_queues s !! queue = Some q ∧ aggregate q = bool_decide (os_output_kind params = DELTA)) →
  (∀ id rs, live s id = Some rs → rs_queue rs = Some queue → rs_request_index rs ≠ idx) →
  ∃ r e', al_add_child has_tokenizer new_detokenizer pa queue request idx (mkAsync s c p h os rs) = (r, e') ∧
    async_ok (mkAW e' ({[child_id idx (er_request_id request)]} ∪ issued)).
Proof.
  intros He Hgood Hsp Hnew Htc Hq Hno. pose proof He as [A1 A2 A3 _ _ _ _ _ _ _]. cbn [aw al_processor] in A1, A2, A3.
  destruct (add_child_ok has_tokenizer new_detokenizer pa (er_request_id request) params idx request (Some queue) s A1 A2 Htc Hgood Hsp)
    as (r & s' & Hrun & Hi' & Hd' & _ & _ & Hr); [intros q [= <-]; by split|].
  unfold al_add_child, bind. rewrite (run_processor _ _ c p h os rs _ _ Hrun). destruct r as [request'|x].
  - destruct Hr as (Hrid & _ & s0 & rx & Hst & Ha & Hrx & Hrq & _).
    assert (Hc : al_client_run (client_add_request request') (mkAsync s' c p h os rs) = (Ok tt, mkAsync s' (send (AddMessage (er_request_id request')) c) p h os rs)) by done.
    rewrite Hc. eexists _, _. split; [reflexivity|]. rewrite <- Hrid.
    eapply enter_ok; [exact He|done|exact Hst|exact Ha|congruence|by rewrite Hrq|congruence].
  - eexists _, _. split; [reflexivity|]. apply (nothing_left _ s c p p h os rs s') in He; [exact (issued_more _ _ He)|done|done| |].
    + intros id rx. unfold live. rewrite Hr. apply A3.
    + intros id. unfold has_request, live. by rewrite Hr.
Qed.

Lemma create_queue_ok queue kind id s c p h os rs issued : async_ok (mkAW (mkAsync s c p h os rs) issued) → op_queues s !! queue = None →
  ∃ s', al_create_queue queue kind id (mkAsync s c p h os rs) = (Ok tt, mkAsync s' c p h os rs) ∧ async_ok (mkAW (mkAsync s' c p h os rs) issued) ∧
    op_queues s' = <[queue := RequestOutputCollector_new kind id]> (op_queues s) ∧ (∀ x rx, live s' x = Some rx → rs_queue rx ≠ Some queue) ∧
    op_parents s' = op_parents s ∧ parent_requests s' = parent_requests s ∧ request_states s' = request_states s.
Proof.
  intros He Hq. pose proof He as [A1 _ _ _ _ _ _ _ _ _]. cbn [aw al_processor] in A1. eexists. split; [reflexivity|].
  split; [|split; [done|split; [|done]]].
  - eapply same_requests_ok; [exact He|by apply new_queue_ok|done|done].
  - intros x rx Hl Hrq. destruct (oi_queue _ _ _ A1 x rx queue Hl Hrq) as (q & Hc & _). congruence.
Qed.

Lemma prepare_ok suffix request e : al_handler_done e = false →
  al_prepare (C := Wire) suffix request e = (assign_request_id suffix request, e).
Proof. intros Hh. unfold al_prepare. unfold bind. cbn [get]. unfold errored. cbn. rewrite Hh. by destruct (assign_request_id suffix request). Qed.

Lemma single_ok queue kind suffix request w : async_ok w → may_act (Single queue kind suffix request) w →
  ∃ r e', run_async (Single queue kind suffix request) (aw w) = (r, e') ∧ async_ok (mkAW e' (issues (Single queue kind suffix request) ∪ aw_issued w)).
Proof.
  intros Hw Hmay. destruct w as [[s c p h os rs] issued]. cbn [run_async aw aw_issued issues may_act al_processor] in *.
  pose proof (ao_alive _ Hw) as Hh. unfold bind at 1. rewrite (prepare_ok suffix request (mkAsync s c p h os rs) Hh).
  destruct (assign_request_id suffix request) as [request'|x]; [|eexists _, _; split; [reflexivity|exact (issued_more _ _ Hw)]].
  destruct (Hmay request' eq_refl) as (Hgood & Hq & Hkind & Hnew). unfold al_add_single. rewrite bind_assoc. unfold bind at 1. cbn [get _paused].
  destruct p; [eexists _, _; split; [reflexivity|exact (issued_more _ _ Hw)]|].
  destruct (create_queue_ok queue kind (er_request_id request') s c false h os rs issued Hw Hq) as (s1 & Hrun & Hw1 & Hqs & Hno & _).
  rewrite bind_assoc. rewrite (bind_ok _ _ _ _ _ Hrun), bind_assoc.
  destruct (add_one_ok request' queue s1 c false h os rs issued Hw1 Hgood Hnew) as (r & e' & Hadd & Hw2); [|done|].
  { eexists. rewrite Hqs, lookup_insert_eq. split; [done|]. cbn. by rewrite Hkind. }
  unfold bind at 1. rewrite Hadd. destruct r; by eexists _, _.
Qed.

Lemma parallel_ok pa queue kind suffix request w : async_ok w → may_act (Parallel pa queue kind suffix request) w →
  ∃ r e', run_async (Parallel pa queue kind suffix request) (aw w) = (r, e') ∧
    async_ok (mkAW e' (issues (Parallel pa queue kind suffix request) ∪ aw_issued w)).
Proof.
  intros Hw Hmay. destruct w as [[s c p h os rs] issued]. cbn [run_async aw aw_issued issues may_act al_processor] in *.
  pose proof (ao_alive _ Hw) as Hh. unfold bind at 1. rewrite (prepare_ok suffix request (mkAsync s c p h os rs) Hh).
  destruct (assign_request_id suffix request) as [request'|x] eqn:Has; [|eexists _, _; split; [reflexivity|exact (issued_more _ _ Hw)]].
  destruct (Hmay request' eq_refl) as (Hgood & Hq & Hkind & Hnew & Hfan). pose proof Hgood as (params & Hsp & _). rewrite Hsp.
  destruct (Hfan params Hsp) as (F1 & F2 & F3 & F4 & F5).
  unfold al_add_parallel. rewrite bind_assoc. unfold bind at 1. cbn [get _paused].
  destruct p; [eexists _, _; split; [reflexivity|exact (issued_more _ _ Hw)]|].
  destruct (create_queue_ok queue kind (er_request_id request') s c false h os rs issued Hw Hq) as (s1 & Hrun & Hw1 & Hqs & Hno & Hps & Hprs & Hst1).
  rewrite bind_assoc. rewrite (bind_ok _ _ _ _ _ Hrun), bind_assoc.
  assert (Hext : is_Some (er_external_req_id request')).
  { unfold assign_request_id in Has. destruct (er_external_req_id request); [done|]. injection Has as <-. by eexists. }
  rewrite <- Hps in F1, F4, F5. rewrite <- Hprs in F3.
  destruct (create_parent_ok pa request' params s1 (ao_inv _ Hw1) F1 Hext F2 F3 F4 F5) as (s2 & Hpar & Hi2 & Htc & Hst & Hqs2 & Hdr).
  rewrite (bind_ok _ _ _ _ _ (run_processor _ _ c false h os rs _ _ Hpar)), bind_assoc.
  assert (Hw2 : async_ok (mkAW (mkAsync s2 c false h os rs) issued)) by (by eapply same_requests_ok).
  destruct (decide (0 < os_n params)) as [Hn|Hn].
  - destruct (add_child_action_ok pa queue request' 0 params s2 c false h os rs issued Hw2 Hgood Hsp Hnew Htc) as (r & e' & Hadd & Hw3).
    + eexists. rewrite Hqs2, Hqs, lookup_insert_eq. split; [done|]. cbn. rewrite <- Hkind. unfold kind_of. by rewrite Hsp.
    + intros x rx Hl Hrq. destruct (Hno x rx); [|done]. unfold live in *. by rewrite <- Hst.
    + unfold bind at 1. rewrite Hadd. destruct r; by eexists _, _.
  - rewrite bind_ret_l. eexists _, _. split; [reflexivity|]. exact (issued_more _ _ Hw2).
Qed.

(** *** Reading *)

Lemma read_ok queue w : async_ok w → is_Some (op_queues (al_processor (aw w)) !! queue) →
  ∃ r e', generate_step stream_interval id_order queue (aw w) = (Ok r, e') ∧ async_ok (mkAW e' (aw_issued w)).
Proof.
  intros Hw [q Hq]. destruct w as [[s c p h os rs] issued]. cbn [aw aw_issued al_processor] in *. pose proof (ao_inv _ Hw) as Hi. cbn in Hi.
  pose proof (oi_collectors _ _ _ Hi queue q Hq) as Hok. destruct (get_nowait_ok q Hok) as [Hget Hok'].
  set (s' := set_op_queues (<[queue := set_output None false q]> (op_queues s)) s).
  assert (Hon : on_collector queue get_nowait s = (Ok (qu_output q), s')) by (unfold on_collector; by rewrite Hq, Hget).
  assert (Hw' : async_ok (mkAW (mkAsync s' c p h os rs) issued)).
  { eapply same_requests_ok; [exact Hw| |done|done]. by eapply set_queue_inv. }
  assert (Hrun : ∃ r, generate_receive queue (mkAsync s c p h os rs) = (Ok r, mkAsync s' c p h os rs)).
  { unfold generate_receive. rewrite (bind_ok _ _ _ _ _ (run_processor _ _ c p h os rs _ _ Hon)). destruct Hok as [_ Hown].
    destruct (qu_output q) as [it|] eqn:Ho.
    - rewrite bind_ret_l. destruct (Hown it eq_refl) as (o & l & -> & _). by eexists.
    - assert (Hon2 : on_collector queue collector_get s' = (Ok None, s')).
      { unfold on_collector, s'. cbn [op_queues set_op_queues]. rewrite lookup_insert_eq. unfold collector_get, bind. cbn.
        by rewrite insert_insert_eq. }
      rewrite (bind_ok _ _ _ _ _ (run_processor _ _ c p h os rs _ _ Hon2)). by eexists. }
  destruct Hrun as [r Hrun]. unfold generate_step. rewrite Hrun. by eexists _, _.
Qed.

(** *** The output handler *)

Lemma handler_try_ok (m : M async unit) e e' : m e = (Ok tt, e') → handler_try m e = (Ok tt, e').
Proof. unfold handler_try. by intros ->. Qed.

Lemma receive_ok w : async_ok w → may_act HandlerReceive w → ∃ e', handler_receive (aw w) = (Ok tt, e') ∧ async_ok (mkAW e' (aw_issued w)).
Proof.
  intros Hw (Hne & Hos & Hrs). destruct w as [[s c p h os rs] issued]. cbn [aw aw_issued al_client al_outputs al_reqs_to_abort] in *. subst os rs.
  destruct c as [ins running outs]. cbn [wr_outputs] in Hne. destruct outs as [|b outs]; [done|].
  eexists. split; [by apply handler_try_ok|]. cbn in Hw. destruct Hw as [A1 A2 A3 A4 A5 A6 A7 A8 A9 A10].
  split; try done.
Qed.

Lemma chunk_ok w : async_ok w → may_act HandlerChunk w → ∃ e', handler_chunk decode stream_interval chunk_size (aw w) = (Ok tt, e') ∧
  async_ok (mkAW e' (aw_issued w)).
Proof.
  intros Hw Hrs. destruct w as [[s c p h os rs] issued]. cbn [aw aw_issued may_act al_reqs_to_abort] in *. subst rs.
  destruct Hw as [A1 A2 A3 A4 A5 A6 A7 A8 A9 A10]. unfold settled, under_way in *.
  cbn [aw aw_issued al_processor al_client al_outputs al_reqs_to_abort al_handler_done] in *. set (n := Z.to_nat chunk_size).
  assert (Hsplit : os ++ concat (wr_outputs c) = take n os ++ (drop n os ++ concat (wr_outputs c))) by (by rewrite app_assoc, take_drop).
  rewrite Hsplit in A5, A7, A8, A10. apply Forall_app in A5 as [Hplain Hplain'].
  destruct (process_outputs_ok stream_interval decode (take n os) s A1 A2 Hplain) as (r & s' & Hrun & [P1 P2 P3 P4 P5 P6 _ P7]).
  destruct (P7 A3) as [Hout Hq]. set (e' := mkAsync s' c p h (drop n os) (reqs_to_abort r)). exists e'. split.
  - apply handler_try_ok. unfold bind at 1. cbn [get al_outputs]. fold n. rewrite bind_modify. cbn [set_al_outputs al_processor al_client _paused al_handler_done al_reqs_to_abort].
    rewrite (bind_ok _ _ _ _ _ (run_processor _ _ c p h (drop n os) [] _ _ Hrun)). rewrite Hout, bool_decide_eq_true_2 by done. done.
  - assert (Hset : ∀ id, id ∈ take_all (wr_inputs c) (wr_running c) ∖ list_to_set (reqs_to_abort r) ↔
      id ∈ take_all (wr_inputs c) (wr_running c) ∖ list_to_set [] ∧ id ∉ reqs_to_abort r).
    { intros id. rewrite !elem_of_difference, !elem_of_list_to_set. split; [intros [? ?]; split; [split; [done|apply not_elem_of_nil]|done]|by intros [[? _] ?]]. }
    assert (Hf : ∀ id, id ∈ finished_ids (take n os ++ drop n os ++ concat (wr_outputs c)) ↔
      id ∈ finished_ids (take n os) ∨ id ∈ finished_ids (drop n os ++ concat (wr_outputs c))).
    { intros id. by rewrite finished_ids_app, elem_of_app. }
    split; unfold settled, under_way; cbn [aw aw_issued al_processor al_client al_outputs al_reqs_to_abort al_handler_done e']; try done.
    + intros id [Hs Hr]%Hset. destruct (decide (id ∈ od_keys (request_states s'))) as [Hk|Hk]; [by apply has_request_keys|].
      rewrite <- has_request_keys in Hk. destruct (P5 id (A6 id Hs) Hk) as [|Hfin]; [done|]. destruct (A8 id); [apply Hf; by left|done].
    + intros id Hx. destruct (A7 id (P3 id Hx)) as [Hs|[Hfin|Hfin]%Hf]; [left|by destruct (P6 id Hfin)|by right].
      apply Hset. split; [done|]. intros Hr. by destruct (P4 id Hr).
    + intros id Hfin [Hs _]%Hset. apply (A8 id); [apply Hf; by right|done].
    + intros id Hx. destruct Hx as [Hx|[Hx|[Hx|Hx]]].
      * apply A10. by left.
      * apply A10. by right; left.
      * apply A10. right. right. left. apply Hf. by right.
      * destruct (P4 id Hx) as [H1 _]. destruct (A7 id H1) as [Hs|Hfin]; [|apply A10; tauto]. apply elem_of_difference in Hs as [Hs _].
        destruct (decide (id ∈ wr_running c)) as [|Hr]; [apply A10; tauto|]. destruct (decide (id ∈ adds (wr_inputs c))) as [|Hadd]; [apply A10; tauto|].
        by apply (take_all_absent id _ _ Hr) in Hadd.
Qed.

Lemma handler_abort_ok w : async_ok w → ∃ e', handler_abort (aw w) = (Ok tt, e') ∧ async_ok (mkAW e' (aw_issued w)).
Proof.
  intros Hw. destruct w as [[s c p h os rs] issued]. cbn [aw aw_issued] in *. destruct (decide (rs = [])) as [->|Hne].
  { eexists. split; [by apply handler_try_ok|done]. }
  exists (mkAsync s (send (AbortMessage rs) c) p h os []). split.
  { apply handler_try_ok. unfold bind at 1. cbn [get al_reqs_to_abort]. rewrite decide_False by done. rewrite bind_modify.
    apply run_client. cbn [client_abort_requests wire_client]. by rewrite decide_False. }
  destruct Hw as [A1 A2 A3 A4 A5 A6 A7 A8 [A9 A10] A11]. unfold settled, under_way in *.
  cbn [aw aw_issued al_processor al_client al_outputs al_reqs_to_abort al_handler_done] in *.
  assert (Hset : take_all (wr_inputs c ++ [AbortMessage rs]) (wr_running c) ∖ list_to_set [] = take_all (wr_inputs c) (wr_running c) ∖ list_to_set rs).
  { rewrite take_all_app. cbn [take_message]. set_solver. }
  split; unfold settled, under_way; cbn [aw aw_issued al_processor al_client al_outputs al_reqs_to_abort al_handler_done send wr_inputs wr_running wr_outputs];
    rewrite ?Hset, ?adds_app, ?app_nil_r; try done.
  intros id Hx. apply A11. destruct Hx as [|[|[|Hx]]]; [tauto..|]. by apply elem_of_nil in Hx.
Qed.

(** *** The core *)

Lemma take_ok w : async_ok w → ∃ e', run_async CoreTake (aw w) = (Ok tt, e') ∧ async_ok (mkAW e' (aw_issued w)).
Proof.
  intros Hw. destruct w as [[s [ins running outs] p h os rs] issued]. cbn [aw aw_issued] in *. destruct ins as [|m ins]; [by eexists|].
  eexists. split; [reflexivity|]. destruct Hw as [A1 A2 A3 A4 A5 A6 A7 A8 [A9 A10] A11].
  unfold settled, under_way in *. cbn [aw aw_issued al_processor al_client al_outputs al_reqs_to_abort al_handler_done wr_inputs wr_running wr_outputs] in *.
  split; try done; unfold settled, under_way; cbn [aw aw_issued al_processor al_client al_outputs al_reqs_to_abort al_handler_done wr_inputs wr_running wr_outputs].
  - destruct m as [x|ids]; cbn [adds omap list_omap take_message] in *; fold (adds ins) in *.
    + apply NoDup_cons in A9 as [Hx Hnd]. split; [done|]. intros id Hid. rewrite elem_of_union, elem_of_singleton. intros [->|Hr]; [done|].
      apply (A10 id); [by right|done].
    + split; [done|]. intros id Hid. rewrite elem_of_difference. intros [Hr _]. by apply (A10 id).
  - intros id Hx. apply A11. destruct m as [x|ids]; cbn [adds omap list_omap take_message] in *; fold (adds ins) in *.
    + rewrite elem_of_cons. rewrite elem_of_union, elem_of_singleton in Hx. tauto.
    + rewrite elem_of_difference in Hx. tauto.
Qed.

Lemma emit_batch_ok outputs w : async_ok w → may_act (CoreEmit outputs) w → ∃ e', run_async (CoreEmit outputs) (aw w) = (Ok tt, e') ∧
  async_ok (mkAW e' (aw_issued w)).
Proof.
  intros Hw [Hplain Hin]. destruct w as [[s [ins running outs] p h os rs] issued]. cbn [aw aw_issued al_client wr_running] in *.
  eexists. split; [reflexivity|]. destruct Hw as [A1 A2 A3 A4 A5 A6 A7 A8 [A9 A10] A11].
  unfold settled, under_way in *. cbn [aw aw_issued al_processor al_client al_outputs al_reqs_to_abort al_handler_done wr_inputs wr_running wr_outputs] in *.
  set (X := list_to_set (finished_ids outputs) : gset string).
  assert (Hrun : ∀ id, id ∈ finished_ids outputs → id ∈ running).
  { intros id (x & Hx & <- & _)%elem_of_ended. apply list_elem_of_In, in_map_iff in Hx as (o & <- & Ho). by apply Hin, list_elem_of_In. }
  assert (Hset : ∀ id, id ∈ take_all ins (running ∖ X) ↔ id ∈ take_all ins running ∧ id ∉ finished_ids outputs).
  { intros id. destruct (decide (id ∈ finished_ids outputs)) as [Hid|Hid].
    - split; [|by intros [_ ?]]. intros Hx. exfalso. revert Hx. apply take_all_absent.
      + unfold X. rewrite elem_of_difference, elem_of_list_to_set. by intros [_ ?].
      + intros Ha. by apply (A10 id Ha), Hrun.
    - rewrite (take_all_pointwise id ins (running ∖ X) running); [tauto|]. unfold X. rewrite elem_of_difference, elem_of_list_to_set. tauto. }
  assert (Hf : ∀ id, id ∈ finished_ids (os ++ concat (outs ++ [outputs])) ↔ id ∈ finished_ids (os ++ concat outs) ∨ id ∈ finished_ids outputs).
  { intros id. rewrite concat_app. cbn [concat]. by rewrite app_nil_r, app_assoc, finished_ids_app, elem_of_app. }
  split; unfold settled, under_way; cbn [aw aw_issued al_processor al_client al_outputs al_reqs_to_abort al_handler_done wr_inputs wr_running wr_outputs]; try done.
  - rewrite concat_app. cbn [concat]. rewrite app_nil_r, app_assoc. by apply Forall_app.
  - intros id. rewrite elem_of_difference, Hset. intros [[Hx _] Hr]. apply A6. by apply elem_of_difference.
  - intros id Hx. rewrite Hf. destruct (A7 id Hx) as [Hs|Hfin]; [|tauto]. destruct (decide (id ∈ finished_ids outputs)) as [|Hno]; [tauto|left].
    apply elem_of_difference in Hs as [Hs Hr]. apply elem_of_difference. by rewrite Hset.
  - intros id. rewrite elem_of_difference, Hset. intros [Hfin|Hfin]%Hf [[Hx Hn] Hr]; [|done]. apply (A8 id Hfin). by apply elem_of_difference.
  - split; [done|]. intros id Ha. rewrite elem_of_difference. intros [Hr _]. by apply (A10 id).
  - intros id Hx. apply A11. rewrite Hf, elem_of_difference in Hx. destruct Hx as [|[[Hx _]|[[|Hx]|]]]; try tauto. right. left. by apply Hrun.
Qed.

(** *** Aborting *)

Section actions.
Context (id_order_perm : ∀ X, id_order X ≡ₚ elements X).

Lemma abort_action_ok ids internal e issued : async_ok (mkAW e issued) → may_abort ids internal (al_processor e) →
  ∃ e', al_abort stream_interval id_order ids internal e = (Ok tt, e') ∧ async_ok (mkAW e' issued) ∧ _paused e' = _paused e ∧
    (internal = true → NoDup ids → (∀ id, id ∈ ids → has_request (al_processor e) id) → ∀ id, id ∈ ids → ¬ has_request (al_processor e') id) ∧
    ∀ id, has_request (al_processor e') id → has_request (al_processor e) id.
Proof using id_order_perm.
  intros He Hmay. pose proof He as [A1 A2 A3 _ _ _ _ _ _ _]. cbn [aw] in *. destruct e as [s c p h os rs]. cbn [al_processor] in *.
  destruct (op_abort_ok stream_interval id_order id_order_perm ids internal s A1 A2 Hmay) as (F & s' & Hrun & (Hi' & Hd' & Hab) & Hin).
  unfold al_abort. rewrite (bind_ok _ _ _ _ _ (run_processor _ _ c p h os rs _ _ Hrun)).
  pose proof (λ id, aborted_requests stream_interval F s s' id Hab) as Hx.
  assert (Hc : al_client_run (client_abort_requests (map fst F)) (mkAsync s' c p h os rs) =
    (Ok tt, mkAsync s' (if decide (map fst F = []) then c else send (AbortMessage (map fst F)) c) p h os rs)).
  { apply run_client. cbn [client_abort_requests wire_client]. by destruct (decide _). }
  rewrite Hc. eexists. split; [reflexivity|]. split; [|split; [done|split]].
  - eapply leave_together; [exact He|done|done|by eapply aborted_queued|done|exact Hx].
  - intros Hint Hnd Hall id Hid. cbn [al_processor]. rewrite Hx. intros [_ Hn]. by apply Hn, Hin.
  - intros id. cbn [al_processor]. rewrite Hx. by intros [? _].
Qed.

Lemma pause_ok wait e issued : async_ok (mkAW e issued) →
  ∃ b e', pause_begin stream_interval id_order wait e = (Ok b, e') ∧ async_ok (mkAW e' issued) ∧
    (wait = false → _paused e = false → ∀ id, ¬ has_request (al_processor e') id).
Proof using id_order_perm.
  intros He. unfold pause_begin. unfold bind at 1. cbn [get]. destruct (_paused e) eqn:Hp; [by eexists _, e|].
  rewrite bind_modify. pose proof He as [A1 A2 A3 A4 A5 A6 A7 A8 A9 A10]. cbn [aw aw_issued] in *.
  assert (He1 : async_ok (mkAW (set_paused true e) issued)) by (destruct e; by split).
  destruct wait; [by eexists _, _|]. cbn [al_processor set_paused].
  pose proof (λ id, has_request_keys (al_processor e) id) as Hk.
  destruct (decide (od_keys (request_states (al_processor e)) = [])) as [Hn|Hn].
  - eexists _, _. split; [reflexivity|]. split; [done|]. intros _ _ id. cbn [al_processor set_paused]. rewrite Hk, Hn. apply not_elem_of_nil.
  - destruct (abort_action_ok (od_keys (request_states (al_processor e))) true (set_paused true e) issued He1) as (e' & Hrun & He' & _ & Hin & Hsub).
    { right. left. split; [apply (oi_nodup _ _ _ A1)|]. intros id Hid. by apply Hk in Hid. }
    rewrite (bind_ok _ _ _ _ _ Hrun). eexists _, e'. split; [reflexivity|]. split; [done|]. intros _ _ id Hx.
    apply (Hin eq_refl) with id; [apply (oi_nodup _ _ _ A1)|by intros x Hx'; apply Hk| |done]. apply Hk. by apply Hsub.
Qed.

Lemma cancel_ok queue w : async_ok w → is_Some (op_queues (al_processor (aw w)) !! queue) →
  ∃ e', generate_cancelled stream_interval id_order queue (aw w) = (Ok tt, e') ∧ async_ok (mkAW e' (aw_issued w)).
Proof using id_order_perm.
  intros Hw [q Hq]. destruct w as [[s c p h os rs] issued]. cbn [aw aw_issued al_processor] in *. unfold generate_cancelled.
  assert (Hon : on_collector queue (gets qu_request_id) s = (Ok (qu_request_id q), s)).
  { unfold on_collector. rewrite Hq. cbn [gets]. rewrite insert_id by done. by destruct s. }
  rewrite (bind_ok _ _ _ _ _ (run_processor _ _ c p h os rs _ _ Hon)).
  destruct (abort_action_ok [qu_request_id q] true _ issued Hw) as (e' & Hrun & He' & _); [right; right; by eexists|]. by exists e'.
Qed.

(** Which actions may raise: those that add requests. *)
Definition is_addition (a : async_action) : Prop :=
  match a with Single _ _ _ _ | Parallel _ _ _ _ _ | Child _ _ _ _ => True | _ => False end.

Lemma async_action_ok a w : async_ok w → may_act a w →
  ∃ r e', run_async a (aw w) = (r, e') ∧ async_ok (mkAW e' (issues a ∪ aw_issued w)) ∧ (is_addition a ∨ r = Ok tt) ∧
    (a = Pause false → _paused (aw w) = false → ∀ id, ¬ has_request (al_processor e') id).
Proof using id_order_perm.
  intros Hw Hmay. destruct a as [queue kind suffix request|pa queue kind suffix request|pa queue request idx|queue|queue|ids internal| | | |wait| | |outputs].
  - destruct (single_ok queue kind suffix request w Hw Hmay) as (r & e' & Hrun & He'). exists r, e'. repeat (split; [done|]). by split; [left|].
  - destruct (parallel_ok pa queue kind suffix request w Hw Hmay) as (r & e' & Hrun & He'). exists r, e'. repeat (split; [done|]). by split; [left|].
  - destruct Hmay as (params & Hsp & Hgood & Hnew & Htc & Hq & Hno). destruct w as [[s c p h os rs] issued].
    destruct (add_child_action_ok pa queue request idx params s c p h os rs issued Hw Hgood Hsp Hnew Htc Hq Hno) as (r & e' & Hrun & He').
    exists r, e'. repeat (split; [done|]). by split; [left|].
  - destruct (read_ok queue w Hw Hmay) as (r & e' & Hrun & He'). cbn [run_async]. rewrite (bind_ok _ _ _ _ _ Hrun).
    eexists _, _. split; [reflexivity|]. split; [exact (issued_more _ _ He')|]. by split; [right|].
  - destruct (cancel_ok queue w Hw Hmay) as (e' & Hrun & He'). exists (Ok tt), e'. split; [done|]. split; [exact (issued_more _ _ He')|]. by split; [right|].
  - destruct w as [e issued]. destruct (abort_action_ok ids internal e issued Hw Hmay) as (e' & Hrun & He' & _).
    exists (Ok tt), e'. split; [done|]. split; [exact (issued_more _ _ He')|]. by split; [right|].
  - destruct (receive_ok w Hw Hmay) as (e' & Hrun & He'). exists (Ok tt), e'. split; [done|]. split; [exact (issued_more _ _ He')|]. by split; [right|].
  - destruct (chunk_ok w Hw Hmay) as (e' & Hrun & He'). exists (Ok tt), e'. split; [done|]. split; [exact (issued_more _ _ He')|]. by split; [right|].
  - destruct (handler_abort_ok w Hw) as (e' & Hrun & He'). exists (Ok tt), e'. split; [done|]. split; [exact (issued_more _ _ He')|]. by split; [right|].
  - destruct w as [e issued]. destruct (pause_ok wait e issued Hw) as (b & e' & Hrun & He' & Hp). cbn [run_async aw] in *.
    rewrite (bind_ok _ _ _ _ _ Hrun). exists (Ok tt), e'. split; [done|]. split; [exact (issued_more _ _ He')|]. split; [by right|].
    intros [= ->]. by apply Hp.
  - exists (Ok tt), (set_paused false (aw w)). split; [done|]. split; [|by split; [right|]].
    assert (Hw' : async_ok (mkAW (set_paused false (aw w)) (aw_issued w))) by (destruct w as [[s c p h os rs] issued]; destruct Hw; by split).
    exact (issued_more _ _ Hw').
  - destruct (take_ok w Hw) as (e' & Hrun & He'). exists (Ok tt), e'. split; [done|]. split; [exact (issued_more _ _ He')|]. by split; [right|].
  - destruct (emit_batch_ok outputs w Hw Hmay) as (e' & Hrun & He'). exists (Ok tt), e'. split; [done|]. split; [exact (issued_more _ _ He')|].
    by split; [right|].
Qed.

Lemma async_init_ok : async_ok async_init.
Proof.
  split; cbn; try done; [apply init_processor_inv|..]; unfold settled, under_way; cbn.
  - intros id [? ?]. done.
  - split; [constructor|]. intros id Hx. by apply elem_of_nil in Hx.
  - intros id [Hx|[Hx|[Hx|Hx]]]; try (by apply elem_of_nil in Hx). by apply elem_of_empty in Hx.
Qed.
Lemma async_reachable_ok w : async_reachable w → async_ok w.
Proof using id_order_perm.
  induction 1 as [|w a _ IH Hmay]; [apply async_init_ok|]. destruct (async_action_ok a w IH Hmay) as (r & e' & Hrun & He' & _).
  unfold act_async. by rewrite Hrun.
Qed.

(** C5. For requests that generate text with a working detokenizer, under new ids,
    parallel samples that are not final only, aborts by external ids, of one id
    or of distinct live ids, and a core that answers requests it has with tokens only (no pooling, no log
    probabilities), all of this in [may_act]: however clients, the output
    handler and the engine core interleave at their awaits, every request that
    the core has, or will have when it has taken all messages under way, is in
    the output processor, and a request of the processor is one of those or its
    last output is under way; so when no message is under way both have the same
    requests.  Nothing but the addition of a request raises, the output handler
    does not die, and a first pause that does not wait leaves no request behind
    in the processor at that moment. *)
Theorem async_requests_agree w : async_reachable w →
  (∀ id, id ∈ settled (aw w) → is_Some (live (al_processor (aw w)) id)) ∧
  (∀ id, is_Some (live (al_processor (aw w)) id) → id ∈ settled (aw w) ∨ id ∈ finished_ids (under_way (aw w))) ∧
  (quiet_wire (aw w) → ∀ id, is_Some (live (al_processor (aw w)) id) ↔ id ∈ wr_running (al_client (aw w))) ∧
  al_handler_done (aw w) = false ∧
  ∀ a, may_act a w → ∃ r e', run_async a (aw w) = (r, e') ∧ (is_addition a ∨ r = Ok tt) ∧
    (a = Pause false → _paused (aw w) = false → drained e' = true ∧ ∀ id, live (al_processor e') id = None).
Proof using id_order_perm.
  intros Hr. pose proof (async_reachable_ok w Hr) as Hw. pose proof Hw as [_ _ _ A4 _ A6 A7 _ _ _].
  split; [done|]. split; [done|]. split; [|split; [done|]].
  - intros (Q1 & Q2 & Q3 & Q4) id. specialize (A6 id). specialize (A7 id). unfold settled, under_way in *. rewrite Q1, Q2, Q3, Q4 in *. cbn in *.
    split.
    + intros Hx. destruct (A7 Hx) as [Hs|Hf]; [|by apply elem_of_nil in Hf]. by apply elem_of_difference in Hs as [Hs _].
    + intros Hx. apply A6. set_solver.
  - intros a Hmay. destruct (async_action_ok a w Hw Hmay) as (r & e' & Hrun & _ & Ho & Hp). exists r, e'. split; [done|]. split; [done|].
    intros Ha Hpa. specialize (Hp Ha Hpa). assert (Hnone : ∀ id, live (al_processor e') id = None).
    { intros id. destruct (live (al_processor e') id) eqn:Hl; [|done]. destruct (Hp id). by eexists. }
    split; [|done]. unfold drained, op_has_unfinished_requests. destruct (request_states (al_processor e')) as [|[x rx] l] eqn:Hst; [done|].
    specialize (Hnone x). unfold live in Hnone. rewrite Hst in Hnone. cbn in Hnone. by rewrite decide_True in Hnone.
Qed.
End actions.
End async.

(** ** An example *)

#[local] Existing Instances char_decoder char_total.

Abbreviation sample_act := (act_async true char_detokenizer (λ _, None) 1 (elements : gset string → list string) 128).
Abbreviation sample_reach := (async_reachable true char_detokenizer (λ _, None) 1 (elements : gset string → list string) 128).
Definition assigned (id suffix : string) (n : Z) : EngineCoreRequest :=
  mkEngineRequest (id +:+ "-" +:+ suffix)%string (Some id) (Some [1]) None (Some (with_child n None example_params)) None example_core_params.
Definition sample_world (l : list async_action) : async_world (D := unit) := foldl (λ w a, sample_act a w) async_init l.

Lemma sample_world_snoc l a : sample_reach (sample_world l) → may_act true char_detokenizer a (sample_world l) → sample_reach (sample_world (l ++ [a])).
Proof. intros Hr Ha. unfold sample_world. rewrite foldl_app. by apply async_step. Qed.

(** A request and two parallel samples; the second sample is added when the core
    has the others. *)
Definition two_requests : list async_action :=
  [Single 5 DELTA "x" (sample_request "r" 1); Parallel 7 6 DELTA "y" (sample_request "p" 2); CoreTake; CoreTake].
Lemma two_requests_reachable : sample_reach (sample_world two_requests).
Proof.
  assert (H1 : sample_reach (sample_world [Single 5 DELTA "x" (sample_request "r" 1)])).
  { apply (sample_world_snoc []); [constructor|]. intros request' [= <-]. split; [apply sample_good|]. split; [reflexivity|]. split; [reflexivity|].
    apply not_elem_of_empty. }
  assert (H2 := sample_world_snoc _ (Parallel 7 6 DELTA "y" (sample_request "p" 2)) H1).
  assert (H3 : sample_reach (sample_world ([Single 5 DELTA "x" (sample_request "r" 1)] ++ [Parallel 7 6 DELTA "y" (sample_request "p" 2)]))).
  { apply H2. intros request' [= <-]. split; [apply sample_good|]. split; [vm_compute; reflexivity|]. split; [reflexivity|]. split; [vm_compute; by intros ?|].
    intros params [= <-]. split; [vm_compute; reflexivity|]. split; [done|]. split; [vm_compute; reflexivity|].
    split; intros *; intros Hp; vm_compute in Hp; done. }
  apply (sample_world_snoc _ CoreTake) in H3; [|exact I]. by apply (sample_world_snoc _ CoreTake) in H3.
Qed.

Definition second_sample : async_action := Child 7 6 (assigned "p" "y" 2) 1.
Lemma second_sample_allowed l : (∃ parent, op_parents (al_processor (aw (sample_world l))) = {[7 := parent]} ∧ pa_request_id parent = "p-y" ∧
    pa_sampling_params parent = with_child 2 None example_params ∧ cached_child_sampling_params parent = Some (with_child 1 None example_params)) →
  (parent_requests (al_processor (aw (sample_world l))) !! "p-y" = None ∨ parent_requests (al_processor (aw (sample_world l))) !! "p-y" = Some 7) →
  child_id 1 "p-y" ∉ aw_issued (sample_world l) →
  (∃ q, op_queues (al_processor (aw (sample_world l))) !! 6 = Some q ∧ aggregate q = true) →
  forallb (λ p, negb (rs_request_index p.2 =? 1)) (request_states (al_processor (aw (sample_world l)))) = true →
  may_act true char_detokenizer second_sample (sample_world l).
Proof.
  intros (parent & Hps & Hid & Hsp & Hc) Hreg Hnew Hq Hidx. exists (with_child 2 None example_params). split; [done|]. split; [apply sample_good|].
  split; [done|]. split; [|split; [done|]]. split; [|done|done|].
  - exists parent. rewrite Hps. split; [by rewrite lookup_singleton_eq|]. split; [done|]. split; [done|]. intros c Hc'. rewrite Hc in Hc'. injection Hc' as <-.
    by rewrite Hsp.
  - intros idx p' parent'. rewrite Hps. intros [<- <-]%lookup_singleton_Some. rewrite Hid. intros He. by apply (child_id_other idx "p-y").
  - intros id rs Hl _ Hi. apply od_get_in, list_elem_of_In in Hl. rewrite forallb_forall in Hidx. specialize (Hidx _ Hl). cbn in Hidx.
    rewrite Hi in Hidx. done.
Qed.
Ltac second_sample_ok :=
  apply second_sample_allowed;
  [eexists; vm_compute; repeat split|vm_compute; tauto|vm_compute; by intros ?|eexists; vm_compute; repeat split|vm_compute; reflexivity].

(** A coroutine that is adding samples goes on while the engine is paused: the
    request runs although [pause_generation] has aborted everything. *)
Example fan_out_escapes_pause : let w := sample_world (two_requests ++ [Pause false; second_sample]) in
  sample_reach w ∧ _paused (aw w) = true ∧ is_Some (live (al_processor (aw w)) "1_p-y").
Proof.
  split; [|vm_compute; split; [reflexivity|by eexists]].
  assert (H := sample_world_snoc _ (Pause false) two_requests_reachable I).
  change (two_requests ++ [Pause false; second_sample]) with ((two_requests ++ [Pause false]) ++ [second_sample]).
  apply sample_world_snoc; [exact H|]. second_sample_ok.
Qed.

(** The single request ends, and everything is delivered. *)
Definition quiet_actions : list async_action :=
  ((((((two_requests ++ [second_sample]) ++ [CoreTake]) ++
   [CoreEmit [answer ("r-x", [97]); answer ("0_p-y", [])]]) ++ [HandlerReceive]) ++ [HandlerChunk]) ++ [HandlerAbort]).
Lemma quiet_reachable : sample_reach (sample_world quiet_actions).
Proof.
  unfold quiet_actions.
  apply sample_world_snoc; [|exact I]. apply sample_world_snoc; [|reflexivity].
  apply sample_world_snoc; [|by vm_compute; repeat split]. apply sample_world_snoc.
  - apply sample_world_snoc; [|exact I]. apply sample_world_snoc; [exact two_requests_reachable|]. second_sample_ok.
  - split; [by repeat constructor|]. intros o [->|[->|[]%elem_of_nil]%elem_of_cons]%elem_of_cons; vm_compute; reflexivity.
Qed.

Lemma async_requests_agree_witness : sample_reach (sample_world quiet_actions) ∧ quiet_wire (aw (sample_world quiet_actions)) ∧
  "1_p-y" ∈ wr_running (al_client (aw (sample_world quiet_actions))) ∧ live (al_processor (aw (sample_world quiet_actions))) "r-x" = None.
Proof.
  assert (Hq : quiet_wire (aw (sample_world quiet_actions))) by (vm_compute; repeat split).
  split; [exact quiet_reachable|]. split; [exact Hq|].
  destruct (async_requests_agree true char_detokenizer (λ _, None) 1 elements 128 (λ _, reflexivity _) _ quiet_reachable) as (_ & _ & Ha & _ & _).
  split.
  - apply (Ha Hq). vm_compute. by eexists.
  - assert (Hn : ¬ is_Some (live (al_processor (aw (sample_world quiet_actions))) "r-x")).
    { rewrite (Ha Hq). vm_compute. by intros ?. }
    destruct (live (al_processor (aw (sample_world quiet_actions))) "r-x"); [|reflexivity]. destruct Hn. by eexists.
Defined.
